(* ===== verification/_CoqProject ===== *)
-Q . S2P
Prelude.v
Float.v
HnswGraph.v
LayoutBfs.v
LayoutRcm.v
LayoutRabbit.v
LayoutGorder.v
UnitHeapSpec.v
UnitHeapOps.v
UnitHeapBuild.v
UnitHeapRefine.v
GorderWalk.v
GorderPerm.v
LayoutIndex.v
LayoutProps.v
Expected.v
Num.v
StdHeap.v
SparseUtils.v
Bitset.v
MemoryIO.v
SparseIndex.v
SparseIndexSpec.v
SparseSearch.v
SparseProps.v
SparseDaat.v
SparseWand.v
SparseMaxScore.v
SparseExact.v
SparseSerial.v
SparseSerialV0.v
SparseMmap.v
Operands.v
Distances.v
DistanceProps.v
Rvv.v
RvvKernels.v
RvvProps.v
RvvColumns.v
RvvTail.v
Simd.v
SimdProps.v
AvxKernels.v
AvxProps.v
SseKernels.v
SseProps.v
Avx512Kernels.v
Avx512MinHash.v
Avx512Props.v
Avx512MinHashProps.v
Avx512Icx.v
X86Spec.v
Neon.v
NeonProps.v
NeonInt8.v
NeonSpec.v
Sve.v
SveProps.v
SveInt8.v
SveSpec.v
Ppc.v
Hook.v
HookProps.v
HookSpec.v
RangeUtil.v
Bloom.v
RwLock.v
BlockingQueue.v
EmbList.v
ResultHeap.v
Config.v
Configs.v
ConfigProps.v
LoadSpec.v
Iterators.v
IteratorProps.v
SparseNode.v
SparseIndexNode.v
MinHash.v
BruteForce.v
