(* ===== verification/Prelude.v ===== *)
(** * River: a verification library for the RIVER vector-search artifact

    The repository is Knowhere, a C++ engine for approximate nearest-neighbour
    search (src/src, src/include/knowhere), with a modified copy of faiss
    (src/thirdparty/faiss) that holds the HNSW graph index.  An index node of
    Knowhere receives vectors or sparse rows, builds an index (a graph, an
    inverted index), filters candidates with a [BitsetView], computes distances
    with the kernels of src/simd, collects the best results in bounded heaps and
    serialises itself through [MemoryIOWriter].  The artifact adds layout passes
    that renumber a built HNSW graph for memory locality (GOrder, ROrder, RCM,
    Rabbit order, BFS).

    ** Conventions

    The embedding is shallow.  A routine that may throw, leave a vector or loop
    is a value of the error monad [M] below; [Undef] is C++ undefined behaviour
    and also the result of a loop whose fuel ran out, and every theorem about
    the result of a routine concludes [Ret] (or a given [Throw]), so it rules
    both out and states termination.  Fuel is always computed from the input
    (the number of nodes, edges, slots or elements a loop can visit), so no
    definition has a fuel argument that a caller chooses.  Specifications are
    proved in the total-correctness predicate [wp].  Machine integers are [Z] or
    [nat] with wrap-around or overflow written out where the code depends on
    it; [float] and [double] are the IEEE-754 formats of Float.v.  Code that
    the C++ templates write over a value type is written over the class [Num]
    of Num.v and runs on binary32 numbers and on exact integers; a theorem that
    needs exact arithmetic is stated on integers, one that needs only the
    ordering is stated for [NumOrder].  [std::sort] with ties, the iteration
    order of [std::unordered_map], random levels and answers of the operating
    system are parameters with their documented contract (classes [StdSort],
    [MapIter], arguments [drawn], [os]).

    ** Files, and what their theorems show

    - Prelude.v: the monad, vectors and loops with their rules, slices,
      permutations, [std::sort], [memcpy], C-string comparison.
    - Float.v, Num.v: binary32/64 and the score interface.  StdHeap.v:
      [std::push_heap] and [std::pop_heap] as libstdc++ has them.
    - HnswGraph.v (module [HNSW]; faiss/impl/HNSW.h, HNSW.cpp): the flat
      adjacency table, its accessors, growth and renumbering, the
      well-formedness invariant [HNSW.wf].
    - LayoutBfs.v, LayoutRcm.v, LayoutRabbit.v, LayoutGorder.v
      (faiss/IndexHNSW.cpp): the node orders.  UnitHeapSpec.v,
      UnitHeapOps.v, UnitHeapBuild.v: the pointer reasoning about the [UnitHeap]
      of GOrder (lists threaded through arrays, bucket headers, lazy updates);
      UnitHeapRefine.v: it refines a priority list (C2).  GorderWalk.v and
      GorderPerm.v: GOrder terminates with a permutation (C3), and every round
      keeps the priorities equal to the affinities to the window (C4); both
      need link lists without repetitions and at most 214748362 nodes, so that
      a key stays below INT_MAX/2, the mark of placed vertices.
    - LayoutIndex.v: the index with its code storage, the layout pass and the id
      translation.  LayoutProps.v: the pass is a graph isomorphism that moves
      codes and norms along (C1), runs once and rejects bad arguments without
      touching the index (C5), records the permutation that translates result
      ids back; ROrder is the GOrder layout with sorted level-0 lists (C6); the
      undirected graph is the symmetric closure; growing the table keeps it well
      formed.
    - Bitset.v (bitsetview.h): word-wise counting and scanning agree with the
      bits (C21).
    - Expected.v (expected.h): statuses and value-or-error results.
    - SparseUtils.v, SparseIndex.v, SparseSearch.v (sparse_utils.h,
      sparse_inverted_index.h): heap, filters, index building, scoring, the
      term-at-a-time, WAND and MaxScore searches.  SparseIndexSpec.v: an index
      [represents] the rows added to it.  SparseProps.v: the heap collects the
      largest values (C22), scores are dot products with the stored rows (C10), the exhaustive
      search returns the top k of the unfiltered rows (C7).
      SparseDaat.v (cursors, bounds, threshold), SparseWand.v, SparseMaxScore.v
      and SparseExact.v: the pruned searches terminate and return the same, in
      exact arithmetic (C8); the refinement pass.
    - MemoryIO.v (io/memory_io.h): the writer holds what was written.
      SparseSerial.v, SparseSerialV0.v, SparseMmap.v: both file formats
      round-trip (C11; the row-wise one up to the quantisation of BM25, C33), a loaded index cannot be written again, the
      memory-mapped containers tile the mapped file.
    - Operands.v, Distances.v, DistanceProps.v (operands.h, simd/distances_ref.cc):
      bf16 conversions and the reference kernels: integer
      bounds (C30), scans, binary searches, RaBitQ popcounts, MinHash bands.
    - Rvv.v, RvvKernels.v (simd/distances_rvv.cc): the RISC-V vector extension as
      far as the kernels use it, and the kernels strip by strip.  The register
      length, the strips that [vsetvl] grants, agnostic lanes and the order of
      reductions are parameters.  RvvProps.v, RvvColumns.v: the
      kernels equal the scalar ones (C24); RvvTail.v: those
      that accumulate without [_tu] do so only on whole registers.
    - Simd.v: registers of fixed width, loads, masked loads, shuffles, strip loops.
      SseKernels.v, AvxKernels.v, Avx512Kernels.v, Avx512MinHash.v
      (simd/distances_sse.cc, distances_avx.cc, distances_avx512.cc): the x86
      kernels.  SimdProps.v carries the proofs (sums and maxima of
      lanes), AvxProps.v, SseProps.v, Avx512Props.v and
      Avx512MinHashProps.v the kernels.  X86Spec.v: they equal the scalar kernels in
      exact arithmetic (C25), the Linf kernels also on
      binary32 numbers; argmin and searches may pick another of several
      equal elements; the nearest row is the scalar kernel's only when some
      row is closer than the largest float; the Jaccard kernels count padding.
    - Neon.v (simd/distances_neon.cc): the NEON kernels.  NeonProps.v
      and NeonInt8.v carry the proofs;
      NeonSpec.v: they equal the scalar kernels (C26), except that the argmin
      reads behind short arrays and the int8 kernels behind vectors whose
      last strip is incomplete.
    - Sve.v (simd/distances_sve.cc): the SVE kernels for an arbitrary
      register length ([SveImpl]).  SveProps.v and
      SveInt8.v carry the proofs; SveSpec.v: they equal the scalar
      kernels (C27); rows of dimension 2 are read one element behind the
      end, argmin may pick another of several least elements.
    - Ppc.v (simd/distances_powerpc.cc): the PowerPC kernels
      equal the scalar ones but for two.
    - Hook.v (simd/hook.cc, simd/instruction_set.h, knowhere_config.cc): the table
      of function pointers as a state machine.  HookProps.v: only kernels the
      processor can run, given what [cpuid] reports and the compiler options of
      each file (C29), which options are not tested, what [SetSimdType]
      rebinds, the fp32-as-bf16 patch and its race with [fvec_hook].
      Avx512Icx.v (distances_avx512icx.cc): the population-count kernel.
      HookSpec.v: the contract of the table's callers for each of the 41
      pointers, kept in every reachable unpatched state of an x86 program
      (C28).
    - RangeUtil.v (range_util.h): range filtering and packing.
      Bloom.v (comp/bloomfilter.h): no false negatives, and a loaded filter that
      contains nothing.  RwLock.v (comp/rw_lock.h) and
      BlockingQueue.v (comp/blocking_queue.h): the concurrent protocols as step
      relations, invariants by rule induction, and a reachable state of the
      lock in which nobody is ever served again (C34, C35, C36).
      EmbList.v (emb_list_utils.h): offsets and aggregation (C37).
      ResultHeap.v (heap.h): the k smallest results.
    - Config.v (config.h, config.cc, materialized_view.cc): parameter entries,
      [FormatAndCheck], [Load]; Configs.v: the parameters and checks of the 29
      configuration classes, and the choice between graph search and brute
      force (IndexConditionalWrapper.cc).  The JSON library is the class
      [JsonLib] with the laws [JsonLaws]: a getter returns for its own kind of
      value and may throw for another, printing throws on ill-formed UTF-8.  ConfigProps.v carries
      the proofs; LoadSpec.v: loading returns a status and well-typed members
      (C31), in any order of the dictionary, with search limits that
      cover k (C32), from numbers or decimal strings; the
      product-quantizer classes skip a check, small integers wrap.
    - Iterators.v (index_node.h, object.h): the iterators over results, one over
      precomputed distances and one that asks its source for more candidates
      batch by batch, and the default range search over any iterator.
      IteratorProps.v: what they return and in which order
      (C18, C38), and that range search returns the results in the
      range.  Loops over an iterator take its bound as fuel.
    - SparseNode.v (sparse_index_node.cc): the ticket protocol of the concurrent
      sparse node as a step relation: adds and reads follow their tickets (C13),
      operations that take one permission finish (C15), an operation that
      takes two can deadlock (C16).  SparseIndexNode.v (also
      binaryset.h): the operations of the node over its index, chosen by metric and
      algorithm: exact range search (C17), serialisation into a binary
      set and back (C12), and what a reader of the concurrent
      node sees (C14).
    - MinHash.v (minhash_util.h, minhash_util.cc): search over the bands of
      signatures, directly (C23) and in sorted tables of hashes,
      which goes wrong behind the first band for any hash (C39).
    - BruteForce.v (comp/brute_force.cc, metric.h, utils.cc): sparse brute force
      (C19) agrees with the index (C9) and with its own
      iterator and range search; embedding lists (C20); dense and
      binary vectors with the scans of faiss as the class [Faiss], where filters and
      labels use real ids but two iterators do not filter (C40).

    ** Interfaces

    The heaps rely on [Num]/[NumOrder] (Num.v); the sparse searches on
    [DocIdFilter] (SparseIndex.v), whose contract the bitset and the sorted
    vector filter discharge in SparseProps.v; serialisation on [Pod]
    (MemoryIO.v), whose round-trip law every plain type proves; the layout pass
    on [StdSort]; loading a configuration on [JsonLaws] (Config.v), which a small
    JSON type in LoadSpec.v satisfies; callers of the distance kernels on [ExactTable]
    (HookSpec.v); range search on [Iterator] (Iterators.v), which both iterators
    implement; the batch-wise iterator on [Source] with [SourceLaws]; dense brute
    force on [Faiss] with [FaissLaws].  [BaseInvertedIndex] (SparseIndexNode.v) packs
    an index with its value type and algorithm, as the C++ base class does.

    ** Not modelled

    Construction and search of the HNSW graph, the hybrid scalar quantizer and
    the cache-line layout of the storage, IVF, DiskANN, GPU and Python
    parts, the nodes of the dense indexes and the factories, loading a sparse
    index from a mapped file, Jaccard search over MinHash signatures, and
    metrics: they call libraries whose code is not part of the engine, run on
    other hardware, or are glue without state. *)

From stdpp Require Export base functions list numbers option sorting strings gmap.
From Stdlib Require Export ZArith Lia.
From Stdlib Require Import Ascii.

Create HintDb river.

(** ** Computations

    Every routine of the library that may throw a C++ exception, read or write
    outside a vector, or loop, is a value of [M A].  [Throw e] is a thrown
    exception with its message; [Undef] stands for what the C++ code leaves
    undefined (an access outside a vector) and for a loop whose fuel was too
    small, so that a theorem that concludes [Ret] rules both out. *)

Inductive M (A : Type) : Type :=
  | Ret (a : A)
  | Throw (e : string)
  | Undef.
Arguments Ret {A} a.
Arguments Throw {A} e.
Arguments Undef {A}.

Definition bind {A B : Type} (m : M A) (f : A -> M B) : M B :=
  match m with
  | Ret a => f a
  | Throw e => Throw e
  | Undef => Undef
  end.

Declare Scope river_scope.
Delimit Scope river_scope with river.
Open Scope river_scope.

Notation "'let*' x ':=' e 'in' k" := (bind e (fun x => k))
  (at level 10, x pattern, e at level 200, k at level 200,
   format "'[v' 'let*'  x  ':='  e  'in' '/' k ']'") : river_scope.

(** [FAISS_THROW_IF_NOT_MSG] / [KNOWHERE_THROW_IF_NOT_FMT]. *)
Definition require (b : bool) (msg : string) : M unit :=
  if b then Ret tt else Throw msg.

(** Vector access: [vget] reads, [vset] writes, both undefined out of range. *)
Definition vget {A : Type} (l : list A) (i : nat) : M A :=
  match l !! i with
  | Some a => Ret a
  | None => Undef
  end.

Definition vset {A : Type} (l : list A) (i : nat) (x : A) : M (list A) :=
  if decide (i < length l) then Ret (<[i := x]> l) else Undef.

(** [for (auto a : l) s = f(s, a)]. *)
Fixpoint foldM {S A : Type} (f : S -> A -> M S) (s : S) (l : list A) : M S :=
  match l with
  | [] => Ret s
  | a :: l => let* s' := f s a in foldM f s' l
  end.

(** [while (cond(s)) s = body(s)], with fuel. *)
Fixpoint whileM {S : Type} (fuel : nat) (cond : S -> bool) (body : S -> M S) (s : S) : M S :=
  if cond s then
    match fuel with
    | 0 => Undef
    | S fuel => let* s' := body s in whileM fuel cond body s'
    end
  else Ret s.

(** ** Total-correctness assertions

    [wp m Q]: [m] returns a value, and the value satisfies [Q]. *)

Definition wp {A : Type} (m : M A) (Q : A -> Prop) : Prop :=
  match m with
  | Ret a => Q a
  | _ => False
  end.

Lemma wp_ret {A} (a : A) (Q : A -> Prop) : Q a -> wp (Ret a) Q.
Proof. done. Qed.

Lemma wp_bind {A B} (m : M A) (f : A -> M B) (Q : B -> Prop) :
  wp m (fun a => wp (f a) Q) -> wp (bind m f) Q.
Proof. by destruct m. Qed.

Lemma wp_mono {A} (m : M A) (P Q : A -> Prop) :
  wp m P -> (forall a, P a -> Q a) -> wp m Q.
Proof. destruct m; simpl; auto. Qed.

Lemma wp_elim {A} (m : M A) (Q : A -> Prop) :
  wp m Q -> exists a, m = Ret a /\ Q a.
Proof. destruct m; simpl; [eauto | done | done]. Qed.

Lemma bind_Ret_inv {A B} (m : M A) (f : A -> M B) b : bind m f = Ret b -> exists a, m = Ret a /\ f a = Ret b.
Proof. destruct m; [|done..]. intros H. by eexists. Qed.

Lemma wp_intro {A} (m : M A) (a : A) (Q : A -> Prop) : m = Ret a -> Q a -> wp m Q.
Proof. by intros ->. Qed.

Lemma wp_require b msg (Q : unit -> Prop) : b = true -> Q tt -> wp (require b msg) Q.
Proof. by intros ->. Qed.

Lemma vget_Ret {A} (l : list A) i x : vget l i = Ret x <-> l !! i = Some x.
Proof. unfold vget. destruct (l !! i); split; congruence. Qed.

Lemma wp_vget {A} (l : list A) i (Q : A -> Prop) :
  i < length l -> (forall x, l !! i = Some x -> Q x) -> wp (vget l i) Q.
Proof.
  intros Hi HQ. unfold vget.
  destruct (lookup_lt_is_Some_2 l i Hi) as [x Hx]. rewrite Hx. simpl. auto.
Qed.

Lemma wp_vset {A} (l : list A) i x (Q : list A -> Prop) :
  i < length l -> Q (<[i := x]> l) -> wp (vset l i x) Q.
Proof. intros Hi HQ. unfold vset. by rewrite decide_True. Qed.

(** The invariant rule of [foldM]: [I done s] speaks of the elements already
    processed and of the current state. *)
Lemma wp_foldM {S A} (f : S -> A -> M S) (I : list A -> S -> Prop) (l : list A) (s : S)
    (Q : S -> Prop) :
  I [] s ->
  (forall pre a post t, l = pre ++ a :: post -> I pre t -> wp (f t a) (I (pre ++ [a]))) ->
  (forall t, I l t -> Q t) ->
  wp (foldM f s l) Q.
Proof.
  intros H0 Hstep HQ.
  assert (forall post pre t, l = pre ++ post -> I pre t -> wp (foldM f t post) (I l)) as Hgen.
  { induction post as [|a post IH]; intros pre t Hl Ht; simpl.
    - rewrite app_nil_r in Hl. by subst.
    - apply wp_bind. eapply wp_mono; [by eapply Hstep|].
      intros t' Ht'. eapply IH; [|exact Ht']. by rewrite <- app_assoc. }
  eapply wp_mono; [by apply (Hgen l []) | auto].
Qed.

(** The simpler form, when the invariant does not speak of the elements. *)
Lemma wp_foldM_simple {S A} (f : S -> A -> M S) (I : S -> Prop) (l : list A) (s : S)
    (Q : S -> Prop) :
  I s ->
  (forall a t, a ∈ l -> I t -> wp (f t a) I) ->
  (forall t, I t -> Q t) ->
  wp (foldM f s l) Q.
Proof.
  intros H0 Hstep HQ. apply (wp_foldM f (fun _ => I)); [done| |done].
  intros pre a post t -> Ht. apply Hstep; [set_solver | done].
Qed.

(** The invariant-and-variant rule of [whileM]. *)
Lemma wp_whileM {S} (fuel : nat) (cond : S -> bool) (body : S -> M S) (s : S)
    (I : S -> Prop) (variant : S -> nat) (Q : S -> Prop) :
  I s -> variant s <= fuel ->
  (forall t, I t -> cond t = true ->
     wp (body t) (fun t' => I t' /\ variant t' < variant t)) ->
  (forall t, I t -> cond t = false -> Q t) ->
  wp (whileM fuel cond body s) Q.
Proof.
  revert s. induction fuel as [|fuel IH]; intros s HI Hv Hbody HQ; simpl.
  - destruct (cond s) eqn:Hc; [|by apply HQ].
    specialize (Hbody s HI Hc). apply wp_elim in Hbody as (t & _ & _ & Hlt). lia.
  - destruct (cond s) eqn:Hc; [|by apply HQ].
    apply wp_bind. eapply wp_mono; [by apply Hbody|].
    intros t [Ht Hlt]. apply IH; auto. lia.
Qed.

(** [wp_go] symbolically runs straight-line code. *)
Ltac wp_go :=
  repeat first
    [ apply wp_bind
    | apply wp_ret
    | apply wp_vget; [try lia | intros ? ?]
    | apply wp_vset; [try lia |] ].

(** ** Lists *)

(** [slice b e l] is [l[b:e]]. *)
Definition slice {A} (b e : nat) (l : list A) : list A := take (e - b) (drop b l).

Lemma length_slice {A} b e (l : list A) : e <= length l -> length (slice b e l) = e - b.
Proof. intros H. unfold slice. rewrite length_take, length_drop. lia. Qed.

Lemma lookup_slice {A} b e (l : list A) i :
  i < e - b -> slice b e l !! i = l !! (b + i).
Proof. intros H. unfold slice. rewrite lookup_take_lt by done. apply lookup_drop. Qed.

Lemma slice_cons {A} b e (l : list A) x :
  l !! b = Some x -> b < e -> slice b e l = x :: slice (S b) e l.
Proof.
  intros Hx Hlt. unfold slice. replace (e - b) with (S (e - S b)) by lia.
  by rewrite (drop_S _ _ _ Hx).
Qed.

Lemma slice_nil {A} b e (l : list A) : e <= b -> slice b e l = [].
Proof. intros H. unfold slice. by replace (e - b) with 0 by lia. Qed.

(** Filling a preallocated vector from left to right. *)
Lemma insert_next {A} (done : list A) (x y : A) rest :
  <[length done := x]> (done ++ y :: rest) = (done ++ [x]) ++ rest.
Proof. rewrite insert_app_r_alt by lia. rewrite Nat.sub_diag. simpl. by rewrite <- app_assoc. Qed.

Lemma drop_insert_here {A} (l : list A) n x : n < length l ->
  drop n (<[n := x]> l) = x :: drop (n + 1) l.
Proof.
  intros Hn. rewrite (drop_S _ x) by (by apply list_lookup_insert_eq).
  rewrite Nat.add_1_r. f_equal. apply drop_insert_lt. lia.
Qed.

Lemma wp_vset_next {A} (done rest : list A) i x (Q : list A -> Prop) :
  i = length done -> rest <> [] ->
  (forall y rest', rest = y :: rest' -> Q ((done ++ [x]) ++ rest')) ->
  wp (vset (done ++ rest) i x) Q.
Proof.
  intros -> Hr HQ. destruct rest as [|y rest]; [done|].
  apply wp_vset; [rewrite length_app; simpl; lia|].
  rewrite insert_next. by eapply HQ.
Qed.

(** Permutations of [0 .. n-1]: what every node order of a layout has to be. *)
Definition is_perm (n : nat) (p : list nat) : Prop := p ≡ₚ seq 0 n.

(** Not an instance: [is_perm] would be a candidate for [∈] on [list nat]. *)
Definition is_perm_dec n p : Decision (is_perm n p) := decide (p ≡ₚ seq 0 n).

Lemma is_perm_length n p : is_perm n p -> length p = n.
Proof. intros H. by rewrite H, length_seq. Qed.

Lemma is_perm_NoDup n p : is_perm n p -> NoDup p.
Proof. intros H. rewrite H. apply NoDup_seq. Qed.

Lemma is_perm_elem n p i : is_perm n p -> i ∈ p <-> i < n.
Proof. intros H. rewrite H, elem_of_seq. lia. Qed.

(** A duplicate-free list of [n] numbers below [n] is such a permutation. *)
Lemma is_perm_intro n p :
  NoDup p -> (forall i, i ∈ p <-> i < n) -> is_perm n p.
Proof.
  intros Hnd Hin. apply NoDup_Permutation; [done | apply NoDup_seq |].
  intros i. rewrite Hin, elem_of_seq. lia.
Qed.

Lemma is_perm_lookup n p i : is_perm n p -> i < n -> exists o, p !! i = Some o /\ o < n.
Proof.
  intros H Hi. destruct (lookup_lt_is_Some_2 p i) as [o Ho].
  { by rewrite (is_perm_length n p). }
  exists o. split; [done|]. rewrite <- (is_perm_elem n p) by done.
  by eapply list_elem_of_lookup_2.
Qed.

(** [for (i = b; i < b + m; i++)]: the invariant speaks of the loop counter. *)
Lemma wp_for {S} (f : S -> nat -> M S) (I : nat -> S -> Prop) b m s (Q : S -> Prop) :
  I b s ->
  (forall i t, b <= i < b + m -> I i t -> wp (f t i) (I (i + 1))) ->
  (forall t, I (b + m) t -> Q t) ->
  wp (foldM f s (seq b m)) Q.
Proof.
  revert b s. induction m as [|m IH]; intros b s H0 Hstep HQ; simpl.
  - apply HQ. by rewrite Nat.add_0_r.
  - apply wp_bind. eapply wp_mono; [apply Hstep; [lia | done]|].
    intros t Ht. apply IH.
    + by rewrite Nat.add_1_r in Ht.
    + intros i t' Hi. apply Hstep. lia.
    + intros t' Ht'. apply HQ. by replace (b + Datatypes.S m) with (Datatypes.S b + m) by lia.
Qed.

Lemma slice_snoc {A} b e (l : list A) x :
  l !! e = Some x -> b <= e -> slice b (e + 1) l = slice b e l ++ [x].
Proof.
  intros Hx Hle. unfold slice. replace (e + 1 - b) with (S (e - b)) by lia.
  apply take_S_r. rewrite lookup_drop. by replace (b + (e - b)) with e by lia.
Qed.

Lemma slice_app {A} b m e (l : list A) :
  b <= m <= e -> slice b m l ++ slice m e l = slice b e l.
Proof.
  intros H. unfold slice.
  rewrite <- (take_drop (m - b) (take (e - b) (drop b l))), take_take, skipn_firstn_comm, drop_drop.
  replace ((m - b) `min` (e - b)) with (m - b) by lia.
  replace (e - b - (m - b)) with (e - m) by lia.
  by replace (b + (m - b)) with m by lia.
Qed.

Lemma slice_all {A} (l : list A) : slice 0 (length l) l = l.
Proof. unfold slice. rewrite Nat.sub_0_r, drop_0. by apply take_ge. Qed.

Lemma length_concat_Permutation {A} (l k : list (list A)) :
  l ≡ₚ k -> length (concat l) = length (concat k).
Proof.
  induction 1; simpl; rewrite ?length_app; lia.
Qed.

(** Filters on a list whose parts are known. *)
Lemma filter_all {A} (P : A -> Prop) `{!forall x, Decision (P x)} (l : list A) : (forall x, x ∈ l -> P x) -> filter P l = l.
Proof.
  induction l as [|x l IH]; intros Hl; [done|]. rewrite filter_cons_True by (apply Hl; by left). f_equal.
  apply IH. intros y Hy. apply Hl. by right.
Qed.

Lemma filter_none {A} (P : A -> Prop) `{!forall x, Decision (P x)} (l : list A) : (forall x, x ∈ l -> ~ P x) -> filter P l = [].
Proof.
  induction l as [|x l IH]; intros Hl; [done|]. rewrite filter_cons_False by (apply Hl; by left).
  apply IH. intros y Hy. apply Hl. by right.
Qed.

Lemma elem_of_concat {A} (x : A) ls : x ∈ concat ls <-> exists l, l ∈ ls /\ x ∈ l.
Proof. rewrite list_elem_of_In, in_concat. by setoid_rewrite list_elem_of_In. Qed.

Lemma is_perm_full n p :
  NoDup p -> (forall i, i ∈ p -> i < n) -> length p = n -> is_perm n p.
Proof.
  intros Hnd Hb Hl. apply submseteq_length_Permutation; [|rewrite length_seq; lia].
  apply NoDup_submseteq; [done|]. intros i Hi%Hb. apply elem_of_seq. lia.
Qed.

(** Loops over nested and paired lists, flattened. *)

Lemma foldM_app {S B} (f : S -> B -> M S) s l k :
  foldM f s (l ++ k) = let* s' := foldM f s l in foldM f s' k.
Proof. revert s. induction l as [|x l IH]; intros s; simpl; [done|]. by destruct (f s x); simpl. Qed.

Lemma foldM_ext {S B} (f g : S -> B -> M S) s l : (forall t x, x ∈ l -> f t x = g t x) ->
  foldM f s l = foldM g s l.
Proof.
  revert s. induction l as [|x l IH]; intros s H; simpl; [done|]. rewrite H by (by left).
  destruct (g s x); simpl; [|done..]. apply IH. intros t y Hy. apply H. by right.
Qed.

Lemma foldM_fmap {S B C} (f : S -> C -> M S) (g : B -> C) s l :
  foldM f s (g <$> l) = foldM (fun s x => f s (g x)) s l.
Proof. revert s. induction l as [|x l IH]; intros s; simpl; [done|]. by destruct (f s (g x)); simpl. Qed.

Lemma foldM_concat {S B} (f : S -> B -> M S) s ls :
  foldM (foldM f) s ls = foldM f s (concat ls).
Proof.
  revert s. induction ls as [|l ls IH]; intros s; simpl; [done|]. rewrite foldM_app.
  by destruct (foldM f s l); simpl.
Qed.

Lemma foldM_zip {S B C} (f : S -> B -> C -> M S) s (l : list B) (k : list C) : length l = length k ->
  foldM (fun s j => let* x := vget l j in let* y := vget k j in f s x y) s (seq 0 (length l)) =
  foldM (fun s e => f s (fst e) (snd e)) s (zip l k).
Proof.
  revert s k. induction l as [|x l IH]; intros s [|y k] H; try done. simpl in H.
  cbn [length seq foldM zip zip_with fst snd]. change (vget (x :: l) 0) with (Ret x).
  change (vget (y :: k) 0) with (Ret y). cbn [bind].
  destruct (f s x y); cbn [bind]; [|done..]. rewrite <- fmap_S_seq, foldM_fmap. by apply IH; lia.
Qed.

(** ** Signed indices

    [int]-typed indices as the code has them; a negative one is out of range. *)
Definition vgetz {A : Type} (l : list A) (i : Z) : M A :=
  if (i <? 0)%Z then Undef else vget l (Z.to_nat i).

Definition vsetz {A : Type} (l : list A) (i : Z) (x : A) : M (list A) :=
  if (i <? 0)%Z then Undef else vset l (Z.to_nat i) x.

Lemma vgetz_of_nat {A} (l : list A) (i : nat) : vgetz l (Z.of_nat i) = vget l i.
Proof. unfold vgetz. rewrite (proj2 (Z.ltb_ge _ _)) by lia. by rewrite Nat2Z.id. Qed.

Lemma vsetz_of_nat {A} (l : list A) (i : nat) x : vsetz l (Z.of_nat i) x = vset l i x.
Proof. unfold vsetz. rewrite (proj2 (Z.ltb_ge _ _)) by lia. by rewrite Nat2Z.id. Qed.

(** ** std::sort

    What the standard promises: the result is a permutation of the range, in
    which no element precedes one that compares less, provided the comparator
    is a strict weak order on the range.  Elements that compare equal may come
    in any order, so the routines that sort with such a comparator are stated
    for every function with this contract. *)
Definition swo_on {A} (l : list A) (ltb : A -> A -> bool) : Prop :=
  (forall x y, x ∈ l -> y ∈ l -> ltb x y = true -> ltb y x = false) /\
  (forall x y z, x ∈ l -> y ∈ l -> z ∈ l -> ltb x y = false -> ltb y z = false -> ltb x z = false).

Class StdSort := {
  std_sort : forall {A : Type}, (A -> A -> bool) -> list A -> list A;
  std_sort_perm : forall A (ltb : A -> A -> bool) l, std_sort ltb l ≡ₚ l;
  std_sort_sorted : forall A (ltb : A -> A -> bool) l, swo_on l ltb ->
    StronglySorted (fun x y => ltb y x = false) (std_sort ltb l)
}.

(** Insertion sort has that contract. *)
Fixpoint insert_sorted {A} (ltb : A -> A -> bool) (x : A) (l : list A) : list A :=
  match l with
  | [] => [x]
  | y :: l' => if ltb y x then y :: insert_sorted ltb x l' else x :: l
  end.

Definition insertion_sort {A} (ltb : A -> A -> bool) (l : list A) : list A :=
  foldr (insert_sorted ltb) [] l.

Lemma insert_sorted_perm {A} (ltb : A -> A -> bool) x l : insert_sorted ltb x l ≡ₚ x :: l.
Proof.
  induction l as [|y l IH]; simpl; [done|]. destruct (ltb y x); [|done].
  rewrite IH. constructor.
Qed.

Lemma insertion_sort_perm {A} (ltb : A -> A -> bool) l : insertion_sort ltb l ≡ₚ l.
Proof. induction l as [|x l IH]; simpl; [done|]. by rewrite insert_sorted_perm, IH. Qed.

Lemma swo_on_submseteq {A} (l k : list A) ltb :
  (forall x, x ∈ l -> x ∈ k) -> swo_on k ltb -> swo_on l ltb.
Proof. intros H [Ha Hn]. split; [intros x y ? ?; apply Ha; auto | intros x y z ? ? ?; apply Hn; auto]. Qed.

Lemma insert_sorted_sorted {A} (ltb : A -> A -> bool) x l : swo_on (x :: l) ltb ->
  StronglySorted (fun x y => ltb y x = false) l ->
  StronglySorted (fun x y => ltb y x = false) (insert_sorted ltb x l).
Proof.
  intros Hsw Hs. induction Hs as [|y l Hs IH Hy]; simpl; [by repeat constructor|].
  destruct Hsw as [Ha Hn]. destruct (ltb y x) eqn:E.
  - constructor.
    + apply IH. apply (swo_on_submseteq _ (x :: y :: l)); [|done].
      intros z. rewrite !elem_of_cons. tauto.
    + rewrite insert_sorted_perm. constructor; [|done]. apply Ha; [set_solver..|done].
  - constructor; [by constructor|]. constructor; [done|].
    apply Forall_forall. intros z Hz. apply (Hn z y x); [set_solver..| |done].
    by apply (proj1 (Forall_forall _ _) Hy).
Qed.

Lemma insertion_sort_sorted {A} (ltb : A -> A -> bool) l : swo_on l ltb ->
  StronglySorted (fun x y => ltb y x = false) (insertion_sort ltb l).
Proof.
  induction l as [|x l IH]; intros Hsw; simpl; [constructor|]. apply insert_sorted_sorted.
  - eapply swo_on_submseteq; [|exact Hsw]. intros y. by rewrite insertion_sort_perm.
  - apply IH. eapply swo_on_submseteq; [|exact Hsw]. set_solver.
Qed.

#[export] Instance insertion_StdSort : StdSort := {|
  std_sort A ltb l := insertion_sort ltb l;
  std_sort_perm A := insertion_sort_perm;
  std_sort_sorted A := insertion_sort_sorted
|}.

(** ** memcpy

    [memcpy(dst + doff, src + soff, n)] on the bytes (or elements) of two
    vectors; undefined when either range leaves its vector. *)
Definition memcpy {A} (dst : list A) (doff : nat) (src : list A) (soff n : nat) : M (list A) :=
  if decide (doff + n <= length dst /\ soff + n <= length src) then
    Ret (take doff dst ++ slice soff (soff + n) src ++ drop (doff + n) dst)
  else Undef.

Lemma wp_memcpy {A} (dst : list A) doff src soff n (Q : list A -> Prop) :
  doff + n <= length dst -> soff + n <= length src ->
  Q (take doff dst ++ slice soff (soff + n) src ++ drop (doff + n) dst) ->
  wp (memcpy dst doff src soff n) Q.
Proof. intros H1 H2 HQ. unfold memcpy. by rewrite decide_True. Qed.

(** Row [i] of a matrix stored row after row. *)
Definition row {A} (w i : nat) (l : list A) : list A := slice (i * w) (i * w + w) l.

Lemma length_row {A} w i n (l : list A) : length l = n * w -> i < n -> length (row w i l) = w.
Proof. intros Hl Hi. unfold row. rewrite length_slice; [lia|]. rewrite Hl. nia. Qed.

Lemma length_concat_rows {A} w (rows : list (list A)) :
  Forall (fun r => length r = w) rows -> length (concat rows) = length rows * w.
Proof. induction 1; simpl; [done|]. rewrite length_app. lia. Qed.

Lemma row_concat {A} w i r (rows : list (list A)) :
  Forall (fun r => length r = w) rows -> rows !! i = Some r -> row w i (concat rows) = r.
Proof.
  intros Hw Hi. pose proof (proj1 (Forall_lookup _ _) Hw _ _ Hi) as Hr. simpl in Hr.
  unfold row, slice. rewrite <- (take_drop_middle _ _ _ Hi), concat_app. simpl.
  assert (length (concat (take i rows)) = i * w) as Hpre.
  { rewrite (length_concat_rows w) by (by apply Forall_take). rewrite length_take.
    apply lookup_lt_Some in Hi. f_equal. lia. }
  rewrite drop_app_length' by done. rewrite take_app_length' by lia. done.
Qed.

(** Overwriting [l[b:e]]. *)
Lemma lookup_splice_out {A} b e (W l : list A) pos :
  length W = e - b -> b <= e <= length l -> pos < b \/ e <= pos ->
  (take b l ++ W ++ drop e l) !! pos = l !! pos.
Proof.
  intros HW Hbe [Hp|Hp].
  - rewrite lookup_app_l by (rewrite length_take; lia). by rewrite lookup_take_lt.
  - rewrite lookup_app_r by (rewrite length_take; lia).
    rewrite lookup_app_r by (rewrite length_take; lia).
    rewrite lookup_drop, length_take. f_equal. lia.
Qed.

Lemma slice_splice {A} b e (W l : list A) :
  length W = e - b -> b <= e <= length l -> slice b e (take b l ++ W ++ drop e l) = W.
Proof.
  intros HW Hbe. unfold slice. rewrite drop_app_length' by (rewrite length_take; lia).
  by rewrite take_app_length' by lia.
Qed.

Lemma slice_ext {A} b e (l k : list A) : length l = length k ->
  (forall pos, b <= pos < e -> l !! pos = k !! pos) -> slice b e l = slice b e k.
Proof.
  intros Hl H. apply list_eq. intros i. unfold slice.
  destruct (decide (i < e - b)).
  - rewrite !lookup_take_lt, !lookup_drop by done. apply H. lia.
  - by rewrite !lookup_take_ge by lia.
Qed.

(** ** Case-insensitive comparison of C strings *)

(** [std::tolower] in the C locale. *)
Definition tolower (c : ascii) : ascii :=
  let n := nat_of_ascii c in
  if (65 <=? n) && (n <=? 90) then ascii_of_nat (n + 32) else c.

Fixpoint string_equals (lhs rhs : string) : bool :=
  match lhs, rhs with
  | EmptyString, EmptyString => true
  | String a l, String b r => Ascii.eqb (tolower a) (tolower b) && string_equals l r
  | _, _ => false
  end.

Fixpoint lower (s : string) : string :=
  match s with
  | EmptyString => EmptyString
  | String a s => String (tolower a) (lower s)
  end.

Lemma string_equals_lower a b : string_equals a b = true <-> lower a = lower b.
Proof.
  revert b. induction a as [|x a IH]; intros [|y b]; simpl; try done.
  rewrite andb_true_iff, Ascii.eqb_eq, IH. split; [intros [-> ->]; done | by intros [= -> ->]].
Qed.
