(* ===== verification/Float.v ===== *)
(** * Floating-point numbers

    [float] and [double] as the IEEE-754 binary32 and binary64 formats of the
    Standard Library's executable specification ([SpecFloat]): every operation
    is the exact result rounded to nearest, ties to even.  The file adds the
    object representation (the 32-bit pattern the code reads through unions and
    [memcpy]), the conversions the code uses, and the ordering facts that the
    heaps and filters rely on. *)

From S2P Require Import Prelude.
From Stdlib Require Export SpecFloat.

#[local] Open Scope Z_scope.

(** ** Ordering

    What a sorting or heap routine needs from [operator<] on the values it
    handles: on the values satisfying [ok] (no NaN), [ltb] is a strict weak
    order. *)
Class StrictWeak {A : Type} (ok : A -> Prop) (ltb : A -> A -> bool) : Prop := {
  sw_asym : forall x y, ok x -> ok y -> ltb x y = true -> ltb y x = false;
  sw_negtrans : forall x y z, ok x -> ok y -> ok z ->
    ltb x y = false -> ltb y z = false -> ltb x z = false
}.

Section strict_weak.
Context {A : Type} {ok : A -> Prop} {ltb : A -> A -> bool} `{!StrictWeak ok ltb}.

Lemma sw_irrefl x : ok x -> ltb x x = false.
Proof. intros Hx. destruct (ltb x x) eqn:E; [|done]. by rewrite (sw_asym x x) in E. Qed.

Lemma sw_trans x y z : ok x -> ok y -> ok z -> ltb x y = true -> ltb y z = true -> ltb x z = true.
Proof.
  intros Hx Hy Hz Hxy Hyz. destruct (ltb x z) eqn:E; [done|].
  apply sw_asym in Hyz; [|done..]. by rewrite (sw_negtrans x z y) in Hxy.
Qed.

Lemma sw_lt_le x y z : ok x -> ok y -> ok z -> ltb x y = true -> ltb z y = false -> ltb x z = true.
Proof.
  intros Hx Hy Hz Hxy Hyz. destruct (ltb x z) eqn:E; [done|].
  by rewrite (sw_negtrans x z y) in Hxy.
Qed.

End strict_weak.

(** ** Binary32 *)

Module F32.

Definition prec : Z := 24.
Definition emax : Z := 128.

Definition add := SFadd prec emax.
Definition sub := SFsub prec emax.
Definition mul := SFmul prec emax.
Definition div := SFdiv prec emax.
Definition zero : spec_float := S754_zero false.
Definition one : spec_float := SFone prec emax.

(** Conversion from an integer, rounded. *)
Definition of_Z (z : Z) : spec_float := binary_normalize prec emax z 0 false.

(** The object representation: sign, 8 exponent bits, 23 mantissa bits. *)
Definition of_bits (w : Z) : spec_float :=
  let s := Z.testbit w 31 in
  let e := Z.land (Z.shiftr w 23) 255 in
  let m := Z.land w 8388607 in
  if e =? 255 then (if m =? 0 then S754_infinity s else S754_nan)
  else if e =? 0 then
    match m with
    | Zpos p => S754_finite s p (-149)
    | _ => S754_zero s
    end
  else
    match m + 8388608 with
    | Zpos p => S754_finite s p (e - 150)
    | _ => S754_nan
    end.

(** The pattern of a value; a NaN gets the default quiet pattern. *)
Definition to_bits (f : spec_float) : Z :=
  let sgn (s : bool) := if s then 2147483648 else 0 in
  match f with
  | S754_zero s => sgn s
  | S754_infinity s => sgn s + 2139095040
  | S754_nan => 2143289344
  | S754_finite s m e =>
      if Zpos m <? 8388608 then sgn s + Zpos m
      else sgn s + Z.shiftl (e + 150) 23 + (Zpos m - 8388608)
  end.

End F32.

(** ** Binary64 *)

Module F64.

Definition prec : Z := 53.
Definition emax : Z := 1024.

Definition add := SFadd prec emax.
Definition sub := SFsub prec emax.
Definition mul := SFmul prec emax.
Definition div := SFdiv prec emax.
Definition zero : spec_float := S754_zero false.
Definition one : spec_float := SFone prec emax.
Definition of_Z (z : Z) : spec_float := binary_normalize prec emax z 0 false.

(** [static_cast<double>(f)]: exact. *)
Definition of_f32 (f : spec_float) : spec_float :=
  match f with
  | S754_finite s m e => binary_normalize prec emax (if s then Zneg m else Zpos m) e s
  | _ => f
  end.

(** [static_cast<float>(d)]: rounded. *)
Definition to_f32 (f : spec_float) : spec_float :=
  match f with
  | S754_finite s m e => binary_normalize F32.prec F32.emax (if s then Zneg m else Zpos m) e s
  | _ => f
  end.

End F64.

(** ** Comparison is a strict weak order away from NaN *)

Definition is_nan (f : spec_float) : bool := match f with S754_nan => true | _ => false end.

(** [std::isfinite]. *)
Definition is_finite (f : spec_float) : bool :=
  match f with S754_zero _ | S754_finite _ _ _ => true | _ => false end.

(** Lexicographic rank of a value: class, exponent, mantissa. *)
Definition rank (f : spec_float) : Z * Z * Z :=
  match f with
  | S754_infinity true => (-2, 0, 0)
  | S754_finite true m e => (-1, - e, - Zpos m)
  | S754_zero _ => (0, 0, 0)
  | S754_finite false m e => (1, e, Zpos m)
  | S754_infinity false => (2, 0, 0)
  | S754_nan => (3, 0, 0)
  end.

Definition rank_lt (a b : Z * Z * Z) : Prop :=
  let '(a1, a2, a3) := a in let '(b1, b2, b3) := b in
  a1 < b1 \/ (a1 = b1 /\ (a2 < b2 \/ (a2 = b2 /\ a3 < b3))).

Lemma SFltb_rank x y : is_nan x = false -> is_nan y = false ->
  SFltb x y = true <-> rank_lt (rank x) (rank y).
Proof.
  intros Hx Hy. unfold SFltb, SFcompare.
  destruct x as [sx|sx| |sx mx ex]; [| |done|]; (destruct y as [sy|sy| |sy my ey]; [| |done|]);
    try destruct sx; try destruct sy; simpl; try (split; [done|lia]); try (split; [lia|done]);
    change (Pos.compare_cont Eq mx my) with (Pos.compare mx my);
    destruct (Z.compare_spec ex ey); try (destruct (Pos.compare_spec mx my));
    simpl; (split; [intros; try done; lia | intros; try done; exfalso; lia]).
Qed.

#[export] Instance SFltb_strict_weak : StrictWeak (fun f => is_nan f = false) SFltb.
Proof.
  split.
  - intros x y Hx Hy Hxy. apply not_true_iff_false. rewrite SFltb_rank in * by done.
    destruct (rank x) as [[? ?] ?], (rank y) as [[? ?] ?]. simpl in *. lia.
  - intros x y z Hx Hy Hz. rewrite <- !not_true_iff_false, !SFltb_rank by done.
    destruct (rank x) as [[? ?] ?], (rank y) as [[? ?] ?], (rank z) as [[? ?] ?]. simpl. lia.
Qed.

(** Exact integer scores order in the same way. *)
#[export] Instance Zltb_strict_weak : StrictWeak (fun _ : Z => True) Z.ltb.
Proof. split; intros *; rewrite ?Z.ltb_lt, ?Z.ltb_ge; lia. Qed.

(** ** Bit patterns and values *)

(** A 32-bit pattern as sign, exponent and mantissa fields. *)
Lemma bits_split w : 0 <= w < 2 ^ 32 ->
  w = (if Z.testbit w 31 then 2147483648 else 0) + Z.land (Z.shiftr w 23) 255 * 8388608 + Z.land w 8388607 /\
  0 <= Z.land (Z.shiftr w 23) 255 < 256 /\ 0 <= Z.land w 8388607 < 8388608.
Proof.
  intros Hw. change 255 with (Z.ones 8). change 8388607 with (Z.ones 23).
  rewrite !Z.land_ones, Z.shiftr_div_pow2 by lia. rewrite Z.testbit_eqb by lia.
  change (2 ^ 8) with 256. change (2 ^ 23) with 8388608. change (2^31) with 2147483648.
  pose proof (Z.mod_pos_bound w 8388608). pose proof (Z.mod_pos_bound (w / 8388608) 256).
  split; [|lia].
  assert (w / 2147483648 = w / 8388608 / 256) as Hd by (rewrite Z.div_div; [done|lia..]).
  pose proof (Z.div_mod w 8388608). pose proof (Z.div_mod (w / 8388608) 256).
  assert (0 <= w / 2147483648 < 2) as Hs.
  { split; [apply Z.div_pos; lia|apply Z.div_lt_upper_bound; lia]. }
  destruct (Z.eqb_spec (w / 2147483648 mod 2) 1) as [Hx|Hx].
  - rewrite Z.mod_small in Hx by done. lia.
  - rewrite Z.mod_small in Hx by done. lia.
Qed.

Lemma to_bits_of_bits w : 0 <= w < 2 ^ 32 -> is_nan (F32.of_bits w) = false -> F32.to_bits (F32.of_bits w) = w.
Proof.
  intros Hw. destruct (bits_split w Hw) as (Heq & He & Hm). unfold F32.of_bits.
  destruct (Z.testbit w 31); set (e := Z.land (Z.shiftr w 23) 255) in *; set (m := Z.land w 8388607) in *;
  (destruct (Z.eqb_spec e 255) as [->|Hne];
  [destruct (Z.eqb_spec m 0) as [->|]; [intros _; simpl in *; lia|done]|]);
  (destruct (Z.eqb_spec e 0) as [He0|Hne0]; intros _;
  [destruct m as [|p|p] eqn:Hp; simpl in *; try lia;
    rewrite (proj2 (Z.ltb_lt _ _)) by lia; lia|
   destruct (m + 8388608) as [|p|p] eqn:Hp; try lia; unfold F32.to_bits;
    rewrite (proj2 (Z.ltb_ge _ _)) by lia; rewrite Z.shiftl_mul_pow2 by lia; change (2 ^ 23) with 8388608; lia]).
Qed.

Lemma digits2_bounds m : 2 ^ (Zpos (digits2_pos m) - 1) <= Zpos m < 2 ^ Zpos (digits2_pos m).
Proof.
  induction m as [m IH|m IH|]; simpl digits2_pos; [| |lia];
    rewrite Pos2Z.inj_succ; replace (Z.succ (Zpos (digits2_pos m)) - 1) with (Zpos (digits2_pos m)) by lia;
    rewrite Z.pow_succ_r by lia;
    replace (2 ^ Zpos (digits2_pos m)) with (2 * 2 ^ (Zpos (digits2_pos m) - 1)) in *
      by (rewrite <- Z.pow_succ_r by lia; f_equal; lia); lia.
Qed.

(** A canonical mantissa is normal, or the exponent is the least one. *)
Lemma bounded_cases m e : bounded 24 128 m e = true ->
  (8388608 <= Zpos m < 16777216 /\ -149 <= e <= 104) \/ (Zpos m < 8388608 /\ e = -149).
Proof.
  unfold bounded, canonical_mantissa, fexp, emin. rewrite andb_true_iff, Z.eqb_eq, Z.leb_le.
  intros [Hc He]. pose proof (digits2_bounds m) as [Hlo Hhi]. set (d := Zpos (digits2_pos m)) in *.
  assert (d <= 24) as Hd by lia.
  destruct (decide (d = 24)) as [Heq|Hne].
  - left. rewrite Heq in *. simpl in Hlo, Hhi. lia.
  - right. split; [|lia]. assert (2 ^ d <= 2 ^ 23) by (apply Z.pow_le_mono_r; lia). simpl in *. lia.
Qed.

Lemma of_bits_to_bits f : valid_binary 24 128 f = true ->
  0 <= F32.to_bits f < 2 ^ 32 /\ F32.of_bits (F32.to_bits f) = f.
Proof.
  destruct f as [s|s| |s m e]; [by destruct s|by destruct s|done|]. cbn [valid_binary].
  intros Hb%bounded_cases.
  set (sg := if s then 2147483648 else 0). set (eb := if Zpos m <? 8388608 then 0 else e + 150).
  set (mb := if Zpos m <? 8388608 then Zpos m else Zpos m - 8388608).
  assert (F32.to_bits (S754_finite s m e) = sg + eb * 8388608 + mb /\ 0 <= eb < 255 /\ 0 <= mb < 8388608)
    as (Hw & Heb & Hmb).
  { unfold F32.to_bits, eb, mb. fold sg. destruct (Z.ltb_spec (Zpos m) 8388608); [lia|].
    rewrite Z.shiftl_mul_pow2 by lia. change (2 ^ 23) with 8388608. lia. }
  rewrite Hw. assert (0 <= sg + eb * 8388608 + mb < 2 ^ 32) as Hr by (unfold sg; destruct s; lia).
  split; [done|]. destruct (bits_split _ Hr) as (Heq & He & Hm).
  unfold F32.of_bits. set (w := sg + eb * 8388608 + mb) in *.
  set (e' := Z.land (Z.shiftr w 23) 255) in *. set (m' := Z.land w 8388607) in *.
  assert (Z.testbit w 31 = s /\ e' = eb /\ m' = mb) as (-> & -> & ->).
  { clearbody e' m'. destruct (Z.testbit w 31); unfold w, sg in Heq; destruct s; split_and!; try done; lia. }
  rewrite (proj2 (Z.eqb_neq eb 255)) by lia. unfold eb, mb. destruct (Z.ltb_spec (Zpos m) 8388608) as [Hl|Hl].
  - simpl. f_equal. lia.
  - rewrite (proj2 (Z.eqb_neq _ 0)) by lia. replace (Zpos m - 8388608 + 8388608) with (Zpos m) by lia.
    f_equal. lia.
Qed.
