(* ===== verification/HnswGraph.v ===== *)
(** * The HNSW link structure (faiss/impl/HNSW.h, HNSW.cpp)

    The flat adjacency table of a hierarchical graph: node [i] owns the slots
    [offsets[i] .. offsets[i+1]) of [neighbors], one group per level, and a
    group is read up to its first negative entry.  The file models the table's
    accessors, its growth ([prepare_level_tab]), [clear_neighbor_tables],
    [reset] and the renumbering [permute_entries], and proves that each keeps
    the table well formed and that renumbering is a graph isomorphism. *)

From S2P Require Import Prelude.

Module HNSW.

(** The fields of [struct HNSW] that the modelled operations use. *)
Record t := mk {
  cum_nneighbor_per_level : list nat;
  levels : list nat;
  offsets : list nat;
  neighbors : list Z;
  entry_point : Z;
  max_level : Z
}.

Definition cum_nb_neighbors (h : t) (layer_no : nat) : M nat :=
  vget (cum_nneighbor_per_level h) layer_no.

Definition nb_neighbors (h : t) (layer_no : nat) : M Z :=
  let* hi := vget (cum_nneighbor_per_level h) (layer_no + 1) in
  let* lo := vget (cum_nneighbor_per_level h) layer_no in
  Ret (Z.of_nat hi - Z.of_nat lo)%Z.

Definition neighbor_range (h : t) (no layer_no : nat) : M (nat * nat) :=
  let* o := vget (offsets h) no in
  let* b := cum_nb_neighbors h layer_no in
  let* e := cum_nb_neighbors h (layer_no + 1) in
  Ret (o + b, o + e).

(** [for (j = begin; j < end; j++) { v = neighbors[j]; if (v < 0) break; s = f(s, v); }]:
    the loop every traversal of the table is written with. *)
Fixpoint for_links {S : Type} (nbrs : list Z) (js : list nat)
    (f : S -> nat -> M S) (s : S) : M S :=
  match js with
  | [] => Ret s
  | j :: js =>
      let* v := vget nbrs j in
      if (v <? 0)%Z then Ret s
      else let* s' := f s (Z.to_nat v) in for_links nbrs js f s'
  end.

Definition for_neighbors {S : Type} (h : t) (no layer_no : nat)
    (f : S -> nat -> M S) (s : S) : M S :=
  let* (b, e) := neighbor_range h no layer_no in
  for_links (neighbors h) (seq b (e - b)) f s.

Definition set_neighbors (h : t) (nbrs : list Z) : t :=
  mk (cum_nneighbor_per_level h) (levels h) (offsets h) nbrs (entry_point h) (max_level h).

(** [HNSW::clear_neighbor_tables]. *)
Definition clear_neighbor_tables (h : t) (level : nat) : M t :=
  let* nbrs := foldM (fun nbrs i =>
      let* (b, e) := neighbor_range h i level in
      foldM (fun nbrs j => vset nbrs j (-1)%Z) nbrs (seq b (e - b)))
    (neighbors h) (seq 0 (length (levels h))) in
  Ret (set_neighbors h nbrs).

(** [HNSW::reset]. *)
Definition reset (h : t) : t :=
  mk (cum_nneighbor_per_level h) [] [0] [] (-1) (-1).

(** [HNSW::prepare_level_tab(n, preset_levels)].  [drawn] are the values the
    [n] calls of [random_level] return when the levels are not preset. *)
Definition prepare_level_tab (h : t) (n : nat) (preset_levels : bool) (drawn : list nat)
    : M (t * nat) :=
  let n0 := length (offsets h) - 1 in
  let* lv :=
    if preset_levels then
      let* _ := require (n0 + n =? length (levels h)) "n0 + n == levels.size()" in
      Ret (levels h)
    else
      let* _ := require (n0 =? length (levels h)) "n0 == levels.size()" in
      foldM (fun lv i => let* pt_level := vget drawn i in Ret (lv ++ [pt_level + 1]))
        (levels h) (seq 0 n) in
  let* (ml, offs) := foldM (fun '(ml, offs) i =>
      let* l := vget lv (i + n0) in
      let pt_level := l - 1 in
      let ml' := if ml <? pt_level then pt_level else ml in
      let* back := vget offs (length offs - 1) in
      let* c := cum_nb_neighbors h (pt_level + 1) in
      Ret (ml', offs ++ [back + c]))
    (0, offsets h) (seq 0 n) in
  let* back := vget offs (length offs - 1) in
  Ret (mk (cum_nneighbor_per_level h) lv offs (resize back (-1)%Z (neighbors h))
          (entry_point h) (max_level h), ml).

(** [HNSW::permute_entries(map)], [map] being new index -> old index. *)
Definition remap (imap : list nat) (neigh : Z) : M Z :=
  if (0 <=? neigh)%Z then let* v := vget imap (Z.to_nat neigh) in Ret (Z.of_nat v)
  else Ret neigh.

Definition invert_map (map : list nat) (ntotal : nat) : M (list nat) :=
  foldM (fun imap i => let* m := vget map i in vset imap m i)
    (replicate ntotal 0) (seq 0 ntotal).

Definition permute_entries (h : t) (map : list nat) : M t :=
  let ntotal := length (levels h) in
  let* imap := invert_map map ntotal in
  let* ep := (if (entry_point h =? -1)%Z then Ret (entry_point h)
              else let* e := (if (entry_point h <? 0)%Z then Undef
                              else vget imap (Z.to_nat (entry_point h))) in
                   Ret (Z.of_nat e)) in
  let* (nl, noff, nn, no) := foldM (fun '(nl, noff, nn, no) i =>
      let* o := vget map i in
      let* l := vget (levels h) o in
      let* nl := vset nl i l in
      let* b := vget (offsets h) o in
      let* e := vget (offsets h) (o + 1) in
      let* (nn, no) := foldM (fun '(nn, no) j =>
          let* neigh := vget (neighbors h) j in
          let* v := remap imap neigh in
          let* nn := vset nn no v in
          Ret (nn, no + 1))
        (nn, no) (seq b (e - b)) in
      let* noff := vset noff (i + 1) no in
      Ret (nl, noff, nn, no))
    (replicate ntotal 0, replicate (ntotal + 1) 0,
     replicate (length (neighbors h)) 0%Z, 0) (seq 0 ntotal) in
  Ret (mk (cum_nneighbor_per_level h) nl noff nn ep (max_level h)).

(** ** Well-formedness *)

Record wf (h : t) (n : nat) : Prop := mk_wf {
  wf_cum_len : 2 <= length (cum_nneighbor_per_level h);
  wf_cum0 : cum_nneighbor_per_level h !! 0 = Some 0;
  wf_cum_mono : forall i a b, cum_nneighbor_per_level h !! i = Some a ->
                              cum_nneighbor_per_level h !! (i + 1) = Some b -> a <= b;
  wf_levels : length (levels h) = n;
  wf_level_range : forall i l, levels h !! i = Some l ->
                   1 <= l < length (cum_nneighbor_per_level h);
  wf_offsets : length (offsets h) = n + 1;
  wf_off0 : offsets h !! 0 = Some 0;
  wf_off_step : forall i l o c, levels h !! i = Some l -> offsets h !! i = Some o ->
                cum_nneighbor_per_level h !! l = Some c -> offsets h !! (i + 1) = Some (o + c);
  wf_neighbors : offsets h !! n = Some (length (neighbors h));
  wf_nbr_range : forall j v, neighbors h !! j = Some v -> (-1 <= v < Z.of_nat n)%Z;
  wf_entry : (-1 <= entry_point h < Z.of_nat n)%Z
}.

(** The abstract graph: the links of [no] at [layer_no] are the entries of its
    slot group before the first negative one. *)
Fixpoint live (l : list Z) : list nat :=
  match l with
  | [] => []
  | v :: l => if (v <? 0)%Z then [] else Z.to_nat v :: live l
  end.

Definition slots (h : t) (no layer_no : nat) : list Z :=
  match neighbor_range h no layer_no with
  | Ret (b, e) => slice b e (neighbors h)
  | _ => []
  end.

Definition links (h : t) (no layer_no : nat) : list nat := live (slots h no layer_no).

(** All slots of a node, whatever their level. *)
Definition block (h : t) (no : nat) : list Z :=
  match offsets h !! no, offsets h !! (no + 1) with
  | Some b, Some e => slice b e (neighbors h)
  | _, _ => []
  end.

(** ** Reading the table *)

Section table.
Context {h : t} {n : nat} (Hwf : wf h n).

Lemma offset_at i : i <= n -> exists o, offsets h !! i = Some o.
Proof.
  intros Hi. destruct (lookup_lt_is_Some_2 (offsets h) i) as [o Ho]; [|eauto].
  rewrite (wf_offsets _ _ Hwf). lia.
Qed.

Lemma level_at i : i < n -> exists l, levels h !! i = Some l /\
  1 <= l < length (cum_nneighbor_per_level h).
Proof.
  intros Hi. destruct (lookup_lt_is_Some_2 (levels h) i) as [l Hl].
  { by rewrite (wf_levels _ _ Hwf). }
  exists l. split; [done|]. by eapply wf_level_range.
Qed.

Lemma cum_at l : l < length (cum_nneighbor_per_level h) ->
  exists c, cum_nneighbor_per_level h !! l = Some c.
Proof. intros H. by apply lookup_lt_is_Some_2 in H as [c Hc]; eauto. Qed.

Lemma cum_le i j a b : i <= j ->
  cum_nneighbor_per_level h !! i = Some a -> cum_nneighbor_per_level h !! j = Some b -> a <= b.
Proof.
  intros Hij. revert b. induction Hij as [|j Hij IH]; intros b Ha Hb; [simplify_eq; lia|].
  destruct (cum_at j) as [c Hc]. { apply lookup_lt_Some in Hb. lia. }
  specialize (IH c Ha Hc).
  pose proof (wf_cum_mono _ _ Hwf j c b Hc) as Hm. rewrite Nat.add_1_r in Hm.
  specialize (Hm Hb). lia.
Qed.

Lemma offset_step i o : i < n -> offsets h !! i = Some o ->
  exists l c, levels h !! i = Some l /\ cum_nneighbor_per_level h !! l = Some c /\
              offsets h !! (i + 1) = Some (o + c).
Proof.
  intros Hi Ho. destruct (level_at i Hi) as (l & Hl & Hr).
  destruct (cum_at l) as [c Hc]; [lia|]. exists l, c. split_and!; [done..|].
  by eapply wf_off_step.
Qed.

Lemma offset_le i j a b : i <= j -> j <= n ->
  offsets h !! i = Some a -> offsets h !! j = Some b -> a <= b.
Proof.
  intros Hij. revert b. induction Hij as [|j Hij IH]; intros b Hn Ha Hb; [simplify_eq; lia|].
  destruct (offset_at j) as [c Hc]; [lia|]. specialize (IH c ltac:(lia) Ha Hc).
  destruct (offset_step j c) as (l & d & _ & _ & Hs); [lia | done |].
  rewrite Nat.add_1_r in Hs. simplify_eq. lia.
Qed.

(** The slot group of a level the node has lies inside the node's block. *)
Lemma neighbor_range_in no layer_no l :
  levels h !! no = Some l -> layer_no < l ->
  exists b e o o', neighbor_range h no layer_no = Ret (b, e) /\
    offsets h !! no = Some o /\ offsets h !! (no + 1) = Some o' /\
    o <= b <= e /\ e <= o' <= length (neighbors h).
Proof.
  intros Hl Hlt. assert (no < n) as Hno.
  { rewrite <- (wf_levels _ _ Hwf). by eapply lookup_lt_Some. }
  destruct (offset_at no) as [o Ho]; [lia|].
  destruct (offset_step no o Hno Ho) as (l' & c & Hl' & Hc & Hs). simplify_eq.
  pose proof (wf_level_range _ _ Hwf _ _ Hl).
  destruct (cum_at layer_no) as [cb Hcb]; [lia|].
  destruct (cum_at (layer_no + 1)) as [ce Hce]; [lia|].
  exists (o + cb), (o + ce), o, (o + c).
  split_and!; [|done|done|lia| | |].
  - unfold neighbor_range, cum_nb_neighbors. 
    rewrite (proj2 (vget_Ret _ _ _) Ho). simpl. rewrite (proj2 (vget_Ret _ _ _) Hcb). simpl.
    by rewrite (proj2 (vget_Ret _ _ _) Hce).
  - assert (cb <= ce) by (eapply cum_le; [|exact Hcb|exact Hce]; lia). lia.
  - assert (ce <= c) by (eapply cum_le; [|exact Hce|exact Hc]; lia). lia.
  - eapply (offset_le (no + 1) n); eauto; [lia|]. apply (wf_neighbors _ _ Hwf).
Qed.

Lemma neighbor_range_0 no : no < n ->
  exists b e o o', neighbor_range h no 0 = Ret (b, e) /\
    offsets h !! no = Some o /\ offsets h !! (no + 1) = Some o' /\
    o <= b <= e /\ e <= o' <= length (neighbors h).
Proof.
  intros Hno. destruct (level_at no Hno) as (l & Hl & Hr).
  eapply neighbor_range_in; [done|lia].
Qed.

End table.

(** The loop over a slot group is a fold over the live links. *)
Lemma for_links_live {S} nbrs (f : S -> nat -> M S) m : forall b s,
  b + m <= length nbrs ->
  for_links nbrs (seq b m) f s = foldM f s (live (slice b (b + m) nbrs)).
Proof.
  induction m as [|m IH]; intros b s Hm; simpl.
  - by rewrite slice_nil by lia.
  - destruct (lookup_lt_is_Some_2 nbrs b) as [v Hv]; [lia|].
    rewrite (proj2 (vget_Ret _ _ _) Hv). simpl.
    rewrite (slice_cons _ _ _ v) by (done || lia). simpl.
    destruct (v <? 0)%Z; [done|]. simpl.
    destruct (f s (Z.to_nat v)); simpl; [|done|done].
    rewrite IH by lia. by replace (b + Datatypes.S m) with (Datatypes.S b + m) by lia.
Qed.

Lemma for_neighbors_links {S} h n (f : S -> nat -> M S) no layer_no l s :
  wf h n -> levels h !! no = Some l -> layer_no < l ->
  for_neighbors h no layer_no f s = foldM f s (links h no layer_no).
Proof.
  intros Hwf Hl Hlt.
  destruct (neighbor_range_in Hwf no layer_no l Hl Hlt) as (b & e & o & o' & Hr & _ & _ & Hb & He).
  unfold for_neighbors, links, slots. rewrite Hr. simpl.
  rewrite for_links_live by lia. by replace (b + (e - b)) with e by lia.
Qed.

Lemma for_neighbors_links0 {S} h n (f : S -> nat -> M S) no s :
  wf h n -> no < n ->
  for_neighbors h no 0 f s = foldM f s (links h no 0).
Proof.
  intros Hwf Hno. destruct (level_at Hwf no Hno) as (l & Hl & Hr).
  eapply for_neighbors_links; [done|done|lia].
Qed.

Lemma live_bound (m : nat) l v : Forall (fun z => z < Z.of_nat m)%Z l -> v ∈ live l -> v < m.
Proof.
  induction 1 as [|z l Hz _ IH]; simpl; [set_solver|].
  destruct (Z.ltb_spec z 0); [set_solver|]. rewrite elem_of_cons.
  intros [->|?]; [lia | auto].
Qed.

Lemma slice_Forall {A} (P : A -> Prop) b e l :
  (forall j x, l !! j = Some x -> P x) -> Forall P (slice b e l).
Proof.
  intros HP. apply Forall_lookup. intros i x Hx. unfold slice in Hx.
  apply lookup_take_Some in Hx as [Hx _]. rewrite lookup_drop in Hx. by eapply HP.
Qed.

Lemma links_bound h n no layer_no v : wf h n -> v ∈ links h no layer_no -> v < n.
Proof.
  intros Hwf Hv. unfold links, slots in Hv.
  destruct (neighbor_range h no layer_no) as [[b e]| |]; [|set_solver|set_solver].
  eapply live_bound; [|done]. apply slice_Forall. intros j x Hx.
  by pose proof (wf_nbr_range _ _ Hwf _ _ Hx); lia.
Qed.


Lemma slice_slice {A} b e i j (l : list A) :
  i <= j -> b + j <= e -> slice i j (slice b e l) = slice (b + i) (b + j) l.
Proof.
  intros Hij Hje. unfold slice. rewrite skipn_firstn_comm, drop_drop, take_take. f_equal. lia.
Qed.

Lemma slots_block h n no l layer_no cb ce :
  wf h n -> levels h !! no = Some l -> layer_no < l ->
  cum_nneighbor_per_level h !! layer_no = Some cb ->
  cum_nneighbor_per_level h !! (layer_no + 1) = Some ce ->
  slots h no layer_no = slice cb ce (block h no).
Proof.
  intros Hwf Hl Hlt Hcb Hce.
  destruct (neighbor_range_in Hwf no layer_no l Hl Hlt)
    as (b & e & o & o' & Hr & Ho & Ho' & Hb & He).
  unfold slots, block. rewrite Hr, Ho, Ho'. revert Hr. unfold neighbor_range, cum_nb_neighbors.
  rewrite (proj2 (vget_Ret _ _ _) Ho). simpl. rewrite (proj2 (vget_Ret _ _ _) Hcb). simpl.
  rewrite (proj2 (vget_Ret _ _ _) Hce). simpl. intros [= <- <-].
  rewrite slice_slice; [done|lia|lia].
Qed.

(** ** Renumbering *)

Section renumber.
Context {h : t} {n : nat} (Hwf : wf h n) {p : list nat} (Hp : is_perm n p).

Lemma concat_blocks k : k <= n -> exists o, offsets h !! k = Some o /\
  concat (block h <$> seq 0 k) = slice 0 o (neighbors h).
Proof.
  induction k as [|k IH]; intros Hk.
  - exists 0. split; [apply (wf_off0 _ _ Hwf) | by rewrite slice_nil].
  - destruct IH as (o & Ho & IH); [lia|].
    destruct (offset_step Hwf k o) as (l & c & _ & _ & Hs); [lia|done|].
    exists (o + c). rewrite Nat.add_1_r in Hs. split; [done|].
    rewrite seq_S, fmap_app, concat_app, IH. simpl. rewrite app_nil_r.
    unfold block. rewrite Ho, Nat.add_1_r, Hs. apply slice_app. lia.
Qed.

Lemma length_blocks_perm : length (concat (block h <$> p)) = length (neighbors h).
Proof.
  rewrite (length_concat_Permutation _ (block h <$> seq 0 n)).
  - destruct (concat_blocks n) as (o & Ho & ->); [lia|].
    rewrite (wf_neighbors _ _ Hwf) in Ho. simplify_eq. by rewrite slice_all.
  - by apply fmap_Permutation.
Qed.

Lemma invert_map_spec :
  wp (invert_map p n) (fun imap => length imap = n /\
    forall i o, p !! i = Some o -> imap !! o = Some i).
Proof.
  unfold invert_map.
  apply (wp_for _ (fun k imap => length imap = n /\
    forall i o, i < k -> p !! i = Some o -> imap !! o = Some i)).
  - rewrite length_replicate. split; [done|lia].
  - intros i imap Hi [Hlen Him].
    destruct (is_perm_lookup n p i Hp) as (o & Ho & Hon); [lia|].
    rewrite (proj2 (vget_Ret _ _ _) Ho). simpl. apply wp_vset; [lia|].
    rewrite length_insert. split; [done|]. intros i' o' Hi' Ho'.
    destruct (decide (i = i')) as [<-|Hne].
    + simplify_eq. apply list_lookup_insert_eq. lia.
    + rewrite list_lookup_insert_ne; [apply Him; [lia|done]|].
      intros <-. apply Hne. by eapply NoDup_lookup; [apply (is_perm_NoDup n p Hp)| |].
  - intros imap [Hlen Him]. split; [done|]. intros i o Ho. apply Him; [|done].
    apply lookup_lt_Some in Ho. by rewrite (is_perm_length n p Hp) in Ho.
Qed.

(** [remap] as a total function. *)
Definition renum (imap : list nat) (z : Z) : Z :=
  if (0 <=? z)%Z then Z.of_nat (imap !!! Z.to_nat z) else z.

Lemma remap_renum imap z : (z < Z.of_nat (length imap))%Z -> remap imap z = Ret (renum imap z).
Proof.
  intros Hz. unfold remap, renum. destruct (Z.leb_spec 0 z); [|done].
  destruct (lookup_lt_is_Some_2 imap (Z.to_nat z)) as [v Hv]; [lia|].
  by rewrite (proj2 (vget_Ret _ _ _) Hv), (list_lookup_total_correct _ _ _ Hv).
Qed.

(** What the copying loops build. *)
Definition renumbered (imap : list nat) (k : nat) : list Z :=
  concat ((fun o => renum imap <$> block h o) <$> take k p).

Lemma renumbered_step imap k o : p !! k = Some o ->
  renumbered imap (k + 1) = renumbered imap k ++ (renum imap <$> block h o).
Proof.
  intros Ho. unfold renumbered. rewrite Nat.add_1_r, (take_S_r _ _ _ Ho).
  rewrite fmap_app, concat_app. simpl. by rewrite app_nil_r.
Qed.

Lemma length_concat_renum imap l :
  length (concat ((fun o => renum imap <$> block h o) <$> l)) = length (concat (block h <$> l)).
Proof. induction l; csimpl; [done|]. rewrite !length_app, length_fmap. by f_equal. Qed.

Lemma length_renumbered_all imap : length (renumbered imap n) = length (neighbors h).
Proof.
  unfold renumbered. rewrite take_ge by (rewrite (is_perm_length n p Hp); lia).
  rewrite length_concat_renum. apply length_blocks_perm.
Qed.

Lemma length_renumbered imap k o : p !! k = Some o ->
  length (renumbered imap k) + length (block h o) <= length (neighbors h).
Proof.
  intros Ho. rewrite <- length_blocks_perm. unfold renumbered. rewrite length_concat_renum.
  rewrite <- (take_drop_middle _ _ _ Ho) at 2.
  rewrite fmap_app, concat_app, length_app. simpl. rewrite length_app. lia.
Qed.

Lemma copy_block imap o b e done rest :
  length imap = n -> offsets h !! o = Some b -> offsets h !! (o + 1) = Some e ->
  b <= e <= length (neighbors h) -> e - b <= length rest ->
  wp (foldM (fun '(nn, no) j =>
        let* neigh := vget (neighbors h) j in
        let* v := remap imap neigh in
        let* nn := vset nn no v in
        Ret (nn, no + 1)) (done ++ rest, length done) (seq b (e - b)))
    (fun '(nn, no) =>
       nn = (done ++ (renum imap <$> block h o)) ++ drop (e - b) rest /\
       no = length (done ++ (renum imap <$> block h o))).
Proof.
  intros Him Hb He Hbe Hrest.
  apply (wp_for _ (fun j '(nn, no) =>
    nn = (done ++ (renum imap <$> slice b j (neighbors h))) ++ drop (j - b) rest /\
    no = length (done ++ (renum imap <$> slice b j (neighbors h))))).
  - by rewrite slice_nil, Nat.sub_diag, app_nil_r by lia.
  - intros j [nn no] Hj [-> ->].
    destruct (lookup_lt_is_Some_2 (neighbors h) j) as [v Hv]; [lia|].
    rewrite (proj2 (vget_Ret _ _ _) Hv). simpl.
    rewrite remap_renum by (pose proof (wf_nbr_range _ _ Hwf _ _ Hv); lia). simpl.
    apply wp_bind, wp_vset_next; [done | |].
    { intros Hd. apply (f_equal length) in Hd. rewrite length_drop in Hd. simpl in Hd. lia. }
    intros y rest' Hd. simpl. rewrite (slice_snoc b j _ v) by (done || lia).
    rewrite fmap_app, !app_assoc. simpl.
    replace (j + 1 - b) with (S (j - b)) by lia.
    split.
    + f_equal. change (S (j - b)) with (1 + (j - b)).
      rewrite Nat.add_comm, <- drop_drop, Hd. done.
    + rewrite !length_app. simpl. lia.
  - intros [nn no]. replace (b + (e - b)) with e by lia.
    unfold block. by rewrite Hb, He.
Qed.



Context {imap : list nat} (Hlen : length imap = n)
  (Himap : forall i o, p !! i = Some o -> imap !! o = Some i).

Lemma imap_inv o : o < n -> exists i, imap !! o = Some i /\ p !! i = Some o /\ i < n.
Proof.
  intros Ho. apply (is_perm_elem n p) in Ho; [|done].
  apply list_elem_of_lookup in Ho as [i Hi]. exists i. split_and!; [auto|done|].
  rewrite <- (is_perm_length n p Hp). by eapply lookup_lt_Some.
Qed.

Lemma renum_range v : (-1 <= v < Z.of_nat n)%Z -> (-1 <= renum imap v < Z.of_nat n)%Z.
Proof.
  intros Hv. unfold renum. destruct (Z.leb_spec 0 v); [|lia].
  destruct (imap_inv (Z.to_nat v)) as (i & Hi & _ & Hin); [lia|].
  rewrite (list_lookup_total_correct _ _ _ Hi). lia.
Qed.

Lemma live_renum l : Forall (fun z => -1 <= z < Z.of_nat n)%Z l ->
  (fun v => p !!! v) <$> live (renum imap <$> l) = live l.
Proof.
  induction 1 as [|z l Hz _ IH]; [done|]. rewrite fmap_cons. simpl.
  destruct (Z.leb_spec 0 z) as [H0|H0].
  - destruct (imap_inv (Z.to_nat z)) as (i & Hi & Hpi & Hin); [lia|].
    assert (renum imap z = Z.of_nat i) as ->.
    { unfold renum. rewrite (proj2 (Z.leb_le 0 z)) by done.
      by rewrite (list_lookup_total_correct _ _ _ Hi). }
    rewrite (proj2 (Z.ltb_ge _ _)), (proj2 (Z.ltb_ge z 0)) by lia.
    by rewrite fmap_cons, IH, Nat2Z.id, (list_lookup_total_correct _ _ _ Hpi).
  - assert (renum imap z = z) as ->.
    { unfold renum. by rewrite (proj2 (Z.leb_gt 0 z)). }
    by rewrite (proj2 (Z.ltb_lt _ _)) by lia.
Qed.

(** The copying loop of [permute_entries]. *)
Definition permute_inv (i : nat) (st : list nat * list nat * list Z * nat) : Prop :=
  let '(nl, noff, nn, no) := st in
  length nl = n /\ (forall k o, k < i -> p !! k = Some o -> nl !! k = levels h !! o) /\
  length noff = n + 1 /\
  (forall k, k <= i -> noff !! k = Some (length (renumbered imap k))) /\
  (exists rest, nn = renumbered imap i ++ rest) /\ length nn = length (neighbors h) /\
  no = length (renumbered imap i).

Lemma permute_step i st : i < n -> permute_inv i st ->
  wp ((fun '(nl, noff, nn, no) i =>
      let* o := vget p i in
      let* l := vget (levels h) o in
      let* nl := vset nl i l in
      let* b := vget (offsets h) o in
      let* e := vget (offsets h) (o + 1) in
      let* (nn, no) := foldM (fun '(nn, no) j =>
          let* neigh := vget (neighbors h) j in
          let* v := remap imap neigh in
          let* nn := vset nn no v in
          Ret (nn, no + 1))
        (nn, no) (seq b (e - b)) in
      let* noff := vset noff (i + 1) no in
      Ret (nl, noff, nn, no)) st i) (permute_inv (i + 1)).
Proof.
  destruct st as [[[nl noff] nn] no]. intros Hi (Hnl & Hlv & Hnoff & Hoff & [rest ->] & Hnn & ->).
  destruct (is_perm_lookup n p i Hp Hi) as (o & Ho & Hon).
  destruct (level_at Hwf o Hon) as (l & Hl & _).
  destruct (offset_at Hwf o) as [b Hb]; [lia|].
  destruct (offset_step Hwf o b Hon Hb) as (l' & c & Hl' & Hc & He). simplify_eq.
  rewrite (proj2 (vget_Ret _ _ _) Ho). simpl. rewrite (proj2 (vget_Ret _ _ _) Hl). simpl.
  apply wp_bind, wp_vset; [lia|].
  rewrite (proj2 (vget_Ret _ _ _) Hb). simpl. rewrite (proj2 (vget_Ret _ _ _) He). simpl.
  assert (b + c <= length (neighbors h)) as Hbc.
  { eapply (offset_le Hwf (o + 1) n); [lia|lia|done|apply (wf_neighbors _ _ Hwf)]. }
  assert (length (block h o) = c) as Hblk.
  { unfold block. rewrite Hb, He, length_slice; lia. }
  pose proof (length_renumbered imap i o Ho) as Hle. rewrite length_app in Hnn.
  apply wp_bind. eapply wp_mono.
  { apply (copy_block imap o b (b + c)); [done|done|done|lia|lia]. }
  intros [nn no] [-> ->]. rewrite <- (renumbered_step imap i o Ho).
  apply wp_bind, wp_vset; [lia|]. simpl. unfold permute_inv.
  rewrite !length_insert. split_and!; [done| |done| |by eexists| |done].
  - intros k o' Hk Ho'. destruct (decide (k = i)) as [->|Hne].
    + simplify_eq. rewrite list_lookup_insert_eq by lia. done.
    + rewrite list_lookup_insert_ne by done. apply Hlv; [lia|done].
  - intros k Hk. destruct (decide (k = i + 1)) as [->|Hne].
    + by rewrite list_lookup_insert_eq by lia.
    + rewrite list_lookup_insert_ne by done. apply Hoff. lia.
  - rewrite (renumbered_step imap i o Ho), !length_app, length_fmap, length_drop. lia.
Qed.


(** The table that [permute_entries] builds, once the loop is done. *)
Definition renumbered_table (nl noff : list nat) (ep : Z) : t :=
  mk (cum_nneighbor_per_level h) nl noff (renumbered imap n) ep (max_level h).

Context {nl noff : list nat} {ep : Z} (Hep : (-1 <= ep < Z.of_nat n)%Z)
  (Hnl : length nl = n) (Hlv : forall k o, k < n -> p !! k = Some o -> nl !! k = levels h !! o)
  (Hnoff : length noff = n + 1)
  (Hoff : forall k, k <= n -> noff !! k = Some (length (renumbered imap k))).

Let h' := renumbered_table nl noff ep.

Lemma renumbered_block i o : p !! i = Some o -> block h' i = renum imap <$> block h o.
Proof.
  intros Ho. assert (i < n) as Hi.
  { rewrite <- (is_perm_length n p Hp). by eapply lookup_lt_Some. }
  unfold block at 1. simpl. rewrite !Hoff by lia.
  unfold slice. replace (length (renumbered imap (i + 1)) - length (renumbered imap i))
    with (length (renum imap <$> block h o))
    by (rewrite (renumbered_step imap i o Ho), length_app; lia).
  assert (renumbered imap n =
    renumbered imap i ++ (renum imap <$> block h o) ++
    concat ((fun o => renum imap <$> block h o) <$> drop (i + 1) p)) as ->.
  { unfold renumbered. rewrite (take_ge p n) by (rewrite (is_perm_length n p Hp); lia).
    rewrite <- (take_drop_middle p i o Ho) at 1.
    rewrite fmap_app, fmap_cons, concat_app, Nat.add_1_r. done. }
  by rewrite drop_app_length, take_app_length.
Qed.

Lemma renumbered_wf : wf h' n.
Proof.
  destruct Hwf. split; simpl; [done|done|done|done| |done| | | | |done].
  - intros i l Hl. assert (i < n) as Hi by (rewrite <- Hnl; by eapply lookup_lt_Some).
    destruct (is_perm_lookup n p i Hp Hi) as (o & Ho & _).
    rewrite (Hlv i o Hi Ho) in Hl. eauto.
  - exact (Hoff 0 ltac:(lia)).
  - intros i l o' c Hl Ho' Hc.
    assert (i < n) as Hi by (rewrite <- Hnl; by eapply lookup_lt_Some).
    destruct (is_perm_lookup n p i Hp Hi) as (o & Ho & Hon).
    rewrite (Hlv i o Hi Ho) in Hl. rewrite Hoff in Ho' by lia. rewrite Hoff by lia.
    simplify_eq. rewrite (renumbered_step imap i o Ho), length_app, length_fmap.
    destruct (offset_at Hwf o) as [b Hb]; [lia|].
    pose proof (wf_off_step0 o l b c Hl Hb Hc) as He.
    unfold block. rewrite Hb, He, length_slice; [do 2 f_equal; lia|].
    eapply (offset_le Hwf (o + 1) n); eauto; lia.
  - by rewrite Hoff by lia.
  - intros j v Hv. unfold renumbered in Hv. apply list_elem_of_lookup_2 in Hv.
    apply elem_of_concat in Hv as (blk & Hblk & Hv).
    apply list_elem_of_fmap in Hblk as (o & -> & _).
    apply list_elem_of_fmap in Hv as (w & -> & Hw). apply renum_range.
    unfold block in Hw. destruct (offsets h !! o), (offsets h !! (o + 1));
      try (by apply elem_of_nil in Hw).
    eapply (proj1 (Forall_forall _ _) (slice_Forall _ _ _ _ wf_nbr_range0)), Hw.
Qed.

Lemma renamed_links i o l layer_no : p !! i = Some o -> levels h !! o = Some l -> layer_no < l ->
  (fun v => p !!! v) <$> links h' i layer_no = links h o layer_no.
Proof.
  intros Ho Hl Hlt. assert (i < n) as Hi.
  { rewrite <- (is_perm_length n p Hp). by eapply lookup_lt_Some. }
  pose proof (wf_level_range _ _ Hwf _ _ Hl).
  destruct (cum_at (h:=h) layer_no) as [cb Hcb]; [lia|].
  destruct (cum_at (h:=h) (layer_no + 1)) as [ce Hce]; [lia|].
  unfold links. rewrite (slots_block h n o l layer_no cb ce) by done.
  rewrite (slots_block h' n i l layer_no cb ce); [|apply renumbered_wf| |done..].
  - rewrite (renumbered_block i o Ho). unfold slice. rewrite <- fmap_drop, <- fmap_take.
    apply live_renum, Forall_take, Forall_drop. unfold block.
    destruct (offsets h !! o), (offsets h !! (o + 1)); try done.
    apply slice_Forall, (wf_nbr_range _ _ Hwf).
  - simpl. by rewrite (Hlv i o).
Qed.

End renumber.

(** [h'] is [h] with node [p[i]] renamed to [i], on every level a node has. *)
Definition renamed (p : list nat) (h h' : t) : Prop :=
  cum_nneighbor_per_level h' = cum_nneighbor_per_level h /\ max_level h' = max_level h /\
  (forall i o, p !! i = Some o -> levels h' !! i = levels h !! o) /\
  (forall i o l layer_no, p !! i = Some o -> levels h !! o = Some l -> layer_no < l ->
     (fun v => p !!! v) <$> links h' i layer_no = links h o layer_no) /\
  ((entry_point h = (-1)%Z /\ entry_point h' = (-1)%Z) \/
   exists e, entry_point h' = Z.of_nat e /\ p !! e = Some (Z.to_nat (entry_point h)) /\
             (0 <= entry_point h)%Z).

Lemma permute_entries_spec h n p : wf h n -> is_perm n p ->
  wp (permute_entries h p) (fun h' => wf h' n /\ renamed p h h').
Proof.
  intros Hwf Hp. unfold permute_entries. rewrite (wf_levels _ _ Hwf). apply wp_bind.
  eapply wp_mono; [by apply (invert_map_spec Hwf Hp)|]. intros imap [Hlen Him].
  assert (exists ep, (if (entry_point h =? -1)%Z then Ret (entry_point h)
      else let* e := if (entry_point h <? 0)%Z then Undef
                     else vget imap (Z.to_nat (entry_point h)) in Ret (Z.of_nat e)) = Ret ep /\
    (-1 <= ep < Z.of_nat n)%Z /\
    ((entry_point h = (-1)%Z /\ ep = (-1)%Z) \/
     exists e, ep = Z.of_nat e /\ p !! e = Some (Z.to_nat (entry_point h)) /\
             (0 <= entry_point h)%Z)) as (ep & -> & Hep & Hent).
  { pose proof (wf_entry _ _ Hwf) as He. destruct (Z.eqb_spec (entry_point h) (-1)) as [->|Hne].
    { exists (-1)%Z. split_and!; [done|lia|lia|by left]. }
    rewrite (proj2 (Z.ltb_ge _ _)) by lia.
    destruct (imap_inv Hp Him (Z.to_nat (entry_point h))) as (i & Hi & Hpi & Hin); [lia|].
    rewrite (proj2 (vget_Ret _ _ _) Hi). exists (Z.of_nat i).
    split_and!; [done|lia|lia|]. right. exists i. split_and!; [done|done|lia]. }
  cbn [bind]. apply wp_bind, (wp_for _ (@permute_inv h n p imap)).
  - unfold permute_inv. rewrite !length_replicate. split_and!; [done|lia|lia| | | |done].
    + intros k Hk. assert (k = 0) as -> by lia. by rewrite lookup_replicate_2 by lia.
    + by eexists.
    + done.
  - intros i st Hi Hst. apply (permute_step Hwf Hp Hlen i st); [lia|done].
  - rewrite Nat.add_0_l.
    intros [[[nl noff] nn] no] (Hnl & Hlv & Hnoff & Hoff & [rest ->] & Hnn & ->).
    assert (rest = []) as ->.
    { rewrite length_app, (length_renumbered_all Hwf Hp imap) in Hnn.
      apply nil_length_inv. lia. }
    rewrite app_nil_r. simpl.
    pose proof (renumbered_wf Hwf Hp Hlen Him Hep Hnl Hlv Hnoff Hoff) as Hwf'.
    split; [exact Hwf'|]. split_and!; [done|done| | |done].
    + intros i o Ho. apply Hlv; [|done].
      rewrite <- (is_perm_length n p Hp). by eapply lookup_lt_Some.
    + intros i o l layer_no Ho Hl Hlt. 
      by apply (renamed_links Hwf Hp Hlen Him Hep Hnl Hlv Hnoff Hoff i o l).
Qed.

(** ** Growing and clearing the table *)

Lemma slots_app h n no l layer_no extra h' :
  wf h n -> levels h !! no = Some l -> layer_no < l ->
  cum_nneighbor_per_level h' = cum_nneighbor_per_level h ->
  offsets h' !! no = offsets h !! no -> neighbors h' = neighbors h ++ extra ->
  slots h' no layer_no = slots h no layer_no.
Proof.
  intros Hwf Hl Hlt Hc Ho Hn. unfold slots.
  assert (neighbor_range h' no layer_no = neighbor_range h no layer_no) as ->.
  { unfold neighbor_range, cum_nb_neighbors, vget. by rewrite Hc, Ho. }
  destruct (neighbor_range_in Hwf no layer_no l Hl Hlt) as (b & e & o & o' & Hr & _ & _ & Hb & He).
  rewrite Hr, Hn. unfold slice. rewrite drop_app_le by lia.
  rewrite take_app_le; [done|]. rewrite length_drop. lia.
Qed.

Section grow.
Context {h : t} {n0 : nat} (Hwf : wf h n0) (added : list nat).
Context (Hadded : Forall (fun l => 1 <= l < length (cum_nneighbor_per_level h)) added).

(** The offsets after [i] rounds of the second loop of [prepare_level_tab]. *)
Definition grown (i : nat) (st : nat * list nat) : Prop :=
  let '(ml, offs) := st in
  length offs = n0 + 1 + i /\
  (forall k, k <= n0 -> offs !! k = offsets h !! k) /\
  (forall j l o c, j < n0 + i -> (levels h ++ added) !! j = Some l -> offs !! j = Some o ->
     cum_nneighbor_per_level h !! l = Some c -> offs !! (j + 1) = Some (o + c)) /\
  (forall j l, j < i -> added !! j = Some l -> l - 1 <= ml) /\
  (forall o, offs !! (n0 + i) = Some o -> length (neighbors h) <= o).

Lemma grown_step i ml offs l : i < length added -> grown i (ml, offs) ->
  (levels h ++ added) !! (i + n0) = Some l ->
  exists o c, offs !! (length offs - 1) = Some o /\
    cum_nneighbor_per_level h !! (l - 1 + 1) = Some c /\
    grown (i + 1) (if ml <? l - 1 then l - 1 else ml, offs ++ [o + c]).
Proof.
  intros Hi (Hlen & Hold & Hstep & Hml & Hback) Hl.
  rewrite lookup_app_r in Hl by (rewrite (wf_levels _ _ Hwf); lia).
  rewrite (wf_levels _ _ Hwf) in Hl. replace (i + n0 - n0) with i in Hl by lia.
  pose proof (proj1 (Forall_lookup _ _) Hadded _ _ Hl) as Hr. simpl in Hr.
  destruct (lookup_lt_is_Some_2 offs (n0 + i)) as [o Ho]; [lia|].
  destruct (cum_at (h:=h) l) as [c Hc]; [lia|]. exists o, c.
  replace (length offs - 1) with (n0 + i) by lia. replace (l - 1 + 1) with l by lia.
  split_and!; [done..|]. split_and!.
  - rewrite length_app. simpl. lia.
  - intros k Hk. rewrite lookup_app_l by lia. auto.
  - intros j l' o' c' Hj Hl' Ho' Hc'. destruct (decide (j = n0 + i)) as [->|Hne].
    + rewrite lookup_app_r in Hl' by (rewrite (wf_levels _ _ Hwf); lia).
      rewrite (wf_levels _ _ Hwf) in Hl'. replace (n0 + i - n0) with i in Hl' by lia.
      rewrite lookup_app_l in Ho' by lia. simplify_eq.
      rewrite lookup_app_r by lia. by replace (n0 + i + 1 - length offs) with 0 by lia.
    + rewrite lookup_app_l in Ho' by lia. rewrite lookup_app_l by lia.
      eapply Hstep; eauto. lia.
  - intros j l' Hj Hl'. destruct (decide (j = i)) as [->|Hne].
    + simplify_eq. destruct (Nat.ltb_spec ml (l - 1)); lia.
    + specialize (Hml j l' ltac:(lia) Hl'). destruct (Nat.ltb_spec ml (l - 1)); lia.
  - intros o'. rewrite lookup_app_r by lia. replace (n0 + (i + 1) - length offs) with 0 by lia.
    simpl. intros [= <-]. specialize (Hback o Ho). lia.
Qed.

Lemma grown_wf ml offs o : grown (length added) (ml, offs) -> offs !! (n0 + length added) = Some o ->
  wf (mk (cum_nneighbor_per_level h) (levels h ++ added) offs (resize o (-1)%Z (neighbors h))
         (entry_point h) (max_level h)) (n0 + length added).
Proof.
  intros (Hlen & Hold & Hstep & _ & Hback) Ho. pose proof Hwf as [].
  split; simpl; try done.
  - rewrite length_app. lia.
  - intros i l Hl. apply lookup_app_Some in Hl as [Hl|[_ Hl]]; [eauto|].
    by apply (proj1 (Forall_lookup _ _) Hadded _ _ Hl).
  - lia.
  - rewrite Hold by lia. done.
  - intros i l o' c Hl. apply Hstep; [|done]. apply lookup_lt_Some in Hl.
    rewrite length_app in Hl. lia.
  - by rewrite Ho, length_resize.
  - intros j v Hv. rewrite resize_ge in Hv by (by apply Hback).
    apply lookup_app_Some in Hv as [Hv|[_ Hv]].
    + specialize (wf_nbr_range0 _ _ Hv). lia.
    + apply lookup_replicate in Hv as [-> _]. lia.
  - lia.
Qed.

End grow.

(** [h'] is [h] with nodes of levels [added] appended, none of them linked. *)
Definition extended (h : t) (added : list nat) (h' : t) : Prop :=
  levels h' = levels h ++ added /\ entry_point h' = entry_point h /\ max_level h' = max_level h /\
  (forall i l layer_no, levels h !! i = Some l -> layer_no < l ->
     slots h' i layer_no = slots h i layer_no) /\
  (forall i layer_no, length (levels h) <= i -> links h' i layer_no = []).

Lemma live_neg l : Forall (fun z => z = (-1)%Z) l -> live l = [].
Proof. by destruct 1 as [|z l ->]. Qed.

Lemma prepare_level_tab_spec h n0 n drawn : wf h n0 -> n <= length drawn ->
  Forall (fun l => l + 1 < length (cum_nneighbor_per_level h)) drawn ->
  wp (prepare_level_tab h n false drawn) (fun '(h', ml) =>
    wf h' (n0 + n) /\ extended h (S <$> take n drawn) h' /\
    Forall (fun l => l <= ml) (take n drawn)).
Proof.
  intros Hwf Hn Hd. unfold prepare_level_tab. rewrite (wf_offsets _ _ Hwf).
  replace (n0 + 1 - 1) with n0 by lia. rewrite (wf_levels _ _ Hwf), Nat.eqb_refl. simpl.
  set (added := S <$> take n drawn).
  assert (length added = n) as Hadd by (unfold added; rewrite length_fmap, length_take; lia).
  assert (Forall (fun l => 1 <= l < length (cum_nneighbor_per_level h)) added) as Hrange.
  { apply Forall_fmap, Forall_take. eapply Forall_impl; [exact Hd|]. simpl. lia. }
  apply wp_bind, (wp_for _ (fun i lv => lv = levels h ++ (S <$> take i drawn))).
  { by rewrite app_nil_r. }
  { intros i lv Hi ->. destruct (lookup_lt_is_Some_2 drawn i) as [d Hdi]; [lia|].
    rewrite (proj2 (vget_Ret _ _ _) Hdi). simpl.
    replace (i + 1) with (S i) by lia. rewrite (take_S_r _ _ _ Hdi), fmap_app, app_assoc.
    by rewrite Nat.add_1_r. }
  rewrite Nat.add_0_l. intros lv ->. fold added.
  apply wp_bind, (wp_for _ (@grown h n0 added)).
  { split_and!; [rewrite (wf_offsets _ _ Hwf); lia|done| |lia|].
    - intros j l o c Hj Hl Ho Hc. rewrite lookup_app_l in Hl by (rewrite (wf_levels _ _ Hwf); lia).
      by eapply wf_off_step.
    - rewrite Nat.add_0_r, (wf_neighbors _ _ Hwf). by intros o [= <-]. }
  { intros i [ml offs] Hi Hg.
    destruct (lookup_lt_is_Some_2 (levels h ++ added) (i + n0)) as [l Hl].
    { rewrite length_app, (wf_levels _ _ Hwf). lia. }
    destruct (grown_step Hwf added Hrange i ml offs l) as (o & c & Ho & Hc & Hg'); [lia|done|done|].
    rewrite (proj2 (vget_Ret _ _ _) Hl). simpl. rewrite (proj2 (vget_Ret _ _ _) Ho). simpl.
    unfold cum_nb_neighbors. rewrite (proj2 (vget_Ret _ _ _) Hc). simpl. exact Hg'. }
  rewrite Nat.add_0_l. intros [ml offs] Hg. rewrite <- Hadd in Hg. pose proof Hg as (Hlen & Hold & _ & Hml & Hback).
  destruct (lookup_lt_is_Some_2 offs (length offs - 1)) as [o Ho]; [lia|].
  rewrite (proj2 (vget_Ret _ _ _) Ho). simpl.
  replace (length offs - 1) with (n0 + length added) in Ho by lia. rewrite Hadd in Ho at 1.
  rewrite <- Hadd in Ho. pose proof (grown_wf Hwf added Hrange ml offs o Hg Ho) as Hwf'.
  rewrite Hadd in Hwf'. split_and!; [done| |].
  - split_and!; [done..| |].
    + intros i l layer_no Hl Hlt. eapply slots_app; try done.
      * simpl. apply Hold. apply lookup_lt_Some in Hl. rewrite (wf_levels _ _ Hwf) in Hl. lia.
      * simpl. apply resize_ge. by apply Hback.
    + intros i layer_no Hi. rewrite (wf_levels _ _ Hwf) in Hi. unfold links. apply live_neg. unfold slots.
      destruct (neighbor_range _ i layer_no) as [[b e]| |] eqn:Hr; [|constructor..].
      cbn [neighbors]. rewrite resize_ge by (by apply Hback).
      unfold slice. rewrite drop_app_ge; [by apply Forall_take, Forall_drop, Forall_replicate|].
      assert (exists oi, offs !! i = Some oi /\ oi <= b) as (oi & Hoi & Hb).
      { unfold neighbor_range, vget in Hr. cbn [offsets] in Hr.
        destruct (offs !! i) as [oi|]; [|done]. exists oi. split; [done|].
        destruct (cum_nb_neighbors _ layer_no); [|done..].
        destruct (cum_nb_neighbors _ (layer_no + 1)); [|done..]. simpl in Hr. injection Hr as <- _. lia. }
      assert (length (neighbors h) <= oi); [|lia].
      apply (offset_le Hwf' n0 i); simpl; [done| |by rewrite Hold, (wf_neighbors _ _ Hwf)|done].
      apply lookup_lt_Some in Hoi. lia.
  - apply Forall_lookup. intros i d Hdi. assert (S d - 1 <= ml); [|lia].
    apply (Hml i); [|by unfold added; rewrite list_lookup_fmap, Hdi].
    apply lookup_lt_Some in Hdi. rewrite length_take in Hdi. lia.
Qed.

(** ** A checker for [wf] on concrete tables *)

Definition wfb (h : t) (n : nat) : bool :=
  let cum := cum_nneighbor_per_level h in
  (2 <=? length cum) && bool_decide (cum !! 0 = Some 0) &&
  forallb (fun i => match cum !! i, cum !! (i + 1) with
                    | Some a, Some b => a <=? b | _, _ => true end) (seq 0 (length cum)) &&
  (length (levels h) =? n) && forallb (fun l => (1 <=? l) && (l <? length cum)) (levels h) &&
  (length (offsets h) =? n + 1) && bool_decide (offsets h !! 0 = Some 0) &&
  forallb (fun i => match levels h !! i, offsets h !! i with
                    | Some l, Some o =>
                        match cum !! l with
                        | Some c => bool_decide (offsets h !! (i + 1) = Some (o + c))
                        | None => true
                        end
                    | _, _ => true end) (seq 0 n) &&
  bool_decide (offsets h !! n = Some (length (neighbors h))) &&
  forallb (fun v => (-1 <=? v)%Z && (v <? Z.of_nat n)%Z) (neighbors h) &&
  (-1 <=? entry_point h)%Z && (entry_point h <? Z.of_nat n)%Z.

Lemma forallb_lookup {A} (f : A -> bool) l i x : forallb f l = true -> l !! i = Some x -> f x = true.
Proof.
  rewrite forallb_forall. intros H Hx. apply H, list_elem_of_In. by eapply list_elem_of_lookup_2.
Qed.

Lemma forallb_seq (f : nat -> bool) n i : forallb f (seq 0 n) = true -> i < n -> f i = true.
Proof. intros H Hi. apply (forallb_lookup f (seq 0 n) i); [done|]. by apply lookup_seq. Qed.

Lemma wfb_wf h n : wfb h n = true -> wf h n.
Proof.
  unfold wfb. rewrite !andb_true_iff, !Nat.leb_le, !Nat.eqb_eq, !bool_decide_eq_true.
  rewrite Z.leb_le, Z.ltb_lt.
  intros (((((((((((Hc & H0) & Hm) & Hl) & Hr) & Ho) & Ho0) & Hs) & Hn) & Hb) & He) & He').
  split; try done.
  - intros i a b Ha Hb'. pose proof (forallb_seq _ _ i Hm (lookup_lt_Some _ _ _ Ha)) as H. cbv beta in H.
    rewrite Ha, Hb' in H. by apply Nat.leb_le.
  - intros i l Hi. pose proof (forallb_lookup _ _ _ _ Hr Hi) as H. cbv beta in H.
    apply andb_true_iff in H as [?%Nat.leb_le ?%Nat.ltb_lt]. lia.
  - intros i l o c Hi Hoi Hci. apply lookup_lt_Some in Hi as Hin. rewrite Hl in Hin.
    pose proof (forallb_seq _ _ i Hs Hin) as H. cbv beta in H. rewrite Hi, Hoi, Hci in H.
    by apply bool_decide_eq_true in H.
  - intros j v Hv. pose proof (forallb_lookup _ _ _ _ Hb Hv) as H. cbv beta in H.
    apply andb_true_iff in H as [?%Z.leb_le ?%Z.ltb_lt]. lia.
Qed.

End HNSW.
