(* ===== verification/LayoutBfs.v ===== *)
(** * Breadth-first node order (IndexHNSW::generateBFSPermutation)

    The queue-and-visited-array traversal of the level-0 graph, restarted at
    every node it has not reached, and the bookkeeping invariant that the other
    queue-driven orders share with it. *)

From S2P Require Import Prelude HnswGraph.

(** ** The traversal invariant

    [vis] is the visited array, [out] what has left the queue, [q] what is in
    it: together they list every visited node exactly once. *)
Record traversal (n : nat) (vis : list bool) (out q : list nat) : Prop := {
  tr_len : length vis = n;
  tr_nodup : NoDup (out ++ q);
  tr_vis : forall i, i ∈ out ++ q <-> vis !! i = Some true
}.

Section traversal.
Context {n : nat} {vis : list bool} {out q : list nat}.

Lemma traversal_bound i : traversal n vis out q -> i ∈ out ++ q -> i < n.
Proof.
  intros Ht Hi. apply (tr_vis _ _ _ _ Ht) in Hi. apply lookup_lt_Some in Hi.
  by rewrite (tr_len _ _ _ _ Ht) in Hi.
Qed.

Lemma traversal_length : traversal n vis out q -> length out + length q <= n.
Proof.
  intros Ht. rewrite <- length_app, <- (length_seq n 0).
  apply submseteq_length, NoDup_submseteq; [apply (tr_nodup _ _ _ _ Ht)|].
  intros i Hi. apply elem_of_seq. pose proof (traversal_bound i Ht Hi). lia.
Qed.

(** Marking an unvisited node and putting it at the end of the queue. *)
Lemma traversal_push i : traversal n vis out q -> vis !! i = Some false ->
  traversal n (<[i := true]> vis) out (q ++ [i]).
Proof.
  intros Ht Hi. assert (i ∉ out ++ q) as Hni.
  { rewrite (tr_vis _ _ _ _ Ht), Hi. done. }
  split.
  - rewrite length_insert. apply (tr_len _ _ _ _ Ht).
  - rewrite app_assoc. apply NoDup_app. split_and!; [apply (tr_nodup _ _ _ _ Ht)| |apply NoDup_singleton].
    intros x Hx ->%list_elem_of_singleton. done.
  - intros j. rewrite app_assoc, elem_of_app, (tr_vis _ _ _ _ Ht), list_elem_of_singleton.
    destruct (decide (i = j)) as [<-|Hne].
    + rewrite list_lookup_insert_eq by (by eapply lookup_lt_Some). tauto.
    + rewrite list_lookup_insert_ne by done. intuition congruence.
Qed.

(** Serving the front of the queue. *)
Lemma traversal_pop i q' : q = i :: q' -> traversal n vis out q -> traversal n vis (out ++ [i]) q'.
Proof. intros -> [Hl Hn Hv]. split; [done|..]; rewrite <- app_assoc; done. Qed.

(** When nothing is unvisited and the queue is empty, [out] is a permutation. *)
Lemma traversal_perm : traversal n vis out [] ->
  (forall i, i < n -> vis !! i = Some true) -> is_perm n out.
Proof.
  intros Ht Hall. apply is_perm_intro.
  - rewrite <- (app_nil_r out). apply (tr_nodup _ _ _ _ Ht).
  - intros i. pose proof (tr_vis _ _ _ _ Ht i) as Hv. rewrite app_nil_r in Hv. rewrite Hv.
    split; [intros Hi; apply lookup_lt_Some in Hi; by rewrite (tr_len _ _ _ _ Ht) in Hi | auto].
Qed.

End traversal.

Lemma traversal_full {n vis out} : traversal n vis out [] -> length out = n -> is_perm n out.
Proof.
  intros Ht Hl. pose proof (tr_nodup _ _ _ _ Ht) as Hn. rewrite app_nil_r in Hn.
  apply is_perm_full; [done| |done]. intros i Hi. apply (traversal_bound i Ht).
  by rewrite app_nil_r.
Qed.

Lemma traversal_init n : traversal n (replicate n false) [] [].
Proof.
  split; [apply length_replicate | apply NoDup_nil_2 |]. intros i. rewrite elem_of_nil.
  rewrite lookup_replicate. intuition congruence.
Qed.

(** Visited marks only ever appear. *)
Definition marks_grow (vis vis' : list bool) : Prop :=
  forall i, vis !! i = Some true -> vis' !! i = Some true.

#[export] Instance marks_grow_preorder : PreOrder marks_grow.
Proof. split; [by intros v i | intros u v w H1 H2 i Hi; by apply H2, H1]. Qed.

Lemma marks_grow_insert vis i : marks_grow vis (<[i := true]> vis).
Proof.
  intros j Hj. destruct (decide (i = j)) as [<-|Hne].
  - apply list_lookup_insert_eq. by eapply lookup_lt_Some.
  - by rewrite list_lookup_insert_ne.
Qed.
#[export] Hint Resolve marks_grow_insert : river.

Section bfs.
Context (h : HNSW.t) (level : nat).

(** [if (!visited[neighbor]) { visited[neighbor] = 1; queue.push(neighbor); }] *)
Definition push_unvisited (st : list bool * list nat) (neighbor : nat) : M (list bool * list nat) :=
  let '(visited, queue) := st in
  let* v := vget visited neighbor in
  if v then Ret (visited, queue)
  else let* visited := vset visited neighbor true in Ret (visited, queue ++ [neighbor]).

Definition queue_nonempty (st : list bool * list nat * list nat) : bool :=
  match st with (_, _, []) => false | _ => true end.

(** The body of the queue loop of [bfs_traversal]. *)
Definition bfs_body (st : list bool * list nat * list nat) : M (list bool * list nat * list nat) :=
  match st with
  | (visited, perm, node :: queue) =>
      let* (visited, queue) := HNSW.for_neighbors h node level push_unvisited (visited, queue) in
      Ret (visited, perm ++ [node], queue)
  | (_, _, []) => Undef
  end.

(** The lambda [bfs_traversal] of [generateBFSPermutation]; the queue serves
    each node at most once, so [ntotal] rounds are enough. *)
Definition bfs_traversal (n : nat) (st : list bool * list nat) (start : nat)
    : M (list bool * list nat) :=
  let '(visited, perm) := st in
  let* v := vget visited start in
  if v then Ret (visited, perm)
  else
    let* visited := vset visited start true in
    let* (visited, perm, _) := whileM n queue_nonempty bfs_body (visited, perm, [start]) in
    Ret (visited, perm).

(** [IndexHNSW::generateBFSPermutation(level)]. *)
Definition generateBFSPermutation (n : nat) : M (list nat) :=
  let* st := (if (HNSW.entry_point h <? 0)%Z then Undef
              else bfs_traversal n (replicate n false, []) (Z.to_nat (HNSW.entry_point h))) in
  let* (_, perm) := foldM (fun (st : list bool * list nat) i =>
      let '(visited, perm) := st in
      let* v := vget visited i in
      if v then Ret (visited, perm) else bfs_traversal n (visited, perm) i)
    st (seq 0 n) in
  Ret perm.

End bfs.

Lemma push_unvisited_spec n out vis q i : traversal n vis out q -> i < n ->
  wp (push_unvisited (vis, q) i) (fun '(vis', q') =>
    traversal n vis' out q' /\ marks_grow vis vis').
Proof.
  intros Ht Hi. unfold push_unvisited. pose proof (tr_len _ _ _ _ Ht).
  apply wp_bind, wp_vget; [lia|]. intros [] Hv; [done|].
  apply wp_bind, wp_vset; [lia|]. simpl. split; [by apply traversal_push | apply marks_grow_insert].
Qed.

Lemma bfs_body_spec h n vis out q : HNSW.wf h n -> traversal n vis out q ->
  queue_nonempty (vis, out, q) = true ->
  wp (bfs_body h 0 (vis, out, q)) (fun '(vis', out', q') =>
    traversal n vis' out' q' /\ marks_grow vis vis' /\ length out' = length out + 1 /\
    exists node, out' = out ++ [node]).
Proof.
  intros Hwf Ht Hne. destruct q as [|node q]; [done|].
  assert (node < n) as Hnode.
  { apply (traversal_bound node Ht). rewrite elem_of_app, elem_of_cons. auto. }
  apply (traversal_pop node q eq_refl) in Ht. simpl.
  rewrite (HNSW.for_neighbors_links0 h n) by done. apply wp_bind.
  apply (wp_foldM_simple _ (fun '(vis', q') =>
    traversal n vis' (out ++ [node]) q' /\ marks_grow vis vis')).
  - done.
  - intros i [v' q'] Hi [Ht' Hm]. eapply wp_mono.
    { apply push_unvisited_spec; [done|]. by eapply HNSW.links_bound. }
    intros [v'' q''] [? ?]. split; [done | by etrans].
  - intros [v' q'] [Ht' Hm]. simpl. rewrite length_app. simpl. eauto.
Qed.

Lemma bfs_traversal_spec h n vis out start : HNSW.wf h n -> traversal n vis out [] -> start < n ->
  wp (bfs_traversal h 0 n (vis, out) start) (fun '(vis', out') =>
    traversal n vis' out' [] /\ marks_grow vis vis' /\ vis' !! start = Some true /\
    out `prefix_of` out').
Proof.
  intros Hwf Ht Hs. unfold bfs_traversal. pose proof (tr_len _ _ _ _ Ht).
  apply wp_bind, wp_vget; [lia|]. intros [] Hv; [by simpl|].
  apply wp_bind, wp_vset; [lia|]. apply wp_bind.
  apply (wp_whileM _ _ _ _ (fun '(vis', out', q') =>
      traversal n vis' out' q' /\ marks_grow (<[start := true]> vis) vis' /\ out `prefix_of` out')
    (fun '(_, out', q') => n - length out')).
  - split_and!; [exact (traversal_push start Ht Hv) | done | done].
  - lia.
  - intros [[v' o'] q'] (Ht' & Hm & Hp) Hc.
    pose proof (traversal_length Ht') as Hl.
    eapply wp_mono; [by apply bfs_body_spec|]. intros [[v'' o''] q''] (Ht'' & Hm' & Hlen & node & ->).
    split; [split_and!; [done | by etrans | by apply prefix_app_r]|].
    destruct q'; simpl in *; [done|lia].
  - intros [[v' o'] q'] (Ht' & Hm & Hp) Hc. destruct q'; [|done]. simpl. split_and!; [done| | |done].
    + etrans; [|exact Hm]. apply marks_grow_insert.
    + apply Hm, list_lookup_insert_eq. lia.
Qed.

Lemma bfs_perm_spec h n : HNSW.wf h n -> (0 <= HNSW.entry_point h)%Z ->
  wp (generateBFSPermutation h 0 n) (is_perm n).
Proof.
  intros Hwf He. unfold generateBFSPermutation. rewrite (proj2 (Z.ltb_ge _ _)) by done.
  pose proof (HNSW.wf_entry _ _ Hwf).
  apply wp_bind. eapply wp_mono.
  { apply bfs_traversal_spec; [done|apply traversal_init|lia]. }
  intros [vis out] (Ht & _). apply wp_bind.
  apply (wp_for _ (fun k '(vis', out') => traversal n vis' out' [] /\
    forall i, i < k -> vis' !! i = Some true)).
  - split; [done|lia].
  - intros i [v' o'] Hi [Ht' Hm]. pose proof (tr_len _ _ _ _ Ht').
    apply wp_bind, wp_vget; [lia|]. intros [] Hv.
    + split; [done|]. intros j Hj. destruct (decide (i = j)) as [<-|]; [done|]. apply Hm. lia.
    + eapply wp_mono; [apply bfs_traversal_spec; [done|done|lia]|].
      intros [v'' o''] (Ht'' & Hg & Hi' & _). split; [done|]. intros j Hj.
      destruct (decide (i = j)) as [<-|]; [done|]. apply Hg, Hm. lia.
  - intros [v' o'] [Ht' Hm]. simpl. by eapply traversal_perm.
Qed.
