(* ===== verification/LayoutRcm.v ===== *)
(** * Reverse Cuthill-McKee order (IndexHNSW::generateRCMPermutation)

    The undirected level-0 graph, the two seed heuristics and the reversed
    degree-ordered breadth-first traversal of each component. *)

From S2P Require Import Prelude HnswGraph LayoutBfs.

(** ** build_undirected_level0_graph *)

(** [std::sort] on vertex ids. *)
Definition sort_ids (l : list nat) : list nat := merge_sort (≤) l.

(** [std::unique]: keep the first of each run of equal elements. *)
Fixpoint unique (l : list nat) : list nat :=
  match l with
  | x :: l' =>
      match l' with
      | y :: _ => if x =? y then unique l' else x :: unique l'
      | [] => [x]
      end
  | [] => []
  end.

(** [graph[i].push_back(neighbor); if (neighbor != i) graph[neighbor].push_back(i);] *)
Definition add_undirected (i : nat) (graph : list (list nat)) (neighbor : nat)
    : M (list (list nat)) :=
  let* gi := vget graph i in
  let* graph := vset graph i (gi ++ [neighbor]) in
  if neighbor =? i then Ret graph
  else let* gn := vget graph neighbor in vset graph neighbor (gn ++ [i]).

Definition build_undirected_level0_graph (h : HNSW.t) (ntotal : nat) : M (list (list nat)) :=
  let* graph := foldM (fun graph i => HNSW.for_neighbors h i 0 (add_undirected i) graph)
                  (replicate ntotal []) (seq 0 ntotal) in
  foldM (fun graph i => let* gi := vget graph i in vset graph i (unique (sort_ids gi)))
    graph (seq 0 ntotal).

(** ** Seeds *)

(** [choose_low_degree_seed]; [None] is the result [-1]. *)
Definition choose_low_degree_seed (graph : list (list nat)) (component_visited : list bool)
    : M (option nat) :=
  let* best := foldM (fun (best : option (nat * nat)) i =>
      let* v := vget component_visited i in
      if v then Ret best
      else
        let* gi := vget graph i in
        let degree := length gi in
        match best with
        | None => Ret (Some (i, degree))
        | Some (b, best_degree) =>
            if degree <? best_degree then Ret (Some (i, degree)) else Ret (Some (b, best_degree))
        end)
    None (seq 0 (length graph)) in
  Ret (fst <$> best).

(** State of the distance search: [distance], [queue], [eccentricity], [farthest]. *)
Definition bfs_state : Type := list Z * list nat * Z * list nat.

Definition relax (component_visited : list bool) (node_distance : Z)
    (st : list Z * list nat) (next : nat) : M (list Z * list nat) :=
  let '(distance, queue) := st in
  let* v := vget component_visited next in
  if v then Ret st
  else
    let* d := vget distance next in
    if (0 <=? d)%Z then Ret st
    else
      let* distance := vset distance next (node_distance + 1)%Z in
      Ret (distance, queue ++ [next]).

Definition ecc_body (graph : list (list nat)) (component_visited : list bool)
    (st : bfs_state) : M bfs_state :=
  let '(distance, queue, eccentricity, farthest) := st in
  match queue with
  | [] => Undef
  | node :: queue =>
      let* node_distance := vget distance node in
      let '(eccentricity, farthest) :=
        if (eccentricity <? node_distance)%Z then (node_distance, []) else (eccentricity, farthest) in
      let farthest := if (node_distance =? eccentricity)%Z then farthest ++ [node] else farthest in
      let* neighbors := vget graph node in
      let* (distance, queue) := foldM (relax component_visited node_distance) (distance, queue)
                                  neighbors in
      Ret (distance, queue, eccentricity, farthest)
  end.

Definition ecc_continue (st : bfs_state) : bool :=
  let '(_, queue, _, _) := st in match queue with [] => false | _ => true end.

Definition ecc_search (graph : list (list nat)) (component_visited : list bool) (current : nat)
    : M (Z * list nat) :=
  let n := length graph in
  let* distance := vset (replicate n (-1)%Z) current 0%Z in
  let* (_, _, eccentricity, farthest) :=
    whileM n ecc_continue (ecc_body graph component_visited) (distance, [current], 0%Z, []) in
  Ret (eccentricity, farthest).

(** The first vertex of least degree of [farthest]. *)
Definition least_degree (graph : list (list nat)) (first : nat) (others : list nat) : M nat :=
  let* g0 := vget graph first in
  let* (next_seed, _) := foldM (fun (st : nat * nat) candidate =>
      let '(next_seed, next_degree) := st in
      let* gc := vget graph candidate in
      if length gc <? next_degree then Ret (candidate, length gc) else Ret (next_seed, next_degree))
    (first, length g0) others in
  Ret next_seed.

Fixpoint peripheral_loop (fuel : nat) (graph : list (list nat)) (component_visited : list bool)
    (previous_eccentricity : Z) (current : nat) : M nat :=
  match fuel with
  | 0 => Undef
  | S fuel =>
      let* (eccentricity, farthest) := ecc_search graph component_visited current in
      if (eccentricity <=? previous_eccentricity)%Z then Ret current
      else
        match farthest with
        | [] => Ret current
        | first :: others =>
            let* next_seed := least_degree graph first others in
            if next_seed =? current then Ret current
            else peripheral_loop fuel graph component_visited eccentricity next_seed
        end
  end.

(** [choose_pseudo_peripheral_seed] of a start that is not [-1].  The
    eccentricity grows in every round and stays below the number of vertices. *)
Definition choose_pseudo_peripheral_seed (graph : list (list nat)) (start : nat)
    (component_visited : list bool) : M nat :=
  peripheral_loop (length graph + 1) graph component_visited (-1) start.

(** ** The traversal *)

Definition degree (graph : list (list nat)) (v : nat) : nat := length (graph !!! v).

(** The comparator of the neighbour sort: by degree, then by id. *)
Definition degree_le (graph : list (list nat)) (lhs rhs : nat) : Prop :=
  degree graph lhs < degree graph rhs \/ (degree graph lhs = degree graph rhs /\ lhs <= rhs).

#[export] Instance degree_le_dec graph : RelDecision (degree_le graph).
Proof. intros x y. unfold degree_le. apply _. Defined.

Definition rcm_body (graph : list (list nat)) (st : list bool * list nat * list nat)
    : M (list bool * list nat * list nat) :=
  match st with
  | (component_visited, component_order, node :: queue) =>
      let* neighbors := vget graph node in
      let* buffer := foldM (fun buffer neighbor =>
          let* v := vget component_visited neighbor in
          Ret (if v then buffer else buffer ++ [neighbor])) [] neighbors in
      let buffer := merge_sort (degree_le graph) buffer in
      let* (component_visited, queue) := foldM push_unvisited (component_visited, queue) buffer in
      Ret (component_visited, component_order ++ [node], queue)
  | (_, _, []) => Undef
  end.

Definition rcm_component (graph : list (list nat)) (n : nat) (component_visited : list bool)
    (seed : nat) : M (list bool * list nat) :=
  let* component_visited := vset component_visited seed true in
  let* (component_visited, component_order, _) :=
    whileM n queue_nonempty (rcm_body graph) (component_visited, [], [seed]) in
  Ret (component_visited, component_order).

Fixpoint rcm_loop (fuel : nat) (graph : list (list nat)) (n : nat)
    (component_visited : list bool) (perm : list nat) : M (list nat) :=
  if length perm <? n then
    match fuel with
    | 0 => Undef
    | S fuel =>
        let* seed := choose_low_degree_seed graph component_visited in
        match seed with
        | None => Ret perm
        | Some seed =>
            let* seed := choose_pseudo_peripheral_seed graph seed component_visited in
            let* (component_visited, component_order) :=
              rcm_component graph n component_visited seed in
            rcm_loop fuel graph n component_visited (perm ++ reverse component_order)
        end
    end
  else Ret perm.

Definition generateRCMPermutation (h : HNSW.t) (n : nat) : M (list nat) :=
  if n =? 0 then Ret []
  else
    let* graph := build_undirected_level0_graph h n in
    rcm_loop n graph n (replicate n false) [].

(** ** Sorting and removing duplicates *)

Lemma unique_cons x y l :
  unique (x :: y :: l) = if x =? y then unique (y :: l) else x :: unique (y :: l).
Proof. done. Qed.

Lemma elem_of_unique x l : x ∈ unique l <-> x ∈ l.
Proof.
  induction l as [|a [|b l] IH]; [done|done|]. rewrite unique_cons.
  destruct (Nat.eqb_spec a b) as [->|]; rewrite ?elem_of_cons, IH, ?elem_of_cons; tauto.
Qed.

Lemma unique_sorted l : StronglySorted (≤) l -> StronglySorted (<) (unique l).
Proof.
  induction 1 as [|a l Hs IH Ha]; [constructor|]. destruct l as [|b l]; [repeat constructor|].
  rewrite unique_cons. destruct (Nat.eqb_spec a b) as [->|Hne]; [done|].
  constructor; [done|]. apply Forall_forall. intros x Hx. apply (proj1 (elem_of_unique _ _)) in Hx.
  assert (b <= x).
  { apply elem_of_cons in Hx as [->|Hx]; [done|].
    apply StronglySorted_inv in Hs as [_ Hb]. by apply (proj1 (Forall_forall _ _) Hb). }
  rewrite Forall_cons in Ha. destruct Ha as [Hab _]. lia.
Qed.

Lemma sort_unique_spec l :
  StronglySorted (<) (unique (sort_ids l)) /\ forall x, x ∈ unique (sort_ids l) <-> x ∈ l.
Proof.
  split.
  - apply unique_sorted, StronglySorted_merge_sort; apply _.
  - intros x. unfold sort_ids. by rewrite elem_of_unique, merge_sort_Permutation.
Qed.

(** ** The undirected graph *)

Definition has_edges (n : nat) (g : list (list nat)) (P : nat -> nat -> Prop) : Prop :=
  length g = n /\ forall i j, j ∈ g !!! i <-> P i j.

Lemma has_edges_push n g P i x : has_edges n g P -> i < n ->
  has_edges n (<[i := g !!! i ++ [x]]> g) (fun a b => P a b \/ (a = i /\ b = x)).
Proof.
  intros [Hl HP] Hi. split; [by rewrite length_insert|]. intros a b.
  destruct (decide (i = a)) as [<-|Hne].
  - rewrite list_lookup_total_insert_eq by lia. rewrite elem_of_app, list_elem_of_singleton, HP. tauto.
  - rewrite list_lookup_total_insert_ne by done. rewrite HP. intuition congruence.
Qed.

Lemma add_undirected_spec n g P i x : has_edges n g P -> i < n -> x < n ->
  wp (add_undirected i g x) (fun g' =>
    has_edges n g' (fun a b => P a b \/ (a = i /\ b = x) \/ (a = x /\ b = i))).
Proof.
  intros Hg Hi Hx. pose proof (proj1 Hg) as Hl. unfold add_undirected.
  apply wp_bind, wp_vget; [lia|]. intros gi <-%list_lookup_total_correct.
  apply wp_bind, wp_vset; [lia|]. pose proof (has_edges_push n g P i x Hg Hi) as [Hl' HP'].
  destruct (Nat.eqb_spec x i) as [->|Hne].
  - split; [done|]. intros a b. rewrite HP'. tauto.
  - apply wp_bind, wp_vget; [lia|]. intros gn <-%list_lookup_total_correct.
    apply wp_vset; [lia|].
    destruct (has_edges_push n _ _ x i (conj Hl' HP') Hx) as [Hl'' HP''].
    split; [done|]. intros a b. rewrite HP''. tauto.
Qed.

(** [build_undirected_level0_graph] is the symmetric closure of the level-0
    links, with strictly increasing adjacency lists. *)
Lemma build_undirected_spec h n : HNSW.wf h n ->
  wp (build_undirected_level0_graph h n) (fun g =>
    has_edges n g (fun i j => (i < n /\ j ∈ HNSW.links h i 0) \/ (j < n /\ i ∈ HNSW.links h j 0)) /\
    forall i, StronglySorted (<) (g !!! i)).
Proof.
  intros Hwf. unfold build_undirected_level0_graph. apply wp_bind.
  apply (wp_for _ (fun k g => has_edges n g (fun i j =>
    (i < k /\ j ∈ HNSW.links h i 0) \/ (j < k /\ i ∈ HNSW.links h j 0)))).
  - split; [apply length_replicate|]. intros i j. split; [|lia]. intros Hj. exfalso.
    destruct (decide (i < n)).
    + rewrite lookup_total_replicate_2 in Hj by done. by apply elem_of_nil in Hj.
    + rewrite list_lookup_total_alt, lookup_ge_None_2 in Hj by (rewrite length_replicate; lia).
      by apply elem_of_nil in Hj.
  - intros k g Hk Hg. rewrite (HNSW.for_neighbors_links0 h n) by (done || lia).
    apply (wp_foldM _ (fun pre g => has_edges n g (fun i j =>
      (i < k /\ j ∈ HNSW.links h i 0 \/ j < k /\ i ∈ HNSW.links h j 0) \/
      (i = k /\ j ∈ pre) \/ (j = k /\ i ∈ pre)))).
    + destruct Hg as [Hl HP]. split; [done|]. intros i j. rewrite HP, !elem_of_nil. tauto.
    + intros pre a post g' Hpre Hg'.
      assert (a < n) as Ha.
      { eapply (HNSW.links_bound h n k 0); [done|]. rewrite Hpre, elem_of_app, elem_of_cons. auto. }
      eapply wp_mono; [apply (add_undirected_spec n g' _ k a Hg'); [lia|done]|].
      intros g'' [Hl HP]. split; [done|]. intros i j.
      rewrite HP, !elem_of_app, !list_elem_of_singleton. intuition congruence.
    + intros g' [Hl HP]. split; [done|]. intros i j. rewrite HP.
      assert (forall x, x < k + 1 <-> x < k \/ x = k) as Hx by lia. rewrite !Hx.
      intuition congruence.
  - rewrite Nat.add_0_l. intros g [Hl HP].
    apply (wp_for _ (fun k g' => length g' = n /\ (forall i, i < k -> StronglySorted (<) (g' !!! i)) /\
       forall i j, j ∈ g' !!! i <-> j ∈ g !!! i)).
    + split_and!; [done|lia|done].
    + intros i g' Hi (Hl' & Hs & He). apply wp_bind, wp_vget; [lia|].
      intros gi <-%list_lookup_total_correct. apply wp_vset; [lia|].
      destruct (sort_unique_spec (g' !!! i)) as [Hso Hel].
      split_and!; [by rewrite length_insert| |].
      * intros a Ha. destruct (decide (i = a)) as [<-|Hne].
        -- by rewrite list_lookup_total_insert_eq by lia.
        -- rewrite list_lookup_total_insert_ne by done. apply Hs. lia.
      * intros a b. rewrite <- He. destruct (decide (i = a)) as [<-|Hne].
        -- by rewrite list_lookup_total_insert_eq by lia.
        -- by rewrite list_lookup_total_insert_ne by done.
    + rewrite Nat.add_0_l. intros g' (Hl' & Hs & He). split; [split; [done|]|].
      * intros i j. by rewrite He, HP.
      * intros i. destruct (decide (i < n)) as [Hi|Hi]; [auto|].
        rewrite list_lookup_total_alt, lookup_ge_None_2 by lia. constructor.
Qed.

(** ** Seeds are unvisited vertices *)

(** An adjacency structure on [n] vertices. *)
Definition graph_ok (n : nat) (g : list (list nat)) : Prop :=
  length g = n /\ forall i j, j ∈ g !!! i -> j < n.

Lemma build_undirected_ok h n : HNSW.wf h n ->
  wp (build_undirected_level0_graph h n) (graph_ok n).
Proof.
  intros Hwf. eapply wp_mono; [by apply build_undirected_spec|]. intros g [[Hl HP] _].
  split; [done|]. intros i j [[? Hj]|[? _]]%HP; [|done]. by eapply HNSW.links_bound.
Qed.

Section seeds.
Context {n : nat} {g : list (list nat)} (Hg : graph_ok n g).
Context {cv : list bool} (Hcv : length cv = n).

Let fresh (v : nat) : Prop := cv !! v = Some false.

Lemma fresh_lt v : fresh v -> v < n.
Proof. intros H. apply lookup_lt_Some in H. lia. Qed.

Lemma low_degree_seed_spec :
  wp (choose_low_degree_seed g cv) (fun seed =>
    match seed with
    | Some s => fresh s
    | None => forall i, i < n -> cv !! i = Some true
    end).
Proof.
  unfold choose_low_degree_seed. destruct Hg as [Hl _]. rewrite Hl. apply wp_bind.
  apply (wp_for _ (fun k (best : option (nat * nat)) =>
    match best with
    | Some (s, _) => fresh s
    | None => forall i, i < k -> cv !! i = Some true
    end)).
  - lia.
  - intros i best Hi Hb. apply wp_bind, wp_vget; [lia|]. intros [] Hv.
    + destruct best as [[s d]|]; [done|]. simpl. intros j Hj.
      destruct (decide (i = j)) as [<-|]; [done|]. apply Hb. lia.
    + apply wp_bind, wp_vget; [lia|]. intros gi _.
      destruct best as [[s d]|]; [|done]. by destruct (_ <? _).
  - intros [[s d]|]; done.
Qed.

(** How many vertices have no distance yet. *)
Definition unreached (distance : list Z) : nat := length (filter (fun d => (d < 0)%Z) distance).

Lemma unreached_insert distance v d d' : distance !! v = Some d -> (d < 0)%Z -> (0 <= d')%Z ->
  unreached (<[v := d']> distance) + 1 = unreached distance.
Proof.
  intros Hv Hd Hd'. unfold unreached.
  rewrite <- (take_drop_middle _ _ _ Hv) at 2.
  rewrite insert_take_drop by (by eapply lookup_lt_Some).
  rewrite !filter_app, !length_app, !filter_cons.
  rewrite decide_False by lia. rewrite decide_True by done. simpl. lia.
Qed.

Lemma unreached_le distance : unreached distance <= length distance.
Proof. apply length_filter. Qed.

(** The invariant of the distance search. *)
Definition ecc_inv (st : bfs_state) : Prop :=
  let '(distance, queue, eccentricity, farthest) := st in
  length distance = n /\
  Forall (fun d => d + Z.of_nat (unreached distance) < Z.of_nat n)%Z distance /\
  Forall (fun v => fresh v /\ exists d, distance !! v = Some d /\ (0 <= d)%Z) queue /\
  (0 <= eccentricity < Z.of_nat n)%Z /\ Forall fresh farthest.

Lemma relax_spec distance queue nd next e far :
  ecc_inv (distance, queue, e, far) ->
  (0 <= nd)%Z -> (nd + Z.of_nat (unreached distance) < Z.of_nat n)%Z -> next < n ->
  wp (relax cv nd (distance, queue) next) (fun '(distance', queue') =>
    ecc_inv (distance', queue', e, far) /\
    (nd + Z.of_nat (unreached distance') < Z.of_nat n)%Z /\
    length queue' + unreached distance' = length queue + unreached distance).
Proof.
  intros (Hl & Hd & Hq & He & Hf) Hnd Hnu Hx. unfold relax.
  apply wp_bind, wp_vget; [lia|]. intros [] Hv; [done|].
  apply wp_bind, wp_vget; [lia|]. intros d Hdx. destruct (Z.leb_spec 0 d); [done|].
  apply wp_bind, wp_vset; [lia|]. simpl.
  pose proof (unreached_insert distance next d (nd + 1)%Z Hdx ltac:(lia) ltac:(lia)) as Hu.
  rewrite length_app, length_insert. simpl.
  split; [split_and!; [done| | |lia|lia|done]|lia].
  - apply Forall_insert; [|lia]. eapply Forall_impl; [exact Hd|]. simpl. lia.
  - apply Forall_app. split.
    + eapply Forall_impl; [exact Hq|]. intros v (Hfr & d' & Hd' & Hpos). split; [done|].
      destruct (decide (next = v)) as [<-|]; [simplify_eq; lia|].
      exists d'. by rewrite list_lookup_insert_ne.
    + apply Forall_singleton. split; [done|]. exists (nd + 1)%Z.
      split; [apply list_lookup_insert_eq; lia | lia].
Qed.

Lemma ecc_body_spec st : ecc_inv st -> ecc_continue st = true ->
  wp (ecc_body g cv st) (fun st' => ecc_inv st' /\
    (let '(d', q', _, _) := st' in let '(d, q, _, _) := st in
     length q' + unreached d' < length q + unreached d)).
Proof.
  destruct st as [[[distance queue] e] far]. intros (Hl & Hd & Hq & He & Hf) Hc.
  destruct queue as [|node queue]; [done|]. simpl.
  apply Forall_cons in Hq as [[Hfr (nd & Hnd & Hpos)] Hq].
  rewrite (proj2 (vget_Ret _ _ _) Hnd). simpl.
  pose proof (proj1 (Forall_lookup _ _) Hd _ _ Hnd) as Hb. simpl in Hb.
  assert (exists e' far', (if (e <? nd)%Z then (nd, []) else (e, far)) = (e', far') /\
    (0 <= e' < Z.of_nat n)%Z /\ Forall fresh far') as (e' & far' & -> & He' & Hf').
  { destruct (e <? nd)%Z; [exists nd, [] | exists e, far]; split_and!; done || lia || constructor. }
  set (far'' := if (nd =? e')%Z then far' ++ [node] else far').
  assert (Forall fresh far'') as Hf''.
  { unfold far''. destruct (nd =? e')%Z; [|done]. apply Forall_app. split; [done|]. by constructor. }
  destruct Hg as [Hlg Hb'].
  apply wp_bind, wp_vget; [apply fresh_lt in Hfr; lia|]. intros nbrs Hn. apply wp_bind.
  apply (wp_foldM_simple _ (fun '(d', q') => ecc_inv (d', q', e', far'') /\
     (nd + Z.of_nat (unreached d') < Z.of_nat n)%Z /\
     length q' + unreached d' = length queue + unreached distance)).
  - split; [split_and!; done || lia|]. split; [lia|done].
  - intros a [d' q'] Ha (Hi & Hlt & Hsum).
    eapply wp_mono.
    { eapply relax_spec; [exact Hi|done|done|]. apply (Hb' node).
      by rewrite (list_lookup_total_correct _ _ _ Hn). }
    intros [d'' q''] (Hi' & Hlt' & Hsum'). split_and!; [done..|lia].
  - intros [d' q'] (Hi & _ & Hsum). simpl. split; [done|lia].
Qed.

Lemma ecc_search_spec current : fresh current ->
  wp (ecc_search g cv current) (fun '(e, far) => (0 <= e < Z.of_nat n)%Z /\ Forall fresh far).
Proof.
  intros Hc. pose proof (fresh_lt _ Hc) as Hlt. unfold ecc_search. rewrite (proj1 Hg).
  apply wp_bind, wp_vset; [by rewrite length_replicate|]. apply wp_bind.
  assert (unreached (<[current := 0%Z]> (replicate n (-1)%Z)) + 1 <= n) as Hu.
  { rewrite (unreached_insert _ _ (-1) 0); [|by apply lookup_replicate_2|lia|lia].
    etrans; [apply unreached_le|]. by rewrite length_replicate. }
  apply (wp_whileM _ _ _ _ ecc_inv (fun '(d, q, _, _) => length q + unreached d)).
  - split_and!; [by rewrite length_insert, length_replicate| | |lia|lia|done].
    + apply Forall_insert; [|lia]. apply Forall_replicate. lia.
    + apply Forall_singleton. split; [done|]. exists 0%Z. split; [|lia].
      apply list_lookup_insert_eq. by rewrite length_replicate.
  - simpl. lia.
  - intros st Hi Hcont. eapply wp_mono; [by apply ecc_body_spec|].
    by intros [[[d' q'] e'] f'] [? ?]; destruct st as [[[d q] e] f].
  - intros [[[d q] e] f] (_ & _ & _ & ? & ?) _. done.
Qed.

Lemma least_degree_spec first others : Forall fresh (first :: others) ->
  wp (least_degree g first others) fresh.
Proof.
  intros [Hf Ho]%Forall_cons. unfold least_degree. destruct Hg as [Hl _].
  apply wp_bind, wp_vget; [apply fresh_lt in Hf; lia|]. intros g0 _. apply wp_bind.
  apply (wp_foldM_simple _ (fun '(s, _) => fresh s)); [done| |by intros []].
  intros a [s d] Ha Hs. pose proof (proj1 (Forall_forall _ _) Ho a Ha) as Hfa.
  apply wp_bind, wp_vget; [apply fresh_lt in Hfa; lia|]. intros gc _.
  by destruct (_ <? _).
Qed.

Lemma peripheral_loop_spec fuel prev current : fresh current ->
  (-1 <= prev < Z.of_nat n)%Z -> (Z.of_nat n - prev <= Z.of_nat fuel)%Z ->
  wp (peripheral_loop fuel g cv prev current) fresh.
Proof.
  revert prev current. induction fuel as [|fuel IH]; intros prev current Hc Hp Hf.
  - lia.
  - cbn [peripheral_loop]. apply wp_bind.
    eapply wp_mono; [by apply ecc_search_spec|]. intros [e far] [He Hfar].
    destruct (Z.leb_spec e prev); [done|]. destruct far as [|first others]; [done|].
    apply wp_bind. eapply wp_mono; [by apply least_degree_spec|]. intros s Hs.
    destruct (Nat.eqb_spec s current); [done|]. apply IH; [done|lia|lia].
Qed.

End seeds.

Lemma pseudo_peripheral_spec n g cv start : graph_ok n g -> length cv = n ->
  cv !! start = Some false ->
  wp (choose_pseudo_peripheral_seed g start cv) (fun s => cv !! s = Some false).
Proof.
  intros Hg Hcv Hs. pose proof (lookup_lt_Some _ _ _ Hs). destruct Hg as [Hl Hb].
  apply (peripheral_loop_spec (conj Hl Hb) Hcv); [done|lia|lia].
Qed.

(** ** The reversed traversal is a permutation *)

Section rcm.
Context {n : nat} {g : list (list nat)} (Hg : graph_ok n g) (base : list nat).

(** The traversal invariant with the already emitted components in front. *)
Lemma rcm_body_spec vis order q :
  traversal n vis (base ++ order) q -> queue_nonempty (vis, order, q) = true ->
  wp (rcm_body g (vis, order, q)) (fun '(vis', order', q') =>
    traversal n vis' (base ++ order') q' /\ marks_grow vis vis' /\
    length order' = length order + 1).
Proof.
  intros Ht Hne. destruct q as [|node q]; [done|].
  assert (node < n) as Hnode.
  { apply (traversal_bound node Ht). rewrite !elem_of_app, elem_of_cons. auto. }
  apply (traversal_pop node q eq_refl) in Ht. rewrite <- app_assoc in Ht.
  pose proof (tr_len _ _ _ _ Ht) as Hvl. destruct Hg as [Hlg Hb]. cbn [rcm_body].
  apply wp_bind, wp_vget; [lia|]. intros nbrs Hn%list_lookup_total_correct. apply wp_bind.
  apply (wp_foldM_simple _ (Forall (fun v => v < n))); [constructor| |].
  { intros a buf Ha Hbuf. assert (a < n) by (apply (Hb node); by rewrite Hn).
    apply wp_bind, wp_vget; [lia|]. intros [] _; [done|]. simpl. apply Forall_app. by repeat constructor. }
  intros buf Hbuf. apply wp_bind.
  apply (wp_foldM_simple _ (fun '(vis', q') =>
    traversal n vis' (base ++ order ++ [node]) q' /\ marks_grow vis vis')); [done| |].
  - intros a [v' q'] Ha [Ht' Hm]. rewrite merge_sort_Permutation in Ha.
    eapply wp_mono.
    { apply push_unvisited_spec; [done|]. by apply (proj1 (Forall_forall _ _) Hbuf). }
    intros [v'' q''] [? ?]. split; [done | by etrans].
  - intros [v' q'] [Ht' Hm]. simpl. rewrite length_app. simpl. auto.
Qed.

Lemma rcm_component_spec vis seed : traversal n vis base [] -> vis !! seed = Some false ->
  wp (rcm_component g n vis seed) (fun '(vis', order) =>
    traversal n vis' (base ++ order) [] /\ 0 < length order).
Proof.
  intros Ht Hs. pose proof (tr_len _ _ _ _ Ht). unfold rcm_component.
  apply wp_bind, wp_vset; [by eapply lookup_lt_Some|]. apply wp_bind.
  apply (wp_whileM _ _ _ _ (fun '(vis', order, q) =>
      traversal n vis' (base ++ order) q /\ (0 < length order \/ q = [seed]))
    (fun '(_, order, q') => n - length order)).
  - rewrite app_nil_r. split; [exact (traversal_push seed Ht Hs)|by right].
  - simpl. lia.
  - intros [[v o] q] [Ht' Ho] Hc. pose proof (traversal_length Ht') as Hl.
    eapply wp_mono; [by apply rcm_body_spec|].
    intros [[v' o'] q'] (Ht'' & _ & Hlen). split; [split; [done|lia]|].
    rewrite length_app in Hl. destruct q; simpl in *; [done|lia].
  - intros [[v o] q] [Ht' Ho] Hc. destruct q; [|done]. simpl. split; [done|].
    by destruct Ho.
Qed.

End rcm.

Lemma traversal_reverse n vis base order :
  traversal n vis (base ++ order) [] -> traversal n vis (base ++ reverse order) [].
Proof.
  assert (base ++ reverse order ++ [] ≡ₚ base ++ order ++ []) as Hp by by rewrite reverse_Permutation.
  intros [Hl Hn Hv]. rewrite <- app_assoc in *. split; [done| |].
  - by rewrite <- app_assoc, Hp.
  - intros i. by rewrite <- app_assoc, Hp, Hv.
Qed.

Lemma rcm_loop_spec n g fuel vis perm : graph_ok n g -> traversal n vis perm [] ->
  n - length perm <= fuel ->
  wp (rcm_loop fuel g n vis perm) (is_perm n).
Proof.
  intros Hg. revert vis perm. induction fuel as [|fuel IH]; intros vis perm Ht Hf; simpl.
  all: pose proof (traversal_length Ht) as Hl; simpl in Hl.
  all: pose proof (traversal_full Ht) as Hfull.
  all: destruct (Nat.ltb_spec (length perm) n); [|apply Hfull; lia].
  - lia.
  - apply wp_bind. eapply wp_mono; [apply (low_degree_seed_spec Hg), Ht|].
    intros [seed|] Hs; [|by apply (traversal_perm Ht)].
    apply wp_bind. eapply wp_mono; [by apply (pseudo_peripheral_spec n); [|apply Ht|]|].
    intros s Hs'. apply wp_bind. eapply wp_mono; [by apply (rcm_component_spec Hg perm)|].
    intros [vis' order] [Ht' Hpos]. apply IH; [by apply traversal_reverse|].
    rewrite length_app, length_reverse. lia.
Qed.

Lemma rcm_perm_spec h n : HNSW.wf h n -> wp (generateRCMPermutation h n) (is_perm n).
Proof.
  intros Hwf. unfold generateRCMPermutation. destruct (Nat.eqb_spec n 0) as [->|Hne].
  { simpl. by unfold is_perm. }
  apply wp_bind. eapply wp_mono; [by apply build_undirected_ok|]. intros g Hg.
  apply rcm_loop_spec; [done|apply traversal_init|simpl; lia].
Qed.
