(* ===== verification/LayoutRabbit.v ===== *)
(** * Community order (IndexHNSW::generateRabbitOrderPermutation)

    Communities merged along the best modularity gain, kept in a union-find
    forest with path compression, then emitted by decreasing strength. *)

From S2P Require Import Prelude Float HnswGraph LayoutBfs LayoutRcm.

Record RabbitCommunity := mkCommunity {
  parent : nat;
  members : list nat;
  strength : spec_float;
  active : bool
}.

#[export] Instance community_inhabited : Inhabited RabbitCommunity :=
  populate (mkCommunity 0 [] F64.zero false).

Definition with_parent (c : RabbitCommunity) (p : nat) : RabbitCommunity :=
  mkCommunity p (members c) (strength c) (active c).

(** ** rabbit_find_root

    The climbing loop, the compressing loop and their composition.  Both follow
    parent links, at most one step per vertex. *)
Fixpoint climb (fuel : nat) (communities : list RabbitCommunity) (root : nat) : M nat :=
  let* c := vget communities root in
  if parent c =? root then Ret root
  else match fuel with
       | 0 => Undef
       | S fuel => climb fuel communities (parent c)
       end.

Fixpoint compress (fuel : nat) (communities : list RabbitCommunity) (root node : nat)
    : M (list RabbitCommunity) :=
  let* c := vget communities node in
  if parent c =? node then Ret communities
  else match fuel with
       | 0 => Undef
       | S fuel =>
           let* communities := vset communities node (with_parent c root) in
           compress fuel communities root (parent c)
       end.

Definition rabbit_find_root (communities : list RabbitCommunity) (node : nat)
    : M (list RabbitCommunity * nat) :=
  let n := length communities in
  let* root := climb n communities node in
  let* communities := compress n communities root node in
  Ret (communities, root).

(** ** Building the communities *)

Definition init_community (graph : list (list nat)) (i : nat) : M RabbitCommunity :=
  let* gi := vget graph i in
  Ret (mkCommunity i [i] (F64.of_Z (Z.of_nat (length gi))) true).

(** The initial communities and the total edge weight. *)
Definition init_communities (graph : list (list nat)) (n : nat)
    : M (list RabbitCommunity * spec_float) :=
  let* (communities, total) := foldM (fun (st : list RabbitCommunity * spec_float) i =>
      let '(communities, total) := st in
      let* c := init_community graph i in
      Ret (communities ++ [c], F64.add total (strength c)))
    ([], F64.zero) (seq 0 n) in
  Ret (communities, if SFleb total F64.zero then F64.one else total).

(** Scan state: communities (their parents compress), [edge_weights], [touched_roots]. *)
Definition scan_state : Type := list RabbitCommunity * list spec_float * list nat.

Definition scan_neighbor (source_root : nat) (st : scan_state) (neighbor : nat) : M scan_state :=
  let '(communities, edge_weights, touched_roots) := st in
  let* (communities, neighbor_root) := rabbit_find_root communities neighbor in
  let* c := vget communities neighbor_root in
  if (neighbor_root =? source_root) || negb (active c) then
    Ret (communities, edge_weights, touched_roots)
  else
    let* w := vget edge_weights neighbor_root in
    let touched_roots := if SFeqb w F64.zero then touched_roots ++ [neighbor_root]
                         else touched_roots in
    let* edge_weights := vset edge_weights neighbor_root (F64.add w F64.one) in
    Ret (communities, edge_weights, touched_roots).

Definition scan_members (graph : list (list nat)) (source_root : nat) (ms : list nat)
    (st : scan_state) : M scan_state :=
  foldM (fun st member =>
      let* neighbors := vget graph member in
      foldM (scan_neighbor source_root) st neighbors) st ms.

(** The best target: [(best_root, best_score)], [None] for [-1]. *)
Definition pick_best (communities : list RabbitCommunity) (edge_weights : list spec_float)
    (source_root : nat) (total : spec_float) (touched_roots : list nat)
    : M (option nat * spec_float) :=
  foldM (fun (st : option nat * spec_float) target_root =>
      let '(best_root, best_score) := st in
      let* edge_weight := vget edge_weights target_root in
      let* cs := vget communities source_root in
      let* ct := vget communities target_root in
      let score := F64.sub edge_weight (F64.div (F64.mul (strength cs) (strength ct)) total) in
      if SFltb best_score score ||
         (SFeqb score best_score &&
          match best_root with Some b => target_root <? b | None => false end)
      then Ret (Some target_root, score)
      else Ret (best_root, best_score))
    (None, F64.zero) touched_roots.

(** The merge of [source_root] into [best_root]. *)
Definition merge_into (communities : list RabbitCommunity) (source_root best_root : nat)
    : M (list RabbitCommunity) :=
  let* s := vget communities source_root in
  let* communities := vset communities source_root (with_parent s best_root) in
  let* b := vget communities best_root in
  let* s := vget communities source_root in
  let* communities := vset communities best_root
    (mkCommunity (parent b) (members b ++ members s) (F64.add (strength b) (strength s)) (active b)) in
  let* s := vget communities source_root in
  vset communities source_root (mkCommunity (parent s) [] F64.zero false).

(** Loop state: communities, [edge_weights], [root_processed]. *)
Definition rabbit_state : Type := list RabbitCommunity * list spec_float * list bool.

Definition process_node (graph : list (list nat)) (total : spec_float)
    (st : rabbit_state) (node : nat) : M rabbit_state :=
  let '(communities, edge_weights, root_processed) := st in
  let* (communities, source_root) := rabbit_find_root communities node in
  let* c := vget communities source_root in
  let* processed := vget root_processed source_root in
  if negb (active c) || processed then Ret (communities, edge_weights, root_processed)
  else
    let* root_processed := vset root_processed source_root true in
    let* (communities, edge_weights, touched_roots) :=
      scan_members graph source_root (members c) (communities, edge_weights, []) in
    let* (best_root, best_score) :=
      pick_best communities edge_weights source_root total touched_roots in
    let* communities :=
      match best_root with
      | Some best_root => if SFltb F64.zero best_score
                          then merge_into communities source_root best_root
                          else Ret communities
      | None => Ret communities
      end in
    let* edge_weights := foldM (fun edge_weights r => vset edge_weights r F64.zero)
                           edge_weights touched_roots in
    Ret (communities, edge_weights, root_processed).

(** ** Emitting the order *)

Definition collect_roots (communities : list RabbitCommunity) (n : nat)
    : M (list RabbitCommunity * list nat) :=
  foldM (fun (st : list RabbitCommunity * list nat) i =>
      let '(communities, roots) := st in
      let* (communities, r) := rabbit_find_root communities i in
      let* c := vget communities i in
      Ret (communities, if (r =? i) && active c then roots ++ [i] else roots))
    (communities, []) (seq 0 n).

(** [*std::min_element(members)], or the root itself when there is none. *)
Definition min_member (communities : list RabbitCommunity) (r : nat) : nat :=
  match members (communities !!! r) with
  | [] => r
  | m :: ms => foldr Nat.min m ms
  end.

(** The comparator of the root sort: stronger first, then smaller least member. *)
Definition root_before (communities : list RabbitCommunity) (lhs rhs : nat) : bool :=
  let ls := strength (communities !!! lhs) in
  let rs := strength (communities !!! rhs) in
  if negb (SFeqb ls rs) then SFltb rs ls
  else min_member communities lhs <? min_member communities rhs.

Definition root_le (communities : list RabbitCommunity) (lhs rhs : nat) : Prop :=
  root_before communities rhs lhs = false.

#[export] Instance root_le_dec communities : RelDecision (root_le communities).
Proof. intros x y. unfold root_le. apply _. Defined.

Definition rabbit_emit_members (communities : list RabbitCommunity) (st : list bool * list nat)
    (root : nat) : M (list bool * list nat) :=
  let* c := vget communities root in
  foldM (fun (st : list bool * list nat) member =>
      let '(emitted, perm) := st in
      let* e := vget emitted member in
      if e then Ret st
      else let* emitted := vset emitted member true in Ret (emitted, perm ++ [member]))
    st (members c).

Definition generateRabbitOrderPermutation (h : HNSW.t) (n : nat) : M (list nat) :=
  if n =? 0 then Ret []
  else
    let* graph := build_undirected_level0_graph h n in
    let order := merge_sort (degree_le graph) (seq 0 n) in
    let* (communities, total) := init_communities graph n in
    let* (communities, _, _) :=
      foldM (process_node graph total)
        (communities, replicate n F64.zero, replicate n false) order in
    let* (communities, roots) := collect_roots communities n in
    let roots := merge_sort (root_le communities) roots in
    let* (emitted, perm) :=
      foldM (rabbit_emit_members communities) (replicate n false, []) roots in
    foldM (fun perm i =>
        let* e := vget emitted i in
        Ret (if e then perm else perm ++ [i])) perm (seq 0 n).

(** ** The union-find forest

    [rk] is the round in which a vertex stopped being a root, [n] for a root:
    parents have larger ranks, so climbing ends. *)
Definition forest (n k : nat) (rk : nat -> nat) (cs : list RabbitCommunity) : Prop :=
  length cs = n /\ k <= n /\
  forall i c, cs !! i = Some c ->
    parent c < n /\ Forall (fun m => m < n) (members c) /\
    (if decide (parent c = i) then rk i = n else rk i < k /\ rk i < rk (parent c)).

Definition is_root (cs : list RabbitCommunity) (r : nat) : Prop :=
  exists c, cs !! r = Some c /\ parent c = r.

Section forest.
Context {n k : nat} {rk : nat -> nat}.

Lemma forest_rank cs i c : forest n k rk cs -> cs !! i = Some c -> rk i <= n.
Proof. intros (_ & Hk & H) Hi. destruct (H i c Hi) as (_ & _ & Hr). case_decide; lia. Qed.

Lemma climb_spec fuel cs node : forest n k rk cs -> node < n -> n - rk node <= fuel ->
  wp (climb fuel cs node) (fun r => r < n /\ is_root cs r).
Proof.
  intros Hf. revert node. induction fuel as [|fuel IH]; intros node Hn Hfu; simpl.
  all: apply wp_bind, wp_vget; [destruct Hf; lia|]; intros c Hc.
  all: pose proof Hf as (_ & Hk & H); destruct (H _ _ Hc) as (Hp & _ & Hr).
  all: destruct (Nat.eqb_spec (parent c) node) as [He|He].
  - split; [done|]. by exists c.
  - rewrite decide_False in Hr by done. lia.
  - split; [done|]. by exists c.
  - rewrite decide_False in Hr by done. apply IH; [done|lia].
Qed.

Lemma forest_compress cs node c root : forest n k rk cs -> cs !! node = Some c ->
  parent c <> node -> is_root cs root ->
  forest n k rk (<[node := with_parent c root]> cs) /\
  (forall x, is_root cs x -> is_root (<[node := with_parent c root]> cs) x).
Proof.
  intros (Hl & Hk & H) Hc Hne (cr & Hcr & Hpr).
  assert (root <> node) as Hrn by (intros ->; by simplify_eq).
  split; [split_and!; [by rewrite length_insert|done|]|].
  - intros i d Hd. destruct (decide (node = i)) as [<-|Hi].
    + rewrite list_lookup_insert_eq in Hd by (by eapply lookup_lt_Some). simplify_eq.
      destruct (H _ _ Hc) as (Hp & Hm & Hr). destruct (H _ _ Hcr) as (Hp' & _ & Hr').
      simpl. rewrite decide_False in Hr by done. rewrite decide_False by done.
      rewrite decide_True in Hr' by done. split_and!; [done|done|lia|lia].
    + rewrite list_lookup_insert_ne in Hd by done. auto.
  - intros x (d & Hd & Hpd). destruct (decide (node = x)) as [<-|Hx]; [by simplify_eq|].
    exists d. by rewrite list_lookup_insert_ne.
Qed.

Lemma compress_spec fuel cs root node : forest n k rk cs -> is_root cs root -> node < n ->
  n - rk node <= fuel ->
  wp (compress fuel cs root node) (fun cs' => forest n k rk cs' /\
    (forall x, is_root cs x -> is_root cs' x)).
Proof.
  revert cs node. induction fuel as [|fuel IH]; intros cs node Hf Hr Hn Hfu; simpl.
  all: apply wp_bind, wp_vget; [destruct Hf; lia|]; intros c Hc.
  all: pose proof Hf as (_ & Hk & H); destruct (H _ _ Hc) as (Hp & _ & Hrk).
  all: destruct (Nat.eqb_spec (parent c) node) as [He|He]; [done|].
  all: rewrite decide_False in Hrk by done.
  - lia.
  - apply wp_bind, wp_vset; [by eapply lookup_lt_Some|].
    destruct (forest_compress cs node c root Hf Hc He Hr) as [Hf' Hr'].
    eapply wp_mono; [apply IH; [done|by apply Hr'|done|lia]|].
    intros cs' [? ?]. split; [done|auto].
Qed.

Lemma find_root_spec cs node : forest n k rk cs -> node < n ->
  wp (rabbit_find_root cs node) (fun '(cs', r) =>
    forest n k rk cs' /\ is_root cs' r /\ r < n /\ (forall x, is_root cs x -> is_root cs' x)).
Proof.
  intros Hf Hn. unfold rabbit_find_root. pose proof Hf as (Hl & _). rewrite Hl.
  apply wp_bind. eapply wp_mono; [apply climb_spec; [done|done|lia]|]. intros r [Hr Hroot].
  apply wp_bind. eapply wp_mono; [apply compress_spec; [done|done|done|lia]|].
  intros cs' [Hf' Hr']. simpl. split_and!; auto.
Qed.

(** Merging a root into another root, in round [k]. *)
Lemma merge_into_spec cs s b : forest n k rk cs -> k < n -> is_root cs s -> is_root cs b ->
  s <> b ->
  wp (merge_into cs s b) (fun cs' =>
    forest n (k + 1) (fun x => if decide (x = s) then k else rk x) cs').
Proof.
  intros (Hl & Hk & H) Hkn (c_s & Hs & Hps) (c_b & Hb & Hpb) Hne.
  destruct (H _ _ Hs) as (Hs1 & Hs2 & Hs3). destruct (H _ _ Hb) as (Hb1 & Hb2 & Hb3).
  assert (s < length cs) as Hsl by (by eapply lookup_lt_Some).
  assert (b < length cs) as Hbl by (by eapply lookup_lt_Some).
  unfold merge_into. rewrite (proj2 (vget_Ret _ _ _) Hs). simpl.
  unfold vset. rewrite decide_True by done. simpl.
  rewrite (proj2 (vget_Ret _ b c_b)) by (by rewrite list_lookup_insert_ne). simpl.
  rewrite (proj2 (vget_Ret _ s _) (list_lookup_insert_eq _ _ _ Hsl)). simpl.
  rewrite decide_True by (by rewrite length_insert). simpl.
  rewrite (proj2 (vget_Ret _ s (with_parent c_s b)))
    by (by rewrite list_lookup_insert_ne, list_lookup_insert_eq by done). simpl.
  rewrite decide_True by (by rewrite !length_insert). simpl.
  split_and!; [by rewrite !length_insert|lia|]. intros i c Hc.
  destruct (decide (s = i)) as [<-|Hsi].
  { rewrite list_lookup_insert_eq in Hc by (by rewrite !length_insert). simplify_eq. simpl.
    rewrite decide_False by done. rewrite decide_True by done.
    rewrite decide_False by done. rewrite decide_True in Hb3 by done.
    split_and!; [lia|constructor|lia|lia]. }
  rewrite list_lookup_insert_ne in Hc by done. destruct (decide (b = i)) as [<-|Hbi].
  { rewrite list_lookup_insert_eq in Hc by (by rewrite length_insert). simplify_eq. simpl.
    rewrite decide_True by done. rewrite decide_False by done. rewrite decide_True in Hb3 by done.
    split_and!; [lia|by apply Forall_app|done]. }
  rewrite !list_lookup_insert_ne in Hc by done. destruct (H _ _ Hc) as (Hc1 & Hc2 & Hc3).
  split_and!; [done|done|]. rewrite (decide_False (P := i = s)) by done.
  destruct (decide (parent c = i)); [done|].
  destruct (decide (parent c = s)); lia.
Qed.

End forest.

Lemma forest_mono n k k' rk cs : forest n k rk cs -> k <= k' <= n -> forest n k' rk cs.
Proof.
  intros (Hl & Hk & H) Hkk. split_and!; [done|lia|]. intros i c Hc.
  destruct (H _ _ Hc) as (? & ? & Hr). split_and!; [done|done|]. case_decide; [done|]. lia.
Qed.

(** ** Each phase keeps the forest *)

Lemma init_communities_spec n g : graph_ok n g ->
  wp (init_communities g n) (fun '(cs, _) => forest n 0 (fun _ => n) cs).
Proof.
  intros [Hl _]. unfold init_communities. apply wp_bind.
  apply (wp_for _ (fun k '(cs, _) => length cs = k /\ forall i c, cs !! i = Some c ->
    parent c = i /\ members c = [i])).
  - done.
  - intros i [cs total] Hi [Hlen H]. unfold init_community. apply wp_bind, wp_bind, wp_vget; [lia|].
    intros gi _. simpl. rewrite length_app. simpl. split; [lia|]. intros j c Hc.
    apply lookup_app_Some in Hc as [Hc|[Hj Hc]]; [auto|].
    apply list_lookup_singleton_Some in Hc as [Hj' <-]. simpl.
    replace j with i by lia. done.
  - intros [cs total] [Hlen H]. simpl. split_and!; [done|lia|]. intros i c Hc.
    pose proof (lookup_lt_Some _ _ _ Hc).
    destruct (H i c Hc) as [Hp ->]. rewrite decide_True by done.
    split_and!; [lia|apply Forall_singleton; lia|done].
Qed.

Section process.
Context {n : nat} {g : list (list nat)} (Hg : graph_ok n g).

Definition scan_ok (k : nat) (rk : nat -> nat) (source_root : nat) (st : scan_state) : Prop :=
  let '(cs, ew, touched) := st in
  forest n k rk cs /\ is_root cs source_root /\ length ew = n /\
  Forall (fun r => is_root cs r /\ r <> source_root /\ r < n) touched.

Lemma scan_neighbor_spec k rk source_root st neighbor :
  scan_ok k rk source_root st -> neighbor < n ->
  wp (scan_neighbor source_root st neighbor) (scan_ok k rk source_root).
Proof.
  destruct st as [[cs ew] touched]. intros (Hf & Hs & Hew & Ht) Hn. unfold scan_neighbor.
  apply wp_bind. eapply wp_mono; [by apply (find_root_spec _ _ Hf)|].
  intros [cs' r] (Hf' & Hr & Hrn & Hroots). apply wp_bind, wp_vget; [destruct Hf'; lia|]. intros c _.
  assert (Forall (fun r => is_root cs' r /\ r <> source_root /\ r < n) touched) as Ht'.
  { eapply Forall_impl; [exact Ht|]. intros x (? & ? & ?). auto. }
  destruct (Nat.eqb_spec r source_root) as [->|Hne]; simpl; [split_and!; auto|].
  destruct (active c); simpl; [|split_and!; auto].
  apply wp_bind, wp_vget; [lia|]. intros w _. apply wp_bind, wp_vset; [lia|]. simpl.
  rewrite length_insert. split_and!; [done|auto|done|].
  destruct (SFeqb w F64.zero); [|done]. apply Forall_app. split; [done|]. by apply Forall_singleton.
Qed.

Lemma scan_members_spec k rk source_root ms st :
  scan_ok k rk source_root st -> Forall (fun m => m < n) ms ->
  wp (scan_members g source_root ms st) (scan_ok k rk source_root).
Proof.
  intros Hst Hms. unfold scan_members. destruct Hg as [Hl Hb].
  apply (wp_foldM_simple _ (scan_ok k rk source_root)); [done| |done].
  intros m st' Hm Hst'. pose proof (proj1 (Forall_forall _ _) Hms m Hm) as Hmn. simpl in Hmn.
  apply wp_bind, wp_vget; [lia|]. intros nbrs Hn%list_lookup_total_correct.
  apply (wp_foldM_simple _ (scan_ok k rk source_root)); [done| |done].
  intros a st'' Ha Hst''. apply scan_neighbor_spec; [done|]. apply (Hb m). by rewrite Hn.
Qed.

Lemma pick_best_spec k rk source_root cs ew touched total :
  scan_ok k rk source_root (cs, ew, touched) ->
  wp (pick_best cs ew source_root total touched) (fun '(best, _) =>
    match best with Some b => b ∈ touched | None => True end).
Proof.
  intros (Hf & (c & Hc & _) & Hew & Ht). unfold pick_best.
  apply (wp_foldM_simple _ (fun '(best, _) =>
    match best with Some b => b ∈ touched | None => True end)); [done| |done].
  intros a [best score] Ha Hb. pose proof (proj1 (Forall_forall _ _) Ht a Ha) as (_ & _ & Han).
  apply wp_bind, wp_vget; [lia|]. intros w _.
  apply wp_bind, wp_vget; [by eapply lookup_lt_Some|]. intros ? _.
  apply wp_bind, wp_vget; [destruct Hf; lia|]. intros ct _. simpl. by destruct (_ || _).
Qed.

Lemma process_node_spec k rk total cs ew rp node :
  forest n k rk cs -> length ew = n -> length rp = n -> k < n -> node < n ->
  wp (process_node g total (cs, ew, rp) node) (fun '(cs', ew', rp') =>
    (exists rk', forest n (k + 1) rk' cs') /\ length ew' = n /\ length rp' = n).
Proof.
  intros Hf Hew Hrp Hk Hn. unfold process_node. apply wp_bind.
  eapply wp_mono; [by apply (find_root_spec _ _ Hf)|]. intros [cs1 s] (Hf1 & Hs1 & Hsn & _).
  apply wp_bind, wp_vget; [destruct Hf1; lia|]. intros c Hc. apply wp_bind, wp_vget; [lia|].
  intros processed _. destruct (negb (active c) || processed).
  { simpl. split_and!; [|done|done]. exists rk. eapply forest_mono; [done|lia]. }
  apply wp_bind, wp_vset; [lia|]. apply wp_bind.
  eapply wp_mono.
  { apply (scan_members_spec k rk s (members c) (cs1, ew, [])); [by split_and!|].
    destruct Hf1 as (_ & _ & H). by destruct (H _ _ Hc) as (_ & ? & _). }
  intros [[cs2 ew2] touched] Hscan. apply wp_bind. eapply wp_mono; [by eapply pick_best_spec|].
  intros [best score] Hbest. pose proof Hscan as (Hf2 & Hs2 & Hew2 & Ht).
  apply wp_bind. eapply (wp_mono _ (fun cs' => exists rk', forest n (k + 1) rk' cs')).
  { destruct best as [b|].
    - destruct (SFltb F64.zero score).
      + destruct (proj1 (Forall_forall _ _) Ht b Hbest) as (Hbr & Hbs & _).
        eapply wp_mono; [by apply (merge_into_spec cs2 s b Hf2)|]. simpl. eauto.
      + exists rk. eapply forest_mono; [done|lia].
    - exists rk. eapply forest_mono; [done|lia]. }
  intros cs3 Hf3. apply wp_bind.
  apply (wp_foldM_simple _ (fun ew => length ew = n)); [done| |].
  - intros a ew' Ha Hl. destruct (proj1 (Forall_forall _ _) Ht a Ha) as (_ & _ & Han).
    apply wp_vset; [lia|]. by rewrite length_insert.
  - intros ew' Hl. simpl. rewrite length_insert. done.
Qed.

End process.

(** ** The emitted order *)

Lemma collect_roots_spec n k rk cs : forest n k rk cs ->
  wp (collect_roots cs n) (fun '(cs', roots) =>
    forest n k rk cs' /\ Forall (fun r => r < n) roots).
Proof.
  intros Hf. unfold collect_roots.
  apply (wp_for _ (fun _ '(cs', roots) => forest n k rk cs' /\ Forall (fun r => r < n) roots));
    [done| |done].
  intros i [cs' roots] Hi [Hf' Hr]. apply wp_bind.
  eapply wp_mono; [apply (find_root_spec _ _ Hf'); lia|]. intros [cs'' r] (Hf'' & _).
  apply wp_bind, wp_vget; [destruct Hf''; lia|]. intros c _. simpl. split; [done|].
  destruct (_ && _); [|done]. apply Forall_app. split; [done|]. apply Forall_singleton. lia.
Qed.

Lemma emit_members_spec n k rk cs emitted perm root :
  forest n k rk cs -> root < n -> traversal n emitted perm [] ->
  wp (rabbit_emit_members cs (emitted, perm) root) (fun '(emitted', perm') =>
    traversal n emitted' perm' []).
Proof.
  intros Hf Hr Ht. unfold rabbit_emit_members. pose proof Hf as (Hl & _ & H).
  apply wp_bind, wp_vget; [lia|]. intros c Hc. destruct (H _ _ Hc) as (_ & Hm & _).
  apply (wp_foldM_simple _ (fun '(e, p) => traversal n e p [])); [done| |done].
  intros m [e p] Hin Ht'. pose proof (proj1 (Forall_forall _ _) Hm m Hin) as Hmn. simpl in Hmn.
  pose proof (tr_len _ _ _ _ Ht') as Hle.
  apply wp_bind, wp_vget; [lia|]. intros [] He; [done|].
  apply wp_bind, wp_vset; [lia|]. simpl.
  exact (traversal_pop m [] eq_refl (traversal_push m Ht' He)).
Qed.

Lemma emit_rest_spec n emitted perm : traversal n emitted perm [] ->
  wp (foldM (fun perm i =>
        let* e := vget emitted i in
        Ret (if e then perm else perm ++ [i])) perm (seq 0 n)) (is_perm n).
Proof.
  intros Ht. pose proof (tr_len _ _ _ _ Ht) as Hl.
  pose proof (tr_nodup _ _ _ _ Ht) as Hnd. pose proof (tr_vis _ _ _ _ Ht) as Hv.
  rewrite app_nil_r in Hnd. setoid_rewrite app_nil_r in Hv.
  apply (wp_for _ (fun k p => NoDup p /\
    forall i, i ∈ p <-> emitted !! i = Some true \/ (i < k /\ emitted !! i = Some false))).
  - split; [done|]. intros i. rewrite Hv. intuition lia.
  - intros i p Hi [Hp Hin]. apply wp_bind, wp_vget; [lia|]. intros [] He; simpl.
    + split; [done|]. intros j. rewrite Hin.
      assert (j < i + 1 <-> j < i \/ j = i) as -> by lia. intuition congruence.
    + split.
      * apply NoDup_app. split_and!; [done| |apply NoDup_singleton].
        intros x Hx ->%list_elem_of_singleton. apply Hin in Hx as [Hx|[Hx _]]; [congruence|lia].
      * intros j. rewrite elem_of_app, Hin, list_elem_of_singleton.
        assert (j < i + 1 <-> j < i \/ j = i) as -> by lia. intuition congruence.
  - rewrite Nat.add_0_l. intros p [Hp Hin]. apply is_perm_intro; [done|]. intros i. rewrite Hin. split.
    + intros [Hx|[Hx _]]; [apply lookup_lt_Some in Hx; lia|done].
    + intros Hi. destruct (lookup_lt_is_Some_2 emitted i) as [[] Hx]; [lia|auto..].
Qed.

Lemma rabbit_perm_spec h n : HNSW.wf h n -> wp (generateRabbitOrderPermutation h n) (is_perm n).
Proof.
  intros Hwf. unfold generateRabbitOrderPermutation. destruct (Nat.eqb_spec n 0) as [->|Hne].
  { simpl. by unfold is_perm. }
  apply wp_bind. eapply wp_mono; [by apply build_undirected_ok|]. intros g Hg.
  apply wp_bind. eapply wp_mono; [by apply init_communities_spec|]. intros [cs total] Hf.
  set (order := merge_sort (degree_le g) (seq 0 n)).
  assert (order ≡ₚ seq 0 n) as Horder by apply merge_sort_Permutation.
  apply wp_bind. eapply (wp_mono _ (fun '(cs', _, _) => exists rk', forest n n rk' cs')).
  { apply (wp_foldM _ (fun pre '(cs', ew, rp) =>
      (exists rk', forest n (length pre) rk' cs') /\ length ew = n /\ length rp = n)).
    - rewrite !length_replicate. split_and!; [|done|done]. eauto.
    - intros pre a post [[cs' ew] rp] Hpre ((rk' & Hf') & Hew & Hrp).
      pose proof (is_perm_length n order Horder) as Hlen.
      assert (length pre < n) as Hk by (rewrite Hpre, length_app in Hlen; simpl in Hlen; lia).
      rewrite length_app. simpl.
      apply (process_node_spec Hg (length pre) rk'); [done|done|done|lia|].
      apply (is_perm_elem n order); [done|]. rewrite Hpre, elem_of_app, elem_of_cons. auto.
    - intros [[cs' ew] rp] (Hf' & _). by rewrite (is_perm_length n order Horder) in Hf'. }
  intros [[cs' ew] rp] (rk' & Hf'). apply wp_bind.
  eapply wp_mono; [by apply collect_roots_spec|]. intros [cs'' roots] [Hf'' Hroots].
  apply wp_bind. eapply (wp_mono _ (fun '(e, p) => traversal n e p [])).
  - apply (wp_foldM_simple _ (fun '(e, p) => traversal n e p [])); [apply traversal_init| |done].
    intros r [e p] Hr Ht. rewrite merge_sort_Permutation in Hr.
    eapply emit_members_spec; [done| |done]. by apply (proj1 (Forall_forall _ _) Hroots).
  - intros [e p] Ht. by apply emit_rest_spec.
Qed.
