(* ===== verification/LayoutGorder.v ===== *)
(** * GOrder (IndexHNSW::generateGorderPermutation)

    The bucketed priority list [UnitHeap] (keys change by one, so the elements
    sit in one doubly linked list with a header per key) and the windowed
    greedy order computed with it.  ROrder uses the same permutation. *)

From S2P Require Import Prelude HnswGraph.

#[local] Open Scope Z_scope.

(** ** UnitHeap *)

Record RorderListElement := mkElem { key : Z; prev : Z; next : Z }.
Record RorderHeadEnd := mkHead { first : Z; second : Z }.

Record UnitHeap := mkHeap {
  update : list Z;
  LinkedList : list RorderListElement;
  Header : list RorderHeadEnd;
  top : Z;
  heapsize : nat
}.

#[export] Instance elem_inhabited : Inhabited RorderListElement := populate (mkElem 0 (-1) (-1)).

Definition no_head : RorderHeadEnd := mkHead (-1) (-1).

Definition set_update (h : UnitHeap) (u : list Z) : UnitHeap :=
  mkHeap u (LinkedList h) (Header h) (top h) (heapsize h).
Definition set_list (h : UnitHeap) (l : list RorderListElement) : UnitHeap :=
  mkHeap (update h) l (Header h) (top h) (heapsize h).
Definition set_headers (h : UnitHeap) (hd : list RorderHeadEnd) : UnitHeap :=
  mkHeap (update h) (LinkedList h) hd (top h) (heapsize h).
Definition set_top (h : UnitHeap) (t : Z) : UnitHeap :=
  mkHeap (update h) (LinkedList h) (Header h) t (heapsize h).

(** Assignments to one field of one element. *)
Definition put_key (h : UnitHeap) (i k : Z) : M UnitHeap :=
  let* e := vgetz (LinkedList h) i in
  let* l := vsetz (LinkedList h) i (mkElem k (prev e) (next e)) in Ret (set_list h l).
Definition put_prev (h : UnitHeap) (i p : Z) : M UnitHeap :=
  let* e := vgetz (LinkedList h) i in
  let* l := vsetz (LinkedList h) i (mkElem (key e) p (next e)) in Ret (set_list h l).
Definition put_next (h : UnitHeap) (i x : Z) : M UnitHeap :=
  let* e := vgetz (LinkedList h) i in
  let* l := vsetz (LinkedList h) i (mkElem (key e) (prev e) x) in Ret (set_list h l).
Definition put_head (h : UnitHeap) (k : Z) (x : RorderHeadEnd) : M UnitHeap :=
  let* hd := vsetz (Header h) k x in Ret (set_headers h hd).
Definition put_update (h : UnitHeap) (i u : Z) : M UnitHeap :=
  let* us := vsetz (update h) i u in Ret (set_update h us).

(** [UnitHeap(size)]. *)
Definition unit_heap (size : nat) : UnitHeap :=
  if (size =? 0)%nat then mkHeap [] [] [] 0 0
  else
    mkHeap (replicate size 0)
      ((fun i => mkElem 0 (Z.of_nat i - 1)
                   (if (i + 1 =? size)%nat then -1 else Z.of_nat i + 1)) <$> seq 0 size)
      (mkHead 0 (Z.of_nat size - 1) ::
       replicate (Z.to_nat (Z.max (Z.shiftr (Z.of_nat size) 4) 4) - 1) no_head)
      0 size.

Definition DeleteElement (h : UnitHeap) (index : Z) : M UnitHeap :=
  let* e := vgetz (LinkedList h) index in
  let '(p, x, k) := (prev e, next e, key e) in
  let* h := if 0 <=? p then put_next h p x else Ret h in
  let* h := if 0 <=? x then put_prev h x p else Ret h in
  let* hd := vgetz (Header h) k in
  let* h :=
    if first hd =? second hd then put_head h k no_head
    else if first hd =? index then put_head h k (mkHead x (second hd))
    else if second hd =? index then put_head h k (mkHead (first hd) p)
    else Ret h in
  let* h :=
    if top h =? index then
      let* e := vgetz (LinkedList h) (top h) in Ret (set_top h (next e))
    else Ret h in
  let* h := put_next h index (-1) in
  put_prev h index (-1).

(** The inner search of [DecreaseTop]: the last run whose key is at least [newkey]. *)
Fixpoint find_run (fuel : nat) (h : UnitHeap) (newkey p tmp : Z) : M Z :=
  if tmp <? 0 then Ret p
  else
    let* e := vgetz (LinkedList h) tmp in
    if key e <? newkey then Ret p
    else match fuel with
         | O => Undef
         | S fuel =>
             let p := key e in
             let* hd := vgetz (Header h) p in
             let* e := vgetz (LinkedList h) (second hd) in
             find_run fuel h newkey p (next e)
         end.

Definition DecreaseTop (h : UnitHeap) : M UnitHeap :=
  let tmptop := top h in
  let* et := vgetz (LinkedList h) tmptop in
  let '(k, x) := (key et, next et) in
  if x <? 0 then Ret h
  else
    let* u := vgetz (update h) tmptop in
    let newkey := k + u - Z.quot u 2 in
    let* ex := vgetz (LinkedList h) x in
    if key ex <=? newkey then Ret h
    else
      let* hd := vgetz (Header h) k in
      let* e2 := vgetz (LinkedList h) (second hd) in
      let* p := find_run (heapsize h) h newkey k (next e2) in
      let* h := put_prev h x (-1) in
      let* hp := vgetz (Header h) p in
      let psecond := second hp in
      let* ep := vgetz (LinkedList h) psecond in
      let tailnext := next ep in
      let* h := put_prev h (top h) psecond in
      let* h := put_next h (top h) tailnext in
      let* h := put_next h psecond tmptop in
      let* h := if 0 <=? tailnext then put_prev h tailnext tmptop else Ret h in
      let h := set_top h x in
      let* hd := vgetz (Header h) k in
      let* h := if first hd =? second hd then put_head h k no_head
                else put_head h k (mkHead x (second hd)) in
      let* h := put_key h tmptop newkey in
      let* h := put_update h tmptop (Z.quot u 2) in
      let* hn := vgetz (Header h) newkey in
      put_head h newkey (mkHead (if first hn <? 0 then tmptop else first hn) tmptop).

(** [do { tmptop = top; if (update[top] < 0) DecreaseTop(); } while (top != tmptop)]. *)
Fixpoint settle (fuel : nat) (h : UnitHeap) : M UnitHeap :=
  let tmptop := top h in
  let* u := vgetz (update h) (top h) in
  let* h := if u <? 0 then DecreaseTop h else Ret h in
  if top h =? tmptop then Ret h
  else match fuel with
       | O => Undef
       | S fuel => settle fuel h
       end.

Definition ExtractMax (fuel : nat) (h : UnitHeap) : M (UnitHeap * Z) :=
  let* h := settle fuel h in
  let tmptop := top h in
  let* h := DeleteElement h tmptop in
  Ret (h, tmptop).

Definition IncrementKey (h : UnitHeap) (index : Z) : M UnitHeap :=
  let* e := vgetz (LinkedList h) index in
  let k := key e in
  let* hk := vgetz (Header h) k in
  let '(head, p, x) := (first hk, prev e, next e) in
  let* h :=
    if head =? index then Ret h
    else
      let* h := put_next h p x in
      let* h := if 0 <=? x then put_prev h x p else Ret h in
      let* eh := vgetz (LinkedList h) head in
      let headprev := prev eh in
      let* h := put_prev h index headprev in
      let* h := put_next h index head in
      let* h := put_prev h head index in
      if 0 <=? headprev then put_next h headprev index else Ret h in
  let* h := put_key h index (k + 1) in
  let* hk := vgetz (Header h) k in
  let* h :=
    if first hk =? second hk then put_head h k no_head
    else if first hk =? index then put_head h k (mkHead x (second hk))
    else if second hk =? index then put_head h k (mkHead (first hk) p)
    else Ret h in
  let k := k + 1 in
  let h := if Z.of_nat (length (Header h)) <=? k
           then set_headers h (resize (Z.to_nat k + 5) no_head (Header h)) else h in
  let* hk := vgetz (Header h) k in
  let* h := put_head h k (mkHead (if first hk <? 0 then index else first hk) index) in
  let* et := vgetz (LinkedList h) (top h) in
  if key et <? k then Ret (set_top h index) else Ret h.

(** A bound on the rounds of [settle]: every round that moves the top halves a
    negative pending update. *)
Definition neg_mass (us : list Z) : nat := sum_list ((fun u => Z.to_nat (- u)) <$> us).

Section gorder.
Context `{!StdSort}.

Definition ReConstruct (h : UnitHeap) : M UnitHeap :=
  let size := heapsize h in
  let tmp := std_sort (fun a b =>
      key (LinkedList h !!! b) <? key (LinkedList h !!! a)) (seq 0 size) in
  let at_ (i : nat) : M Z := let* v := vget tmp i in Ret (Z.of_nat v) in
  let* t0 := at_ 0%nat in
  let* t1 := at_ 1%nat in
  let* back := at_ (size - 1)%nat in
  let* back1 := at_ (size - 2)%nat in
  let* e0 := vgetz (LinkedList h) t0 in
  let k := key e0 in
  let* h := put_next h t0 t1 in
  let* h := put_prev h t0 (-1) in
  let* h := put_next h back (-1) in
  let* h := put_prev h back back1 in
  let h := set_headers h
    (replicate (Z.to_nat (Z.max (k + 1) (Z.of_nat (length (Header h))))) no_head) in
  let* hd := vgetz (Header h) k in
  let* h := put_head h k (mkHead t0 (second hd)) in
  let* (h, k) := foldM (fun (st : UnitHeap * Z) i =>
      let '(h, k) := st in
      let* p := at_ (i - 1)%nat in
      let* v := at_ i in
      let* x := at_ (i + 1)%nat in
      let* h := put_prev h v p in
      let* h := put_next h v x in
      let* e := vgetz (LinkedList h) v in
      let tmpkey := key e in
      if tmpkey =? k then Ret (h, k)
      else
        let* hk := vgetz (Header h) k in
        let* h := put_head h k (mkHead (first hk) p) in
        let* ht := vgetz (Header h) tmpkey in
        let* h := put_head h tmpkey (mkHead v (second ht)) in
        Ret (h, tmpkey))
    (h, k) (seq 1 (size - 2)) in
  let* eb := vgetz (LinkedList h) back in
  let* hk := vgetz (Header h) k in
  let* h :=
    if k =? key eb then put_head h k (mkHead (first hk) back)
    else
      let* h := put_head h k (mkHead (first hk) back1) in
      put_head h (key eb) (mkHead back back) in
  Ret (set_top h t0).

(** ** generateGorderPermutation *)

Definition INT_MAX : Z := 2147483647.
Definition window : nat := 5.

(** [if (update[w] == 0) IncrementKey(w); else update[w]++;] *)
Definition bump (h : UnitHeap) (w : nat) : M UnitHeap :=
  let* u := vget (update h) w in
  if u =? 0 then IncrementKey h (Z.of_nat w) else put_update h (Z.of_nat w) (u + 1).

(** [update[w]--] *)
Definition drop_one (h : UnitHeap) (w : nat) : M UnitHeap :=
  let* u := vget (update h) w in put_update h (Z.of_nat w) (u - 1).

(** The directed level-0 graph, both ways; out-lists are sorted. *)
Definition build_directed (h : HNSW.t) (N : nat) : M (list (list nat) * list (list nat)) :=
  foldM (fun (st : list (list nat) * list (list nat)) i =>
      let* (out_graph, in_graph) :=
        HNSW.for_neighbors h i 0 (fun (st : list (list nat) * list (list nat)) v =>
            let '(out_graph, in_graph) := st in
            let* o := vget out_graph i in
            let* out_graph := vset out_graph i (o ++ [v]) in
            let* n := vget in_graph v in
            let* in_graph := vset in_graph v (n ++ [i]) in
            Ret (out_graph, in_graph)) st in
      let* o := vget out_graph i in
      let* out_graph := vset out_graph i (merge_sort le o) in
      Ret (out_graph, in_graph))
    (replicate N [], replicate N []) (seq 0 N).

Section walk.
Context (out_graph in_graph : list (list nat)) (hugevertex : nat).

Definition outdegree (v : nat) : nat := length (out_graph !!! v).
Definition small (v : nat) : bool := (outdegree v <=? hugevertex)%nat.

Definition bump_all (h : UnitHeap) (ws : list nat) : M UnitHeap := foldM bump h ws.
Definition drop_all (h : UnitHeap) (ws : list nat) : M UnitHeap := foldM drop_one h ws.

(** The updates made when the first vertex enters the window. *)
Definition enter_first (h : UnitHeap) (v : nat) : M UnitHeap :=
  let* ins := vget in_graph v in
  let* h := foldM (fun h u =>
      if small u then
        let* h := bump h u in
        if (1 <? outdegree u)%nat then bump_all h (out_graph !!! u) else Ret h
      else Ret h) h ins in
  if small v then bump_all h (out_graph !!! v) else Ret h.

(** The updates made when [popv] leaves the window while [v] enters it.
    [std::binary_search] on the sorted out-list is membership. *)
Definition leave (h : UnitHeap) (popvexist : list bool) (popv v : nat)
    : M (UnitHeap * list bool) :=
  let* h := if small popv then drop_all h (out_graph !!! popv) else Ret h in
  let* ins := vget in_graph popv in
  foldM (fun (st : UnitHeap * list bool) u =>
      let '(h, popvexist) := st in
      if small u then
        let* h := drop_one h u in
        if (1 <? outdegree u)%nat then
          if bool_decide (v ∈ out_graph !!! u) then
            let* popvexist := vset popvexist u true in Ret (h, popvexist)
          else
            let* h := drop_all h (out_graph !!! u) in Ret (h, popvexist)
        else Ret (h, popvexist)
      else Ret (h, popvexist)) (h, popvexist) ins.

(** The updates made when [v] enters the window. *)
Definition enter (h : UnitHeap) (popvexist : list bool) (v : nat)
    : M (UnitHeap * list bool) :=
  let* h := if small v then bump_all h (out_graph !!! v) else Ret h in
  let* ins := vget in_graph v in
  foldM (fun (st : UnitHeap * list bool) u =>
      let '(h, popvexist) := st in
      if small u then
        let* h := bump h u in
        let* pe := vget popvexist u in
        if negb pe then
          let* h := if (1 <? outdegree u)%nat then bump_all h (out_graph !!! u) else Ret h in
          Ret (h, popvexist)
        else
          let* popvexist := vset popvexist u false in Ret (h, popvexist)
      else Ret (h, popvexist)) (h, popvexist) ins.

(** Loop state: the heap, [popvexist], [order]; [count] is [length order - 1]. *)
Definition gorder_round (st : UnitHeap * list bool * list nat)
    : M (UnitHeap * list bool * list nat) :=
  let '(h, popvexist, order) := st in
  let* (h, vz) := ExtractMax (neg_mass (update h)) h in
  let v := Z.to_nat vz in
  let count := length order in
  let order := order ++ [v] in
  let* h := put_update h vz (INT_MAX / 2) in
  let* (h, popvexist) :=
    if (window <=? count)%nat then
      let* popv := vget order (count - window) in leave h popvexist popv v
    else Ret (h, popvexist) in
  let* (h, popvexist) := enter h popvexist v in
  Ret (h, popvexist, order).

End walk.

(** The scan for the start vertex: [(heap, tmpindex, tmpweight, zero)]. *)
Definition pick_start (out_graph : list (list nat)) (indegree : list nat) (N : nat) (h : UnitHeap)
    : M (UnitHeap * nat * Z * list nat) :=
  foldM (fun (st : UnitHeap * nat * Z * list nat) i =>
      let '(h, tmpindex, tmpweight, zero) := st in
      let* ind := vget indegree i in
      if tmpweight <? Z.of_nat ind then Ret (h, i, Z.of_nat ind, zero)
      else if (ind + outdegree out_graph i =? 0)%nat then
        let* h := put_update h (Z.of_nat i) (INT_MAX / 2) in
        let* h := DeleteElement h (Z.of_nat i) in
        Ret (h, tmpindex, tmpweight, zero ++ [i])
      else Ret st)
    (h, 0%nat, -1, []) (seq 0 N).

(** [order.insert(order.end() - 1, zero.begin(), zero.end())] *)
Definition insert_before_last (order zero : list nat) : list nat :=
  take (length order - 1) order ++ zero ++ drop (length order - 1) order.

Definition generateGorderPermutation (hn : HNSW.t) (N : nat) : M (list nat) :=
  if (N =? 0)%nat then Ret []
  else if (N =? 1)%nat then Ret [0%nat]
  else
    let* (out_graph, in_graph) := build_directed hn N in
    let* indegree := foldM (fun indegree i =>
        foldM (fun indegree v =>
            let* c := vget indegree v in vset indegree v (c + 1)%nat)
          indegree (out_graph !!! i)) (replicate N 0%nat) (seq 0 N) in
    let hugevertex := Nat.sqrt N in
    let* h := foldM (fun h i =>
        let* ind := vget indegree i in
        let* h := put_key h (Z.of_nat i) (Z.of_nat ind) in
        put_update h (Z.of_nat i) (- Z.of_nat ind)) (unit_heap N) (seq 0 N) in
    let* h := ReConstruct h in
    let* (h, tmpindex, _, zero) := pick_start out_graph indegree N h in
    let* h := put_update h (Z.of_nat tmpindex) (INT_MAX / 2) in
    let* h := DeleteElement h (Z.of_nat tmpindex) in
    let* h := enter_first out_graph in_graph hugevertex h tmpindex in
    let* (_, _, order) := foldM (fun st (_ : nat) => gorder_round out_graph in_graph hugevertex st)
        (h, replicate N false, [tmpindex]) (seq 0 (N - 1 - length zero)) in
    Ret (match zero with [] => order | _ => insert_before_last order zero end).

End gorder.
