(* ===== verification/UnitHeapSpec.v ===== *)
(** * Doubly linked lists of vertices

    The pointer reasoning behind [UnitHeap]: [dll P N p L q] says that following
    [N] (resp. [P]) visits the vertices of [L] in order (resp. backwards), with
    [p] before the first and [q] after the last.  [-1] is the null pointer. *)

From S2P Require Import Prelude LayoutGorder.

#[local] Open Scope Z_scope.

(** First and last vertex of a list, or a default pointer. *)
Definition hdz (L : list nat) (q : Z) : Z := match L with [] => q | x :: _ => Z.of_nat x end.
Definition lastz (p : Z) (L : list nat) : Z := match last L with None => p | Some x => Z.of_nat x end.

(** [if (i >= 0) f[i] = v;] *)
Definition upz (f : nat -> Z) (i v : Z) : nat -> Z :=
  if 0 <=? i then <[Z.to_nat i := v]> f else f.

Fixpoint dll (P N : nat -> Z) (p : Z) (L : list nat) (q : Z) : Prop :=
  match L with
  | [] => True
  | x :: L' => P x = p /\ N x = hdz L' q /\ dll P N (Z.of_nat x) L' q
  end.

Lemma upz_of_nat f i v : upz f (Z.of_nat i) v = <[i := v]> f.
Proof. unfold upz. rewrite (proj2 (Z.leb_le _ _)) by lia. by rewrite Nat2Z.id. Qed.

Lemma upz_neg f i v : i < 0 -> upz f i v = f.
Proof. intros H. unfold upz. by rewrite (proj2 (Z.leb_gt _ _)). Qed.

Lemma upz_ne f i v x : i <> Z.of_nat x -> upz f i v x = f x.
Proof.
  intros H. unfold upz. destruct (Z.leb_spec 0 i); [|done].
  rewrite fn_lookup_insert_ne; [done|]. lia.
Qed.

Lemma lastz_app_cons p A x B : lastz p (A ++ x :: B) = lastz (Z.of_nat x) B.
Proof.
  unfold lastz. rewrite last_app_cons, last_cons. by destruct (last B).
Qed.

Lemma lastz_cons p x B : lastz p (x :: B) = lastz (Z.of_nat x) B.
Proof. apply (lastz_app_cons p []). Qed.

Lemma lastz_snoc p A x : lastz p (A ++ [x]) = Z.of_nat x.
Proof. by rewrite lastz_app_cons. Qed.

Lemma hdz_app A B q : hdz (A ++ B) q = hdz A (hdz B q).
Proof. by destruct A. Qed.

Lemma lastz_app p A B : lastz p (A ++ B) = lastz (lastz p A) B.
Proof.
  destruct B as [|x B] using rev_ind; [by rewrite app_nil_r|].
  by rewrite app_assoc, !lastz_snoc.
Qed.

Lemma hdz_elem L q : hdz L q = q /\ L = [] \/ exists x, hdz L q = Z.of_nat x /\ x ∈ L.
Proof. destruct L as [|x L]; [by left|right]. exists x. split; [done|]. apply elem_of_cons. by left. Qed.

Lemma lastz_elem p L : lastz p L = p /\ L = [] \/ exists x, lastz p L = Z.of_nat x /\ x ∈ L.
Proof.
  destruct L as [|x L _] using rev_ind; [by left|right]. exists x.
  rewrite lastz_snoc. split; [done|]. apply elem_of_app. right. apply elem_of_cons. by left.
Qed.

Section dll.
Implicit Types (P N : nat -> Z) (L A B : list nat).

Lemma dll_app P N p A B q :
  dll P N p (A ++ B) q <-> dll P N p A (hdz B q) /\ dll P N (lastz p A) B q.
Proof.
  revert p. induction A as [|x A IH]; intros p; [by simpl; tauto|].
  cbn [app dll]. rewrite IH, hdz_app, lastz_cons. tauto.
Qed.

Lemma dll_ext P N P' N' p L q : (forall x, x ∈ L -> P x = P' x /\ N x = N' x) ->
  dll P N p L q -> dll P' N' p L q.
Proof.
  revert p. induction L as [|x L IH]; intros p H; [done|]. cbn [dll]. intros (H1 & H2 & H3).
  destruct (H x) as [HP HN]; [apply elem_of_cons; by left|]. rewrite <- HP, <- HN.
  split_and!; [done|done|]. apply IH; [|done]. intros y Hy. apply H, elem_of_cons. by right.
Qed.

(** Redirecting the pointer out of the last vertex. *)
Lemma dll_set_next P N p A q q' : NoDup A -> dll P N p A q ->
  dll P (upz N (lastz (-1) A) q') p A q'.
Proof.
  destruct A as [|x A _] using rev_ind; [done|]. intros Hnd. rewrite lastz_snoc, upz_of_nat, !dll_app.
  apply NoDup_app in Hnd as (_ & Hx & _). cbn. intros (HA & HP & _).
  rewrite fn_lookup_insert. split_and!; [|done|done|done].
  eapply dll_ext; [|exact HA]. intros y Hy. rewrite fn_lookup_insert_ne; [done|].
  intros <-. apply (Hx x Hy). apply elem_of_cons. by left.
Qed.

(** Redirecting the pointer back from the first vertex. *)
Lemma dll_set_prev P N p p' B q : NoDup B -> dll P N p B q ->
  dll (upz P (hdz B (-1)) p') N p' B q.
Proof.
  destruct B as [|x B]; [done|]. intros [Hx Hnd]%NoDup_cons. cbn [dll hdz]. intros (HP & HN & HB).
  rewrite upz_of_nat, fn_lookup_insert. split_and!; [done|done|].
  eapply dll_ext; [|exact HB]. intros y Hy. rewrite fn_lookup_insert_ne; [done|]. by intros <-.
Qed.

Lemma dll_at P N p A x B q : dll P N p (A ++ x :: B) q -> P x = lastz p A /\ N x = hdz B q.
Proof. rewrite dll_app. by intros (_ & ? & ? & _). Qed.

Lemma NoDup_middle A x B : NoDup (A ++ x :: B) ->
  NoDup A /\ NoDup B /\ (x ∉ A) /\ (x ∉ B) /\ (forall y, y ∈ A -> y ∈ B -> False).
Proof.
  rewrite NoDup_app, NoDup_cons. intros (HA & HAB & Hx & HB). split_and!; [done|done| |done|].
  - intros Hin. apply (HAB x Hin). apply elem_of_cons. by left.
  - intros y Hy Hy'. apply (HAB y Hy). apply elem_of_cons. by right.
Qed.

(** Unlinking [x]. *)
Lemma dll_remove P N A x B : NoDup (A ++ x :: B) -> dll P N (-1) (A ++ x :: B) (-1) ->
  dll (upz P (hdz B (-1)) (lastz (-1) A)) (upz N (lastz (-1) A) (hdz B (-1))) (-1) (A ++ B) (-1).
Proof.
  intros (HA & HB & HxA & HxB & HAB)%NoDup_middle. rewrite !dll_app. cbn [dll hdz].
  intros (HdA & _ & _ & HdB). split.
  - eapply dll_ext; [|exact (dll_set_next _ _ _ _ _ (hdz B (-1)) HA HdA)].
    intros y Hy. split; [|done]. symmetry. apply upz_ne.
    destruct (hdz_elem B (-1)) as [[-> _]|(z & -> & Hz)]; [lia|].
    intros Heq. apply (HAB y Hy). by replace y with z by lia.
  - eapply dll_ext; [|exact (dll_set_prev _ _ _ (lastz (-1) A) _ _ HB HdB)].
    intros y Hy. split; [done|]. symmetry. apply upz_ne.
    destruct (lastz_elem (-1) A) as [[-> _]|(z & -> & Hz)]; [lia|].
    intros Heq. apply (HAB z Hz). by replace z with y by lia.
Qed.

(** Linking [x] between [A] and [B]. *)
Lemma dll_insert P N A x B : NoDup (A ++ x :: B) -> dll P N (-1) (A ++ B) (-1) ->
  dll (upz (<[x := lastz (-1) A]> P) (hdz B (-1)) (Z.of_nat x))
      (upz (<[x := hdz B (-1)]> N) (lastz (-1) A) (Z.of_nat x)) (-1) (A ++ x :: B) (-1).
Proof.
  intros (HA & HB & HxA & HxB & HAB)%NoDup_middle. rewrite !dll_app. cbn [dll hdz].
  intros (HdA & HdB).
  assert (forall y, y ∈ A -> hdz B (-1) <> Z.of_nat y) as HhdA.
  { intros y Hy. destruct (hdz_elem B (-1)) as [[-> _]|(z & -> & Hz)]; [lia|].
    intros Heq. apply (HAB y Hy). by replace y with z by lia. }
  assert (forall y, y ∈ B -> lastz (-1) A <> Z.of_nat y) as HlaB.
  { intros y Hy. destruct (lastz_elem (-1) A) as [[-> _]|(z & -> & Hz)]; [lia|].
    intros Heq. apply (HAB z Hz). by replace z with y by lia. }
  assert (forall y, hdz B (-1) = Z.of_nat y -> y ∈ B) as HhdB.
  { intros y Hy. destruct (hdz_elem B (-1)) as [[H1 _]|(z & H1 & Hz)]; [lia|].
    by replace y with z by lia. }
  assert (forall y, lastz (-1) A = Z.of_nat y -> y ∈ A) as HlaA.
  { intros y Hy. destruct (lastz_elem (-1) A) as [[H1 _]|(z & H1 & Hz)]; [lia|].
    by replace y with z by lia. }
  split_and!.
  - eapply dll_ext; [|exact (dll_set_next _ _ _ _ _ (Z.of_nat x) HA HdA)].
    intros y Hy. assert (x <> y) by (by intros ->). split.
    + rewrite upz_ne by auto. by rewrite fn_lookup_insert_ne.
    + unfold upz. destruct (0 <=? lastz (-1) A); [|by rewrite fn_lookup_insert_ne].
      destruct (decide (Z.to_nat (lastz (-1) A) = y)) as [->|Hne];
        [by rewrite !fn_lookup_insert|by rewrite !fn_lookup_insert_ne].
  - rewrite upz_ne by (intros ?%HhdB; done). by rewrite fn_lookup_insert.
  - rewrite upz_ne by (intros ?%HlaA; done). by rewrite fn_lookup_insert.
  - eapply dll_ext; [|exact (dll_set_prev _ _ _ (Z.of_nat x) _ _ HB HdB)].
    intros y Hy. assert (x <> y) by (by intros ->). split.
    + unfold upz. destruct (0 <=? hdz B (-1)); [|by rewrite fn_lookup_insert_ne].
      destruct (decide (Z.to_nat (hdz B (-1)) = y)) as [->|Hne];
        [by rewrite !fn_lookup_insert|by rewrite !fn_lookup_insert_ne].
    + rewrite upz_ne by auto. by rewrite fn_lookup_insert_ne.
Qed.

End dll.

(** * UnitHeap refines a list of vertices sorted by decreasing key

    [vw n h v] reads the arrays of a heap as functions; [rep n v L] says that
    they represent the list [L]: linked in order, sorted by decreasing key,
    with a header per key delimiting the run of that key.  Each operation is
    specified by what it does to [L]. *)

(** ** The heap as functions *)

Record view := mkView {
  vK : nat -> Z; vP : nat -> Z; vN : nat -> Z; vU : nat -> Z;
  vF : nat -> Z; vS : nat -> Z; vhs : nat; vtop : Z
}.

Record vw (n : nat) (h : UnitHeap) (v : view) : Prop := {
  vw_size : heapsize h = n;
  vw_ulen : length (update h) = n;
  vw_llen : length (LinkedList h) = n;
  vw_hlen : length (Header h) = vhs v;
  vw_top : top h = vtop v;
  vw_list : forall x, (x < n)%nat -> LinkedList h !! x = Some (mkElem (vK v x) (vP v x) (vN v x));
  vw_update : forall x, (x < n)%nat -> update h !! x = Some (vU v x);
  vw_header : forall k, (k < vhs v)%nat -> Header h !! k = Some (mkHead (vF v k) (vS v k))
}.

Definition setK (v : view) i x := mkView (<[i := x]> (vK v)) (vP v) (vN v) (vU v) (vF v) (vS v) (vhs v) (vtop v).
Definition setP (v : view) i x := mkView (vK v) (upz (vP v) i x) (vN v) (vU v) (vF v) (vS v) (vhs v) (vtop v).
Definition setN (v : view) i x := mkView (vK v) (vP v) (upz (vN v) i x) (vU v) (vF v) (vS v) (vhs v) (vtop v).
Definition setU (v : view) i x := mkView (vK v) (vP v) (vN v) (<[i := x]> (vU v)) (vF v) (vS v) (vhs v) (vtop v).
Definition setH (v : view) k a b := mkView (vK v) (vP v) (vN v) (vU v) (<[k := a]> (vF v)) (<[k := b]> (vS v)) (vhs v) (vtop v).
Definition setT (v : view) t := mkView (vK v) (vP v) (vN v) (vU v) (vF v) (vS v) (vhs v) t.

Section access.
Context {n : nat} {h : UnitHeap} {v : view} (Hv : vw n h v).

Lemma vgetz_list i : (i < n)%nat ->
  vgetz (LinkedList h) (Z.of_nat i) = Ret (mkElem (vK v i) (vP v i) (vN v i)).
Proof. intros Hi. rewrite vgetz_of_nat. by apply vget_Ret, (vw_list _ _ _ Hv). Qed.

Lemma vgetz_update i : (i < n)%nat -> vgetz (update h) (Z.of_nat i) = Ret (vU v i).
Proof. intros Hi. rewrite vgetz_of_nat. by apply vget_Ret, (vw_update _ _ _ Hv). Qed.

Lemma vgetz_header k : (k < vhs v)%nat ->
  vgetz (Header h) (Z.of_nat k) = Ret (mkHead (vF v k) (vS v k)).
Proof. intros Hk. rewrite vgetz_of_nat. by apply vget_Ret, (vw_header _ _ _ Hv). Qed.

(** Writing element [i] of the list. *)
Lemma vw_set_list i e : (i < n)%nat ->
  vw n (set_list h (<[i := e]> (LinkedList h)))
    (mkView (<[i := key e]> (vK v)) (<[i := prev e]> (vP v)) (<[i := next e]> (vN v))
            (vU v) (vF v) (vS v) (vhs v) (vtop v)).
Proof.
  intros Hi. destruct Hv. split; simpl; try done; [by rewrite length_insert|].
  intros x Hx. destruct (decide (i = x)) as [<-|Hne].
  - rewrite list_lookup_insert_eq by lia. rewrite !fn_lookup_insert. by destruct e.
  - rewrite list_lookup_insert_ne by done. rewrite !fn_lookup_insert_ne by done. auto.
Qed.

(** Equal functions view the same heap. *)
Lemma vw_ext v' : (forall x, (x < n)%nat -> vK v' x = vK v x /\ vP v' x = vP v x /\ vN v' x = vN v x /\ vU v' x = vU v x) ->
  (forall k, (k < vhs v)%nat -> vF v' k = vF v k /\ vS v' k = vS v k) ->
  vhs v' = vhs v -> vtop v' = vtop v -> vw n h v'.
Proof.
  intros Hx Hk Hs Ht. destruct Hv. split; try done; [by rewrite Hs|by rewrite Ht| | |].
  - intros x Hxn. destruct (Hx x Hxn) as (-> & -> & -> & _). auto.
  - intros x Hxn. destruct (Hx x Hxn) as (_ & _ & _ & ->). auto.
  - intros k Hkn. rewrite Hs in Hkn. destruct (Hk k Hkn) as (-> & ->). auto.
Qed.

End access.

Lemma vw_refl_ext n h v v' : vw n h v ->
  (forall x, vK v' x = vK v x /\ vP v' x = vP v x /\ vN v' x = vN v x /\ vU v' x = vU v x) ->
  (forall k, vF v' k = vF v k /\ vS v' k = vS v k) ->
  vhs v' = vhs v -> vtop v' = vtop v -> vw n h v'.
Proof. intros Hv H1 H2 H3 H4. apply (vw_ext Hv); auto. Qed.

Ltac fn_case i x :=
  let H := fresh in
  destruct (decide (i = x)) as [<-|H];
  [rewrite ?fn_lookup_insert | rewrite ?fn_lookup_insert_ne by done].

Section puts.
Context {n : nat} {h : UnitHeap} {v : view} (Hv : vw n h v) (Q : UnitHeap -> Prop).

Lemma wp_put_key i x : (i < n)%nat -> (forall h', vw n h' (setK v i x) -> Q h') ->
  wp (put_key h (Z.of_nat i) x) Q.
Proof.
  intros Hi HQ. unfold put_key. rewrite (vgetz_list Hv) by done. simpl.
  rewrite vsetz_of_nat. apply wp_bind, wp_vset; [by rewrite (vw_llen _ _ _ Hv)|]. apply HQ.
  eapply (vw_refl_ext _ _ _ _ (vw_set_list Hv i _ Hi)); simpl; try done.
  intros y. fn_case i y; done.
Qed.

Lemma wp_put_prev i x : (i < n)%nat -> (forall h', vw n h' (setP v (Z.of_nat i) x) -> Q h') ->
  wp (put_prev h (Z.of_nat i) x) Q.
Proof.
  intros Hi HQ. unfold put_prev. rewrite (vgetz_list Hv) by done. simpl.
  rewrite vsetz_of_nat. apply wp_bind, wp_vset; [by rewrite (vw_llen _ _ _ Hv)|]. apply HQ.
  eapply (vw_refl_ext _ _ _ _ (vw_set_list Hv i _ Hi)); simpl; try done.
  intros y. rewrite upz_of_nat. fn_case i y; done.
Qed.

Lemma wp_put_next i x : (i < n)%nat -> (forall h', vw n h' (setN v (Z.of_nat i) x) -> Q h') ->
  wp (put_next h (Z.of_nat i) x) Q.
Proof.
  intros Hi HQ. unfold put_next. rewrite (vgetz_list Hv) by done. simpl.
  rewrite vsetz_of_nat. apply wp_bind, wp_vset; [by rewrite (vw_llen _ _ _ Hv)|]. apply HQ.
  eapply (vw_refl_ext _ _ _ _ (vw_set_list Hv i _ Hi)); simpl; try done.
  intros y. rewrite upz_of_nat. fn_case i y; done.
Qed.

Lemma wp_put_update i x : (i < n)%nat -> (forall h', vw n h' (setU v i x) -> Q h') ->
  wp (put_update h (Z.of_nat i) x) Q.
Proof.
  intros Hi HQ. unfold put_update. rewrite vsetz_of_nat.
  apply wp_bind, wp_vset; [by rewrite (vw_ulen _ _ _ Hv)|]. apply HQ.
  destruct Hv. split; simpl; try done; [by rewrite length_insert|].
  intros y Hy. fn_case i y.
  - by rewrite list_lookup_insert_eq by lia.
  - rewrite list_lookup_insert_ne by done. auto.
Qed.

Lemma wp_put_head k a b : (k < vhs v)%nat -> (forall h', vw n h' (setH v k a b) -> Q h') ->
  wp (put_head h (Z.of_nat k) (mkHead a b)) Q.
Proof.
  intros Hk HQ. unfold put_head. rewrite vsetz_of_nat.
  apply wp_bind, wp_vset; [by rewrite (vw_hlen _ _ _ Hv)|]. apply HQ.
  destruct Hv. split; simpl; try done; [by rewrite length_insert|].
  intros y Hy. fn_case k y.
  - by rewrite list_lookup_insert_eq by lia.
  - rewrite list_lookup_insert_ne by done. auto.
Qed.

Lemma vw_set_top t : vw n (set_top h t) (setT v t).
Proof. destruct Hv. by split. Qed.

(** The guarded writes [if (i >= 0) ...]. *)
Lemma wp_put_prev_opt i x : (i < Z.of_nat n) -> (forall h', vw n h' (setP v i x) -> Q h') ->
  wp (if 0 <=? i then put_prev h i x else Ret h) Q.
Proof.
  intros Hi HQ. destruct (Z.leb_spec 0 i).
  - rewrite <- (Z2Nat.id i) in HQ |- * by done. apply wp_put_prev; [lia|done].
  - apply HQ. eapply (vw_refl_ext _ _ _ _ Hv); simpl; try done. intros y. by rewrite upz_neg.
Qed.

Lemma wp_put_next_opt i x : (i < Z.of_nat n) -> (forall h', vw n h' (setN v i x) -> Q h') ->
  wp (if 0 <=? i then put_next h i x else Ret h) Q.
Proof.
  intros Hi HQ. destruct (Z.leb_spec 0 i).
  - rewrite <- (Z2Nat.id i) in HQ |- * by done. apply wp_put_next; [lia|done].
  - apply HQ. eapply (vw_refl_ext _ _ _ _ Hv); simpl; try done. intros y. by rewrite upz_neg.
Qed.

End puts.

(** ** Runs of equal keys *)

Definition run (K : nat -> Z) (k : nat) (L : list nat) : list nat :=
  filter (fun x => K x = Z.of_nat k) L.

Definition by_key (K : nat -> Z) : list nat -> Prop := StronglySorted (fun x y => K y <= K x).

Lemma elem_of_run K k L x : x ∈ run K k L <-> K x = Z.of_nat k /\ x ∈ L.
Proof. exact (list_elem_of_filter (fun x => K x = Z.of_nat k) L x). Qed.

Lemma run_app K k A B : run K k (A ++ B) = run K k A ++ run K k B.
Proof. apply filter_app. Qed.

Lemma run_cons_eq K k x L : K x = Z.of_nat k -> run K k (x :: L) = x :: run K k L.
Proof. intros H. unfold run. by rewrite filter_cons_True. Qed.

Lemma run_cons_ne K k x L : K x <> Z.of_nat k -> run K k (x :: L) = run K k L.
Proof. intros H. unfold run. by rewrite filter_cons_False. Qed.

Lemma run_none K j L : (forall y, y ∈ L -> K y <> Z.of_nat j) -> run K j L = [].
Proof.
  intros HL. destruct (run K j L) as [|y R] eqn:E; [done|]. exfalso.
  assert (y ∈ run K j L) as Hy by (rewrite E; set_solver). apply elem_of_run in Hy as [Hy HyL]. by apply (HL y).
Qed.

Lemma run_ext K K' k L : (forall x, x ∈ L -> K x = K' x) -> run K k L = run K' k L.
Proof.
  intros H. unfold run. induction L as [|y L IH]; [done|]. rewrite !filter_cons.
  rewrite IH by (intros x Hx; apply H; by right). rewrite (H y) by (by left). done.
Qed.

Lemma by_key_app K A B : by_key K (A ++ B) <->
  by_key K A /\ by_key K B /\ (forall x y, x ∈ A -> y ∈ B -> K y <= K x).
Proof.
  unfold by_key. rewrite StronglySorted_app. naive_solver.
Qed.

Lemma by_key_ext K K' L : (forall x, x ∈ L -> K x = K' x) -> by_key K L -> by_key K' L.
Proof.
  intros H Hs. unfold by_key in *. induction Hs as [|x L Hs IH Hx]; [constructor|].
  constructor.
  - apply IH. intros y Hy. apply H, elem_of_cons. by right.
  - rewrite Forall_forall in Hx |- *. intros y Hy.
    rewrite <- !H by (apply elem_of_cons; auto). auto.
Qed.

(** In a sorted list the run of a key is contiguous. *)
Lemma run_next K k x B q : by_key K (x :: B) -> K x = Z.of_nat k -> run K k B <> [] ->
  hdz B q = hdz (run K k B) (-1).
Proof.
  intros Hs Hx Hr. destruct B as [|z B]; [done|].
  destruct (decide (K z = Z.of_nat k)) as [Hz|Hz]; [by rewrite run_cons_eq|].
  exfalso. apply Hr. apply StronglySorted_inv in Hs as [Hs Hxz].
  apply Forall_cons in Hxz as [Hxz _]. rewrite run_cons_ne by done.
  destruct (run K k B) as [|y R] eqn:E; [done|].
  assert (y ∈ run K k B) as Hy by (rewrite E; apply elem_of_cons; by left).
  apply elem_of_run in Hy as [Hy HyB]. apply StronglySorted_inv in Hs as [_ Hz'].
  pose proof (proj1 (Forall_forall _ _) Hz' y HyB) as Hyz. simpl in Hyz. lia.
Qed.

Lemma run_prev K k A x p : by_key K (A ++ [x]) -> K x = Z.of_nat k -> run K k A <> [] ->
  lastz p A = lastz (-1) (run K k A).
Proof.
  intros Hs Hx Hr. destruct A as [|z A _] using rev_ind; [done|]. rewrite lastz_snoc.
  destruct (decide (K z = Z.of_nat k)) as [Hz|Hz].
  { by rewrite run_app, run_cons_eq, lastz_snoc. }
  exfalso. apply Hr. rewrite run_app, run_cons_ne, app_nil_r by done.
  apply by_key_app in Hs as (Hs & _ & Hxz).
  destruct (run K k A) as [|y R] eqn:E; [done|].
  assert (y ∈ run K k A) as Hy by (rewrite E; apply elem_of_cons; by left).
  apply elem_of_run in Hy as [Hy HyA]. apply by_key_app in Hs as (_ & _ & Hyz).
  specialize (Hyz y z HyA ltac:(apply elem_of_cons; by left)).
  specialize (Hxz z x ltac:(apply elem_of_app; right; apply elem_of_cons; by left)
                      ltac:(apply elem_of_cons; by left)). lia.
Qed.

(** ** The representation *)

Definition headers_ok (v : view) (L : list nat) : Prop :=
  forall k, (k < vhs v)%nat ->
    vF v k = hdz (run (vK v) k L) (-1) /\ vS v k = lastz (-1) (run (vK v) k L).

Record rep (n : nat) (v : view) (L : list nat) : Prop := {
  r_nodup : NoDup L;
  r_bound : forall x, x ∈ L -> (x < n)%nat;
  r_dll : dll (vP v) (vN v) (-1) L (-1);
  r_sorted : by_key (vK v) L;
  r_keys : forall x, x ∈ L -> 0 <= vK v x < Z.of_nat (vhs v);
  r_headers : headers_ok v L;
  r_top : vtop v = hdz L (-1)
}.

(** The header update of [DeleteElement] and [IncrementKey]: [x], with key [k],
    leaves the run of [k]. *)
Lemma leave_run_spec n h v K A x B k :
  vw n h v -> (k < vhs v)%nat -> NoDup (A ++ x :: B) -> by_key K (A ++ x :: B) ->
  K x = Z.of_nat k ->
  vF v k = hdz (run K k (A ++ x :: B)) (-1) -> vS v k = lastz (-1) (run K k (A ++ x :: B)) ->
  wp (let* hd := vgetz (Header h) (Z.of_nat k) in
      if first hd =? second hd then put_head h (Z.of_nat k) no_head
      else if first hd =? Z.of_nat x then put_head h (Z.of_nat k) (mkHead (hdz B (-1)) (second hd))
      else if second hd =? Z.of_nat x then put_head h (Z.of_nat k) (mkHead (first hd) (lastz (-1) A))
      else Ret h)
    (fun h' => vw n h' (setH v k (hdz (run K k (A ++ B)) (-1)) (lastz (-1) (run K k (A ++ B))))).
Proof.
  intros Hv Hk Hnd Hs Hx HF HS.
  assert (by_key K (x :: B)) as HsB by (by apply by_key_app in Hs as (_ & ? & _)).
  assert (by_key K (A ++ [x])) as HsA.
  { replace (A ++ x :: B) with ((A ++ [x]) ++ B) in Hs by (by rewrite <- app_assoc).
    by apply by_key_app in Hs as (? & _). }
  apply NoDup_middle in Hnd as (_ & _ & HxA & HxB & HAB).
  rewrite run_app, (run_cons_eq K k x) in HF, HS by done. rewrite run_app.
  pose proof (run_next K k x B (-1) HsB Hx) as Hnext.
  pose proof (run_prev K k A x (-1) HsA Hx) as Hprev.
  assert (forall y, y ∈ run K k A -> y ∈ A) as HR1 by (intros y; rewrite elem_of_run; tauto).
  assert (forall y, y ∈ run K k B -> y ∈ B) as HR2 by (intros y; rewrite elem_of_run; tauto).
  set (R1 := run K k A) in *. set (R2 := run K k B) in *.
  rewrite (vgetz_header Hv) by done. cbn [bind first second]. rewrite HF, HS, lastz_app_cons.
  destruct R1 as [|y1 R1]; cbn [app hdz].
  - destruct R2 as [|y2 R2'] eqn:E2; [|destruct (lastz_elem (Z.of_nat x) (y2 :: R2')) as [[_ ?]|(z & Hz & HzB)]; [done|]].
    + cbn. rewrite Z.eqb_refl. by apply (wp_put_head Hv).
    + rewrite Hz. assert (x <> z) by (intros <-; auto).
      rewrite (proj2 (Z.eqb_neq _ _)) by lia. rewrite Z.eqb_refl.
      apply (wp_put_head Hv); [done|]. intros h' Hh'. rewrite <- Hnext by done.
      by rewrite lastz_cons in Hz |- *; rewrite Hz.
  - assert (x <> y1) by (intros <-; apply HxA, HR1, elem_of_cons; by left).
    destruct R2 as [|y2 R2'] eqn:E2; [|destruct (lastz_elem (Z.of_nat x) (y2 :: R2')) as [[_ ?]|(z & Hz & HzB)]; [done|]].
    + cbn [lastz last]. rewrite (proj2 (Z.eqb_neq _ _)) by lia.
      rewrite Z.eqb_refl.
      apply (wp_put_head Hv); [done|]. intros h' Hh'. rewrite app_nil_r, <- Hprev by done. exact Hh'.
    + assert (x <> z) by (intros <-; auto).
      assert (y1 <> z).
      { intros <-. apply (HAB y1); [apply HR1, elem_of_cons; by left|auto]. }
      rewrite Hz. rewrite (proj2 (Z.eqb_neq _ _)) by lia. rewrite (proj2 (Z.eqb_neq _ _)) by lia.
      rewrite (proj2 (Z.eqb_neq _ _)) by lia.
      eapply (vw_refl_ext _ _ _ _ Hv); simpl; try done. intros j. fn_case k j; [|done].
      rewrite HF, HS. cbn [hdz app]. rewrite !app_comm_cons, !lastz_app, !lastz_cons.
      split; [done|]. by rewrite lastz_cons in Hz.
Qed.
