(* ===== verification/UnitHeapOps.v ===== *)
(** * The operations of UnitHeap on the list it represents

    Deleting, incrementing, lowering the top, extracting: each pointer routine
    does to the list [L] of [rep] what its name says, and never reads or writes
    out of range.  The loop of [ExtractMax] terminates. *)

From S2P Require Import Prelude LayoutGorder UnitHeapSpec.

#[local] Open Scope Z_scope.

Lemma hdz_bound n L : (forall x, x ∈ L -> (x < n)%nat) -> hdz L (-1) < Z.of_nat n.
Proof. intros H. destruct (hdz_elem L (-1)) as [[-> _]|(x & -> & Hx)]; [lia|]. specialize (H x Hx). lia. Qed.

Lemma lastz_bound n L : (forall x, x ∈ L -> (x < n)%nat) -> lastz (-1) L < Z.of_nat n.
Proof. intros H. destruct (lastz_elem (-1) L) as [[-> _]|(x & -> & Hx)]; [lia|]. specialize (H x Hx). lia. Qed.

Lemma NoDup_without (A B : list nat) x : NoDup (A ++ x :: B) -> NoDup (A ++ B).
Proof. rewrite !NoDup_app, NoDup_cons. set_solver. Qed.

Lemma NoDup_move (A H B : list nat) x : NoDup (A ++ H ++ x :: B) -> NoDup (A ++ x :: H ++ B).
Proof. by rewrite (Permutation_middle H B x). Qed.

(** Removing [x] leaves the runs of other keys alone. *)
Lemma run_remove K k A x B : K x <> Z.of_nat k -> run K k (A ++ x :: B) = run K k (A ++ B).
Proof. intros H. by rewrite !run_app, run_cons_ne. Qed.

Lemma by_key_remove K A x B : by_key K (A ++ x :: B) -> by_key K (A ++ B).
Proof.
  rewrite !by_key_app. intros (HA & HB & HAB). apply StronglySorted_inv in HB as [HB _].
  split_and!; [done|done|]. intros y z Hy Hz. apply HAB; [done|by right].
Qed.

(** The header update, in front of what follows it. *)
Lemma leave_run_then {X} n h v K A x B k (rest : UnitHeap -> M X) (Q : X -> Prop) :
  vw n h v -> (k < vhs v)%nat -> NoDup (A ++ x :: B) -> by_key K (A ++ x :: B) ->
  K x = Z.of_nat k ->
  vF v k = hdz (run K k (A ++ x :: B)) (-1) -> vS v k = lastz (-1) (run K k (A ++ x :: B)) ->
  (forall h', vw n h' (setH v k (hdz (run K k (A ++ B)) (-1)) (lastz (-1) (run K k (A ++ B)))) -> wp (rest h') Q) ->
  wp (let* hd := vgetz (Header h) (Z.of_nat k) in
      let* h :=
        if first hd =? second hd then put_head h (Z.of_nat k) no_head
        else if first hd =? Z.of_nat x then put_head h (Z.of_nat k) (mkHead (hdz B (-1)) (second hd))
        else if second hd =? Z.of_nat x then put_head h (Z.of_nat k) (mkHead (first hd) (lastz (-1) A))
        else Ret h in
      rest h) Q.
Proof.
  intros Hv Hk Hnd Hs HK HF HS HQ. pose proof (leave_run_spec _ _ _ _ _ _ _ _ Hv Hk Hnd Hs HK HF HS) as Hw.
  rewrite (vgetz_header Hv) in Hw |- * by done. cbn [bind] in *. apply wp_bind. eapply wp_mono; [exact Hw|exact HQ].
Qed.

Section delete.
Context {n : nat} {h : UnitHeap} {v : view} {A B : list nat} {x : nat}.
Context (Hv : vw n h v) (Hr : rep n v (A ++ x :: B)).

Lemma rep_bound_parts : (forall y, y ∈ A -> (y < n)%nat) /\ (x < n)%nat /\ (forall y, y ∈ B -> (y < n)%nat).
Proof. pose proof (r_bound _ _ _ Hr) as H. split_and!; [intros y Hy|..|intros y Hy]; apply H; set_solver. Qed.

Lemma rep_links : vP v x = lastz (-1) A /\ vN v x = hdz B (-1).
Proof. eapply dll_at, (r_dll _ _ _ Hr). Qed.

Lemma rep_key : exists k, vK v x = Z.of_nat k /\ (k < vhs v)%nat.
Proof.
  pose proof (r_keys _ _ _ Hr x ltac:(set_solver)). exists (Z.to_nat (vK v x)). lia.
Qed.

Lemma wp_DeleteElement (Q : UnitHeap -> Prop) :
  (forall h' v', vw n h' v' -> rep n v' (A ++ B) -> vK v' = vK v -> vU v' = vU v -> Q h') ->
  wp (DeleteElement h (Z.of_nat x)) Q.
Proof.
  intros HQ. destruct rep_bound_parts as (HbA & Hbx & HbB). destruct rep_links as [HP HN].
  destruct rep_key as (k & HK & Hk). pose proof (r_nodup _ _ _ Hr) as Hnd.
  pose proof (NoDup_middle _ _ _ Hnd) as (_ & _ & HxA & HxB & _).
  unfold DeleteElement. rewrite (vgetz_list Hv) by done. cbn [bind prev next key]. rewrite HP, HN, HK.
  apply wp_bind, (wp_put_next_opt Hv); [by apply lastz_bound|]. intros h1 Hv1.
  apply wp_bind, (wp_put_prev_opt Hv1); [by apply hdz_bound|]. intros h2 Hv2.
  destruct (r_headers _ _ _ Hr k Hk) as [HF HS].
  apply (leave_run_then _ _ _ (vK v) A x B k _ _ Hv2 Hk Hnd (r_sorted _ _ _ Hr) HK HF HS). intros h3 Hv3.
  set (v3 := setH _ _ _ _) in Hv3.
  assert (vN v3 x = hdz B (-1)) as HN3.
  { simpl. rewrite upz_ne; [done|]. destruct (lastz_elem (-1) A) as [[-> _]|(z & -> & Hz)]; [lia|].
    intros Heq. apply HxA. by replace x with z by lia. }
  assert (wp (if top h3 =? Z.of_nat x then let* e := vgetz (LinkedList h3) (top h3) in Ret (set_top h3 (next e)) else Ret h3)
    (fun h4 => vw n h4 (setT v3 (hdz (A ++ B) (-1))))) as Htop.
  { rewrite (vw_top _ _ _ Hv3). change (vtop v3) with (vtop v). rewrite (r_top _ _ _ Hr).
    destruct A as [|a A']; cbn [app hdz].
    - rewrite Z.eqb_refl, (vgetz_list Hv3) by done. cbn [bind next wp]. rewrite HN3. apply (vw_set_top Hv3).
    - rewrite (proj2 (Z.eqb_neq _ _)) by (intros Heq; apply HxA, elem_of_cons; left; lia). cbn [wp].
      eapply (vw_refl_ext _ _ _ _ Hv3); try done. simpl. by rewrite (r_top _ _ _ Hr). }
  apply wp_bind. eapply wp_mono; [exact Htop|]. intros h4 Hv4. clear Htop.
  apply wp_bind, (wp_put_next Hv4); [done|]. intros h5 Hv5.
  apply (wp_put_prev Hv5); [done|]. intros h6 Hv6. eapply HQ; [exact Hv6| |done|done].
  split; simpl.
  - by eapply NoDup_without.
  - intros y Hy. apply (r_bound _ _ _ Hr). set_solver.
  - eapply dll_ext; [|exact (dll_remove _ _ _ _ _ Hnd (r_dll _ _ _ Hr))].
    intros y Hy. assert (x <> y) by (intros ->; set_solver). by rewrite !(upz_ne _ (Z.of_nat x)) by lia.
  - by eapply by_key_remove, (r_sorted _ _ _ Hr).
  - intros y Hy. apply (r_keys _ _ _ Hr). set_solver.
  - intros j Hj. simpl in *. fn_case k j; [done|]. rewrite <- (run_remove _ _ _ x) by lia. by apply (r_headers _ _ _ Hr).
  - done.
Qed.

End delete.

(** ** IncrementKey *)

Definition setLinks (v : view) (P N : nat -> Z) : view :=
  mkView (vK v) P N (vU v) (vF v) (vS v) (vhs v) (vtop v).

(** Headers of a longer table; new keys have no run. *)
Definition growH (v : view) (m : nat) : view :=
  mkView (vK v) (vP v) (vN v) (vU v)
    (fun k => if decide (k < vhs v)%nat then vF v k else -1)
    (fun k => if decide (k < vhs v)%nat then vS v k else -1) m (vtop v).

Lemma vw_grow n h v m : vw n h v -> (vhs v <= m)%nat ->
  vw n (set_headers h (resize m no_head (Header h))) (growH v m).
Proof.
  intros Hv Hm. destruct Hv. split; simpl; try done.
  - by rewrite length_resize.
  - intros k Hk. destruct (decide (k < vhs v)%nat) as [Hlt|Hge].
    + rewrite lookup_resize by lia. auto.
    + by rewrite lookup_resize_new by lia.
Qed.

Section increment.
Context {n : nat} {h : UnitHeap} {v : view} {A H B : list nat} {x k : nat}.
Context (Hv : vw n h v) (Hr : rep n v (A ++ H ++ x :: B)).
Context (HK : vK v x = Z.of_nat k).
Context (HA : forall y, y ∈ A -> Z.of_nat k < vK v y) (HH : forall y, y ∈ H -> vK v y = Z.of_nat k).

(** [x] is linked in front of the run of its key. *)
Lemma move_front : let head := hdz (H ++ [x]) (-1) in let p := lastz (-1) (A ++ H) in let nx := hdz B (-1) in
  wp (if head =? Z.of_nat x then Ret h
      else
        let* h := put_next h p nx in
        let* h := if 0 <=? nx then put_prev h nx p else Ret h in
        let* eh := vgetz (LinkedList h) head in
        let headprev := prev eh in
        let* h := put_prev h (Z.of_nat x) headprev in
        let* h := put_next h (Z.of_nat x) head in
        let* h := put_prev h head (Z.of_nat x) in
        if 0 <=? headprev then put_next h headprev (Z.of_nat x) else Ret h)
    (fun h' => exists P' N', vw n h' (setLinks v P' N') /\ dll P' N' (-1) (A ++ x :: H ++ B) (-1)).
Proof.
  cbv zeta. pose proof (r_nodup _ _ _ Hr) as Hnd. pose proof (r_bound _ _ _ Hr) as Hb.
  pose proof (r_dll _ _ _ Hr) as Hd. rewrite app_assoc in Hnd, Hd.
  pose proof (dll_remove _ _ _ _ _ Hnd Hd) as Hrem.
  destruct H as [|y H']; cbn [app hdz].
  - rewrite Z.eqb_refl. cbn [wp]. exists (vP v), (vN v). split; [|by rewrite app_nil_r in Hd].
    eapply (vw_refl_ext _ _ _ _ Hv); done.
  - assert (x <> y) by (intros ->; apply NoDup_middle in Hnd as (_ & _ & Hn & _); set_solver).
    rewrite (proj2 (Z.eqb_neq _ _)) by lia.
    pose proof (NoDup_middle _ _ _ Hnd) as (_ & _ & HxA & HxB & HAB).
    assert (y < n)%nat as Hy by (apply Hb; set_solver). assert (x < n)%nat as Hx by (apply Hb; set_solver).
    destruct (lastz_elem (-1) (A ++ y :: H')) as [[_ Hc]|(z & Hp & Hz)]; [by destruct A|]. rewrite Hp in *.
    apply wp_bind, (wp_put_next Hv); [apply Hb; set_solver|]. intros h1 Hv1.
    apply wp_bind, (wp_put_prev_opt Hv1); [apply hdz_bound; intros w Hw; apply Hb; set_solver|]. intros h2 Hv2.
    rewrite (vgetz_list Hv2) by done. cbn [bind prev].
    assert (vP (setP (setN v (Z.of_nat z) (hdz B (-1))) (hdz B (-1)) (Z.of_nat z)) y = lastz (-1) A) as ->.
    { simpl. rewrite upz_ne.
      - rewrite <- app_assoc in Hd. by apply dll_at in Hd as [-> _].
      - destruct (hdz_elem B (-1)) as [[-> _]|(w & -> & Hw)]; [lia|]. intros ?. apply (HAB w); [|done].
        replace w with y by lia. set_solver. }
    apply wp_bind, (wp_put_prev Hv2); [done|]. intros h3 Hv3.
    apply wp_bind, (wp_put_next Hv3); [done|]. intros h4 Hv4.
    apply wp_bind, (wp_put_prev Hv4); [done|]. intros h5 Hv5.
    apply (wp_put_next_opt Hv5); [apply lastz_bound; intros w Hw; apply Hb; set_solver|]. intros h6 Hv6.
    eexists _, _. split; [exact Hv6|]. simpl. rewrite <- app_assoc in Hrem.
    pose proof (dll_insert _ _ A x ((y :: H') ++ B) ltac:(apply NoDup_move; by rewrite <- app_assoc in Hnd) Hrem) as Hins.
    cbn [app hdz] in Hins. rewrite !upz_of_nat in Hins. cbv beta. repeat rewrite upz_of_nat. exact Hins.
Qed.

Lemma keys_after y : y ∈ B -> vK v y <= Z.of_nat k.
Proof.
  intros Hy. pose proof (r_sorted _ _ _ Hr) as Hs. rewrite app_assoc in Hs. apply by_key_app in Hs as (_ & Hs & _).
  apply StronglySorted_inv in Hs as [_ Hs]. rewrite Forall_forall in Hs. specialize (Hs y Hy). simpl in Hs. lia.
Qed.

Lemma run_before j : Z.of_nat j <= Z.of_nat k -> run (vK v) j A = [].
Proof.
  intros Hj. apply run_none. intros y Hy. specialize (HA y Hy). lia.
Qed.

Lemma run_own : run (vK v) k (A ++ H ++ x :: B) = H ++ x :: run (vK v) k B.
Proof.
  rewrite !run_app, run_before, run_cons_eq by (done || lia). cbn [app]. f_equal.
  clear Hr. induction H as [|y H' IH]; [done|]. rewrite run_cons_eq by (apply HH; set_solver).
  f_equal. apply IH. intros z Hz. apply HH. set_solver.
Qed.

(** The list after the increment, with the new key of [x]. *)
Let K' := <[x := Z.of_nat k + 1]> (vK v).

Lemma K'_x : K' x = Z.of_nat k + 1.
Proof. apply fn_lookup_insert. Qed.

Lemma K'_ne y : y <> x -> K' y = vK v y.
Proof. intros Hy. apply fn_lookup_insert_ne. done. Qed.

Lemma incr_parts : (x ∉ A) /\ (x ∉ H) /\ (x ∉ B) /\ NoDup (A ++ x :: H ++ B).
Proof.
  pose proof (NoDup_move _ _ _ _ (r_nodup _ _ _ Hr)) as Hnd. pose proof (NoDup_middle _ _ _ Hnd) as (_ & _ & HxA & HxB & _).
  split_and!; [done|set_solver|set_solver|done].
Qed.

Lemma incr_sorted : by_key K' (A ++ x :: H ++ B).
Proof.
  destruct incr_parts as (HxA & HxH & HxB & _). pose proof (r_sorted _ _ _ Hr) as Hs.
  assert (by_key (vK v) (A ++ H ++ B)) as Hs'.
  { rewrite app_assoc in Hs |- *. by eapply by_key_remove. }
  apply (by_key_ext _ K') in Hs'; [|intros y Hy; symmetry; apply K'_ne; intros ->; set_solver].
  apply by_key_app in Hs' as (HsA & HsB & HAB). apply by_key_app. split_and!; [done| |].
  - constructor; [done|]. apply Forall_forall. intros y Hy. rewrite K'_x, K'_ne by (intros ->; set_solver).
    apply elem_of_app in Hy as [Hy|Hy]; [rewrite HH by done; lia|]. pose proof (keys_after y Hy). lia.
  - intros y z Hy [->|Hz]%elem_of_cons; [|by apply HAB].
    rewrite K'_x, K'_ne by (intros ->; set_solver). specialize (HA y Hy). lia.
Qed.

Lemma incr_runs j : run K' j (A ++ x :: H ++ B) =
  if decide (j = k) then run (vK v) k ((A ++ H) ++ B)
  else if decide (j = k + 1)%nat then run (vK v) j (A ++ H ++ x :: B) ++ [x]
  else run (vK v) j (A ++ H ++ x :: B).
Proof.
  destruct incr_parts as (HxA & HxH & HxB & _).
  assert (forall L, x ∉ L -> run K' j L = run (vK v) j L) as Hext.
  { intros L Hx. apply run_ext. intros y Hy. apply K'_ne. by intros ->. }
  destruct (decide (j = k)) as [->|Hjk].
  - rewrite run_remove by (rewrite K'_x; lia). rewrite app_assoc. apply Hext. set_solver.
  - rewrite !run_app, (run_cons_ne (vK v) j x) by (rewrite HK; lia). rewrite (Hext A HxA).
    destruct (decide (j = k + 1)%nat) as [->|Hj1].
    + rewrite run_cons_eq by (rewrite K'_x; lia). rewrite run_app, !Hext by done.
      rewrite (run_none _ _ H), (run_none _ _ B), !app_nil_r; [done| |].
      * intros y Hy. pose proof (keys_after y Hy). lia.
      * intros y Hy. rewrite HH by done. lia.
    + rewrite run_cons_ne by (rewrite K'_x; lia). rewrite run_app. by rewrite !Hext by done.
Qed.

(** Opening the run of the new key, growing the table of headers if needed. *)
Lemma enter_run_spec h3 v3 (rest : UnitHeap -> M UnitHeap) Q :
  vw n h3 v3 -> (k < vhs v3)%nat ->
  (forall h4 v4 m, vw n h4 v4 -> (k + 1 < m)%nat -> (vhs v3 <= m)%nat ->
     v4 = setH (growH v3 m) (k + 1)
            (let f := vF (growH v3 m) (k + 1) in if f <? 0 then Z.of_nat x else f) (Z.of_nat x) ->
     wp (rest h4) Q) ->
  wp (let h := if Z.of_nat (length (Header h3)) <=? Z.of_nat k + 1
               then set_headers h3 (resize (Z.to_nat (Z.of_nat k + 1) + 5) no_head (Header h3)) else h3 in
      let* hk := vgetz (Header h) (Z.of_nat k + 1) in
      let* h := put_head h (Z.of_nat k + 1) (mkHead (if first hk <? 0 then Z.of_nat x else first hk) (Z.of_nat x)) in
      rest h) Q.
Proof.
  intros Hv3 Hk HQ. rewrite (vw_hlen _ _ _ Hv3).
  replace (Z.of_nat k + 1) with (Z.of_nat (k + 1)) by lia. rewrite Nat2Z.id.
  assert (exists m, (k + 1 < m)%nat /\ (vhs v3 <= m)%nat /\
    vw n (if Z.of_nat (vhs v3) <=? Z.of_nat (k + 1)
          then set_headers h3 (resize (k + 1 + 5) no_head (Header h3)) else h3) (growH v3 m)) as (m & Hm & Hle & Hg).
  { destruct (Z.leb_spec (Z.of_nat (vhs v3)) (Z.of_nat (k + 1))).
    - exists (k + 1 + 5)%nat. split_and!; [lia|lia|]. apply vw_grow; [done|lia].
    - exists (vhs v3). split_and!; [lia|lia|]. apply (vw_ext Hv3); try done. intros j Hj. simpl.
      rewrite !decide_True by done. done. }
  cbv zeta. rewrite (vgetz_header Hg) by done. cbn [bind first].
  apply wp_bind, (wp_put_head Hg); [done|]. intros h4 Hv4. by eapply HQ.
Qed.

Lemma wp_IncrementKey (Q : UnitHeap -> Prop) :
  (forall h' v', vw n h' v' -> rep n v' (A ++ x :: H ++ B) -> vK v' = K' -> vU v' = vU v -> Q h') ->
  wp (IncrementKey h (Z.of_nat x)) Q.
Proof.
  intros HQ. destruct incr_parts as (HxA & HxH & HxB & Hnd). pose proof (r_bound _ _ _ Hr) as Hb.
  pose proof (r_keys _ _ _ Hr) as Hkeys. assert (x < n)%nat as Hx by (apply Hb; set_solver).
  assert (k < vhs v)%nat as Hk by (specialize (Hkeys x ltac:(set_solver)); lia).
  destruct (r_headers _ _ _ Hr k Hk) as [HF HS].
  pose proof Hr as Hr'. rewrite app_assoc in Hr'. destruct (rep_links Hr') as [HP HN].
  unfold IncrementKey. rewrite (vgetz_list Hv) by done. cbn [bind key prev next]. rewrite HK.
  rewrite (vgetz_header Hv) by done. cbn [bind first]. rewrite HP, HN, HF, run_own.
  assert (hdz (H ++ x :: run (vK v) k B) (-1) = hdz (H ++ [x]) (-1)) as -> by (by destruct H).
  apply wp_bind. eapply wp_mono; [exact move_front|]. intros h1 (P' & N' & Hv1 & Hd).
  apply wp_bind, (wp_put_key Hv1); [done|]. intros h2 Hv2.
  refine (leave_run_then _ _ _ (vK v) (A ++ H) x B k _ _ Hv2 Hk (r_nodup _ _ _ Hr') (r_sorted _ _ _ Hr') HK _ _ _);
    [by rewrite <- app_assoc|by rewrite <- app_assoc|]. intros h3 Hv3.
  apply (enter_run_spec _ _ _ _ Hv3 Hk). intros h4 v4 m Hv4 Hm Hle Ev4.
  assert (vtop v4 = hdz (A ++ H ++ x :: B) (-1)) as Htop by (subst v4; apply (r_top _ _ _ Hr)).
  assert (vK v4 = K') as HK4 by (by subst v4).
  assert (exists t, vtop v4 = Z.of_nat t /\ (t < n)%nat /\
    (if K' t <? Z.of_nat k + 1 then Z.of_nat x else Z.of_nat t) = hdz (A ++ x :: H ++ B) (-1)) as (t & Ht & Htn & Htop').
  { rewrite Htop. destruct A as [|a A']; [destruct H as [|y H']|]; cbn [app hdz].
    - exists x. split_and!; [done|done|]. rewrite K'_x. by destruct (_ <? _).
    - exists y. split_and!; [done|apply Hb; set_solver|]. rewrite K'_ne, HH by set_solver.
      by rewrite (proj2 (Z.ltb_lt _ _)) by lia.
    - exists a. split_and!; [done|apply Hb; set_solver|]. rewrite K'_ne by set_solver.
      specialize (HA a ltac:(set_solver)). by rewrite (proj2 (Z.ltb_ge _ _)) by lia. }
  rewrite (vw_top _ _ _ Hv4), Ht, (vgetz_list Hv4) by done. cbn [bind key]. rewrite HK4.
  assert (rep n (setT v4 (hdz (A ++ x :: H ++ B) (-1))) (A ++ x :: H ++ B)) as Hrep.
  { subst v4. split; simpl; try done.
    - intros y Hy. apply Hb. set_solver.
    - apply incr_sorted.
    - intros y Hy. change (0 <= K' y < Z.of_nat m). destruct (decide (y = x)) as [->|Hne].
      + rewrite K'_x. lia.
      + rewrite K'_ne by done. specialize (Hkeys y ltac:(set_solver)). simpl in Hle. lia.
    - intros j Hj. simpl in *. rewrite incr_runs. destruct (decide (j = k)) as [->|Hjk].
      + rewrite !(fn_lookup_insert_ne _ (k + 1)%nat) by lia. rewrite !decide_True by lia. by rewrite !fn_lookup_insert.
      + rewrite !(fn_lookup_insert_ne _ k) by lia.
        assert ((if decide (j < vhs v)%nat then vF v j else -1) = hdz (run (vK v) j (A ++ H ++ x :: B)) (-1) /\
                (if decide (j < vhs v)%nat then vS v j else -1) = lastz (-1) (run (vK v) j (A ++ H ++ x :: B))) as [Ef Es].
        { destruct (decide (j < vhs v)%nat) as [Hlt|Hge]; [by apply (r_headers _ _ _ Hr)|].
          rewrite run_none; [done|]. intros y Hy. specialize (Hkeys y Hy). lia. }
        destruct (decide (j = k + 1)%nat) as [->|Hj1].
        * rewrite !fn_lookup_insert, Ef, lastz_snoc. split; [|done].
          destruct (run (vK v) (k + 1) (A ++ H ++ x :: B)); cbn [app hdz]; [done|].
          by rewrite (proj2 (Z.ltb_ge _ _)) by lia.
        * rewrite !fn_lookup_insert_ne by done. done. }
  rewrite <- Htop' in Hrep. destruct (K' t <? Z.of_nat k + 1); cbn [wp].
  - eapply HQ; [exact (vw_set_top Hv4 _)|done|done|]. by subst v4.
  - eapply HQ; [|exact Hrep|done|by subst v4]. eapply (vw_refl_ext _ _ _ _ Hv4); done.
Qed.

End increment.

(** ** DecreaseTop *)

Lemma split_key K p L : by_key K L ->
  exists D E, L = D ++ E /\ (forall y, y ∈ D -> p <= K y) /\ (forall y, y ∈ E -> K y < p).
Proof.
  induction L as [|x L IH]; intros Hs; [exists [], []; split_and!; set_solver|].
  apply StronglySorted_inv in Hs as [Hs Hx]. destruct (decide (p <= K x)) as [Hp|Hp].
  - destruct (IH Hs) as (D & E & -> & HD & HE). exists (x :: D), E. split_and!; [done| |done].
    intros y [->|Hy]%elem_of_cons; auto.
  - exists [], (x :: L). split_and!; [done|set_solver|]. rewrite Forall_forall in Hx.
    intros y [->|Hy]%elem_of_cons; [lia|]. specialize (Hx y Hy). simpl in Hx. lia.
Qed.

(** The position of a vertex in the sorted list: after larger keys, among equal ones. *)
Lemma split_at_key n v L w : rep n v L -> w ∈ L ->
  exists A H B' k, L = A ++ H ++ w :: B' /\ vK v w = Z.of_nat k /\
    (forall y, y ∈ A -> Z.of_nat k < vK v y) /\ (forall y, y ∈ H -> vK v y = Z.of_nat k).
Proof.
  intros Hr Hw. pose proof (r_sorted _ _ _ Hr) as Hs. pose proof (r_keys _ _ _ Hr w Hw) as Hkw.
  destruct (Z_of_nat_complete (vK v w)) as [k Hk]; [lia|].
  destruct (list_elem_of_split _ _ Hw) as (P & B' & ->).
  apply by_key_app in Hs as (HsP & _ & HPw).
  destruct (split_key (vK v) (Z.of_nat k + 1) P HsP) as (A & H & -> & HA & HH).
  exists A, H, B', k. split_and!; [by rewrite <- app_assoc|done| |].
  - intros y Hy. specialize (HA y Hy). lia.
  - intros y Hy. specialize (HH y Hy). specialize (HPw y w ltac:(set_solver) ltac:(set_solver)). lia.
Qed.

Section decrease.
Context {n : nat} {h : UnitHeap} {v : view} {L : list nat} (Hv : vw n h v) (Hr : rep n v L).

(** The end of the run of [p]: the last vertex whose key is at least [p]. *)
Lemma run_end p D E : L = D ++ E -> (forall y, y ∈ D -> Z.of_nat p <= vK v y) -> (forall y, y ∈ E -> vK v y < Z.of_nat p) ->
  (exists y, y ∈ L /\ vK v y = Z.of_nat p) ->
  exists D0 g, D = D0 ++ [g] /\ (g < n)%nat /\ vK v g = Z.of_nat p /\ vN v g = hdz E (-1) /\
    (p < vhs v)%nat /\ vS v p = Z.of_nat g.
Proof.
  intros HL HD HE (y & Hy & Hyp). pose proof (r_keys _ _ _ Hr y Hy) as Hky.
  assert (y ∈ D) as HyD. { rewrite HL in Hy. apply elem_of_app in Hy as [|Hy]; [done|]. specialize (HE y Hy). lia. }
  destruct D as [|g D0 _] using rev_ind; [set_solver|]. exists D0, g.
  assert (vK v g = Z.of_nat p) as Hg.
  { pose proof (HD g ltac:(set_solver)). apply elem_of_app in HyD as [HyD|HyD]; [|set_solver].
    pose proof (r_sorted _ _ _ Hr) as Hs. rewrite HL, <- app_assoc in Hs. apply by_key_app in Hs as (_ & _ & Hs).
    specialize (Hs y g HyD ltac:(set_solver)). lia. }
  split_and!; [done|apply (r_bound _ _ _ Hr); set_solver|done| | |].
  - pose proof (r_dll _ _ _ Hr) as Hd. rewrite HL, <- app_assoc in Hd. by apply dll_at in Hd as [_ ->].
  - lia.
  - destruct (r_headers _ _ _ Hr p ltac:(lia)) as [_ HS]. rewrite HS.
    rewrite HL, !run_app, (run_none _ _ E), app_nil_r by (intros z Hz; specialize (HE z Hz); lia).
    by rewrite run_cons_eq, lastz_snoc.
Qed.

Lemma find_run_spec nk fuel p D E : L = D ++ E -> (forall y, y ∈ D -> Z.of_nat p <= vK v y) ->
  (forall y, y ∈ E -> vK v y < Z.of_nat p) -> nk <= Z.of_nat p -> (exists y, y ∈ L /\ vK v y = Z.of_nat p) ->
  (length E <= fuel)%nat ->
  wp (find_run fuel h nk (Z.of_nat p) (hdz E (-1))) (fun r => exists p' D' E', r = Z.of_nat p' /\ L = D' ++ E' /\
    (forall y, y ∈ D' -> Z.of_nat p' <= vK v y) /\ (forall y, y ∈ E' -> vK v y < nk) /\ nk <= Z.of_nat p' /\
    (exists y, y ∈ L /\ vK v y = Z.of_nat p')).
Proof.
  revert p D E. induction fuel as [|fuel IH]; intros p D E HL HD HE Hnk Hp Hf; destruct E as [|z E]; cbn [find_run hdz].
  1, 3: exists p, D, []; split_and!; auto; set_solver.
  - simpl in Hf. lia.
  - rewrite (proj2 (Z.ltb_ge _ _)) by lia.
    assert (z ∈ L) as Hz by set_solver. rewrite (vgetz_list Hv) by (by apply (r_bound _ _ _ Hr)). cbn [bind key].
    destruct (Z.ltb_spec (vK v z) nk) as [Hlt|Hge]; cbn [wp].
    + exists p, D, (z :: E). split_and!; auto. intros y [->|Hy]%elem_of_cons; [done|].
      pose proof (r_sorted _ _ _ Hr) as Hs. rewrite HL in Hs. apply by_key_app in Hs as (_ & Hs & _).
      apply StronglySorted_inv in Hs as [_ Hs]. rewrite Forall_forall in Hs. specialize (Hs y Hy). simpl in Hs. lia.
    + pose proof (r_keys _ _ _ Hr z Hz) as Hkz. destruct (Z_of_nat_complete (vK v z)) as [pz Hpz]; [lia|].
      destruct (split_key (vK v) (Z.of_nat pz) L (r_sorted _ _ _ Hr)) as (D' & E' & HL' & HD' & HE').
      destruct (run_end pz D' E') as (D0 & g & -> & Hg & Hgk & Hgn & Hhs & Hh); [done..|by exists z|].
      rewrite Hpz, (vgetz_header Hv) by done. cbn [bind second]. rewrite Hh. rewrite (vgetz_list Hv) by done. cbn [bind next]. rewrite Hgn.
      apply IH with (D := D0 ++ [g]); [done..|lia|by exists z|].
      assert (length E' < length (z :: E))%nat; [|simpl in *; lia].
      assert (z ∉ E') as Hn by (intros Hz'; specialize (HE' z Hz'); lia).
      assert (length D + length (z :: E) = length (D0 ++ [g]) + length E')%nat as Hlen
        by (rewrite <- !length_app; congruence).
      assert (length D < length (D0 ++ [g]))%nat; [|lia]. apply Nat.nle_gt. intros Hle. apply Hn.
      assert (L !! length D = Some z) as Hl by (by rewrite HL, list_lookup_middle).
      rewrite HL', lookup_app_r in Hl by done. by eapply list_elem_of_lookup_2.
Qed.

End decrease.

(** The top [t] is moved behind the vertices [G] whose keys are at least its
    new key [nk]. *)
Section lower.
Context {n : nat} {h : UnitHeap} {v : view} {t x g : nat} {G0 G R : list nat} {k nk : nat} {u' : Z}.
Context (Hv : vw n h v) (Hr : rep n v (t :: G ++ R)) (HG : G = x :: G0) (Hg : last G = Some g).
Context (HK : vK v t = Z.of_nat k) (Hnk : Z.of_nat nk < vK v x).
Context (HkG : forall y, y ∈ G -> Z.of_nat nk <= vK v y) (HkR : forall y, y ∈ R -> vK v y < Z.of_nat nk).

Lemma lower_parts : (t ∉ G) /\ (t ∉ R) /\ NoDup (G ++ t :: R).
Proof.
  pose proof (r_nodup _ _ _ Hr) as Hn. split_and!; [apply NoDup_cons in Hn; set_solver..|].
  by rewrite Permutation_middle in Hn.
Qed.

Lemma lower_keys y : y ∈ G ++ R -> vK v y <= Z.of_nat k.
Proof.
  intros Hy. pose proof (r_sorted _ _ _ Hr) as Hs. apply StronglySorted_inv in Hs as [_ Hs].
  rewrite Forall_forall in Hs. specialize (Hs y Hy). simpl in Hs. lia.
Qed.

Let K' := <[t := Z.of_nat nk]> (vK v).

Lemma L'_t : K' t = Z.of_nat nk.
Proof. apply fn_lookup_insert. Qed.

Lemma L'_ne y : y <> t -> K' y = vK v y.
Proof. intros Hy. by apply fn_lookup_insert_ne. Qed.

Lemma lower_sorted : by_key K' (G ++ t :: R).
Proof.
  destruct lower_parts as (HtG & HtR & _). pose proof (r_sorted _ _ _ Hr) as Hs.
  apply StronglySorted_inv in Hs as [Hs _].
  apply (by_key_ext _ K') in Hs; [|intros y Hy; symmetry; apply L'_ne; intros ->; set_solver].
  apply by_key_app in Hs as (HsG & HsR & HGR). apply by_key_app. split_and!; [done| |].
  - constructor; [done|]. apply Forall_forall. intros y Hy. rewrite L'_t, L'_ne by (intros ->; done).
    specialize (HkR y Hy). lia.
  - intros y z Hy [->|Hz]%elem_of_cons; [|by apply HGR].
    rewrite L'_t, L'_ne by (intros ->; done). by apply HkG.
Qed.

Lemma lower_runs j : run K' j (G ++ t :: R) =
  if decide (j = nk) then run (vK v) j (t :: G ++ R) ++ [t]
  else if decide (j = k) then run (vK v) j (G ++ R) else run (vK v) j (t :: G ++ R).
Proof.
  destruct lower_parts as (HtG & HtR & _). assert (x ∈ G) as Hx by set_solver.
  pose proof (lower_keys x ltac:(set_solver)) as Hkx.
  assert (forall L, t ∉ L -> run K' j L = run (vK v) j L) as Hext.
  { intros L Ht. apply run_ext. intros y Hy. apply L'_ne. by intros ->. }
  destruct (decide (j = nk)) as [->|Hjn].
  - rewrite (run_cons_ne (vK v)) by (rewrite HK; lia). rewrite !run_app, run_cons_eq, !Hext by (done || apply L'_t).
    rewrite (run_none _ _ R), app_nil_r; [done|]. intros y Hy. specialize (HkR y Hy). lia.
  - rewrite run_remove by (rewrite L'_t; lia). rewrite Hext by set_solver.
    destruct (decide (j = k)) as [->|Hjk]; [done|]. by rewrite run_cons_ne by (rewrite HK; lia).
Qed.

Lemma lower_header_k (rest : UnitHeap -> M UnitHeap) h1 v1 (Q : UnitHeap -> Prop) : vw n h1 v1 -> (k < vhs v1)%nat ->
  vF v1 k = vF v k -> vS v1 k = vS v k ->
  (forall h2, vw n h2 (setH v1 k (hdz (run (vK v) k (G ++ R)) (-1)) (lastz (-1) (run (vK v) k (G ++ R)))) ->
     wp (rest h2) Q) ->
  wp (let* hd := vgetz (Header h1) (Z.of_nat k) in
      let* h := if first hd =? second hd then put_head h1 (Z.of_nat k) no_head
                else put_head h1 (Z.of_nat k) (mkHead (Z.of_nat x) (second hd)) in
      rest h) Q.
Proof.
  intros Hv1 Hk HF HS HQ. destruct lower_parts as (HtG & HtR & _).
  pose proof (r_keys _ _ _ Hr t ltac:(set_solver)) as Hkt.
  destruct (r_headers _ _ _ Hr k ltac:(lia)) as [HF0 HS0].
  rewrite (vgetz_header Hv1) by done. cbn [bind first second]. rewrite HF, HS, HF0, HS0.
  pose proof (run_next (vK v) k t (G ++ R) (-1) (r_sorted _ _ _ Hr) HK) as Hnext. rewrite run_cons_eq by done.
  cbn [hdz]. rewrite lastz_cons. apply wp_bind.
  destruct (run (vK v) k (G ++ R)) as [|y1 R1] eqn:E.
  - cbn [lastz last hdz] in *. rewrite Z.eqb_refl. by apply (wp_put_head Hv1).
  - destruct (lastz_elem (Z.of_nat t) (y1 :: R1)) as [[_ ?]|(z & Hz & HzR)]; [done|]. rewrite <- E in HzR.
    apply elem_of_run in HzR as [_ HzR]. assert (t <> z) by (intros ->; set_solver). rewrite Hz.
    rewrite (proj2 (Z.eqb_neq _ _)) by lia. apply (wp_put_head Hv1); [done|]. intros h2 Hv2. apply HQ.
    rewrite <- Hnext by done. rewrite lastz_cons in Hz |- *. rewrite Hz. by rewrite HG.
Qed.

(** The pointer writes. *)
Lemma wp_lower p (Q : UnitHeap -> Prop) : (p < vhs v)%nat -> vS v p = Z.of_nat g -> vN v g = hdz R (-1) ->
  (forall h' v', vw n h' v' -> rep n v' (G ++ t :: R) -> vK v' = K' -> vU v' = <[t := u']> (vU v) -> Q h') ->
  wp (let* h := put_prev h (Z.of_nat x) (-1) in
      let* hp := vgetz (Header h) (Z.of_nat p) in
      let psecond := second hp in
      let* ep := vgetz (LinkedList h) psecond in
      let tailnext := next ep in
      let* h := put_prev h (top h) psecond in
      let* h := put_next h (top h) tailnext in
      let* h := put_next h psecond (Z.of_nat t) in
      let* h := if 0 <=? tailnext then put_prev h tailnext (Z.of_nat t) else Ret h in
      let h := set_top h (Z.of_nat x) in
      let* hd := vgetz (Header h) (Z.of_nat k) in
      let* h := if first hd =? second hd then put_head h (Z.of_nat k) no_head
                else put_head h (Z.of_nat k) (mkHead (Z.of_nat x) (second hd)) in
      let* h := put_key h (Z.of_nat t) (Z.of_nat nk) in
      let* h := put_update h (Z.of_nat t) u' in
      let* hn := vgetz (Header h) (Z.of_nat nk) in
      put_head h (Z.of_nat nk) (mkHead (if first hn <? 0 then Z.of_nat t else first hn) (Z.of_nat t))) Q.
Proof.
  intros Hp HS HN HQ. destruct lower_parts as (HtG & HtR & Hnd). pose proof (r_bound _ _ _ Hr) as Hb.
  pose proof (r_keys _ _ _ Hr) as Hkeys. pose proof (r_dll _ _ _ Hr) as Hd. pose proof (r_nodup _ _ _ Hr) as Hnd0.
  assert (x ∈ G) as Hx by set_solver. assert (g ∈ G) as HgG by (by apply last_Some_elem_of).
  assert (t < n)%nat as Htn by (apply Hb; set_solver). assert (x < n)%nat as Hxn by (apply Hb; set_solver).
  assert (g < n)%nat as Hgn by (apply Hb; set_solver). pose proof (lower_keys x ltac:(set_solver)) as Hkx.
  assert (k < vhs v)%nat as Hk by (specialize (Hkeys t ltac:(set_solver)); lia).
  pose proof (dll_remove _ _ [] t (G ++ R) Hnd0 Hd) as Hrem. cbn [app lastz last] in Hrem.
  rewrite (upz_neg (vN v)) in Hrem by lia. rewrite hdz_app in Hrem.
  pose proof (dll_insert _ _ G t R Hnd Hrem) as Hins.
  replace (lastz (-1) G) with (Z.of_nat g) in Hins by (unfold lastz; by rewrite Hg).
  replace (hdz G (hdz R (-1))) with (Z.of_nat x) in Hins by (by rewrite HG).
  apply wp_bind, (wp_put_prev Hv); [done|]. intros h1 Hv1.
  rewrite (vgetz_header Hv1) by done. cbn [bind second]. change (vS (setP v _ _) p) with (vS v p). rewrite HS.
  rewrite (vgetz_list Hv1) by done. cbn [bind next]. change (vN (setP v _ _) g) with (vN v g). rewrite HN.
  rewrite (vw_top _ _ _ Hv1). change (vtop (setP v _ _)) with (vtop v). rewrite (r_top _ _ _ Hr). cbn [hdz].
  apply wp_bind, (wp_put_prev Hv1); [done|]. intros h2 Hv2.
  rewrite (vw_top _ _ _ Hv2). change (vtop (setP _ _ _)) with (vtop v). rewrite (r_top _ _ _ Hr). cbn [hdz].
  apply wp_bind, (wp_put_next Hv2); [done|]. intros h3 Hv3.
  apply wp_bind, (wp_put_next Hv3); [done|]. intros h4 Hv4.
  apply wp_bind, (wp_put_prev_opt Hv4); [apply hdz_bound; intros y Hy; apply Hb; set_solver|]. intros h5 Hv5.
  cbv zeta. apply (lower_header_k _ _ _ _ (vw_set_top Hv5 (Z.of_nat x))); [done..|]. intros h6 Hv6.
  apply wp_bind, (wp_put_key Hv6); [done|]. intros h7 Hv7.
  apply wp_bind, (wp_put_update Hv7); [done|]. intros h8 Hv8.
  rewrite (vgetz_header Hv8) by (simpl; lia). cbn [bind first].
  apply (wp_put_head Hv8); [simpl; lia|]. intros h9 Hv9. eapply HQ; [exact Hv9| |done|done].
  split; simpl.
  - done.
  - intros y Hy. apply Hb. set_solver.
  - rewrite !upz_of_nat in Hins. repeat rewrite upz_of_nat. exact Hins.
  - apply lower_sorted.
  - intros y Hy. change (0 <= K' y < Z.of_nat (vhs v)). destruct (decide (y = t)) as [->|Hne].
    + rewrite L'_t. lia.
    + rewrite L'_ne by done. apply Hkeys. set_solver.
  - intros j Hj. simpl in *. rewrite lower_runs. destruct (decide (j = nk)) as [->|Hjn].
    + rewrite !fn_lookup_insert, lastz_snoc, !fn_lookup_insert_ne by lia. split; [|done].
      destruct (r_headers _ _ _ Hr nk Hj) as [-> _].
      destruct (run (vK v) nk (t :: G ++ R)); cbn [app hdz]; [done|]. by rewrite (proj2 (Z.ltb_ge _ _)) by lia.
    + rewrite !(fn_lookup_insert_ne _ nk) by done. destruct (decide (j = k)) as [->|Hjk].
      * by rewrite !fn_lookup_insert.
      * rewrite !fn_lookup_insert_ne by done. by apply (r_headers _ _ _ Hr).
  - by rewrite HG.
Qed.

End lower.

Lemma length_rep n v L : rep n v L -> (length L <= n)%nat.
Proof.
  intros Hr. rewrite <- (length_seq n 0). apply submseteq_length, NoDup_submseteq; [apply (r_nodup _ _ _ Hr)|].
  intros x Hx%(r_bound _ _ _ Hr). apply elem_of_seq. lia.
Qed.

(** The key that [DecreaseTop] gives to a top with key [k] and pending update [u]. *)
Definition lowered (k u : Z) : Z := k + u - Z.quot u 2.

Lemma quot2_neg u : u < 0 -> u < Z.quot u 2 <= 0.
Proof. intros H. pose proof (Z.quot_rem' u 2). pose proof (Z.rem_bound_pos_neg u 2 ltac:(lia) ltac:(lia)). lia. Qed.

Section decrease_top.
Context {n : nat} {h : UnitHeap} {v : view} {t : nat} {L : list nat} (Hv : vw n h v) (Hr : rep n v (t :: L)).
Context (Hu : vU v t < 0) (Hpos : 0 <= vK v t + vU v t).

(** The top stays when the next vertex has no larger key than the lowered one. *)
Definition top_stays : Prop := match L with [] => True | x :: _ => vK v x <= lowered (vK v t) (vU v t) end.

Lemma wp_DecreaseTop (Q : UnitHeap -> Prop) :
  (top_stays -> Q h) ->
  (forall G R h' v', ~ top_stays -> L = G ++ R -> G <> [] ->
     (forall y, y ∈ G -> lowered (vK v t) (vU v t) <= vK v y) ->
     (forall y, y ∈ R -> vK v y < lowered (vK v t) (vU v t)) ->
     vw n h' v' -> rep n v' (G ++ t :: R) ->
     vK v' = <[t := lowered (vK v t) (vU v t)]> (vK v) -> vU v' = <[t := Z.quot (vU v t) 2]> (vU v) -> Q h') ->
  wp (DecreaseTop h) Q.
Proof.
  intros HQ0 HQ. pose proof (r_bound _ _ _ Hr) as Hb. pose proof (r_keys _ _ _ Hr) as Hkeys.
  pose proof (quot2_neg _ Hu) as Hq. fold (lowered (vK v t) (vU v t)) in *.
  assert (t < n)%nat as Htn by (apply Hb; set_solver). pose proof (r_dll _ _ _ Hr) as (_ & HN & _).
  destruct (Z_of_nat_complete (vK v t)) as [k Hk]; [specialize (Hkeys t ltac:(set_solver)); lia|].
  unfold DecreaseTop. rewrite (vw_top _ _ _ Hv), (r_top _ _ _ Hr). cbn [hdz]. rewrite (vgetz_list Hv) by done.
  cbn [bind key next]. rewrite HN. unfold top_stays in *. destruct L as [|x L']; cbn [hdz]; [by apply HQ0|].
  rewrite (proj2 (Z.ltb_ge _ _)) by lia. rewrite (vgetz_update Hv) by done. cbn [bind].
  assert (x < n)%nat as Hxn by (apply Hb; set_solver). rewrite (vgetz_list Hv) by done. cbn [bind key].
  fold (lowered (vK v t) (vU v t)). destruct (Z.leb_spec (vK v x) (lowered (vK v t) (vU v t))) as [|Hlt]; [by apply HQ0|].
  destruct (Z_of_nat_complete (lowered (vK v t) (vU v t))) as [nk Hnk]; [unfold lowered; lia|].
  destruct (split_key (vK v) (Z.of_nat k) (t :: x :: L') (r_sorted _ _ _ Hr)) as (D & E & HL & HD & HE).
  assert (exists y, y ∈ t :: x :: L' /\ vK v y = Z.of_nat k) as Hex by (exists t; set_solver).
  destruct (run_end Hv Hr k D E HL HD HE Hex) as (D0 & g0 & -> & Hg0 & _ & Hg0N & Hk0 & Hg0S).
  rewrite Hnk, Hk, (vgetz_header Hv) by done. cbn [bind second]. rewrite Hg0S, (vgetz_list Hv) by done. cbn [bind next].
  rewrite Hg0N. apply wp_bind. eapply wp_mono; [eapply (find_run_spec Hv Hr _ _ k _ _ HL HD HE)|].
  - rewrite <- Hnk. unfold lowered. lia.
  - done.
  - pose proof (length_rep _ _ _ Hr) as Hl. rewrite HL, length_app in Hl. rewrite (vw_size _ _ _ Hv). lia.
  - cbv beta. intros r (p & D' & R & -> & HL' & HD' & HR & Hnp & Hp).
    assert (forall y, y ∈ R -> vK v y < Z.of_nat p) as HR' by (intros y Hy; specialize (HR y Hy); lia).
    destruct (run_end Hv Hr p D' R HL' HD' HR' Hp) as (D1 & g & -> & Hg & Hgk & HgN & Hps & HgS).
    assert (x ∉ R) as HxR by (intros Hx; specialize (HR x Hx); lia).
    assert (exists G0, D1 ++ [g] = t :: x :: G0 /\ last (x :: G0) = Some g) as (G0 & HG & Hlast).
    { destruct D1 as [|d1 [|d2 D1]]; cbn [app] in HL' |- *.
      - injection HL' as _ HL''. exfalso. apply HxR. rewrite <- HL''. set_solver.
      - injection HL' as -> -> _. by exists [].
      - injection HL' as -> -> _. exists (D1 ++ [g]). split; [done|]. by rewrite app_comm_cons, last_snoc. }
    rewrite HG in HL', HD'. injection HL' as ->. rewrite app_comm_cons in Hr.
    eapply (wp_lower Hv Hr eq_refl Hlast Hk); [lia| |exact HR|exact Hps|exact HgS|exact HgN|].
    + intros y Hy. specialize (HD' y ltac:(set_solver)). lia.
    + intros h' v' Hv' Hr' HK' HU'. eapply (HQ (x :: G0) R); [lia|done|done| |by rewrite Hnk|done|done|by rewrite Hnk|done].
      intros y Hy. specialize (HD' y ltac:(set_solver)). lia.
Qed.

End decrease_top.

(** ** ExtractMax *)

Lemma update_view n h v : vw n h v -> update h = vU v <$> seq 0 n.
Proof.
  intros Hv. apply list_eq. intros x. destruct (decide (x < n)%nat) as [Hx|Hx].
  - rewrite (vw_update _ _ _ Hv) by done. by rewrite list_lookup_fmap, lookup_seq_lt.
  - rewrite !lookup_ge_None_2; [done| |]; [rewrite length_fmap, length_seq|rewrite (vw_ulen _ _ _ Hv)]; lia.
Qed.

Lemma neg_mass_insert us t u u' : us !! t = Some u -> u < u' <= 0 -> (neg_mass (<[t := u']> us) < neg_mass us)%nat.
Proof.
  unfold neg_mass. revert t. induction us as [|w us IH]; intros [|t] Ht Hu; simpl in *; try done.
  - injection Ht as ->. lia.
  - specialize (IH t Ht Hu). unfold fmap in IH. lia.
Qed.

Lemma neg_mass_lower n h v h' v' t u' : vw n h v -> vw n h' v' -> (t < n)%nat -> vU v' = <[t := u']> (vU v) ->
  vU v t < u' <= 0 -> (neg_mass (update h') < neg_mass (update h))%nat.
Proof.
  intros Hv Hv' Ht HU Hu. pose proof (vw_update _ _ _ Hv t Ht) as Hlook.
  assert (update h' = <[t := u']> (update h)) as ->; [|by eapply neg_mass_insert].
  apply list_eq. intros x. destruct (decide (x < n)%nat) as [Hx|Hx].
  - rewrite (vw_update _ _ _ Hv') by done. rewrite HU. fn_case t x.
    + rewrite list_lookup_insert_eq; [done|]. by rewrite (vw_ulen _ _ _ Hv).
    + rewrite list_lookup_insert_ne by done. by rewrite (vw_update _ _ _ Hv).
  - rewrite !lookup_ge_None_2; [done|rewrite length_insert, (vw_ulen _ _ _ Hv); lia|rewrite (vw_ulen _ _ _ Hv'); lia].
Qed.

(** [v'] has the vertices of [L] with the same total of key and pending update. *)
Definition settled (v v' : view) (L : list nat) : Prop :=
  (forall x, x ∈ L -> vU v' x <= 0 /\ vK v' x + vU v' x = vK v x + vU v x) /\
  (forall x, x ∉ L -> vU v' x = vU v x).

Definition pending_ok (v : view) (L : list nat) : Prop := forall x, x ∈ L -> vU v x <= 0 /\ 0 <= vK v x + vU v x.

Lemma settled_pending v v' L L' : settled v v' L -> L' ≡ₚ L -> pending_ok v L -> pending_ok v' L'.
Proof. intros [H1 _] HP H x Hx. rewrite HP in Hx. destruct (H1 x Hx) as [? ->]. split; [done|]. by apply H. Qed.

Lemma wp_settle n fuel h v L : vw n h v -> rep n v L -> L <> [] -> pending_ok v L ->
  (neg_mass (update h) <= fuel)%nat ->
  wp (settle fuel h) (fun h' => exists v' L', vw n h' v' /\ rep n v' L' /\ L' ≡ₚ L /\ settled v v' L).
Proof.
  revert h v L. induction fuel as [|fuel IH]; intros h v L Hv Hr HL Hp Hf; destruct L as [|t L]; try done.
  all: assert (t < n)%nat as Htn by (apply (r_bound _ _ _ Hr); set_solver).
  all: cbn [settle]; rewrite (vw_top _ _ _ Hv), (r_top _ _ _ Hr); cbn [hdz]; rewrite (vgetz_update Hv) by done; cbn [bind].
  all: assert (exists v' L', vw n h v' /\ rep n v' L' /\ L' ≡ₚ t :: L /\ settled v v' (t :: L)) as Hstay
    by (exists v, (t :: L); refine (conj Hv (conj Hr (conj (Permutation_refl _) (conj _ _))));
        [intros x Hx; by destruct (Hp x Hx)|done]).
  all: destruct (Z.ltb_spec (vU v t) 0) as [Hu|Hu];
    [|cbn [bind]; rewrite (vw_top _ _ _ Hv), (r_top _ _ _ Hr); cbn [hdz]; by rewrite Z.eqb_refl].
  all: destruct (Hp t ltac:(set_solver)) as [_ Hpos]; apply wp_bind, (wp_DecreaseTop Hv Hr Hu Hpos);
    [intros _; rewrite (vw_top _ _ _ Hv), (r_top _ _ _ Hr); cbn [hdz]; by rewrite Z.eqb_refl|].
  all: intros G R h' v' _ -> HG HkG HkR Hv' Hr' HK' HU'; pose proof (quot2_neg _ Hu) as Hq;
    pose proof (neg_mass_lower _ _ _ _ _ _ _ Hv Hv' Htn HU' Hq) as Hm.
  - lia.
  - rewrite (vw_top _ _ _ Hv'), (r_top _ _ _ Hr'). destruct G as [|x G]; [done|]. cbn [app hdz].
    assert (x <> t). { intros ->. pose proof (r_nodup _ _ _ Hr) as Hnd. apply NoDup_cons in Hnd. set_solver. }
    rewrite (proj2 (Z.eqb_neq _ _)) by lia.
    assert (settled v v' (t :: (x :: G) ++ R)) as Hset.
    { split; intros y Hy; rewrite HU', ?HK'; (destruct (decide (y = t)) as [->|Hne];
        [rewrite ?fn_lookup_insert|rewrite ?fn_lookup_insert_ne by done]).
      - unfold lowered. lia.
      - destruct (Hp y Hy). lia.
      - set_solver.
      - done. }
    eapply wp_mono; [apply (IH h' v' _ Hv' Hr')|].
    + done.
    + eapply settled_pending; [exact Hset| |done]. by rewrite <- Permutation_middle.
    + lia.
    + intros h'' (v'' & L'' & Hv'' & Hr'' & HP & Hset'). exists v'', L''. split_and!; [done|done| |].
      * rewrite HP. by rewrite <- Permutation_middle.
      * destruct Hset as [S1 S2], Hset' as [S1' S2']. split; intros y Hy.
        -- destruct (S1 y Hy) as [_ <-]. apply S1'. set_solver.
        -- rewrite <- S2 by done. apply S2'. set_solver.
Qed.

(** The extracted vertex is the first of the list after settling. *)
Lemma wp_ExtractMax n h v L (Q : UnitHeap * Z -> Prop) : vw n h v -> rep n v L -> L <> [] -> pending_ok v L ->
  (forall h' v' t L', t :: L' ≡ₚ L -> vw n h' v' -> rep n v' L' -> settled v v' L -> Q (h', Z.of_nat t)) ->
  wp (ExtractMax (neg_mass (update h)) h) Q.
Proof.
  intros Hv Hr HL Hp HQ. unfold ExtractMax. apply wp_bind. eapply wp_mono; [by apply (wp_settle n _ h v L)|].
  intros h1 (v1 & L1 & Hv1 & Hr1 & HP & Hset). destruct L1 as [|t L1].
  { apply Permutation_nil in HP. done. }
  cbv zeta. rewrite (vw_top _ _ _ Hv1), (r_top _ _ _ Hr1). cbn [hdz].
  apply wp_bind, (wp_DeleteElement (A := []) Hv1 Hr1). intros h2 v2 Hv2 Hr2 HK2 HU2. cbn [wp].
  eapply HQ; [exact HP|exact Hv2|exact Hr2|]. destruct Hset as [S1 S2].
  split; intros y Hy; rewrite HU2, ?HK2; auto.
Qed.
