(* ===== verification/UnitHeapBuild.v ===== *)
(** * ReConstruct: linking the vertices sorted by key

    [std::sort] orders the vertices by decreasing key; the routine then links
    them and sets the header of every key.  The result represents the sorted
    list. *)

From S2P Require Import Prelude LayoutGorder UnitHeapSpec UnitHeapOps.

#[local] Open Scope Z_scope.

Lemma dll_positions P N p T q :
  (forall j x, T !! j = Some x -> P x = lastz p (take j T) /\ N x = hdz (drop (j + 1) T) q) -> dll P N p T q.
Proof.
  revert p. induction T as [|x T IH]; intros p H; [done|]. cbn [dll].
  destruct (H 0%nat x eq_refl) as [HP HN]. cbn [take] in HP. change (drop (0 + 1) (x :: T)) with (drop 0 T) in HN.
  rewrite drop_0 in HN. split_and!; [done|done|]. apply IH. intros j y Hy.
  destruct (H (S j) y Hy) as [HP' HN']. cbn [take] in HP'. by rewrite lastz_cons in HP'.
Qed.

Lemma lastz_take p T j x : T !! j = Some x -> lastz p (take (S j) T) = Z.of_nat x.
Proof. intros H. by rewrite (take_S_r _ _ _ H), lastz_snoc. Qed.

Lemma hdz_drop q T j x : T !! j = Some x -> hdz (drop j T) q = Z.of_nat x.
Proof. intros H. by rewrite (drop_S _ _ _ H). Qed.

Section build.
Context `{HSS : !StdSort} {n : nat}.

Section sorted.
Context (v : view) (T : list nat).
Hypothesis HT : T ≡ₚ seq 0 n.
Hypothesis Hs : by_key (vK v) T.

Lemma T_nodup : NoDup T.
Proof. rewrite HT. apply NoDup_seq. Qed.

Lemma T_length : length T = n.
Proof. by rewrite HT, length_seq. Qed.

Lemma T_bound j x : T !! j = Some x -> (x < n)%nat.
Proof. intros Hx%list_elem_of_lookup_2. rewrite HT in Hx. apply elem_of_seq in Hx. lia. Qed.

Lemma T_sorted i j x y : (i <= j)%nat -> T !! i = Some x -> T !! j = Some y -> vK v y <= vK v x.
Proof.
  intros Hij Hx Hy. destruct (decide (i = j)) as [->|Hne]; [simplify_eq; lia|].
  pose proof Hs as Hs1. rewrite <- (take_drop (S i) T) in Hs1. apply by_key_app in Hs1 as (_ & _ & Hs1). apply Hs1.
  - apply list_elem_of_lookup. exists i. rewrite lookup_take_lt by lia. done.
  - apply list_elem_of_lookup. exists (j - S i)%nat. rewrite lookup_drop. by replace (S i + (j - S i))%nat with j by lia.
Qed.

(** Position [j] has its final pointers. *)
Definition linked (P N : nat -> Z) (j : nat) : Prop :=
  forall x, T !! j = Some x -> P x = lastz (-1) (take j T) /\ N x = hdz (drop (j + 1) T) (-1).

Lemma linked_write P N j i y a b : linked P N j -> i <> j -> T !! i = Some y ->
  linked (upz P (Z.of_nat y) a) (upz N (Z.of_nat y) b) j.
Proof.
  intros Hl Hij Hy x Hx. assert (x <> y).
  { intros ->. apply Hij. eapply NoDup_lookup; [apply T_nodup|done|done]. }
  rewrite !upz_ne by lia. auto.
Qed.

(** Headers after the first [i] positions; the run of [k] is still open. *)
Definition headers_upto (F E : nat -> Z) (hs : nat) (i k : nat) : Prop :=
  forall j, (j < hs)%nat -> F j = hdz (run (vK v) j (take i T)) (-1) /\
    (j <> k -> E j = lastz (-1) (run (vK v) j (take i T))).

Lemma headers_same F E hs i k x : (0 < i)%nat -> T !! i = Some x -> vK v x = Z.of_nat k ->
  (forall y, T !! (i - 1)%nat = Some y -> vK v y = Z.of_nat k) -> (i - 1 < length T)%nat ->
  headers_upto F E hs i k -> headers_upto F E hs (i + 1) k.
Proof.
  intros Hi Hx Hk Hprev Hlen H j Hj. rewrite Nat.add_1_r, (take_S_r _ _ _ Hx), run_app.
  destruct (H j Hj) as [-> HS]. destruct (decide (j = k)) as [->|Hne].
  - split; [|done]. rewrite hdz_app. destruct (run (vK v) k (take i T)) as [|y R] eqn:Er; [|done]. exfalso.
    destruct (lookup_lt_is_Some_2 T (i - 1) Hlen) as [y Hy]. assert (y ∈ run (vK v) k (take i T)) as Hin.
    { apply elem_of_run. split; [by apply Hprev|]. apply list_elem_of_lookup. exists (i - 1)%nat.
      rewrite lookup_take_lt by lia. done. }
    rewrite Er in Hin. set_solver.
  - rewrite run_cons_ne by lia. rewrite app_nil_r. auto.
Qed.

(** A new run is opened at position [i] and the one before it closed. *)
Lemma headers_next F E hs i k k' p x : T !! (i - 1)%nat = Some p -> (0 < i)%nat -> T !! i = Some x ->
  vK v p = Z.of_nat k -> vK v x = Z.of_nat k' -> k <> k' ->
  headers_upto F E hs i k -> headers_upto (<[k' := Z.of_nat x]> F) (<[k := Z.of_nat p]> E) hs (i + 1) k'.
Proof.
  intros Hp Hi Hx Hkp Hkx Hne H j Hj. rewrite Nat.add_1_r, (take_S_r _ _ _ Hx), run_app.
  destruct (H j Hj) as [HF HS]. pose proof (T_sorted (i - 1) i p x ltac:(lia) Hp Hx) as Hle.
  assert (run (vK v) k' (take i T) = []) as Hempty.
  { apply run_none. intros y Hy. apply list_elem_of_lookup in Hy as [m Hm]. apply lookup_take_Some in Hm as [Hm Hmi].
    pose proof (T_sorted m (i - 1) y p ltac:(lia) Hm Hp). lia. }
  destruct (decide (j = k')) as [->|Hj'].
  - split; [|done]. rewrite fn_lookup_insert, Hempty, run_cons_eq by done. done.
  - rewrite fn_lookup_insert_ne by done. rewrite run_cons_ne, app_nil_r by lia. split; [done|]. intros _.
    destruct (decide (j = k)) as [->|Hjk]; [|rewrite fn_lookup_insert_ne by done; auto].
    rewrite fn_lookup_insert. replace i with (S (i - 1)) by lia. rewrite (take_S_r _ _ _ Hp), run_app, run_cons_eq by done.
    by rewrite lastz_snoc.
Qed.

End sorted.

Lemma sort_by_key h v : vw n h v ->
  let T := std_sort (fun a b => key (LinkedList h !!! b) <? key (LinkedList h !!! a)) (seq 0 n) in
  T ≡ₚ seq 0 n /\ by_key (vK v) T.
Proof.
  intros Hv T. assert (forall x, x ∈ seq 0 n -> key (LinkedList h !!! x) = vK v x) as Hkey.
  { intros x Hx%elem_of_seq. 
    pose proof (vw_list _ _ _ Hv x ltac:(lia)) as Hl. apply list_lookup_total_correct in Hl. by rewrite Hl. }
  assert (T ≡ₚ seq 0 n) as HP by apply std_sort_perm. split; [done|].
  pose proof (std_sort_sorted nat (fun a b => key (LinkedList h !!! b) <? key (LinkedList h !!! a)) (seq 0 n)) as Hs.
  fold T in Hs. assert (StronglySorted (fun x y => (key (LinkedList h !!! x) <? key (LinkedList h !!! y)) = false) T) as Hs1.
  { apply Hs. split.
    - intros x y _ _ Hlt. lia.
    - intros x y z _ _ _ H1 H2. lia. }
  assert (forall x, x ∈ T -> x ∈ seq 0 n) as HT by (intros x; by rewrite HP).
  clear Hs HP. clearbody T. unfold by_key. induction Hs1 as [|x T Hs1 IH Hx]; constructor.
  - apply IH. intros y Hy. apply HT. set_solver.
  - rewrite Forall_forall in Hx |- *. intros y Hy. specialize (Hx y Hy). simpl in Hx.
    rewrite !Hkey in Hx by (apply HT; set_solver). lia.
Qed.

Lemma vw_new_headers h v m : vw n h v ->
  vw n (set_headers h (replicate m no_head)) (mkView (vK v) (vP v) (vN v) (vU v) (fun _ => -1) (fun _ => -1) m (vtop v)).
Proof.
  intros Hv. destruct Hv. split; simpl; try done; [by rewrite length_replicate|].
  intros k Hk. by rewrite lookup_replicate_2.
Qed.

(** The state of the loop after position [i]. *)
Definition build_inv (v : view) (T : list nat) (m i : nat) (st : UnitHeap * Z) : Prop :=
  exists vi k, st.2 = Z.of_nat k /\ vw n st.1 vi /\ vK vi = vK v /\ vU vi = vU v /\ vhs vi = m /\
    (forall j, (j < i)%nat -> linked T (vP vi) (vN vi) j) /\ linked T (vP vi) (vN vi) (n - 1) /\
    headers_upto v T (vF vi) (vS vi) m i k /\ (forall y, T !! (i - 1)%nat = Some y -> vK v y = Z.of_nat k).

Section loop.
Context (v : view) (T : list nat) (m : nat).
Hypothesis HT : T ≡ₚ seq 0 n.
Hypothesis Hs : by_key (vK v) T.
Hypothesis Hm : forall x, x ∈ T -> 0 <= vK v x < Z.of_nat m.

Let at_ (i : nat) : M Z := let* w := vget T i in Ret (Z.of_nat w).

Lemma at_ok i x : T !! i = Some x -> at_ i = Ret (Z.of_nat x).
Proof. intros H. unfold at_. by rewrite (proj2 (vget_Ret _ _ _) H). Qed.

Lemma linked_here P N i x : (i < n)%nat -> T !! i = Some x ->
  linked T (upz P (Z.of_nat x) (lastz (-1) (take i T))) (upz N (Z.of_nat x) (hdz (drop (i + 1) T) (-1))) i.
Proof. intros Hi Hx y Hy. simplify_eq. by rewrite !upz_of_nat, !fn_lookup_insert. Qed.

Definition loop_body (st : UnitHeap * Z) (i : nat) : M (UnitHeap * Z) :=
  let '(h, k) := st in
  let* p := at_ (i - 1)%nat in
  let* v := at_ i in
  let* x := at_ (i + 1)%nat in
  let* h := put_prev h v p in
  let* h := put_next h v x in
  let* e := vgetz (LinkedList h) v in
  let tmpkey := key e in
  if tmpkey =? k then Ret (h, k)
  else
    let* hk := vgetz (Header h) k in
    let* h := put_head h k (mkHead (first hk) p) in
    let* ht := vgetz (Header h) tmpkey in
    let* h := put_head h tmpkey (mkHead v (second ht)) in
    Ret (h, tmpkey).

Lemma loop_step i st : (1 <= i)%nat -> (i + 1 < n)%nat -> build_inv v T m i st ->
  wp (loop_body st i) (build_inv v T m (i + 1)).
Proof.
  intros Hi1 Hi (vi & k & Hk & Hv & HK & HU & Hhs & Hlink & Hlast & Hhead & Hprev). destruct st as [h kz]. simpl in Hk, Hv. subst kz.
  pose proof (T_length T HT) as Hlen.
  destruct (lookup_lt_is_Some_2 T (i - 1) ltac:(lia)) as [p Hp]. destruct (lookup_lt_is_Some_2 T i ltac:(lia)) as [w Hw].
  destruct (lookup_lt_is_Some_2 T (i + 1) ltac:(lia)) as [x Hx]. specialize (Hprev p Hp).
  assert (w < n)%nat as Hwn by by eapply T_bound.
  pose proof (Hm w ltac:(by eapply list_elem_of_lookup_2)) as Hmw. destruct (Z_of_nat_complete (vK v w)) as [k' Hk']; [lia|].
  pose proof (Hm p ltac:(by eapply list_elem_of_lookup_2)) as Hmp.
  unfold loop_body. rewrite (at_ok _ _ Hp), (at_ok _ _ Hw), (at_ok _ _ Hx). cbn [bind].
  replace (Z.of_nat p) with (lastz (-1) (take i T)) by (replace i with (S (i - 1)) by lia; by apply lastz_take).
  rewrite <- (hdz_drop (-1) _ _ _ Hx).
  apply wp_bind, (wp_put_prev Hv); [done|]. intros h1 Hv1. apply wp_bind, (wp_put_next Hv1); [done|]. intros h2 Hv2.
  assert (forall j, (j < i + 1)%nat -> linked T (upz (vP vi) (Z.of_nat w) (lastz (-1) (take i T)))
    (upz (vN vi) (Z.of_nat w) (hdz (drop (i + 1) T) (-1))) j) as Hlink'.
  { intros j Hj. destruct (decide (j = i)) as [->|Hne]; [apply linked_here; [lia|done]|].
    eapply linked_write; [done|apply Hlink; lia| |exact Hw]. done. }
  assert (linked T (upz (vP vi) (Z.of_nat w) (lastz (-1) (take i T)))
    (upz (vN vi) (Z.of_nat w) (hdz (drop (i + 1) T) (-1))) (n - 1)) as Hlast'.
  { eapply linked_write; [done|done| |exact Hw]. lia. }
  rewrite (vgetz_list Hv2) by done. cbn [bind key]. change (vK (setN _ _ _) w) with (vK vi w). rewrite HK, Hk'.
  destruct (Z.eqb_spec (Z.of_nat k') (Z.of_nat k)) as [Heq|Hne]; cbn [wp].
  - assert (k' = k) as -> by lia. exists (setN (setP vi (Z.of_nat w) (lastz (-1) (take i T))) (Z.of_nat w) (hdz (drop (i + 1) T) (-1))), k.
    split_and!; try done.
    + eapply headers_same; [done|done|lia|exact Hw|done| |lia|done]. intros y Hy. by simplify_eq.
    + intros y Hy. replace (i + 1 - 1)%nat with i in Hy by lia. by simplify_eq.
  - rewrite (vgetz_header Hv2) by (simpl; lia). cbn [bind first].
    apply wp_bind, (wp_put_head Hv2); [simpl; lia|]. intros h3 Hv3.
    rewrite (vgetz_header Hv3) by (simpl; lia). cbn [bind second].
    apply wp_bind, (wp_put_head Hv3); [simpl; lia|]. intros h4 Hv4. cbn [wp].
    eexists _, k'. split; [done|]. split; [exact Hv4|]. simpl. split_and!; try done.
    + assert (lastz (-1) (take i T) = Z.of_nat p) as -> by (replace i with (S (i - 1)) by lia; by apply lastz_take).
      pose proof (headers_next v T Hs _ _ _ i k k' p w Hp ltac:(lia) Hw Hprev Hk' ltac:(lia) Hhead) as Hn.
      intros j Hj. destruct (Hn j Hj) as [HF HS]. clear - HF HS Hne.
      split.
      * rewrite <- HF. fn_case k' j; [done|]. fn_case k j; by rewrite ?fn_lookup_insert_ne by done.
      * intros Hj'. rewrite <- HS by done. rewrite fn_lookup_insert_ne by done. done.
    + intros y Hy. replace (i + 1 - 1)%nat with i in Hy by lia. by simplify_eq.
Qed.

End loop.
(** Closing the last run. *)
Lemma headers_close v T m F E k b : T ≡ₚ seq 0 n -> by_key (vK v) T -> (2 <= n)%nat -> T !! (n - 1)%nat = Some b ->
  vK v b = Z.of_nat k -> headers_upto v T F E m n k ->
  forall j, (j < m)%nat -> F j = hdz (run (vK v) j T) (-1) /\ <[k := Z.of_nat b]> E j = lastz (-1) (run (vK v) j T).
Proof.
  intros HT Hs Hn Hb Hk H j Hj. destruct (H j Hj) as [HF HS]. rewrite take_ge in HF, HS by (rewrite (T_length T HT); done).
  split; [done|]. fn_case k j; [|auto]. rewrite <- (take_drop (n - 1) T), (drop_S _ _ _ Hb).
  rewrite drop_ge by (rewrite (T_length T HT); lia). by rewrite run_app, run_cons_eq, lastz_snoc.
Qed.

(** The four pointers written before the loop. *)
Lemma ends_linked T P N t0 t1 b b1 : T ≡ₚ seq 0 n -> (2 <= n)%nat -> T !! 0%nat = Some t0 -> T !! 1%nat = Some t1 ->
  T !! (n - 1)%nat = Some b -> T !! (n - 2)%nat = Some b1 ->
  let P' := upz (upz P (Z.of_nat t0) (-1)) (Z.of_nat b) (Z.of_nat b1) in
  let N' := upz (upz N (Z.of_nat t0) (Z.of_nat t1)) (Z.of_nat b) (-1) in
  linked T P' N' 0 /\ linked T P' N' (n - 1).
Proof.
  intros HT Hn Ht0 Ht1 Hb Hb1 P' N'. split.
  - apply (linked_write T HT _ _ 0 (n - 1)); [|lia|done]. intros x Hx. simplify_eq.
    rewrite !upz_of_nat, !fn_lookup_insert. split; [done|]. symmetry. by apply hdz_drop.
  - intros x Hx. simplify_eq. subst P' N'. rewrite !(upz_of_nat _ b), !fn_lookup_insert.
    rewrite drop_ge by (rewrite (T_length T HT); lia). split; [|done].
    replace (n - 1)%nat with (S (n - 2)) by lia. symmetry. by apply lastz_take.
Qed.

Lemma rep_built v vi T m t0 : T ≡ₚ seq 0 n -> by_key (vK v) T -> T !! 0%nat = Some t0 ->
  (forall x, x ∈ T -> 0 <= vK v x < Z.of_nat m) -> vK vi = vK v -> vhs vi = m ->
  (forall j, (j < n)%nat -> linked T (vP vi) (vN vi) j) ->
  (forall j, (j < m)%nat -> vF vi j = hdz (run (vK v) j T) (-1) /\ vS vi j = lastz (-1) (run (vK v) j T)) ->
  rep n (setT vi (Z.of_nat t0)) T.
Proof.
  intros HT Hs Ht0 Hm HK Hhs Hlink Hh. split; simpl.
  - by eapply T_nodup.
  - intros x Hx. rewrite HT in Hx. apply elem_of_seq in Hx. lia.
  - apply dll_positions. intros j x Hx. apply Hlink; [|done]. apply lookup_lt_Some in Hx. by rewrite (T_length T HT) in Hx.
  - by rewrite HK.
  - by rewrite HK, Hhs.
  - intros j Hj. simpl in *. rewrite HK. apply Hh. lia.
  - destruct T; [done|]. by injection Ht0 as ->.
Qed.

Lemma wp_ReConstruct h v (Q : UnitHeap -> Prop) : (2 <= n)%nat -> vw n h v -> (forall x, (x < n)%nat -> 0 <= vK v x) ->
  (forall h' v' T, T ≡ₚ seq 0 n -> vw n h' v' -> rep n v' T -> vK v' = vK v -> vU v' = vU v -> Q h') ->
  wp (ReConstruct h) Q.
Proof.
  intros Hn Hv Hpos HQ. destruct (sort_by_key h v Hv) as [HT Hs]. unfold ReConstruct. rewrite (vw_size _ _ _ Hv).
  set (T := std_sort _ _) in *. cbv zeta. pose proof (T_length T HT) as Hlen.
  destruct (lookup_lt_is_Some_2 T 0 ltac:(lia)) as [t0 Ht0]. destruct (lookup_lt_is_Some_2 T 1 ltac:(lia)) as [t1 Ht1].
  destruct (lookup_lt_is_Some_2 T (n - 1) ltac:(lia)) as [b Hb]. destruct (lookup_lt_is_Some_2 T (n - 2) ltac:(lia)) as [b1 Hb1].
  rewrite (proj2 (vget_Ret T _ _) Ht0), (proj2 (vget_Ret T _ _) Ht1), (proj2 (vget_Ret T _ _) Hb), (proj2 (vget_Ret T _ _) Hb1).
  cbn [bind]. assert (t0 < n)%nat as Ht0n by (by eapply T_bound). assert (b < n)%nat as Hbn by (by eapply T_bound).
  destruct (Z_of_nat_complete (vK v t0) (Hpos t0 Ht0n)) as [k0 Hk0].
  rewrite (vgetz_list Hv) by done. cbn [bind key]. rewrite Hk0.
  apply wp_bind, (wp_put_next Hv); [done|]. intros h1 Hv1. apply wp_bind, (wp_put_prev Hv1); [done|]. intros h2 Hv2.
  apply wp_bind, (wp_put_next Hv2); [done|]. intros h3 Hv3. apply wp_bind, (wp_put_prev Hv3); [done|]. intros h4 Hv4.
  set (m := Z.to_nat (Z.max (Z.of_nat k0 + 1) (Z.of_nat (length (Header h4))))).
  assert (forall x, x ∈ T -> 0 <= vK v x < Z.of_nat m) as Hm.
  { intros x Hx. split; [apply Hpos; rewrite HT in Hx; apply elem_of_seq in Hx; lia|].
    apply list_elem_of_lookup in Hx as [j Hj]. pose proof (T_sorted v T Hs 0 j t0 x ltac:(lia) Ht0 Hj). lia. }
  pose proof (vw_new_headers h4 _ m Hv4) as Hv5.
  rewrite (vgetz_header Hv5) by (simpl; lia). cbn [bind second].
  apply wp_bind, (wp_put_head Hv5); [simpl; lia|]. intros h6 Hv6.
  apply wp_bind, (wp_for (loop_body T) (build_inv v T m)).
  - destruct (ends_linked T (vP v) (vN v) t0 t1 b b1 HT Hn Ht0 Ht1 Hb Hb1) as [Hl0 Hl1].
    eexists _, k0. split; [done|]. split; [exact Hv6|]. simpl. split_and!; try done.
    + intros j Hj. by replace j with 0%nat by lia.
    + intros j Hj. rewrite (take_S_r _ _ _ Ht0). change (take 0 T ++ [t0]) with [t0]. destruct (decide (j = k0)) as [->|Hne].
      * rewrite fn_lookup_insert, run_cons_eq by done. split; [done|]. done.
      * rewrite !fn_lookup_insert_ne by done. rewrite run_cons_ne by lia. done.
    + intros y Hy. simpl in Hy. by simplify_eq.
  - intros i st Hi Hinv. apply loop_step; [done|done|done|lia|lia|done].
  - replace (1 + (n - 2))%nat with (n - 1)%nat by lia.
    intros [h7 kz] (vi & k & Hk & Hv7 & HK & HU & Hhs & Hlink & Hlast & Hhead & Hprev). simpl in Hk, Hv7. subst kz.
    replace (n - 1 - 1)%nat with (n - 2)%nat in Hprev by lia. specialize (Hprev b1 Hb1).
    destruct (Z_of_nat_complete (vK v b) (Hpos b Hbn)) as [kb Hkb].
    pose proof (Hm b ltac:(by eapply list_elem_of_lookup_2)). pose proof (Hm b1 ltac:(by eapply list_elem_of_lookup_2)).
    assert (forall j, (j < n)%nat -> linked T (vP vi) (vN vi) j) as Hall.
    { intros j Hj. destruct (decide (j = n - 1)%nat) as [->|]; [done|apply Hlink; lia]. }
    rewrite (vgetz_list Hv7) by done. cbn [bind key]. rewrite HK, Hkb.
    rewrite (vgetz_header Hv7) by lia. cbn [bind first].
    destruct (Z.eqb_spec (Z.of_nat k) (Z.of_nat kb)) as [Heq|Hne].
    + assert (kb = k) as -> by lia. apply wp_bind, (wp_put_head Hv7); [lia|]. intros h8 Hv8.
      eapply HQ; [exact HT|exact (vw_set_top Hv8 _)| |done|done]. eapply (rep_built v); try done.
      simpl. assert (headers_upto v T (vF vi) (vS vi) m n k) as Hh.
      { replace n with (n - 1 + 1)%nat by lia. eapply headers_same; [done|done|lia|exact Hb|done| |lia|done].
        intros y Hy. replace (n - 1 - 1)%nat with (n - 2)%nat in Hy by lia. by simplify_eq. }
      intros j Hj. destruct (headers_close v T m _ _ k b HT Hs Hn Hb Hkb Hh j Hj) as [<- <-]. split; [|done].
      by fn_case k j.
    + apply wp_bind, wp_bind, (wp_put_head Hv7); [lia|]. intros h8 Hv8.
      apply (wp_put_head Hv8); [simpl; lia|]. intros h9 Hv9.
      eapply HQ; [exact HT|exact (vw_set_top Hv9 _)| |done|done]. eapply (rep_built v); try done.
      simpl. assert (headers_upto v T (<[kb := Z.of_nat b]> (vF vi)) (<[k := Z.of_nat b1]> (vS vi)) m n kb) as Hh.
      { replace n with (n - 1 + 1)%nat by lia. eapply headers_next; [done| |lia|exact Hb|done|done|lia|done].
        by replace (n - 1 - 1)%nat with (n - 2)%nat by lia. }
      intros j Hj. destruct (headers_close v T m _ _ kb b HT Hs Hn Hb Hkb Hh j Hj) as [<- <-].
      fn_case kb j; [done|]. fn_case k j; by rewrite ?fn_lookup_insert_ne by done.
Qed.

End build.
