(* ===== verification/UnitHeapRefine.v ===== *)
(** * UnitHeap refines a priority list

    The specification that GOrder relies on: a list of vertices in decreasing
    order of key, where a vertex whose key grows goes in front of the vertices
    it ties with, and a top whose key is lowered goes behind those it ties with.
    The linked lists and headers of [UnitHeap] implement it. *)

From S2P Require Import Prelude LayoutGorder UnitHeapSpec UnitHeapOps UnitHeapBuild.

#[local] Open Scope Z_scope.

(** ** The specification *)

Module Prio.

Record t := mk { items : list nat; pkey : nat -> Z; pend : nat -> Z }.

Definition delete (s : t) (x : nat) : t := mk (filter (fun y => y <> x) (items s)) (pkey s) (pend s).

Definition increment (s : t) (x : nat) : t :=
  let k := pkey s x in
  mk (filter (fun y => k < pkey s y) (items s) ++ x :: filter (fun y => y <> x /\ pkey s y <= k) (items s))
     (<[x := k + 1]> (pkey s)) (pend s).

Definition decrease_top (s : t) : t :=
  match items s with
  | top :: x :: l =>
      let nk := lowered (pkey s top) (pend s top) in
      if pkey s x <=? nk then s
      else mk (filter (fun y => nk <= pkey s y) (x :: l) ++ top :: filter (fun y => pkey s y < nk) (x :: l))
              (<[top := nk]> (pkey s)) (<[top := Z.quot (pend s top) 2]> (pend s))
  | _ => s
  end.

(** Lower the top until it keeps its place. *)
Fixpoint settle (fuel : nat) (s : t) : t :=
  match items s with
  | [] => s
  | top :: _ =>
      let s' := if pend s top <? 0 then decrease_top s else s in
      if bool_decide (head (items s') = Some top) then s'
      else match fuel with O => s' | S fuel => settle fuel s' end
  end.

(** The settled top, and the list without it. *)
Definition extract_max (fuel : nat) (s : t) : option (t * nat) :=
  let s := settle fuel s in
  match items s with [] => None | top :: l => Some (mk l (pkey s) (pend s), top) end.

End Prio.

(** ** The refinement relation *)

Definition represents (n : nat) (h : UnitHeap) (s : Prio.t) : Prop :=
  exists v, vw n h v /\ rep n v (Prio.items s) /\ vK v = Prio.pkey s /\ vU v = Prio.pend s.

Section refine.
Context {n : nat} {h : UnitHeap} {s : Prio.t} (Hrep : represents n h s).

Lemma delete_refines x : x ∈ Prio.items s ->
  wp (DeleteElement h (Z.of_nat x)) (fun h' => represents n h' (Prio.delete s x)).
Proof.
  destruct Hrep as (v & Hv & Hr & HK & HU). intros Hx. destruct (list_elem_of_split _ _ Hx) as (A & B & HL).
  rewrite HL in Hr. apply (wp_DeleteElement Hv Hr). intros h' v' Hv' Hr' HK' HU'. exists v'.
  unfold Prio.delete. cbn [Prio.items Prio.pkey Prio.pend].
  pose proof (NoDup_middle _ _ _ (r_nodup _ _ _ Hr)) as (_ & _ & HxA & HxB & _).
  rewrite HL, filter_app, filter_cons_False by auto.
  rewrite !filter_all by (intros y Hy ->; done). split_and!; [done|done|congruence|congruence].
Qed.

Lemma increment_refines x : x ∈ Prio.items s ->
  wp (IncrementKey h (Z.of_nat x)) (fun h' => represents n h' (Prio.increment s x)).
Proof.
  destruct Hrep as (v & Hv & Hr & HK & HU). intros Hx.
  destruct (split_at_key n v _ x Hr Hx) as (A & H & B & k & HL & Hk & HA & HH). rewrite HL in Hr.
  apply (wp_IncrementKey Hv Hr Hk HA HH). intros h' v' Hv' Hr' HK' HU'. exists v'.
  destruct (incr_parts Hv Hr Hk HA HH) as (HxA & HxH & HxB & _). pose proof (keys_after Hr Hk) as HB.
  unfold Prio.increment. cbn [Prio.items Prio.pkey Prio.pend]. rewrite <- HK, Hk, HL, !filter_app, !filter_cons.
  rewrite (decide_False (P := Z.of_nat k < vK v x)) by lia.
  rewrite (decide_False (P := x <> x /\ vK v x <= Z.of_nat k)) by (intros [? _]; done).
  rewrite (filter_all _ A), (filter_none _ H), (filter_none _ B), (filter_none _ A), (filter_all _ H), (filter_all _ B).
  - cbn [app]. rewrite app_nil_r. split_and!; [done|done|done|congruence].
  - intros y Hy. split; [by intros ->|]. by apply HB.
  - intros y Hy. split; [by intros ->|]. rewrite HH by done. lia.
  - intros y Hy [_ Hle]. specialize (HA y Hy). lia.
  - intros y Hy. specialize (HB y Hy). lia.
  - intros y Hy. rewrite HH by done. lia.
  - done.
Qed.

(** What a caller of [ExtractMax] has to guarantee: no positive pending update,
    no negative total. *)
Definition pending : Prop := forall x, x ∈ Prio.items s -> Prio.pend s x <= 0 /\ 0 <= Prio.pkey s x + Prio.pend s x.

Lemma decrease_top_refines t l : Prio.items s = t :: l -> Prio.pend s t < 0 -> 0 <= Prio.pkey s t + Prio.pend s t ->
  wp (DecreaseTop h) (fun h' => represents n h' (Prio.decrease_top s)).
Proof.
  destruct Hrep as (v & Hv & Hr & HK & HU). intros HL Hneg Hpos. rewrite HL in Hr. rewrite <- HK, <- HU in *.
  unfold Prio.decrease_top. rewrite HL, <- HK, <- HU.
  apply (wp_DecreaseTop Hv Hr Hneg Hpos).
  - intros Hst. unfold top_stays in Hst. assert (represents n h s) as Hs by (exists v; rewrite HL; done).
    destruct l as [|x l]; [done|]. by rewrite (proj2 (Z.leb_le _ _)).
  - intros G R h' v' Hst -> HG HkG HkR Hv' Hr' HK' HU'. destruct G as [|x G]; [done|]. cbn [app].
    unfold top_stays in Hst. cbn [app] in Hst. rewrite (proj2 (Z.leb_gt _ _)) by lia.
    exists v'. rewrite app_comm_cons, !filter_app.
    rewrite (filter_all _ (x :: G)), (filter_none _ R), (filter_none _ (x :: G)), (filter_all _ R), app_nil_r.
    + done.
    + done.
    + intros y Hy. specialize (HkG y Hy). lia.
    + intros y Hy. specialize (HkR y Hy). lia.
    + done.
Qed.

End refine.

(** Lowering the top keeps the totals, the vertices and the pending updates legal. *)
Lemma decrease_top_pending s : pending (s := s) -> NoDup (Prio.items s) ->
  (forall t l, Prio.items s = t :: l -> Prio.pend s t < 0) ->
  pending (s := Prio.decrease_top s) /\ Prio.items (Prio.decrease_top s) ≡ₚ Prio.items s.
Proof.
  intros Hp Hnd Hneg. unfold Prio.decrease_top. destruct (Prio.items s) as [|t [|x l]] eqn:HL; rewrite ?HL; [done|done|].
  destruct (_ <=? _); [by rewrite HL|]. specialize (Hneg _ _ eq_refl). pose proof (quot2_neg _ Hneg) as Hq.
  assert (filter (fun y => lowered (Prio.pkey s t) (Prio.pend s t) <= Prio.pkey s y) (x :: l) ++
    t :: filter (fun y => Prio.pkey s y < lowered (Prio.pkey s t) (Prio.pend s t)) (x :: l) ≡ₚ t :: x :: l) as HP.
  { rewrite <- Permutation_middle. apply Permutation_skip. generalize (x :: l) as m. clear. intros m.
    induction m as [|y m IH]; [done|]. rewrite !filter_cons.
    destruct (decide (lowered (Prio.pkey s t) (Prio.pend s t) <= Prio.pkey s y)).
    - rewrite decide_False by lia. cbn [app]. by rewrite IH.
    - rewrite decide_True by lia. rewrite <- Permutation_middle. by rewrite IH. }
  split; [|exact HP]. intros y Hy. cbn [Prio.items Prio.pkey Prio.pend] in *. rewrite HP in Hy.
  destruct (decide (t = y)) as [<-|Hne].
  - rewrite !fn_lookup_insert. destruct (Hp t) as [_ Ht]; [rewrite HL; by left|]. unfold lowered. lia.
  - rewrite !fn_lookup_insert_ne by done. apply Hp. by rewrite HL.
Qed.

Lemma settle_refines n fuel h s : represents n h s -> pending (s := s) -> Prio.items s <> [] ->
  (neg_mass (update h) <= fuel)%nat ->
  wp (settle fuel h) (fun h' => represents n h' (Prio.settle fuel s)) /\ Prio.items (Prio.settle fuel s) <> [].
Proof.
  revert h s. induction fuel as [|fuel IH]; intros h s Hrep Hp Hne Hf.
  all: destruct Hrep as (v & Hv & Hr & HK & HU); destruct (Prio.items s) as [|t l] eqn:HL; [done|].
  all: assert (represents n h s) as Hrep by (exists v; rewrite HL; done).
  all: assert (t < n)%nat as Htn by (apply (r_bound _ _ _ Hr); set_solver).
  all: cbn [settle Prio.settle]; rewrite HL, (vw_top _ _ _ Hv), (r_top _ _ _ Hr); cbn [hdz]; rewrite (vgetz_update Hv) by done; cbn [bind];
    rewrite HU.
  all: destruct (Z.ltb_spec (Prio.pend s t) 0) as [Hneg|Hneg];
    [|cbn [bind]; rewrite (vw_top _ _ _ Hv), (r_top _ _ _ Hr); cbn [hdz]; rewrite Z.eqb_refl, HL, bool_decide_true by done;
      split; [done|by rewrite HL]].
  all: destruct (Hp t) as [_ Hpos]; [rewrite HL; by left|].
  all: destruct (wp_elim _ _ (decrease_top_refines Hrep t l HL Hneg Hpos)) as (h1 & Hh1 & v1 & Hv1 & Hr1 & HK1 & HU1).
  all: assert (represents n h1 (Prio.decrease_top s)) as Hrep1 by (exists v1; done).
  all: destruct (decrease_top_pending s Hp) as [Hp1 HP1];
    [rewrite HL; apply (r_nodup _ _ _ Hr)|intros t' l' Heq; rewrite HL in Heq; by injection Heq as <- _|].
  all: rewrite Hh1; cbn [bind]; rewrite (vw_top _ _ _ Hv1), (r_top _ _ _ Hr1).
  all: destruct (Prio.items (Prio.decrease_top s)) as [|t1 l1] eqn:HL1;
    [rewrite HL in HP1; apply Permutation_nil_l in HP1; done|]; cbn [hdz head].
  all: destruct (decide (t1 = t)) as [->|Hmoved];
    [rewrite Z.eqb_refl, bool_decide_true by done; split; [done|by rewrite HL1]|].
  all: rewrite (proj2 (Z.eqb_neq _ _)), bool_decide_false by (congruence || lia).
  all: assert (neg_mass (update h1) < neg_mass (update h))%nat as Hlt.
  1, 3: apply (neg_mass_lower n h v h1 v1 t (Z.quot (Prio.pend s t) 2)); [done..| |rewrite HU; by apply quot2_neg];
    rewrite HU1; clear - HL HL1 Hmoved HU; unfold Prio.decrease_top in *; rewrite HL in *;
    destruct l as [|x l]; [rewrite HL in HL1; congruence|]; destruct (_ <=? _); [rewrite HL in HL1; congruence|];
    cbn [Prio.pend]; by rewrite HU.
  - lia.
  - apply IH; [done|done|by rewrite HL1|lia].
Qed.

Lemma extract_max_refines n h s : represents n h s -> pending (s := s) -> Prio.items s <> [] ->
  exists h' s' t, ExtractMax (neg_mass (update h)) h = Ret (h', Z.of_nat t) /\
    Prio.extract_max (neg_mass (update h)) s = Some (s', t) /\ represents n h' s'.
Proof.
  intros Hrep Hp Hne. destruct (settle_refines n (neg_mass (update h)) h s Hrep Hp Hne) as [Hset Hne']; [done|].
  destruct (wp_elim _ _ Hset) as (h1 & Hh1 & v1 & Hv1 & Hr1 & HK1 & HU1). unfold ExtractMax, Prio.extract_max. rewrite Hh1. cbn [bind].
  destruct (Prio.items (Prio.settle (neg_mass (update h)) s)) as [|t l] eqn:HL; [done|].
  rewrite (vw_top _ _ _ Hv1), (r_top _ _ _ Hr1). cbn [hdz].
  assert (wp (DeleteElement h1 (Z.of_nat t)) (fun h' => exists v', vw n h' v' /\ rep n v' l /\ vK v' = vK v1 /\ vU v' = vU v1))
    as (h2 & -> & v2 & Hv2 & Hr2 & HK2 & HU2)%wp_elim.
  { apply (wp_DeleteElement (A := []) Hv1 Hr1). intros h2 v2 Hv2 Hr2 HK2 HU2. by exists v2. }
  cbn [bind]. eexists h2, _, t. split; [done|]. split; [done|]. exists v2. cbn [Prio.items Prio.pkey Prio.pend].
  split_and!; [done|done|congruence|congruence].
Qed.

(** The constructor: all vertices with key zero, in order. *)
Lemma unit_heap_represents n : (0 < n)%nat ->
  represents n (unit_heap n) (Prio.mk (seq 0 n) (fun _ => 0) (fun _ => 0)).
Proof.
  intros Hn. set (m := Z.to_nat (Z.max (Z.shiftr (Z.of_nat n) 4) 4)).
  exists (mkView (fun _ => 0) (fun x => Z.of_nat x - 1) (fun x => if (x + 1 =? n)%nat then -1 else Z.of_nat x + 1) (fun _ => 0)
    (fun k => if decide (k = 0%nat) then 0 else -1) (fun k => if decide (k = 0%nat) then Z.of_nat n - 1 else -1) (S (m - 1)) 0).
  assert (forall k, run (fun _ => 0) k (seq 0 n) = if decide (k = 0%nat) then seq 0 n else []) as Hrun.
  { intros k. destruct (decide (k = 0%nat)) as [->|Hk]; [by apply filter_all|]. apply run_none. intros y _. lia. }
  assert (seq 0 n !! 0%nat = Some 0%nat /\ seq 0 n !! (n - 1)%nat = Some (n - 1)%nat) as [H0 Hl]
    by (rewrite !lookup_seq_lt by lia; done).
  assert (hdz (seq 0 n) (-1) = 0 /\ lastz (-1) (seq 0 n) = Z.of_nat n - 1) as [Hhd Hla].
  { split; [by rewrite <- (drop_0 (seq 0 n)), (hdz_drop _ _ _ _ H0)|].
    rewrite <- (take_ge (seq 0 n) (S (n - 1))) by (rewrite length_seq; lia). rewrite (lastz_take _ _ _ _ Hl). lia. }
  split; [|split; [|done]].
  - unfold unit_heap. rewrite (proj2 (Nat.eqb_neq n 0)) by lia. split; simpl; try done.
    + apply length_replicate.
    + by rewrite length_fmap, length_seq.
    + by rewrite length_replicate.
    + intros x Hx. by rewrite list_lookup_fmap, lookup_seq_lt.
    + intros x Hx. by rewrite lookup_replicate_2.
    + intros [|k] Hk; [done|]. simpl. by rewrite lookup_replicate_2 by lia.
  - split; simpl.
    + apply NoDup_seq.
    + intros x Hx%elem_of_seq. lia.
    + apply dll_positions. intros j x Hx. apply lookup_seq in Hx as [-> Hj]. simpl. split.
      * destruct j as [|j]; [done|]. rewrite (lastz_take _ _ _ j); [lia|]. by rewrite lookup_seq_lt by lia.
      * destruct (Nat.eqb_spec (j + 1) n) as [->|Hne]; [by rewrite drop_ge by (rewrite length_seq; lia)|].
        rewrite (hdz_drop _ _ _ (j + 1)); [lia|]. by rewrite lookup_seq_lt by lia.
    + clear. induction (seq 0 n) as [|x l IH]; constructor; [done|]. by apply Forall_true.
    + intros x _. lia.
    + intros k Hk. simpl in *. rewrite Hrun. destruct (decide (k = 0%nat)); [|done]. by rewrite Hhd, Hla.
    + by rewrite Hhd.
Qed.

(** C2: UnitHeap implements the priority list.  If a heap represents a list of
    vertices sorted by key, then deleting a vertex, incrementing its key and,
    when no total of key and pending update is negative, extracting the maximum
    are defined, terminate and leave a heap that represents the list that the
    specification prescribes; and [ReConstruct] makes any heap with two or more
    vertices and keys that are not negative represent all its vertices sorted by
    key.  The constructor represents all vertices with key zero. *)
Theorem unit_heap_refines_priority_list `{HSS : !StdSort} (n : nat) (h : UnitHeap) :
  ((0 < n)%nat -> represents n (unit_heap n) (Prio.mk (seq 0 n) (fun _ => 0) (fun _ => 0))) /\
  (forall s, represents n h s ->
     (forall x, x ∈ Prio.items s ->
        (exists h', DeleteElement h (Z.of_nat x) = Ret h' /\ represents n h' (Prio.delete s x)) /\
        (exists h', IncrementKey h (Z.of_nat x) = Ret h' /\ represents n h' (Prio.increment s x))) /\
     (pending (s := s) -> Prio.items s <> [] ->
        exists h' s' t, ExtractMax (neg_mass (update h)) h = Ret (h', Z.of_nat t) /\
          Prio.extract_max (neg_mass (update h)) s = Some (s', t) /\ represents n h' s')) /\
  (forall v, vw n h v -> (2 <= n)%nat -> (forall x, (x < n)%nat -> 0 <= vK v x) ->
     exists h' T, ReConstruct h = Ret h' /\ T ≡ₚ seq 0 n /\ represents n h' (Prio.mk T (vK v) (vU v))).
Proof.
  split; [apply unit_heap_represents|]. split.
  - intros s Hrep. split.
    + intros x Hx. destruct (wp_elim _ _ (delete_refines Hrep x Hx)) as (h1 & ? & ?).
      destruct (wp_elim _ _ (increment_refines Hrep x Hx)) as (h2 & ? & ?). split; [by exists h1|by exists h2].
    + intros Hp Hne. by apply extract_max_refines.
  - intros v Hv Hn Hpos.
    assert (wp (ReConstruct h) (fun h' => exists T, T ≡ₚ seq 0 n /\ represents n h' (Prio.mk T (vK v) (vU v))))
      as (h' & ? & T & ? & ?)%wp_elim; [|by exists h', T].
    apply (wp_ReConstruct h v _ Hn Hv Hpos). intros h' v' T HT Hv' Hr' HK HU. exists T. split; [done|]. exists v'. done.
Qed.

Lemma unit_heap_refines_priority_list_witness :
  exists h h' t, IncrementKey (unit_heap 3) 1 = Ret h /\ ExtractMax (neg_mass (update h)) h = Ret (h', Z.of_nat t) /\ t = 1%nat.
Proof.
  pose proof (unit_heap_refines_priority_list 3 (unit_heap 3)) as (H0 & H1 & _).
  destruct (proj1 (H1 _ (H0 ltac:(lia))) 1%nat ltac:(by apply elem_of_seq; lia)) as [_ (h & Hh & Hrep)].
  exists h. pose proof (unit_heap_refines_priority_list 3 h) as (_ & H2 & _).
  destruct (proj2 (H2 _ Hrep)) as (h' & s' & t & He & Hs & _).
  - intros x Hx. simpl. destruct (decide (1 = x)%nat) as [<-|Hne].
    + rewrite fn_lookup_insert. lia.
    + rewrite fn_lookup_insert_ne by done. lia.
  - vm_compute. discriminate.
  - exists h', t. split; [exact Hh|]. split; [exact He|]. vm_compute in Hh. injection Hh as <-. vm_compute in Hs.
    injection Hs as _ <-. reflexivity.
Defined.
