(* ===== verification/GorderWalk.v ===== *)
(** * The GOrder walk

    The heap is driven by two kinds of updates: [bump] raises the score of a
    vertex by one, [drop_one] lowers it.  A vertex that is still in the heap has
    [key + update] equal to its score, with [update <= 0]; a vertex that has
    left it keeps an [update] so large that no update of the walk brings it back
    to zero.  Along the walk the score of a vertex is its affinity to the last
    [window] vertices, so it is never negative and every key stays in range. *)

From S2P Require Import Prelude LayoutGorder UnitHeapSpec UnitHeapOps UnitHeapBuild.

#[local] Open Scope Z_scope.

(** ** Counting *)

Fixpoint cnt (ws : list nat) (x : nat) : Z :=
  match ws with [] => 0 | w :: ws => (if decide (w = x) then 1 else 0) + cnt ws x end.

Lemma cnt_app ws us x : cnt (ws ++ us) x = cnt ws x + cnt us x.
Proof. induction ws as [|w ws IH]; cbn [app cnt]; [done|]. rewrite IH. lia. Qed.

Lemma cnt_nonneg ws x : 0 <= cnt ws x.
Proof. induction ws as [|w ws IH]; cbn [cnt]; [done|]. destruct (decide (w = x)); lia. Qed.

Lemma cnt_NoDup ws x : NoDup ws -> cnt ws x = if decide (x ∈ ws) then 1 else 0.
Proof.
  induction 1 as [|w ws Hw _ IH]; cbn [cnt]; [by rewrite decide_False by set_solver|]. rewrite IH.
  destruct (decide (w = x)) as [->|Hne].
  - rewrite (decide_False (P := x ∈ ws)) by done. by rewrite decide_True by set_solver.
  - destruct (decide (x ∈ ws)); [rewrite decide_True by set_solver|rewrite decide_False by set_solver]; done.
Qed.

(** ** The heap during the walk *)

Section heap.
Context {n : nat} {B : Z}.
Hypothesis HB : B < INT_MAX / 2.
Implicit Types (c : nat -> Z) (L ws : list nat) (h : UnitHeap).

(** [L] is in the heap, [c] is the score of every vertex. *)
Definition good c L h : Prop :=
  exists v L', vw n h v /\ rep n v L' /\ L' ≡ₚ L /\
    (forall x, x ∈ L -> vU v x <= 0 /\ vK v x + vU v x = c x) /\
    (forall x, (x < n)%nat -> x ∉ L -> INT_MAX / 2 - B + c x <= vU v x).

Lemma good_ext c c' L h : (forall x, c x = c' x) -> good c L h -> good c' L h.
Proof.
  intros Hc (v & L' & Hv & Hr & HP & H1 & H2). exists v, L'. refine (conj Hv (conj Hr (conj HP (conj _ _)))).
  - intros x Hx. rewrite <- Hc. auto.
  - intros x Hx Hn. rewrite <- Hc. auto.
Qed.

(** Writing the pending update of [w]. *)
Lemma good_update v L' c L h w d : vw n h v -> rep n v L' -> L' ≡ₚ L -> (w < n)%nat ->
  (forall x, x ∈ L -> vU v x <= 0 /\ vK v x + vU v x = c x) ->
  (forall x, (x < n)%nat -> x ∉ L -> INT_MAX / 2 - B + c x <= vU v x) ->
  (w ∈ L -> vU v w + d <= 0) ->
  wp (put_update h (Z.of_nat w) (vU v w + d)) (good (fun x => c x + d * cnt [w] x) L).
Proof.
  intros Hv Hr HP Hw H1 H2 Hd. apply (wp_put_update Hv); [done|]. intros h' Hv'.
  eexists _, L'. split; [exact Hv'|]. split; [by destruct Hr; split|]. split; [done|].
  split; intros x Hx; simpl.
  - destruct (H1 x Hx) as [HU HK]. destruct (decide (w = x)) as [->|Hne].
    + rewrite fn_lookup_insert. split; [by apply Hd|lia].
    + rewrite fn_lookup_insert_ne by done. lia.
  - intros Hn. specialize (H2 x Hx Hn). destruct (decide (w = x)) as [->|Hne].
    + rewrite fn_lookup_insert. lia.
    + rewrite fn_lookup_insert_ne by done. lia.
Qed.

Lemma wp_drop_one c L h w : good c L h -> (w < n)%nat -> wp (drop_one h w) (good (fun x => c x - cnt [w] x) L).
Proof.
  intros (v & L' & Hv & Hr & HP & H1 & H2) Hw. unfold drop_one.
  rewrite <- vgetz_of_nat, (vgetz_update Hv) by done. cbn [bind]. replace (vU v w - 1) with (vU v w + -1) by lia.
  eapply wp_mono; [eapply good_update; try done|].
  - intros Hin. destruct (H1 w Hin). lia.
  - intros h'. apply good_ext. intros x. lia.
Qed.

Lemma wp_bump c L h w : good c L h -> (w < n)%nat -> (forall x, 0 <= c x) ->
  wp (bump h w) (good (fun x => c x + cnt [w] x) L).
Proof.
  intros (v & L' & Hv & Hr & HP & H1 & H2) Hw Hc. unfold bump.
  rewrite <- vgetz_of_nat, (vgetz_update Hv) by done. cbn [bind].
  destruct (Z.eqb_spec (vU v w) 0) as [H0|H0].
  - destruct (decide (w ∈ L)) as [Hin|Hn]; [|specialize (H2 w Hw Hn); specialize (Hc w); lia].
    assert (w ∈ L') as Hin' by (by rewrite HP). destruct (split_at_key n v L' w Hr Hin') as (A & H & B' & k & -> & Hk & HA & HH).
    apply (wp_IncrementKey Hv Hr Hk HA HH). intros h' v' Hv' Hr' HK' HU'.
    exists v', (A ++ w :: H ++ B'). split; [done|]. split; [done|]. split; [rewrite <- HP; by rewrite (Permutation_middle H B' w)|].
    rewrite HU', HK'. split; [|intros x Hx Hn; specialize (H2 x Hx Hn); simpl; rewrite decide_False by (by intros ->); lia].
    intros x Hx. destruct (H1 x Hx) as [HU HK]. simpl. destruct (decide (w = x)) as [->|Hne].
    + rewrite fn_lookup_insert. lia.
    + rewrite fn_lookup_insert_ne by done. lia.
  - eapply wp_mono; [eapply good_update; try done|].
    + intros Hin. destruct (H1 w Hin). lia.
    + intros h'. apply good_ext. intros x. lia.
Qed.

Lemma wp_bump_all c L h ws : good c L h -> (forall w, w ∈ ws -> (w < n)%nat) -> (forall x, 0 <= c x) ->
  wp (bump_all h ws) (good (fun x => c x + cnt ws x) L).
Proof.
  intros Hg Hws Hc. apply (wp_foldM _ (fun pre h => good (fun x => c x + cnt pre x) L h)).
  - eapply good_ext; [|exact Hg]. intros x. simpl. lia.
  - intros pre w post h' Hl Hg'. eapply wp_mono; [apply wp_bump; [exact Hg'|apply Hws; set_solver|]|].
    + intros x. pose proof (cnt_nonneg pre x). specialize (Hc x). lia.
    + intros h''. apply good_ext. intros x. rewrite cnt_app. lia.
  - done.
Qed.

Lemma wp_drop_all c L h ws : good c L h -> (forall w, w ∈ ws -> (w < n)%nat) ->
  wp (drop_all h ws) (good (fun x => c x - cnt ws x) L).
Proof.
  intros Hg Hws. apply (wp_foldM _ (fun pre h => good (fun x => c x - cnt pre x) L h)).
  - eapply good_ext; [|exact Hg]. intros x. simpl. lia.
  - intros pre w post h' Hl Hg'. eapply wp_mono; [apply wp_drop_one; [exact Hg'|apply Hws; set_solver]|].
    intros h''. apply good_ext. intros x. rewrite cnt_app. lia.
  - done.
Qed.

(** A vertex that leaves the heap is marked. *)
Lemma good_marked v L c t : (forall x, x ∈ t :: L -> vU v x <= 0 /\ vK v x + vU v x = c x) ->
  (forall x, (x < n)%nat -> x ∉ t :: L -> INT_MAX / 2 - B + c x <= vU v x) -> t ∉ L -> c t <= B ->
  let U' := <[t := INT_MAX / 2]> (vU v) in
  (forall x, x ∈ L -> U' x <= 0 /\ vK v x + U' x = c x) /\
  (forall x, (x < n)%nat -> x ∉ L -> INT_MAX / 2 - B + c x <= U' x).
Proof.
  intros H1 H2 Ht Hct U'. subst U'. split.
  - intros x Hx. rewrite fn_lookup_insert_ne by (by intros ->). apply H1. set_solver.
  - intros x Hx Hn. destruct (decide (t = x)) as [->|Hne]; [rewrite fn_lookup_insert; lia|].
    rewrite fn_lookup_insert_ne by done. apply H2; [done|set_solver].
Qed.

Lemma wp_extract {X} c L h (rest : UnitHeap -> Z -> M X) Q : good c L h -> L <> [] -> (forall x, x ∈ L -> 0 <= c x <= B) ->
  (forall t L' h', t :: L' ≡ₚ L -> good c L' h' -> wp (rest h' (Z.of_nat t)) Q) ->
  wp (let* (h, vz) := ExtractMax (neg_mass (update h)) h in
      let* h := put_update h vz (INT_MAX / 2) in rest h vz) Q.
Proof.
  intros (v & L0 & Hv & Hr & HP & H1 & H2) HL Hc HQ.
  assert (L0 <> []) as HL0 by (intros ->; by apply Permutation_nil_l in HP).
  assert (pending_ok v L0) as Hp.
  { intros x Hx. rewrite HP in Hx. destruct (H1 x Hx) as [? ->]. split; [done|]. by apply Hc. }
  apply wp_bind, (wp_ExtractMax n h v L0); [done..|]. intros h1 v1 t L1 HP1 Hv1 Hr1 [S1 S2].
  pose proof (r_nodup _ _ _ Hr) as Hnd. rewrite <- HP1 in Hnd. apply NoDup_cons in Hnd as [Ht _].
  assert (t < n)%nat as Htn by (apply (r_bound _ _ _ Hr); rewrite <- HP1; set_solver).
  apply wp_bind, (wp_put_update Hv1); [done|]. intros h2 Hv2. apply (HQ t L1 h2); [by rewrite HP1|].
  eexists _, L1. split; [exact Hv2|]. split; [by destruct Hr1; split|]. split; [done|].
  apply (good_marked v1 L1 c t); [| |done|apply Hc; rewrite <- HP, <- HP1; set_solver].
  - intros x Hx. rewrite HP1 in Hx. destruct (S1 x Hx) as [HU1 ->]. split; [done|]. apply H1. by rewrite <- HP.
  - intros x Hx Hn. rewrite HP1 in Hn. rewrite S2 by done. apply H2; [done|]. by rewrite <- HP.
Qed.

Lemma wp_retire {X} c L L1 h i (rest : UnitHeap -> M X) Q : good c L h -> L ≡ₚ i :: L1 -> c i <= B ->
  (forall h', good c L1 h' -> wp (rest h') Q) ->
  wp (let* h := put_update h (Z.of_nat i) (INT_MAX / 2) in let* h := DeleteElement h (Z.of_nat i) in rest h) Q.
Proof.
  intros (v & L0 & Hv & Hr & HP & H1 & H2) HL Hci HQ.
  assert (i ∈ L0) as Hi by (rewrite HP, HL; set_solver). assert (i < n)%nat as Hin by (by apply (r_bound _ _ _ Hr)).
  apply wp_bind, (wp_put_update Hv); [done|]. intros h1 Hv1.
  destruct (list_elem_of_split _ _ Hi) as (A & A' & ->). pose proof (r_nodup _ _ _ Hr) as Hnd.
  assert (A ++ A' ≡ₚ L1) as HP1.
  { apply (Permutation_cons_inv (a := i)). rewrite Permutation_middle, HP. done. }
  assert (rep n (setU v i (INT_MAX / 2)) (A ++ i :: A')) as Hr1 by (by destruct Hr; split).
  apply wp_bind, (wp_DeleteElement Hv1 Hr1). intros h2 v2 Hv2 Hr2 HK2 HU2. apply HQ.
  exists v2, (A ++ A'). split; [done|]. split; [done|]. split; [done|]. rewrite HK2, HU2.
  apply (good_marked v L1 c i); [intros x Hx; apply H1; by rewrite HL|intros x Hx Hn; apply H2; [done|by rewrite HL]| |done].
  rewrite HP, HL in Hnd. by apply NoDup_cons in Hnd as [? _].
Qed.

End heap.

(** ** Affinity *)

Lemma cnt_perm ws us x : ws ≡ₚ us -> cnt ws x = cnt us x.
Proof. induction 1; cbn [cnt]; lia. Qed.

Lemma bind_snoc {A C} (f : A -> list C) l a : (l ++ [a]) ≫= f = (l ≫= f) ++ f a.
Proof. rewrite bind_app. simpl. by rewrite app_nil_r. Qed.

(** Splitting the terms of a concatenation. *)
Lemma cnt_bind_split (P : nat -> Prop) `{!forall u, Decision (P u)} (f g k : nat -> list nat) us x :
  (forall u, u ∈ us -> cnt (f u) x = cnt (g u) x + (if decide (P u) then cnt (k u) x else 0)) ->
  cnt (us ≫= f) x = cnt (us ≫= g) x + cnt (filter P us ≫= k) x.
Proof.
  induction us as [|u us IH]; intros Hf; [done|]. rewrite filter_cons, !bind_cons, !cnt_app.
  rewrite (Hf u), IH by set_solver. destruct (decide (P u)); rewrite ?bind_cons, ?cnt_app; lia.
Qed.

Section graph.
Context {n : nat} (out_graph in_graph : list (list nat)) (hv : nat).

Record digraph : Prop := {
  g_outlen : length out_graph = n;
  g_inlen : length in_graph = n;
  g_out : forall u, (u < n)%nat -> NoDup (out_graph !!! u) /\ (forall w, w ∈ out_graph !!! u -> (w < n)%nat);
  g_in : forall v, (v < n)%nat -> NoDup (in_graph !!! v) /\ (forall u, u ∈ in_graph !!! v -> (u < n)%nat);
  g_rev : forall u v, (u < n)%nat -> (v < n)%nat -> u ∈ in_graph !!! v <-> v ∈ out_graph !!! u
}.

#[local] Abbreviation small := (small out_graph hv).
#[local] Abbreviation outdegree := (outdegree out_graph).

(** The siblings reached through [u], when it has more than one out-link. *)
Definition wide (u : nat) : list nat := if (1 <? outdegree u)%nat then out_graph !!! u else [].
Definition through (u : nat) : list nat := if small u then u :: wide u else [].
Definition outs (v : nat) : list nat := if small v then out_graph !!! v else [].

(** The vertices whose score rises when [v] enters the window. *)
Definition affinity (v : nat) : list nat := outs v ++ (in_graph !!! v ≫= through).

Lemma cnt_affinity v x : cnt (affinity v) x = cnt (outs v) x + cnt (in_graph !!! v ≫= through) x.
Proof. apply cnt_app. Qed.

(** The score of the vertices after [order]. *)
Definition window_of (order : list nat) : list nat := drop (length order - window) order.
Definition score (order : list nat) (x : nat) : Z := cnt (window_of order ≫= affinity) x.

Context (Hg : digraph).

Lemma outs_bound v w : (v < n)%nat -> w ∈ outs v -> (w < n)%nat.
Proof. unfold outs. destruct (small v); [|set_solver]. intros Hv. by apply (g_out Hg). Qed.

Lemma wide_bound u w : (u < n)%nat -> w ∈ wide u -> (w < n)%nat.
Proof. unfold wide. destruct (1 <? outdegree u)%nat; [|set_solver]. intros Hu. by apply (g_out Hg). Qed.

Lemma wide_cnt u x : (u < n)%nat -> cnt (wide u) x <= 1.
Proof.
  intros Hu. unfold wide. destruct (1 <? outdegree u)%nat; [|simpl; lia].
  rewrite cnt_NoDup by (by apply (g_out Hg)). destruct (decide _); lia.
Qed.

Lemma affinity_bound v x : (v < n)%nat -> cnt (affinity v) x <= Z.of_nat n + 2.
Proof.
  intros Hv. rewrite cnt_affinity.
  assert (cnt (outs v) x <= 1).
  { unfold outs. destruct (small v); [|simpl; lia]. rewrite cnt_NoDup by (by apply (g_out Hg)). destruct (decide _); lia. }
  destruct (g_in Hg v Hv) as [Hnd Hb].
  assert (forall us, (forall u, u ∈ us -> (u < n)%nat) -> cnt (us ≫= through) x <= cnt us x + Z.of_nat (length us)) as Hsum.
  { induction us as [|u us IH]; intros Hus; [simpl; lia|]. rewrite bind_cons, cnt_app. cbn [cnt length].
    specialize (IH ltac:(set_solver)). pose proof (wide_cnt u x ltac:(apply Hus; set_solver)).
    unfold through at 1. destruct (small u); cbn [cnt]; destruct (decide (u = x)); lia. }
  specialize (Hsum _ Hb). rewrite (cnt_NoDup (in_graph !!! v)) in Hsum by done.
  assert (length (in_graph !!! v) <= n)%nat.
  { rewrite <- (length_seq n 0). apply submseteq_length, NoDup_submseteq; [done|].
    intros u Hu%Hb. apply elem_of_seq. lia. }
  destruct (decide _); lia.
Qed.

Lemma score_bound order x : (forall v, v ∈ order -> (v < n)%nat) -> 0 <= score order x <= 5 * (Z.of_nat n + 2).
Proof.
  intros Ho. split; [apply cnt_nonneg|]. unfold score.
  assert (length (window_of order) <= 5)%nat as Hl by (unfold window_of, window; rewrite length_drop; lia).
  assert (forall v, v ∈ window_of order -> (v < n)%nat) as Hw.
  { intros v Hv. apply Ho. unfold window_of in Hv. rewrite <- (take_drop (length order - window) order). set_solver. }
  enough (cnt (window_of order ≫= affinity) x <= Z.of_nat (length (window_of order)) * (Z.of_nat n + 2)) by nia.
  clear Hl. induction (window_of order) as [|v l IH]; [simpl; lia|]. rewrite bind_cons, cnt_app. cbn [length].
  specialize (IH ltac:(set_solver)). pose proof (affinity_bound v x ltac:(apply Hw; set_solver)). lia.
Qed.

(** ** The updates of one round *)

Section round.
Context (B : Z) (HB : B < INT_MAX / 2).
Implicit Types (c : nat -> Z) (L : list nat) (h : UnitHeap) (pe : list bool).
#[local] Abbreviation good := (good (n := n) (B := B)).

Definition flags (f : nat -> bool) pe : Prop := length pe = n /\ forall u, (u < n)%nat -> pe !! u = Some (f u).

Lemma vget_in v : (v < n)%nat -> vget in_graph v = Ret (in_graph !!! v).
Proof. intros Hv. apply vget_Ret, list_lookup_lookup_total_lt. by rewrite (g_inlen Hg). Qed.

Lemma wp_outs_bump c L h v : good c L h -> (v < n)%nat -> (forall x, 0 <= c x) ->
  wp (if small v then bump_all h (out_graph !!! v) else Ret h) (good (fun x => c x + cnt (outs v) x) L).
Proof.
  intros Hh Hv Hc. unfold outs. destruct (small v) eqn:Es; cbn [wp].
  - apply (wp_bump_all HB); [done| |done]. intros w Hw. by eapply (g_out Hg).
  - eapply good_ext; [|exact Hh]. intros x. simpl. lia.
Qed.

Lemma wp_wide_bump c L h u : good c L h -> (u < n)%nat -> (forall x, 0 <= c x) ->
  wp (if (1 <? outdegree u)%nat then bump_all h (out_graph !!! u) else Ret h) (good (fun x => c x + cnt (wide u) x) L).
Proof.
  intros Hh Hu Hc. unfold wide. destruct (1 <? outdegree u)%nat; cbn [wp].
  - apply (wp_bump_all HB); [done| |done]. intros w Hw. by eapply (g_out Hg).
  - eapply good_ext; [|exact Hh]. intros x. simpl. lia.
Qed.

Lemma wp_enter_first c L h v : good c L h -> (v < n)%nat -> (forall x, 0 <= c x) ->
  wp (enter_first out_graph in_graph hv h v) (good (fun x => c x + cnt (affinity v) x) L).
Proof.
  intros Hh Hv Hc. unfold enter_first. rewrite vget_in by done. cbn [bind]. destruct (g_in Hg v Hv) as [_ Hin].
  apply wp_bind, (wp_foldM _ (fun pre h => good (fun x => c x + cnt (pre ≫= through) x) L h)).
  - eapply good_ext; [|exact Hh]. intros x. simpl. lia.
  - intros pre u post h1 Hl Hh1. assert (u < n)%nat as Hu by (apply Hin; rewrite Hl; set_solver).
    assert (forall x, 0 <= c x + cnt (pre ≫= through) x) as Hc1
      by (intros x; pose proof (cnt_nonneg (pre ≫= through) x); specialize (Hc x); lia).
    destruct (small u) eqn:Es; cbn [wp].
    + apply wp_bind. eapply wp_mono; [exact (wp_bump HB _ _ _ _ Hh1 Hu Hc1)|]. intros h2 Hh2.
      eapply wp_mono; [apply wp_wide_bump; [exact Hh2|done|]|].
      * intros x. pose proof (cnt_nonneg [u] x). specialize (Hc1 x). lia.
      * intros h3. apply good_ext. intros x. rewrite bind_snoc, cnt_app. unfold through at 3. rewrite Es. cbn [cnt]. lia.
    + eapply good_ext; [|exact Hh1]. intros x. rewrite bind_snoc, cnt_app. unfold through at 3. rewrite Es. cbn [cnt]. lia.
  - intros h1 Hh1. eapply wp_mono; [apply wp_outs_bump; [exact Hh1|done|]|].
    + intros x. pose proof (cnt_nonneg (in_graph !!! v ≫= through) x). specialize (Hc x). lia.
    + intros h2. apply good_ext. intros x. rewrite cnt_affinity. lia.
Qed.

(** Vertices whose siblings stay in the scores because [v] shares them. *)
Definition shared (v u : nat) : Prop := small u = true /\ (1 < outdegree u)%nat /\ v ∈ out_graph !!! u.
#[local] Instance shared_dec v u : Decision (shared v u).
Proof. unfold shared. apply _. Defined.

Definition leaving (v u : nat) : list nat :=
  if small u then u :: (if decide (shared v u) then [] else wide u) else [].

Lemma leaving_step c L h pe pre v u : good (fun x => c x - cnt (pre ≫= leaving v) x) L h ->
  flags (fun w => bool_decide (w ∈ filter (shared v) pre)) pe -> (u < n)%nat ->
  wp (if small u then
        let* h := drop_one h u in
        if (1 <? outdegree u)%nat then
          if bool_decide (v ∈ out_graph !!! u) then let* pe := vset pe u true in Ret (h, pe)
          else let* h := drop_all h (out_graph !!! u) in Ret (h, pe)
        else Ret (h, pe)
      else Ret (h, pe))
    (fun '(h, pe) => good (fun x => c x - cnt ((pre ++ [u]) ≫= leaving v) x) L h /\
       flags (fun w => bool_decide (w ∈ filter (shared v) (pre ++ [u]))) pe).
Proof.
  intros Hh [Hlen Hpe] Hu.
  assert (~ shared v u -> flags (fun w => bool_decide (w ∈ filter (shared v) (pre ++ [u]))) pe) as Hkeep.
  { intros Hn. split; [done|]. intros w Hw. rewrite filter_app, filter_cons_False, filter_nil, app_nil_r by done. auto. }
  assert (forall h', (forall x, cnt (leaving v u) x = 0) -> good (fun x => c x - cnt (pre ≫= leaving v) x) L h' ->
    good (fun x => c x - cnt ((pre ++ [u]) ≫= leaving v) x) L h') as Hnone.
  { intros h' H0. apply good_ext. intros x. rewrite bind_snoc, cnt_app, H0. lia. }
  destruct (small u) eqn:Es; cbn [wp].
  - apply wp_bind. eapply wp_mono; [exact (wp_drop_one _ _ _ _ Hh Hu)|]. intros h1 Hh1.
    destruct (Nat.ltb_spec 1 (outdegree u)) as [Ho|Ho].
    + case_bool_decide as Hv.
      * assert (shared v u) as Hsh by (exact (conj Es (conj Ho Hv))). apply wp_bind, wp_vset; [by rewrite Hlen|]. cbn [wp]. split.
        -- eapply good_ext; [|exact Hh1]. intros x. rewrite bind_snoc, cnt_app. unfold leaving at 3.
           rewrite Es, decide_True by done. cbn [cnt]. lia.
        -- split; [by rewrite length_insert|]. intros w Hw. rewrite filter_app, filter_cons_True, filter_nil by done.
           destruct (decide (u = w)) as [->|Hne].
           ++ rewrite list_lookup_insert_eq by lia. by rewrite bool_decide_true by set_solver.
           ++ rewrite list_lookup_insert_ne, Hpe by done. f_equal. apply bool_decide_ext. set_solver.
      * assert (~ shared v u) as Hsh by (by intros (_ & _ & ?)). apply wp_bind.
        eapply wp_mono; [exact (wp_drop_all HB _ _ _ _ Hh1 (proj2 (g_out Hg u Hu)))|].
        intros h2 Hh2. cbn [wp]. split; [|auto]. eapply good_ext; [|exact Hh2]. intros x.
        rewrite bind_snoc, cnt_app. unfold leaving at 3. rewrite Es, decide_False by done. unfold wide.
        rewrite (proj2 (Nat.ltb_lt _ _)) by done. cbn [cnt]. lia.
    + cbn [wp]. assert (~ shared v u) as Hsh by (intros (_ & ? & _); lia). split; [|auto].
      eapply good_ext; [|exact Hh1]. intros x. rewrite bind_snoc, cnt_app. unfold leaving at 3.
      rewrite Es, decide_False by done. unfold wide. rewrite (proj2 (Nat.ltb_ge _ _)) by done. cbn [cnt]. lia.
  - split; [|apply Hkeep; intros (? & _); congruence]. apply Hnone; [|done]. intros x. unfold leaving. by rewrite Es.
Qed.

Lemma wp_leave c L h pe popv v : good c L h -> flags (fun _ => false) pe -> (popv < n)%nat ->
  wp (leave out_graph in_graph hv h pe popv v) (fun '(h, pe) =>
    good (fun x => c x - cnt (outs popv) x - cnt (in_graph !!! popv ≫= leaving v) x) L h /\
    flags (fun w => bool_decide (w ∈ filter (shared v) (in_graph !!! popv))) pe).
Proof.
  intros Hh Hpe Hp. unfold leave. apply wp_bind.
  assert (wp (if small popv then drop_all h (out_graph !!! popv) else Ret h) (good (fun x => c x - cnt (outs popv) x) L)) as Ho.
  { unfold outs. destruct (small popv); cbn [wp].
    - exact (wp_drop_all HB _ _ _ _ Hh (proj2 (g_out Hg popv Hp))).
    - eapply good_ext; [|exact Hh]. intros x. simpl. lia. }
  eapply wp_mono; [exact Ho|]. intros h1 Hh1. rewrite vget_in by done. cbn [bind].
  destruct (g_in Hg popv Hp) as [_ Hin].
  apply (wp_foldM _ (fun pre '(h, pe) => good (fun x => c x - cnt (outs popv) x - cnt (pre ≫= leaving v) x) L h /\
    flags (fun w => bool_decide (w ∈ filter (shared v) pre)) pe)).
  - split; [|done]. eapply good_ext; [|exact Hh1]. intros x. simpl. lia.
  - intros pre u post [h2 pe2] Hl [Hh2 Hpe2]. apply (leaving_step (fun x => c x - cnt (outs popv) x)); [done|done|].
    apply Hin. rewrite Hl. set_solver.
  - done.
Qed.

Definition entering (f : nat -> bool) (u : nat) : list nat :=
  if small u then u :: (if f u then [] else wide u) else [].

Lemma entering_step c L h pe pre u (f : nat -> bool) : good (fun x => c x + cnt (pre ≫= entering f) x) L h ->
  (forall x, 0 <= c x) -> flags (fun w => f w && bool_decide (w ∉ pre)) pe -> (u < n)%nat -> u ∉ pre ->
  (forall w, f w = true -> small w = true) ->
  wp (if small u then
        let* h := bump h u in
        let* p := vget pe u in
        if negb p then
          let* h := if (1 <? outdegree u)%nat then bump_all h (out_graph !!! u) else Ret h in Ret (h, pe)
        else let* pe := vset pe u false in Ret (h, pe)
      else Ret (h, pe))
    (fun '(h, pe) => good (fun x => c x + cnt ((pre ++ [u]) ≫= entering f) x) L h /\
       flags (fun w => f w && bool_decide (w ∉ pre ++ [u])) pe).
Proof.
  intros Hh Hc [Hlen Hpe] Hu Hn Hf.
  assert (forall x, 0 <= c x + cnt (pre ≫= entering f) x) as Hc1
    by (intros x; pose proof (cnt_nonneg (pre ≫= entering f) x); specialize (Hc x); lia).
  assert (forall w, w <> u -> bool_decide (w ∉ pre ++ [u]) = bool_decide (w ∉ pre)) as Hw
    by (intros w Hw; apply bool_decide_ext; set_solver).
  assert (f u = false -> flags (fun w => f w && bool_decide (w ∉ pre ++ [u])) pe) as Hkeep.
  { intros Hfu. split; [done|]. intros w Hwn. rewrite Hpe by done. destruct (decide (w = u)) as [->|]; [by rewrite Hfu|].
    by rewrite Hw. }
  destruct (small u) eqn:Es; cbn [wp].
  - apply wp_bind. eapply wp_mono; [exact (wp_bump HB _ _ _ _ Hh Hu Hc1)|]. intros h1 Hh1.
    rewrite (proj2 (vget_Ret pe u _) (Hpe u Hu)), bool_decide_true, andb_true_r by done. cbn [bind].
    destruct (f u) eqn:Ef; cbn [negb].
    + apply wp_bind, wp_vset; [by rewrite Hlen|]. cbn [wp]. split.
      * eapply good_ext; [|exact Hh1]. intros x. rewrite bind_snoc, cnt_app. unfold entering at 3. rewrite Es, Ef. cbn [cnt]. lia.
      * split; [by rewrite length_insert|]. intros w Hwn. destruct (decide (u = w)) as [<-|Hne].
        -- rewrite list_lookup_insert_eq by lia. by rewrite (bool_decide_false (u ∉ _)), andb_false_r by set_solver.
        -- rewrite list_lookup_insert_ne, Hpe by done. by rewrite Hw.
    + apply wp_bind. eapply wp_mono; [apply wp_wide_bump; [exact Hh1|done|]|].
      * intros x. pose proof (cnt_nonneg [u] x). specialize (Hc1 x). lia.
      * intros h2 Hh2. cbn [wp]. split; [|auto]. eapply good_ext; [|exact Hh2]. intros x.
        rewrite bind_snoc, cnt_app. unfold entering at 3. rewrite Es, Ef. cbn [cnt]. lia.
  - split.
    + eapply good_ext; [|exact Hh]. intros x. rewrite bind_snoc, cnt_app. unfold entering at 3. rewrite Es. cbn [cnt]. lia.
    + apply Hkeep. destruct (f u) eqn:Ef; [|done]. apply Hf in Ef. congruence.
Qed.

Lemma wp_enter c L h pe v (f : nat -> bool) : good c L h -> (forall x, 0 <= c x) -> flags f pe -> (v < n)%nat ->
  (forall w, f w = true -> small w = true /\ w ∈ in_graph !!! v) ->
  wp (enter out_graph in_graph hv h pe v) (fun '(h, pe) =>
    good (fun x => c x + cnt (outs v) x + cnt (in_graph !!! v ≫= entering f) x) L h /\ flags (fun _ => false) pe).
Proof.
  intros Hh Hc [Hlen Hpe] Hv Hf. unfold enter. apply wp_bind.
  eapply wp_mono; [by apply wp_outs_bump|]. intros h1 Hh1. rewrite vget_in by done. cbn [bind].
  destruct (g_in Hg v Hv) as [Hnd Hin].
  apply (wp_foldM _ (fun pre '(h, pe) => good (fun x => c x + cnt (outs v) x + cnt (pre ≫= entering f) x) L h /\
    flags (fun w => f w && bool_decide (w ∉ pre)) pe)).
  - split.
    + eapply good_ext; [|exact Hh1]. intros x. simpl. lia.
    + split; [done|]. intros w Hw. rewrite bool_decide_true, andb_true_r by set_solver. auto.
  - intros pre u post [h2 pe2] Hl [Hh2 Hpe2]. apply (entering_step (fun x => c x + cnt (outs v) x)); try done.
    + intros x. pose proof (cnt_nonneg (outs v) x). specialize (Hc x). lia.
    + apply Hin. rewrite Hl. set_solver.
    + rewrite Hl in Hnd. apply NoDup_app in Hnd as (_ & Hd & _). intros Hp. apply (Hd u Hp). set_solver.
    + intros w Hw. by apply Hf.
  - intros [h2 pe2] [Hh2 [Hl2 Hpe2]]. split; [done|]. split; [done|]. intros w Hw. rewrite Hpe2 by done.
    destruct (f w) eqn:Ef; [|done]. by rewrite bool_decide_false by (apply Hf in Ef as [_ ?]; set_solver).
Qed.

Lemma through_split v us x : cnt (us ≫= through) x = cnt (us ≫= leaving v) x + cnt (filter (shared v) us ≫= wide) x.
Proof.
  apply cnt_bind_split. intros u _. unfold through, leaving. destruct (small u) eqn:Es; cbn [cnt].
  - destruct (decide (shared v u)); cbn [cnt]; lia.
  - rewrite decide_False; [done|]. intros (? & _). congruence.
Qed.

(** What [leave] keeps is what [enter] does not add again. *)
Lemma kept_is_skipped popv v x : (popv < n)%nat -> (v < n)%nat ->
  let f w := bool_decide (w ∈ filter (shared v) (in_graph !!! popv)) in
  - cnt (in_graph !!! popv ≫= leaving v) x + cnt (in_graph !!! v ≫= entering f) x =
  - cnt (in_graph !!! popv ≫= through) x + cnt (in_graph !!! v ≫= through) x.
Proof.
  intros Hp Hv f. destruct (g_in Hg popv Hp) as [Hndp Hbp]. destruct (g_in Hg v Hv) as [Hndv Hbv].
  rewrite (through_split v (in_graph !!! popv)).
  rewrite (cnt_bind_split (fun u => f u = true) through (entering f) wide (in_graph !!! v) x).
  2: { intros u _. unfold through, entering. destruct (small u) eqn:Es; cbn [cnt].
       - destruct (decide (f u = true)) as [->|Hfu]; [cbn [cnt]; lia|]. destruct (f u); [done|lia].
       - rewrite decide_False; [done|]. subst f. cbn beta. rewrite bool_decide_eq_true, list_elem_of_filter.
         intros [(? & _) _]. congruence. }
  enough (cnt (filter (shared v) (in_graph !!! popv) ≫= wide) x = cnt (filter (fun u => f u = true) (in_graph !!! v) ≫= wide) x) by lia.
  apply cnt_perm, bind_Permutation, NoDup_Permutation; [by apply NoDup_filter..|].
  intros u. subst f. cbn beta. rewrite !list_elem_of_filter, bool_decide_eq_true, list_elem_of_filter. split; [|tauto].
  intros [Hsh Hin]. split; [done|]. destruct Hsh as (_ & _ & Hvu). apply (g_rev Hg); auto.
Qed.

Lemma window_short order t : (length order < window)%nat -> window_of (order ++ [t]) = window_of order ++ [t].
Proof.
  intros H. unfold window_of. rewrite length_app. simpl. unfold window in *.
  by replace (length order + 1 - 5)%nat with 0%nat by lia; replace (length order - 5)%nat with 0%nat by lia.
Qed.

Lemma window_full order t : (window <= length order)%nat -> exists popv tl,
  (order ++ [t]) !! (length order - window)%nat = Some popv /\ popv ∈ order /\ (forall u, u ∈ tl -> u ∈ order) /\
  window_of order = popv :: tl /\ window_of (order ++ [t]) = tl ++ [t].
Proof.
  intros H. unfold window_of, window in *. rewrite length_app. simpl.
  destruct (lookup_lt_is_Some_2 order (length order - 5) ltac:(lia)) as [popv Hp].
  exists popv, (drop (S (length order - 5)) order). split_and!.
  - by rewrite lookup_app_l by lia.
  - by eapply list_elem_of_lookup_2.
  - intros u Hu. rewrite <- (take_drop (S (length order - 5)) order). set_solver.
  - by apply drop_S.
  - replace (length order + 1 - 5)%nat with (S (length order - 5)) by lia. by rewrite drop_app_le by lia.
Qed.

Lemma wp_round L h pe order : B = 5 * (Z.of_nat n + 2) -> good (score order) L h -> flags (fun _ => false) pe ->
  (forall v, v ∈ order -> (v < n)%nat) -> L <> [] -> (forall v, v ∈ L -> (v < n)%nat) ->
  wp (gorder_round out_graph in_graph hv (h, pe, order)) (fun '(h', pe', order') =>
    exists t L', t :: L' ≡ₚ L /\ order' = order ++ [t] /\ good (score order') L' h' /\ flags (fun _ => false) pe').
Proof.
  intros HBn Hh Hpe Ho HL HLb.
  refine (wp_extract HB (score order) L h (fun h vz => _) _ Hh HL _ _).
  { intros x _. rewrite HBn. by apply score_bound. }
  intros t L' h1 HP Hh1. rewrite Nat2Z.id. assert (t < n)%nat as Ht by (apply HLb; rewrite <- HP; set_solver).
  destruct (Nat.leb_spec window (length order)) as [Hfull|Hshort].
  - destruct (window_full order t Hfull) as (popv & tl & Hget & Hpo & Htl & Hw & Hw').
    rewrite (proj2 (vget_Ret _ _ _) Hget). cbn [bind]. assert (popv < n)%nat as Hpn by auto.
    apply wp_bind. eapply wp_mono; [by apply wp_leave|]. intros [h2 pe2] [Hh2 Hpe2].
    apply wp_bind. eapply wp_mono; [eapply wp_enter; [exact Hh2| |exact Hpe2|done|]|].
    + intros x. unfold score. rewrite Hw, bind_cons, cnt_app, cnt_affinity, (through_split t).
      pose proof (cnt_nonneg (tl ≫= affinity) x). pose proof (cnt_nonneg (filter (shared t) (in_graph !!! popv) ≫= wide) x). lia.
    + intros w Hwf. cbn beta in Hwf. apply bool_decide_eq_true, list_elem_of_filter in Hwf as [(Hs & _ & Hin) Hwp].
      split; [done|]. apply (g_rev Hg); [by eapply (g_in Hg)|done|done].
    + intros [h3 pe3] [Hh3 Hpe3]. cbn [wp]. exists t, L'. split_and!; try done.
      eapply good_ext; [|exact Hh3]. intros x. cbn beta. pose proof (kept_is_skipped popv t x Hpn Ht) as Hks.
      unfold score. rewrite Hw, Hw', bind_cons, bind_snoc, !cnt_app. rewrite !cnt_affinity. cbv zeta in Hks. lia.
  - cbn [bind]. apply wp_bind. eapply wp_mono; [eapply (wp_enter _ _ _ _ _ (fun _ => false)); [exact Hh1| |exact Hpe|done|done]|].
    + intros x. apply cnt_nonneg.
    + intros [h3 pe3] [Hh3 Hpe3]. cbn [wp]. exists t, L'. split_and!; try done.
      eapply good_ext; [|exact Hh3]. intros x. cbn beta. unfold score. rewrite window_short, bind_snoc, cnt_app by done.
      rewrite cnt_affinity. unfold entering, through. lia.
Qed.

End round.
End graph.
