(* ===== verification/GorderPerm.v ===== *)
(** * generateGorderPermutation returns a permutation

    On a well-formed table whose level-0 lists have no repetitions, and for
    fewer nodes than fit between the marks that the walk puts on placed
    vertices, the whole computation is defined, terminates and places every
    node exactly once. *)

From S2P Require Import Prelude HnswGraph LayoutGorder UnitHeapSpec UnitHeapOps UnitHeapBuild UnitHeapRefine GorderWalk.

(** ** The directed graph *)

Section directed.
Context (hn : HNSW.t) (n : nat) (Hwf : HNSW.wf hn n).

Definition simple_level0 : Prop := forall i, i < n -> NoDup (HNSW.links hn i 0).

Context (Hs : simple_level0).

(** The graphs while the links [pre] of node [i] have been added. *)
Definition adding (i : nat) (pre : list nat) (st : list (list nat) * list (list nat)) : Prop :=
  let '(og, ig) := st in
  length og = n /\ length ig = n /\
  (forall j, j < i -> og !!! j ≡ₚ HNSW.links hn j 0) /\ (i < n -> og !!! i = pre) /\ (forall j, i < j < n -> og !!! j = []) /\
  (forall v, v < n -> NoDup (ig !!! v)) /\
  (forall u v, v < n -> u ∈ ig !!! v <-> (u < i /\ v ∈ HNSW.links hn u 0) \/ (u = i /\ v ∈ pre)).

Lemma adding_next i : i < n -> forall og ig, adding i (HNSW.links hn i 0) (og, ig) ->
  adding (i + 1) [] (<[i := merge_sort le (og !!! i)]> og, ig).
Proof.
  intros Hi og ig (Hlo & Hli & H1 & H2 & H3 & H4 & H5). unfold adding. rewrite length_insert. split_and!; try done.
  - intros j Hj. destruct (decide (i = j)) as [<-|Hne].
    + rewrite list_lookup_total_insert_eq by lia. by rewrite merge_sort_Permutation, H2.
    + rewrite list_lookup_total_insert_ne by done. apply H1. lia.
  - intros Hi1. rewrite list_lookup_total_insert_ne by lia. apply H3. lia.
  - intros j Hj. rewrite list_lookup_total_insert_ne by lia. apply H3. lia.
  - intros u v Hv. rewrite H5 by done. split.
    + intros [[? ?]|[-> ?]]; left; (split; [lia|done]).
    + intros [[Hu Hin]|[_ []%not_elem_of_nil]]. destruct (decide (u = i)) as [->|]; [by right|]. left. split; [lia|done].
Qed.

Lemma adding_link i pre a og ig : i < n -> a < n -> a ∉ pre -> adding i pre (og, ig) ->
  adding i (pre ++ [a]) (<[i := og !!! i ++ [a]]> og, <[a := ig !!! a ++ [i]]> ig).
Proof.
  intros Hi Ha Hna (Hlo & Hli & H1 & H2 & H3 & H4 & H5). unfold adding. rewrite !length_insert. split_and!; try done.
  - intros j Hj. rewrite list_lookup_total_insert_ne by lia. auto.
  - intros _. rewrite list_lookup_total_insert_eq by lia. by rewrite H2.
  - intros j Hj. rewrite list_lookup_total_insert_ne by lia. auto.
  - intros v Hv. destruct (decide (a = v)) as [<-|Hne].
    + rewrite list_lookup_total_insert_eq by lia. apply NoDup_app. split_and!; [auto| |apply NoDup_singleton].
      intros u Hu Hu'%list_elem_of_singleton. subst u. apply H5 in Hu as [[? _]|[_ ?]]; [lia|done|done].
    + rewrite list_lookup_total_insert_ne by done. auto.
  - intros u v Hv. destruct (decide (a = v)) as [<-|Hne].
    + rewrite list_lookup_total_insert_eq by lia. rewrite elem_of_app, list_elem_of_singleton, H5 by done. set_solver.
    + rewrite list_lookup_total_insert_ne, H5 by done. set_solver.
Qed.

Lemma build_directed_ok : wp (build_directed hn n) (fun '(og, ig) =>
  digraph (n := n) og ig /\ forall u, u < n -> og !!! u ≡ₚ HNSW.links hn u 0).
Proof.
  unfold build_directed. apply (wp_for _ (fun i st => adding i [] st)).
  - unfold adding. rewrite !length_replicate. split_and!; try done; try lia.
    + intros H. by rewrite lookup_total_replicate_2.
    + intros j Hj. rewrite lookup_total_replicate_2 by lia. done.
    + intros v Hv. rewrite lookup_total_replicate_2 by done. apply NoDup_nil_2.
    + intros u v Hv. rewrite lookup_total_replicate_2 by done. set_solver by lia.
  - intros i [og ig] Hi Hadd. rewrite (HNSW.for_neighbors_links0 hn n) by (done || lia). apply wp_bind.
    apply (wp_foldM _ (fun pre st => adding i pre st)).
    + done.
    + intros pre a post [og1 ig1] Hl Hadd1.
      assert (a < n) as Ha by (eapply (HNSW.links_bound hn n i 0); [done|]; rewrite Hl; set_solver).
      assert (a ∉ pre) as Hna.
      { pose proof (Hs i ltac:(lia)) as Hnd. rewrite Hl in Hnd. apply NoDup_app in Hnd as (_ & Hd & _). intros Hp.
        apply (Hd a Hp). set_solver. }
      pose proof Hadd1 as (Hlo & Hli & _).
      apply wp_bind, wp_vget; [lia|]. intros o <-%list_lookup_total_correct. apply wp_bind, wp_vset; [lia|].
      apply wp_bind, wp_vget; [lia|]. intros o <-%list_lookup_total_correct. apply wp_bind, wp_vset; [lia|]. cbn [wp].
      apply adding_link; [lia|done|done|done].
    + intros [og1 ig1] Hadd1. pose proof Hadd1 as (Hlo & Hli & _).
      apply wp_bind, wp_vget; [lia|]. intros o <-%list_lookup_total_correct. apply wp_bind, wp_vset; [lia|]. cbn [wp].
      apply adding_next; [lia|done].
  - rewrite Nat.add_0_l. intros [og ig] (Hlo & Hli & H1 & _ & _ & H4 & H5). split; [|done].
    assert (forall u v, v < n -> u ∈ ig !!! v -> u < n) as Hb.
    { intros u v Hv Hu. apply H5 in Hu as [[? _]|[_ []%not_elem_of_nil]]; done. }
    split; [done|done| | |].
    + intros u Hu. rewrite H1 by done. split; [by apply Hs|]. intros w Hw. rewrite H1 in Hw by done. by eapply HNSW.links_bound.
    + intros v Hv. split; [auto|]. intros u Hu. by eapply Hb.
    + intros u v Hu Hv. rewrite H5, H1 by done. set_solver.
Qed.

End directed.

#[local] Open Scope Z_scope.

(** ** The heap before the walk *)

Section start.
Context `{HSS : !StdSort} {n : nat}.

Lemma unit_heap_view : (0 < n)%nat -> exists v, vw n (unit_heap n) v.
Proof.
  intros Hn. unfold unit_heap. rewrite (proj2 (Nat.eqb_neq n 0)) by lia. set (hd := _ :: replicate _ _).
  set (ll := _ <$> seq 0 n). assert (length ll = n) as Hl by (subst ll; by rewrite length_fmap, length_seq).
  exists (mkView (fun x => key (ll !!! x)) (fun x => prev (ll !!! x)) (fun x => next (ll !!! x)) (fun _ => 0)
    (fun k => first (default no_head (hd !! k))) (fun k => second (default no_head (hd !! k))) (length hd) 0).
  split; simpl; try done; [by rewrite length_replicate| | |].
  - intros x Hx. rewrite (list_lookup_lookup_total_lt ll) by lia. by destruct (ll !!! x).
  - intros x Hx. by rewrite lookup_replicate_2.
  - intros k Hk. destruct (hd !! k) as [[a b]|] eqn:E; [done|]. apply lookup_ge_None in E. simpl in *. lia.
Qed.

Definition init_heap (indegree : list nat) : M UnitHeap :=
  foldM (fun h i =>
      let* ind := vget indegree i in
      let* h := put_key h (Z.of_nat i) (Z.of_nat ind) in
      put_update h (Z.of_nat i) (- Z.of_nat ind)) (unit_heap n) (seq 0 n).

Lemma init_heap_ok indegree : (0 < n)%nat -> length indegree = n ->
  wp (init_heap indegree) (fun h => exists v, vw n h v /\
    forall x, (x < n)%nat -> vK v x = Z.of_nat (indegree !!! x) /\ vU v x = - Z.of_nat (indegree !!! x)).
Proof.
  intros Hn Hl. destruct (unit_heap_view Hn) as [v0 Hv0].
  apply (wp_for _ (fun i h => exists v, vw n h v /\
    forall x, (x < i)%nat -> vK v x = Z.of_nat (indegree !!! x) /\ vU v x = - Z.of_nat (indegree !!! x))).
  - exists v0. split; [done|lia].
  - intros i h Hi (v & Hv & Hx). apply wp_bind, wp_vget; [lia|]. intros d <-%list_lookup_total_correct.
    apply wp_bind, (wp_put_key Hv); [lia|]. intros h1 Hv1. apply (wp_put_update Hv1); [lia|]. intros h2 Hv2.
    eexists. split; [exact Hv2|]. intros x Hxi. simpl. destruct (decide (i = x)) as [<-|Hne].
    + by rewrite !fn_lookup_insert.
    + rewrite !fn_lookup_insert_ne by done. apply Hx. lia.
  - done.
Qed.

Lemma indegree_ok (og : list (list nat)) : (forall u w, w ∈ og !!! u -> (w < n)%nat) ->
  wp (foldM (fun indegree i =>
        foldM (fun indegree v => let* c := vget indegree v in vset indegree v (c + 1)%nat) indegree (og !!! i))
      (replicate n 0%nat) (seq 0 n)) (fun indegree => length indegree = n).
Proof.
  intros Hog. apply (wp_foldM_simple _ (fun d => length d = n)); [apply length_replicate| |done].
  intros i d _ Hd. apply (wp_foldM_simple _ (fun d => length d = n)); [done| |done].
  intros w d1 Hw Hd1. pose proof (Hog i w Hw). apply wp_bind, wp_vget; [lia|]. intros c _.
  apply wp_vset; [lia|]. by rewrite length_insert.
Qed.

Context (B : Z) (HB : B < INT_MAX / 2) (HB0 : 0 <= B).
#[local] Abbreviation good := (good (n := n) (B := B)).

(** Keys are in-degrees, cancelled by the pending updates: every score is zero. *)
Lemma reconstruct_good (indegree : list nat) h v : (2 <= n)%nat -> vw n h v ->
  (forall x, (x < n)%nat -> vK v x = Z.of_nat (indegree !!! x) /\ vU v x = - Z.of_nat (indegree !!! x)) ->
  wp (ReConstruct h) (good (fun _ => 0) (seq 0 n)).
Proof.
  intros Hn Hv Hx. apply (wp_ReConstruct (n := n) h v); [done|done| |].
  - intros x Hxn. destruct (Hx x Hxn) as [-> _]. lia.
  - intros h' v' T HT Hv' Hr' HK HU. exists v', T. refine (conj Hv' (conj Hr' (conj HT (conj _ _)))); rewrite HU, ?HK.
    + intros x Hxs%elem_of_seq. destruct (Hx x ltac:(lia)) as [-> ->]. lia.
    + intros x Hxn Hn'. exfalso. apply Hn', elem_of_seq. lia.
Qed.

Lemma pick_start_ok og indegree h : (0 < n)%nat -> length indegree = n -> good (fun _ => 0) (seq 0 n) h ->
  wp (pick_start og indegree n h) (fun '(h', t, _, zero) =>
    exists L, good (fun _ => 0) (t :: L) h' /\ zero ++ t :: L ≡ₚ seq 0 n).
Proof.
  intros Hn Hl Hg.
  apply (wp_for _ (fun i '(h, t, w, zero) => (w = -1 <-> i = 0%nat) /\ (i = 0%nat \/ (t < i)%nat /\ t ∉ zero) /\ -1 <= w /\
    (forall x, x ∈ zero -> (x < i)%nat) /\ exists L, good (fun _ => 0) L h /\ zero ++ L ≡ₚ seq 0 n)).
  - split_and!; [done|by left|done|set_solver|]. by exists (seq 0 n).
  - intros i [[[h1 t] w] zero] Hi (Hw & Ht & Hw1 & Hz & L & Hg1 & HP).
    apply wp_bind, wp_vget; [lia|]. intros d _. destruct (Z.ltb_spec w (Z.of_nat d)) as [Hlt|Hge]; cbn [wp].
    { split_and!; [lia| |lia| |by exists L].
      - right. split; [lia|]. intros Hin%Hz. lia.
      - intros x Hx%Hz. lia. }
    assert (i <> 0)%nat as Hi0 by (intros Hi0; apply Hw in Hi0; lia). destruct Ht as [?|[Hti Htz]]; [done|].
    destruct (_ =? 0)%nat; cbn [wp].
    + assert (i ∈ L) as HiL.
      { assert (i ∈ zero ++ L) as Hin by (rewrite HP; apply elem_of_seq; lia).
        apply elem_of_app in Hin as [Hin%Hz|]; [lia|done]. }
      destruct (list_elem_of_split _ _ HiL) as (A & A' & HL).
      assert (L ≡ₚ i :: (A ++ A')) as HL' by (rewrite HL; by rewrite <- Permutation_middle).
      apply (wp_retire HB (fun _ => 0) L (A ++ A') h1 i _ _ Hg1 HL' HB0). intros h2 Hg2. cbn [wp].
      split_and!; [lia| |lia| |].
      * right. split; [lia|]. intros [?|?%list_elem_of_singleton]%elem_of_app; [done|lia].
      * intros x [Hx%Hz|Hx%list_elem_of_singleton]%elem_of_app; lia.
      * exists (A ++ A'). split; [done|]. rewrite <- app_assoc. cbn [app]. by rewrite <- HL', HP.
    + split_and!; [lia|right; split; [lia|done]|lia|intros x Hx%Hz; lia|by exists L].
  - intros [[[h1 t] w] zero] (_ & Ht & _ & _ & L & Hg1 & HP). destruct Ht as [?|[Htn Htz]]; [lia|].
    assert (t ∈ L) as HtL.
    { assert (t ∈ zero ++ L) as Hin by (rewrite HP; apply elem_of_seq; lia). by apply elem_of_app in Hin as [|]. }
    destruct (list_elem_of_split _ _ HtL) as (A & A' & ->). exists (A ++ A').
    assert (A ++ t :: A' ≡ₚ t :: (A ++ A')) as HL' by (by rewrite <- Permutation_middle).
    split; [|by rewrite <- HL'].
    destruct Hg1 as (v & L' & Hv & Hr & HPL & H1 & H2). exists v, L'.
    refine (conj Hv (conj Hr (conj _ (conj _ _)))); [by rewrite HPL|intros x Hx; apply H1; by rewrite HL'|].
    intros x Hx Hn'. apply H2; [done|]. by rewrite HL'.
Qed.

End start.

(** ** The whole order *)

(** The number of nodes for which the marks of placed vertices are out of reach. *)
Definition gorder_capacity : Z := 214748362.

Section walk.
Context {n : nat} (og ig : list (list nat)) (hv : nat) (Hg : digraph (n := n) og ig).
Let B : Z := 5 * (Z.of_nat n + 2).
Context (HB : B < INT_MAX / 2).

(** The state of the walk: [order] is placed, [L] is in the heap, and the total
    of key and pending update of every vertex of [L] is its affinity to the
    last vertices of [order]. *)
Definition walk_state (order L : list nat) (st : UnitHeap * list bool * list nat) : Prop :=
  let '(h, pe, o) := st in
  o = order /\ good (n := n) (B := B) (score og ig hv order) L h /\ flags (n := n) (fun _ => false) pe /\
  NoDup (order ++ L) /\ (forall v, v ∈ order ++ L -> (v < n)%nat).

(** The first vertex. *)
Lemma walk_starts h t L : good (n := n) (B := B) (fun _ => 0) (t :: L) h -> NoDup (t :: L) ->
  (forall v, v ∈ t :: L -> (v < n)%nat) ->
  wp (let* h := put_update h (Z.of_nat t) (INT_MAX / 2) in
      let* h := DeleteElement h (Z.of_nat t) in enter_first og ig hv h t)
    (fun h' => walk_state [t] L (h', replicate n false, [t])).
Proof.
  intros Hh Hnd Hb.
  refine (wp_retire HB (fun _ => 0) (t :: L) L h t _ _ Hh (Permutation_refl _) _ _); [subst B; lia|]. intros h3 Hh3.
  eapply wp_mono; [eapply (wp_enter_first og ig hv Hg _ HB); [exact Hh3|apply Hb; by left|done]|]. intros h4 Hh4.
  split; [done|]. split; [|split; [|done]].
  - eapply good_ext; [|exact Hh4]. intros x. unfold score, window_of. simpl. by rewrite app_nil_r.
  - split; [apply length_replicate|]. intros u Hu. by apply lookup_replicate_2.
Qed.

Lemma walk_round order L st : walk_state order L st -> L <> [] ->
  wp (gorder_round og ig hv st) (fun st' => exists t L', t :: L' ≡ₚ L /\ walk_state (order ++ [t]) L' st').
Proof.
  destruct st as [[h pe] o]. intros (-> & Hh & Hpe & Hnd & Hb) HL.
  eapply wp_mono; [eapply (wp_round og ig hv Hg B HB L); [done|exact Hh|exact Hpe| |done|]|].
  - intros v Hv. apply Hb. set_solver.
  - intros v Hv. apply Hb. set_solver.
  - intros [[h2 pe2] order2] (t & L2 & HP & -> & Hh2 & Hpe2). exists t, L2. split; [done|].
    split; [done|]. split; [done|]. split; [done|].
    assert ((order ++ [t]) ++ L2 ≡ₚ order ++ L) as HP2 by (rewrite <- app_assoc, <- HP; done).
    split; [by rewrite HP2|]. intros v. rewrite HP2. apply Hb.
Qed.

Lemma rounds_ok h t zero L : walk_state [t] L (h, replicate n false, [t]) -> t :: zero ++ L ≡ₚ seq 0 n ->
  wp (foldM (fun st (_ : nat) => gorder_round og ig hv st) (h, replicate n false, [t]) (seq 0 (n - 1 - length zero)))
    (fun '(_, _, order) => order ++ zero ≡ₚ seq 0 n).
Proof.
  intros Hw HP. assert (length (t :: zero ++ L) = n) as Hlen by (by rewrite HP, length_seq). simpl in Hlen. rewrite length_app in Hlen.
  apply (wp_for _ (fun i st => exists order L, length order = (i + 1)%nat /\ walk_state order L st /\
    order ++ zero ++ L ≡ₚ seq 0 n)).
  - by exists [t], L.
  - intros i st Hi (order & L1 & Hlo & Hw1 & HP1).
    assert (length (order ++ zero ++ L1) = n) as Hl1 by (by rewrite HP1, length_seq). rewrite !length_app in Hl1.
    eapply wp_mono; [eapply (walk_round order L1 st Hw1)|].
    + intros ->. simpl in Hl1. lia.
    + intros st' (t2 & L2 & HP2 & Hw2). exists (order ++ [t2]), L2.
      split_and!; [rewrite length_app; simpl; lia|done|].
      rewrite <- HP1, <- HP2. rewrite <- !app_assoc. cbn [app]. apply Permutation_app_head, Permutation_middle.
  - intros [[h1 pe1] o] (order & L1 & Hlo & (-> & _) & HP1).
    assert (length (order ++ zero ++ L1) = n) as Hl1 by (by rewrite HP1, length_seq). rewrite !length_app in Hl1.
    destruct L1; [|simpl in Hl1; lia]. by rewrite app_nil_r in HP1.
Qed.

End walk.

Lemma bind_assoc2 {X Y Z' W} (m : M X) (f : X -> M Y) (g : Y -> M Z') (k : Z' -> M W) :
  (let* a := m in let* b := f a in let* c := g b in k c) =
  (let* c := (let* a := m in let* b := f a in g b) in k c).
Proof. destruct m as [a| |]; simpl; [|done..]. by destruct (f a). Qed.

Lemma insert_before_last_perm order zero : insert_before_last order zero ≡ₚ order ++ zero.
Proof.
  unfold insert_before_last. rewrite (Permutation_app_comm zero), app_assoc, take_drop. done.
Qed.

Lemma gorder_perm_spec `{HSS : !StdSort} (hn : HNSW.t) (N : nat) : HNSW.wf hn N -> simple_level0 hn N ->
  Z.of_nat N <= gorder_capacity -> wp (generateGorderPermutation hn N) (is_perm N).
Proof.
  intros Hwf Hs HN. unfold generateGorderPermutation.
  destruct (Nat.eqb_spec N 0) as [->|HN0]; [apply Permutation_refl|].
  destruct (Nat.eqb_spec N 1) as [->|HN1]; [apply Permutation_refl|].
  assert (5 * (Z.of_nat N + 2) < INT_MAX / 2) as HB.
  { change (INT_MAX / 2) with 1073741823. unfold gorder_capacity in HN. lia. }
  apply wp_bind. eapply wp_mono; [by apply build_directed_ok|]. intros [og ig] [Hg Hlinks].
  assert (forall u w, w ∈ og !!! u -> (w < N)%nat) as Hog.
  { intros u w Hw. destruct (decide (u < N)%nat) as [Hu|Hu]; [by eapply (g_out og ig Hg)|].
    rewrite list_lookup_total_alt, lookup_ge_None_2 in Hw by (rewrite (g_outlen og ig Hg); lia). set_solver. }
  apply wp_bind. eapply wp_mono; [by apply indegree_ok|]. intros indegree Hind. cbv zeta.
  apply wp_bind. eapply wp_mono; [apply (init_heap_ok (n := N) indegree); [lia|done]|]. intros h0 (v0 & Hv0 & Hx0).
  apply wp_bind. eapply wp_mono; [eapply (reconstruct_good (n := N) (5 * (Z.of_nat N + 2))); [lia|exact Hv0|exact Hx0]|].
  intros h1 Hh1. apply wp_bind. eapply wp_mono; [eapply (pick_start_ok (n := N)); [exact HB|lia|lia|exact Hind|exact Hh1]|].
  intros [[[h2 t] w] zero] (L & Hh2 & HP).
  assert (NoDup (zero ++ t :: L)) as Hnd by (rewrite HP; apply NoDup_seq). apply NoDup_app in Hnd as (_ & _ & Hnd).
  assert (forall v, v ∈ t :: L -> (v < N)%nat) as Hb.
  { intros v Hv. assert (v ∈ seq 0 N) as Hin by (rewrite <- HP; set_solver). apply elem_of_seq in Hin. lia. }
  pose proof (walk_starts og ig (Nat.sqrt N) Hg HB h2 t L Hh2 Hnd Hb) as Hstart.
  apply wp_elim in Hstart as (h4 & Hh4 & Hw4). rewrite bind_assoc2, Hh4. cbn [bind].
  apply wp_bind. eapply wp_mono; [eapply (rounds_ok og ig (Nat.sqrt N) Hg HB h4 t zero L Hw4)|].
  - rewrite <- HP. by rewrite Permutation_middle.
  - intros [[h5 pe] order] HPo. cbn [wp]. unfold is_perm. destruct zero as [|z zero]; [by rewrite app_nil_r in HPo|].
    by rewrite insert_before_last_perm.
Qed.

(** C3: on a well-formed link table with level-0 lists without repetitions and
    at most 214748362 nodes, the GOrder computation (priority list, lazy
    updates, window of five) terminates without an access out of range and
    returns a permutation of the nodes. *)
Theorem gorder_terminates_with_permutation `{HSS : !StdSort} (hn : HNSW.t) (N : nat) :
  HNSW.wf hn N -> simple_level0 hn N -> Z.of_nat N <= gorder_capacity ->
  exists p, generateGorderPermutation hn N = Ret p /\ is_perm N p.
Proof. intros Hwf Hs HN. by apply wp_elim, gorder_perm_spec. Qed.

(** A ring of four nodes. *)
Definition ring : HNSW.t := HNSW.mk [0; 2]%nat [1; 1; 1; 1]%nat [0; 2; 4; 6; 8]%nat [1; 3; 2; 0; 3; 1; 0; 2] 0 0.

Lemma gorder_terminates_with_permutation_witness :
  exists p, generateGorderPermutation ring 4 = Ret p /\ is_perm 4 p.
Proof.
  apply (gorder_terminates_with_permutation ring 4).
  - by apply HNSW.wfb_wf.
  - intros [|[|[|[|i]]]] Hi; simpl in Hi; try lia; vm_compute; repeat constructor; set_solver.
  - vm_compute. discriminate.
Defined.

(** C4: during the walk the priority of a vertex is exactly its affinity to the
    window.  If the totals of key and pending update are the affinities to the
    last five placed vertices (counted over the out-links, in-links and
    siblings through vertices of small out-degree) and no sibling flag is set,
    then one round places a vertex that was in the heap, and the totals are the
    affinities to the new window, although updates shared by the vertex that
    leaves the window and the one that enters it are skipped. *)
Theorem gorder_round_keeps_scores (n : nat) (og ig : list (list nat)) (hv : nat) (order L : list nat)
    (st : UnitHeap * list bool * list nat) :
  digraph (n := n) og ig -> Z.of_nat n <= gorder_capacity -> walk_state (n := n) og ig hv order L st -> L <> [] ->
  exists st' t L', gorder_round og ig hv st = Ret st' /\ t :: L' ≡ₚ L /\
    walk_state (n := n) og ig hv (order ++ [t]) L' st'.
Proof.
  intros Hg Hn Hw HL. assert (5 * (Z.of_nat n + 2) < INT_MAX / 2) as HB.
  { change (INT_MAX / 2) with 1073741823. unfold gorder_capacity in Hn. lia. }
  destruct (wp_elim _ _ (walk_round og ig hv Hg HB order L st Hw HL)) as (st' & ? & t & L' & ? & ?). by exists st', t, L'.
Qed.

Definition ring_out : list (list nat) := [[1; 3]; [0; 2]; [1; 3]; [0; 2]]%nat.

Lemma ring_digraph : digraph (n := 4) ring_out ring_out.
Proof.
  split; [done|done| | |].
  - intros [|[|[|[|u]]]] Hu; try lia; (split; [vm_compute; repeat constructor; set_solver|]);
      intros w Hw; vm_compute in Hw; repeat (apply elem_of_cons in Hw as [->|Hw]; [lia|]); by apply not_elem_of_nil in Hw.
  - intros [|[|[|[|u]]]] Hu; try lia; (split; [vm_compute; repeat constructor; set_solver|]);
      intros w Hw; vm_compute in Hw; repeat (apply elem_of_cons in Hw as [->|Hw]; [lia|]); by apply not_elem_of_nil in Hw.
  - intros [|[|[|[|u]]]] [|[|[|[|v]]]] Hu Hv; try lia; vm_compute (ring_out !!! _); set_solver.
Qed.

(** The walk on the ring after its first vertex. *)
Lemma ring_started : exists h, walk_state (n := 4) ring_out ring_out 2 [0%nat] [1; 2; 3]%nat (h, replicate 4 false, [0%nat]).
Proof.
  assert (wp (let* h := put_update (unit_heap 4) 0 (INT_MAX / 2) in
      let* h := DeleteElement h 0 in enter_first ring_out ring_out 2 h 0)
    (fun h' => walk_state (n := 4) ring_out ring_out 2 [0%nat] [1; 2; 3]%nat (h', replicate 4 false, [0%nat]))) as Hs;
    [|destruct (wp_elim _ _ Hs) as (h & _ & ?); by exists h].
  apply (walk_starts ring_out ring_out 2 ring_digraph ltac:(vm_compute; done) (unit_heap 4) 0).
  - destruct (unit_heap_represents 4 ltac:(lia)) as (v & Hv & Hr & HK & HU). exists v, (seq 0 4).
    refine (conj Hv (conj Hr (conj (Permutation_refl _) (conj _ _)))); rewrite HU, ?HK; [done|].
    intros x Hx Hn. exfalso. apply Hn. change [0; 1; 2; 3]%nat with (seq 0 4). apply elem_of_seq. lia.
  - apply (NoDup_seq 0 4).
  - intros v Hv. change [0; 1; 2; 3]%nat with (seq 0 4) in Hv. apply elem_of_seq in Hv. lia.
Qed.

Lemma gorder_round_keeps_scores_witness :
  exists h st' t L', gorder_round ring_out ring_out 2 (h, replicate 4 false, [0%nat]) = Ret st' /\ t :: L' ≡ₚ [1; 2; 3]%nat /\
    walk_state (n := 4) ring_out ring_out 2 ([0%nat] ++ [t]) L' st'.
Proof.
  destruct ring_started as [h Hh]. exists h.
  apply (gorder_round_keeps_scores 4 ring_out ring_out 2 [0%nat] [1; 2; 3]%nat);
    [apply ring_digraph | vm_compute; discriminate | exact Hh | discriminate].
Defined.
