(* ===== verification/LayoutIndex.v ===== *)
(** * The post-build layout pass (IndexHNSW::reorder_graph_after_build)

    The index on top of the link structure: its flat code storage, the
    renumbering of codes, norms and links ([permute_entries]), the level-0
    adjacency normalisation of ROrder ([optimize_neighbors_by_id]), the
    one-shot pass that selects a node order by name, and the id translation
    [convert_to_original_id]. *)

From S2P Require Import Prelude HnswGraph LayoutBfs LayoutRcm Float LayoutRabbit LayoutGorder.

(** ** State *)

(** [IndexFlatCodes] and its cosine variants: [inverse_l2_norms] is [Some] for
    the four [*Cosine] storages that keep inverse norms. *)
Record FlatCodes := mkFlat {
  code_size : nat;
  codes : list Z;
  code_norms : list spec_float;
  inverse_l2_norms : option (list spec_float)
}.

Inductive Storage := StFlat (f : FlatCodes) | StOther.

Record IndexHNSW := mkIndex {
  hnsw : HNSW.t;
  ntotal : nat;
  storage : Storage;
  reorder_perm : list nat
}.

(** ** Renumbering the storage *)

(** [IndexFlatCodes::permute_entries]. *)
Definition permute_codes (ntotal : nat) (f : FlatCodes) (perm : list nat) : M (list Z) :=
  foldM (fun new_codes i =>
      let* o := vget perm i in
      memcpy new_codes (i * code_size f) (codes f) (o * code_size f) (code_size f))
    (replicate (length (codes f)) 0%Z) (seq 0 ntotal).

(** The lambda [reorder_node_metadata] of [IndexHNSW::permute_entries]. *)
Definition reorder_node_metadata (ntotal : nat) (perm : list nat) (values : list spec_float)
    : M (list spec_float) :=
  if length values =? ntotal then
    foldM (fun reordered i =>
        let* o := vget perm i in
        let* v := vget values o in
        vset reordered i v)
      (replicate ntotal F32.zero) (seq 0 ntotal)
  else Ret values.

(** [IndexHNSW::permute_entries]. *)
Definition permute_entries (ix : IndexHNSW) (perm : list nat) : M IndexHNSW :=
  match storage ix with
  | StOther => Throw "don't know how to permute this index"
  | StFlat f =>
      let* norms := reorder_node_metadata (ntotal ix) perm (code_norms f) in
      let* cs := permute_codes (ntotal ix) f perm in
      let* h := HNSW.permute_entries (hnsw ix) perm in
      let* inv := match inverse_l2_norms f with
                  | Some v => let* v := reorder_node_metadata (ntotal ix) perm v in Ret (Some v)
                  | None => Ret None
                  end in
      Ret (mkIndex h (ntotal ix) (StFlat (mkFlat (code_size f) cs norms inv)) (reorder_perm ix))
  end.

(** ** optimize_neighbors_by_id

    One node: collect the live links into [tmp], sort them, write them back and
    fill the rest of the slot group with [-1]. *)
Definition sort_node_links (h : HNSW.t) (nbrs : list Z) (i : nat) : M (list Z) :=
  let* (b, e) := HNSW.neighbor_range h i 0 in
  let* tmp := HNSW.for_links nbrs (seq b (e - b)) (fun tmp nj => Ret (tmp ++ [nj])) [] in
  let tmp := sort_ids tmp in
  foldM (fun nbrs j =>
      if j - b <? length tmp then
        let* v := vget tmp (j - b) in vset nbrs j (Z.of_nat v)
      else vset nbrs j (-1)%Z)
    nbrs (seq b (e - b)).

(** The nodes own disjoint slot groups, so the parallel loop over them is the
    sequential one. *)
Definition optimize_neighbors_by_id (h : HNSW.t) (ntotal : nat) : M HNSW.t :=
  let* nbrs := foldM (fun nbrs i => sort_node_links h nbrs i) (HNSW.neighbors h) (seq 0 ntotal) in
  Ret (HNSW.set_neighbors h nbrs).

(** ** The pass *)

(** [method_equals]; [None] is the null pointer. *)
Definition method_equals (lhs rhs : option string) : bool :=
  match lhs, rhs with
  | Some l, Some r => string_equals l r
  | None, None => true
  | _, _ => false
  end.

Section pass.
Context `{!StdSort}.

Definition with_perm (ix : IndexHNSW) (perm : list nat) : IndexHNSW :=
  mkIndex (hnsw ix) (ntotal ix) (storage ix) perm.

Definition apply_layout (ix : IndexHNSW) (perm : list nat) : M IndexHNSW :=
  let* ix := permute_entries ix perm in Ret (with_perm ix perm).

Definition reorder_graph_after_build (ix : IndexHNSW) (level : Z) (method : option string)
    : M IndexHNSW :=
  let* _ := require (match reorder_perm ix with [] => true | _ => false end)
    "The post-build HNSW layout pass may be applied only once; reset or rebuild the index first" in
  if (ntotal ix =? 0) || (HNSW.entry_point (hnsw ix) =? -1)%Z then Ret ix
  else
    let* _ := require (level =? 0)%Z "Only level-0 reordering is supported" in
    if method_equals method (Some "rorder"%string) then
      let* perm := generateGorderPermutation (hnsw ix) (ntotal ix) in
      let* ix := apply_layout ix perm in
      let* h := optimize_neighbors_by_id (hnsw ix) (ntotal ix) in
      Ret (mkIndex h (ntotal ix) (storage ix) (reorder_perm ix))
    else if method_equals method (Some "gorder"%string) then
      let* perm := generateGorderPermutation (hnsw ix) (ntotal ix) in apply_layout ix perm
    else if method_equals method (Some "rcm"%string) then
      let* perm := generateRCMPermutation (hnsw ix) (ntotal ix) in apply_layout ix perm
    else if method_equals method (Some "rabbitorder"%string) then
      let* perm := generateRabbitOrderPermutation (hnsw ix) (ntotal ix) in apply_layout ix perm
    else if method_equals method (Some "bfs"%string) then
      let* perm := generateBFSPermutation (hnsw ix) (Z.to_nat level) (ntotal ix) in apply_layout ix perm
    else Throw "Unknown HNSW layout method".

End pass.

(** [IndexHNSW::convert_to_original_id]. *)
Definition convert_to_original_id (ix : IndexHNSW) (new_id : Z) : M Z :=
  if match reorder_perm ix with [] => true | _ => false end
     || (new_id <? 0)%Z || (Z.of_nat (length (reorder_perm ix)) <=? new_id)%Z
  then Ret new_id
  else let* o := vgetz (reorder_perm ix) new_id in Ret (Z.of_nat o).

(** [IndexHNSW::reset], with the [reset] of the storage classes. *)
Definition reset (ix : IndexHNSW) : IndexHNSW :=
  mkIndex (HNSW.reset (hnsw ix)) 0
    (match storage ix with
     | StFlat f => StFlat (mkFlat (code_size f) [] (code_norms f)
                             (match inverse_l2_norms f with Some _ => Some [] | None => None end))
     | StOther => StOther
     end) [].

(** ** The storage follows the permutation *)

Lemma permute_codes_spec n f p : is_perm n p -> length (codes f) = n * code_size f ->
  wp (permute_codes n f p) (fun cs => length cs = length (codes f) /\
    forall i o, p !! i = Some o -> row (code_size f) i cs = row (code_size f) o (codes f)).
Proof.
  intros Hp Hl. set (w := code_size f) in *. unfold permute_codes. fold w.
  pose proof (is_perm_length n p Hp) as Hpl.
  set (moved k := (fun o => row w o (codes f)) <$> take k p).
  assert (forall k, Forall (fun r => length r = w) (moved k)) as Hrows.
  { intros k. apply Forall_fmap, Forall_take, Forall_forall. intros o Ho. simpl.
    apply (length_row _ _ n); [done|]. by apply (is_perm_elem n p). }
  assert (forall k, k <= n -> length (concat (moved k)) = k * w) as Hmoved.
  { intros k Hk. rewrite (length_concat_rows w) by done.
    unfold moved. rewrite length_fmap, length_take. f_equal. lia. }
  apply (wp_for _ (fun k cs => length cs = length (codes f) /\
    exists rest, cs = concat (moved k) ++ rest)).
  - rewrite length_replicate. split; [done|]. by eexists.
  - intros i cs Hi [Hlen [rest ->]].
    destruct (is_perm_lookup n p i Hp) as (o & Ho & Hon); [lia|].
    rewrite (proj2 (vget_Ret _ _ _) Ho). simpl.
    apply wp_memcpy; [rewrite Hlen, Hl; nia | rewrite Hl; nia |].
    rewrite take_app_length' by (symmetry; apply Hmoved; lia).
    assert (concat (moved (i + 1)) = concat (moved i) ++ row w o (codes f)) as Hstep.
    { unfold moved. rewrite Nat.add_1_r, (take_S_r _ _ _ Ho), fmap_app, concat_app. simpl.
      by rewrite app_nil_r. }
    split.
    + rewrite !length_app, length_drop, Hlen, (Hmoved i) by lia.
      rewrite length_slice by (rewrite Hl; nia). rewrite Hl. nia.
    + rewrite Hstep. eexists. by rewrite <- app_assoc.
  - rewrite Nat.add_0_l. intros cs [Hlen [rest ->]]. split; [done|].
    assert (rest = []) as ->.
    { apply nil_length_inv. rewrite length_app, (Hmoved n), Hl in Hlen by lia. lia. }
    rewrite app_nil_r. intros i o Ho. apply row_concat; [apply Hrows|].
    unfold moved. rewrite take_ge by lia. by rewrite list_lookup_fmap, Ho.
Qed.

Lemma reorder_node_metadata_spec n p values : is_perm n p ->
  wp (reorder_node_metadata n p values) (fun r => length r = length values /\
    (length values = n -> forall i o, p !! i = Some o -> r !! i = values !! o)).
Proof.
  intros Hp. unfold reorder_node_metadata. destruct (Nat.eqb_spec (length values) n) as [Hl|]; [|done].
  apply (wp_for _ (fun k r => length r = n /\
    forall i o, i < k -> p !! i = Some o -> r !! i = values !! o)).
  - rewrite length_replicate. split; [done|lia].
  - intros i r Hi [Hlen Hr]. destruct (is_perm_lookup n p i Hp) as (o & Ho & Hon); [lia|].
    rewrite (proj2 (vget_Ret _ _ _) Ho). simpl. apply wp_bind, wp_vget; [lia|]. intros v Hv.
    apply wp_vset; [lia|]. rewrite length_insert. split; [done|]. intros j o' Hj Ho'.
    destruct (decide (i = j)) as [<-|Hne].
    + simplify_eq. by rewrite list_lookup_insert_eq by lia.
    + rewrite list_lookup_insert_ne by done. apply Hr; [lia|done].
  - rewrite Nat.add_0_l. intros r [Hlen Hr]. split; [by rewrite Hl|]. intros _ i o Ho.
    apply Hr; [|done]. rewrite <- (is_perm_length n p Hp). by eapply lookup_lt_Some.
Qed.

(** The storage [f'] is [f] with row [p[i]] moved to row [i], and so are the
    per-vector norms it keeps. *)
Definition storage_moved (n : nat) (p : list nat) (f f' : FlatCodes) : Prop :=
  code_size f' = code_size f /\ length (codes f') = length (codes f) /\
  (forall i o, p !! i = Some o -> row (code_size f) i (codes f') = row (code_size f) o (codes f)) /\
  (length (code_norms f) = n ->
     forall i o, p !! i = Some o -> code_norms f' !! i = code_norms f !! o) /\
  match inverse_l2_norms f, inverse_l2_norms f' with
  | Some v, Some v' => length v = n -> forall i o, p !! i = Some o -> v' !! i = v !! o
  | None, None => True
  | _, _ => False
  end.

(** What every operation of the index keeps. *)
Record wf_index (ix : IndexHNSW) (f : FlatCodes) : Prop := {
  wi_graph : HNSW.wf (hnsw ix) (ntotal ix);
  wi_storage : storage ix = StFlat f;
  wi_codes : length (codes f) = ntotal ix * code_size f
}.

Lemma apply_layout_spec ix f p : wf_index ix f -> is_perm (ntotal ix) p ->
  wp (apply_layout ix p) (fun ix' => exists f', wf_index ix' f' /\
    ntotal ix' = ntotal ix /\ reorder_perm ix' = p /\
    HNSW.renamed p (hnsw ix) (hnsw ix') /\ storage_moved (ntotal ix) p f f').
Proof.
  intros [Hwf Hst Hcs] Hp. unfold apply_layout, permute_entries. rewrite Hst. apply wp_bind, wp_bind.
  eapply wp_mono; [by apply reorder_node_metadata_spec|]. intros norms [_ Hnorms].
  apply wp_bind. eapply wp_mono; [by apply permute_codes_spec|]. intros cs [Hlen Hcodes].
  apply wp_bind. eapply wp_mono; [by apply HNSW.permute_entries_spec|]. intros h' [Hwf' Hren].
  apply wp_bind. eapply (wp_mono _ (fun inv =>
    match inverse_l2_norms f, inv with
    | Some v, Some v' => length v = ntotal ix -> forall i o, p !! i = Some o -> v' !! i = v !! o
    | None, None => True
    | _, _ => False
    end)).
  { destruct (inverse_l2_norms f) as [v|]; [|done]. apply wp_bind.
    eapply wp_mono; [by apply reorder_node_metadata_spec|]. by intros v' [_ ?]. }
  intros inv Hinv. exists (mkFlat (code_size f) cs norms inv). split_and!; [|done|done|done|].
  - split; simpl; [done|done|by rewrite Hlen].
  - by split_and!.
Qed.

(** ** Adjacency normalisation *)

Lemma live_of_nat (l : list nat) m : HNSW.live ((Z.of_nat <$> l) ++ replicate m (-1)%Z) = l.
Proof.
  induction l as [|x l IH]; [by destruct m|].
  rewrite fmap_cons. simpl. rewrite (proj2 (Z.ltb_ge _ _)) by lia. by rewrite IH, Nat2Z.id.
Qed.

Lemma length_live l : length (HNSW.live l) <= length l.
Proof. induction l as [|v l IH]; simpl; [done|]. destruct (v <? 0)%Z; simpl; lia. Qed.

(** The slot group that [sort_node_links] writes. *)
Definition sorted_group (old : list Z) : list Z :=
  (Z.of_nat <$> sort_ids (HNSW.live old)) ++
  replicate (length old - length (HNSW.live old)) (-1)%Z.

Lemma length_sort_ids l : length (sort_ids l) = length l.
Proof. unfold sort_ids. by rewrite merge_sort_Permutation. Qed.

Lemma length_sorted_group old : length (sorted_group old) = length old.
Proof.
  unfold sorted_group. rewrite length_app, length_fmap, length_sort_ids, length_replicate.
  pose proof (length_live old). lia.
Qed.

Lemma sort_node_links_spec h nbrs i b e :
  HNSW.neighbor_range h i 0 = Ret (b, e) -> b <= e <= length nbrs ->
  wp (sort_node_links h nbrs i) (fun nbrs' =>
    nbrs' = take b nbrs ++ sorted_group (slice b e nbrs) ++ drop e nbrs).
Proof.
  intros Hr Hbe. unfold sort_node_links. rewrite Hr. simpl.
  rewrite HNSW.for_links_live by lia. replace (b + (e - b)) with e by lia.
  apply wp_bind. eapply (wp_mono _ (fun tmp => tmp = HNSW.live (slice b e nbrs))).
  { apply (wp_foldM _ (fun pre tmp => tmp = pre)); [done| |done].
    intros pre a post t _ ->. done. }
  intros tmp ->. set (old := slice b e nbrs).
  assert (length old = e - b) as Hold by (apply length_slice; lia).
  pose proof (length_sorted_group old) as HW. pose proof (length_live old) as Hlv.
  apply (wp_for _ (fun j t => t = (take b nbrs ++ take (j - b) (sorted_group old)) ++ drop j nbrs)).
  - by rewrite Nat.sub_diag, app_nil_r, take_drop.
  - intros j t Hj ->.
    destruct (lookup_lt_is_Some_2 (sorted_group old) (j - b)) as [v Hv]; [lia|].
    assert (wp (vset ((take b nbrs ++ take (j - b) (sorted_group old)) ++ drop j nbrs) j v)
      (fun t => t = (take b nbrs ++ take (j + 1 - b) (sorted_group old)) ++ drop (j + 1) nbrs)) as Hset.
    { apply wp_vset_next.
      - rewrite length_app, !length_take. lia.
      - intros Hd. apply (f_equal length) in Hd. rewrite length_drop in Hd. simpl in Hd. lia.
      - intros y rest Hd. replace (j + 1 - b) with (S (j - b)) by lia.
        rewrite (take_S_r _ _ _ Hv), app_assoc. f_equal.
        by rewrite <- drop_drop, Hd. }
    unfold sorted_group in Hv. rewrite length_sort_ids.
    destruct (Nat.ltb_spec (j - b) (length (HNSW.live old))) as [Hlt|Hge].
    + rewrite lookup_app_l in Hv by (rewrite length_fmap, length_sort_ids; lia).
      rewrite list_lookup_fmap in Hv. destruct (sort_ids _ !! (j - b)) as [x|] eqn:Hx; [|done].
      rewrite (proj2 (vget_Ret _ _ _) Hx). simpl in *. by simplify_eq.
    + rewrite lookup_app_r in Hv by (rewrite length_fmap, length_sort_ids; lia).
      apply lookup_replicate in Hv as [-> _]. exact Hset.
  - intros t ->. replace (b + (e - b)) with e by lia.
    by rewrite (take_ge (sorted_group old)), <- app_assoc by lia.
Qed.

Section normalise.
Context {h : HNSW.t} {n : nat} (Hwf : HNSW.wf h n).

(** Level-0 slot groups of different nodes do not meet, so each node's group is
    read before it is written and written once. *)
Lemma groups_ordered i j b e b' e' : i < j -> j < n ->
  HNSW.neighbor_range h i 0 = Ret (b, e) -> HNSW.neighbor_range h j 0 = Ret (b', e') -> e <= b'.
Proof.
  intros Hij Hj Hi' Hj'.
  destruct (HNSW.neighbor_range_0 Hwf i) as (? & ? & o & o1 & Hi & _ & Ho1 & _ & He); [lia|].
  destruct (HNSW.neighbor_range_0 Hwf j) as (? & ? & o2 & ? & Hj2 & Ho2 & _ & Hb & _); [lia|].
  rewrite Hi in Hi'. rewrite Hj2 in Hj'. simplify_eq. assert (o1 <= o2); [|lia].
  eapply (HNSW.offset_le Hwf (i + 1) j); [lia|lia|done|done].
Qed.

Definition normalised (k : nat) (nbrs : list Z) : Prop :=
  length nbrs = length (HNSW.neighbors h) /\
  (forall j b e, j < k -> HNSW.neighbor_range h j 0 = Ret (b, e) ->
     slice b e nbrs = sorted_group (slice b e (HNSW.neighbors h))) /\
  (forall pos, (forall j b e, j < k -> HNSW.neighbor_range h j 0 = Ret (b, e) -> ~ b <= pos < e) ->
     nbrs !! pos = HNSW.neighbors h !! pos).

Lemma normalise_step i nbrs : i < n -> normalised i nbrs ->
  wp (sort_node_links h nbrs i) (normalised (i + 1)).
Proof.
  intros Hi (Hl & Hdone & Hrest).
  destruct (HNSW.neighbor_range_0 Hwf i Hi) as (b & e & o & o' & Hr & _ & _ & Hb & He).
  eapply wp_mono; [apply (sort_node_links_spec h nbrs i b e Hr); lia|]. intros nbrs' ->.
  assert (slice b e nbrs = slice b e (HNSW.neighbors h)) as Hsame.
  { apply slice_ext; [done|]. intros pos Hpos. apply Hrest. intros j b' e' Hj Hr'.
    pose proof (groups_ordered j i b' e' b e Hj Hi Hr' Hr). lia. }
  assert (length (sorted_group (slice b e nbrs)) = e - b) as HW.
  { rewrite length_sorted_group. apply length_slice. lia. }
  split_and!.
  - rewrite !length_app, HW, length_take, length_drop. lia.
  - intros j b' e' Hj Hr'. destruct (decide (j = i)) as [->|Hne].
    + rewrite Hr in Hr'. simplify_eq. rewrite slice_splice by (done || lia). by rewrite Hsame.
    + rewrite <- (Hdone j b' e') by (lia || done). apply slice_ext.
      { rewrite !length_app, HW, length_take, length_drop. lia. }
      intros pos Hpos. apply lookup_splice_out; [done|lia|]. left.
      pose proof (groups_ordered j i b' e' b e ltac:(lia) Hi Hr' Hr). lia.
  - intros pos Hpos. rewrite lookup_splice_out; [|done|lia|].
    + apply Hrest. intros j b' e' Hj. apply Hpos. lia.
    + destruct (decide (b <= pos < e)) as [Hin|]; [|lia].
      exfalso. eapply (Hpos i); [lia|done|done].
Qed.

(** What ROrder adds to the renumbering: every level-0 list sorted, upper
    levels as they were. *)
Definition level0_sorted (h' : HNSW.t) : Prop :=
  HNSW.cum_nneighbor_per_level h' = HNSW.cum_nneighbor_per_level h /\
  HNSW.levels h' = HNSW.levels h /\ HNSW.offsets h' = HNSW.offsets h /\
  HNSW.entry_point h' = HNSW.entry_point h /\ HNSW.max_level h' = HNSW.max_level h /\
  (forall i, i < n -> HNSW.links h' i 0 = sort_ids (HNSW.links h i 0)) /\
  (forall i l layer_no, HNSW.levels h !! i = Some l -> 1 <= layer_no < l ->
     HNSW.slots h' i layer_no = HNSW.slots h i layer_no).

Lemma sorted_group_bound old v : Forall (fun z => z < Z.of_nat n)%Z old ->
  v ∈ sorted_group old -> (-1 <= v < Z.of_nat n)%Z.
Proof.
  intros Hold Hv. unfold sorted_group in Hv. apply elem_of_app in Hv as [Hv|Hv].
  - apply list_elem_of_fmap in Hv as (x & -> & Hx). unfold sort_ids in Hx.
    rewrite merge_sort_Permutation in Hx. pose proof (HNSW.live_bound n old x Hold Hx). lia.
  - apply elem_of_replicate in Hv as [-> _]. lia.
Qed.

(** Whether slot [pos] belongs to the level-0 group of [i]. *)
Definition in_group (pos i : nat) : bool :=
  match HNSW.neighbor_range h i 0 with
  | Ret (b, e) => (b <=? pos) && (pos <? e)
  | _ => false
  end.

Lemma in_group_spec pos i b e : HNSW.neighbor_range h i 0 = Ret (b, e) ->
  in_group pos i = true <-> b <= pos < e.
Proof.
  intros Hr. unfold in_group. rewrite Hr, andb_true_iff, Nat.leb_le, Nat.ltb_lt. done.
Qed.

Lemma normalised_bound nbrs pos v : normalised n nbrs -> nbrs !! pos = Some v ->
  (-1 <= v < Z.of_nat n)%Z.
Proof.
  intros (Hl & Hdone & Hrest) Hv.
  destruct (decide (Exists (fun i => in_group pos i = true) (seq 0 n))) as [Hin|Hno].
  - apply Exists_exists in Hin as (i & Hi%elem_of_seq & Hg).
    destruct (HNSW.neighbor_range_0 Hwf i) as (b & e & o & o' & Hr & _ & _ & Hb & He); [lia|].
    rewrite (in_group_spec pos i b e Hr) in Hg.
    apply (sorted_group_bound (slice b e (HNSW.neighbors h))).
    { apply HNSW.slice_Forall. intros j x Hx.
      pose proof (HNSW.wf_nbr_range _ _ Hwf _ _ Hx). lia. }
    rewrite <- (Hdone i b e) by (lia || done). apply list_elem_of_lookup. exists (pos - b).
    rewrite lookup_slice by lia. by replace (b + (pos - b)) with pos by lia.
  - rewrite Hrest in Hv; [by eapply HNSW.wf_nbr_range|].
    intros i b e Hi Hr Hpos. apply Hno, Exists_exists. exists i.
    rewrite elem_of_seq, (in_group_spec pos i b e Hr). split; [lia|done].
Qed.

(** Upper-level slots lie outside every level-0 group. *)
Lemma upper_slots_outside i l layer_no b e pos j b0 e0 :
  HNSW.levels h !! i = Some l -> 1 <= layer_no < l ->
  HNSW.neighbor_range h i layer_no = Ret (b, e) -> b <= pos < e ->
  j < n -> HNSW.neighbor_range h j 0 = Ret (b0, e0) -> ~ b0 <= pos < e0.
Proof.
  intros Hlv Hlay Hr Hpos Hj Hr0.
  destruct (HNSW.neighbor_range_in Hwf i layer_no l Hlv) as (? & ? & o & o' & Hr' & Ho & Ho' & Hb & He);
    [lia|]. rewrite Hr in Hr'. injection Hr' as <- <-.
  assert (i < n) as Hi.
  { rewrite <- (HNSW.wf_levels _ _ Hwf). by eapply lookup_lt_Some. }
  destruct (HNSW.neighbor_range_0 Hwf j Hj) as (? & ? & p & p' & Hr0' & Hp & Hp' & Hb0 & He0).
  rewrite Hr0 in Hr0'. injection Hr0' as <- <-.
  destruct (Nat.lt_trichotomy j i) as [Hji|[->|Hij]].
  - assert (p' <= o) by (eapply (HNSW.offset_le Hwf (j + 1) i); [lia|lia|done|done]). lia.
  - assert (e0 <= b); [|lia]. revert Hr Hr0. unfold HNSW.neighbor_range, HNSW.cum_nb_neighbors.
    rewrite (proj2 (vget_Ret _ _ _) Ho). simpl.
    pose proof (HNSW.wf_level_range _ _ Hwf _ _ Hlv).
    destruct (HNSW.cum_at (h:=h) layer_no) as [cb Hcb]; [lia|].
    destruct (HNSW.cum_at (h:=h) (layer_no + 1)) as [ce Hce]; [lia|].
    destruct (HNSW.cum_at (h:=h) 1) as [c1 Hc1]; [lia|].
    rewrite (proj2 (vget_Ret _ _ _) Hcb), (proj2 (vget_Ret _ _ _) Hce). simpl.
    rewrite (proj2 (vget_Ret _ _ _) (HNSW.wf_cum0 _ _ Hwf)), (proj2 (vget_Ret _ _ _) Hc1). simpl.
    intros [= <- <-] [= <- <-]. assert (c1 <= cb); [|lia].
    eapply (HNSW.cum_le Hwf 1 layer_no); [lia|done|done].
  - assert (o' <= p) by (eapply (HNSW.offset_le Hwf (i + 1) j); [lia|lia|done|done]). lia.
Qed.

Lemma optimize_spec :
  wp (optimize_neighbors_by_id h n) (fun h' => HNSW.wf h' n /\ level0_sorted h').
Proof.
  unfold optimize_neighbors_by_id. apply wp_bind.
  apply (wp_for _ normalised).
  - split_and!; [done|lia|done].
  - intros i nbrs Hi Hn. apply normalise_step; [lia|done].
  - rewrite Nat.add_0_l. intros nbrs Hn. pose proof Hn as (Hl & Hdone & Hrest). split.
    + destruct Hwf. split; simpl; [done..| | |done]; [by rewrite Hl|].
      intros j v. by apply normalised_bound.
    + split_and!; [done..| |].
      * intros i Hi. unfold HNSW.links, HNSW.slots.
        change (HNSW.neighbor_range (HNSW.set_neighbors h nbrs) i 0) with (HNSW.neighbor_range h i 0).
        destruct (HNSW.neighbor_range_0 Hwf i Hi) as (b & e & o & o' & Hr & _).
        rewrite Hr. simpl. rewrite (Hdone i b e) by (lia || done). apply live_of_nat.
      * intros i l layer_no Hlv Hlay. unfold HNSW.slots.
        change (HNSW.neighbor_range (HNSW.set_neighbors h nbrs) i layer_no)
          with (HNSW.neighbor_range h i layer_no).
        destruct (HNSW.neighbor_range_in Hwf i layer_no l Hlv) as (b & e & o & o' & Hr & _); [lia|].
        rewrite Hr. simpl. apply slice_ext; [done|]. intros pos Hpos. apply Hrest.
        intros j b0 e0 Hj Hr0. by eapply (upper_slots_outside i l layer_no b e).
Qed.

End normalise.
