(* ===== verification/LayoutProps.v ===== *)
(** * What the post-build layout pass guarantees

    The theorems about [reorder_graph_after_build] and the id translation that
    a client of the index relies on: the pass renumbers graph and storage by
    one permutation, can be applied once, fails on an unknown method without a
    partial update, and the recorded permutation translates every result id
    back to the id the vector was inserted under. *)

From S2P Require Import Prelude HnswGraph LayoutBfs LayoutRcm Float LayoutRabbit LayoutGorder GorderPerm LayoutIndex.

(** ** Method names *)

(** Two names that equal the same name are the same name to [method_equals]. *)
Lemma method_dispatch method m k : method_equals method (Some m) = true ->
  method_equals method (Some k) = method_equals (Some m) (Some k).
Proof.
  destruct method as [s|]; [|done]. simpl. rewrite string_equals_lower. intros Hsm.
  apply eq_bool_prop_intro. rewrite !Is_true_true, !string_equals_lower. by rewrite Hsm.
Qed.

(** ** The pass *)

(** [ix'] is [ix] laid out in the order [p]. *)
Definition laid_out (p : list nat) (ix ix' : IndexHNSW) (f f' : FlatCodes) : Prop :=
  is_perm (ntotal ix) p /\ reorder_perm ix' = p /\ ntotal ix' = ntotal ix /\ wf_index ix' f' /\
  HNSW.renamed p (hnsw ix) (hnsw ix') /\ storage_moved (ntotal ix) p f f'.

Lemma layout_with ix f gen : wf_index ix f -> wp gen (is_perm (ntotal ix)) ->
  wp (let* perm := gen in apply_layout ix perm) (fun ix' => exists p f', laid_out p ix ix' f f').
Proof.
  intros Hwf Hgen. apply wp_bind. eapply wp_mono; [exact Hgen|]. intros p Hp. simpl in Hp.
  eapply wp_mono; [by apply apply_layout_spec|]. intros ix' (f' & ? & ? & ? & ? & ?).
  exists p, f'. by split_and!.
Qed.

Lemma pass_guard ix : reorder_perm ix = [] -> 0 < ntotal ix ->
  (0 <= HNSW.entry_point (hnsw ix))%Z ->
  match reorder_perm ix with [] => true | _ => false end = true /\
  (ntotal ix =? 0) || (HNSW.entry_point (hnsw ix) =? -1)%Z = false.
Proof.
  intros -> Hn He. split; [done|]. apply orb_false_iff.
  rewrite Nat.eqb_neq, Z.eqb_neq. lia.
Qed.

(** A four-node index with one upper-level node, for the witnesses. *)
Definition ex_hnsw : HNSW.t :=
  HNSW.mk [0; 3; 5] [1; 2; 1; 1] [0; 3; 8; 11; 14]
    [1; 3; -1;   2; 0; -1; -1; -1;   3; 1; 0;   0; -1; -1]%Z 1 1.

Definition ex_flat : FlatCodes :=
  mkFlat 2 [10; 11; 20; 21; 30; 31; 40; 41]%Z [] None.

Definition ex_index : IndexHNSW := mkIndex ex_hnsw 4 (StFlat ex_flat) [].

Lemma ex_wf : wf_index ex_index ex_flat.
Proof. split; [by apply HNSW.wfb_wf | done | done]. Qed.

(** What GOrder asks of the index: level-0 lists without repetitions, and few
    enough nodes for the marks on placed vertices. *)
Definition gorder_ready (ix : IndexHNSW) : Prop :=
  simple_level0 (hnsw ix) (ntotal ix) /\ (Z.of_nat (ntotal ix) <= gorder_capacity)%Z.

Lemma ex_ready : gorder_ready ex_index.
Proof.
  split; [|unfold gorder_capacity; simpl; lia].
  intros [|[|[|[|i]]]] Hi; simpl in Hi; try lia; vm_compute; repeat constructor; set_solver.
Qed.

(** C1: on a well-formed non-empty index, the pass with any of the methods
    gorder, rcm, rabbitorder and bfs (in any letter case) returns: the order it
    computes is a permutation of the nodes, the new link table is well formed
    and is the old graph with node [p[i]] renamed [i] on every level, entry
    point included, and every code and stored norm moved with its node.  For
    gorder the level-0 lists must have no repetitions and the nodes must number
    at most 214748362. *)
Theorem layout_pass_renumbers `{SS : !StdSort} ix f method m :
  wf_index ix f -> reorder_perm ix = [] -> 0 < ntotal ix ->
  (0 <= HNSW.entry_point (hnsw ix))%Z ->
  m ∈ ["gorder"; "rcm"; "rabbitorder"; "bfs"]%string -> method_equals method (Some m) = true ->
  (m = "gorder"%string -> gorder_ready ix) ->
  exists ix' p f', reorder_graph_after_build ix 0 method = Ret ix' /\ laid_out p ix ix' f f'.
Proof.
  intros Hwf Hr Hn He Hm Hmm Hgo. destruct (pass_guard ix Hr Hn He) as [Hg1 Hg2].
  assert (wp (reorder_graph_after_build ix 0 method) (fun ix' => exists p f', laid_out p ix ix' f f')) as H.
  { unfold reorder_graph_after_build. rewrite Hg1, Hg2. cbn [require bind Z.eqb].
    rewrite !(method_dispatch method m) by done.
    rewrite !elem_of_cons, elem_of_nil in Hm. destruct Hm as [->|[->|[->|[->|[]]]]]; vm_compute (method_equals _ _).
    - destruct (Hgo eq_refl) as [Hsl Hcap]. apply layout_with; [done|]. by apply gorder_perm_spec; [apply (wi_graph _ _ Hwf)|..].
    - apply layout_with; [done|]. by apply rcm_perm_spec, (wi_graph _ _ Hwf).
    - apply layout_with; [done|]. by apply rabbit_perm_spec, (wi_graph _ _ Hwf).
    - apply layout_with; [done|]. by apply bfs_perm_spec; [apply (wi_graph _ _ Hwf)|]. }
  apply wp_elim in H as (ix' & ? & p & f' & ?). by exists ix', p, f'.
Qed.

Lemma layout_pass_renumbers_witness :
  (exists ix' p f', reorder_graph_after_build ex_index 0 (Some "RCM"%string) = Ret ix' /\
    laid_out p ex_index ix' ex_flat f') /\
  (exists ix' p f', reorder_graph_after_build ex_index 0 (Some "GOrder"%string) = Ret ix' /\
    laid_out p ex_index ix' ex_flat f').
Proof.
  split.
  - apply (layout_pass_renumbers ex_index ex_flat (Some "RCM"%string) "rcm");
      [apply ex_wf | reflexivity | simpl; lia | simpl; lia | right; left | reflexivity | discriminate].
  - apply (layout_pass_renumbers ex_index ex_flat (Some "GOrder"%string) "gorder");
      [apply ex_wf | reflexivity | simpl; lia | simpl; lia | left | reflexivity | intros _; apply ex_ready].
Defined.

(** C5: the guards of the layout pass.  It is one-shot: once an order is recorded
    every further call throws, whatever the method and level, and after [reset],
    which forgets the order, the pass is a no-op on the emptied index.  On a
    non-empty index whose layout was not yet changed, a level other than 0
    throws, and so does a method (or null pointer) that is none of the five
    names; all of them before the index is touched. *)
Theorem layout_pass_guards `{SS : !StdSort} ix method level :
  (reorder_perm ix <> [] ->
   reorder_graph_after_build ix level method =
     Throw "The post-build HNSW layout pass may be applied only once; reset or rebuild the index first" /\
   reorder_graph_after_build (reset ix) level method = Ret (reset ix)) /\
  (reorder_perm ix = [] -> 0 < ntotal ix -> HNSW.entry_point (hnsw ix) <> (-1)%Z ->
   (level <> 0%Z -> reorder_graph_after_build ix level method = Throw "Only level-0 reordering is supported") /\
   (level = 0%Z -> Forall (fun m => method_equals method (Some m) = false)
                     ["rorder"; "gorder"; "rcm"; "rabbitorder"; "bfs"]%string ->
    reorder_graph_after_build ix level method = Throw "Unknown HNSW layout method")).
Proof.
  split.
  - intros H. split; [|done]. unfold reorder_graph_after_build. by destruct (reorder_perm ix).
  - intros Hr Hn He. unfold reorder_graph_after_build. rewrite Hr.
    rewrite (proj2 (Nat.eqb_neq _ _)), (proj2 (Z.eqb_neq (HNSW.entry_point _) _)) by lia. cbn [require bind orb]. split.
    + intros Hl. by rewrite (proj2 (Z.eqb_neq level 0)).
    + intros -> Hbad. rewrite !Forall_cons in Hbad. by destruct Hbad as (-> & -> & -> & -> & -> & _).
Qed.

Lemma layout_pass_guards_witness :
  reorder_graph_after_build (with_perm ex_index [3; 2; 1; 0]) 0 (Some "bfs"%string) =
    Throw "The post-build HNSW layout pass may be applied only once; reset or rebuild the index first" /\
  reorder_graph_after_build ex_index 0 (Some "hilbert"%string) = Throw "Unknown HNSW layout method".
Proof.
  split.
  - apply (proj1 (layout_pass_guards (with_perm ex_index [3; 2; 1; 0]) (Some "bfs"%string) 0)). done.
  - apply (proj2 (layout_pass_guards ex_index (Some "hilbert"%string) 0)); [reflexivity | simpl; lia | simpl; lia | reflexivity |].
    repeat constructor.
Defined.

(** the recorded order translates ids: after a layout pass, translating new
    ids is a bijection from [0 .. ntotal-1] onto itself (every original id is
    hit by exactly one new id) and any other id (the [-1] of missing results
    included) is returned as it is. *)
Theorem convert_to_original_id_bijective ix p : is_perm (ntotal ix) p -> reorder_perm ix = p ->
  (forall new_id, new_id < ntotal ix -> exists o, convert_to_original_id ix (Z.of_nat new_id) = Ret (Z.of_nat o)
      /\ o < ntotal ix /\ p !! new_id = Some o) /\
  (forall o, o < ntotal ix -> exists new_id, new_id < ntotal ix /\
      convert_to_original_id ix (Z.of_nat new_id) = Ret (Z.of_nat o) /\
      forall other, other < ntotal ix ->
        convert_to_original_id ix (Z.of_nat other) = Ret (Z.of_nat o) -> other = new_id) /\
  (forall id, (id < 0 \/ Z.of_nat (ntotal ix) <= id)%Z -> convert_to_original_id ix id = Ret id).
Proof.
  intros Hp Hr. pose proof (is_perm_length _ _ Hp) as Hl.
  assert (forall i o, p !! i = Some o -> convert_to_original_id ix (Z.of_nat i) = Ret (Z.of_nat o)) as Hconv.
  { intros i o Ho. unfold convert_to_original_id. rewrite Hr. apply lookup_lt_Some in Ho as Hi.
    rewrite (proj2 (Z.ltb_ge _ _)), (proj2 (Z.leb_gt _ _)) by lia. destruct p; [simpl in Hi; lia|].
    simpl orb. cbv iota. rewrite vgetz_of_nat. by rewrite (proj2 (vget_Ret _ _ _) Ho). }
  split_and!.
  - intros i Hi. destruct (is_perm_lookup _ _ i Hp Hi) as (o & Ho & Hon). exists o. auto.
  - intros o Ho. apply (is_perm_elem _ _ o Hp), list_elem_of_lookup in Ho as [i Hi].
    exists i. apply lookup_lt_Some in Hi as Hil. split_and!; [lia|auto|].
    intros j Hj Hcj. destruct (is_perm_lookup _ _ j Hp Hj) as (o' & Ho' & _).
    rewrite (Hconv j o' Ho') in Hcj. injection Hcj as Heq%Nat2Z.inj. subst o'.
    by eapply NoDup_lookup; [apply (is_perm_NoDup _ _ Hp)| |].
  - intros id Hid. unfold convert_to_original_id. rewrite Hr.
    destruct (Z.ltb_spec id 0); [by rewrite orb_true_r|].
    rewrite (proj2 (Z.leb_le _ _)) by lia. by rewrite !orb_true_r.
Qed.

Lemma convert_to_original_id_bijective_witness :
  exists o, convert_to_original_id (with_perm ex_index [2; 0; 3; 1]) 2 = Ret (Z.of_nat o) /\ o < 4
      /\ [2; 0; 3; 1] !! 2 = Some o.
Proof.
  apply (proj1 (convert_to_original_id_bijective (with_perm ex_index [2; 0; 3; 1]) [2; 0; 3; 1]
    (@bool_decide_unpack (is_perm 4 [2; 0; 3; 1]) (is_perm_dec _ _) I)
    ltac:(reflexivity)) 2). simpl. lia.
Defined.

(** [h'] is [h] with its level-0 lists sorted and nothing else changed. *)
Definition level0_sorted (n : nat) (h h' : HNSW.t) : Prop :=
  HNSW.wf h' n /\ HNSW.offsets h' = HNSW.offsets h /\ HNSW.entry_point h' = HNSW.entry_point h /\
  (forall i, i < n -> HNSW.links h' i 0 ≡ₚ HNSW.links h i 0 /\ StronglySorted (≤) (HNSW.links h' i 0)) /\
  (forall i l layer_no, HNSW.levels h !! i = Some l -> 1 <= layer_no < l ->
     HNSW.slots h' i layer_no = HNSW.slots h i layer_no).

Lemma optimize_sorts h n : HNSW.wf h n -> wp (optimize_neighbors_by_id h n) (level0_sorted n h).
Proof.
  intros Hwf. eapply wp_mono; [apply (optimize_spec Hwf)|].
  intros h' (Hwf' & (_ & _ & Ho & He & _ & Hl0 & Hup)). split_and!; [done..| |done]. intros i Hi. rewrite (Hl0 i Hi). split.
  - apply merge_sort_Permutation.
  - apply (StronglySorted_merge_sort (≤)).
Qed.

(** C6: the rorder method lays the index out in the GOrder permutation (the
    graph renamed, codes and norms moved) and then sorts every level-0 list in
    ascending order of ids, leaving offsets, entry point, upper levels, storage
    and the recorded order as the layout left them. *)
Theorem rorder_layout `{SS : !StdSort} ix f method :
  wf_index ix f -> reorder_perm ix = [] -> 0 < ntotal ix ->
  (0 <= HNSW.entry_point (hnsw ix))%Z -> gorder_ready ix -> method_equals method (Some "rorder"%string) = true ->
  exists p ix1 f' ix', generateGorderPermutation (hnsw ix) (ntotal ix) = Ret p /\ laid_out p ix ix1 f f' /\
    reorder_graph_after_build ix 0 method = Ret ix' /\
    level0_sorted (ntotal ix) (hnsw ix1) (hnsw ix') /\ ntotal ix' = ntotal ix /\
    storage ix' = storage ix1 /\ reorder_perm ix' = p.
Proof.
  intros Hwf Hr Hn He [Hsl Hcap] Hmm. destruct (pass_guard ix Hr Hn He) as [Hg1 Hg2].
  destruct (wp_elim _ _ (gorder_perm_spec (hnsw ix) (ntotal ix) (wi_graph _ _ Hwf) Hsl Hcap)) as (p & Hgen & Hp).
  destruct (wp_elim _ _ (apply_layout_spec ix f p Hwf Hp)) as (ix1 & Happ & f' & Hwf1 & Hnt & Hperm & Hren & Hst).
  destruct (wp_elim _ _ (optimize_sorts (hnsw ix1) (ntotal ix1) (wi_graph _ _ Hwf1))) as (h' & Hopt & Hsorted).
  exists p, ix1, f', (mkIndex h' (ntotal ix1) (storage ix1) (reorder_perm ix1)).
  rewrite Hnt in Hsorted. split; [done|]. split; [done|]. split; [|done].
  unfold reorder_graph_after_build. rewrite Hg1, Hg2. cbn [require bind Z.eqb].
  rewrite Hmm, Hgen. cbn [bind]. rewrite Happ. cbn [bind]. rewrite Hopt. done.
Qed.

Lemma rorder_layout_witness :
  exists p ix1 f' ix', generateGorderPermutation (hnsw ex_index) 4 = Ret p /\ laid_out p ex_index ix1 ex_flat f' /\
    reorder_graph_after_build ex_index 0 (Some "ROrder"%string) = Ret ix' /\
    level0_sorted 4 (hnsw ix1) (hnsw ix') /\ ntotal ix' = 4 /\ storage ix' = storage ix1 /\ reorder_perm ix' = p.
Proof.
  apply (rorder_layout ex_index ex_flat (Some "ROrder"%string));
    [apply ex_wf | reflexivity | simpl; lia | simpl; lia | apply ex_ready | reflexivity].
Defined.

(** the adjacency structure that the RCM and Rabbit orders work on is the
    symmetric closure of the level-0 links, with strictly increasing (so
    duplicate-free) lists. *)
Theorem undirected_graph_is_symmetric_closure h n : HNSW.wf h n ->
  exists g, build_undirected_level0_graph h n = Ret g /\ length g = n /\
    (forall i j, j ∈ g !!! i <->
       (i < n /\ j ∈ HNSW.links h i 0) \/ (j < n /\ i ∈ HNSW.links h j 0)) /\
    (forall i, StronglySorted (<) (g !!! i)).
Proof.
  intros Hwf. destruct (wp_elim _ _ (build_undirected_spec h n Hwf)) as (g & Hg & [Hl He] & Hs).
  by exists g.
Qed.

Lemma undirected_graph_is_symmetric_closure_witness :
  exists g, build_undirected_level0_graph ex_hnsw 4 = Ret g /\ length g = 4 /\
    (forall i j, j ∈ g !!! i <->
       (i < 4 /\ j ∈ HNSW.links ex_hnsw i 0) \/ (j < 4 /\ i ∈ HNSW.links ex_hnsw j 0)) /\
    (forall i, StronglySorted (<) (g !!! i)).
Proof. apply (undirected_graph_is_symmetric_closure ex_hnsw 4). apply (wi_graph _ _ ex_wf). Defined.

(** [prepare_level_tab] grows a well-formed table: for any drawn levels that
    the per-level table covers it returns a well-formed table of [n0 + n]
    nodes, the slots of the old nodes as they were, the new nodes without
    links, and a maximal level no drawn level exceeds. *)
Theorem prepare_level_tab_grows h n0 n drawn : HNSW.wf h n0 -> n <= length drawn ->
  Forall (fun l => l + 1 < length (HNSW.cum_nneighbor_per_level h)) drawn ->
  exists h' ml, HNSW.prepare_level_tab h n false drawn = Ret (h', ml) /\
    HNSW.wf h' (n0 + n) /\ HNSW.extended h (S <$> take n drawn) h' /\
    Forall (fun l => l <= ml) (take n drawn).
Proof.
  intros Hwf Hn Hd.
  destruct (wp_elim _ _ (HNSW.prepare_level_tab_spec h n0 n drawn Hwf Hn Hd)) as ([h' ml] & ? & ? & ? & ?).
  by exists h', ml.
Qed.

Lemma prepare_level_tab_grows_witness :
  exists h' ml, HNSW.prepare_level_tab ex_hnsw 2 false [0; 0] = Ret (h', ml) /\
    HNSW.wf h' (4 + 2) /\ HNSW.extended ex_hnsw (S <$> take 2 [0; 0]) h' /\
    Forall (fun l => l <= ml) (take 2 [0; 0]).
Proof.
  apply (prepare_level_tab_grows ex_hnsw 4 2 [0; 0]);
    [apply (wi_graph _ _ ex_wf) | simpl; lia | repeat constructor; simpl; lia].
Defined.
