(* ===== verification/Expected.v ===== *)
(** * Status codes and expected values (knowhere/expected.h)

    The error vocabulary shared by every index: [Status], its text and numeric
    code, and the value-or-error type [expected] with the operations that build
    and overwrite it. *)

From S2P Require Import Prelude.

Inductive Status :=
  | success | invalid_args | invalid_param_in_json | out_of_range_in_json | type_conflict_in_json
  | invalid_metric_type | empty_index | not_implemented | index_not_trained | index_already_trained
  | faiss_inner_error | hnsw_inner_error | malloc_error | diskann_inner_error | disk_file_error
  | invalid_value_in_json | arithmetic_overflow | cuvs_inner_error | invalid_binary_set
  | invalid_instruction_set | cardinal_inner_error | cuda_runtime_error | invalid_index_error
  | invalid_cluster_error | cluster_inner_error | timeout | internal_error
  | invalid_serialized_index_type | sparse_inner_error | brute_force_inner_error
  | emb_list_inner_error | aisaq_error.

#[export] Instance status_eq_dec : EqDecision Status.
Proof. solve_decision. Defined.

(** The enumerators' values. *)
Definition status_code (s : Status) : nat :=
  match s with
  | success => 0 | invalid_args => 1 | invalid_param_in_json => 2 | out_of_range_in_json => 3
  | type_conflict_in_json => 4 | invalid_metric_type => 5 | empty_index => 6 | not_implemented => 7
  | index_not_trained => 8 | index_already_trained => 9 | faiss_inner_error => 10
  | hnsw_inner_error => 12 | malloc_error => 13 | diskann_inner_error => 14 | disk_file_error => 15
  | invalid_value_in_json => 16 | arithmetic_overflow => 17 | cuvs_inner_error => 18
  | invalid_binary_set => 19 | invalid_instruction_set => 20 | cardinal_inner_error => 21
  | cuda_runtime_error => 22 | invalid_index_error => 23 | invalid_cluster_error => 24
  | cluster_inner_error => 25 | timeout => 26 | internal_error => 27
  | invalid_serialized_index_type => 28 | sparse_inner_error => 29 | brute_force_inner_error => 30
  | emb_list_inner_error => 31 | aisaq_error => 32
  end.

Definition Status2String (s : Status) : string :=
  match s with
  | invalid_args => "invalid args"
  | invalid_param_in_json => "invalid param in json"
  | out_of_range_in_json => "out of range in json"
  | type_conflict_in_json => "type conflict in json"
  | invalid_metric_type => "invalid metric type"
  | empty_index => "empty index"
  | not_implemented => "not implemented"
  | index_not_trained => "index not trained"
  | index_already_trained => "index already trained"
  | faiss_inner_error => "faiss inner error"
  | hnsw_inner_error => "hnsw inner error"
  | malloc_error => "malloc error"
  | diskann_inner_error => "diskann inner error"
  | disk_file_error => "disk file error"
  | invalid_value_in_json => "invalid value in json"
  | arithmetic_overflow => "arithmetic overflow"
  | cuvs_inner_error => "raft inner error"
  | invalid_binary_set => "invalid binary set"
  | invalid_instruction_set => "the current index is not supported on the current CPU model"
  | cardinal_inner_error => "cardinal inner error"
  | invalid_cluster_error => "invalid cluster type"
  | cluster_inner_error => "cluster inner error"
  | internal_error => "internal error (something that must not have happened at all)"
  | invalid_serialized_index_type => "the serialized index type is not recognized"
  | sparse_inner_error => "sparse index inner error"
  | brute_force_inner_error => "brute_force inner error"
  | emb_list_inner_error => "emb_list inner error"
  | aisaq_error => "internal AiSAQ error"
  | _ => "unexpected status"
  end.

(** ** expected *)

Record expected (T : Type) := mkExpected { exp_val : option T; err : Status; msg : string }.
Arguments mkExpected {T}.
Arguments exp_val {T}.
Arguments err {T}.
Arguments msg {T}.

Section expected.
Context {T : Type}.

(** [expected(args...)], [OK()] and [Err(err, msg)]; the assertion of the error
    constructor is a precondition. *)
Definition of_value (v : T) : expected T := mkExpected (Some v) success "".
Definition OK : expected T := mkExpected None success "".
Definition Err (e : Status) (m : string) : expected T := mkExpected None e m.

Definition has_value (x : expected T) : bool := match exp_val x with Some _ => true | None => false end.
Definition unexpected (x : expected T) : bool := bool_decide (err x <> success).
Definition value (x : expected T) : M T := match exp_val x with Some v => Ret v | None => Undef end.

(** [operator<<(msg)] and [operator=(err)]. *)
Definition append_msg (x : expected T) (m : string) : expected T :=
  mkExpected (exp_val x) (err x) (msg x +:+ m).
Definition assign_status (x : expected T) (e : Status) : expected T :=
  mkExpected (exp_val x) e (msg x).

(** [DoAssignOrReturn(lhs, exp)]: the new [lhs] and the returned value. *)
Definition DoAssignOrReturn (lhs : T) (x : expected T) : T * expected T :=
  (default lhs (exp_val x), x).

End expected.

(** [RETURN_IF_ERROR(expr)]. *)
Definition RETURN_IF_ERROR (s : Status) (k : Status) : Status :=
  if bool_decide (s <> success) then s else k.
