(* ===== verification/Num.v ===== *)
(** * Scores

    The arithmetic that distance and score code uses, as an interface: the
    routines are written once over it and run on binary32 numbers (what the
    library computes with) or on integers (exact scores).  [NumOrder] is what
    heaps and pruning rely on: away from NaN, [<] is a strict weak order and
    [==] implies neither side is smaller. *)

From S2P Require Import Prelude Float.

Class Num (A : Type) := {
  nzero : A;
  nadd : A -> A -> A;
  nsub : A -> A -> A;
  nmul : A -> A -> A;
  nabs : A -> A;
  nltb : A -> A -> bool;
  neqb : A -> A -> bool;
  nofZ : Z -> A;          (* conversion from an integer *)
  ntrunc : A -> Z;        (* conversion to an integer, toward zero *)
  nnan : A                (* the filler of missing results *)
}.

Class NumOrder (A : Type) `{!Num A} := {
  nok : A -> Prop;
  nltb_sw :: StrictWeak nok nltb;
  neqb_ge : forall x y, nok x -> nok y -> neqb x y = true -> nltb y x = false;
  neqb_total : forall x y, nok x -> nok y -> nltb x y = false -> nltb y x = false -> neqb x y = true;
  nabs_ge : forall x, nltb (nabs x) nzero = false;
  nok_zero : nok nzero
}.

(** Truncation of a finite value. *)
Definition SF_trunc (f : spec_float) : Z :=
  match f with
  | S754_finite s m e =>
      let a := if (0 <=? e)%Z then Z.shiftl (Zpos m) e else Z.shiftr (Zpos m) (- e) in
      if s then (- a)%Z else a
  | _ => 0%Z
  end.

#[export] Instance F32_num : Num spec_float := {|
  nzero := F32.zero; nadd := F32.add; nsub := F32.sub; nmul := F32.mul; nabs := SFabs;
  nltb := SFltb; neqb := SFeqb;
  nofZ := F32.of_Z; ntrunc := SF_trunc; nnan := S754_nan
|}.

#[export] Instance Z_num : Num Z := {|
  nzero := 0%Z; nadd := Z.add; nsub := Z.sub; nmul := Z.mul; nabs := Z.abs;
  nltb := Z.ltb; neqb := Z.eqb;
  nofZ := fun z => z; ntrunc := fun z => z; nnan := 0%Z
|}.

Lemma SFeqb_total x y : is_nan x = false -> is_nan y = false ->
  SFltb x y = false -> SFltb y x = false -> SFeqb x y = true.
Proof.
  intros Hx Hy. unfold SFeqb, SFltb, SFcompare.
  destruct x as [sx|sx| |sx mx ex]; [| |done|]; (destruct y as [sy|sy| |sy my ey]; [| |done|]);
    try destruct sx; try destruct sy; simpl; try done;
    change (Pos.compare_cont Eq mx my) with (Pos.compare mx my);
    change (Pos.compare_cont Eq my mx) with (Pos.compare my mx);
    rewrite (Pos.compare_antisym mx my), (Z.compare_antisym ex ey);
    destruct (Z.compare ex ey), (Pos.compare mx my); done.
Qed.

Lemma SFeqb_rank x y : is_nan x = false -> is_nan y = false -> SFeqb x y = true -> rank x = rank y.
Proof.
  intros Hx Hy. unfold SFeqb, SFcompare.
  destruct x as [sx|sx| |sx mx ex]; [| |done|]; (destruct y as [sy|sy| |sy my ey]; [| |done|]);
    try destruct sx; try destruct sy; simpl; try done;
    change (Pos.compare_cont Eq mx my) with (Pos.compare mx my);
    destruct (Z.compare_spec ex ey); try (destruct (Pos.compare_spec mx my)); simpl; intros; congruence.
Qed.

#[export] Program Instance F32_order : NumOrder spec_float := {| nok := fun f => is_nan f = false |}.
Next Obligation.
  intros x y Hx Hy Heq. simpl in *. apply not_true_iff_false. rewrite SFltb_rank by done.
  rewrite (SFeqb_rank x y) by done. destruct (rank y) as [[a b] c]. simpl. lia.
Qed.
Next Obligation. intros x y. apply SFeqb_total. Qed.
Next Obligation. by intros []. Qed.
Next Obligation. done. Qed.

#[export] Program Instance Z_order : NumOrder Z := {| nok := fun _ => True |}.
Next Obligation. intros x y _ _. simpl. rewrite Z.eqb_eq, Z.ltb_ge. lia. Qed.
Next Obligation. intros x y _ _. simpl. rewrite Z.eqb_eq, !Z.ltb_ge. lia. Qed.
Next Obligation. intros x. simpl. apply Z.ltb_ge. lia. Qed.
Next Obligation. done. Qed.

(** [std::max] and [std::min]. *)
Definition nmax {A} `{!Num A} (a b : A) : A := if nltb a b then b else a.
Definition nmin {A} `{!Num A} (a b : A) : A := if nltb b a then b else a.

(** [operator<=]. *)
Definition nleb {A} `{!Num A} (a b : A) : bool := nltb a b || neqb a b.

(** "No smaller than", on values that are not NaN. *)
Definition nle {A} `{!Num A, !NumOrder A} (x y : A) : Prop := nok x /\ nok y /\ nltb y x = false.

Section order.
Context {A} `{!Num A, !NumOrder A}.
Implicit Types x y z : A.

Lemma nle_refl x : nok x -> nle x x.
Proof. intros H. split_and!; [done..|]. by apply (sw_irrefl (ok:=nok)). Qed.

#[export] Instance nle_trans : Transitive nle.
Proof.
  intros x y z (Hx & Hy & Hxy) (_ & Hz & Hyz). split_and!; [done..|].
  by apply (sw_negtrans (ok:=nok) z y x).
Qed.

Lemma nle_total x y : nok x -> nok y -> nltb x y = true \/ nle y x.
Proof. intros Hx Hy. destruct (nltb x y) eqn:E; [by left|by right]. Qed.

Lemma nltb_nle x y : nok x -> nok y -> nltb x y = true -> nle x y.
Proof. intros Hx Hy H. split_and!; [done..|]. by apply (sw_asym (ok:=nok)). Qed.

Lemma neqb_nle x y : nok x -> nok y -> neqb x y = true -> nle x y.
Proof. intros Hx Hy H. split_and!; [done..|]. by apply neqb_ge. Qed.

Lemma nltb_nle_trans x y z : nltb x y = true -> nok x -> nle y z -> nltb x z = true.
Proof. intros H Hx (Hy & Hz & Hyz). by apply (sw_lt_le (ok:=nok) x y z). Qed.

Lemma nle_nltb_trans x y z : nle x y -> nok z -> nltb y z = true -> nltb x z = true.
Proof.
  intros (Hx & Hy & Hxy) Hz H. destruct (nltb x z) eqn:E; [done|].
  by rewrite (sw_negtrans (ok:=nok) y x z) in H.
Qed.

Lemma nle_not_lt x y : nle x y -> nltb y x = false.
Proof. by intros (_ & _ & ?). Qed.

Lemma nleb_nltb x y : nok x -> nok y -> nleb x y = negb (nltb y x).
Proof.
  intros Hx Hy. unfold nleb. destruct (nltb x y) eqn:E; simpl.
  - apply (sw_asym (ok:=nok)) in E; [|done..]. by rewrite E.
  - destruct (nltb y x) eqn:E'; simpl; [|by apply neqb_total].
    destruct (neqb x y) eqn:E''; [|done]. apply neqb_ge in E''; [congruence|done..].
Qed.

Lemma neqb_zero : neqb (nzero : A) nzero = true.
Proof. apply neqb_total; [apply nok_zero..| |]; apply (sw_irrefl (ok:=nok)), nok_zero. Qed.

Lemma nmax_ok x y : nok x -> nok y -> nok (nmax x y).
Proof. intros. unfold nmax. by destruct (nltb x y). Qed.

Lemma nmax_l x y : nok x -> nok y -> nle x (nmax x y).
Proof.
  intros Hx Hy. unfold nmax. destruct (nltb x y) eqn:E; [by apply nltb_nle|by apply nle_refl].
Qed.

Lemma nmax_r x y : nok x -> nok y -> nle y (nmax x y).
Proof. intros Hx Hy. unfold nmax. destruct (nltb x y) eqn:E; [by apply nle_refl|done]. Qed.

End order.
