(* ===== verification/StdHeap.v ===== *)
(** * Binary heaps in arrays (std::push_heap, std::pop_heap)

    The two standard algorithms that the result heaps of the library are built
    on, as the GNU C++ library implements them: a hole is moved up or down the
    array and the value is written into it at the end.  The lemmas are stated
    for a preorder [R] that the comparator refines, because the heaps of the
    library compare (value, id) pairs but are only ordered by value. *)

From S2P Require Import Prelude.

Definition parent (i : nat) : nat := (i - 1) / 2.

Section heap.
Context {E : Type}.
Context (comp : E -> E -> bool).

(** [__push_heap(first, hole, 0, value, comp)]: the hole rises while the value
    in its parent compares before [value]. *)
Fixpoint sift_up (fuel : nat) (first : list E) (hole : nat) (value : E) : M (list E) :=
  if hole =? 0 then vset first hole value
  else
    let* p := vget first (parent hole) in
    if comp p value then
      let* first := vset first hole p in
      match fuel with
      | 0 => Undef
      | S fuel => sift_up fuel first (parent hole) value
      end
    else vset first hole value.

(** [std::push_heap(first, last, comp)] on the range [l]. *)
Definition push_heap (l : list E) : M (list E) :=
  let* value := vget l (length l - 1) in
  sift_up (length l) l (length l - 1) value.

(** [__adjust_heap]: the hole sinks to a leaf, always to the child that comes
    first, then the value rises from there. *)
Fixpoint sink (fuel : nat) (first : list E) (len hole : nat) : M (list E * nat) :=
  if hole <? (len - 1) / 2 then
    let right := 2 * (hole + 1) in
    let* r := vget first right in
    let* l := vget first (right - 1) in
    let '(child, x) := if comp r l then (right - 1, l) else (right, r) in
    let* first := vset first hole x in
    match fuel with
    | 0 => Undef
    | S fuel => sink fuel first len child
    end
  else if Nat.even len && (0 <? len) && (hole =? (len - 2) / 2) then
    let child := 2 * (hole + 1) - 1 in
    let* x := vget first child in
    let* first := vset first hole x in
    Ret (first, child)
  else Ret (first, hole).

Definition adjust_heap (first : list E) (value : E) : M (list E) :=
  let len := length first in
  let* (first, hole) := sink len first len 0 in
  sift_up len first hole value.

(** [std::pop_heap(first, last, comp)]: the top goes to the last position. *)
Definition pop_heap (l : list E) : M (list E) :=
  if length l <=? 1 then Ret l
  else
    let n := length l - 1 in
    let* value := vget l n in
    let* top := vget l 0 in
    let* front := adjust_heap (take n l) value in
    Ret (front ++ [top]).

(** ** The heap order *)

Context (P : E -> Prop) (R : E -> E -> Prop) `{!Transitive R}.
Hypothesis R_refl : forall x, P x -> R x x.
Hypothesis comp_true : forall p v, P p -> P v -> comp p v = true -> R v p.
Hypothesis comp_false : forall p v, P p -> P v -> comp p v = false -> R p v.

(** Every element but the first is preceded by its parent. *)
Definition heap_ordered (l : list E) : Prop :=
  forall j x y, j <> 0 -> l !! parent j = Some x -> l !! j = Some y -> R x y.

(** [l] with a hole at [h]: the order holds away from the hole and across it. *)
Definition hole_ok (l : list E) (h : nat) : Prop :=
  (forall j x y, j <> 0 -> j <> h -> parent j <> h ->
     l !! parent j = Some x -> l !! j = Some y -> R x y) /\
  (h <> 0 -> forall c x y, c <> 0 -> parent c = h ->
     l !! parent h = Some x -> l !! c = Some y -> R x y).

(** [v] may stand in the hole as far as the hole's children are concerned. *)
Definition above_children (l : list E) (h : nat) (v : E) : Prop :=
  forall c y, c <> 0 -> parent c = h -> l !! c = Some y -> R v y.

Lemma parent_lt j : j <> 0 -> parent j < j.
Proof. intros H. unfold parent. pose proof (Nat.Div0.div_lt_upper_bound (j - 1) 2 j). lia. Qed.

Lemma parent_children c h : c <> 0 -> parent c = h <-> c = 2 * h + 1 \/ c = 2 * h + 2.
Proof.
  intros Hc. unfold parent. pose proof (Nat.div_mod_eq (c - 1) 2).
  pose proof (Nat.mod_upper_bound (c - 1) 2). lia.
Qed.

Lemma lookup_insert_other (l : list E) h i (x y : E) :
  h <> i -> <[h := x]> l !! i = Some y -> l !! i = Some y.
Proof. intros Hne. by rewrite list_lookup_insert_ne. Qed.

Lemma lookup_insert_same (l : list E) h (x y : E) : <[h := x]> l !! h = Some y -> y = x.
Proof. intros H. apply list_lookup_insert_Some in H as [(_ & -> & _)|[? _]]; done. Qed.

(** Moving the element at [c] into the hole moves the hole to [c]. *)
Lemma move_hole_perm (l : list E) h c (x v : E) : h < length l -> c <> h -> l !! c = Some x ->
  <[c := v]> (<[h := x]> l) ≡ₚ <[h := v]> l.
Proof.
  intros Hh Hne Hx. apply lookup_lt_Some in Hx as Hc. apply Permutation_inj.
  split; [by rewrite !length_insert|].
  exists (fun i => if decide (i = c) then h else if decide (i = h) then c else i). split.
  - intros i j. repeat case_decide; lia.
  - intros i. repeat case_decide; subst.
    + by rewrite list_lookup_insert_eq, list_lookup_insert_eq by (rewrite ?length_insert; lia).
    + rewrite list_lookup_insert_ne, list_lookup_insert_eq by lia.
      by rewrite list_lookup_insert_ne by lia.
    + by rewrite !list_lookup_insert_ne by lia.
Qed.

Lemma fill_hole l h v : hole_ok l h -> above_children l h v ->
  (h <> 0 -> forall p, l !! parent h = Some p -> R p v) -> heap_ordered (<[h := v]> l).
Proof.
  intros [Ho _] Hch Hp j x y Hj Hx Hy. pose proof (parent_lt j Hj).
  destruct (decide (j = h)) as [->|Hjh].
  - apply lookup_insert_same in Hy as ->. apply Hp; [done|].
    by apply (lookup_insert_other _ h _ v); [lia|].
  - apply lookup_insert_other in Hy; [|done].
    destruct (decide (parent j = h)) as [Hpj|Hpj].
    + rewrite Hpj in Hx. apply lookup_insert_same in Hx as ->. by apply (Hch j).
    + apply lookup_insert_other in Hx; [|done]. by apply (Ho j).
Qed.

Lemma sift_up_spec fuel : forall l h v, h < length l -> h <= fuel -> Forall P l -> P v ->
  hole_ok l h -> above_children l h v ->
  wp (sift_up fuel l h v) (fun l' => heap_ordered l' /\ l' ≡ₚ <[h := v]> l).
Proof.
  induction fuel as [|fuel IH]; intros l h v Hh Hf HP HPv Hok Hch; simpl;
    (destruct (Nat.eqb_spec h 0) as [Hh0|Hh0];
      [apply wp_vset; [done|]; split; [by apply fill_hole|done]|]); [lia|].
  pose proof (parent_lt h Hh0) as Hlt. apply wp_bind, wp_vget; [lia|]. intros p Hp.
  assert (P p) as HPp by (by eapply Forall_lookup_1).
  destruct (comp p v) eqn:Hc.
  - apply comp_true in Hc; [|done..]. apply wp_bind, wp_vset; [done|].
    destruct Hok as [Ho Hacross]. eapply wp_mono; [apply IH|].
    + rewrite length_insert. lia.
    + lia.
    + by apply Forall_insert.
    + done.
    + split.
      * intros j x y Hj Hjh Hpj Hx Hy. assert (j <> h) by (intros ->; done).
        apply lookup_insert_other in Hy; [|done].
        destruct (decide (parent j = h)) as [Hph|Hph].
        -- rewrite Hph in Hx. apply lookup_insert_same in Hx as ->. by apply (Hacross Hh0 j).
        -- apply lookup_insert_other in Hx; [|done]. by apply (Ho j).
      * intros Hp0 c x y Hc0 Hpc Hx Hy. pose proof (parent_lt _ Hp0).
        apply lookup_insert_other in Hx; [|lia].
        assert (R x p) as Hxp by (apply (Ho (parent h) x p); [done|lia|lia|done|done]).
        destruct (decide (c = h)) as [->|Hch'].
        -- by apply lookup_insert_same in Hy as ->.
        -- apply lookup_insert_other in Hy; [|done]. transitivity p; [done|].
           apply (Ho c); [done|done|lia|by rewrite Hpc|done].
    + intros c y Hc0 Hpc Hy. destruct (decide (c = h)) as [->|Hch'].
      * by apply lookup_insert_same in Hy as ->.
      * apply lookup_insert_other in Hy; [|done]. transitivity p; [done|].
        apply (Ho c); [done|done|lia|by rewrite Hpc|done].
    + intros l' [Hl' Hperm]. split; [done|]. rewrite Hperm. apply move_hole_perm; [done|lia|done].
  - apply wp_vset; [done|]. split; [|done]. apply fill_hole; [done|done|].
    intros _ p' Hp'. simplify_eq. by apply comp_false.
Qed.

(** One step of the sinking hole. *)
Lemma hole_down l h c x : hole_ok l h -> h < length l -> c <> 0 -> parent c = h -> l !! c = Some x ->
  (forall c' y, c' <> 0 -> parent c' = h -> l !! c' = Some y -> R x y) ->
  hole_ok (<[h := x]> l) c.
Proof.
  intros [Ho Hacross] Hh Hc0 Hpc Hx Hmin. pose proof (parent_lt c Hc0). split.
  - intros j a b Hj Hjc Hpj Ha Hb. destruct (decide (j = h)) as [->|Hjh].
    + apply lookup_insert_same in Hb as ->. pose proof (parent_lt h Hj).
      apply lookup_insert_other in Ha; [|lia]. by apply (Hacross Hj c).
    + apply lookup_insert_other in Hb; [|done]. destruct (decide (parent j = h)) as [Hph|Hph].
      * rewrite Hph in Ha. apply lookup_insert_same in Ha as ->. by apply (Hmin j).
      * apply lookup_insert_other in Ha; [|done]. by apply (Ho j).
  - intros _ c' a b Hc' Hpc' Ha Hb. pose proof (parent_lt c' Hc').
    rewrite Hpc in Ha. apply lookup_insert_same in Ha as ->.
    apply lookup_insert_other in Hb; [|lia].
    apply (Ho c'); [done|lia|lia|by rewrite Hpc'|done].
Qed.

Definition sunk (l : list E) (h : nat) (st : list E * nat) : Prop :=
  let '(l', h') := st in
  length l' = length l /\ h' < length l /\ length l <= 2 * h' + 1 /\ Forall P l' /\ hole_ok l' h' /\
  forall v, <[h' := v]> l' ≡ₚ <[h := v]> l.

Lemma sunk_step l h c x st : h < length l -> c <> h -> l !! c = Some x ->
  sunk (<[h := x]> l) c st -> sunk l h st.
Proof.
  intros Hh Hne Hx. destruct st as [l' h']. unfold sunk. rewrite length_insert.
  intros (? & ? & ? & ? & ? & Hp). split_and!; [done..|]. intros v. rewrite Hp.
  by apply move_hole_perm.
Qed.

Lemma sink_spec fuel : forall l h, h < length l -> length l <= h + fuel -> Forall P l -> hole_ok l h ->
  wp (sink fuel l (length l) h) (sunk l h).
Proof.
  induction fuel as [|fuel IH]; intros l h Hh Hf HP Hok; [lia|]. cbn [sink].
  pose proof (Nat.div_mod_eq (length l - 1) 2). pose proof (Nat.mod_upper_bound (length l - 1) 2).
  destruct (Nat.ltb_spec h ((length l - 1) / 2)) as [Hlt|Hge].
  - replace (2 * (h + 1)) with (2 * h + 2) by lia. replace (2 * h + 2 - 1) with (2 * h + 1) by lia.
    apply wp_bind, wp_vget; [lia|]. intros r Hr. apply wp_bind, wp_vget; [lia|]. intros lft Hl.
    assert (P r /\ P lft) as [HPr HPl] by (split; by eapply Forall_lookup_1).
    assert (forall x, R x lft -> R x r ->
      forall c' y, c' <> 0 -> parent c' = h -> l !! c' = Some y -> R x y) as Hmin.
    { intros x H1 H2 c' y Hc' [->| ->]%parent_children Hy; [by simplify_eq..|done]. }
    destruct (comp r lft) eqn:Hc; apply wp_bind, wp_vset; try lia.
    + eapply wp_mono; [rewrite <- (length_insert l h lft); apply IH|].
      * rewrite length_insert. lia.
      * rewrite length_insert. lia.
      * by apply Forall_insert.
      * apply hole_down; [done|done|lia|apply parent_children; lia|done|].
        apply Hmin; [by apply R_refl|by apply comp_true].
      * intros st. apply sunk_step; [done|lia|done].
    + eapply wp_mono; [rewrite <- (length_insert l h r); apply IH|].
      * rewrite length_insert. lia.
      * rewrite length_insert. lia.
      * by apply Forall_insert.
      * apply hole_down; [done|done|lia|apply parent_children; lia|done|].
        apply Hmin; [by apply comp_false|by apply R_refl].
      * intros st. apply sunk_step; [done|lia|done].
  - destruct (Nat.even (length l) && _ && _) eqn:Hb.
    + apply andb_true_iff in Hb as [[He%Nat.even_spec _]%andb_true_iff Hlast%Nat.eqb_eq].
      destruct He as [m Hm]. replace (length l - 2) with ((m - 1) * 2) in Hlast by lia.
      rewrite Nat.div_mul in Hlast by lia.
      replace (2 * (h + 1) - 1) with (2 * h + 1) by lia.
      apply wp_bind, wp_vget; [lia|]. intros x Hx. apply wp_bind, wp_vset; [done|].
      apply (sunk_step l h (2 * h + 1) x); [done|lia|done|].
      split_and!; [done| | |by apply Forall_insert; [|eapply Forall_lookup_1]| |done];
        rewrite ?length_insert; [lia|lia|].
      apply hole_down; [done|done|lia|apply parent_children; lia|done|].
      intros c' y Hc' [->| ->]%parent_children Hy; [|apply lookup_lt_Some in Hy; lia|done].
      simplify_eq. apply R_refl. by eapply Forall_lookup_1.
    + split_and!; [done|done| |done|done|done].
      destruct (Nat.le_gt_cases (length l) (2 * h + 1)) as [|Hgt]; [done|exfalso].
      assert (length l = 2 * h + 2) as Hlen by lia. rewrite Hlen in Hb.
      replace (2 * h + 2) with ((h + 1) * 2) in Hb by lia.
      rewrite Nat.even_mul, orb_true_r in Hb.
      replace ((h + 1) * 2 - 2) with (h * 2) in Hb by lia.
      rewrite Nat.div_mul, Nat.eqb_refl in Hb by lia.
      rewrite (proj2 (Nat.ltb_lt _ _)) in Hb by lia. done.
Qed.

(** ** push_heap and pop_heap *)

Lemma snoc_hole l v : heap_ordered l -> hole_ok (l ++ [v]) (length l) /\
  above_children (l ++ [v]) (length l) v.
Proof.
  intros Ho. assert (forall i y, i <> length l -> (l ++ [v]) !! i = Some y -> l !! i = Some y) as Hl.
  { intros i y Hne Hy. apply lookup_lt_Some in Hy as Hi. rewrite length_app in Hi. simpl in Hi.
    by rewrite lookup_app_l in Hy by lia. }
  assert (forall c y, c <> 0 -> parent c = length l -> (l ++ [v]) !! c = Some y -> False) as Hno.
  { intros c y Hc Hp Hy%lookup_lt_Some. rewrite length_app in Hy. simpl in Hy.
    pose proof (parent_lt c Hc). lia. }
  split; [split|].
  - intros j x y Hj Hjl Hpj Hx Hy. by apply (Ho j); [|apply Hl..].
  - intros _ c x y Hc Hp Hx Hy. by destruct (Hno c y).
  - intros c y Hc Hp Hy. by destruct (Hno c y).
Qed.

Lemma push_heap_spec l v : Forall P l -> P v -> heap_ordered l ->
  wp (push_heap (l ++ [v])) (fun l' => heap_ordered l' /\ l' ≡ₚ v :: l).
Proof.
  intros HP HPv Ho. unfold push_heap. rewrite length_app. simpl. replace (length l + 1 - 1) with (length l) by lia.
  rewrite (proj2 (vget_Ret (l ++ [v]) (length l) v)) by (by rewrite lookup_app_r, Nat.sub_diag by lia).
  simpl. destruct (snoc_hole l v Ho) as [Hok Hch].
  eapply wp_mono; [apply sift_up_spec; [rewrite length_app; simpl; lia|lia| |done..]|].
  { by apply Forall_app_2; [|constructor]. }
  intros l' [Hl' Hp]. split; [done|]. rewrite Hp.
  rewrite insert_app_r_alt, Nat.sub_diag by lia. simpl. by rewrite Permutation_app_comm.
Qed.

Lemma heap_ordered_take l n : heap_ordered l -> heap_ordered (take n l).
Proof.
  intros Ho j x y Hj Hx Hy. apply lookup_take_Some in Hx as [Hx _], Hy as [Hy _]. by apply (Ho j).
Qed.

Lemma heap_root l x : Forall P l -> heap_ordered l -> l !! 0 = Some x -> Forall (R x) l.
Proof.
  intros HP Ho Hx. apply Forall_lookup. intros i y. revert y.
  induction (lt_wf i) as [i _ IH]. intros y Hy.
  destruct (decide (i = 0)) as [->|Hi]; [simplify_eq; apply R_refl; by eapply Forall_lookup_1|].
  pose proof (parent_lt i Hi). apply lookup_lt_Some in Hy as Hil.
  destruct (lookup_lt_is_Some_2 l (parent i)) as [z Hz]; [lia|].
  transitivity z; [by eapply IH|]. by apply (Ho i).
Qed.

Lemma root_hole l x rest : heap_ordered l -> l = x :: rest -> hole_ok l 0.
Proof. intros Ho ->. split; [|done]. intros j a b Hj _ Hp Ha Hb. by apply (Ho j). Qed.

Lemma adjust_heap_spec x rest v : Forall P (x :: rest) -> P v -> heap_ordered (x :: rest) ->
  wp (adjust_heap (x :: rest) v) (fun l' => heap_ordered l' /\ l' ≡ₚ v :: rest).
Proof.
  intros HP HPv Ho. unfold adjust_heap. apply wp_bind.
  eapply wp_mono; [apply sink_spec; [simpl; lia|lia|done|by eapply root_hole]|].
  intros [l' h'] (Hlen & Hh & Hleaf & HP' & Hok & Hp).
  eapply wp_mono; [apply sift_up_spec; [lia|lia|done|done|done|]|].
  - intros c y Hc [-> | ->]%parent_children Hy; [apply lookup_lt_Some in Hy; lia..|done].
  - intros l'' [Hl'' Hp']. split; [done|]. by rewrite Hp', Hp.
Qed.

Lemma pop_heap_spec x l : Forall P (x :: l) -> heap_ordered (x :: l) ->
  wp (pop_heap (x :: l)) (fun l' => exists front, l' = front ++ [x] /\
    heap_ordered front /\ front ≡ₚ l).
Proof.
  intros HP Ho. unfold pop_heap. simpl length. destruct (Nat.leb_spec (S (length l)) 1) as [Hle|Hgt].
  - exists []. destruct l; [|simpl in Hle; lia]. split_and!; [done| |done]. by intros j a b Hj [=].
  - replace (S (length l) - 1) with (length l) by lia.
    destruct l as [|v front _] using rev_ind; [simpl in Hgt; lia|].
    rewrite length_app. simpl length. replace (length front + 1) with (S (length front)) by lia.
    rewrite (proj2 (vget_Ret (x :: front ++ [v]) (S (length front)) v))
      by (simpl; by rewrite lookup_app_r, Nat.sub_diag by lia).
    cbn [bind]. change (vget (x :: front ++ [v]) 0) with (Ret x). cbn [bind].
    replace (take (S (length front)) (x :: front ++ [v])) with (x :: front)
      by (simpl; by rewrite take_app_length).
    apply wp_bind. eapply wp_mono; [apply adjust_heap_spec|].
    + rewrite Forall_cons, Forall_app in *. tauto.
    + rewrite Forall_cons, Forall_app, Forall_singleton in HP. tauto.
    + apply (heap_ordered_take _ (S (length front))) in Ho. simpl in Ho. by rewrite take_app_length in Ho.
    + intros l' [Hl' Hp]. exists l'. split_and!; [done|done|]. rewrite Hp.
      by rewrite Permutation_app_comm.
Qed.

End heap.
