(* ===== verification/SparseUtils.v ===== *)
(** * Sparse rows, id filters and the bounded result heap (knowhere/sparse_utils.h)

    [SparseRow] as the list of its elements, its merge-join [dot]; the stateful
    filter [DocIdFilterByVector]; [MaxMinHeap], which keeps the [capacity]
    largest values pushed. *)

From S2P Require Import Prelude Float Num StdHeap.

(** ** Elements (IdVal) *)

Module IdVal.

Record t (A : Type) := mk { id : nat; val : A }.
Arguments mk {A} id val.
Arguments id {A}.
Arguments val {A}.

Section ops.
Context {A} `{!Num A}.

#[export] Instance idval_inhabited : Inhabited (t A) := populate (mk 0 nzero).

(** [operator<], [operator==] and [operator>]. *)
Definition lt (lhs rhs : t A) : bool :=
  nltb (val lhs) (val rhs) || (neqb (val lhs) (val rhs) && (id lhs <? id rhs)).
Definition eq (lhs rhs : t A) : bool :=
  (id lhs =? id rhs) && neqb (val lhs) (val rhs).
Definition gt (lhs rhs : t A) : bool :=
  negb (lt lhs rhs) && negb (eq lhs rhs).

End ops.
End IdVal.

Abbreviation idval := IdVal.t.
Abbreviation ival := IdVal.val.
Abbreviation iid := IdVal.id.
#[export] Existing Instance IdVal.idval_inhabited.

(** ** MaxMinHeap *)

Module MaxMinHeap.

Record t (A : Type) := mk {
  pool : list (idval A);
  size : nat;
  capacity : nat
}.
Arguments mk {A} pool size capacity.
Arguments pool {A}.
Arguments size {A}.
Arguments capacity {A}.

Section ops.
Context {A} `{!Num A}.

Definition make (capacity : nat) : t A := mk (replicate capacity inhabitant) 0 capacity.

(** [sift_down(id, val)] from position [i] of the range [pool]. *)
Fixpoint sift_down (fuel : nat) (pool : list (idval A)) (i : nat) (x : idval A)
    : M (list (idval A)) :=
  if 2 * i + 1 <? length pool then
    let l := 2 * i + 1 in
    let r := 2 * i + 2 in
    let* pl := vget pool l in
    let j := if nltb (ival pl) (ival x) then l else i in
    let* j := if r <? length pool then
                let* pr := vget pool r in
                Ret (if nltb (ival pr) (nmin (ival pl) (ival x)) then r else j)
              else Ret j in
    if i =? j then vset pool i x
    else
      let* pj := vget pool j in
      let* pool := vset pool i pj in
      match fuel with
      | 0 => Undef
      | S fuel => sift_down fuel pool j x
      end
  else vset pool i x.

Definition push (h : t A) (i : nat) (v : A) : M (t A) :=
  if size h <? capacity h then
    let* pool := vset (pool h) (size h) (IdVal.mk i v) in
    let size := size h + 1 in
    let* front := push_heap IdVal.gt (take size pool) in
    Ret (mk (front ++ drop size pool) size (capacity h))
  else
    let* p0 := vget (pool h) 0 in
    if nltb (ival p0) v then
      let* front := sift_down (size h) (take (size h) (pool h)) 0 (IdVal.mk i v) in
      Ret (mk (front ++ drop (size h) (pool h)) (size h) (capacity h))
    else Ret h.

(** Popping an empty heap decrements the unsigned size below zero: undefined. *)
Definition pop (h : t A) : M (t A * nat) :=
  if size h =? 0 then Undef
  else
    let* front := pop_heap IdVal.gt (take (size h) (pool h)) in
    let pool := front ++ drop (size h) (pool h) in
    let size := size h - 1 in
    let* x := vget pool size in
    Ret (mk pool size (capacity h), iid x).

Definition empty (h : t A) : bool := size h =? 0.
Definition top (h : t A) : M (idval A) := vget (pool h) 0.
Definition full (h : t A) : bool := size h =? capacity h.

(** The live elements. *)
Definition contents (h : t A) : list (idval A) := take (size h) (pool h).

End ops.

(** *** The invariant and what each operation does to the contents *)

Section spec.
Context {A} `{!Num A, !NumOrder A}.
Implicit Types h : t A.
Implicit Types x y : idval A.

Definition ok x : Prop := nok (ival x).
Definition le x y : Prop := nle (ival x) (ival y).

Lemma gt_true p v : ok p -> ok v -> IdVal.gt p v = true -> le v p.
Proof.
  intros Hp Hv. unfold IdVal.gt, IdVal.lt. rewrite andb_true_iff, !negb_true_iff, orb_false_iff.
  intros [[H _] _]. by split_and!.
Qed.

Lemma gt_false p v : ok p -> ok v -> IdVal.gt p v = false -> le p v.
Proof.
  intros Hp Hv. unfold IdVal.gt, IdVal.lt, IdVal.eq.
  rewrite andb_false_iff, !negb_false_iff, orb_true_iff, !andb_true_iff.
  intros [[H|[H _]]|[_ H]]; [by apply nltb_nle | by apply neqb_nle..].
Qed.

#[global] Instance le_trans : Transitive le.
Proof. intros x y z. apply nle_trans. Qed.

Lemma le_refl x : ok x -> le x x.
Proof. apply nle_refl. Qed.

Record inv h : Prop := {
  inv_len : length (pool h) = capacity h;
  inv_size : size h <= capacity h;
  inv_ok : Forall ok (contents h);
  inv_heap : heap_ordered le (contents h)
}.

Lemma length_contents h : inv h -> length (contents h) = size h.
Proof. intros []. unfold contents. rewrite length_take. lia. Qed.

Lemma make_inv cap : inv (make cap).
Proof. split; unfold contents; simpl; [apply length_replicate|lia|constructor|by intros j x y _ [=]]. Qed.

Lemma make_contents cap : contents (make cap) = [].
Proof. done. Qed.

(** One step of [sift_down]: the value [x] sinks into the hole [i]. *)
Lemma sift_down_spec fuel : forall l i x, i < length l -> length l <= i + fuel ->
  Forall ok l -> ok x -> hole_ok le l i ->
  (i <> 0 -> forall p, l !! StdHeap.parent i = Some p -> le p x) ->
  wp (sift_down fuel l i x) (fun l' => heap_ordered le l' /\ l' ≡ₚ <[i := x]> l).
Proof.
  induction fuel as [|fuel IH]; intros l i x Hi Hf Hok Hx Hhole Hp; [lia|]. cbn [sift_down].
  assert (above_children le l i x -> wp (vset l i x)
    (fun l' => heap_ordered le l' /\ l' ≡ₚ <[i := x]> l)) as Hstop.
  { intros Hab. apply wp_vset; [done|]. split; [by apply fill_hole|done]. }
  destruct (Nat.ltb_spec (2 * i + 1) (length l)) as [Hl|Hl].
  2:{ apply Hstop. intros c y Hc [-> | ->]%parent_children Hy; [apply lookup_lt_Some in Hy; lia..|done]. }
  apply wp_bind, wp_vget; [done|]. intros pl Hpl.
  assert (ok pl) as Hokl by (by eapply Forall_lookup_1).
  (* moving child [j] up, when it is smaller than [x] and than its sibling *)
  assert (forall j pj, l !! j = Some pj -> j <> 0 -> StdHeap.parent j = i -> le pj x ->
    above_children le l i pj ->
    wp (let* pj := vget l j in let* pool := vset l i pj in sift_down fuel pool j x)
       (fun l' => heap_ordered le l' /\ l' ≡ₚ <[i := x]> l)) as Hmove.
  { intros j pj Hj Hj0 Hpj Hle Hab. pose proof (parent_lt j Hj0). apply lookup_lt_Some in Hj as Hjl.
    rewrite (proj2 (vget_Ret _ _ _) Hj). cbn [bind]. apply wp_bind, wp_vset; [done|].
    eapply wp_mono; [apply IH; rewrite ?length_insert; try lia|].
    - apply Forall_insert; [done|]. by eapply Forall_lookup_1.
    - done.
    - by apply hole_down.
    - intros _ p Hp'. rewrite Hpj in Hp'. by apply lookup_insert_same in Hp' as ->.
    - intros l' [? Hl']. split; [done|]. rewrite Hl'. apply move_hole_perm; [done|lia|done]. }
  destruct (Nat.ltb_spec (2 * i + 2) (length l)) as [Hr|Hr].
  - cbn [bind]. apply wp_bind, wp_bind, wp_vget; [done|]. intros pr Hpr. cbn [bind wp].
    assert (ok pr) as Hokr by (by eapply Forall_lookup_1).
    assert (forall y, le y pl -> le y pr -> above_children le l i y) as Hab.
    { intros y H1 H2 c z Hc [-> | ->]%parent_children Hz; by simplify_eq. }
    unfold nmin.
    destruct (nltb (ival pl) (ival x)) eqn:Hlx.
    + assert (nltb (ival x) (ival pl) = false) as -> by (by apply (sw_asym (ok:=nok))).
      destruct (nltb (ival pr) (ival pl)) eqn:Hrl.
      * rewrite (proj2 (Nat.eqb_neq _ _)) by lia. apply (Hmove _ pr); [done|lia|apply parent_children; lia| |].
        -- apply nltb_nle; [done..|]. by apply (sw_trans (ok:=nok) _ (ival pl)).
        -- apply Hab; [by apply nltb_nle|by apply le_refl].
      * rewrite (proj2 (Nat.eqb_neq _ _)) by lia. apply (Hmove _ pl); [done|lia|apply parent_children; lia| |].
        -- by apply nltb_nle.
        -- apply Hab; [by apply le_refl|by split_and!].
    + set (m := if nltb (ival x) (ival pl) then ival x else ival pl).
      assert (le x pl) as Hxpl by (by split_and!).
      destruct (nltb (ival pr) m) eqn:Hrm.
      * assert (nltb (ival pr) (ival x) = true) as Hrx.
        { subst m. destruct (nltb (ival x) (ival pl)) eqn:Hxl; [done|].
          eapply (nltb_nle_trans _ (ival pl)); [done|done|by split_and!]. }
        rewrite (proj2 (Nat.eqb_neq _ _)) by lia. apply (Hmove _ pr); [done|lia|apply parent_children; lia| |].
        -- by apply nltb_nle.
        -- apply Hab; [|by apply le_refl]. transitivity x; [by apply nltb_nle|done].
      * rewrite Nat.eqb_refl. apply Hstop, Hab; [done|]. split_and!; [done..|].
        subst m. destruct (nltb (ival x) (ival pl)) eqn:Hxl; [done|].
        apply (sw_negtrans (ok:=nok) _ (ival pl)); done.
  - cbn [bind]. assert (forall y, le y pl -> above_children le l i y) as Hab.
    { intros y H1 c z Hc [-> | ->]%parent_children Hz; [by simplify_eq| |done].
      apply lookup_lt_Some in Hz. lia. }
    destruct (nltb (ival pl) (ival x)) eqn:Hlx.
    + rewrite (proj2 (Nat.eqb_neq _ _)) by lia. apply (Hmove _ pl); [done|lia|apply parent_children; lia| |].
      * by apply nltb_nle.
      * by apply Hab, le_refl.
    + rewrite Nat.eqb_refl. apply Hstop, Hab. by split_and!.
Qed.

Lemma contents_front (front rest : list (idval A)) n cap : length front = n ->
  contents (mk (front ++ rest) n cap) = front.
Proof. intros <-. apply take_app_length. Qed.

(** Below capacity every pushed element is kept; at capacity the smallest
    element gives way to a larger one. *)
Lemma push_spec h i v : inv h -> 0 < capacity h -> nok v ->
  wp (push h i v) (fun h' => inv h' /\ capacity h' = capacity h /\
    (size h < capacity h -> contents h' ≡ₚ IdVal.mk i v :: contents h) /\
    (size h = capacity h -> exists t rest, contents h ≡ₚ t :: rest /\ Forall (le t) (contents h) /\
       ((nltb (ival t) v = true /\ contents h' ≡ₚ IdVal.mk i v :: rest) \/
        (nltb (ival t) v = false /\ h' = h)))).
Proof.
  intros Hinv Hcap Hv. pose proof Hinv as [Hlen Hsize Hok Hheap]. unfold push.
  pose proof (length_contents h Hinv) as Hlc.
  destruct (Nat.ltb_spec (size h) (capacity h)) as [Hlt|Hge].
  - apply wp_bind, wp_vset; [lia|]. apply wp_bind.
    assert (take (size h + 1) (<[size h := IdVal.mk i v]> (pool h)) = contents h ++ [IdVal.mk i v]) as ->.
    { rewrite Nat.add_1_r, (take_S_r _ _ (IdVal.mk i v)) by (rewrite list_lookup_insert_eq; [done|lia]).
      by rewrite take_insert_ge by lia. }
    eapply wp_mono; [apply (push_heap_spec _ ok le gt_true gt_false); done|].
    intros front [Hf Hp]. assert (length front = size h + 1) as Hlf by (rewrite Hp; simpl; lia).
    pose proof (contents_front front (drop (size h + 1) (<[size h:=IdVal.mk i v]> (pool h)))
      (size h + 1) (capacity h) Hlf) as Hc.
    split_and!; [split; simpl| done | by rewrite Hc | lia].
    + rewrite length_app, length_drop, length_insert. lia.
    + lia.
    + rewrite Hc, Hp. by constructor.
    + by rewrite Hc.
  - assert (size h = capacity h) as Hs by lia.
    destruct (contents h) as [|t rest] eqn:Hc; [simpl in Hlc; lia|].
    assert (pool h = t :: rest) as Hpool.
    { rewrite <- Hc. unfold contents. by rewrite take_ge by lia. }
    rewrite Hpool. change (vget (t :: rest) 0) with (Ret t). cbn [bind].
    assert (Forall (le t) (t :: rest)) as Hroot.
    { apply (heap_root ok le le_refl); [done|done|done]. }
    destruct (nltb (ival t) v) eqn:Htv.
    + rewrite <- Hpool at 1. fold (contents h). rewrite Hc. apply wp_bind.
      eapply wp_mono; [apply (sift_down_spec (size h) (t :: rest) 0 (IdVal.mk i v)); simpl in *;
        [lia|lia|done|done|by eapply root_hole|done]|].
      intros front [Hf Hp]. simpl in Hp. assert (length front = size h) as Hlf by (rewrite Hp; simpl in *; lia).
      pose proof (contents_front front (drop (size h) (t :: rest)) (size h) (capacity h) Hlf) as Hc'.
      split_and!; [split; simpl|done|simpl; lia|].
      * rewrite length_app, length_drop. simpl in *. lia.
      * done.
      * rewrite Hc', Hp. inversion_clear Hok. by constructor.
      * by rewrite Hc'.
      * intros _. exists t, rest. split_and!; [done|done|]. left. by rewrite Hc'.
    + simpl. split_and!; [done|done|simpl; lia|]. intros _. exists t, rest. split_and!; [done|done|by right].
Qed.

Lemma top_spec h : inv h -> 0 < size h -> wp (top h) (fun t => contents h !! 0 = Some t /\
  Forall (le t) (contents h)).
Proof.
  intros Hinv Hs. pose proof Hinv as [Hlen Hsize Hok Hheap]. unfold top. apply wp_vget; [lia|].
  intros t Ht. assert (contents h !! 0 = Some t) as Hc.
  { unfold contents. by rewrite lookup_take_lt. }
  split; [done|]. by apply (heap_root ok le le_refl).
Qed.

Lemma pop_spec h : inv h -> 0 < size h -> wp (pop h) (fun '(h', i) => inv h' /\
  capacity h' = capacity h /\ exists t rest, contents h = t :: rest /\ i = iid t /\ contents h' ≡ₚ rest).
Proof.
  intros Hinv Hs. pose proof Hinv as [Hlen Hsize Hok Hheap]. unfold pop.
  pose proof (length_contents h Hinv) as Hlc.
  rewrite (proj2 (Nat.eqb_neq _ _)) by lia. fold (contents h).
  destruct (contents h) as [|t rest] eqn:Hc; [simpl in Hlc; lia|].
  apply wp_bind. eapply wp_mono; [apply (pop_heap_spec _ ok le le_refl gt_true gt_false); done|].
  intros l' (front & -> & Hf & Hp). simpl in Hlc.
  assert (length front = size h - 1) as Hlf by (rewrite Hp; lia).
  rewrite <- app_assoc. cbn [app].
  rewrite (proj2 (vget_Ret _ _ t)) by (rewrite lookup_app_r, Hlf, Nat.sub_diag by lia; done).
  cbn [bind wp].
  pose proof (contents_front front (t :: drop (size h) (pool h)) (size h - 1) (capacity h) Hlf) as Hc'.
  split_and!; [split; simpl|done|].
  - rewrite length_app. simpl. rewrite length_drop. lia.
  - lia.
  - rewrite Hc', Hp. by inversion_clear Hok.
  - by rewrite Hc'.
  - exists t, rest. by rewrite Hc'.
Qed.

End spec.

(** *** The heap as a top-k filter *)

Section topk.
Context {A} `{!Num A, !NumOrder A}.

(** [K] are [cap] largest of the elements [l] (all of them while they fit). *)
Definition top_of (cap : nat) (l K : list (idval A)) : Prop :=
  exists D, l ≡ₚ K ++ D /\ length K <= cap /\ (D = [] \/ length K = cap) /\
    forall k d, k ∈ K -> d ∈ D -> le d k.

Lemma push_top_of h l i v : inv h -> 0 < capacity h -> nok v -> Forall ok l ->
  top_of (capacity h) l (contents h) ->
  wp (push h i v) (fun h' => inv h' /\ capacity h' = capacity h /\
    top_of (capacity h) (l ++ [IdVal.mk i v]) (contents h')).
Proof.
  intros Hinv Hcap Hv Hl (D & HlD & HK & HD & Hle).
  pose proof (length_contents h Hinv) as Hlc. pose proof (inv_size h Hinv) as Hsz.
  eapply wp_mono; [by apply push_spec|]. intros h' (Hinv' & Hc' & Hroom & Hfull).
  split_and!; [done..|]. set (x := IdVal.mk i v) in *.
  assert (l ++ [x] ≡ₚ x :: contents h ++ D) as Hlx by (by rewrite Permutation_app_comm, HlD).
  destruct (decide (size h < capacity h)) as [Hlt|Hge].
  - specialize (Hroom Hlt). destruct HD as [->|HD]; [|lia].
    exists []. split_and!; [by rewrite Hlx, app_nil_r, app_nil_r, Hroom| |by left|].
    + rewrite Hroom. simpl. lia.
    + by intros k d _ ?%elem_of_nil.
  - assert (size h = capacity h) as Hs by lia. destruct (Hfull Hs) as (t & rest & Hperm & Hmin & Hcase).
    assert (t ∈ contents h) as Htin by (rewrite Hperm; apply elem_of_cons; by left).
    destruct Hcase as [(Hlt & Hnew)|(Hnlt & ->)].
    + exists (t :: D). split_and!.
      * rewrite Hlx, Hnew, Hperm. simpl. apply perm_skip. apply Permutation_middle.
      * rewrite Hnew. rewrite Hperm in Hlc. simpl in *. lia.
      * right. rewrite Hnew. rewrite Hperm in Hlc. simpl in *. lia.
      * assert (ok t) as Hokt by (by apply (proj1 (Forall_forall _ _) (inv_ok h Hinv))).
        intros k d Hk Hd. rewrite Hnew in Hk. apply elem_of_cons in Hk, Hd.
        assert (le t x) as Htx by (by apply nltb_nle).
        assert (le t k) as Htk.
        { destruct Hk as [->|Hk]; [done|]. apply (proj1 (Forall_forall _ _) Hmin).
          rewrite Hperm. apply elem_of_cons. by right. }
        destruct Hd as [->|Hd]; [done|]. transitivity t; [|done]. by apply Hle.
    + exists (x :: D). split_and!; [|done|right; lia|].
      * by rewrite Hlx, Permutation_middle.
      * intros k d Hk Hd. apply elem_of_cons in Hd. destruct Hd as [->|Hd]; [|by apply Hle].
        assert (le t k) by (by apply (proj1 (Forall_forall _ _) Hmin)).
        transitivity t; [|done]. split_and!; [done| |done].
        by apply (proj1 (Forall_forall _ _) (inv_ok h Hinv)).
Qed.

#[global] Instance top_of_proper cap : Proper ((≡ₚ) ==> (≡ₚ) ==> iff) (top_of cap).
Proof.
  assert (forall l l' K K', l ≡ₚ l' -> K ≡ₚ K' -> top_of cap l K -> top_of cap l' K') as H.
  { intros l l' K K' Hl HK (D & HD & Hlen & Hc & Hle). exists D. rewrite <- Hl, <- HK.
    split_and!; [done..|]. intros k d Hk. apply Hle. by rewrite HK. }
  intros l l' Hl K K' HK. split; by apply H.
Qed.

Lemma top_of_nil cap : top_of cap [] [].
Proof. exists []. split_and!; [done|simpl; lia|by left|]. by intros k d ?%elem_of_nil. Qed.

End topk.
End MaxMinHeap.

(** ** collect_result

    [InvertedIndex::collect_result(heap, distances, labels)]: the heap is
    emptied into the result arrays from the back. *)
Section collect.
Context {A} `{!Num A}.

Definition collect_step (st : MaxMinHeap.t A * list A * list Z) (i : nat)
    : M (MaxMinHeap.t A * list A * list Z) :=
  let '(h, distances, labels) := st in
  let* t := MaxMinHeap.top h in
  let* labels := vset labels i (Z.of_nat (iid t)) in
  let* distances := vset distances i (ival t) in
  let* (h, _) := MaxMinHeap.pop h in
  Ret (h, distances, labels).

Definition collect_result (h : MaxMinHeap.t A) (distances : list A) (labels : list Z)
    : M (list A * list Z) :=
  let cnt := MaxMinHeap.size h in
  let* (_, distances, labels) :=
    foldM collect_step (h, distances, labels) (reverse (seq 0 cnt)) in
  Ret (distances, labels).

(** The arrays after [out] was written to their front. *)
Definition results_written (out : list (idval A)) (ds : list A) (ls : list Z)
    (res : list A * list Z) : Prop :=
  res = ((ival <$> out) ++ drop (length out) ds,
         ((fun x => Z.of_nat (iid x)) <$> out) ++ drop (length out) ls).

Context `{!NumOrder A}.

Definition descending : list (idval A) -> Prop := StronglySorted (fun x y => MaxMinHeap.le y x).

Lemma collect_result_spec h ds ls : MaxMinHeap.inv h ->
  MaxMinHeap.size h <= length ds -> MaxMinHeap.size h <= length ls ->
  wp (collect_result h ds ls) (fun res => exists out, out ≡ₚ MaxMinHeap.contents h /\
    descending out /\ results_written out ds ls res).
Proof.
  unfold collect_result. remember (MaxMinHeap.size h) as n eqn:Hn.
  revert h ds ls Hn. induction n as [|n IH]; intros h ds ls Hn Hinv Hd Hl.
  - exists []. split_and!; [|constructor|done]. unfold MaxMinHeap.contents. by rewrite <- Hn.
  - rewrite seq_S, reverse_snoc, Nat.add_0_l. cbn [foldM]. apply wp_bind, wp_bind. unfold collect_step at 1.
    apply wp_bind. eapply wp_mono; [apply MaxMinHeap.top_spec; [done|lia]|]. intros t [Ht Hmin].
    apply wp_bind, wp_vset; [lia|]. apply wp_bind, wp_vset; [lia|]. apply wp_bind.
    eapply wp_mono; [apply MaxMinHeap.pop_spec; [done|lia]|].
    intros [h' i] (Hinv' & _ & t' & rest & Hc & _ & Hrest). rewrite Hc in Ht. injection Ht as ->.
    pose proof (MaxMinHeap.length_contents h Hinv) as Hlc. rewrite Hc in Hlc. simpl in Hlc.
    pose proof (MaxMinHeap.length_contents h' Hinv') as Hlc'. rewrite Hrest in Hlc'.
    apply (IH h' (<[n := ival t]> ds) (<[n := Z.of_nat (iid t)]> ls)) in Hinv' as Hrec;
      [|lia|rewrite length_insert; lia|rewrite length_insert; lia].
    cbn [wp]. apply wp_elim in Hrec as ([ds' ls'] & Heq & out & Hout & Hdesc & Hw).
    destruct (foldM collect_step _ (reverse (seq 0 n))) as [[[h'' ds''] ls'']| |]; [|done..].
    simpl in Heq. injection Heq as -> ->. simpl. exists (out ++ [t]). split_and!.
    + rewrite Hout, Hrest, Hc. by rewrite Permutation_app_comm.
    + apply StronglySorted_app. split_and!; [|done|by repeat constructor].
      intros x y Hx ->%list_elem_of_singleton. apply (proj1 (Forall_forall _ _) Hmin).
      rewrite Hc. apply elem_of_cons. right. by rewrite <- Hrest, <- Hout.
    + unfold results_written in *. injection Hw as -> ->.
      assert (length out = n) as Hlo by (rewrite Hout, Hrest; lia).
      rewrite !fmap_app, !length_app, Hlo, !drop_insert_here by lia. simpl.
      by rewrite <- !app_assoc.
Qed.

End collect.
