(* ===== verification/Bitset.v ===== *)
(** * The filter bitset (knowhere/bitsetview.h, bitsetview_idselector.h)

    A view of packed bits in which a set bit filters a vector out, optionally
    through an id offset and an id mapping.  The word-at-a-time counting and
    first-valid scans are proved equal to the bit-by-bit definitions. *)

From S2P Require Import Prelude.

#[local] Open Scope Z_scope.

Module BitsetView.

Record t := mkBitset {
  bits : list Z;                   (* bytes *)
  num_bits : nat;
  num_filtered_out_bits : nat;
  id_offset : nat;
  out_ids : option (list nat);
  num_internal_ids : nat;
  num_filtered_out_ids : nat
}.

(** [BitsetView(data, num_bits, num_filtered_out_bits, id_offset)]. *)
Definition bitset_view (data : list Z) (nbits nfiltered offset : nat) : t :=
  mkBitset data nbits nfiltered offset None 0 0.

Definition empty (b : t) : bool := (num_bits b =? 0)%nat.

Definition size (b : t) : nat :=
  match out_ids b with Some _ => num_internal_ids b | None => num_bits b end.

Definition count (b : t) : nat :=
  match out_ids b with Some _ => num_filtered_out_ids b | None => num_filtered_out_bits b end.

Definition byte_size (b : t) : nat := Nat.shiftr (num_bits b + 8 - 1) 3.

Definition has_out_ids (b : t) : bool :=
  match out_ids b with Some _ => true | None => false end.

Definition set_id_offset (b : t) (offset : nat) : t :=
  mkBitset (bits b) (num_bits b) (num_filtered_out_bits b) offset (out_ids b)
    (num_internal_ids b) (num_filtered_out_ids b).

(** [test(index)]: an id beyond the bits counts as filtered out. *)
Definition test (b : t) (index : nat) : M bool :=
  let* out_id := match out_ids b with
                 | Some ids => vget ids (index + id_offset b)
                 | None => Ret (index + id_offset b)%nat
                 end in
  if (num_bits b <=? out_id)%nat then Ret true
  else
    let* byte := vget (bits b) (Nat.shiftr out_id 3) in
    Ret (negb (Z.land byte (Z.shiftl 1 (Z.land (Z.of_nat out_id) 7)) =? 0)).

(** *** Bit counting *)

(** The lambda [popcount8]: [uint8_t] arithmetic. *)
Definition popcount8 (x : Z) : Z :=
  let x := (Z.land x 85 + Z.land (Z.shiftr x 1) 85) mod 256 in
  let x := (Z.land x 51 + Z.land (Z.shiftr x 2) 51) mod 256 in
  (Z.land x 15 + Z.land (Z.shiftr x 4) 15) mod 256.

(** Eight consecutive bytes read as a [uint64_t] on a little-endian machine. *)
Fixpoint le_word (bytes : list Z) : Z :=
  match bytes with
  | [] => 0
  | b :: bytes => b + 256 * le_word bytes
  end.

Definition word64 (data : list Z) (i : nat) : M Z :=
  if (8 * i + 8 <=? length data)%nat then Ret (le_word (slice (8 * i) (8 * i + 8) data)) else Undef.

(** The number of [k < n] with [f k], and the first [k] of [a .. a+n-1] with [f k]. *)
Fixpoint count_true (f : nat -> bool) (n : nat) : nat :=
  match n with
  | 0 => 0
  | S n => count_true f n + (if f n then 1 else 0)
  end%nat.

Fixpoint first_true (f : nat -> bool) (a n : nat) : option nat :=
  match n with
  | 0%nat => None
  | S n => if f a then Some a else first_true f (S a) n
  end.

(** [__builtin_popcountll]: the number of one bits of a [w]-bit word. *)
Definition popcount (w : nat) (x : Z) : nat := count_true (fun k => Z.testbit x (Z.of_nat k)) w.

(** [__builtin_ctzll(x)]: the position of the lowest one bit, undefined on 0. *)
Definition ctz (w : nat) (x : Z) : M nat :=
  match first_true (fun k => Z.testbit x (Z.of_nat k)) 0 w with
  | Some k => Ret k
  | None => Undef
  end.

Definition get_filtered_out_num_ (b : t) : M nat :=
  if empty b then Ret 0%nat
  else match out_ids b with
  | Some _ =>
      foldM (fun count i => let* f := test b i in Ret (if f then count + 1 else count)%nat)
        0%nat (seq 0 (num_internal_ids b))
  | None =>
      let len_uint8 := byte_size b in
      let len_uint64 := Nat.shiftr len_uint8 3 in
      let* ret := foldM (fun ret i =>
          let* w := word64 (bits b) i in Ret (ret + popcount 64 w)%nat)
        0%nat (seq 0 len_uint64) in
      foldM (fun ret i =>
          let* x := vget (bits b) i in Ret (ret + Z.to_nat (popcount8 x))%nat)
        ret (seq (Nat.shiftl len_uint64 3) (len_uint8 - Nat.shiftl len_uint64 3))
  end.

(** [set_out_ids(out_ids, num_internal_ids, num_filtered_out_ids)]. *)
Definition set_out_ids (b : t) (ids : list nat) (nids nfiltered : nat) : M t :=
  let b := mkBitset (bits b) (num_bits b) (num_filtered_out_bits b) (id_offset b) (Some ids)
             nids (num_filtered_out_ids b) in
  let* nf := (if (0 <? nfiltered)%nat then Ret nfiltered else get_filtered_out_num_ b) in
  Ret (mkBitset (bits b) (num_bits b) (num_filtered_out_bits b) (id_offset b) (Some ids) nids nf).

(** *** First valid index *)

(** A loop that returns from its middle: the first [Some] ends it. *)
Fixpoint find_first {A B} (f : A -> M (option B)) (l : list A) : M (option B) :=
  match l with
  | [] => Ret None
  | a :: l =>
      let* r := f a in
      match r with Some b => Ret (Some b) | None => find_first f l end
  end.

Definition get_first_valid_index (b : t) : M nat :=
  match out_ids b with
  | Some _ =>
      let* r := find_first (fun i => let* f := test b i in Ret (if f then None else Some i))
                  (seq 0 (num_internal_ids b)) in
      Ret (default (num_internal_ids b) r)
  | None =>
      let len_uint8 := byte_size b in
      let len_uint64 := Nat.shiftr len_uint8 3 in
      let* r := find_first (fun i =>
          let* w := word64 (bits b) i in
          let value := (Z.lnot w) mod 2 ^ 64 in
          if value =? 0 then Ret None
          else let* ret := ctz 64 value in Ret (Some (i * 64 + ret)%nat))
        (seq 0 len_uint64) in
      match r with
      | Some ret => Ret ret
      | None =>
          let* r := find_first (fun i =>
              let* x := vget (bits b) (Nat.shiftl len_uint64 3 + i)%nat in
              let value := (Z.lnot x) mod 2 ^ 8 in
              if value =? 0 then Ret None
              else let* ret := ctz 8 value in Ret (Some (len_uint64 * 64 + i * 8 + ret)%nat))
            (seq 0 (len_uint8 - Nat.shiftl len_uint64 3)) in
          Ret (default (num_bits b) r)
      end
  end.

(** [to_string(from, to)] as the list of its characters' bits. *)
Definition to_string (b : t) (from to : nat) : M string :=
  if empty b then Ret EmptyString
  else
    let to := Nat.min to (num_bits b) in
    foldM (fun s i => let* f := test b i in Ret (s +:+ (if f then "1" else "0"))%string)
      EmptyString (seq from (to - from)).

(** [BitsetViewIDSelector::is_member]. *)
Definition is_member (b : t) (i : nat) : M bool := let* f := test b i in Ret (negb f).

(** ** The bits the scans see *)

Definition byte_ok (x : Z) : Prop := 0 <= x < 256.

Definition bit_at (data : list Z) (i : nat) : bool :=
  Z.testbit (data !!! (i / 8)%nat) (Z.of_nat (i mod 8)).

Lemma land_bit x k : 0 <= k -> negb (Z.land x (Z.shiftl 1 k) =? 0) = Z.testbit x k.
Proof.
  intros Hk. destruct (Z.testbit x k) eqn:E.
  - apply negb_true_iff, Z.eqb_neq. intros H. apply (f_equal (fun z => Z.testbit z k)) in H.
    rewrite Z.land_spec, E, Z.shiftl_spec, Z.sub_diag, Z.bits_0 in H by done. done.
  - apply negb_false_iff, Z.eqb_eq, Z.bits_inj'. intros j Hj.
    rewrite Z.land_spec, Z.bits_0, Z.shiftl_spec by done.
    destruct (decide (j = k)) as [->|Hne]; [by rewrite E|].
    replace 1 with (2 ^ 0) by done. rewrite Z.pow2_bits_false by lia. apply andb_false_r.
Qed.

Lemma shiftr3 n : Nat.shiftr n 3 = (n / 8)%nat.
Proof. by rewrite Nat.shiftr_div_pow2. Qed.

Lemma shiftl3 n : Nat.shiftl n 3 = (8 * n)%nat.
Proof. rewrite Nat.shiftl_mul_pow2. simpl. lia. Qed.

Lemma byte_size_eq b : byte_size b = ((num_bits b + 7) / 8)%nat.
Proof. unfold byte_size. rewrite shiftr3. f_equal. lia. Qed.

Lemma byte_size_bounds b : (num_bits b <= 8 * byte_size b < num_bits b + 8)%nat.
Proof.
  rewrite byte_size_eq. pose proof (Nat.div_mod_eq (num_bits b + 7) 8).
  pose proof (Nat.mod_upper_bound (num_bits b + 7) 8). lia.
Qed.

Lemma land7 n : Z.land (Z.of_nat n) 7 = Z.of_nat (n mod 8).
Proof. rewrite (Z.land_ones _ 3), Nat2Z.inj_mod by lia. done. Qed.

(** What [test] reads, without id mapping. *)
Lemma test_bit b i : out_ids b = None -> id_offset b = 0%nat -> (byte_size b <= length (bits b))%nat ->
  (i < num_bits b)%nat -> test b i = Ret (bit_at (bits b) i).
Proof.
  intros Ho Hoff Hlen Hi. unfold test. rewrite Ho, Hoff. cbn [bind]. rewrite Nat.add_0_r.
  rewrite (proj2 (Nat.leb_gt _ _)) by done. rewrite shiftr3.
  pose proof (byte_size_bounds b). pose proof (Nat.div_mod_eq i 8). pose proof (Nat.mod_upper_bound i 8).
  destruct (lookup_lt_is_Some_2 (bits b) (i / 8)) as [x Hx]; [lia|].
  rewrite (proj2 (vget_Ret _ _ _) Hx). cbn [bind].
  rewrite land7, land_bit by lia. unfold bit_at. by rewrite (list_lookup_total_correct _ _ _ Hx).
Qed.

Lemma count_true_add f a n : count_true f (a + n) = (count_true f a + count_true (fun k => f (a + k)) n)%nat.
Proof.
  induction n as [|n IH]; [by rewrite !Nat.add_0_r|]. rewrite Nat.add_succ_r. simpl. lia.
Qed.

Lemma count_true_ext f g n : (forall k, (k < n)%nat -> f k = g k) -> count_true f n = count_true g n.
Proof. intros H. induction n as [|n IH]; [done|]. simpl. rewrite H, IH by (intros; try apply H; lia). done. Qed.

Lemma count_true_none f n : (forall k, (k < n)%nat -> f k = false) -> count_true f n = 0%nat.
Proof. intros H. induction n as [|n IH]; [done|]. simpl. rewrite H, IH by (intros; try apply H; lia). done. Qed.

Lemma first_true_add f a n m : first_true f a (n + m) =
  match first_true f a n with Some k => Some k | None => first_true f (a + n) m end.
Proof.
  revert a. induction n as [|n IH]; intros a; simpl; [by rewrite Nat.add_0_r|].
  destruct (f a); [done|]. rewrite IH. by replace (S a + n)%nat with (a + S n)%nat by lia.
Qed.

Lemma first_true_ext f g a n : (forall k, (a <= k < a + n)%nat -> f k = g k) ->
  first_true f a n = first_true g a n.
Proof.
  revert a. induction n as [|n IH]; intros a H; [done|]. simpl. rewrite H by lia.
  destruct (g a); [done|]. apply IH. intros k Hk. apply H. lia.
Qed.

Lemma first_true_shift f a n m : first_true f (a + m) n = (fun k => a + k)%nat <$> first_true (fun k => f (a + k)%nat) m n.
Proof.
  revert m. induction n as [|n IH]; intros m; [done|]. simpl. destruct (f (a + m)%nat); [done|].
  rewrite <- IH. by replace (a + S m)%nat with (S (a + m))%nat by lia.
Qed.

Lemma first_true_None f a n : first_true f a n = None <-> forall k, (a <= k < a + n)%nat -> f k = false.
Proof.
  revert a. induction n as [|n IH]; intros a; simpl; [split; [lia|done]|].
  destruct (f a) eqn:E.
  - split; [done|]. intros H. by rewrite H in E by lia.
  - rewrite IH. split; intros H k Hk; [|apply H; lia].
    destruct (decide (k = a)) as [->|]; [done|]. apply H. lia.
Qed.

(** The bits of a little-endian word are those of its bytes. *)
Lemma testbit_cons x acc k : byte_ok x -> Z.testbit (x + 256 * acc) (Z.of_nat k) =
  if (k <? 8)%nat then Z.testbit x (Z.of_nat k) else Z.testbit acc (Z.of_nat (k - 8)).
Proof.
  intros Hx. replace (256 * acc) with (acc * 2 ^ 8) by lia. destruct (Nat.ltb_spec k 8).
  - rewrite <- (Z.mod_pow2_bits_low (x + acc * 2 ^ 8) 8) by lia.
    rewrite Z.mod_add by lia. by rewrite Z.mod_pow2_bits_low by lia.
  - replace (Z.of_nat k) with (Z.of_nat (k - 8) + 8) by lia. rewrite <- Z.div_pow2_bits by lia.
    rewrite Z.div_add by lia. by rewrite (Z.div_small x), Z.add_0_l by (unfold byte_ok in Hx; lia).
Qed.

Lemma testbit_le_word bytes : Forall byte_ok bytes -> forall k, (k < 8 * length bytes)%nat ->
  Z.testbit (le_word bytes) (Z.of_nat k) = bit_at bytes k.
Proof.
  induction 1 as [|x bytes Hx Hb IH]; intros k Hk; simpl in Hk; [lia|]. simpl le_word.
  rewrite testbit_cons by done. unfold bit_at. destruct (Nat.ltb_spec k 8) as [Hlt|Hge].
  - by rewrite (Nat.div_small k), (Nat.mod_small k) by done.
  - rewrite IH by lia. unfold bit_at. replace k with (k - 8 + 1 * 8)%nat at 3 4 by lia.
    rewrite Nat.div_add, Nat.Div0.mod_add by lia. by rewrite Nat.add_1_r.
Qed.

Lemma byte_bit a k : ((8 * a + k) / 8 = a + k / 8 /\ (8 * a + k) mod 8 = k mod 8)%nat.
Proof.
  rewrite (Nat.mul_comm 8 a), Nat.div_add_l by lia. split; [done|].
  by rewrite Nat.add_comm, Nat.Div0.mod_add.
Qed.

Lemma bit_at_slice data a n k : (8 * (a + n) <= 8 * length data)%nat -> (k < 8 * n)%nat ->
  bit_at (slice a (a + n) data) k = bit_at data (8 * a + k).
Proof.
  intros Hl Hk. unfold bit_at. destruct (byte_bit a k) as [-> ->].
  rewrite !list_lookup_total_alt. f_equal. f_equal. rewrite lookup_slice; [done|].
  apply Nat.Div0.div_lt_upper_bound. lia.
Qed.

Lemma word64_spec data i : Forall byte_ok data -> (8 * i + 8 <= length data)%nat ->
  exists w, word64 data i = Ret w /\
    forall k, (k < 64)%nat -> Z.testbit w (Z.of_nat k) = bit_at data (64 * i + k).
Proof.
  intros Hb Hl. unfold word64. rewrite (proj2 (Nat.leb_le _ _)) by done.
  eexists. split; [done|]. intros k Hk. rewrite testbit_le_word.
  - rewrite bit_at_slice by lia. f_equal. lia.
  - by apply Forall_take, Forall_drop.
  - rewrite length_slice by lia. lia.
Qed.

Lemma popcount8_spec x : byte_ok x -> Z.to_nat (popcount8 x) = popcount 8 x.
Proof.
  intros Hx.
  assert (forallb (fun n => Nat.eqb (Z.to_nat (popcount8 (Z.of_nat n))) (popcount 8 (Z.of_nat n))) (seq 0 256) = true)
    as H by (by vm_compute).
  rewrite forallb_forall in H. specialize (H (Z.to_nat x)). rewrite Z2Nat.id in H by (unfold byte_ok in Hx; lia).
  apply Nat.eqb_eq, H, in_seq. unfold byte_ok in Hx. lia.
Qed.

Lemma bit_at_byte data i x k : data !! i = Some x -> (k < 8)%nat ->
  bit_at data (8 * i + k) = Z.testbit x (Z.of_nat k).
Proof.
  intros Hx Hk. unfold bit_at. destruct (byte_bit i k) as [-> ->].
  rewrite Nat.div_small, Nat.mod_small, Nat.add_0_r by done.
  by rewrite (list_lookup_total_correct _ _ _ Hx).
Qed.

(** ** The scans *)

Section scans.
Context {b : t}.
Context (Hids : out_ids b = None) (Hbytes : Forall byte_ok (bits b)).
Context (Hlen : (byte_size b <= length (bits b))%nat).

Lemma byte_at i : (i < byte_size b)%nat -> exists x, bits b !! i = Some x /\ byte_ok x.
Proof.
  intros Hi. destruct (lookup_lt_is_Some_2 (bits b) i) as [x Hx]; [lia|].
  exists x. split; [done|]. by eapply Forall_lookup_1.
Qed.

Lemma words_in_bytes : (8 * (byte_size b / 8) <= byte_size b < 8 * (byte_size b / 8) + 8)%nat.
Proof.
  pose proof (Nat.div_mod_eq (byte_size b) 8). pose proof (Nat.mod_upper_bound (byte_size b) 8). lia.
Qed.

Lemma filtered_out_num_bits : empty b = false ->
  get_filtered_out_num_ b = Ret (count_true (bit_at (bits b)) (8 * byte_size b)).
Proof.
  intros He. pose proof words_in_bytes.
  assert (wp (get_filtered_out_num_ b) (fun r => r = count_true (bit_at (bits b)) (8 * byte_size b)))
    as Hwp; [|by apply wp_elim in Hwp as (r & -> & ->)].
  unfold get_filtered_out_num_. rewrite He, Hids, shiftr3, shiftl3. apply wp_bind.
  apply (wp_for _ (fun i r => r = count_true (bit_at (bits b)) (64 * i))); [done| |].
  - intros i r Hi ->. destruct (word64_spec (bits b) i) as (w & -> & Hw); [done|lia|]. cbn [bind wp].
    replace (64 * (i + 1))%nat with (64 * i + 64)%nat by lia. rewrite (count_true_add _ (64 * i) 64). f_equal.
    apply count_true_ext. intros k Hk. by apply Hw.
  - intros r ->. apply (wp_for _ (fun i r => r = count_true (bit_at (bits b)) (8 * i))).
    + f_equal. lia.
    + intros i r Hi ->. destruct (byte_at i) as (x & Hx & Hok); [lia|].
      rewrite (proj2 (vget_Ret _ _ _) Hx). cbn [bind wp]. rewrite popcount8_spec by done.
      replace (8 * (i + 1))%nat with (8 * i + 8)%nat by lia. rewrite (count_true_add _ (8 * i) 8). f_equal.
      apply count_true_ext. intros k Hk. symmetry. by apply bit_at_byte.
    + intros r ->. f_equal. lia.
Qed.

(** One word of the first-valid scan. *)
Lemma ctz_lnot w m x (f : nat -> bool) : m = 2 ^ Z.of_nat w -> (forall k, (k < w)%nat -> Z.testbit x (Z.of_nat k) = f k) ->
  let value := Z.lnot x mod m in
  (value = 0 /\ first_true (fun k => negb (f k)) 0 w = None) \/
  (value <> 0 /\ exists k, ctz w value = Ret k /\ first_true (fun k => negb (f k)) 0 w = Some k).
Proof.
  intros -> Hx value.
  assert (forall k, (k < w)%nat -> Z.testbit value (Z.of_nat k) = negb (f k)) as Hbit.
  { intros k Hk. unfold value. rewrite Z.mod_pow2_bits_low, Z.lnot_spec by lia. by rewrite Hx. }
  assert (first_true (fun k => Z.testbit value (Z.of_nat k)) 0 w = first_true (fun k => negb (f k)) 0 w) as Heq.
  { apply first_true_ext. intros k Hk. apply Hbit. lia. }
  unfold ctz. rewrite Heq. destruct (first_true (fun k => negb (f k)) 0 w) as [k|] eqn:E.
  - right. split; [|by exists k]. intros H0. rewrite H0 in Heq.
    assert (first_true (fun k => Z.testbit 0 (Z.of_nat k)) 0 w = None) as Hn; [|congruence].
    apply first_true_None. intros. apply Z.bits_0.
  - left. split; [|done]. apply Z.bits_inj'. intros j Hj. rewrite Z.bits_0.
    destruct (Z.lt_ge_cases j (Z.of_nat w)) as [Hlt|Hge].
    + rewrite first_true_None in E. replace j with (Z.of_nat (Z.to_nat j)) by lia.
      rewrite Hbit by lia. apply E. lia.
    + unfold value. by rewrite Z.mod_pow2_bits_high by lia.
Qed.

#[local] Abbreviation clear := (fun i => negb (bit_at (bits b) i)).

(** A block-wise search is a search through all blocks. *)
Lemma find_first_blocks (w base : nat) (g : nat -> M (option nat)) n :
  (forall i, (i < n)%nat -> g i = Ret (first_true clear (base + i * w) w)) ->
  find_first g (seq 0 n) = Ret (first_true clear base (n * w)).
Proof.
  assert (forall m i, (forall j, (i <= j < i + m)%nat -> g j = Ret (first_true clear (base + j * w) w)) ->
    find_first g (seq i m) = Ret (first_true clear (base + i * w) (m * w))) as Hgen.
  { induction m as [|m IH]; intros i Hg; [done|]. cbn [seq find_first]. rewrite Hg by lia. cbn [bind].
    replace (S m * w)%nat with (w + m * w)%nat by lia. rewrite first_true_add.
    destruct (first_true clear (base + i * w) w); [done|]. rewrite IH by (intros; apply Hg; lia).
    f_equal. f_equal. lia. }
  intros Hg. rewrite (Hgen n 0%nat); [f_equal; f_equal; lia|]. intros j Hj. apply Hg. lia.
Qed.

Lemma first_valid_bits :
  get_first_valid_index b = Ret (default (num_bits b) (first_true clear 0 (8 * byte_size b))).
Proof.
  pose proof words_in_bytes. unfold get_first_valid_index. rewrite Hids, shiftr3, shiftl3.
  set (q := (byte_size b / 8)%nat) in *.
  rewrite (find_first_blocks 64 0).
  2:{ intros i Hi. destruct (word64_spec (bits b) i) as (w & -> & Hw); [done|lia|]. cbn [bind].
      rewrite Nat.add_0_l, <- (Nat.add_0_r (i * 64)), first_true_shift.
      destruct (ctz_lnot 64 (2 ^ 64) w (fun k => bit_at (bits b) (i * 64 + k))) as [[-> ->]|(Hne & k & Hk & ->)].
      - done.
      - intros k Hk. rewrite Hw by done. f_equal. lia.
      - done.
      - rewrite (proj2 (Z.eqb_neq _ _) Hne), Hk. cbn [bind fmap option_fmap option_map]. do 2 f_equal. lia. }
  cbn [bind]. replace (8 * byte_size b)%nat with (q * 64 + 8 * (byte_size b - 8 * q))%nat by lia.
  rewrite first_true_add. destruct (first_true clear 0 (q * 64)); [done|].
  rewrite (find_first_blocks 8 (q * 64)); [by rewrite (Nat.mul_comm 8 (byte_size b - 8 * q))|].
  intros i Hi. destruct (byte_at (8 * q + i)) as (x & Hx & _); [lia|].
  rewrite (proj2 (vget_Ret _ _ _) Hx). cbn [bind].
  rewrite <- (Nat.add_0_r (q * 64 + i * 8)), first_true_shift.
  destruct (ctz_lnot 8 (2 ^ 8) x (fun k => bit_at (bits b) (q * 64 + i * 8 + k))) as [[-> ->]|(Hne & k & Hk & ->)].
  - done.
  - intros k Hk. rewrite <- (bit_at_byte (bits b) (8 * q + i)) by done. f_equal. lia.
  - done.
  - rewrite (proj2 (Z.eqb_neq _ _) Hne), Hk. cbn [bind fmap option_fmap option_map]. do 2 f_equal. lia.
Qed.

End scans.

(** ** What the scans compute *)

(** The view is over [num_bits] bits in whole bytes, without mapping or offset;
    the unused bits of the last byte are clear. *)
Record plain (b : t) : Prop := {
  pl_ids : out_ids b = None;
  pl_off : id_offset b = 0%nat;
  pl_bytes : Forall byte_ok (bits b);
  pl_len : (byte_size b <= length (bits b))%nat;
  pl_pad : forall i, (num_bits b <= i < 8 * byte_size b)%nat -> bit_at (bits b) i = false
}.

Definition filtered (b : t) (i : nat) : bool :=
  match test b i with Ret f => f | _ => false end.

Lemma filtered_bit b i : plain b -> (i < num_bits b)%nat ->
  filtered b i = bit_at (bits b) i /\ test b i = Ret (filtered b i).
Proof. intros [] Hi. unfold filtered. by rewrite test_bit. Qed.

(** The word-at-a-time count. *)
Lemma filtered_out_num_count b : plain b ->
  get_filtered_out_num_ b = Ret (count_true (filtered b) (num_bits b)).
Proof.
  intros Hb. pose proof Hb as [Hi Ho Hby Hl Hp].
  destruct (empty b) eqn:He.
  - unfold get_filtered_out_num_. rewrite He. apply Nat.eqb_eq in He. by rewrite He.
  - rewrite filtered_out_num_bits by done. f_equal. pose proof (byte_size_bounds b).
    replace (8 * byte_size b)%nat with (num_bits b + (8 * byte_size b - num_bits b))%nat by lia.
    rewrite count_true_add, (count_true_none (fun k => bit_at (bits b) (num_bits b + k))).
    + rewrite Nat.add_0_r. apply count_true_ext. intros k Hk. symmetry. by apply filtered_bit.
    + intros k Hk. apply Hp. lia.
Qed.

(** The word-at-a-time scan. *)
Lemma first_valid_least b : plain b ->
  get_first_valid_index b =
    Ret (default (num_bits b) (first_true (fun i => negb (filtered b i)) 0 (num_bits b))).
Proof.
  intros Hb. pose proof Hb as [Hi Ho Hby Hl Hp]. rewrite first_valid_bits by done. f_equal.
  pose proof (byte_size_bounds b).
  replace (8 * byte_size b)%nat with (num_bits b + (8 * byte_size b - num_bits b))%nat by lia.
  rewrite first_true_add.
  rewrite (first_true_ext _ (fun i => negb (filtered b i)) 0 (num_bits b)).
  2:{ intros k Hk. by rewrite (proj1 (filtered_bit b k Hb ltac:(lia))). }
  destruct (first_true _ 0 (num_bits b)); [done|]. rewrite Nat.add_0_l.
  destruct (8 * byte_size b - num_bits b)%nat as [|m] eqn:E; [done|]. simpl. by rewrite Hp by lia.
Qed.

(** C21: on a plain view the word-at-a-time routines agree with the bits.  Every
    [test] below [num_bits] returns; the count (64-bit popcounts, then the SWAR
    byte count for the rest) is the number of ids that [test] reports as filtered
    out; the scan (complement, count trailing zeros) returns the smallest id that
    is not filtered out, or [num_bits] when all are. *)
Theorem word_scans_agree_with_bits b : plain b ->
  (forall i, (i < num_bits b)%nat -> test b i = Ret (filtered b i)) /\
  get_filtered_out_num_ b = Ret (count_true (filtered b) (num_bits b)) /\
  get_first_valid_index b =
    Ret (default (num_bits b) (first_true (fun i => negb (filtered b i)) 0 (num_bits b))).
Proof.
  intros Hb. split_and!; [intros i Hi; by apply filtered_bit|by apply filtered_out_num_count|by apply first_valid_least].
Qed.

Definition ex_bitset : t := bitset_view [255; 255; 255; 255; 255; 255; 255; 255; 7]%Z 68 0 0.

Lemma ex_plain : plain ex_bitset.
Proof.
  split; [done|done|by repeat constructor|simpl; unfold byte_size; simpl; lia|].
  intros i Hi. change (byte_size ex_bitset) with 9%nat in Hi. simpl in Hi.
  assert (i = 68 \/ i = 69 \/ i = 70 \/ i = 71)%nat as [->|[->|[->| ->]]] by lia; done.
Qed.

Lemma word_scans_agree_with_bits_witness :
  get_filtered_out_num_ ex_bitset = Ret 67%nat /\ get_first_valid_index ex_bitset = Ret 67%nat.
Proof.
  destruct (word_scans_agree_with_bits ex_bitset ex_plain) as (_ & Hn & Hf). rewrite Hn, Hf. split; reflexivity.
Defined.

End BitsetView.
