(* ===== verification/MemoryIO.v ===== *)
(** * In-memory serialisation (io/memory_io.h, memory_io.cc)

    The growing writer and the bounded reader that every index serialises
    through, on a little-endian machine, and the object representation of the
    integers written with them. *)

From S2P Require Import Prelude Float.

#[local] Open Scope Z_scope.

(** ** Object representation *)

(** The [n] bytes of [z], least significant first. *)
Fixpoint le_bytes (n : nat) (z : Z) : list Z :=
  match n with
  | O => []
  | S n => z mod 256 :: le_bytes n (z / 256)
  end.

Fixpoint of_le_bytes (l : list Z) : Z :=
  match l with
  | [] => 0
  | b :: l => b + 256 * of_le_bytes l
  end.

Lemma length_le_bytes n z : length (le_bytes n z) = n.
Proof. revert z. induction n as [|n IH]; intros z; simpl; [done|]. by rewrite IH. Qed.

Lemma of_le_bytes_le_bytes n z : 0 <= z < 256 ^ Z.of_nat n -> of_le_bytes (le_bytes n z) = z.
Proof.
  revert z. induction n as [|n IH]; intros z Hz; [simpl in *; lia|]. cbn [le_bytes of_le_bytes].
  rewrite Nat2Z.inj_succ, Z.pow_succ_r in Hz by lia. rewrite IH.
  - pose proof (Z.div_mod z 256). lia.
  - split; [apply Z.div_pos; lia|]. apply Z.div_lt_upper_bound; lia.
Qed.

(** A plain type with a fixed representation: [valid] are the values that the
    representation can hold. *)
Class Pod (T : Type) := {
  pod_size : nat;
  pod_valid : T -> Prop;
  pod_enc : T -> list Z;
  pod_dec : list Z -> T;
  pod_length : forall x, length (pod_enc x) = pod_size;
  pod_pos : (0 < pod_size)%nat;
  pod_roundtrip : forall x, pod_valid x -> pod_dec (pod_enc x) = x
}.
Arguments pod_size T {_}.

#[export] Program Instance u32_pod : Pod Z | 10 := {|
  pod_size := 4; pod_valid := fun z => 0 <= z < 2 ^ 32;
  pod_enc := le_bytes 4; pod_dec := of_le_bytes
|}.
Next Obligation. intros x. apply (length_le_bytes 4). Qed.
Next Obligation. simpl. lia. Qed.
Next Obligation. intros x Hx. by apply (of_le_bytes_le_bytes 4). Qed.

(** [uint64_t] and [size_t]. *)
Program Definition u64_pod : Pod Z := {|
  pod_size := 8; pod_valid := fun z => 0 <= z < 2 ^ 64;
  pod_enc := le_bytes 8; pod_dec := of_le_bytes
|}.
Next Obligation. intros x. apply (length_le_bytes 8). Qed.
Next Obligation. simpl. lia. Qed.
Next Obligation. intros x Hx. by apply (of_le_bytes_le_bytes 8). Qed.

(** [float]. *)
#[export] Program Instance f32_pod : Pod spec_float := {|
  pod_size := 4; pod_valid := fun f => valid_binary 24 128 f = true;
  pod_enc := fun f => le_bytes 4 (F32.to_bits f); pod_dec := fun b => F32.of_bits (of_le_bytes b)
|}.
Next Obligation. intros x. apply (length_le_bytes 4). Qed.
Next Obligation. simpl. lia. Qed.
Next Obligation.
  intros x Hx. cbv beta. apply of_bits_to_bits in Hx as [Hr Hx]. by rewrite (of_le_bytes_le_bytes 4) by done.
Qed.

(** An array of plain values, and reading one back. *)
Definition enc_all {T} `{!Pod T} (l : list T) : list Z := concat (pod_enc <$> l).

Fixpoint dec_n {T} `{!Pod T} (n : nat) (bytes : list Z) : list T :=
  match n with
  | O => []
  | S n => pod_dec (take (pod_size T) bytes) :: dec_n n (drop (pod_size T) bytes)
  end.

Lemma length_enc_all {T} `{!Pod T} (l : list T) : length (enc_all l) = (length l * pod_size T)%nat.
Proof.
  induction l as [|x l IH]; [done|]. change (enc_all (x :: l)) with (pod_enc x ++ enc_all l).
  rewrite length_app, IH, pod_length. simpl. lia.
Qed.

Lemma dec_enc_all {T} `{!Pod T} (l : list T) post : Forall pod_valid l ->
  dec_n (length l) (enc_all l ++ post) = l.
Proof.
  intros Hv. induction Hv as [|x l Hx Hl IH]; [done|].
  change (enc_all (x :: l)) with (pod_enc x ++ enc_all l). cbn [length dec_n]. rewrite <- app_assoc.
  rewrite take_app_length', drop_app_length' by (by rewrite pod_length).
  by rewrite IH, pod_roundtrip.
Qed.

(** ** MemoryIOWriter *)

Definition magic_num : nat := 2.

(** [data_] is null before the first write; otherwise it holds [total_] bytes. *)
Record MemoryIOWriter := mkWriter {
  wdata : option (list Z);
  wtotal : nat;
  wrp : nat
}.

Definition new_writer : MemoryIOWriter := mkWriter None 0 0.

(** [operator()(ptr, size, nitems)], [ptr] being the [size * nitems] bytes; the
    bytes of fresh memory are unspecified ([0] here). *)
Definition write (w : MemoryIOWriter) (ptr : list Z) (size nitems : nat) : M (MemoryIOWriter * nat) :=
  let total_need := (size * nitems + wrp w)%nat in
  match wdata w with
  | None =>
      let total := (total_need * magic_num)%nat in
      let* data := memcpy (replicate total 0) 0 ptr 0 (size * nitems) in
      Ret (mkWriter (Some data) total (size * nitems), nitems)
  | Some data =>
      if (wtotal w <? total_need)%nat then
        let total := (total_need * magic_num)%nat in
        let* new_data := memcpy (replicate total 0) 0 data 0 (wrp w) in
        let* new_data := memcpy new_data (wrp w) ptr 0 (size * nitems) in
        Ret (mkWriter (Some new_data) total total_need, nitems)
      else
        let* data := memcpy data (wrp w) ptr 0 (size * nitems) in
        Ret (mkWriter (Some data) (wtotal w) total_need, nitems)
  end.

(** The bytes written so far. *)
Definition written (w : MemoryIOWriter) : list Z :=
  match wdata w with Some d => take (wrp w) d | None => [] end.

Record writer_ok (w : MemoryIOWriter) : Prop := {
  wo_total : match wdata w with Some d => length d = wtotal w | None => True end;
  wo_rp : (wrp w <= wtotal w)%nat;
  wo_null : wdata w = None -> wrp w = 0%nat
}.

Lemma new_writer_ok : writer_ok new_writer.
Proof. by split. Qed.

(** Overwriting the tail of a buffer appends to what was written. *)
Lemma memcpy_append (dst src : list Z) rp n : (rp + n <= length dst)%nat -> length src = n ->
  wp (memcpy dst rp src 0 n) (fun d => length d = length dst /\ take (rp + n) d = take rp dst ++ src).
Proof.
  intros Hd Hs. apply wp_memcpy; [done|lia|].
  replace (slice 0 (0 + n) src) with src by (rewrite <- Hs; symmetry; apply slice_all).
  split.
  - rewrite !length_app, length_take, length_drop. lia.
  - rewrite app_assoc, take_app_length' by (rewrite length_app, length_take; lia). done.
Qed.

Lemma write_spec w ptr size nitems : writer_ok w -> length ptr = (size * nitems)%nat ->
  wp (write w ptr size nitems) (fun '(w', n) => writer_ok w' /\ n = nitems /\
    written w' = written w ++ ptr).
Proof.
  intros [Ht Hr Hn] Hl. unfold write, written. destruct (wdata w) as [d|] eqn:Hd.
  - destruct (Nat.ltb_spec (wtotal w) (size * nitems + wrp w)) as [Hgrow|Hfit].
    + apply wp_bind, wp_memcpy; [rewrite length_replicate; unfold magic_num; lia|lia|].
      apply wp_bind. eapply wp_mono; [apply memcpy_append; [|done]|].
      { rewrite !length_app, length_take, length_drop, length_replicate, length_slice by lia.
        unfold magic_num. lia. }
      intros nd [Hlen Htake]. simpl. rewrite Nat.add_comm in Htake. split_and!; [split; simpl| |].
      * rewrite Hlen, !length_app, length_take, length_drop, length_replicate, length_slice by lia.
        unfold magic_num. lia.
      * unfold magic_num. lia.
      * done.
      * done.
      * rewrite Htake. f_equal. rewrite take_0, app_nil_l.
        rewrite take_app_length' by (rewrite length_slice by lia; lia).
        unfold slice. by rewrite drop_0, Nat.sub_0_r.
    + apply wp_bind. eapply wp_mono; [apply memcpy_append; [lia|done]|].
      intros nd [Hlen Htake]. simpl. rewrite Nat.add_comm in Htake. split_and!; [split; simpl| |].
      * lia.
      * lia.
      * done.
      * done.
      * done.
  - rewrite Hn in * by done. apply wp_bind. rewrite Nat.add_0_r.
    eapply wp_mono; [apply memcpy_append; [rewrite length_replicate; unfold magic_num; lia|done]|].
    intros nd [Hlen Htake]. simpl in *. split_and!; [split; simpl| |].
    + by rewrite Hlen, length_replicate.
    + unfold magic_num. lia.
    + done.
    + done.
    + by rewrite Htake.
Qed.

(** Writing one value, and the elements of an array. *)
Definition put {T} (P : Pod T) (w : MemoryIOWriter) (x : T) : M MemoryIOWriter :=
  let* (w, _) := write w (pod_enc x) (pod_size T) 1 in Ret w.

Definition put_all {T} (P : Pod T) (w : MemoryIOWriter) (l : list T) : M MemoryIOWriter :=
  let* (w, _) := write w (enc_all l) (pod_size T) (length l) in Ret w.

(** Writing, as appending to the bytes written. *)
Definition has_written (bytes : list Z) (w : MemoryIOWriter) : Prop := writer_ok w /\ written w = bytes.

Lemma put_spec {T} (P : Pod T) w x bytes : has_written bytes w ->
  wp (put P w x) (has_written (bytes ++ pod_enc x)).
Proof.
  intros [Hok Hw]. unfold put. apply wp_bind.
  eapply wp_mono; [apply write_spec; [done|rewrite pod_length; lia]|].
  intros [w' n] (? & _ & ?). split; [done|]. by rewrite <- Hw.
Qed.

Lemma put_all_spec {T} (P : Pod T) w (l : list T) bytes : has_written bytes w ->
  wp (put_all P w l) (has_written (bytes ++ enc_all l)).
Proof.
  intros [Hok Hw]. unfold put_all. apply wp_bind.
  eapply wp_mono; [apply write_spec; [done|rewrite length_enc_all; lia]|].
  intros [w' n] (? & _ & ?). split; [done|]. by rewrite <- Hw.
Qed.

Lemma has_written_eq b b' w : b = b' -> has_written b w -> has_written b' w.
Proof. by intros ->. Qed.

Lemma wp_written {B} b m (k : MemoryIOWriter -> M B) R :
  wp m (has_written b) -> (forall w, has_written b w -> wp (k w) R) -> wp (bind m k) R.
Proof. intros Hm Hk. apply wp_bind. by eapply wp_mono. Qed.

(** ** MemoryIOReader *)

Record MemoryIOReader := mkReader { rdata : list Z; rrp : nat; rtotal : nat }.

Definition new_reader (data : list Z) : MemoryIOReader := mkReader data 0 (length data).

Definition seekg (r : MemoryIOReader) (pos : nat) : MemoryIOReader := mkReader (rdata r) pos (rtotal r).

Definition advance (r : MemoryIOReader) (size : nat) : MemoryIOReader :=
  let rp := (rrp r + size)%nat in
  mkReader (rdata r) (if (rtotal r <? rp)%nat then rtotal r else rp) (rtotal r).

Definition remaining (r : MemoryIOReader) : nat := (rtotal r - rrp r)%nat.

(** [operator()(ptr, size, nitems)]: the bytes copied to [ptr] and their count
    in items; a short read leaves the rest of the destination alone. *)
Definition read (r : MemoryIOReader) (size nitems : nat) : M (MemoryIOReader * list Z * nat) :=
  if (rtotal r <=? rrp r)%nat then Ret (r, [], 0%nat)
  else
    let nremain := ((rtotal r - rrp r) / size)%nat in
    let nitems := if (nremain <? nitems)%nat then nremain else nitems in
    if decide (rrp r + size * nitems <= length (rdata r))%nat then
      Ret (mkReader (rdata r) (rrp r + size * nitems) (rtotal r),
           slice (rrp r) (rrp r + size * nitems) (rdata r), nitems)
    else Undef.

(** Reading one value into a variable that held [old]. *)
Definition read_pod {T} `{!Pod T} (r : MemoryIOReader) (old : T) : M (MemoryIOReader * T) :=
  let* (r, bytes, n) := read r (pod_size T) 1 in
  Ret (r, if (n =? 1)%nat then pod_dec bytes else old).

(** [boost::span<const T>(reinterpret_cast<T*>(reader.data() + pos), n)]; the
    elements are read when the span is used, which must not leave the data. *)
Definition span_at {T} `{!Pod T} (r : MemoryIOReader) (pos n : nat) : M (list T) :=
  if decide (pos + n * pod_size T <= length (rdata r))%nat then Ret (dec_n n (drop pos (rdata r)))
  else Undef.

(** [bytes] stand at position [pos] of [file]. *)
Definition at_pos (file : list Z) (pos : nat) (bytes : list Z) : Prop :=
  exists pre post, file = pre ++ bytes ++ post /\ length pre = pos.

Lemma at_pos_app file pos a b : at_pos file pos (a ++ b) ->
  at_pos file pos a /\ at_pos file (pos + length a) b.
Proof.
  intros (pre & post & -> & <-). split.
  - exists pre, (b ++ post). by rewrite <- app_assoc.
  - exists (pre ++ a), post. rewrite length_app. split; [|done]. by rewrite <- !app_assoc.
Qed.

Lemma at_pos_bound file pos a : at_pos file pos a -> (pos + length a <= length file)%nat.
Proof. intros (pre & post & -> & <-). rewrite !length_app. lia. Qed.

Lemma at_pos_lookup {T} `{!Pod T} file pos (l : list T) i x :
  at_pos file pos (enc_all l) -> l !! i = Some x -> at_pos file (pos + pod_size T * i) (pod_enc x).
Proof.
  revert pos i. induction l as [|y l IH]; intros pos i Hat Hi; [done|].
  change (enc_all (y :: l)) with (pod_enc y ++ enc_all l) in Hat. apply at_pos_app in Hat as [Hat1 Hat2].
  destruct i as [|i]; cbn in Hi; simplify_eq.
  - by replace (pos + pod_size T * 0)%nat with pos by lia.
  - rewrite pod_length in Hat2. specialize (IH _ _ Hat2 Hi). by replace (pos + pod_size T * S i)%nat with
      (pos + pod_size T + pod_size T * i)%nat by lia.
Qed.

(** A reader over the whole of [file]. *)
Definition reads (file : list Z) (r : MemoryIOReader) : Prop :=
  rdata r = file /\ rtotal r = length file.

Lemma reads_seekg file r pos : reads file r -> reads file (seekg r pos).
Proof. done. Qed.

Lemma advance_seekg file r n : reads file r -> (rrp r + n <= length file)%nat ->
  advance r n = seekg r (rrp r + n).
Proof.
  intros [_ Ht] Hn. unfold advance, seekg. rewrite Ht.
  by rewrite (proj2 (Nat.ltb_ge _ _)) by lia.
Qed.

Lemma read_pod_at {T} `{!Pod T} file r (x old : T) : reads file r -> pod_valid x ->
  at_pos file (rrp r) (pod_enc x) -> read_pod r old = Ret (seekg r (rrp r + pod_size T), x).
Proof.
  intros [Hd Ht] Hx (pre & post & Hf & Hr). pose proof (pod_length x) as Hl. pose proof (pod_pos (T:=T)).
  assert (length file = length pre + pod_size T + length post)%nat as Hlen
    by (rewrite Hf, !length_app, Hl; lia).
  unfold read_pod, read. rewrite Hd, Ht, <- Hr. rewrite (proj2 (Nat.leb_gt _ _)) by lia.
  assert (1 <= (length file - length pre) / pod_size T)%nat as Hq.
  { apply Nat.div_le_lower_bound; lia. }
  rewrite (proj2 (Nat.ltb_ge _ _)) by done. rewrite decide_True by lia. cbn [bind Nat.eqb].
  rewrite Nat.mul_1_r. f_equal. f_equal.
  - unfold seekg. by rewrite Hd, Ht.
  - unfold slice. rewrite Hf, drop_app_length.
    replace (length pre + pod_size T - length pre)%nat with (length (pod_enc x)) by lia.
    rewrite take_app_length. by apply pod_roundtrip.
Qed.

Lemma span_at_at {T} `{!Pod T} file r pos (l : list T) : reads file r -> Forall pod_valid l ->
  at_pos file pos (enc_all l) -> span_at r pos (length l) = Ret l.
Proof.
  intros [Hd _] Hv (pre & post & Hf & <-). unfold span_at. rewrite Hd, Hf. rewrite decide_True.
  - by rewrite drop_app_length, dec_enc_all.
  - rewrite !length_app, length_enc_all. lia.
Qed.

Lemma read_bytes_at file r bytes sz : reads file r -> at_pos file (rrp r) bytes -> length bytes = sz -> (0 < sz)%nat ->
  read r sz 1 = Ret (seekg r (rrp r + sz), bytes, 1%nat).
Proof.
  intros [Hd Ht] (pre & post & Hf & Hr) Hl Hs.
  assert (length file = length pre + sz + length post)%nat as Hlen by (rewrite Hf, !length_app, Hl; lia).
  unfold read. rewrite Hd, Ht, <- Hr. rewrite (proj2 (Nat.leb_gt _ _)) by lia.
  rewrite (proj2 (Nat.ltb_ge _ _)) by (apply Nat.div_le_lower_bound; lia). rewrite decide_True by lia.
  rewrite Nat.mul_1_r. do 3 f_equal.
  - unfold seekg. by rewrite Hd, Ht.
  - unfold slice. rewrite Hf, drop_app_length. replace (length pre + sz - length pre)%nat with (length bytes) by lia.
    by rewrite take_app_length.
Qed.

(** after any sequence of writes into a new writer, whatever reallocation
    happened on the way, the buffer holds exactly the concatenation of what was
    written, every write reports all of its items, and the buffer never shrinks
    below the write position. *)
Theorem writer_holds_concatenation (chunks : list (list Z)) :
  exists w, foldM (fun w c => let* (w, _) := write w c 1 (length c) in Ret w) new_writer chunks = Ret w /\
    writer_ok w /\ written w = concat chunks.
Proof.
  assert (wp (foldM (fun w c => let* (w, _) := write w c 1 (length c) in Ret w) new_writer chunks)
    (fun w => writer_ok w /\ written w = concat chunks)) as H; [|by apply wp_elim in H].
  apply (wp_foldM _ (fun pre w => writer_ok w /\ written w = concat pre)); [split; [apply new_writer_ok|done]| |done].
  intros pre c post w _ [Hok Hw]. apply wp_bind.
  eapply wp_mono; [apply write_spec; [done|lia]|]. intros [w' n] (Hok' & _ & Hw'). simpl.
  split; [done|]. by rewrite Hw', Hw, concat_app; simpl; rewrite app_nil_r.
Qed.
