(* ===== verification/SparseIndex.v ===== *)
(** * The sparse inverted index (index/sparse/sparse_inverted_index.h)

    Building: [add_row_to_index] appends a row to the posting list of every
    dimension it has; [Add] does so for a batch and publishes the lists as
    spans.  Querying: query parsing with the drop threshold, scores of all
    rows (term at a time), the score of one row, search.  The code is written
    over a score type and a stored value type, as the class template is over
    [DType] and [QType]. *)

From S2P Require Import Prelude Float Num StdHeap SparseUtils Bitset Expected.

Inductive SparseMetricType := METRIC_IP | METRIC_BM25.
Inductive InvertedIndexAlgo := TAAT_NAIVE | DAAT_WAND | DAAT_MAXSCORE.

#[export] Instance metric_eq_dec : EqDecision SparseMetricType.
Proof. solve_decision. Defined.
#[export] Instance algo_eq_dec : EqDecision InvertedIndexAlgo.
Proof. solve_decision. Defined.

(** ** Id filters

    What the search routines ask of the template parameter [DocIdFilter]; a
    filter may keep state between tests. *)
Class DocIdFilter (F : Type) := {
  f_empty : F -> bool;
  f_test : F -> nat -> M (F * bool)
}.

#[export] Instance bitset_filter : DocIdFilter BitsetView.t := {|
  f_empty := BitsetView.empty;
  f_test := fun b i => let* t := BitsetView.test b i in Ret (b, t)
|}.

(** [DocIdFilterByVector]: sorted ids and a position that only moves forward. *)
Record DocIdFilterByVector := mkDocFilter { docids : list nat; pos : nat }.

Definition doc_id_filter (ids : list nat) : DocIdFilterByVector := mkDocFilter (merge_sort (≤) ids) 0.

Fixpoint advance_to (fuel : nat) (docids : list nat) (pos i : nat) : nat :=
  match fuel with
  | 0 => pos
  | S fuel =>
      match docids !! pos with
      | Some d => if d <? i then advance_to fuel docids (pos + 1) i else pos
      | None => pos
      end
  end.

Definition doc_test (f : DocIdFilterByVector) (i : nat) : DocIdFilterByVector * bool :=
  let pos := advance_to (length (docids f)) (docids f) (pos f) i in
  (mkDocFilter (docids f) pos,
   negb (match docids f !! pos with Some d => d =? i | None => false end)).

#[export] Instance doc_filter : DocIdFilter DocIdFilterByVector := {|
  f_empty := fun f => match docids f with [] => true | _ => false end;
  f_test := fun f i => Ret (doc_test f i)
|}.

(** ** Rows and computers *)

Definition DocValueComputer (A : Type) : Type := A -> A -> A.

Definition GetDocValueOriginalComputer {A : Type} : DocValueComputer A := fun right _ => right.

Definition GetDocValueBM25Computer (k1 b avgdl : spec_float) : DocValueComputer spec_float :=
  fun tf doc_len =>
    F32.div (F32.mul tf (F32.add k1 F32.one))
      (F32.add tf (F32.mul k1 (F32.add (F32.sub F32.one b) (F32.mul b (F32.div doc_len avgdl))))).

(** A row: its (dimension, value) elements, sorted by dimension. *)
Abbreviation SparseRow A := (list (Z * A)).

Section row.
Context {A} `{!Num A}.

(** [SparseRow::dim]. *)
Definition row_dim (row : SparseRow A) : Z :=
  match last row with Some (index, _) => index + 1 | None => 0 end.

(** The merge join of [SparseRow::dot]. *)
Fixpoint dot_loop (fuel : nat) (left right : SparseRow A) (computer : DocValueComputer A)
    (other_sum product_sum : A) : A :=
  match fuel with
  | 0 => product_sum
  | S fuel =>
      match left, right with
      | (li, lv) :: left', (ri, rv) :: right' =>
          if (li <? ri)%Z then dot_loop fuel left' right computer other_sum product_sum
          else if (ri <? li)%Z then dot_loop fuel left right' computer other_sum product_sum
          else dot_loop fuel left' right' computer other_sum
                 (nadd product_sum (nmul lv (computer rv other_sum)))
      | _, _ => product_sum
      end
  end.

Definition dot (self other : SparseRow A) (computer : DocValueComputer A) (other_sum : A) : A :=
  dot_loop (length self + length other) self other computer other_sum nzero.

End row.

(** How a value is stored in a posting list ([get_quant_val]) and read back. *)
Class Quant (A Q : Type) := {
  get_quant_val : A -> Q;
  stored : Q -> A
}.

#[export] Instance quant_id {A} : Quant A A := {| get_quant_val := fun v => v; stored := fun q => q |}.

(** [QType = uint16_t]: saturating, otherwise truncated.  (The cast of a NaN,
    which passes both tests, is undefined in C++.) *)
Definition quant_u16 {A} `{!Num A} (v : A) : Z :=
  if nltb (nofZ 65535) v || neqb v (nofZ 65535) then 65535
  else if nltb v (nofZ 0) || neqb v (nofZ 0) then 0
  else ntrunc v.

(** [InvertedIndex<DType, uint16_t, algo>], the instance of every BM25 index. *)
Definition u16_quant {A} `{!Num A} : Quant A Z := {| get_quant_val := quant_u16; stored := nofZ |}.

(** ** State *)

Record BM25Params (A : Type) := mkBM25 {
  k1 : A;
  b : A;
  row_sums : list A;
  row_sums_spans : list A;
  max_score_computer : DocValueComputer A
}.
Arguments mkBM25 {A}.
Arguments k1 {A}.
Arguments b {A}.
Arguments row_sums {A}.
Arguments row_sums_spans {A}.
Arguments max_score_computer {A}.

Record InvertedIndex (A Q : Type) := mkIndex {
  dim_map : gmap Z nat;
  nr_inner_dims : nat;
  inverted_index_ids : list (list nat);
  inverted_index_vals : list (list Q);
  inverted_index_ids_spans : list (list nat);
  inverted_index_vals_spans : list (list Q);
  max_score_in_dim : list A;
  max_score_in_dim_spans : list A;
  metric_type : SparseMetricType;
  n_rows_internal : nat;
  max_dim : Z;
  next_dim_id : nat;
  bm25_params : option (BM25Params A);
  dataset_nnz_stats : list nat;
  posting_list_length_stats : list nat
}.
Arguments mkIndex {A Q}.
Arguments dim_map {A Q}.
Arguments nr_inner_dims {A Q}.
Arguments inverted_index_ids {A Q}.
Arguments inverted_index_vals {A Q}.
Arguments inverted_index_ids_spans {A Q}.
Arguments inverted_index_vals_spans {A Q}.
Arguments max_score_in_dim {A Q}.
Arguments max_score_in_dim_spans {A Q}.
Arguments metric_type {A Q}.
Arguments n_rows_internal {A Q}.
Arguments max_dim {A Q}.
Arguments next_dim_id {A Q}.
Arguments bm25_params {A Q}.
Arguments dataset_nnz_stats {A Q}.
Arguments posting_list_length_stats {A Q}.

(** The constructor: an empty index. *)
Definition new_index {A Q} (metric : SparseMetricType) (bm25 : option (BM25Params A)) : InvertedIndex A Q :=
  mkIndex ∅ 0 [] [] [] [] [] [] metric 0 0 0 bm25 [] [].

Section index.
Context {A Q : Type} `{!Num A, !Quant A Q}.
Context (algo : InvertedIndexAlgo).
Implicit Types ix : InvertedIndex A Q.

Definition is_daat : bool := match algo with TAAT_NAIVE => false | _ => true end.
Definition is_bm25 ix : bool := match metric_type ix with METRIC_BM25 => true | METRIC_IP => false end.

Definition set_lists ix dm ids vals ms next : InvertedIndex A Q :=
  mkIndex dm (nr_inner_dims ix) ids vals (inverted_index_ids_spans ix) (inverted_index_vals_spans ix)
    ms (max_score_in_dim_spans ix) (metric_type ix) (n_rows_internal ix) (max_dim ix) next
    (bm25_params ix) (dataset_nnz_stats ix) (posting_list_length_stats ix).

Definition set_max_scores ix ms : InvertedIndex A Q :=
  set_lists ix (dim_map ix) (inverted_index_ids ix) (inverted_index_vals ix) ms (next_dim_id ix).

(** [bm25_params_->...]: a null pointer dereference is undefined. *)
Definition bm25_of ix : M (BM25Params A) :=
  match bm25_params ix with Some p => Ret p | None => Undef end.

(** ** Building *)

(** The first loop of [add_row_to_index]: one element of the row. *)
Definition post_value (vec_id : nat) (st : InvertedIndex A Q * A) (e : Z * A)
    : M (InvertedIndex A Q * A) :=
  let '(ix, row_sum) := st in
  let '(dim, val) := e in
  let row_sum := if is_bm25 ix then nadd row_sum val else row_sum in
  if neqb val nzero then Ret (ix, row_sum)
  else
    let '(ix, dim_id) :=
      match dim_map ix !! dim with
      | Some d => (ix, d)
      | None =>
          (set_lists ix (<[dim := next_dim_id ix]> (dim_map ix)) (inverted_index_ids ix ++ [[]])
             (inverted_index_vals ix ++ [[]])
             (if is_daat then max_score_in_dim ix ++ [nzero] else max_score_in_dim ix)
             (next_dim_id ix + 1),
           next_dim_id ix)
      end in
    let* pids := vget (inverted_index_ids ix) dim_id in
    let* ids := vset (inverted_index_ids ix) dim_id (pids ++ [vec_id]) in
    let* pvals := vget (inverted_index_vals ix) dim_id in
    let* vals := vset (inverted_index_vals ix) dim_id (pvals ++ [get_quant_val val]) in
    Ret (set_lists ix (dim_map ix) ids vals (max_score_in_dim ix) (next_dim_id ix), row_sum).

(** The second loop: the largest score of each dimension. *)
Definition raise_max_score (row_sum : A) (ix : InvertedIndex A Q) (e : Z * A) : M (InvertedIndex A Q) :=
  let '(dim, val) := e in
  if neqb val nzero then Ret ix
  else
    match dim_map ix !! dim with
    | None => Throw "unexpected vector dimension in InvertedIndex"
    | Some dim_id =>
        let* score := (if is_bm25 ix then
                         let* p := bm25_of ix in Ret (max_score_computer p val row_sum)
                       else Ret val) in
        let* m := vget (max_score_in_dim ix) dim_id in
        let* ms := vset (max_score_in_dim ix) dim_id (nmax m score) in
        Ret (set_max_scores ix ms)
    end.

Definition push_nnz ix (n : nat) : InvertedIndex A Q :=
  mkIndex (dim_map ix) (nr_inner_dims ix) (inverted_index_ids ix) (inverted_index_vals ix)
    (inverted_index_ids_spans ix) (inverted_index_vals_spans ix) (max_score_in_dim ix)
    (max_score_in_dim_spans ix) (metric_type ix) (n_rows_internal ix) (max_dim ix) (next_dim_id ix)
    (bm25_params ix) (dataset_nnz_stats ix ++ [n]) (posting_list_length_stats ix).

Definition set_bm25 ix (p : BM25Params A) : InvertedIndex A Q :=
  mkIndex (dim_map ix) (nr_inner_dims ix) (inverted_index_ids ix) (inverted_index_vals ix)
    (inverted_index_ids_spans ix) (inverted_index_vals_spans ix) (max_score_in_dim ix)
    (max_score_in_dim_spans ix) (metric_type ix) (n_rows_internal ix) (max_dim ix) (next_dim_id ix)
    (Some p) (dataset_nnz_stats ix) (posting_list_length_stats ix).

Definition add_row_to_index ix (row : SparseRow A) (vec_id : nat) : M (InvertedIndex A Q) :=
  let* (ix, row_sum) := foldM (post_value vec_id) (ix, nzero) row in
  let ix := push_nnz ix (length row) in
  let* ix := (if is_daat then foldM (raise_max_score row_sum) ix row else Ret ix) in
  if is_bm25 ix then
    let* p := bm25_of ix in
    Ret (set_bm25 ix (mkBM25 (k1 p) (b p) (row_sums p ++ [row_sum]) (row_sums_spans p)
                        (max_score_computer p)))
  else Ret ix.

(** Publishing the lists: the tail of [Add]. *)
Definition publish ix (rows : nat) (dim : Z) : M (InvertedIndex A Q) :=
  let nr := size (dim_map ix) in
  let* lens := foldM (fun acc i => let* l := vget (inverted_index_ids ix) i in Ret (acc ++ [length l]))
                 [] (seq 0 nr) in
  let* ids := foldM (fun acc i => let* l := vget (inverted_index_ids ix) i in Ret (acc ++ [l]))
                [] (seq 0 nr) in
  let* vals := foldM (fun acc i => let* l := vget (inverted_index_vals ix) i in Ret (acc ++ [l]))
                 [] (seq 0 nr) in
  let* bm := (if is_bm25 ix then
                let* p := bm25_of ix in
                Ret (Some (mkBM25 (k1 p) (b p) (row_sums p) (row_sums p) (max_score_computer p)))
              else Ret (bm25_params ix)) in
  Ret (mkIndex (dim_map ix) nr (inverted_index_ids ix) (inverted_index_vals ix) ids vals
         (max_score_in_dim ix)
         (match max_score_in_dim ix with [] => max_score_in_dim_spans ix | ms => ms end)
         (metric_type ix) (n_rows_internal ix + rows) dim (next_dim_id ix) bm
         (dataset_nnz_stats ix) lens).

(** [Add(data, rows, dim)] of a non-mmapped index. *)
Definition Add ix (data : list (SparseRow A)) (dim : Z) : M (InvertedIndex A Q) :=
  let current_rows := n_rows_internal ix in
  let max_dim := if (max_dim ix <? dim)%Z then dim else max_dim ix in
  let* ix := foldM (fun ix i =>
      let* row := vget data i in add_row_to_index ix row (current_rows + i))
    ix (seq 0 (length data)) in
  publish ix (length data) max_dim.

(** [n_rows()] and [n_cols()]. *)
Definition n_rows ix : nat := n_rows_internal ix.
Definition n_cols ix : Z := max_dim ix.

(** ** Queries *)

(** The document length the computers get: [row_sums[doc_id]] under BM25, else 0. *)
Definition doc_len ix (doc_id : nat) : M A :=
  if is_bm25 ix then let* p := bm25_of ix in vget (row_sums_spans p) doc_id else Ret nzero.

Section queries.
Context `{!StdSort}.

(** [get_threshold(values, drop_ratio)]; after [std::nth_element] the element at
    [pos] is the one of that rank. *)
Definition get_threshold (values : list A) (drop_ratio : A) : M A :=
  let drop_count := Z.to_nat (ntrunc (nmul drop_ratio (nofZ (Z.of_nat (length values))))) in
  if drop_count =? 0 then Ret nzero else vget (std_sort nltb values) drop_count.

Definition parse_query ix (query : SparseRow A) (drop_ratio_search : A) : M (list (nat * A)) :=
  let* q_threshold :=
    (if neqb drop_ratio_search nzero then Ret nzero
     else get_threshold ((fun e => nabs (snd e)) <$> query) drop_ratio_search) in
  Ret (omap (fun e : Z * A =>
         let '(dim, val) := e in
         match dim_map ix !! dim with
         | Some dim_id => if nltb (nabs val) q_threshold then None else Some (dim_id, val)
         | None => None
         end) query).

(** One posting list added into the scores. *)
Definition add_postings ix (computer : DocValueComputer A) (scores : list A) (q : nat * A)
    : M (list A) :=
  let '(dim_id, qv) := q in
  let* plist_ids := vget (inverted_index_ids_spans ix) dim_id in
  let* plist_vals := vget (inverted_index_vals_spans ix) dim_id in
  foldM (fun scores j =>
      let* doc_id := vget plist_ids j in
      let* val_sum := doc_len ix doc_id in
      let* v := vget plist_vals j in
      let* s := vget scores doc_id in
      vset scores doc_id (nadd s (nmul qv (computer (stored v) val_sum))))
    scores (seq 0 (length plist_ids)).

Definition compute_all_distances ix (q_vec : list (nat * A)) (computer : DocValueComputer A)
    : M (list A) :=
  foldM (add_postings ix computer) (replicate (n_rows_internal ix) nzero) q_vec.

Definition GetAllDistances ix (query : SparseRow A) (drop_ratio_search : A) (bitset : BitsetView.t)
    (computer : DocValueComputer A) : M (list A) :=
  match query with
  | [] => Ret []
  | _ =>
      let* q_vec := parse_query ix query drop_ratio_search in
      let* distances := compute_all_distances ix q_vec computer in
      if BitsetView.empty bitset then Ret distances
      else foldM (fun distances i =>
               let* t := BitsetView.test bitset i in
               if t then vset distances i nzero else Ret distances)
             distances (seq 0 (length distances))
  end.

(** One query term of [GetRawDistance]; [std::lower_bound] on a sorted list is
    the first element not below [vec_id]. *)
Definition raw_term ix (vec_id : nat) (computer : DocValueComputer A) (distance : A) (e : Z * A)
    : M A :=
  let '(dim, val) := e in
  match dim_map ix !! dim with
  | None => Ret distance
  | Some dim_id =>
      let* plist_ids := vget (inverted_index_ids_spans ix) dim_id in
      match list_find (fun x => vec_id <= x) plist_ids with
      | Some (j, x) =>
          if x =? vec_id then
            let* plist_vals := vget (inverted_index_vals_spans ix) dim_id in
            let* v := vget plist_vals j in
            let* val_sum := doc_len ix vec_id in
            Ret (nadd distance (nmul val (computer (stored v) val_sum)))
          else Ret distance
      | None => Ret distance
      end
  end.

Definition GetRawDistance ix (vec_id : nat) (query : SparseRow A) (computer : DocValueComputer A)
    : M A :=
  foldM (raw_term ix vec_id computer) nzero query.

Definition search_taat_naive {F} `{!DocIdFilter F} ix (q_vec : list (nat * A))
    (heap : MaxMinHeap.t A) (filter : F) (computer : DocValueComputer A) : M (MaxMinHeap.t A) :=
  let* scores := compute_all_distances ix q_vec computer in
  let* (heap, _) := foldM (fun (st : MaxMinHeap.t A * F) i =>
      let '(heap, filter) := st in
      let* (filter, pass) :=
        (if f_empty filter then Ret (filter, true)
         else let* (filter, t) := f_test filter i in Ret (filter, negb t)) in
      if pass then
        let* s := vget scores i in
        if neqb s nzero then Ret (heap, filter)
        else let* heap := MaxMinHeap.push heap i s in Ret (heap, filter)
      else Ret (heap, filter))
    (heap, filter) (seq 0 (n_rows_internal ix)) in
  Ret heap.

End queries.

End index.
