(* ===== verification/SparseIndexSpec.v ===== *)
(** * The inverted index represents its rows

    The abstract content of an index is the list of rows added to it; the
    posting list of a dimension lists, in row order, the rows with a non-zero
    value there.  [Add] extends the represented rows, and every score the index
    computes is the score of the represented row. *)

From S2P Require Import Prelude Float Num StdHeap SparseUtils Bitset Expected SparseIndex.

Section rows.
Context {A} `{!Num A}.
Implicit Types row r : SparseRow A.
Implicit Types rows : list (SparseRow A).
Implicit Types v w : A.

(** The non-zero value of a row in dimension [d]. *)
Fixpoint row_val (row : SparseRow A) (d : Z) : option A :=
  match row with
  | [] => None
  | (d', v) :: row => if (d' =? d)%Z && negb (neqb v nzero) then Some v else row_val row d
  end.

(** The posting list of [d], from row number [i] on. *)
Fixpoint posting_from (i : nat) (rows : list (SparseRow A)) (d : Z) : list (nat * A) :=
  match rows with
  | [] => []
  | r :: rows =>
      match row_val r d with
      | Some v => (i, v) :: posting_from (i + 1) rows d
      | None => posting_from (i + 1) rows d
      end
  end.

Definition posting (rows : list (SparseRow A)) (d : Z) : list (nat * A) := posting_from 0 rows d.

(** Rows have one element per dimension. *)
Definition row_ok (row : SparseRow A) : Prop := NoDup (fst <$> row).

Lemma row_val_none row d : d ∉ fst <$> row -> row_val row d = None.
Proof.
  induction row as [|[d' v] row IH]; [done|]. rewrite fmap_cons, not_elem_of_cons. intros [Hne Hd]. simpl.
  simpl in Hne. rewrite (proj2 (Z.eqb_neq _ _)) by done. simpl. auto.
Qed.

Lemma row_val_snoc row d v d' : d ∉ fst <$> row ->
  row_val (row ++ [(d, v)]) d' =
    if (d =? d')%Z then (if neqb v nzero then None else Some v) else row_val row d'.
Proof.
  intros Hd. induction row as [|[e w] row IH]; simpl.
  - destruct (d =? d')%Z; [|done]. by destruct (neqb v nzero).
  - rewrite fmap_cons, not_elem_of_cons in Hd. destruct Hd as [Hne Hd]. simpl in Hne.
    destruct (Z.eqb_spec e d') as [<-|Hed]; simpl; [|by apply IH].
    rewrite (proj2 (Z.eqb_neq d e)) by done.
    destruct (neqb w nzero); simpl; [|done]. rewrite IH by done. by rewrite (proj2 (Z.eqb_neq d e)) by done.
Qed.

Lemma posting_from_app i rows rows' d :
  posting_from i (rows ++ rows') d = posting_from i rows d ++ posting_from (i + length rows) rows' d.
Proof.
  revert i. induction rows as [|r rows IH]; intros i; simpl; [by rewrite Nat.add_0_r|].
  rewrite IH. replace (i + 1 + length rows) with (i + S (length rows)) by lia.
  by destruct (row_val r d).
Qed.

Lemma posting_snoc rows r d :
  posting (rows ++ [r]) d = posting rows d ++ match row_val r d with
                                              | Some v => [(length rows, v)]
                                              | None => []
                                              end.
Proof. unfold posting. rewrite posting_from_app. simpl. by destruct (row_val r d). Qed.

(** The posting list holds row [k] with value [v] exactly when row [k] has it. *)
Lemma elem_of_posting_from i rows d k v : (k, v) ∈ posting_from i rows d <->
  i <= k /\ exists r, rows !! (k - i) = Some r /\ row_val r d = Some v.
Proof.
  revert i. induction rows as [|r rows IH]; intros i; simpl.
  { rewrite elem_of_nil. split; [done|]. by intros (_ & r & [=] & _). }
  assert ((k, v) ∈ posting_from (i + 1) rows d <->
    i < k /\ exists r', (r :: rows) !! (k - i) = Some r' /\ row_val r' d = Some v) as Hrest.
  { rewrite IH. split; intros [Hk (r' & Hr & Hv)].
    - split; [lia|]. exists r'. by replace (k - i) with (S (k - (i + 1))) by lia.
    - split; [lia|]. exists r'. by replace (k - i) with (S (k - (i + 1))) in Hr by lia. }
  destruct (row_val r d) as [w|] eqn:Hw; [rewrite elem_of_cons|]; rewrite Hrest.
  - split.
    + intros [[= -> ->]|[Hk He]]; [split; [lia|]; exists r; by rewrite Nat.sub_diag|split; [lia|done]].
    + intros [Hk (r' & Hr & Hv)]. destruct (decide (k = i)) as [->|]; [|right; split; [lia|by exists r']].
      rewrite Nat.sub_diag in Hr. injection Hr as <-. left. congruence.
  - split; [intros [Hk He]; split; [lia|done]|]. intros [Hk (r' & Hr & Hv)].
    destruct (decide (k = i)) as [->|]; [|split; [lia|by exists r']].
    rewrite Nat.sub_diag in Hr. injection Hr as <-. congruence.
Qed.

Lemma posting_from_sorted i rows d : StronglySorted (<) (fst <$> posting_from i rows d).
Proof.
  revert i. induction rows as [|r rows IH]; intros i; simpl; [constructor|].
  destruct (row_val r d); [|apply IH]. simpl. constructor; [apply IH|].
  apply Forall_fmap, Forall_forall. intros [k w] Hk%elem_of_posting_from. simpl. lia.
Qed.

End rows.

(** ** The representation *)

Section rep.
Context {A Q} `{!Num A, !Quant A Q} (algo : InvertedIndexAlgo).
Implicit Types ix : InvertedIndex A Q.
Implicit Types rows : list (SparseRow A).
Implicit Types r : SparseRow A.
Implicit Types v : A.

(** The posting lists of [ix] are those of [rows]. *)
Record lists_ok ix (rows : list (SparseRow A)) : Prop := {
  lo_ids_len : length (inverted_index_ids ix) = next_dim_id ix;
  lo_vals_len : length (inverted_index_vals ix) = next_dim_id ix;
  lo_bound : forall d k, dim_map ix !! d = Some k -> k < next_dim_id ix;
  lo_inj : forall d d' k, dim_map ix !! d = Some k -> dim_map ix !! d' = Some k -> d = d';
  lo_surj : forall k, k < next_dim_id ix -> exists d, dim_map ix !! d = Some k;
  lo_size : size (dim_map ix) = next_dim_id ix;
  lo_ids : forall d k, dim_map ix !! d = Some k ->
    inverted_index_ids ix !! k = Some (fst <$> posting rows d);
  lo_vals : forall d k, dim_map ix !! d = Some k ->
    inverted_index_vals ix !! k = Some ((fun e => get_quant_val (snd e)) <$> posting rows d);
  lo_none : forall d, dim_map ix !! d = None -> posting rows d = [];
  lo_ms : is_daat algo = true -> length (max_score_in_dim ix) = next_dim_id ix
}.

Lemma lists_ok_new metric bm : lists_ok (new_index metric bm) [].
Proof. split; simpl; try done; intros *; rewrite ?lookup_empty; try done; lia. Qed.

(** A dimension gets its number when first seen. *)
Lemma lists_ok_new_dim ix rows d ms : lists_ok ix rows -> dim_map ix !! d = None ->
  (is_daat algo = true -> length ms = length (max_score_in_dim ix) + 1) ->
  lists_ok (set_lists ix (<[d := next_dim_id ix]> (dim_map ix)) (inverted_index_ids ix ++ [[]])
              (inverted_index_vals ix ++ [[]]) ms (next_dim_id ix + 1)) rows.
Proof.
  intros [] Hd Hms. split; simpl.
  - rewrite length_app. simpl. lia.
  - rewrite length_app. simpl. lia.
  - intros d' k. rewrite lookup_insert. case_decide; [intros [= <-]; lia|]. intros Hk%lo_bound0. lia.
  - intros d1 d2 k. rewrite !lookup_insert. repeat case_decide; subst; try done.
    + intros [= <-] Hk%lo_bound0. lia.
    + intros Hk%lo_bound0 [= <-]. lia.
    + by apply lo_inj0.
  - intros k Hk. destruct (decide (k = next_dim_id ix)) as [->|Hne].
    + exists d. by rewrite lookup_insert_eq.
    + destruct (lo_surj0 k) as [d' Hd']; [lia|]. exists d'.
      rewrite lookup_insert_ne; [done|]. intros ->. congruence.
  - rewrite map_size_insert_None by done. lia.
  - intros d' k. rewrite lookup_insert. case_decide; subst.
    + intros [= <-]. rewrite lo_none0 by done. by rewrite lookup_app_r, lo_ids_len0, Nat.sub_diag by lia.
    + intros Hk. rewrite lookup_app_l; [by apply lo_ids0|]. apply lo_bound0 in Hk. lia.
  - intros d' k. rewrite lookup_insert. case_decide; subst.
    + intros [= <-]. rewrite lo_none0 by done. by rewrite lookup_app_r, lo_vals_len0, Nat.sub_diag by lia.
    + intros Hk. rewrite lookup_app_l; [by apply lo_vals0|]. apply lo_bound0 in Hk. lia.
  - intros d' Hd'. apply lookup_insert_None in Hd' as [Hd' _]. auto.
  - intros Ha. rewrite Hms, lo_ms0 by done. done.
Qed.

(** Replacing the last, partial row by one with one more element. *)
Lemma posting_last rows r d v d' : d ∉ fst <$> r ->
  posting (rows ++ [r ++ [(d, v)]]) d' =
    posting (rows ++ [r]) d' ++
      (if (d =? d')%Z then (if neqb v nzero then [] else [(length rows, v)]) else []).
Proof.
  intros Hd. rewrite !posting_snoc, row_val_snoc by done.
  destruct (Z.eqb_spec d d') as [<-|Hne]; [|by rewrite app_nil_r].
  rewrite row_val_none, app_nil_r by done. by destruct (neqb v nzero).
Qed.

(** What [post_value] leaves alone. *)
Definition same_meta ix ix' : Prop :=
  nr_inner_dims ix' = nr_inner_dims ix /\ metric_type ix' = metric_type ix /\
  n_rows_internal ix' = n_rows_internal ix /\ max_dim ix' = max_dim ix /\
  bm25_params ix' = bm25_params ix /\
  max_score_in_dim_spans ix' = max_score_in_dim_spans ix /\ next_dim_id ix <= next_dim_id ix'.

#[export] Instance same_meta_preorder : PreOrder same_meta.
Proof.
  split; [by repeat split|]. unfold same_meta. intros x y z (?&?&?&?&?&?&?) (?&?&?&?&?&?&?).
  split_and!; [congruence..|lia].
Qed.

Lemma post_value_spec ix sum rows r d v :
  lists_ok ix (rows ++ [r]) -> d ∉ fst <$> r ->
  wp (post_value algo (length rows) (ix, sum) (d, v)) (fun '(ix', sum') =>
    lists_ok ix' (rows ++ [r ++ [(d, v)]]) /\ same_meta ix ix' /\
    sum' = if is_bm25 ix then nadd sum v else sum).
Proof.
  intros Hok Hd. unfold post_value. destruct (neqb v nzero) eqn:Hv.
  { simpl. split_and!; [|reflexivity|done]. destruct Hok.
    assert (forall d', posting (rows ++ [r ++ [(d, v)]]) d' = posting (rows ++ [r]) d') as Hp.
    { intros d'. rewrite posting_last, Hv by done. destruct (d =? d')%Z; apply app_nil_r. }
    split; try done; intros *; rewrite Hp; auto. }
  assert (forall ix0 k, lists_ok ix0 (rows ++ [r]) -> same_meta ix ix0 -> dim_map ix0 !! d = Some k ->
    wp (let* pids := vget (inverted_index_ids ix0) k in
        let* ids := vset (inverted_index_ids ix0) k (pids ++ [length rows]) in
        let* pvals := vget (inverted_index_vals ix0) k in
        let* vals := vset (inverted_index_vals ix0) k (pvals ++ [get_quant_val v]) in
        Ret (set_lists ix0 (dim_map ix0) ids vals (max_score_in_dim ix0) (next_dim_id ix0),
             if is_bm25 ix then nadd sum v else sum))
      (fun '(ix', sum') => lists_ok ix' (rows ++ [r ++ [(d, v)]]) /\ same_meta ix ix' /\
         sum' = if is_bm25 ix then nadd sum v else sum)) as Happend.
  { intros ix0 k [] Hm Hk. rewrite (proj2 (vget_Ret _ _ _) (lo_ids0 d k Hk)). cbn [bind].
    apply wp_bind, wp_vset; [rewrite lo_ids_len0; by eapply lo_bound0|].
    rewrite (proj2 (vget_Ret _ _ _) (lo_vals0 d k Hk)). cbn [bind].
    apply wp_bind, wp_vset; [rewrite lo_vals_len0; by eapply lo_bound0|].
    simpl. split_and!; [|by unfold same_meta in *; simpl|done]. split; simpl; try done.
    - by rewrite length_insert.
    - by rewrite length_insert.
    - intros d' k' Hk'. rewrite posting_last, Hv by done. destruct (decide (k = k')) as [<-|Hne].
      + rewrite (lo_inj0 d' d k) by done. rewrite Z.eqb_refl, fmap_app.
        apply list_lookup_insert_eq. rewrite lo_ids_len0. by eapply lo_bound0.
      + rewrite (proj2 (Z.eqb_neq _ _)) by (intros <-; congruence).
        rewrite app_nil_r, list_lookup_insert_ne by done. auto.
    - intros d' k' Hk'. rewrite posting_last, Hv by done. destruct (decide (k = k')) as [<-|Hne].
      + rewrite (lo_inj0 d' d k) by done. rewrite Z.eqb_refl, fmap_app.
        apply list_lookup_insert_eq. rewrite lo_vals_len0. by eapply lo_bound0.
      + rewrite (proj2 (Z.eqb_neq _ _)) by (intros <-; congruence).
        rewrite app_nil_r, list_lookup_insert_ne by done. auto.
    - intros d' Hd'. rewrite posting_last, Hv by done.
      rewrite (proj2 (Z.eqb_neq _ _)) by (intros <-; congruence). rewrite app_nil_r. auto. }
  destruct (dim_map ix !! d) as [k|] eqn:Hk.
  - apply Happend; [done|reflexivity|done].
  - apply Happend; [apply lists_ok_new_dim; [done|done|]|by repeat split; simpl; try lia|].
    { intros ->. by rewrite length_app. }
    simpl. apply lookup_insert_eq.
Qed.

(** ** Adding rows *)

(** The sum of a row as [add_row_to_index] computes it under BM25. *)
Definition row_sum (row : SparseRow A) : A := foldl (fun s e => nadd s (snd e)) nzero row.

Lemma post_row_spec ix rows row : lists_ok ix (rows ++ [[]]) -> row_ok row ->
  wp (foldM (post_value algo (length rows)) (ix, nzero) row) (fun '(ix', sum) =>
    lists_ok ix' (rows ++ [row]) /\ same_meta ix ix' /\
    sum = if is_bm25 ix then row_sum row else nzero).
Proof.
  intros Hok Hnd.
  apply (wp_foldM _ (fun pre '(ix', sum) => lists_ok ix' (rows ++ [pre]) /\ same_meta ix ix' /\
    sum = if is_bm25 ix then row_sum pre else nzero)).
  - split_and!; [done|reflexivity|by destruct (is_bm25 ix)].
  - intros pre [d v] post [ix' sum] -> (Hok' & Hm & ->). unfold row_ok in Hnd.
    rewrite fmap_app, fmap_cons in Hnd. apply NoDup_app in Hnd as (_ & Hd & _).
    assert (d ∉ pre.*1) by (intros Hin; apply (Hd d Hin), elem_of_cons; by left).
    eapply wp_mono; [by apply post_value_spec|]. intros [ix'' sum'] (? & Hm' & ->).
    assert (is_bm25 ix' = is_bm25 ix) as -> by (unfold is_bm25; by destruct Hm as (_ & -> & _)).
    split_and!; [done|by etrans|]. unfold row_sum. rewrite foldl_app. by destruct (is_bm25 ix).
  - done.
Qed.

(** [raise_max_score] only touches the scores. *)
Lemma raise_max_score_spec ix rows row sum : lists_ok ix (rows ++ [row]) -> row_ok row ->
  is_daat algo = true -> (is_bm25 ix = true -> is_Some (bm25_params ix)) ->
  wp (foldM (raise_max_score sum) ix row) (fun ix' =>
    lists_ok ix' (rows ++ [row]) /\ same_meta ix ix').
Proof.
  intros Hok Hnd Ha Hbm. apply (wp_foldM_simple _ (fun ix' => lists_ok ix' (rows ++ [row]) /\ same_meta ix ix')).
  - by split.
  - intros [d v] ix' Hin [Hok' Hm]. unfold raise_max_score.
    destruct (neqb v nzero) eqn:Hv; [done|].
    destruct (dim_map ix' !! d) as [k|] eqn:Hk.
    + assert (is_bm25 ix' = is_bm25 ix /\ bm25_params ix' = bm25_params ix) as [-> Hb].
      { unfold is_bm25. by destruct Hm as (_ & -> & _ & _ & -> & _). }
      apply wp_bind. eapply (wp_mono _ (fun _ => True)).
      { destruct (is_bm25 ix); [|done]. destruct (Hbm eq_refl) as [p Hp].
        unfold bm25_of. by rewrite Hb, Hp. }
      intros score _. destruct Hok'. assert (k < length (max_score_in_dim ix')).
      { rewrite lo_ms0 by done. by eapply lo_bound0. }
      apply wp_bind, wp_vget; [done|]. intros m Hmk. apply wp_bind, wp_vset; [done|]. simpl.
      split; [|by unfold same_meta in *; simpl]. split; simpl; try done. intros _.
      rewrite length_insert. auto.
    + exfalso. pose proof (lo_none _ _ Hok' d Hk) as Hp. rewrite posting_snoc in Hp.
      apply app_eq_nil in Hp as [_ Hp]. destruct (row_val row d) eqn:Hrv; [done|].
      apply list_elem_of_split in Hin as (pre & post & ->).
      unfold row_ok in Hnd. rewrite fmap_app, fmap_cons in Hnd.
      apply NoDup_app in Hnd as (_ & Hd & _).
      assert (d ∉ pre.*1) as Hpre by (intros Hin; apply (Hd d Hin), elem_of_cons; by left).
      clear -Hrv Hpre Hv. induction pre as [|[e w] pre IH]; simpl in *.
      * by rewrite Z.eqb_refl, Hv in Hrv.
      * apply not_elem_of_cons in Hpre as [Hne Hpre]. simpl in Hne.
        rewrite (proj2 (Z.eqb_neq _ _)) in Hrv by done. auto.
  - done.
Qed.

(** Under BM25 the parameters are there and hold one sum per row. *)
Definition sums_ok ix rows : Prop :=
  is_bm25 ix = true -> exists p, bm25_params ix = Some p /\ row_sums p = row_sum <$> rows.

(** What does not change from row to row. *)
Definition frame ix ix' : Prop :=
  metric_type ix' = metric_type ix /\ n_rows_internal ix' = n_rows_internal ix /\
  max_score_in_dim_spans ix' = max_score_in_dim_spans ix /\ next_dim_id ix <= next_dim_id ix'.

Lemma lists_ok_snoc_nil ix rows : lists_ok ix rows -> lists_ok ix (rows ++ [[]]).
Proof.
  intros []. assert (forall d, posting (rows ++ [[]]) d = posting rows d) as Hp.
  { intros d. rewrite posting_snoc. apply app_nil_r. }
  split; try done; intros *; rewrite Hp; auto.
Qed.

Lemma lists_ok_ext ix ix' rows : lists_ok ix rows ->
  dim_map ix' = dim_map ix -> inverted_index_ids ix' = inverted_index_ids ix ->
  inverted_index_vals ix' = inverted_index_vals ix -> next_dim_id ix' = next_dim_id ix ->
  max_score_in_dim ix' = max_score_in_dim ix -> lists_ok ix' rows.
Proof. intros [] E1 E2 E3 E4 E5. split; rewrite ?E1, ?E2, ?E3, ?E4, ?E5; done. Qed.

Lemma add_row_spec ix rows row : lists_ok ix rows -> sums_ok ix rows -> row_ok row ->
  wp (add_row_to_index algo ix row (length rows)) (fun ix' =>
    lists_ok ix' (rows ++ [row]) /\ sums_ok ix' (rows ++ [row]) /\ frame ix ix').
Proof.
  intros Hok Hsums Hrow. unfold add_row_to_index. apply wp_bind.
  eapply wp_mono; [apply post_row_spec; [by apply lists_ok_snoc_nil|done]|].
  intros [ix1 sum] (Hok1 & Hm1 & ->). apply wp_bind.
  set (s := if is_bm25 ix then row_sum row else nzero).
  eapply (wp_mono _ (fun ix2 => lists_ok ix2 (rows ++ [row]) /\ same_meta ix1 ix2)).
  { assert (lists_ok (push_nnz ix1 (length row)) (rows ++ [row])) as Hok2 by (by eapply lists_ok_ext).
    destruct (is_daat algo) eqn:Ha; [|by split; [|repeat split]].
    eapply wp_mono; [apply (raise_max_score_spec _ rows); [done|done|done|]|].
    - change (is_bm25 (push_nnz ix1 (length row))) with (is_bm25 ix1). simpl.
      destruct Hm1 as (_ & Hmt & _ & _ & -> & _). unfold is_bm25. rewrite Hmt. intros Hb.
      destruct (Hsums Hb) as (p & -> & _). done.
    - intros ix2 [? Hm]. split; [done|]. unfold same_meta in *. simpl in *. done. }
  intros ix2 [Hok2 Hm2]. assert (same_meta ix ix2) as (_ & Hmt & Hn & _ & Hb & Hsp & Hle) by (by etrans).
  assert (is_bm25 ix2 = is_bm25 ix) as Hbm by (unfold is_bm25; by rewrite Hmt).
  rewrite Hbm. destruct (is_bm25 ix) eqn:Hbix.
  - destruct (Hsums Hbix) as (p & Hp & Hrs). unfold bm25_of. rewrite Hb, Hp. simpl. split_and!.
    + by eapply lists_ok_ext.
    + intros _. eexists. split; [done|]. simpl. by rewrite Hrs, fmap_app.
    + done.
  - simpl. split_and!; [done|by unfold sums_ok; rewrite Hbm|done].
Qed.

(** ** The published index *)

Record represents ix rows : Prop := {
  re_lists : lists_ok ix rows;
  re_rows : n_rows_internal ix = length rows;
  re_nr : nr_inner_dims ix = next_dim_id ix;
  re_ids : inverted_index_ids_spans ix = inverted_index_ids ix;
  re_vals : inverted_index_vals_spans ix = inverted_index_vals ix;
  re_ms : is_daat algo = true -> max_score_in_dim_spans ix = max_score_in_dim ix;
  re_sums : is_bm25 ix = true -> exists p, bm25_params ix = Some p /\
    row_sums p = row_sum <$> rows /\ row_sums_spans p = row_sum <$> rows
}.

Lemma copy_loop {B C} (l : list B) (f : B -> C) :
  wp (foldM (fun (acc : list C) i => let* x := vget l i in Ret (acc ++ [f x])) [] (seq 0 (length l)))
     (fun out => out = f <$> l).
Proof.
  apply (wp_for _ (fun i (out : list C) => out = f <$> take i l)); [done| |].
  - intros i out Hi ->. apply wp_bind, wp_vget; [lia|]. intros x Hx. simpl.
    by rewrite Nat.add_1_r, (take_S_r _ _ _ Hx), fmap_app.
  - intros out ->. by rewrite Nat.add_0_l, take_ge.
Qed.

Lemma publish_spec ix rows n dim : lists_ok ix rows -> sums_ok ix rows ->
  n_rows_internal ix + n = length rows ->
  (is_daat algo = true -> max_score_in_dim ix = [] -> max_score_in_dim_spans ix = []) ->
  wp (publish ix n dim) (fun ix' => represents ix' rows /\ metric_type ix' = metric_type ix /\
    max_dim ix' = dim).
Proof.
  intros Hok Hsums Hn Hspan. pose proof Hok as []. unfold publish. rewrite lo_size0.
  apply wp_bind. rewrite <- lo_ids_len0 at 1.
  eapply wp_mono; [apply (copy_loop _ length)|]. intros lens _.
  apply wp_bind. rewrite <- lo_ids_len0 at 1.
  eapply wp_mono; [apply (copy_loop _ (fun x => x))|]. intros ids ->. rewrite list_fmap_id.
  apply wp_bind. rewrite <- lo_vals_len0 at 1.
  eapply wp_mono; [apply (copy_loop _ (fun x => x))|]. intros vals ->. rewrite list_fmap_id.
  apply wp_bind. eapply (wp_mono _ (fun bm => is_bm25 ix = true -> exists p, bm = Some p /\
    row_sums p = row_sum <$> rows /\ row_sums_spans p = row_sum <$> rows)).
  { destruct (is_bm25 ix) eqn:Hb; [|done]. destruct (Hsums Hb) as (p & Hp & Hr).
    unfold bm25_of. rewrite Hp. simpl. intros _. by eexists. }
  intros bm Hbm. simpl. split_and!; [|done|done]. split; simpl; try done.
  intros Ha. specialize (Hspan Ha). destruct (max_score_in_dim ix); [|done]. by apply Hspan.
Qed.

Lemma Add_spec ix rows data dim : represents ix rows -> Forall row_ok data ->
  wp (Add algo ix data dim) (fun ix' => represents ix' (rows ++ data) /\
    metric_type ix' = metric_type ix /\ max_dim ix' = Z.max (max_dim ix) dim).
Proof.
  intros [Hl Hn Hnr Hi Hv Hms Hs] Hdata. unfold Add. apply wp_bind.
  replace (if (max_dim ix <? dim)%Z then dim else max_dim ix) with (Z.max (max_dim ix) dim)
    by (destruct (Z.ltb_spec (max_dim ix) dim); lia).
  apply (wp_for _ (fun i ix' => lists_ok ix' (rows ++ take i data) /\ sums_ok ix' (rows ++ take i data) /\
    frame ix ix')).
  - rewrite app_nil_r. split_and!; [done| |by repeat split].
    intros Hb. destruct (Hs Hb) as (p & ? & ? & _). by exists p.
  - intros i ix' Hi' (Hl' & Hs' & Hf). apply wp_bind, wp_vget; [lia|]. intros row Hrow.
    replace (n_rows_internal ix + i) with (length (rows ++ take i data))
      by (rewrite length_app, length_take; lia).
    eapply wp_mono; [apply add_row_spec; [done|done|by eapply Forall_lookup_1]|].
    intros ix'' (? & ? & Hf'). rewrite Nat.add_1_r, (take_S_r _ _ _ Hrow), app_assoc.
    split_and!; [done|done|]. destruct Hf as (?&?&?&?), Hf' as (?&?&?&?).
    split_and!; [congruence..|lia].
  - rewrite Nat.add_0_l, take_ge by lia. intros ix' (Hl' & Hs' & Hmt & Hn' & Hsp & Hle).
    eapply wp_mono; [apply publish_spec; [done|done|rewrite length_app; lia|]|].
    + intros Ha Hnil. rewrite Hsp, Hms by done. apply nil_length_inv.
      rewrite (lo_ms _ _ Hl) by done. pose proof (lo_ms _ _ Hl' Ha) as Hz. rewrite Hnil in Hz. simpl in Hz. lia.
    + intros ix'' (? & ? & ?). by split_and!; [|congruence|].
Qed.

Lemma represents_new metric bm :
  (metric = METRIC_BM25 -> exists p, bm = Some p /\ row_sums p = [] /\ row_sums_spans p = []) ->
  represents (new_index metric bm) [].
Proof.
  intros Hbm. split; simpl; try done; [apply lists_ok_new|].
  intros Hb. destruct metric; [done|]. by apply Hbm.
Qed.

(** ** Scores *)

Section scores.
Context {ix : InvertedIndex A Q} {rows : list (SparseRow A)} (Hrep : represents ix rows).
Context (computer : DocValueComputer A).

(** The length of a document as the computers see it. *)
Definition dlen (row : SparseRow A) : A := if is_bm25 ix then row_sum row else nzero.

(** One query term added to the score of [row]. *)
Definition term (row : SparseRow A) (s : A) (e : Z * A) : A :=
  match row_val row (fst e) with
  | Some v => nadd s (nmul (snd e) (computer (stored (get_quant_val v)) (dlen row)))
  | None => s
  end.

(** The reference score: the terms of the query in order. *)
Definition ref_score (q row : SparseRow A) : A := foldl (term row) nzero q.

Lemma ref_score_snoc pre e row : ref_score (pre ++ [e]) row = term row (ref_score pre row) e.
Proof. unfold ref_score. by rewrite foldl_app. Qed.

Lemma doc_len_spec i row : rows !! i = Some row -> doc_len ix i = Ret (dlen row).
Proof.
  intros Hi. unfold doc_len, dlen. destruct (is_bm25 ix) eqn:Hb; [|done].
  destruct (re_sums _ _ Hrep Hb) as (p & Hp & _ & Hs). unfold bm25_of. rewrite Hp. simpl.
  apply vget_Ret. by rewrite Hs, list_lookup_fmap, Hi.
Qed.

(** The scores after the first [j] postings of dimension [d]. *)
Definition posted (d : Z) (qv : A) (scores : list A) (j : nat) (sc : list A) : Prop :=
  length sc = length scores /\
  (forall i v row s, (i, v) ∈ take j (posting rows d) -> rows !! i = Some row -> scores !! i = Some s ->
     sc !! i = Some (nadd s (nmul qv (computer (stored (get_quant_val v)) (dlen row))))) /\
  (forall i, i ∉ (take j (posting rows d)).*1 -> sc !! i = scores !! i).

Lemma posted_step d qv scores j sc i v row s : length scores = length rows ->
  posted d qv scores j sc -> posting rows d !! j = Some (i, v) -> rows !! i = Some row ->
  sc !! i = Some s ->
  posted d qv scores (j + 1)
    (<[i := nadd s (nmul qv (computer (stored (get_quant_val v)) (dlen row)))]> sc).
Proof.
  intros Hlen (Hl & Hin & Hout) Hj Hrow Hs. apply lookup_lt_Some in Hs as Hil.
  assert (i ∉ (take j (posting rows d)).*1) as Hfresh.
  { intros Hi. pose proof (posting_from_sorted 0 rows d) as Hsort. fold (posting rows d) in Hsort.
    rewrite <- (take_drop_middle _ _ _ Hj), fmap_app in Hsort.
    apply StronglySorted_app in Hsort as (Hlt & _). specialize (Hlt i i Hi).
    assert (i < i); [|lia]. apply Hlt. simpl. apply elem_of_cons. by left. }
  rewrite Nat.add_1_r. split_and!; [by rewrite length_insert| |].
  - intros i' v' row' s' Hi' Hrow' Hs'. rewrite (take_S_r _ _ _ Hj), elem_of_app, list_elem_of_singleton in Hi'.
    destruct Hi' as [Hi'|[= -> ->]].
    + assert (i <> i') by (intros <-; apply Hfresh, list_elem_of_fmap; by exists (i, v')).
      rewrite list_lookup_insert_ne by done. by eapply Hin.
    + rewrite list_lookup_insert_eq by done. rewrite (Hout i Hfresh) in Hs. by simplify_eq.
  - intros i' Hi'. rewrite (take_S_r _ _ _ Hj), fmap_app, elem_of_app in Hi'.
    assert (i <> i').
    { intros <-. apply Hi'. right. simpl. apply elem_of_cons. by left. }
    rewrite list_lookup_insert_ne by done. apply Hout. tauto.
Qed.

Lemma add_postings_spec d k qv scores : dim_map ix !! d = Some k -> length scores = length rows ->
  wp (add_postings ix computer scores (k, qv)) (fun sc => length sc = length rows /\
    forall i row s, rows !! i = Some row -> scores !! i = Some s -> sc !! i = Some (term row s (d, qv))).
Proof.
  intros Hk Hlen. unfold add_postings. pose proof (re_lists _ _ Hrep) as [].
  rewrite (re_ids _ _ Hrep), (re_vals _ _ Hrep).
  rewrite (proj2 (vget_Ret _ _ _) (lo_ids0 d k Hk)), (proj2 (vget_Ret _ _ _) (lo_vals0 d k Hk)). cbn [bind].
  rewrite length_fmap. apply (wp_for _ (posted d qv scores)).
  - split_and!; [done| |done]. intros i v row s Hi. by apply elem_of_nil in Hi.
  - intros j sc Hj Hp. destruct (lookup_lt_is_Some_2 (posting rows d) j) as [[i v] Hjv]; [lia|].
    assert ((i, v) ∈ posting rows d) as Hin by (by eapply list_elem_of_lookup_2).
    apply elem_of_posting_from in Hin as (_ & row & Hrow & Hv). rewrite Nat.sub_0_r in Hrow.
    rewrite (proj2 (vget_Ret ((posting rows d).*1) j i)) by (by rewrite list_lookup_fmap, Hjv).
    cbn [bind]. rewrite (doc_len_spec i row Hrow). cbn [bind].
    rewrite (proj2 (vget_Ret _ j (get_quant_val v))) by (by rewrite list_lookup_fmap, Hjv). cbn [bind].
    pose proof Hp as (Hl & _). apply lookup_lt_Some in Hrow as Hil.
    apply wp_bind, wp_vget; [lia|]. intros s Hs. apply wp_vset; [lia|]. by apply posted_step.
  - rewrite Nat.add_0_l. intros sc (Hl & Hin & Hout). rewrite take_ge in Hin, Hout by lia.
    split; [lia|]. intros i row s Hrow Hs. unfold term. simpl.
    destruct (row_val row d) as [v|] eqn:Hv.
    + eapply Hin; [|done|done]. apply elem_of_posting_from. split; [lia|]. rewrite Nat.sub_0_r. by exists row.
    + rewrite Hout, Hs; [done|]. intros Hi. apply list_elem_of_fmap in Hi as ([i' v] & -> & Hi).
      apply elem_of_posting_from in Hi as (_ & row' & Hrow' & Hv'). rewrite Nat.sub_0_r in Hrow'.
      simpl in *. congruence.
Qed.

Lemma foldM_omap {S B C} (f : S -> C -> M S) (g : B -> option C) s l :
  foldM f s (omap g l) = foldM (fun s e => match g e with Some x => f s x | None => Ret s end) s l.
Proof.
  revert s. induction l as [|e l IH]; intros s; [done|]. cbn [omap list_omap foldM].
  destruct (g e); simpl; [|apply IH]. destruct (f s c); simpl; [apply IH|done|done].
Qed.

Context `{!StdSort} `{!NumOrder A}.

Lemma parse_query_all q drop : neqb drop nzero = true ->
  parse_query ix q drop = Ret (omap (fun e => (fun k => (k, snd e)) <$> dim_map ix !! (fst e)) q).
Proof.
  intros Hd. unfold parse_query. rewrite Hd. cbn [bind]. f_equal.
  induction q as [|[d v] q IH]; [done|]. cbn [omap list_omap fst snd]. rewrite IH.
  destruct (dim_map ix !! d); [|done]. simpl. by rewrite nabs_ge.
Qed.

Lemma all_distances_spec q drop : neqb drop nzero = true ->
  wp (let* q_vec := parse_query ix q drop in compute_all_distances ix q_vec computer)
     (fun scores => scores = ref_score q <$> rows).
Proof.
  intros Hd. rewrite parse_query_all by done. cbn [bind]. unfold compute_all_distances.
  rewrite foldM_omap, (re_rows _ _ Hrep).
  apply (wp_foldM _ (fun pre scores => scores = ref_score pre <$> rows)).
  - generalize rows. intros l. induction l as [|row l IHl]; [done|]. simpl. by rewrite IHl.
  - intros pre [d qv] post scores -> ->. simpl. destruct (dim_map ix !! d) as [k|] eqn:Hk; simpl.
    + eapply wp_mono; [by apply (add_postings_spec d); [|rewrite length_fmap]|].
      intros sc [Hl Hsc]. apply list_eq. intros i. rewrite list_lookup_fmap.
      destruct (rows !! i) as [row|] eqn:Hrow; simpl.
      * rewrite (Hsc i row (ref_score pre row)); [|done|by rewrite list_lookup_fmap, Hrow].
        by rewrite ref_score_snoc.
      * apply lookup_ge_None in Hrow. by apply lookup_ge_None; lia.
    + apply list_fmap_ext. intros i row Hrow. rewrite ref_score_snoc. unfold term. simpl. destruct (row_val row d) as [v|] eqn:Hv; [exfalso|done].
      pose proof (lo_none _ _ (re_lists _ _ Hrep) d Hk) as Hnil.
      assert ((i, v) ∈ posting rows d) as Hin.
      { apply elem_of_posting_from. split; [lia|]. rewrite Nat.sub_0_r. by exists row. }
      rewrite Hnil in Hin. by apply elem_of_nil in Hin.
  - done.
Qed.

(** [std::lower_bound] in a sorted posting list. *)
Lemma list_find_sorted (l : list nat) j x : StronglySorted (<) l -> l !! j = Some x ->
  list_find (fun y => x <= y) l = Some (j, x).
Proof.
  intros Hs Hj. apply list_find_Some. split_and!; [done|lia|].
  intros k y Hk Hkj. rewrite <- (take_drop_middle _ _ _ Hj) in Hs.
  apply StronglySorted_app in Hs as (Hlt & _). assert (y < x); [|lia]. apply Hlt.
  - apply list_elem_of_lookup. exists k. by rewrite lookup_take_lt.
  - apply elem_of_cons. by left.
Qed.

Lemma raw_term_spec i row s e : rows !! i = Some row ->
  raw_term ix i computer s e = Ret (term row s e).
Proof.
  intros Hrow. destruct e as [d qv]. unfold raw_term, term. simpl.
  pose proof (re_lists _ _ Hrep) as []. pose proof (posting_from_sorted 0 rows d) as Hsort.
  fold (posting rows d) in Hsort.
  assert (forall v, (i, v) ∈ posting rows d <-> row_val row d = Some v) as Hin.
  { intros v. unfold posting. rewrite elem_of_posting_from, Nat.sub_0_r, Hrow.
    split; [intros (_ & r & [= <-] & ?); done|]. intros Hv. split; [lia|]. by exists row. }
  destruct (dim_map ix !! d) as [k|] eqn:Hk.
  - rewrite (re_ids _ _ Hrep), (re_vals _ _ Hrep), (proj2 (vget_Ret _ _ _) (lo_ids0 d k Hk)). cbn [bind].
    destruct (row_val row d) as [v|] eqn:Hv.
    + assert ((i, v) ∈ posting rows d) as [j Hj]%list_elem_of_lookup by (by apply Hin).
      rewrite (list_find_sorted _ j i) by (done || by rewrite list_lookup_fmap, Hj).
      rewrite Nat.eqb_refl, (proj2 (vget_Ret _ _ _) (lo_vals0 d k Hk)). cbn [bind].
      rewrite (proj2 (vget_Ret _ j (get_quant_val v))) by (by rewrite list_lookup_fmap, Hj). cbn [bind].
      by rewrite (doc_len_spec i row Hrow).
    + destruct (list_find _ _) as [[j x]|] eqn:Hf; [|done].
      destruct (Nat.eqb_spec x i) as [->|]; [exfalso|done].
      apply list_find_Some in Hf as (Hj & _). rewrite list_lookup_fmap in Hj.
      destruct (posting rows d !! j) as [[i' v]|] eqn:Hjv; [|done]. simpl in Hj. injection Hj as ->.
      apply list_elem_of_lookup_2, Hin in Hjv. done.
  - destruct (row_val row d) as [v|] eqn:Hv; [exfalso|done].
    assert ((i, v) ∈ posting rows d) as Hv' by (by apply Hin).
    rewrite lo_none0 in Hv' by done. by apply elem_of_nil in Hv'.
Qed.

Lemma raw_distance_spec i row q : rows !! i = Some row ->
  GetRawDistance ix i q computer = Ret (ref_score q row).
Proof.
  intros Hrow. unfold GetRawDistance, ref_score. generalize (nzero : A) as s.
  induction q as [|e q IH]; intros s; [done|]. cbn [foldM foldl].
  rewrite (raw_term_spec i row s e Hrow). cbn [bind]. apply IH.
Qed.

End scores.

End rep.

(** ** The merge join computes the reference score *)

Section dot.
Context {A} `{!Num A} (computer : DocValueComputer A) (dl : A).
Implicit Types l r : SparseRow A.

Definition dims_sorted r : Prop := StronglySorted Z.lt (fst <$> r).
Definition no_zeros r : Prop := Forall (fun e => neqb (snd e) nzero = false) r.

Definition join_term r (s : A) (e : Z * A) : A :=
  match row_val r (fst e) with
  | Some v => nadd s (nmul (snd e) (computer v dl))
  | None => s
  end.

Lemma dims_sorted_cons d v r : dims_sorted ((d, v) :: r) ->
  dims_sorted r /\ forall d', d' ∈ fst <$> r -> (d < d')%Z.
Proof.
  intros H. apply StronglySorted_inv in H as [Hs Hd]. split; [done|].
  by apply (proj1 (Forall_forall _ _) Hd).
Qed.

Lemma dims_sorted_ok r : dims_sorted r -> row_ok r.
Proof.
  unfold dims_sorted, row_ok. generalize (fst <$> r). intros ds Hs.
  induction Hs as [|d ds Hs IH Hd]; [constructor|]. constructor; [|done].
  intros Hin. apply (proj1 (Forall_forall _ _) Hd) in Hin. lia.
Qed.

(** Dropping an element whose dimension the rest of the query does not have. *)
Lemma join_skip l d v r s : (forall d', d' ∈ fst <$> l -> (d < d')%Z) ->
  foldl (join_term ((d, v) :: r)) s l = foldl (join_term r) s l.
Proof.
  revert s. induction l as [|[d' w] l IH]; intros s Hl; [done|]. cbn [foldl].
  assert (join_term ((d, v) :: r) s (d', w) = join_term r s (d', w)) as ->.
  { assert (d < d')%Z by (apply Hl; simpl; apply elem_of_cons; by left).
    unfold join_term. cbn [fst snd row_val]. by rewrite (proj2 (Z.eqb_neq _ _)) by lia. }
  apply IH. intros e He. apply Hl. simpl. apply elem_of_cons. by right.
Qed.

Lemma dot_loop_spec fuel l r s : length l + length r <= fuel ->
  dims_sorted l -> dims_sorted r -> no_zeros r ->
  dot_loop fuel l r computer dl s = foldl (join_term r) s l.
Proof.
  revert l r s. induction fuel as [|fuel IH]; intros l r s Hf Hl Hr Hz.
  { destruct l; simpl in Hf; [done|lia]. }
  destruct l as [|[li lv] l]; [done|]. destruct r as [|[ri rv] r].
  { simpl. clear. revert s. induction l as [|e l IH]; intros s; [done|]. apply IH. }
  cbn [dot_loop]. simpl in Hf. pose proof (dims_sorted_cons _ _ _ Hl) as [Hl' Hlt].
  pose proof (dims_sorted_cons _ _ _ Hr) as [Hr' Hrt]. inversion_clear Hz as [|? ? Hz0 Hz']. simpl in Hz0.
  destruct (Z.ltb_spec li ri) as [Hlr|Hge]; [|destruct (Z.ltb_spec ri li) as [Hrl|Heq]].
  - rewrite IH by (simpl; try lia; try done; by constructor). cbn [foldl]. f_equal.
    unfold join_term. cbn [fst]. rewrite row_val_none; [done|]. simpl. rewrite not_elem_of_cons.
    split; [lia|]. intros Hin%Hrt. lia.
  - rewrite IH by (simpl; try lia; done). symmetry. apply join_skip.
    intros d' Hd'. simpl in Hd'. apply elem_of_cons in Hd' as [->|Hd'%Hlt]; lia.
  - assert (li = ri) as -> by lia. rewrite IH by (simpl; try lia; done). cbn [foldl].
    assert (join_term ((ri, rv) :: r) s (ri, lv) = nadd s (nmul lv (computer rv dl))) as ->.
    { unfold join_term. cbn [fst snd row_val]. by rewrite Z.eqb_refl, Hz0. }
    symmetry. by apply join_skip.
Qed.

Lemma dot_spec l r : dims_sorted l -> dims_sorted r -> no_zeros r ->
  dot l r computer dl = foldl (join_term r) nzero l.
Proof. intros. unfold dot. by apply dot_loop_spec. Qed.

End dot.

(** ** Quantised rows *)

(** A row with its values as the posting lists hold them. *)
Definition stored_row {A Q} `{!Quant A Q} (row : SparseRow A) : SparseRow A :=
  (fun e => (fst e, stored (Q:=Q) (get_quant_val (snd e)))) <$> row.

(** Joining with the stored values is joining with a computer that quantises. *)
Lemma dot_stored_row {A Q} `{!Num A, !Quant A Q} (l r : SparseRow A) computer dl :
  dot l (stored_row (Q:=Q) r) computer dl = dot l r (fun v => computer (stored (Q:=Q) (get_quant_val v))) dl.
Proof.
  unfold dot, stored_row. rewrite length_fmap. generalize (nzero : A) as s. generalize (length l + length r) as n.
  intros n. revert l r. induction n as [|n IH]; intros l r s; [done|].
  destruct l as [|[li lv] l]; [done|]. destruct r as [|[ri rv] r]; [done|].
  cbn [dot_loop fmap list_fmap fst snd]. rewrite <- !IH. done.
Qed.
