(* ===== verification/SparseSearch.v ===== *)
(** * Search over the sparse inverted index

    The document-at-a-time cursors and the two pruned search algorithms
    (WAND and MaxScore), the refinement pass and [Search] itself. *)

From S2P Require Import Prelude Float Num StdHeap SparseUtils Bitset Expected SparseIndex.

(** ** Cursors *)

Record Cursor (A Q F : Type) := mkCursor {
  plist_ids : list nat;
  plist_vals : list Q;
  loc : nat;
  total_num_vec : nat;
  max_score : A;
  q_value : A;
  cfilter : F;
  cur_vec_id : nat
}.
Arguments mkCursor {A Q F}.
Arguments plist_ids {A Q F}.
Arguments plist_vals {A Q F}.
Arguments loc {A Q F}.
Arguments total_num_vec {A Q F}.
Arguments max_score {A Q F}.
Arguments q_value {A Q F}.
Arguments cfilter {A Q F}.
Arguments cur_vec_id {A Q F}.

Section search.
Context {A Q F : Type} `{!Num A, !Quant A Q, !DocIdFilter F, !StdSort}.
Implicit Types c : Cursor A Q F.
Implicit Types ix : InvertedIndex A Q.

Definition move c (l : nat) (f : F) (cur : nat) : Cursor A Q F :=
  mkCursor (plist_ids c) (plist_vals c) l (total_num_vec c) (max_score c) (q_value c) f cur.

(** [skip_filtered_ids]: from [l] on, the first position whose id passes. *)
Fixpoint skip_filtered_ids (fuel : nat) (ids : list nat) (f : F) (l : nat) : M (F * nat) :=
  match ids !! l with
  | None => Ret (f, l)
  | Some i =>
      if f_empty f then Ret (f, l)
      else
        let* (f, t) := f_test f i in
        if t then
          match fuel with
          | 0 => Undef
          | S fuel => skip_filtered_ids fuel ids f (l + 1)
          end
        else Ret (f, l)
  end.

(** [skip_filtered_ids(); update_cur_vec_id();] with the cursor at [l]. *)
Definition settle_at c (l : nat) : M (Cursor A Q F) :=
  let* (f, l) := skip_filtered_ids (length (plist_ids c)) (plist_ids c) (cfilter c) l in
  let* cur := (if length (plist_ids c) <=? l then Ret (total_num_vec c) else vget (plist_ids c) l) in
  Ret (move c l f cur).

Definition make_cursor (ids : list nat) (vals : list Q) (num_vec : nat) (max_score q_value : A)
    (f : F) : M (Cursor A Q F) :=
  settle_at (mkCursor ids vals 0 num_vec max_score q_value f 0) 0.

Definition next c : M (Cursor A Q F) := settle_at c (loc c + 1).

Fixpoint seek_loc (fuel : nat) (ids : list nat) (l vec_id : nat) : nat :=
  match fuel with
  | 0 => l
  | S fuel =>
      match ids !! l with
      | Some i => if i <? vec_id then seek_loc fuel ids (l + 1) vec_id else l
      | None => l
      end
  end.

Definition seek c (vec_id : nat) : M (Cursor A Q F) :=
  settle_at c (seek_loc (length (plist_ids c)) (plist_ids c) (loc c) vec_id).

Definition cur_vec_val c : M Q := vget (plist_vals c) (loc c).

Definition make_cursors ix (q_vec : list (nat * A)) (filter : F) (dim_max_score_ratio : A)
    : M (list (Cursor A Q F)) :=
  foldM (fun cursors (q : nat * A) =>
      let '(dim_id, qv) := q in
      let* ids := vget (inverted_index_ids_spans ix) dim_id in
      let* vals := vget (inverted_index_vals_spans ix) dim_id in
      let* m := vget (max_score_in_dim_spans ix) dim_id in
      let* c := make_cursor ids vals (n_rows_internal ix) (nmul (nmul m qv) dim_max_score_ratio) qv filter in
      Ret (cursors ++ [c])) [] q_vec.

(** The contribution of a cursor's current posting to its document's score. *)
Definition cursor_term (computer : DocValueComputer A) c (val_sum score : A) : M A :=
  let* v := cur_vec_val c in
  Ret (nadd score (nmul (q_value c) (computer (stored v) val_sum))).

Definition heap_threshold (h : MaxMinHeap.t A) : M A :=
  if MaxMinHeap.full h then let* t := MaxMinHeap.top h in Ret (IdVal.val t) else Ret nzero.

(** ** WAND

    [cursor_ptrs] is the list of the cursors' indices, in the order of the
    pointers. *)

Definition cur_of (cursors : list (Cursor A Q F)) (p : nat) : M nat :=
  let* c := vget cursors p in Ret (cur_vec_id c).

Definition sort_cursors (cursors : list (Cursor A Q F)) (ptrs : list nat) : list nat :=
  let key (p : nat) := default 0 (cur_vec_id <$> cursors !! p) in
  std_sort (fun x y => key x <? key y) ptrs.

(** The pivot: the first pointer at which the summed bounds exceed the threshold. *)
Fixpoint find_pivot (n_rows : nat) (cursors : list (Cursor A Q F)) (ptrs : list nat) (pivot : nat)
    (threshold upper_bound : A) : M (option nat) :=
  match ptrs with
  | [] => Ret None
  | p :: ptrs =>
      let* c := vget cursors p in
      if n_rows <=? cur_vec_id c then Ret None
      else
        let upper_bound := nadd upper_bound (max_score c) in
        if nltb threshold upper_bound then Ret (Some pivot)
        else find_pivot n_rows cursors ptrs (pivot + 1) threshold upper_bound
  end.

(** Scoring the pivot document: every leading cursor on it contributes and moves on. *)
Fixpoint score_pivot (computer : DocValueComputer A) (pivot_id : nat) (val_sum : A) (ptrs : list nat)
    (cursors : list (Cursor A Q F)) (score : A) : M (list (Cursor A Q F) * A) :=
  match ptrs with
  | [] => Ret (cursors, score)
  | p :: ptrs =>
      let* c := vget cursors p in
      if cur_vec_id c =? pivot_id then
        let* score := cursor_term computer c val_sum score in
        let* c := next c in
        let* cursors := vset cursors p c in
        score_pivot computer pivot_id val_sum ptrs cursors score
      else Ret (cursors, score)
  end.

(** [for (next_list = pivot; ptr[next_list]->cur == pivot_id; --next_list)]. *)
Fixpoint last_before (cursors : list (Cursor A Q F)) (ptrs : list nat) (pivot_id next_list : nat) : M nat :=
  let* p := vget ptrs next_list in
  let* cur := cur_of cursors p in
  if cur =? pivot_id then
    match next_list with
    | 0 => Undef
    | S k => last_before cursors ptrs pivot_id k
    end
  else Ret next_list.

(** The bubble pass that restores the order after a seek. *)
Fixpoint bubble (fuel : nat) (cursors : list (Cursor A Q F)) (ptrs : list nat) (i : nat) : M (list nat) :=
  match fuel with
  | 0 => Ret ptrs
  | S fuel =>
      if i <? length ptrs then
        let* p := vget ptrs i in
        let* p' := vget ptrs (i - 1) in
        let* cur := cur_of cursors p in
        let* cur' := cur_of cursors p' in
        if cur' <=? cur then Ret ptrs
        else
          let* ptrs := vset ptrs i p' in
          let* ptrs := vset ptrs (i - 1) p in
          bubble fuel cursors ptrs (i + 1)
      else Ret ptrs
  end.

Definition wand_state : Type := list (Cursor A Q F) * list nat * MaxMinHeap.t A.

(** One round of the loop; [None] ends it. *)
Definition wand_round ix (computer : DocValueComputer A) (st : wand_state) : M (option wand_state) :=
  let '(cursors, ptrs, heap) := st in
  let* threshold := heap_threshold heap in
  let* found := find_pivot (n_rows_internal ix) cursors ptrs 0 threshold nzero in
  match found with
  | None => Ret None
  | Some pivot =>
      let* pp := vget ptrs pivot in
      let* pivot_id := cur_of cursors pp in
      let* p0 := vget ptrs 0 in
      let* first_id := cur_of cursors p0 in
      if pivot_id =? first_id then
        let* val_sum := doc_len ix pivot_id in
        let* (cursors, score) := score_pivot computer pivot_id val_sum ptrs cursors nzero in
        let* heap := MaxMinHeap.push heap pivot_id score in
        Ret (Some (cursors, sort_cursors cursors ptrs, heap))
      else
        let* next_list := last_before cursors ptrs pivot_id pivot in
        let* pn := vget ptrs next_list in
        let* c := vget cursors pn in
        let* c := seek c pivot_id in
        let* cursors := vset cursors pn c in
        let* ptrs := bubble (length ptrs) cursors ptrs (next_list + 1) in
        Ret (Some (cursors, ptrs, heap))
  end.

Fixpoint wand_loop (fuel : nat) ix (computer : DocValueComputer A) (st : wand_state)
    : M (MaxMinHeap.t A) :=
  let* r := wand_round ix computer st in
  match r with
  | None => let '(_, _, heap) := st in Ret heap
  | Some st =>
      match fuel with
      | 0 => Undef
      | S fuel => wand_loop fuel ix computer st
      end
  end.

(** Every round moves a cursor forward, so the postings bound the rounds. *)
Definition postings_left (cursors : list (Cursor A Q F)) : nat :=
  sum_list ((fun c => length (plist_ids c) - loc c) <$> cursors).

Definition search_daat_wand ix (q_vec : list (nat * A)) (heap : MaxMinHeap.t A) (filter : F)
    (computer : DocValueComputer A) (dim_max_score_ratio : A) : M (MaxMinHeap.t A) :=
  let* cursors := make_cursors ix q_vec filter dim_max_score_ratio in
  let ptrs := sort_cursors cursors (seq 0 (length cursors)) in
  wand_loop (postings_left cursors) ix computer (cursors, ptrs, heap).

(** ** MaxScore *)

(** The upper bounds of the suffixes, computed from the last cursor back. *)
Definition suffix_bounds (cursors : list (Cursor A Q F)) : list A :=
  snd (foldr (fun c (st : A * list A) =>
      let bound_sum := nadd (fst st) (max_score c) in (bound_sum, bound_sum :: snd st))
    (nzero, []) cursors).

(** [while (first_ne_idx != 0 && upper_bounds[first_ne_idx - 1] <= threshold)]:
    [None] is the [return] when no cursor is essential any more. *)
Fixpoint shrink_essential (upper_bounds : list A) (threshold : A) (first_ne_idx : nat) : M (option nat) :=
  match first_ne_idx with
  | 0 => Ret (Some 0)
  | S k =>
      let* u := vget upper_bounds k in
      if nleb u threshold then
        match k with
        | 0 => Ret None
        | S _ => shrink_essential upper_bounds threshold k
        end
      else Ret (Some (S k))
  end.

(** The essential cursors: score those on the candidate, advance them, and find
    the next candidate. *)
Definition score_essential (computer : DocValueComputer A) (cand : nat) (val_sum : A)
    (st : list (Cursor A Q F) * A * nat) (i : nat) : M (list (Cursor A Q F) * A * nat) :=
  let '(cursors, score, next_cand) := st in
  let* c := vget cursors i in
  let* (c, score) :=
    (if cur_vec_id c =? cand then
       let* score := cursor_term computer c val_sum score in
       let* c := next c in Ret (c, score)
     else Ret (c, score)) in
  let* cursors := vset cursors i c in
  Ret (cursors, score, if cur_vec_id c <? next_cand then cur_vec_id c else next_cand).

(** The non-essential cursors; [false] when the candidate cannot reach the
    threshold any more. *)
Fixpoint score_rest (computer : DocValueComputer A) (cand : nat) (val_sum : A) (upper_bounds : list A)
    (threshold : A) (idxs : list nat) (cursors : list (Cursor A Q F)) (score : A)
    : M (list (Cursor A Q F) * A * bool) :=
  match idxs with
  | [] => Ret (cursors, score, true)
  | i :: idxs =>
      let* u := vget upper_bounds i in
      if nleb (nadd score u) threshold then Ret (cursors, score, false)
      else
        let* c := vget cursors i in
        let* c := seek c cand in
        let* cursors := vset cursors i c in
        let* score := (if cur_vec_id c =? cand then cursor_term computer c val_sum score else Ret score) in
        score_rest computer cand val_sum upper_bounds threshold idxs cursors score
  end.

Record ms_state := mkMs {
  ms_cursors : list (Cursor A Q F);
  ms_heap : MaxMinHeap.t A;
  ms_next : nat;
  ms_first_ne : nat;
  ms_threshold : A
}.

(** One candidate: the inner search loop runs until a candidate survives, so
    one round of it is one candidate. [None] is a [return]. *)
Definition maxscore_round ix (computer : DocValueComputer A) (upper_bounds : list A) (st : ms_state)
    : M (option ms_state * ms_state) :=
  if n_rows_internal ix <=? ms_next st then Ret (None, st)
  else
    let cand := ms_next st in
    let* val_sum := doc_len ix cand in
    let* (cursors, score, next_cand) :=
      foldM (score_essential computer cand val_sum)
        (ms_cursors st, nzero, n_rows_internal ix) (seq 0 (ms_first_ne st)) in
    let* (cursors, score, found) :=
      score_rest computer cand val_sum upper_bounds (ms_threshold st)
        (seq (ms_first_ne st) (length cursors - ms_first_ne st)) cursors score in
    let st := mkMs cursors (ms_heap st) next_cand (ms_first_ne st) (ms_threshold st) in
    if found && nltb (ms_threshold st) score then
      let* heap := MaxMinHeap.push (ms_heap st) cand score in
      let* threshold := heap_threshold heap in
      let* e := shrink_essential upper_bounds threshold (ms_first_ne st) in
      match e with
      | None => Ret (None, mkMs cursors heap next_cand 0 threshold)
      | Some k => let st := mkMs cursors heap next_cand k threshold in Ret (Some st, st)
      end
    else Ret (Some st, st).

Fixpoint maxscore_loop (fuel : nat) ix (computer : DocValueComputer A) (upper_bounds : list A)
    (st : ms_state) : M (MaxMinHeap.t A) :=
  let* (r, st) := maxscore_round ix computer upper_bounds st in
  match r with
  | None => Ret (ms_heap st)
  | Some st =>
      match fuel with
      | 0 => Undef
      | S fuel => maxscore_loop fuel ix computer upper_bounds st
      end
  end.

(** The comparator of the query sort: [a.second * max_score[a.first] > b...]. *)
Definition by_bound ix (x y : nat * A) : bool :=
  let bound (q : nat * A) := nmul (snd q) (default nzero (max_score_in_dim_spans ix !! fst q)) in
  nltb (bound y) (bound x).

Definition search_daat_maxscore ix (q_vec : list (nat * A)) (heap : MaxMinHeap.t A) (filter : F)
    (computer : DocValueComputer A) (dim_max_score_ratio : A) : M (MaxMinHeap.t A) :=
  let q_vec := std_sort (by_bound ix) q_vec in
  let* cursors := make_cursors ix q_vec filter dim_max_score_ratio in
  let* threshold := heap_threshold heap in
  let upper_bounds := suffix_bounds cursors in
  let next_cand := foldl (fun m c => if cur_vec_id c <? m then cur_vec_id c else m)
                     (n_rows_internal ix) cursors in
  let* e := shrink_essential upper_bounds threshold (length cursors) in
  match e with
  | None => Ret heap
  | Some first_ne =>
      maxscore_loop (n_rows_internal ix) ix computer upper_bounds
        (mkMs cursors heap next_cand first_ne threshold)
  end.

End search.

(** ** Search *)

Record InvertedIndexApproxSearchParams (A : Type) := mkApprox {
  refine_factor : nat;
  drop_ratio_search : A;
  dim_max_score_ratio : A
}.
Arguments mkApprox {A}.
Arguments refine_factor {A}.
Arguments drop_ratio_search {A}.
Arguments dim_max_score_ratio {A}.

Section top_level.
Context {A Q : Type} `{!Num A, !Quant A Q, !StdSort}.
Context (algo : InvertedIndexAlgo).
Implicit Types ix : InvertedIndex A Q.

(** The [if constexpr] over the algorithm. *)
Definition run_algo {F} `{!DocIdFilter F} ix (q_vec : list (nat * A)) (heap : MaxMinHeap.t A)
    (filter : F) (computer : DocValueComputer A) (ratio : A) : M (MaxMinHeap.t A) :=
  match algo with
  | DAAT_WAND => search_daat_wand ix q_vec heap filter computer ratio
  | DAAT_MAXSCORE => search_daat_maxscore ix q_vec heap filter computer ratio
  | TAAT_NAIVE => search_taat_naive ix q_vec heap filter computer
  end.

(** [while (!inacc_heap.empty()) docids.emplace_back(inacc_heap.pop());] *)
Definition drain (h : MaxMinHeap.t A) : M (list nat) :=
  let* (_, docids) := whileM (MaxMinHeap.size h)
    (fun st : MaxMinHeap.t A * list nat => negb (MaxMinHeap.empty (fst st)))
    (fun st => let* (h, u) := MaxMinHeap.pop (fst st) in Ret (h, snd st ++ [u]))
    (h, []) in
  Ret docids.

Definition refine_and_collect ix (query : SparseRow A) (inacc_heap : MaxMinHeap.t A) (k : nat)
    (distances : list A) (labels : list Z) (computer : DocValueComputer A)
    (params : InvertedIndexApproxSearchParams A) : M (list A * list Z) :=
  let* docids := drain inacc_heap in
  let* q_vec := parse_query ix query nzero in
  match q_vec with
  | [] => Ret (distances, labels)
  | _ =>
      let ratio := nmax (dim_max_score_ratio params) (nofZ 1) in
      let* heap := run_algo ix q_vec (MaxMinHeap.make k) (doc_id_filter docids) computer ratio in
      collect_result heap distances labels
  end.

Definition Search ix (query : SparseRow A) (k : nat) (bitset : BitsetView.t)
    (computer : DocValueComputer A) (params : InvertedIndexApproxSearchParams A)
    : M (list A * list Z) :=
  let distances := replicate k nnan in
  let labels := replicate k (-1)%Z in
  match query with
  | [] => Ret (distances, labels)
  | _ =>
      let* q_vec := parse_query ix query (drop_ratio_search params) in
      match q_vec with
      | [] => Ret (distances, labels)
      | _ =>
          let* heap := run_algo ix q_vec (MaxMinHeap.make (k * refine_factor params)) bitset computer
                         (dim_max_score_ratio params) in
          if refine_factor params =? 1 then collect_result heap distances labels
          else refine_and_collect ix query heap k distances labels computer params
      end
  end.

End top_level.

(** [GetDocValueComputer(cfg)]: the metric of the query must match the index, BM25
    needs [avgdl], and the pruned algorithms need the build-time [k1] and [b]. *)
Definition IsMetricType (str metric : string) : bool := string_equals str metric.

Definition GetDocValueComputer {Q} (algo : InvertedIndexAlgo) (ix : InvertedIndex spec_float Q)
    (cfg_metric : option string) (cfg_k1 cfg_b cfg_avgdl : option spec_float)
    : M (expected (DocValueComputer spec_float)) :=
  let mismatch (m : string) := match cfg_metric with Some s => negb (IsMetricType s m) | None => false end in
  if negb (is_bm25 ix) then
    if mismatch "IP" then
      Ret (Err invalid_metric_type ("metric type not match, expected: IP, got: " +:+ default "" cfg_metric))
    else Ret (of_value GetDocValueOriginalComputer)
  else if mismatch "BM25" then
    Ret (Err invalid_metric_type ("metric type not match, expected: BM25, got: " +:+ default "" cfg_metric))
  else match cfg_avgdl with
  | None => Ret (Err invalid_args "avgdl must be supplied during searching")
  | Some avgdl =>
      let avgdl := nmax avgdl F32.one in
      let* p := bm25_of ix in
      if is_daat algo then
        let differs (x : option spec_float) (y : spec_float) :=
          match x with Some x => negb (SFeqb x y) | None => false end in
        if differs cfg_k1 (k1 p) || differs cfg_b (b p) then
          Ret (Err invalid_args
            "search time k1/b must equal load time config for DAAT_WAND or DAAT_MAXSCORE algorithm.")
        else Ret (of_value (GetDocValueBM25Computer (k1 p) (b p) avgdl))
      else Ret (of_value (GetDocValueBM25Computer (default (k1 p) cfg_k1) (default (b p) cfg_b) avgdl))
  end.
