(* ===== verification/SparseProps.v ===== *)
(** * What sparse search returns

    The two id filters satisfy the filter contract; the bounded heap keeps the
    best elements; the exhaustive search returns the best rows by the reference
    score, which is the dot product of the query with the row. *)

From S2P Require Import Prelude Float Num StdHeap SparseUtils Bitset Expected SparseIndex SparseIndexSpec SparseSearch.

(** ** Filters *)

(** [f] answers [filt] for any ids below [n] asked in increasing order. *)
Definition filter_ok {F} `{!DocIdFilter F} (n : nat) (f : F) (filt : nat -> bool) : Prop :=
  exists I : nat -> F -> Prop, I 0 f /\ (forall i g, I i g -> f_empty g = f_empty f) /\
    forall i j g, I i g -> i <= j < n -> wp (f_test g j) (fun '(g', r) => I j g' /\ r = filt j).

(** The ids that a search may return. *)
Definition passes {F} `{!DocIdFilter F} (f : F) (filt : nat -> bool) (i : nat) : bool :=
  f_empty f || negb (filt i).

Lemma bitset_filter_ok n b : BitsetView.plain b ->
  filter_ok n b (fun i => (BitsetView.num_bits b <=? i) || BitsetView.filtered b i).
Proof.
  intros Hb. exists (fun _ g => g = b). split_and!; [done|by intros i g ->|].
  intros i j g -> Hij. simpl. apply wp_bind. destruct (Nat.leb_spec (BitsetView.num_bits b) j) as [Hge|Hlt].
  - unfold BitsetView.test. rewrite (BitsetView.pl_ids _ Hb), (BitsetView.pl_off _ Hb). cbn [bind].
    rewrite Nat.add_0_r, (proj2 (Nat.leb_le _ _)) by done. done.
  - destruct (BitsetView.filtered_bit b j Hb Hlt) as [_ ->]. done.
Qed.

Lemma advance_to_spec fuel ids p i : StronglySorted (≤) ids -> length ids <= p + fuel ->
  (forall k d, k < p -> ids !! k = Some d -> d < i) ->
  let p' := advance_to fuel ids p i in
  (forall k d, k < p' -> ids !! k = Some d -> d < i) /\ (forall d, ids !! p' = Some d -> i <= d).
Proof.
  revert p. induction fuel as [|fuel IH]; intros p Hs Hf Hp; simpl.
  - split; [done|]. intros d Hd%lookup_lt_Some. lia.
  - destruct (ids !! p) as [d|] eqn:Hd; [|split; [done|congruence]].
    destruct (Nat.ltb_spec d i) as [Hlt|Hge]; [|split; [done|intros; simplify_eq; done]].
    apply IH; [done|lia|]. intros k e Hk He. destruct (decide (k = p)) as [->|]; [by simplify_eq|].
    apply (Hp k); [lia|done].
Qed.

(** [DocIdFilterByVector] tests membership, as long as ids come in order. *)
Lemma doc_filter_ok n ids :
  filter_ok n (doc_id_filter ids) (fun i => negb (bool_decide (i ∈ ids))).
Proof.
  set (l := merge_sort (≤) ids).
  assert (StronglySorted (≤) l) as Hs by apply (StronglySorted_merge_sort (≤)).
  assert (forall i, i ∈ l <-> i ∈ ids) as Hin.
  { intros i. unfold l. by rewrite merge_sort_Permutation. }
  exists (fun i g => docids g = l /\ forall k d, k < pos g -> l !! k = Some d -> d < i).
  split; [split; [done|simpl; lia]|split; [intros i g [Hg _]; simpl; by rewrite Hg|]].
  intros i j g [Hg Hpos] Hij. simpl. rewrite Hg.
  destruct (advance_to_spec (length l) l (pos g) j Hs) as [Hbelow Habove]; [lia| |].
  { intros k d Hk Hd. specialize (Hpos k d Hk Hd). lia. }
  set (p' := advance_to (length l) l (pos g) j) in *. simpl. split; [done|]. f_equal.
  apply eq_bool_prop_intro. rewrite bool_decide_spec, <- Hin.
  destruct (l !! p') as [d|] eqn:Hd.
  - destruct (Nat.eqb_spec d j) as [->|Hne]; simpl; split; try done.
    + intros _. by eapply list_elem_of_lookup_2.
    + intros [k Hk]%list_elem_of_lookup. specialize (Habove d eq_refl).
      destruct (decide (k < p')) as [Hlt|Hge]; [specialize (Hbelow k j Hlt Hk); lia|].
      destruct (decide (k = p')) as [->|]; [congruence|].
      rewrite <- (take_drop_middle _ _ _ Hd) in Hs. apply StronglySorted_app in Hs as (_ & _ & Hs).
      apply StronglySorted_inv in Hs as [_ Hs]. assert (d <= j) as Hle; [|].
      { apply (proj1 (Forall_forall _ _) Hs). apply list_elem_of_lookup. exists (k - S p').
        rewrite lookup_drop. by replace (S p' + (k - S p')) with k by lia. }
      lia.
  - simpl. split; [done|]. intros [k Hk]%list_elem_of_lookup. apply lookup_ge_None in Hd.
    apply lookup_lt_Some in Hk as Hkl. specialize (Hbelow k j ltac:(lia) Hk). lia.
Qed.

(** ** Exhaustive search *)

Section taat.
Context {A Q} `{!Num A, !NumOrder A, !Quant A Q, !StdSort}.
Context {ix : InvertedIndex A Q} {rows : list (SparseRow A)}.
Context (Hrep : represents TAAT_NAIVE ix rows) (computer : DocValueComputer A).
Context {F} `{!DocIdFilter F} (f : F) (filt : nat -> bool) (Hf : filter_ok (length rows) f filt).

(** The candidates among the first [n] rows: the ids that pass, with a score
    that is not zero. *)
Definition candidates (q : SparseRow A) (pass : nat -> bool) (n : nat) : list (idval A) :=
  omap (fun i =>
    match rows !! i with
    | Some row =>
        let s := ref_score (ix:=ix) computer q row in
        if pass i && negb (neqb s nzero) then Some (IdVal.mk i s) else None
    | None => None
    end) (seq 0 n).

Lemma candidates_step q pass i row : rows !! i = Some row ->
  candidates q pass (i + 1) = candidates q pass i ++
    (let s := ref_score (ix:=ix) computer q row in
     if pass i && negb (neqb s nzero) then [IdVal.mk i s] else []).
Proof.
  intros Hrow. unfold candidates. rewrite Nat.add_1_r, seq_S, omap_app. f_equal. simpl. rewrite Hrow.
  by destruct (pass i && negb _).
Qed.

Lemma candidates_ok q pass n : Forall (fun row => nok (ref_score (ix:=ix) computer q row)) rows ->
  Forall MaxMinHeap.ok (candidates q pass n).
Proof.
  intros Hok. apply Forall_forall. intros x Hx. apply list_elem_of_omap in Hx as (i & _ & Hx).
  destruct (rows !! i) as [row|] eqn:Hrow; [|done]. cbv zeta in Hx.
  destruct (pass i && negb _); [|done]. injection Hx as <-.
  unfold MaxMinHeap.ok. simpl. apply (Forall_lookup_1 _ _ _ _ Hok Hrow).
Qed.

Lemma taat_spec q drop cap : neqb drop nzero = true -> 0 < cap ->
  Forall (fun row => nok (ref_score (ix:=ix) computer q row)) rows ->
  wp (let* q_vec := parse_query ix q drop in
      search_taat_naive ix q_vec (MaxMinHeap.make cap) f computer)
     (fun h => MaxMinHeap.inv h /\ MaxMinHeap.capacity h = cap /\
        MaxMinHeap.top_of cap (candidates q (passes f filt) (length rows)) (MaxMinHeap.contents h)).
Proof.
  intros Hd Hcap Hok. destruct Hf as (I & HI0 & HIe & HIt).
  pose proof (all_distances_spec _ Hrep computer q drop Hd) as Hsc.
  destruct (parse_query ix q drop) as [q_vec| |]; [|done..]. cbn [bind] in Hsc |- *.
  unfold search_taat_naive. apply wp_bind. eapply wp_mono; [exact Hsc|]. intros scores ->.
  apply wp_bind. rewrite (re_rows _ _ _ Hrep).
  apply (wp_for _ (fun i '(h, g) => MaxMinHeap.inv h /\ MaxMinHeap.capacity h = cap /\
    MaxMinHeap.top_of cap (candidates q (passes f filt) i) (MaxMinHeap.contents h) /\
    exists j, j <= i /\ I j g)).
  - split_and!; [apply MaxMinHeap.make_inv|done|apply MaxMinHeap.top_of_nil|by exists 0].
  - intros i [h g] Hi (Hinv & Hcap' & Htop & j & Hj & Hg).
    destruct (lookup_lt_is_Some_2 rows i) as [row Hrow]; [lia|]. apply wp_bind.
    eapply (wp_mono _ (fun '(g', p) => p = passes f filt i /\ exists j, j <= i /\ I j g')).
    { unfold passes. rewrite (HIe j g Hg). destruct (f_empty f); [by split; [|exists j]|].
      apply wp_bind. eapply wp_mono; [apply (HIt j i g Hg); lia|]. intros [g' r] [Hg' ->].
      split; [done|]. by exists i. }
    intros [g' p] [-> Hg']. rewrite (candidates_step _ _ _ _ Hrow). cbv zeta.
    assert (exists j, j <= i + 1 /\ I j g') as Hg'' by (destruct Hg' as (j' & ? & ?); exists j'; split; [lia|done]).
    destruct (passes f filt i); cbn [andb]; [|by rewrite app_nil_r].
    rewrite (proj2 (vget_Ret _ _ (ref_score (ix:=ix) computer q row))) by (by rewrite list_lookup_fmap, Hrow).
    cbn [bind]. destruct (neqb (ref_score (ix:=ix) computer q row) nzero); cbn [negb]; [by rewrite app_nil_r|]. apply wp_bind.
    rewrite <- Hcap'. eapply wp_mono; [apply MaxMinHeap.push_top_of|].
    + done.
    + lia.
    + apply (Forall_lookup_1 _ _ _ _ Hok Hrow).
    + by apply candidates_ok.
    + by rewrite Hcap'.
    + intros h' (? & ? & ?). by split_and!.
  - rewrite Nat.add_0_l. intros [h g] (? & ? & ? & _). by split_and!.
Qed.

End taat.

(** ** The guarantees *)

(** A batch of pushes. *)
Definition push_all {A} `{!Num A} (h : MaxMinHeap.t A) (l : list (idval A)) : M (MaxMinHeap.t A) :=
  foldM (fun h x => MaxMinHeap.push h (iid x) (ival x)) h l.

(** C22: a result heap of capacity [cap > 0], given any sequence of elements
    without NaN, ends up holding [cap] of the largest (all of them when they
    fit), and [collect_result] writes exactly those to the front of the result
    arrays, in descending order of value, leaving the rest of the arrays alone. *)
Theorem result_heap_collects_largest {A} `{!Num A, !NumOrder A} cap (l : list (idval A)) ds ls :
  0 < cap -> cap <= length ds -> cap <= length ls -> Forall MaxMinHeap.ok l ->
  exists res out, (let* h := push_all (MaxMinHeap.make cap) l in collect_result h ds ls) = Ret res /\
    MaxMinHeap.top_of cap l out /\ descending out /\ results_written out ds ls res.
Proof.
  intros Hcap Hds Hls Hok.
  assert (wp (push_all (MaxMinHeap.make cap) l) (fun h => MaxMinHeap.inv h /\
    MaxMinHeap.capacity h = cap /\ MaxMinHeap.top_of cap l (MaxMinHeap.contents h))) as Hpush.
  { apply (wp_foldM _ (fun pre h => MaxMinHeap.inv h /\ MaxMinHeap.capacity h = cap /\
      MaxMinHeap.top_of cap pre (MaxMinHeap.contents h))).
    - split_and!; [apply MaxMinHeap.make_inv|done|apply MaxMinHeap.top_of_nil].
    - intros pre [i v] post h -> (Hinv & <- & Htop). rewrite Forall_app, Forall_cons in Hok.
      destruct Hok as (Hpre & Hv & _). by apply MaxMinHeap.push_top_of.
    - done. }
  apply wp_elim in Hpush as (h & -> & Hinv & Hc & Htop). cbn [bind].
  pose proof (MaxMinHeap.inv_size h Hinv).
  destruct (wp_elim _ _ (collect_result_spec h ds ls Hinv ltac:(lia) ltac:(lia)))
    as (res & Hres & out & Hout & Hdesc & Hw).
  exists res, out. split_and!; [done| |done|done]. by rewrite Hout.
Qed.

Lemma result_heap_collects_largest_witness :
  exists res out,
    (let* h := push_all (MaxMinHeap.make 2) [IdVal.mk 0 5; IdVal.mk 1 9; IdVal.mk 2 7]%Z in
     collect_result h [0; 0]%Z [-1; -1]%Z) = Ret res /\
    MaxMinHeap.top_of 2 [IdVal.mk 0 5; IdVal.mk 1 9; IdVal.mk 2 7]%Z out /\ descending out /\
    results_written out [0; 0]%Z [-1; -1]%Z res.
Proof.
  apply (result_heap_collects_largest 2 [IdVal.mk 0 5; IdVal.mk 1 9; IdVal.mk 2 7]%Z);
    [lia | simpl; lia | simpl; lia | repeat constructor].
Defined.

(** C10: index rows with one non-zero element per dimension, sorted by
    dimension, in a new index: inner product, or BM25 with its parameters,
    whatever type the posting lists store the values in (BM25 indexes store
    [uint16_t]).  Then the term-at-a-time scores of any sorted query, with no
    term dropped, and the score that [GetRawDistance] computes for a single row
    are both, operation for operation in the arithmetic of the scores, the merge
    join [query.dot(row)] with the row's values as they are stored and, under
    BM25, the document length of the row before it was quantised. *)
Theorem sparse_scores_are_dot_products {A Q} `{!Num A, !NumOrder A, !Quant A Q, !StdSort} algo metric bm
    (data : list (SparseRow A)) dim (q : SparseRow A) (computer : DocValueComputer A) :
  Forall (fun row => dims_sorted row /\ no_zeros row) data -> dims_sorted q ->
  (metric = METRIC_BM25 -> exists p, bm = Some p /\ row_sums p = [] /\ row_sums_spans p = []) ->
  let score row :=
    dot q (stored_row (Q:=Q) row) computer (if metric is METRIC_BM25 then row_sum row else nzero) in
  exists ix : InvertedIndex A Q, Add algo (new_index metric bm) data dim = Ret ix /\
    (let* q_vec := parse_query ix q nzero in compute_all_distances ix q_vec computer) =
      Ret (score <$> data) /\
    forall i row, data !! i = Some row -> GetRawDistance ix i q computer = Ret (score row).
Proof.
  intros Hdata Hq Hbm score.
  assert (Forall row_ok data) as Hok.
  { eapply Forall_impl; [exact Hdata|]. intros row [Hs _]. by apply dims_sorted_ok. }
  destruct (wp_elim _ _ (Add_spec algo _ _ data dim (represents_new algo metric bm Hbm) Hok))
    as (ix & Hix & Hrep & Hmt & _).
  exists ix. simpl in Hmt. cbn [app] in Hrep.
  assert (forall row, row ∈ data -> ref_score (ix:=ix) computer q row = score row) as Hscore.
  { intros row Hrow. apply (proj1 (Forall_forall _ _) Hdata) in Hrow as [Hs Hz].
    unfold score. rewrite dot_stored_row, dot_spec by done. unfold ref_score, term, dlen, is_bm25. rewrite Hmt.
    by destruct metric. }
  split_and!; [done| |].
  - destruct (wp_elim _ _ (all_distances_spec algo Hrep computer q nzero neqb_zero)) as (sc & -> & ->).
    f_equal. apply list_fmap_ext. intros i row Hrow. apply Hscore. by eapply list_elem_of_lookup_2.
  - intros i row Hrow. rewrite (raw_distance_spec algo Hrep computer i row q Hrow). f_equal.
    apply Hscore. by eapply list_elem_of_lookup_2.
Qed.

Definition ex_rows : list (SparseRow spec_float) :=
  [[(1, F32.of_Z 3); (5, F32.of_Z 2)]; [(2, F32.of_Z 4)]; [(1, F32.of_Z 1); (7, F32.of_Z 9)]]%Z.
Definition ex_query : SparseRow spec_float := [(1, F32.of_Z 2); (2, F32.of_Z 1)]%Z.

(** Term frequencies that [uint16_t] cannot hold: 2.5, 0.5 and 70000. *)
Definition bm25_rows : list (SparseRow spec_float) :=
  [[(1, F32.div (F32.of_Z 5) (F32.of_Z 2)); (5, F32.of_Z 2)]; [(2, F32.div F32.one (F32.of_Z 2))];
   [(1, F32.of_Z 70000); (7, F32.of_Z 9)]]%Z.
Definition bm25_computer : DocValueComputer spec_float :=
  GetDocValueBM25Computer (F32.of_Z 1) (F32.div F32.one (F32.of_Z 2)) (F32.of_Z 4).
Definition bm25_start : BM25Params spec_float := mkBM25 (F32.of_Z 1) (F32.div F32.one (F32.of_Z 2)) [] [] bm25_computer.

Lemma sparse_scores_are_dot_products_witness :
  (stored_row (Quant0:=u16_quant) <$> bm25_rows) =
    [[(1, F32.of_Z 2); (5, F32.of_Z 2)]; [(2, F32.of_Z 0)]; [(1, F32.of_Z 65535); (7, F32.of_Z 9)]]%Z /\
  exists ix, Add (Quant0:=u16_quant) DAAT_WAND (new_index METRIC_BM25 (Some bm25_start)) bm25_rows 8 = Ret ix /\
    (let* q_vec := parse_query ix ex_query nzero in
     compute_all_distances (Quant0:=u16_quant) ix q_vec bm25_computer) =
      Ret ((fun row => dot ex_query (stored_row (Quant0:=u16_quant) row) bm25_computer (row_sum row)) <$> bm25_rows) /\
    forall i row, bm25_rows !! i = Some row ->
      GetRawDistance (Quant0:=u16_quant) ix i ex_query bm25_computer =
        Ret (dot ex_query (stored_row (Quant0:=u16_quant) row) bm25_computer (row_sum row)).
Proof.
  split; [vm_compute; reflexivity|].
  apply (sparse_scores_are_dot_products (Quant0:=u16_quant) DAAT_WAND METRIC_BM25 (Some bm25_start) bm25_rows 8 ex_query
           bm25_computer);
    [repeat constructor | repeat constructor | intros _; by exists bm25_start].
Defined.

Lemma collect_top {A} `{!Num A, !NumOrder A} k (h : MaxMinHeap.t A) l : MaxMinHeap.inv h ->
  MaxMinHeap.capacity h = k -> MaxMinHeap.top_of k l (MaxMinHeap.contents h) ->
  exists res out, collect_result h (replicate k nnan) (replicate k (-1)%Z) = Ret res /\
    MaxMinHeap.top_of k l out /\ descending out /\
    results_written out (replicate k nnan) (replicate k (-1)%Z) res.
Proof.
  intros Hinv Hc Htop. pose proof (MaxMinHeap.inv_size h Hinv).
  destruct (wp_elim _ _ (collect_result_spec h (replicate k nnan) (replicate k (-1)%Z) Hinv
    ltac:(rewrite length_replicate; lia) ltac:(rewrite length_replicate; lia)))
    as (res & Hres & out & Hout & Hdesc & Hw).
  exists res, out. split_and!; [done| |done|done]. by rewrite Hout.
Qed.

(** A query without a known term scores every row zero. *)
Lemma no_terms_no_candidates {A Q} `{!Num A, !NumOrder A, !Quant A Q, !StdSort}
    {ix : InvertedIndex A Q} {rows} (Hrep : represents TAAT_NAIVE ix rows) computer q pass drop :
  neqb drop nzero = true -> parse_query ix q drop = Ret [] ->
  candidates (ix:=ix) (rows:=rows) computer q pass (length rows) = [].
Proof.
  intros Hd Hq. pose proof (all_distances_spec _ Hrep computer q drop Hd) as Hsc.
  rewrite Hq in Hsc. simpl in Hsc.
  assert (forall row, row ∈ rows -> ref_score (ix:=ix) computer q row = nzero) as Hz.
  { intros row [i Hi]%list_elem_of_lookup. apply (f_equal (lookup i)) in Hsc.
    rewrite list_lookup_fmap, Hi in Hsc. simpl in Hsc. apply lookup_replicate in Hsc as [-> _]. done. }
  unfold candidates. generalize 0 as a. generalize (length rows) as n. intros n. induction n as [|n IH]; [done|].
  intros a. cbn [seq omap list_omap]. destruct (rows !! a) as [row|] eqn:Hrow; [|apply IH]. cbv zeta.
  rewrite Hz by (by eapply list_elem_of_lookup_2). rewrite neqb_zero, andb_false_r. apply IH.
Qed.

Lemma taat_search_topk {A Q} `{!Num A, !NumOrder A, !Quant A Q, !StdSort}
    (ix : InvertedIndex A Q) rows q k bitset computer params :
  represents TAAT_NAIVE ix rows -> BitsetView.plain bitset -> 0 < k ->
  refine_factor params = 1 -> neqb (drop_ratio_search params) nzero = true ->
  Forall (fun row => nok (ref_score (ix:=ix) computer q row)) rows ->
  let pass i := BitsetView.empty bitset ||
    negb ((BitsetView.num_bits bitset <=? i) || BitsetView.filtered bitset i) in
  exists res out, Search TAAT_NAIVE ix q k bitset computer params = Ret res /\
    MaxMinHeap.top_of k (candidates (ix:=ix) (rows:=rows) computer q pass (length rows)) out /\
    descending out /\ results_written out (replicate k nnan) (replicate k (-1)%Z) res.
Proof.
  intros Hrep Hb Hk Href Hdrop Hok pass.
  pose proof (taat_spec Hrep computer bitset _ (bitset_filter_ok (length rows) bitset Hb)
    q (drop_ratio_search params) k Hdrop Hk Hok) as Hsearch.
  change (passes bitset _) with pass in Hsearch.
  destruct (parse_query ix q (drop_ratio_search params)) as [q_vec| |] eqn:Hq; [|done..].
  cbn [bind] in Hsearch. apply wp_elim in Hsearch as (h & Hh & Hinv & Hc & Htop).
  destruct (collect_top k h _ Hinv Hc Htop) as (res & out & Hres & Hout & Hdesc & Hw).
  unfold Search. rewrite Hq, Href, Nat.mul_1_r. cbn [bind Nat.eqb run_algo]. rewrite Hh. cbn [bind].
  assert (candidates (ix:=ix) (rows:=rows) computer q pass (length rows) = [] ->
    MaxMinHeap.top_of k (candidates (ix:=ix) (rows:=rows) computer q pass (length rows)) [] /\
    descending (@nil (idval A))) as Hnone.
  { intros ->. split; [apply MaxMinHeap.top_of_nil|constructor]. }
  assert (q_vec = [] -> candidates (ix:=ix) (rows:=rows) computer q pass (length rows) = []) as Hnil.
  { intros ->. by apply (no_terms_no_candidates Hrep computer _ _ (drop_ratio_search params)). }
  destruct q as [|e q']; [|destruct q_vec as [|t q_vec]].
  - destruct Hnone as [? ?].
    { apply Hnil. rewrite (parse_query_all _ _ Hdrop) in Hq. by injection Hq. }
    by eexists _, [].
  - destruct Hnone as [? ?]; [by apply Hnil|]. by eexists _, [].
  - by exists res, out.
Qed.

(** C7: exhaustive search ([TAAT_NAIVE], no refinement, no dropped terms) over
    an index that represents [rows], for [k > 0] and scores without NaN,
    returns: the arrays start with [k] of the largest scores (all when there
    are fewer) among the rows that pass the bitset and whose reference score is
    not zero, in descending order, and the remaining places keep the filler
    distance and label -1. *)
Theorem taat_search_returns_topk {A Q} `{!Num A, !NumOrder A, !Quant A Q, !StdSort}
    (ix : InvertedIndex A Q) rows q k bitset computer params :
  represents TAAT_NAIVE ix rows -> BitsetView.plain bitset -> 0 < k ->
  refine_factor params = 1 -> neqb (drop_ratio_search params) nzero = true ->
  Forall (fun row => nok (ref_score (ix:=ix) computer q row)) rows ->
  let pass i := BitsetView.empty bitset ||
    negb ((BitsetView.num_bits bitset <=? i) || BitsetView.filtered bitset i) in
  exists res out, Search TAAT_NAIVE ix q k bitset computer params = Ret res /\
    MaxMinHeap.top_of k (candidates (ix:=ix) (rows:=rows) computer q pass (length rows)) out /\
    descending out /\ results_written out (replicate k nnan) (replicate k (-1)%Z) res.
Proof. apply taat_search_topk. Qed.

Lemma ex_rows_ok : Forall row_ok ex_rows.
Proof. by repeat (constructor; [by apply (bool_decide_unpack _)|]). Qed.

Definition no_filter : BitsetView.t := BitsetView.bitset_view [] 0 0 0.

Lemma no_filter_plain : BitsetView.plain no_filter.
Proof. split; simpl; try done. unfold BitsetView.byte_size. simpl. lia. Qed.

Lemma taat_search_returns_topk_witness :
  exists ix res, Add (Q:=spec_float) TAAT_NAIVE (new_index METRIC_IP None) ex_rows 8 = Ret ix /\
    Search TAAT_NAIVE ix ex_query 2 no_filter GetDocValueOriginalComputer (mkApprox 1 nzero F32.one) = Ret res.
Proof.
  destruct (wp_elim _ _ (Add_spec TAAT_NAIVE (new_index METRIC_IP None : InvertedIndex spec_float spec_float)
    [] ex_rows 8 ltac:(by apply represents_new) ex_rows_ok)) as (ix & Hix & Hrep & Hmt & _).
  destruct (taat_search_returns_topk ix ex_rows ex_query 2 no_filter GetDocValueOriginalComputer
    (mkApprox 1 nzero F32.one) Hrep no_filter_plain ltac:(lia) eq_refl eq_refl) as (res & out & Hres & _).
  - unfold ref_score, term, dlen, is_bm25. rewrite Hmt. repeat constructor.
  - exists ix, res. split; [exact Hix | exact Hres].
Defined.

(** the replacement step of the heap compares values only, so with equal values
    the array need not be a heap for the (value, id) order that [std::pop_heap]
    is given: here the root compares greater than its first child. *)
Theorem sift_down_breaks_id_order :
  exists h x y, push_all (MaxMinHeap.make 3)
      [IdVal.mk 0 1; IdVal.mk 1 2; IdVal.mk 2 2; IdVal.mk 3 2]%Z = Ret h /\
    MaxMinHeap.pool h !! 0 = Some x /\ MaxMinHeap.pool h !! 1 = Some y /\ IdVal.gt x y = true.
Proof. by eexists _, _, _. Qed.
