(* ===== verification/SparseDaat.v ===== *)
(** * Document-at-a-time search: cursors, bounds and the result heap

    What the two pruned searches share.  A cursor walks one posting list and
    stops only at ids that pass the filter; the sum of the bounds of the cursors
    that have not passed a document bounds its score; a document whose score is
    at most the heap's threshold cannot change the result.  Scores are exact
    (integers). *)

From S2P Require Import Prelude Float Num StdHeap SparseUtils Bitset Expected SparseIndex SparseIndexSpec SparseSearch SparseProps.

Definition zsum (l : list Z) : Z := foldr Z.add 0%Z l.

Lemma zsum_app l k : zsum (l ++ k) = (zsum l + zsum k)%Z.
Proof. unfold zsum. induction l as [|x l IH]; simpl; lia. Qed.

#[export] Instance zsum_perm : Proper ((≡ₚ) ==> eq) zsum.
Proof. unfold zsum. induction 1; simpl; lia. Qed.

Lemma zsum_le {B} (f g : B -> Z) l : (forall x, x ∈ l -> (f x <= g x)%Z) -> (zsum (f <$> l) <= zsum (g <$> l))%Z.
Proof.
  unfold zsum. induction l as [|x l IH]; intros H; [done|]. rewrite !fmap_cons. cbn [foldr].
  pose proof (H x ltac:(apply elem_of_cons; by left)).
  assert (forall y, y ∈ l -> (f y <= g y)%Z) as Hl by (intros y Hy; apply H, elem_of_cons; by right).
  specialize (IH Hl). lia.
Qed.

Lemma zsum_zero {B} (f : B -> Z) l : (forall x, x ∈ l -> f x = 0%Z) -> zsum (f <$> l) = 0%Z.
Proof.
  unfold zsum. induction l as [|x l IH]; intros H; [done|]. rewrite fmap_cons. cbn [foldr].
  rewrite (H x), IH; [done| |apply elem_of_cons; by left]. intros y Hy. apply H, elem_of_cons. by right.
Qed.

Lemma zsum_nonneg {B} (f : B -> Z) l : (forall x, x ∈ l -> (0 <= f x)%Z) -> (0 <= zsum (f <$> l))%Z.
Proof.
  intros H. rewrite <- (zsum_zero (fun _ : B => 0%Z) l) by done. by apply zsum_le.
Qed.

Lemma sorted_mono {B} (R R' : B -> B -> Prop) l : (forall x y, x ∈ l -> y ∈ l -> R x y -> R' x y) ->
  StronglySorted R l -> StronglySorted R' l.
Proof.
  intros H Hs. induction Hs as [|x l Hl IH Hx]; [constructor|]. constructor.
  - apply IH. intros y z Hy Hz. apply H; apply elem_of_cons; by right.
  - rewrite Forall_forall in Hx |- *. intros y Hy. apply H; [apply elem_of_cons; by left|apply elem_of_cons; by right|by apply Hx].
Qed.

Lemma sorted_NoDup (l : list nat) : StronglySorted (<) l -> NoDup l.
Proof.
  intros Hs. induction Hs as [|i l Hs IH Hi]; [constructor|]. constructor; [|done].
  intros Hin. apply (proj1 (Forall_forall _ _) Hi) in Hin. lia.
Qed.

Lemma sorted_before (l : list nat) j k x y : StronglySorted (<) l -> l !! j = Some x -> l !! k = Some y ->
  j < k <-> x < y.
Proof.
  intros Hs Hj Hk.
  assert (forall j k x y, l !! j = Some x -> l !! k = Some y -> j < k -> x < y) as Hlt.
  { clear -Hs. intros j k x y Hj Hk Hjk. rewrite <- (take_drop_middle _ _ _ Hk) in Hs.
    apply StronglySorted_app in Hs as (Hlt & _). apply Hlt; [|apply elem_of_cons; by left].
    apply list_elem_of_lookup. exists j. by rewrite lookup_take_lt. }
  split; [by apply Hlt|]. intros Hxy. destruct (decide (j < k)) as [|Hge]; [done|].
  destruct (decide (j = k)) as [->|]; [simplify_eq; lia|].
  specialize (Hlt k j y x Hk Hj ltac:(lia)). lia.
Qed.

(** ** Cursors *)

Section cursor.
Context {Q F : Type} `{!Quant Z Q, !DocIdFilter F}.
Context (n : nat) (f : F) (filt : nat -> bool).
Context (I : nat -> F -> Prop).
Hypothesis I_empty : forall i g, I i g -> f_empty g = f_empty f.
Hypothesis I_test : forall i j g, I i g -> i <= j < n -> wp (f_test g j) (fun '(g', r) => I j g' /\ r = filt j).

Abbreviation pass := (passes f filt).
Implicit Types c : Cursor Z Q F.
Implicit Types ids : list nat.

(** A posting list: increasing ids of rows. *)
Definition ids_ok ids : Prop := StronglySorted (<) ids /\ Forall (fun i => i < n) ids.

(** The filter state can be asked for everything from position [l] on. *)
Definition filter_at ids (g : F) (l : nat) : Prop :=
  exists i, I i g /\ forall k x, l <= k -> ids !! k = Some x -> i <= x.

Lemma filter_at_mono ids g l l' : filter_at ids g l -> l <= l' -> filter_at ids g l'.
Proof. intros (i & Hi & Hx) Hl. exists i. split; [done|]. intros k x Hk. apply Hx. lia. Qed.

Lemma skip_spec fuel ids g l : ids_ok ids -> filter_at ids g l -> length ids <= l + fuel ->
  wp (skip_filtered_ids fuel ids g l) (fun '(g', l') => filter_at ids g' l' /\ l <= l' /\
    (l <= length ids -> l' <= length ids) /\
    (forall x, ids !! l' = Some x -> pass x = true) /\
    (forall k x, l <= k < l' -> ids !! k = Some x -> pass x = false)).
Proof.
  intros [Hs Hn]. revert g l. induction fuel as [|fuel IH]; intros g l Hg Hf.
  { cbn [skip_filtered_ids]. rewrite lookup_ge_None_2 by lia. simpl. split_and!; [done|lia|lia| |].
    - intros x Hx%lookup_lt_Some. lia.
    - intros k x Hk. lia. }
  cbn [skip_filtered_ids]. destruct (ids !! l) as [x|] eqn:Hx; simpl.
  2:{ split_and!; [done|lia|lia|congruence|lia]. }
  pose proof Hg as (i & Hi & Hge). unfold passes. rewrite <- (I_empty i g Hi).
  destruct (f_empty g) eqn:He; [simpl; split_and!; [done|lia|done|done|lia]|].
  apply wp_bind. eapply wp_mono; [apply (I_test i x g Hi); split; [by eapply Hge|by eapply (Forall_lookup_1 _ _ _ _ Hn)]|].
  intros [g' r] [Hg' ->].
  assert (filter_at ids g' l) as Hg2.
  { exists x. split; [done|]. intros k y Hk Hy. destruct (decide (k = l)) as [->|]; [simplify_eq; lia|].
    assert (x < y); [|lia]. eapply (sorted_before ids l k); [done..|lia]. }
  destruct (filt x) eqn:Ht.
  - eapply wp_mono; [apply IH; [apply (filter_at_mono _ _ _ _ Hg2); lia|lia]|].
    intros [g2 l2] (Hg3 & Hl & Hlen & Hp & Hnp). apply lookup_lt_Some in Hx as Hxl.
    unfold passes in Hp, Hnp. rewrite <- (I_empty i g Hi), He in Hp, Hnp.
    split_and!; [done|lia|lia|done|]. intros k y Hk Hy. destruct (decide (k = l)) as [->|].
    + simplify_eq. by rewrite Ht.
    + apply (Hnp k); [lia|done].
  - simpl. split_and!; [done|lia|done| |lia]. intros y Hy. rewrite Hx in Hy. injection Hy as <-. by rewrite Ht.
Qed.

(** A cursor stands on the first passing id from its position on. *)
Record cursor_ok c : Prop := {
  co_ids : ids_ok (plist_ids c);
  co_num : total_num_vec c = n;
  co_filter : filter_at (plist_ids c) (cfilter c) (loc c);
  co_cur : match plist_ids c !! loc c with
           | Some x => cur_vec_id c = x /\ pass x = true
           | None => cur_vec_id c = n
           end
}.

(** [c'] is [c] at a later position. *)
Definition advanced c c' : Prop :=
  plist_ids c' = plist_ids c /\ plist_vals c' = plist_vals c /\ max_score c' = max_score c /\
  q_value c' = q_value c /\ loc c <= loc c'.

Lemma cursor_lt c : cursor_ok c -> cur_vec_id c < n <-> plist_ids c !! loc c = Some (cur_vec_id c).
Proof.
  intros [[_ Hn] _ _ Hc]. destruct (plist_ids c !! loc c) as [x|] eqn:Hx.
  - destruct Hc as [-> _]. split; [done|]. intros _. by eapply (Forall_lookup_1 _ _ _ _ Hn).
  - rewrite Hc. split; [lia|done].
Qed.

Lemma cursor_le c : cursor_ok c -> cur_vec_id c <= n.
Proof.
  intros Hc. destruct (plist_ids c !! loc c) as [x|] eqn:Hx.
  - destruct Hc as [[_ Hn] _ _ Hc]. rewrite Hx in Hc. destruct Hc as [-> _].
    apply Nat.lt_le_incl. by eapply (Forall_lookup_1 _ _ _ _ Hn).
  - destruct Hc as [_ _ _ Hc]. rewrite Hx in Hc. lia.
Qed.

Lemma cursor_pass c : cursor_ok c -> cur_vec_id c < n -> pass (cur_vec_id c) = true /\ cur_vec_id c ∈ plist_ids c.
Proof.
  intros Hok Hlt. pose proof (proj1 (cursor_lt c Hok) Hlt) as Hx. destruct Hok as [_ _ _ Hc]. rewrite Hx in Hc.
  split; [apply Hc|]. by eapply list_elem_of_lookup_2.
Qed.

(** Positions and ids agree. *)
Lemma cursor_pos c k x : cursor_ok c -> plist_ids c !! k = Some x -> k < loc c -> x < cur_vec_id c.
Proof.
  intros [[Hs Hn] Hnum Hfil Hc] Hk Hlt. destruct (plist_ids c !! loc c) as [y|] eqn:Hy.
  - destruct Hc as [-> _]. by eapply (sorted_before _ k (loc c)).
  - rewrite Hc. by eapply (Forall_lookup_1 _ _ _ _ Hn).
Qed.

(** [settle_at] from [l]: the first passing id from [l] on. *)
Lemma settle_spec c l : ids_ok (plist_ids c) -> total_num_vec c = n ->
  filter_at (plist_ids c) (cfilter c) l ->
  wp (settle_at c l) (fun c' => cursor_ok c' /\ plist_ids c' = plist_ids c /\ plist_vals c' = plist_vals c /\
    max_score c' = max_score c /\ q_value c' = q_value c /\ l <= loc c' /\
    (l <= length (plist_ids c) -> loc c' <= length (plist_ids c)) /\
    forall k x, l <= k -> plist_ids c !! k = Some x -> pass x = true -> cur_vec_id c' <= x).
Proof.
  intros Hids Hn Hfil. unfold settle_at. apply wp_bind.
  eapply wp_mono; [apply skip_spec; [done..|lia]|]. intros [g' l'] (Hg & Hl & Hlen & Hp & Hnp).
  assert (forall cur, (match plist_ids c !! l' with Some x => cur = x | None => cur = n end) ->
    cursor_ok (move c l' g' cur) /\
    forall k x, l <= k -> plist_ids c !! k = Some x -> pass x = true -> cur <= x) as Hmv.
  { intros cur Hcur. split.
    - split; simpl; [done..|]. destruct (plist_ids c !! l') as [x|] eqn:Hx; [|done]. split; [done|by apply Hp].
    - intros k x Hk Hx Hpx. destruct (decide (k < l')) as [Hlt|Hge].
      { rewrite (Hnp k x) in Hpx by (done || lia). done. }
      destruct (plist_ids c !! l') as [y|] eqn:Hy.
      + subst y. destruct (decide (k = l')) as [->|]; [simplify_eq; lia|].
        apply Nat.lt_le_incl. eapply (sorted_before _ l' k); [apply Hids|done|done|lia].
      + apply lookup_ge_None in Hy. apply lookup_lt_Some in Hx. lia. }
  apply wp_bind. destruct (Nat.leb_spec (length (plist_ids c)) l') as [Hge|Hlt].
  - cbn [wp]. destruct (Hmv (total_num_vec c)) as [? ?]; [by rewrite lookup_ge_None_2 by lia|].
    refine (conj _ (conj _ (conj _ (conj _ (conj _ (conj _ (conj _ _))))))); done.
  - apply wp_vget; [done|]. intros x Hx. cbn [wp]. destruct (Hmv x) as [? ?]; [by rewrite Hx|].
    refine (conj _ (conj _ (conj _ (conj _ (conj _ (conj _ (conj _ _))))))); done.
Qed.

Lemma make_cursor_spec ids vals ms qv : ids_ok ids -> I 0 f ->
  wp (make_cursor ids vals n ms qv f) (fun c => cursor_ok c /\ plist_ids c = ids /\ plist_vals c = vals /\
    max_score c = ms /\ q_value c = qv /\ loc c <= length ids /\ forall x, x ∈ ids -> pass x = true -> cur_vec_id c <= x).
Proof.
  intros Hids HI. unfold make_cursor. eapply wp_mono; [apply settle_spec; simpl; [done|done|]|].
  - exists 0. split; [done|lia].
  - intros c (Hok & Hi & Hv & Hm & Hq & _ & Hlen & Hx). simpl in *. split_and!; [done..|apply Hlen; lia|].
    intros x [k Hk]%list_elem_of_lookup. apply (Hx k); [lia|done].
Qed.

(** [next] leaves the current id and nothing else that passes. *)
Lemma next_spec c : cursor_ok c -> cur_vec_id c < n ->
  wp (next c) (fun c' => cursor_ok c' /\ advanced c c' /\ loc c < loc c' <= length (plist_ids c) /\ cur_vec_id c < cur_vec_id c' /\
    forall x, x ∈ plist_ids c -> pass x = true -> cur_vec_id c < x -> cur_vec_id c' <= x).
Proof.
  intros Hok Hlt. pose proof (proj1 (cursor_lt c Hok) Hlt) as Hcur. apply lookup_lt_Some in Hcur as Hlen.
  unfold next. pose proof Hok as [Hids Hn Hfil _].
  eapply wp_mono; [apply settle_spec; [done|done|apply (filter_at_mono _ _ _ _ Hfil); lia]|].
  intros c' (Hok' & Hi & Hv & Hm & Hq & Hl & Hl' & Hx). split_and!; [done|split_and!; [done..|lia]|lia|lia| |].
  - rewrite <- Hi in Hcur. eapply cursor_pos; [done|exact Hcur|lia].
  - intros x [k Hk]%list_elem_of_lookup Hp Hcx. apply (Hx k); [|done|done].
    assert (loc c < k); [|lia]. eapply (sorted_before _ (loc c) k); [apply Hids|done..].
Qed.

Lemma seek_loc_spec fuel ids l v : ids_ok ids -> length ids <= l + fuel ->
  l <= seek_loc fuel ids l v /\ (l <= length ids -> seek_loc fuel ids l v <= length ids) /\
  (forall k x, l <= k < seek_loc fuel ids l v -> ids !! k = Some x -> x < v) /\
  (forall x, ids !! seek_loc fuel ids l v = Some x -> v <= x).
Proof.
  intros Hids. revert l. induction fuel as [|fuel IH]; intros l Hf; simpl.
  { split_and!; [lia|lia|lia|]. intros x Hx%lookup_lt_Some. lia. }
  destruct (ids !! l) as [x|] eqn:Hx; [|split_and!; [lia|lia|lia|congruence]].
  destruct (Nat.ltb_spec x v) as [Hlt|Hge].
  - destruct (IH (l + 1)) as (H1 & H2 & H3 & H4); [lia|]. apply lookup_lt_Some in Hx as Hxl.
    split_and!; [lia|lia| |done]. intros k y Hk Hy. destruct (decide (k = l)) as [->|]; [by simplify_eq|].
    apply (H3 k); [lia|done].
  - split_and!; [lia|lia|lia|]. intros y Hy. rewrite Hx in Hy. by simplify_eq.
Qed.

(** [seek] moves to the first passing id not below the target. *)
Lemma seek_spec c v : cursor_ok c -> v <= n -> loc c <= length (plist_ids c) ->
  wp (seek c v) (fun c' => cursor_ok c' /\ advanced c c' /\ loc c' <= length (plist_ids c) /\
    (cur_vec_id c < v -> loc c < loc c') /\ cur_vec_id c <= cur_vec_id c' /\ v <= cur_vec_id c' /\
    forall x, x ∈ plist_ids c -> pass x = true -> cur_vec_id c <= x -> v <= x -> cur_vec_id c' <= x).
Proof.
  intros Hok Hv Hll. unfold seek. pose proof Hok as [Hids Hn Hfil Hcur].
  destruct (seek_loc_spec (length (plist_ids c)) (plist_ids c) (loc c) v Hids ltac:(lia)) as (Hl & Hlen & Hbelow & Hge).
  set (l' := seek_loc _ _ _ _) in *.
  eapply wp_mono; [apply settle_spec; [done|done|by eapply filter_at_mono]|].
  intros c' (Hok' & Hi & Hvs & Hm & Hq & Hl' & Hlen' & Hx).
  assert (v <= cur_vec_id c') as Hvc.
  { destruct (decide (cur_vec_id c' < n)) as [Hlt|]; [|pose proof (cursor_le c' Hok'); lia].
    pose proof (proj1 (cursor_lt c' Hok') Hlt) as Hc'. rewrite Hi in Hc'.
    destruct (plist_ids c !! l') as [y|] eqn:Hy.
    - specialize (Hge y eq_refl). destruct (decide (l' = loc c')) as [->|]; [by simplify_eq|].
      assert (y < cur_vec_id c'); [|lia]. eapply (sorted_before _ l' (loc c')); [apply Hids|done|done|lia].
    - apply lookup_ge_None in Hy. apply lookup_lt_Some in Hc'. lia. }
  assert (cur_vec_id c <= cur_vec_id c') as Hcc.
  { destruct (decide (cur_vec_id c < n)) as [Hlt|Hnlt].
    - pose proof (proj1 (cursor_lt c Hok) Hlt) as Hc. destruct (decide (loc c = loc c')) as [Heq|].
      + destruct Hok' as [_ _ _ Hc']. rewrite Hi, <- Heq, Hc in Hc'. by destruct Hc' as [-> _].
      + apply Nat.lt_le_incl. rewrite <- Hi in Hc. eapply cursor_pos; [done|exact Hc|lia].
    - destruct (decide (cur_vec_id c' < n)) as [Hlt|]; [|pose proof (cursor_le c Hok); lia].
      apply (cursor_lt c' Hok') in Hlt. rewrite Hi in Hlt. apply lookup_lt_Some in Hlt.
      exfalso. apply Hnlt, (cursor_lt c Hok). destruct (plist_ids c !! loc c) as [x|] eqn:Hxx; [by destruct Hcur as [-> _]|].
      apply lookup_ge_None in Hxx. lia. }
  split_and!; [done|split_and!; [done..|lia]|by apply Hlen', Hlen| |done|done|].
  - intros Hlt. destruct (decide (loc c = loc c')) as [Heq|]; [|lia]. exfalso.
    assert (plist_ids c !! loc c = Some (cur_vec_id c)) as Hc by (apply (cursor_lt c Hok); lia).
    assert (l' = loc c) as Hll' by lia. specialize (Hge (cur_vec_id c)). rewrite Hll' in Hge. specialize (Hge Hc). lia.
  - intros x [k Hk]%list_elem_of_lookup Hp Hcx Hvx. apply (Hx k); [|done|done].
    destruct (decide (k < l')) as [Hlt|]; [|lia]. destruct (decide (k < loc c)) as [Hlt'|].
    + pose proof (cursor_pos c k x Hok Hk Hlt'). lia.
    + specialize (Hbelow k x ltac:(lia) Hk). lia.
Qed.

End cursor.

(** ** Posting lists and their bounds *)

(** What a cursor walks: the postings of a term, the bound on the term's
    contributions and its weight in the query. *)
Record plist (Q : Type) := mkPlist { pl_posts : list (nat * Q); pl_bound : Z; pl_q : Z }.
Arguments mkPlist {Q}.
Arguments pl_posts {Q}.
Arguments pl_bound {Q}.
Arguments pl_q {Q}.

Fixpoint assoc {Q} (l : list (nat * Q)) (i : nat) : option Q :=
  match l with
  | [] => None
  | (j, v) :: l => if j =? i then Some v else assoc l i
  end.

Lemma assoc_lookup {Q} (l : list (nat * Q)) k i v : NoDup (fst <$> l) -> l !! k = Some (i, v) -> assoc l i = Some v.
Proof.
  revert k. induction l as [|[j w] l IH]; intros k Hnd Hk; [done|]. rewrite fmap_cons in Hnd.
  inversion_clear Hnd as [|? ? Hj Hnd']. simpl. destruct k as [|k]; simpl in Hk.
  - injection Hk as -> ->. by rewrite Nat.eqb_refl.
  - destruct (Nat.eqb_spec j i) as [->|]; [|by apply (IH k)]. exfalso. apply Hj.
    apply list_elem_of_fmap. exists (i, v). split; [done|]. by eapply list_elem_of_lookup_2.
Qed.

Lemma assoc_Some {Q} (l : list (nat * Q)) i v : assoc l i = Some v -> (i, v) ∈ l.
Proof.
  induction l as [|[j w] l IH]; [done|]. simpl. destruct (Nat.eqb_spec j i) as [->|]; intros H.
  - injection H as ->. apply elem_of_cons. by left.
  - apply elem_of_cons. right. auto.
Qed.

Section daat.
Context {Q F : Type} `{!Quant Z Q, !DocIdFilter F}.
Context (n : nat) (f : F) (filt : nat -> bool) (I : nat -> F -> Prop).
Hypothesis I_empty : forall i g, I i g -> f_empty g = f_empty f.
Hypothesis I_test : forall i j g, I i g -> i <= j < n -> wp (f_test g j) (fun '(g', r) => I j g' /\ r = filt j).
Context (computer : DocValueComputer Z) (len : nat -> Z) (D : list (plist Q)).

Abbreviation pass := (passes f filt).
Implicit Types c : Cursor Z Q F.
Implicit Types cs : list (Cursor Z Q F).
Implicit Types d : plist Q.
Implicit Types h : MaxMinHeap.t Z.
Implicit Types P : list (idval Z).

Definition pl_ids d : list nat := fst <$> pl_posts d.

(** The contribution of a posting, and of a term to a document. *)
Definition weight d (i : nat) (v : Q) : Z := (pl_q d * computer (stored v) (len i))%Z.
Definition contrib d (i : nat) : Z := match assoc (pl_posts d) i with Some v => weight d i v | None => 0%Z end.
Definition score (i : nat) : Z := zsum ((fun d => contrib d i) <$> D).

(** The bound holds for every posting; a positive bound comes with positive
    contributions only. *)
Record plist_ok d : Prop := {
  po_ids : ids_ok n (pl_ids d);
  po_bound : (0 <= pl_bound d)%Z;
  po_weight : forall i v, (i, v) ∈ pl_posts d -> (0 <= weight d i v <= pl_bound d)%Z;
  po_pos : (0 < pl_bound d)%Z -> forall i v, (i, v) ∈ pl_posts d -> (0 < weight d i v)%Z
}.
Hypothesis HD : Forall plist_ok D.

(** Cursor [c] walks [d]. *)
Record walks d c : Prop := {
  wa_ok : cursor_ok n f filt I c;
  wa_ids : plist_ids c = pl_ids d;
  wa_vals : plist_vals c = snd <$> pl_posts d;
  wa_max : max_score c = pl_bound d;
  wa_q : q_value c = pl_q d;
  wa_loc : loc c <= length (pl_ids d)
}.

Lemma walks_advanced d c c' : walks d c -> cursor_ok n f filt I c' -> advanced c c' ->
  loc c' <= length (pl_ids d) -> walks d c'.
Proof. intros [] Hok (Hi & Hv & Hm & Hq & _) Hl. by split; try congruence. Qed.

Lemma contrib_bounds d i : plist_ok d -> (0 <= contrib d i <= pl_bound d)%Z.
Proof.
  intros [_ Hb Hw _]. unfold contrib. destruct (assoc (pl_posts d) i) eqn:Ha; [|lia]. by apply Hw, assoc_Some.
Qed.

Lemma contrib_none d i : i ∉ pl_ids d -> contrib d i = 0%Z.
Proof.
  intros Hi. unfold contrib. destruct (assoc (pl_posts d) i) as [v|] eqn:Ha; [|done].
  exfalso. apply Hi, list_elem_of_fmap. exists (i, v). split; [done|]. by apply assoc_Some.
Qed.

Lemma pl_ids_NoDup d : plist_ok d -> NoDup (pl_ids d).
Proof. intros [[Hs _] _ _ _]. by apply sorted_NoDup. Qed.

Lemma contrib_at d k i v : plist_ok d -> pl_posts d !! k = Some (i, v) -> contrib d i = weight d i v.
Proof. intros Hok Hk. unfold contrib. by rewrite (assoc_lookup _ k i v (pl_ids_NoDup d Hok) Hk). Qed.

Lemma contrib_pos d i : plist_ok d -> (0 < pl_bound d)%Z -> i ∈ pl_ids d -> (0 < contrib d i)%Z.
Proof.
  intros Hok Hb Hi. unfold pl_ids in Hi. apply list_elem_of_fmap in Hi as ([j v] & -> & Hin).
  apply list_elem_of_lookup in Hin as [k Hk]. simpl. rewrite (contrib_at d k j v Hok Hk).
  apply (po_pos d Hok Hb). by eapply list_elem_of_lookup_2.
Qed.

(** The current posting of a cursor is its document's contribution. *)
Lemma cursor_term_spec d c s : plist_ok d -> walks d c -> cur_vec_id c < n ->
  cursor_term computer c (len (cur_vec_id c)) s = Ret (s + contrib d (cur_vec_id c))%Z.
Proof.
  intros Hok [Hc Hi Hv Hm Hq _] Hlt. apply (cursor_lt n f filt I c Hc) in Hlt. rewrite Hi in Hlt.
  unfold pl_ids in Hlt. rewrite list_lookup_fmap in Hlt.
  destruct (pl_posts d !! loc c) as [[i v]|] eqn:Hk; [|done]. injection Hlt as Hcur.
  unfold cursor_term, cur_vec_val. rewrite Hv, (proj2 (vget_Ret _ _ v)) by (by rewrite list_lookup_fmap, Hk).
  cbn [bind]. rewrite Hq, <- Hcur, (contrib_at d (loc c) i v Hok Hk). done.
Qed.

(** ** Bounds on scores *)

Definition live cs (i : nat) : Z := zsum ((fun c => if cur_vec_id c <=? i then max_score c else 0%Z) <$> cs).

(** No cursor has passed document [i]. *)
Definition unskipped cs (i : nat) : Prop := Forall2 (fun d c => i ∈ pl_ids d -> cur_vec_id c <= i) D cs.

Lemma score_nonneg i : (0 <= score i)%Z.
Proof.
  apply zsum_nonneg. intros d Hd. apply contrib_bounds. by apply (proj1 (Forall_forall _ _) HD).
Qed.

Lemma score_le_live cs i : Forall2 walks D cs -> unskipped cs i -> (score i <= live cs i)%Z.
Proof.
  unfold score, live, unskipped. intros Hw. revert HD. induction Hw as [|d c D' cs' Hdc Hw IH]; intros Hok Hu; [done|].
  inversion_clear Hok as [|? ? Hd Hok']. inversion_clear Hu as [|? ? ? ? Hi Hu']. specialize (IH Hok' Hu').
  rewrite !fmap_cons. cbn [zsum foldr]. pose proof (contrib_bounds d i Hd). rewrite (wa_max d c Hdc).
  assert (contrib d i <= if (cur_vec_id c <=? i)%nat then pl_bound d else 0)%Z; [|unfold zsum in IH; lia].
  destruct (Nat.leb_spec (cur_vec_id c) i) as [|Hlt]; [lia|]. rewrite contrib_none; [lia|]. intros Hin%Hi. lia.
Qed.

Lemma live_insert cs j c c' i : cs !! j = Some c -> max_score c' = max_score c -> (0 <= max_score c)%Z ->
  cur_vec_id c <= cur_vec_id c' -> (live (<[j := c']> cs) i <= live cs i)%Z.
Proof.
  intros Hj Hm Hp Hc. apply lookup_lt_Some in Hj as Hl. unfold live.
  rewrite insert_take_drop by done. rewrite <- (take_drop_middle _ _ _ Hj) at 3.
  rewrite !fmap_app, !fmap_cons, !zsum_app. cbn [zsum foldr]. rewrite Hm.
  destruct (Nat.leb_spec (cur_vec_id c) i), (Nat.leb_spec (cur_vec_id c') i); lia.
Qed.

(** ** The result heap and its threshold *)

Definition hit (i : nat) : idval Z := IdVal.mk i (score i).

(** The documents a search is to rank. *)
Definition hits : list (idval Z) :=
  omap (fun i => if pass i && negb (score i =? 0)%Z then Some (hit i) else None) (seq 0 n).

Lemma elem_of_hits x : x ∈ hits <-> exists i, i < n /\ pass i = true /\ score i <> 0%Z /\ x = hit i.
Proof.
  unfold hits. rewrite list_elem_of_omap. split.
  - intros (i & Hi%elem_of_seq & Hx). destruct (pass i) eqn:Hp; [|done].
    destruct (Z.eqb_spec (score i) 0) as [|Hne]; [done|]. simpl in Hx. injection Hx as <-.
    exists i. split_and!; [lia|done..].
  - intros (i & Hi & Hp & Hs & ->). exists i. split; [apply elem_of_seq; lia|].
    by rewrite Hp, (proj2 (Z.eqb_neq _ _)).
Qed.

(** The heap after the documents [P] were pushed; [t] is its threshold. *)
Record result_inv (cap : nat) h P (t : Z) : Prop := {
  ri_inv : MaxMinHeap.inv h;
  ri_cap : MaxMinHeap.capacity h = cap;
  ri_top : MaxMinHeap.top_of cap P (MaxMinHeap.contents h);
  ri_thr : heap_threshold h = Ret t;
  ri_nodup : NoDup (IdVal.id <$> P);
  ri_hits : Forall (fun x => x ∈ hits) P
}.

Lemma hit_pos x : x ∈ hits -> (0 < ival x)%Z.
Proof. intros (i & _ & _ & Hs & ->)%elem_of_hits. simpl. pose proof (score_nonneg i). lia. Qed.

Lemma contents_hits cap P K : MaxMinHeap.top_of cap P K -> Forall (fun x => x ∈ hits) P -> Forall (fun x => x ∈ hits) K.
Proof. intros (R & HP & _) HF. rewrite HP in HF. by apply Forall_app in HF as [? _]. Qed.

Lemma le_Z (x y : idval Z) : MaxMinHeap.le x y <-> (ival x <= ival y)%Z.
Proof. unfold MaxMinHeap.le, nle. simpl. rewrite Z.ltb_ge. tauto. Qed.

(** The threshold of a heap with positive values. *)
Lemma threshold_spec h : MaxMinHeap.inv h -> 0 < MaxMinHeap.capacity h ->
  Forall (fun x => x ∈ hits) (MaxMinHeap.contents h) ->
  exists t, heap_threshold h = Ret t /\ (0 <= t)%Z /\
    (MaxMinHeap.size h < MaxMinHeap.capacity h -> t = 0%Z) /\
    (MaxMinHeap.size h = MaxMinHeap.capacity h -> (exists x, x ∈ MaxMinHeap.contents h /\ ival x = t) /\
       Forall (fun x => (t <= ival x)%Z) (MaxMinHeap.contents h)).
Proof.
  intros Hinv Hcap Hpos. unfold heap_threshold, MaxMinHeap.full. pose proof (MaxMinHeap.inv_size h Hinv).
  destruct (Nat.eqb_spec (MaxMinHeap.size h) (MaxMinHeap.capacity h)) as [Heq|Hne].
  - destruct (wp_elim _ _ (MaxMinHeap.top_spec h Hinv ltac:(lia))) as (x & Hx & Hc & Hmin).
    apply list_elem_of_lookup_2 in Hc. exists (ival x). rewrite Hx. cbn [bind]. split_and!; [done| |lia|].
    + apply (proj1 (Forall_forall _ _) Hpos) in Hc. apply hit_pos in Hc. lia.
    + intros _. split; [by exists x|]. eapply Forall_impl; [exact Hmin|]. intros y. by rewrite le_Z.
  - exists 0%Z. split_and!; [done..|lia].
Qed.

Lemma result_make cap : result_inv cap (MaxMinHeap.make cap) [] 0%Z \/ cap = 0.
Proof.
  destruct cap as [|cap]; [by right|]. left. split; try done; [apply MaxMinHeap.make_inv|apply MaxMinHeap.top_of_nil|constructor].
Qed.

Lemma result_threshold_nonneg cap h P t : 0 < cap -> result_inv cap h P t -> (0 <= t)%Z.
Proof.
  intros Hcap [Hinv Hc Htop Ht _ Hh].
  destruct (threshold_spec h Hinv ltac:(lia) (contents_hits _ _ _ Htop Hh)) as (t' & Ht' & ? & _). congruence.
Qed.

(** Pushing one more document raises the threshold. *)
Lemma result_push cap h P t i : 0 < cap -> result_inv cap h P t -> i < n -> pass i = true -> score i <> 0%Z ->
  i ∉ (IdVal.id <$> P) ->
  wp (MaxMinHeap.push h i (score i)) (fun h' => exists t', result_inv cap h' (P ++ [hit i]) t' /\ (t <= t')%Z).
Proof.
  intros Hcap [Hinv Hc Htop Ht Hnd Hh] Hi Hp Hs HiP. pose proof (contents_hits _ _ _ Htop Hh) as Hch.
  assert (Forall MaxMinHeap.ok P) as Hok by (by apply Forall_true).
  destruct (wp_elim _ _ (MaxMinHeap.push_spec h i (score i) Hinv ltac:(lia) Logic.I)) as (h' & Hpush & _ & _ & Hroom & Hfull).
  rewrite <- Hc in Htop, Hcap |- *.
  destruct (wp_elim _ _ (MaxMinHeap.push_top_of h P i (score i) Hinv Hcap Logic.I Hok Htop)) as (h2 & Hpush2 & Hinv' & Hc' & Htop').
  assert (h2 = h') as -> by congruence. apply (wp_intro _ _ _ Hpush).
  assert (Forall (fun x => x ∈ hits) (P ++ [hit i])) as Hh'.
  { apply Forall_app. split; [done|]. constructor; [|done]. apply elem_of_hits. by exists i. }
  pose proof (contents_hits _ _ _ Htop' Hh') as Hch'.
  destruct (threshold_spec h Hinv Hcap Hch) as (t0 & Ht0 & Hpos & Hroom0 & Hfull0). assert (t0 = t) as -> by congruence.
  destruct (threshold_spec h' Hinv' ltac:(lia) Hch') as (t' & Ht' & Hpos' & Hroom' & Hfull').
  exists t'. split.
  - split; try done. rewrite fmap_app. apply NoDup_app. split_and!; [done| |apply NoDup_singleton].
    intros y Hy ->%list_elem_of_singleton. done.
  - pose proof (MaxMinHeap.inv_size h Hinv). destruct (decide (MaxMinHeap.size h < MaxMinHeap.capacity h)) as [Hlt|Hge].
    { rewrite Hroom0 by done. done. }
    destruct (Hfull ltac:(lia)) as (y & rest & Hperm & Hmin & Hcase). destruct (Hfull0 ltac:(lia)) as [(x & Hx & Hxt) Hall].
    destruct Hcase as [[Hlt Hnew]|[_ ->]]; [|assert (t' = t) by congruence; lia].
    pose proof (MaxMinHeap.length_contents h Hinv) as Hl. pose proof (MaxMinHeap.length_contents h' Hinv') as Hl'.
    rewrite Hperm in Hl. rewrite Hnew in Hl'. simpl in Hl, Hl'.
    destruct (Hfull' ltac:(lia)) as [(x' & Hx' & <-) _]. rewrite Hnew in Hx'.
    rewrite Hperm in Hall. inversion_clear Hall as [|? ? Hy Hrest]. apply elem_of_cons in Hx' as [->|Hx'].
    + simpl. simpl in Hlt. apply Z.ltb_lt in Hlt. unfold ival in *. lia.
    + by apply (proj1 (Forall_forall _ _) Hrest) in Hx'.
Qed.

(** When every other document scores at most the threshold, the heap is the result. *)
Lemma result_finish cap h P t : 0 < cap -> result_inv cap h P t ->
  (forall i, i < n -> pass i = true -> i ∉ (IdVal.id <$> P) -> (score i <= t)%Z) ->
  MaxMinHeap.top_of cap hits (MaxMinHeap.contents h).
Proof.
  intros Hcap [Hinv Hc Htop Ht Hnd Hh] Hrest. pose proof (contents_hits _ _ _ Htop Hh) as Hch.
  destruct (threshold_spec h Hinv ltac:(lia) Hch) as (t0 & Ht0 & Hpos & Hroom & Hfull). assert (t0 = t) as -> by congruence.
  assert (P ⊆+ hits) as HP.
  { apply NoDup_submseteq; [by eapply NoDup_fmap_1|]. intros x Hx. by apply (proj1 (Forall_forall _ _) Hh). }
  apply submseteq_Permutation in HP as [R HR].
  assert (NoDup (IdVal.id <$> hits)) as Hndh.
  { unfold hits. generalize 0 as a. generalize n as m. intros m. induction m as [|m IH]; intros a; [constructor|].
    cbn [seq omap list_omap]. destruct (pass a && _); [|apply IH]. rewrite fmap_cons. constructor; [|apply IH].
    simpl. intros Hin. apply list_elem_of_fmap in Hin as (x & Hax & Hx). apply list_elem_of_omap in Hx as (j & Hj%elem_of_seq & Hx).
    destruct (pass j && _); [|done]. injection Hx as <-. simpl in Hax. lia. }
  assert (forall x, x ∈ R -> (ival x <= t)%Z) as HRt.
  { intros x Hx. assert (x ∈ hits) as Hxh by (rewrite HR; apply elem_of_app; by right).
    apply elem_of_hits in Hxh as (i & Hi & Hp & Hs & ->). simpl. apply Hrest; [done..|]. intros HiP.
    rewrite HR, fmap_app in Hndh. apply NoDup_app in Hndh as (_ & Hdis & _). apply (Hdis i HiP).
    apply list_elem_of_fmap. by exists (hit i). }
  pose proof (MaxMinHeap.inv_size h Hinv). pose proof (MaxMinHeap.length_contents h Hinv).
  destruct Htop as (R0 & HP0 & Hlen & Hcase & Hle). exists (R0 ++ R).
  split_and!; [by rewrite HR, HP0, app_assoc|done| |].
  - destruct (decide (MaxMinHeap.size h < MaxMinHeap.capacity h)) as [Hlt|]; [|right; lia].
    left. destruct Hcase as [->|]; [|lia]. destruct R as [|x R]; [done|exfalso].
    assert (x ∈ hits) as Hx by (rewrite HR, elem_of_app; right; apply elem_of_cons; by left).
    apply hit_pos in Hx. specialize (HRt x ltac:(apply elem_of_cons; by left)). rewrite Hroom in HRt by done. lia.
  - intros k e Hk He. apply elem_of_app in He as [He|He]; [by apply Hle|]. apply le_Z.
    destruct (decide (MaxMinHeap.size h < MaxMinHeap.capacity h)) as [Hlt|].
    + rewrite Hroom in HRt by done. specialize (HRt e He). apply (proj1 (Forall_forall _ _) Hch), hit_pos in Hk. lia.
    + destruct (Hfull ltac:(lia)) as [_ Hall]. apply (proj1 (Forall_forall _ _) Hall) in Hk. specialize (HRt e He). lia.
Qed.

End daat.
