(* ===== verification/SparseWand.v ===== *)
(** * WAND is exact

    Invariant of the WAND loop: a document that some cursor has passed is in the
    heap's history, or its score and the bounds of the cursors still at or
    before it are at most the threshold.  Hence the pruned search ranks the same
    documents as the exhaustive one. *)

From S2P Require Import Prelude Float Num StdHeap SparseUtils Bitset Expected SparseIndex SparseIndexSpec SparseSearch SparseProps SparseDaat.

(** ** Progress and bounds of moving cursors *)

Lemma terms_sum_cons x l : sum_list (x :: l) = x + sum_list l.
Proof. done. Qed.

Lemma Forall2_insert_right {B C} (R : B -> C -> Prop) l k i x y :
  Forall2 R l k -> l !! i = Some x -> R x y -> Forall2 R l (<[i := y]> k).
Proof. intros H Hi Hxy. rewrite <- (list_insert_id l i x Hi). by apply Forall2_insert. Qed.

Lemma Forall2_at {B C} (R : B -> C -> Prop) l k j x y : Forall2 R l k -> l !! j = Some x -> k !! j = Some y -> R x y.
Proof. intros H Hx Hy. by apply (proj1 (Forall2_same_length_lookup _ _ _) H) with j. Qed.

Section moved.
Context {Q F : Type}.
Implicit Types c : Cursor Z Q F.
Implicit Types cs : list (Cursor Z Q F).

Definition moved c c' : Prop := advanced c c' /\ cur_vec_id c <= cur_vec_id c'.

Lemma moved_refl c : moved c c.
Proof. unfold moved, advanced. split_and!; done. Qed.

Lemma live_moved cs cs' i : Forall (fun c => 0 <= max_score c)%Z cs -> Forall2 moved cs cs' -> (live cs' i <= live cs i)%Z.
Proof.
  intros Hp Hm. unfold live. induction Hm as [|c c' cs cs' [(_ & _ & Hms & _) Hc] Hm IH]; [done|].
  inversion_clear Hp as [|? ? Hc0 Hp']. specialize (IH Hp'). rewrite !fmap_cons. unfold zsum in *. cbn [foldr]. rewrite Hms.
  destruct (Nat.leb_spec (cur_vec_id c) i), (Nat.leb_spec (cur_vec_id c') i); lia.
Qed.

Lemma postings_left_moved cs cs' : Forall2 moved cs cs' -> postings_left cs' <= postings_left cs.
Proof.
  unfold postings_left. induction 1 as [|c c' cs cs' [(Hi & _ & _ & _ & Hl) _] Hm IH]; [done|].
  rewrite !fmap_cons, !terms_sum_cons, Hi. lia.
Qed.

(** A cursor that moved used up a posting. *)
Lemma postings_left_lt cs cs' j c c' : Forall2 moved cs cs' -> cs !! j = Some c -> cs' !! j = Some c' ->
  loc c < loc c' <= length (plist_ids c) -> postings_left cs' < postings_left cs.
Proof.
  intros Hm. revert j. induction Hm as [|a a' cs cs' [(Hi & _ & _ & _ & Hl) _] Hm IH]; intros j Hj Hj' Hlt; [done|].
  pose proof (postings_left_moved _ _ Hm) as Hle. unfold postings_left in *. rewrite !fmap_cons, !terms_sum_cons.
  destruct j as [|j]; simpl in Hj, Hj'.
  - injection Hj as ->. injection Hj' as ->. rewrite Hi. lia.
  - specialize (IH j Hj Hj' Hlt). rewrite Hi. lia.
Qed.

(** ** Pointers *)

Definition key cs (p : nat) : nat := default 0 (cur_vec_id <$> cs !! p).
Definition bnd cs (p : nat) : Z := default 0%Z (max_score <$> cs !! p).
Definition ptrs_sorted cs (ptrs : list nat) : Prop := StronglySorted (fun p q => key cs p <= key cs q) ptrs.

Lemma seq_fmap {B} (l : list B) (g : nat -> B) : (forall j x, l !! j = Some x -> g j = x) -> g <$> seq 0 (length l) = l.
Proof.
  intros H. apply list_eq. intros j. rewrite list_lookup_fmap. destruct (decide (j < length l)) as [Hl|Hl].
  - rewrite lookup_seq_lt by done. destruct (lookup_lt_is_Some_2 l j Hl) as [x Hx]. simpl. by rewrite Hx, (H j x).
  - rewrite !lookup_ge_None_2; [done|lia|rewrite length_seq; lia].
Qed.

Lemma live_ptrs cs ptrs i : ptrs ≡ₚ seq 0 (length cs) ->
  live cs i = zsum ((fun p => if key cs p <=? i then bnd cs p else 0%Z) <$> ptrs).
Proof.
  intros Hp. rewrite Hp. unfold live. f_equal. symmetry.
  rewrite <- (length_fmap (fun c => if cur_vec_id c <=? i then max_score c else 0%Z) cs).
  apply seq_fmap. intros j x Hx. rewrite list_lookup_fmap in Hx. unfold key, bnd.
  destruct (cs !! j); [|done]. by injection Hx as <-.
Qed.

Context (cs : list (Cursor Z Q F)) (ptrs : list nat).
Hypothesis Hptrs : ptrs ≡ₚ seq 0 (length cs).
Hypothesis Hsort : ptrs_sorted cs ptrs.
Hypothesis Hpos : Forall (fun c => 0 <= max_score c)%Z cs.

Lemma ptr_valid p : p ∈ ptrs -> exists c, cs !! p = Some c.
Proof. rewrite Hptrs. intros Hp%elem_of_seq. apply lookup_lt_is_Some_2. lia. Qed.

Lemma bnd_nonneg p : (0 <= bnd cs p)%Z.
Proof. unfold bnd. destruct (cs !! p) eqn:Hc; [|done]. by apply (Forall_lookup_1 _ _ _ _ Hpos Hc). Qed.

Lemma split_sorted k p : ptrs !! k = Some p ->
  ptrs = take k ptrs ++ p :: drop (S k) ptrs /\
  (forall q, q ∈ take k ptrs -> key cs q <= key cs p) /\ (forall q, q ∈ drop (S k) ptrs -> key cs p <= key cs q).
Proof.
  intros Hk. assert (ptrs = take k ptrs ++ p :: drop (S k) ptrs) as Hsp by (by rewrite take_drop_middle).
  split; [done|]. unfold ptrs_sorted in Hsort. rewrite Hsp in Hsort. apply StronglySorted_app in Hsort as (Hlt & _ & Hs).
  apply StronglySorted_inv in Hs as [_ Hs]. split.
  - intros q Hq. apply Hlt; [done|]. apply elem_of_cons. by left.
  - by apply (proj1 (Forall_forall _ _) Hs).
Qed.

(** Documents before the [k]-th pointer are bounded by the pointers before it. *)
Lemma live_before k i : (forall p, ptrs !! k = Some p -> i < key cs p) -> (live cs i <= zsum (bnd cs <$> take k ptrs))%Z.
Proof.
  intros Hk. rewrite (live_ptrs cs ptrs i Hptrs). rewrite <- (take_drop k ptrs) at 1. rewrite fmap_app, zsum_app.
  rewrite (zsum_zero _ (drop k ptrs)).
  - rewrite Z.add_0_r. apply zsum_le. intros p _. pose proof (bnd_nonneg p). destruct (key cs p <=? i); lia.
  - intros q Hq. destruct (ptrs !! k) as [p|] eqn:Hp.
    + destruct (split_sorted k p Hp) as (_ & _ & Hge). specialize (Hk p eq_refl).
      rewrite (drop_S _ _ _ Hp) in Hq. apply elem_of_cons in Hq as [->|Hq].
      * by rewrite (proj2 (Nat.leb_gt _ _)).
      * specialize (Hge q Hq). rewrite (proj2 (Nat.leb_gt _ _)); [done|lia].
    + rewrite drop_ge in Hq by (by apply lookup_ge_None). by apply elem_of_nil in Hq.
Qed.

(** The pointers up to the [k]-th all count for its document. *)
Lemma live_after k p : ptrs !! k = Some p -> (zsum (bnd cs <$> take (S k) ptrs) <= live cs (key cs p))%Z.
Proof.
  intros Hk. rewrite (live_ptrs cs ptrs _ Hptrs). rewrite <- (take_drop (S k) ptrs) at 2. rewrite fmap_app, zsum_app.
  assert (0 <= zsum ((fun q => if (key cs q <=? key cs p)%nat then bnd cs q else 0%Z) <$> drop (S k) ptrs))%Z.
  { apply zsum_nonneg. intros q _. pose proof (bnd_nonneg q). destruct (key cs q <=? key cs p); lia. }
  assert (zsum (bnd cs <$> take (S k) ptrs) <=
    zsum ((fun q => if (key cs q <=? key cs p)%nat then bnd cs q else 0%Z) <$> take (S k) ptrs))%Z; [|lia].
  apply zsum_le. intros q Hq. destruct (split_sorted k p Hk) as (_ & Hle & _).
  rewrite (take_S_r _ _ _ Hk), elem_of_app, list_elem_of_singleton in Hq.
  rewrite (proj2 (Nat.leb_le _ _)); [lia|]. destruct Hq as [Hq| ->]; [by apply Hle|lia].
Qed.

(** ** The pivot *)

Lemma find_pivot_spec n l pv t ub : (forall p, p ∈ l -> exists c, cs !! p = Some c) -> (ub <= t)%Z ->
  wp (find_pivot n cs l pv t ub) (fun r => match r with
    | Some m => exists k p, m = pv + k /\ l !! k = Some p /\ key cs p < n /\
        (ub + zsum (bnd cs <$> take k l) <= t)%Z /\ (t < ub + zsum (bnd cs <$> take (S k) l))%Z
    | None => exists k, (ub + zsum (bnd cs <$> take k l) <= t)%Z /\ forall p, l !! k = Some p -> n <= key cs p
    end).
Proof.
  revert pv ub. induction l as [|p l IH]; intros pv ub Hl Hub; cbn [find_pivot].
  { exists 0. simpl. split; [lia|done]. }
  destruct (Hl p ltac:(apply elem_of_cons; by left)) as [c Hc].
  assert (key cs p = cur_vec_id c /\ bnd cs p = max_score c) as [Hkey Hbnd] by (unfold key, bnd; by rewrite Hc).
  rewrite (proj2 (vget_Ret _ _ _) Hc). cbn [bind].
  destruct (Nat.leb_spec n (cur_vec_id c)) as [Hge|Hlt].
  { exists 0. simpl. split; [lia|]. intros q [= <-]. lia. }
  cbn [nltb nadd Z_num]. rewrite <- Hbnd. destruct (Z.ltb_spec t (ub + bnd cs p)) as [Ht|Ht].
  - exists 0, p. simpl. split_and!; [lia|done|lia|lia|lia].
  - eapply wp_mono; [apply IH; [|done]|].
    + intros q Hq. apply Hl, elem_of_cons. by right.
    + intros [m|].
      * intros (k & q & -> & Hk & Hn & H1 & H2). exists (S k), q. rewrite !firstn_cons, !fmap_cons.
        unfold zsum in *. cbn [foldr lookup list_lookup]. split_and!; [lia|done|done|lia|lia].
      * intros (k & H1 & H2). exists (S k). rewrite firstn_cons, fmap_cons. unfold zsum in *. cbn [foldr]. split; [lia|done].
Qed.

(** [last_before] steps back over the pivot's document. *)
Lemma last_before_spec d k : (exists p, ptrs !! k = Some p /\ key cs p = d) ->
  (exists p, ptrs !! 0 = Some p /\ key cs p < d) ->
  wp (last_before cs ptrs d k) (fun m => exists p, ptrs !! m = Some p /\ key cs p < d).
Proof.
  intros (p & Hp & Hpd) (p0 & Hp0 & Hlt0).
  assert (key cs p <= d) as Hle by lia. clear Hpd. revert p Hp Hle.
  induction k as [|k IH]; intros p Hp Hle; cbn [last_before]; rewrite (proj2 (vget_Ret _ _ _) Hp); cbn [bind];
    destruct (ptr_valid p ltac:(by eapply list_elem_of_lookup_2)) as [c Hc];
    assert (key cs p = cur_vec_id c) as Hkey by (unfold key; by rewrite Hc);
    unfold cur_of; rewrite (proj2 (vget_Ret _ _ _) Hc); cbn [bind].
  - rewrite Hp0 in Hp. injection Hp as <-. rewrite (proj2 (Nat.eqb_neq _ _)) by lia. by exists p0.
  - destruct (Nat.eqb_spec (cur_vec_id c) d) as [Heq|Hne]; [|exists p; split; [done|lia]].
    apply lookup_lt_Some in Hp as Hl. destruct (lookup_lt_is_Some_2 ptrs k) as [q Hq]; [lia|].
    apply (IH q Hq). destruct (split_sorted (S k) p Hp) as (_ & Hbefore & _). rewrite <- Hle. apply Hbefore.
    apply list_elem_of_lookup. exists k. rewrite lookup_take_lt by lia. done.
Qed.

(** [bubble] carries the moved pointer to its place. *)
Lemma bubble_spec fuel pre x post : length post <= fuel ->
  (forall p, p ∈ pre ++ x :: post -> exists c, cs !! p = Some c) ->
  ptrs_sorted cs (pre ++ post) -> (forall p, p ∈ pre -> key cs p <= key cs x) ->
  wp (bubble fuel cs (pre ++ x :: post) (length pre + 1)) (fun l => l ≡ₚ pre ++ x :: post /\ ptrs_sorted cs l).
Proof.
  revert pre post. induction fuel as [|fuel IH]; intros pre post Hf Hv Hs Hx.
  - destruct post; [|simpl in Hf; lia]. simpl. split; [done|]. rewrite app_nil_r in Hs.
    apply StronglySorted_app. split_and!; [|done|by repeat constructor]. intros p q Hp ->%list_elem_of_singleton. by apply Hx.
  - cbn [bubble]. rewrite length_app. cbn [length]. destruct post as [|y post].
    { rewrite (proj2 (Nat.ltb_ge _ _)) by (simpl; lia). simpl. split; [done|]. rewrite app_nil_r in Hs.
      apply StronglySorted_app. split_and!; [|done|by repeat constructor]. intros p q Hp ->%list_elem_of_singleton. by apply Hx. }
    rewrite (proj2 (Nat.ltb_lt _ _)) by (simpl; lia).
    rewrite (proj2 (vget_Ret _ _ y)) by (rewrite lookup_app_r by lia; by replace (length pre + 1 - length pre) with 1 by lia).
    cbn [bind]. rewrite (proj2 (vget_Ret _ _ x)) by (rewrite lookup_app_r by lia; by replace (length pre + 1 - 1 - length pre) with 0 by lia).
    cbn [bind]. unfold cur_of.
    destruct (Hv x) as [cx Hcx]; [apply elem_of_app; right; apply elem_of_cons; by left|].
    destruct (Hv y) as [cy Hcy]; [apply elem_of_app; right; apply elem_of_cons; right; apply elem_of_cons; by left|].
    assert (key cs x = cur_vec_id cx /\ key cs y = cur_vec_id cy) as [Hkx Hky] by (unfold key; by rewrite Hcx, Hcy).
    rewrite (proj2 (vget_Ret _ _ _) Hcy). cbn [bind]. rewrite (proj2 (vget_Ret _ _ _) Hcx). cbn [bind].
    unfold ptrs_sorted in Hs. pose proof Hs as Hs'. apply StronglySorted_app in Hs' as (Hpy & Hspre & Hsy).
    apply StronglySorted_inv in Hsy as [Hspost Hy].
    destruct (Nat.leb_spec (cur_vec_id cx) (cur_vec_id cy)) as [Hle|Hgt].
    + simpl. split; [done|]. apply StronglySorted_app. split_and!; [|done|].
      * intros p q Hp Hq. apply elem_of_cons in Hq as [->|Hq]; [by apply Hx|by apply Hpy].
      * constructor; [by constructor|]. constructor; [lia|]. eapply Forall_impl; [exact Hy|]. simpl. intros q Hq. lia.
    + apply wp_bind, wp_vset; [rewrite length_app; simpl; lia|]. apply wp_bind, wp_vset; [rewrite length_insert, length_app; simpl; lia|].
      replace (length pre + 1 - 1) with (length pre) by lia.
      assert (<[length pre := y]> (<[length pre + 1 := x]> (pre ++ x :: y :: post)) = (pre ++ [y]) ++ x :: post) as ->.
      { rewrite insert_app_r, <- (Nat.add_0_r (length pre)) at 1. rewrite insert_app_r. simpl. by rewrite <- app_assoc. }
      replace (length pre + 1 + 1) with (length (pre ++ [y]) + 1) by (rewrite length_app; simpl; lia).
      eapply wp_mono; [apply IH|].
      * simpl in Hf. lia.
      * intros p Hp. apply Hv. rewrite <- app_assoc in Hp. simpl in Hp.
        rewrite elem_of_app, !elem_of_cons in Hp |- *. naive_solver.
      * by rewrite <- app_assoc.
      * intros p Hp. apply elem_of_app in Hp as [Hp|Hp]; [by apply Hx|]. apply list_elem_of_singleton in Hp as ->. lia.
      * intros l [Hl Hsl]. split; [|done]. rewrite Hl, <- app_assoc. simpl. apply Permutation_app_head. constructor.
Qed.

End moved.

(** ** Rounds *)

Section wand.
Context {Q F : Type} `{!Quant Z Q, !DocIdFilter F, !StdSort}.
Context (n : nat) (f : F) (filt : nat -> bool) (I : nat -> F -> Prop).
Hypothesis I_empty : forall i g, I i g -> f_empty g = f_empty f.
Hypothesis I_test : forall i j g, I i g -> i <= j < n -> wp (f_test g j) (fun '(g', r) => I j g' /\ r = filt j).
Context (computer : DocValueComputer Z) (len : nat -> Z) (D : list (plist Q)).
Hypothesis HD : Forall (plist_ok n computer len) D.
Context (ix : InvertedIndex Z Q).
Hypothesis ix_rows : n_rows_internal ix = n.
Hypothesis ix_len : forall i, i < n -> doc_len ix i = Ret (len i).
Context (cap : nat).
Hypothesis Hcap : 0 < cap.

Abbreviation pass := (passes f filt).
Abbreviation walks := (walks n f filt I).
Abbreviation score := (score computer len D).
Abbreviation contrib := (contrib computer len).
Implicit Types c : Cursor Z Q F.
Implicit Types cs : list (Cursor Z Q F).
Implicit Types d : plist Q.

Lemma walks_pos cs : Forall2 walks D cs -> Forall (fun c => 0 <= max_score c)%Z cs.
Proof.
  intros Hw. revert HD. induction Hw as [|d c D' cs' Hdc Hw IH]; intros Hok; [constructor|].
  inversion_clear Hok as [|? ? Hd Hok']. constructor; [|by apply IH]. rewrite (wa_max _ _ _ _ _ _ Hdc). apply Hd.
Qed.

(** What scoring document [i] does to one cursor. *)
Definition scored (i : nat) c c' : Prop :=
  (cur_vec_id c = i /\ moved c c' /\ loc c < loc c' <= length (plist_ids c) /\ i < cur_vec_id c' /\
     forall x, x ∈ plist_ids c -> pass x = true -> i < x -> cur_vec_id c' <= x) \/
  (cur_vec_id c <> i /\ c' = c).

Definition con (i p : nat) : Z := default 0%Z ((fun d => contrib d i) <$> D !! p).

Lemma score_pivot_spec i cs ptrs s : i < n -> Forall2 walks D cs -> NoDup ptrs ->
  (forall p, p ∈ ptrs -> exists c, cs !! p = Some c) -> ptrs_sorted cs ptrs ->
  (forall p, p ∈ ptrs -> i <= key cs p) ->
  wp (score_pivot computer i (len i) ptrs cs s) (fun '(cs', s') => Forall2 walks D cs' /\
    s' = (s + zsum ((fun p => if (key cs p =? i)%nat then con i p else 0) <$> ptrs))%Z /\
    forall p c, cs !! p = Some c -> exists c', cs' !! p = Some c' /\ (p ∈ ptrs -> scored i c c') /\ (p ∉ ptrs -> c' = c)).
Proof.
  intros Hi. revert cs s. induction ptrs as [|p ptrs IH]; intros cs s Hw Hnd Hv Hs Hge; cbn [score_pivot].
  { simpl. split_and!; [done|lia|]. intros p c Hp. exists c. split_and!; [done| |done]. by intros ?%elem_of_nil. }
  inversion_clear Hnd as [|? ? Hp Hnd']. apply StronglySorted_inv in Hs as [Hs' Hps].
  destruct (Hv p ltac:(apply elem_of_cons; by left)) as [c Hc]. rewrite (proj2 (vget_Ret _ _ _) Hc). cbn [bind].
  assert (key cs p = cur_vec_id c) as Hkey by (unfold key; by rewrite Hc).
  assert (forall q, q ∈ ptrs -> exists c, cs !! q = Some c) as Hv' by (intros q Hq; apply Hv, elem_of_cons; by right).
  destruct (Nat.eqb_spec (cur_vec_id c) i) as [Heq|Hne].
  - destruct (Forall2_lookup_r _ _ _ _ _ Hw Hc) as (d & Hd & Hdc).
    pose proof (Forall_lookup_1 _ _ _ _ HD Hd) as Hdok.
    rewrite <- Heq at 1. rewrite (cursor_term_spec n f filt I computer len d c s Hdok Hdc) by lia. cbn [bind].
    apply wp_bind. eapply wp_mono; [apply (next_spec n f filt I I_empty I_test c); [apply Hdc|lia]|].
    intros c' (Hok' & Hadv & Hloc & Hcur & Hx). rewrite (wa_ids _ _ _ _ _ _ Hdc) in Hloc.
    apply wp_bind, wp_vset; [by eapply lookup_lt_Some|].
    assert (forall q, q ∈ ptrs -> key (<[p := c']> cs) q = key cs q) as Hkeys.
    { intros q Hq. unfold key. rewrite list_lookup_insert_ne; [done|]. by intros ->. }
    eapply wp_mono; [apply IH|].
    + eapply Forall2_insert_right; [done|exact Hd|]. apply (walks_advanced _ _ _ _ _ _ _ Hdc Hok' Hadv). lia.
    + done.
    + intros q Hq. rewrite list_lookup_insert_ne by (by intros ->). by apply Hv'.
    + eapply sorted_mono; [|exact Hs']. intros x y Hx1 Hy1. by rewrite !Hkeys.
    + intros q Hq. rewrite Hkeys by done. apply Hge, elem_of_cons. by right.
    + intros [cs' s'] (Hw' & -> & Hsc). split_and!; [done| |].
      * rewrite fmap_cons. unfold zsum at 2. cbn [foldr]. fold (zsum ((fun q => if (key cs q =? i)%nat then con i q else 0%Z) <$> ptrs)).
        rewrite Hkey, Heq, Nat.eqb_refl. unfold con at 2. rewrite Hd. cbn [fmap option_fmap option_map default].
        rewrite <- Z.add_assoc. do 2 f_equal. f_equal. apply list_fmap_ext. intros k q Hq.
        rewrite Hkeys; [done|]. by eapply list_elem_of_lookup_2.
      * intros q cq Hq. destruct (decide (q = p)) as [->|Hqp].
        -- rewrite Hc in Hq. injection Hq as <-. destruct (Hsc p c') as (c2 & Hc2 & _ & Hsame).
           { apply list_lookup_insert_eq. by eapply lookup_lt_Some. }
           specialize (Hsame Hp) as ->. exists c'. split_and!; [done| |intros Hn; exfalso; apply Hn, elem_of_cons; by left].
           intros _. left. rewrite (wa_ids _ _ _ _ _ _ Hdc). split_and!; [done|split; [done|lia]|lia|lia|lia|].
           rewrite <- (wa_ids _ _ _ _ _ _ Hdc). intros x Hx1 Hx2 Hx3. apply Hx; [done..|lia].
        -- destruct (Hsc q cq) as (c2 & Hc2 & Hin & Hout); [by rewrite list_lookup_insert_ne|]. exists c2.
           split_and!; [done| |]; rewrite elem_of_cons; [intros [|]; [done|by apply Hin]|intros Hn; apply Hout; tauto].
  - assert (i < key cs p) as Hlt by (specialize (Hge p ltac:(apply elem_of_cons; by left)); lia).
    assert (forall q, q ∈ p :: ptrs -> i < key cs q) as Hall.
    { intros q Hq. apply elem_of_cons in Hq as [->|Hq]; [done|].
      apply (proj1 (Forall_forall _ _) Hps) in Hq. simpl in Hq. lia. }
    cbn [wp]. split_and!; [done| |].
    + rewrite zsum_zero; [lia|]. intros q Hq%Hall. rewrite (proj2 (Nat.eqb_neq _ _)); [done|lia].
    + intros q cq Hq. exists cq. split_and!; [done| |done]. intros Hin%Hall. right. unfold key in Hin. rewrite Hq in Hin.
      simpl in Hin. split; [lia|done].
Qed.

(** The invariant. *)
Record wand_inv cs ptrs (h : MaxMinHeap.t Z) P (t : Z) : Prop := {
  wi_walks : Forall2 walks D cs;
  wi_ptrs : ptrs ≡ₚ seq 0 (length cs);
  wi_sorted : ptrs_sorted cs ptrs;
  wi_heap : result_inv n f filt computer len D cap h P t;
  wi_pushed : forall i, i ∈ (IdVal.id <$> P) -> Forall2 (fun d c => i ∈ pl_ids d -> i < cur_vec_id c) D cs;
  wi_rest : forall i, i < n -> pass i = true -> i ∉ (IdVal.id <$> P) ->
    unskipped D cs i \/ (live cs i <= t /\ score i <= t)%Z
}.

Lemma sort_cursors_spec cs ptrs : sort_cursors cs ptrs ≡ₚ ptrs /\ ptrs_sorted cs (sort_cursors cs ptrs).
Proof.
  unfold sort_cursors. fold (key cs). split; [apply std_sort_perm|].
  eapply sorted_mono; [|apply std_sort_sorted; split].
  - intros x y _ _ Hxy. simpl in Hxy. apply Nat.ltb_ge in Hxy. done.
  - intros x y _ _. rewrite Nat.ltb_lt, Nat.ltb_ge. lia.
  - intros x y z _ _ _. rewrite !Nat.ltb_ge. lia.
Qed.

Abbreviation hits := (hits n f filt computer len D).

(** No pivot: nothing can enter the heap any more. *)
Lemma wand_stop cs ptrs h P t k : wand_inv cs ptrs h P t -> (zsum (bnd cs <$> take k ptrs) <= t)%Z ->
  (forall p, ptrs !! k = Some p -> n <= key cs p) -> MaxMinHeap.top_of cap hits (MaxMinHeap.contents h).
Proof.
  intros [Hw Hp Hs Hh _ Hrest] Hsum Hk. apply (result_finish n f filt computer len D HD cap h P t Hcap Hh).
  intros i Hi Hpass HiP. destruct (Hrest i Hi Hpass HiP) as [Hu|[_ ?]]; [|done].
  pose proof (score_le_live n f filt I computer len D HD cs i Hw Hu).
  pose proof (live_before cs ptrs Hp Hs (walks_pos cs Hw) k i ltac:(intros p Hpk%Hk; lia)). lia.
Qed.

Lemma con_total (g : nat -> Z) i ptrs : ptrs ≡ₚ seq 0 (length D) -> (forall p, p ∈ ptrs -> g p = con i p) ->
  zsum (g <$> ptrs) = score i.
Proof.
  intros Hp Hg. unfold SparseDaat.score. rewrite <- (seq_fmap ((fun d => contrib d i) <$> D) (con i)).
  - rewrite length_fmap, <- Hp. f_equal. apply list_fmap_ext. intros k p Hk. apply Hg. by eapply list_elem_of_lookup_2.
  - intros j x Hx. unfold con. rewrite list_lookup_fmap in Hx. destruct (D !! j); [|done]. by injection Hx as <-.
Qed.

Lemma con_le_score i p : (con i p <= score i)%Z.
Proof.
  unfold con, SparseDaat.score. destruct (D !! p) as [d|] eqn:Hd; simpl; [|apply (score_nonneg n computer len D HD)].
  revert HD p Hd. induction D as [|d' D' IH]; intros Hok p Hd; [done|]. inversion_clear Hok as [|? ? Hd' Hok'].
  pose proof (contrib_bounds n computer len d' i Hd'). unfold zsum in *. rewrite fmap_cons. cbn [foldr]. destruct p as [|p]; simpl in Hd.
  - injection Hd as <-. pose proof (score_nonneg n computer len D' Hok' i) as Hnn. unfold SparseDaat.score, zsum in Hnn. lia.
  - specialize (IH Hok' p Hd). lia.
Qed.

(** The pivot's document passes, was not pushed, and no cursor has passed it. *)
Lemma pivot_fresh cs ptrs h P t k p : wand_inv cs ptrs h P t -> ptrs !! k = Some p -> key cs p < n ->
  (t < zsum (bnd cs <$> take (S k) ptrs))%Z ->
  pass (key cs p) = true /\ (key cs p ∉ (IdVal.id <$> P)) /\ unskipped D cs (key cs p).
Proof.
  intros [Hw Hp Hs Hh Hpushed Hrest] Hk Hlt Hsum.
  destruct (ptr_valid cs ptrs Hp p ltac:(by eapply list_elem_of_lookup_2)) as [c Hc].
  assert (key cs p = cur_vec_id c) as Hkey by (unfold key; by rewrite Hc). rewrite Hkey in *.
  destruct (Forall2_lookup_r _ _ _ _ _ Hw Hc) as (d & Hd & Hdc).
  destruct (cursor_pass n f filt I c (wa_ok _ _ _ _ _ _ Hdc) Hlt) as [Hpass Hin].
  rewrite (wa_ids _ _ _ _ _ _ Hdc) in Hin.
  assert (cur_vec_id c ∉ IdVal.id <$> P) as HnP.
  { intros HP. apply Hpushed in HP. destruct (Forall2_lookup_r _ _ _ _ _ HP Hc) as (d' & Hd' & Hlt').
    rewrite Hd in Hd'. injection Hd' as <-. specialize (Hlt' Hin). lia. }
  split_and!; [done|done|]. destruct (Hrest _ Hlt Hpass HnP) as [|[Hlive _]]; [done|].
  pose proof (live_after cs ptrs Hp Hs (walks_pos cs Hw) k p Hk) as Hla. rewrite Hkey in Hla. lia.
Qed.

(** The pivot's cursor has a positive bound, so its document has a positive score. *)
Lemma pivot_score_pos cs ptrs k p : Forall2 walks D cs -> ptrs ≡ₚ seq 0 (length cs) -> ptrs !! k = Some p ->
  key cs p < n -> (zsum (bnd cs <$> take k ptrs) < zsum (bnd cs <$> take (S k) ptrs))%Z -> (0 < score (key cs p))%Z.
Proof.
  intros Hw Hp Hk Hlt Hsum. destruct (ptr_valid cs ptrs Hp p ltac:(by eapply list_elem_of_lookup_2)) as [c Hc].
  destruct (Forall2_lookup_r _ _ _ _ _ Hw Hc) as (d & Hd & Hdc). pose proof (Forall_lookup_1 _ _ _ _ HD Hd) as Hdok.
  assert (key cs p = cur_vec_id c) as Hkey by (unfold key; by rewrite Hc). rewrite Hkey in *.
  assert (bnd cs p = pl_bound d) as Hb by (unfold bnd; rewrite Hc; apply Hdc).
  rewrite (take_S_r _ _ _ Hk), fmap_app, zsum_app in Hsum. simpl in Hsum. rewrite Hb in Hsum.
  pose proof (con_le_score (cur_vec_id c) p) as Hle. unfold con in Hle. rewrite Hd in Hle. simpl in Hle.
  assert (0 < contrib d (cur_vec_id c))%Z; [|lia]. apply (contrib_pos n); [done|lia|].
  rewrite <- (wa_ids _ _ _ _ _ _ Hdc). by apply (cursor_pass n f filt I c (wa_ok _ _ _ _ _ _ Hdc)).
Qed.

(** The cursors on a document that none has passed make up its whole score. *)
Lemma pivot_score_total cs ptrs i : Forall2 walks D cs -> ptrs ≡ₚ seq 0 (length cs) -> unskipped D cs i ->
  (forall q, q ∈ ptrs -> i <= key cs q) ->
  zsum ((fun p => if (key cs p =? i)%nat then con i p else 0%Z) <$> ptrs) = score i.
Proof.
  intros Hw Hp Hu Hge. apply con_total; [by rewrite (Forall2_length _ _ _ Hw)|].
  intros q Hq. destruct (ptr_valid cs ptrs Hp q Hq) as [c Hc]. specialize (Hge q Hq). unfold key in *. rewrite Hc in *.
  simpl in *. destruct (Nat.eqb_spec (cur_vec_id c) i) as [|Hne]; [done|].
  destruct (Forall2_lookup_r _ _ _ _ _ Hu Hc) as (d & Hd & Hdi). unfold con. rewrite Hd. simpl.
  rewrite contrib_none; [done|]. intros Hin%Hdi. lia.
Qed.

(** Scoring document [i] keeps the invariant: the cursors leave only [i] behind. *)
Lemma scored_inv cs ptrs h P t i cs' ptrs' h' t' : wand_inv cs ptrs h P t -> unskipped D cs i ->
  Forall (fun c => i <= cur_vec_id c) cs -> Forall2 walks D cs' -> Forall2 (scored i) cs cs' ->
  ptrs' ≡ₚ seq 0 (length cs') -> ptrs_sorted cs' ptrs' ->
  result_inv n f filt computer len D cap h' (P ++ [hit computer len D i]) t' -> (t <= t')%Z ->
  wand_inv cs' ptrs' h' (P ++ [hit computer len D i]) t'.
Proof.
  intros [Hw _ _ _ Hpushed Hrest] Hu Hge Hw' Hsc Hp' Hs' Hh' Ht. split; [done..| |].
  - intros j. rewrite fmap_app, elem_of_app. simpl. rewrite list_elem_of_singleton. intros Hj.
    apply Forall2_same_length_lookup. split; [by rewrite (Forall2_length _ _ _ Hw')|]. intros q d c' Hd Hc' Hin.
    destruct (Forall2_lookup_r _ _ _ _ _ Hsc Hc') as (c & Hc & Hcc'). destruct Hj as [Hj| ->].
    + pose proof (Forall2_at _ _ _ _ _ _ (Hpushed j Hj) Hd Hc Hin). destruct Hcc' as [(_ & [_ ?] & _)|[_ ->]]; lia.
    + pose proof (Forall2_at _ _ _ _ _ _ Hu Hd Hc Hin). destruct Hcc' as [(_ & _ & _ & ? & _)|[Hne ->]]; [lia|].
      pose proof (Forall_lookup_1 _ _ _ _ Hge Hc). simpl in *. lia.
  - intros j Hj Hpj. rewrite fmap_app, elem_of_app. simpl. rewrite list_elem_of_singleton. intros HjP.
    destruct (Hrest j Hj Hpj ltac:(tauto)) as [Huj|[Hl Hsj]].
    + left. apply Forall2_same_length_lookup. split; [by rewrite (Forall2_length _ _ _ Hw')|]. intros q d c' Hd Hc' Hin.
      destruct (Forall2_lookup_r _ _ _ _ _ Hsc Hc') as (c & Hc & Hcc'). pose proof (Forall2_at _ _ _ _ _ _ Huj Hd Hc Hin).
      destruct Hcc' as [(Hci & _ & _ & _ & Hx)|[_ ->]]; [|done]. apply Hx; [|done|assert (j <> i) by tauto; lia].
      by rewrite (wa_ids _ _ _ _ _ _ (Forall2_at _ _ _ _ _ _ Hw Hd Hc)).
    + right. assert (Forall2 moved cs cs') as Hm.
      { eapply Forall2_impl; [exact Hsc|]. intros c c' [(_ & ? & _)|[_ ->]]; [done|apply moved_refl]. }
      pose proof (live_moved cs cs' j (walks_pos cs Hw) Hm). lia.
Qed.

(** All cursors on the pivot's document are scored; the document enters the history. *)
Lemma wand_score cs ptrs h P t k p : wand_inv cs ptrs h P t -> ptrs !! k = Some p -> key cs p < n ->
  (zsum (bnd cs <$> take k ptrs) <= t < zsum (bnd cs <$> take (S k) ptrs))%Z ->
  (exists p0, ptrs !! 0 = Some p0 /\ key cs p0 = key cs p) ->
  wp (score_pivot computer (key cs p) (len (key cs p)) ptrs cs 0%Z) (fun '(cs', s) =>
    wp (MaxMinHeap.push h (key cs p) s) (fun h' => exists P' t',
      wand_inv cs' (sort_cursors cs' ptrs) h' P' t' /\ postings_left cs' < postings_left cs)).
Proof.
  intros Hinv Hk Hlt [Hsum1 Hsum2] (p0 & Hp0 & Hkp0).
  destruct (pivot_fresh cs ptrs h P t k p Hinv Hk Hlt Hsum2) as (Hpass & HnP & Hu).
  pose proof Hinv as [Hw Hp Hs Hh _ _].
  pose proof (pivot_score_pos cs ptrs k p Hw Hp Hk Hlt ltac:(lia)) as Hpos.
  pose proof (fun q Hq => ptr_valid cs ptrs Hp q Hq) as Hv.
  assert (forall q, q ∈ ptrs -> key cs p <= key cs q) as Hge.
  { intros q Hq. destruct (split_sorted cs ptrs Hs 0 p0 Hp0) as (Hsp & _ & Hafter).
    rewrite Hsp in Hq. simpl in Hq. apply elem_of_cons in Hq as [->|Hq]; [lia|]. specialize (Hafter q Hq). lia. }
  assert (forall j c, cs !! j = Some c -> j ∈ ptrs) as Hin.
  { intros j c Hc. rewrite Hp. apply elem_of_seq. apply lookup_lt_Some in Hc. lia. }
  assert (NoDup ptrs) as Hnd by (rewrite Hp; apply NoDup_seq).
  eapply wp_mono; [apply (score_pivot_spec (key cs p) cs ptrs 0%Z Hlt Hw Hnd Hv Hs Hge)|].
  intros [cs' s] (Hw' & -> & Hsc). rewrite Z.add_0_l, pivot_score_total by done.
  eapply wp_mono; [apply (result_push n f filt computer len D HD cap h P t (key cs p) Hcap Hh Hlt Hpass); [lia|done]|].
  intros h' (t' & Hh' & Htt').
  assert (length cs' = length cs) as Hlen by (by rewrite <- (Forall2_length _ _ _ Hw), <- (Forall2_length _ _ _ Hw')).
  assert (Forall2 (scored (key cs p)) cs cs') as Hscored.
  { apply Forall2_same_length_lookup. split; [done|]. intros j c c' Hc Hc'. destruct (Hsc j c Hc) as (c2 & Hc2 & Hin2 & _).
    rewrite Hc' in Hc2. injection Hc2 as <-. by eapply Hin2, Hin. }
  destruct (sort_cursors_spec cs' ptrs) as [Hsp Hss]. exists (P ++ [hit computer len D (key cs p)]), t'. split.
  - eapply scored_inv; try done; [|by rewrite Hsp, Hlen]. apply Forall_lookup_2. intros j c Hc.
    specialize (Hge j (Hin j c Hc)). unfold key in Hge at 2. rewrite Hc in Hge. done.
  - destruct (Hv p ltac:(by eapply list_elem_of_lookup_2)) as [c Hc]. destruct (Hsc p c Hc) as (c' & Hc' & Hin2 & _).
    destruct (Hin2 (Hin p c Hc)) as [(_ & _ & Hl & _)|[Hne _]]; [|exfalso; apply Hne; unfold key; by rewrite Hc].
    eapply (postings_left_lt cs cs' p); [|done..]. eapply Forall2_impl; [exact Hscored|].
    intros a a' [(_ & ? & _)|[_ ->]]; [done|apply moved_refl].
Qed.


(** A cursor before the pivot is moved to its document [i]: the documents it
    leaves behind are bounded by the threshold. *)
Lemma seek_inv cs ptrs h P t k i q c c' ptrs' : wand_inv cs ptrs h P t ->
  (forall p, ptrs !! k = Some p -> i <= key cs p) -> (zsum (bnd cs <$> take k ptrs) <= t)%Z -> cs !! q = Some c -> moved c c' ->
  (forall x, x ∈ plist_ids c -> pass x = true -> cur_vec_id c <= x -> i <= x -> cur_vec_id c' <= x) ->
  Forall2 walks D (<[q := c']> cs) -> ptrs' ≡ₚ ptrs -> ptrs_sorted (<[q := c']> cs) ptrs' ->
  wand_inv (<[q := c']> cs) ptrs' h P t.
Proof.
  intros [Hw Hp Hs Hh Hpushed Hrest] Hk Hsum Hc Hm Hx Hw' Hp' Hs'. apply lookup_lt_Some in Hc as Hq.
  assert (Forall2 moved cs (<[q := c']> cs)) as Hmv.
  { eapply Forall2_insert_right; [|done|done]. apply Forall2_same_length_lookup. split; [done|].
    intros j a a' Ha Ha'. rewrite Ha in Ha'. injection Ha' as <-. apply moved_refl. }
  split; [done|by rewrite Hp', length_insert|done|done| |].
  - intros j Hj. pose proof (Hpushed j Hj) as HjP. apply Forall2_same_length_lookup.
    split; [by rewrite (Forall2_length _ _ _ Hw')|]. intros r d a' Hd Ha' Hin.
    destruct (Forall2_lookup_r _ _ _ _ _ Hmv Ha') as (a & Ha & _ & Hle).
    pose proof (Forall2_at _ _ _ _ _ _ HjP Hd Ha Hin). lia.
  - intros j Hj Hpj HjP. destruct (decide (i <= j)) as [Hij|Hij].
    + destruct (Hrest j Hj Hpj HjP) as [Hu|[Hl Hsj]]; [left|right; pose proof (live_moved _ _ j (walks_pos cs Hw) Hmv); lia].
      destruct (lookup_lt_is_Some_2 D q) as [d Hd]; [by rewrite (Forall2_length _ _ _ Hw)|].
      eapply Forall2_insert_right; [exact Hu|exact Hd|]. intros Hin. apply Hx; [|done| |done].
      * by rewrite (wa_ids _ _ _ _ _ _ (Forall2_at _ _ _ _ _ _ Hw Hd Hc)).
      * by apply (Forall2_at _ _ _ _ _ _ Hu Hd Hc).
    + right. pose proof (live_moved _ _ j (walks_pos cs Hw) Hmv) as Hlv.
      destruct (Hrest j Hj Hpj HjP) as [Hu|[Hl Hsj]]; [|lia].
      pose proof (live_before cs ptrs Hp Hs (walks_pos cs Hw) k j ltac:(intros p Hpk; specialize (Hk p Hpk); lia)).
      pose proof (score_le_live n f filt I computer len D HD cs j Hw Hu). lia.
Qed.

Lemma wand_seek cs ptrs h P t k p m q c : wand_inv cs ptrs h P t -> ptrs !! k = Some p -> key cs p < n ->
  (zsum (bnd cs <$> take k ptrs) <= t)%Z -> ptrs !! m = Some q -> key cs q < key cs p -> cs !! q = Some c ->
  wp (seek c (key cs p)) (fun c' => q < length cs /\
    wp (bubble (length ptrs) (<[q := c']> cs) ptrs (m + 1)) (fun ptrs' =>
      wand_inv (<[q := c']> cs) ptrs' h P t /\ postings_left (<[q := c']> cs) < postings_left cs)).
Proof.
  intros Hinv Hk Hlt Hsum Hm Hqp Hc. pose proof Hinv as [Hw Hp Hs _ _ _].
  destruct (Forall2_lookup_r _ _ _ _ _ Hw Hc) as (d & Hd & Hdc). pose proof (wa_ids _ _ _ _ _ _ Hdc) as Hids.
  assert (key cs q = cur_vec_id c) as Hkq by (unfold key; by rewrite Hc).
  eapply wp_mono; [apply (seek_spec n f filt I I_empty I_test c (key cs p) (wa_ok _ _ _ _ _ _ Hdc)); [lia|]|].
  { rewrite Hids. apply Hdc. }
  intros c' (Hok' & Hadv & Hl' & Hstrict & Hcc & Hpc & Hx). apply lookup_lt_Some in Hc as Hq. split; [done|].
  assert (Forall2 walks D (<[q := c']> cs)) as Hw'.
  { eapply Forall2_insert_right; [done|exact Hd|]. apply (walks_advanced _ _ _ _ _ _ _ Hdc Hok' Hadv). by rewrite <- Hids. }
  assert (forall r, r <> q -> key (<[q := c']> cs) r = key cs r) as Hkey.
  { intros r Hr. unfold key. by rewrite list_lookup_insert_ne. }
  assert (key (<[q := c']> cs) q = cur_vec_id c') as Hkq' by (unfold key; by rewrite list_lookup_insert_eq).
  assert (NoDup ptrs) as Hnd by (rewrite Hp; apply NoDup_seq).
  destruct (split_sorted cs ptrs Hs m q Hm) as (Hsp & Hbefore & _).
  assert (forall r, r ∈ take m ptrs ++ drop (S m) ptrs -> r <> q) as Hnq.
  { rewrite Hsp in Hnd. apply NoDup_app in Hnd as (_ & Hd1 & Hd2). apply NoDup_cons in Hd2 as [Hd2 _].
    intros r [Hr|Hr]%elem_of_app ->; [|done]. apply (Hd1 q Hr), elem_of_cons. by left. }
  assert (length (take m ptrs) = m) as Hlm by (apply length_take_le; apply lookup_lt_Some in Hm; lia).
  rewrite Hsp at 2. rewrite <- Hlm at 3. eapply wp_mono; [apply bubble_spec|].
  - rewrite length_drop. lia.
  - intros r Hr. rewrite <- Hsp in Hr. destruct (ptr_valid cs ptrs Hp r Hr) as [cr Hcr].
    apply lookup_lt_is_Some_2. rewrite length_insert. by eapply lookup_lt_Some.
  - apply (sorted_mono (fun a b => key cs a <= key cs b)).
    + intros x y Hx1 Hy1. by rewrite !Hkey by (by apply Hnq).
    + unfold ptrs_sorted in Hs. rewrite Hsp in Hs. apply StronglySorted_app in Hs as (H1 & H2 & H3).
      apply StronglySorted_inv in H3 as [H3 _]. apply StronglySorted_app. split_and!; [|done|done].
      intros x y Hx1 Hy1. apply H1; [done|]. apply elem_of_cons. by right.
  - intros r Hr. rewrite Hkey, Hkq' by (apply Hnq, elem_of_app; by left). specialize (Hbefore r Hr). lia.
  - rewrite <- Hsp. intros l [Hl Hsl]. split.
    + eapply seek_inv; try done. intros p' Hp'. rewrite Hk in Hp'. injection Hp' as <-. done.
    + eapply (postings_left_lt _ _ q c c'); [|done|by apply list_lookup_insert_eq|split; [apply Hstrict; lia|done]].
      eapply Forall2_insert_right; [|done|by split]. apply Forall2_same_length_lookup. split; [done|].
      intros j a a' Ha Ha'. rewrite Ha in Ha'. injection Ha' as <-. apply moved_refl.
Qed.

Lemma wand_round_spec cs ptrs h P t : wand_inv cs ptrs h P t ->
  wp (wand_round ix computer (cs, ptrs, h)) (fun r => match r with
    | None => MaxMinHeap.top_of cap hits (MaxMinHeap.contents h)
    | Some (cs', ptrs', h') => exists P' t', wand_inv cs' ptrs' h' P' t' /\ postings_left cs' < postings_left cs
    end).
Proof.
  intros Hinv. pose proof Hinv as [Hw Hp Hs Hh _ _]. unfold wand_round.
  pose proof (fun q Hq => ptr_valid cs ptrs Hp q Hq) as Hv.
  pose proof (result_threshold_nonneg n f filt computer len D HD cap h P t Hcap Hh) as Ht.
  rewrite (ri_thr _ _ _ _ _ _ _ _ _ _ Hh). cbn [bind]. apply wp_bind. rewrite ix_rows.
  eapply wp_mono; [by apply find_pivot_spec|]. intros [m|].
  2:{ intros (k & Hsum & Hk). rewrite Z.add_0_l in Hsum. by eapply wand_stop. }
  intros (k & p & -> & Hk & Hlt & Hsum1 & Hsum2). rewrite Z.add_0_l in Hsum1, Hsum2. rewrite Nat.add_0_l.
  rewrite (proj2 (vget_Ret _ _ _) Hk). cbn [bind].
  destruct (Hv p ltac:(by eapply list_elem_of_lookup_2)) as [c Hc].
  assert (cur_of cs p = Ret (key cs p)) as ->.
  { unfold cur_of, key. by rewrite (proj2 (vget_Ret _ _ _) Hc), Hc. }
  cbn [bind]. apply lookup_lt_Some in Hk as Hkl. destruct (lookup_lt_is_Some_2 ptrs 0) as [p0 Hp0]; [lia|].
  rewrite (proj2 (vget_Ret _ _ _) Hp0). cbn [bind].
  destruct (Hv p0 ltac:(by eapply list_elem_of_lookup_2)) as [c0 Hc0].
  assert (cur_of cs p0 = Ret (key cs p0)) as ->.
  { unfold cur_of, key. by rewrite (proj2 (vget_Ret _ _ _) Hc0), Hc0. }
  cbn [bind]. destruct (Nat.eqb_spec (key cs p) (key cs p0)) as [Heq|Hne].
  - rewrite ix_len by done. cbn [bind]. apply wp_bind.
    eapply wp_mono; [apply (wand_score cs ptrs h P t k p Hinv Hk Hlt); [lia|by exists p0]|].
    intros [cs' s] Hpush. apply wp_bind. eapply wp_mono; [exact Hpush|]. done.
  - assert (key cs p0 < key cs p) as Hlt0.
    { destruct k as [|k]; [congruence|]. destruct (split_sorted cs ptrs Hs 0 p0 Hp0) as (Hsp & _ & Hafter).
      assert (key cs p0 <= key cs p); [|lia]. apply Hafter, list_elem_of_lookup. exists k. by rewrite lookup_drop. }
    apply wp_bind. eapply wp_mono; [apply (last_before_spec cs ptrs Hp Hs); [by exists p|by exists p0]|].
    intros m (q & Hm & Hqp). rewrite (proj2 (vget_Ret _ _ _) Hm). cbn [bind].
    destruct (Hv q ltac:(by eapply list_elem_of_lookup_2)) as [cq Hcq]. rewrite (proj2 (vget_Ret _ _ _) Hcq). cbn [bind].
    apply wp_bind. eapply wp_mono; [by eapply wand_seek|]. intros c' [Hql Hb].
    apply wp_bind, wp_vset; [done|]. apply wp_bind. eapply wp_mono; [exact Hb|]. intros ptrs' [? ?]. by exists P, t.
Qed.

Lemma wand_loop_spec fuel cs ptrs h P t : wand_inv cs ptrs h P t -> postings_left cs <= fuel ->
  wp (wand_loop fuel ix computer (cs, ptrs, h)) (fun h' => MaxMinHeap.inv h' /\ MaxMinHeap.capacity h' = cap /\
    MaxMinHeap.top_of cap hits (MaxMinHeap.contents h')).
Proof.
  revert cs ptrs h P t. induction fuel as [|fuel IH]; intros cs ptrs h P t Hinv Hf; cbn [wand_loop]; apply wp_bind;
    (eapply wp_mono; [apply (wand_round_spec cs ptrs h P t Hinv)|]); intros [[[cs' ptrs'] h']|].
  - intros (P' & t' & _ & Hlt). lia.
  - intros Htop. pose proof (wi_heap _ _ _ _ _ Hinv) as []. done.
  - intros (P' & t' & Hinv' & Hlt). apply (IH cs' ptrs' h' P' t' Hinv'). lia.
  - intros Htop. pose proof (wi_heap _ _ _ _ _ Hinv) as []. done.
Qed.

(** The whole search from fresh cursors. *)
Lemma wand_from_start cs : Forall2 walks D cs -> (forall i, pass i = true -> unskipped D cs i) ->
  wp (wand_loop (postings_left cs) ix computer (cs, sort_cursors cs (seq 0 (length cs)), MaxMinHeap.make cap))
    (fun h => MaxMinHeap.inv h /\ MaxMinHeap.capacity h = cap /\ MaxMinHeap.top_of cap hits (MaxMinHeap.contents h)).
Proof.
  intros Hw Hu. destruct (result_make n f filt computer len D cap) as [Hh|]; [|lia].
  destruct (sort_cursors_spec cs (seq 0 (length cs))) as [Hp Hs].
  eapply (wand_loop_spec _ _ _ _ [] 0%Z); [|done]. split; try done.
  - by intros i ?%elem_of_nil.
  - intros i _ Hpi _. left. by apply Hu.
Qed.

End wand.
