(* ===== verification/SparseMaxScore.v ===== *)
(** * MaxScore is exact

    The candidates come in increasing order.  Every document below the next
    candidate is in the heap's history or scores at most the threshold; the
    terms from the first non-essential one on cannot reach the threshold by
    themselves. *)

From S2P Require Import Prelude Float Num StdHeap SparseUtils Bitset Expected SparseIndex SparseIndexSpec SparseSearch SparseProps SparseDaat SparseWand.

Section maxscore.
Context {Q F : Type} `{!Quant Z Q, !DocIdFilter F, !StdSort}.
Context (n : nat) (f : F) (filt : nat -> bool) (I : nat -> F -> Prop).
Hypothesis I_empty : forall i g, I i g -> f_empty g = f_empty f.
Hypothesis I_test : forall i j g, I i g -> i <= j < n -> wp (f_test g j) (fun '(g', r) => I j g' /\ r = filt j).
Context (computer : DocValueComputer Z) (len : nat -> Z) (D : list (plist Q)).
Hypothesis HD : Forall (plist_ok n computer len) D.
Context (ix : InvertedIndex Z Q).
Hypothesis ix_rows : n_rows_internal ix = n.
Hypothesis ix_len : forall i, i < n -> doc_len ix i = Ret (len i).
Context (cap : nat).
Hypothesis Hcap : 0 < cap.

Abbreviation pass := (passes f filt).
Abbreviation walks := (walks n f filt I).
Abbreviation score := (score computer len D).
Abbreviation con := (con computer len D).
Abbreviation scored := (scored f filt).
Implicit Types c : Cursor Z Q F.
Implicit Types cs : list (Cursor Z Q F).

(** The terms before [j] and the bound of those from [j] on. *)
Definition head_score (i j : nat) : Z := zsum (con i <$> seq 0 j).
Definition tail_bound (j : nat) : Z := zsum (pl_bound <$> drop j D).

Lemma head_score_S i j : head_score i (j + 1) = (head_score i j + con i j)%Z.
Proof. unfold head_score. rewrite Nat.add_1_r, seq_S, fmap_app, zsum_app. unfold zsum at 2. simpl. lia. Qed.

Lemma con_drop i j : con i <$> seq j (length D - j) = (fun d => contrib computer len d i) <$> drop j D.
Proof.
  apply list_eq. intros k. rewrite !list_lookup_fmap, lookup_drop. destruct (decide (j + k < length D)) as [Hl|Hl].
  - rewrite lookup_seq_lt by lia. simpl. unfold SparseWand.con. by destruct (lookup_lt_is_Some_2 D (j + k) Hl) as [d ->].
  - rewrite !lookup_ge_None_2; [done|lia|rewrite length_seq; lia].
Qed.

Lemma score_split i j : j <= length D -> (score i = head_score i j + zsum ((fun d => contrib computer len d i) <$> drop j D))%Z.
Proof.
  intros Hj. rewrite <- con_drop. unfold head_score. rewrite <- zsum_app, <- fmap_app.
  rewrite <- seq_app. replace (j + (length D - j)) with (length D) by lia. by rewrite (con_total computer len D (con i) i).
Qed.

Lemma score_all i : score i = head_score i (length D).
Proof. rewrite (score_split i (length D)), drop_all by lia. unfold zsum. simpl. lia. Qed.

(** A document's score is at most its head and the bound of the tail. *)
Lemma score_le_tail i j : j <= length D -> (score i <= head_score i j + tail_bound j)%Z.
Proof.
  intros Hj. rewrite (score_split i j Hj). unfold tail_bound.
  pose proof (zsum_le (fun d => contrib computer len d i) pl_bound (drop j D)) as Hle.
  assert (zsum ((fun d => contrib computer len d i) <$> drop j D) <= zsum (pl_bound <$> drop j D))%Z; [|lia].
  apply Hle. intros d Hd. apply (contrib_bounds n). apply (proj1 (Forall_forall _ _) HD).
  rewrite <- (take_drop j D). apply elem_of_app. by right.
Qed.

Lemma con_at i p d : D !! p = Some d -> con i p = contrib computer len d i.
Proof. intros Hd. unfold SparseWand.con. by rewrite Hd. Qed.

(** ** The bounds array *)

Lemma suffix_bounds_lookup cs j : Forall2 walks D cs -> j < length D -> suffix_bounds cs !! j = Some (tail_bound j).
Proof.
  intros Hw. unfold suffix_bounds, tail_bound.
  set (g := fun c (st : Z * list Z) => let b := nadd (fst st) (max_score c) in (b, b :: snd st)).
  assert (forall D' cs', Forall2 walks D' cs' ->
    fst (foldr g (nzero, []) cs') = zsum (pl_bound <$> D') /\
    (forall j, j < length D' -> snd (foldr g (nzero, []) cs') !! j = Some (zsum (pl_bound <$> drop j D')))) as Hgen.
  { induction 1 as [|d c D' cs' Hdc Hw' [IH1 IH2]]; [split; [done|simpl; lia]|]. cbn [foldr]. unfold g at 1 3. cbn [fst snd].
    rewrite IH1. cbn [nadd Z_num]. rewrite (wa_max _ _ _ _ _ _ Hdc). split.
    - rewrite fmap_cons. unfold zsum. cbn [foldr]. lia.
    - intros [|j'] Hj'; [cbn [lookup list_lookup drop snd]; f_equal; rewrite fmap_cons; unfold zsum; cbn [foldr]; lia|].
      simpl. apply IH2. simpl in Hj'. lia. }
  intros Hj. by apply (Hgen D cs Hw).
Qed.

Lemma nleb_Z (x y : Z) : nleb x y = (x <=? y)%Z.
Proof. unfold nleb. cbn [nltb neqb Z_num]. destruct (Z.ltb_spec x y), (Z.eqb_spec x y), (Z.leb_spec x y); simpl; lia. Qed.

Lemma shrink_spec ub t e : e <= length D -> (forall j, j < length D -> ub !! j = Some (tail_bound j)) -> (tail_bound e <= t)%Z ->
  wp (shrink_essential ub t e) (fun r => match r with
    | Some k => k <= e /\ (tail_bound k <= t)%Z
    | None => (tail_bound 0 <= t)%Z
    end).
Proof.
  intros He Hub. revert He. induction e as [|e IH]; intros He Ht; cbn [shrink_essential]; [done|].
  rewrite (proj2 (vget_Ret _ _ _) (Hub e ltac:(lia))). cbn [bind]. rewrite nleb_Z.
  destruct (Z.leb_spec (tail_bound e) t) as [Hle|]; [|done]. destruct e as [|e']; [done|].
  eapply wp_mono; [apply IH; [lia|done]|]. intros [k|]; [|done]. intros [? ?]. split; [lia|done].
Qed.

(** ** Scoring a candidate *)

(** The smallest current id, with [n] for none. *)
Definition next_of (cs : list (Cursor Z Q F)) (k m : nat) : Prop :=
  m <= n /\ (forall p c, p < k -> cs !! p = Some c -> m <= cur_vec_id c) /\
  (m < n -> exists p c, p < k /\ cs !! p = Some c /\ cur_vec_id c = m).

Lemma next_of_pass cs k m : Forall2 walks D cs -> next_of cs k m -> m < n -> pass m = true.
Proof.
  intros Hw (_ & _ & Hm) Hlt. destruct (Hm Hlt) as (p & c & _ & Hc & <-).
  destruct (Forall2_lookup_r _ _ _ _ _ Hw Hc) as (d & _ & Hdc). by apply (cursor_pass n f filt I c (wa_ok _ _ _ _ _ _ Hdc)).
Qed.

Lemma next_of_step cs k c m : Forall2 walks D cs -> cs !! k = Some c -> next_of cs k m ->
  next_of cs (k + 1) (if cur_vec_id c <? m then cur_vec_id c else m).
Proof.
  intros Hw Hc (Hn & Hle & Hex). destruct (Forall2_lookup_r _ _ _ _ _ Hw Hc) as (d & _ & Hdc).
  pose proof (cursor_le n f filt I c (wa_ok _ _ _ _ _ _ Hdc)). split_and!.
  - destruct (cur_vec_id c <? m); lia.
  - intros p c' Hp Hc'. destruct (decide (p = k)) as [->|].
    + rewrite Hc in Hc'. injection Hc' as <-. destruct (Nat.ltb_spec (cur_vec_id c) m); lia.
    + specialize (Hle p c' ltac:(lia) Hc'). destruct (Nat.ltb_spec (cur_vec_id c) m); lia.
  - destruct (Nat.ltb_spec (cur_vec_id c) m) as [Hlt|Hge].
    + intros _. exists k, c. split_and!; [lia|done|done].
    + intros Hmn. destruct (Hex Hmn) as (p & c' & Hp & ? & ?). exists p, c'. split_and!; [lia|done|done].
Qed.

(** The first candidate. *)
Lemma next_of_all cs : Forall2 walks D cs ->
  next_of cs (length cs) (foldl (fun m c => if cur_vec_id c <? m then cur_vec_id c else m) n cs).
Proof.
  intros Hw. set (g := fun (m : nat) c => if cur_vec_id c <? m then cur_vec_id c else m).
  assert (forall k, k <= length cs -> next_of cs k (foldl g n (take k cs))) as Hk.
  { induction k as [|k IH]; intros Hl; [simpl; split_and!; intros; lia|].
    destruct (lookup_lt_is_Some_2 cs k) as [c Hc]; [lia|]. rewrite (take_S_r _ _ _ Hc), foldl_app, <- Nat.add_1_r.
    cbn [foldl]. unfold g at 1. apply next_of_step; [done|done|]. apply IH. lia. }
  specialize (Hk (length cs) (le_n _)). by rewrite take_ge in Hk.
Qed.

(** After the essential cursors before [j] were scored on [i]. *)
Definition essential_done (i : nat) cs (j : nat) (st : list (Cursor Z Q F) * Z * nat) : Prop :=
  let '(cs', s, m) := st in
  Forall2 walks D cs' /\ s = head_score i j /\ next_of cs' j m /\ i < m /\
  (forall p c c', p < j -> cs !! p = Some c -> cs' !! p = Some c' -> scored i c c') /\
  (forall p, j <= p -> cs' !! p = cs !! p).

Lemma score_essential_spec i cs e : Forall2 walks D cs -> e <= length D -> i < n -> unskipped D cs i ->
  (forall p c, p < e -> cs !! p = Some c -> i <= cur_vec_id c) ->
  wp (foldM (score_essential computer i (len i)) (cs, 0%Z, n) (seq 0 e)) (essential_done i cs e).
Proof.
  intros Hw He Hi Hu Hge. apply (wp_for _ (essential_done i cs)).
  - unfold essential_done, next_of. split_and!; try done; intros; lia.
  - intros j [[cs' s] m] [_ Hj] (Hw' & -> & Hm & Him & Hsc & Hsame). rewrite Nat.add_0_l in *.
    destruct (lookup_lt_is_Some_2 D j) as [d Hd]; [lia|]. destruct (Forall2_lookup_l _ _ _ _ _ Hw Hd) as (c & Hc & Hdc).
    assert (cs' !! j = Some c) as Hc' by (by rewrite Hsame). pose proof (Forall_lookup_1 _ _ _ _ HD Hd) as Hdok.
    pose proof (Forall2_at _ _ _ _ _ _ Hw' Hd Hc') as Hdc'. specialize (Hge j c Hj Hc).
    cbn [score_essential]. unfold score_essential. rewrite (proj2 (vget_Ret _ _ _) Hc'). cbn [bind]. apply wp_bind.
    eapply (wp_mono _ (fun '(c', s') => walks d c' /\ s' = head_score i (j + 1) /\ i < cur_vec_id c' /\ scored i c c')).
    { rewrite head_score_S. rewrite (con_at i j d Hd).
      destruct (Nat.eqb_spec (cur_vec_id c) i) as [Heq|Hne].
      - rewrite <- Heq at 1. rewrite (cursor_term_spec n f filt I computer len d c _ Hdok Hdc') by lia. cbn [bind].
        apply wp_bind. eapply wp_mono; [apply (next_spec n f filt I I_empty I_test c); [apply Hdc|lia]|].
        intros c' (Hok' & Hadv & Hloc & Hcur & Hx). pose proof (wa_ids _ _ _ _ _ _ Hdc) as Hids. cbn [wp]. split_and!.
        + apply (walks_advanced _ _ _ _ _ _ _ Hdc Hok' Hadv). rewrite <- Hids. lia.
        + by rewrite Heq.
        + lia.
        + left. rewrite <- Heq. split_and!; [done|split; [done|lia]|lia|lia|lia|done].
      - cbn [wp]. split_and!; [done| |lia|by right]. rewrite contrib_none; [lia|].
        intros Hin. pose proof (Forall2_at _ _ _ _ _ _ Hu Hd Hc Hin). lia. }
    intros [c' s'] (Hdc2 & -> & Hic & Hcc). apply lookup_lt_Some in Hc' as Hl. apply wp_bind, wp_vset; [done|]. cbn [wp].
    assert (Forall2 walks D (<[j := c']> cs')) as Hw2 by (by eapply Forall2_insert_right).
    split_and!; [done|done| |destruct (cur_vec_id c' <? m); lia| |].
    + apply next_of_step; [done|by apply list_lookup_insert_eq|]. destruct Hm as (H1 & H2 & H3). split_and!; [done| |].
      * intros p cp Hp Hcp. rewrite list_lookup_insert_ne in Hcp by lia. by apply (H2 p).
      * intros Hmn. destruct (H3 Hmn) as (p & cp & Hp & Hcp & ?). exists p, cp. split_and!; [done| |done].
        by rewrite list_lookup_insert_ne by lia.
    + intros p a a' Hp Ha Ha'. destruct (decide (p = j)) as [->|].
      * rewrite list_lookup_insert_eq in Ha' by done. by simplify_eq.
      * rewrite list_lookup_insert_ne in Ha' by done. apply (Hsc p a a'); [lia|done..].
    + intros p Hp. rewrite list_lookup_insert_ne by lia. apply Hsame. lia.
  - rewrite Nat.add_0_l. done.
Qed.

(** What seeking document [i] may do to a cursor. *)
Definition sought (i : nat) c c' : Prop :=
  moved c c' /\ forall x, x ∈ plist_ids c -> pass x = true -> cur_vec_id c <= x -> i <= x -> cur_vec_id c' <= x.

Lemma sought_refl i c : sought i c c.
Proof. split; [apply moved_refl|done]. Qed.

Lemma score_rest_spec i ub t : i < n -> pass i = true -> (forall j, j < length D -> ub !! j = Some (tail_bound j)) ->
  forall m j cs, j + m = length D -> Forall2 walks D cs ->
  (forall p d c, j <= p -> D !! p = Some d -> cs !! p = Some c -> i ∈ pl_ids d -> cur_vec_id c <= i) ->
  wp (score_rest computer i (len i) ub t (seq j m) cs (head_score i j)) (fun '(cs', s, found) =>
    Forall2 walks D cs' /\ Forall2 (sought i) cs cs' /\ (forall p, p < j -> cs' !! p = cs !! p) /\
    (if found : bool then s = score i else score i <= t)%Z).
Proof.
  intros Hi Hpi Hub. induction m as [|m IH]; intros j cs Hj Hw Hu; cbn [seq score_rest].
  { cbn [wp]. split_and!; [done| |done|rewrite score_all; f_equal; lia].
    apply Forall2_same_length_lookup. split; [done|]. intros q a a' Ha Ha'. simplify_eq. apply sought_refl. }
  rewrite (proj2 (vget_Ret _ _ _) (Hub j ltac:(lia))). cbn [bind]. rewrite nleb_Z. cbn [nadd Z_num].
  destruct (Z.leb_spec (head_score i j + tail_bound j) t) as [Hle|_].
  { cbn [wp]. pose proof (score_le_tail i j ltac:(lia)). split_and!; [done| |done|lia].
    apply Forall2_same_length_lookup. split; [done|]. intros q a a' Ha Ha'. simplify_eq. apply sought_refl. }
  destruct (lookup_lt_is_Some_2 D j) as [d Hd]; [lia|]. destruct (Forall2_lookup_l _ _ _ _ _ Hw Hd) as (c & Hc & Hdc).
  pose proof (Forall_lookup_1 _ _ _ _ HD Hd) as Hdok. pose proof (wa_ids _ _ _ _ _ _ Hdc) as Hids.
  rewrite (proj2 (vget_Ret _ _ _) Hc). cbn [bind]. apply wp_bind.
  eapply wp_mono; [apply (seek_spec n f filt I I_empty I_test c i (wa_ok _ _ _ _ _ _ Hdc)); [lia|rewrite Hids; apply Hdc]|].
  intros c' (Hok' & Hadv & Hl' & _ & Hcc & Hic & Hx). apply lookup_lt_Some in Hc as Hl. apply wp_bind, wp_vset; [done|].
  assert (walks d c') as Hdc'.
  { apply (walks_advanced _ _ _ _ _ _ _ Hdc Hok' Hadv). by rewrite <- Hids. }
  assert (sought i c c') as Hsc by (split; [by split|done]).
  apply wp_bind. eapply (wp_mono _ (fun s => s = head_score i (j + 1))).
  { rewrite head_score_S. rewrite (con_at i j d Hd).
    destruct (Nat.eqb_spec (cur_vec_id c') i) as [Heq|Hne].
    - rewrite <- Heq at 1. rewrite (cursor_term_spec n f filt I computer len d c' _ Hdok Hdc') by lia. cbn [wp]. by rewrite Heq.
    - cbn [wp]. rewrite contrib_none; [lia|]. intros Hin. pose proof (Hu j d c ltac:(lia) Hd Hc Hin).
      rewrite <- Hids in Hin. specialize (Hx i Hin Hpi ltac:(done) ltac:(lia)). lia. }
  intros s ->. replace (S j) with (j + 1) by lia. eapply wp_mono; [apply IH|].
  - lia.
  - by eapply Forall2_insert_right.
  - intros p d' c2 Hp Hd' Hc2. rewrite list_lookup_insert_ne in Hc2 by lia. apply (Hu p); [lia|done..].
  - intros [[cs' s] found] (Hw' & Hs' & Hsame & Hf). split_and!; [done| | |done].
    + apply Forall2_same_length_lookup. split; [rewrite <- (Forall2_length _ _ _ Hs'), length_insert; done|].
      intros q a a' Ha Ha'. destruct (decide (q = j)) as [->|Hqj].
      * simplify_eq. rewrite Hsame, list_lookup_insert_eq in Ha' by (done || lia). by simplify_eq.
      * apply (Forall2_at _ _ _ q a a' Hs'); [by rewrite list_lookup_insert_ne|done].
    + intros p Hp. rewrite Hsame by lia. by rewrite list_lookup_insert_ne by lia.
Qed.

(** ** Rounds *)

Abbreviation hits := (hits n f filt computer len D).
Abbreviation result_inv := (result_inv n f filt computer len D cap).

Record ms_inv (st : @ms_state Z Q F) P : Prop := {
  mi_walks : Forall2 walks D (ms_cursors st);
  mi_heap : result_inv (ms_heap st) P (ms_threshold st);
  mi_ne : ms_first_ne st <= length D;
  mi_tail : (tail_bound (ms_first_ne st) <= ms_threshold st)%Z;
  mi_next : ms_next st <= n;
  mi_pass : ms_next st < n -> pass (ms_next st) = true;
  mi_pushed : forall i, i ∈ (IdVal.id <$> P) -> i < ms_next st;
  mi_below : forall i, i < ms_next st -> pass i = true -> i ∉ (IdVal.id <$> P) -> (score i <= ms_threshold st)%Z;
  mi_above : forall i, ms_next st <= i -> pass i = true -> unskipped D (ms_cursors st) i;
  mi_essential : forall p c, p < ms_first_ne st -> ms_cursors st !! p = Some c -> ms_next st <= cur_vec_id c
}.

(** When no candidate is left, or no term is essential, the heap is the result. *)
Lemma ms_finish st P : ms_inv st P -> n <= ms_next st -> MaxMinHeap.top_of cap hits (MaxMinHeap.contents (ms_heap st)).
Proof.
  intros [] Hn. apply (result_finish n f filt computer len D HD cap _ P (ms_threshold st) Hcap mi_heap0).
  intros i Hi. apply mi_below0. lia.
Qed.

Lemma ms_exhausted h P t : result_inv h P t -> (tail_bound 0 <= t)%Z -> MaxMinHeap.top_of cap hits (MaxMinHeap.contents h).
Proof.
  intros Hh Ht. apply (result_finish n f filt computer len D HD cap h P t Hcap Hh).
  intros i _ _ _. pose proof (score_le_tail i 0 ltac:(lia)) as Hle. unfold head_score, zsum in Hle. simpl in Hle. lia.
Qed.

(** The cursors after a candidate: nothing above it was passed, and documents
    before the next candidate have non-essential terms only. *)
Lemma candidate_cursors st P cs1 s m cs2 : ms_inv st P -> ms_next st < n ->
  essential_done (ms_next st) (ms_cursors st) (ms_first_ne st) (cs1, s, m) -> Forall2 walks D cs2 ->
  Forall2 (sought (ms_next st)) cs1 cs2 -> (forall p, p < ms_first_ne st -> cs2 !! p = cs1 !! p) ->
  (forall i, ms_next st < i -> pass i = true -> unskipped D cs2 i) /\
  (forall i, ms_next st < i < m -> pass i = true -> (score i <= ms_threshold st)%Z) /\
  (forall p c, p < ms_first_ne st -> cs2 !! p = Some c -> m <= cur_vec_id c).
Proof.
  intros [Hw Hh Hne Htail _ _ _ _ Habove Hess] Hn (Hw1 & _ & Hm & _ & Hsc & Hsame) Hw2 Hso Hpre.
  assert (forall i, ms_next st < i -> pass i = true -> unskipped D cs2 i) as Hun.
  { intros i Hi Hp. apply Forall2_same_length_lookup. split; [by rewrite (Forall2_length _ _ _ Hw2)|].
    intros p d c2 Hd Hc2 Hin. destruct (Forall2_lookup_r _ _ _ _ _ Hso Hc2) as (c1 & Hc1 & _ & Hx2).
    destruct (Forall2_lookup_l _ _ _ _ _ Hw Hd) as (c & Hc & Hdc).
    pose proof (wa_ids _ _ _ _ _ _ Hdc) as Hids. pose proof (wa_ids _ _ _ _ _ _ (Forall2_at _ _ _ _ _ _ Hw1 Hd Hc1)) as Hids1.
    assert (ms_next st <= i) as Hni by lia. pose proof (Forall2_at _ _ _ _ _ _ (Habove i Hni Hp) Hd Hc Hin) as Hle.
    apply Hx2; [by rewrite Hids1|done| |lia]. destruct (decide (p < ms_first_ne st)) as [Hlt|Hge].
    - destruct (Hsc p c c1 Hlt Hc Hc1) as [(_ & _ & _ & _ & Hx)|[_ ->]]; [|done]. apply Hx; [by rewrite Hids|done|lia].
    - rewrite Hsame, Hc in Hc1 by lia. by injection Hc1 as <-. }
  assert (forall p c, p < ms_first_ne st -> cs2 !! p = Some c -> m <= cur_vec_id c) as Hme.
  { intros p c Hp Hc. rewrite Hpre in Hc by done. destruct Hm as (_ & Hm & _). by apply (Hm p). }
  split_and!; [done| |done]. intros i Hi Hp.
  pose proof (score_le_tail i (ms_first_ne st) Hne) as Hle. assert (head_score i (ms_first_ne st) = 0)%Z; [|lia].
  unfold head_score. apply zsum_zero. intros p [_ Hlt]%elem_of_seq. rewrite Nat.add_0_l in Hlt.
  destruct (lookup_lt_is_Some_2 D p) as [d Hd]; [lia|]. rewrite (con_at i p d Hd). apply contrib_none. intros Hin.
  destruct (Forall2_lookup_l _ _ _ _ _ Hw2 Hd) as (c2 & Hc2 & _).
  pose proof (Forall2_at _ _ _ _ _ _ (Hun i ltac:(lia) Hp) Hd Hc2 Hin). specialize (Hme p c2 Hlt Hc2). lia.
Qed.

Lemma maxscore_round_spec ub st P : ms_inv st P -> (forall j, j < length D -> ub !! j = Some (tail_bound j)) ->
  wp (maxscore_round ix computer ub st) (fun '(r, st') => match r with
    | None => MaxMinHeap.inv (ms_heap st') /\ MaxMinHeap.capacity (ms_heap st') = cap /\
        MaxMinHeap.top_of cap hits (MaxMinHeap.contents (ms_heap st'))
    | Some st'' => exists P', ms_inv st'' P' /\ ms_next st < ms_next st''
    end).
Proof.
  intros Hinv Hub. unfold maxscore_round. rewrite ix_rows.
  destruct (Nat.leb_spec n (ms_next st)) as [Hge|Hlt].
  { cbn [wp]. pose proof (mi_heap _ _ Hinv) as []. split_and!; [done|done|by eapply ms_finish]. }
  pose proof Hinv as [Hw Hh Hne Htail Hnx Hpass Hpushed Hbelow Habove Hess].
  specialize (Hpass Hlt). rewrite ix_len by done. cbn [bind]. apply wp_bind.
  eapply wp_mono; [apply (score_essential_spec _ _ _ Hw Hne Hlt (Habove _ (le_n _) Hpass) Hess)|].
  intros [[cs1 s] m] Hdone. pose proof Hdone as (Hw1 & -> & Hm & Him & Hsc & Hsame).
  apply wp_bind. rewrite <- (Forall2_length _ _ _ Hw1).
  eapply wp_mono; [apply (score_rest_spec (ms_next st) ub (ms_threshold st) Hlt Hpass Hub _ (ms_first_ne st)); [lia|done|]|].
  { intros p d c Hp Hd Hc. rewrite Hsame in Hc by lia. by apply (Forall2_at _ _ _ p d c (Habove _ (le_n _) Hpass)). }
  intros [[cs2 s2] found] (Hw2 & Hso & Hpre & Hfound).
  destruct (candidate_cursors st P cs1 _ m cs2 Hinv Hlt Hdone Hw2 Hso Hpre) as (Hun & Hmid & Hess2).
  pose proof (next_of_pass _ _ _ Hw1 Hm) as Hpm. destruct Hm as (Hmn & _ & _). cbn [ms_threshold ms_heap ms_first_ne].
  destruct (found && nltb (ms_threshold st) s2) eqn:Hb.
  - apply andb_prop in Hb as [-> Hb]. cbn [nltb Z_num] in Hb. apply Z.ltb_lt in Hb. subst s2.
    pose proof (result_threshold_nonneg n f filt computer len D HD cap _ P _ Hcap Hh) as Ht0.
    assert (ms_next st ∉ (IdVal.id <$> P)) as HnP by (intros HP%Hpushed; lia).
    apply wp_bind. eapply wp_mono; [apply (result_push n f filt computer len D HD cap _ P _ (ms_next st) Hcap Hh Hlt Hpass); [lia|done]|].
    intros h' (t' & Hh' & Htt'). rewrite (ri_thr _ _ _ _ _ _ _ _ _ _ Hh'). cbn [bind]. apply wp_bind.
    eapply wp_mono; [apply (shrink_spec ub t' (ms_first_ne st) Hne Hub); lia|]. intros [k|].
    + intros [Hk Hkt]. cbn [wp]. exists (P ++ [hit computer len D (ms_next st)]). split; [|done]. split; simpl; try done.
      * lia.
      * intros i. rewrite fmap_app, elem_of_app. simpl. rewrite list_elem_of_singleton. intros [Hi%Hpushed| ->]; lia.
      * intros i Hi Hp. rewrite fmap_app, elem_of_app. simpl. rewrite list_elem_of_singleton. intros Hni.
        destruct (decide (i < ms_next st)) as [Hlt'|]; [specialize (Hbelow i Hlt' Hp ltac:(tauto)); lia|].
        specialize (Hmid i ltac:(assert (i <> ms_next st) by tauto; lia) Hp). lia.
      * intros i Hi. apply Hun. lia.
      * intros p c Hp. apply Hess2. lia.
    + intros Hkt. cbn [wp ms_heap]. pose proof Hh' as []. split_and!; [done|done|by eapply ms_exhausted].
  - cbn [wp]. exists P. split; [|done]. split; simpl; try done.
    + intros i Hi%Hpushed. lia.
    + intros i Hi Hp Hni. destruct (decide (i < ms_next st)) as [Hlt'|]; [by apply Hbelow|].
      destruct (decide (i = ms_next st)) as [->|]; [|apply Hmid; [lia|done]].
      destruct found; [|done]. subst s2. cbn [andb nltb Z_num] in Hb. apply Z.ltb_ge in Hb. done.
    + intros i Hi. apply Hun. lia.
Qed.

Lemma maxscore_loop_spec ub fuel st P : (forall j, j < length D -> ub !! j = Some (tail_bound j)) ->
  ms_inv st P -> n <= ms_next st + fuel ->
  wp (maxscore_loop fuel ix computer ub st) (fun h => MaxMinHeap.inv h /\ MaxMinHeap.capacity h = cap /\
    MaxMinHeap.top_of cap hits (MaxMinHeap.contents h)).
Proof.
  intros Hub. revert st P. induction fuel as [|fuel IH]; intros st P Hinv Hf; cbn [maxscore_loop]; apply wp_bind;
    (eapply wp_mono; [apply (maxscore_round_spec ub st P Hinv Hub)|]); intros [[st''|] st']; try done.
  - intros (P' & Hinv' & Hlt). pose proof (mi_next _ _ Hinv'). lia.
  - intros (P' & Hinv' & Hlt). apply (IH st'' P' Hinv'). lia.
Qed.

(** The whole search from fresh cursors. *)
Lemma maxscore_from_start cs : Forall2 walks D cs -> (forall i, pass i = true -> unskipped D cs i) ->
  wp (let* threshold := heap_threshold (MaxMinHeap.make cap) in
      let ub := suffix_bounds cs in
      let next_cand := foldl (fun m c => if cur_vec_id c <? m then cur_vec_id c else m) n cs in
      let* e := shrink_essential ub threshold (length cs) in
      match e with
      | None => Ret (MaxMinHeap.make cap)
      | Some first_ne => maxscore_loop n ix computer ub (mkMs cs (MaxMinHeap.make cap) next_cand first_ne threshold)
      end) (fun h => MaxMinHeap.inv h /\ MaxMinHeap.capacity h = cap /\
    MaxMinHeap.top_of cap hits (MaxMinHeap.contents h)).
Proof.
  intros Hw Hu. destruct (result_make n f filt computer len D cap) as [Hh|]; [|lia].
  rewrite (ri_thr _ _ _ _ _ _ _ _ _ _ Hh). cbn [bind]. cbv zeta.
  pose proof (fun j => suffix_bounds_lookup cs j Hw) as Hub. rewrite <- (Forall2_length _ _ _ Hw).
  apply wp_bind. eapply wp_mono; [apply (shrink_spec _ 0%Z (length D) (le_n _) Hub)|].
  { unfold tail_bound. by rewrite drop_all. }
  pose proof (next_of_all cs Hw) as Hm. pose proof (next_of_pass _ _ _ Hw Hm) as Hpm. destruct Hm as (Hmn & Hle & _).
  intros [k|].
  - intros [Hk Ht]. eapply maxscore_loop_spec; [exact Hub| |simpl; lia]. split; simpl; try done.
    + by intros i ?%elem_of_nil.
    + intros i Hi Hp _. rewrite score_all. unfold head_score. rewrite zsum_zero; [lia|].
      intros p [_ Hpl]%elem_of_seq. destruct (lookup_lt_is_Some_2 D p) as [d Hd]; [lia|]. rewrite (con_at i p d Hd).
      destruct (Forall2_lookup_l _ _ _ _ _ Hw Hd) as (c & Hc & _). apply contrib_none. intros Hin.
      pose proof (Forall2_at _ _ _ _ _ _ (Hu i Hp) Hd Hc Hin). apply lookup_lt_Some in Hc as Hcl.
      specialize (Hle p c Hcl Hc). lia.
    + intros i Hi Hp. by apply Hu.
    + intros p c Hp Hc. apply (Hle p c); [by eapply lookup_lt_Some|done].
  - intros Ht. pose proof Hh as []. split_and!; [done|done|by eapply ms_exhausted].
Qed.

End maxscore.
