(* ===== verification/SparseExact.v ===== *)
(** * Pruned search returns what exhaustive search returns

    [Add] keeps, for every dimension, an upper bound on the score of its
    postings; with it the cursors that WAND and MaxScore make satisfy the
    hypotheses of their invariants, and both searches return the best rows. *)

From S2P Require Import Prelude Float Num StdHeap SparseUtils Bitset Expected SparseIndex SparseIndexSpec SparseSearch SparseProps SparseDaat SparseWand SparseMaxScore.

Lemma wp_ret_mono {B} (m : M B) (P R : B -> Prop) : wp m P -> (forall b, m = Ret b -> P b -> R b) -> wp m R.
Proof. intros H HR. apply wp_elim in H as (b & -> & Hb). by apply HR. Qed.

Lemma omap_ext_elem {B C} (g h : B -> option C) (l : list B) : (forall x, x ∈ l -> g x = h x) -> omap g l = omap h l.
Proof.
  induction l as [|x l IH]; intros H; [done|]. cbn [omap list_omap]. rewrite (H x) by (apply elem_of_cons; by left).
  rewrite IH; [done|]. intros y Hy. apply H, elem_of_cons. by right.
Qed.

(** ** The bounds kept by Add *)

Section bounds.
Context {Q} `{!Quant Z Q} (algo : InvertedIndexAlgo).
Hypothesis Hdaat : is_daat algo = true.
Implicit Types ix : InvertedIndex Z Q.
Implicit Types rows : list (SparseRow Z).
Implicit Types row : SparseRow Z.

(** The computer with which the index bounds its postings. *)
Definition bound_computer ix : DocValueComputer Z :=
  if is_bm25 ix then match bm25_params ix with Some p => max_score_computer p | None => GetDocValueOriginalComputer end
  else GetDocValueOriginalComputer.

Definition bound_len ix row : Z := if is_bm25 ix then row_sum row else 0%Z.

(** [m] bounds the scores of the values of [rows] in dimension [d]. *)
Definition bounds_dim ix rows (d : Z) (m : Z) : Prop :=
  (0 <= m)%Z /\ forall row v, row ∈ rows -> row_val row d = Some v -> (bound_computer ix v (bound_len ix row) <= m)%Z.

Definition bounded ix rows : Prop :=
  forall d k m, dim_map ix !! d = Some k -> max_score_in_dim ix !! k = Some m -> bounds_dim ix rows d m.

(** The bounds do not depend on anything but metric and parameters. *)
Lemma bounds_dim_meta ix ix' rows d m : metric_type ix' = metric_type ix ->
  (bm25_params ix' = bm25_params ix \/ exists p p', bm25_params ix = Some p /\ bm25_params ix' = Some p' /\
     max_score_computer p' = max_score_computer p) ->
  bounds_dim ix rows d m -> bounds_dim ix' rows d m.
Proof.
  intros Hmt Hbm [Hp Hr]. split; [done|]. intros row v Hrow Hv. specialize (Hr row v Hrow Hv).
  assert (is_bm25 ix' = is_bm25 ix) as Hb by (unfold is_bm25; by rewrite Hmt).
  unfold bound_computer, bound_len in *. rewrite Hb. destruct (is_bm25 ix); [|done].
  destruct Hbm as [->|(p & p' & Hpp & -> & ->)]; [done|]. by rewrite Hpp in Hr.
Qed.

(** What [post_value] does to the table of bounds. *)
Lemma post_value_bounds ix s d v k ix' s' : post_value algo k (ix, s) (d, v) = Ret (ix', s') ->
  (dim_map ix' = dim_map ix /\ max_score_in_dim ix' = max_score_in_dim ix) \/
  (dim_map ix !! d = None /\ dim_map ix' = <[d := next_dim_id ix]> (dim_map ix) /\
   max_score_in_dim ix' = max_score_in_dim ix ++ [0%Z]).
Proof.
  unfold post_value. destruct (neqb v nzero); [intros [= <- <-]; by left|].
  destruct (dim_map ix !! d) as [e|] eqn:He; intros H;
    apply bind_Ret_inv in H as (? & _ & H); apply bind_Ret_inv in H as (? & _ & H);
    apply bind_Ret_inv in H as (? & _ & H); apply bind_Ret_inv in H as (? & _ & H); injection H as <- <-; simpl.
  - by left.
  - right. rewrite Hdaat. done.
Qed.

Lemma row_val_stored row d v : row_val row d = Some v -> (d, v) ∈ row /\ neqb v nzero = false.
Proof.
  induction row as [|[d' w] row IH]; [done|]. simpl. destruct (Z.eqb_spec d' d) as [->|]; simpl.
  - destruct (w =? 0)%Z eqn:Hw; simpl; [|intros [= ->]; split; [apply elem_of_cons; by left|done]].
    intros [? ?]%IH. split; [apply elem_of_cons; by right|done].
  - intros [? ?]%IH. split; [apply elem_of_cons; by right|done].
Qed.

Lemma post_value_bounded ix s rows r d v : lists_ok algo ix (rows ++ [r]) -> d ∉ fst <$> r -> bounded ix rows ->
  wp (post_value algo (length rows) (ix, s) (d, v)) (fun '(ix', s') =>
    lists_ok algo ix' (rows ++ [r ++ [(d, v)]]) /\ same_meta ix ix' /\
    s' = (if is_bm25 ix then nadd s v else s) /\ bounded ix' rows).
Proof.
  intros Hok Hd Hb. eapply wp_ret_mono; [by apply post_value_spec|]. intros [ix' s'] Heq (Hok' & Hm & Hs').
  split; [done|]. split; [done|]. split; [done|]. intros e k m Hk Hmk.
  assert (bounds_dim ix rows e m -> bounds_dim ix' rows e m) as Hmeta.
  { destruct Hm as (_ & ? & _ & _ & ? & _). apply bounds_dim_meta; [done|by left]. }
  apply Hmeta. destruct (post_value_bounds _ _ _ _ _ _ _ Heq) as [[Hdm Hms]|(Hnone & Hdm & Hms)].
  - rewrite Hdm in Hk. rewrite Hms in Hmk. by apply (Hb e k).
  - rewrite Hdm, lookup_insert in Hk. rewrite Hms in Hmk. case_decide as Hde.
    + injection Hk as <-. subst e. rewrite lookup_app_r in Hmk by (by rewrite (lo_ms _ _ _ Hok)).
      rewrite (lo_ms _ _ _ Hok Hdaat), Nat.sub_diag in Hmk. injection Hmk as <-. split; [done|].
      intros row w [i Hi]%list_elem_of_lookup Hw. exfalso.
      assert ((i, w) ∈ posting (rows ++ [r]) d) as Hin.
      { apply elem_of_posting_from. split; [lia|]. exists row. rewrite Nat.sub_0_r. split; [|done]. by apply lookup_app_l_Some. }
      rewrite (lo_none _ _ _ Hok d Hnone) in Hin. by apply elem_of_nil in Hin.
    + rewrite lookup_app_l in Hmk; [by apply (Hb e k)|]. rewrite (lo_ms _ _ _ Hok Hdaat). by eapply lo_bound.
Qed.

Lemma post_row_bounded ix rows row : lists_ok algo ix (rows ++ [[]]) -> row_ok row -> bounded ix rows ->
  wp (foldM (post_value algo (length rows)) (ix, nzero) row) (fun '(ix', sum) =>
    lists_ok algo ix' (rows ++ [row]) /\ same_meta ix ix' /\ sum = bound_len ix row /\ bounded ix' rows).
Proof.
  intros Hok Hnd Hb.
  apply (wp_foldM _ (fun pre '(ix', sum) => lists_ok algo ix' (rows ++ [pre]) /\ same_meta ix ix' /\
    sum = bound_len ix pre /\ bounded ix' rows)).
  - refine (conj Hok (conj (reflexivity _) (conj _ Hb))). unfold bound_len. by destruct (is_bm25 ix).
  - intros pre [d v] post [ix' sum] -> (Hok' & Hm & -> & Hb'). unfold row_ok in Hnd.
    rewrite fmap_app, fmap_cons in Hnd. apply NoDup_app in Hnd as (_ & Hd & _).
    assert (d ∉ pre.*1) by (intros Hin; apply (Hd d Hin), elem_of_cons; by left).
    eapply wp_mono; [by apply post_value_bounded|]. intros [ix'' sum'] (Hok2 & Hm' & -> & Hb2).
    assert (is_bm25 ix' = is_bm25 ix) as -> by (unfold is_bm25; by destruct Hm as (_ & -> & _)).
    refine (conj Hok2 (conj (transitivity Hm Hm') (conj _ Hb2))).
    unfold bound_len, row_sum. rewrite foldl_app. by destruct (is_bm25 ix).
  - done.
Qed.

(** Raising: no bound sinks, and those of the elements reach their scores. *)
Definition raised ix (sum : Z) (l : SparseRow Z) ix' : Prop :=
  dim_map ix' = dim_map ix /\ metric_type ix' = metric_type ix /\ bm25_params ix' = bm25_params ix /\
  forall k m', max_score_in_dim ix' !! k = Some m' -> exists m, max_score_in_dim ix !! k = Some m /\ (m <= m')%Z /\
    forall d v, (d, v) ∈ l -> neqb v nzero = false -> dim_map ix !! d = Some k -> (bound_computer ix v sum <= m')%Z.

Lemma bound_computer_meta ix ix' : metric_type ix' = metric_type ix -> bm25_params ix' = bm25_params ix ->
  bound_computer ix' = bound_computer ix /\ bound_len ix' = bound_len ix.
Proof. intros Hm Hb. unfold bound_computer, bound_len, is_bm25. by rewrite Hm, Hb. Qed.

Lemma raise_step ix sum d v ix' : raise_max_score sum ix (d, v) = Ret ix' -> raised ix sum [(d, v)] ix'.
Proof.
  unfold raise_max_score. destruct (neqb v nzero) eqn:Hv.
  { intros [= <-]. split_and!; [done..|]. intros k m Hm. exists m. split_and!; [done|lia|].
    intros d' v' [= -> ->]%list_elem_of_singleton. congruence. }
  destruct (dim_map ix !! d) as [e|] eqn:He; [|done]. intros H.
  apply bind_Ret_inv in H as (sc & Hsc & H). apply bind_Ret_inv in H as (m & Hm & H).
  apply bind_Ret_inv in H as (ms & Hms & H). injection H as <-. apply vget_Ret in Hm.
  assert (sc = bound_computer ix v sum) as ->.
  { unfold bound_computer. unfold bm25_of in Hsc. destruct (is_bm25 ix); [|by injection Hsc].
    destruct (bm25_params ix); [|done]. by injection Hsc. }
  unfold vset in Hms. case_decide as Hl; [|done]. injection Hms as <-.
  split_and!; [done..|]. simpl. intros k m'. rewrite list_lookup_insert. case_decide as Hk.
  - destruct Hk as [<- _]. intros [= <-]. exists m. split; [done|]. unfold nmax. cbn [nltb Z_num].
    destruct (Z.ltb_spec m (bound_computer ix v sum)); (split; [lia|]); intros d' v' [= -> ->]%list_elem_of_singleton _ _; lia.
  - intros Hk'. exists m'. split_and!; [done|lia|]. intros d' v' [= -> ->]%list_elem_of_singleton _ Hd'.
    rewrite He in Hd'. injection Hd' as <-. tauto.
Qed.

Lemma raise_all ix sum l ix' : foldM (raise_max_score sum) ix l = Ret ix' -> raised ix sum l ix'.
Proof.
  revert ix. induction l as [|[d v] l IH]; intros ix H.
  { injection H as <-. split_and!; [done..|]. intros k m Hm. exists m. split_and!; [done|lia|]. by intros ? ? ?%elem_of_nil. }
  cbn [foldM] in H. apply bind_Ret_inv in H as (ix1 & H1 & H). apply raise_step in H1 as (Hd1 & Hm1 & Hb1 & Hr1).
  apply IH in H as (Hd2 & Hm2 & Hb2 & Hr2). destruct (bound_computer_meta ix ix1 Hm1 Hb1) as [Hbc _].
  split_and!; [congruence..|]. intros k m2 Hk2. destruct (Hr2 k m2 Hk2) as (m1 & Hk1 & Hle2 & Hin2).
  destruct (Hr1 k m1 Hk1) as (m & Hk & Hle1 & Hin1). exists m. split_and!; [done|lia|].
  intros d' v' Hdv Hnz Hd'. apply elem_of_cons in Hdv as [[= -> ->]|Hdv].
  - specialize (Hin1 d v ltac:(by apply list_elem_of_singleton) Hnz Hd'). lia.
  - rewrite <- Hbc. apply (Hin2 d'); [done|done|congruence].
Qed.

Lemma raise_bounded ix rows row : bounded ix rows ->
  wp (foldM (raise_max_score (bound_len ix row)) ix row) (fun ix' => True) ->
  wp (foldM (raise_max_score (bound_len ix row)) ix row) (fun ix' => bounded ix' (rows ++ [row])).
Proof.
  intros Hb Hwp. eapply wp_ret_mono; [exact Hwp|]. intros ix' Heq%raise_all _. destruct Heq as (Hd & Hm & Hbm & Hr).
  intros d k m' Hk Hm'. rewrite Hd in Hk. destruct (Hr k m' Hm') as (m & Hmk & Hle & Hin).
  apply (bounds_dim_meta ix); [done|by left|]. destruct (Hb d k m Hk Hmk) as [H0 Hrows]. split; [lia|].
  intros r v [Hrow|Hrow]%elem_of_app Hv; [specialize (Hrows r v Hrow Hv); lia|].
  apply list_elem_of_singleton in Hrow as ->. apply row_val_stored in Hv as [Hv Hnz]. by apply (Hin d).
Qed.

(** Adding a row. *)
Lemma add_row_bounded ix rows row : lists_ok algo ix rows -> sums_ok ix rows -> row_ok row -> bounded ix rows ->
  wp (add_row_to_index algo ix row (length rows)) (fun ix' =>
    lists_ok algo ix' (rows ++ [row]) /\ sums_ok ix' (rows ++ [row]) /\ frame ix ix' /\
    bounded ix' (rows ++ [row]) /\ bound_computer ix' = bound_computer ix).
Proof.
  intros Hok Hsums Hrow Hb. eapply wp_ret_mono; [by apply add_row_spec|]. intros ix' Heq (Hok' & Hs' & Hf).
  refine (conj Hok' (conj Hs' (conj Hf _))). unfold add_row_to_index in Heq. apply bind_Ret_inv in Heq as ([ix1 sum] & H1 & Heq).
  pose proof (post_row_bounded ix rows row (lists_ok_snoc_nil algo ix rows Hok) Hrow Hb) as Hp.
  rewrite H1 in Hp. destruct Hp as (Hok1 & Hm1 & -> & Hb1). pose proof Hm1 as (_ & Hmt & _ & _ & Hbm & _).
  destruct (bound_computer_meta ix ix1 Hmt Hbm) as [Hbc Hbl]. rewrite Hdaat in Heq.
  apply bind_Ret_inv in Heq as (ix2 & H2 & Heq).
  pose proof (raise_bounded (push_nnz ix1 (length row)) rows row) as Hr.
  change (bound_len (push_nnz ix1 (length row))) with (bound_len ix1) in Hr. rewrite Hbl in Hr.
  specialize (Hr Hb1). rewrite H2 in Hr. specialize (Hr Logic.I). cbn [wp] in Hr.
  apply raise_all in H2 as (_ & Hm2 & Hbm2 & _). simpl in Hm2, Hbm2.
  assert (bound_computer ix2 = bound_computer ix) as Hbc2.
  { rewrite <- Hbc. by apply bound_computer_meta. }
  destruct (is_bm25 ix2) eqn:Hb25; [|by injection Heq as <-].
  apply bind_Ret_inv in Heq as (p & Hp & Heq). injection Heq as <-. unfold bm25_of in Hp.
  destruct (bm25_params ix2) as [p'|] eqn:Hp'; [|done]. injection Hp as ->. split.
  - intros d k m Hk Hm. apply (bounds_dim_meta ix2); [done| |by apply (Hr d k)]. right. by eexists _, _.
  - rewrite <- Hbc2. unfold bound_computer, is_bm25 in *. simpl. by rewrite Hp'.
Qed.

Lemma publish_bounds ix rows n dim ix' : publish ix n dim = Ret ix' -> bounded ix rows ->
  bounded ix' rows /\ bound_computer ix' = bound_computer ix.
Proof.
  unfold publish. intros H Hb. apply bind_Ret_inv in H as (? & _ & H). apply bind_Ret_inv in H as (? & _ & H).
  apply bind_Ret_inv in H as (? & _ & H). apply bind_Ret_inv in H as (bm & Hbm & H). injection H as <-. split.
  - intros d k m Hk Hm. apply (bounds_dim_meta ix); [done| |by apply (Hb d k)]. simpl.
    destruct (is_bm25 ix); [|injection Hbm as <-; by left]. unfold bm25_of in Hbm.
    destruct (bm25_params ix) as [p|]; [|done]. injection Hbm as <-. right. by eexists _, _.
  - unfold bound_computer. change (is_bm25 _) with (is_bm25 ix) at 1. simpl. destruct (is_bm25 ix); [|done].
    unfold bm25_of in Hbm. destruct (bm25_params ix); [|done]. by injection Hbm as <-.
Qed.

(** [Add] on a new index: representation and bounds. *)
Lemma Add_bounded metric bm data dim :
  (metric = METRIC_BM25 -> exists p, bm = Some p /\ row_sums p = [] /\ row_sums_spans p = []) ->
  Forall row_ok data ->
  wp (Add algo (new_index metric bm) data dim) (fun ix => represents algo ix data /\ metric_type ix = metric /\
    bounded ix data /\ bound_computer ix = bound_computer (new_index metric bm : InvertedIndex Z Q)).
Proof.
  intros Hbm Hdata. set (ix0 := new_index metric bm : InvertedIndex Z Q).
  pose proof (represents_new algo metric bm Hbm) as Hrep. fold ix0 in Hrep.
  eapply wp_ret_mono; [by apply (Add_spec algo ix0 [] data dim Hrep)|]. intros ix Heq (Hrep' & Hmt & _).
  refine (conj Hrep' (conj Hmt _)). unfold Add in Heq. apply bind_Ret_inv in Heq as (ix1 & H1 & Heq).
  assert (wp (foldM (fun ix i => let* row := vget data i in add_row_to_index algo ix row (n_rows_internal ix0 + i)) ix0 (seq 0 (length data)))
    (fun ix' => lists_ok algo ix' data /\ sums_ok ix' data /\ bounded ix' data /\ bound_computer ix' = bound_computer ix0)) as Hfold.
  { apply (wp_for _ (fun i ix' => lists_ok algo ix' (take i data) /\ sums_ok ix' (take i data) /\
      bounded ix' (take i data) /\ bound_computer ix' = bound_computer ix0)).
    - refine (conj _ (conj _ (conj _ eq_refl))); [apply Hrep| |].
      + intros Hb. destruct (re_sums _ _ _ Hrep Hb) as (p & ? & ? & _). by exists p.
      + intros d k m Hk. simpl in Hk. by rewrite lookup_empty in Hk.
    - intros i ix' Hi (Hl & Hs & Hb & Hc). apply wp_bind, wp_vget; [lia|]. intros row Hrow.
      replace (n_rows_internal ix0 + i) with (length (take i data)) by (rewrite length_take; simpl; lia).
      eapply wp_mono; [apply add_row_bounded; [done..|by eapply Forall_lookup_1|done]|].
      intros ix'' (? & ? & _ & ? & Hc'). rewrite Nat.add_1_r, (take_S_r _ _ _ Hrow).
      refine (conj _ (conj _ (conj _ _))); [done..|congruence].
    - rewrite Nat.add_0_l, take_ge by lia. done. }
  rewrite H1 in Hfold. destruct Hfold as (_ & _ & Hb & Hc). destruct (publish_bounds _ data _ _ _ Heq Hb) as [? Hc'].
  split; [done|congruence].
Qed.

End bounds.

(** ** The cursors of a query *)

Section query.
Context {Q} `{!Quant Z Q, !StdSort} (algo : InvertedIndexAlgo).
Hypothesis Hdaat : is_daat algo = true.
Context {ix : InvertedIndex Z Q} {rows : list (SparseRow Z)}.
Hypothesis Hrep : represents algo ix rows.
Hypothesis Hbound : bounded ix rows.
Context (computer : DocValueComputer Z) (ratio : Z).
Hypothesis Hratio : (1 <= ratio)%Z.
(** The computer is positive and within the index's bounds on the rows' values. *)
Hypothesis Hcomp : forall row d v, row ∈ rows -> row_val row d = Some v ->
  (0 < computer (stored (get_quant_val v)) (dlen (ix:=ix) row) <= bound_computer ix v (dlen (ix:=ix) row))%Z.

Definition row_len (i : nat) : Z := default 0%Z (dlen (ix:=ix) <$> rows !! i).

Definition query_plist (q : nat * Z) : plist Q :=
  mkPlist (zip (inverted_index_ids ix !!! q.1) (inverted_index_vals ix !!! q.1))
    ((max_score_in_dim ix !!! q.1) * q.2 * ratio) q.2.

Lemma query_postings d k qv : dim_map ix !! d = Some k ->
  pl_posts (query_plist (k, qv)) = (fun e => (e.1, get_quant_val e.2)) <$> posting rows d.
Proof.
  intros Hk. unfold query_plist. cbn [pl_posts fst].
  rewrite (list_lookup_total_correct _ _ _ (lo_ids _ _ _ (re_lists _ _ _ Hrep) d k Hk)).
  rewrite (list_lookup_total_correct _ _ _ (lo_vals _ _ _ (re_lists _ _ _ Hrep) d k Hk)).
  by rewrite zip_with_fmap_l, zip_with_fmap_r, zip_with_diag.
Qed.

Lemma query_ids d k qv : dim_map ix !! d = Some k -> pl_ids (query_plist (k, qv)) = (posting rows d).*1.
Proof. intros Hk. unfold pl_ids. by rewrite (query_postings d k qv Hk), <- list_fmap_compose. Qed.

(** A term's contribution is what the reference score adds for it. *)
Lemma query_contrib d k qv i row : dim_map ix !! d = Some k -> rows !! i = Some row ->
  contrib computer row_len (query_plist (k, qv)) i = (term (ix:=ix) computer row 0 (d, qv))%Z.
Proof.
  intros Hk Hrow. unfold term, contrib. rewrite (query_postings d k qv Hk). simpl.
  assert (forall v, (i, v) ∈ posting rows d <-> row_val row d = Some v) as Hin.
  { intros v. unfold posting. rewrite elem_of_posting_from, Nat.sub_0_r, Hrow.
    split; [intros (_ & r & [= <-] & ?); done|]. intros Hv. split; [lia|]. by exists row. }
  destruct (assoc _ i) as [w|] eqn:Ha.
  - apply assoc_Some, list_elem_of_fmap in Ha as ([j v] & [= -> ->] & Hv). apply Hin in Hv as ->.
    unfold weight, row_len. simpl. by rewrite Hrow.
  - destruct (row_val row d) as [v|] eqn:Hv; [|done].
    assert ((i, v) ∈ posting rows d) as [j Hj]%list_elem_of_lookup by (by apply Hin).
    rewrite (assoc_lookup _ j i (get_quant_val v)) in Ha; [done| |by rewrite list_lookup_fmap, Hj].
    rewrite <- list_fmap_compose. simpl. apply sorted_NoDup, posting_from_sorted.
Qed.

(** The query of the index's dimensions. *)
Definition known (q : SparseRow Z) : list (nat * Z) := omap (fun e => (fun k => (k, snd e)) <$> dim_map ix !! (fst e)) q.

Lemma elem_of_known q k qv : (k, qv) ∈ known q -> exists d, (d, qv) ∈ q /\ dim_map ix !! d = Some k.
Proof.
  intros (e & He & Hk)%list_elem_of_omap. destruct (dim_map ix !! e.1) as [k'|] eqn:Hd; [|done].
  injection Hk as <- <-. exists e.1. by destruct e.
Qed.

Lemma known_score q i row : rows !! i = Some row ->
  score computer row_len (query_plist <$> known q) i = ref_score (ix:=ix) computer q row.
Proof.
  intros Hrow. unfold ref_score, score. cut (forall s, (s + zsum ((fun d => contrib computer row_len d i) <$> (query_plist <$> known q)))%Z =
    foldl (term (ix:=ix) computer row) s q); [intros Hs; specialize (Hs 0%Z); by rewrite Z.add_0_l in Hs|].
  induction q as [|[d qv] q IH]; intros s; [unfold zsum; simpl; lia|]. unfold known in *. cbn [omap list_omap fst snd foldl].
  destruct (dim_map ix !! d) as [k|] eqn:Hk; cbn [fmap option_fmap option_map].
  - rewrite <- IH, !fmap_cons. unfold zsum at 1. cbn [foldr].
    fold (zsum ((fun d => contrib computer row_len d i) <$> (query_plist <$> omap (fun e => (fun k => (k, snd e)) <$> dim_map ix !! fst e) q))).
    rewrite (query_contrib d k qv i row Hk Hrow). unfold term. cbn [fst snd]. destruct (row_val row d); cbn [nadd nmul Z_num]; lia.
  - rewrite <- IH. unfold term. cbn [fst snd]. destruct (row_val row d) as [v|] eqn:Hv; [exfalso|done].
    assert ((i, v) ∈ posting rows d) as Hin.
    { apply elem_of_posting_from. split; [lia|]. rewrite Nat.sub_0_r. by exists row. }
    rewrite (lo_none _ _ _ (re_lists _ _ _ Hrep) d Hk) in Hin. by apply elem_of_nil in Hin.
Qed.

(** The posting lists of a non-negative query satisfy the cursors' contract. *)
Lemma query_plist_ok q k qv : Forall (fun e => 0 <= snd e)%Z q -> (k, qv) ∈ known q ->
  plist_ok (length rows) computer row_len (query_plist (k, qv)).
Proof.
  intros Hq Hin. apply elem_of_known in Hin as (d & Hin & Hk). apply (proj1 (Forall_forall _ _) Hq) in Hin. simpl in Hin.
  assert (k < length (max_score_in_dim ix)) as Hl.
  { rewrite (lo_ms _ _ _ (re_lists _ _ _ Hrep) Hdaat). by eapply lo_bound; [apply Hrep|]. }
  destruct (lookup_lt_is_Some_2 _ _ Hl) as [m Hm]. destruct (Hbound d k m Hk Hm) as [Hm0 Hmb].
  assert (forall i v, (i, v) ∈ pl_posts (query_plist (k, qv)) -> exists w row, v = get_quant_val w /\ row ∈ rows /\
    row_len i = dlen (ix:=ix) row /\ row_val row d = Some w) as Hposts.
  { intros i v. rewrite (query_postings d k qv Hk). intros ([j w] & [= -> ->] & Hw)%list_elem_of_fmap.
    apply elem_of_posting_from in Hw as (_ & row & Hrow & Hw). rewrite Nat.sub_0_r in Hrow. exists w, row.
    split_and!; [done|by eapply list_elem_of_lookup_2| |done]. unfold row_len. simpl. by rewrite Hrow. }
  assert (max_score_in_dim ix !!! k = m) as Hmt by (by apply list_lookup_total_correct).
  split.
  - rewrite (query_ids d k qv Hk). split; [apply posting_from_sorted|]. apply Forall_forall. intros i Hi.
    apply list_elem_of_fmap in Hi as ([j w] & -> & Hw). apply elem_of_posting_from in Hw as (_ & row & Hrow & _).
    rewrite Nat.sub_0_r in Hrow. by eapply lookup_lt_Some.
  - simpl. rewrite Hmt. nia.
  - intros i v (w & row & -> & Hrow & Hlen & Hw)%Hposts. unfold weight. rewrite Hlen. simpl. rewrite Hmt.
    pose proof (Hcomp row d w Hrow Hw) as Hc. pose proof (Hmb row w Hrow Hw) as Hb. unfold bound_len in Hb. unfold dlen in *.
    assert (computer (stored (get_quant_val w)) (if is_bm25 ix then row_sum row else 0) <= m)%Z by (simpl in *; lia).
    set (x := computer _ _) in *. split; [simpl in *; nia|]. transitivity (m * qv)%Z; [|nia]. simpl in *. nia.
  - simpl. rewrite Hmt. intros Hpos i v (w & row & -> & Hrow & Hlen & Hw)%Hposts. unfold weight. rewrite Hlen. simpl.
    pose proof (Hcomp row d w Hrow Hw) as Hc. assert (0 < qv)%Z by nia. nia.
Qed.

(** ** Making them *)

Context {F} `{!DocIdFilter F} (f : F) (filt : nat -> bool) (I : nat -> F -> Prop).
Hypothesis I_zero : I 0 f.
Hypothesis I_empty : forall i g, I i g -> f_empty g = f_empty f.
Hypothesis I_test : forall i j g, I i g -> i <= j < length rows -> wp (f_test g j) (fun '(g', r) => I j g' /\ r = filt j).

Lemma make_cursors_spec qv : Forall (fun e => plist_ok (length rows) computer row_len (query_plist e) /\
    e.1 < next_dim_id ix) qv ->
  wp (make_cursors ix qv f ratio) (fun cs => Forall2 (walks (length rows) f filt I) (query_plist <$> qv) cs /\
    forall i, passes f filt i = true -> unskipped (query_plist <$> qv) cs i).
Proof.
  intros Hq. unfold make_cursors. apply (wp_foldM _ (fun pre cs =>
    Forall2 (walks (length rows) f filt I) (query_plist <$> pre) cs /\
    forall i, passes f filt i = true -> unskipped (query_plist <$> pre) cs i)).
  - split; [constructor|]. intros i _. constructor.
  - intros pre [k v] post cs -> [Hw Hu]. apply Forall_app in Hq as [_ Hq]. inversion_clear Hq as [|? ? [Hok Hk] _]. simpl in Hk.
    pose proof (re_lists _ _ _ Hrep) as Hl. destruct (lo_surj _ _ _ Hl k Hk) as [d Hd].
    rewrite (re_ids _ _ _ Hrep), (re_vals _ _ _ Hrep), (re_ms _ _ _ Hrep Hdaat), (re_rows _ _ _ Hrep).
    rewrite (proj2 (vget_Ret _ _ _) (lo_ids _ _ _ Hl d k Hd)), (proj2 (vget_Ret _ _ _) (lo_vals _ _ _ Hl d k Hd)). cbn [bind].
    apply wp_bind, wp_vget; [by rewrite (lo_ms _ _ _ Hl Hdaat)|]. intros m Hm. apply wp_bind.
    eapply wp_mono; [apply (make_cursor_spec (length rows) f filt I I_empty I_test); [|done]|].
    { rewrite <- (query_ids d k v Hd). apply Hok. }
    intros c (Hc & Hi & Hv & Hms & Hqv & Hloc & Hx). cbn [wp]. rewrite fmap_app. rewrite <- (query_ids d k v Hd) in Hi, Hloc, Hx.
    split.
    + apply Forall2_app; [done|]. constructor; [|constructor]. split; try done.
      * rewrite Hv, (query_postings d k v Hd), <- list_fmap_compose. done.
      * rewrite Hms. simpl. by rewrite (list_lookup_total_correct _ _ _ Hm).
    + intros i Hp. apply Forall2_app; [by apply Hu|]. constructor; [|constructor]. intros Hin. by apply Hx.
  - done.
Qed.

(** Ranking by the cursors' scores is ranking by the reference scores. *)
Lemma hits_candidates D q : D ≡ₚ query_plist <$> known q ->
  hits (length rows) f filt computer row_len D =
  candidates (ix:=ix) (rows:=rows) computer q (passes f filt) (length rows).
Proof.
  intros HD. unfold hits, candidates. apply omap_ext_elem. intros i Hi%elem_of_seq.
  destruct (lookup_lt_is_Some_2 rows i) as [row Hrow]; [lia|]. rewrite Hrow.
  assert (score computer row_len D i = ref_score (ix:=ix) computer q row) as Hs.
  { rewrite <- (known_score q i row Hrow). unfold score. by rewrite HD. }
  unfold hit. by rewrite Hs.
Qed.

Lemma run_daat_spec q cap : 0 < cap -> Forall (fun e => 0 <= snd e)%Z q ->
  wp (run_algo algo ix (known q) (MaxMinHeap.make cap) f computer ratio) (fun h =>
    MaxMinHeap.inv h /\ MaxMinHeap.capacity h = cap /\
    MaxMinHeap.top_of cap (candidates (ix:=ix) (rows:=rows) computer q (passes f filt) (length rows)) (MaxMinHeap.contents h)).
Proof.
  intros Hcap Hq.
  assert (forall e, e ∈ known q -> plist_ok (length rows) computer row_len (query_plist e) /\ e.1 < next_dim_id ix) as Hok.
  { intros [k v] Hin. split; [by apply (query_plist_ok q)|]. apply elem_of_known in Hin as (d & _ & Hk).
    by eapply lo_bound; [apply Hrep|]. }
  assert (forall i, i < length rows -> doc_len ix i = Ret (row_len i)) as Hlen.
  { intros i Hi. destruct (lookup_lt_is_Some_2 rows i Hi) as [row Hrow]. rewrite (doc_len_spec algo Hrep i row Hrow).
    unfold row_len. by rewrite Hrow. }
  pose proof (re_rows _ _ _ Hrep) as Hn. unfold run_algo.
  assert (algo = DAAT_WAND \/ algo = DAAT_MAXSCORE) as [Ha|Ha] by (clear -Hdaat; destruct algo; auto; done); rewrite Ha.
  - unfold search_daat_wand. apply wp_bind. eapply wp_mono; [apply make_cursors_spec; by apply Forall_forall|].
    intros cs [Hw Hu]. eapply wp_mono; [eapply (wand_from_start (length rows) f filt I I_empty I_test computer row_len
      (query_plist <$> known q)); try done|].
    + apply Forall_fmap, Forall_forall. intros e He. by apply Hok.
    + by rewrite <- (hits_candidates _ q (reflexivity _)).
  - unfold search_daat_maxscore. set (qs := std_sort (by_bound ix) (known q)).
    assert (qs ≡ₚ known q) as Hqs by apply std_sort_perm. apply wp_bind.
    eapply wp_mono; [apply make_cursors_spec; apply Forall_forall; intros e He; apply Hok; by rewrite <- Hqs|].
    intros cs [Hw Hu]. rewrite Hn. eapply wp_mono; [eapply (maxscore_from_start (length rows) f filt I I_empty I_test computer row_len
      (query_plist <$> qs)); try done|].
    + apply Forall_fmap, Forall_forall. intros e He. apply Hok. by rewrite <- Hqs.
    + rewrite <- (hits_candidates (query_plist <$> qs) q) by (by rewrite Hqs). done.
Qed.

End query.

(** ** Draining a heap *)

Lemma drain_spec (h : MaxMinHeap.t Z) : MaxMinHeap.inv h ->
  wp (drain h) (fun ids => ids ≡ₚ IdVal.id <$> MaxMinHeap.contents h).
Proof.
  intros Hinv. unfold drain. apply wp_bind.
  apply (wp_whileM _ _ _ _ (fun st => MaxMinHeap.inv st.1 /\
      st.2 ++ (IdVal.id <$> MaxMinHeap.contents st.1) ≡ₚ IdVal.id <$> MaxMinHeap.contents h) (fun st => MaxMinHeap.size st.1)).
  - done.
  - simpl. lia.
  - intros [h' ids] [Hinv' Hids] Hne. simpl in *. unfold MaxMinHeap.empty in Hne.
    destruct (Nat.eqb_spec (MaxMinHeap.size h') 0) as [|Hsz]; [done|]. apply wp_bind.
    eapply wp_mono; [apply MaxMinHeap.pop_spec; [done|lia]|].
    intros [h2 u] (Hinv2 & _ & t & rest & Hc & -> & Hrest). cbn [wp fst snd].
    pose proof (MaxMinHeap.length_contents h' Hinv') as Hl. pose proof (MaxMinHeap.length_contents h2 Hinv2) as Hl2.
    rewrite Hc in Hl, Hids. rewrite Hrest in Hl2. simpl in Hl. refine (conj (conj Hinv2 _) _); [|lia].
    rewrite <- Hids, Hrest, <- app_assoc. done.
  - intros [h' ids] [Hinv' Hids] He. simpl in *. unfold MaxMinHeap.empty in He.
    destruct (Nat.eqb_spec (MaxMinHeap.size h') 0) as [Hz|]; [|done].
    unfold MaxMinHeap.contents in Hids at 1. rewrite Hz, app_nil_r in Hids. done.
Qed.

(** ** The guarantees *)

(** Rows with one element per dimension; a computer that is positive on their
    values and does not exceed the one the index takes its bounds from. *)
Definition admissible {Q} `{!Quant Z Q} (metric : SparseMetricType) (bm : option (BM25Params Z))
    (computer : DocValueComputer Z) (data : list (SparseRow Z)) : Prop :=
  let ix := new_index metric bm : InvertedIndex Z Q in
  Forall row_ok data /\
  (metric = METRIC_BM25 -> exists p, bm = Some p /\ row_sums p = [] /\ row_sums_spans p = []) /\
  forall row d v, row ∈ data -> (d, v) ∈ row -> v <> 0%Z ->
    (0 < computer (stored (get_quant_val v)) (bound_len ix row) <= bound_computer ix v (bound_len ix row))%Z.

Section guarantees.
Context {Q} `{!Quant Z Q, !StdSort}.
Implicit Types ix : InvertedIndex Z Q.

Lemma Add_admissible algo metric bm data dim computer : is_daat algo = true -> admissible (Q:=Q) metric bm computer data ->
  exists ix, Add (Q:=Q) algo (new_index metric bm) data dim = Ret ix /\ represents algo ix data /\ bounded ix data /\
    forall row d v, row ∈ data -> row_val row d = Some v ->
      (0 < computer (stored (get_quant_val v)) (dlen (ix:=ix) row) <= bound_computer ix v (dlen (ix:=ix) row))%Z.
Proof.
  intros Ha (Hrows & Hbm & Hc). destruct (wp_elim _ _ (Add_bounded algo Ha metric bm data dim Hbm Hrows)) as (ix & Hadd & Hrep & Hmt & Hb & Hbc).
  exists ix. refine (conj Hadd (conj Hrep (conj Hb _))). intros row d v Hrow Hv. apply row_val_stored in Hv as [Hv Hnz].
  rewrite Hbc. specialize (Hc row d v Hrow Hv). simpl in Hnz. apply Z.eqb_neq in Hnz. specialize (Hc Hnz).
  unfold bound_len, dlen, is_bm25 in *. simpl in Hc. by rewrite Hmt.
Qed.

Lemma candidates_ext ix rows computer q p p' n : (forall i, p i = p' i) ->
  candidates (ix:=ix) (rows:=rows) computer q p n = candidates (ix:=ix) (rows:=rows) computer q p' n.
Proof. intros Hp. apply omap_ext_elem. intros i _. by rewrite Hp. Qed.

Lemma known_nil ix algo rows computer q p : represents algo ix rows -> known (ix:=ix) q = [] ->
  candidates (ix:=ix) (rows:=rows) computer q p (length rows) = [].
Proof.
  intros Hrep Hk. unfold candidates. rewrite (omap_ext_elem _ (fun _ => None)).
  - generalize (seq 0 (length rows)). intros l. by induction l.
  - intros i Hi%elem_of_seq. destruct (rows !! i) as [row|] eqn:Hrow; [|done].
    pose proof (known_score algo Hrep computer 1%Z q i row Hrow) as Hs. rewrite Hk in Hs. unfold score, zsum in Hs. simpl in Hs.
    rewrite <- Hs. cbn [neqb nzero Z_num]. by rewrite Z.eqb_refl, andb_false_r.
Qed.

Lemma parse_known ix q : parse_query ix q 0%Z = Ret (known (ix:=ix) q).
Proof. by apply parse_query_all. Qed.

(** C8: pruned search is exact.  Build a WAND or MaxScore index from rows whose
    scores are positive and bounded by the computer given at load time; then for
    a query with weights that are not negative, no dropped terms, no refinement
    and a bound ratio of at least 1, [Search] returns (it terminates and reads
    nothing out of range), in exact arithmetic, [k] of the best scores among the
    rows that pass the bitset with a score that is not zero, best first: what
    the exhaustive search returns. *)
Theorem daat_search_returns_topk algo metric bm data dim q k bitset computer params :
  is_daat algo = true -> admissible (Q:=Q) metric bm computer data -> Forall (fun e => 0 <= snd e)%Z q ->
  0 < k -> BitsetView.plain bitset -> refine_factor params = 1 -> drop_ratio_search params = 0%Z ->
  (1 <= dim_max_score_ratio params)%Z ->
  let pass i := BitsetView.empty bitset ||
    negb ((BitsetView.num_bits bitset <=? i) || BitsetView.filtered bitset i) in
  exists ix res out, Add (Q:=Q) algo (new_index metric bm) data dim = Ret ix /\
    Search algo ix q k bitset computer params = Ret res /\
    MaxMinHeap.top_of k (candidates (ix:=ix) (rows:=data) computer q pass (length data)) out /\
    descending out /\ results_written out (replicate k nnan) (replicate k (-1)%Z) res.
Proof.
  intros Ha Hadm Hq Hk Hbs Href Hdrop Hratio pass.
  destruct (Add_admissible algo metric bm data dim computer Ha Hadm) as (ix & Hadd & Hrep & Hb & Hc). exists ix.
  destruct (bitset_filter_ok (length data) bitset Hbs) as (I & HI0 & HIe & HIt).
  pose proof (run_daat_spec algo Ha Hrep Hb computer _ Hratio Hc bitset _ I HI0 HIe HIt q k Hk Hq) as Hrun.
  change (passes bitset _) with pass in Hrun.
  apply wp_elim in Hrun as (h & Hh & Hinv & Hcap & Htop).
  unfold Search. rewrite Hdrop, parse_known. cbn [bind].
  assert (known (ix:=ix) q = [] -> exists res out, Ret (replicate k nnan, replicate k (-1)%Z) = Ret res /\
    MaxMinHeap.top_of k (candidates (ix:=ix) (rows:=data) computer q pass (length data)) out /\ descending out /\
    results_written out (replicate k nnan) (replicate k (-1)%Z) res) as Hnone.
  { intros Hn. rewrite (known_nil ix algo data computer q pass Hrep Hn). eexists _, [].
    split_and!; [done|apply MaxMinHeap.top_of_nil|constructor|done]. }
  destruct (collect_top k h _ Hinv Hcap Htop) as (res & out & Hres & Hout & Hdesc & Hw).
  destruct q as [|e q']; [destruct (Hnone eq_refl) as (r & o & ?); by exists r, o|].
  destruct (known (ix:=ix) (e :: q')) as [|t qv] eqn:Hkn; [destruct (Hnone eq_refl) as (r & o & ?); by exists r, o|].
  rewrite Href, Nat.mul_1_r, Hh. cbn [bind Nat.eqb]. by exists res, out.
Qed.

(** the refinement pass ranks by exact scores of the whole query.  Whatever
    heap the first pass left, [refine_and_collect] returns the [k] best of the
    documents in it, best first; but when that heap is empty its document filter
    is empty too and filters nothing, so the best of all rows are returned,
    including the rows that the bitset of the search excluded. *)
Theorem refine_ranks_first_pass algo metric bm data dim q k computer params :
  is_daat algo = true -> admissible (Q:=Q) metric bm computer data -> Forall (fun e => 0 <= snd e)%Z q -> 0 < k ->
  exists ix, Add (Q:=Q) algo (new_index metric bm) data dim = Ret ix /\
    forall h, MaxMinHeap.inv h ->
    let pass i := match MaxMinHeap.contents h with [] => true | _ => bool_decide (i ∈ (IdVal.id <$> MaxMinHeap.contents h)) end in
    exists res out,
      refine_and_collect algo ix q h k (replicate k nnan) (replicate k (-1)%Z) computer params = Ret res /\
      MaxMinHeap.top_of k (candidates (ix:=ix) (rows:=data) computer q pass (length data)) out /\
      descending out /\ results_written out (replicate k nnan) (replicate k (-1)%Z) res.
Proof.
  intros Ha Hadm Hq Hk. destruct (Add_admissible algo metric bm data dim computer Ha Hadm) as (ix & Hadd & Hrep & Hb & Hc).
  exists ix. split; [done|]. intros h Hinv pass. unfold refine_and_collect.
  destruct (wp_elim _ _ (drain_spec h Hinv)) as (ids & Hdr & Hids). rewrite Hdr. cbn [bind].
  rewrite parse_known. cbn [bind].
  destruct (known (ix:=ix) q) as [|t qv] eqn:Hkn.
  { rewrite (known_nil ix algo data computer q pass Hrep Hkn). eexists _, [].
    split_and!; [done|apply MaxMinHeap.top_of_nil|constructor|done]. }
  destruct (doc_filter_ok (length data) ids) as (I & HI0 & HIe & HIt).
  assert (1 <= nmax (dim_max_score_ratio params) (nofZ 1))%Z as Hratio.
  { unfold nmax. cbn [nltb nofZ Z_num]. destruct (Z.ltb_spec (dim_max_score_ratio params) 1); lia. }
  pose proof (run_daat_spec algo Ha Hrep Hb computer _ Hratio Hc (doc_id_filter ids) _ I HI0 HIe HIt q k Hk Hq) as Hrun.
  apply wp_elim in Hrun as (h' & Hh' & Hinv' & Hcap & Htop). rewrite <- Hkn, Hh'. cbn [bind].
  rewrite (candidates_ext ix data computer q _ pass) in Htop.
  - by apply collect_top.
  - intros i. unfold passes, pass. rewrite negb_involutive. cbn [f_empty doc_filter doc_id_filter docids].
    pose proof (transitivity (merge_sort_Permutation (≤) ids) Hids) as Hms.
    destruct (merge_sort (≤) ids) as [|x l], (MaxMinHeap.contents h) as [|y K]; cbn [orb]; try done.
    + by apply Permutation_nil_l in Hms.
    + simpl in Hms. symmetry in Hms. by apply Permutation_nil_l in Hms.
    + apply bool_decide_ext. by rewrite Hids.
Qed.

End guarantees.

Definition ex_zrows : list (SparseRow Z) := [[(1, 3); (5, 2)]; [(2, 4)]; [(1, 1); (7, 9)]]%Z.

Lemma ex_admissible : admissible (Q:=Z) METRIC_IP None GetDocValueOriginalComputer ex_zrows.
Proof.
  unfold admissible. cbv zeta. split; [|split; [discriminate|]].
  - by repeat (constructor; [by apply (bool_decide_unpack _)|]).
  - intros row d v Hrow Hv Hnz. simpl. unfold GetDocValueOriginalComputer. split; [|done].
    unfold ex_zrows in Hrow. rewrite !elem_of_cons in Hrow.
    destruct Hrow as [->|[->|[->|Hrow%elem_of_nil]]]; [..|done]; rewrite !elem_of_cons in Hv;
      repeat match goal with H : _ \/ _ |- _ => destruct H as [H|H] end; try (by apply elem_of_nil in Hv); simplify_eq; lia.
Qed.

Lemma daat_search_returns_topk_witness :
  exists ix res, Add (Q:=Z) DAAT_WAND (new_index METRIC_IP None) ex_zrows 8 = Ret ix /\
    Search DAAT_WAND ix [(1, 2); (2, 1)]%Z 2 no_filter GetDocValueOriginalComputer (mkApprox 1 0 1)%Z = Ret res.
Proof.
  destruct (daat_search_returns_topk DAAT_WAND METRIC_IP None ex_zrows 8 [(1, 2); (2, 1)]%Z 2 no_filter
    GetDocValueOriginalComputer (mkApprox 1 0 1)%Z eq_refl ex_admissible) as (ix & res & out & Hadd & Hs & _).
  - repeat (constructor; [simpl; lia|]). constructor.
  - lia.
  - apply no_filter_plain.
  - reflexivity.
  - reflexivity.
  - simpl. lia.
  - exact (ex_intro _ ix (ex_intro _ res (conj Hadd Hs))).
Defined.

Lemma refine_ranks_first_pass_witness :
  exists ix res, Add (Q:=Z) DAAT_MAXSCORE (new_index METRIC_IP None) ex_zrows 8 = Ret ix /\
    refine_and_collect DAAT_MAXSCORE ix [(1, 2); (2, 1)]%Z (MaxMinHeap.make 4) 2 (replicate 2 nnan) (replicate 2 (-1)%Z)
      GetDocValueOriginalComputer (mkApprox 2 0 1)%Z = Ret res.
Proof.
  destruct (refine_ranks_first_pass DAAT_MAXSCORE METRIC_IP None ex_zrows 8 [(1, 2); (2, 1)]%Z 2
    GetDocValueOriginalComputer (mkApprox 2 0 1)%Z eq_refl ex_admissible) as (ix & Hadd & Href).
  - repeat (constructor; [simpl; lia|]). constructor.
  - lia.
  - destruct (Href (MaxMinHeap.make 4) (MaxMinHeap.make_inv 4)) as (res & out & Hres & _).
    exact (ex_intro _ ix (ex_intro _ res (conj Hadd Hres))).
Defined.

(** A search that returns an excluded row: rows 0 and 2 are excluded by the
    bitset; half of the query's terms are dropped in the first pass, which then
    finds nothing, and the refinement returns row 0 in front of row 1. *)
Lemma refine_returns_excluded_row :
  (let* ix := Add (Q:=spec_float) DAAT_WAND (new_index METRIC_IP None) ex_rows 8 in
   Search DAAT_WAND ix ex_query 2 (BitsetView.bitset_view [5%Z] 3 2 0) GetDocValueOriginalComputer
     (mkApprox 2 (F32.div (F32.of_Z 1) (F32.of_Z 2)) F32.one)) =
  Ret ([F32.of_Z 6; F32.of_Z 4], [0; 1]%Z).
Proof. vm_compute. reflexivity. Qed.
