(* ===== verification/SparseSerial.v ===== *)
(** * Serialisation of the sparse inverted index (format version 1)

    [Serialize] lays the index out as a file header, a table of section headers
    and the sections; [Deserialize] walks the table.  The round trip restores
    every field that queries read. *)

From S2P Require Import Prelude Float Num StdHeap SparseUtils Bitset Expected MemoryIO SparseIndex SparseIndexSpec.

#[local] Open Scope Z_scope.

(** [InvertedIndexSectionType]. *)
Definition POSTING_LISTS : Z := 0.
Definition METRIC_PARAMS : Z := 1.
Definition DIM_MAP : Z := 2.
Definition ROW_SUMS : Z := 3.
Definition MAX_SCORES_PER_DIM : Z := 4.
Definition PROMETHEUS_BUILD_STATS : Z := 5.

(** [InvertedIndexSectionHeader]: a 32-bit type, padding, two 64-bit fields. *)
Record section_header := mkSection { sec_type : Z; sec_offset : Z; sec_size : Z }.

#[local] Obligation Tactic := idtac.

#[export] Program Instance section_pod : Pod section_header := {|
  pod_size := 24;
  pod_valid := fun h => 0 <= sec_type h < 2 ^ 32 /\ 0 <= sec_offset h < 2 ^ 64 /\ 0 <= sec_size h < 2 ^ 64;
  pod_enc := fun h => le_bytes 4 (sec_type h) ++ [0; 0; 0; 0] ++ le_bytes 8 (sec_offset h) ++ le_bytes 8 (sec_size h);
  pod_dec := fun b => mkSection (of_le_bytes (take 4 b)) (of_le_bytes (take 8 (drop 8 b)))
                        (of_le_bytes (take 8 (drop 16 b)))
|}.
Next Obligation. intros h. cbv beta. by rewrite !length_app, !length_le_bytes. Qed.
Next Obligation. simpl. lia. Qed.
Next Obligation.
  intros [t o s] (Ht & Ho & Hs). cbv beta. cbn [sec_type sec_offset sec_size] in *.
  assert (forall n z, take n (le_bytes n z) = le_bytes n z) as Hfull.
  { intros n z. apply take_ge. by rewrite length_le_bytes. }
  rewrite take_app_length' by (by rewrite length_le_bytes).
  assert (drop 8 (le_bytes 4 t ++ [0; 0; 0; 0] ++ le_bytes 8 o ++ le_bytes 8 s) = le_bytes 8 o ++ le_bytes 8 s) as H8.
  { rewrite app_assoc. apply drop_app_length'. by rewrite length_app, length_le_bytes. }
  change 16%nat with (8 + 8)%nat. rewrite <- drop_drop, H8.
  rewrite drop_app_length', take_app_length', Hfull by (by rewrite length_le_bytes).
  by rewrite !of_le_bytes_le_bytes.
Qed.

Definition index_file_v1_header_size : nat := 32.
Definition index_file_v1_header_reserved_size : nat := 16.

(** A section per entry, one after the other from [used_offset] on. *)
Fixpoint lay_out (used_offset : Z) (secs : list (Z * nat)) : list section_header :=
  match secs with
  | [] => []
  | (t, size) :: secs => mkSection t used_offset (Z.of_nat size) :: lay_out (used_offset + Z.of_nat size) secs
  end.

Section serial.
Context {A Q : Type} `{!Num A, !Quant A Q, PA : !Pod A, PQ : !Pod Q}.
Implicit Types ix : InvertedIndex A Q.

(** The first [n] elements of a span; reading past its end is undefined. *)
Definition prefix {T} (l : list T) (n : nat) : M (list T) :=
  if decide (n <= length l)%nat then Ret (take n l) else Undef.

(** The sections an index has, with their sizes in bytes. *)
Definition sections ix : list (Z * nat) :=
  let nr := nr_inner_dims ix in
  let postings := sum_list ((fun i =>
      length (inverted_index_ids_spans ix !!! i) * 4 +
      length (inverted_index_vals_spans ix !!! i) * pod_size Q)%nat <$> seq 0 nr) in
  [(POSTING_LISTS, 4 + 8 * (nr + 1) + postings)%nat; (DIM_MAP, (4 * nr)%nat)] ++
  (if is_bm25 ix then [(ROW_SUMS, (pod_size A * n_rows_internal ix)%nat)] else []) ++
  (match max_score_in_dim_spans ix with [] => [] | _ => [(MAX_SCORES_PER_DIM, (pod_size A * nr)%nat)] end) ++
  [(PROMETHEUS_BUILD_STATS, (4 * n_rows_internal ix + 4 * nr)%nat)].

(** The offsets of the posting lists, in elements. *)
Definition posting_offsets ix : M (list Z) :=
  foldM (fun offs i =>
      let* back := vget offs (i - 1) in
      let* ids := vget (inverted_index_ids_spans ix) (i - 1) in
      Ret (offs ++ [back + Z.of_nat (length ids)]))
    [0] (seq 1 (nr_inner_dims ix)).

Definition dim_map_reverse ix : M (list Z) :=
  foldM (fun rev (e : Z * nat) => vset rev (snd e) (fst e))
    (replicate (nr_inner_dims ix) 0) (map_to_list (dim_map ix)).

Definition Serialize ix (w : MemoryIOWriter) : M MemoryIOWriter :=
  let nr := nr_inner_dims ix in
  let* w := put u32_pod w 1 in
  let* w := put u32_pod w (Z.of_nat (n_rows_internal ix)) in
  let* w := put u32_pod w (max_dim ix) in
  let* w := put u32_pod w (Z.of_nat nr) in
  let* (w, _) := write w (replicate index_file_v1_header_reserved_size 0) index_file_v1_header_reserved_size 1 in
  let secs := sections ix in
  let nr_sections := length secs in
  let* w := put u32_pod w (Z.of_nat nr_sections) in
  let used_offset := Z.of_nat (index_file_v1_header_size + 4 + 24 * nr_sections) in
  let* w := put_all section_pod w (lay_out used_offset secs) in
  let* w := put u32_pod w 0 in
  let* offs := posting_offsets ix in
  let* w := put_all u64_pod w offs in
  let* w := foldM (fun w i =>
      let* ids := vget (inverted_index_ids_spans ix) i in put_all u32_pod w (Z.of_nat <$> ids))
    w (seq 0 nr) in
  let* w := foldM (fun w i =>
      let* vals := vget (inverted_index_vals_spans ix) i in put_all PQ w vals) w (seq 0 nr) in
  let* rev := dim_map_reverse ix in
  let* w := put_all u32_pod w rev in
  let* w := (if is_bm25 ix then
               let* p := bm25_of ix in
               let* sums := prefix (row_sums_spans p) (n_rows_internal ix) in put_all PA w sums
             else Ret w) in
  let* w := match max_score_in_dim_spans ix with
            | [] => Ret w
            | ms => let* ms := prefix ms nr in put_all PA w ms
            end in
  let* nnz := prefix (dataset_nnz_stats ix) (n_rows_internal ix) in
  let* w := put_all u32_pod w (Z.of_nat <$> nnz) in
  let* lens := prefix (posting_list_length_stats ix) nr in
  put_all u32_pod w (Z.of_nat <$> lens).

(** ** Reading *)

Definition set_header ix (rows : nat) (dim : Z) (nr : nat) : InvertedIndex A Q :=
  mkIndex (dim_map ix) nr (inverted_index_ids ix) (inverted_index_vals ix)
    (inverted_index_ids_spans ix) (inverted_index_vals_spans ix) (max_score_in_dim ix)
    (max_score_in_dim_spans ix) (metric_type ix) rows dim (next_dim_id ix) (bm25_params ix)
    (dataset_nnz_stats ix) (posting_list_length_stats ix).

Definition set_spans ix (dm : gmap Z nat) (ids : list (list nat)) (vals : list (list Q)) (ms : list A)
    (bm : option (BM25Params A)) : InvertedIndex A Q :=
  mkIndex dm (nr_inner_dims ix) (inverted_index_ids ix) (inverted_index_vals ix)
    ids vals (max_score_in_dim ix) ms (metric_type ix) (n_rows_internal ix) (max_dim ix)
    (next_dim_id ix) bm (dataset_nnz_stats ix) (posting_list_length_stats ix).

(** Four bytes read into a [size_t] variable: its upper half stays. *)
Definition low32 (old v : Z) : Z := old / 2 ^ 32 * 2 ^ 32 + v.

(** [file_header_handler]. *)
Definition file_header_handler ix (r : MemoryIOReader) : M (Status * InvertedIndex A Q * MemoryIOReader) :=
  let* (r, version) := read_pod (Pod0:=u32_pod) r 0 in
  if negb (version =? 1) then Ret (invalid_serialized_index_type, ix, r)
  else
    let* (r, rows) := read_pod (Pod0:=u32_pod) r (Z.of_nat (n_rows_internal ix) mod 2 ^ 32) in
    let* (r, dim) := read_pod (Pod0:=u32_pod) r (max_dim ix mod 2 ^ 32) in
    let* (r, nr) := read_pod (Pod0:=u32_pod) r (Z.of_nat (nr_inner_dims ix)) in
    Ret (success, set_header ix (Z.to_nat (low32 (Z.of_nat (n_rows_internal ix)) rows)) (low32 (max_dim ix) dim)
                    (Z.to_nat nr),
         advance r index_file_v1_header_reserved_size).

(** Consecutive spans whose lengths are the differences of [offs]. *)
Fixpoint spans_from {T} (P : Pod T) (r : MemoryIOReader) (offs : list Z) : M (list (list T) * MemoryIOReader) :=
  match offs with
  | a :: (b :: _) as offs' =>
      let n := Z.to_nat (b - a) in
      let* s := span_at r (rrp r) n in
      let r := advance r (n * pod_size T) in
      let* (rest, r) := spans_from P r offs' in
      Ret (s :: rest, r)
  | _ => Ret ([], r)
  end.

(** One case of the [switch] in [sections_handler]. *)
Definition read_section ix (r : MemoryIOReader) (h : section_header)
    : M (Status * InvertedIndex A Q * MemoryIOReader) :=
  let nr := nr_inner_dims ix in
  let off := Z.to_nat (sec_offset h) in
  if sec_type h =? POSTING_LISTS then
    let r := seekg r off in
    let* (r, enc) := read_pod (Pod0:=u32_pod) r 0 in
    if negb (enc =? 0) then Ret (invalid_serialized_index_type, ix, r)
    else
      let* offs := span_at (Pod0:=u64_pod) r (rrp r) (nr + 1) in
      let r := advance r (8 * (nr + 1)) in
      let* (ids, r) := spans_from u32_pod r offs in
      let* (vals, r) := spans_from PQ r offs in
      Ret (success, set_spans ix (dim_map ix) ((fun l : list Z => Z.to_nat <$> l) <$> ids) vals
                      (max_score_in_dim_spans ix) (bm25_params ix), r)
  else if sec_type h =? DIM_MAP then
    let r := seekg r off in
    let* (dm, r) := foldM (fun (st : gmap Z nat * MemoryIOReader) i =>
        let '(dm, r) := st in
        let* (r, dim) := read_pod (Pod0:=u32_pod) r 0 in Ret (<[dim := i]> dm, r))
      (dim_map ix, r) (seq 0 nr) in
    Ret (success, set_spans ix dm (inverted_index_ids_spans ix) (inverted_index_vals_spans ix)
                    (max_score_in_dim_spans ix) (bm25_params ix), r)
  else if sec_type h =? ROW_SUMS then
    let* p := bm25_of ix in
    let* sums := span_at r off (n_rows_internal ix) in
    Ret (success, set_spans ix (dim_map ix) (inverted_index_ids_spans ix) (inverted_index_vals_spans ix)
                    (max_score_in_dim_spans ix)
                    (Some (mkBM25 (k1 p) (b p) (row_sums p) sums (max_score_computer p))),
         advance (seekg r off) (pod_size A * n_rows_internal ix))
  else if sec_type h =? MAX_SCORES_PER_DIM then
    let* ms := span_at r off nr in
    Ret (success, set_spans ix (dim_map ix) (inverted_index_ids_spans ix) (inverted_index_vals_spans ix)
                    ms (bm25_params ix),
         advance (seekg r off) (pod_size A * nr))
  else
    (* build statistics only feed the metrics; unknown sections are skipped *)
    Ret (success, ix, r).

Definition sections_handler ix (r : MemoryIOReader) : M (Status * InvertedIndex A Q * MemoryIOReader) :=
  let* (r, nr_sections) := read_pod (Pod0:=u32_pod) r 0 in
  let sec_table_offset := rrp r in
  foldM (fun (st : Status * InvertedIndex A Q * MemoryIOReader) i =>
      let '(s, ix, r) := st in
      if bool_decide (s = success) then
        let* (r, h) := read_pod (Pod0:=section_pod) (seekg r (sec_table_offset + 24 * i)) (mkSection 0 0 0) in
        read_section ix r h
      else Ret st)
    (success, ix, r) (seq 0 (Z.to_nat nr_sections)).

Definition Deserialize ix (r : MemoryIOReader) : M (Status * InvertedIndex A Q) :=
  let* (s, ix, r) := file_header_handler ix r in
  if bool_decide (s = success) then
    let* (s, ix, _) := sections_handler ix r in Ret (s, ix)
  else Ret (s, ix).

End serial.

(** ** What is written *)

Section roundtrip.
Context {A Q : Type} `{!Num A, !Quant A Q, PA : !Pod A, PQ : !Pod Q}.
Implicit Types ix src : InvertedIndex A Q.

(** The running offsets of lists of the given lengths. *)
Fixpoint offs_from (a : Z) (lens : list nat) : list Z :=
  a :: match lens with [] => [] | n :: lens => offs_from (a + Z.of_nat n) lens end.

(** An index that fits the format: the published lists agree, every field is
    within its width, and the dimension numbers are exactly [0 .. nr - 1]. *)
Record fits ix : Prop := {
  ft_ids : length (inverted_index_ids_spans ix) = nr_inner_dims ix;
  ft_vals : length (inverted_index_vals_spans ix) = nr_inner_dims ix;
  ft_lens : length <$> inverted_index_vals_spans ix = length <$> inverted_index_ids_spans ix;
  ft_bound : forall d k, dim_map ix !! d = Some k -> (k < nr_inner_dims ix)%nat /\ 0 <= d < 2 ^ 32;
  ft_inj : forall d d' k, dim_map ix !! d = Some k -> dim_map ix !! d' = Some k -> d = d';
  ft_surj : forall k, (k < nr_inner_dims ix)%nat -> exists d, dim_map ix !! d = Some k;
  ft_docs : Forall (Forall (fun i => Z.of_nat i < 2 ^ 32)) (inverted_index_ids_spans ix);
  ft_qvals : Forall (Forall pod_valid) (inverted_index_vals_spans ix);
  ft_rows : Z.of_nat (n_rows_internal ix) < 2 ^ 32;
  ft_nr : Z.of_nat (nr_inner_dims ix) < 2 ^ 32;
  ft_dim : 0 <= max_dim ix < 2 ^ 32;
  ft_ms : Forall pod_valid (max_score_in_dim_spans ix) /\
    (max_score_in_dim_spans ix = [] \/ length (max_score_in_dim_spans ix) = nr_inner_dims ix);
  ft_sums : is_bm25 ix = true -> exists p, bm25_params ix = Some p /\
    length (row_sums_spans p) = n_rows_internal ix /\ Forall pod_valid (row_sums_spans p);
  ft_nnz : length (dataset_nnz_stats ix) = n_rows_internal ix;
  ft_stats : length (posting_list_length_stats ix) = nr_inner_dims ix
}.

Definition rev_ok ix (rev : list Z) : Prop :=
  length rev = nr_inner_dims ix /\ forall k d, rev !! k = Some d <-> dim_map ix !! d = Some k.

Lemma dim_map_reverse_spec ix : fits ix -> wp (dim_map_reverse ix) (rev_ok ix).
Proof.
  intros []. unfold dim_map_reverse.
  apply (wp_foldM _ (fun pre rev => length rev = nr_inner_dims ix /\
    forall d k, (d, k) ∈ pre -> rev !! k = Some d)).
  - split; [apply length_replicate|]. intros d k Hin. by apply elem_of_nil in Hin.
  - intros pre [d k] post rev Hl [Hlen Hrev].
    assert (dim_map ix !! d = Some k) as Hd.
    { apply elem_of_map_to_list. rewrite Hl, elem_of_app, elem_of_cons. auto. }
    apply wp_vset; [rewrite Hlen; by eapply ft_bound0|]. split; [by rewrite length_insert|].
    intros d' k' Hin. apply elem_of_app in Hin as [Hin|[= -> ->]%list_elem_of_singleton].
    + destruct (decide (k = k')) as [<-|Hne]; [|by rewrite list_lookup_insert_ne; auto].
      assert (dim_map ix !! d' = Some k) as Hd' by
        (apply elem_of_map_to_list; rewrite Hl, elem_of_app; auto).
      rewrite (ft_inj0 d' d k) by done. apply list_lookup_insert_eq. rewrite Hlen. by eapply ft_bound0.
    + apply list_lookup_insert_eq. rewrite Hlen. by eapply ft_bound0.
  - intros rev [Hlen Hrev]. split; [done|]. intros k d. split.
    + intros Hk. destruct (ft_surj0 k) as [d' Hd'].
      { rewrite <- Hlen. by eapply lookup_lt_Some. }
      assert (rev !! k = Some d') by (by apply Hrev, elem_of_map_to_list). by simplify_eq.
    + intros Hd. by apply Hrev, elem_of_map_to_list.
Qed.

Lemma offs_from_snoc a lens n : offs_from a (lens ++ [n]) =
  offs_from a lens ++ [a + Z.of_nat (sum_list lens) + Z.of_nat n].
Proof.
  revert a. induction lens as [|m lens IH]; intros a; simpl.
  - f_equal. f_equal. lia.
  - f_equal. rewrite IH. f_equal. f_equal. lia.
Qed.

Lemma offs_from_last a lens : offs_from a lens !! length lens = Some (a + Z.of_nat (sum_list lens)).
Proof. revert a. induction lens as [|m lens IH]; intros a; simpl; [f_equal; lia|]. rewrite IH. f_equal. lia. Qed.

Lemma length_offs_from a lens : length (offs_from a lens) = S (length lens).
Proof. revert a. induction lens as [|m lens IH]; intros a; simpl; [done|]. by rewrite IH. Qed.

Lemma posting_offsets_spec ix : length (inverted_index_ids_spans ix) = nr_inner_dims ix ->
  posting_offsets ix = Ret (offs_from 0 (length <$> inverted_index_ids_spans ix)).
Proof.
  intros Hlen. set (ls := inverted_index_ids_spans ix) in *.
  assert (wp (posting_offsets ix) (fun o => o = offs_from 0 (length <$> ls))) as H;
    [|by apply wp_elim in H as (? & -> & ->)].
  unfold posting_offsets. fold ls.
  apply (wp_for _ (fun i o => o = offs_from 0 (length <$> take (i - 1) ls))).
  - done.
  - intros i o Hi ->. assert (length (length <$> take (i - 1) ls) = i - 1)%nat as Hl.
    { rewrite length_fmap, length_take. lia. }
    pose proof (offs_from_last 0 (length <$> take (i - 1) ls)) as Hlast. rewrite Hl in Hlast.
    rewrite (proj2 (vget_Ret _ _ _) Hlast).
    cbn [bind]. apply wp_bind, wp_vget; [lia|]. intros l Hli. cbn [wp].
    replace (i + 1 - 1)%nat with (S (i - 1)) by lia.
    rewrite (take_S_r _ _ _ Hli), fmap_app. change (length <$> [l]) with [length l].
    by rewrite offs_from_snoc.
  - intros o ->. rewrite take_ge by lia. done.
Qed.

Lemma put_lists_spec {T U} (P : Pod T) (f : U -> list T) (ls : list U) w bytes : has_written bytes w ->
  wp (foldM (fun w i => let* l := vget ls i in put_all P w (f l)) w (seq 0 (length ls)))
     (has_written (bytes ++ concat ((fun l => enc_all (f l)) <$> ls))).
Proof.
  intros Hw. apply (wp_for _ (fun i => has_written (bytes ++ concat ((fun l => enc_all (f l)) <$> take i ls)))).
  - by rewrite app_nil_r.
  - intros i w' Hi Hw'. apply wp_bind, wp_vget; [lia|]. intros l Hl.
    rewrite Nat.add_1_r, (take_S_r _ _ _ Hl), fmap_app, concat_app, app_assoc. simpl. rewrite app_nil_r.
    by apply put_all_spec.
  - intros w'. by rewrite Nat.add_0_l, take_ge.
Qed.

(** The sections' bytes. *)
Definition posting_bytes ix : list Z :=
  pod_enc (Pod:=u32_pod) 0 ++
  enc_all (Pod0:=u64_pod) (offs_from 0 (length <$> inverted_index_ids_spans ix)) ++
  concat ((fun l => enc_all (Pod0:=u32_pod) (Z.of_nat <$> l)) <$> inverted_index_ids_spans ix) ++
  concat (enc_all <$> inverted_index_vals_spans ix).

Definition sums_of ix : list A :=
  match bm25_params ix with Some p => row_sums_spans p | None => [] end.

Definition chunks ix (rev : list Z) : list (Z * list Z) :=
  [(POSTING_LISTS, posting_bytes ix); (DIM_MAP, enc_all (Pod0:=u32_pod) rev)] ++
  (if is_bm25 ix then [(ROW_SUMS, enc_all (sums_of ix))] else []) ++
  (match max_score_in_dim_spans ix with [] => [] | ms => [(MAX_SCORES_PER_DIM, enc_all ms)] end) ++
  [(PROMETHEUS_BUILD_STATS, enc_all (Pod0:=u32_pod) (Z.of_nat <$> dataset_nnz_stats ix) ++
                            enc_all (Pod0:=u32_pod) (Z.of_nat <$> posting_list_length_stats ix))].

Definition header_bytes ix : list Z :=
  pod_enc (Pod:=u32_pod) 1 ++ pod_enc (Pod:=u32_pod) (Z.of_nat (n_rows_internal ix)) ++
  pod_enc (Pod:=u32_pod) (max_dim ix) ++ pod_enc (Pod:=u32_pod) (Z.of_nat (nr_inner_dims ix)) ++
  replicate 16 0.

(** The whole file. *)
Definition file_bytes ix (rev : list Z) : list Z :=
  let cs := chunks ix rev in
  let base := Z.of_nat (index_file_v1_header_size + 4 + 24 * length cs) in
  header_bytes ix ++ pod_enc (Pod:=u32_pod) (Z.of_nat (length cs)) ++
  enc_all (lay_out base ((fun c => (fst c, length (snd c))) <$> cs)) ++ concat (snd <$> cs).

Lemma length_concat_map {B} (f : B -> list Z) (l : list B) :
  length (concat (f <$> l)) = sum_list ((fun x => length (f x)) <$> l).
Proof.
  induction l as [|x l IH]; [done|]. rewrite !fmap_cons. cbn [concat sum_list sum_list_with].
  rewrite length_app, IH. done.
Qed.

(** Summing over two lists by index. *)
Lemma sum_by_index_lists {B C} `{!Inhabited B, !Inhabited C} (f : B -> nat) (g : C -> nat)
    (ls : list B) (ls' : list C) n : length ls = n -> length ls' = n ->
  sum_list ((fun i => f (ls !!! i) + g (ls' !!! i))%nat <$> seq 0 n) =
  (sum_list (f <$> ls) + sum_list (g <$> ls'))%nat.
Proof.
  revert ls ls'. induction n as [|n IH]; intros [|x ls] [|y ls'] H1 H2; try done.
  cbn [seq]. rewrite <- fmap_S_seq, !fmap_cons, <- list_fmap_compose.
  cbn [sum_list_with]. simpl in H1, H2. specialize (IH ls ls' ltac:(lia) ltac:(lia)).
  transitivity (f x + g y + sum_list ((fun i => f (ls !!! i) + g (ls' !!! i))%nat <$> seq 0 n))%nat; [done|].
  rewrite IH. unfold id. lia.
Qed.

Lemma sections_chunks ix rev : fits ix -> length rev = nr_inner_dims ix ->
  sections ix = (fun c => (fst c, length (snd c))) <$> chunks ix rev.
Proof.
  intros [] Hrev. unfold sections, chunks. rewrite !fmap_app. f_equal; [|f_equal; [|f_equal]].
  - cbn [fmap list_fmap fst snd]. f_equal; [f_equal|].
    + unfold posting_bytes. rewrite !length_app, length_enc_all, length_offs_from, !length_concat_map.
      rewrite length_fmap, ft_ids0.
      assert (sum_list ((fun i => length (inverted_index_ids_spans ix !!! i) * 4 +
        length (inverted_index_vals_spans ix !!! i) * pod_size Q)%nat <$> seq 0 (nr_inner_dims ix)) =
        (sum_list ((fun x => length (enc_all (Pod0:=u32_pod) (Z.of_nat <$> x))) <$> inverted_index_ids_spans ix) +
         sum_list ((fun x => length (enc_all x)) <$> inverted_index_vals_spans ix))%nat) as ->; [|simpl; lia].
      rewrite <- (sum_by_index_lists _ _ (inverted_index_ids_spans ix) (inverted_index_vals_spans ix)
        (nr_inner_dims ix)) by done.
      f_equal. apply list_fmap_ext. intros i j _. by rewrite !length_enc_all, length_fmap.
    + f_equal. rewrite length_enc_all, Hrev. simpl. f_equal. lia.
  - destruct (is_bm25 ix) eqn:Hb; [|done]. destruct (ft_sums0 eq_refl) as (p & Hp & Hl & _).
    cbn [fmap list_fmap fst snd]. rewrite length_enc_all. unfold sums_of. rewrite Hp, Hl.
    by rewrite Nat.mul_comm.
  - destruct ft_ms0 as [_ Hms]. destruct (max_score_in_dim_spans ix) as [|m ms]; [done|].
    destruct Hms as [?|Hms]; [done|]. cbn [fmap list_fmap fst snd]. rewrite length_enc_all, Hms.
    by rewrite Nat.mul_comm.
  - cbn [fmap list_fmap fst snd]. rewrite length_app, !length_enc_all, !length_fmap, ft_nnz0, ft_stats0.
    simpl. do 2 f_equal. lia.
Qed.

(** The conditional sections as concatenations. *)
Lemma concat_chunks ix rev : concat (snd <$> chunks ix rev) =
  posting_bytes ix ++ enc_all (Pod0:=u32_pod) rev ++
  (if is_bm25 ix then enc_all (sums_of ix) else []) ++
  enc_all (max_score_in_dim_spans ix) ++
  enc_all (Pod0:=u32_pod) (Z.of_nat <$> dataset_nnz_stats ix) ++
  enc_all (Pod0:=u32_pod) (Z.of_nat <$> posting_list_length_stats ix).
Proof.
  unfold chunks. destruct (is_bm25 ix), (max_score_in_dim_spans ix) as [|m ms];
    cbn [app fmap list_fmap snd concat]; rewrite ?app_nil_r; done.
Qed.

Lemma prefix_all {T} (l : list T) n : length l = n -> prefix l n = Ret l.
Proof. intros <-. unfold prefix. by rewrite decide_True, take_ge. Qed.

Lemma Serialize_spec ix w bytes : fits ix -> has_written bytes w ->
  wp (Serialize ix w) (fun w' => exists rev, rev_ok ix rev /\ has_written (bytes ++ file_bytes ix rev) w').
Proof.
  intros Hf Hw. destruct (wp_elim _ _ (dim_map_reverse_spec ix Hf)) as (rev & Hrev & Hok).
  pose proof (sections_chunks ix rev Hf (proj1 Hok)) as Hsec. unfold Serialize.
  rewrite Hrev, Hsec, length_fmap, posting_offsets_spec by apply Hf.
  pose proof Hf as [].
  do 4 (eapply wp_written; [by eapply put_spec|]; clear w Hw; intros w Hw).
  apply wp_bind. destruct Hw as [Hwok Hw].
  eapply wp_mono; [apply write_spec; [done|by rewrite length_replicate]|].
  intros [w2 ?] (Hwok2 & _ & Hw2). rewrite Hw in Hw2. assert (has_written _ w2) as Hw' by (by split; [|apply Hw2]).
  clear w Hwok Hw Hwok2 Hw2. rename w2 into w, Hw' into Hw.
  eapply wp_written; [by eapply put_spec|]; clear w Hw; intros w Hw.
  eapply wp_written; [by eapply put_all_spec|]; clear w Hw; intros w Hw.
  eapply wp_written; [by eapply put_spec|]; clear w Hw; intros w Hw. cbn [bind].
  eapply wp_written; [by eapply put_all_spec|]; clear w Hw; intros w Hw.
  eapply wp_written; [rewrite <- ft_ids0; by eapply put_lists_spec|]; clear w Hw; intros w Hw.
  eapply wp_written; [rewrite <- ft_vals0; by eapply (put_lists_spec PQ id)|]; clear w Hw; intros w Hw.
  eapply wp_written; [by eapply put_all_spec|]; clear w Hw; intros w Hw.
  match type of Hw with has_written ?b _ =>
    eapply (wp_written (b ++ if is_bm25 ix then enc_all (sums_of ix) else [])) end.
  { destruct (is_bm25 ix) eqn:Hb; [|by rewrite app_nil_r]. destruct (ft_sums0 eq_refl) as (p & Hp & Hl & _).
    unfold bm25_of, sums_of. rewrite Hp. cbn [bind]. rewrite prefix_all by done. by apply put_all_spec. }
  clear w Hw; intros w Hw.
  match type of Hw with has_written ?b _ => eapply (wp_written (b ++ enc_all (max_score_in_dim_spans ix))) end.
  { destruct ft_ms0 as [_ Hms]. destruct (max_score_in_dim_spans ix) as [|m ms]; [by rewrite app_nil_r|].
    destruct Hms as [?|Hms]; [done|]. rewrite prefix_all by done. by apply put_all_spec. }
  clear w Hw; intros w Hw.
  rewrite !prefix_all by done. cbn [bind].
  eapply wp_written; [by eapply put_all_spec|]; clear w Hw; intros w Hw.
  eapply wp_mono; [by eapply put_all_spec|]; clear w Hw; intros w Hw.
  exists rev. split; [done|]. eapply has_written_eq; [|exact Hw].
  unfold file_bytes, header_bytes, posting_bytes. rewrite concat_chunks. unfold posting_bytes.
  rewrite <- !app_assoc. done.
Qed.

(** ** What is read back *)

Lemma reads_at file r pos : reads file r -> reads file (seekg r pos).
Proof. done. Qed.

Lemma spans_from_cons {T} (P : Pod T) r a b offs : spans_from P r (a :: b :: offs) =
  let n := Z.to_nat (b - a) in
  let* s := span_at r (rrp r) n in
  let* (rest, r) := spans_from P (advance r (n * pod_size T)) (b :: offs) in Ret (s :: rest, r).
Proof. done. Qed.

Lemma spans_from_spec {T} (P : Pod T) file (ls : list (list T)) r a : reads file r ->
  Forall (Forall pod_valid) ls -> at_pos file (rrp r) (concat (enc_all <$> ls)) ->
  spans_from P r (offs_from a (length <$> ls)) =
  Ret (ls, seekg r (rrp r + length (concat (enc_all <$> ls)))).
Proof.
  intros Hr Hv. revert r a Hr. induction Hv as [|l ls Hl Hv IH]; intros r a Hr Hat.
  - simpl. do 2 f_equal. destruct r as [d p t]. unfold seekg; simpl. f_equal. lia.
  - rewrite fmap_cons in *. cbn [concat] in *. apply at_pos_app in Hat as [Hat1 Hat2].
    pose proof (at_pos_bound _ _ _ Hat1) as Hb. rewrite length_enc_all in *.
    assert (exists o rest, offs_from (a + Z.of_nat (length l)) (length <$> ls) = o :: rest /\
      o = a + Z.of_nat (length l)) as (o & rest & Ho & ->) by (destruct ls; simpl; eauto).
    cbn [offs_from]. specialize (IH (seekg r (rrp r + length l * pod_size T)) (a + Z.of_nat (length l)) Hr Hat2).
    rewrite Ho in *. rewrite spans_from_cons. cbv zeta. replace (Z.to_nat (a + Z.of_nat (length l) - a)) with (length l) by lia.
    rewrite (span_at_at file) by done. cbn [bind]. rewrite (advance_seekg file) by done. rewrite IH. cbn [bind].
    do 2 f_equal. unfold seekg. cbn [rdata rrp rtotal]. f_equal. rewrite fmap_cons. cbn [concat]. rewrite length_app, length_enc_all. lia.
Qed.

Lemma offs_from_range a lens : Forall (fun o => a <= o <= a + Z.of_nat (sum_list lens)) (offs_from a lens).
Proof.
  revert a. induction lens as [|n lens IH]; intros a; simpl; constructor; try lia; try constructor.
  eapply Forall_impl; [apply IH|]. simpl. intros o. lia.
Qed.

(** The dimension map from its inverse table. *)
Lemma read_dim_map_spec ix file r rev dm : fits ix -> rev_ok ix rev -> reads file r ->
  dm ⊆ dim_map ix -> at_pos file (rrp r) (enc_all (Pod0:=u32_pod) rev) ->
  wp (foldM (fun (st : gmap Z nat * MemoryIOReader) i =>
        let '(dm, r) := st in
        let* (r, dim) := read_pod (Pod0:=u32_pod) r 0 in Ret (<[dim := i]> dm, r))
      (dm, r) (seq 0 (nr_inner_dims ix)))
     (fun '(dm', r') => dm' = dim_map ix /\ reads file r').
Proof.
  intros [] [Hlen Hrev] Hr Hsub Hat. rewrite <- Hlen.
  apply (wp_for _ (fun i '(dm', r') => reads file r' /\ dm' ⊆ dim_map ix /\
    at_pos file (rrp r') (enc_all (Pod0:=u32_pod) (drop i rev)) /\
    forall d k, dim_map ix !! d = Some k -> (k < i)%nat -> dm' !! d = Some k)).
  - rewrite drop_0. split_and!; try done. lia.
  - intros i [dm' r'] Hi (Hr' & Hsub' & Hat' & Hdone).
    destruct (lookup_lt_is_Some_2 rev i ltac:(lia)) as [d Hd].
    assert (dim_map ix !! d = Some i) as Hdi by (by apply Hrev).
    rewrite (drop_S _ _ _ Hd) in Hat'. apply at_pos_app in Hat' as [Hat1 Hat2].
    rewrite (read_pod_at file _ d) by (try done; by eapply ft_bound0). cbn [bind wp].
    rewrite Nat.add_1_r. rewrite pod_length in Hat2. split_and!; [done| |exact Hat2|].
    + apply insert_subseteq_l; done.
    + intros d' k Hk Hlt. destruct (decide (d = d')) as [->|Hne].
      * rewrite lookup_insert_eq. congruence.
      * rewrite lookup_insert_ne by done. apply Hdone; [done|].
        destruct (decide (k = i)) as [->|]; [|lia]. by destruct Hne, (ft_inj0 d d' i).
  - intros [dm' r'] (Hr' & Hsub' & _ & Hdone). split; [|done]. apply map_eq. intros d.
    destruct (dim_map ix !! d) as [k|] eqn:Hk.
    + apply Hdone; [done|]. rewrite Hlen. by eapply ft_bound0.
    + destruct (dm' !! d) eqn:Hd; [|done]. eapply lookup_weaken in Hd; [|exact Hsub']. congruence.
Qed.

(** What a section of [src] does to an index that is being restored. *)
Definition restored src (t : Z) ix : InvertedIndex A Q :=
  if t =? POSTING_LISTS then
    set_spans ix (dim_map ix) (inverted_index_ids_spans src) (inverted_index_vals_spans src)
      (max_score_in_dim_spans ix) (bm25_params ix)
  else if t =? DIM_MAP then
    set_spans ix (dim_map src) (inverted_index_ids_spans ix) (inverted_index_vals_spans ix)
      (max_score_in_dim_spans ix) (bm25_params ix)
  else if t =? ROW_SUMS then
    set_spans ix (dim_map ix) (inverted_index_ids_spans ix) (inverted_index_vals_spans ix)
      (max_score_in_dim_spans ix)
      (match bm25_params ix with
       | Some p => Some (mkBM25 (k1 p) (b p) (row_sums p) (sums_of src) (max_score_computer p))
       | None => None
       end)
  else if t =? MAX_SCORES_PER_DIM then
    set_spans ix (dim_map ix) (inverted_index_ids_spans ix) (inverted_index_vals_spans ix)
      (max_score_in_dim_spans src) (bm25_params ix)
  else ix.

(** An index on the way to [src]. *)
Record restoring src ix : Prop := {
  rs_nr : nr_inner_dims ix = nr_inner_dims src;
  rs_rows : n_rows_internal ix = n_rows_internal src;
  rs_dims : dim_map ix ⊆ dim_map src;
  rs_bm25 : is_bm25 src = true -> is_Some (bm25_params ix)
}.

Lemma restored_restoring src t ix : restoring src ix -> restoring src (restored src t ix).
Proof.
  intros []. unfold restored. repeat case_match; split; simpl; try done; eauto.
Qed.

Lemma to_nat_ids (l : list nat) : Z.to_nat <$> (Z.of_nat <$> l) = l.
Proof.
  rewrite <- list_fmap_compose. rewrite <- (list_fmap_id l) at 2. apply list_fmap_ext.
  intros i x _. unfold compose. simpl. lia.
Qed.

Lemma concat_enc_ids (ls : list (list nat)) :
  (fun l => enc_all (Pod0:=u32_pod) (Z.of_nat <$> l)) <$> ls =
  (enc_all (Pod0:=u32_pod)) <$> ((fun l : list nat => Z.of_nat <$> l) <$> ls).
Proof. by rewrite <- list_fmap_compose. Qed.

Lemma map_length_ids (ls : list (list nat)) :
  length <$> ls = length <$> ((fun l : list nat => Z.of_nat <$> l) <$> ls).
Proof.
  rewrite <- list_fmap_compose. apply list_fmap_ext. intros i x _. unfold compose. by rewrite length_fmap.
Qed.

(** A posting-list table whose offsets cannot be represented does not fit. *)
Lemma offsets_valid (ls : list (list nat)) n : (sum_list (length <$> ls) <= n)%nat -> Z.of_nat n < 2 ^ 64 ->
  Forall (pod_valid (Pod:=u64_pod)) (offs_from 0 (length <$> ls)).
Proof.
  intros Hs Hn. eapply Forall_impl; [apply offs_from_range|]. simpl. intros o Ho. lia.
Qed.

Lemma sum_lengths_le (ls : list (list nat)) :
  (sum_list (length <$> ls) <= length (concat ((fun l => enc_all (Pod0:=u32_pod) (Z.of_nat <$> l)) <$> ls)))%nat.
Proof.
  rewrite length_concat_map. induction ls as [|l ls IH]; [done|]. rewrite !fmap_cons. cbn [sum_list_with].
  rewrite length_enc_all, length_fmap. unfold id at 1 3. simpl pod_size. lia.
Qed.

Lemma read_postings_spec src ix file r size : fits src -> restoring src ix -> reads file r ->
  Z.of_nat (length file) < 2 ^ 64 -> forall off, at_pos file off (posting_bytes src) ->
  wp (read_section ix r (mkSection POSTING_LISTS (Z.of_nat off) size))
     (fun '(s, ix', r') => s = success /\ ix' = restored src POSTING_LISTS ix /\ reads file r').
Proof.
  intros [] [] Hr Hmax off Hat. unfold read_section. cbn [sec_type sec_offset sec_size Z.eqb POSTING_LISTS].
  rewrite Nat2Z.id. unfold posting_bytes in Hat.
  apply at_pos_app in Hat as [Hat0 Hat]. apply at_pos_app in Hat as [Hat1 Hat].
  apply at_pos_app in Hat as [Hat2 Hat3].
  rewrite (read_pod_at file _ 0) by (try done; simpl; lia). cbn [bind Z.eqb negb].
  rewrite pod_length in *. pose proof (at_pos_bound _ _ _ Hat1) as Hb1.
  pose proof (at_pos_bound _ _ _ Hat2) as Hb2. pose proof (sum_lengths_le (inverted_index_ids_spans src)) as Hs.
  set (offs := offs_from 0 (length <$> inverted_index_ids_spans src)) in *.
  assert (length offs = nr_inner_dims src + 1)%nat as Hoffs
    by (unfold offs; rewrite length_offs_from, length_fmap, ft_ids0; lia).
  assert (Forall (pod_valid (Pod:=u64_pod)) offs) as Hov.
  { eapply offsets_valid; [|exact Hmax]. lia. }
  rewrite rs_nr0, <- Hoffs. rewrite (span_at_at file) by done. cbn [bind].
  rewrite length_enc_all, Hoffs in *. rewrite (advance_seekg file) by (try done; simpl in *; lia).
  rewrite concat_enc_ids in Hat2, Hat3. unfold offs at 1. rewrite (map_length_ids (inverted_index_ids_spans src)).
  rewrite (spans_from_spec _ file); [|done| |].
  2:{ rewrite Forall_fmap. eapply Forall_impl; [exact ft_docs0|]. intros l Hl. simpl.
      rewrite Forall_fmap. eapply Forall_impl; [exact Hl|]. simpl. intros x. lia. }
  2:{ cbn [seekg rrp] in *. rewrite (Nat.mul_comm 8). exact Hat2. }
  cbn [bind]. unfold offs. rewrite <- ft_lens0. rewrite (spans_from_spec _ file); [|done|done|].
  2:{ cbn [seekg rrp] in *. rewrite (Nat.mul_comm 8). exact Hat3. }
  cbn [bind wp]. split_and!; [done| |done].
  unfold restored. cbn [Z.eqb POSTING_LISTS]. f_equal. rewrite <- list_fmap_compose.
  rewrite <- (list_fmap_id (inverted_index_ids_spans src)) at 2. apply list_fmap_ext.
  intros i l _. apply to_nat_ids.
Qed.

Lemma read_section_spec src rev ix file r off t bytes size : fits src -> rev_ok src rev ->
  restoring src ix -> reads file r -> Z.of_nat (length file) < 2 ^ 64 ->
  (t, bytes) ∈ chunks src rev -> at_pos file off bytes ->
  wp (read_section ix r (mkSection t (Z.of_nat off) size))
     (fun '(s, ix', r') => s = success /\ ix' = restored src t ix /\ reads file r').
Proof.
  intros Hf Hrev Hrs Hr Hmax Hin Hat. unfold chunks in Hin. rewrite !elem_of_app in Hin.
  pose proof Hf as []. pose proof Hrs as [].
  destruct Hin as [Hin|[Hin|[Hin|Hin]]].
  - apply elem_of_cons in Hin as [[= -> ->]|[= -> ->]%list_elem_of_singleton]; [by apply read_postings_spec|].
    unfold read_section, restored. cbn [sec_type sec_offset Z.eqb POSTING_LISTS DIM_MAP]. rewrite Nat2Z.id.
    rewrite rs_nr0. apply wp_bind. eapply wp_mono; [by apply (read_dim_map_spec src file _ rev)|].
    by intros [dm r'] [-> Hr'].
  - destruct (is_bm25 src) eqn:Hb; [|by apply elem_of_nil in Hin].
    apply list_elem_of_singleton in Hin as [= -> ->]. destruct (rs_bm25 _ _ Hrs Hb) as [p Hp].
    unfold read_section, restored. cbn [sec_type sec_offset Z.eqb POSTING_LISTS DIM_MAP ROW_SUMS Pos.eqb].
    rewrite Nat2Z.id. unfold bm25_of. rewrite Hp. cbn [bind].
    destruct (ft_sums0 eq_refl) as (p' & Hp' & Hl & Hv).
    assert (sums_of src = row_sums_spans p') as Hs by (unfold sums_of; by rewrite Hp').
    rewrite Hs in *. rewrite rs_rows0, <- Hl. rewrite (span_at_at file) by done. cbn [bind wp]. split_and!; try done.
  - destruct ft_ms0 as [Hv Hms]. destruct (max_score_in_dim_spans src) as [|m ms] eqn:Hm; [by apply elem_of_nil in Hin|].
    rewrite <- Hm in *. destruct Hms as [?|Hms]; [congruence|].
    apply list_elem_of_singleton in Hin as [= -> ->].
    unfold read_section, restored.
    cbn [sec_type sec_offset Z.eqb POSTING_LISTS DIM_MAP ROW_SUMS MAX_SCORES_PER_DIM Pos.eqb].
    rewrite Nat2Z.id, rs_nr0, <- Hms. rewrite (span_at_at file) by done. cbn [bind wp]. split_and!; try done.
  - apply list_elem_of_singleton in Hin as [= -> ->]. done.
Qed.

(** The section table: entry [i] describes chunk [i]. *)
Lemma lay_out_entry file (cs : list (Z * list Z)) base i t bytes :
  at_pos file base (concat (snd <$> cs)) -> cs !! i = Some (t, bytes) ->
  exists off, lay_out (Z.of_nat base) ((fun c => (fst c, length (snd c))) <$> cs) !! i =
    Some (mkSection t (Z.of_nat off) (Z.of_nat (length bytes))) /\ at_pos file off bytes.
Proof.
  revert base i. induction cs as [|[t' b'] cs IH]; intros base i Hat Hi; [done|].
  rewrite fmap_cons in Hat. cbn [snd concat] in Hat. apply at_pos_app in Hat as [Hat1 Hat2].
  destruct i as [|i]; cbn in Hi.
  - simplify_eq. exists base. done.
  - destruct (IH _ _ Hat2 Hi) as (off & Hoff & Hato). exists off. split; [|done].
    cbn. rewrite <- Nat2Z.inj_add. exact Hoff.
Qed.

Lemma chunk_type src rev t bytes : (t, bytes) ∈ chunks src rev -> 0 <= t < 2 ^ 32.
Proof.
  unfold chunks. destruct (is_bm25 src), (max_score_in_dim_spans src); cbn [app];
    rewrite ?elem_of_cons; intros Hin;
    repeat (destruct Hin as [[= -> _]|Hin]; [unfold POSTING_LISTS, DIM_MAP, ROW_SUMS, MAX_SCORES_PER_DIM, PROMETHEUS_BUILD_STATS; lia|]);
    by apply elem_of_nil in Hin.
Qed.

Lemma sections_handler_spec src rev ix file r base : fits src -> rev_ok src rev ->
  restoring src ix -> reads file r -> Z.of_nat (length file) < 2 ^ 64 ->
  let cs := chunks src rev in
  at_pos file (rrp r) (pod_enc (Pod:=u32_pod) (Z.of_nat (length cs)) ++
    enc_all (lay_out (Z.of_nat base) ((fun c => (fst c, length (snd c))) <$> cs))) ->
  at_pos file base (concat (snd <$> cs)) ->
  wp (sections_handler ix r) (fun '(s, ix', r') => s = success /\
    ix' = foldl (fun ix (c : Z * list Z) => restored src (fst c) ix) ix cs).
Proof.
  intros Hf Hrev Hrs Hr Hmax cs Hat Hats. unfold sections_handler. apply at_pos_app in Hat as [Hat1 Hat2].
  assert (length cs <= 5)%nat as Hcs.
  { unfold cs, chunks. destruct (is_bm25 src), (max_score_in_dim_spans src); simpl; lia. }
  rewrite (read_pod_at file _ (Z.of_nat (length cs))) by (try done; cbn [pod_valid u32_pod]; lia). cbn [bind].
  rewrite Nat2Z.id. rewrite pod_length in Hat2. cbn [rrp seekg].
  apply (wp_for _ (fun i '(s, ix', r') => s = success /\ restoring src ix' /\ reads file r' /\
    ix' = foldl (fun ix (c : Z * list Z) => restored src (fst c) ix) ix (take i cs))).
  - by rewrite take_0.
  - intros i [[s ix'] r'] Hi (-> & Hrs' & Hr' & ->). rewrite bool_decide_true by done.
    destruct (lookup_lt_is_Some_2 cs i ltac:(lia)) as [[t bytes] Hc].
    destruct (lay_out_entry _ _ _ _ _ _ Hats Hc) as (off & Hentry & Hato).
    pose proof (at_pos_bound _ _ _ Hato) as Hb.
    rewrite (read_pod_at file _ (mkSection t (Z.of_nat off) (Z.of_nat (length bytes)))).
    + cbn [bind]. assert ((t, bytes) ∈ cs) as Hin by (by eapply list_elem_of_lookup_2).
      eapply wp_mono; [by eapply (read_section_spec src rev _ file)|].
      intros [[s ix''] r''] (-> & -> & Hr''). split_and!; [done|by apply restored_restoring|done|].
      by rewrite Nat.add_1_r, (take_S_r _ _ _ Hc), foldl_app.
    + done.
    + apply list_elem_of_lookup_2, chunk_type in Hc. cbn [pod_valid section_pod sec_type sec_offset sec_size]. lia.
    + cbn [rrp seekg]. apply (at_pos_lookup file _ _ i _ Hat2 Hentry).
  - intros [[s ix'] r'] (-> & _ & _ & ->). by rewrite Nat.add_0_l, take_ge.
Qed.

(** The fields queries read are those of [src]; the metric and the BM25
    constants are those [ix] was created with. *)
Record same_published src ix ix' : Prop := {
  sp_dims : dim_map ix' = dim_map src;
  sp_nr : nr_inner_dims ix' = nr_inner_dims src;
  sp_ids : inverted_index_ids_spans ix' = inverted_index_ids_spans src;
  sp_vals : inverted_index_vals_spans ix' = inverted_index_vals_spans src;
  sp_ms : max_score_in_dim_spans ix' = max_score_in_dim_spans src;
  sp_rows : n_rows_internal ix' = n_rows_internal src;
  sp_cols : max_dim ix' = max_dim src;
  sp_metric : metric_type ix' = metric_type ix;
  sp_stats : dataset_nnz_stats ix' = dataset_nnz_stats ix;
  sp_bm25 : bm25_params ix' =
    if is_bm25 src then
      (fun p => mkBM25 (k1 p) (b p) (row_sums p) (sums_of src) (max_score_computer p)) <$> bm25_params ix
    else bm25_params ix
}.

Lemma restore_all src rev ix : max_score_in_dim_spans ix = [] ->
  nr_inner_dims ix = nr_inner_dims src -> n_rows_internal ix = n_rows_internal src -> max_dim ix = max_dim src ->
  same_published src ix (foldl (fun ix (c : Z * list Z) => restored src (fst c) ix) ix (chunks src rev)).
Proof.
  intros Hms Hnr Hrows Hdim. unfold chunks.
  destruct (is_bm25 src) eqn:Hb, (max_score_in_dim_spans src) eqn:Hm; cbn -[is_bm25]; split; simpl;
    rewrite ?Hb; try done; congruence.
Qed.

Lemma length_lay_out base secs : length (lay_out base secs) = length secs.
Proof. revert base. induction secs as [|[t n] secs IH]; intros base; simpl; [done|]. by rewrite IH. Qed.

Lemma Deserialize_spec src rev ix file : fits src -> rev_ok src rev -> file = file_bytes src rev ->
  Z.of_nat (length file) < 2 ^ 64 ->
  n_rows_internal ix = 0%nat -> max_dim ix = 0 ->
  dim_map ix = ∅ -> max_score_in_dim_spans ix = [] -> (is_bm25 src = true -> is_Some (bm25_params ix)) ->
  wp (Deserialize ix (new_reader file)) (fun '(s, ix') => s = success /\ same_published src ix ix').
Proof.
  intros Hf Hrev Hfile Hmax Hr0 Hd0 Hdm Hms Hbm. pose proof Hf as [].
  set (r := new_reader file). assert (reads file r) as Hr by done.
  assert (at_pos file (rrp r) (file_bytes src rev)) as Hat.
  { exists [], []. by rewrite app_nil_r. }
  unfold file_bytes, header_bytes in Hat. rewrite <- !app_assoc in Hat.
  apply at_pos_app in Hat as [Hat1 Hat]. apply at_pos_app in Hat as [Hat2 Hat].
  apply at_pos_app in Hat as [Hat3 Hat]. apply at_pos_app in Hat as [Hat4 Hat].
  apply at_pos_app in Hat as [Hat5 Hat]. rewrite app_assoc in Hat. apply at_pos_app in Hat as [Hat6 Hat7].
  rewrite !pod_length, length_replicate in *.
  unfold Deserialize, file_header_handler.
  rewrite (read_pod_at file _ 1) by (try done; cbn [pod_valid u32_pod]; lia). cbn [bind Z.eqb Pos.eqb negb].
  rewrite (read_pod_at file _ (Z.of_nat (n_rows_internal src))) by (try done; cbn [pod_valid u32_pod]; lia). cbn [bind].
  rewrite (read_pod_at file _ (max_dim src)) by (try done; cbn [pod_valid u32_pod]; lia). cbn [bind].
  rewrite (read_pod_at file _ (Z.of_nat (nr_inner_dims src))) by (try done; cbn [pod_valid u32_pod]; lia). cbn [bind].
  rewrite bool_decide_true by done. rewrite Hr0, Hd0. unfold low32.
  rewrite !Z.div_0_l, !Z.mul_0_l, !Z.add_0_l, !Nat2Z.id by lia.
  pose proof (at_pos_bound _ _ _ Hat5) as Hb5. rewrite length_replicate in Hb5.
  rewrite (advance_seekg file) by done. apply wp_bind.
  set (ix1 := set_header ix _ _ _).
  eapply wp_mono; [eapply (sections_handler_spec src rev ix1 file _ _ Hf Hrev)|].
  - subst ix1. split; simpl; try done. rewrite Hdm. apply map_empty_subseteq.
  - done.
  - done.
  - exact Hat6.
  - match type of Hat7 with at_pos _ ?p _ => assert (p = index_file_v1_header_size + 4 + 24 * length (chunks src rev))%nat as <- end; [|exact Hat7].
    rewrite length_app, pod_length, length_enc_all, length_lay_out, length_fmap.
    unfold index_file_v1_header_size. cbn [pod_size u32_pod section_pod r new_reader rrp]. lia.
  - intros [[s ix'] r'] [-> ->]. cbn [wp]. split; [done|].
    destruct (restore_all src rev ix1) as []; try done; by split.
Qed.

(** Written and read back. *)
Lemma file_roundtrip src metric bm : fits src -> (is_bm25 src = true -> is_Some bm) ->
  exists w, Serialize src new_writer = Ret w /\
    (Z.of_nat (length (written w)) < 2 ^ 64 ->
     exists ix', Deserialize (new_index metric bm) (new_reader (written w)) = Ret (success, ix') /\
       same_published src (new_index metric bm) ix').
Proof.
  intros Hf Hbm. set (ix := new_index metric bm).
  destruct (wp_elim _ _ (Serialize_spec src new_writer [] Hf (conj new_writer_ok eq_refl)))
    as (w & Hw & rev & Hrev & _ & Hb).
  exists w. split; [exact Hw|]. intros Hmax.
  destruct (wp_elim _ _ (Deserialize_spec src rev ix (written w) Hf Hrev Hb Hmax eq_refl eq_refl eq_refl eq_refl Hbm))
    as ([s ix'] & Hd & -> & Hsp).
  by exists ix'.
Qed.

(** C11: an index that fits the file format (fewer than 2^32 rows, dimensions
    and document ids, dimension numbers [0 .. nr - 1], statistics of the right
    length) is written without leaving any buffer, and an index created with the
    same kind of metric parameters reads that file back with status [success]:
    dimension map, posting lists, values, maximum scores, row sums, row and
    column counts are those of the original. *)
Theorem serialize_roundtrip src metric bm : fits src -> (is_bm25 src = true -> is_Some bm) ->
  exists w, Serialize src new_writer = Ret w /\
    (Z.of_nat (length (written w)) < 2 ^ 64 ->
     exists ix', Deserialize (new_index metric bm) (new_reader (written w)) = Ret (success, ix') /\
       same_published src (new_index metric bm) ix').
Proof. apply file_roundtrip. Qed.

(** Writing reads one statistic per row. *)
Lemma Serialize_needs_stats ix w w' : Serialize ix w = Ret w' ->
  (n_rows_internal ix <= length (dataset_nnz_stats ix))%nat.
Proof.
  unfold Serialize. intros H.
  repeat match type of H with
  | bind (prefix (dataset_nnz_stats _) _) _ = _ => fail 1
  | bind (write _ _ _ _) _ = _ => apply bind_Ret_inv in H as ([? ?] & _ & H)
  | bind _ _ = _ => apply bind_Ret_inv in H as (? & _ & H)
  end.
  apply bind_Ret_inv in H as (nnz & Hnnz & _). unfold prefix in Hnnz. by case_decide.
Qed.

(** the build statistics are written but not read back, so a non-empty
    index that was read from a file cannot be written again: writing it reads
    past the end of the empty statistics vectors. *)
Theorem loaded_index_not_serializable src metric bm : fits src -> (is_bm25 src = true -> is_Some bm) ->
  (0 < n_rows_internal src)%nat ->
  exists w, Serialize src new_writer = Ret w /\
    (Z.of_nat (length (written w)) < 2 ^ 64 ->
     exists ix', Deserialize (new_index metric bm) (new_reader (written w)) = Ret (success, ix') /\
       forall w1 w2, Serialize ix' w1 <> Ret w2).
Proof.
  intros Hf Hbm Hrows. set (ix := new_index metric bm).
  destruct (wp_elim _ _ (Serialize_spec src new_writer [] Hf (conj new_writer_ok eq_refl)))
    as (w & Hw & rev & Hrev & _ & Hb).
  exists w. split; [exact Hw|]. intros Hmax.
  destruct (wp_elim _ _ (Deserialize_spec src rev ix (written w) Hf Hrev Hb Hmax eq_refl eq_refl eq_refl eq_refl Hbm))
    as ([s ix'] & Hd & -> & []).
  exists ix'. split; [done|]. intros w1 w2 Hs%Serialize_needs_stats. rewrite sp_stats0 in Hs. simpl in Hs. lia.
Qed.

End roundtrip.

(** A BM25 index over three short rows, for the witness. *)
Definition serial_params : BM25Params Z := mkBM25 1 0 [] [] (fun v _ => v).
Definition serial_index : InvertedIndex Z Z :=
  match Add DAAT_WAND (new_index METRIC_BM25 (Some serial_params))
          [[(1, 3); (5, 2)]; [(2, 4)]; [(1, 1); (7, 9)]] 8 with
  | Ret ix => ix
  | _ => new_index METRIC_BM25 None
  end.

#[local] Instance serial_pod : Pod Z := u32_pod.

(** The conditions on the dimension map, in a form that can be evaluated. *)
Lemma dims_fit {A Q} (ix : InvertedIndex A Q) :
  map_Forall (fun d k => (k < nr_inner_dims ix)%nat /\ 0 <= d < 2 ^ 32) (dim_map ix) ->
  map_Forall (fun d k => map_Forall (fun d' k' => k = k' -> d = d') (dim_map ix)) (dim_map ix) ->
  Forall (fun k => Exists (fun e : Z * nat => snd e = k) (map_to_list (dim_map ix))) (seq 0 (nr_inner_dims ix)) ->
  (forall d k, dim_map ix !! d = Some k -> (k < nr_inner_dims ix)%nat /\ 0 <= d < 2 ^ 32) /\
  (forall d d' k, dim_map ix !! d = Some k -> dim_map ix !! d' = Some k -> d = d') /\
  (forall k, (k < nr_inner_dims ix)%nat -> exists d, dim_map ix !! d = Some k).
Proof.
  intros Hb Hi Hs. split_and!; [exact Hb| |].
  - intros d d' k H1 H2. by apply (Hi d k H1 d' k H2).
  - intros k Hk. rewrite Forall_forall in Hs. specialize (Hs k). rewrite elem_of_seq in Hs.
    specialize (Hs ltac:(lia)). apply Exists_exists in Hs as ([d k'] & Hin & <-).
    exists d. by apply elem_of_map_to_list.
Qed.

Lemma serial_index_fits : fits serial_index.
Proof.
  destruct (dims_fit serial_index) as (Hb & Hi & Hs); [by apply (bool_decide_unpack _); vm_compute..|].
  split.
  1-3: vm_compute; reflexivity.
  1-3: assumption.
  - apply (bool_decide_unpack _). vm_compute. exact I.
  - change (Forall (Forall (fun z : Z => 0 <= z < 2 ^ 32)) (inverted_index_vals_spans serial_index)).
    apply (bool_decide_unpack _). vm_compute. exact I.
  - vm_compute; reflexivity.
  - vm_compute; reflexivity.
  - vm_compute. split; [discriminate | reflexivity].
  - split; [|right; vm_compute; reflexivity].
    change (Forall (fun z : Z => 0 <= z < 2 ^ 32) (max_score_in_dim_spans serial_index)).
    apply (bool_decide_unpack _). vm_compute. exact I.
  - intros _. exists (match bm25_params serial_index with Some p => p | None => serial_params end).
    split; [vm_compute; reflexivity|]. split; [vm_compute; reflexivity|].
    match goal with |- Forall _ ?l => change (Forall (fun z : Z => 0 <= z < 2 ^ 32) l) end.
    apply (bool_decide_unpack _). vm_compute. exact I.
  - vm_compute; reflexivity.
  - vm_compute; reflexivity.
Qed.

Lemma serialize_roundtrip_witness :
  exists w, Serialize serial_index new_writer = Ret w /\
    (Z.of_nat (length (written w)) < 2 ^ 64 ->
     exists ix', Deserialize (new_index METRIC_BM25 (Some serial_params) : InvertedIndex Z Z)
       (new_reader (written w)) = Ret (success, ix') /\
       same_published serial_index (new_index METRIC_BM25 (Some serial_params)) ix').
Proof.
  apply (serialize_roundtrip serial_index METRIC_BM25 (Some serial_params) serial_index_fits).
  intros _; eexists; reflexivity.
Defined.

Lemma loaded_index_not_serializable_witness :
  exists w, Serialize serial_index new_writer = Ret w /\
    (Z.of_nat (length (written w)) < 2 ^ 64 ->
     exists ix', Deserialize (new_index METRIC_BM25 (Some serial_params) : InvertedIndex Z Z)
       (new_reader (written w)) = Ret (success, ix') /\ forall w1 w2, Serialize ix' w1 <> Ret w2).
Proof.
  apply (loaded_index_not_serializable serial_index METRIC_BM25 (Some serial_params) serial_index_fits);
    [intros _; eexists; reflexivity | vm_compute; lia].
Defined.
