(* ===== verification/SparseSerialV0.v ===== *)
(** * The row-wise file format of the sparse inverted index (version 0)

    [SerializeV0] rebuilds the rows from the posting lists and writes them one
    after the other; [DeserializeV0] reads each row and posts it again.  The
    two are the in-memory (non-mmapped) instance of the class. *)

From S2P Require Import Prelude Float Num StdHeap SparseUtils Bitset Expected MemoryIO SparseIndex SparseIndexSpec.

#[local] Open Scope Z_scope.

#[local] Obligation Tactic := idtac.

(** [ElementProxy]: a packed 32-bit index and a value. *)
Program Definition elem_pod {A} (PA : Pod A) : Pod (Z * A) := {|
  pod_size := (4 + pod_size A)%nat;
  pod_valid := fun e => 0 <= fst e < 2 ^ 32 /\ pod_valid (snd e);
  pod_enc := fun e => le_bytes 4 (fst e) ++ pod_enc (snd e);
  pod_dec := fun b => (of_le_bytes (take 4 b), pod_dec (drop 4 b))
|}.
Next Obligation. intros A PA e. cbv beta. by rewrite length_app, length_le_bytes, pod_length. Qed.
Next Obligation. simpl. lia. Qed.
Next Obligation.
  intros A PA [d v] [Hd Hv]. cbv beta. cbn [fst snd] in *.
  rewrite take_app_length', drop_app_length' by (by rewrite length_le_bytes).
  by rewrite of_le_bytes_le_bytes, pod_roundtrip.
Qed.

(** Subtraction of [size_t]. *)
Definition size_sub (a b : nat) : nat :=
  if decide (b <= a)%nat then (a - b)%nat else Z.to_nat (2 ^ 64 + Z.of_nat a - Z.of_nat b).

Lemma size_sub_le a b : (b <= a)%nat -> size_sub a b = (a - b)%nat.
Proof. intros H. unfold size_sub. by rewrite decide_True. Qed.

Section v0.
Context {A Q : Type} `{!Num A, !Quant A Q, PA : !Pod A}.
Context (algo : InvertedIndexAlgo).
Implicit Types ix : InvertedIndex A Q.

(** [SparseRow::set_at]. *)
Definition set_at (row : SparseRow A) (i : nat) (index : Z) (value : A) : M (SparseRow A) :=
  if decide (length row <= i)%nat then Throw "set_at on a SparseRow with invalid index"
  else Ret (<[i := (index, value)]> row).

(** The number of postings of each row. *)
Definition count_row_sizes ix : M (list nat) :=
  foldM (fun sizes span =>
      foldM (fun sizes id => let* n := vget sizes id in vset sizes id (n + 1)%nat) sizes span)
    (replicate (n_rows_internal ix) 0%nat) (inverted_index_ids_spans ix).

(** [dim_map_reverse]; a missing key reads as [0]. *)
Definition reverse_dims ix : gmap nat Z :=
  foldl (fun rev (e : Z * nat) => <[snd e := fst e]> rev) ∅ (map_to_list (dim_map ix)).

(** One posting goes to the next free place of its row. *)
Definition place_value (dim : Z) (st : list (SparseRow A) * list nat) (id : nat) (v : Q)
    : M (list (SparseRow A) * list nat) :=
  let '(raw_rows, row_sizes) := st in
  let* row := vget raw_rows id in
  let* todo := vget row_sizes id in
  let* row := set_at row (size_sub (length row) todo) dim (stored v) in
  let* raw_rows := vset raw_rows id row in
  let* row_sizes := vset row_sizes id (size_sub todo 1) in
  Ret (raw_rows, row_sizes).

(** The rows as the posting lists have them; fresh rows have unspecified
    content (zeros here). *)
Definition rebuild_rows ix : M (list (SparseRow A)) :=
  let dim_map_reverse := reverse_dims ix in
  let* row_sizes := count_row_sizes ix in
  let raw_rows := (fun n => replicate n (0, nzero)) <$> row_sizes in
  let* (raw_rows, _) := foldM (fun st i =>
      let* ids := vget (inverted_index_ids_spans ix) i in
      let* vals := vget (inverted_index_vals_spans ix) i in
      let dim := default 0 (dim_map_reverse !! i) in
      foldM (fun st j =>
          let* id := vget ids j in
          let* v := vget vals j in
          place_value dim st id v)
        st (seq 0 (length ids)))
    (raw_rows, row_sizes) (seq 0 (length (inverted_index_ids_spans ix))) in
  Ret raw_rows.

Definition put_row (w : MemoryIOWriter) (row : SparseRow A) : M MemoryIOWriter :=
  let* w := put u64_pod w (Z.of_nat (length row)) in
  if (0 <? length row)%nat then put_all (elem_pod PA) w row else Ret w.

Definition SerializeV0 ix (w : MemoryIOWriter) : M (Status * MemoryIOWriter) :=
  let* w := put u64_pod w (Z.of_nat (n_rows_internal ix)) in
  let* w := put u64_pod w (max_dim ix) in
  let* w := put PA w nzero in
  let* raw_rows := rebuild_rows ix in
  (* [vec_id] is a 32-bit counter: with more rows the loop does not end *)
  if decide (2 ^ 32 <= Z.of_nat (n_rows_internal ix)) then Undef
  else
    let* w := foldM (fun w vec_id => let* row := vget raw_rows vec_id in put_row w row)
                w (seq 0 (n_rows_internal ix)) in
    Ret (success, w).

(** ** Reading *)

(** The row count was once signed; its absolute value counts. *)
Definition abs_i64 (bits : Z) : M Z :=
  if bits <? 2 ^ 63 then Ret bits else if bits =? 2 ^ 63 then Undef else Ret (2 ^ 64 - bits).

(** One row: its length and its elements; a short read leaves the fresh row as
    it was allocated. *)
Definition read_row (r : MemoryIOReader) : M (MemoryIOReader * SparseRow A) :=
  let* (r, count) := read_pod (Pod0:=u64_pod) r 0 in
  let count := Z.to_nat count in
  if (0 <? count)%nat then
    let* (r, bytes, n) := read r (count * (4 + pod_size A)) 1 in
    Ret (r, if (n =? 1)%nat then dec_n (Pod0:=elem_pod PA) count bytes else replicate count (0, nzero))
  else Ret (r, []).

Definition set_max_dim ix (dim : Z) : InvertedIndex A Q :=
  mkIndex (dim_map ix) (nr_inner_dims ix) (inverted_index_ids ix) (inverted_index_vals ix)
    (inverted_index_ids_spans ix) (inverted_index_vals_spans ix) (max_score_in_dim ix)
    (max_score_in_dim_spans ix) (metric_type ix) (n_rows_internal ix) dim (next_dim_id ix) (bm25_params ix)
    (dataset_nnz_stats ix) (posting_list_length_stats ix).

(** The tail of [DeserializeV0]: the spans are appended to those there are. *)
Definition publish_v0 ix (rows : nat) : M (InvertedIndex A Q) :=
  let nr := size (dim_map ix) in
  let* lens := foldM (fun acc i => let* l := vget (inverted_index_ids ix) i in Ret (acc ++ [length l]))
                 [] (seq 0 nr) in
  let* ids := foldM (fun acc i => let* l := vget (inverted_index_ids ix) i in Ret (acc ++ [l]))
                (inverted_index_ids_spans ix) (seq 0 nr) in
  let* vals := foldM (fun acc i => let* l := vget (inverted_index_vals ix) i in Ret (acc ++ [l]))
                 (inverted_index_vals_spans ix) (seq 0 nr) in
  let* bm := (if is_bm25 ix then
                let* p := bm25_of ix in
                Ret (Some (mkBM25 (k1 p) (b p) (row_sums p) (row_sums p) (max_score_computer p)))
              else Ret (bm25_params ix)) in
  Ret (mkIndex (dim_map ix) nr (inverted_index_ids ix) (inverted_index_vals ix) ids vals
         (max_score_in_dim ix)
         (match max_score_in_dim ix with [] => max_score_in_dim_spans ix | ms => ms end)
         (metric_type ix) rows (max_dim ix) (next_dim_id ix) bm
         (dataset_nnz_stats ix) lens).

Definition DeserializeV0 ix (r : MemoryIOReader) : M (Status * InvertedIndex A Q) :=
  let* (r, rows) := read_pod (Pod0:=u64_pod) r 0 in
  let* rows := abs_i64 rows in
  let* (r, dim) := read_pod (Pod0:=u64_pod) r (max_dim ix) in
  let* (r, _) := read_pod (Pod0:=PA) r nzero in
  let* (ix, _) := foldM (fun (st : InvertedIndex A Q * MemoryIOReader) i =>
      let '(ix, r) := st in
      let* (r, raw_row) := read_row r in
      let* ix := add_row_to_index algo ix raw_row i in
      Ret (ix, r))
    (set_max_dim ix dim, r) (seq 0 (Z.to_nat rows)) in
  let* ix := publish_v0 ix (Z.to_nat rows) in
  Ret (success, ix).

End v0.

(** ** Counting and placing *)

Section place.
Context {A Q : Type} `{!Num A, !Quant A Q}.

(** The elements of row [i] among postings [(row, dimension, value)]. *)
Definition els (i : nat) (T : list (nat * Z * Q)) : SparseRow A :=
  omap (fun '(i', d, v) => if decide (i' = i) then Some (d, stored v) else None) T.

Lemma els_app i T T' : els i (T ++ T') = els i T ++ els i T'.
Proof. apply omap_app. Qed.

Lemma els_cons i i' d v T : els i ((i', d, v) :: T) = (if decide (i' = i) then [(d, stored v)] else []) ++ els i T.
Proof. unfold els. simpl. by destruct (decide (i' = i)). Qed.

Lemma els_concat i Ts : els i (concat Ts) = concat (els i <$> Ts).
Proof. induction Ts as [|T Ts IH]; [done|]. simpl. by rewrite els_app, IH. Qed.

Definition bump (sizes : list nat) (id : nat) : M (list nat) :=
  let* n := vget sizes id in vset sizes id (n + 1)%nat.

Lemma bump_spec n (T : list (nat * Z * Q)) : Forall (fun e => (fst (fst e) < n)%nat) T ->
  wp (foldM bump (replicate n 0%nat) ((fun e => fst (fst e)) <$> T))
     (fun sizes => length sizes = n /\ forall i, (i < n)%nat -> sizes !! i = Some (length (els i T))).
Proof.
  intros HT. rewrite foldM_fmap.
  apply (wp_foldM _ (fun pre sizes => length sizes = n /\ forall i, (i < n)%nat -> sizes !! i = Some (length (els i pre))));
    [|intros pre [[id d] v] post sizes -> [Hl Hs]|done].
  - split; [apply length_replicate|]. intros i Hi. by apply lookup_replicate.
  - apply Forall_app in HT as [_ HT]. apply Forall_cons_1 in HT as [Hid _]. cbn [fst] in *.
    unfold bump. rewrite (proj2 (vget_Ret _ _ _) (Hs id Hid)). cbn [bind].
    apply wp_vset; [by rewrite Hl|]. split; [by rewrite length_insert|]. intros i Hi. rewrite els_app, els_cons, length_app.
    destruct (decide (id = i)) as [<-|Hne].
    + rewrite list_lookup_insert_eq by lia. done.
    + rewrite list_lookup_insert_ne, Hs by done. simpl. by rewrite Nat.add_0_r.
Qed.

Lemma place_spec n (T : list (nat * Z * Q)) sizes : Forall (fun e => (fst (fst e) < n)%nat) T ->
  length sizes = n -> (forall i, (i < n)%nat -> sizes !! i = Some (length (els i T))) ->
  wp (foldM (fun st e => place_value (snd (fst e)) st (fst (fst e)) (snd e))
        ((fun m => replicate m (0, nzero)) <$> sizes, sizes) T)
     (fun '(raw, _) => length raw = n /\ forall i, (i < n)%nat -> raw !! i = Some (els i T)).
Proof.
  intros HT Hlen Hsz.
  apply (wp_foldM _ (fun pre '(raw, sz) => length raw = n /\ length sz = n /\ forall i, (i < n)%nat ->
    exists g, raw !! i = Some (els i pre ++ g) /\ sz !! i = Some (length g) /\
      (length (els i pre) + length g = length (els i T))%nat)).
  - rewrite length_fmap. split_and!; [done..|]. intros i Hi. exists (replicate (length (els i T)) (0, nzero)).
    rewrite list_lookup_fmap, Hsz, length_replicate by done. done.
  - intros pre [[id d] v] post [raw sz] Heq (Hr & Hs & Hinv). cbn [fst snd].
    assert (id < n)%nat as Hid.
    { subst T. apply Forall_app in HT as [_ HT]. by apply Forall_cons_1 in HT as [Hid _]. }
    destruct (Hinv id Hid) as (g & Hg & Hgs & Hgl). unfold place_value.
    rewrite (proj2 (vget_Ret _ _ _) Hg), (proj2 (vget_Ret _ _ _) Hgs). cbn [bind].
    assert (length (els id T) = length (els id pre) + 1 + length (els id post))%nat as HlT.
    { subst T. rewrite els_app, els_cons, decide_True, !length_app by done. simpl. lia. }
    destruct g as [|y g]; [simpl in *; lia|]. rewrite length_app, size_sub_le by lia.
    replace (length (els id pre) + length (y :: g) - length (y :: g))%nat with (length (els id pre)) by lia.
    rewrite size_sub_le by (simpl; lia). unfold set_at. rewrite length_app. rewrite decide_False by (simpl; lia). cbn [bind]. rewrite insert_next.
    apply wp_bind, wp_vset; [lia|]. apply wp_bind, wp_vset; [lia|]. cbn [wp]. rewrite !length_insert.
    split_and!; [done..|]. intros i Hi. destruct (decide (id = i)) as [<-|Hne].
    + exists g. rewrite !list_lookup_insert_eq by lia. rewrite els_app, els_cons, decide_True, length_app by done. simpl. split_and!; [done|by rewrite Nat.sub_0_r|simpl in Hgl; lia].
    + destruct (Hinv i Hi) as (g' & ? & ? & ?). exists g'. rewrite !list_lookup_insert_ne by done.
      rewrite els_app, els_cons, decide_False by done. simpl. by rewrite app_nil_r.
  - intros [raw sz] (Hr & _ & Hinv). split; [done|]. intros i Hi. destruct (Hinv i Hi) as (g & Hg & _ & Hl).
    rewrite Hg. destruct g; [by rewrite app_nil_r|simpl in Hl; lia].
Qed.

End place.

(** ** The rebuilt rows *)

Section rebuilt.
Context {A Q : Type} `{!Num A, !Quant A Q} (algo : InvertedIndexAlgo).
Implicit Types ix : InvertedIndex A Q.
Implicit Types rows : list (SparseRow A).
Implicit Types r : SparseRow A.

Lemma row_val_nonzero r d v : row_val r d = Some v -> neqb v nzero = false.
Proof.
  induction r as [|[d' w] r IH]; simpl; [done|]. destruct (d' =? d)%Z; simpl; [|done].
  destruct (neqb w nzero) eqn:Hw; simpl; [done|]. by intros [= <-].
Qed.

Lemma row_val_in r d v : row_val r d = Some v -> (d, v) ∈ r.
Proof.
  induction r as [|[d' w] r IH]; simpl; [done|]. destruct (Z.eqb_spec d' d) as [->|]; simpl.
  - destruct (neqb w nzero); simpl; [|by intros [= ->]; left]. intros H. right. auto.
  - intros H. right. auto.
Qed.

Lemma row_val_elem r d v : row_ok r -> Forall (fun e => neqb (snd e) nzero = false) r ->
  row_val r d = Some v <-> (d, v) ∈ r.
Proof.
  unfold row_ok. induction r as [|[d' w] r IH]; simpl; [by rewrite elem_of_nil|].
  intros [Hd Hnd]%NoDup_cons [Hw Hr]%Forall_cons. simpl in Hw. rewrite Hw, andb_true_r, elem_of_cons.
  destruct (Z.eqb_spec d' d) as [<-|Hne].
  - split; [intros [= ->]; by left|]. intros [[= ->]|Hin]; [done|]. exfalso. apply Hd.
    change d' with (fst (d', v)). by apply list_elem_of_fmap_2.
  - rewrite IH by done. split; [by right|]. intros [[= -> ->]|?]; done.
Qed.

(** The dimension with number [k]. *)
Definition dim_of ix (k : nat) : Z := default 0 (reverse_dims ix !! k).

Lemma dim_of_spec ix rows d k : lists_ok algo ix rows -> dim_map ix !! d = Some k -> dim_of ix k = d.
Proof.
  intros Hok Hd. unfold dim_of, reverse_dims.
  assert (forall l, (d, k) ∈ l -> (forall e, e ∈ l -> snd e = k -> fst e = d) ->
    foldl (fun rev (e : Z * nat) => <[snd e := fst e]> rev) (∅ : gmap nat Z) l !! k = Some d) as H.
  { intros l. induction l as [|[d' k'] l IH] using rev_ind; intros Hin Hall; [by apply elem_of_nil in Hin|].
    rewrite foldl_app. simpl. destruct (decide (k' = k)) as [->|Hne].
    - rewrite lookup_insert_eq. f_equal. apply (Hall (d', k)); [|done].
      apply elem_of_app. right. by apply list_elem_of_singleton.
    - rewrite lookup_insert_ne by done. apply IH.
      + apply elem_of_app in Hin as [?|[= ? ?]%list_elem_of_singleton]; [done|congruence].
      + intros e He. apply Hall. apply elem_of_app. by left. }
  rewrite H; [done|by apply elem_of_map_to_list|].
  intros [d' k'] He%elem_of_map_to_list Hk. simpl in *. subst k'. by apply (lo_inj _ _ _ Hok _ _ k).
Qed.

Lemma dim_of_lookup ix rows k : lists_ok algo ix rows -> (k < next_dim_id ix)%nat -> dim_map ix !! dim_of ix k = Some k.
Proof.
  intros Hok Hk. destruct (lo_surj _ _ _ Hok k Hk) as [d Hd]. by rewrite (dim_of_spec _ rows d).
Qed.

(** A row as it is written: its non-zero elements in the order of the dimension
    numbers, with their values as the posting lists hold them. *)
Definition rebuilt_row ix r : SparseRow A :=
  concat ((fun k => match row_val r (dim_of ix k) with Some v => [(dim_of ix k, stored (Q:=Q) (get_quant_val v))] | None => [] end)
    <$> seq 0 (next_dim_id ix)).

Lemma els_posting_from i b rows r d : (b <= i)%nat -> rows !! (i - b)%nat = Some r ->
  els i ((fun e => (fst e, d, get_quant_val (snd e))) <$> posting_from b rows d) =
  match row_val r d with Some v => [(d, stored (Q:=Q) (get_quant_val v))] | None => [] end.
Proof.
  revert b. induction rows as [|r' rows IH]; intros b Hb Hr; [done|]. simpl.
  assert (forall b', (i < b')%nat -> els i ((fun e => (fst e, d, get_quant_val (snd e))) <$> posting_from b' rows d) = []) as Hnil.
  { intros b' Hb'. clear IH Hr. revert b' Hb'. induction rows as [|r1 rows IH]; intros b' Hb'; [done|]. simpl.
    destruct (row_val r1 d); [|apply IH; lia]. rewrite fmap_cons, els_cons. cbn [fst snd].
    rewrite decide_False by lia. apply IH. lia. }
  destruct (decide (i = b)) as [->|Hne].
  - rewrite Nat.sub_diag in Hr. injection Hr as ->. destruct (row_val r d); [|apply Hnil; lia].
    rewrite fmap_cons, els_cons. cbn [fst snd]. rewrite decide_True by done. rewrite Hnil by lia. done.
  - replace (i - b)%nat with (S (i - (b + 1))) in Hr by lia. specialize (IH (b + 1)%nat ltac:(lia) Hr).
    destruct (row_val r' d); [|done]. rewrite fmap_cons, els_cons. cbn [fst snd].
    rewrite decide_False by done. done.
Qed.

(** A value that is read back: its stored form, unless that is zero. *)
Definition kept (v : A) : option A :=
  let v' := stored (Q:=Q) (get_quant_val v) in if neqb v' nzero then None else Some v'.

Lemma row_val_kept r d : row_ok r ->
  row_val r d = match list_find (fun e => fst e = d) r with
                | Some (_, (_, v)) => if neqb v nzero then None else Some v
                | None => None
                end.
Proof.
  unfold row_ok. induction r as [|[d' w] r IH]; [done|]. intros [Hd Hnd]%NoDup_cons. cbn [row_val list_find fst].
  destruct (Z.eqb_spec d' d) as [->|Hne].
  - rewrite decide_True by done. cbn [andb]. destruct (neqb w nzero); [|done]. by apply row_val_none.
  - rewrite decide_False by done. cbn [andb]. rewrite IH by done. destruct (list_find _ r) as [[j [? ?]]|]; done.
Qed.

Lemma elem_of_rebuilt ix rows r d v : represents algo ix rows -> r ∈ rows ->
  (d, v) ∈ rebuilt_row ix r <-> exists w, row_val r d = Some w /\ v = stored (Q:=Q) (get_quant_val w).
Proof.
  intros [Hok _ _ _ _ _ _] Hr. unfold rebuilt_row. rewrite elem_of_concat. split.
  - intros (l & Hl & He). apply list_elem_of_fmap in Hl as (k & -> & _).
    destruct (row_val r (dim_of ix k)) eqn:Hv; [|by apply elem_of_nil in He].
    apply list_elem_of_singleton in He as [= -> ->]. eauto.
  - intros (w & Hv & ->). destruct (dim_map ix !! d) as [k|] eqn:Hd.
    + exists [(d, stored (Q:=Q) (get_quant_val w))]. split; [|by left]. apply list_elem_of_fmap. exists k.
      rewrite (dim_of_spec _ rows d), Hv by done. split; [done|]. apply elem_of_seq.
      pose proof (lo_bound _ _ _ Hok _ _ Hd). lia.
    + apply list_elem_of_lookup in Hr as [i Hi]. pose proof (lo_none _ _ _ Hok _ Hd) as Hn.
      assert ((i, w) ∈ posting rows d) as H.
      { apply elem_of_posting_from. rewrite Nat.sub_0_r. split; [lia|by exists r]. }
      rewrite Hn in H. by apply elem_of_nil in H.
Qed.

Lemma rebuilt_nodup ix rows r : lists_ok algo ix rows -> row_ok (rebuilt_row ix r).
Proof.
  intros Hok. unfold row_ok, rebuilt_row. set (one := fun k => match row_val r (dim_of ix k) with
    Some v => [(dim_of ix k, stored (Q:=Q) (get_quant_val v))] | None => [] end).
  assert (forall n m, (n + m <= next_dim_id ix)%nat -> NoDup (fst <$> concat (one <$> seq n m)) /\
    forall d k, d ∈ fst <$> concat (one <$> seq n m) -> dim_map ix !! d = Some k -> (n <= k)%nat) as H; [|by apply (H 0%nat)].
  intros n m. revert n. induction m as [|m IH]; intros n Hn; simpl.
  - split; [constructor|]. intros d k Hd. by apply elem_of_nil in Hd.
  - destruct (IH (S n)) as [H1 H2]; [lia|]. unfold one at 1 3. destruct (row_val r (dim_of ix n)); simpl.
    + split; [constructor; [|done]|].
      * intros Hd. assert (S n <= n)%nat; [|lia]. apply (H2 (dim_of ix n)); [done|].
        apply (dim_of_lookup _ rows); [done|lia].
      * intros d k [->|Hd]%elem_of_cons Hk; [|specialize (H2 d k Hd Hk); lia].
        rewrite (dim_of_lookup _ rows) in Hk by (done || lia). injection Hk as ->. lia.
    + split; [done|]. intros d k Hd Hk. specialize (H2 d k Hd Hk). lia.
Qed.

Lemma rebuilt_row_ok ix rows r : represents algo ix rows -> r ∈ rows ->
  row_ok (rebuilt_row ix r) /\ forall d, row_val (rebuilt_row ix r) d = row_val r d ≫= kept.
Proof.
  intros Hrep Hr. pose proof (rebuilt_nodup ix rows r (re_lists _ _ _ Hrep)) as Hnd. split; [done|]. intros d.
  rewrite row_val_kept by done. destruct (list_find _ _) as [[j [d' v]]|] eqn:Hf.
  - apply list_find_Some in Hf as (Hj & Hd & _). simpl in Hd. subst d'. apply list_elem_of_lookup_2 in Hj.
    apply (elem_of_rebuilt ix rows) in Hj as (w & -> & ->); done.
  - destruct (row_val r d) as [w|] eqn:Hv; [|done]. exfalso. apply list_find_None in Hf.
    rewrite Forall_forall in Hf. apply (Hf (d, stored (Q:=Q) (get_quant_val w))); [|done].
    apply (elem_of_rebuilt ix rows); eauto.
Qed.

(** The postings of dimension number [k], as they are placed. *)
Definition trip ix (k : nat) : list (nat * Z * Q) :=
  (fun e => (fst e, dim_of ix k, snd e)) <$>
    zip (inverted_index_ids_spans ix !!! k) (inverted_index_vals_spans ix !!! k).

Lemma spans_of ix rows k : represents algo ix rows -> (k < next_dim_id ix)%nat ->
  inverted_index_ids_spans ix !! k = Some (fst <$> posting rows (dim_of ix k)) /\
  inverted_index_vals_spans ix !! k = Some ((fun e => get_quant_val (snd e)) <$> posting rows (dim_of ix k)).
Proof.
  intros [Hok _ _ -> -> _ _] Hk. assert (dim_map ix !! dim_of ix k = Some k) as Hd by (by eapply dim_of_lookup).
  split; [by apply (lo_ids _ _ _ Hok)|by apply (lo_vals _ _ _ Hok)].
Qed.

Lemma trip_posting ix rows k : represents algo ix rows -> (k < next_dim_id ix)%nat ->
  trip ix k = (fun e => (fst e, dim_of ix k, get_quant_val (snd e))) <$> posting rows (dim_of ix k).
Proof.
  intros Hrep Hk. destruct (spans_of ix rows k Hrep Hk) as [H1 H2]. unfold trip.
  rewrite (list_lookup_total_correct _ _ _ H1), (list_lookup_total_correct _ _ _ H2).
  rewrite zip_with_fmap_l, zip_with_fmap_r. clear H1 H2.
  induction (posting rows (dim_of ix k)) as [|[i v] l IH]; [done|]. simpl. f_equal. exact IH.
Qed.

Definition all_trips ix : list (nat * Z * Q) := concat (trip ix <$> seq 0 (next_dim_id ix)).

Lemma all_trips_bound ix rows : represents algo ix rows ->
  Forall (fun e => (fst (fst e) < length rows)%nat) (all_trips ix).
Proof.
  intros Hrep. apply Forall_forall. intros e (l & (k & -> & Hk%elem_of_seq)%list_elem_of_fmap & He)%elem_of_concat.
  rewrite (trip_posting _ rows) in He by (done || lia). apply list_elem_of_fmap in He as ([i v] & -> & Hi).
  apply elem_of_posting_from in Hi as (_ & r & Hr & _). rewrite Nat.sub_0_r in Hr. simpl. by eapply lookup_lt_Some.
Qed.

Lemma els_all_trips ix rows i r : represents algo ix rows -> rows !! i = Some r ->
  els i (all_trips ix) = rebuilt_row ix r.
Proof.
  intros Hrep Hi. unfold all_trips, rebuilt_row. rewrite els_concat, <- list_fmap_compose. f_equal.
  apply list_fmap_ext. intros j k [-> Hk]%lookup_seq. simpl. rewrite (trip_posting _ rows) by done.
  apply els_posting_from; [lia|]. by rewrite Nat.sub_0_r.
Qed.

Lemma fmap_concat {B C} (f : B -> C) (ls : list (list B)) : ((f <$> concat ls) : list C) = concat ((fun l : list B => (f <$> l) : list C) <$> ls).
Proof. induction ls as [|l ls IH]; [done|]. simpl. by rewrite fmap_app, IH. Qed.

Lemma concat_ids ix rows : represents algo ix rows ->
  concat (inverted_index_ids_spans ix) = (fun e => fst (fst e)) <$> all_trips ix.
Proof.
  intros Hrep. unfold all_trips. rewrite fmap_concat, <- list_fmap_compose.
  f_equal. apply list_eq. intros k. rewrite list_lookup_fmap. destruct (decide (k < next_dim_id ix)%nat) as [Hk|Hk].
  - rewrite lookup_seq_lt by done. simpl. rewrite (trip_posting _ rows), <- list_fmap_compose by done.
    by destruct (spans_of ix rows k Hrep Hk) as [-> _].
  - rewrite lookup_seq_ge by lia. destruct Hrep as [Hok _ _ Hids _ _ _]. rewrite Hids. apply lookup_ge_None.
    rewrite (lo_ids_len _ _ _ Hok). lia.
Qed.

Lemma rebuild_rows_spec ix rows : represents algo ix rows -> rebuild_rows ix = Ret (rebuilt_row ix <$> rows).
Proof.
  intros Hrep. pose proof (all_trips_bound ix rows Hrep) as Hb.
  match goal with |- ?m = Ret ?r => assert (wp m (fun d => d = r)) as H; [|by apply wp_elim in H as (? & -> & ->)] end.
  unfold rebuild_rows, count_row_sizes. apply wp_bind.
  change (fun sizes span => foldM _ sizes span) with (foldM bump). rewrite foldM_concat, (concat_ids ix rows Hrep).
  rewrite (re_rows _ _ _ Hrep). eapply wp_mono; [by apply bump_spec|]. intros sizes [Hl Hs]. apply wp_bind.
  rewrite (re_ids _ _ _ Hrep), (lo_ids_len _ _ _ (re_lists _ _ _ Hrep)), <- (re_ids _ _ _ Hrep).
  set (place := fun st (e : nat * Z * Q) => place_value (snd (fst e)) st (fst (fst e)) (snd e)).
  rewrite (foldM_ext _ (fun st k => foldM place st (trip ix k))).
  - rewrite <- (foldM_fmap (foldM place) (trip ix)), foldM_concat.
    eapply wp_mono; [by apply place_spec|]. intros [raw sz] [Hlr Hraw]. cbn [wp].
    apply list_eq. intros i. rewrite list_lookup_fmap. destruct (rows !! i) as [r|] eqn:Hi.
    + rewrite Hraw by (by eapply lookup_lt_Some). simpl. f_equal. by eapply els_all_trips.
    + apply lookup_ge_None. rewrite Hlr. by apply lookup_ge_None.
  - intros st k [_ Hk]%elem_of_seq. destruct (spans_of ix rows k Hrep) as [H1 H2]; [lia|].
    rewrite (proj2 (vget_Ret _ _ _) H1), (proj2 (vget_Ret _ _ _) H2). cbn [bind].
    rewrite (foldM_zip (place_value (default 0 (reverse_dims ix !! k)))) by (by rewrite !length_fmap).
    unfold trip. rewrite foldM_fmap, (list_lookup_total_correct _ _ _ H1), (list_lookup_total_correct _ _ _ H2).
    reflexivity.
Qed.

End rebuilt.

(** ** Round trip *)

Section roundtrip.
Context {A Q : Type} `{!Num A, !Quant A Q, PA : !Pod A} (algo : InvertedIndexAlgo).
Implicit Types ix : InvertedIndex A Q.
Implicit Types rows : list (SparseRow A).
Implicit Types row : SparseRow A.

Definition row_bytes row : list Z :=
  pod_enc (Pod:=u64_pod) (Z.of_nat (length row)) ++ enc_all (Pod0:=elem_pod PA) row.

Definition v0_bytes (dim : Z) rows : list Z :=
  pod_enc (Pod:=u64_pod) (Z.of_nat (length rows)) ++ pod_enc (Pod:=u64_pod) dim ++ pod_enc (nzero : A) ++
  concat (row_bytes <$> rows).

Lemma put_row_spec w row bytes : has_written bytes w -> wp (put_row w row) (has_written (bytes ++ row_bytes row)).
Proof.
  intros Hw. unfold put_row, row_bytes. eapply wp_written; [by apply put_spec|]. intros w1 Hw1. rewrite app_assoc.
  destruct row as [|e row]; [|by apply put_all_spec]. cbn. by rewrite app_nil_r.
Qed.

Lemma SerializeV0_spec ix rows : represents algo ix rows -> Z.of_nat (length rows) < 2 ^ 32 ->
  wp (SerializeV0 ix new_writer) (fun '(s, w) => s = success /\
    written w = v0_bytes (max_dim ix) (rebuilt_row ix <$> rows)).
Proof.
  intros Hrep H32. unfold SerializeV0.
  eapply wp_written; [by apply (put_spec _ _ _ []); split; [apply new_writer_ok|]|]. intros w1 Hw1.
  eapply wp_written; [by apply put_spec|]. intros w2 Hw2.
  eapply wp_written; [by apply put_spec|]. intros w3 Hw3.
  rewrite (rebuild_rows_spec algo ix rows Hrep). cbn [bind]. set (out := rebuilt_row ix <$> rows).
  assert (n_rows_internal ix = length out) as Hn by (unfold out; rewrite length_fmap; apply Hrep).
  rewrite decide_False by (rewrite (re_rows _ _ _ Hrep); lia). apply wp_bind. rewrite Hn in *.
  set (pre := ([] ++ pod_enc (Pod:=u64_pod) (Z.of_nat (length out))) ++ pod_enc (Pod:=u64_pod) (max_dim ix)) in *.
  apply (wp_for _ (fun i => has_written ((pre ++ pod_enc (nzero : A)) ++ concat (row_bytes <$> take i out)))).
  - by rewrite app_nil_r.
  - intros i w Hi Hw. apply wp_bind, wp_vget; [lia|]. intros row Hrow.
    rewrite Nat.add_1_r, (take_S_r _ _ _ Hrow), fmap_app, concat_app, app_assoc.
    change (concat (row_bytes <$> [row])) with (row_bytes row ++ []). rewrite app_nil_r. by apply put_row_spec.
  - intros w [_ Hw]. rewrite Nat.add_0_l, take_ge in Hw by lia. cbn [wp]. split; [done|]. rewrite Hw.
    unfold v0_bytes, pre. by rewrite app_nil_l, <- !app_assoc.
Qed.

Definition row_fits row : Prop :=
  Z.of_nat (length row) < 2 ^ 64 /\ Forall (pod_valid (Pod:=elem_pod PA)) row.

Lemma read_row_at file r row : reads file r -> row_fits row -> at_pos file (rrp r) (row_bytes row) ->
  read_row r = Ret (seekg r (rrp r + length (row_bytes row)), row).
Proof.
  intros Hr [Hlen Hv] [Hat Hat']%at_pos_app. unfold read_row.
  rewrite (read_pod_at (Pod0:=u64_pod) file r (Z.of_nat (length row))) by (done || (simpl; lia)). cbn [bind].
  rewrite Nat2Z.id. unfold row_bytes. rewrite length_app, length_enc_all.
  change (length (pod_enc _)) with 8%nat. change (pod_size Z) with 8%nat.
  destruct row as [|e row]; [by rewrite Nat.add_0_r|]. set (rw := e :: row) in *.
  change (0 <? length rw)%nat with true. cbn iota.
  rewrite (read_bytes_at file _ (enc_all (Pod0:=elem_pod PA) rw)).
  - cbn [bind Nat.eqb]. rewrite <- (app_nil_r (enc_all _)), dec_enc_all by done.
    unfold seekg. simpl. do 3 f_equal. lia.
  - by apply reads_seekg.
  - exact Hat'.
  - by rewrite length_enc_all.
  - simpl. lia.
Qed.

(** Posting a row does not touch what was published. *)
Definition published ix := (inverted_index_ids_spans ix, inverted_index_vals_spans ix, max_dim ix).

Lemma foldM_keeps {S B C} (f : S -> B -> M S) (g : S -> C) l s s' :
  (forall s x s', f s x = Ret s' -> g s' = g s) -> foldM f s l = Ret s' -> g s' = g s.
Proof.
  intros Hf. revert s. induction l as [|x l IH]; intros s H; simpl in H; [by injection H as ->|].
  apply bind_Ret_inv in H as (s1 & H1 & H2). rewrite (IH _ H2). by eapply Hf.
Qed.

Lemma add_row_keeps ix row n ix' : add_row_to_index algo ix row n = Ret ix' -> published ix' = published ix.
Proof.
  unfold add_row_to_index. intros H. apply bind_Ret_inv in H as ([ix1 sum] & H1 & H).
  apply bind_Ret_inv in H as (ix2 & H2 & H).
  assert (published ix' = published ix2) as ->.
  { destruct (is_bm25 ix2); [|by injection H as ->]. apply bind_Ret_inv in H as (p & _ & H). by injection H as <-. }
  assert (published ix2 = published ix1) as ->.
  { destruct (is_daat algo); [|by injection H2 as <-]. apply (foldM_keeps _ published) in H2; [done|].
    intros s [d v] s'. unfold raise_max_score. destruct (neqb v nzero); [by intros [= ->]|].
    destruct (dim_map s !! d); [|done]. intros (? & _ & H3)%bind_Ret_inv.
    apply bind_Ret_inv in H3 as (? & _ & H3). apply bind_Ret_inv in H3 as (? & _ & H3). by injection H3 as <-. }
  apply (foldM_keeps _ (fun st => published (fst st))) in H1; [done|].
  intros [s t] [d v] s'. unfold post_value. destruct (neqb v nzero); [by intros [= <-]|].
  destruct (dim_map s !! d); intros (? & _ & H3)%bind_Ret_inv;
    apply bind_Ret_inv in H3 as (? & _ & H3); apply bind_Ret_inv in H3 as (? & _ & H3);
    apply bind_Ret_inv in H3 as (? & _ & H3); by injection H3 as <-.
Qed.

Lemma publish_v0_fresh ix n : n_rows_internal ix = 0%nat -> inverted_index_ids_spans ix = [] ->
  inverted_index_vals_spans ix = [] -> publish_v0 ix n = publish ix n (max_dim ix).
Proof. intros H1 H2 H3. unfold publish_v0, publish. by rewrite H1, H2, H3. Qed.

(** A rebuilt row has at most one element per dimension number. *)
Lemma rebuilt_row_fits ix rows row : represents algo ix rows -> row ∈ rows -> Z.of_nat (next_dim_id ix) < 2 ^ 64 ->
  (forall d v, row_val row d = Some v -> 0 <= d < 2 ^ 32 /\ pod_valid (stored (Q:=Q) (get_quant_val v))) ->
  row_fits (rebuilt_row ix row).
Proof.
  intros Hrep Hrow Hnr Hval. split.
  - unfold rebuilt_row. set (one := fun k => match row_val row (dim_of ix k) with
      Some v => [(dim_of ix k, stored (Q:=Q) (get_quant_val v))] | None => [] end).
    assert (forall n m, (length (concat ((one <$> seq n m) : list (SparseRow A))) <= m)%nat) as H.
    { intros n m. revert n. induction m as [|m IH]; intros n; [done|]. cbn [seq]. rewrite fmap_cons.
      cbn [concat]. rewrite length_app. specialize (IH (S n)). unfold one at 1. destruct (row_val row (dim_of ix n)); cbn [length]; lia. }
    specialize (H 0%nat (next_dim_id ix)). lia.
  - apply Forall_forall. intros [d v] He. unfold rebuilt_row in He. apply elem_of_concat in He as (l & Hl & He).
    apply list_elem_of_fmap in Hl as (k & -> & _). destruct (row_val row (dim_of ix k)) eqn:Hv; [|by apply elem_of_nil in He].
    apply list_elem_of_singleton in He as [= -> ->]. exact (Hval _ _ Hv).
Qed.

(** The fresh index that [DeserializeV0] fills. *)
Definition fresh_ok (metric : SparseMetricType) (bm : option (BM25Params A)) : Prop :=
  metric = METRIC_BM25 -> exists p, bm = Some p /\ row_sums p = [] /\ row_sums_spans p = [].

Lemma DeserializeV0_spec metric bm dim rows : fresh_ok metric bm -> 0 <= dim < 2 ^ 64 ->
  pod_valid (nzero : A) -> Z.of_nat (length rows) < 2 ^ 63 -> Forall row_ok rows -> Forall row_fits rows ->
  wp (DeserializeV0 algo (new_index metric bm) (new_reader (v0_bytes dim rows))) (fun '(s, ix) =>
    s = success /\ represents algo ix rows /\ max_dim ix = dim /\ metric_type ix = metric).
Proof.
  intros Hbm Hdim Hz Hn Hok Hfit. set (file := v0_bytes dim rows).
  assert (reads file (new_reader file)) as Hr by done.
  assert (at_pos file 0 file) as Hat by (exists [], []; by rewrite app_nil_r).
  unfold file at 2, v0_bytes in Hat. apply at_pos_app in Hat as [Ha0 Hat]. apply at_pos_app in Hat as [Ha1 Hat].
  apply at_pos_app in Hat as [Ha2 Ha3]. unfold DeserializeV0.
  rewrite (read_pod_at (Pod0:=u64_pod) file _ (Z.of_nat (length rows))) by (done || (simpl; lia)). cbn [bind].
  unfold abs_i64. rewrite (proj2 (Z.ltb_lt _ _)) by done. cbn [bind].
  rewrite (read_pod_at (Pod0:=u64_pod) file _ dim) by (done || (simpl; lia)). cbn [bind].
  rewrite (read_pod_at (Pod0:=PA) file _ nzero) by (done || (simpl; lia)). cbn [bind]. rewrite Nat2Z.id.
  set (r0 := seekg _ _). set (ix0 := set_max_dim (new_index metric bm) dim).
  apply wp_bind. apply (wp_for _ (fun i '(ix, r) => reads file r /\
    at_pos file (rrp r) (concat (row_bytes <$> drop i rows)) /\ lists_ok algo ix (take i rows) /\
    sums_ok ix (take i rows) /\ frame ix0 ix /\ published ix = published ix0)).
  - split_and!.
    + done.
    + unfold r0. simpl. simpl in Ha3. by rewrite pod_length in Ha3.
    + apply (lists_ok_ext _ (new_index metric bm)); [apply lists_ok_new|done..].
    + intros Hb. destruct metric; [done|]. destruct Hbm as (p & ? & ? & _); [done|]. by exists p.
    + by repeat split.
    + done.
  - intros i [ix r] Hi (Hrd & Hrat & Hl & Hs & Hf & Hp).
    destruct (lookup_lt_is_Some_2 rows i ltac:(lia)) as [row Hrow].
    rewrite (drop_S _ _ _ Hrow), fmap_cons in Hrat. cbn [concat] in Hrat. apply at_pos_app in Hrat as [Hrat Hrat'].
    rewrite (read_row_at file r row) by (done || by eapply Forall_lookup_1). cbn [bind].
    assert (i = length (take i rows)) as Hli by (rewrite length_take; lia). rewrite Hli at 1.
    destruct (wp_elim _ _ (add_row_spec algo ix (take i rows) row Hl Hs ltac:(by eapply Forall_lookup_1)))
      as (ix' & Hadd & Hl' & Hs' & Hf'). rewrite Hadd. cbn [bind wp].
    rewrite Nat.add_1_r, (take_S_r _ _ _ Hrow). split_and!; [by apply reads_seekg|done|done|done| |].
    + destruct Hf as (?&?&?&?), Hf' as (?&?&?&?). split_and!; [congruence..|lia].
    + by rewrite (add_row_keeps _ _ _ _ Hadd).
  - intros [ix r] (_ & _ & Hl & Hs & (Hmt & Hn0 & Hsp & _) & Hp). rewrite Nat.add_0_l, take_ge in Hl, Hs by lia.
    unfold published in Hp. injection Hp as Hp1 Hp2 Hp3. rewrite publish_v0_fresh by done.
    apply wp_bind. eapply wp_mono; [apply (publish_spec algo ix rows); [done|done|by rewrite Hn0|done]|].
    intros ix' (? & Hmt' & Hmd). cbn [wp]. split_and!; [done|done|by rewrite Hmd, Hp3|by rewrite Hmt', Hmt].
Qed.

(** C33: an index written in the row-wise format and read into a fresh index of
    the same metric, whatever the search algorithm, holds rows that have in every
    dimension the stored form of the original value: the value itself when the
    posting lists keep the type of the values, and under BM25 the value that
    [uint16_t] holds, truncated or saturated.  A value whose stored form is zero
    is lost.  The numbers of rows and columns are kept.  (The elements of a row
    come back in the order of the dimension numbers.)  Dimensions and the number
    of rows are below 2^32, as the fields of the format require, and the values
    are of the types that are written. *)
Theorem v0_roundtrip ix rows metric bm : represents algo ix rows -> fresh_ok metric bm ->
  0 <= max_dim ix < 2 ^ 64 -> Z.of_nat (length rows) < 2 ^ 32 -> Z.of_nat (next_dim_id ix) < 2 ^ 64 ->
  pod_valid (nzero : A) ->
  (forall row d v, row ∈ rows -> row_val row d = Some v -> 0 <= d < 2 ^ 32 /\ pod_valid (stored (Q:=Q) (get_quant_val v))) ->
  exists w (ix' : InvertedIndex A Q) rows',
    SerializeV0 ix new_writer = Ret (success, w) /\
    DeserializeV0 algo (new_index metric bm) (new_reader (written w)) = Ret (success, ix') /\
    represents algo ix' rows' /\ n_cols ix' = n_cols ix /\ metric_type ix' = metric /\
    Forall2 (fun row row' => forall d, row_val row' d = row_val row d ≫= kept) rows rows'.
Proof.
  intros Hrep Hbm Hdim Hn Hnr Hz Hval.
  destruct (wp_elim _ _ (SerializeV0_spec ix rows Hrep Hn)) as ([s w] & Hw & -> & Hb).
  set (rows' := rebuilt_row ix <$> rows) in *. exists w.
  assert (Forall (fun r' => row_ok r' /\ row_fits r') rows') as Hok.
  { apply Forall_fmap, Forall_forall. intros r Hr.
    destruct (rebuilt_row_ok algo ix rows r Hrep Hr) as [Hok Hrv]. split; [done|].
    apply (rebuilt_row_fits ix rows); [done..|]. intros d v. by apply Hval. }
  apply Forall_and in Hok as [Hok Hfit].
  destruct (wp_elim _ _ (DeserializeV0_spec metric bm (max_dim ix) rows' Hbm Hdim Hz
    ltac:(unfold rows'; rewrite length_fmap; lia) Hok Hfit)) as ([s ix'] & Hd & -> & Hrep' & Hmd & Hmt).
  exists ix', rows'. rewrite Hb. split_and!; [done..|]. unfold rows'. apply Forall2_fmap_r, Forall_Forall2_diag, Forall_forall.
  intros r Hr d. by rewrite (proj2 (rebuilt_row_ok algo ix rows r Hrep Hr)).
Qed.

End roundtrip.

(** A BM25 index with values that [uint16_t] does not hold (2.5, 0.5 and 70000)
    and an explicit zero, for the witness. *)
Definition v0_params : BM25Params spec_float := mkBM25 F32.one F32.zero [] [] (fun v _ => v).
Definition v0_half (z : Z) : spec_float := F32.div (F32.of_Z z) (F32.of_Z 2).
Definition v0_rows : list (SparseRow spec_float) :=
  [[(1, v0_half 5); (5, F32.of_Z 2)]; [(2, F32.of_Z 70000); (3, F32.zero)]; []; [(0, F32.of_Z 7); (1, v0_half 1)]].
Definition v0_index : InvertedIndex spec_float Z :=
  match Add (Quant0:=u16_quant) DAAT_MAXSCORE (new_index METRIC_BM25 (Some v0_params)) v0_rows 8 with
  | Ret ix => ix | _ => new_index METRIC_BM25 None end.

Lemma v0_roundtrip_witness :
  (kept (Quant0:=u16_quant) (v0_half 5) = Some (F32.of_Z 2) /\ kept (Quant0:=u16_quant) (v0_half 1) = None /\
   kept (Quant0:=u16_quant) (F32.of_Z 70000) = Some (F32.of_Z 65535)) /\
  exists w ix' rows',
    SerializeV0 (Quant0:=u16_quant) v0_index new_writer = Ret (success, w) /\
    DeserializeV0 (Quant0:=u16_quant) DAAT_MAXSCORE (new_index METRIC_BM25 (Some v0_params)) (new_reader (written w)) =
      Ret (success, ix') /\
    represents (Quant0:=u16_quant) DAAT_MAXSCORE ix' rows' /\ n_cols ix' = n_cols v0_index /\ metric_type ix' = METRIC_BM25 /\
    Forall2 (fun row row' => forall d, row_val row' d = row_val row d ≫= kept (Quant0:=u16_quant)) v0_rows rows'.
Proof.
  split; [vm_compute; done|].
  assert (fresh_ok METRIC_BM25 (Some v0_params)) as Hf by (intros _; exists v0_params; done).
  destruct (wp_elim _ _ (Add_spec (Quant0:=u16_quant) DAAT_MAXSCORE (new_index METRIC_BM25 (Some v0_params)) [] v0_rows 8
    (represents_new _ METRIC_BM25 (Some v0_params) Hf) ltac:(apply (bool_decide_unpack _); vm_compute; exact I)))
    as (ix & Hix & Hrep & _ & _).
  assert (ix = v0_index) as -> by (unfold v0_index; by rewrite Hix).
  apply (v0_roundtrip (Quant0:=u16_quant) (PA:=f32_pod) DAAT_MAXSCORE v0_index v0_rows METRIC_BM25 (Some v0_params) Hrep Hf).
  - vm_compute. split; [discriminate | reflexivity].
  - vm_compute. reflexivity.
  - vm_compute. reflexivity.
  - vm_compute. reflexivity.
  - assert (Forall (Forall (fun e : Z * spec_float => 0 <= fst e < 2 ^ 32 /\
      pod_valid (Pod:=f32_pod) (stored (Quant:=u16_quant) (get_quant_val (Quant:=u16_quant) (snd e))))) v0_rows) as Hall
      by (repeat constructor; discriminate).
    intros row d v Hr Hv. rewrite Forall_forall in Hall. specialize (Hall row Hr). rewrite Forall_forall in Hall.
    apply row_val_in in Hv. exact (Hall (d, v) Hv).
Defined.
