(* ===== verification/SparseMmap.v ===== *)
(** * The memory-mapped sparse index: container views and their placement

    [GrowableVectorView] (sparse_utils.h) is a vector over memory it does not
    own; [PrepareMmap] (sparse_inverted_index.h) counts the postings of a
    row-wise file, maps one file large enough for all lists and places a view
    for each of them in it.  A pointer into the mapping is its offset. *)

From S2P Require Import Prelude Float Num StdHeap SparseUtils Bitset Expected MemoryIO SparseIndex SparseIndexSpec.
From S2P Require Import SparseSerialV0.

(** ** GrowableVectorView *)

(** The elements are those stored in the region; [sz] below is [sizeof(T)]. *)
Record GrowableVectorView (T : Type) := mkView {
  mmap_data : option nat;
  mmap_byte_size : nat;
  mmap_elements : list T
}.
Arguments mkView {T}.
Arguments mmap_data {T}.
Arguments mmap_byte_size {T}.
Arguments mmap_elements {T}.

Module View.
Section view.
Context {T : Type} (sz : nat).
Implicit Types v : GrowableVectorView T.

Definition default_view : GrowableVectorView T := mkView None 0 [].

Definition initialize (data : nat) (byte_size : nat) : M (GrowableVectorView T) :=
  if negb (byte_size mod sz =? 0) then Throw "GrowableVectorView byte_size must be a multiple of element size"
  else Ret (mkView (Some data) byte_size []).

Definition capacity v : nat := mmap_byte_size v / sz.
Definition size v : nat := length (mmap_elements v).

Definition emplace_back v (x : T) : M (GrowableVectorView T) :=
  if size v =? capacity v then Throw "emplace_back on a full GrowableVectorView"
  else Ret (mkView (mmap_data v) (mmap_byte_size v) (mmap_elements v ++ [x])).

(** [operator[]] checks nothing; [at] does. *)
Definition index v (i : nat) : M T := vget (mmap_elements v) i.
Definition at_ v (i : nat) : M T :=
  if size v <=? i then Throw "GrowableVectorView index out of range" else vget (mmap_elements v) i.

(** Writing through the reference that [emplace_back] returned. *)
Definition set_back v (x : T) : M (GrowableVectorView T) :=
  let* l := vset (mmap_elements v) (size v - 1) x in Ret (mkView (mmap_data v) (mmap_byte_size v) l).
End view.
End View.

(** [sizeof(GrowableVectorView<T>)]: a pointer and two counts. *)
Definition sizeof_view : nat := 24.

(** What the operating system answers. *)
Record Os := mkOs { file_created : bool; file_resized : bool; file_opened : bool; file_mapped : bool }.

(** The lists of the mapped index. *)
Record MmapIndex (A Q : Type) := mkMmap {
  map_byte_size_ : nat;
  m_ids : GrowableVectorView (GrowableVectorView nat);
  m_vals : GrowableVectorView (GrowableVectorView Q);
  m_max_score : GrowableVectorView A;
  m_row_sums : GrowableVectorView A;
  m_dim_map : gmap Z nat;
  m_next_dim_id : nat
}.
Arguments mkMmap {A Q}.
Arguments map_byte_size_ {A Q}.
Arguments m_ids {A Q}.
Arguments m_vals {A Q}.
Arguments m_max_score {A Q}.
Arguments m_row_sums {A Q}.
Arguments m_dim_map {A Q}.
Arguments m_next_dim_id {A Q}.

(** The order in which a range-based for visits an [std::unordered_map]:
    every entry once, in an order of the library's choosing. *)
Class MapIter := {
  iter : gmap Z nat -> list (Z * nat);
  iter_perm : forall m, iter m ≡ₚ map_to_list m
}.

#[export] Instance to_list_iter : MapIter := {| iter := map_to_list; iter_perm m := reflexivity _ |}.

Section prepare.
Context {A Q : Type} `{PA : !Pod A, PQ : !Pod Q, !Num A, !MapIter}.
Context (algo : InvertedIndexAlgo) (metric : SparseMetricType).

Definition bump_idx (counts : gmap Z nat) (idx : Z) : gmap Z nat :=
  <[idx := default 0 (counts !! idx) + 1]> counts.

(** Counting raw vector index occurrences. *)
Definition count_row (st : gmap Z nat * MemoryIOReader) (_ : nat) : M (gmap Z nat * MemoryIOReader) :=
  let '(counts, r) := st in
  let* (r, row_nnz) := read_pod (Pod0:=u64_pod) r 0%Z in
  foldM (fun (st : gmap Z nat * MemoryIOReader) _ =>
      let '(counts, r) := st in
      let* (r, idx) := read_pod (Pod0:=u32_pod) r 0%Z in
      Ret (bump_idx counts idx, advance r (pod_size A)))
    (counts, r) (seq 0 (Z.to_nat row_nnz)).

Definition count_idx (r : MemoryIOReader) (rows : nat) : M (gmap Z nat * MemoryIOReader) :=
  foldM count_row (∅, r) (seq 0 rows).

(** One posting list view per counted index. *)
Definition place_lists {T} (sz : nat) (st : GrowableVectorView (GrowableVectorView T) * nat)
    (counts : list (Z * nat)) : M (GrowableVectorView (GrowableVectorView T) * nat) :=
  foldM (fun (st : GrowableVectorView (GrowableVectorView T) * nat) (e : Z * nat) =>
      let '(outer, ptr) := st in
      let* outer := View.emplace_back sizeof_view outer View.default_view in
      let* plist := View.initialize sz ptr (snd e * sz) in
      let* outer := View.set_back outer plist in
      Ret (outer, ptr + snd e * sz))
    st counts.

Definition is_daat_m : bool := is_daat algo.
Definition is_bm25_m : bool := match metric with METRIC_BM25 => true | METRIC_IP => false end.

Definition empty_mmap (bytes : nat) : MmapIndex A Q :=
  mkMmap bytes View.default_view View.default_view View.default_view View.default_view ∅ 0.

Definition PrepareMmap (os : Os) (r : MemoryIOReader) (rows : nat)
    : M (Status * MmapIndex A Q * MemoryIOReader) :=
  let initial_reader_location := rrp r in
  let nnz := size_sub (remaining r) (rows * 8) / (4 + pod_size A) in
  let* (idx_counts, r) := count_idx r rows in
  let r := seekg r initial_reader_location in
  let n := size idx_counts in
  let ids_size := n * sizeof_view in
  let vals_size := n * sizeof_view in
  let plists_ids_size := nnz * 4 in
  let plists_vals_size := nnz * pod_size Q in
  let max_score_size := n * pod_size A in
  let row_sums_size := if is_bm25_m then rows * pod_size A else 0 in
  let total := ids_size + vals_size + plists_ids_size + plists_vals_size +
               (if is_daat_m then max_score_size else 0) + row_sums_size in
  if total =? 0 then Ret (success, empty_mmap total, r)
  else if negb (file_created os) then Ret (disk_file_error, empty_mmap total, r)
  else if negb (file_resized os) then Throw "filesystem error: cannot resize file"
  else if negb (file_opened os) then Ret (disk_file_error, empty_mmap total, r)
  else if negb (file_mapped os) then Ret (disk_file_error, empty_mmap total, r)
  else
    let ptr := 0 in
    let* ids := View.initialize sizeof_view ptr ids_size in
    let ptr := ptr + ids_size in
    let* vals := View.initialize sizeof_view ptr vals_size in
    let ptr := ptr + vals_size in
    let* (ms, ptr) := (if is_daat_m then
                         let* ms := View.initialize (pod_size A) ptr max_score_size in
                         Ret (ms, ptr + max_score_size)
                       else Ret (View.default_view, ptr)) in
    let* (sums, ptr) := (if is_bm25_m then
                           let* sums := View.initialize (pod_size A) ptr row_sums_size in
                           Ret (sums, ptr + row_sums_size)
                         else Ret (View.default_view, ptr)) in
    let counts := iter idx_counts in
    let* (ids, ptr) := place_lists 4 (ids, ptr) counts in
    let* (vals, ptr) := place_lists (pod_size Q) (vals, ptr) counts in
    let* (dims, ms, dim_id) := foldM (fun (st : gmap Z nat * GrowableVectorView A * nat) (e : Z * nat) =>
        let '(dims, ms, dim_id) := st in
        let* ms := (if is_daat_m then View.emplace_back (pod_size A) ms nzero else Ret ms) in
        Ret (<[fst e := dim_id]> dims, ms, dim_id + 1))
      (∅, ms, 0) counts in
    Ret (success, mkMmap total ids vals ms sums dims dim_id, r).

End prepare.

(** ** Counting *)

Definition occurrences (d : Z) (l : list Z) : nat := length (filter (fun x => x = d) l).

Lemma occurrences_cons d x l : occurrences d (x :: l) = (if decide (x = d) then 1 else 0) + occurrences d l.
Proof. unfold occurrences. rewrite filter_cons. by destruct (decide (x = d)). Qed.

Lemma occurrences_app d l k : occurrences d (l ++ k) = occurrences d l + occurrences d k.
Proof. unfold occurrences. by rewrite filter_app, length_app. Qed.

Lemma occurrences_pos d l : 0 < occurrences d l <-> d ∈ l.
Proof.
  induction l as [|x l IH]; [split; [intros H; by apply Nat.lt_irrefl in H|by intros ?%elem_of_nil]|].
  rewrite occurrences_cons, elem_of_cons. destruct (decide (x = d)) as [->|Hne].
  - split; [by left|lia].
  - rewrite <- IH. split; [right; lia|]. intros [->|?]; [done|lia].
Qed.

(** What the counting loop makes of a list of indices. *)
Definition occ (l : list Z) : gmap Z nat := foldl bump_idx ∅ l.

Lemma occ_lookup l d : occ l !! d = if decide (d ∈ l) then Some (occurrences d l) else None.
Proof.
  unfold occ. induction l as [|x l IH] using rev_ind; [by rewrite decide_False by (by intros ?%elem_of_nil)|].
  rewrite foldl_app. simpl. unfold bump_idx at 1. rewrite occurrences_app, occurrences_cons.
  destruct (decide (x = d)) as [->|Hne].
  - assert (d ∈ l ++ [d]) as Hd by (apply elem_of_app; right; by left).
    destruct (decide (d ∈ l ++ [d])); [|done]. rewrite lookup_insert_eq, IH. f_equal. clear Hd.
    change (occurrences d []) with 0. destruct (decide (d ∈ l)) as [Hd|Hd]; simpl; [lia|].
    rewrite <- occurrences_pos in Hd. lia.
  - rewrite lookup_insert_ne, IH by done. change (occurrences d []) with 0. rewrite Nat.add_0_r.
    destruct (decide (d ∈ l)) as [Hd|Hd].
    + by rewrite decide_True by (apply elem_of_app; by left).
    + rewrite decide_False; [done|]. intros [?|[->|?%elem_of_nil]%elem_of_cons]%elem_of_app; done.
Qed.

Lemma sum_list_cons x l : sum_list (x :: l) = x + sum_list l.
Proof. done. Qed.

Lemma sum_occurrences (ks l : list Z) : NoDup ks -> (forall x, x ∈ l -> x ∈ ks) ->
  sum_list ((fun k => occurrences k l) <$> ks) = length l.
Proof.
  intros Hnd. induction l as [|x l IH]; intros Hin.
  - clear. induction ks as [|k ks IH]; [done|]. exact IH.
  - cbn [length]. rewrite <- IH by (intros y Hy; apply Hin; by right).
    assert (x ∈ ks) as Hx by (apply Hin; by left). clear IH Hin.
    induction Hnd as [|k ks Hk Hnd IH]; [by apply elem_of_nil in Hx|]. rewrite !fmap_cons, !sum_list_cons.
    rewrite occurrences_cons. destruct (decide (x = k)) as [->|Hne].
    + assert ((fun k' => occurrences k' (k :: l)) <$> ks = (fun k' => occurrences k' l) <$> ks) as ->; [|done].
      apply list_fmap_ext. intros i k' Hk'. rewrite occurrences_cons, decide_False; [done|].
      intros <-. apply Hk. by eapply list_elem_of_lookup_2.
    + apply elem_of_cons in Hx as [?|Hx]; [done|]. specialize (IH Hx). lia.
Qed.

Section counting.
Context {A : Type} `{PA : !Pod A, !Num A}.
Implicit Types row : SparseRow A.
Implicit Types rows : list (SparseRow A).

Lemma posting_occurrences b rows d : length (posting_from b rows d) <= occurrences d (fst <$> concat rows).
Proof.
  revert b. induction rows as [|r rows IH]; intros b; [done|]. cbn [posting_from concat].
  rewrite fmap_app, occurrences_app. specialize (IH (b + 1)). destruct (row_val r d) as [v|] eqn:Hv; [|lia].
  apply row_val_in in Hv. assert (0 < occurrences d (fst <$> r)); [|simpl; lia].
  apply occurrences_pos. change d with (fst (d, v)). by apply list_elem_of_fmap_2.
Qed.

Lemma count_row_at file r row c i : reads file r -> row_fits row -> at_pos file (rrp r) (row_bytes row) ->
  count_row (A:=A) (c, r) i = Ret (foldl bump_idx c (fst <$> row), seekg r (rrp r + length (row_bytes row))).
Proof.
  intros Hr [Hlen Hv] [Hat Hat']%at_pos_app. unfold count_row.
  rewrite (read_pod_at (Pod0:=u64_pod) file r (Z.of_nat (length row))) by (done || (simpl; lia)). cbn [bind].
  rewrite Nat2Z.id. unfold row_bytes. rewrite length_app, length_enc_all.
  change (length (pod_enc _)) with 8%nat in *. change (pod_size Z) with 8%nat.
  match goal with |- ?m = Ret ?r => assert (wp m (fun d => d = r)) as H; [|by apply wp_elim in H as (? & -> & ->)] end.
  apply (wp_for _ (fun j st => st = (foldl bump_idx c (fst <$> take j row),
    seekg r (rrp r + 8 + j * pod_size (Pod:=elem_pod PA) (Z * A))))).
  - do 2 f_equal. simpl. lia.
  - intros j st Hj ->. destruct (lookup_lt_is_Some_2 row j ltac:(lia)) as [[d v] He].
    pose proof (at_pos_lookup (Pod0:=elem_pod PA) _ _ _ _ _ Hat' He) as Ha.
    rewrite Nat.mul_comm in Ha. apply at_pos_app in Ha as [Ha Ha2]. pose proof (Forall_lookup_1 _ _ _ _ Hv He) as [Hd _].
    apply at_pos_bound in Ha2. rewrite pod_length, length_le_bytes in Ha2.
    rewrite (read_pod_at (Pod0:=u32_pod) file _ d) by done. cbn [bind wp]. cbn [fst] in *.
    rewrite (advance_seekg file) by (done || (cbn in *; lia)).
    rewrite Nat.add_1_r, (take_S_r _ _ _ He), fmap_app, foldl_app. unfold seekg. cbn. do 2 f_equal. lia.
  - intros st ->. rewrite take_ge by lia. do 2 f_equal. cbn. lia.
Qed.

Lemma count_idx_at file r rows : reads file r -> Forall row_fits rows ->
  at_pos file (rrp r) (concat (row_bytes <$> rows)) ->
  wp (count_idx (A:=A) r (length rows)) (fun '(c, r') => c = occ (fst <$> concat rows) /\ reads file r' /\
    seekg r' (rrp r) = r).
Proof.
  intros Hr Hfit Hat. unfold count_idx.
  apply (wp_for _ (fun i '(c, r') => c = occ (fst <$> concat (take i rows)) /\ reads file r' /\
    seekg r' (rrp r) = r /\ at_pos file (rrp r') (concat (row_bytes <$> drop i rows)))).
  - split_and!; [done|done|by destruct r|done].
  - intros i [c r'] Hi (-> & Hr' & Hs & Ha). destruct (lookup_lt_is_Some_2 rows i ltac:(lia)) as [row Hrow].
    rewrite (drop_S _ _ _ Hrow), fmap_cons in Ha. cbn [concat] in Ha. apply at_pos_app in Ha as [Ha Ha'].
    rewrite (count_row_at file r' row) by (done || by eapply Forall_lookup_1). cbn [wp].
    rewrite Nat.add_1_r, (take_S_r _ _ _ Hrow), concat_app, fmap_app. unfold occ. rewrite foldl_app. cbn [concat].
    rewrite app_nil_r. split_and!; [done|by apply reads_seekg|by rewrite <- Hs|done].
  - intros [c r'] (-> & ? & ? & _). rewrite Nat.add_0_l, take_ge by lia. done.
Qed.

End counting.

(** ** Placement *)

(** The bytes a view occupies, as offset and length. *)
Definition region {T} (v : GrowableVectorView T) : nat * nat := (default 0 (mmap_data v), mmap_byte_size v).

(** The regions lie one after the other, from [b] to [e], without gap or overlap. *)
Fixpoint tiles (b : nat) (l : list (nat * nat)) (e : nat) : Prop :=
  match l with
  | [] => b = e
  | (s, n) :: l => s = b /\ tiles (b + n) l e
  end.

Lemma tiles_app b l k e m : tiles b l m -> tiles m k e -> tiles b (l ++ k) e.
Proof. revert b. induction l as [|[s n] l IH]; intros b; simpl; [by intros ->|]. intros [-> ?] ?. auto. Qed.

(** The views [place_lists] makes for the given counts, from [ptr] on. *)
Fixpoint views_from {T} (sz ptr : nat) (counts : list (Z * nat)) : list (GrowableVectorView T) :=
  match counts with
  | [] => []
  | e :: counts => mkView (Some ptr) (snd e * sz) [] :: views_from sz (ptr + snd e * sz) counts
  end.

Definition counted (counts : list (Z * nat)) : nat := sum_list (snd <$> counts).

Lemma counted_cons e counts : counted (e :: counts) = snd e + counted counts.
Proof. done. Qed.

Lemma views_from_snoc {T} sz ptr counts e : views_from (T:=T) sz ptr (counts ++ [e]) =
  views_from sz ptr counts ++ [mkView (Some (ptr + counted counts * sz)) (snd e * sz) []].
Proof.
  revert ptr. induction counts as [|c counts IH]; intros ptr.
  - simpl. do 3 f_equal. unfold counted. simpl. lia.
  - cbn [app views_from]. rewrite IH, counted_cons. do 4 f_equal. f_equal. lia.
Qed.

Lemma length_views_from {T} sz ptr counts : length (views_from (T:=T) sz ptr counts) = length counts.
Proof. revert ptr. induction counts as [|c counts IH]; intros ptr; simpl; [done|]. by rewrite IH. Qed.

Lemma views_from_lookup {T} sz ptr counts k d n : 0 < sz -> counts !! k = Some (d, n) ->
  exists v, views_from (T:=T) sz ptr counts !! k = Some v /\ View.capacity sz v = n /\ mmap_elements v = [].
Proof.
  intros Hsz. revert ptr k. induction counts as [|c counts IH]; intros ptr [|k] Hk; simplify_eq/=; [|by apply IH].
  eexists. split; [done|]. split; [|done]. unfold View.capacity. cbn. apply Nat.div_mul. lia.
Qed.

Lemma tiles_views {T} sz ptr counts :
  tiles ptr (region <$> views_from (T:=T) sz ptr counts) (ptr + counted counts * sz).
Proof.
  revert ptr. induction counts as [|c counts IH]; intros ptr; [unfold counted; simpl; lia|]. cbn [views_from]. rewrite fmap_cons.
  split; [done|]. specialize (IH (ptr + c.2 * sz)). rewrite counted_cons.
  by replace (ptr + (c.2 + counted counts) * sz) with (ptr + c.2 * sz + counted counts * sz) by lia.
Qed.

(** [initialize] and [emplace_back] when there is room. *)
Lemma initialize_mul {T} sz ptr n : 0 < sz -> View.initialize (T:=T) sz ptr (n * sz) = Ret (mkView (Some ptr) (n * sz) []).
Proof. intros H. unfold View.initialize. by rewrite Nat.Div0.mod_mul. Qed.

Lemma place_lists_spec {T} sz data n counts ptr : 0 < sz -> length counts = n ->
  place_lists (T:=T) sz (mkView (Some data) (n * sizeof_view) [], ptr) counts =
  Ret (mkView (Some data) (n * sizeof_view) (views_from sz ptr counts), ptr + counted counts * sz).
Proof.
  intros Hsz Hn.
  match goal with |- ?m = Ret ?r => assert (wp m (fun d => d = r)) as H; [|by apply wp_elim in H as (? & -> & ->)] end.
  apply (wp_foldM _ (fun pre st => st = (mkView (Some data) (n * sizeof_view) (views_from sz ptr pre),
    ptr + counted pre * sz))); [|intros pre e post st Heq ->|done].
  - unfold counted. simpl. f_equal. lia.
  - assert (length pre < n) as Hlt by (rewrite <- Hn, Heq, length_app; simpl; lia).
    unfold View.emplace_back, View.size, View.capacity. cbn [mmap_elements mmap_byte_size mmap_data].
    rewrite length_views_from, Nat.div_mul by (unfold sizeof_view; lia). rewrite (proj2 (Nat.eqb_neq _ _)) by lia.
    cbn [bind]. rewrite initialize_mul by done. cbn [bind]. unfold View.set_back, View.size. cbn [mmap_elements].
    rewrite length_app, length_views_from. cbn [length]. rewrite Nat.add_sub.
    unfold vset. rewrite decide_True by (rewrite length_app, length_views_from; simpl; lia). cbn [bind wp].
    rewrite views_from_snoc. f_equal; [f_equal|].
    + rewrite <- (length_views_from (T:=T) sz ptr pre) at 1. rewrite insert_next. by rewrite app_nil_r.
    + unfold counted. rewrite fmap_app, sum_list_with_app. simpl. lia.
Qed.

Lemma number_dims_spec {A} `{!Num A} sz (daat : bool) (ms : GrowableVectorView A) counts : 0 < sz ->
  NoDup (fst <$> counts) -> mmap_elements ms = [] -> (daat = true -> mmap_byte_size ms = length counts * sz) ->
  wp (foldM (fun (st : gmap Z nat * GrowableVectorView A * nat) (e : Z * nat) =>
        let '(dims, ms, dim_id) := st in
        let* ms := (if daat then View.emplace_back sz ms nzero else Ret ms) in
        Ret (<[fst e := dim_id]> dims, ms, dim_id + 1)) (∅, ms, 0) counts)
     (fun '(dims, ms', n) => n = length counts /\ region ms' = region ms /\
        (forall d k, dims !! d = Some k <-> (fst <$> counts) !! k = Some d) /\
        (daat = true -> mmap_elements ms' = replicate n nzero)).
Proof.
  intros Hsz Hnd Hms Hbytes.
  apply (wp_foldM _ (fun pre '(dims, ms', n) => n = length pre /\ region ms' = region ms /\
    (forall d k, dims !! d = Some k <-> (fst <$> pre) !! k = Some d) /\
    (daat = true -> mmap_elements ms' = replicate n nzero))); [|intros pre [d c] post [[dims ms'] n] Heq (-> & Hr & Hd & He)|done].
  - split_and!; [done|done| |by rewrite Hms]. intros d k. rewrite lookup_empty. done.
  - apply wp_bind. eapply (wp_mono _ (fun ms2 => region ms2 = region ms /\
      (daat = true -> mmap_elements ms2 = replicate (length pre + 1) nzero))).
    { destruct daat; [|done]. unfold View.emplace_back, View.size, View.capacity.
      unfold region in Hr. injection Hr as Hr1 Hr2. rewrite Hr2, Hbytes, He, Nat.div_mul, length_replicate by (done || lia).
      rewrite (proj2 (Nat.eqb_neq _ _)); [|rewrite Heq, length_app; simpl; lia]. cbn [wp]. unfold region. cbn.
      rewrite Hr1. split; [by rewrite Hbytes|]. intros _. by rewrite replicate_add. }
    intros ms2 [Hr2 He2]. cbn [wp fst]. rewrite length_app. split_and!; [done|done| |done].
    intros d' k. rewrite fmap_app. cbn [fmap list_fmap fst].
    assert (d ∉ fst <$> pre) as Hfresh.
    { rewrite Heq, fmap_app in Hnd. apply NoDup_app in Hnd as (_ & Hdis & _). intros Hin.
      apply (Hdis d Hin). by left. }
    destruct (decide (d = d')) as [<-|Hne].
    + rewrite lookup_insert_eq. split; [intros [= <-]; rewrite lookup_app_r by (by rewrite length_fmap);
        by rewrite length_fmap, Nat.sub_diag|].
      rewrite lookup_app. destruct ((fst <$> pre) !! k) eqn:Hk.
      * intros [= ->]. exfalso. apply Hfresh. by eapply list_elem_of_lookup_2.
      * rewrite length_fmap. apply lookup_ge_None in Hk. rewrite length_fmap in Hk.
        destruct (k - length pre) eqn:Hz; [|done]. intros _. f_equal. lia.
    + rewrite lookup_insert_ne, Hd by done. rewrite lookup_app. destruct ((fst <$> pre) !! k); [done|].
      rewrite length_fmap. destruct (k - length pre); [|done]. simpl. split; [done|congruence].
Qed.

Section layout.
Context {A Q : Type} `{PA : !Pod A, PQ : !Pod Q, !Num A, !MapIter}.
Context (algo : InvertedIndexAlgo) (metric : SparseMetricType).
Implicit Types rows : list (SparseRow A).
Implicit Types st : MmapIndex A Q.

(** All the views of a mapped index, in the order of their placement. *)
Definition all_regions st : list (nat * nat) :=
  [region (m_ids st); region (m_vals st)] ++
  (if is_daat algo then [region (m_max_score st)] else []) ++
  (if is_bm25_m metric then [region (m_row_sums st)] else []) ++
  (region <$> mmap_elements (m_ids st)) ++ (region <$> mmap_elements (m_vals st)).

(** A mapped index with room for exactly the postings of [rows]. *)
Record mapped_for rows st : Prop := {
  mf_tiles : tiles 0 (all_regions st) (map_byte_size_ st);
  mf_ids : View.size (m_ids st) = m_next_dim_id st;
  mf_vals : View.size (m_vals st) = m_next_dim_id st;
  mf_dims : forall d, d ∈ fst <$> concat rows <-> is_Some (m_dim_map st !! d);
  mf_inj : forall d d' k, m_dim_map st !! d = Some k -> m_dim_map st !! d' = Some k -> d = d';
  mf_lists : forall d k, m_dim_map st !! d = Some k -> exists pi pv,
    mmap_elements (m_ids st) !! k = Some pi /\ mmap_elements (m_vals st) !! k = Some pv /\
    View.capacity 4 pi = occurrences d (fst <$> concat rows) /\
    View.capacity (pod_size Q) pv = occurrences d (fst <$> concat rows) /\
    length (posting rows d) <= View.capacity 4 pi;
  mf_sums : metric = METRIC_BM25 -> View.capacity (pod_size A) (m_row_sums st) = length rows;
  mf_max : is_daat algo = true -> mmap_elements (m_max_score st) = replicate (m_next_dim_id st) nzero
}.

Lemma length_rows_bytes rows :
  length (concat (row_bytes <$> rows)) = length rows * 8 + length (concat rows) * (4 + pod_size A).
Proof.
  induction rows as [|row rows IH]; [done|]. rewrite fmap_cons. cbn [concat length].
  rewrite !length_app, IH. unfold row_bytes. rewrite length_app, length_enc_all.
  change (length (pod_enc _)) with 8. cbn [pod_size elem_pod]. lia.
Qed.

(** The entries of the counting map, in iteration order. *)
Lemma iter_occ (l : list Z) : let counts := iter (occ l) in
  NoDup (fst <$> counts) /\ (forall k d n, counts !! k = Some (d, n) -> n = occurrences d l) /\
  (forall d, d ∈ fst <$> counts <-> d ∈ l) /\ counted counts = length l /\ length counts = size (occ l).
Proof.
  intros counts. pose proof (iter_perm (occ l)) as Hp. fold counts in Hp.
  assert (NoDup (fst <$> counts)) as Hnd by (rewrite Hp; apply NoDup_fst_map_to_list).
  assert (forall d n, (d, n) ∈ counts <-> d ∈ l /\ n = occurrences d l) as Hin.
  { intros d n. rewrite Hp, elem_of_map_to_list, occ_lookup. case_decide; split; try done; [by intros [= <-]|by intros [_ ->]|].
    by intros [? _]. }
  assert (forall d, d ∈ fst <$> counts <-> d ∈ l) as Hkeys.
  { intros d. rewrite list_elem_of_fmap. split; [intros ([d' n] & -> & Hd%Hin); apply Hd|].
    intros Hd. exists (d, occurrences d l). split; [done|]. by apply Hin. }
  split_and!; [done| |done| |by rewrite Hp, length_map_to_list].
  - intros k d n Hk. apply list_elem_of_lookup_2, Hin in Hk. apply Hk.
  - unfold counted. rewrite <- (sum_occurrences (fst <$> counts) l); [|done|intros x; apply Hkeys].
    f_equal. rewrite <- list_fmap_compose. apply list_fmap_ext. intros k [d n] Hk. simpl.
    apply list_elem_of_lookup_2, Hin in Hk. apply Hk.
Qed.

(** The views that [PrepareMmap] makes are such an index. *)
Lemma mapped_for_intro rows counts (ms sums ms' : GrowableVectorView A) p dm total :
  let n := length counts in
  let ids := mkView (Some 0) (n * sizeof_view) (views_from 4 p counts) in
  let vals := mkView (Some (n * sizeof_view)) (n * sizeof_view)
                (views_from (pod_size Q) (p + counted counts * 4) counts) in
  tiles 0 ([(0, n * sizeof_view); (n * sizeof_view, n * sizeof_view)] ++
    (if is_daat algo then [region ms] else []) ++ (if is_bm25_m metric then [region sums] else [])) p ->
  total = p + counted counts * 4 + counted counts * pod_size Q ->
  (metric = METRIC_BM25 -> View.capacity (pod_size A) sums = length rows) ->
  (forall k d c, counts !! k = Some (d, c) -> c = occurrences d (fst <$> concat rows)) ->
  (forall d, d ∈ fst <$> counts <-> d ∈ fst <$> concat rows) ->
  region ms' = region ms -> (forall d k, dm !! d = Some k <-> (fst <$> counts) !! k = Some d) ->
  (is_daat algo = true -> mmap_elements ms' = replicate n nzero) ->
  mapped_for rows (mkMmap total ids vals ms' sums dm n).
Proof.
  intros n ids vals Ht -> Hs Hval Hkeys Hms Hdm Hmax. split; cbn [m_ids m_vals m_max_score m_row_sums m_dim_map
    m_next_dim_id map_byte_size_]; try done.
  - unfold all_regions. cbn [m_ids m_vals m_max_score m_row_sums]. rewrite Hms.
    rewrite !app_assoc. eapply tiles_app; [eapply tiles_app; [rewrite <- !app_assoc; exact Ht|apply tiles_views]|].
    apply tiles_views.
  - apply length_views_from.
  - apply length_views_from.
  - intros d. rewrite <- Hkeys, list_elem_of_lookup. unfold is_Some. by setoid_rewrite Hdm.
  - intros d d' k H1 H2. apply Hdm in H1, H2. congruence.
  - intros d k Hk. apply Hdm in Hk. rewrite list_lookup_fmap in Hk.
    destruct (counts !! k) as [[d' c]|] eqn:Hc; [|done]. injection Hk as ->.
    pose proof (Hval _ _ _ Hc) as ->.
    destruct (views_from_lookup (T:=nat) 4 p counts k d _ ltac:(lia) Hc) as (pi & Hpi & Hci & _).
    destruct (views_from_lookup (T:=Q) (pod_size Q) (p + counted counts * 4) counts k d _ pod_pos Hc)
      as (pv & Hpv & Hcv & _).
    exists pi, pv. split_and!; [done..|]. rewrite Hci. apply posting_occurrences.
Qed.

(** preparing the mapping of a non-empty row-wise file, when the operating
    system grants it, succeeds and leaves the reader where it was; the views tile
    the mapped file exactly, every index of the file has a number of its own and
    lists with room for exactly its occurrences, hence for its postings, and
    there is one row sum per row and one zero maximum score per dimension. *)
Theorem prepare_mmap_layout os file r rows : os = mkOs true true true true -> reads file r ->
  at_pos file (rrp r) (concat (row_bytes <$> rows)) ->
  rrp r + length (concat (row_bytes <$> rows)) = length file -> Forall row_fits rows -> concat rows <> [] ->
  exists st, PrepareMmap (Q:=Q) algo metric os r (length rows) = Ret (success, st, r) /\ mapped_for rows st.
Proof.
  intros -> Hr Hat Hend Hfit Hne. 
  assert (wp (PrepareMmap (Q:=Q) algo metric (mkOs true true true true) r (length rows))
    (fun '(s, st, r') => s = success /\ r' = r /\ mapped_for rows st)) as Hwp;
    [|apply wp_elim in Hwp as ([[s st] r'] & -> & -> & -> & ?); by exists st].
  unfold PrepareMmap.
  pose proof (pod_pos (T:=A)) as HA. pose proof (pod_pos (T:=Q)) as HQ.
  apply wp_bind. eapply wp_mono; [by apply (count_idx_at file)|]. intros [c r'] (-> & Hr' & Hseek). rewrite Hseek.
  rewrite length_rows_bytes in Hend. unfold remaining. rewrite (proj2 Hr), size_sub_le by lia.
  replace (length file - rrp r - length rows * 8) with (length (concat rows) * (4 + pod_size A)) by lia.
  rewrite Nat.div_mul by lia. set (dims := fst <$> concat rows). set (nnz := length (concat rows)) in *.
  assert (0 < nnz) as Hnnz by (unfold nnz; destruct (concat rows); [done|simpl; lia]).
  destruct (iter_occ dims) as (Hnd & Hval & Hkeys & Hcnt & Hlen). set (counts := iter (occ dims)) in *.
  rewrite <- Hlen. set (n := length counts) in *.
  assert (counted counts = nnz) as Hc by (rewrite Hcnt; unfold dims; by rewrite length_fmap). clear Hcnt.
  rewrite (proj2 (Nat.eqb_neq _ 0)) by lia. cbn [file_created file_resized file_opened file_mapped negb].
  rewrite !initialize_mul by (unfold sizeof_view; lia). cbn [bind]. rewrite Nat.add_0_l.
  unfold is_daat_m. set (p0 := n * sizeof_view + n * sizeof_view).
  set (p1 := p0 + (if is_daat algo then n * pod_size A else 0)).
  set (ms := if is_daat algo then mkView (Some p0) (n * pod_size A) [] else View.default_view : GrowableVectorView A).
  apply wp_bind. eapply (wp_mono _ (fun x => x = (ms, p1))).
  { unfold ms, p1. destruct (is_daat algo); [done|by rewrite Nat.add_0_r]. }
  intros ? ->. set (p2 := p1 + (if is_bm25_m metric then length rows * pod_size A else 0)).
  set (sums := if is_bm25_m metric then mkView (Some p1) (length rows * pod_size A) [] else View.default_view : GrowableVectorView A).
  apply wp_bind. eapply (wp_mono _ (fun x => x = (sums, p2))).
  { unfold sums, p2. destruct (is_bm25_m metric); [by rewrite initialize_mul|by rewrite Nat.add_0_r]. }
  intros ? ->. rewrite place_lists_spec by (done || lia). cbn [bind]. rewrite place_lists_spec by (done || lia). cbn [bind].
  apply wp_bind. eapply wp_mono; [apply number_dims_spec; [done|done|by unfold ms; destruct (is_daat algo)|]|].
  { intros Hd. unfold ms. by rewrite Hd. }
  intros [[dm ms'] m] (-> & Hms & Hdm & Hmax). cbn [wp]. split_and!; [done|done|].
  apply (mapped_for_intro rows counts ms sums ms' p2 dm); try done.
  - subst p2 p1 p0 n ms sums. unfold region.
    destruct (is_daat algo), (is_bm25_m metric); cbn; split_and!; lia.
  - subst p2 p1 p0 n nnz. rewrite Hc. destruct (is_daat algo), (is_bm25_m metric); cbn [Nat.add]; lia.
  - intros Hb. unfold sums, is_bm25_m. rewrite Hb. apply Nat.div_mul. lia.
Qed.

End layout.

(** The rows of a row-wise file of 32-bit values, behind their 20-byte header. *)
#[local] Instance mmap_pod : Pod Z := u32_pod.
Definition mmap_rows : list (SparseRow Z) := [[(1, 3); (5, 2)]; [(1, 4); (3, 0)]; []; [(0, 7); (1, 1)]]%Z.
Definition mmap_file : list Z := v0_bytes 8 mmap_rows.
Definition mmap_reader : MemoryIOReader := seekg (new_reader mmap_file) 20.

Lemma prepare_mmap_layout_witness : exists st,
  PrepareMmap (Q:=Z) DAAT_WAND METRIC_BM25 (mkOs true true true true) mmap_reader (length mmap_rows) =
    Ret (success, st, mmap_reader) /\ mapped_for DAAT_WAND METRIC_BM25 mmap_rows st.
Proof.
  apply (prepare_mmap_layout DAAT_WAND METRIC_BM25 (mkOs true true true true) mmap_file mmap_reader mmap_rows).
  - reflexivity.
  - split; reflexivity.
  - exists (take 20 mmap_file), []. split; vm_compute; reflexivity.
  - vm_compute; reflexivity.
  - assert (Forall (fun row : SparseRow Z => (Z.of_nat (length row) < 2 ^ 64)%Z /\
      Forall (fun e : Z * Z => (0 <= fst e < 2 ^ 32)%Z /\ (0 <= snd e < 2 ^ 32)%Z) row) mmap_rows) as H
      by (apply (bool_decide_unpack _); vm_compute; exact I).
    exact H.
  - discriminate.
Defined.
