(* ===== verification/Operands.v ===== *)
(** * Element types (include/knowhere/operands.h, feature.h)

    The half-precision types [fp16] and [bf16] with the bit-level conversions
    from and to binary32, the rounding helper of the patched kernels, and the
    feature-bit check of a data type. *)

From S2P Require Import Prelude Float.

#[local] Open Scope Z_scope.

(** [uint32_t] and [uint16_t] arithmetic. *)
Definition u32 (z : Z) : Z := z mod 2 ^ 32.
Definition u16 (z : Z) : Z := z mod 2 ^ 16.

Definition fp32_from_bits (w : Z) : spec_float := F32.of_bits w.
Definition fp32_to_bits (f : spec_float) : Z := F32.to_bits f.

(** [bf16_float]: rounding to the upper 16 bits. *)
Definition bf16_float (f : spec_float) : spec_float :=
  fp32_from_bits (Z.land (u32 (fp32_to_bits f + 32768)) 4294901760).

(** ** fp16 *)

Definition fp16_from_fp32 (f : spec_float) : Z :=
  let scale_to_inf := fp32_from_bits (Z.shiftl 239 23) in
  let scale_to_zero := fp32_from_bits (Z.shiftl 17 23) in
  let base := F32.mul (F32.mul (SFabs f) scale_to_inf) scale_to_zero in
  let w := fp32_to_bits f in
  let shl1_w := u32 (w + w) in
  let sign := Z.land w 2147483648 in
  let bias := Z.land shl1_w 4278190080 in
  let bias := if bias <? 1895825408 then 1895825408 else bias in
  let base := F32.add (fp32_from_bits (u32 (Z.shiftr bias 1 + 125829120))) base in
  let bits := fp32_to_bits base in
  let exp_bits := Z.land (Z.shiftr bits 13) 31744 in
  let mantissa_bits := Z.land bits 4095 in
  let nonsign := u32 (exp_bits + mantissa_bits) in
  u16 (Z.lor (Z.shiftr sign 16) (if 4278190080 <? shl1_w then 32256 else nonsign)).

Definition fp16_to_fp32 (h : Z) : spec_float :=
  let w := u32 (Z.shiftl h 16) in
  let sign := Z.land w 2147483648 in
  let two_w := u32 (w + w) in
  let exp_offset := Z.shiftl 224 23 in
  let exp_scale := fp32_from_bits (Z.shiftl 15 23) in
  let normalized_value := F32.mul (fp32_from_bits (u32 (Z.shiftr two_w 4 + exp_offset))) exp_scale in
  let magic_mask := Z.shiftl 126 23 in
  let magic_bias := fp32_from_bits (Z.shiftl 126 23) in
  let denormalized_value := F32.sub (fp32_from_bits (Z.lor (Z.shiftr two_w 17) magic_mask)) magic_bias in
  let denormalized_cutoff := Z.shiftl 1 27 in
  let result := Z.lor sign (if two_w <? denormalized_cutoff then fp32_to_bits denormalized_value
                            else fp32_to_bits normalized_value) in
  fp32_from_bits result.

(** ** bf16 *)

Definition bf16_from_fp32 (f : spec_float) : Z := u16 (Z.shiftr (fp32_to_bits f) 16).

Definition bf16_to_fp32 (h : Z) : spec_float :=
  fp32_from_bits (Z.land (u32 (Z.shiftl h 16)) 4294901760).

(** ** Feature bits *)

Module feature.
Definition BINARY : Z := Z.shiftl 1 0.
Definition FLOAT32 : Z := Z.shiftl 1 1.
Definition FP16 : Z := Z.shiftl 1 2.
Definition BF16 : Z := Z.shiftl 1 3.
Definition SPARSE_U32_F32 : Z := Z.shiftl 1 4.
Definition INT8 : Z := Z.shiftl 1 5.
Definition EMB_LIST : Z := Z.shiftl 1 15.
Definition NO_TRAIN : Z := Z.shiftl 1 16.
Definition KNN : Z := Z.shiftl 1 17.
Definition GPU : Z := Z.shiftl 1 18.
Definition MMAP : Z := Z.shiftl 1 19.
Definition MV : Z := Z.shiftl 1 20.
Definition DISK : Z := Z.shiftl 1 21.
Definition LAZY_LOAD : Z := Z.shiftl 1 22.
Definition ALL_TYPE : Z :=
  Z.lor (Z.lor (Z.lor (Z.lor (Z.lor BINARY FLOAT32) FP16) BF16) SPARSE_U32_F32) INT8.
Definition ALL_DENSE_TYPE : Z := Z.lor (Z.lor (Z.lor (Z.lor BINARY FLOAT32) FP16) BF16) INT8.
Definition ALL_DENSE_FLOAT_TYPE : Z := Z.lor (Z.lor FLOAT32 FP16) BF16.
End feature.

(** [DataFormatEnum]. *)
Inductive DataFormatEnum := fp32 | fp16 | bf16 | int8 | bin1 | sparse_u32_f32.

#[export] Instance data_format_eq_dec : EqDecision DataFormatEnum.
Proof. solve_decision. Defined.

(** [typeCheck<T>(features)], with [T] given by its format. *)
Definition typeCheck (t : DataFormatEnum) (features : Z) : bool :=
  let bit := match t with
    | bin1 => feature.BINARY
    | fp16 => feature.FP16
    | bf16 => feature.BF16
    | fp32 => feature.FLOAT32
    | sparse_u32_f32 => feature.SPARSE_U32_F32
    | int8 => feature.INT8
    end in
  negb (Z.land features bit =? 0).

(** ** Conversions *)

Lemma land_upper16 w : 0 <= w < 2 ^ 32 -> Z.land w 4294901760 = w / 65536 * 65536.
Proof.
  intros Hw. change 4294901760 with (Z.ldiff (Z.ones 32) (Z.ones 16)).
  replace (Z.land w (Z.ldiff (Z.ones 32) (Z.ones 16))) with (Z.ldiff w (Z.ones 16)).
  - rewrite Z.ldiff_ones_r, Z.shiftr_div_pow2, Z.shiftl_mul_pow2 by lia. done.
  - apply Z.bits_inj'. intros n Hn. rewrite Z.ldiff_spec, Z.land_spec, Z.ldiff_spec.
    destruct (Z.ltb_spec n 32) as [Hlt|Hge].
    + by rewrite (Z.ones_spec_low 32) by lia.
    + rewrite (Z.bits_above_log2 w n); [done|lia|]. destruct (decide (w = 0)) as [->|]; [simpl; lia|].
      assert (Z.log2 w < 32); [|lia]. apply Z.log2_lt_pow2; lia.
Qed.

Lemma bf16_to_bits h : 0 <= h < 2 ^ 16 -> Z.land (u32 (Z.shiftl h 16)) 4294901760 = h * 65536.
Proof.
  intros Hh. unfold u32. rewrite Z.shiftl_mul_pow2 by lia. change (2 ^ 16) with 65536 in *.
  rewrite Z.mod_small by lia. rewrite land_upper16 by lia. by rewrite Z.div_mul.
Qed.

(** a [bf16] is the upper half of a binary32 pattern.  Widening loses
    nothing: narrowing the widened value gives back the same 16 bits, for every
    pattern that is not a NaN.  Narrowing a binary32 number and widening it
    again clears the lower 16 bits of its pattern (truncation, not rounding). *)
Theorem bf16_conversions :
  (forall h, 0 <= h < 2 ^ 16 -> is_nan (bf16_to_fp32 h) = false -> bf16_from_fp32 (bf16_to_fp32 h) = h) /\
  (forall f, valid_binary 24 128 f = true ->
     bf16_to_fp32 (bf16_from_fp32 f) = F32.of_bits (F32.to_bits f / 65536 * 65536)).
Proof.
  split.
  - intros h Hh. unfold bf16_from_fp32, bf16_to_fp32, fp32_from_bits, fp32_to_bits. rewrite bf16_to_bits by done.
    intros Hn. rewrite to_bits_of_bits by (lia || done). unfold u16.
    rewrite Z.shiftr_div_pow2 by lia. change (2 ^ 16) with 65536 in *. rewrite Z.div_mul by lia.
    by apply Z.mod_small.
  - intros f [Hr _]%of_bits_to_bits. unfold bf16_from_fp32, bf16_to_fp32, fp32_from_bits, fp32_to_bits, u16.
    rewrite Z.shiftr_div_pow2 by lia. change (2 ^ 16) with 65536 in *.
    assert (0 <= F32.to_bits f / 65536 < 65536).
    { split; [apply Z.div_pos; lia|apply Z.div_lt_upper_bound; lia]. }
    rewrite Z.mod_small by done. by rewrite bf16_to_bits by done.
Qed.

Lemma bf16_conversions_witness :
  bf16_from_fp32 (bf16_to_fp32 16256) = 16256 /\
  bf16_to_fp32 (bf16_from_fp32 (F32.of_Z 257)) = F32.of_bits (F32.to_bits (F32.of_Z 257) / 65536 * 65536).
Proof.
  split.
  - apply (proj1 bf16_conversions); [lia | vm_compute; reflexivity].
  - apply (proj2 bf16_conversions). vm_compute. reflexivity.
Defined.
