(* ===== verification/Distances.v ===== *)
(** * Reference distance kernels (src/simd/distances_ref.cc)

    The scalar kernels every SIMD variant is checked against.  A pointer is the
    list of the elements from it on; reading past the list is undefined.  The
    kernels on [float] are written over the score interface, so that they run
    on binary32 numbers and on exact integers; the [int8_t] kernels accumulate
    in 32-bit integers, whose overflow is undefined. *)

From S2P Require Import Prelude Float Num Operands MemoryIO Bitset.

(** ** Single-vector kernels *)

Section kernels.
Context {A : Type} `{!Num A}.
Implicit Types x y dis : list A.

(** [for (i = 0; i < d; i++) res = step(res, x[i], y[i])]. *)
Definition for2 {B S} (step : S -> A -> B -> S) (x : list A) (y : list B) (d : nat) (res : S) : M S :=
  foldM (fun res i => let* xi := vget x i in let* yi := vget y i in Ret (step res xi yi)) res (seq 0 d).

Definition fvec_inner_product_ref x y (d : nat) : M A :=
  for2 (fun res xi yi => nadd res (nmul xi yi)) x y d nzero.

Definition fvec_L2sqr_ref x y (d : nat) : M A :=
  for2 (fun res xi yi => let tmp := nsub xi yi in nadd res (nmul tmp tmp)) x y d nzero.

Definition fvec_L1_ref x y (d : nat) : M A :=
  for2 (fun res xi yi => let tmp := nsub xi yi in nadd res (nabs tmp)) x y d nzero.

(** ** One vector against many *)

Definition fvec_L2sqr_ny_ref dis x y (d ny : nat) : M (list A) :=
  foldM (fun dis i => let* v := fvec_L2sqr_ref x (drop (i * d) y) d in vset dis i v) dis (seq 0 ny).

Definition fvec_inner_products_ny_ref ip x y (d ny : nat) : M (list A) :=
  foldM (fun ip i => let* v := fvec_inner_product_ref x (drop (i * d) y) d in vset ip i v) ip (seq 0 ny).

(** Against the columns of a transposed matrix whose squared lengths are known. *)
Definition fvec_L2sqr_ny_transposed_ref dis x y (y_sqlen : list A) (d d_offset ny : nat) : M (list A) :=
  let* x_sqlen := for2 (fun res xj xj' => nadd res (nmul xj xj')) x x d nzero in
  foldM (fun dis i =>
      let* dp := foldM (fun dp j =>
          let* xj := vget x j in let* yj := vget y (i + j * d_offset) in Ret (nadd dp (nmul xj yj)))
        nzero (seq 0 d) in
      let* yl := vget y_sqlen i in
      vset dis i (nsub (nadd x_sqlen yl) (nmul (nofZ 2) dp)))
    dis (seq 0 ny).

(** The first least element; [min_dis] starts at [HUGE_VALF]. *)
Definition nearest_scan (huge : A) (buffer : list A) (ny : nat) : M nat :=
  let* (_, nearest_idx) := foldM (fun (st : A * nat) i =>
      let* v := vget buffer i in
      Ret (if nltb v (fst st) then (v, i) else st))
    (huge, 0) (seq 0 ny) in
  Ret nearest_idx.

Definition fvec_L2sqr_ny_nearest_ref (huge : A) buffer x y (d ny : nat) : M (list A * nat) :=
  let* buffer := fvec_L2sqr_ny_ref buffer x y d ny in
  let* nearest_idx := nearest_scan huge buffer ny in
  Ret (buffer, nearest_idx).

Definition fvec_L2sqr_ny_nearest_y_transposed_ref (huge : A) buffer x y y_sqlen (d d_offset ny : nat)
    : M (list A * nat) :=
  let* buffer := fvec_L2sqr_ny_transposed_ref buffer x y y_sqlen d d_offset ny in
  let* nearest_idx := nearest_scan huge buffer ny in
  Ret (buffer, nearest_idx).

(** ** c = a + bf * b *)

Definition fvec_madd_ref (n : nat) (a : list A) (bf : A) (b c : list A) : M (list A) :=
  foldM (fun c i => let* ai := vget a i in let* bi := vget b i in vset c i (nadd ai (nmul bf bi))) c (seq 0 n).

(** [vmin] starts at [1e20]; the result is the index of the first least element
    below it, or [-1]. *)
Definition fvec_madd_and_argmin_ref (vmin0 : A) (n : nat) (a : list A) (bf : A) (b c : list A)
    : M (list A * Z) :=
  let* (c, _, imin) := foldM (fun (st : list A * A * Z) i =>
      let '(c, vmin, imin) := st in
      let* ai := vget a i in
      let* bi := vget b i in
      let ci := nadd ai (nmul bf bi) in
      let* c := vset c i ci in
      Ret (if nltb ci vmin then (c, ci, Z.of_nat i) else (c, vmin, imin)))
    (c, vmin0, (-1)%Z) (seq 0 n) in
  Ret (c, imin).

(** ** Four vectors at once *)

Section batch_4.
Context {B : Type} (load : B -> A).

(** One pass over [x] and the four candidates, [load] converting an element. *)
Definition batch_4 (step : A -> A -> A -> A) (x y0 y1 y2 y3 : list B) (d : nat) : M (A * A * A * A) :=
  foldM (fun (st : A * A * A * A) i =>
      let '(d0, d1, d2, d3) := st in
      let* xi := vget x i in
      let* v0 := vget y0 i in
      let* v1 := vget y1 i in
      let* v2 := vget y2 i in
      let* v3 := vget y3 i in
      let xi := load xi in
      Ret (step d0 xi (load v0), step d1 xi (load v1), step d2 xi (load v2), step d3 xi (load v3)))
    (nzero, nzero, nzero, nzero) (seq 0 d).

Definition ip_step (res xi yi : A) : A := nadd res (nmul xi yi).
Definition l2_step (res xi yi : A) : A := let q := nsub xi yi in nadd res (nmul q q).

End batch_4.

Definition fvec_inner_product_batch_4_ref x y0 y1 y2 y3 d := batch_4 (fun v => v) ip_step x y0 y1 y2 y3 d.
Definition fvec_L2sqr_batch_4_ref x y0 y1 y2 y3 d := batch_4 (fun v => v) l2_step x y0 y1 y2 y3 d.

End kernels.

(** [std::fmax]: a NaN operand yields the other one. *)
Definition fmax (a b : spec_float) : spec_float :=
  if is_nan a then b else if is_nan b then a else if SFltb a b then b else a.

Definition fvec_Linf_ref (x y : list spec_float) (d : nat) : M spec_float :=
  for2 (fun res xi yi => fmax res (SFabs (F32.sub xi yi))) x y d F32.zero.

(** Squared norms accumulate [float] products in a [double]. *)
Class Double (A : Type) := {
  dzero : A;
  dadd : A -> A -> A;
  to_double : A -> A;
  of_double : A -> A
}.
#[export] Instance F32_double : Double spec_float :=
  {| dzero := F64.zero; dadd := F64.add; to_double := F64.of_f32; of_double := F64.to_f32 |}.
#[export] Instance Z_double : Double Z := {| dzero := 0%Z; dadd := Z.add; to_double := fun z => z; of_double := fun z => z |}.

Section norm.
Context {A B : Type} `{!Num A, !Double A} (load : B -> A).

Definition norm_L2sqr (x : list B) (d : nat) : M A :=
  let* res := foldM (fun res i =>
      let* xi := vget x i in
      Ret (dadd res (to_double (nmul (load xi) (load xi))))) dzero (seq 0 d) in
  Ret (of_double res).

End norm.

Definition fvec_norm_L2sqr_ref {A} `{!Num A, !Double A} (x : list A) (d : nat) : M A := norm_L2sqr (fun v => v) x d.

(** ** fp16 and bf16 vectors: 16-bit patterns widened element by element *)

Section half.
Context {A : Type} `{!Num A} (to_fp32 : Z -> A).
Implicit Types x y : list Z.

Definition half_inner_product x y (d : nat) : M A :=
  foldM (fun res i =>
      let* xi := vget x i in let* yi := vget y i in
      Ret (nadd res (nmul (to_fp32 xi) (to_fp32 yi)))) nzero (seq 0 d).

Definition half_L2sqr x y (d : nat) : M A :=
  foldM (fun res i =>
      let* xi := vget x i in let* yi := vget y i in
      let tmp := nsub (to_fp32 xi) (to_fp32 yi) in
      Ret (nadd res (nmul tmp tmp))) nzero (seq 0 d).

End half.

Definition fp16_vec_inner_product_ref := half_inner_product fp16_to_fp32.
Definition fp16_vec_L2sqr_ref := half_L2sqr fp16_to_fp32.
Definition fp16_vec_norm_L2sqr_ref := norm_L2sqr fp16_to_fp32.
Definition fp16_vec_inner_product_batch_4_ref := batch_4 fp16_to_fp32 ip_step.
Definition fp16_vec_L2sqr_batch_4_ref := batch_4 fp16_to_fp32 l2_step.

Definition bf16_vec_inner_product_ref := half_inner_product bf16_to_fp32.
Definition bf16_vec_L2sqr_ref := half_L2sqr bf16_to_fp32.
Definition bf16_vec_norm_L2sqr_ref := norm_L2sqr bf16_to_fp32.
Definition bf16_vec_inner_product_batch_4_ref := batch_4 bf16_to_fp32 ip_step.
Definition bf16_vec_L2sqr_batch_4_ref := batch_4 bf16_to_fp32 l2_step.

(** ** int8 vectors: 32-bit accumulation, overflow is undefined *)

Section int8.
#[local] Open Scope Z_scope.
Implicit Types x y : list Z.

Definition i32 (z : Z) : M Z := if bool_decide (- 2 ^ 31 <= z < 2 ^ 31) then Ret z else Undef.

Definition int8_ip (res xi yi : Z) : M Z := let* p := i32 (xi * yi) in i32 (res + p).
Definition int8_l2 (res xi yi : Z) : M Z :=
  let* tmp := i32 (xi - yi) in let* p := i32 (tmp * tmp) in i32 (res + p).

Definition int8_loop (step : Z -> Z -> Z -> M Z) x y (d : nat) : M Z :=
  foldM (fun res i => let* xi := vget x i in let* yi := vget y i in step res xi yi) 0 (seq 0 d).

Definition ivec_inner_product_ref x y d : M Z := int8_loop int8_ip x y d.
Definition ivec_L2sqr_ref x y d : M Z := int8_loop int8_l2 x y d.

Definition int8_vec_inner_product_ref x y d : M spec_float :=
  let* res := int8_loop int8_ip x y d in Ret (F32.of_Z res).
Definition int8_vec_L2sqr_ref x y d : M spec_float :=
  let* res := int8_loop int8_l2 x y d in Ret (F32.of_Z res).
Definition int8_vec_norm_L2sqr_ref x d : M spec_float :=
  let* res := int8_loop int8_ip x x d in Ret (F32.of_Z res).

Definition int8_batch_4 (step : Z -> Z -> Z -> M Z) x y0 y1 y2 y3 (d : nat)
    : M (spec_float * spec_float * spec_float * spec_float) :=
  let* (d0, d1, d2, d3) := foldM (fun (st : Z * Z * Z * Z) i =>
      let '(d0, d1, d2, d3) := st in
      let* xi := vget x i in
      let* v0 := vget y0 i in
      let* v1 := vget y1 i in
      let* v2 := vget y2 i in
      let* v3 := vget y3 i in
      let* d0 := step d0 xi v0 in
      let* d1 := step d1 xi v1 in
      let* d2 := step d2 xi v2 in
      let* d3 := step d3 xi v3 in
      Ret (d0, d1, d2, d3)) (0, 0, 0, 0) (seq 0 d) in
  Ret (F32.of_Z d0, F32.of_Z d1, F32.of_Z d2, F32.of_Z d3).

Definition int8_vec_inner_product_batch_4_ref := int8_batch_4 int8_ip.
Definition int8_vec_L2sqr_batch_4_ref := int8_batch_4 int8_l2.

End int8.

(** ** Kernels that round the candidate to bf16 first *)

Section bf16_patch.
Implicit Types x y : list spec_float.

Definition ip_patch (res xi yi : spec_float) : spec_float := F32.add res (F32.mul xi (bf16_float yi)).
Definition l2_patch (res xi yi : spec_float) : spec_float :=
  let q := F32.sub xi (bf16_float yi) in F32.add res (F32.mul q q).

Definition fvec_inner_product_bf16_patch_ref x y d := for2 ip_patch x y d F32.zero.
Definition fvec_L2sqr_bf16_patch_ref x y d := for2 l2_patch x y d F32.zero.
Definition fvec_inner_product_batch_4_bf16_patch_ref x y0 y1 y2 y3 d := batch_4 (fun v => v) ip_patch x y0 y1 y2 y3 d.
Definition fvec_L2sqr_batch_4_bf16_patch_ref x y0 y1 y2 y3 d := batch_4 (fun v => v) l2_patch x y0 y1 y2 y3 d.

End bf16_patch.

(** ** RaBitQ: bit masks and bit planes *)

Section rabitq.
#[local] Open Scope Z_scope.
Implicit Types x : list Z.

Definition fvec_masked_sum_ref {A} `{!Num A} (q : list A) (x : list Z) (d : nat) : M A :=
  foldM (fun sum i =>
      let masker := (Z.shiftl 1 (Z.of_nat (i mod 8))) mod 256 in
      let* byte := vget x (i / 8) in
      let b_bit := Z.land byte masker =? masker in
      let* qi := vget q i in
      Ret (nadd sum (if b_bit then qi else nzero))) nzero (seq 0 d).

(** The bits two byte strings have in common, in 64-bit words and then bytes. *)
Definition common_bits (q_j x : list Z) (di_8b di_64b : nat) : M nat :=
  let* count := foldM (fun count i =>
      let* qv := BitsetView.word64 q_j i in
      let* xv := BitsetView.word64 x i in
      Ret (count + BitsetView.popcount 64 (Z.land qv xv))%nat) 0%nat (seq 0 (di_64b / 8)) in
  foldM (fun count i =>
      let* qv := vget q_j i in
      let* xv := vget x i in
      Ret (count + BitsetView.popcount 8 (Z.land qv xv))%nat) count (seq di_64b (di_8b - di_64b)).

Definition rabitq_dp_popcnt_ref (q x : list Z) (d nb : nat) : M Z :=
  let di_8b := ((d + 7) / 8)%nat in
  let di_64b := (di_8b / 8 * 8)%nat in
  foldM (fun dot j =>
      let* count_dot := common_bits (drop (j * di_8b) q) x di_8b di_64b in
      let* shifted := i32 (Z.shiftl (Z.of_nat count_dot) (Z.of_nat j)) in
      i32 (dot + shifted)) 0 (seq 0 nb).

End rabitq.

(** ** MinHash *)

Section minhash.
#[local] Open Scope Z_scope.
Implicit Types x y : list Z.

(** [*(const uint64_t* )p]. *)
Definition load64 (p : list Z) : M Z :=
  if (8 <=? length p)%nat then Ret (BitsetView.le_word (take 8 p)) else Undef.

Definition same64 (x_b y_b : list Z) : M bool :=
  let* a := load64 x_b in let* b := load64 y_b in Ret (a =? b).

(** The 16-byte steps of one band; [None] is the jump to the next band. *)
Fixpoint skip16 (fuel : nat) (x_b y_b : list Z) (j : nat) : M (option (list Z * list Z * nat)) :=
  if (16 <=? j)%nat then
    match fuel with
    | O => Undef
    | S fuel =>
        let* e := same64 (drop 8 x_b) (drop 8 y_b) in
        if negb e then Ret None
        else
          let* e := same64 x_b y_b in
          if negb e then Ret None else skip16 fuel (drop 16 x_b) (drop 16 y_b) (j - 16)
    end
  else Ret (Some (x_b, y_b, j)).

(** The fall-through [switch (j)], [j < 8]. *)
Definition tail_eq (x_b y_b : list Z) (j : nat) : M bool :=
  foldM (fun eq k => let* a := vget x_b k in let* b := vget y_b k in Ret (eq && (a =? b)))
    true (rev (seq 0 j)).

Definition band_eq (x_b y_b : list Z) (r : nat) : M bool :=
  let* st := skip16 r x_b y_b r in
  match st with
  | None => Ret false
  | Some (x_b, y_b, j) =>
      if (8 <=? j)%nat then
        let* e := same64 x_b y_b in
        if negb e then Ret false else tail_eq (drop 8 x_b) (drop 8 y_b) (j - 8)
      else tail_eq x_b y_b j
  end.

(** [1.0] as soon as one band agrees; the number of bands divides the size. *)
Definition minhash_lsh_hit_ref x y (dim mh_lsh_band : nat) : M bool :=
  if (mh_lsh_band =? 0)%nat then Undef
  else
    let r := (dim / mh_lsh_band)%nat in
    let* hit := BitsetView.find_first (fun i =>
        let* eq := band_eq (drop (r * i) x) (drop (r * i) y) r in
        Ret (if eq then Some tt else None)) (seq 0 mh_lsh_band) in
    Ret (match hit with Some _ => true | None => false end).

(** [int] arithmetic of the binary searches. *)
Fixpoint search_eq (fuel : nat) (data : list Z) (target : Z) (left right result : Z) : M Z :=
  if left <=? right then
    match fuel with
    | O => Undef
    | S fuel =>
        let mid := left + Z.quot (right - left) 2 in
        let* v := vget data (Z.to_nat mid) in
        if v <? target then search_eq fuel data target (mid + 1) right result
        else if target <? v then search_eq fuel data target left (mid - 1) result
        else search_eq fuel data target left (mid - 1) mid
    end
  else Ret result.

(** [static_cast<int>(size)]: the low 32 bits, signed. *)
Definition to_int (size : nat) : Z := (Z.of_nat size + 2 ^ 31) mod 2 ^ 32 - 2 ^ 31.

Definition u64_binary_search_eq_ref (data : list Z) (size : nat) (target : Z) : M Z :=
  search_eq (S size) data target 0 (to_int size - 1) (-1).

Fixpoint search_ge (fuel : nat) (data : list Z) (target : Z) (left right result : Z) : M Z :=
  if left <=? right then
    match fuel with
    | O => Undef
    | S fuel =>
        let mid := left + Z.quot (right - left) 2 in
        let* v := vget data (Z.to_nat mid) in
        if target <=? v then search_ge fuel data target left (mid - 1) mid
        else search_ge fuel data target (mid + 1) right result
    end
  else Ret result.

Definition u64_binary_search_ge_ref (data : list Z) (size : nat) (target : Z) : M Z :=
  search_ge (S size) data target 0 (to_int size - 1) (-1).

(** [u32_jaccard_distance_ref] and [u64_jaccard_distance_ref] on the decoded elements. *)
Definition jaccard (x y : list Z) (element_length : nat) : M spec_float :=
  let* res := for2 (fun res a b => F32.add res (if a =? b then F32.one else F32.zero)) x y element_length F32.zero in
  Ret (F32.div res (F32.of_Z (Z.of_nat element_length))).

Definition u32_jaccard_distance_ref (x y : list Z) (n : nat) : M spec_float :=
  jaccard (dec_n (Pod0:=u32_pod) (length x / 4) x) (dec_n (Pod0:=u32_pod) (length y / 4) y) n.
Definition u64_jaccard_distance_ref (x y : list Z) (n : nat) : M spec_float :=
  jaccard (dec_n (Pod0:=u64_pod) (length x / 8) x) (dec_n (Pod0:=u64_pod) (length y / 8) y) n.

Definition jaccard_batch_4 (x y0 y1 y2 y3 : list Z) (n : nat)
    : M (spec_float * spec_float * spec_float * spec_float) :=
  let* (d0, d1, d2, d3) :=
    foldM (fun (st : spec_float * spec_float * spec_float * spec_float) i =>
      let '(d0, d1, d2, d3) := st in
      let same (a b : Z) := if a =? b then F32.one else F32.zero in
      let* xi := vget x i in
      let* v0 := vget y0 i in
      let* v1 := vget y1 i in
      let* v2 := vget y2 i in
      let* v3 := vget y3 i in
      Ret (F32.add d0 (same xi v0), F32.add d1 (same xi v1), F32.add d2 (same xi v2), F32.add d3 (same xi v3)))
    (F32.zero, F32.zero, F32.zero, F32.zero) (seq 0 n) in
  let avg s := F32.div s (F32.of_Z (Z.of_nat n)) in
  Ret (avg d0, avg d1, avg d2, avg d3).

Definition u32_jaccard_distance_batch_4_ref (x y0 y1 y2 y3 : list Z) (n : nat) :=
  let dec l := dec_n (Pod0:=u32_pod) (length l / 4) l in
  jaccard_batch_4 (dec x) (dec y0) (dec y1) (dec y2) (dec y3) n.
Definition u64_jaccard_distance_batch_4_ref (x y0 y1 y2 y3 : list Z) (n : nat) :=
  let dec l := dec_n (Pod0:=u64_pod) (length l / 8) l in
  jaccard_batch_4 (dec x) (dec y0) (dec y1) (dec y2) (dec y3) n.

End minhash.

(** ** The MinHash hash *)

Section hash.
Context (XXH3_64bits : list Z -> Z).

(** [size] bytes are read. *)
Definition calculate_hash_ref (data : list Z) (size : nat) : M Z :=
  if size <=? length data then Ret (XXH3_64bits (take size data)) else Undef.

End hash.
