(* ===== verification/DistanceProps.v ===== *)
(** * Properties of the reference distance kernels

    The batch kernels are four single kernels; the 8-bit integer kernels do not
    overflow up to a stated dimension; the transposed formulation of the L2
    distance is the direct one in exact arithmetic; the scans and searches
    return the first optimum. *)

From S2P Require Import Prelude Float Num Operands MemoryIO Bitset Distances.

(** ** Four accumulators in one loop *)

(** A loop over a 4-tuple whose body acts componentwise is four loops. *)
Lemma foldM_four {S I} (f0 f1 f2 f3 : S -> I -> M S) (body : S * S * S * S -> I -> M (S * S * S * S)) l :
  (forall a b c d i v0 v1 v2 v3, body (a, b, c, d) i = Ret (v0, v1, v2, v3) <->
     f0 a i = Ret v0 /\ f1 b i = Ret v1 /\ f2 c i = Ret v2 /\ f3 d i = Ret v3) ->
  forall a b c d v0 v1 v2 v3, foldM body (a, b, c, d) l = Ret (v0, v1, v2, v3) <->
    foldM f0 a l = Ret v0 /\ foldM f1 b l = Ret v1 /\ foldM f2 c l = Ret v2 /\ foldM f3 d l = Ret v3.
Proof.
  intros Hb. induction l as [|i l IH]; intros a b c d v0 v1 v2 v3; simpl.
  - split; [by intros [= <- <- <- <-]|by intros ([= <-] & [= <-] & [= <-] & [= <-])].
  - split.
    + intros ([[[a' b'] c'] d'] & Hbody & Hrest)%bind_Ret_inv.
      apply Hb in Hbody as (-> & -> & -> & ->). by apply IH.
    + intros ((a' & Ha & Ha')%bind_Ret_inv & (b' & Hb' & Hb'')%bind_Ret_inv &
              (c' & Hc & Hc')%bind_Ret_inv & (d' & Hd & Hd')%bind_Ret_inv).
      rewrite (proj2 (Hb a b c d i a' b' c' d')) by done. simpl. by apply IH.
Qed.

(** [batch] returns four values exactly when [single] returns each of them. *)
Definition is_batch_of {B V} (single : list B -> list B -> nat -> M V)
    (batch : list B -> list B -> list B -> list B -> list B -> nat -> M (V * V * V * V)) : Prop :=
  forall x y0 y1 y2 y3 d v0 v1 v2 v3, batch x y0 y1 y2 y3 d = Ret (v0, v1, v2, v3) <->
    single x y0 d = Ret v0 /\ single x y1 d = Ret v1 /\ single x y2 d = Ret v2 /\ single x y3 d = Ret v3.

(** The loops of a single and of a batch kernel over a step that may fail. *)
Definition loop1 {B S} (step : S -> B -> B -> M S) (s0 : S) (x y : list B) (d : nat) : M S :=
  foldM (fun res i => let* xi := vget x i in let* yi := vget y i in step res xi yi) s0 (seq 0 d).

Definition loop4 {B S} (step : S -> B -> B -> M S) (s0 : S) (x y0 y1 y2 y3 : list B) (d : nat) : M (S * S * S * S) :=
  foldM (fun (st : S * S * S * S) i =>
      let '(d0, d1, d2, d3) := st in
      let* xi := vget x i in
      let* v0 := vget y0 i in
      let* v1 := vget y1 i in
      let* v2 := vget y2 i in
      let* v3 := vget y3 i in
      let* d0 := step d0 xi v0 in
      let* d1 := step d1 xi v1 in
      let* d2 := step d2 xi v2 in
      let* d3 := step d3 xi v3 in
      Ret (d0, d1, d2, d3)) (s0, s0, s0, s0) (seq 0 d).

Lemma bind_Ret_iff {A B} (m : M A) (f : A -> M B) b : bind m f = Ret b <-> exists a, m = Ret a /\ f a = Ret b.
Proof. split; [apply bind_Ret_inv|]. by intros (a & -> & ?). Qed.

Lemma loop4_single {B S} (step : S -> B -> B -> M S) s0 : is_batch_of (loop1 step s0) (loop4 step s0).
Proof.
  intros x y0 y1 y2 y3 d v0 v1 v2 v3. unfold loop1, loop4. apply foldM_four.
  intros a b c e i w0 w1 w2 w3. unfold vget.
  destruct (x !! i) as [xi|], (y0 !! i) as [z0|], (y1 !! i) as [z1|], (y2 !! i) as [z2|], (y3 !! i) as [z3|];
    simpl; try (split; [done|intuition done]).
  destruct (step a xi z0), (step b xi z1), (step c xi z2), (step e xi z3); simpl; intuition congruence.
Qed.

(** Post-processing each result separately. *)
Lemma batch_map {B S V} (single : list B -> list B -> nat -> M S) batch (g : nat -> S -> V) :
  is_batch_of single batch ->
  is_batch_of (fun x y d => let* v := single x y d in Ret (g d v))
    (fun x y0 y1 y2 y3 d => let* (a, b, c, e) := batch x y0 y1 y2 y3 d in Ret (g d a, g d b, g d c, g d e)).
Proof.
  intros Hb x y0 y1 y2 y3 d v0 v1 v2 v3. rewrite !bind_Ret_iff. split.
  - intros ([[[a b] c] e] & Hl & [= <- <- <- <-]). apply Hb in Hl as (-> & -> & -> & ->). split_and!; by eexists.
  - intros ((a & Ha & [= <-]) & (b & Hb' & [= <-]) & (c & Hc & [= <-]) & (e & He & [= <-])).
    exists (a, b, c, e). split; [by apply Hb|done].
Qed.

Lemma batch_at {B C V} (dec : C -> list B) (single : list B -> list B -> nat -> M V) batch :
  is_batch_of single batch -> forall x y0 y1 y2 y3 d v0 v1 v2 v3,
  batch (dec x) (dec y0) (dec y1) (dec y2) (dec y3) d = Ret (v0, v1, v2, v3) <->
  single (dec x) (dec y0) d = Ret v0 /\ single (dec x) (dec y1) d = Ret v1 /\
  single (dec x) (dec y2) d = Ret v2 /\ single (dec x) (dec y3) d = Ret v3.
Proof. intros Hb *. apply Hb. Qed.

(** every batch-of-four kernel computes, for each of its four candidates,
    exactly what the single kernel computes, with the same roundings: it
    returns four values if and only if the single kernel returns those values
    on the four candidates. *)
Theorem batch_4_is_four_singles :
  (is_batch_of (B:=spec_float) fvec_inner_product_ref fvec_inner_product_batch_4_ref /\
   is_batch_of (B:=spec_float) fvec_L2sqr_ref fvec_L2sqr_batch_4_ref) /\
  (is_batch_of fp16_vec_inner_product_ref fp16_vec_inner_product_batch_4_ref /\
   is_batch_of fp16_vec_L2sqr_ref fp16_vec_L2sqr_batch_4_ref) /\
  (is_batch_of bf16_vec_inner_product_ref bf16_vec_inner_product_batch_4_ref /\
   is_batch_of bf16_vec_L2sqr_ref bf16_vec_L2sqr_batch_4_ref) /\
  (is_batch_of int8_vec_inner_product_ref int8_vec_inner_product_batch_4_ref /\
   is_batch_of int8_vec_L2sqr_ref int8_vec_L2sqr_batch_4_ref) /\
  (is_batch_of fvec_inner_product_bf16_patch_ref fvec_inner_product_batch_4_bf16_patch_ref /\
   is_batch_of fvec_L2sqr_bf16_patch_ref fvec_L2sqr_batch_4_bf16_patch_ref) /\
  (is_batch_of u32_jaccard_distance_ref u32_jaccard_distance_batch_4_ref /\
   is_batch_of u64_jaccard_distance_ref u64_jaccard_distance_batch_4_ref).
Proof.
  repeat match goal with |- _ /\ _ => split end.
  1-6, 9-10: exact (loop4_single (fun res xi yi => Ret _) _).
  1-2: exact (batch_map _ _ (fun _ r => F32.of_Z r) (loop4_single _ 0%Z)).
  all: intros x y0 y1 y2 y3 d;
    exact (batch_at _ _ _ (batch_map _ _ (fun n s => F32.div s (F32.of_Z (Z.of_nat n)))
      (loop4_single (fun res a b => Ret (F32.add res (if (a =? b)%Z then F32.one else F32.zero))) F32.zero))
      x y0 y1 y2 y3 d).
Qed.

(** ** 8-bit integer kernels *)

Section int8_bounds.
#[local] Open Scope Z_scope.

Definition is_int8 (v : Z) : Prop := -128 <= v < 128.

(** The exact sum of [f x_i y_i] over the first [d] positions. *)
Definition zsum (f : Z -> Z -> Z) (x y : list Z) (d : nat) : Z :=
  foldl (fun s i => s + f (x !!! i) (y !!! i)) 0 (seq 0 d).

Lemma zsum_S f x y d : zsum f x y (S d) = zsum f x y d + f (x !!! d) (y !!! d).
Proof. unfold zsum. by rewrite seq_S, foldl_app. Qed.

Lemma vget_total {A} `{!Inhabited A} (l : list A) i : (i < length l)%nat -> vget l i = Ret (l !!! i).
Proof. intros H. apply vget_Ret. by apply list_lookup_lookup_total_lt. Qed.

Lemma i32_ok z : - 2 ^ 31 <= z < 2 ^ 31 -> i32 z = Ret z.
Proof. intros H. unfold i32. by rewrite bool_decide_true. Qed.

(** A loop whose terms are at most [b] in absolute value stays below [d * b]. *)
Lemma int8_loop_exact step f b x y (d : nat) :
  0 < b -> Z.of_nat d * b < 2 ^ 31 -> (d <= length x)%nat -> (d <= length y)%nat ->
  Forall is_int8 x -> Forall is_int8 y ->
  (forall u v, is_int8 u -> is_int8 v -> - b <= f u v <= b) ->
  (forall s u v, is_int8 u -> is_int8 v -> - 2 ^ 31 <= s + f u v < 2 ^ 31 -> step s u v = Ret (s + f u v)) ->
  int8_loop step x y d = Ret (zsum f x y d).
Proof.
  intros Hb Hd Hlx Hly Hx Hy Hf Hs.
  assert (wp (int8_loop step x y d) (fun r => r = zsum f x y d)) as H; [|by apply wp_elim in H as (? & -> & ->)].
  apply (wp_for _ (fun i r => r = zsum f x y i /\ Z.abs r <= Z.of_nat i * b)); [done| |by intros r [-> _]].
  intros i r Hi [-> Hr]. rewrite !vget_total by lia. cbn [bind].
  assert (is_int8 (x !!! i)) as Hxi.
  { eapply Forall_lookup_1; [exact Hx|]. apply list_lookup_lookup_total_lt. lia. }
  assert (is_int8 (y !!! i)) as Hyi.
  { eapply Forall_lookup_1; [exact Hy|]. apply list_lookup_lookup_total_lt. lia. }
  specialize (Hf _ _ Hxi Hyi). rewrite Hs by (done || nia). cbn [wp].
  rewrite Nat.add_1_r, zsum_S. split; [done|]. nia.
Qed.

(** The two steps on [int8_t] operands: no intermediate overflows. *)
Lemma int8_ip_loop x y (d : nat) : Forall is_int8 x -> Forall is_int8 y ->
  (d <= length x)%nat -> (d <= length y)%nat -> Z.of_nat d <= 131071 -> int8_loop int8_ip x y d = Ret (zsum Z.mul x y d).
Proof.
  intros Hx Hy Hlx Hly Hd. rewrite (int8_loop_exact int8_ip Z.mul 16384); try done; try lia.
  - unfold is_int8. intros u v Hu Hv. nia.
  - unfold is_int8. intros s u v Hu Hv Hs. unfold int8_ip. rewrite (i32_ok (u * v)) by nia. by apply i32_ok.
Qed.

Lemma int8_l2_loop x y (d : nat) : Forall is_int8 x -> Forall is_int8 y ->
  (d <= length x)%nat -> (d <= length y)%nat -> Z.of_nat d <= 33025 ->
  int8_loop int8_l2 x y d = Ret (zsum (fun u v => (u - v) * (u - v)) x y d).
Proof.
  intros Hx Hy Hlx Hly Hd. rewrite (int8_loop_exact int8_l2 (fun u v => (u - v) * (u - v)) 65025); try done; try lia.
  - unfold is_int8. intros u v Hu Hv. nia.
  - unfold is_int8. intros s u v Hu Hv Hs. unfold int8_l2. rewrite (i32_ok (u - v)) by nia. cbn [bind].
    rewrite (i32_ok ((u - v) * (u - v))) by nia. by apply i32_ok.
Qed.

(** C30: on vectors of [int8_t] the 32-bit accumulators hold the exact sums: the
    inner product up to dimension 131071 and the squared L2 distance up to
    dimension 33025, with no overflow on the way. *)
Theorem int8_kernels_exact x y (d : nat) :
  Forall is_int8 x -> Forall is_int8 y -> (d <= length x)%nat -> (d <= length y)%nat ->
  (Z.of_nat d <= 131071 -> ivec_inner_product_ref x y d = Ret (zsum Z.mul x y d) /\
     int8_vec_inner_product_ref x y d = Ret (F32.of_Z (zsum Z.mul x y d))) /\
  (Z.of_nat d <= 33025 -> ivec_L2sqr_ref x y d = Ret (zsum (fun u v => (u - v) * (u - v)) x y d) /\
     int8_vec_L2sqr_ref x y d = Ret (F32.of_Z (zsum (fun u v => (u - v) * (u - v)) x y d))).
Proof.
  intros Hx Hy Hlx Hly. unfold ivec_inner_product_ref, ivec_L2sqr_ref, int8_vec_inner_product_ref, int8_vec_L2sqr_ref.
  split; intros Hd; [by rewrite int8_ip_loop|by rewrite int8_l2_loop].
Qed.

Lemma int8_kernels_exact_witness :
  ivec_inner_product_ref [-128; 3; 7] [-128; -1; 2] 3 = Ret 16395 /\
  ivec_L2sqr_ref [-128; 3; 7] [127; -1; 2] 3 = Ret 65066.
Proof.
  split.
  - apply (int8_kernels_exact [-128; 3; 7] [-128; -1; 2] 3); [| |simpl; lia..];
      repeat constructor; unfold is_int8; lia.
  - apply (int8_kernels_exact [-128; 3; 7] [127; -1; 2] 3); [| |simpl; lia..];
      repeat constructor; unfold is_int8; lia.
Defined.

End int8_bounds.

(** ** Nearest of many *)

Section nearest.
Context {A : Type} `{!Num A, !NumOrder A, !Inhabited A}.
Implicit Types x y buffer : list A.

(** [k] is the first position of the least value of [buffer[0..n)] below [huge];
    [0] when there is none. *)
Definition first_least (huge : A) buffer (n k : nat) : Prop :=
  ((forall j, j < n -> nltb (buffer !!! j) huge = false) /\ k = 0) \/
  (k < n /\ nltb (buffer !!! k) huge = true /\
   (forall j, j < n -> nltb (buffer !!! j) (buffer !!! k) = false) /\
   (forall j, j < k -> nltb (buffer !!! k) (buffer !!! j) = true)).

(** The loop state after [n] values. *)
Definition least_so_far (huge : A) buffer (n : nat) (st : A * nat) : Prop :=
  first_least huge buffer n (snd st) /\ nok (fst st) /\
  (forall j, j < n -> nltb (buffer !!! j) (fst st) = false) /\
  (fst st = huge /\ (forall j, j < n -> nltb (buffer !!! j) huge = false) /\ snd st = 0 \/
   fst st = buffer !!! (snd st) /\ nltb (fst st) huge = true).

Lemma least_so_far_step huge buffer n st : (forall i, i <= n -> nok (buffer !!! i)) -> nok huge ->
  least_so_far huge buffer n st ->
  least_so_far huge buffer (S n) (if nltb (buffer !!! n) (fst st) then (buffer !!! n, n) else st).
Proof.
  intros Hok Hh (Hfl & Hm & Hall & Hc). destruct st as [m k]. cbn [fst snd] in *.
  pose proof (Hok n ltac:(lia)) as Hn. destruct (nltb (buffer !!! n) m) eqn:E.
  - assert (nltb (buffer !!! n) huge = true) as Hnh.
    { destruct Hc as [(-> & _)|(_ & Hmh)]; [done|]. by apply (sw_trans (ok:=nok) _ m). }
    assert (forall j, j < n -> nltb (buffer !!! n) (buffer !!! j) = true) as Hb.
    { intros j Hj. apply (sw_lt_le (ok:=nok) _ m); auto with lia. }
    assert (forall j, j < S n -> nltb (buffer !!! j) (buffer !!! n) = false) as Ha.
    { intros j Hj. destruct (decide (j = n)) as [->|]; [by apply (sw_irrefl (ok:=nok))|].
      apply (sw_asym (ok:=nok)); auto with lia. }
    split_and!; cbn [fst snd]; [right; split_and!; auto|done|done|by right].
  - assert (forall j, j < S n -> nltb (buffer !!! j) m = false) as Ha.
    { intros j Hj. destruct (decide (j = n)) as [->|]; [done|]. apply Hall. lia. }
    destruct Hc as [(-> & Hno & ->)|(-> & Hkh)].
    + split_and!; cbn [fst snd]; [by left|done|done|by left].
    + split_and!; cbn [fst snd]; [|done|done|by right].
      destruct Hfl as [[Hno ->]|(Hk & _ & _ & Hb)]; right.
      * destruct (decide (n = 0)) as [->|]; [|by rewrite Hno in Hkh by lia].
        split_and!; [lia|done|done|lia].
      * split_and!; [lia|done|done|done].
Qed.

Lemma nearest_scan_spec huge buffer n : nok huge -> Forall nok buffer -> n <= length buffer ->
  wp (nearest_scan huge buffer n) (first_least huge buffer n).
Proof.
  intros Hh Hb Hn.
  assert (forall i, i < n -> nok (buffer !!! i)) as Hok.
  { intros i Hi. eapply Forall_lookup_1; [exact Hb|]. apply list_lookup_lookup_total_lt. lia. }
  unfold nearest_scan. apply wp_bind. apply (wp_for _ (least_so_far huge buffer)).
  - split_and!; cbn [fst snd]; [left; split; [lia|done]|done|lia|left; split_and!; [done|lia|done]].
  - intros i st Hi Hst. rewrite vget_total by lia. cbn [bind wp]. rewrite Nat.add_1_r.
    apply least_so_far_step; auto with lia.
  - intros [m k] (Hfl & _). exact Hfl.
Qed.

End nearest.

(** ** One vector against many *)

Lemma foldM_pure {S I} (f : S -> I -> M S) (g : S -> I -> S) l s :
  (forall i t, i ∈ l -> f t i = Ret (g t i)) -> foldM f s l = Ret (foldl g s l).
Proof.
  revert s. induction l as [|i l IH]; intros s H; simpl; [done|].
  rewrite H by set_solver. simpl. apply IH. intros j t Hj. apply H. set_solver.
Qed.

Lemma fill_spec {V} (g : nat -> M V) (v : nat -> V) dis n :
  n <= length dis -> (forall i, i < n -> g i = Ret (v i)) ->
  foldM (fun dis i => let* u := g i in vset dis i u) dis (seq 0 n) = Ret ((v <$> seq 0 n) ++ drop n dis).
Proof.
  intros Hn Hg.
  match goal with |- ?m = Ret ?r => assert (wp m (fun d => d = r)) as H; [|by apply wp_elim in H as (? & -> & ->)] end.
  apply (wp_for _ (fun i d => d = (v <$> seq 0 i) ++ drop i dis)); [done| |done].
  intros i d Hi ->. rewrite Hg by lia. cbn [bind].
  assert (length (v <$> seq 0 i) = i) as Hl by (by rewrite length_fmap, length_seq).
  destruct (lookup_lt_is_Some_2 dis i ltac:(lia)) as [u Hu]. rewrite (drop_S _ _ _ Hu).
  apply wp_vset; [rewrite length_app, Hl; simpl; lia|].
  rewrite <- Hl at 1. rewrite insert_next, Nat.add_1_r, seq_S, fmap_app. done.
Qed.

Section many.
Context {A : Type} `{!Num A, !Inhabited A}.
Implicit Types x y dis : list A.

(** The value of a loop over the first [d] positions. *)
Definition sum2 (step : A -> A -> A -> A) x y (d : nat) (r : A) : A :=
  foldl (fun r i => step r (x !!! i) (y !!! i)) r (seq 0 d).

Lemma for2_spec step x y d (r : A) : d <= length x -> d <= length y ->
  for2 step x y d r = Ret (sum2 step x y d r).
Proof.
  intros Hx Hy. apply foldM_pure. intros i t Hi%elem_of_seq.
  by rewrite !vget_total by lia.
Qed.

Definition L2_value x y (d : nat) : A := sum2 l2_step x y d nzero.

Lemma fvec_L2sqr_value x y d : d <= length x -> d <= length y -> fvec_L2sqr_ref x y d = Ret (L2_value x y d).
Proof. intros. by apply for2_spec. Qed.

Lemma L2sqr_ny_spec dis x y d ny : d <= length x -> ny * d <= length y -> ny <= length dis ->
  fvec_L2sqr_ny_ref dis x y d ny = Ret (((fun i => L2_value x (drop (i * d) y) d) <$> seq 0 ny) ++ drop ny dis).
Proof.
  intros Hx Hy Hd. apply fill_spec; [done|]. intros i Hi. apply fvec_L2sqr_value; [done|].
  rewrite length_drop. nia.
Qed.

End many.

(** the nearest-neighbour kernel fills the buffer with the squared
    distances to the [ny] rows and returns the first row at the least distance
    (0 when no distance is below [HUGE_VALF]), provided no distance is NaN. *)
Theorem nearest_returns_first_minimum {A} `{!Num A, !NumOrder A, !Inhabited A} (huge : A)
    (buffer x y : list A) (d ny : nat) :
  d <= length x -> ny * d <= length y -> ny <= length buffer -> nok huge -> Forall nok (drop ny buffer) ->
  (forall i, i < ny -> nok (L2_value x (drop (i * d) y) d)) ->
  exists buffer' k, fvec_L2sqr_ny_nearest_ref huge buffer x y d ny = Ret (buffer', k) /\
    (forall i, i < ny -> fvec_L2sqr_ref x (drop (i * d) y) d = Ret (buffer' !!! i)) /\
    first_least huge buffer' ny k.
Proof.
  intros Hx Hy Hb Hh Hok Hv. unfold fvec_L2sqr_ny_nearest_ref. rewrite L2sqr_ny_spec by done. cbn [bind].
  set (buf := ((fun i => L2_value x (drop (i * d) y) d) <$> seq 0 ny) ++ drop ny buffer).
  assert (length ((fun i => L2_value x (drop (i * d) y) d) <$> seq 0 ny) = ny) as Hl by (by rewrite length_fmap, length_seq).
  assert (Forall nok buf) as Hbuf.
  { apply Forall_app. split; [|done]. rewrite Forall_fmap, Forall_forall. intros i Hi%elem_of_seq. apply Hv. lia. }
  destruct (wp_elim _ _ (nearest_scan_spec huge buf ny Hh Hbuf ltac:(unfold buf; rewrite length_app; lia)))
    as (k & Hk & Hfl).
  exists buf, k. rewrite Hk. split_and!; [done| |done].
  intros i Hi. rewrite fvec_L2sqr_value; [|done|rewrite length_drop; nia]. f_equal.
  symmetry. apply list_lookup_total_correct. unfold buf. rewrite lookup_app_l by lia.
  by rewrite list_lookup_fmap, lookup_seq_lt by done.
Qed.

Lemma nearest_returns_first_minimum_witness :
  exists buffer' k, fvec_L2sqr_ny_nearest_ref 1000%Z [0; 0; 0]%Z [1; 2]%Z [5; 5; 2; 2; 1; 3]%Z 2 3 = Ret (buffer', k) /\
    (forall i, i < 3 -> fvec_L2sqr_ref [1; 2]%Z (drop (i * 2) [5; 5; 2; 2; 1; 3]%Z) 2 = Ret (buffer' !!! i)) /\
    first_least 1000%Z buffer' 3 k.
Proof.
  apply (nearest_returns_first_minimum 1000%Z [0; 0; 0]%Z [1; 2]%Z [5; 5; 2; 2; 1; 3]%Z 2 3);
    [simpl; lia | simpl; lia | simpl; lia | exact I | constructor | intros; exact I].
Defined.

(** ** The transposed formulation *)

Section transposed.
#[local] Open Scope Z_scope.
Implicit Types x y yt dis : list Z.

Lemma sum2_S step x y d (r : Z) : sum2 step x y (S d) r = step (sum2 step x y d r) (x !!! d) (y !!! d).
Proof. unfold sum2. by rewrite seq_S, foldl_app. Qed.

(** [|x - y|^2 = |x|^2 + |y|^2 - 2 x.y]. *)
Lemma L2_expand x y d :
  L2_value x y d = sum2 ip_step x x d 0 + sum2 ip_step y y d 0 - 2 * sum2 ip_step x y d 0.
Proof.
  unfold L2_value. induction d as [|d IH]; [done|].
  rewrite !sum2_S, IH. unfold l2_step, ip_step. simpl. ring.
Qed.

(** in exact arithmetic the kernel over a transposed matrix with
    precomputed squared lengths returns what the row-wise L2 kernel returns. *)
Theorem transposed_L2_is_direct dis x y yt y_sqlen (d d_offset ny : nat) :
  (d <= length x)%nat -> (ny * d <= length y)%nat -> (ny <= length dis)%nat -> (ny <= length y_sqlen)%nat ->
  (forall i j, (i < ny)%nat -> (j < d)%nat -> yt !! (i + j * d_offset)%nat = y !! (i * d + j)%nat) ->
  (forall i, (i < ny)%nat -> fvec_inner_product_ref (drop (i * d) y) (drop (i * d) y) d = Ret (y_sqlen !!! i)) ->
  fvec_L2sqr_ny_transposed_ref dis x yt y_sqlen d d_offset ny = fvec_L2sqr_ny_ref dis x y d ny.
Proof.
  intros Hx Hy Hdis Hsq Ht Hlen. rewrite L2sqr_ny_spec by done.
  unfold fvec_L2sqr_ny_transposed_ref. rewrite for2_spec by done. cbn [bind].
  set (dp i := sum2 ip_step x (drop (i * d) y) d 0).
  assert (forall i, (i < ny)%nat ->
    foldM (fun dp j => let* xj := vget x j in let* yj := vget yt (i + j * d_offset) in Ret (nadd dp (nmul xj yj)))
      nzero (seq 0 d) = Ret (dp i)) as Hdp.
  { intros i Hi. apply foldM_pure. intros j t Hj%elem_of_seq. rewrite vget_total by lia.
    assert (vget yt (i + j * d_offset) = Ret (drop (i * d) y !!! j)) as ->.
    { apply vget_Ret. rewrite Ht by lia. rewrite <- lookup_drop. apply list_lookup_lookup_total_lt.
      rewrite length_drop. nia. }
    done. }
  rewrite <- (fill_spec (fun i =>
      let* u := foldM (fun dp j =>
        let* xj := vget x j in let* yj := vget yt (i + j * d_offset) in Ret (nadd dp (nmul xj yj))) nzero (seq 0 d) in
      let* yl := vget y_sqlen i in
      Ret (nsub (nadd (sum2 (fun res xj xj' => nadd res (nmul xj xj')) x x d nzero) yl) (nmul (nofZ 2) u)))).
  - clear. revert dis. induction (seq 0 ny) as [|i l IH]; intros dis; [done|]. cbn [foldM].
    destruct (foldM _ nzero (seq 0 d)); cbn [bind]; [|done..]. destruct (vget y_sqlen i); cbn [bind]; [|done..].
    destruct (vset dis i _); cbn [bind]; [apply IH|done..].
  - done.
  - intros i Hi. rewrite Hdp, vget_total by lia. cbn [bind]. f_equal. rewrite L2_expand.
    specialize (Hlen i Hi). unfold fvec_inner_product_ref in Hlen.
    rewrite for2_spec in Hlen by (rewrite length_drop; nia). injection Hlen as <-. done.
Qed.

Lemma transposed_L2_is_direct_witness :
  fvec_L2sqr_ny_transposed_ref [0; 0; 0] [1; 2] [5; 2; 1; 5; 2; 3] [50; 8; 10] 2 3 3 =
  fvec_L2sqr_ny_ref [0; 0; 0] [1; 2] [5; 5; 2; 2; 1; 3] 2 3.
Proof.
  apply (transposed_L2_is_direct [0; 0; 0] [1; 2] [5; 5; 2; 2; 1; 3] [5; 2; 1; 5; 2; 3] [50; 8; 10] 2 3 3);
    [simpl; lia | simpl; lia | simpl; lia | simpl; lia | |].
  - intros [|[|[|i]]] [|[|j]]; intros; (reflexivity || lia).
  - intros [|[|[|i]]]; intros; (reflexivity || lia).
Defined.

End transposed.

(** ** Binary searches *)

Section search.
#[local] Open Scope Z_scope.
Implicit Types data : list Z.

Definition sorted_upto data (size : nat) : Prop :=
  forall i j, (i <= j < size)%nat -> data !!! i <= data !!! j.

(** [r] is the first position below [size] satisfying [P], or [-1]. *)
Definition first_index (P : Z -> Prop) data (size : nat) (r : Z) : Prop :=
  (r = -1 /\ forall j, (j < size)%nat -> ~ P (data !!! j)) \/
  (0 <= r < Z.of_nat size /\ P (data !!! Z.to_nat r) /\ forall j, Z.of_nat j < r -> ~ P (data !!! j)).

(** The invariant of both searches: positions below [left] are too small; those
    above [right] are no better than the result. *)
Record searching (P : Z -> Prop) data (size : nat) (target left right result : Z) : Prop := {
  se_range : 0 <= left /\ left <= right + 1 /\ right < Z.of_nat size;
  se_left : forall j, Z.of_nat j < left -> data !!! j < target;
  se_right : (result = -1 /\ forall j, right < Z.of_nat j < Z.of_nat size -> ~ P (data !!! j)) \/
    (result = right + 1 /\ result < Z.of_nat size /\ P (data !!! Z.to_nat result)) 
}.

Lemma searching_done P data size target left right result :
  (forall v, P v -> target <= v) -> searching P data size target left right result -> right < left ->
  first_index P data size result.
Proof.
  intros HP [(H1 & H2 & H3) Hl Hr] Hlt. assert (left = right + 1) as -> by lia.
  assert (forall j, Z.of_nat j < right + 1 -> ~ P (data !!! j)) as Hno.
  { intros j Hj Hp%HP. specialize (Hl j Hj). lia. }
  destruct Hr as [[-> Hr]|(-> & Hlt' & Hp)].
  - left. split; [done|]. intros j Hj. destruct (decide (Z.of_nat j < right + 1)); [by apply Hno|]. apply Hr. lia.
  - right. split_and!; [lia..|done|done].
Qed.

Lemma mid_range left right : 0 <= left <= right -> left <= left + Z.quot (right - left) 2 <= right.
Proof. intros H. pose proof (Z.quot_pos (right - left) 2). pose proof (Z.quot_le_upper_bound (right - left) 2 (right - left)). lia. Qed.

(** Moving the left end past a value that is too small. *)
Lemma searching_right P data size target left right result mid :
  sorted_upto data size -> searching P data size target left right result -> left <= mid <= right ->
  data !!! Z.to_nat mid < target -> searching P data size target (mid + 1) right result.
Proof.
  intros Hs [(H1 & H2 & H3) Hl Hr] Hm Hv. split; [lia| |done].
  intros j Hj. specialize (Hs j (Z.to_nat mid) ltac:(lia)). lia.
Qed.

Lemma search_ge_spec data size target fuel left right result :
  sorted_upto data size -> (size <= length data)%nat ->
  searching (fun v => target <= v) data size target left right result -> right - left < Z.of_nat fuel ->
  wp (search_ge fuel data target left right result) (first_index (fun v => target <= v) data size).
Proof.
  intros Hs Hlen. revert left right result. induction fuel as [|fuel IH]; intros left right result Hse Hf;
    cbn [search_ge]; destruct (Z.leb_spec left right) as [Hle|Hgt]; try (by eapply searching_done); [lia|].
  pose proof (se_range _ _ _ _ _ _ _ Hse) as (Hr1 & Hr2 & Hr3).
  pose proof (mid_range left right ltac:(lia)) as Hm. set (mid := left + _) in *.
  rewrite vget_total by lia. cbn [bind]. destruct (Z.leb_spec target (data !!! Z.to_nat mid)) as [Hv|Hv].
  - apply IH; [|lia]. destruct Hse as [_ Hl Hr]. split; [lia|done|]. right. split_and!; [lia|lia|done].
  - apply IH; [|lia]. by eapply searching_right.
Qed.

Lemma search_eq_spec data size target fuel left right result :
  sorted_upto data size -> (size <= length data)%nat ->
  searching (fun v => v = target) data size target left right result -> right - left < Z.of_nat fuel ->
  wp (search_eq fuel data target left right result) (first_index (fun v => v = target) data size).
Proof.
  intros Hs Hlen. revert left right result. induction fuel as [|fuel IH]; intros left right result Hse Hf;
    cbn [search_eq]; destruct (Z.leb_spec left right) as [Hle|Hgt];
    try (eapply searching_done; [|done..]; intros; lia); [lia|].
  pose proof (se_range _ _ _ _ _ _ _ Hse) as (Hr1 & Hr2 & Hr3).
  pose proof (mid_range left right ltac:(lia)) as Hm. set (mid := left + _) in *.
  rewrite vget_total by lia. cbn [bind]. destruct (Z.ltb_spec (data !!! Z.to_nat mid) target) as [Hv|Hv].
  { apply IH; [|lia]. by eapply searching_right. }
  destruct (Z.ltb_spec target (data !!! Z.to_nat mid)) as [Hv'|Hv']; (apply IH; [|lia]);
    destruct Hse as [_ Hl Hr]; (split; [lia|done|]).
  - destruct Hr as [[-> Hr]|(-> & Hlt & Hp)].
    + left. split; [done|]. intros j Hj. specialize (Hs (Z.to_nat mid) j ltac:(lia)). lia.
    + specialize (Hs (Z.to_nat mid) (Z.to_nat (right + 1)) ltac:(lia)). lia.
  - right. split_and!; lia.
Qed.

Lemma to_int_small size : Z.of_nat size < 2 ^ 31 -> to_int size = Z.of_nat size.
Proof. intros H. unfold to_int. rewrite Z.mod_small; lia. Qed.

(** on data sorted over its first [size] elements (fewer than 2^31), the
    binary searches terminate and return the first position that holds the
    target, respectively the first position not below it, and -1 when there is
    none; they read nothing outside the data. *)
Theorem binary_searches_find_first data (size : nat) target :
  sorted_upto data size -> (size <= length data)%nat -> Z.of_nat size < 2 ^ 31 ->
  (exists r, u64_binary_search_eq_ref data size target = Ret r /\ first_index (fun v => v = target) data size r) /\
  (exists r, u64_binary_search_ge_ref data size target = Ret r /\ first_index (fun v => target <= v) data size r).
Proof.
  intros Hs Hlen Hmax. unfold u64_binary_search_eq_ref, u64_binary_search_ge_ref. rewrite to_int_small by done.
  split; apply wp_elim; [apply search_eq_spec|apply search_ge_spec]; try done; try lia;
    (split; [lia|lia|left; split; [done|lia]]).
Qed.

Lemma binary_searches_find_first_witness :
  (exists r, u64_binary_search_eq_ref [1; 3; 3; 8] 4 3 = Ret r /\ first_index (fun v => v = 3) [1; 3; 3; 8] 4 r) /\
  (exists r, u64_binary_search_ge_ref [1; 3; 3; 8] 4 3 = Ret r /\ first_index (fun v => 3 <= v) [1; 3; 3; 8] 4 r).
Proof.
  apply (binary_searches_find_first [1; 3; 3; 8] 4 3); [|simpl; lia|simpl; lia].
  intros [|[|[|[|i]]]] [|[|[|[|j]]]] Hij; simpl; lia.
Defined.

End search.

(** ** RaBitQ: bit planes *)

Section rabitq.
Import BitsetView.
#[local] Open Scope Z_scope.
Implicit Types x q : list Z.

Lemma common_bits_spec q x (n : nat) :
  Forall byte_ok q -> Forall byte_ok x -> (n <= length q)%nat -> (n <= length x)%nat ->
  common_bits q x n (n / 8 * 8) = Ret (count_true (fun k => bit_at q k && bit_at x k) (8 * n)).
Proof.
  intros Hq Hx Hlq Hlx. set (f := fun k => bit_at q k && bit_at x k).
  match goal with |- ?m = Ret ?r => assert (wp m (fun d => d = r)) as H; [|by apply wp_elim in H as (? & -> & ->)] end.
  pose proof (Nat.div_mod_eq n 8). pose proof (Nat.mod_upper_bound n 8).
  unfold common_bits. rewrite Nat.div_mul by lia. apply wp_bind.
  apply (wp_for _ (fun i r => r = count_true f (64 * i))); [done| |].
  - intros i r Hi ->. destruct (word64_spec q i) as (wq & -> & Hwq); [done|lia|].
    destruct (word64_spec x i) as (wx & -> & Hwx); [done|lia|]. cbn [bind wp].
    replace (64 * (i + 1))%nat with (64 * i + 64)%nat by lia. rewrite (count_true_add _ (64 * i) 64). f_equal.
    apply count_true_ext. intros k Hk. by rewrite Z.land_spec, Hwq, Hwx.
  - intros r ->. apply (wp_for _ (fun i r => r = count_true f (8 * i))).
    + f_equal. lia.
    + intros i r Hi ->.
      destruct (lookup_lt_is_Some_2 q i ltac:(lia)) as [bq Hbq]. destruct (lookup_lt_is_Some_2 x i ltac:(lia)) as [bx Hbx].
      rewrite (proj2 (vget_Ret _ _ _) Hbq), (proj2 (vget_Ret _ _ _) Hbx). cbn [bind wp].
      replace (8 * (i + 1))%nat with (8 * i + 8)%nat by lia. rewrite (count_true_add _ (8 * i) 8). f_equal.
      apply count_true_ext. intros k Hk. unfold f. by rewrite Z.land_spec, (bit_at_byte q i bq), (bit_at_byte x i bx).
    + intros r ->. f_equal. lia.
Qed.

(** The integer held by bit [i] of the [nb] planes of [q], [w] bits apart. *)
Fixpoint plane_value q (w nb i : nat) : Z :=
  match nb with
  | O => 0
  | S nb => plane_value q w nb i + 2 ^ Z.of_nat nb * Z.b2z (bit_at q (w * nb + i))
  end.

(** The dot product of the integers in [q] with the bits of [x]. *)
Fixpoint plane_dot q x (w nb n : nat) : Z :=
  match n with
  | O => 0
  | S n => plane_dot q x w nb n + plane_value q w nb n * Z.b2z (bit_at x n)
  end.

Lemma plane_dot_S q x w nb n : plane_dot q x w (S nb) n =
  plane_dot q x w nb n +
  2 ^ Z.of_nat nb * Z.of_nat (count_true (fun k => bit_at q (w * nb + k) && bit_at x k) n).
Proof.
  induction n as [|n IH]; cbn [plane_dot count_true]; [lia|]. rewrite IH. cbn [plane_value].
  destruct (bit_at q (w * nb + n)), (bit_at x n); cbn [Z.b2z andb]; nia.
Qed.

Lemma count_true_le f n : (count_true f n <= n)%nat.
Proof. induction n as [|n IH]; simpl; [lia|]. destruct (f n); lia. Qed.

Lemma plane_dot_range q x w nb n : 0 <= plane_dot q x w nb n <= (2 ^ Z.of_nat nb - 1) * Z.of_nat n.
Proof.
  induction nb as [|nb IH].
  - assert (plane_dot q x w 0 n = 0) as ->; [|simpl; lia]. induction n as [|n IHn]; simpl; lia.
  - rewrite plane_dot_S. pose proof (count_true_le (fun k => bit_at q (w * nb + k) && bit_at x k) n).
    rewrite Nat2Z.inj_succ, Z.pow_succ_r by lia. pose proof (Z.pow_pos_nonneg 2 (Z.of_nat nb)). nia.
Qed.

Lemma rabitq_ref_value q x (d nb : nat) :
  let bytes := ((d + 7) / 8)%nat in
  Forall byte_ok q -> Forall byte_ok x -> (nb * bytes <= length q)%nat -> (bytes <= length x)%nat ->
  (2 ^ Z.of_nat nb - 1) * Z.of_nat (8 * bytes) < 2 ^ 31 ->
  rabitq_dp_popcnt_ref q x d nb = Ret (plane_dot q x (8 * bytes) nb (8 * bytes)).
Proof.
  intros bytes Hq Hx Hlq Hlx Hmax.
  match goal with |- ?m = Ret ?r => assert (wp m (fun d => d = r)) as H; [|by apply wp_elim in H as (? & -> & ->)] end.
  unfold rabitq_dp_popcnt_ref. fold bytes.
  apply (wp_for _ (fun j r => r = plane_dot q x (8 * bytes) j (8 * bytes))); [| |done].
  { pose proof (plane_dot_range q x (8 * bytes) 0 (8 * bytes)) as Hz. change (2 ^ Z.of_nat 0 - 1) with 0 in Hz. lia. }
  intros j r Hj ->. rewrite common_bits_spec; [|by apply Forall_drop|done|rewrite length_drop; nia|done]. cbn [bind].
  assert (2 ^ Z.of_nat (S j) <= 2 ^ Z.of_nat nb) as Hpow by (apply Z.pow_le_mono_r; lia).
  pose proof (plane_dot_range q x (8 * bytes) (S j) (8 * bytes)) as Hr.
  pose proof (plane_dot_range q x (8 * bytes) j (8 * bytes)) as Hr'.
  rewrite plane_dot_S in Hr.
  set (c := count_true (fun k => bit_at q (8 * bytes * j + k) && bit_at x k) (8 * bytes)) in *.
  assert (count_true (fun k => bit_at (drop (j * bytes) q) k && bit_at x k) (8 * bytes) = c) as ->.
  { apply count_true_ext. intros k Hk. f_equal. unfold bit_at. rewrite lookup_total_drop.
    destruct (byte_bit (j * bytes) k) as [H1 H2]. replace (8 * bytes * j + k)%nat with (8 * (j * bytes) + k)%nat by lia.
    by rewrite H1, H2. }
  rewrite Z.shiftl_mul_pow2, Z.mul_comm by lia.
  rewrite (i32_ok (_ * _)) by nia. cbn [bind]. rewrite i32_ok by nia. cbn [wp].
  by rewrite Nat.add_1_r, plane_dot_S.
Qed.

(** with the query as [nb] bit planes of [d] bits (padded to bytes), the
    word-wise population count returns the dot product of the query's integers
    with the bits of the code, as long as the largest possible value fits an
    [int]. *)
Theorem rabitq_popcount_is_dot_product q x (d nb : nat) :
  let bytes := ((d + 7) / 8)%nat in
  Forall byte_ok q -> Forall byte_ok x -> (nb * bytes <= length q)%nat -> (bytes <= length x)%nat ->
  (2 ^ Z.of_nat nb - 1) * Z.of_nat (8 * bytes) < 2 ^ 31 ->
  rabitq_dp_popcnt_ref q x d nb = Ret (plane_dot q x (8 * bytes) nb (8 * bytes)).
Proof. exact (rabitq_ref_value q x d nb). Qed.

Lemma rabitq_popcount_is_dot_product_witness :
  rabitq_dp_popcnt_ref [5; 3; 255; 0] [7; 1] 12 2 = Ret (plane_dot [5; 3; 255; 0] [7; 1] 16 2 16).
Proof.
  apply (rabitq_popcount_is_dot_product [5; 3; 255; 0] [7; 1] 12 2);
    [repeat constructor; unfold byte_ok; lia | repeat constructor; unfold byte_ok; lia
    | vm_compute; lia | vm_compute; lia | vm_compute; reflexivity].
Defined.

End rabitq.

(** ** MinHash bands *)

Section minhash.
Import BitsetView.
Implicit Types x y : list Z.

Lemma le_word_inj a b : Forall byte_ok a -> Forall byte_ok b -> length a = length b ->
  le_word a = le_word b -> a = b.
Proof.
  intros Ha. revert b. induction Ha as [|u a Hu Ha IH]; intros [|v b] Hb Hl Heq; try done.
  apply Forall_cons_1 in Hb as [Hv Hb]. unfold byte_ok in *. cbn [le_word] in Heq. simpl in Hl.
  assert (u = v) as -> by lia. f_equal. apply IH; [done|lia|]. lia.
Qed.

(** A byte string long enough for [n] bytes. *)
Definition readable (n : nat) x : Prop := Forall byte_ok x /\ n <= length x.

Lemma readable_drop n k x : readable (k + n) x -> readable n (drop k x).
Proof. intros [Hb Hl]. split; [by apply Forall_drop|]. rewrite length_drop. lia. Qed.

Lemma readable_le n m x : readable n x -> m <= n -> readable m x.
Proof. intros [Hb Hl] ?. split; [done|lia]. Qed.

Lemma same64_spec x y : readable 8 x -> readable 8 y -> same64 x y = Ret (bool_decide (take 8 x = take 8 y)).
Proof.
  intros [Hbx Hlx] [Hby Hly]. unfold same64, load64.
  rewrite !(proj2 (Nat.leb_le _ _)) by done. cbn [bind]. f_equal.
  apply eq_bool_prop_intro. rewrite bool_decide_spec. rewrite Is_true_true, Z.eqb_eq. split; [|by intros ->].
  apply le_word_inj; [by apply Forall_take..|]. rewrite !length_take. lia.
Qed.

Lemma take_split_eq n m x y : n <= length x -> n <= length y ->
  take (n + m) x = take (n + m) y <-> take n x = take n y /\ take m (drop n x) = take m (drop n y).
Proof.
  intros Hx Hy. rewrite <- !take_take_drop. split; [|by intros [-> ->]].
  intros Heq%app_inj_1; [done|]. rewrite !length_take. lia.
Qed.

(** What is left to compare after the 16-byte steps. *)
Lemma skip16_spec fuel x y j : readable j x -> readable j y -> j <= fuel ->
  wp (skip16 fuel x y j) (fun r => match r with
    | None => take j x <> take j y
    | Some (x', y', j') => j' < 16 /\ readable j' x' /\ readable j' y' /\
        (take j x = take j y <-> take j' x' = take j' y')
    end).
Proof.
  revert x y j. induction fuel as [|fuel IH]; intros x y j Hx Hy Hj; cbn [skip16];
    destruct (Nat.leb_spec 16 j) as [Hge|Hlt]; [lia|done| |done].
  assert (take j x = take j y <-> (take 8 x = take 8 y /\ take 8 (drop 8 x) = take 8 (drop 8 y)) /\
    take (j - 16) (drop 16 x) = take (j - 16) (drop 16 y)) as Hsplit.
  { replace j with (16 + (j - 16)) at 1 2 by lia. destruct Hx as [_ Hx], Hy as [_ Hy].
    rewrite (take_split_eq 16) by lia. by rewrite (take_split_eq 8 8) by lia. }
  rewrite !same64_spec; [|eapply readable_le; [eassumption|lia]..| |];
    [|apply readable_drop; eapply readable_le; [eassumption|lia]..].
  cbn [bind]. case_bool_decide as H1; cbn [negb]; [|cbn [wp]; tauto].
  case_bool_decide as H2; cbn [negb]; [|cbn [wp]; tauto].
  eapply wp_mono; [apply IH|].
  - apply readable_drop. eapply readable_le; [eassumption|lia].
  - apply readable_drop. eapply readable_le; [eassumption|lia].
  - lia.
  - intros [[[x' y'] j']|]; simpl; tauto.
Qed.

Lemma tail_eq_spec x y j : j <= length x -> j <= length y ->
  tail_eq x y j = Ret (bool_decide (take j x = take j y)).
Proof.
  intros Hx Hy. unfold tail_eq.
  assert (forall b, foldM (fun eq k => let* a := vget x k in let* b := vget y k in Ret (eq && (a =? b)%Z)) b (rev (seq 0 j)) =
    Ret (b && bool_decide (take j x = take j y))) as H; [|by rewrite H].
  induction j as [|j IH]; intros b; [by rewrite andb_true_r|].
  rewrite seq_S, rev_app_distr. cbn [rev app foldM]. change (0 + j) with j.
  destruct (lookup_lt_is_Some_2 x j ltac:(lia)) as [u Hu]. destruct (lookup_lt_is_Some_2 y j ltac:(lia)) as [v Hv].
  rewrite (proj2 (vget_Ret _ _ _) Hu), (proj2 (vget_Ret _ _ _) Hv). cbn [bind].
  rewrite IH by lia. f_equal. rewrite (take_S_r _ _ _ Hu), (take_S_r _ _ _ Hv), <- andb_assoc. f_equal.
  apply eq_bool_prop_intro. rewrite andb_True, !bool_decide_spec, Is_true_true, Z.eqb_eq. split.
  - by intros [-> ->].
  - intros Heq. apply app_inj_2 in Heq as [? [=]]; done.
Qed.

Lemma band_eq_spec x y r : readable r x -> readable r y ->
  band_eq x y r = Ret (bool_decide (take r x = take r y)).
Proof.
  intros Hx Hy. unfold band_eq.
  destruct (wp_elim _ _ (skip16_spec r x y r Hx Hy (le_n r))) as (st & -> & Hst). cbn [bind].
  destruct st as [[[x' y'] j]|]; [|by rewrite bool_decide_false].
  destruct Hst as (Hj & Hx' & Hy' & Hiff). rewrite (bool_decide_ext _ _ Hiff).
  destruct (Nat.leb_spec 8 j) as [Hge|Hlt]; [|by apply tail_eq_spec; [apply Hx'|apply Hy']].
  rewrite same64_spec by (eapply readable_le; eassumption). cbn [bind].
  assert (take j x' = take j y' <-> take 8 x' = take 8 y' /\ take (j - 8) (drop 8 x') = take (j - 8) (drop 8 y')) as Hs.
  { replace j with (8 + (j - 8)) at 1 2 by lia. destruct Hx' as [_ Hx'], Hy' as [_ Hy'].
    by rewrite (take_split_eq 8) by lia. }
  rewrite (bool_decide_ext _ _ Hs). case_bool_decide as H8; cbn [negb]; [|by rewrite bool_decide_false by tauto].
  destruct Hx' as [_ Hx'], Hy' as [_ Hy']. rewrite tail_eq_spec by (rewrite length_drop; lia).
  f_equal. apply bool_decide_ext. tauto.
Qed.

Lemma find_first_bool {V} (f : V -> M bool) (P : V -> bool) l : (forall a, a ∈ l -> f a = Ret (P a)) ->
  find_first (fun a => let* e := f a in Ret (if e then Some tt else None)) l =
  Ret (if existsb P l then Some tt else None).
Proof.
  intros H. induction l as [|a l IH]; [done|]. cbn [find_first existsb]. rewrite H by set_solver. cbn [bind].
  destruct (P a); [done|]. cbn [orb]. apply IH. intros b Hb. apply H. set_solver.
Qed.

(** the band comparison in 16-, 8- and 1-byte steps is the plain one: two
    MinHash signatures hit if and only if some band of [dim / band] bytes is the
    same in both; nothing outside the signatures is read. *)
Theorem minhash_hit_iff_band_equal x y dim band :
  readable dim x -> readable dim y -> band <> 0 ->
  exists hit, minhash_lsh_hit_ref x y dim band = Ret hit /\
    (hit = true <-> exists i, i < band /\
       slice (dim / band * i) (dim / band * i + dim / band) x =
       slice (dim / band * i) (dim / band * i + dim / band) y).
Proof.
  intros Hx Hy Hb. unfold minhash_lsh_hit_ref. rewrite (proj2 (Nat.eqb_neq _ _)) by done.
  set (r := dim / band). assert (r * band <= dim) as Hr by (rewrite Nat.mul_comm; apply Nat.Div0.mul_div_le).
  rewrite (find_first_bool _ (fun i => bool_decide (take r (drop (r * i) x) = take r (drop (r * i) y)))).
  - cbn [bind]. eexists. split; [done|].
    assert (forall b : bool, match (if b then Some tt else None) with Some _ => true | None => false end = b) as Hm by (by intros []).
    rewrite Hm, existsb_exists. unfold slice. split.
    + intros (i & Hi%in_seq & Heq%bool_decide_eq_true). exists i. split; [lia|].
      by replace (r * i + r - r * i) with r by lia.
    + intros (i & Hi & Heq). exists i. split; [apply in_seq; lia|]. apply bool_decide_eq_true.
      by replace (r * i + r - r * i) with r in Heq by lia.
  - intros i Hi%elem_of_seq. apply band_eq_spec; apply readable_drop; eapply readable_le; try eassumption; nia.
Qed.

Lemma minhash_hit_iff_band_equal_witness :
  exists hit, minhash_lsh_hit_ref [1; 2; 3; 4]%Z [9; 2; 3; 4]%Z 4 2 = Ret hit /\
    (hit = true <-> exists i, i < 2 /\
       slice (4 / 2 * i) (4 / 2 * i + 4 / 2) [1; 2; 3; 4]%Z = slice (4 / 2 * i) (4 / 2 * i + 4 / 2) [9; 2; 3; 4]%Z).
Proof.
  apply (minhash_hit_iff_band_equal [1; 2; 3; 4]%Z [9; 2; 3; 4]%Z 4 2); [| |lia];
    (split; [repeat constructor; unfold byte_ok; lia | simpl; lia]).
Defined.

End minhash.
