(* ===== verification/Rvv.v ===== *)
(** * RISC-V vector operations

    What the kernels of src/simd/distances_rvv.cc use of the vector extension
    and its C intrinsics.  A register group is the list of its lanes; an
    operation computes the first [vl] lanes, and what becomes of the others is
    the tail policy: undisturbed ([_tu] intrinsics) or agnostic, in which case
    the implementation may write anything.  The length of the registers, the
    choice of [vl] by [vsetvl], the agnostic lanes and the order of an unordered
    reduction belong to the implementation and are parameters with the contract
    of the specification. *)

From S2P Require Import Prelude Float Num.

(** ** Fused multiply-add *)

Class Fma (A : Type) := { nfma : A -> A -> A -> A (* [nfma a x y = a + x * y] *) }.

#[export] Instance Z_fma : Fma Z := {| nfma := fun a x y => (a + x * y)%Z |}.

(** Mantissa, exponent and sign of a value that is neither NaN nor infinite. *)
Definition sf_parts (f : spec_float) : option (Z * Z * bool) :=
  match f with
  | S754_zero s => Some (0, 0, s)%Z
  | S754_finite s m e => Some (if s then Zneg m else Zpos m, e, s)%Z
  | _ => None
  end.

Definition sf_sign (f : spec_float) : bool :=
  match f with S754_zero s | S754_infinity s | S754_finite s _ _ => s | S754_nan => false end.

(** The product and the sum are exact; only the result is rounded. *)
Definition f32_fma (a x y : spec_float) : spec_float :=
  let sp := xorb (sf_sign x) (sf_sign y) in
  match sf_parts x, sf_parts y with
  | Some (mx, ex, _), Some (my, ey, _) =>
      match sf_parts a with
      | Some (ma, ea, sa) =>
          let ep := (ex + ey)%Z in
          let e := Z.min ep ea in
          binary_normalize F32.prec F32.emax
            (Z.shiftl (mx * my) (ep - e) + Z.shiftl ma (ea - e)) e (sp && sa)
      | None => a
      end
  | _, _ =>
      if is_nan x || is_nan y || is_nan a then S754_nan
      else match x, y with
           | S754_zero _, _ | _, S754_zero _ => S754_nan
           | _, _ =>
               match a with
               | S754_infinity sa => if Bool.eqb sa sp then a else S754_nan
               | _ => S754_infinity sp
               end
           end
  end.

#[export] Instance F32_fma : Fma spec_float := {| nfma := f32_fma |}.

(** ** The implementation *)

Class RvvImpl := {
  vlen32 : nat;                          (* lanes of 32 bits in one register *)
  vlen32_pos : 0 < vlen32;
  setvl : nat -> nat -> nat;             (* VLMAX, application length *)
  setvl_small : forall vm avl, avl <= vm -> setvl vm avl = avl;
  setvl_mid : forall vm avl, vm < avl < 2 * vm -> (avl + 1) / 2 <= setvl vm avl <= vm;
  setvl_large : forall vm avl, 2 * vm <= avl -> setvl vm avl = vm
}.

(** [__riscv_vsetvlmax_e32m1] and so on; the ratio of element width to register
    grouping decides. *)
Definition vlmax_e32m1 `{!RvvImpl} : nat := vlen32.
Definition vlmax_e32m2 `{!RvvImpl} : nat := 2 * vlen32.
Definition vlmax_e32m4 `{!RvvImpl} : nat := 4 * vlen32.
Definition vlmax_e32m8 `{!RvvImpl} : nat := 8 * vlen32.
Definition vlmax_e16m1 `{!RvvImpl} : nat := 2 * vlen32.
Definition vlmax_e16m2 `{!RvvImpl} : nat := 4 * vlen32.
Definition vlmax_e16m4 `{!RvvImpl} : nat := 8 * vlen32.
Definition vlmax_e8m1 `{!RvvImpl} : nat := 4 * vlen32.

Lemma setvl_le `{!RvvImpl} vm avl : setvl vm avl <= vm /\ setvl vm avl <= avl.
Proof.
  destruct (decide (avl <= vm)); [rewrite setvl_small by done; lia|].
  destruct (decide (avl < 2 * vm)); [|rewrite setvl_large by lia; lia].
  pose proof (setvl_mid vm avl ltac:(lia)). lia.
Qed.

Lemma setvl_pos `{!RvvImpl} vm avl : 0 < vm -> 0 < avl -> 0 < setvl vm avl.
Proof.
  intros Hvm Havl. destruct (decide (avl <= vm)); [by rewrite setvl_small|].
  destruct (decide (avl < 2 * vm)); [|by rewrite setvl_large by lia].
  pose proof (setvl_mid vm avl ltac:(lia)). assert (1 <= (avl + 1) / 2); [|lia].
  apply Nat.div_le_lower_bound; lia.
Qed.

(** The next strip is never longer than the strip before it. *)
Lemma setvl_next `{!RvvImpl} vm avl : setvl vm (avl - setvl vm avl) <= setvl vm avl.
Proof.
  destruct (decide (avl <= vm)); [rewrite (setvl_small vm avl) by done; rewrite Nat.sub_diag, setvl_small; lia|].
  destruct (decide (avl < 2 * vm)).
  - pose proof (setvl_mid vm avl ltac:(lia)) as [H1 H2].
    pose proof (Nat.div_mod (avl + 1) 2 ltac:(lia)). pose proof (Nat.mod_upper_bound (avl + 1) 2 ltac:(lia)).
    rewrite setvl_small; lia.
  - rewrite (setvl_large vm avl) by lia. apply setvl_le.
Qed.

(** One implementation: 128-bit registers, the longest strips. *)

Definition setvl_min (vm avl : nat) : nat := Nat.min vm avl.

Lemma setvl_min_mid vm avl : (vm < avl < 2 * vm) -> ((avl + 1) / 2 <= setvl_min vm avl <= vm).
Proof.
  intros H. unfold setvl_min. rewrite Nat.min_l by lia. split; [|done].
  apply Nat.lt_succ_r, Nat.Div0.div_lt_upper_bound. lia.
Qed.

Definition rvv128 : RvvImpl := {|
  vlen32 := 4;
  vlen32_pos := ltac:(lia);
  setvl := setvl_min;
  setvl_small := fun vm avl H => Nat.min_r vm avl H;
  setvl_mid := setvl_min_mid;
  setvl_large := fun vm avl H => Nat.min_l vm avl ltac:(lia)
|}.

(** ** Registers *)

(** The values that an implementation leaves in agnostic lanes: ones, or what
    the destination register happened to hold. *)
Class Agnostic (A : Type) := { agn : nat -> A }.

Definition sevens : Agnostic Z := {| agn := fun _ => 7%Z |}.

Section ops.
Context {A : Type} `{!Agnostic A}.
Implicit Types v acc body : list A.

(** Tail policies: [vm] lanes, the first of them from [body]. *)
Definition ta (vm : nat) body : list A := body ++ (agn <$> seq (length body) (vm - length body)).
Definition tu (old : list A) body : list A := body ++ drop (length body) old.

(** [vfmv_v_f], [vle], and lane-wise operations. *)
Definition vsplat (vm vl : nat) (x : A) : list A := ta vm (replicate vl x).

Definition vload (vm : nat) (p : list A) (off vl : nat) : M (list A) :=
  if decide (off + vl <= length p) then Ret (ta vm (slice off (off + vl) p)) else Undef.

Definition vmap (f : A -> A) (vm vl : nat) v : list A := ta vm (f <$> take vl v).
Definition vmap2 (f : A -> A -> A) (vm vl : nat) v w : list A := ta vm (zip_with f (take vl v) (take vl w)).

(** [vse]: writing the first [vl] lanes. *)
Definition vstore (p : list A) (off vl : nat) v : M (list A) := memcpy p off v 0 vl.

End ops.

(** [vfmacc] with both policies: [acc[i] + x[i] * y[i]]. *)
Definition fmacc {A} `{!Fma A} (vl : nat) (acc x y : list A) : list A :=
  zip_with (fun a p => nfma a (fst p) (snd p)) (take vl acc) (zip (take vl x) (take vl y)).

Definition vfmacc_tu {A} `{!Fma A} (vl : nat) (acc x y : list A) : list A := tu acc (fmacc vl acc x y).
Definition vfmacc {A} `{!Fma A, !Agnostic A} (vm vl : nat) (acc x y : list A) : list A := ta vm (fmacc vl acc x y).

(** ** Reductions

    [vfredusum]: the sum of the lanes and the scalar in any order, as any tree
    of additions in which additional zeros may occur. *)
Inductive any_sum {A} `{!Num A} : list A -> A -> Prop :=
  | any_sum_zero : any_sum [] nzero
  | any_sum_leaf x : any_sum [x] x
  | any_sum_node l r a b : any_sum l a -> any_sum r b -> any_sum (l ++ r) (nadd a b)
  | any_sum_perm l l' a : l ≡ₚ l' -> any_sum l a -> any_sum l' a.

Class Usum (A : Type) `{!Num A} := {
  usum : list A -> A;
  usum_any : forall l, any_sum l (usum l)
}.

Definition vfredusum {A} `{!Num A, !Usum A} (vl : nat) (v : list A) (s : A) : A := usum (s :: take vl v).

(** One such order: from the left. *)
Definition left_sum {A} `{!Num A} (l : list A) : A :=
  match l with [] => nzero | x :: l => foldl nadd x l end.

Lemma left_sum_any {A} `{!Num A} (l : list A) : any_sum l (left_sum l).
Proof.
  destruct l as [|x l]; [constructor|]. simpl. induction l as [|y l IH] using rev_ind; [constructor|].
  rewrite foldl_app. simpl. rewrite app_comm_cons. apply any_sum_node; [done|constructor].
Qed.

#[export] Instance usum_left {A} `{!Num A} : Usum A | 10 := {| usum := left_sum; usum_any := left_sum_any |}.

(** In exact arithmetic the order does not matter. *)
Lemma any_sum_exact (l : list Z) a : any_sum l a -> a = foldr Z.add 0%Z l.
Proof.
  assert (forall l r : list Z, foldr Z.add 0%Z (l ++ r) = (foldr Z.add 0 l + foldr Z.add 0 r)%Z) as Happ.
  { intros l0 r. induction l0 as [|x l0 IH]; simpl; [lia|]. rewrite IH. lia. }
  induction 1 as [|x|l r a b _ -> _ ->|l l' a Hp _ ->]; simpl; [done|lia|by rewrite Happ|].
  induction Hp; simpl; lia.
Qed.

Lemma usum_exact `{!Usum Z} (l : list Z) : usum l = foldr Z.add 0%Z l.
Proof. apply any_sum_exact, usum_any. Qed.
