(* ===== verification/RvvKernels.v ===== *)
(** * Vector kernels (src/simd/distances_rvv.cc)

    The RISC-V kernels, strip by strip and lane by lane.  The float kernels are
    written over the score interface; a pointer is the list of the elements from
    it on, as in Distances.v. *)

From S2P Require Import Prelude Float Num Operands MemoryIO Bitset Distances Rvv.

Section kernels.
Context {A : Type} `{!Num A, !Fma A, !Agnostic A, !RvvImpl, !Usum A}.
Implicit Types x y dis : list A.

(** ** Strip-mined loops *)

Section loops.
Context {V : Type} (vm : nat) (load : nat -> nat -> M V) (step : nat -> list A -> V -> list A).

(** [while (d >= 4 * vlmax)]: four strips, four accumulators. *)
Definition unrolled_4 (vacc : list A) (d : nat)
    : M (list A * list A * list A * list A * nat * nat) :=
  whileM d (fun '(_, _, _, _, _, d) => 4 * vm <=? d)
    (fun '(vacc0, vacc1, vacc2, vacc3, offset, d) =>
       let vl := vm in
       let* v0 := load offset vl in
       let* v1 := load (offset + vl) vl in
       let* v2 := load (offset + 2 * vl) vl in
       let* v3 := load (offset + 3 * vl) vl in
       Ret (step vl vacc0 v0, step vl vacc1 v1, step vl vacc2 v2, step vl vacc3 v3,
            offset + 4 * vl, d - 4 * vl))
    (vacc, vacc, vacc, vacc, 0, d).

(** [while (d > 0)]: strips of the length that [vsetvl] grants. *)
Definition tail_strips (vacc : list A) (offset d : nat) : M (list A) :=
  let* (vacc, _, _) := whileM d (fun '(_, _, d) => 0 <? d)
    (fun '(vacc, offset, d) =>
       let vl := setvl vm d in
       let* v := load offset vl in
       Ret (step vl vacc v, offset + vl, d - vl))
    (vacc, offset, d) in
  Ret vacc.

(** Both loops, with the accumulators merged in between. *)
Definition reduce_4 (merge : A -> A -> A) (d : nat) : M (list A) :=
  let* (vacc0, vacc1, vacc2, vacc3, offset, d) := unrolled_4 (vsplat vm vm nzero) d in
  let vacc0 := vmap2 merge vm vm vacc0 vacc1 in
  let vacc2 := vmap2 merge vm vm vacc2 vacc3 in
  let vacc0 := vmap2 merge vm vm vacc0 vacc2 in
  tail_strips vacc0 offset d.

End loops.

Definition load1 (vm : nat) x (offset vl : nat) : M (list A) := vload vm x offset vl.
Definition load2 (vm : nat) x y (offset vl : nat) : M (list A * list A) :=
  let* vx := vload vm x offset vl in
  let* vy := vload vm y offset vl in
  Ret (vx, vy).

(** ** Single-vector kernels *)

Definition fvec_inner_product_rvv x y (d : nat) : M A :=
  let vlmax := vlmax_e32m2 in
  let* vacc0 := reduce_4 vlmax (load2 vlmax x y)
    (fun vl vacc '(vx, vy) => vfmacc_tu vl vacc vx vy) nadd d in
  Ret (vfredusum vlmax vacc0 nzero).

Definition fvec_L2sqr_rvv x y (d : nat) : M A :=
  let vlmax := vlmax_e32m2 in
  let* vacc0 := reduce_4 vlmax (load2 vlmax x y)
    (fun vl vacc '(vx, vy) => let vtmp := vmap2 nsub vlmax vl vx vy in vfmacc_tu vl vacc vtmp vtmp) nadd d in
  Ret (vfredusum vlmax vacc0 nzero).

(** The additions are not of the [_tu] form. *)
Definition fvec_L1_rvv x y (d : nat) : M A :=
  let vlmax := vlmax_e32m2 in
  let* vacc0 := reduce_4 vlmax (load2 vlmax x y)
    (fun vl vacc '(vx, vy) =>
       let vtmp := vmap nabs vlmax vl (vmap2 nsub vlmax vl vx vy) in vmap2 nadd vlmax vl vacc vtmp) nadd d in
  Ret (vfredusum vlmax vacc0 nzero).

Definition fvec_norm_L2sqr_rvv x (d : nat) : M A :=
  let vlmax := vlmax_e32m2 in
  let* vacc0 := reduce_4 vlmax (load1 vlmax x) (fun vl vacc vx => vfmacc_tu vl vacc vx vx) nadd d in
  Ret (vfredusum vlmax vacc0 nzero).

(** ** One vector against many *)

Definition fvec_L2sqr_ny_rvv dis x y (d ny : nat) : M (list A) :=
  foldM (fun dis i => let* v := fvec_L2sqr_rvv x (drop (i * d) y) d in vset dis i v) dis (seq 0 ny).

Definition fvec_inner_products_ny_rvv ip x y (d ny : nat) : M (list A) :=
  foldM (fun ip i => let* v := fvec_inner_product_rvv x (drop (i * d) y) d in vset ip i v) ip (seq 0 ny).

(** Column [i] of the transposed matrix, rows [j .. j + vl). *)
Definition gather y (d_offset i j vl : nat) : M (list A) :=
  foldM (fun ybuf k => let* v := vget y (i + (j + k) * d_offset) in Ret (ybuf ++ [v])) [] (seq 0 vl).

(** The dot product of one whole strip. *)
Definition strip_dp (vm : nat) x y (d_offset i j : nat) : M A :=
  let* vx := vload vm x j vm in
  let* ybuf := gather y d_offset i j vm in
  let* vy := vload vm ybuf 0 vm in
  Ret (vfredusum vm (vmap2 nmul vm vm vx vy) nzero).

(** [acc[b] += ...] for the columns [i + b], [b < batch]. *)
Definition add_columns (batch : nat) (term : nat -> M A) (acc : list A) : M (list A) :=
  foldM (fun acc b => let* t := term b in let* a := vget acc b in vset acc b (nadd a t)) acc (seq 0 batch).

(** The dot products of [x] with [batch] columns from [i] on. *)
Definition columns_dp (vm batch : nat) x y (d d_offset i : nat) : M (list A) :=
  let* (acc, j) := whileM d (fun '(_, j) => j + vm <=? d)
    (fun '(acc, j) =>
       let* acc := add_columns batch (fun b => strip_dp vm x y d_offset (i + b) j) acc in
       Ret (acc, j + vm))
    (replicate batch nzero, 0) in
  foldM (fun acc j =>
      add_columns batch (fun b =>
        let* xj := vget x j in let* yj := vget y (i + b + j * d_offset) in Ret (nmul xj yj)) acc)
    acc (seq j (d - j)).

Definition store_columns (x_sqlen : A) (y_sqlen acc : list A) (batch i : nat) dis : M (list A) :=
  foldM (fun dis b =>
      let* yl := vget y_sqlen (i + b) in
      let* a := vget acc b in
      vset dis (i + b) (nsub (nadd x_sqlen yl) (nmul (nofZ 2) a)))
    dis (seq 0 batch).

Definition fvec_L2sqr_ny_transposed_rvv dis x y (y_sqlen : list A) (d d_offset ny : nat) : M (list A) :=
  let* x_sqlen := fvec_norm_L2sqr_rvv x d in
  let batch := 4 in
  let vlmax := vlmax_e32m2 in
  let* (dis, i) := whileM ny (fun '(_, i) => i + batch - 1 <? ny)
    (fun '(dis, i) =>
       let* acc := columns_dp vlmax batch x y d d_offset i in
       let* dis := store_columns x_sqlen y_sqlen acc batch i dis in
       Ret (dis, i + batch))
    (dis, 0) in
  foldM (fun dis i =>
      let* acc := columns_dp vlmax 1 x y d d_offset i in
      store_columns x_sqlen y_sqlen acc 1 i dis)
    dis (seq i (ny - i)).

Definition fvec_L2sqr_ny_nearest_rvv (huge : A) buffer x y (d ny : nat) : M (list A * nat) :=
  let* buffer := fvec_L2sqr_ny_rvv buffer x y d ny in
  let* nearest_idx := nearest_scan huge buffer ny in
  Ret (buffer, nearest_idx).

Definition fvec_L2sqr_ny_nearest_y_transposed_rvv (huge : A) buffer x y y_sqlen (d d_offset ny : nat)
    : M (list A * nat) :=
  let* buffer := fvec_L2sqr_ny_transposed_rvv buffer x y y_sqlen d d_offset ny in
  let* nearest_idx := nearest_scan huge buffer ny in
  Ret (buffer, nearest_idx).

(** ** c = a + bf * b *)

(** One strip: load, multiply-add, store; the stored lanes are returned too. *)
Definition madd_strip (vm vl : nat) (bf : A) (a b c : list A) (offset : nat) : M (list A * list A) :=
  let* va := vload vm a offset vl in
  let* vb := vload vm b offset vl in
  let vc := vfmacc vm vl va (vsplat vm vl bf) vb in
  let* c := vstore c offset vl vc in
  Ret (c, vc).

Definition fvec_madd_rvv (n : nat) (a : list A) (bf : A) (b c : list A) : M (list A) :=
  let vlmax := vlmax_e32m2 in
  let* (c, offset, n) := whileM n (fun '(_, _, n) => vlmax <=? n)
    (fun '(c, offset, n) =>
       let* (c, _) := madd_strip vlmax vlmax bf a b c offset in
       Ret (c, offset + vlmax, n - vlmax))
    (c, 0, n) in
  if 0 <? n then
    let* (c, _) := madd_strip vlmax (setvl vlmax n) bf a b c offset in Ret c
  else Ret c.

(** [vfredmin]: lanes that are not below the minimum so far (NaNs too) leave it. *)
Definition vfredmin (vl : nat) (v : list A) (s : A) : A :=
  foldl (fun m e => if nltb e m then e else m) s (take vl v).

(** The scalar search of a strip that holds a new minimum. *)
Definition scan_strip (c : list A) (offset vl : nat) (idx_base : Z) (st : A * Z) : M (A * Z) :=
  foldM (fun '(min_val, min_idx) i =>
      let* val := vget c (offset + i) in
      Ret (if nltb val min_val then (val, (idx_base + Z.of_nat i)%Z) else (min_val, min_idx)))
    st (seq 0 vl).

Definition argmin_strip (vmin0 : A) (vm vl : nat) (bf : A) (a b c : list A) (offset : nat) (idx_base : Z)
    (st : A * Z) : M (list A * (A * Z)) :=
  let* (c, vc) := madd_strip vm vl bf a b c offset in
  let local_min := vfredmin vl vc vmin0 in
  if nltb local_min (fst st) then
    let* st := scan_strip c offset vl idx_base st in Ret (c, st)
  else Ret (c, st).

Definition fvec_madd_and_argmin_rvv (vmin0 : A) (n : nat) (a : list A) (bf : A) (b c : list A)
    : M (list A * Z) :=
  let vlmax := vlmax_e32m2 in
  let* (c, st, offset, n) := whileM n (fun '(_, _, _, n) => vlmax <=? n)
    (fun '(c, st, offset, n) =>
       let* (c, st) := argmin_strip vmin0 vlmax vlmax bf a b c offset (Z.of_nat offset) st in
       Ret (c, st, offset + vlmax, n - vlmax))
    (c, (vmin0, (-1)%Z), 0, n) in
  let* (c, st) :=
    if 0 <? n then argmin_strip vmin0 vlmax (setvl vlmax n) bf a b c offset (Z.of_nat offset) st
    else Ret (c, st) in
  Ret (c, snd st).

(** ** Four vectors at once *)

Section batch_4.
Context (vm : nat) (step : nat -> list A -> list A -> list A -> list A).

Definition batch_strip (x y0 y1 y2 y3 : list A) (vl : nat)
    (st : list A * list A * list A * list A * nat * nat)
    : M (list A * list A * list A * list A * nat * nat) :=
  let '(vacc0, vacc1, vacc2, vacc3, offset, d) := st in
  let* vx := vload vm x offset vl in
  let* vy0 := vload vm y0 offset vl in
  let* vy1 := vload vm y1 offset vl in
  let* vy2 := vload vm y2 offset vl in
  let* vy3 := vload vm y3 offset vl in
  Ret (step vl vacc0 vx vy0, step vl vacc1 vx vy1, step vl vacc2 vx vy2, step vl vacc3 vx vy3,
       offset + vl, d - vl).

(** Whole strips, then what is left; the reduction is over [vlmax] lanes. *)
Definition batch_4_rvv (x y0 y1 y2 y3 : list A) (d : nat) : M (A * A * A * A) :=
  let vacc := vsplat vm vm nzero in
  let* st := whileM d (fun '(_, _, _, _, _, d) => vm <=? d)
    (batch_strip x y0 y1 y2 y3 vm) (vacc, vacc, vacc, vacc, 0, d) in
  let* (vacc0, vacc1, vacc2, vacc3, _, _) := whileM d (fun '(_, _, _, _, _, d) => 0 <? d)
    (fun st => let '(_, d) := st in batch_strip x y0 y1 y2 y3 (setvl vm d) st) st in
  Ret (vfredusum vm vacc0 nzero, vfredusum vm vacc1 nzero,
       vfredusum vm vacc2 nzero, vfredusum vm vacc3 nzero).

End batch_4.

Definition fvec_inner_product_batch_4_rvv :=
  batch_4_rvv vlmax_e32m1 (fun vl vacc vx vy => vfmacc_tu vl vacc vx vy).

Definition fvec_L2sqr_batch_4_rvv :=
  batch_4_rvv vlmax_e32m1 (fun vl vacc vx vy =>
    let vtmp := vmap2 nsub vlmax_e32m1 vl vx vy in vfmacc_tu vl vacc vtmp vtmp).

(** ** 16-bit elements widened lane by lane

    The multiply-adds are not of the [_tu] form, and the reduction runs over the
    lanes that [vsetvl] grants for the whole length. *)
Section half.
Context (vm : nat) (widen : Z -> A).

(** [vle16] followed by the widening. *)
Definition vload16 (p : list Z) (off vl : nat) : M (list A) :=
  if decide (off + vl <= length p) then Ret (ta vm (widen <$> slice off (off + vl) p)) else Undef.

(** [for (vl; (vl = vsetvl(d)) > 0; d -= vl)]. *)
Definition half_strips {V} (load : nat -> nat -> M V) (step : nat -> list A -> V -> list A) (d : nat)
    : M (list A) :=
  let* (acc, _, _) := whileM d (fun '(_, _, d) => 0 <? setvl vm d)
    (fun '(acc, off, d) =>
       let vl := setvl vm d in
       let* v := load off vl in
       Ret (step vl acc v, off + vl, d - vl))
    (vsplat vm vm nzero, 0, d) in
  Ret acc.

Definition half_load2 (x y : list Z) (off vl : nat) : M (list A * list A) :=
  let* vx := vload16 x off vl in
  let* vy := vload16 y off vl in
  Ret (vx, vy).

Definition half_ip_rvv (x y : list Z) (d : nat) : M A :=
  let* acc := half_strips (half_load2 x y) (fun vl acc '(vx, vy) => vfmacc vm vl acc vx vy) d in
  Ret (vfredusum (setvl vm d) acc nzero).

Definition half_L2sqr_rvv (x y : list Z) (d : nat) : M A :=
  let* acc := half_strips (half_load2 x y)
    (fun vl acc '(vx, vy) => let v_diff := vmap2 nsub vm vl vx vy in vfmacc vm vl acc v_diff v_diff) d in
  Ret (vfredusum (setvl vm d) acc nzero).

Definition half_norm_rvv (x : list Z) (d : nat) : M A :=
  let* acc := half_strips (vload16 x) (fun vl acc vx => vfmacc vm vl acc vx vx) d in
  Ret (vfredusum (setvl vm d) acc nzero).

(** Four candidates in one pass. *)
Definition half_batch_4_rvv (step : nat -> list A -> list A -> list A -> list A)
    (x y0 y1 y2 y3 : list Z) (d : nat) : M (A * A * A * A) :=
  let vacc := vsplat vm vm nzero in
  let* (vacc0, vacc1, vacc2, vacc3, _, _) := whileM d (fun '(_, _, _, _, _, d) => 0 <? setvl vm d)
    (fun '(vacc0, vacc1, vacc2, vacc3, off, d) =>
       let vl := setvl vm d in
       let* vx := vload16 x off vl in
       let* vy0 := vload16 y0 off vl in
       let* vy1 := vload16 y1 off vl in
       let* vy2 := vload16 y2 off vl in
       let* vy3 := vload16 y3 off vl in
       Ret (step vl vacc0 vx vy0, step vl vacc1 vx vy1, step vl vacc2 vx vy2, step vl vacc3 vx vy3,
            off + vl, d - vl))
    (vacc, vacc, vacc, vacc, 0, d) in
  let s vacc := vfredusum (setvl vm d) vacc nzero in
  Ret (s vacc0, s vacc1, s vacc2, s vacc3).

Definition half_ip_step (vl : nat) (vacc vx vy : list A) : list A := vfmacc vm vl vacc vx vy.
Definition half_l2_step (vl : nat) (vacc vx vy : list A) : list A :=
  let vdiff := vmap2 nsub vm vl vx vy in vfmacc vm vl vacc vdiff vdiff.

End half.

End kernels.

(** ** Kernels on binary32 values *)

Section float.
Context `{!Agnostic spec_float, !RvvImpl, !Usum spec_float}.
Implicit Types x y : list spec_float.

(** [vfmax] and [vfredmax]; the maxima are not of the [_tu] form. *)
Definition vfredmax (vl : nat) (v : list spec_float) (s : spec_float) : spec_float := foldl fmax s (take vl v).

Definition fvec_Linf_rvv x y (d : nat) : M spec_float :=
  let vlmax := vlmax_e32m2 in
  let* vmax0 := reduce_4 vlmax (load2 vlmax x y)
    (fun vl vmax '(vx, vy) =>
       let vtmp := vmap SFabs vlmax vl (vmap2 F32.sub vlmax vl vx vy) in vmap2 fmax vlmax vl vmax vtmp) fmax d in
  Ret (vfredmax vlmax vmax0 F32.zero).

(** The helper [bf16_float_rvv]. *)
Definition bf16_float_rvv (vm vl : nat) (f : list spec_float) : list spec_float := vmap bf16_float vm vl f.

Definition fvec_inner_product_bf16_patch_rvv x y (d : nat) : M spec_float :=
  let vlmax := vlmax_e32m2 in
  let* vacc0 := reduce_4 vlmax (load2 vlmax x y)
    (fun vl vacc '(vx, vy) => vfmacc_tu vl vacc vx (bf16_float_rvv vlmax vl vy)) nadd d in
  Ret (vfredusum vlmax vacc0 nzero).

Definition fvec_L2sqr_bf16_patch_rvv x y (d : nat) : M spec_float :=
  let vlmax := vlmax_e32m2 in
  let* vacc0 := reduce_4 vlmax (load2 vlmax x y)
    (fun vl vacc '(vx, vy) =>
       let vtmp := vmap2 nsub vlmax vl vx (bf16_float_rvv vlmax vl vy) in vfmacc_tu vl vacc vtmp vtmp) nadd d in
  Ret (vfredusum vlmax vacc0 nzero).

Definition fvec_inner_product_batch_4_bf16_patch_rvv :=
  batch_4_rvv vlmax_e32m1 (fun vl vacc vx vy => vfmacc_tu vl vacc vx (bf16_float_rvv vlmax_e32m1 vl vy)).

Definition fvec_L2sqr_batch_4_bf16_patch_rvv :=
  batch_4_rvv vlmax_e32m1 (fun vl vacc vx vy =>
    let vtmp := vmap2 nsub vlmax_e32m1 vl vx (bf16_float_rvv vlmax_e32m1 vl vy) in vfmacc_tu vl vacc vtmp vtmp).

(** [vfwcvt_f_f_v] from binary16: exact. *)
Definition f16_widen (h : Z) : spec_float :=
  let s := Z.testbit h 15 in
  let e := Z.land (Z.shiftr h 10) 31 in
  let m := Z.land h 1023 in
  let sm k := if s then (- k)%Z else k in
  if (e =? 31)%Z then (if (m =? 0)%Z then S754_infinity s else S754_nan)
  else if (e =? 0)%Z then binary_normalize F32.prec F32.emax (sm m) (-24) s
  else binary_normalize F32.prec F32.emax (sm (m + 1024)%Z) (e - 25) s.

Definition fp16_vec_inner_product_rvv := half_ip_rvv vlmax_e16m4 f16_widen.
Definition fp16_vec_L2sqr_rvv := half_L2sqr_rvv vlmax_e16m2 f16_widen.
Definition fp16_vec_norm_L2sqr_rvv := half_norm_rvv vlmax_e16m4 f16_widen.
Definition fp16_vec_inner_product_batch_4_rvv :=
  half_batch_4_rvv vlmax_e16m2 f16_widen (half_ip_step vlmax_e16m2).
Definition fp16_vec_L2sqr_batch_4_rvv :=
  half_batch_4_rvv vlmax_e16m2 f16_widen (half_l2_step vlmax_e16m2).

(** [vwaddu_vx(h, 0)], [vsll 16], reinterpretation. *)
Definition bf16_widen (h : Z) : spec_float := F32.of_bits (u32 (Z.shiftl (h + 0) 16)).

Definition bf16_vec_inner_product_rvv := half_ip_rvv vlmax_e16m4 bf16_widen.
Definition bf16_vec_L2sqr_rvv := half_L2sqr_rvv vlmax_e16m2 bf16_widen.
Definition bf16_vec_norm_L2sqr_rvv := half_norm_rvv vlmax_e16m4 bf16_widen.
Definition bf16_vec_inner_product_batch_4_rvv :=
  half_batch_4_rvv vlmax_e16m2 bf16_widen (half_ip_step vlmax_e16m2).
Definition bf16_vec_L2sqr_batch_4_rvv :=
  half_batch_4_rvv vlmax_e16m1 bf16_widen (half_l2_step vlmax_e16m1).

End float.

(** ** int8 vectors: widening products, a wrapping reduction, 32-bit accumulation *)

Section int8.
Context `{!RvvImpl}.
#[local] Open Scope Z_scope.
Implicit Types x y : list Z.

Definition wrap32 (z : Z) : Z := (z + 2 ^ 31) mod 2 ^ 32 - 2 ^ 31.

(** [vredsum] of the lanes [f(x[i], y[i])] with a zero scalar. *)
Definition strip_sum (f : Z -> Z -> Z) x y (i vl : nat) : M Z :=
  if decide (i + vl <= length x /\ i + vl <= length y)%nat then
    Ret (wrap32 (foldr Z.add 0 (zip_with f (slice i (i + vl) x) (slice i (i + vl) y))))
  else Undef.

Definition ip_lane (u v : Z) : Z := u * v.
Definition l2_lane (u v : Z) : Z := let w := u - v in w * w.

Definition int8_strips (f : Z -> Z -> Z) x y (d : nat) : M Z :=
  let* (res, _) := whileM d (fun '(_, i) => (i <? d)%nat)
    (fun '(res, i) =>
       let vl := setvl vlmax_e8m1 (d - i) in
       let* vsum := strip_sum f x y i vl in
       let* res := i32 (res + vsum) in
       Ret (res, (i + vl)%nat))
    (0, 0%nat) in
  Ret res.

Definition ivec_inner_product_rvv x y (d : nat) : M Z := int8_strips ip_lane x y d.
Definition ivec_L2sqr_rvv x y (d : nat) : M Z := int8_strips l2_lane x y d.

Definition int8_vec_inner_product_rvv x y (d : nat) : M spec_float :=
  let* res := int8_strips ip_lane x y d in Ret (F32.of_Z res).
Definition int8_vec_L2sqr_rvv x y (d : nat) : M spec_float :=
  let* res := int8_strips l2_lane x y d in Ret (F32.of_Z res).
Definition int8_vec_norm_L2sqr_rvv x (d : nat) : M spec_float :=
  let* res := int8_strips ip_lane x x d in Ret (F32.of_Z res).

Definition int8_batch_4_rvv (f : Z -> Z -> Z) x y0 y1 y2 y3 (d : nat)
    : M (spec_float * spec_float * spec_float * spec_float) :=
  let* (acc0, acc1, acc2, acc3, _) := whileM d (fun '(_, _, _, _, i) => (i <? d)%nat)
    (fun '(acc0, acc1, acc2, acc3, i) =>
       let vl := setvl vlmax_e8m1 (d - i) in
       let* vsum0 := strip_sum f x y0 i vl in
       let* vsum1 := strip_sum f x y1 i vl in
       let* vsum2 := strip_sum f x y2 i vl in
       let* vsum3 := strip_sum f x y3 i vl in
       let* acc0 := i32 (acc0 + vsum0) in
       let* acc1 := i32 (acc1 + vsum1) in
       let* acc2 := i32 (acc2 + vsum2) in
       let* acc3 := i32 (acc3 + vsum3) in
       Ret (acc0, acc1, acc2, acc3, (i + vl)%nat))
    (0, 0, 0, 0, 0%nat) in
  Ret (F32.of_Z acc0, F32.of_Z acc1, F32.of_Z acc2, F32.of_Z acc3).

Definition int8_vec_inner_product_batch_4_rvv := int8_batch_4_rvv ip_lane.
Definition int8_vec_L2sqr_batch_4_rvv := int8_batch_4_rvv l2_lane.

End int8.
