(* ===== verification/RvvProps.v ===== *)
(** * The vector kernels compute what the reference kernels compute

    In exact arithmetic, whatever the register length, the choice of [vl], the
    agnostic lanes and the order of reductions; and what the kernels without
    [_tu] accumulation need for that. *)

From S2P Require Import Prelude Float Num Operands MemoryIO Bitset Distances DistanceProps Rvv RvvKernels.

#[local] Open Scope Z_scope.

(** ** Sums of lanes *)

Definition lanesum (l : list Z) : Z := foldr Z.add 0 l.

Lemma lanesum_app l k : lanesum (l ++ k) = lanesum l + lanesum k.
Proof. induction l as [|x l IH]; simpl; [done|]. rewrite IH. lia. Qed.

Lemma lanesum_replicate n : lanesum (replicate n 0) = 0.
Proof. induction n as [|n IH]; simpl; [done|]. by rewrite IH. Qed.

Lemma lanesum_add l k : length l = length k -> lanesum (zip_with Z.add l k) = lanesum l + lanesum k.
Proof.
  revert k. induction l as [|x l IH]; intros [|y k] H; simpl in *; try done. rewrite IH by lia. lia.
Qed.

Lemma slice_zip_with {B C D} (f : B -> C -> D) (l : list B) (k : list C) i j :
  slice i j (zip_with f l k) = zip_with f (slice i j l) (slice i j k).
Proof. unfold slice. by rewrite <- zip_with_take, zip_with_drop. Qed.

Lemma slice_0 {B} n (l : list B) : slice 0 n l = take n l.
Proof. unfold slice. by rewrite Nat.sub_0_r, drop_0. Qed.

(** The reference loops sum the same terms from the left. *)
Lemma for2_lanesum (f : Z -> Z -> Z) x y d : (d <= length x)%nat -> (d <= length y)%nat ->
  for2 (fun r a b => r + f a b) x y d 0 = Ret (lanesum (take d (zip_with f x y))).
Proof.
  intros Hx Hy.
  match goal with |- ?m = Ret ?r => assert (wp m (fun v => v = r)) as H; [|by apply wp_elim in H as (? & -> & ->)] end.
  apply (wp_for _ (fun i r => r = lanesum (take i (zip_with f x y)))); [done| |done].
  intros i r Hi ->. apply wp_bind, wp_vget; [lia|]. intros a Ha. apply wp_bind, wp_vget; [lia|]. intros b Hb.
  cbn [wp]. rewrite Nat.add_1_r, (take_S_r _ _ (f a b)) by (rewrite lookup_zip_with, Ha; simpl; by rewrite Hb).
  rewrite lanesum_app. simpl. lia.
Qed.

(** ** Lane-wise accumulation *)

Section exact.
Context `{HA : !Agnostic Z, HR : !RvvImpl, HU : !Usum Z}.
Implicit Types x y acc v t : list Z.

Lemma vfredusum_exact vl v : vfredusum vl v 0 = lanesum (take vl v).
Proof. unfold vfredusum. rewrite usum_exact. done. Qed.

Lemma fmacc_zip vl acc x y : fmacc vl acc x y = zip_with Z.add (take vl acc) (zip_with Z.mul (take vl x) (take vl y)).
Proof.
  unfold fmacc. generalize (take vl acc) (take vl x) (take vl y). intros a p. revert a.
  induction p as [|u p IH]; intros [|c a] [|w q]; simpl; try done. by rewrite IH.
Qed.

(** Adding the terms [t] to the first lanes, undisturbed. *)
Lemma tu_add acc t : (length t <= length acc)%nat ->
  let r := tu acc (zip_with Z.add (take (length t) acc) t) in
  length r = length acc /\ lanesum r = lanesum acc + lanesum t.
Proof.
  intros Hl r. subst r. unfold tu. rewrite length_zip_with, length_take.
  replace ((length t `min` length acc) `min` length t)%nat with (length t) by lia.
  rewrite length_app, length_zip_with, length_take, length_drop. split; [lia|].
  rewrite lanesum_app, lanesum_add by (rewrite length_take; lia).
  rewrite <- (take_drop (length t) acc) at 3. rewrite lanesum_app. lia.
Qed.

(** The same with the agnostic policy, when all lanes take part. *)
Lemma ta_add vm acc t : length acc = vm -> length t = vm ->
  let r := ta vm (zip_with Z.add (take vm acc) t) in length r = vm /\ lanesum r = lanesum acc + lanesum t.
Proof.
  intros Ha Ht r. subst r. unfold ta. rewrite take_ge by lia.
  rewrite length_zip_with. replace (vm - length acc `min` length t)%nat with 0%nat by lia.
  simpl. rewrite app_nil_r, length_zip_with, lanesum_add by lia. split; [lia|done].
Qed.

(** [ta] keeps the computed lanes. *)
Lemma take_ta vm v : take (length v) (ta vm v) = v.
Proof. unfold ta. by rewrite take_app_length. Qed.

Lemma length_ta vm v : (length v <= vm)%nat -> length (ta vm v) = vm.
Proof. intros H. unfold ta. rewrite length_app, length_fmap, length_seq. lia. Qed.

Lemma vload_ok vm p off vl : (off + vl <= length p)%nat ->
  exists v, vload vm p off vl = Ret v /\ take vl v = slice off (off + vl) p /\ ((vl <= vm)%nat -> length v = vm).
Proof.
  intros H. unfold vload. rewrite decide_True by done. eexists. split; [done|].
  assert (length (slice off (off + vl) p) = vl) as Hl by (rewrite length_slice by lia; lia).
  split; [rewrite <- Hl at 1; apply take_ta|]. intros Hvm. apply length_ta. lia.
Qed.

Lemma take_vmap2 (f : Z -> Z -> Z) vm vl v w : take vl (vmap2 f vm vl v w) = zip_with f (take vl v) (take vl w) \/
  (length (zip_with f (take vl v) (take vl w)) < vl)%nat.
Proof.
  unfold vmap2. set (z := zip_with f (take vl v) (take vl w)).
  destruct (decide (length z < vl)%nat) as [|Hl]; [by right|left].
  replace vl with (length z); [apply take_ta|].
  subst z. rewrite length_zip_with, !length_take in *. lia.
Qed.

Lemma vmap2_lanes (f : Z -> Z -> Z) vm vl v w : (vl <= length v)%nat -> (vl <= length w)%nat ->
  take vl (vmap2 f vm vl v w) = zip_with f (take vl v) (take vl w).
Proof.
  intros Hv Hw. destruct (take_vmap2 f vm vl v w) as [|H]; [done|].
  rewrite length_zip_with, !length_take in H. lia.
Qed.

Lemma length_vmap2 (f : Z -> Z -> Z) vm vl v w : (vl <= vm)%nat -> length (vmap2 f vm vl v w) = vm.
Proof. intros H. apply length_ta. rewrite length_zip_with, !length_take. lia. Qed.

Lemma vmap_lanes (f : Z -> Z) vm vl v : (vl <= length v)%nat -> take vl (vmap f vm vl v) = f <$> take vl v.
Proof.
  intros Hv. unfold vmap. replace vl with (length (f <$> take vl v)) at 1; [apply take_ta|].
  rewrite length_fmap, length_take. lia.
Qed.

(** ** The strip loops

    [T] are the terms of the sum, [good vl] says that a strip of [vl] lanes
    accumulates its terms. *)
Section loops.
Context {V : Type} (vm : nat) (load : nat -> nat -> M V) (step : nat -> list Z -> V -> list Z).
Context (T : list Z) (good : nat -> Prop) (Hvm : (0 < vm)%nat).
Hypothesis Hload : forall off vl, (off + vl <= length T)%nat -> (vl <= vm)%nat ->
  wp (load off vl) (fun u => forall acc, length acc = vm -> good vl ->
    length (step vl acc u) = vm /\ lanesum (step vl acc u) = lanesum acc + lanesum (slice off (off + vl) T)).

Lemma slice_sum i j k : (i <= j <= k)%nat -> lanesum (slice i k T) = lanesum (slice i j T) + lanesum (slice j k T).
Proof. intros H. by rewrite <- lanesum_app, slice_app. Qed.

Lemma unrolled_4_spec acc d : (d <= length T)%nat -> good vm -> length acc = vm -> lanesum acc = 0 ->
  wp (unrolled_4 vm load step acc d) (fun '(a0, a1, a2, a3, off, d') =>
    length a0 = vm /\ length a1 = vm /\ length a2 = vm /\ length a3 = vm /\
    (off + d' = d)%nat /\ (exists q, off = 4 * vm * q)%nat /\
    lanesum a0 + lanesum a1 + lanesum a2 + lanesum a3 = lanesum (slice 0 off T)).
Proof.
  intros Hd Hg Hl Hs. unfold unrolled_4.
  apply (wp_whileM _ _ _ _ (fun '(a0, a1, a2, a3, off, d') =>
    length a0 = vm /\ length a1 = vm /\ length a2 = vm /\ length a3 = vm /\
    (off + d' = d)%nat /\ (exists q, off = 4 * vm * q)%nat /\
    lanesum a0 + lanesum a1 + lanesum a2 + lanesum a3 = lanesum (slice 0 off T)) (fun '(_, _, _, _, _, d') => d')).
  - rewrite Hs. split_and!; [done..|exists 0%nat; lia|done].
  - done.
  - intros [[[[[a0 a1] a2] a3] off] d'] (H0 & H1 & H2 & H3 & Hoff & [q Hq] & Hsum) Hc%Nat.leb_le.
    assert (forall k, (k < 4)%nat -> (off + k * vm + vm <= length T)%nat) as Hk by (intros; nia).
    pose proof (Hk 0%nat ltac:(lia)). pose proof (Hk 1%nat ltac:(lia)).
    pose proof (Hk 2%nat ltac:(lia)). pose proof (Hk 3%nat ltac:(lia)).
    apply wp_bind. eapply wp_mono; [apply Hload; lia|]. intros v0 S0. destruct (S0 a0 H0 Hg) as [L0 E0].
    apply wp_bind. eapply wp_mono; [apply Hload; lia|]. intros v1 S1. destruct (S1 a1 H1 Hg) as [L1 E1].
    apply wp_bind. eapply wp_mono; [apply Hload; lia|]. intros v2 S2. destruct (S2 a2 H2 Hg) as [L2 E2].
    apply wp_bind. eapply wp_mono; [apply Hload; lia|]. intros v3 S3. destruct (S3 a3 H3 Hg) as [L3 E3].
    cbn [wp]. split; [|lia]. split_and!; [done|done|done|done|lia|exists (q + 1)%nat; lia|].
    rewrite E0, E1, E2, E3. set (e := (off + 4 * vm)%nat).
    rewrite (slice_sum 0 off e), (slice_sum off (off + vm) e), (slice_sum (off + vm) (off + 2 * vm) e),
      (slice_sum (off + 2 * vm) (off + 3 * vm) e) by lia.
    replace (off + vm + vm)%nat with (off + 2 * vm)%nat by lia.
    replace (off + 2 * vm + vm)%nat with (off + 3 * vm)%nat by lia.
    replace (off + 3 * vm + vm)%nat with e by lia. lia.
  - intros [[[[[a0 a1] a2] a3] off] d'] H _. exact H.
Qed.

(** What the last strips may look like: any length, or whole registers only. *)
Definition tail_ok (d : nat) : Prop := (forall vl, (vl <= vm)%nat -> good vl) \/ good vm /\ (exists q, d = vm * q)%nat.

Lemma tail_good d : tail_ok d -> (0 < d)%nat -> good (setvl vm d) /\ tail_ok (d - setvl vm d).
Proof.
  intros [H|[H [q ->]]] Hd.
  - split; [apply H, setvl_le|by left].
  - assert (setvl vm (vm * q) = vm) as ->.
    { destruct (decide (q = 1)%nat) as [->|]; [rewrite setvl_small; lia|]. apply setvl_large. destruct q; [lia|nia]. }
    split; [done|]. right. split; [done|]. exists (q - 1)%nat. nia.
Qed.

Lemma tail_strips_spec acc off d : (off + d <= length T)%nat -> tail_ok d -> length acc = vm ->
  wp (tail_strips vm load step acc off d) (fun r => length r = vm /\
    lanesum r = lanesum acc + lanesum (slice off (off + d) T)).
Proof.
  intros Hd Htail Hl. unfold tail_strips. apply wp_bind.
  apply (wp_whileM _ _ _ _ (fun '(r, off', d') => length r = vm /\ (off' + d' = off + d)%nat /\ (off <= off')%nat /\
    tail_ok d' /\ lanesum r = lanesum acc + lanesum (slice off off' T)) (fun '(_, _, d') => d')).
  - split_and!; [done|done|lia|done|]. rewrite slice_nil by lia. simpl. lia.
  - done.
  - intros [[r off'] d'] (Hr & Ho & Hle & Ht & Hs) Hc%Nat.ltb_lt.
    destruct (tail_good d' Ht Hc) as [Hg Ht']. pose proof (setvl_le vm d'). pose proof (setvl_pos vm d' Hvm Hc).
    apply wp_bind. eapply wp_mono; [apply Hload; lia|]. intros v Hv. destruct (Hv r Hr Hg) as [HL HE].
    cbn [wp]. split; [|lia]. split_and!; [done|lia|lia|done|].
    rewrite HE, Hs, (slice_sum off off' (off' + setvl vm d')) by lia. lia.
  - intros [[r off'] d'] (Hr & Ho & Hle & _ & Hs) Hc%Nat.ltb_ge. cbn [wp]. split; [done|]. rewrite Hs.
    by replace off' with (off + d)%nat by lia.
Qed.

Lemma reduce_4_spec d : (d <= length T)%nat -> good vm -> tail_ok d ->
  wp (reduce_4 vm load step Z.add d) (fun r => length r = vm /\ lanesum r = lanesum (take d T)).
Proof.
  intros Hd Hg Ht. unfold reduce_4. apply wp_bind.
  assert (vsplat vm vm nzero = replicate vm 0) as ->.
  { unfold vsplat, ta. rewrite length_replicate, Nat.sub_diag. simpl. by rewrite app_nil_r. }
  eapply wp_mono; [apply unrolled_4_spec; [done|done|apply length_replicate|apply lanesum_replicate]|].
  intros [[[[[a0 a1] a2] a3] off] d'] (H0 & H1 & H2 & H3 & Ho & [q Hq] & Hsum).
  assert (forall a b, length a = vm -> length b = vm ->
    length (vmap2 Z.add vm vm a b) = vm /\ lanesum (vmap2 Z.add vm vm a b) = lanesum a + lanesum b) as Hadd.
  { intros a b Ha Hb. unfold vmap2. rewrite (take_ge b) by lia. by apply ta_add. }
  destruct (Hadd a0 a1 H0 H1) as [L01 S01]. destruct (Hadd a2 a3 H2 H3) as [L23 S23].
  destruct (Hadd _ _ L01 L23) as [L S].
  assert (tail_ok d') as Ht'.
  { destruct Ht as [Ht|[Hg' [p Hp]]]; [by left|right]. split; [done|]. exists (p - 4 * q)%nat. nia. }
  eapply wp_mono; [apply (tail_strips_spec _ off d'); [lia|done|exact L]|].
  intros r [Hr Hs]. split; [done|]. rewrite Hs, S, S01, S23.
  rewrite <- slice_0, (slice_sum 0 off) by lia. rewrite Ho. lia.
Qed.

End loops.

(** ** The terms of each kernel *)

Lemma load2_spec vm x y off vl : (off + vl <= length x)%nat -> (off + vl <= length y)%nat -> (vl <= vm)%nat ->
  wp (load2 vm x y off vl) (fun '(vx, vy) => length vx = vm /\ length vy = vm /\
    take vl vx = slice off (off + vl) x /\ take vl vy = slice off (off + vl) y).
Proof.
  intros Hx Hy Hvl. unfold load2. destruct (vload_ok vm x off vl Hx) as (vx & -> & Ex & Lx).
  destruct (vload_ok vm y off vl Hy) as (vy & -> & Ey & Ly). cbn [bind wp]. auto.
Qed.

Lemma length_terms {B} (f : B -> B -> Z) (x y : list B) i j : (i + j <= length (zip_with f x y))%nat ->
  length (slice i (i + j) (zip_with f x y)) = j /\ (i + j <= length x)%nat /\ (i + j <= length y)%nat.
Proof. rewrite length_zip_with. intros H. rewrite length_slice by (rewrite length_zip_with; lia). lia. Qed.

Definition sq (u v : Z) : Z := (u - v) * (u - v).
Definition dist1 (u v : Z) : Z := Z.abs (u - v).

(** The lanes that a strip adds, from the lanes it loads. *)
Lemma sq_lanes vm vl vx vy : (vl <= length vx)%nat -> (vl <= length vy)%nat ->
  let t := vmap2 Z.sub vm vl vx vy in
  zip_with Z.mul (take vl t) (take vl t) = zip_with sq (take vl vx) (take vl vy).
Proof.
  intros Hx Hy t. subst t. rewrite vmap2_lanes by done. generalize (take vl vx) (take vl vy). intros p.
  induction p as [|u p IH]; intros [|w q]; simpl; try done. by rewrite IH.
Qed.

Lemma dist1_lanes vm vl vx vy : (vl <= length vx)%nat -> (vl <= length vy)%nat -> (vl <= vm)%nat ->
  take vl (vmap Z.abs vm vl (vmap2 Z.sub vm vl vx vy)) = zip_with dist1 (take vl vx) (take vl vy).
Proof.
  intros Hx Hy Hvm. rewrite vmap_lanes, vmap2_lanes by (done || rewrite length_vmap2; lia).
  generalize (take vl vx) (take vl vy). intros p.
  induction p as [|u p IH]; intros [|w q]; simpl; try done. f_equal. apply IH.
Qed.

(** A strip that adds the lanes [t], undisturbed or over the whole register. *)
Lemma accumulate_tu vm vl acc t : length acc = vm -> length t = vl -> (vl <= vm)%nat ->
  let r := tu acc (zip_with Z.add (take vl acc) t) in length r = vm /\ lanesum r = lanesum acc + lanesum t.
Proof. intros Ha Ht Hl. subst vl. rewrite <- Ha in *. by apply tu_add. Qed.

Lemma ip_strips vm x y off vl : (off + vl <= length (zip_with Z.mul x y))%nat -> (vl <= vm)%nat ->
  wp (load2 vm x y off vl) (fun u => forall acc, length acc = vm -> True ->
    let r := (let '(vx, vy) := u in vfmacc_tu vl acc vx vy) in
    length r = vm /\ lanesum r = lanesum acc + lanesum (slice off (off + vl) (zip_with Z.mul x y))).
Proof.
  intros HT Hvl. destruct (length_terms _ _ _ _ _ HT) as (Ht & Hx & Hy).
  eapply wp_mono; [by apply load2_spec|]. intros [vx vy] (Lx & Ly & Ex & Ey) acc Ha _.
  unfold vfmacc_tu. rewrite fmacc_zip, Ex, Ey, <- slice_zip_with. by apply accumulate_tu.
Qed.

Lemma l2_strips vm x y off vl : (off + vl <= length (zip_with sq x y))%nat -> (vl <= vm)%nat ->
  wp (load2 vm x y off vl) (fun u => forall acc, length acc = vm -> True ->
    let r := (let '(vx, vy) := u in let vtmp := vmap2 Z.sub vm vl vx vy in vfmacc_tu vl acc vtmp vtmp) in
    length r = vm /\ lanesum r = lanesum acc + lanesum (slice off (off + vl) (zip_with sq x y))).
Proof.
  intros HT Hvl. destruct (length_terms _ _ _ _ _ HT) as (Ht & Hx & Hy).
  eapply wp_mono; [by apply load2_spec|]. intros [vx vy] (Lx & Ly & Ex & Ey) acc Ha _.
  unfold vfmacc_tu. rewrite fmacc_zip, sq_lanes, Ex, Ey, <- slice_zip_with by lia. by apply accumulate_tu.
Qed.

Lemma norm_strips vm x off vl : (off + vl <= length (zip_with Z.mul x x))%nat -> (vl <= vm)%nat ->
  wp (load1 vm x off vl) (fun vx => forall acc, length acc = vm -> True ->
    length (vfmacc_tu vl acc vx vx) = vm /\
    lanesum (vfmacc_tu vl acc vx vx) = lanesum acc + lanesum (slice off (off + vl) (zip_with Z.mul x x))).
Proof.
  intros HT Hvl. destruct (length_terms _ _ _ _ _ HT) as (Ht & Hx & _). unfold load1.
  destruct (vload_ok vm x off vl Hx) as (vx & -> & Ex & Lx). cbn [wp]. intros acc Ha _.
  unfold vfmacc_tu. rewrite fmacc_zip, Ex, <- slice_zip_with. by apply accumulate_tu.
Qed.

Lemma vmap2_take (f : Z -> Z -> Z) vm vl acc t : vmap2 f vm vl acc t = ta vm (zip_with f (take vl acc) (take vl t)).
Proof. done. Qed.

(** Without [_tu] a strip has to be a whole register. *)
Lemma l1_strips vm x y off vl : (off + vl <= length (zip_with dist1 x y))%nat -> (vl <= vm)%nat ->
  wp (load2 vm x y off vl) (fun u => forall acc, length acc = vm -> vl = vm ->
    let r := (let '(vx, vy) := u in
              let vtmp := vmap Z.abs vm vl (vmap2 Z.sub vm vl vx vy) in vmap2 Z.add vm vl acc vtmp) in
    length r = vm /\ lanesum r = lanesum acc + lanesum (slice off (off + vl) (zip_with dist1 x y))).
Proof.
  intros HT Hvl. destruct (length_terms _ _ _ _ _ HT) as (Ht & Hx & Hy).
  eapply wp_mono; [by apply load2_spec|]. intros [vx vy] (Lx & Ly & Ex & Ey) acc Ha ->.
  cbv zeta. rewrite vmap2_take, dist1_lanes, Ex, Ey, <- slice_zip_with by lia. by apply ta_add.
Qed.

(** ** Whole kernels *)

Lemma vlmax_pos : (0 < vlmax_e32m2)%nat /\ (0 < vlmax_e32m1)%nat.
Proof. pose proof vlen32_pos. unfold vlmax_e32m2, vlmax_e32m1. lia. Qed.

Lemma kernel_value vm (m : M (list Z)) T d :
  wp m (fun r => length r = vm /\ lanesum r = lanesum (take d T)) ->
  (let* r := m in Ret (vfredusum vm r 0)) = Ret (lanesum (take d T)).
Proof.
  intros (r & -> & Hl & Hs)%wp_elim. cbn [bind]. rewrite vfredusum_exact, take_ge, Hs by lia. done.
Qed.

Lemma ip_value x y d : (d <= length x)%nat -> (d <= length y)%nat ->
  fvec_inner_product_rvv x y d = Ret (lanesum (take d (zip_with Z.mul x y))).
Proof.
  intros Hx Hy. apply kernel_value, (reduce_4_spec _ _ _ _ (fun _ => True)).
  - apply vlmax_pos.
  - intros off vl. apply ip_strips.
  - rewrite length_zip_with. lia.
  - done.
  - by left.
Qed.

Lemma l2_value x y d : (d <= length x)%nat -> (d <= length y)%nat ->
  fvec_L2sqr_rvv x y d = Ret (lanesum (take d (zip_with sq x y))).
Proof.
  intros Hx Hy. apply kernel_value, (reduce_4_spec _ _ _ _ (fun _ => True)).
  - apply vlmax_pos.
  - intros off vl. apply l2_strips.
  - rewrite length_zip_with. lia.
  - done.
  - by left.
Qed.

Lemma norm_value x d : (d <= length x)%nat ->
  fvec_norm_L2sqr_rvv x d = Ret (lanesum (take d (zip_with Z.mul x x))).
Proof.
  intros Hx. apply kernel_value, (reduce_4_spec _ _ _ _ (fun _ => True)).
  - apply vlmax_pos.
  - intros off vl. apply norm_strips.
  - rewrite length_zip_with. lia.
  - done.
  - by left.
Qed.

Lemma l1_value x y d q : (d <= length x)%nat -> (d <= length y)%nat -> d = (vlmax_e32m2 * q)%nat ->
  fvec_L1_rvv x y d = Ret (lanesum (take d (zip_with dist1 x y))).
Proof.
  intros Hx Hy Hq. apply kernel_value, (reduce_4_spec _ _ _ _ (fun vl => vl = vlmax_e32m2)).
  - apply vlmax_pos.
  - intros off vl. apply l1_strips.
  - rewrite length_zip_with. lia.
  - done.
  - right. split; [done|]. by exists q.
Qed.

(** ** Four candidates at once *)

Section batch.
Context (vm : nat) (step : nat -> list Z -> list Z -> list Z -> list Z) (f : Z -> Z -> Z) (Hvm : (0 < vm)%nat).
Hypothesis Hstep : forall vl acc vx vy, (vl <= vm)%nat -> length acc = vm -> length vx = vm -> length vy = vm ->
  length (step vl acc vx vy) = vm /\
  lanesum (step vl acc vx vy) = lanesum acc + lanesum (zip_with f (take vl vx) (take vl vy)).
Context (x y0 y1 y2 y3 : list Z) (d : nat).
Hypothesis Hx : (d <= length x)%nat.
Hypothesis Hy : (d <= length y0)%nat /\ (d <= length y1)%nat /\ (d <= length y2)%nat /\ (d <= length y3)%nat.

(** One accumulator after the first [off] positions. *)
Definition accumulated (y acc : list Z) (off : nat) : Prop :=
  length acc = vm /\ lanesum acc = lanesum (slice 0 off (zip_with f x y)).

Definition batch_inv (st : list Z * list Z * list Z * list Z * nat * nat) : Prop :=
  let '(a0, a1, a2, a3, off, d') := st in
  accumulated y0 a0 off /\ accumulated y1 a1 off /\ accumulated y2 a2 off /\ accumulated y3 a3 off /\
  (off + d' = d)%nat.

Lemma accumulated_step y acc off vl vx vy : (vl <= vm)%nat -> accumulated y acc off ->
  length vx = vm -> length vy = vm ->
  take vl vx = slice off (off + vl) x -> take vl vy = slice off (off + vl) y ->
  accumulated y (step vl acc vx vy) (off + vl).
Proof.
  intros Hvl [Ha Hs] Lx Ly Ex Ey. destruct (Hstep vl acc vx vy Hvl Ha Lx Ly) as [HL HE].
  split; [done|]. rewrite HE, Hs, Ex, Ey, <- slice_zip_with, <- lanesum_app, slice_app by lia. done.
Qed.

Lemma batch_strip_spec vl a0 a1 a2 a3 off d' : batch_inv (a0, a1, a2, a3, off, d') ->
  (0 < vl <= vm)%nat -> (vl <= d')%nat ->
  wp (batch_strip vm step x y0 y1 y2 y3 vl (a0, a1, a2, a3, off, d')) (fun st => batch_inv st /\ (st.2 < d')%nat).
Proof.
  intros (H0 & H1 & H2 & H3 & Hd) Hvl Hle. destruct Hy as (Hy0 & Hy1 & Hy2 & Hy3). cbn [batch_strip].
  destruct (vload_ok vm x off vl ltac:(lia)) as (vx & -> & Ex & Lx). cbn [bind].
  destruct (vload_ok vm y0 off vl ltac:(lia)) as (v0 & -> & E0 & L0). cbn [bind].
  destruct (vload_ok vm y1 off vl ltac:(lia)) as (v1 & -> & E1 & L1). cbn [bind].
  destruct (vload_ok vm y2 off vl ltac:(lia)) as (v2 & -> & E2 & L2). cbn [bind].
  destruct (vload_ok vm y3 off vl ltac:(lia)) as (v3 & -> & E3 & L3). cbn [bind wp snd].
  assert (vl <= vm)%nat by lia. split; [|lia].
  unfold batch_inv. refine (conj _ (conj _ (conj _ (conj _ _)))); [apply accumulated_step; auto..|lia].
Qed.

Lemma batch_4_value :
  let s y := lanesum (take d (zip_with f x y)) in
  batch_4_rvv vm step x y0 y1 y2 y3 d = Ret (s y0, s y1, s y2, s y3).
Proof.
  intros s.
  match goal with |- ?m = Ret ?r => assert (wp m (fun q => q = r)) as H; [|by apply wp_elim in H as (? & -> & ->)] end.
  assert (length (vsplat vm vm 0) = vm /\ lanesum (vsplat vm vm 0) = 0) as [Lz Sz].
  { unfold vsplat, ta. rewrite length_replicate, Nat.sub_diag. simpl.
    by rewrite app_nil_r, length_replicate, lanesum_replicate. }
  apply wp_bind, (wp_whileM _ _ _ _ batch_inv (fun st => st.2)); [|done| |].
  { assert (forall y, accumulated y (vsplat vm vm 0) 0) as Hz; [|by repeat (split; [apply Hz|])].
    intros y. split; [done|]. rewrite Sz, slice_nil by lia. done. }
  { intros [[[[[a0 a1] a2] a3] off] d'] Hi Hc%Nat.leb_le. apply (batch_strip_spec _ a0 a1 a2 a3 off d'); [done|lia..]. }
  intros st Hi _. apply wp_bind.
  apply (wp_whileM _ _ _ _ batch_inv (fun st => st.2)); [done| | |].
  { destruct st as [[[[[a0 a1] a2] a3] off] d']. destruct Hi as (_ & _ & _ & _ & Hd). simpl. lia. }
  { intros [[[[[a0 a1] a2] a3] off] d'] Hi' Hc%Nat.ltb_lt. pose proof (setvl_le vm d'). pose proof (setvl_pos vm d' Hvm Hc).
    apply (batch_strip_spec _ a0 a1 a2 a3 off d'); [done|lia..]. }
  intros [[[[[a0 a1] a2] a3] off] d'] (H0 & H1 & H2 & H3 & Hd) Hc%Nat.ltb_ge. cbn [wp].
  replace off with d in * by lia. rewrite !vfredusum_exact.
  destruct H0 as [L0 E0], H1 as [L1 E1], H2 as [L2 E2], H3 as [L3 E3]. rewrite slice_0 in *.
  rewrite (take_ge a0), (take_ge a1), (take_ge a2), (take_ge a3) by lia. by rewrite E0, E1, E2, E3.
Qed.

End batch.

(** What one strip of the batched kernels adds. *)
Lemma ip_batch_step vm vl acc vx vy : (vl <= vm)%nat -> length acc = vm -> length vx = vm -> length vy = vm ->
  length (vfmacc_tu vl acc vx vy) = vm /\
  lanesum (vfmacc_tu vl acc vx vy) = lanesum acc + lanesum (zip_with Z.mul (take vl vx) (take vl vy)).
Proof.
  intros Hvl Ha Lx Ly. unfold vfmacc_tu. rewrite fmacc_zip. apply accumulate_tu; [done| |done].
  rewrite length_zip_with, !length_take. lia.
Qed.

Lemma l2_batch_step vm vl acc vx vy : (vl <= vm)%nat -> length acc = vm -> length vx = vm -> length vy = vm ->
  let r := (let vtmp := vmap2 Z.sub vm vl vx vy in vfmacc_tu vl acc vtmp vtmp) in
  length r = vm /\ lanesum r = lanesum acc + lanesum (zip_with sq (take vl vx) (take vl vy)).
Proof.
  intros Hvl Ha Lx Ly. cbv zeta. rewrite <- (sq_lanes vm) by lia.
  apply ip_batch_step; [done..| |]; by apply length_vmap2.
Qed.

(** ** The reference kernels, as the same sums *)

Lemma ip_ref_value x y d : (d <= length x)%nat -> (d <= length y)%nat ->
  fvec_inner_product_ref x y d = Ret (lanesum (take d (zip_with Z.mul x y))).
Proof. apply for2_lanesum. Qed.

Lemma l2_ref_value x y d : (d <= length x)%nat -> (d <= length y)%nat ->
  fvec_L2sqr_ref x y d = Ret (lanesum (take d (zip_with sq x y))).
Proof. apply for2_lanesum. Qed.

Lemma l1_ref_value x y d : (d <= length x)%nat -> (d <= length y)%nat ->
  fvec_L1_ref x y d = Ret (lanesum (take d (zip_with dist1 x y))).
Proof. apply for2_lanesum. Qed.

(** The reference batch kernels are four single-vector loops. *)
Lemma batch_ref_value (step : Z -> Z -> Z -> Z) (f : Z -> Z -> Z) x y0 y1 y2 y3 d :
  (forall r u w, step r u w = r + f u w) -> (d <= length x)%nat ->
  (d <= length y0)%nat -> (d <= length y1)%nat -> (d <= length y2)%nat -> (d <= length y3)%nat ->
  let s y := lanesum (take d (zip_with f x y)) in
  batch_4 (fun e => e) step x y0 y1 y2 y3 d = Ret (s y0, s y1, s y2, s y3).
Proof.
  intros Hs Hx H0 H1 H2 H3 s.
  match goal with |- ?m = Ret ?r => assert (wp m (fun q => q = r)) as H; [|by apply wp_elim in H as (? & -> & ->)] end.
  apply (wp_for _ (fun i r => let s y := lanesum (take i (zip_with f x y)) in r = (s y0, s y1, s y2, s y3)));
    [done| |done].
  intros i r Hi ->. rewrite !vget_total by lia. cbn [bind wp].
  assert (forall y, (d <= length y)%nat ->
    step (lanesum (take i (zip_with f x y))) (x !!! i) (y !!! i) = lanesum (take (i + 1) (zip_with f x y))) as Hy.
  { intros y Hl. rewrite Hs, Nat.add_1_r, (take_S_r _ _ (f (x !!! i) (y !!! i))).
    - rewrite lanesum_app. simpl. lia.
    - rewrite lookup_zip_with, !list_lookup_lookup_total_lt by lia. done. }
  by rewrite !Hy by lia.
Qed.

End exact.

(** The references that convert their elements, as those on the converted vectors. *)
Lemma vget_load {B C} (f : B -> C) (p : list B) i : vget (f <$> p) i = let* e := vget p i in Ret (f e).
Proof. unfold vget. rewrite list_lookup_fmap. by destruct (p !! i). Qed.

Section loaded.
Context {B : Type} (load : B -> Z).

Lemma norm_ref_ip (x : list B) d : norm_L2sqr load x d = fvec_inner_product_ref (load <$> x) (load <$> x) d.
Proof.
  unfold norm_L2sqr, fvec_inner_product_ref, for2. cbn [of_double Z_double dzero].
  match goal with |- bind ?m _ = _ => transitivity m; [by destruct m|] end.
  apply foldM_ext. intros t i _. rewrite vget_load. by destruct (vget x i).
Qed.

Lemma batch_loaded step (x y0 y1 y2 y3 : list B) d :
  Distances.batch_4 load step x y0 y1 y2 y3 d =
  Distances.batch_4 (fun v => v) step (load <$> x) (load <$> y0) (load <$> y1) (load <$> y2) (load <$> y3) d.
Proof.
  unfold Distances.batch_4. apply foldM_ext. intros [[[? ?] ?] ?] i _. rewrite !vget_load.
  destruct (vget x i), (vget y0 i), (vget y1 i), (vget y2 i), (vget y3 i); done.
Qed.
End loaded.

Lemma half_ip_loaded (load : Z -> Z) x y d : half_inner_product load x y d = fvec_inner_product_ref (load <$> x) (load <$> y) d.
Proof. unfold half_inner_product, fvec_inner_product_ref, for2. apply foldM_ext. intros t i _. rewrite !vget_load. by destruct (vget x i), (vget y i). Qed.

Lemma half_l2_loaded (load : Z -> Z) x y d : half_L2sqr load x y d = fvec_L2sqr_ref (load <$> x) (load <$> y) d.
Proof. unfold half_L2sqr, fvec_L2sqr_ref, for2. apply foldM_ext. intros t i _. rewrite !vget_load. by destruct (vget x i), (vget y i). Qed.

Lemma fvec_norm_ref_ip (x : list Z) d : fvec_norm_L2sqr_ref x d = fvec_inner_product_ref x x d.
Proof. unfold fvec_norm_L2sqr_ref. by rewrite norm_ref_ip, list_fmap_id. Qed.

(** C24: in exact arithmetic every RISC-V kernel that accumulates with [_tu]
    intrinsics terminates and returns what its scalar reference returns,
    whatever the vector length, the strip lengths that [vsetvl] grants, the
    contents of the agnostic lanes and the order of the reductions: inner
    product, squared L2 distance and squared norm, their batches of four, the
    one-against-many kernels and the nearest-row kernel. *)
Theorem rvv_kernels_match_reference `{HA : !Agnostic Z, HR : !RvvImpl, HU : !Usum Z}
    (x y y0 y1 y2 y3 : list Z) (d : nat) :
  (d <= length x)%nat ->
  ((d <= length y)%nat ->
   fvec_inner_product_rvv x y d = fvec_inner_product_ref x y d /\
   fvec_L2sqr_rvv x y d = fvec_L2sqr_ref x y d /\
   fvec_norm_L2sqr_rvv x d = fvec_norm_L2sqr_ref x d) /\
  (Forall (fun p => (d <= length p)%nat) [y0; y1; y2; y3] ->
   fvec_inner_product_batch_4_rvv x y0 y1 y2 y3 d = fvec_inner_product_batch_4_ref x y0 y1 y2 y3 d /\
   fvec_L2sqr_batch_4_rvv x y0 y1 y2 y3 d = fvec_L2sqr_batch_4_ref x y0 y1 y2 y3 d) /\
  (forall dis huge ny, (ny * d <= length y)%nat ->
   fvec_inner_products_ny_rvv dis x y d ny = fvec_inner_products_ny_ref dis x y d ny /\
   fvec_L2sqr_ny_rvv dis x y d ny = fvec_L2sqr_ny_ref dis x y d ny /\
   fvec_L2sqr_ny_nearest_rvv huge dis x y d ny = fvec_L2sqr_ny_nearest_ref huge dis x y d ny).
Proof.
  intros Hx. split_and!.
  - intros Hy. rewrite ip_value, l2_value, norm_value, fvec_norm_ref_ip, !ip_ref_value, l2_ref_value by done. done.
  - rewrite !Forall_cons. intros (H0 & H1 & H2 & H3 & _). split.
    + unfold fvec_inner_product_batch_4_rvv. rewrite (batch_4_value _ _ Z.mul) by (auto using ip_batch_step; apply vlmax_pos).
      symmetry. by apply batch_ref_value.
    + unfold fvec_L2sqr_batch_4_rvv. rewrite (batch_4_value _ _ sq) by (auto using l2_batch_step; apply vlmax_pos).
      symmetry. by apply batch_ref_value.
  - intros dis huge ny Hy.
    assert (forall i, i ∈ seq 0 ny -> (d <= length (drop (i * d) y))%nat) as Hrow.
    { intros i Hi%elem_of_seq. rewrite length_drop. nia. }
    assert (fvec_L2sqr_ny_rvv dis x y d ny = fvec_L2sqr_ny_ref dis x y d ny) as HL.
    { apply foldM_ext. intros t i Hi. by rewrite l2_value, l2_ref_value by auto. }
    split_and!; [|done|].
    + apply foldM_ext. intros t i Hi. by rewrite ip_value, ip_ref_value by auto.
    + unfold fvec_L2sqr_ny_nearest_rvv, fvec_L2sqr_ny_nearest_ref. by rewrite HL.
Qed.

Lemma rvv_kernels_match_reference_witness :
  let _ := rvv128 in let _ := sevens in
  fvec_inner_product_rvv [1; 2; 3] [4; 5; 6] 3 = Ret 32 /\
  fvec_L2sqr_batch_4_rvv [1; 2; 3] [1; 2; 3] [0; 0; 0] [4; 4; 4] [1; 1; 1] 3 = Ret (0, 14, 14, 5) /\
  fvec_L2sqr_ny_nearest_rvv 1000 [0; 0] [1; 2; 3] [4; 5; 6; 1; 1; 1] 3 2 = Ret ([27; 5], 1%nat).
Proof.
  intros H1 H2. split_and!.
  - rewrite (proj1 (proj1 (rvv_kernels_match_reference [1; 2; 3] [4; 5; 6] [] [] [] [] 3 ltac:(simpl; lia))
      ltac:(simpl; lia))). reflexivity.
  - rewrite (proj2 (proj1 (proj2 (rvv_kernels_match_reference [1; 2; 3] [] [1; 2; 3] [0; 0; 0] [4; 4; 4] [1; 1; 1] 3
      ltac:(simpl; lia))) ltac:(repeat constructor))). reflexivity.
  - rewrite (proj2 (proj2 (proj2 (proj2 (rvv_kernels_match_reference [1; 2; 3] [4; 5; 6; 1; 1; 1] [] [] [] [] 3
      ltac:(simpl; lia))) [0; 0] 1000 2%nat ltac:(simpl; lia)))). reflexivity.
Defined.
