(* ===== verification/RvvColumns.v ===== *)
(** * The transposed and the multiply-add vector kernels

    [fvec_L2sqr_ny_transposed_rvv] works on four columns at a time and
    [fvec_madd_and_argmin_rvv] looks for the minimum only in strips that hold
    one; in exact arithmetic both return what the scalar loops return. *)

From S2P Require Import Prelude Float Num Bitset MemoryIO Operands Distances DistanceProps Rvv RvvKernels RvvProps.

#[local] Open Scope Z_scope.

Section columns.
Context `{HA : !Agnostic Z, HR : !RvvImpl, HU : !Usum Z}.
Implicit Types x y acc dis : list Z.

(** ** The transposed kernel *)

Section matrix.
Context (x y : list Z) (d d_offset ny : nat).
Hypothesis Hx : (d <= length x)%nat.
Hypothesis Hy : forall i j, (i < ny)%nat -> (j < d)%nat -> (i + j * d_offset < length y)%nat.

(** The terms of the dot product with column [i]. *)
Definition col (i : nat) : list Z := (fun j => x !!! j * y !!! (i + j * d_offset)%nat) <$> seq 0 d.

Definition dp (i j : nat) : Z := lanesum (take j (col i)).

Lemma lookup_col i j : (j < d)%nat -> col i !! j = Some (x !!! j * y !!! (i + j * d_offset)%nat).
Proof. intros Hj. unfold col. rewrite list_lookup_fmap, lookup_seq_lt by lia. done. Qed.

Lemma length_col i : length (col i) = d.
Proof. unfold col. by rewrite length_fmap, length_seq. Qed.

Lemma dp_S i j : (j < d)%nat -> dp i (j + 1) = dp i j + x !!! j * y !!! (i + j * d_offset)%nat.
Proof.
  intros Hj. unfold dp. rewrite Nat.add_1_r, (take_S_r _ _ _ (lookup_col i j Hj)), lanesum_app. simpl. lia.
Qed.

Lemma gather_spec i j vl : (i < ny)%nat -> (j + vl <= d)%nat ->
  gather y d_offset i j vl = Ret ((fun k => y !!! (i + (j + k) * d_offset)%nat) <$> seq 0 vl).
Proof.
  intros Hi Hj. unfold gather.
  match goal with |- ?m = Ret ?r => assert (wp m (fun q => q = r)) as H; [|by apply wp_elim in H as (? & -> & ->)] end.
  apply (wp_for _ (fun k q => q = (fun k => y !!! (i + (j + k) * d_offset)%nat) <$> seq 0 k)); [done| |done].
  intros k q Hk ->. rewrite vget_total by (apply Hy; lia). cbn [bind wp]. by rewrite Nat.add_1_r, seq_S, fmap_app.
Qed.

Lemma strip_dp_spec vm i j : (i < ny)%nat -> (j + vm <= d)%nat ->
  strip_dp vm x y d_offset i j = Ret (lanesum (slice j (j + vm) (col i))).
Proof.
  intros Hi Hj. unfold strip_dp. destruct (vload_ok vm x j vm ltac:(lia)) as (vx & -> & Ex & Lx). cbn [bind].
  rewrite gather_spec by done. cbn [bind]. set (g := _ <$> seq 0 vm).
  assert (length g = vm) as Lg by (subst g; by rewrite length_fmap, length_seq).
  destruct (vload_ok vm g 0 vm ltac:(lia)) as (vy & -> & Ey & Ly). cbn [bind].
  rewrite vfredusum_exact, vmap2_lanes, Ex, Ey by (rewrite ?Lx, ?Ly; lia). do 2 f_equal.
  rewrite Nat.add_0_l, slice_0, take_ge by lia. apply list_eq. intros k.
  destruct (decide (k < vm)%nat) as [Hk|Hk].
  - rewrite lookup_zip_with, !lookup_slice by lia. rewrite lookup_col by lia.
    rewrite (list_lookup_lookup_total_lt x) by lia. subst g. rewrite list_lookup_fmap, lookup_seq_lt by lia. done.
  - rewrite !lookup_ge_None_2; [done| |].
    + rewrite length_slice by (rewrite length_col; lia). lia.
    + rewrite length_zip_with, Lg. lia.
Qed.

Lemma add_columns_spec batch (term : nat -> M Z) (t s : nat -> Z) :
  (forall b, (b < batch)%nat -> term b = Ret (t b)) ->
  add_columns batch term (s <$> seq 0 batch) = Ret ((fun b => s b + t b) <$> seq 0 batch).
Proof.
  intros Ht. unfold add_columns.
  match goal with |- ?m = Ret ?r => assert (wp m (fun q => q = r)) as H; [|by apply wp_elim in H as (? & -> & ->)] end.
  apply (wp_for _ (fun k q => q = ((fun b => s b + t b) <$> seq 0 k) ++ (s <$> seq k (batch - k)))).
  - by rewrite Nat.sub_0_r.
  - intros k q Hk ->. rewrite Ht by lia. cbn [bind].
    assert (length ((fun b => s b + t b) <$> seq 0 k) = k) as Hl by (by rewrite length_fmap, length_seq).
    replace (batch - k)%nat with (S (batch - (k + 1)))%nat by lia. simpl.
    apply wp_bind, wp_vget; [rewrite length_app, Hl; simpl; lia|]. intros u Hu.
    rewrite lookup_app_r, Hl, Nat.sub_diag in Hu by lia. injection Hu as <-.
    apply wp_vset; [rewrite length_app, Hl; simpl; lia|].
    rewrite <- Hl at 1. rewrite insert_next, Nat.add_1_r, seq_S, fmap_app. done.
  - intros q ->. by rewrite Nat.sub_diag, app_nil_r.
Qed.

Lemma columns_dp_spec vm batch i : (0 < vm)%nat -> (i + batch <= ny)%nat ->
  columns_dp vm batch x y d d_offset i = Ret ((fun b => dp (i + b) d) <$> seq 0 batch).
Proof.
  intros Hvm Hi. unfold columns_dp.
  match goal with |- ?m = Ret ?r => assert (wp m (fun q => q = r)) as H; [|by apply wp_elim in H as (? & -> & ->)] end.
  apply wp_bind, (wp_whileM _ _ _ _ (fun '(acc, j) => (j <= d)%nat /\ acc = (fun b => dp (i + b) j) <$> seq 0 batch)
    (fun '(_, j) => d - j)%nat).
  - split; [lia|]. unfold dp. simpl. clear. generalize 0%nat as k.
    induction batch as [|batch IH]; intros k; simpl; [done|]. by rewrite <- IH.
  - lia.
  - intros [acc j] [Hj ->] Hc%Nat.leb_le.
    rewrite (add_columns_spec _ _ (fun b => lanesum (slice j (j + vm) (col (i + b))))) by
      (intros b Hb; apply strip_dp_spec; lia).
    cbn [bind wp]. split; [|lia]. split; [lia|]. apply list_fmap_ext. intros _ b _. unfold dp.
    rewrite <- lanesum_app. f_equal. rewrite <- !slice_0. by rewrite slice_app by lia.
  - intros [acc j] [Hj ->] _.
    apply (wp_for _ (fun j acc => acc = (fun b => dp (i + b) j) <$> seq 0 batch)); [done| |].
    + intros k acc Hk ->. rewrite (add_columns_spec _ _ (fun b => x !!! k * y !!! (i + b + k * d_offset)%nat)).
      * cbn [wp]. apply list_fmap_ext. intros _ b _. symmetry. apply dp_S. lia.
      * intros b Hb. rewrite !vget_total by (lia || apply Hy; lia). done.
    + intros acc ->. by replace (j + (d - j))%nat with d by lia.
Qed.

(** What both kernels store for row [i]. *)
Section store.
Context (x_sqlen : Z) (y_sqlen dis0 : list Z).
Hypothesis Hl : (ny <= length y_sqlen)%nat.
Hypothesis Hd : (ny <= length dis0)%nat.

Definition by_parts (i : nat) : Z := x_sqlen + y_sqlen !!! i - 2 * dp i d.

Definition filled (i : nat) : list Z := (by_parts <$> seq 0 i) ++ drop i dis0.

Lemma vset_filled i : (i < ny)%nat -> vset (filled i) i (by_parts i) = Ret (filled (i + 1)).
Proof.
  intros Hi. unfold filled.
  match goal with |- ?m = Ret ?r => assert (wp m (fun q => q = r)) as H; [|by apply wp_elim in H as (? & -> & ->)] end.
  assert (length (by_parts <$> seq 0 i) = i) as Hli by (by rewrite length_fmap, length_seq).
  destruct (lookup_lt_is_Some_2 dis0 i ltac:(lia)) as [u Hu]. rewrite (drop_S _ _ _ Hu).
  apply wp_vset; [rewrite length_app, Hli; simpl; lia|].
  rewrite <- Hli at 1. rewrite insert_next, Nat.add_1_r, seq_S, fmap_app. done.
Qed.

Lemma store_columns_spec batch i : (i + batch <= ny)%nat ->
  store_columns x_sqlen y_sqlen ((fun b => dp (i + b) d) <$> seq 0 batch) batch i (filled i) = Ret (filled (i + batch)).
Proof.
  intros Hi. unfold store_columns.
  match goal with |- ?m = Ret ?r => assert (wp m (fun q => q = r)) as H; [|by apply wp_elim in H as (? & -> & ->)] end.
  apply (wp_for _ (fun b q => q = filled (i + b))); [by rewrite Nat.add_0_r| |done].
  intros b q Hb ->. rewrite vget_total by lia. cbn [bind].
  assert (vget ((fun b => dp (i + b) d) <$> seq 0 batch) b = Ret (dp (i + b) d)) as ->
    by (apply vget_Ret; rewrite list_lookup_fmap, lookup_seq_lt by lia; done).
  cbn [bind]. rewrite Nat.add_assoc. change (wp (vset (filled (i + b)) (i + b) (by_parts (i + b))) (fun q => q = filled (i + b + 1))).
  by rewrite vset_filled by lia.
Qed.

End store.

Lemma transposed_ref_value y_sqlen dis0 : (ny <= length y_sqlen)%nat -> (ny <= length dis0)%nat ->
  fvec_L2sqr_ny_transposed_ref dis0 x y y_sqlen d d_offset ny =
  Ret (filled (lanesum (take d (zip_with Z.mul x x))) y_sqlen dis0 ny).
Proof.
  intros Hl Hd. unfold fvec_L2sqr_ny_transposed_ref. rewrite for2_lanesum by done. cbn [bind].
  match goal with |- ?m = Ret ?r => assert (wp m (fun q => q = r)) as H; [|by apply wp_elim in H as (? & -> & ->)] end.
  apply (wp_for _ (fun i q => q = filled (lanesum (take d (zip_with Z.mul x x))) y_sqlen dis0 i)); [done| |done].
  intros i q Hi ->. apply wp_bind, (wp_for _ (fun j r => r = dp i j)); [done| |].
  - intros j r Hj ->. rewrite !vget_total by (lia || apply Hy; lia). cbn [bind wp]. symmetry. apply dp_S. lia.
  - intros r ->. rewrite Nat.add_0_l, vget_total by lia. cbn [bind].
    match goal with |- wp (vset ?q i ?v) _ => change v with (by_parts (lanesum (take d (zip_with Z.mul x x))) y_sqlen i) end.
    by rewrite vset_filled by lia.
Qed.

Lemma transposed_rvv_value y_sqlen dis0 : (ny <= length y_sqlen)%nat -> (ny <= length dis0)%nat ->
  fvec_L2sqr_ny_transposed_rvv dis0 x y y_sqlen d d_offset ny =
  Ret (filled (lanesum (take d (zip_with Z.mul x x))) y_sqlen dis0 ny).
Proof.
  intros Hl Hd. unfold fvec_L2sqr_ny_transposed_rvv. rewrite norm_value by done. cbn [bind].
  set (xl := lanesum _). destruct vlmax_pos as [Hvm _].
  match goal with |- ?m = Ret ?r => assert (wp m (fun q => q = r)) as H; [|by apply wp_elim in H as (? & -> & ->)] end.
  apply wp_bind, (wp_whileM _ _ _ _ (fun '(q, i) => (i <= ny)%nat /\ q = filled xl y_sqlen dis0 i)
    (fun '(_, i) => ny - i)%nat).
  - split; [lia|done].
  - lia.
  - intros [q i] [Hi ->] Hc%Nat.ltb_lt. rewrite columns_dp_spec by lia. cbn [bind].
    rewrite store_columns_spec by lia. cbn [bind wp]. split; [|lia]. split; [lia|done].
  - intros [q i] [Hi ->] _. apply (wp_for _ (fun i q => q = filled xl y_sqlen dis0 i)); [done| |].
    + intros k q Hk ->. rewrite columns_dp_spec by lia. cbn [bind]. by rewrite store_columns_spec by lia.
    + intros q ->. by replace (i + (ny - i))%nat with ny by lia.
Qed.

End matrix.

(** ** Multiply-add *)

Section madd.
Context (vmin0 bf : Z) (a b c0 : list Z) (n : nat).
Hypothesis Ha : (n <= length a)%nat.
Hypothesis Hb : (n <= length b)%nat.
Hypothesis Hc : (n <= length c0)%nat.

Definition sums : list Z := zip_with (fun u w => u + bf * w) a b.

Lemma length_sums : (n <= length sums)%nat.
Proof. unfold sums. rewrite length_zip_with. lia. Qed.

Lemma lookup_sums i : (i < n)%nat -> sums !! i = Some (a !!! i + bf * b !!! i).
Proof. intros Hi. unfold sums. rewrite lookup_zip_with, !list_lookup_lookup_total_lt by lia. done. Qed.

Definition stored (i : nat) : list Z := take i sums ++ drop i c0.

Lemma stored_S i : (i < n)%nat -> vset (stored i) i (a !!! i + bf * b !!! i) = Ret (stored (i + 1)).
Proof.
  intros Hi. pose proof length_sums. unfold stored.
  match goal with |- ?m = Ret ?r => assert (wp m (fun q => q = r)) as H'; [|by apply wp_elim in H' as (? & -> & ->)] end.
  assert (length (take i sums) = i) as Hli by (rewrite length_take; lia).
  destruct (lookup_lt_is_Some_2 c0 i ltac:(lia)) as [u Hu]. rewrite (drop_S _ _ _ Hu).
  apply wp_vset; [rewrite length_app, Hli; simpl; lia|].
  rewrite <- Hli at 1. rewrite insert_next, Nat.add_1_r, (take_S_r _ _ _ (lookup_sums i Hi)). done.
Qed.

Lemma take_vsplat vm vl (u : Z) : (vl <= vm)%nat -> take vl (vsplat vm vl u) = replicate vl u.
Proof. intros H. unfold vsplat. rewrite <- (length_replicate vl u) at 1. apply take_ta. Qed.

Lemma zip_bf (p q : list Z) k : (length p <= k)%nat ->
  zip_with Z.add p (zip_with Z.mul (replicate k bf) q) = zip_with (fun u w => u + bf * w) p q.
Proof.
  revert q k. induction p as [|u p IH]; intros [|w q] [|k] H; simpl in *; try done; [lia|]. f_equal. apply IH. lia.
Qed.

Lemma madd_strip_spec vm vl off : (vl <= vm)%nat -> (off + vl <= n)%nat ->
  exists vc, madd_strip vm vl bf a b (stored off) off = Ret (stored (off + vl), vc) /\
    take vl vc = slice off (off + vl) sums.
Proof.
  intros Hvl Hn. pose proof length_sums as Hls. unfold madd_strip.
  destruct (vload_ok vm a off vl ltac:(lia)) as (va & -> & Ea & La). cbn [bind].
  destruct (vload_ok vm b off vl ltac:(lia)) as (vb & -> & Eb & Lb). cbn [bind].
  set (vc := vfmacc vm vl va _ vb).
  assert (length (slice off (off + vl) a) = vl) as Hsa by (rewrite length_slice by lia; lia).
  assert (fmacc vl va (vsplat vm vl bf) vb = slice off (off + vl) sums) as Hf.
  { rewrite fmacc_zip, take_vsplat, Ea, Eb, zip_bf by lia. unfold sums. by rewrite slice_zip_with. }
  assert (length (slice off (off + vl) sums) = vl) as Hss by (rewrite length_slice by lia; lia).
  assert (take vl vc = slice off (off + vl) sums) as Hvc.
  { subst vc. unfold vfmacc. rewrite Hf. rewrite <- Hss at 1. apply take_ta. }
  exists vc. split; [|done].
  assert (wp (vstore (stored off) off vl vc) (fun q => q = stored (off + vl))) as (q & -> & ->)%wp_elim; [|done].
  assert (length (take off sums) = off) as Hlt by (rewrite length_take; lia).
  apply wp_memcpy.
  - unfold stored. rewrite length_app, Hlt, length_drop. lia.
  - assert (length (take vl vc) = vl) as Hl by (by rewrite Hvc). rewrite length_take in Hl. lia.
  - rewrite Nat.add_0_l, slice_0, Hvc. unfold stored.
    rewrite take_app_le, take_ge by lia. rewrite drop_app_ge by lia. rewrite drop_drop, Hlt.
    replace (off + (off + vl - off))%nat with (off + vl)%nat by lia.
    rewrite app_assoc. f_equal. rewrite <- !slice_0. by rewrite slice_app by lia.
Qed.

Lemma madd_ref_value : fvec_madd_ref n a bf b c0 = Ret (stored n).
Proof.
  match goal with |- ?m = Ret ?r => assert (wp m (fun q => q = r)) as H; [|by apply wp_elim in H as (? & -> & ->)] end.
  apply (wp_for _ (fun i q => q = stored i)); [done| |done].
  intros i q Hi ->. rewrite !vget_total by lia. cbn [bind].
  change (nadd (a !!! i) (nmul bf (b !!! i))) with (a !!! i + bf * b !!! i). by rewrite stored_S by lia.
Qed.

Lemma madd_rvv_value : fvec_madd_rvv n a bf b c0 = Ret (stored n).
Proof.
  match goal with |- ?m = Ret ?r => assert (wp m (fun q => q = r)) as H; [|by apply wp_elim in H as (? & -> & ->)] end.
  unfold fvec_madd_rvv. destruct vlmax_pos as [Hvm _]. set (vm := vlmax_e32m2) in *.
  apply wp_bind, (wp_whileM _ _ _ _ (fun '(q, off, n') => (off + n' = n)%nat /\ q = stored off) (fun '(_, _, n') => n')).
  - done.
  - done.
  - intros [[q off] n'] [Hn ->] Hc'%Nat.leb_le.
    destruct (madd_strip_spec vm vm off ltac:(lia) ltac:(lia)) as (vc & -> & _). cbn [bind wp]. split; [|lia]. split; [lia|done].
  - intros [[q off] n'] [Hn ->] Hc'%Nat.leb_gt. destruct (0 <? n')%nat eqn:E.
    + rewrite setvl_small by lia.
      destruct (madd_strip_spec vm n' off ltac:(lia) ltac:(lia)) as (vc & -> & _). cbn [bind wp]. by rewrite Hn.
    + apply Nat.ltb_ge in E. cbn [wp]. f_equal. lia.
Qed.

(** The scalar search: the first element below the minimum so far. *)
Fixpoint scan_min (base : Z) (l : list Z) (st : Z * Z) : Z * Z :=
  match l with
  | [] => st
  | u :: l => scan_min (base + 1) l (if u <? st.1 then (u, base) else st)
  end.

Lemma scan_min_app base l k st :
  scan_min base (l ++ k) st = scan_min (base + Z.of_nat (length l)) k (scan_min base l st).
Proof.
  revert base st. induction l as [|u l IH]; intros base st; simpl; [by rewrite Z.add_0_r|].
  rewrite IH. f_equal. lia.
Qed.

Lemma scan_min_le base l st : (scan_min base l st).1 <= st.1.
Proof.
  revert base st. induction l as [|u l IH]; intros base st; simpl; [lia|].
  specialize (IH (base + 1) (if u <? st.1 then (u, base) else st)).
  destruct (u <? st.1) eqn:E; simpl in *; lia.
Qed.

(** A strip whose minimum is no improvement can be skipped. *)
Lemma scan_min_skip base l st : (forall u, u ∈ l -> st.1 <= u) -> scan_min base l st = st.
Proof.
  revert base. induction l as [|u l IH]; intros base H; simpl; [done|].
  assert ((u <? st.1) = false) as -> by (apply Z.ltb_ge, H; by left). apply IH. intros w Hw. apply H. by right.
Qed.

Lemma redmin_le (l : list Z) m : foldl (fun m e => if e <? m then e else m) m l <= m /\
  forall u, u ∈ l -> foldl (fun m e => if e <? m then e else m) m l <= u.
Proof.
  revert m. induction l as [|w l IH]; intros m; simpl; [split; [lia|by intros u Hu%not_elem_of_nil]|].
  destruct (IH (if w <? m then w else m)) as [H1 H2].
  assert ((if w <? m then w else m) <= m /\ (if w <? m then w else m) <= w) by (destruct (w <? m) eqn:E; lia).
  split; [lia|]. intros u [->|Hu]%elem_of_cons; [lia|auto].
Qed.

Lemma scan_strip_spec c off vl base st : (off + vl <= length c)%nat ->
  scan_strip c off vl base st = Ret (scan_min base (slice off (off + vl) c) st).
Proof.
  intros Hl. unfold scan_strip.
  match goal with |- ?m = Ret ?r => assert (wp m (fun q => q = r)) as H; [|by apply wp_elim in H as (? & -> & ->)] end.
  apply (wp_for _ (fun i q => q = scan_min base (slice off (off + i) c) st)); [by rewrite slice_nil by lia| |done].
  intros i q Hi ->. destruct (scan_min base (slice off (off + i) c) st) as [m k] eqn:E.
  rewrite vget_total by lia. cbn [bind wp].
  assert (slice off (off + (i + 1)) c = slice off (off + i) c ++ [c !!! (off + i)%nat]) as ->.
  { rewrite <- (slice_app off (off + i)) by lia. f_equal. rewrite Nat.add_assoc.
    unfold slice. replace (off + i + 1 - (off + i))%nat with 1%nat by lia.
    rewrite (drop_S c _ (off + i)) by (apply list_lookup_lookup_total_lt; lia). done. }
  rewrite scan_min_app, E, length_slice by lia. simpl. replace (off + i - off)%nat with i by lia. done.
Qed.

(** The state after the first [off] sums. *)
Definition argmin_at (off : nat) : Z * Z := scan_min 0 (take off sums) (vmin0, -1).

Lemma argmin_strip_spec vm vl off : (vl <= vm)%nat -> (off + vl <= n)%nat ->
  argmin_strip vmin0 vm vl bf a b (stored off) off (Z.of_nat off) (argmin_at off) =
  Ret (stored (off + vl), argmin_at (off + vl)).
Proof.
  intros Hvl Hn. pose proof length_sums as Hls. unfold argmin_strip.
  destruct (madd_strip_spec vm vl off Hvl Hn) as (vc & -> & Evc). cbn [bind].
  assert (length (take off sums) = off) as Hlt by (rewrite length_take; lia).
  assert (argmin_at (off + vl) = scan_min (Z.of_nat off) (slice off (off + vl) sums) (argmin_at off)) as ->.
  { unfold argmin_at. rewrite <- (slice_0 (off + vl)), <- (slice_app 0 off), slice_0 by lia.
    by rewrite scan_min_app, Hlt, Z.add_0_l. }
  assert (slice off (off + vl) (stored (off + vl)) = slice off (off + vl) sums) as Hsl.
  { unfold stored, slice. rewrite drop_app_le by (rewrite length_take; lia).
    assert (off + vl - off = vl)%nat as -> by lia. rewrite take_app_le by (rewrite length_drop, length_take; lia).
    rewrite <- !take_drop_commute. by rewrite take_take, Nat.min_id. }
  assert (off + vl <= length (stored (off + vl)))%nat as Hlen.
  { unfold stored. rewrite length_app, length_take, length_drop. lia. }
  unfold vfredmin. rewrite Evc. change (@nltb Z _) with Z.ltb.
  destruct (_ <? (argmin_at off).1) eqn:E.
  - by rewrite scan_strip_spec, Hsl.
  - rewrite scan_min_skip; [done|]. intros u Hu. apply Z.ltb_ge in E.
    pose proof (proj2 (redmin_le (slice off (off + vl) sums) vmin0) u Hu). lia.
Qed.

Lemma argmin_ref_value : fvec_madd_and_argmin_ref vmin0 n a bf b c0 = Ret (stored n, (argmin_at n).2).
Proof.
  match goal with |- ?m = Ret ?r => assert (wp m (fun q => q = r)) as H; [|by apply wp_elim in H as (? & -> & ->)] end.
  apply wp_bind, (wp_for _ (fun i '(q, m, k) => q = stored i /\ (m, k) = argmin_at i)); [done| |].
  - intros i [[q m] k] Hi [-> Hm]. rewrite !vget_total by lia. cbn [bind].
    change (nadd (a !!! i) (nmul bf (b !!! i))) with (a !!! i + bf * b !!! i). rewrite stored_S by lia. cbn [bind wp].
    assert (argmin_at (i + 1) = if a !!! i + bf * b !!! i <? m then (a !!! i + bf * b !!! i, Z.of_nat i) else (m, k)) as ->.
    { unfold argmin_at in *. rewrite Nat.add_1_r, (take_S_r _ _ _ (lookup_sums i ltac:(lia))), scan_min_app, <- Hm.
      rewrite length_take. pose proof length_sums. replace (i `min` length sums)%nat with i by lia. done. }
    change (@nltb Z _) with Z.ltb. destruct (_ <? m); done.
  - intros [[q m] k] [-> Hm]. rewrite Nat.add_0_l in *. cbn [wp]. by rewrite <- Hm.
Qed.

Lemma argmin_rvv_value : fvec_madd_and_argmin_rvv vmin0 n a bf b c0 = Ret (stored n, (argmin_at n).2).
Proof.
  match goal with |- ?m = Ret ?r => assert (wp m (fun q => q = r)) as H; [|by apply wp_elim in H as (? & -> & ->)] end.
  unfold fvec_madd_and_argmin_rvv. destruct vlmax_pos as [Hvm _]. set (vm := vlmax_e32m2) in *.
  apply wp_bind, (wp_whileM _ _ _ _ (fun '(q, st, off, n') => (off + n' = n)%nat /\ q = stored off /\ st = argmin_at off)
    (fun '(_, _, _, n') => n')).
  - done.
  - done.
  - intros [[[q st] off] n'] (Hn & -> & ->) Hc'%Nat.leb_le. rewrite argmin_strip_spec by lia. cbn [bind wp].
    split; [|lia]. split; [lia|done].
  - intros [[[q st] off] n'] (Hn & -> & ->) Hc'%Nat.leb_gt. destruct (0 <? n')%nat eqn:E.
    + rewrite setvl_small by lia. rewrite argmin_strip_spec by lia. cbn [bind wp]. by rewrite Hn.
    + apply Nat.ltb_ge in E. replace off with n by lia. done.
Qed.

End madd.
End columns.

(** in exact arithmetic the RISC-V kernel over a transposed matrix, which
    takes four columns at a time and whole strips of each, and the nearest-row
    search on it return what the scalar kernels return; so do the multiply-add
    kernel and its variant with the position of the first minimum, which looks
    at single elements only in a strip whose minimum is below the one so far. *)
Theorem rvv_columns_and_argmin_match_reference `{HA : !Agnostic Z, HR : !RvvImpl, HU : !Usum Z} :
  (forall x y y_sqlen dis huge (d d_offset ny : nat),
     (d <= length x)%nat -> (ny <= length y_sqlen)%nat -> (ny <= length dis)%nat ->
     (forall i j, (i < ny)%nat -> (j < d)%nat -> (i + j * d_offset < length y)%nat) ->
     fvec_L2sqr_ny_transposed_rvv dis x y y_sqlen d d_offset ny =
     fvec_L2sqr_ny_transposed_ref dis x y y_sqlen d d_offset ny /\
     fvec_L2sqr_ny_nearest_y_transposed_rvv huge dis x y y_sqlen d d_offset ny =
     fvec_L2sqr_ny_nearest_y_transposed_ref huge dis x y y_sqlen d d_offset ny) /\
  (forall vmin0 bf a b c (n : nat),
     (n <= length a)%nat -> (n <= length b)%nat -> (n <= length c)%nat ->
     fvec_madd_rvv n a bf b c = fvec_madd_ref n a bf b c /\
     fvec_madd_and_argmin_rvv vmin0 n a bf b c = fvec_madd_and_argmin_ref vmin0 n a bf b c).
Proof.
  split.
  - intros x y y_sqlen dis huge d d_offset ny Hx Hl Hd Hy.
    unfold fvec_L2sqr_ny_nearest_y_transposed_rvv, fvec_L2sqr_ny_nearest_y_transposed_ref.
    by rewrite transposed_rvv_value, transposed_ref_value by done.
  - intros vmin0 bf a b c n Ha Hb Hc.
    by rewrite madd_rvv_value, madd_ref_value, argmin_rvv_value, argmin_ref_value by done.
Qed.

Lemma rvv_columns_and_argmin_match_reference_witness :
  let _ := rvv128 in let _ := sevens in
  fvec_L2sqr_ny_transposed_rvv [0; 0; 0] [1; 2] [5; 2; 1; 5; 2; 3] [50; 8; 10] 2 3 3 = Ret [25; 1; 1] /\
  fvec_madd_and_argmin_rvv 100 3 [5; 6; 7] 2 [3; -4; 1] [0; 0; 0] = Ret ([11; -2; 9], 1).
Proof.
  intros H1 H2. split.
  - rewrite (proj1 (proj1 rvv_columns_and_argmin_match_reference [1; 2] [5; 2; 1; 5; 2; 3] [50; 8; 10] [0; 0; 0] 0
      2%nat 3%nat 3%nat ltac:(simpl; lia) ltac:(simpl; lia) ltac:(simpl; lia) ltac:(simpl; lia))). reflexivity.
  - rewrite (proj2 (proj2 rvv_columns_and_argmin_match_reference 100 2 [5; 6; 7] [3; -4; 1] [0; 0; 0] 3%nat
      ltac:(simpl; lia) ltac:(simpl; lia) ltac:(simpl; lia))). reflexivity.
Defined.

(** * The 8-bit vector kernels

    Each strip is reduced in wrapping 32-bit arithmetic and added to a scalar
    [int32_t], whose overflow is undefined; within the dimensions for which the
    scalar kernels are exact neither happens. *)

Lemma zsum_lanesum f x y d : (d <= length x)%nat -> (d <= length y)%nat ->
  zsum f x y d = lanesum (take d (zip_with f x y)).
Proof.
  intros Hx Hy. induction d as [|d IH]; [done|]. rewrite zsum_S, IH by lia.
  rewrite (take_S_r _ _ (f (x !!! d) (y !!! d))); [rewrite lanesum_app; simpl; lia|].
  rewrite lookup_zip_with, !list_lookup_lookup_total_lt by lia. done.
Qed.

Lemma wrap32_small z : - 2 ^ 31 <= z < 2 ^ 31 -> wrap32 z = z.
Proof. intros H. unfold wrap32. rewrite Z.mod_small; lia. Qed.

Lemma lanesum_bound b (l : list Z) : Forall (fun v => Z.abs v <= b) l -> Z.abs (lanesum l) <= Z.of_nat (length l) * b.
Proof. induction 1 as [|v l Hv _ IH]; simpl; [lia|]. nia. Qed.

Section int8.
Context `{HR : !RvvImpl}.
Context (f : Z -> Z -> Z) (b : Z) (d : nat).
Hypothesis Hb : 0 < b.
Hypothesis Hd : Z.of_nat d * b < 2 ^ 31.
Hypothesis Hf : forall u v, is_int8 u -> is_int8 v -> Z.abs (f u v) <= b.
Implicit Types x y : list Z.

(** Operands that a kernel of dimension [d] can be called with. *)
Definition operand (p : list Z) : Prop := Forall is_int8 p /\ (d <= length p)%nat.

Lemma terms_bound x y i j : operand x -> operand y ->
  Z.abs (lanesum (slice i j (zip_with f x y))) <= Z.of_nat (length (slice i j (zip_with f x y))) * b.
Proof.
  intros [Hx _] [Hy _]. apply lanesum_bound. apply Forall_lookup_2. intros k v Hk. unfold slice in Hk.
  apply lookup_take_Some in Hk as [Hk _]. rewrite lookup_drop, lookup_zip_with in Hk.
  apply bind_Some in Hk as (u & Hu & Hk). apply fmap_Some in Hk as (w & Hw & ->).
  apply Hf; [by eapply Forall_lookup_1 in Hx|by eapply Forall_lookup_1 in Hy].
Qed.

Lemma length_strip x y i vl : operand x -> operand y -> (i + vl <= d)%nat ->
  length (slice i (i + vl) (zip_with f x y)) = vl.
Proof. intros [_ Hx] [_ Hy] H. rewrite length_slice; [lia|]. rewrite length_zip_with. lia. Qed.

(** One strip: the wrapping reduction is exact, and so is the addition. *)
Lemma strip_sum_spec x y i vl : operand x -> operand y -> (i + vl <= d)%nat ->
  strip_sum f x y i vl = Ret (lanesum (slice i (i + vl) (zip_with f x y))).
Proof.
  intros Hx Hy H. pose proof (terms_bound x y i (i + vl) Hx Hy) as Hs. rewrite length_strip in Hs by done.
  unfold strip_sum. destruct Hx as [_ Hx], Hy as [_ Hy]. rewrite decide_True by lia.
  rewrite <- slice_zip_with. f_equal. apply wrap32_small. fold (lanesum (slice i (i + vl) (zip_with f x y))). nia.
Qed.

Lemma acc_add x y i vl : operand x -> operand y -> (i + vl <= d)%nat ->
  i32 (lanesum (take i (zip_with f x y)) + lanesum (slice i (i + vl) (zip_with f x y))) =
  Ret (lanesum (take (i + vl) (zip_with f x y))).
Proof.
  intros Hx Hy H. rewrite <- lanesum_app. rewrite <- !slice_0, slice_app by lia. apply i32_ok.
  pose proof (terms_bound x y 0 (i + vl) Hx Hy) as Hs.
  pose proof (length_strip x y 0 (i + vl) Hx Hy ltac:(lia)) as Hl. rewrite Nat.add_0_l in Hl. rewrite Hl in Hs. nia.
Qed.

Lemma int8_strips_exact x y : operand x -> operand y -> int8_strips f x y d = Ret (zsum f x y d).
Proof.
  intros Hx Hy.
  match goal with |- ?m = Ret ?r => assert (wp m (fun q => q = r)) as H; [|by apply wp_elim in H as (? & -> & ->)] end.
  rewrite zsum_lanesum by (apply Hx || apply Hy).
  apply wp_bind, (wp_whileM _ _ _ _ (fun '(res, i) => (i <= d)%nat /\ res = lanesum (take i (zip_with f x y)))
    (fun '(_, i) => d - i)%nat).
  - split; [lia|done].
  - lia.
  - intros [res i] [Hi ->] Hc%Nat.ltb_lt. pose proof (setvl_le vlmax_e8m1 (d - i)).
    assert (0 < setvl vlmax_e8m1 (d - i))%nat by (apply setvl_pos; [pose proof vlen32_pos; unfold vlmax_e8m1; lia|lia]).
    cbv beta iota zeta. rewrite strip_sum_spec by (done || lia). cbn [bind]. rewrite acc_add by (done || lia). cbn [bind wp].
    split; [|lia]. split; [lia|done].
  - intros [res i] [Hi ->] Hc%Nat.ltb_ge. cbn [wp]. by replace i with d by lia.
Qed.

Lemma int8_batch_4_exact x y0 y1 y2 y3 : operand x -> operand y0 -> operand y1 -> operand y2 -> operand y3 ->
  let s y := F32.of_Z (zsum f x y d) in int8_batch_4_rvv f x y0 y1 y2 y3 d = Ret (s y0, s y1, s y2, s y3).
Proof.
  intros Hx H0 H1 H2 H3 s.
  match goal with |- ?m = Ret ?r => assert (wp m (fun q => q = r)) as H; [|by apply wp_elim in H as (? & -> & ->)] end.
  subst s. cbn beta. rewrite !zsum_lanesum by (apply Hx || apply H0 || apply H1 || apply H2 || apply H3).
  set (t i y := lanesum (take i (zip_with f x y))).
  apply wp_bind, (wp_whileM _ _ _ _ (fun '(a0, a1, a2, a3, i) => (i <= d)%nat /\
    (a0, a1, a2, a3) = (t i y0, t i y1, t i y2, t i y3)) (fun '(_, _, _, _, i) => d - i)%nat).
  - split; [lia|done].
  - lia.
  - intros [[[[a0 a1] a2] a3] i] [Hi [= -> -> -> ->]] Hc%Nat.ltb_lt. pose proof (setvl_le vlmax_e8m1 (d - i)).
    assert (0 < setvl vlmax_e8m1 (d - i))%nat by (apply setvl_pos; [pose proof vlen32_pos; unfold vlmax_e8m1; lia|lia]).
    cbv beta iota zeta. rewrite !strip_sum_spec by (done || lia). cbn [bind].
    subst t. cbn beta. rewrite !acc_add by (done || lia). cbn [bind wp]. split; [|lia]. split; [lia|done].
  - intros [[[[a0 a1] a2] a3] i] [Hi [= -> -> -> ->]] Hc%Nat.ltb_ge. cbn [wp]. subst t. cbn beta.
    by replace i with d by lia.
Qed.

End int8.

(** The reference batch kernels, from the single ones. *)
Lemma int8_batch_ref (step : Z -> Z -> Z -> M Z) (f : Z -> Z -> Z) x y0 y1 y2 y3 d :
  (forall y, y ∈ [y0; y1; y2; y3] -> int8_loop step x y d = Ret (zsum f x y d)) ->
  let s y := F32.of_Z (zsum f x y d) in int8_batch_4 step x y0 y1 y2 y3 d = Ret (s y0, s y1, s y2, s y3).
Proof.
  intros H s. unfold int8_batch_4. change (foldM _ (0, 0, 0, 0) (seq 0 d)) with (loop4 step 0 x y0 y1 y2 y3 d).
  assert (loop4 step 0 x y0 y1 y2 y3 d = Ret (zsum f x y0 d, zsum f x y1 d, zsum f x y2 d, zsum f x y3 d)) as ->.
  { apply loop4_single. split_and!; apply H; set_solver. }
  done.
Qed.

Lemma ip_lane_bound u v : is_int8 u -> is_int8 v -> Z.abs (ip_lane u v) <= 16384.
Proof. unfold is_int8, ip_lane. nia. Qed.

Lemma l2_lane_bound u v : is_int8 u -> is_int8 v -> Z.abs (l2_lane u v) <= 65025.
Proof. unfold is_int8, l2_lane. nia. Qed.

(** on [int8_t] vectors the RISC-V kernels return, for every register
    length and every choice of strips, exactly what the scalar kernels return:
    inner products and squared norms up to dimension 131071, squared distances
    up to dimension 33025, and the batches of four. *)
Theorem rvv_int8_matches_reference `{HR : !RvvImpl} (x y y0 y1 y2 y3 : list Z) (d : nat) :
  Forall (operand d) [x; y; y0; y1; y2; y3] ->
  (Z.of_nat d <= 131071 ->
     ivec_inner_product_rvv x y d = ivec_inner_product_ref x y d /\
     int8_vec_inner_product_rvv x y d = int8_vec_inner_product_ref x y d /\
     int8_vec_norm_L2sqr_rvv x d = int8_vec_norm_L2sqr_ref x d /\
     int8_vec_inner_product_batch_4_rvv x y0 y1 y2 y3 d = int8_vec_inner_product_batch_4_ref x y0 y1 y2 y3 d) /\
  (Z.of_nat d <= 33025 ->
     ivec_L2sqr_rvv x y d = ivec_L2sqr_ref x y d /\
     int8_vec_L2sqr_rvv x y d = int8_vec_L2sqr_ref x y d /\
     int8_vec_L2sqr_batch_4_rvv x y0 y1 y2 y3 d = int8_vec_L2sqr_batch_4_ref x y0 y1 y2 y3 d).
Proof.
  rewrite !Forall_cons. intros (Hx & Hy & H0 & H1 & H2 & H3 & _). split; intros Hd.
  - assert (forall p q, operand d p -> operand d q -> int8_strips ip_lane p q d = Ret (zsum Z.mul p q d) /\
      int8_loop int8_ip p q d = Ret (zsum Z.mul p q d)) as Hs.
    { intros p q Hp Hq. split; [apply (int8_strips_exact _ 16384); auto using ip_lane_bound; lia|].
      apply int8_ip_loop; (apply Hp || apply Hq || done). }
    unfold ivec_inner_product_rvv, ivec_inner_product_ref, int8_vec_inner_product_rvv, int8_vec_inner_product_ref,
      int8_vec_norm_L2sqr_rvv, int8_vec_norm_L2sqr_ref, int8_vec_inner_product_batch_4_rvv.
    destruct (Hs x y Hx Hy) as [-> ->], (Hs x x Hx Hx) as [-> ->]. split_and!; [done..|].
    rewrite (int8_batch_4_exact _ 16384) by (auto using ip_lane_bound; lia). symmetry. apply int8_batch_ref.
    intros q Hq. apply Hs; [done|]. set_solver.
  - assert (forall p q, operand d p -> operand d q -> int8_strips l2_lane p q d = Ret (zsum l2_lane p q d) /\
      int8_loop int8_l2 p q d = Ret (zsum l2_lane p q d)) as Hs.
    { intros p q Hp Hq. split; [apply (int8_strips_exact _ 65025); auto using l2_lane_bound; lia|].
      apply int8_l2_loop; (apply Hp || apply Hq || done). }
    unfold ivec_L2sqr_rvv, ivec_L2sqr_ref, int8_vec_L2sqr_rvv, int8_vec_L2sqr_ref, int8_vec_L2sqr_batch_4_rvv.
    destruct (Hs x y Hx Hy) as [-> ->]. split_and!; [done..|].
    rewrite (int8_batch_4_exact _ 65025) by (auto using l2_lane_bound; lia). symmetry. apply int8_batch_ref.
    intros q Hq. apply Hs; [done|]. set_solver.
Qed.

Lemma rvv_int8_matches_reference_witness :
  let _ := rvv128 in
  ivec_inner_product_rvv [-128; 3; 7] [-128; -1; 2] 3 = Ret 16395 /\
  ivec_L2sqr_rvv [-128; 3; 7] [127; -1; 2] 3 = Ret 65066.
Proof.
  intros H. split.
  - rewrite (proj1 (proj1 (rvv_int8_matches_reference [-128; 3; 7] [-128; -1; 2] [0; 0; 0] [0; 0; 0] [0; 0; 0] [0; 0; 0] 3
      ltac:(repeat (constructor || split || lia))) ltac:(lia))). reflexivity.
  - rewrite (proj1 (proj2 (rvv_int8_matches_reference [-128; 3; 7] [127; -1; 2] [0; 0; 0] [0; 0; 0] [0; 0; 0] [0; 0; 0] 3
      ltac:(repeat (constructor || split || lia))) ltac:(lia))). reflexivity.
Defined.
