(* ===== verification/RvvTail.v ===== *)
(** * Kernels that accumulate without [_tu]

    [fvec_L1_rvv], [fvec_Linf_rvv] and the 16-bit kernels add a strip to the
    accumulator with intrinsics whose tail is agnostic: after a strip that is
    shorter than the register, the lanes beyond it are unspecified, although
    they hold partial sums.  The kernels are right when no such strip is
    followed by a use of those lanes, and an implementation that writes ones
    into agnostic lanes, as the specification permits, makes them wrong
    otherwise. *)

From S2P Require Import Prelude Float Num Operands MemoryIO Bitset Distances DistanceProps Rvv RvvKernels RvvProps.

#[local] Open Scope Z_scope.

Lemma whileM_cond_ext {S} fuel (c c' : S -> bool) (body : S -> M S) s : (forall t, c t = c' t) ->
  whileM fuel c body s = whileM fuel c' body s.
Proof.
  intros H. revert s. induction fuel as [|fuel IH]; intros s; simpl; rewrite H; [done|].
  destruct (c' s); [|done]. destruct (body s); simpl; auto.
Qed.

Lemma whileM_once {S} fuel (cond : S -> bool) (body : S -> M S) s t :
  (0 < fuel)%nat -> cond s = true -> body s = Ret t -> cond t = false -> whileM fuel cond body s = Ret t.
Proof.
  intros Hf Hs Hb Ht. destruct fuel as [|fuel]; [lia|]. simpl. rewrite Hs, Hb. simpl.
  destruct fuel; simpl; by rewrite Ht.
Qed.

(** ** When they are right *)

Section half.
Context `{HA : !Agnostic Z, HR : !RvvImpl, HU : !Usum Z}.
Context (vm : nat) (widen : Z -> Z) (Hvm : (0 < vm)%nat).
Implicit Types x y acc v t T : list Z.

Lemma half_strips_tail {V} (load : nat -> nat -> M V) step d :
  half_strips vm load step d = tail_strips vm load step (vsplat vm vm 0) 0 d.
Proof.
  unfold half_strips, tail_strips. f_equal. apply whileM_cond_ext. intros [[acc off] d'].
  apply eq_true_iff_eq. rewrite !Nat.ltb_lt. pose proof (setvl_le vm d'). pose proof (setvl_pos vm d' Hvm). lia.
Qed.

(** A step that adds the terms [T] of a strip to the first lanes. *)
Section value.
Context {V : Type} (load : nat -> nat -> M V) (step : nat -> list Z -> V -> list Z) (T : list Z).
Hypothesis Hload : forall off vl, (off + vl <= length T)%nat -> (vl <= vm)%nat ->
  wp (load off vl) (fun u => forall acc, length acc = vm ->
    step vl acc u = ta vm (zip_with Z.add (take vl acc) (slice off (off + vl) T))).

Lemma zip_zero t : zip_with Z.add (replicate (length t) 0) t = t.
Proof. induction t as [|u t IH]; simpl; [done|]. by rewrite IH. Qed.

Lemma half_value d : (d <= length T)%nat -> (d <= vm)%nat \/ (exists q, d = vm * q)%nat ->
  (let* acc := half_strips vm load step d in Ret (vfredusum (setvl vm d) acc 0)) = Ret (lanesum (take d T)).
Proof.
  intros Hd Hcase. rewrite half_strips_tail.
  assert (vsplat vm vm 0 = replicate vm 0) as ->.
  { unfold vsplat, ta. rewrite length_replicate, Nat.sub_diag. simpl. by rewrite app_nil_r. }
  destruct (decide (d = 0)%nat) as [->|Hd0].
  { unfold tail_strips. simpl. rewrite vfredusum_exact, setvl_small by lia. done. }
  destruct (decide (d <= vm)%nat) as [Hle|Hgt].
  - assert (tail_strips vm load step (replicate vm 0) 0 d = Ret (ta vm (take d T))) as ->.
    { unfold tail_strips. rewrite (whileM_once _ _ _ _ (ta vm (take d T), d, 0%nat)); [done|lia| | |done].
      - apply Nat.ltb_lt. lia.
      - rewrite setvl_small by done. destruct (wp_elim _ _ (Hload 0 d ltac:(lia) Hle)) as (u & -> & Hu). cbn [bind].
        rewrite Hu by apply length_replicate. change (0 + d)%nat with d. rewrite Nat.sub_diag, slice_0, take_replicate, Nat.min_l by lia.
        pose proof (zip_zero (take d T)) as Hz. rewrite length_take, Nat.min_l in Hz by lia. by rewrite Hz. }
    cbn [bind]. rewrite vfredusum_exact, setvl_small by done. do 2 f_equal.
    assert (length (take d T) = d) as Hl by (rewrite length_take; lia). rewrite <- Hl at 1. apply take_ta.
  - destruct Hcase as [|[q Hq]]; [lia|].
    assert (setvl vm d = vm) as -> by (apply setvl_large; destruct q as [|[|q]]; nia).
    apply kernel_value. rewrite <- (slice_0 d).
    eapply wp_mono; [apply (tail_strips_spec vm load step T (fun vl => vl = vm))|].
    + done.
    + intros off vl Hoff Hvl. eapply wp_mono; [by apply Hload|]. intros u Hu acc Ha ->. rewrite Hu by done.
      apply ta_add; [done|]. rewrite length_slice by done. lia.
    + done.
    + right. split; [done|]. by exists q.
    + apply length_replicate.
    + intros r [Hr Hs]. split; [done|]. rewrite Hs, lanesum_replicate. done.
Qed.

End value.

(** The loads and steps of the kernels. *)
Lemma vload16_ok p off vl : (off + vl <= length p)%nat -> (vl <= vm)%nat ->
  exists v, vload16 vm widen p off vl = Ret v /\ take vl v = slice off (off + vl) (widen <$> p) /\ length v = vm.
Proof.
  intros H Hvl. unfold vload16. rewrite decide_True by done. eexists. split; [done|].
  assert (widen <$> slice off (off + vl) p = slice off (off + vl) (widen <$> p)) as ->.
  { unfold slice. by rewrite fmap_take, fmap_drop. }
  assert (length (slice off (off + vl) (widen <$> p)) = vl) as Hl
    by (rewrite length_slice by (rewrite length_fmap; lia); lia).
  split; [rewrite <- Hl at 1; apply take_ta|]. apply length_ta. lia.
Qed.

Lemma half_ip_value x y d : (d <= length x)%nat -> (d <= length y)%nat ->
  (d <= vm)%nat \/ (exists q, d = vm * q)%nat ->
  half_ip_rvv vm widen x y d = Ret (lanesum (take d (zip_with Z.mul (widen <$> x) (widen <$> y)))).
Proof.
  intros Hx Hy Hcase. unfold half_ip_rvv. apply half_value; [|by rewrite length_zip_with, !length_fmap; lia|done].
  intros off vl HT Hvl. rewrite length_zip_with, !length_fmap in HT. unfold half_load2.
  destruct (vload16_ok x off vl ltac:(lia) Hvl) as (vx & -> & Ex & _). cbn [bind].
  destruct (vload16_ok y off vl ltac:(lia) Hvl) as (vy & -> & Ey & _). cbn [bind wp]. intros acc Ha.
  unfold vfmacc. by rewrite fmacc_zip, Ex, Ey, <- slice_zip_with.
Qed.

Lemma half_L2sqr_value x y d : (d <= length x)%nat -> (d <= length y)%nat ->
  (d <= vm)%nat \/ (exists q, d = vm * q)%nat ->
  half_L2sqr_rvv vm widen x y d = Ret (lanesum (take d (zip_with sq (widen <$> x) (widen <$> y)))).
Proof.
  intros Hx Hy Hcase. unfold half_L2sqr_rvv. apply half_value; [|by rewrite length_zip_with, !length_fmap; lia|done].
  intros off vl HT Hvl. rewrite length_zip_with, !length_fmap in HT. unfold half_load2.
  destruct (vload16_ok x off vl ltac:(lia) Hvl) as (vx & -> & Ex & Lx). cbn [bind].
  destruct (vload16_ok y off vl ltac:(lia) Hvl) as (vy & -> & Ey & Ly). cbn [bind wp]. intros acc Ha.
  unfold vfmacc. rewrite fmacc_zip. cbv zeta. by rewrite sq_lanes, Ex, Ey, <- slice_zip_with by lia.
Qed.

Lemma half_norm_value x d : (d <= length x)%nat -> (d <= vm)%nat \/ (exists q, d = vm * q)%nat ->
  half_norm_rvv vm widen x d = Ret (lanesum (take d (zip_with Z.mul (widen <$> x) (widen <$> x)))).
Proof.
  intros Hx Hcase. unfold half_norm_rvv. apply half_value; [|by rewrite length_zip_with, !length_fmap; lia|done].
  intros off vl HT Hvl. rewrite length_zip_with, !length_fmap in HT.
  destruct (vload16_ok x off vl ltac:(lia) Hvl) as (vx & -> & Ex & _). cbn [wp]. intros acc Ha.
  unfold vfmacc. by rewrite fmacc_zip, Ex, <- slice_zip_with.
Qed.

End half.

(** ** When they are wrong *)

(** All ones is a NaN. *)
Definition ones_agnostic : Agnostic spec_float := {| agn := fun _ => F32.of_bits 4294967295 |}.

(** the kernels that accumulate with tail-agnostic intrinsics.  In exact
    arithmetic [fvec_L1_rvv] is right when the register length divides the
    dimension, and the kernels on 16-bit elements when it divides the dimension
    or is at least the dimension.  Otherwise they need not be: with 128-bit
    registers and ones in agnostic lanes the L1 distance of two one-dimensional
    vectors and the inner products and distances of 33-dimensional zero vectors
    are NaN, and the L-infinity kernel loses the maximum, where the scalar
    kernels return the distance. *)
Theorem rvv_agnostic_tails :
  (forall (HA : Agnostic Z) (HR : RvvImpl) (HU : Usum Z) (x y : list Z) (d q : nat),
     (d <= length x)%nat -> (d <= length y)%nat -> d = (vlmax_e32m2 * q)%nat ->
     fvec_L1_rvv x y d = fvec_L1_ref x y d) /\
  (forall (HA : Agnostic Z) (HR : RvvImpl) (HU : Usum Z) (vm : nat) (widen : Z -> Z) (x y : list Z) (d : nat),
     (0 < vm)%nat -> (d <= length x)%nat -> (d <= length y)%nat -> (d <= vm)%nat \/ (exists q, d = vm * q)%nat ->
     half_ip_rvv vm widen x y d = fvec_inner_product_ref (widen <$> x) (widen <$> y) d /\
     half_L2sqr_rvv vm widen x y d = fvec_L2sqr_ref (widen <$> x) (widen <$> y) d /\
     half_norm_rvv vm widen x d = fvec_inner_product_ref (widen <$> x) (widen <$> x) d) /\
  (let _ := rvv128 in let _ := ones_agnostic in
   let zeros := replicate 33 0 in
   (fvec_L1_rvv [F32.one] [F32.zero] 1 = Ret S754_nan /\ fvec_L1_ref [F32.one] [F32.zero] 1 = Ret F32.one) /\
   (fp16_vec_inner_product_rvv zeros zeros 33 = Ret S754_nan /\
    fp16_vec_inner_product_ref zeros zeros 33 = Ret F32.zero) /\
   (bf16_vec_L2sqr_rvv zeros zeros 33 = Ret S754_nan /\ bf16_vec_L2sqr_ref zeros zeros 33 = Ret F32.zero) /\
   (let x := [F32.zero; F32.one; F32.zero; F32.zero; F32.zero; F32.zero; F32.zero; F32.zero; F32.zero] in
    fvec_Linf_rvv x (replicate 9 F32.zero) 9 = Ret F32.zero /\
    fvec_Linf_ref x (replicate 9 F32.zero) 9 = Ret F32.one)).
Proof.
  split; [|split].
  - intros HA HR HU x y d q Hx Hy Hq. by rewrite (l1_value x y d q), l1_ref_value.
  - intros HA HR HU vm widen x y d Hvm Hx Hy Hcase.
    rewrite half_ip_value, half_L2sqr_value, half_norm_value by done.
    by rewrite !ip_ref_value, l2_ref_value by (rewrite length_fmap; done).
  - vm_compute. done.
Qed.

Lemma rvv_agnostic_tails_witness :
  (let _ := rvv128 in let _ := sevens in fvec_L1_rvv [1; 2; 3; 4; 5; 6; 7; 8] (replicate 8 3) 8 = Ret 18) /\
  (let _ := rvv128 in let _ := sevens in half_ip_rvv 32 (fun h => h) [1; 2; 3] [4; 5; 6] 3 = Ret 32).
Proof.
  split; intros H1 H2.
  - rewrite (proj1 rvv_agnostic_tails _ _ _ _ _ 8%nat 1%nat); [reflexivity | simpl; lia | simpl; lia | reflexivity].
  - rewrite (proj1 (proj1 (proj2 rvv_agnostic_tails) _ _ _ 32%nat (fun h => h) [1; 2; 3] [4; 5; 6] 3%nat
      ltac:(lia) ltac:(simpl; lia) ltac:(simpl; lia) ltac:(left; lia))). reflexivity.
Defined.
