(* ===== verification/Simd.v ===== *)
(** * Registers of fixed width

    What the kernels for x86 and Arm use of their vector extensions.  A register
    is the list of its lanes, lane 0 first.  A load reads whole registers: from
    a pointer (the list of the elements from it on) with fewer elements left it
    is undefined. *)

From S2P Require Import Prelude Float Num Rvv.

Section lanes.
Context {A : Type} `{!Num A, !Fma A}.
Implicit Types v u a b c p : list A.

(** [_mm256_loadu_ps(p)] and its like, [w] lanes. *)
Definition loadu {B} (w : nat) (p : list B) : M (list B) := if w <=? length p then Ret (take w p) else Undef.

(** [masked_read(d, p)] and [mm_masked_read_short(d, p)]: a zeroed buffer of [w]
    elements filled by a falling switch over [d < w]. *)
Definition masked_read {B} (zero : B) (w d : nat) (p : list B) : M (list B) :=
  foldM (fun buf i => let* e := vget p i in vset buf i e) (replicate w zero) (rev (seq 0 d)).

(** A load that reads the selected elements only; the other lanes are zero. *)
Definition masked_load {B} (zero : B) (w : nat) (selected : nat -> bool) (p : list B) : M (list B) :=
  foldM (fun buf i => if selected i then let* e := vget p i in vset buf i e else Ret buf)
    (replicate w zero) (seq 0 w).

(** [_mm512_maskz_loadu_ps(mask, p)]: bit [i] of the mask selects lane [i]. *)
Definition maskz_loadu {B} (zero : B) (w : nat) (mask : Z) (p : list B) : M (list B) :=
  masked_load zero w (fun i => Z.testbit mask (Z.of_nat i)) p.

(** [_mm256_storeu_ps(p + off, v)]. *)
Definition storeu (p : list A) (off : nat) v : M (list A) := memcpy p off v 0 (length v).

(** Lane-wise operations. *)
Definition vadd : list A -> list A -> list A := zip_with nadd.
Definition vsub : list A -> list A -> list A := zip_with nsub.
Definition vmul : list A -> list A -> list A := zip_with nmul.
Definition fmadd a b c : list A := zip_with (fun s xy => nfma s (fst xy) (snd xy)) c (zip a b).
(** [_mm_and_ps(signmask, v)] with the mask [0x7fffffff]. *)
Definition vabs v : list A := nabs <$> v.
(** [_mm_max_ps]: the second operand unless the first is greater. *)
Definition vmax : list A -> list A -> list A := zip_with (fun s t => if nltb t s then s else t).
(** [_mm_min_ps]: the second operand unless the first is smaller. *)
Definition vmin : list A -> list A -> list A := zip_with (fun s t => if nltb s t then s else t).
Definition set1 (w : nat) (s : A) : list A := replicate w s.

(** Lane [i]. *)
Definition lane v (i : nat) : A := nth i v nzero.

(** [_mm_shuffle_ps(a, b, _MM_SHUFFLE(z, y, x, w))]. *)
Definition shuffle_ps a b (z y x w : nat) : list A := [lane a w; lane a x; lane b y; lane b z].
(** [_mm_movehl_ps(a, b)]: the upper half of [b], then that of [a]. *)
Definition movehl_ps a b : list A := [lane b 2; lane b 3; lane a 2; lane a 3].
(** [_mm_hadd_ps] and [_mm256_hadd_ps], which works in each half. *)
Definition hadd_ps a b : list A :=
  [nadd (lane a 0) (lane a 1); nadd (lane a 2) (lane a 3); nadd (lane b 0) (lane b 1); nadd (lane b 2) (lane b 3)].
Definition hadd256_ps a b : list A := hadd_ps (take 4 a) (take 4 b) ++ hadd_ps (drop 4 a) (drop 4 b).
Definition permutevar8x32_ps v (idx : list nat) : list A := lane v <$> idx.

(** [_mm256_extractf128_ps(v, 0)] and [(v, 1)]; for 512 bits [w] is 8. *)
Definition low (w : nat) v : list A := take w v.
Definition high (w : nat) v : list A := drop w v.

End lanes.

(** ** Loops over strips

    [while (d >= w) { ...; x += w; y += w; d -= w; }]: the pointers advance
    together, [off] is how far. *)
Fixpoint strips {S : Type} (fuel w : nat) (body : nat -> S -> M S) (off d : nat) (s : S) : M (nat * nat * S) :=
  if w <=? d then
    match fuel with
    | O => Undef
    | S fuel => let* s := body off s in strips fuel w body (off + w) (d - w) s
    end
  else Ret (off, d, s).

(** [if (d >= w) { ...; x += w; y += w; d -= w; }] *)
Definition strip_if {S : Type} (w : nat) (body : nat -> S -> M S) (st : nat * nat * S) : M (nat * nat * S) :=
  let '(off, d, s) := st in
  if w <=? d then let* s := body off s in Ret (off + w, d - w, s) else Ret (off, d, s).

(** ** Four candidates in one pass

    [while (cur_d >= w) {...} if (cur_d > 0) {...}]: one register of sums per
    candidate, [step] adds a strip to it. *)
Section batch.
Context {A B : Type} `{!Num A} (w : nat) (strip : list B -> nat -> M (list A)) (rest : list B -> nat -> nat -> M (list A)).
Context (reduce : list A -> A) (step : list A -> list A -> list A -> list A).

Definition batch_4_regs (x y0 y1 y2 y3 : list B) (d : nat) : M (A * A * A * A) :=
  let add (load : list B -> M (list A)) (st : list A * list A * list A * list A) :=
    let '(msum_0, msum_1, msum_2, msum_3) := st in
    let* mx := load x in
    let* my0 := load y0 in
    let* my1 := load y1 in
    let* my2 := load y2 in
    let* my3 := load y3 in
    Ret (step mx my0 msum_0, step mx my1 msum_1, step mx my2 msum_2, step mx my3 msum_3) in
  let zero := set1 w nzero in
  let* (off, cur_d, msum) := strips d w (fun off => add (fun p => strip p off)) 0 d (zero, zero, zero, zero) in
  let* msum := if 0 <? cur_d then add (fun p => rest p off cur_d) msum else Ret msum in
  let '(msum_0, msum_1, msum_2, msum_3) := msum in
  Ret (reduce msum_0, reduce msum_1, reduce msum_2, reduce msum_3).
End batch.

Lemma strips_spec {S} (Inv : nat -> S -> Prop) n w body fuel off d s : 0 < w -> d <= fuel -> off + d = n -> Inv off s ->
  (forall o t, o + w <= n -> Inv o t -> wp (body o t) (Inv (o + w))) ->
  wp (strips fuel w body off d s) (fun '(off', d', s') => off' + d' = n /\ d' < w /\ Inv off' s').
Proof.
  intros Hw. revert off d s. induction fuel as [|fuel IH]; intros off d s Hf Hn Hi Hb; cbn [strips];
    destruct (Nat.leb_spec w d) as [Hle|Hlt]; try lia; try (by split_and!).
  apply wp_bind. eapply wp_mono; [apply Hb; [lia|done]|]. intros s' Hs'. apply IH; [lia|lia|done|done].
Qed.

Lemma strip_if_spec {S} (Inv : nat -> S -> Prop) n w body off d s : off + d = n -> Inv off s ->
  (forall t, off + w <= n -> Inv off t -> wp (body off t) (Inv (off + w))) ->
  wp (strip_if w body (off, d, s)) (fun '(off', d', s') => off' + d' = n /\ (d < 2 * w -> d' < w) /\ Inv off' s').
Proof.
  intros Hn Hi Hb. unfold strip_if. destruct (Nat.leb_spec w d) as [Hle|Hlt]; [|split_and!; [done|done|done]].
  apply wp_bind. eapply wp_mono; [apply Hb; [lia|done]|]. intros s' Hs'. cbn [wp]. split_and!; [lia|lia|done].
Qed.
