(* ===== verification/SimdProps.v ===== *)
(** * Lanes in exact arithmetic

    What loads, lane-wise accumulation and strip loops compute over the
    integers; shared by the proofs about the x86 kernels. *)

From S2P Require Import Prelude Float Num MemoryIO Operands Distances DistanceProps Rvv RvvProps Simd.

Lemma Forall4 {B} (P : B -> Prop) a b c d : Forall P [a; b; c; d] <-> P a /\ P b /\ P c /\ P d /\ True.
Proof. rewrite !Forall_cons, Forall_nil. tauto. Qed.

(** ** Loads *)

Lemma loadu_ok {B} w (p : list B) off : off + w <= length p -> loadu w (drop off p) = Ret (slice off (off + w) p).
Proof.
  intros H. unfold loadu, slice. rewrite length_drop. destruct (Nat.leb_spec w (length p - off)); [|lia].
  by replace (off + w - off) with w by lia.
Qed.

Lemma masked_load_spec {B} `{!Inhabited B} (zero : B) w (selected : nat -> bool) p :
  (forall i, i < w -> selected i = true -> i < length p) ->
  masked_load zero w selected p = Ret ((fun i => if selected i then p !!! i else zero) <$> seq 0 w).
Proof.
  intros H. set (F := fun i => _).
  match goal with |- ?m = Ret ?r => assert (wp m (fun q => q = r)) as E; [|by apply wp_elim in E as (? & -> & ->)] end.
  apply (wp_for _ (fun i buf => buf = (F <$> seq 0 i) ++ replicate (w - i) zero)).
  - by rewrite Nat.sub_0_r.
  - intros i buf Hi ->. assert (length (F <$> seq 0 i) = i) as Hl by (by rewrite length_fmap, length_seq).
    rewrite Nat.add_1_r, seq_S, fmap_app, <- app_assoc. replace (w - i) with (S (w - S i)) by lia. simpl.
    destruct (selected i) eqn:E; cbn [wp]; [|unfold F at 3; by rewrite E].
    rewrite vget_total by (apply H; [lia|done]). cbn [bind].
    apply wp_vset; [rewrite length_app, Hl; simpl; lia|].
    rewrite <- Hl at 1. rewrite insert_next. unfold F at 3. rewrite E. by rewrite <- app_assoc.
  - intros buf ->. by rewrite Nat.sub_diag, app_nil_r.
Qed.

(** The first [d] lanes selected. *)
Lemma prefix_load {B} `{!Inhabited B} (zero : B) w d p off : d <= w -> off + d <= length p ->
  masked_load zero w (fun i => i <? d) (drop off p) = Ret (slice off (off + d) p ++ replicate (w - d) zero).
Proof.
  intros Hd Hp. rewrite masked_load_spec.
  2:{ intros i _ Hi%Nat.ltb_lt. rewrite length_drop. lia. }
  f_equal. apply list_eq. intros i. rewrite list_lookup_fmap.
  assert (length (slice off (off + d) p) = d) as Hl by (rewrite length_slice; lia).
  destruct (decide (i < w)) as [Hi|Hi].
  - rewrite lookup_seq_lt by lia. simpl. destruct (Nat.ltb_spec i d).
    + rewrite lookup_app_l by lia. unfold slice. replace (off + d - off) with d by lia.
      rewrite lookup_take_lt, list_lookup_lookup_total_lt by (rewrite ?length_drop; lia). done.
    + rewrite lookup_app_r, lookup_replicate_2 by lia. done.
  - rewrite lookup_seq_ge by lia. simpl. symmetry. apply lookup_ge_None_2.
    rewrite length_app, length_replicate. lia.
Qed.

Lemma masked_load_ext {B} (zero : B) w f g p : (forall i, i < w -> f i = g i) ->
  masked_load zero w f p = masked_load zero w g p.
Proof. intros H. apply foldM_ext. intros t i Hi%elem_of_seq. by rewrite H by lia. Qed.

(** The falling switch reads the same elements. *)
Lemma masked_read_spec {B} (zero : B) w d p off : d <= w -> off + d <= length p ->
  masked_read zero w d (drop off p) = Ret (slice off (off + d) p ++ replicate (w - d) zero).
Proof.
  intros Hd Hp. unfold masked_read. set (s := slice off (off + d) p).
  assert (length s = d) as Hl by (subst s; rewrite length_slice; lia).
  assert (forall k buf, k <= d -> length buf = w -> drop k buf = drop k s ++ replicate (w - d) zero ->
    foldM (fun buf i => let* e := vget (drop off p) i in vset buf i e) buf (rev (seq 0 k)) =
    Ret (s ++ replicate (w - d) zero)) as Hk.
  { induction k as [|k IH]; intros buf Hkd Hb Hdr; [simpl; by rewrite <- (drop_0 buf), Hdr, drop_0|].
    rewrite seq_S, rev_app_distr. cbn [rev app foldM Nat.add].
    destruct (lookup_lt_is_Some_2 s k ltac:(lia)) as [e He].
    assert (vget (drop off p) k = Ret e) as ->.
    { apply vget_Ret. subst s. unfold slice in He. rewrite lookup_take_lt in He by lia. done. }
    cbn [bind]. unfold vset. rewrite decide_True by lia. cbn [bind]. apply IH; [lia|by rewrite length_insert|].
    rewrite (drop_S (<[k:=e]> buf) e k) by (apply list_lookup_insert_eq; lia).
    rewrite drop_insert_lt by lia. rewrite Hdr, (drop_S s e k He). done. }
  apply Hk; [done|by rewrite length_replicate|].
  rewrite (drop_ge s) by lia. simpl. by rewrite drop_replicate.
Qed.

(** ** Sums *)

#[local] Open Scope Z_scope.

(** A register whose lanes add up to the first [off] terms. *)
Definition holds (w : nat) (T : list Z) (off : nat) (acc : list Z) : Prop :=
  length acc = w /\ lanesum acc = lanesum (take off T).

Lemma holds_zero w T : holds w T 0 (replicate w 0).
Proof. split; [apply length_replicate|apply lanesum_replicate]. Qed.

Lemma lanesum_slice (T : list Z) i j : (i <= j)%nat -> lanesum (take j T) = lanesum (take i T) + lanesum (slice i j T).
Proof. intros H. by rewrite <- !slice_0, (slice_sum T 0 i j) by lia. Qed.

Lemma holds_add w T off off' acc t : holds w T off acc -> length t = w -> (off <= off')%nat ->
  lanesum t = lanesum (slice off off' T) -> holds w T off' (vadd acc t).
Proof.
  intros [Hl Hs] Ht Ho E. split.
  - unfold vadd. rewrite length_zip_with. lia.
  - change (vadd acc t) with (zip_with Z.add acc t). rewrite lanesum_add, Hs, E, (lanesum_slice T off off') by lia. done.
Qed.

Lemma fmadd_vadd (a b c : list Z) : fmadd a b c = vadd c (zip_with Z.mul a b).
Proof.
  unfold fmadd, vadd. revert b c. induction a as [|u a IH]; intros [|v b] [|s c]; simpl; try done. by rewrite IH.
Qed.

Lemma holds_fmadd w T off off' acc (a b : list Z) : holds w T off acc -> length a = w -> length b = w ->
  (off <= off')%nat -> lanesum (zip_with Z.mul a b) = lanesum (slice off off' T) -> holds w T off' (fmadd a b acc).
Proof. intros. rewrite fmadd_vadd. eapply holds_add; try done. rewrite length_zip_with. lia. Qed.

Lemma vsub_sq (a b : list Z) : zip_with Z.mul (vsub a b) (vsub a b) = zip_with sq a b.
Proof. unfold vsub. revert b. induction a as [|u a IH]; intros [|v b]; simpl; try done. by rewrite IH. Qed.

Lemma vsub_dist1 (a b : list Z) : vabs (vsub a b) = zip_with dist1 a b.
Proof. unfold vabs, vsub. revert b. induction a as [|u a IH]; intros [|v b]; simpl; try done. f_equal. apply IH. Qed.

Lemma zip_with_pad {B} (f : B -> B -> Z) z a b n : length a = length b -> f z z = 0 ->
  lanesum (zip_with f (a ++ replicate n z) (b ++ replicate n z)) = lanesum (zip_with f a b).
Proof.
  intros Hl Hz. rewrite zip_with_app by done. rewrite lanesum_app, zip_with_replicate, Hz, lanesum_replicate.
  lia.
Qed.

(** The terms [f x y] of two vectors. *)
Section terms.
Context {B : Type} (f : B -> B -> Z) (x y : list B).

Lemma slice_terms w off : (off + w <= length x)%nat -> (off + w <= length y)%nat ->
  length (slice off (off + w) x) = w /\ length (slice off (off + w) y) = w /\
  zip_with f (slice off (off + w) x) (slice off (off + w) y) = slice off (off + w) (zip_with f x y).
Proof. intros Hx Hy. rewrite !length_slice, slice_zip_with by lia. split_and!; [lia..|done]. Qed.

Lemma padded_terms w d off z : (d <= w)%nat -> (off + d <= length x)%nat -> (off + d <= length y)%nat -> f z z = 0 ->
  let p u := slice off (off + d) u ++ replicate (w - d) z in
  length (p x) = w /\ length (p y) = w /\
  lanesum (zip_with f (p x) (p y)) = lanesum (slice off (off + d) (zip_with f x y)).
Proof.
  intros Hw Hx Hy Hz p. destruct (slice_terms d off Hx Hy) as (Lx & Ly & E). subst p. cbv beta.
  rewrite !length_app, length_replicate, zip_with_pad, E by (done || lia). split_and!; [lia..|done].
Qed.

End terms.

(** ** Reductions *)

Lemma reg4 (v : list Z) : length v = 4%nat -> exists a b c d, v = [a; b; c; d].
Proof. destruct v as [|a [|b [|c [|d [|]]]]]; try done. intros _. by exists a, b, c, d. Qed.

Lemma reg8 (v : list Z) : length v = 8%nat -> exists a b c d e f g h, v = [a; b; c; d; e; f; g; h].
Proof.
  intros H. destruct (reg4 (take 4 v)) as (a & b & c & d & E); [rewrite length_take; lia|].
  destruct (reg4 (drop 4 v)) as (e & f & g & h & E'); [rewrite length_drop; lia|].
  exists a, b, c, d, e, f, g, h. by rewrite <- (take_drop 4 v), E, E'.
Qed.

Lemma halves_sum w T off v : holds (w + w) T off v -> holds w T off (vadd (take w v) (drop w v)).
Proof.
  intros [Hl Hs]. split.
  - unfold vadd. rewrite length_zip_with, length_take, length_drop. lia.
  - change (lanesum (zip_with Z.add (take w v) (drop w v)) = lanesum (take off T)).
    rewrite lanesum_add by (rewrite length_take, length_drop; lia). by rewrite <- lanesum_app, take_drop.
Qed.

Lemma hadd_twice (v : list Z) : length v = 4%nat -> lane (hadd_ps (hadd_ps v v) (hadd_ps v v)) 0 = lanesum v.
Proof. intros (a & b & c & d & ->)%reg4. unfold lane, hadd_ps. cbn -[Z.add]. lia. Qed.

Lemma vadd_comm (a b : list Z) : vadd a b = vadd b a.
Proof. unfold vadd. revert b. induction a as [|u a IH]; intros [|v b]; simpl; try done. f_equal; [lia|apply IH]. Qed.

(** ** Strips of inner products and squared differences

    A whole strip, and the padded rest. *)
Section strip_terms.
Context (x y : list Z) (w off : nat) (acc : list Z).

Lemma ip_strip_holds : (off + w <= length x)%nat -> (off + w <= length y)%nat -> holds w (zip_with Z.mul x y) off acc ->
  holds w (zip_with Z.mul x y) (off + w) (fmadd (slice off (off + w) x) (slice off (off + w) y) acc).
Proof.
  intros Hx Hy Hh. destruct (slice_terms Z.mul x y w off Hx Hy) as (Lx & Ly & E).
  eapply holds_fmadd; [done|done|done|lia|by rewrite E].
Qed.

Lemma l2_strip_holds : (off + w <= length x)%nat -> (off + w <= length y)%nat -> holds w (zip_with sq x y) off acc ->
  let m := vsub (slice off (off + w) x) (slice off (off + w) y) in
  holds w (zip_with sq x y) (off + w) (fmadd m m acc).
Proof.
  intros Hx Hy Hh m. destruct (slice_terms sq x y w off Hx Hy) as (Lx & Ly & E).
  assert (length m = w) as Hm by (subst m; unfold vsub; rewrite length_zip_with; lia).
  eapply holds_fmadd; [done|done|done|lia|]. subst m. by rewrite vsub_sq, E.
Qed.

Section rest.
Context (d : nat).
Let rest (u : list Z) := slice off (off + d) u ++ replicate (w - d) 0.

Lemma ip_rest_holds : (d <= w)%nat -> (off + d <= length x)%nat -> (off + d <= length y)%nat ->
  holds w (zip_with Z.mul x y) off acc -> holds w (zip_with Z.mul x y) (off + d) (fmadd (rest x) (rest y) acc).
Proof.
  intros Hw Hx Hy Hh. destruct (padded_terms Z.mul x y w d off 0 Hw Hx Hy eq_refl) as (Lx & Ly & E).
  eapply holds_fmadd; [done|done|done|lia|done].
Qed.

Lemma l2_rest_holds : (d <= w)%nat -> (off + d <= length x)%nat -> (off + d <= length y)%nat ->
  holds w (zip_with sq x y) off acc ->
  let m := vsub (rest x) (rest y) in holds w (zip_with sq x y) (off + d) (fmadd m m acc).
Proof.
  intros Hw Hx Hy Hh m. destruct (padded_terms sq x y w d off 0 Hw Hx Hy eq_refl) as (Lx & Ly & E).
  assert (length m = w) as Hm by (subst m rest; unfold vsub; rewrite length_zip_with; lia).
  eapply holds_fmadd; [done|done|done|lia|]. subst m. rewrite vsub_sq. exact E.
Qed.

End rest.
End strip_terms.

(** [msum + mx * my] with the product rounded separately. *)
Lemma fmadd_mul (a b c : list Z) : vadd c (vmul a b) = fmadd a b c.
Proof. by rewrite fmadd_vadd. Qed.

Lemma slice_fmap {B C} (f : B -> C) i j (l : list B) : f <$> slice i j l = slice i j (f <$> l).
Proof. unfold slice. by rewrite fmap_take, fmap_drop. Qed.

Lemma take_slice {B} w b e (l : list B) : (b + w <= e)%nat -> take w (slice b e l) = slice b (b + w) l.
Proof. intros H. unfold slice. rewrite take_take. f_equal. lia. Qed.

Lemma drop_slice {B} w b e (l : list B) : drop w (slice b e l) = slice (b + w) e l.
Proof. unfold slice. rewrite skipn_firstn_comm, drop_drop. f_equal. lia. Qed.

Lemma lanesum_prefix (F : nat -> Z) w n : (w <= n)%nat -> (forall j, (w <= j < n)%nat -> F j = 0) ->
  lanesum (F <$> seq 0 n) = lanesum (F <$> seq 0 w).
Proof.
  induction n as [|n IH]; intros Hw Hz; [by replace w with 0%nat by lia|].
  destruct (decide (w = S n)) as [->|]; [done|]. rewrite seq_S, fmap_app, lanesum_app, IH by (intros; try apply Hz; lia).
  cbn. rewrite Hz by lia. lia.
Qed.

(** ** Four candidates *)

(** What one strip of the batched kernels does to the sum of one candidate. *)
Definition adds (w : nat) (step : list Z -> list Z -> list Z -> list Z) (f : Z -> Z -> Z) : Prop :=
  (forall x y off acc, (off + w <= length x)%nat -> (off + w <= length y)%nat -> holds w (zip_with f x y) off acc ->
    holds w (zip_with f x y) (off + w) (step (slice off (off + w) x) (slice off (off + w) y) acc)) /\
  (forall x y off d acc, (d <= w)%nat -> (off + d <= length x)%nat -> (off + d <= length y)%nat ->
    holds w (zip_with f x y) off acc ->
    holds w (zip_with f x y) (off + d) (step (slice off (off + d) x ++ replicate (w - d) 0)
      (slice off (off + d) y ++ replicate (w - d) 0) acc)).

Section batch.
Context {B : Type} (w : nat) (strip : list B -> nat -> M (list Z)) (rest : list B -> nat -> nat -> M (list Z)).
Context (reduce : list Z -> Z) (step : list Z -> list Z -> list Z -> list Z) (ld : B -> Z) (f : Z -> Z -> Z).
Hypothesis Hw : (0 < w)%nat.
Hypothesis Hstrip : forall p o, (o + w <= length p)%nat -> strip p o = Ret (slice o (o + w) (ld <$> p)).
Hypothesis Hrest : forall p o d, (d < w)%nat -> (o + d <= length p)%nat ->
  rest p o d = Ret (slice o (o + d) (ld <$> p) ++ replicate (w - d) 0).
Hypothesis Hred : forall v, length v = w -> reduce v = lanesum v.
Hypothesis Hstep : adds w step f.

Lemma batch_4_regs_value x y0 y1 y2 y3 d : (d <= length x)%nat ->
  Forall (fun p => (d <= length p)%nat) [y0; y1; y2; y3] ->
  let s y := lanesum (take d (zip_with f (ld <$> x) (ld <$> y))) in
  batch_4_regs w strip rest reduce step x y0 y1 y2 y3 d = Ret (s y0, s y1, s y2, s y3).
Proof.
  intros Hx (H0 & H1 & H2 & H3 & _)%Forall4 s. destruct Hstep as [Hs Hr].
  set (W := fun y => zip_with f (ld <$> x) (ld <$> y)) in *.
  match goal with |- ?m = Ret ?r => assert (wp m (fun q => q = r)) as E; [|by apply wp_elim in E as (? & -> & ->)] end.
  set (Inv := fun o (st : list Z * list Z * list Z * list Z) => let '(a, b, c, e) := st in
    holds w (W y0) o a /\ holds w (W y1) o b /\ holds w (W y2) o c /\ holds w (W y3) o e).
  apply wp_bind. eapply wp_mono; [apply (strips_spec Inv d); [lia|lia|lia|split_and!; apply holds_zero|]|].
  { intros o [[[a b] c] e] Ho (Ha & Hb & Hc & He). rewrite !Hstrip by lia. cbn [bind wp].
    split_and!; (apply Hs; [rewrite length_fmap; lia..|done]). }
  intros [[o k] st] (Ho & Hk & Hi). apply wp_bind.
  apply (wp_mono _ (Inv d)).
  { destruct (Nat.ltb_spec 0 k); cbn [wp]; [|by replace d with o by lia].
    destruct st as [[[a b] c] e]. destruct Hi as (Ha & Hb & Hc & He). rewrite !Hrest by lia. cbn [bind wp].
    rewrite <- Ho. split_and!; (apply Hr; [lia|rewrite length_fmap; lia..|done]). }
  intros [[[a b] c] e] ([La Ha] & [Lb Hb] & [Lc Hc] & [Le He]). cbn [wp].
  rewrite !Hred by done. by rewrite Ha, Hb, Hc, He.
Qed.
End batch.

(** * Maxima over lanes, on binary32 numbers

    A maximum is not rounded, so the kernels for the Linf distance return the
    very number that the reference returns, in whatever order they compare,
    as long as no difference is NaN. *)

#[local] Close Scope Z_scope.

Implicit Types (s t u r : spec_float) (S T v : list spec_float).

(** A magnitude that is not NaN. *)
Definition mag (t : spec_float) : Prop := exists f, t = SFabs f /\ is_nan f = false.

Lemma mag_zero : mag F32.zero.
Proof. by exists F32.zero. Qed.

Lemma mag_nan t : mag t -> is_nan t = false.
Proof. intros (f & -> & H). by destruct f. Qed.

Lemma mag_antisym s t : mag s -> mag t -> SFltb s t = false -> SFltb t s = false -> s = t.
Proof.
  intros (f & -> & Hf) (g & -> & Hg). unfold SFltb.
  destruct f as [sf|sf| |sf m e], g as [sg|sg| |sg n k]; try done. simpl.
  rewrite (Z.compare_antisym e k). destruct (Z.compare_spec e k) as [->| |]; simpl; try done.
  change (Pos.compare_cont Eq m n) with (Pos.compare m n). change (Pos.compare_cont Eq n m) with (Pos.compare n m).
  rewrite (Pos.compare_antisym m n). destruct (Pos.compare_spec m n) as [->| |]; simpl; done.
Qed.

Definition max2 s t : spec_float := if nltb t s then s else t.

Lemma max2_cases s t : max2 s t = s \/ max2 s t = t.
Proof. unfold max2. destruct (nltb t s); auto. Qed.

Lemma max2_ge s t : nok s -> nok t -> nle s (max2 s t) /\ nle t (max2 s t).
Proof.
  intros Hs Ht. unfold max2. destruct (nltb t s) eqn:E.
  - split; [by apply nle_refl|by apply nltb_nle].
  - split; [done|by apply nle_refl].
Qed.

(** [v] has lanes among zero and [S], and an upper bound of each of them. *)
Definition covers S v : Prop :=
  (forall u, u ∈ v -> u ∈ F32.zero :: S) /\ (forall t, t ∈ F32.zero :: S -> exists u, u ∈ v /\ nle t u).

Lemma mags_nok S t : Forall mag S -> t ∈ F32.zero :: S -> mag t.
Proof. intros HS [->|Ht]%elem_of_cons; [apply mag_zero|]. by eapply Forall_forall in HS. Qed.

Lemma covers_zero w : 0 < w -> covers [] (replicate w F32.zero).
Proof.
  intros Hw. split.
  - intros u [-> _]%elem_of_replicate. set_solver.
  - intros t Ht. assert (t = F32.zero) as -> by set_solver. exists F32.zero.
    split; [apply elem_of_replicate; split; [done|lia]|by apply nle_refl].
Qed.

Lemma covers_ext S T v : covers S v -> (forall t, t ∈ F32.zero :: S <-> t ∈ F32.zero :: T) -> covers T v.
Proof. intros [H1 H2] H. split; [intros u Hu; by apply H, H1|intros t Ht; by apply H2, H]. Qed.

Lemma zip_elem {B C D} (f : B -> C -> D) (l : list B) (k : list C) z : z ∈ zip_with f l k <->
  exists i a b, l !! i = Some a /\ k !! i = Some b /\ z = f a b.
Proof.
  rewrite list_elem_of_lookup. split.
  - intros (i & (a & b & -> & Ha & Hb)%lookup_zip_with_Some). by exists i, a, b.
  - intros (i & a & b & Ha & Hb & ->). exists i. apply lookup_zip_with_Some. by exists a, b.
Qed.

Lemma covers_vmax S T v w : length v = length w -> Forall mag S -> Forall mag T -> covers S v -> 
  (forall u, u ∈ w -> u ∈ F32.zero :: T) -> (forall t, t ∈ T -> exists u, u ∈ w /\ nle t u) ->
  covers (S ++ T) (vmax v w).
Proof.
  intros Hl HS HT [H1 H2] H3 H4. split.
  - intros u (i & a & b & Ha%list_elem_of_lookup_2 & Hb%list_elem_of_lookup_2 & ->)%zip_elem.
    apply H1 in Ha. apply H3 in Hb. change (max2 a b ∈ F32.zero :: S ++ T). destruct (max2_cases a b) as [->| ->]; set_solver.
  - intros t Ht. assert (t ∈ F32.zero :: S \/ t ∈ T) as [Ht'|Ht'] by set_solver.
    + destruct (H2 t Ht') as (a & [i Ha]%list_elem_of_lookup_1 & Hta).
      destruct (lookup_lt_is_Some_2 w i) as [b Hb]; [rewrite <- Hl; by eapply lookup_lt_Some|].
      exists (max2 a b). split; [apply zip_elem; by exists i, a, b|]. etrans; [done|].
      apply max2_ge; apply mag_nan; [eapply (mags_nok S)|eapply (mags_nok T)]; eauto using list_elem_of_lookup_2.
    + destruct (H4 t Ht') as (b & [i Hb]%list_elem_of_lookup_1 & Htb).
      destruct (lookup_lt_is_Some_2 v i) as [a Ha]; [rewrite Hl; by eapply lookup_lt_Some|].
      exists (max2 a b). split; [apply zip_elem; by exists i, a, b|]. etrans; [done|].
      apply max2_ge; apply mag_nan; [eapply (mags_nok S)|eapply (mags_nok T)]; eauto using list_elem_of_lookup_2.
Qed.

(** Two maxima of the same numbers are the same number. *)
Lemma covers_unique S s t : Forall mag S -> covers S [s] -> covers S [t] -> s = t.
Proof.
  intros HS [H1 H2] [H3 H4].
  assert (s ∈ F32.zero :: S) as Hs by (apply H1; set_solver). assert (t ∈ F32.zero :: S) as Ht by (apply H3; set_solver).
  destruct (H2 t Ht) as (u & Hu & (_ & _ & H5)). destruct (H4 s Hs) as (u' & Hu' & (_ & _ & H6)).
  assert (u = s) as -> by set_solver. assert (u' = t) as -> by set_solver.
  apply mag_antisym; [by eapply mags_nok|by eapply mags_nok|done|done].
Qed.

Lemma max2_comm s t : mag s -> mag t -> max2 s t = max2 t s.
Proof.
  intros Hs Ht. unfold max2. destruct (nltb t s) eqn:E, (nltb s t) eqn:E'; try done.
  - apply (sw_asym (ok := nok)) in E; [congruence|by apply mag_nan..].
  - by apply mag_antisym.
Qed.

Lemma covers_fold S v w : Forall mag S -> covers S v -> (forall u, u ∈ w -> u ∈ F32.zero :: S) ->
  (forall t, t ∈ v -> exists u, u ∈ w /\ nle t u) -> covers S w.
Proof.
  intros HS [H1 H2] H3 H4. split; [done|]. intros t Ht. destruct (H2 t Ht) as (u & Hu & Htu).
  destruct (H4 u Hu) as (z & Hz & Huz). exists z. split; [done|]. by etrans.
Qed.

(** Folding one half over the other, either way round. *)
Lemma covers_halves S a b : length a = length b -> Forall mag S -> covers S (a ++ b) ->
  covers S (vmax a b) /\ covers S (vmax b a).
Proof.
  intros Hl HS Hc. destruct Hc as [H1 H2] eqn:E. clear E H2.
  assert (forall v w, length v = length w -> (forall u, u ∈ v \/ u ∈ w -> u ∈ F32.zero :: S) ->
    (forall u, u ∈ vmax v w -> u ∈ F32.zero :: S) /\
    (forall t, t ∈ v \/ t ∈ w -> exists u, u ∈ vmax v w /\ nle t u)) as Hm.
  { intros v w L H. split.
    - intros u (i & p & q & Hp%list_elem_of_lookup_2 & Hq%list_elem_of_lookup_2 & ->)%zip_elem.
      change (max2 p q ∈ F32.zero :: S). destruct (max2_cases p q) as [->| ->]; auto.
    - intros t Ht. assert (exists i p q, v !! i = Some p /\ w !! i = Some q /\ (t = p \/ t = q)) as (i & p & q & Hp & Hq & Ht').
      { destruct Ht as [[i Hi]%list_elem_of_lookup_1|[i Hi]%list_elem_of_lookup_1].
        - destruct (lookup_lt_is_Some_2 w i) as [q Hq]; [rewrite <- L; by eapply lookup_lt_Some|].
          exists i, t, q. auto.
        - destruct (lookup_lt_is_Some_2 v i) as [p Hp]; [rewrite L; by eapply lookup_lt_Some|]. exists i, p, t. auto. }
      exists (max2 p q). split; [apply zip_elem; by exists i, p, q|].
      assert (nok p /\ nok q) as [Op Oq].
      { split; apply mag_nan, (mags_nok S); auto; apply H; eauto using list_elem_of_lookup_2. }
      destruct (max2_ge p q Op Oq). by destruct Ht' as [->| ->]. }
  destruct (Hm a b Hl) as [Ha Hb]; [intros u Hu; apply H1; set_solver|].
  destruct (Hm b a (eq_sym Hl)) as [Ha' Hb']; [intros u Hu; apply H1; set_solver|].
  split; (eapply covers_fold; [done|done|done|]); intros t Ht; [apply Hb|apply Hb']; set_solver.
Qed.

(** The reference kernel. *)
Definition diffs (x y : list spec_float) : list spec_float := zip_with (fun a b => SFabs (F32.sub a b)) x y.

Lemma covers_snoc S r t : Forall mag S -> mag t -> covers S [r] -> covers (S ++ [t]) [max2 r t].
Proof.
  intros HS Ht Hc. apply (covers_vmax S [t] [r] [t]); [done|done|by constructor|done|set_solver|].
  intros u Hu. exists t. assert (u = t) as -> by set_solver. split; [set_solver|]. by apply nle_refl, mag_nan.
Qed.

Lemma linf_ref_covers x y d : d <= length x -> d <= length y -> Forall mag (take d (diffs x y)) ->
  exists r, fvec_Linf_ref x y d = Ret r /\ covers (take d (diffs x y)) [r].
Proof.
  intros Hx Hy HT.
  enough (wp (fvec_Linf_ref x y d) (fun r => covers (take d (diffs x y)) [r])) as (r & ? & ?)%wp_elim by eauto.
  apply (wp_for _ (fun i r => covers (take i (diffs x y)) [r])); [by apply (covers_zero 1); lia| |done].
  intros i r Hi Hr. apply wp_bind, wp_vget; [lia|]. intros a Ha. apply wp_bind, wp_vget; [lia|]. intros b Hb.
  cbn [wp]. set (t := SFabs (F32.sub a b)).
  assert (diffs x y !! i = Some t) as Ht by (apply lookup_zip_with_Some; by exists a, b).
  rewrite Nat.add_1_r, (take_S_r _ _ t Ht).
  assert (mag t) as Hm.
  { eapply Forall_lookup_1; [exact HT|]. apply lookup_take_Some. split; [exact Ht|lia]. }
  assert (Forall mag (take i (diffs x y))) as Hmi.
  { replace (take i (diffs x y)) with (take i (take d (diffs x y))) by (rewrite take_take; f_equal; lia).
    by apply Forall_take. }
  assert (mag r) as Hmr by (apply (mags_nok (take i (diffs x y))); [done|apply Hr; set_solver]).
  unfold fmax. rewrite (mag_nan _ Hm), (mag_nan _ Hmr).
  change (if SFltb r t then t else r) with (max2 t r). rewrite max2_comm by done. by apply covers_snoc.
Qed.

(** ** Strips *)

(** A register that covers the first [off] differences. *)
Definition covering (w : nat) T (off : nat) v : Prop := length v = w /\ covers (take off T) v.

Lemma mags_take T i j : i <= j -> Forall mag (take j T) -> Forall mag (take i T).
Proof.
  intros H HT. replace (take i T) with (take i (take j T)) by (rewrite take_take; f_equal; lia). by apply Forall_take.
Qed.

Lemma mags_slice T i j : Forall mag (take j T) -> Forall mag (slice i j T).
Proof.
  intros HT. replace (slice i j T) with (drop i (take j T)); [by apply Forall_drop|].
  unfold slice. by rewrite skipn_firstn_comm.
Qed.

Lemma take_slice_app {B} i j (T : list B) : i <= j -> take j T = take i T ++ slice i j T.
Proof. intros H. by rewrite <- !slice_0, slice_app by lia. Qed.

(** Taking the maximum with the next [k] differences, padded with zeros. *)
Lemma covering_step w T off k n v : length v = w -> k + n = w -> off + k <= length T ->
  Forall mag (take (off + k) T) -> covering w T off v ->
  covering w T (off + k) (vmax v (slice off (off + k) T ++ replicate n F32.zero)).
Proof.
  intros Hw Hk Hoff HT [Hl Hc].
  assert (length (slice off (off + k) T) = k) as Hs by (rewrite length_slice; lia).
  split; [unfold vmax; rewrite length_zip_with, length_app, length_replicate; lia|].
  rewrite (take_slice_app off (off + k)) by lia. apply covers_vmax.
  - rewrite length_app, length_replicate. lia.
  - by eapply mags_take; [|exact HT]; lia.
  - by apply mags_slice.
  - done.
  - intros u [Hu|[-> _]%elem_of_replicate]%elem_of_app; set_solver.
  - intros t Ht. exists t. split; [set_solver|]. apply nle_refl, mag_nan.
    by eapply Forall_forall; [apply mags_slice; exact HT|].
Qed.

Lemma slice_diffs x y i j : vabs (vsub (slice i j x) (slice i j y)) = slice i j (diffs x y).
Proof.
  unfold vabs, vsub, diffs. rewrite (slice_zip_with (fun a b => SFabs (F32.sub a b))).
  generalize (slice i j x) (slice i j y). intros a. induction a as [|u a IH]; intros [|w b]; simpl; try done. f_equal. apply IH.
Qed.

Lemma padded_diffs x y i j n : j <= length x -> j <= length y ->
  vabs (vsub (slice i j x ++ replicate n F32.zero) (slice i j y ++ replicate n F32.zero)) =
  slice i j (diffs x y) ++ replicate n F32.zero.
Proof.
  intros Hx Hy. rewrite <- slice_diffs. unfold vabs, vsub. rewrite zip_with_app by (rewrite !length_slice; lia).
  by rewrite fmap_app, zip_with_replicate, fmap_replicate.
Qed.

Lemma length_diffs x y : length (diffs x y) = Nat.min (length x) (length y).
Proof. apply length_zip_with. Qed.
