(* ===== verification/AvxKernels.v ===== *)
(** * The AVX2 kernels (src/simd/distances_avx.cc)

    The kernels on [float] are written over the score interface; those on 16-bit
    types over the conversion of an element.  A loop that the source leaves to
    the compiler ([FAISS_PRAGMA_IMPRECISE_LOOP]) is the scalar loop. *)

From S2P Require Import Prelude Float Num Operands MemoryIO Bitset Distances Rvv RvvKernels Simd.

(** ** Horizontal sums *)

(** [std::numeric_limits<float>::max()]. *)
Class FloatMax (A : Type) := flt_max : A.
#[export] Instance F32_max : FloatMax spec_float := S754_finite false 16777215 104.
#[export] Instance Z_max : FloatMax Z := (16777215 * 2 ^ 104)%Z.

Section floats.
Context {A : Type} `{!Num A, !Fma A}.
Implicit Types x y dis acc : list A.

Definition _mm256_reduce_add_ps (res : list A) : A :=
  let sum := vadd (low 4 res) (high 4 res) in
  let v0 := shuffle_ps sum sum 0 0 3 2 in
  let v1 := vadd sum v0 in
  let v2 := shuffle_ps v1 v1 0 0 0 1 in
  let v3 := vadd v1 v2 in
  lane v3 0.

(** ** Scalar loops *)

Definition fvec_inner_product_avx x y (d : nat) : M A :=
  for2 (fun res xi yi => nadd res (nmul xi yi)) x y d nzero.

Definition fvec_L2sqr_avx x y (d : nat) : M A :=
  for2 (fun res xi yi => let tmp := nsub xi yi in nadd res (nmul tmp tmp)) x y d nzero.

Definition fvec_madd_avx (n : nat) (a : list A) (bf : A) (b c : list A) : M (list A) :=
  foldM (fun c i => let* ai := vget a i in let* bi := vget b i in vset c i (nadd ai (nmul bf bi))) c (seq 0 n).

Definition fvec_inner_product_batch_4_avx x y0 y1 y2 y3 d := batch_4 (fun v => v) ip_step x y0 y1 y2 y3 d.
Definition fvec_L2sqr_batch_4_avx x y0 y1 y2 y3 d := batch_4 (fun v => v) l2_step x y0 y1 y2 y3 d.

(** ** L1 and Linf: strips of 8, then 4, then the rest *)

(** One strip of [w] lanes: [combine] the sum with [abs(x - y)]. *)
Definition abs_strip (combine : list A -> list A -> list A) (w : nat) x y (off : nat) (msum : list A) : M (list A) :=
  let* mx := loadu w (drop off x) in
  let* my := loadu w (drop off y) in
  let a_m_b := vsub mx my in
  Ret (combine msum (vabs a_m_b)).

(** The part of both kernels after the strips of 8, on the halved sum. *)
Definition abs_tail (combine : list A -> list A -> list A) x y (off d : nat) (msum2 : list A) : M (list A) :=
  let* (off, d, msum2) := strip_if 4 (abs_strip combine 4 x y) (off, d, msum2) in
  if 0 <? d then
    let* mx := masked_read nzero 4 d (drop off x) in
    let* my := masked_read nzero 4 d (drop off y) in
    let a_m_b := vsub mx my in
    Ret (combine msum2 (vabs a_m_b))
  else Ret msum2.

Definition fvec_L1_avx x y (d : nat) : M A :=
  let* (off, d, msum1) := strips d 8 (abs_strip vadd 8 x y) 0 d (set1 8 nzero) in
  let msum2 := vadd (high 4 msum1) (low 4 msum1) in
  let* msum2 := abs_tail vadd x y off d msum2 in
  let msum2 := hadd_ps msum2 msum2 in
  let msum2 := hadd_ps msum2 msum2 in
  Ret (lane msum2 0).

Definition fvec_Linf_avx x y (d : nat) : M A :=
  let* (off, d, msum1) := strips d 8 (abs_strip vmax 8 x y) 0 d (set1 8 nzero) in
  let msum2 := vmax (high 4 msum1) (low 4 msum1) in
  let* msum2 := abs_tail vmax x y off d msum2 in
  let msum2 := vmax (movehl_ps msum2 msum2) msum2 in
  let msum2 := vmax msum2 (shuffle_ps msum2 msum2 0 0 0 1) in
  Ret (lane msum2 0).

(** ** Squared norm *)

Definition fvec_norm_L2sqr_avx x (d : nat) : M A :=
  let* (off, d, msum_0) := strips d 16 (fun off msum_0 =>
      let* mx_0 := loadu 8 (drop off x) in
      let* mx_1 := loadu 8 (drop (off + 8) x) in
      let msum_0 := fmadd mx_0 mx_0 msum_0 in
      let msum_1 := vmul mx_1 mx_1 in
      Ret (vadd msum_0 msum_1)) 0 d (set1 8 nzero) in
  let* (off, d, msum_0) := strip_if 8 (fun off msum_0 =>
      let* mx := loadu 8 (drop off x) in Ret (fmadd mx mx msum_0)) (off, d, msum_0) in
  let* msum_0 :=
    if 0 <? d then
      let* (off, d, rest_0) := strip_if 4 (fun off _ => loadu 4 (drop off x)) (off, d, set1 4 nzero) in
      let* rest_1 := masked_read nzero 4 d (drop off x) in
      (* [_mm256_set_m128(hi, lo)] *)
      let mx := rest_1 ++ rest_0 in
      Ret (fmadd mx mx msum_0)
    else Ret msum_0 in
  Ret (_mm256_reduce_add_ps msum_0).

(** ** One vector against many *)

(** [for (; i + 3 < ny; i += 4)], then one by one. *)
Definition fvec_L2sqr_ny_avx_impl dis x y (d ny : nat) : M (list A) :=
  let* (i, left_rows, dis) := strips ny 4 (fun i dis =>
      let* (d1, d2, d3, d4) := fvec_L2sqr_batch_4_avx x (drop (d * i) y) (drop (d * (i + 1)) y)
        (drop (d * (i + 2)) y) (drop (d * (i + 3)) y) d in
      let* dis := vset dis i d1 in
      let* dis := vset dis (i + 1) d2 in
      let* dis := vset dis (i + 2) d3 in
      vset dis (i + 3) d4) 0 ny dis in
  foldM (fun dis i => let* v := fvec_L2sqr_avx x (drop (d * i) y) d in vset dis i v) dis (seq i left_rows).

(** [my = my - mx; my = my * my] on the 8 floats at [off]. *)
Definition sq_at (mx : list A) y (off : nat) : M (list A) :=
  let* my := loadu 8 (drop off y) in
  let my := vsub my mx in
  Ret (vmul my my).

(** [d == 2]; the row number is [ny - y_i]. *)
Definition fvec_L2sqr_ny_avx_d2_impl dis x y (d ny : nat) : M (list A) :=
  let* e0 := vget x 0 in
  let* e1 := vget x 1 in
  let mx := [e0; e1; e0; e1; e0; e1; e0; e1] in
  let* (i, y_i, dis) := strips ny 16 (fun i dis =>
      let* my1 := sq_at mx y (i * d) in
      let* my2 := sq_at mx y (i * d + 8) in
      let* my3 := sq_at mx y (i * d + 16) in
      let* my4 := sq_at mx y (i * d + 24) in
      let my1 := hadd256_ps my1 my2 in
      let my3 := hadd256_ps my3 my4 in
      let my1 := permutevar8x32_ps my1 [0; 1; 4; 5; 2; 3; 6; 7] in
      let my3 := permutevar8x32_ps my3 [0; 1; 4; 5; 2; 3; 6; 7] in
      let* dis := storeu dis i my1 in
      storeu dis (i + 8) my3) 0 ny dis in
  let* (i, y_i, dis) := strips y_i 4 (fun i dis =>
      let* my1 := sq_at mx y (i * d) in
      let my1 := hadd256_ps my1 my1 in
      let my1 := permutevar8x32_ps my1 [0; 1; 4; 5; 2; 3; 6; 7] in
      storeu dis i (low 4 my1)) i y_i dis in
  foldM (fun dis i =>
      let* f0 := vget (drop (i * d) y) 0 in
      let* f1 := vget (drop (i * d) y) 1 in
      let dis1 := nmul (nsub e0 f0) (nsub e0 f0) in
      let dis1 := nadd dis1 (nmul (nsub e1 f1) (nsub e1 f1)) in
      vset dis i dis1) dis (seq i y_i).

(** [d == 4]. *)
Definition fvec_L2sqr_ny_avx_d4_impl dis x y (d ny : nat) : M (list A) :=
  let* mx_t := loadu 4 x in
  let mx := mx_t ++ mx_t in
  let* (i, y_i, dis) := strips ny 8 (fun i dis =>
      let* my1 := sq_at mx y (i * d) in
      let* my2 := sq_at mx y (i * d + 8) in
      let* my3 := sq_at mx y (i * d + 16) in
      let* my4 := sq_at mx y (i * d + 24) in
      let my1 := hadd256_ps my1 my2 in
      let my3 := hadd256_ps my3 my4 in
      let my1 := hadd256_ps my1 my3 in
      let my1 := permutevar8x32_ps my1 [0; 4; 1; 5; 2; 6; 3; 7] in
      storeu dis i my1) 0 ny dis in
  let* (i, y_i, dis) := strip_if 4 (fun i dis =>
      let* my1 := sq_at mx y (i * d) in
      let* my2 := sq_at mx y (i * d + 8) in
      let my1 := hadd256_ps my1 my2 in
      let my1 := hadd256_ps my1 my1 in
      let my1 := permutevar8x32_ps my1 [0; 4; 1; 5; 2; 6; 3; 7] in
      storeu dis i (low 4 my1)) (i, y_i, dis) in
  let* (i, y_i, dis) := strip_if 2 (fun i dis =>
      let* my1 := sq_at mx y (i * d) in
      let sum_low := hadd_ps (low 4 my1) (low 4 my1) in
      let sum_low := hadd_ps sum_low sum_low in
      let sum_high := hadd_ps (high 4 my1) (high 4 my1) in
      let sum_high := hadd_ps sum_high sum_high in
      let* dis := vset dis i (lane sum_low 0) in
      vset dis (i + 1) (lane sum_high 0)) (i, y_i, dis) in
  if 0 <? y_i then
    let* e0 := vget x 0 in let* e1 := vget x 1 in let* e2 := vget x 2 in let* e3 := vget x 3 in
    let y := drop (i * d) y in
    let* f0 := vget y 0 in let* f1 := vget y 1 in let* f2 := vget y 2 in let* f3 := vget y 3 in
    let dis1 := nmul (nsub e0 f0) (nsub e0 f0) in
    let dis2 := nmul (nsub e1 f1) (nsub e1 f1) in
    let dis1 := nadd dis1 (nmul (nsub e2 f2) (nsub e2 f2)) in
    let dis2 := nadd dis2 (nmul (nsub e3 f3) (nsub e3 f3)) in
    vset dis i (nadd dis1 dis2)
  else Ret dis.

Definition fvec_L2sqr_ny_avx dis x y (d ny : nat) : M (list A) :=
  if d =? 2 then fvec_L2sqr_ny_avx_d2_impl dis x y d ny
  else if d =? 4 then fvec_L2sqr_ny_avx_d4_impl dis x y d ny
  else fvec_L2sqr_ny_avx_impl dis x y d ny.

(** [min_dis] starts at the largest [float]. *)
Definition fvec_L2sqr_ny_nearest_avx `{!FloatMax A} buffer x y (d ny : nat) : M (list A * nat) :=
  let* buffer := fvec_L2sqr_ny_avx buffer x y d ny in
  let* nearest_idx := nearest_scan flt_max buffer ny in
  Ret (buffer, nearest_idx).

End floats.

(** ** 16-bit elements *)

Section half.
Context {A : Type} `{!Num A, !Fma A} (widen : Z -> A).
Implicit Types x y : list Z.

(** Eight converted elements. *)
Definition cvt8 x (off : nat) : M (list A) := let* v := loadu 8 (drop off x) in Ret (widen <$> v).
Definition cvt16 x (off : nat) : M (list A * list A) :=
  let* v := loadu 16 (drop off x) in Ret (widen <$> take 8 v, widen <$> drop 8 v).
Definition cvt_rest x (off d : nat) : M (list A) :=
  let* v := masked_read 0%Z 8 d (drop off x) in Ret (widen <$> v).

Definition half_ip_avx x y (d : nat) : M A :=
  let* (off, d, msum_0) := strips d 16 (fun off msum_0 =>
      let* (mx_0, mx_1) := cvt16 x off in
      let* (my_0, my_1) := cvt16 y off in
      let msum_0 := fmadd mx_0 my_0 msum_0 in
      let msum_1 := vmul mx_1 my_1 in
      Ret (vadd msum_0 msum_1)) 0 d (set1 8 nzero) in
  let* (off, d, msum_0) := strips d 8 (fun off msum_0 =>
      let* mx := cvt8 x off in
      let* my := cvt8 y off in
      Ret (fmadd mx my msum_0)) off d msum_0 in
  let* msum_0 := if 0 <? d then
      let* mx := cvt_rest x off d in
      let* my := cvt_rest y off d in
      Ret (fmadd mx my msum_0)
    else Ret msum_0 in
  Ret (_mm256_reduce_add_ps msum_0).

Definition half_L2sqr_avx x y (d : nat) : M A :=
  let* (off, d, msum_0) := strips d 16 (fun off msum_0 =>
      let* (mx_0, mx_1) := cvt16 x off in
      let* (my_0, my_1) := cvt16 y off in
      let mx_0 := vsub mx_0 my_0 in
      let mx_1 := vsub mx_1 my_1 in
      let msum_0 := fmadd mx_0 mx_0 msum_0 in
      Ret (fmadd mx_1 mx_1 msum_0)) 0 d (set1 8 nzero) in
  let* (off, d, msum_0) := strips d 8 (fun off msum_0 =>
      let* mx := cvt8 x off in
      let* my := cvt8 y off in
      let mx := vsub mx my in
      Ret (fmadd mx mx msum_0)) off d msum_0 in
  let* msum_0 := if 0 <? d then
      let* mx := cvt_rest x off d in
      let* my := cvt_rest y off d in
      let mx := vsub mx my in
      Ret (fmadd mx mx msum_0)
    else Ret msum_0 in
  Ret (_mm256_reduce_add_ps msum_0).

Definition half_norm_avx x (d : nat) : M A :=
  let* (off, d, msum_0) := strips d 16 (fun off msum_0 =>
      let* (mx_0, mx_1) := cvt16 x off in
      let msum_0 := fmadd mx_0 mx_0 msum_0 in
      let msum_1 := vmul mx_1 mx_1 in
      Ret (vadd msum_0 msum_1)) 0 d (set1 8 nzero) in
  let* (off, d, msum_0) := strips d 8 (fun off msum_0 =>
      let* mx := cvt8 x off in Ret (fmadd mx mx msum_0)) off d msum_0 in
  let* msum_0 := if 0 <? d then
      let* mx := cvt_rest x off d in Ret (fmadd mx mx msum_0)
    else Ret msum_0 in
  Ret (_mm256_reduce_add_ps msum_0).

(** Four candidates in one pass. *)
Definition half_batch_4_avx (step : list A -> list A -> list A -> list A) :=
  batch_4_regs 8 cvt8 cvt_rest _mm256_reduce_add_ps step.

Definition ip_lanes (mx my msum : list A) : list A := fmadd mx my msum.
Definition l2_lanes (mx my msum : list A) : list A := let my := vsub mx my in fmadd my my msum.

End half.

(** ** Instances *)

Definition fp16_vec_inner_product_avx := half_ip_avx f16_widen.
Definition fp16_vec_L2sqr_avx := half_L2sqr_avx f16_widen.
Definition fp16_vec_norm_L2sqr_avx := half_norm_avx f16_widen.
Definition fp16_vec_inner_product_batch_4_avx := half_batch_4_avx f16_widen ip_lanes.
Definition fp16_vec_L2sqr_batch_4_avx := half_batch_4_avx f16_widen l2_lanes.

Definition _mm256_bf16_to_fp32 (h : Z) : spec_float := F32.of_bits (u32 (Z.shiftl h 16)).

Definition bf16_vec_inner_product_avx := half_ip_avx _mm256_bf16_to_fp32.
Definition bf16_vec_L2sqr_avx := half_L2sqr_avx _mm256_bf16_to_fp32.
Definition bf16_vec_norm_L2sqr_avx := half_norm_avx _mm256_bf16_to_fp32.
Definition bf16_vec_inner_product_batch_4_avx := half_batch_4_avx _mm256_bf16_to_fp32 ip_lanes.
Definition bf16_vec_L2sqr_batch_4_avx := half_batch_4_avx _mm256_bf16_to_fp32 l2_lanes.

(** ** int8 and bf16-patched kernels: scalar loops *)

Definition ivec_inner_product_avx x y d : M Z := int8_loop int8_ip x y d.
Definition ivec_L2sqr_avx x y d : M Z := int8_loop int8_l2 x y d.
Definition int8_vec_inner_product_avx x y d : M spec_float := let* res := int8_loop int8_ip x y d in Ret (F32.of_Z res).
Definition int8_vec_L2sqr_avx x y d : M spec_float := let* res := int8_loop int8_l2 x y d in Ret (F32.of_Z res).
Definition int8_vec_norm_L2sqr_avx x d : M spec_float := let* res := int8_loop int8_ip x x d in Ret (F32.of_Z res).
Definition int8_vec_inner_product_batch_4_avx := int8_batch_4 int8_ip.
Definition int8_vec_L2sqr_batch_4_avx := int8_batch_4 int8_l2.

Definition fvec_inner_product_bf16_patch_avx x y d := for2 ip_patch x y d F32.zero.
Definition fvec_L2sqr_bf16_patch_avx x y d := for2 l2_patch x y d F32.zero.
Definition fvec_inner_product_batch_4_bf16_patch_avx x y0 y1 y2 y3 d := batch_4 (fun v => v) ip_patch x y0 y1 y2 y3 d.
Definition fvec_L2sqr_batch_4_bf16_patch_avx x y0 y1 y2 y3 d := batch_4 (fun v => v) l2_patch x y0 y1 y2 y3 d.

(** ** RaBitQ *)

(** [_mm256_sllv_epi32(set1_epi8(value), (31, 30, ..., 24))]: lane [i] is shifted
    left by [31 - i], so its sign bit is bit [i] of every byte, that is of [value]. *)
Definition mask_from_u8 (value : Z) : list Z :=
  let v_v := (value + 256 * value + 65536 * value + 16777216 * value)%Z in
  (fun i => (Z.shiftl v_v (31 - Z.of_nat i)) mod 2 ^ 32)%Z <$> seq 0 8.

Section masked_sum.
Context {A : Type} `{!Num A}.
Implicit Types q : list A.

(** [_mm256_maskload_ps(p, mask)]: lanes whose mask has its sign bit set. *)
Definition maskload_ps q (mask : list Z) : M (list A) :=
  masked_load nzero 8 (fun i => Z.testbit (nth i mask 0%Z) 31) q.

Definition horizontal_sum (v : list A) : A :=
  let v0 := vadd (low 4 v) (high 4 v) in
  let v1 := vadd v0 (shuffle_ps v0 v0 0 0 3 2) in
  let v2 := shuffle_ps v1 v1 0 0 0 1 in
  lane (vadd v1 v2) 0.

(** [sum + maskload(q + i, mask_from_u8(x[i / 8]))]. *)
Definition masked_strip q (x : list Z) (i : nat) (sum : list A) : M (list A) :=
  let* b := vget x (i / 8) in
  let* v := maskload_ps (drop i q) (mask_from_u8 b) in
  Ret (vadd sum v).

Definition fvec_masked_sum_avx q (x : list Z) (d : nat) : M A :=
  let d_32 := d / 32 * 32 in
  let d_8 := d / 8 * 8 in
  let zero := set1 8 nzero in
  let* sum_0 :=
    if 0 <? d_32 then
      let* (_, _, (sum_0, sum_1, sum_2, sum_3)) := strips d_32 32 (fun i (st : list A * list A * list A * list A) =>
          let '(sum_0, sum_1, sum_2, sum_3) := st in
          let* sum_0 := masked_strip q x i sum_0 in
          let* sum_1 := masked_strip q x (i + 8) sum_1 in
          let* sum_2 := masked_strip q x (i + 16) sum_2 in
          let* sum_3 := masked_strip q x (i + 24) sum_3 in
          Ret (sum_0, sum_1, sum_2, sum_3)) 0 d_32 (zero, zero, zero, zero) in
      let sum_0 := vadd sum_0 sum_1 in
      let sum_2 := vadd sum_2 sum_3 in
      Ret (vadd sum_0 sum_2)
    else Ret zero in
  let* (_, _, sum_0) := strips (d_8 - d_32) 8 (masked_strip q x) d_32 (d_8 - d_32) sum_0 in
  let* sum_0 :=
    if negb (d =? d_8) then
      let leftovers := d - d_8 in
      let* b := vget x (d_8 / 8) in
      let mask_u8 := Z.land (Z.shiftl 1 (Z.of_nat leftovers) - 1) b in
      let* v := maskload_ps (drop d_8 q) (mask_from_u8 mask_u8) in
      Ret (vadd sum_0 v)
    else Ret sum_0 in
  Ret (horizontal_sum sum_0).

End masked_sum.

(** The same scheme as the scalar kernel. *)
Definition rabitq_dp_popcnt_avx (q x : list Z) (d nb : nat) : M Z :=
  let di_8b := (d + 7) / 8 in
  let di_64b := di_8b / 8 * 8 in
  foldM (fun dot j =>
      let* count_dot := common_bits (drop (j * di_8b) q) x di_8b di_64b in
      let* shifted := i32 (Z.shiftl (Z.of_nat count_dot) (Z.of_nat j)) in
      i32 (dot + shifted)) 0%Z (seq 0 nb).
