(* ===== verification/AvxProps.v ===== *)
(** * The AVX2 kernels compute what the reference kernels compute *)

From S2P Require Import Prelude Float Num Bitset MemoryIO Operands Distances DistanceProps Rvv RvvKernels RvvProps Simd.
From S2P Require Import SimdProps AvxKernels.

#[local] Open Scope Z_scope.

Lemma reduce_exact (v : list Z) : length v = 8%nat -> _mm256_reduce_add_ps v = lanesum v.
Proof. intros (a & b & c & d & e & f & g & h & ->)%reg8. unfold _mm256_reduce_add_ps. cbn -[Z.add]. lia. Qed.

Lemma reduce_holds T n acc : holds 8 T n acc -> _mm256_reduce_add_ps acc = lanesum (take n T).
Proof. intros [Hl <-]. by apply reduce_exact. Qed.

(** ** L1 *)

Section L1.
Context (x y : list Z).
Let T := zip_with dist1 x y.

Lemma abs_strip_holds w off acc : (off + w <= length x)%nat -> (off + w <= length y)%nat -> holds w T off acc ->
  wp (abs_strip vadd w x y off acc) (holds w T (off + w)).
Proof.
  intros Hx Hy Hh. unfold abs_strip. rewrite !loadu_ok by done. cbn [bind wp]. rewrite vsub_dist1.
  destruct (slice_terms dist1 x y w off Hx Hy) as (Lx & Ly & E). rewrite E.
  eapply holds_add; [done| |lia|done]. rewrite <- E, length_zip_with. lia.
Qed.

Lemma abs_tail_holds off d acc : (off + d <= length x)%nat -> (off + d <= length y)%nat -> (d < 8)%nat ->
  holds 4 T off acc -> wp (abs_tail vadd x y off d acc) (holds 4 T (off + d)).
Proof.
  intros Hx Hy Hd Hh. unfold abs_tail. apply wp_bind.
  eapply wp_mono; [apply (strip_if_spec (holds 4 T) (off + d)); [done|done|]|].
  { intros t Ho Ht. apply abs_strip_holds; [lia|lia|done]. }
  intros [[o e] s] (Ho & He & Hs). specialize (He ltac:(lia)). rewrite <- Ho in *. clear Hh Ho.
  destruct (Nat.ltb_spec 0 e) as [H0|H0]; cbn [wp]; [|by replace e with 0%nat by lia; rewrite Nat.add_0_r].
  change (@nzero Z Z_num) with 0. rewrite !masked_read_spec by lia. cbn [bind wp]. rewrite vsub_dist1.
  destruct (padded_terms dist1 x y 4 e o 0) as (Lx & Ly & E); [lia|done|done|done|].
  eapply holds_add; [done| |lia|done]. rewrite length_zip_with. lia.
Qed.

Lemma l1_avx_value d : (d <= length x)%nat -> (d <= length y)%nat ->
  fvec_L1_avx x y d = Ret (lanesum (take d T)).
Proof.
  intros Hx Hy.
  match goal with |- ?m = Ret ?r => assert (wp m (fun q => q = r)) as E; [|by apply wp_elim in E as (? & -> & ->)] end.
  unfold fvec_L1_avx. apply wp_bind.
  eapply wp_mono; [apply (strips_spec (holds 8 T) d); [lia|lia|lia|apply holds_zero|]|].
  { intros o t Ho Ht. apply abs_strip_holds; [lia|lia|done]. }
  intros [[o e] s] (<- & He & Hs). apply wp_bind. eapply wp_mono; [apply abs_tail_holds; [done|done|done|]|].
  { rewrite vadd_comm. by apply (halves_sum 4). }
  intros acc [Hl Ha]. cbn [wp]. by rewrite hadd_twice.
Qed.

End L1.

(** ** Squared norm *)

Lemma norm_avx_value x d : (d <= length x)%nat ->
  fvec_norm_L2sqr_avx x d = Ret (lanesum (take d (zip_with Z.mul x x))).
Proof.
  intros Hx. set (T := zip_with Z.mul x x).
  match goal with |- ?m = Ret ?r => assert (wp m (fun q => q = r)) as E; [|by apply wp_elim in E as (? & -> & ->)] end.
  unfold fvec_norm_L2sqr_avx. apply wp_bind.
  eapply wp_mono; [apply (strips_spec (holds 8 T) d); [lia|lia|lia|apply holds_zero|]|].
  { intros o t Ho Ht. rewrite !loadu_ok by lia. cbn [bind wp]. rewrite fmadd_mul.
    replace (o + 16)%nat with (o + 8 + 8)%nat by lia. apply ip_strip_holds; [lia|lia|]. apply ip_strip_holds; [lia|lia|done]. }
  intros [[o e] s] (Ho & He & Hs). apply wp_bind.
  eapply wp_mono; [apply (strip_if_spec (holds 8 T) d); [done|done|]|].
  { intros t Ho' Ht. rewrite !loadu_ok by lia. cbn [bind wp]. apply ip_strip_holds; [lia|lia|done]. }
  intros [[o' e'] s'] (Ho' & He' & Hs'). specialize (He' ltac:(lia)). apply wp_bind.
  apply (wp_mono _ (holds 8 T d)); [|intros acc Ha; cbn [wp]; by apply reduce_holds].
  destruct (Nat.ltb_spec 0 e'); cbn [wp]; [|by replace d with o' by lia].
  assert (forall k r, (k <= e')%nat -> (e' - k < 4)%nat -> length r = 4%nat ->
    lanesum (zip_with Z.mul r r) = lanesum (slice o' (o' + k) T) ->
    wp (let* rest_1 := masked_read 0 4 (e' - k) (drop (o' + k) x) in
        let mx := rest_1 ++ r in Ret (fmadd mx mx s')) (holds 8 T d)) as Hrest.
  { intros k r Hk Hek Lr Er. rewrite masked_read_spec by lia. cbn [bind wp].
    destruct (padded_terms Z.mul x x 4 (e' - k) (o' + k) 0) as (L & _ & E); [lia..|done|].
    assert (d = o' + k + (e' - k))%nat as -> by lia.
    eapply holds_fmadd; [done|rewrite length_app; lia|rewrite length_app; lia|lia|].
    rewrite zip_with_app, lanesum_app, E, Er by done. rewrite (slice_sum T o' (o' + k) (o' + k + (e' - k))) by lia. fold T. lia. }
  unfold strip_if. change (@nzero Z Z_num) with 0. destruct (Nat.leb_spec 4 e').
  - rewrite loadu_ok by lia. cbn [bind]. destruct (slice_terms Z.mul x x 4 o') as (L & _ & E); [lia..|].
    apply Hrest; [lia|lia|done|by rewrite E].
  - cbn [bind]. rewrite <- (Nat.sub_0_r e'), <- (Nat.add_0_r o').
    apply Hrest; [lia|lia|done|]. rewrite slice_nil by lia. done.
Qed.

(** ** 16-bit elements, widened by an exact conversion *)

Section half.
Context (widen : Z -> Z) (widen_0 : widen 0 = 0).
Implicit Types x y : list Z.

Lemma cvt8_ok x off : (off + 8 <= length x)%nat -> cvt8 widen x off = Ret (slice off (off + 8) (widen <$> x)).
Proof. intros H. unfold cvt8. rewrite loadu_ok by done. cbn [bind]. by rewrite slice_fmap. Qed.

Lemma cvt16_ok x off : (off + 16 <= length x)%nat ->
  cvt16 widen x off = Ret (slice off (off + 8) (widen <$> x), slice (off + 8) (off + 8 + 8) (widen <$> x)).
Proof.
  intros H. unfold cvt16. rewrite loadu_ok by done. cbn [bind]. rewrite !fmap_take, !fmap_drop, slice_fmap.
  rewrite take_slice, drop_slice by lia. by replace (off + 16)%nat with (off + 8 + 8)%nat by lia.
Qed.

Lemma cvt_rest_ok x off d : (d < 8)%nat -> (off + d <= length x)%nat ->
  cvt_rest widen x off d = Ret (slice off (off + d) (widen <$> x) ++ replicate (8 - d) 0).
Proof.
  intros Hd H. unfold cvt_rest. rewrite masked_read_spec by lia. cbn [bind].
  by rewrite fmap_app, slice_fmap, fmap_replicate, widen_0.
Qed.

(** The three loops of a kernel, given what a strip of 16, a strip of 8 and the
    rest do to the sum. *)
Lemma half_loops T d (s16 s8 : nat -> list Z -> M (list Z)) (rest : nat -> nat -> list Z -> M (list Z)) :
  (forall o t, (o + 16 <= d)%nat -> holds 8 T o t -> wp (s16 o t) (holds 8 T (o + 16))) ->
  (forall o t, (o + 8 <= d)%nat -> holds 8 T o t -> wp (s8 o t) (holds 8 T (o + 8))) ->
  (forall o e t, (o + e = d)%nat -> (e < 8)%nat -> holds 8 T o t -> wp (rest o e t) (holds 8 T d)) ->
  (let* (off, e, msum_0) := strips d 16 s16 0 d (set1 8 nzero) in
   let* (off, e, msum_0) := strips e 8 s8 off e msum_0 in
   let* msum_0 := if (0 <? e)%nat then rest off e msum_0 else Ret msum_0 in
   Ret (_mm256_reduce_add_ps msum_0)) = Ret (lanesum (take d T)).
Proof.
  intros H16 H8 Hr.
  match goal with |- ?m = Ret ?r => assert (wp m (fun q => q = r)) as E; [|by apply wp_elim in E as (? & -> & ->)] end.
  apply wp_bind. eapply wp_mono; [apply (strips_spec (holds 8 T) d); [lia|lia|lia|apply holds_zero|done]|].
  intros [[o e] s] (Ho & He & Hs). apply wp_bind.
  eapply wp_mono; [apply (strips_spec (holds 8 T) d); [lia|lia|lia|done|done]|].
  intros [[o' e'] s'] (Ho' & He' & Hs'). apply wp_bind.
  apply (wp_mono _ (holds 8 T d)); [|intros acc Ha; cbn [wp]; by apply reduce_holds].
  destruct (Nat.ltb_spec 0 e'); cbn [wp]; [by apply Hr|by replace d with o' by lia].
Qed.

Lemma half_ip_avx_value x y d : (d <= length x)%nat -> (d <= length y)%nat ->
  half_ip_avx widen x y d = fvec_inner_product_ref (widen <$> x) (widen <$> y) d.
Proof.
  intros Hx Hy. rewrite ip_ref_value by (rewrite length_fmap; lia).
  apply half_loops.
  - intros o t Ho Ht. rewrite !cvt16_ok by lia. cbn [bind wp]. rewrite fmadd_mul.
    replace (o + 16)%nat with (o + 8 + 8)%nat by lia. do 2 (apply ip_strip_holds; [rewrite length_fmap; lia..|]). done.
  - intros o t Ho Ht. rewrite !cvt8_ok by lia. cbn [bind wp]. apply ip_strip_holds; [rewrite length_fmap; lia..|done].
  - intros o e t <- He Ht. rewrite !cvt_rest_ok by lia. cbn [bind wp].
    apply ip_rest_holds; [lia|rewrite length_fmap; lia..|done].
Qed.

Lemma half_l2_avx_value x y d : (d <= length x)%nat -> (d <= length y)%nat ->
  half_L2sqr_avx widen x y d = fvec_L2sqr_ref (widen <$> x) (widen <$> y) d.
Proof.
  intros Hx Hy. rewrite l2_ref_value by (rewrite length_fmap; lia).
  apply half_loops.
  - intros o t Ho Ht. rewrite !cvt16_ok by lia. cbn [bind wp].
    replace (o + 16)%nat with (o + 8 + 8)%nat by lia. do 2 (apply l2_strip_holds; [rewrite length_fmap; lia..|]). done.
  - intros o t Ho Ht. rewrite !cvt8_ok by lia. cbn [bind wp]. apply l2_strip_holds; [rewrite length_fmap; lia..|done].
  - intros o e t <- He Ht. rewrite !cvt_rest_ok by lia. cbn [bind wp].
    apply l2_rest_holds; [lia|rewrite length_fmap; lia..|done].
Qed.

Lemma half_norm_avx_value x d : (d <= length x)%nat ->
  half_norm_avx widen x d = fvec_inner_product_ref (widen <$> x) (widen <$> x) d.
Proof.
  intros Hx. rewrite ip_ref_value by (rewrite length_fmap; lia).
  apply half_loops.
  - intros o t Ho Ht. rewrite !cvt16_ok by lia. cbn [bind wp]. rewrite fmadd_mul.
    replace (o + 16)%nat with (o + 8 + 8)%nat by lia. do 2 (apply ip_strip_holds; [rewrite length_fmap; lia..|]). done.
  - intros o t Ho Ht. rewrite !cvt8_ok by lia. cbn [bind wp]. apply ip_strip_holds; [rewrite length_fmap; lia..|done].
  - intros o e t <- He Ht. rewrite !cvt_rest_ok by lia. cbn [bind wp].
    apply ip_rest_holds; [lia|rewrite length_fmap; lia..|done].
Qed.

End half.

Lemma ip_lanes_adds w : adds w ip_lanes Z.mul.
Proof. split; intros; [by apply ip_strip_holds|by apply ip_rest_holds]. Qed.

Lemma l2_lanes_adds w : adds w l2_lanes sq.
Proof. split; intros; [by apply l2_strip_holds|by apply l2_rest_holds]. Qed.

Lemma half_batch_value widen step f x y0 y1 y2 y3 d : widen 0 = 0 -> adds 8 step f -> (d <= length x)%nat ->
  Forall (fun p => (d <= length p)%nat) [y0; y1; y2; y3] ->
  let s y := lanesum (take d (zip_with f (widen <$> x) (widen <$> y))) in
  half_batch_4_avx widen step x y0 y1 y2 y3 d = Ret (s y0, s y1, s y2, s y3).
Proof.
  intros Hz Hs Hx Hy. apply batch_4_regs_value; try done; try lia.
  - apply cvt8_ok.
  - by apply cvt_rest_ok.
  - apply reduce_exact.
Qed.

(** * The one-against-many AVX2 kernels *)

(** ** Filling the result array in strips *)

Section fill.
Context {V : Type} (v : nat -> V) (dis : list V).

(** The array after the first [i] rows. *)
Definition filled (i : nat) (r : list V) : Prop := r = (v <$> seq 0 i) ++ drop i dis.

Lemma filled_0 : filled 0 dis.
Proof. done. Qed.

Lemma length_filled i : length (v <$> seq 0 i) = i.
Proof. by rewrite length_fmap, length_seq. Qed.

Lemma storeu_filled i w r u : (i + w <= length dis)%nat -> filled i r -> u = v <$> seq i w ->
  wp (storeu r i u) (filled (i + w)).
Proof.
  intros Hd -> ->. unfold storeu. rewrite length_fmap, length_seq.
  apply wp_memcpy; rewrite ?length_app, ?length_filled, ?length_drop, ?length_fmap, ?length_seq; [lia|lia|].
  unfold filled. rewrite <- (length_filled i) at 1.
  rewrite take_app_length, slice_0, (take_ge (v <$> seq i w)) by (rewrite length_fmap, length_seq; lia).
  rewrite seq_app, fmap_app, <- app_assoc. f_equal. f_equal.
  rewrite drop_app_ge, length_filled, drop_drop by (rewrite length_filled; lia). f_equal. lia.
Qed.

Lemma vset_next_row i r u : (i < length dis)%nat -> filled i r -> u = v i -> wp (vset r i u) (filled (i + 1)).
Proof.
  intros Hd -> ->. apply wp_vset_next; [by rewrite length_filled| |].
  - intros E. apply (f_equal length) in E. rewrite length_drop in E. simpl in E. lia.
  - intros y rest E. unfold filled. rewrite seq_app, fmap_app, <- drop_drop, E. done.
Qed.

Lemma vset_rows i w r (body : list V -> nat -> M (list V)) : (i + w <= length dis)%nat -> filled i r ->
  (forall k t, (i <= k < i + w)%nat -> body t k = vset t k (v k)) -> wp (foldM body r (seq i w)) (filled (i + w)).
Proof.
  revert i r. induction w as [|w IH]; intros i r Hw Hr Hg; [by rewrite Nat.add_0_r|]. simpl.
  rewrite Hg by lia. apply wp_bind.
  eapply wp_mono; [by apply vset_next_row; [lia| |]|]. intros r' Hr'. rewrite <- Nat.add_succ_comm.
  rewrite Nat.add_1_r in Hr'. apply IH; [lia|done|]. intros k t Hk. apply Hg. lia.
Qed.

End fill.

(** ** The three variants *)

Section rows.
Context (x y dis : list Z) (d ny : nat).
Hypothesis Hx : (d <= length x)%nat.
Hypothesis Hy : (ny * d <= length y)%nat.
Hypothesis Hdis : (ny <= length dis)%nat.

Definition row_l2 (i : nat) : Z := lanesum (take d (zip_with sq x (drop (i * d) y))).

Lemma row_length i : (i < ny)%nat -> (d <= length (drop (i * d) y))%nat.
Proof. clear Hx Hdis. intros H. rewrite length_drop. nia. Qed.

Lemma ref_rows : fvec_L2sqr_ny_ref dis x y d ny = Ret ((row_l2 <$> seq 0 ny) ++ drop ny dis).
Proof.
  apply fill_spec; [done|]. intros i Hi. apply l2_ref_value; [done|]. by apply row_length.
Qed.

Lemma rows_value (m : M (list Z)) : wp m (filled row_l2 dis ny) -> m = fvec_L2sqr_ny_ref dis x y d ny.
Proof. rewrite ref_rows. by intros (r & -> & ->)%wp_elim. Qed.

Lemma l2_rows_impl : fvec_L2sqr_ny_avx_impl dis x y d ny = fvec_L2sqr_ny_ref dis x y d ny.
Proof.
  apply rows_value. unfold fvec_L2sqr_ny_avx_impl. apply wp_bind.
  eapply wp_mono; [apply (strips_spec (filled row_l2 dis) ny); [lia|lia|lia|done|]|].
  - intros i r Hi Hr. unfold fvec_L2sqr_batch_4_avx. rewrite !(Nat.mul_comm d).
    rewrite (batch_ref_value _ sq) by (done || (apply row_length; lia)). cbn [bind].
    apply wp_bind. eapply wp_mono; [apply vset_next_row; [|done|done]; lia|]. clear r Hr. intros r Hr.
    apply wp_bind. eapply wp_mono; [apply vset_next_row; [|done|done]; lia|]. clear r Hr. intros r Hr.
    apply wp_bind. replace (i + 1 + 1)%nat with (i + 2)%nat in Hr by lia.
    eapply wp_mono; [apply vset_next_row; [|done|done]; lia|]. clear r Hr. intros r Hr.
    replace (i + 2 + 1)%nat with (i + 3)%nat in Hr by lia. replace (i + 4)%nat with (i + 3 + 1)%nat by lia.
    apply vset_next_row; [lia|done|done].
  - intros [[i e] r] (Hie & He & Hr). rewrite <- Hie. apply (vset_rows row_l2 dis i e r); [lia|done|].
    intros k t Hk. rewrite Nat.mul_comm. change (fvec_L2sqr_avx x ?p d) with (fvec_L2sqr_ref x p d).
    rewrite l2_ref_value; [done|done|]. apply row_length. lia.
Qed.

End rows.

(** The elements of a register loaded at [base + c]. *)
Lemma load8_at (y : list Z) base c : (base + c + 8 <= length y)%nat ->
  loadu 8 (drop (base + c) y) = Ret ((fun j => y !!! (base + (c + j))%nat) <$> seq 0 8).
Proof.
  intros H. rewrite loadu_ok by lia. f_equal. apply list_eq. intros j. rewrite list_lookup_fmap.
  destruct (decide (j < 8)%nat) as [Hj|Hj].
  - rewrite lookup_seq_lt by done. simpl. unfold slice. rewrite lookup_take_lt, lookup_drop by lia.
    rewrite list_lookup_lookup_total_lt by lia. do 2 f_equal. lia.
  - rewrite lookup_seq_ge, lookup_ge_None_2 by (rewrite ?length_slice; lia). done.
Qed.

Lemma drop_cons_total {B} `{!Inhabited B} (y : list B) n : (n < length y)%nat -> drop n y = y !!! n :: drop (S n) y.
Proof. intros H. apply drop_S. by apply list_lookup_lookup_total_lt. Qed.

Lemma row_l2_2 a b x' y i k : ((i + k) * 2 + 2 <= length y)%nat ->
  row_l2 (a :: b :: x') y 2 (i + k) = sq a (y !!! (i * 2 + (2 * k))%nat) + sq b (y !!! (i * 2 + (2 * k + 1))%nat).
Proof.
  intros H. unfold row_l2. rewrite !drop_cons_total by lia. cbn -[Nat.mul Nat.add sq lookup_total Z.add].
  replace (S ((i + k) * 2)) with (i * 2 + (2 * k + 1))%nat by lia.
  replace ((i + k) * 2)%nat with (i * 2 + 2 * k)%nat by lia. rewrite take_0. cbn [foldr]. lia.
Qed.

Lemma row_l2_4 a b c e x' y i k : ((i + k) * 4 + 4 <= length y)%nat ->
  row_l2 (a :: b :: c :: e :: x') y 4 (i + k) =
    sq a (y !!! (i * 4 + (4 * k))%nat) + sq b (y !!! (i * 4 + (4 * k + 1))%nat) +
    sq c (y !!! (i * 4 + (4 * k + 2))%nat) + sq e (y !!! (i * 4 + (4 * k + 3))%nat).
Proof.
  intros H. unfold row_l2. rewrite !drop_cons_total by lia. cbn -[Nat.mul Nat.add sq lookup_total Z.add].
  replace (S (S (S ((i + k) * 4)))) with (i * 4 + (4 * k + 3))%nat by lia.
  replace (S (S ((i + k) * 4))) with (i * 4 + (4 * k + 2))%nat by lia.
  replace (S ((i + k) * 4)) with (i * 4 + (4 * k + 1))%nat by lia.
  replace ((i + k) * 4)%nat with (i * 4 + 4 * k)%nat by lia. rewrite take_0. cbn [foldr]. lia.
Qed.

Lemma seq_from i c n : seq (i + c) n = (fun k => (i + (c + k))%nat) <$> seq 0 n.
Proof.
  rewrite <- (Nat.add_0_r (i + c)), <- fmap_add_seq. apply list_fmap_ext. intros _ k _. lia.
Qed.

(** Squares of the differences of a loaded register from [mx]. *)
Lemma sq_at_ok mx y base c : (base + c + 8 <= length y)%nat -> length mx = 8%nat ->
  sq_at mx y (base + c) = Ret (zip_with sq ((fun j => y !!! (base + (c + j))%nat) <$> seq 0 8) mx).
Proof. intros H Hm. unfold sq_at. rewrite load8_at by done. cbn [bind]. by rewrite <- vsub_sq. Qed.

(** The values of the rows from [i] on, and a loaded register, as lists of
    elements. *)
Ltac eval_rows i c n :=
  rewrite (seq_from i c n); unfold hadd256_ps, hadd_ps, permutevar8x32_ps, low, high, lane, set1;
  cbn -[Nat.mul Z.add Z.mul lookup_total row_l2 sq Nat.add];
  repeat first [rewrite row_l2_2 by lia | rewrite row_l2_4 by lia];
  cbn [Nat.mul Nat.add]; unfold sq; repeat (apply (f_equal2 cons); [ring|]); reflexivity.

(** The same from the first row of the strip on. *)
Ltac eval_rows0 i n := replace (seq i n) with (seq (i + 0) n) by (f_equal; lia); eval_rows i 0%nat n.

Lemma one_row {V} (v : nat -> V) i u : [u] = v <$> seq i 1 -> u = v i.
Proof. by intros [= ->]. Qed.

Lemma l2_rows_d2 x y dis ny : (2 <= length x)%nat -> (ny * 2 <= length y)%nat -> (ny <= length dis)%nat ->
  fvec_L2sqr_ny_avx_d2_impl dis x y 2 ny = fvec_L2sqr_ny_ref dis x y 2 ny.
Proof.
  intros Hx Hy Hd. apply rows_value; [done..|]. destruct x as [|a [|b x']]; simpl in Hx; try lia. clear Hx.
  unfold fvec_L2sqr_ny_avx_d2_impl. cbn [vget lookup list_lookup bind].
  set (v := row_l2 (a :: b :: x') y 2). apply wp_bind.
  eapply wp_mono; [apply (strips_spec (filled v dis) ny); [lia|lia|lia|done|]|].
  { intros i r Hi Hr. rewrite <- (Nat.add_0_r (i * 2)) at 1. rewrite !sq_at_ok by (lia || done). cbn [bind].
    apply wp_bind. eapply wp_mono; [apply (storeu_filled v dis i 8); [lia|done|subst v; eval_rows0 i 8%nat]|].
    intros r' Hr'. replace (i + 16)%nat with (i + 8 + 8)%nat by lia.
    apply (storeu_filled v dis (i + 8) 8); [lia|done|subst v; eval_rows i 8%nat 8%nat]. }
  intros [[i e] r] (Hie & He & Hr). apply wp_bind.
  eapply wp_mono; [apply (strips_spec (filled v dis) ny); [lia|lia|lia|done|]|].
  { clear i e r Hie He Hr. intros i r Hi Hr. rewrite <- (Nat.add_0_r (i * 2)). rewrite !sq_at_ok by (lia || done). cbn [bind].
    apply storeu_filled; [lia|done|subst v; eval_rows0 i 4%nat]. }
  clear i e r Hie He Hr. intros [[i e] r] (Hie & He & Hr). rewrite <- Hie.
  apply vset_rows; [lia|done|]. intros k t Hk. rewrite !vget_total by (rewrite length_drop; lia). cbn [bind].
  f_equal. subst v. rewrite <- (Nat.add_0_r k) at 5. rewrite row_l2_2 by lia. rewrite !lookup_total_drop. done.
Qed.

Lemma l2_rows_d4 x y dis ny : (4 <= length x)%nat -> (ny * 4 <= length y)%nat -> (ny <= length dis)%nat ->
  fvec_L2sqr_ny_avx_d4_impl dis x y 4 ny = fvec_L2sqr_ny_ref dis x y 4 ny.
Proof.
  intros Hx Hy Hd. apply rows_value; [done..|]. destruct x as [|a [|b [|c [|f x']]]]; simpl in Hx; try lia. clear Hx.
  unfold fvec_L2sqr_ny_avx_d4_impl. cbn [loadu Nat.leb length take vget lookup list_lookup bind].
  rewrite !take_0. cbn [app].
  set (v := row_l2 (a :: b :: c :: f :: x') y 4). apply wp_bind.
  eapply wp_mono; [apply (strips_spec (filled v dis) ny); [lia|lia|lia|done|]|].
  { intros i r Hi Hr. rewrite <- (Nat.add_0_r (i * 4)) at 1. rewrite !sq_at_ok by (lia || done). cbn [bind].
    apply storeu_filled; [lia|done|subst v; eval_rows0 i 8%nat]. }
  intros [[i e] r] (Hie & He & Hr). apply wp_bind.
  eapply wp_mono; [apply (strip_if_spec (filled v dis) ny); [lia|done|]|].
  { clear r Hr. intros r Hi Hr. rewrite <- (Nat.add_0_r (i * 4)) at 1. rewrite !sq_at_ok by (lia || done). cbn [bind].
    apply storeu_filled; [lia|done|subst v; eval_rows0 i 4%nat]. }
  clear r Hr. intros [[i' e'] r] (Hie' & He' & Hr). specialize (He' He). apply wp_bind. clear i e Hie He.
  eapply wp_mono; [apply (strip_if_spec (filled v dis) ny); [lia|done|]|].
  { clear r Hr. intros r Hi Hr. rewrite <- (Nat.add_0_r (i' * 4)) at 1. rewrite !sq_at_ok by (lia || done). cbn [bind].
    apply wp_bind. eapply wp_mono; [apply (vset_next_row v dis); [lia|done|apply one_row; subst v; eval_rows0 i' 1%nat]|].
    clear r Hr. intros r Hr. replace (i' + 2)%nat with (i' + 1 + 1)%nat by lia.
    apply (vset_next_row v dis); [lia|done|apply one_row; subst v; eval_rows i' 1%nat 1%nat]. }
  clear r Hr. intros [[i e] r] (Hie & He & Hr). specialize (He He'). clear i' e' Hie' He'.
  destruct (Nat.ltb_spec 0 e); cbn [wp]; [|by replace ny with i by lia].
  rewrite !vget_total by (rewrite length_drop; lia). cbn [bind]. replace ny with (i + 1)%nat by lia.
  apply (vset_next_row v dis); [lia|done|]. subst v. rewrite <- (Nat.add_0_r i) at 9. rewrite row_l2_4 by lia.
  rewrite !lookup_total_drop. cbn [Nat.mul Nat.add]. unfold sq. simpl. lia.
Qed.

(** * The masked sum of the AVX2 kernels *)

Lemma mask_from_u8_bit b j : 0 <= b < 256 -> (j < 8)%nat ->
  Z.testbit (nth j (mask_from_u8 b) 0) 31 = Z.testbit b (Z.of_nat j).
Proof.
  intros Hb Hj. unfold mask_from_u8. set (v := b + 256 * b + 65536 * b + 16777216 * b).
  rewrite (nth_lookup_Some _ _ _ (Z.shiftl v (31 - Z.of_nat j) mod 2 ^ 32)).
  2:{ rewrite list_lookup_fmap, lookup_seq_lt by done. done. }
  rewrite Z.mod_pow2_bits_low, Z.shiftl_spec by lia. replace (31 - (31 - Z.of_nat j)) with (Z.of_nat j) by lia.
  rewrite <- (Z.mod_pow2_bits_low v 8) by lia. f_equal.
  replace v with (b + (b + 256 * b + 65536 * b) * 2 ^ 8) by lia. rewrite Z.mod_add by done.
  apply Z.mod_small. lia.
Qed.

Lemma div_block k j : (j < 8)%nat -> ((8 * k + j) / 8)%nat = k.
Proof. intros H. rewrite Nat.mul_comm, Nat.div_add_l, Nat.div_small by lia. lia. Qed.

Lemma mod_block k j : (j < 8)%nat -> ((8 * k + j) mod 8)%nat = j.
Proof. intros H. rewrite Nat.add_comm, Nat.mul_comm, Nat.Div0.mod_add, Nat.mod_small by lia. done. Qed.

Section masked.
Context (q x : list Z) (d : nat).
Hypothesis Hq : (d <= length q)%nat.
Hypothesis Hx : (d <= 8 * length x)%nat.
Hypothesis Hbytes : Forall (fun b => 0 <= b < 256) x.

Definition masked_term (i : nat) : Z :=
  if Z.testbit (x !!! (i / 8)%nat) (Z.of_nat (i mod 8)) then q !!! i else 0.
Let T := masked_term <$> seq 0 d.

Lemma length_T : length T = d.
Proof. unfold T. by rewrite length_fmap, length_seq. Qed.

Lemma slice_T i w : (i + w <= d)%nat -> slice i (i + w) T = masked_term <$> seq i w.
Proof.
  intros H. apply list_eq. intros j. unfold slice. replace (i + w - i)%nat with w by lia.
  destruct (decide (j < w)%nat) as [Hj|Hj].
  - rewrite lookup_take_lt, lookup_drop by done. unfold T. rewrite !list_lookup_fmap, !lookup_seq_lt by lia. done.
  - rewrite lookup_take_ge, list_lookup_fmap, lookup_seq_ge by lia. done.
Qed.

(** The lanes read under the mask byte of position [8 * k], the first [w] of
    them selected at most. *)
Lemma maskload_lanes k w b : (w <= 8)%nat -> (8 * k + w <= d)%nat -> 0 <= b < 256 ->
  (forall j, (j < 8)%nat -> Z.testbit b (Z.of_nat j) = (j <? w)%nat && Z.testbit (x !!! k) (Z.of_nat j)) ->
  exists v, maskload_ps (drop (8 * k) q) (mask_from_u8 b) = Ret v /\ length v = 8%nat /\
    lanesum v = lanesum (slice (8 * k) (8 * k + w) T).
Proof.
  intros Hw Hk Hb Hbit. unfold maskload_ps.
  rewrite (masked_load_ext _ _ _ (fun j => (j <? w)%nat && Z.testbit (x !!! k) (Z.of_nat j))).
  2:{ intros j Hj. rewrite mask_from_u8_bit by done. by apply Hbit. }
  rewrite masked_load_spec.
  2:{ intros j _ [Hj%Nat.ltb_lt _]%andb_prop. rewrite length_drop. lia. }
  eexists. split; [done|]. split; [done|]. rewrite slice_T by done.
  rewrite (lanesum_prefix _ w) by (done || (intros j Hj; destruct (Nat.ltb_spec j w); [lia|done])).
  f_equal. replace (seq (8 * k) w) with (Nat.add (8 * k) <$> seq 0 w) by (rewrite fmap_add_seq; f_equal; lia).
  rewrite <- list_fmap_compose.
  apply list_fmap_ext. intros j ? [-> Hj]%lookup_seq. unfold compose. rewrite Nat.add_0_l. unfold masked_term.
  destruct (Nat.ltb_spec j w); [|lia]. rewrite lookup_total_drop, div_block, mod_block by lia. done.
Qed.

Lemma masked_strip_holds k acc : (8 * k + 8 <= d)%nat -> length acc = 8%nat ->
  wp (masked_strip q x (8 * k) acc) (fun r => length r = 8%nat /\
    lanesum r = lanesum acc + lanesum (slice (8 * k) (8 * k + 8) T)).
Proof.
  intros Hk Ha. unfold masked_strip. replace (8 * k / 8)%nat with k by (rewrite Nat.mul_comm, Nat.div_mul; lia).
  rewrite vget_total by lia. cbn [bind].
  assert (0 <= x !!! k < 256) as Hb by (apply (Forall_lookup_total_1 _ _ _ Hbytes); lia).
  destruct (maskload_lanes k 8 (x !!! k)) as (v & -> & Hl & Hs); [lia|lia|done| |].
  { intros j Hj. destruct (Nat.ltb_spec j 8); [done|lia]. }
  cbn [bind wp]. unfold vadd. rewrite length_zip_with. split; [lia|].
  change (lanesum (zip_with Z.add acc v) = lanesum acc + lanesum (slice (8 * k) (8 * k + 8) T)).
  rewrite lanesum_add by lia. lia.
Qed.

(** Four sums side by side. *)
Lemma masked_strips_holds m : let d_32 := (8 * (4 * m))%nat in (d_32 <= d)%nat ->
  wp (strips d_32 32 (fun i (st : list Z * list Z * list Z * list Z) =>
      let '(sum_0, sum_1, sum_2, sum_3) := st in
      let* sum_0 := masked_strip q x i sum_0 in
      let* sum_1 := masked_strip q x (i + 8) sum_1 in
      let* sum_2 := masked_strip q x (i + 16) sum_2 in
      let* sum_3 := masked_strip q x (i + 24) sum_3 in
      Ret (sum_0, sum_1, sum_2, sum_3)) 0 d_32 (set1 8 0, set1 8 0, set1 8 0, set1 8 0))
    (fun '(_, _, (a, b, c, f)) => holds 8 T d_32 (vadd (vadd a b) (vadd c f))).
Proof.
  intros d_32 Hd.
  set (Inv := fun off (st : list Z * list Z * list Z * list Z) => let '(a, b, c, f) := st in
    (exists k, off = 8 * (4 * k))%nat /\ length a = 8%nat /\ length b = 8%nat /\ length c = 8%nat /\ length f = 8%nat /\
    lanesum a + lanesum b + lanesum c + lanesum f = lanesum (take off T)).
  eapply wp_mono; [apply (strips_spec Inv d_32); [lia|lia|lia| |]|].
  - split_and!; [by exists 0%nat|done..].
  - intros o [[[a b] c] f] Ho ((k0 & ->) & La & Lb & Lc & Lf & Hs). remember (4 * k0)%nat as k eqn:Ek.
    replace (8 * k + 8)%nat with (8 * (k + 1))%nat by lia. replace (8 * k + 16)%nat with (8 * (k + 2))%nat by lia.
    replace (8 * k + 24)%nat with (8 * (k + 3))%nat by lia. replace (8 * k + 32)%nat with (8 * (k + 4))%nat by lia.
    apply wp_bind. eapply wp_mono; [apply masked_strip_holds; [lia|done]|]. intros a' [La' Ha].
    apply wp_bind. eapply wp_mono; [apply masked_strip_holds; [lia|done]|]. intros b' [Lb' Hb].
    apply wp_bind. eapply wp_mono; [apply masked_strip_holds; [lia|done]|]. intros c' [Lc' Hc].
    apply wp_bind. eapply wp_mono; [apply masked_strip_holds; [lia|done]|]. intros f' [Lf' Hf]. cbn [wp].
    split_and!; [exists (k0 + 1)%nat; lia|done..|].
    rewrite (lanesum_slice T (8 * k)), (slice_sum T (8 * k) (8 * k + 8)), (slice_sum T (8 * k + 8) (8 * (k + 1) + 8)),
      (slice_sum T (8 * (k + 1) + 8) (8 * (k + 2) + 8)) by lia.
    replace (8 * (k + 4))%nat with (8 * (k + 3) + 8)%nat by lia.
    replace (8 * k + 8)%nat with (8 * (k + 1))%nat in * by lia.
    replace (8 * (k + 1) + 8)%nat with (8 * (k + 2))%nat in * by lia.
    replace (8 * (k + 2) + 8)%nat with (8 * (k + 3))%nat in * by lia. lia.
  - intros [[o e] [[[a b] c] f]] (Ho & He & (k & Hk) & La & Lb & Lc & Lf & Hs).
    replace d_32 with o by lia.
    assert (length (vadd a b) = 8%nat /\ length (vadd c f) = 8%nat) as [L1 L2]
      by (unfold vadd; rewrite !length_zip_with; lia).
    split; [unfold vadd; rewrite length_zip_with; fold (vadd a b) (vadd c f); lia|].
    rewrite <- Hs. unfold vadd, nadd, Z_num in *. rewrite !lanesum_add by (rewrite ?length_zip_with; lia). lia.
Qed.

(** The strips of 8 and the leftover bits. *)
Lemma masked_rest_holds acc k n : (8 * (k + n) <= d)%nat -> holds 8 T (8 * k) acc ->
  wp (strips (8 * n) 8 (masked_strip q x) (8 * k) (8 * n) acc)
    (fun '(_, _, r) => holds 8 T (8 * (k + n)) r).
Proof.
  intros Hd Ha. eapply wp_mono; [apply (strips_spec (fun o r => (exists k, o = 8 * k)%nat /\ holds 8 T o r) (8 * (k + n)))|].
  - lia.
  - lia.
  - lia.
  - split; [by exists k|done].
  - intros o t Ho [[m ->] [Lt Ht]]. eapply wp_mono; [apply masked_strip_holds; [lia|done]|].
    intros r [Lr Hr]. split; [exists (m + 1)%nat; lia|]. split; [done|].
    rewrite Hr, Ht, (lanesum_slice T (8 * m) (8 * m + 8)) by lia. done.
  - intros [[o e] r] (Ho & He & (m & ->) & Hr). by replace (8 * (k + n))%nat with (8 * m)%nat by lia.
Qed.

Lemma masked_left_holds acc k w : (8 * k + w = d)%nat -> (0 < w < 8)%nat -> holds 8 T (8 * k) acc ->
  wp (let* b := vget x k in
      let* v := maskload_ps (drop (8 * k) q) (mask_from_u8 (Z.land (Z.shiftl 1 (Z.of_nat w) - 1) b)) in
      Ret (vadd acc v)) (holds 8 T d).
Proof.
  intros Hd Hw Ha. rewrite vget_total by lia. cbn [bind].
  assert (0 <= x !!! k < 256) as Hb by (apply (Forall_lookup_total_1 _ _ _ Hbytes); lia).
  replace (Z.shiftl 1 (Z.of_nat w) - 1) with (Z.ones (Z.of_nat w)) by (rewrite Z.ones_equiv, Z.shiftl_1_l; lia).
  rewrite Z.land_comm, Z.land_ones by lia.
  destruct (maskload_lanes k w (x !!! k mod 2 ^ Z.of_nat w)) as (v & -> & Hl & Hs); [lia|lia| | |].
  { pose proof (Z.mod_pos_bound (x !!! k) (2 ^ Z.of_nat w) ltac:(apply Z.pow_pos_nonneg; lia)).
    pose proof (Z.mod_le (x !!! k) (2 ^ Z.of_nat w) (proj1 Hb) ltac:(apply Z.pow_pos_nonneg; lia)). lia. }
  { intros j Hj. destruct (Nat.ltb_spec j w).
    - by rewrite Z.mod_pow2_bits_low by lia.
    - by rewrite Z.mod_pow2_bits_high by lia. }
  cbn [bind wp]. eapply holds_add; [done|done|lia|]. rewrite Hs. by rewrite Hd.
Qed.

Lemma land_masker b k : 0 <= k < 8 -> (Z.land b (Z.shiftl 1 k mod 256) =? Z.shiftl 1 k mod 256) = Z.testbit b k.
Proof.
  intros Hk. assert (0 < 2 ^ k < 256) as Hp by (split; [apply Z.pow_pos_nonneg; lia|apply (Z.pow_lt_mono_r 2 k 8); lia]).
  rewrite Z.mod_small by (rewrite Z.shiftl_1_l; lia). rewrite Z.shiftl_1_l.
  destruct (Z.testbit b k) eqn:E.
  - assert (Z.land b (2 ^ k) = 2 ^ k) as ->; [|by rewrite Z.eqb_refl].
    apply Z.bits_inj'. intros n Hn. rewrite Z.land_spec, Z.pow2_bits_eqb by lia.
    destruct (Z.eqb_spec k n) as [<-|]; [by rewrite E|apply andb_false_r].
  - assert (Z.land b (2 ^ k) = 0) as ->; [|apply Z.eqb_neq; lia].
    apply Z.bits_inj'. intros n Hn. rewrite Z.land_spec, Z.pow2_bits_eqb, Z.bits_0 by lia.
    destruct (Z.eqb_spec k n) as [<-|]; [by rewrite E|apply andb_false_r].
Qed.

Lemma masked_ref_value : fvec_masked_sum_ref q x d = Ret (lanesum (take d T)).
Proof.
  match goal with |- ?m = Ret ?r => assert (wp m (fun u => u = r)) as E; [|by apply wp_elim in E as (? & -> & ->)] end.
  apply (wp_for _ (fun i r => r = lanesum (take i T))); [done| |done].
  intros i r Hi ->. assert (i / 8 < length x)%nat by (apply Nat.Div0.div_lt_upper_bound; lia).
  rewrite !vget_total by lia. cbn [bind wp]. rewrite land_masker by (pose proof (Nat.mod_upper_bound i 8); lia).
  rewrite Nat.add_1_r, (take_S_r _ _ (masked_term i)).
  - rewrite lanesum_app. unfold masked_term. cbn -[Z.add Nat.modulo Nat.div]. lia.
  - unfold T. rewrite list_lookup_fmap, lookup_seq_lt by lia. done.
Qed.

Lemma horizontal_sum_exact (v : list Z) : length v = 8%nat -> horizontal_sum v = lanesum v.
Proof. intros (a & b & c & e & f & g & h & k & ->)%reg8. unfold horizontal_sum. cbn -[Z.add]. lia. Qed.

Lemma masked_sum_value : fvec_masked_sum_avx q x d = fvec_masked_sum_ref q x d.
Proof.
  rewrite masked_ref_value.
  match goal with |- ?m = Ret ?r => assert (wp m (fun u => u = r)) as E; [|by apply wp_elim in E as (? & -> & ->)] end.
  unfold fvec_masked_sum_avx. change (@nzero Z Z_num) with 0.
  pose proof (Nat.div_mod_eq d 32). pose proof (Nat.mod_upper_bound d 32).
  pose proof (Nat.div_mod_eq d 8). pose proof (Nat.mod_upper_bound d 8).
  replace (d / 32 * 32)%nat with (8 * (4 * (d / 32)))%nat by lia. set (k := (4 * (d / 32))%nat) in *.
  replace (d / 8 * 8)%nat with (8 * (k + (d / 8 - k)))%nat by lia. set (n := (d / 8 - k)%nat) in *.
  apply wp_bind. apply (wp_mono _ (holds 8 T (8 * k))).
  { destruct (Nat.ltb_spec 0 (8 * k)); cbn [wp]; [|replace k with 0%nat by lia; apply holds_zero].
    apply wp_bind. eapply wp_mono; [apply masked_strips_holds; lia|].
    intros [[? ?] [[[a b] c] f]] Hs. exact Hs. }
  intros acc Hacc. apply wp_bind.
  replace (8 * (k + n) - 8 * k)%nat with (8 * n)%nat by lia.
  eapply wp_mono; [apply masked_rest_holds; [lia|done]|]. clear acc Hacc. intros [[? ?] acc] Hacc.
  apply wp_bind. apply (wp_mono _ (holds 8 T d)).
  { destruct (Nat.eqb_spec d (8 * (k + n))) as [Heq|Hne]; cbn [negb wp]; [by rewrite <- Heq in Hacc|].
    replace (8 * (k + n) / 8)%nat with (k + n)%nat by (rewrite Nat.mul_comm, Nat.div_mul; lia).
    apply masked_left_holds; [lia|lia|done]. }
  intros r [Hl Hr]. cbn [wp]. by rewrite horizontal_sum_exact.
Qed.
End masked.

(** * The Linf distance of the AVX2 kernels *)

#[local] Close Scope Z_scope.

(** The maximum of the last four lanes. *)
Lemma last_max S v : length v = 4 -> Forall mag S -> covers S v ->
  let msum2 := vmax (movehl_ps v v) v in
  covers S [lane (vmax msum2 (shuffle_ps msum2 msum2 0 0 0 1)) 0].
Proof.
  intros Hl HS Hv. destruct v as [|a [|b [|c [|f [|]]]]]; try done.
  apply (covers_halves _ [a; b] [c; f]) in Hv as [_ Hv]; [|done|done].
  apply (covers_halves _ [_] [_]) in Hv as [Hv _]; [|done|done]. exact Hv.
Qed.

Section linf.
Context (x y : list spec_float) (d : nat).
Hypothesis Hx : d <= length x.
Hypothesis Hy : d <= length y.
Let T := diffs x y.
Hypothesis HT : Forall mag (take d T).

Lemma max_strip_covering w off acc : off + w <= d -> covering w T off acc ->
  wp (abs_strip vmax w x y off acc) (covering w T (off + w)).
Proof.
  intros Hd Hc. unfold abs_strip. rewrite !loadu_ok by lia. cbn [bind wp]. rewrite slice_diffs.
  rewrite <- (app_nil_r (slice off (off + w) (diffs x y))).
  apply (covering_step w T off w 0); [apply Hc|lia|unfold T; rewrite length_diffs; lia| |done].
  eapply mags_take; [|done]. lia.
Qed.

Lemma max_tail_covering off e acc : off + e = d -> e < 8 -> covering 4 T off acc ->
  wp (abs_tail vmax x y off e acc) (covering 4 T d).
Proof.
  intros Hd He Hc. unfold abs_tail. apply wp_bind.
  eapply wp_mono; [apply (strip_if_spec (covering 4 T) d); [done|done|]|].
  { intros t Ho Ht. apply max_strip_covering; [lia|done]. }
  intros [[o k] v] (Ho & Hk & Hv). specialize (Hk ltac:(lia)).
  destruct (Nat.ltb_spec 0 k); cbn [wp]; [|by replace d with o by lia].
  change (@nzero _ F32_num) with F32.zero. rewrite !masked_read_spec by lia. cbn [bind wp].
  rewrite padded_diffs by lia. rewrite <- Ho. rewrite <- Ho in HT.
  apply covering_step; [apply Hv|lia|unfold T; rewrite length_diffs; lia|done|done].
Qed.

Lemma linf_avx_value : fvec_Linf_avx x y d = fvec_Linf_ref x y d.
Proof.
  destruct (linf_ref_covers x y d Hx Hy HT) as (r & -> & Hr).
  match goal with |- ?m = Ret _ => assert (wp m (fun u => u = r)) as E; [|by apply wp_elim in E as (? & -> & ->)] end.
  unfold fvec_Linf_avx. change (@nzero _ F32_num) with F32.zero. apply wp_bind.
  eapply wp_mono; [apply (strips_spec (covering 8 T) d); [lia|lia|lia| |]|].
  { split; [done|]. apply (covers_zero 8). lia. }
  { intros o t Ho Ht. by apply max_strip_covering. }
  intros [[o e] v] (Ho & He & [Hl Hv]). apply wp_bind.
  eapply wp_mono; [apply max_tail_covering; [done|done|]|].
  { split; [unfold vmax, high, low; rewrite length_zip_with, length_drop, length_take; lia|].
    apply covers_halves; [rewrite length_take, length_drop; lia|eapply mags_take; [|done]; lia|by rewrite take_drop]. }
  clear v Hl Hv. intros v [Hl Hv]. cbn [wp]. symmetry. apply (covers_unique (take d T)); [done|done|]. by apply last_max.
Qed.

End linf.
