(* ===== verification/SseKernels.v ===== *)
(** * The SSE4.2 kernels (src/simd/distances_sse.cc) *)

From S2P Require Import Prelude Float Num Operands MemoryIO Bitset Distances Rvv RvvKernels Simd.

(** ** Sums of products

    [load] is the conversion of an element, [zero] the element that pads the
    last register. *)

Section sums.
Context {A B : Type} `{!Num A} (zero : B) (ld : B -> A).
Implicit Types x y : list B.

Definition ld4 x (off : nat) : M (list A) := let* v := loadu 4 (drop off x) in Ret (ld <$> v).
Definition ld4_rest x (off d : nat) : M (list A) := let* v := masked_read zero 4 d (drop off x) in Ret (ld <$> v).
(** [mm_masked_read_short] fills eight lanes, the conversion takes four. *)
Definition ld4_rest8 x (off d : nat) : M (list A) :=
  let* v := masked_read zero 8 d (drop off x) in Ret (ld <$> take 4 v).

(** Two horizontal additions, lane 0. *)
Definition hadd2 (msum : list A) : A :=
  let msum := hadd_ps msum msum in
  let msum := hadd_ps msum msum in
  lane msum 0.

(** [msum + term] per strip of four. *)
Definition sse_strips (term : (list B -> M (list A)) -> M (list A)) (d : nat) : M (nat * nat * list A) :=
  strips d 4 (fun off msum => let* t := term (fun p => ld4 p off) in Ret (vadd msum t)) 0 d (set1 4 nzero).

Definition ip_term x y (load : list B -> M (list A)) : M (list A) :=
  let* mx := load x in let* my := load y in Ret (vmul mx my).
Definition l2_term x y (load : list B -> M (list A)) : M (list A) :=
  let* mx := load x in let* my := load y in let a_m_b := vsub mx my in Ret (vmul a_m_b a_m_b).
Definition norm_term x (load : list B -> M (list A)) : M (list A) :=
  let* mx := load x in Ret (vmul mx mx).

(** The rest is added always, or only when there is one. *)
Definition sum_always (term : (list B -> M (list A)) -> M (list A)) (d : nat) : M A :=
  let* (off, d, msum1) := sse_strips term d in
  let* prod := term (fun p => ld4_rest p off d) in
  Ret (hadd2 (vadd msum1 prod)).
Definition sum_if (rest : list B -> nat -> nat -> M (list A)) (term : (list B -> M (list A)) -> M (list A)) (d : nat) : M A :=
  let* (off, d, msum1) := sse_strips term d in
  let* msum1 := if 0 <? d then let* t := term (fun p => rest p off d) in Ret (vadd msum1 t) else Ret msum1 in
  Ret (hadd2 msum1).

End sums.

Section floats.
Context {A : Type} `{!Num A}.
Implicit Types x y a b c dis : list A.

Definition fvec_inner_product_sse x y (d : nat) : M A := sum_always nzero (fun v : A => v) (ip_term x y) d.
Definition fvec_L2sqr_sse x y (d : nat) : M A := 
  sum_if (fun v : A => v) (ld4_rest nzero (fun v : A => v)) (l2_term x y) d.
Definition fvec_norm_L2sqr_sse x (d : nat) : M A := sum_always nzero (fun v : A => v) (norm_term x) d.

Definition fvec_L1_sse x y (d : nat) : M A := fvec_L1_ref x y d.

(** ** Multiply-add; [aligned] says that the three pointers are multiples of 16 *)

Definition fvec_madd_sse (aligned : bool) (n : nat) a (bf : A) b c : M (list A) :=
  if negb (n mod 4 =? 0) || negb aligned then fvec_madd_ref n a bf b c
  else
    let bf4 := set1 4 bf in
    foldM (fun c k =>
        let* a4 := loadu 4 (drop (4 * k) a) in
        let* b4 := loadu 4 (drop (4 * k) b) in
        storeu c (4 * k) (vadd a4 (vmul bf4 b4))) c (seq 0 (n / 4)).

(** [_mm_cmpgt_ps(u, v)] as a list of bits, and the two masked moves. *)
Definition cmpgt_ps (u v : list A) : list bool := zip_with (fun s t => nltb t s) u v.
Definition select (mask : list bool) (idx4 imin4 : list Z) : list Z :=
  zip_with (fun (m : bool) (p : Z * Z) => if m then fst p else snd p) mask (zip idx4 imin4).

(** [_mm_shuffle_epi32(v, imm)] with the lanes that [imm] names. *)
Definition shuffle_epi32 (v : list Z) (l0 l1 l2 l3 : nat) : list Z :=
  let at_ i := nth i v 0%Z in [at_ l0; at_ l1; at_ l2; at_ l3].

(** [vmin0] is 1e20; indices are 32-bit. *)
Definition fvec_madd_and_argmin_sse (vmin0 : A) (aligned : bool) (n : nat) a (bf : A) b c : M (list A * Z) :=
  if negb (n mod 4 =? 0) || negb aligned then fvec_madd_and_argmin_ref vmin0 n a bf b c
  else
    let bf4 := set1 4 bf in
    let* (c, vmin4, imin4, idx4) := foldM (fun '(c, vmin4, imin4, idx4) k =>
        let* a4 := loadu 4 (drop (4 * k) a) in
        let* b4 := loadu 4 (drop (4 * k) b) in
        let vc4 := vadd a4 (vmul bf4 b4) in
        let* c := storeu c (4 * k) vc4 in
        let mask := cmpgt_ps vmin4 vc4 in
        let imin4 := select mask idx4 imin4 in
        let vmin4 := vmin vmin4 vc4 in
        let idx4 := (fun i => wrap32 (i + 4)) <$> idx4 in
        Ret (c, vmin4, imin4, idx4))
      (c, set1 4 vmin0, replicate 4 (-1)%Z, [0; 1; 2; 3]%Z) (seq 0 (n / 4)) in
    (* 4 values -> 2 *)
    let idx4 := shuffle_epi32 imin4 2 3 0 0 in
    let vc4 := shuffle_ps vmin4 vmin4 0 0 3 2 in
    let mask := cmpgt_ps vmin4 vc4 in
    let imin4 := select mask idx4 imin4 in
    let vmin4 := vmin vmin4 vc4 in
    (* 2 values -> 1 *)
    let idx4 := shuffle_epi32 imin4 1 0 0 0 in
    let vc4 := shuffle_ps vmin4 vmin4 0 0 0 1 in
    let mask := cmpgt_ps vmin4 vc4 in
    let imin4 := select mask idx4 imin4 in
    Ret (c, nth 0 imin4 (-1)%Z).

(** ** One vector against many: [ElementOp::op], on numbers and lane-wise *)

Definition ElementOpL2 (s t : A) : A := let tmp := nsub s t in nmul tmp tmp.
Definition ElementOpIP (s t : A) : A := nmul s t.

Section op.
Context (op : A -> A -> A).
Let vop : list A -> list A -> list A := zip_with op.

Definition fvec_op_ny_D1 dis x y (ny : nat) : M (list A) :=
  let* x0s := vget x 0 in
  let m0 := set1 4 x0s in
  let* (i, rest, dis) := strips ny 4 (fun i dis =>
      let* my := loadu 4 (drop i y) in
      let accu := vop m0 my in
      let* dis := vset dis i (lane accu 0) in
      let* dis := vset dis (i + 1) (lane (shuffle_ps accu accu 0 0 0 1) 0) in
      let* dis := vset dis (i + 2) (lane (shuffle_ps accu accu 0 0 0 2) 0) in
      vset dis (i + 3) (lane (shuffle_ps accu accu 0 0 0 3) 0)) 0 ny dis in
  foldM (fun dis i => let* yi := vget y i in vset dis i (op x0s yi)) dis (seq i rest).

Definition fvec_op_ny_D2 dis x y (ny : nat) : M (list A) :=
  let* e0 := vget x 0 in
  let* e1 := vget x 1 in
  let m0 := [e0; e1; e0; e1] in
  let* (i, rest, dis) := strips ny 2 (fun i dis =>
      let* my := loadu 4 (drop (2 * i) y) in
      let accu := vop m0 my in
      let accu := hadd_ps accu accu in
      let* dis := vset dis i (lane accu 0) in
      let accu := shuffle_ps accu accu 0 0 0 3 in
      vset dis (i + 1) (lane accu 0)) 0 ny dis in
  if 0 <? rest then
    let* f0 := vget (drop (2 * i) y) 0 in
    let* f1 := vget (drop (2 * i) y) 1 in
    vset dis i (nadd (op e0 f0) (op e1 f1))
  else Ret dis.

Definition fvec_op_ny_D4 dis x y (ny : nat) : M (list A) :=
  let* m0 := loadu 4 x in
  foldM (fun dis i =>
      let row := drop (i * 4) y in
      let* my := loadu 4 row in
      let accu := vop m0 my in
      vset dis i (hadd2 accu)) dis (seq 0 ny).

Definition fvec_op_ny_D8 dis x y (ny : nat) : M (list A) :=
  let* m0 := loadu 4 x in
  let* m1 := loadu 4 (drop 4 x) in
  foldM (fun dis i =>
      let row := drop (i * 8) y in
      let* my := loadu 4 row in
      let accu := vop m0 my in
      let* my := loadu 4 (drop 4 row) in
      let accu := vadd accu (vop m1 my) in
      vset dis i (hadd2 accu)) dis (seq 0 ny).

Definition fvec_op_ny_D12 dis x y (ny : nat) : M (list A) :=
  let* m0 := loadu 4 x in
  let* m1 := loadu 4 (drop 4 x) in
  let* m2 := loadu 4 (drop 8 x) in
  foldM (fun dis i =>
      let row := drop (i * 12) y in
      let* my := loadu 4 row in
      let accu := vop m0 my in
      let* my := loadu 4 (drop 4 row) in
      let accu := vadd accu (vop m1 my) in
      let* my := loadu 4 (drop 8 row) in
      let accu := vadd accu (vop m2 my) in
      vset dis i (hadd2 accu)) dis (seq 0 ny).

(** The switch over the dimension; [one] handles the others. *)
Definition ny_sse (one : list A -> list A -> nat -> M A) dis x y (d ny : nat) : M (list A) :=
  match d with
  | 1 => fvec_op_ny_D1 dis x y ny
  | 2 => fvec_op_ny_D2 dis x y ny
  | 4 => fvec_op_ny_D4 dis x y ny
  | 8 => fvec_op_ny_D8 dis x y ny
  | 12 => fvec_op_ny_D12 dis x y ny
  | _ => foldM (fun dis i => let* v := one x (drop (i * d) y) d in vset dis i v) dis (seq 0 ny)
  end.
End op.

Definition fvec_inner_products_ny_sse := ny_sse ElementOpIP fvec_inner_product_sse.
Definition fvec_L2sqr_ny_sse := ny_sse ElementOpL2 fvec_L2sqr_sse.

(** ** RaBitQ: the scalar loops *)

Definition fvec_masked_sum_sse (q : list A) (x : list Z) (d : nat) : M A :=
  foldM (fun sum i =>
      let masker := (Z.shiftl 1 (Z.of_nat (i mod 8)) mod 256)%Z in
      let* byte := vget x (i / 8) in
      let b_bit := (Z.land byte masker =? masker)%Z in
      let* qi := vget q i in
      Ret (nadd sum (if b_bit then qi else nzero))) nzero (seq 0 d).

End floats.

Definition fvec_Linf_sse (x y : list spec_float) (d : nat) : M spec_float := fvec_Linf_ref x y d.

Definition rabitq_dp_popcnt_sse (q x : list Z) (d nb : nat) : M Z :=
  let di_8b := (d + 7) / 8 in
  let di_64b := di_8b / 8 * 8 in
  foldM (fun dot j =>
      let* count_dot := common_bits (drop (j * di_8b) q) x di_8b di_64b in
      let* shifted := i32 (Z.shiftl (Z.of_nat count_dot) (Z.of_nat j)) in
      i32 (dot + shifted)) 0%Z (seq 0 nb).

(** ** bf16 and int8 *)

Section half.
Context {A : Type} `{!Num A} (widen : Z -> A).
Definition half_ip_sse (x y : list Z) (d : nat) : M A := sum_if widen (ld4_rest8 0%Z widen) (ip_term x y) d.
Definition half_L2sqr_sse (x y : list Z) (d : nat) : M A := sum_if widen (ld4_rest8 0%Z widen) (l2_term x y) d.
Definition half_norm_sse (x : list Z) (d : nat) : M A := sum_if widen (ld4_rest8 0%Z widen) (norm_term x) d.
End half.

Definition _mm_bf16_to_fp32 (h : Z) : spec_float := F32.of_bits (u32 (Z.shiftl h 16)).

Definition bf16_vec_inner_product_sse := half_ip_sse _mm_bf16_to_fp32.
Definition bf16_vec_L2sqr_sse := half_L2sqr_sse _mm_bf16_to_fp32.
Definition bf16_vec_norm_L2sqr_sse := half_norm_sse _mm_bf16_to_fp32.

Definition ivec_inner_product_sse x y d : M Z := int8_loop int8_ip x y d.
Definition ivec_L2sqr_sse x y d : M Z := int8_loop int8_l2 x y d.
Definition int8_vec_inner_product_sse x y d : M spec_float := let* res := int8_loop int8_ip x y d in Ret (F32.of_Z res).
Definition int8_vec_L2sqr_sse x y d : M spec_float := let* res := int8_loop int8_l2 x y d in Ret (F32.of_Z res).
Definition int8_vec_norm_L2sqr_sse x d : M spec_float := let* res := int8_loop int8_ip x x d in Ret (F32.of_Z res).
