(* ===== verification/SseProps.v ===== *)
(** * The SSE kernels compute what the reference kernels compute *)

From S2P Require Import Prelude Float Num Bitset MemoryIO Operands Distances DistanceProps Rvv RvvKernels RvvProps Simd.
From S2P Require Import SimdProps AvxProps SseKernels.

#[local] Open Scope Z_scope.

Lemma hadd2_holds T n v : holds 4 T n v -> hadd2 v = lanesum (take n T).
Proof. intros [Hl <-]. by apply hadd_twice. Qed.

(** ** Sums of products *)

Section sums.
Context {B : Type} (zero : B) (ld : B -> Z) (ld_0 : ld zero = 0).
Implicit Types x y : list B.

Lemma ld4_ok x off : (off + 4 <= length x)%nat -> ld4 ld x off = Ret (slice off (off + 4) (ld <$> x)).
Proof. intros H. unfold ld4. rewrite loadu_ok by done. cbn [bind]. by rewrite slice_fmap. Qed.

Lemma ld4_rest_ok x off d : (d < 4)%nat -> (off + d <= length x)%nat ->
  ld4_rest zero ld x off d = Ret (slice off (off + d) (ld <$> x) ++ replicate (4 - d) 0).
Proof.
  intros Hd H. unfold ld4_rest. rewrite masked_read_spec by lia. cbn [bind].
  by rewrite fmap_app, slice_fmap, fmap_replicate, ld_0.
Qed.

Lemma ld4_rest8_ok x off d : (d < 4)%nat -> (off + d <= length x)%nat ->
  ld4_rest8 zero ld x off d = Ret (slice off (off + d) (ld <$> x) ++ replicate (4 - d) 0).
Proof.
  intros Hd H. unfold ld4_rest8. rewrite masked_read_spec by lia. cbn [bind].
  assert (length (slice off (off + d) x) = d) as Hl by (rewrite length_slice; lia).
  rewrite take_app_ge by lia. rewrite Hl, take_replicate, fmap_app, slice_fmap, fmap_replicate, ld_0.
  do 3 f_equal. lia.
Qed.

(** What the terms of a strip and of the rest are. *)
Definition terms_ok (rest : list B -> nat -> nat -> M (list Z)) (term : (list B -> M (list Z)) -> M (list Z))
    (T : list Z) (d : nat) : Prop :=
  (forall o, (o + 4 <= d)%nat -> wp (term (fun p => ld4 ld p o)) (fun t => length t = 4%nat /\
    lanesum t = lanesum (slice o (o + 4) T))) /\
  (forall o e, (o + e = d)%nat -> (e < 4)%nat -> wp (term (fun p => rest p o e)) (fun t => length t = 4%nat /\
    lanesum t = lanesum (slice o (o + e) T))).

Lemma sse_strips_spec rest term T d : terms_ok rest term T d ->
  wp (sse_strips ld term d) (fun '(o, e, s) => (o + e = d)%nat /\ (e < 4)%nat /\ holds 4 T o s).
Proof.
  intros [H4 _]. apply (strips_spec (holds 4 T) d); [lia|lia|lia|apply holds_zero|].
  intros o t Ho Ht. apply wp_bind. eapply wp_mono; [by apply H4|]. intros u [Lu Eu]. cbn [wp].
  eapply holds_add; [done|done|lia|done].
Qed.

Lemma sum_always_value term T d : terms_ok (ld4_rest zero ld) term T d ->
  sum_always zero ld term d = Ret (lanesum (take d T)).
Proof.
  intros Ht.
  match goal with |- ?m = Ret ?r => assert (wp m (fun q => q = r)) as E; [|by apply wp_elim in E as (? & -> & ->)] end.
  apply wp_bind. eapply wp_mono; [by eapply sse_strips_spec|]. intros [[o e] s] (Ho & He & Hs).
  apply wp_bind. eapply wp_mono; [by apply Ht|]. intros u [Lu Eu]. cbn [wp].
  apply hadd2_holds. rewrite <- Ho. eapply holds_add; [done|done|lia|done].
Qed.

Lemma sum_if_value rest term T d : terms_ok rest term T d -> sum_if ld rest term d = Ret (lanesum (take d T)).
Proof.
  intros Ht.
  match goal with |- ?m = Ret ?r => assert (wp m (fun q => q = r)) as E; [|by apply wp_elim in E as (? & -> & ->)] end.
  apply wp_bind. eapply wp_mono; [by eapply sse_strips_spec|]. intros [[o e] s] (Ho & He & Hs).
  apply wp_bind. apply (wp_mono _ (holds 4 T d)); [|intros r Hr; cbn [wp]; by apply hadd2_holds].
  destruct (Nat.ltb_spec 0 e); cbn [wp]; [|by replace d with o by lia].
  apply wp_bind. eapply wp_mono; [by apply Ht|]. intros u [Lu Eu]. cbn [wp].
  rewrite <- Ho. eapply holds_add; [done|done|lia|done].
Qed.

Section rest.
Context (rest : list B -> nat -> nat -> M (list Z)).
Hypothesis Hrest : forall p o d, (d < 4)%nat -> (o + d <= length p)%nat ->
  rest p o d = Ret (slice o (o + d) (ld <$> p) ++ replicate (4 - d) 0).

Lemma ip_terms x y d : (d <= length x)%nat -> (d <= length y)%nat ->
  terms_ok rest (ip_term x y) (zip_with Z.mul (ld <$> x) (ld <$> y)) d.
Proof.
  intros Hx Hy. split; intros; unfold ip_term.
  - rewrite !ld4_ok by lia. cbn [bind wp].
    destruct (slice_terms Z.mul (ld <$> x) (ld <$> y) 4 o) as (Lx & Ly & E); [rewrite length_fmap; lia..|].
    unfold vmul. rewrite length_zip_with. split; [lia|]. by rewrite <- E.
  - rewrite !Hrest by lia. cbn [bind wp].
    destruct (padded_terms Z.mul (ld <$> x) (ld <$> y) 4 e o 0) as (Lx & Ly & E); [lia|rewrite length_fmap; lia..|done|].
    unfold vmul. rewrite length_zip_with. split; [lia|exact E].
Qed.

Lemma norm_terms x d : (d <= length x)%nat ->
  terms_ok rest (norm_term x) (zip_with Z.mul (ld <$> x) (ld <$> x)) d.
Proof.
  intros Hx. destruct (ip_terms x x d Hx Hx) as [H1 H2]. split; intros.
  - specialize (H1 o ltac:(done)). unfold ip_term in H1. unfold norm_term. rewrite !ld4_ok in * by lia. exact H1.
  - specialize (H2 o e ltac:(done) ltac:(done)). unfold ip_term in H2. unfold norm_term.
    rewrite !Hrest in * by lia. exact H2.
Qed.

Lemma l2_terms x y d : (d <= length x)%nat -> (d <= length y)%nat ->
  terms_ok rest (l2_term x y) (zip_with sq (ld <$> x) (ld <$> y)) d.
Proof.
  intros Hx Hy. split; intros; unfold l2_term.
  - rewrite !ld4_ok by lia. cbn [bind wp].
    destruct (slice_terms sq (ld <$> x) (ld <$> y) 4 o) as (Lx & Ly & E); [rewrite length_fmap; lia..|].
    unfold vmul. change nmul with Z.mul. rewrite vsub_sq, E. split; [rewrite <- E, length_zip_with; lia|done].
  - rewrite !Hrest by lia. cbn [bind wp].
    destruct (padded_terms sq (ld <$> x) (ld <$> y) 4 e o 0) as (Lx & Ly & E); [lia|rewrite length_fmap; lia..|done|].
    unfold vmul. change nmul with Z.mul. rewrite vsub_sq. split; [rewrite length_zip_with; lia|exact E].
Qed.
End rest.
End sums.

Lemma fmap_id_list (l : list Z) : (fun v : Z => v) <$> l = l.
Proof. apply list_fmap_id. Qed.

Lemma ip_sse_value x y d : (d <= length x)%nat -> (d <= length y)%nat ->
  fvec_inner_product_sse x y d = Ret (lanesum (take d (zip_with Z.mul x y))).
Proof.
  intros Hx Hy. rewrite <- (fmap_id_list x) at 2. rewrite <- (fmap_id_list y) at 2.
  apply sum_always_value, ip_terms; [|done|done]. intros. by apply ld4_rest_ok.
Qed.

Lemma l2_sse_value x y d : (d <= length x)%nat -> (d <= length y)%nat ->
  fvec_L2sqr_sse x y d = Ret (lanesum (take d (zip_with sq x y))).
Proof.
  intros Hx Hy. rewrite <- (fmap_id_list x) at 2. rewrite <- (fmap_id_list y) at 2.
  apply sum_if_value, l2_terms; [|done|done]. intros. by apply ld4_rest_ok.
Qed.

Lemma norm_sse_value x d : (d <= length x)%nat ->
  fvec_norm_L2sqr_sse x d = Ret (lanesum (take d (zip_with Z.mul x x))).
Proof.
  intros Hx. rewrite <- (fmap_id_list x) at 2 3.
  apply sum_always_value, norm_terms; [|done]. intros. by apply ld4_rest_ok.
Qed.

(** ** One vector against many *)

Section rows.
Context (f : Z -> Z -> Z) (x y dis : list Z) (d ny : nat).
Hypothesis Hx : (d <= length x)%nat.
Hypothesis Hy : (ny * d <= length y)%nat.
Hypothesis Hdis : (ny <= length dis)%nat.

Definition row_sum (i : nat) : Z := lanesum (take d (zip_with f x (drop (i * d) y))).

(** Lanes [o] to [o + 4] of the terms of a row. *)
Lemma row_reg i o : (i < ny)%nat -> (o + 4 <= d)%nat ->
  let row := drop (i * d) y in
  loadu 4 (drop o x) = Ret (slice o (o + 4) x) /\ loadu 4 (drop o row) = Ret (slice o (o + 4) row) /\
  length (slice o (o + 4) x) = 4%nat /\ length (slice o (o + 4) row) = 4%nat /\
  zip_with f (slice o (o + 4) x) (slice o (o + 4) row) = slice o (o + 4) (zip_with f x row).
Proof.
  clear Hdis. intros Hi Ho row. assert (d <= length row)%nat as Hr by (subst row; rewrite length_drop; nia).
  destruct (slice_terms f x row 4 o) as (Lx & Ly & E); [lia|lia|].
  rewrite !loadu_ok by lia. done.
Qed.

End rows.

Lemma holds_first (f : Z -> Z -> Z) x row : (4 <= length x)%nat -> (4 <= length row)%nat ->
  holds 4 (zip_with f x row) 4 (slice 0 4 (zip_with f x row)).
Proof.
  intros Hx Hr. split; [rewrite length_slice; rewrite ?length_zip_with; lia|by rewrite slice_0].
Qed.

Lemma load4_at {B} `{!Inhabited B} (y : list B) base : (base + 4 <= length y)%nat ->
  loadu 4 (drop base y) = Ret [y !!! base; y !!! (base + 1)%nat; y !!! (base + 2)%nat; y !!! (base + 3)%nat].
Proof.
  intros H. unfold loadu. rewrite length_drop. destruct (Nat.leb_spec 4 (length y - base)); [|lia].
  rewrite !drop_cons_total by lia. cbn [take]. rewrite take_0.
  by replace (base + 1)%nat with (S base) by lia; replace (base + 2)%nat with (S (S base)) by lia;
    replace (base + 3)%nat with (S (S (S base))) by lia.
Qed.

Section ops.
Context (f : Z -> Z -> Z) (x y dis : list Z) (ny : nat).
Hypothesis Hdis : (ny <= length dis)%nat.

Lemma rows_D4 : (4 <= length x)%nat -> (ny * 4 <= length y)%nat ->
  wp (fvec_op_ny_D4 f dis x y ny) (filled (row_sum f x y 4) dis ny).
Proof.
  intros Hx Hy. unfold fvec_op_ny_D4. rewrite <- (drop_0 x) at 1. rewrite loadu_ok by lia. cbn [bind].
  apply (vset_rows _ dis 0 ny dis); [done|done|]. intros k t Hk. cbv zeta.
  destruct (row_reg f x y 4 ny Hx Hy k 0) as (_ & E & Lx & Lr & Ez); [lia|lia|]. rewrite drop_0 in E. rewrite E. cbn [bind].
  f_equal. apply hadd2_holds. rewrite Ez. apply holds_first; [lia|rewrite length_drop; lia].
Qed.

Lemma rows_D8 : (8 <= length x)%nat -> (ny * 8 <= length y)%nat ->
  wp (fvec_op_ny_D8 f dis x y ny) (filled (row_sum f x y 8) dis ny).
Proof.
  intros Hx Hy. unfold fvec_op_ny_D8. rewrite <- (drop_0 x) at 1. rewrite !loadu_ok by lia. cbn [bind].
  apply (vset_rows _ dis 0 ny dis); [done|done|]. intros k t Hk. cbv zeta.
  destruct (row_reg f x y 8 ny Hx Hy k 0) as (_ & E & Lx & Lr & Ez); [lia|lia|]. rewrite drop_0 in E. rewrite E. cbn [bind].
  destruct (row_reg f x y 8 ny Hx Hy k 4) as (_ & E1 & Lx1 & Lr1 & Ez1); [lia|lia|]. rewrite E1. cbn [bind].
  f_equal. apply hadd2_holds. rewrite Ez, Ez1. apply (holds_add _ _ 4); [|rewrite <- Ez1, length_zip_with; lia|lia|done].
  apply holds_first; [lia|rewrite length_drop; lia].
Qed.

Lemma rows_D12 : (12 <= length x)%nat -> (ny * 12 <= length y)%nat ->
  wp (fvec_op_ny_D12 f dis x y ny) (filled (row_sum f x y 12) dis ny).
Proof.
  intros Hx Hy. unfold fvec_op_ny_D12. rewrite <- (drop_0 x) at 1. rewrite !loadu_ok by lia. cbn [bind].
  apply (vset_rows _ dis 0 ny dis); [done|done|]. intros k t Hk. cbv zeta.
  destruct (row_reg f x y 12 ny Hx Hy k 0) as (_ & E & Lx & Lr & Ez); [lia|lia|]. rewrite drop_0 in E. rewrite E. cbn [bind].
  destruct (row_reg f x y 12 ny Hx Hy k 4) as (_ & E1 & Lx1 & Lr1 & Ez1); [lia|lia|]. rewrite E1. cbn [bind].
  destruct (row_reg f x y 12 ny Hx Hy k 8) as (_ & E2 & Lx2 & Lr2 & Ez2); [lia|lia|]. rewrite E2. cbn [bind].
  f_equal. apply hadd2_holds. rewrite Ez, Ez1, Ez2. apply (holds_add _ _ 8); [|rewrite <- Ez2, length_zip_with; lia|lia|done].
  apply (holds_add _ _ 4); [|rewrite <- Ez1, length_zip_with; lia|lia|done].
  apply holds_first; [lia|rewrite length_drop; lia].
Qed.

Lemma row_sum_1 a x' k : (k < length y)%nat -> row_sum f (a :: x') y 1 k = f a (y !!! k).
Proof.
  intros H. unfold row_sum. rewrite Nat.mul_1_r, drop_cons_total by done. cbn [zip_with take]. rewrite take_0. cbn. lia.
Qed.

Lemma rows_D1 : (1 <= length x)%nat -> (ny * 1 <= length y)%nat ->
  wp (fvec_op_ny_D1 f dis x y ny) (filled (row_sum f x y 1) dis ny).
Proof.
  intros Hx Hy. destruct x as [|a x']; [simpl in Hx; lia|]. unfold fvec_op_ny_D1. cbn [vget lookup list_lookup bind].
  set (v := row_sum f (a :: x') y 1). apply wp_bind.
  eapply wp_mono; [apply (strips_spec (filled v dis) ny); [lia|lia|lia|done|]|].
  - intros i r Hi Hr. rewrite load4_at by lia. cbn [bind].
    apply wp_bind. eapply wp_mono; [apply (vset_next_row v dis i r); [lia|done|by unfold v; rewrite row_sum_1 by lia]|].
    clear r Hr. intros r Hr.
    apply wp_bind. eapply wp_mono; [apply (vset_next_row v dis (i + 1) r); [lia|done|by unfold v; rewrite row_sum_1 by lia]|].
    clear r Hr. intros r Hr. replace (i + 1 + 1)%nat with (i + 2)%nat in Hr by lia.
    apply wp_bind. eapply wp_mono; [apply (vset_next_row v dis (i + 2) r); [lia|done|by unfold v; rewrite row_sum_1 by lia]|].
    clear r Hr. intros r Hr. replace (i + 2 + 1)%nat with (i + 3)%nat in Hr by lia.
    replace (i + 4)%nat with (i + 3 + 1)%nat by lia.
    apply (vset_next_row v dis (i + 3) r); [lia|done|by unfold v; rewrite row_sum_1 by lia].
  - intros [[i e] r] (Hie & He & Hr). rewrite <- Hie. apply vset_rows; [lia|done|]. intros k t Hk.
    rewrite vget_total by lia. cbn [bind]. unfold v. by rewrite row_sum_1 by lia.
Qed.

Lemma row_sum_2 a b x' k : (2 * k + 2 <= length y)%nat ->
  row_sum f (a :: b :: x') y 2 k = f a (y !!! (2 * k)%nat) + f b (y !!! (2 * k + 1)%nat).
Proof.
  intros H. unfold row_sum. rewrite Nat.mul_comm, !drop_cons_total by lia. cbn [zip_with take]. rewrite take_0.
  replace (2 * k + 1)%nat with (S (2 * k)) by lia. cbn -[Nat.mul]. lia.
Qed.

Lemma rows_D2 : (2 <= length x)%nat -> (ny * 2 <= length y)%nat ->
  wp (fvec_op_ny_D2 f dis x y ny) (filled (row_sum f x y 2) dis ny).
Proof.
  intros Hx Hy. destruct x as [|a [|b x']]; [simpl in Hx; lia..|]. unfold fvec_op_ny_D2. cbn [vget lookup list_lookup bind].
  set (v := row_sum f (a :: b :: x') y 2). apply wp_bind.
  eapply wp_mono; [apply (strips_spec (filled v dis) ny); [lia|lia|lia|done|]|].
  - intros i r Hi Hr. rewrite load4_at by lia. cbn [bind].
    apply wp_bind. eapply wp_mono; [apply (vset_next_row v dis i r); [lia|done|by unfold v; rewrite row_sum_2 by lia]|].
    clear r Hr. intros r Hr. replace (i + 2)%nat with (i + 1 + 1)%nat by lia.
    apply (vset_next_row v dis (i + 1) r); [lia|done|]. unfold v. rewrite row_sum_2 by lia.
    replace (2 * (i + 1))%nat with (2 * i + 2)%nat by lia. replace (2 * i + 2 + 1)%nat with (2 * i + 3)%nat by lia. done.
  - intros [[i e] r] (Hie & He & Hr). destruct (Nat.ltb_spec 0 e); cbn [wp]; [|by replace ny with i by lia].
    rewrite !vget_total by (rewrite length_drop; lia). cbn [bind]. replace ny with (i + 1)%nat by lia.
    apply vset_next_row; [lia|done|]. unfold v. rewrite row_sum_2, !lookup_total_drop, Nat.add_0_r by lia. done.
Qed.
End ops.

(** The switch over the dimension. *)
Lemma ny_sse_rows (f : Z -> Z -> Z) one x y dis d ny : (d <= length x)%nat -> (ny * d <= length y)%nat ->
  (ny <= length dis)%nat -> (forall k, (k < ny)%nat -> one x (drop (k * d) y) d = Ret (row_sum f x y d k)) ->
  ny_sse f one dis x y d ny = Ret ((row_sum f x y d <$> seq 0 ny) ++ drop ny dis).
Proof.
  intros Hx Hy Hd Hone.
  match goal with |- ?m = Ret ?r => assert (wp m (filled (row_sum f x y d) dis ny)) as E; [|by apply wp_elim in E as (? & -> & ->)] end.
  assert (wp (foldM (fun dis i => let* v := one x (drop (i * d) y) d in vset dis i v) dis (seq 0 ny))
    (filled (row_sum f x y d) dis ny)) as Hdef.
  { apply (vset_rows _ dis 0 ny dis); [done|done|]. intros k t Hk. rewrite Hone by lia. done. }
  destruct d as [|[|[|[|[|[|[|[|[|[|[|[|[|d]]]]]]]]]]]]]; try exact Hdef; cbn [ny_sse];
    [apply rows_D1|apply rows_D2|apply rows_D4|apply rows_D8|apply rows_D12]; done.
Qed.

Lemma ny_sse_ip x y dis d ny : (d <= length x)%nat -> (ny * d <= length y)%nat -> (ny <= length dis)%nat ->
  fvec_inner_products_ny_sse dis x y d ny = fvec_inner_products_ny_ref dis x y d ny.
Proof.
  intros Hx Hy Hd. assert (forall k, (k < ny)%nat -> (d <= length (drop (k * d) y))%nat) as Hrow
    by (intros; rewrite length_drop; nia).
  unfold fvec_inner_products_ny_sse. rewrite (ny_sse_rows Z.mul) by (done || (intros; apply ip_sse_value; auto)).
  symmetry. apply fill_spec; [done|]. intros i Hi. apply ip_ref_value; auto.
Qed.

Lemma ny_sse_l2 x y dis d ny : (d <= length x)%nat -> (ny * d <= length y)%nat -> (ny <= length dis)%nat ->
  fvec_L2sqr_ny_sse dis x y d ny = fvec_L2sqr_ny_ref dis x y d ny.
Proof.
  intros Hx Hy Hd. assert (forall k, (k < ny)%nat -> (d <= length (drop (k * d) y))%nat) as Hrow
    by (intros; rewrite length_drop; nia).
  unfold fvec_L2sqr_ny_sse. change (@ElementOpL2 Z Z_num) with sq.
  rewrite (ny_sse_rows sq) by (done || (intros; apply l2_sse_value; auto)).
  symmetry. apply fill_spec; [done|]. intros i Hi. apply l2_ref_value; auto.
Qed.

(** ** Multiply-add, in any arithmetic *)

Section madd.
Context {A : Type} `{!Num A, !Inhabited A} (a b c : list A) (bf : A) (n : nat).
Hypothesis Ha : (n <= length a)%nat.
Hypothesis Hb : (n <= length b)%nat.
Hypothesis Hc : (n <= length c)%nat.

Definition madd_at (i : nat) : A := nadd (a !!! i) (nmul bf (b !!! i)).

Lemma madd_ref_filled : wp (fvec_madd_ref n a bf b c) (filled madd_at c n).
Proof. apply (vset_rows _ c 0 n c); [done|done|]. intros k t Hk. by rewrite !vget_total by lia. Qed.

(** One register of results. *)
Lemma madd_reg k : (4 * k + 4 <= n)%nat ->
  exists u w, loadu 4 (drop (4 * k) a) = Ret u /\ loadu 4 (drop (4 * k) b) = Ret w /\
    vadd u (vmul (set1 4 bf) w) = madd_at <$> seq (4 * k) 4.
Proof.
  intros Hk. rewrite !load4_at by lia. eexists _, _. split; [done|]. split; [done|].
  unfold madd_at. cbn -[Nat.mul Nat.add]. 
  by replace (S (4 * k)) with (4 * k + 1)%nat by lia; replace (S (4 * k + 1)) with (4 * k + 2)%nat by lia;
    replace (S (4 * k + 2)) with (4 * k + 3)%nat by lia.
Qed.

Lemma madd_sse_filled aligned : wp (fvec_madd_sse aligned n a bf b c) (filled madd_at c n).
Proof.
  unfold fvec_madd_sse. pose proof (Nat.div_mod_eq n 4) as Hn.
  destruct (Nat.eqb_spec (n mod 4) 0) as [Hm|]; [|apply madd_ref_filled].
  destruct aligned; [|apply madd_ref_filled]. cbn [negb orb].
  apply (wp_for _ (fun k r => filled madd_at c (4 * k) r)); [done| |].
  - intros k r Hk Hr. destruct (madd_reg k) as (u & w & -> & -> & E); [lia|]. cbn [bind].
    replace (4 * (k + 1))%nat with (4 * k + 4)%nat by lia. by apply storeu_filled; [lia| |].
  - intros r Hr. replace n with (4 * (0 + n / 4))%nat by lia. exact Hr.
Qed.

Lemma madd_sse_value aligned : fvec_madd_sse aligned n a bf b c = fvec_madd_ref n a bf b c.
Proof.
  destruct (wp_elim _ _ madd_ref_filled) as (r & -> & ->). by destruct (wp_elim _ _ (madd_sse_filled aligned)) as (r & -> & ->).
Qed.
End madd.

(** * The SSE argmin finds a least value, not always the first one *)

(** ** Candidates

    [best S p]: [p] is the value and the position of a least element among the
    positions [S], or the initial value and [-1] when none is below it. *)
Section best.
Context (v : nat -> Z) (vmin0 : Z).
Implicit Types (S : nat -> Prop) (p q : Z * Z).

Definition best S p : Prop :=
  (p = (vmin0, -1) /\ forall i, S i -> vmin0 <= v i) \/
  (exists i, p = (v i, Z.of_nat i) /\ S i /\ v i < vmin0 /\ forall j, S j -> v i <= v j).

Definition better p q : Z * Z := if q.1 <? p.1 then q else p.

Lemma best_none : best (fun _ => False) (vmin0, -1).
Proof. by left. Qed.

Lemma best_bound S p : best S p -> p.1 <= vmin0 /\ forall i, S i -> p.1 <= v i.
Proof. intros [[-> H]|(i & -> & _ & Hi & H)]; (split; [cbn; lia|done]). Qed.

Lemma best_ext S S' p : (forall i, S i <-> S' i) -> best S p -> best S' p.
Proof.
  intros HS [[-> H]|(i & -> & Hi & Hlt & H)]; [left|right; exists i]; split_and!; try done.
  - intros i Hi. by apply H, HS.
  - by apply HS.
  - intros j Hj. by apply H, HS.
Qed.

Lemma best_step S p i : best S p -> best (fun j => S j \/ j = i) (better p (v i, Z.of_nat i)).
Proof.
  intros Hp. destruct (best_bound S p Hp) as [Hb Hall]. unfold better. cbn [fst].
  destruct (Z.ltb_spec (v i) p.1) as [Hlt|Hge].
  - right. exists i. split_and!; [done|by right|lia|]. intros j [Hj| ->]; [|lia]. specialize (Hall j Hj). lia.
  - destruct Hp as [[-> H]|(k & -> & Hk & Hkv & H)].
    + left. split; [done|]. intros j [Hj| ->]; [by apply H|done].
    + right. exists k. split_and!; [done|by left|done|]. intros j [Hj| ->]; [by apply H|done].
Qed.

Lemma best_merge S S' p q : best S p -> best S' q -> best (fun j => S j \/ S' j) (better p q).
Proof.
  intros Hp Hq. destruct (best_bound S p Hp) as [Hbp Hp']. destruct (best_bound S' q Hq) as [Hbq Hq']. unfold better.
  destruct (Z.ltb_spec q.1 p.1) as [Hlt|Hge].
  - destruct Hq as [[-> H]|(k & -> & Hk & Hkv & H)]; [cbn in Hlt; lia|]. right. exists k. cbn [fst] in *.
    split_and!; [done|by right|done|]. intros j [Hj|Hj]; [|by apply H]. specialize (Hp' j Hj). lia.
  - destruct Hp as [[-> H]|(k & -> & Hk & Hkv & H)].
    + left. split; [done|]. cbn [fst] in *. intros j [Hj|Hj]; [by apply H|]. specialize (Hq' j Hj). lia.
    + right. exists k. cbn [fst] in *. split_and!; [done|by left|done|]. intros j [Hj|Hj]; [by apply H|]. specialize (Hq' j Hj). lia.
Qed.

Lemma better_val p q : (if p.1 <? q.1 then p.1 else q.1) = (better p q).1.
Proof. unfold better. destruct (Z.ltb_spec p.1 q.1), (Z.ltb_spec q.1 p.1); lia. Qed.

Lemma better_idx p q : (if q.1 <? p.1 then q.2 else p.2) = (better p q).2.
Proof. unfold better. by destruct (q.1 <? p.1). Qed.

End best.

(** ** The four lanes *)

Definition vals (ps : list (Z * Z)) : list Z := fst <$> ps.
Definition idxs (ps : list (Z * Z)) : list Z := snd <$> ps.

Lemma better_regs (ps qs : list (Z * Z)) : length ps = length qs ->
  vmin (vals ps) (vals qs) = vals (zip_with better ps qs) /\
  select (cmpgt_ps (vals ps) (vals qs)) (idxs qs) (idxs ps) = idxs (zip_with better ps qs).
Proof.
  revert qs. induction ps as [|p ps IH]; intros [|q qs] L; try done. destruct (IH qs) as [E1 E2]; [by injection L|].
  unfold vals, idxs, vmin, select, cmpgt_ps in *. cbn [fmap list_fmap zip_with zip]. rewrite E1, E2.
  split; f_equal; [exact (better_val p q)|exact (better_idx p q)].
Qed.

Lemma wrap32_id z : - 2 ^ 31 <= z < 2 ^ 31 -> wrap32 z = z.
Proof. intros H. unfold wrap32. rewrite Z.mod_small; lia. Qed.

Section argmin.
Context (a b c : list Z) (bf vmin0 : Z) (n : nat).
Hypothesis Ha : (n <= length a)%nat.
Hypothesis Hb : (n <= length b)%nat.
Hypothesis Hc : (n <= length c)%nat.
Hypothesis Hn : Z.of_nat n + 8 < 2 ^ 31.
Let v := madd_at a b bf.

(** Positions of lane [l] among the first [k] registers. *)
Definition in_lane (l k i : nat) : Prop := exists j, (j < k)%nat /\ i = (4 * j + l)%nat.

Definition lanes_ok (k : nat) (ps : list (Z * Z)) : Prop :=
  length ps = 4%nat /\ forall l p, ps !! l = Some p -> best v vmin0 (in_lane l k) p.

Lemma lanes_step k ps : lanes_ok k ps ->
  lanes_ok (k + 1) (zip_with better ps ((fun l => (v (4 * k + l)%nat, Z.of_nat (4 * k + l))) <$> seq 0 4)).
Proof.
  intros [Hl Hp]. split; [rewrite length_zip_with, length_fmap, length_seq; lia|].
  intros l p (p0 & q & -> & H0 & Hq)%lookup_zip_with_Some. apply list_lookup_fmap_Some in Hq as (i & -> & [-> Hi]%lookup_seq).
  rewrite Nat.add_0_l. eapply best_ext; [|by apply best_step, Hp]. intros i. unfold in_lane. split.
  - intros [(j & Hj & ->)| ->]; [exists j|exists k]; (split; [lia|done]).
  - intros (j & Hj & ->). destruct (decide (j = k)) as [->|]; [by right|]. left. exists j. split; [lia|done].
Qed.

Definition idx_regs (k : nat) : list Z := (fun l => Z.of_nat (4 * k + l)) <$> seq 0 4.

Lemma argmin_loop : (n mod 4 = 0)%nat ->
  wp (foldM (fun '(c, vmin4, imin4, idx4) k =>
        let* a4 := loadu 4 (drop (4 * k) a) in
        let* b4 := loadu 4 (drop (4 * k) b) in
        let vc4 := vadd a4 (vmul (set1 4 bf) b4) in
        let* c := storeu c (4 * k) vc4 in
        let mask := cmpgt_ps vmin4 vc4 in
        let imin4 := select mask idx4 imin4 in
        let vmin4 := vmin vmin4 vc4 in
        let idx4 := (fun i => wrap32 (i + 4)) <$> idx4 in
        Ret (c, vmin4, imin4, idx4))
      (c, set1 4 vmin0, replicate 4 (-1)%Z, [0; 1; 2; 3]%Z) (seq 0 (n / 4)))
    (fun '(r, vmin4, imin4, _) => filled v c n r /\
      exists ps, vmin4 = vals ps /\ imin4 = idxs ps /\ lanes_ok (n / 4) ps).
Proof.
  intros Hm. pose proof (Nat.div_mod_eq n 4) as Hdiv.
  apply (wp_for _ (fun k '(r, vmin4, imin4, idx4) => filled v c (4 * k) r /\ idx4 = idx_regs k /\
    exists ps, vmin4 = vals ps /\ imin4 = idxs ps /\ lanes_ok k ps)).
  - split; [done|]. split; [done|]. exists (replicate 4 (vmin0, -1)). split_and!; [done|done|]. split; [done|].
    intros l p [-> Hl]%lookup_replicate. eapply best_ext; [|apply best_none]. intros i. split; [done|]. intros (j & Hj & _). lia.
  - intros k [[[r vmin4] imin4] idx4] Hk (Hr & -> & ps & -> & -> & Hps).
    destruct (madd_reg a b c bf n Ha Hb Hc k) as (u & w & -> & -> & E); [lia|]. cbn [bind]. rewrite E. apply wp_bind.
    eapply wp_mono; [apply (storeu_filled v c (4 * k) 4); [lia|done|done]|]. intros r' Hr'. cbn [wp].
    split; [by replace (4 * (k + 1))%nat with (4 * k + 4)%nat by lia|]. split.
    { unfold idx_regs. rewrite <- list_fmap_compose. apply list_fmap_ext. intros l ? [-> Hl]%lookup_seq.
      unfold compose. rewrite wrap32_id by lia. lia. }
    set (qs := (fun l => (v (4 * k + l)%nat, Z.of_nat (4 * k + l))) <$> seq 0 4).
    assert (madd_at a b bf <$> seq (4 * k) 4 = vals qs) as ->.
    { unfold vals, qs. rewrite <- list_fmap_compose.
      replace (seq (4 * k) 4) with (Nat.add (4 * k) <$> seq 0 4) by (rewrite fmap_add_seq; f_equal; lia).
      by rewrite <- list_fmap_compose. }
    assert (idx_regs k = idxs qs) as -> by (unfold idx_regs, idxs, qs; by rewrite <- list_fmap_compose).
    destruct (better_regs ps qs) as [-> ->]; [rewrite (proj1 Hps); done|].
    exists (zip_with better ps qs). split_and!; [done|done|]. by apply lanes_step.
  - intros [[[r vmin4] imin4] idx4] (Hr & _ & Hps). rewrite Nat.add_0_l in *.
    split; [|done]. by replace n with (4 * (n / 4))%nat by lia.
Qed.


(** A least value among all positions, as found by both kernels. *)
Definition least_index (r : Z) : Prop := exists val, best v vmin0 (fun i => (i < n)%nat) (val, r).

Lemma argmin_merge p0 p1 p2 p3 : (n mod 4 = 0)%nat -> lanes_ok (n / 4) [p0; p1; p2; p3] ->
  best v vmin0 (fun i => (i < n)%nat) (better (better p0 p2) (better p1 p3)).
Proof.
  intros Hm [_ Hp]. pose proof (Nat.div_mod_eq n 4) as Hdiv.
  eapply best_ext; [|apply best_merge; apply best_merge; [exact (Hp 0%nat _ eq_refl)|exact (Hp 2%nat _ eq_refl)|
    exact (Hp 1%nat _ eq_refl)|exact (Hp 3%nat _ eq_refl)]].
  intros i. unfold in_lane. split.
  - intros [[(j & Hj & ->)|(j & Hj & ->)]|[(j & Hj & ->)|(j & Hj & ->)]]; lia.
  - intros Hi. pose proof (Nat.div_mod_eq i 4). pose proof (Nat.mod_upper_bound i 4).
    assert (i / 4 < n / 4)%nat as Hlt by lia.
    destruct (i mod 4)%nat as [|[|[|[|]]]] eqn:E; [left; left|right; left|left; right|right; right|lia];
      (exists (i / 4)%nat; split; [done|lia]).
Qed.

Lemma argmin_ref_least :
  wp (fvec_madd_and_argmin_ref vmin0 n a bf b c) (fun '(r, i) => filled v c n r /\ least_index i).
Proof.
  unfold fvec_madd_and_argmin_ref. apply wp_bind.
  apply (wp_for _ (fun k '(r, val, i) => filled v c k r /\ best v vmin0 (fun j => (j < k)%nat) (val, i))).
  - split; [done|]. eapply best_ext; [|apply best_none]. intros i. lia.
  - intros k [[r val] i] Hk [Hr Hbest]. rewrite !vget_total by lia. cbn [bind]. apply wp_bind.
    eapply wp_mono; [apply (vset_next_row v c); [lia|done|done]|]. intros r' Hr'.
    pose proof (best_step v vmin0 _ _ k Hbest) as Hs. unfold better in Hs. cbn [fst] in Hs.
    assert (forall j, (j < k)%nat \/ j = k <-> (j < k + 1)%nat) as Hj by lia.
    change (nltb (nadd (a !!! k) (nmul bf (b !!! k))) val) with (v k <? val).
    destruct (v k <? val); cbn [wp]; (split; [done|]); (eapply best_ext; [exact Hj|exact Hs]).
  - intros [[r val] i] [Hr Hbest]. cbn [wp]. split; [done|]. by exists val.
Qed.

Lemma argmin_sse_least aligned :
  wp (fvec_madd_and_argmin_sse vmin0 aligned n a bf b c) (fun '(r, i) => filled v c n r /\ least_index i).
Proof.
  unfold fvec_madd_and_argmin_sse.
  destruct (Nat.eqb_spec (n mod 4) 0) as [Hm|]; [|apply argmin_ref_least].
  destruct aligned; [|apply argmin_ref_least]. cbn [negb orb]. apply wp_bind.
  eapply wp_mono; [by apply argmin_loop|]. intros [[[r vmin4] imin4] idx4] (Hr & ps & -> & -> & Hps).
  destruct ps as [|p0 [|p1 [|p2 [|p3 [|]]]]]; try (by destruct Hps). cbn [wp]. split; [done|].
  pose proof (argmin_merge p0 p1 p2 p3 Hm Hps) as Hbest.
  set (ps := [p0; p1; p2; p3]). set (qs := [p2; p3; p0; p0]).
  change (shuffle_ps (vals ps) (vals ps) 0 0 3 2) with (vals qs).
  change (shuffle_epi32 (idxs ps) 2 3 0 0) with (idxs qs).
  destruct (better_regs ps qs eq_refl) as [-> ->].
  set (m0 := better p0 p2) in *. set (m1 := better p1 p3) in *.
  set (ms := zip_with better ps qs). set (ns := [m1; m0; m0; m0]).
  change (shuffle_ps (vals ms) (vals ms) 0 0 0 1) with (vals ns).
  change (shuffle_epi32 (idxs ms) 1 0 0 0) with (idxs ns).
  destruct (better_regs ms ns eq_refl) as [_ ->].
  exists (better m0 m1).1. change (nth 0 (idxs (zip_with better ms ns)) (-1)) with (better m0 m1).2.
  by destruct (better m0 m1).
Qed.
End argmin.
