(* ===== verification/Avx512Kernels.v ===== *)
(** * The AVX-512 kernels (src/simd/distances_avx512.cc)

    The horizontal sum [_mm512_reduce_add_ps] is a sum in an unspecified order.
    A mask register is an integer where the code computes it, and the list of
    its bits where a comparison produces it. *)

From S2P Require Import Prelude Float Num Operands MemoryIO Bitset Distances Rvv RvvKernels Simd AvxKernels.

(** ** Scalar loops *)

Section scalar.
Context {A : Type} `{!Num A}.
Implicit Types x y a b c : list A.

Definition fvec_inner_product_avx512 x y (d : nat) : M A :=
  for2 (fun res xi yi => nadd res (nmul xi yi)) x y d nzero.

Definition fvec_L2sqr_avx512 x y (d : nat) : M A :=
  for2 (fun res xi yi => let tmp := nsub xi yi in nadd res (nmul tmp tmp)) x y d nzero.

Definition fvec_madd_avx512 (n : nat) a (bf : A) b c : M (list A) :=
  foldM (fun c i => let* ai := vget a i in let* bi := vget b i in vset c i (nadd ai (nmul bf bi))) c (seq 0 n).

Definition fvec_inner_product_batch_4_avx512 x y0 y1 y2 y3 d := batch_4 (fun v : A => v) ip_step x y0 y1 y2 y3 d.
Definition fvec_L2sqr_batch_4_avx512 x y0 y1 y2 y3 d := batch_4 (fun v : A => v) l2_step x y0 y1 y2 y3 d.

(** ** L1 and Linf: strips of 16, one of 8, then as in the AVX2 kernels *)

(** The sum of 16 lanes, folded to 8 and to 4. *)
Definition abs_fold (combine : list A -> list A -> list A) x y (d : nat) : M (list A) :=
  let* (off, d, msum0) := strips d 16 (abs_strip combine 16 x y) 0 d (set1 16 nzero) in
  let msum1 := combine (high 8 msum0) (low 8 msum0) in
  let* (off, d, msum1) := strip_if 8 (abs_strip combine 8 x y) (off, d, msum1) in
  let msum2 := combine (high 4 msum1) (low 4 msum1) in
  abs_tail combine x y off d msum2.

Definition fvec_L1_avx512 x y (d : nat) : M A :=
  let* msum2 := abs_fold vadd x y d in
  let msum2 := hadd_ps msum2 msum2 in
  let msum2 := hadd_ps msum2 msum2 in
  Ret (lane msum2 0).

Definition fvec_Linf_avx512 x y (d : nat) : M A :=
  let* msum2 := abs_fold vmax x y d in
  let msum2 := vmax (movehl_ps msum2 msum2) msum2 in
  let msum2 := vmax msum2 (shuffle_ps msum2 msum2 0 0 0 1) in
  Ret (lane msum2 0).

End scalar.

(** ** Sums of products

    On elements of type [B], converted by [ld]: 16-bit types, or [float]. *)

Section sums.
Context {A B : Type} `{!Num A, !Fma A, !Usum A} (zero : B) (ld : B -> A).
Implicit Types x y : list B.

Definition _mm512_reduce_add_ps (v : list A) : A := usum v.

Definition ld16 x (off : nat) : M (list A) := let* v := loadu 16 (drop off x) in Ret (ld <$> v).
(** [_mm256_maskz_loadu_epi16((1U << d) - 1U, x)], converted. *)
Definition ld_rest x (off d : nat) : M (list A) :=
  let mask := (Z.shiftl 1 (Z.of_nat d) - 1)%Z in
  let* v := maskz_loadu zero 16 mask (drop off x) in Ret (ld <$> v).

(** [load] is a strip of 16 or the rest. *)
Definition ip_add (load : list B -> M (list A)) x y (res : list A) : M (list A) :=
  let* mx := load x in
  let* my := load y in
  Ret (fmadd mx my res).
Definition l2_add (load : list B -> M (list A)) x y (res : list A) : M (list A) :=
  let* mx := load x in
  let* my := load y in
  let mx := vsub mx my in
  Ret (fmadd mx mx res).
Definition norm_add (load : list B -> M (list A)) x (res : list A) : M (list A) :=
  let* mx := load x in
  Ret (fmadd mx mx res).

(** The kernels with two sums of 16 lanes. *)
Definition two_sums (add : (list B -> M (list A)) -> list A -> M (list A)) (d : nat) : M A :=
  let strip off := add (fun p => ld16 p off) in
  let* (off, d, (m512_res, m512_res_0)) := strips d 32 (fun off (st : list A * list A) =>
      let '(m512_res, m512_res_0) := st in
      let* m512_res := strip off m512_res in
      let* m512_res_0 := strip (off + 16) m512_res_0 in
      Ret (m512_res, m512_res_0)) 0 d (set1 16 nzero, set1 16 nzero) in
  let m512_res := vadd m512_res m512_res_0 in
  let* (off, d, m512_res) := strip_if 16 strip (off, d, m512_res) in
  let* m512_res := if 0 <? d then add (fun p => ld_rest p off d) m512_res else Ret m512_res in
  Ret (_mm512_reduce_add_ps m512_res).

(** The one with a single sum. *)
Definition one_sum (add : (list B -> M (list A)) -> list A -> M (list A)) (d : nat) : M A :=
  let strip off := add (fun p => ld16 p off) in
  let* (off, d, m512_res) := strips d 32 (fun off m512_res =>
      let* m512_res := strip off m512_res in strip (off + 16) m512_res) 0 d (set1 16 nzero) in
  let* (off, d, m512_res) := strip_if 16 strip (off, d, m512_res) in
  let* m512_res := if 0 <? d then add (fun p => ld_rest p off d) m512_res else Ret m512_res in
  Ret (_mm512_reduce_add_ps m512_res).

Definition half_batch_4_avx512 (step : list A -> list A -> list A -> list A) :=
  batch_4_regs 16 ld16 ld_rest _mm512_reduce_add_ps step.

End sums.

Definition fvec_norm_L2sqr_avx512 {A} `{!Num A, !Fma A, !Usum A} (x : list A) (d : nat) : M A :=
  two_sums nzero (fun v : A => v) (fun load => norm_add load x) d.

Section half.
Context `{!Usum spec_float}.
Implicit Types x y : list Z.

Definition fp16_vec_inner_product_avx512 x y (d : nat) := one_sum 0%Z f16_widen (fun load => ip_add load x y) d.
Definition fp16_vec_L2sqr_avx512 x y (d : nat) := two_sums 0%Z f16_widen (fun load => l2_add load x y) d.
Definition fp16_vec_norm_L2sqr_avx512 x (d : nat) := two_sums 0%Z f16_widen (fun load => norm_add load x) d.
Definition fp16_vec_inner_product_batch_4_avx512 := half_batch_4_avx512 0%Z f16_widen ip_lanes.
Definition fp16_vec_L2sqr_batch_4_avx512 := half_batch_4_avx512 0%Z f16_widen l2_lanes.

Definition _mm512_bf16_to_fp32 (h : Z) : spec_float := F32.of_bits (u32 (Z.shiftl h 16)).

Definition bf16_vec_inner_product_avx512 x y (d : nat) :=
  two_sums 0%Z _mm512_bf16_to_fp32 (fun load => ip_add load x y) d.
Definition bf16_vec_L2sqr_avx512 x y (d : nat) := two_sums 0%Z _mm512_bf16_to_fp32 (fun load => l2_add load x y) d.
Definition bf16_vec_norm_L2sqr_avx512 x (d : nat) := two_sums 0%Z _mm512_bf16_to_fp32 (fun load => norm_add load x) d.
Definition bf16_vec_inner_product_batch_4_avx512 := half_batch_4_avx512 0%Z _mm512_bf16_to_fp32 ip_lanes.
Definition bf16_vec_L2sqr_batch_4_avx512 := half_batch_4_avx512 0%Z _mm512_bf16_to_fp32 l2_lanes.

End half.

(** ** int8 and bf16-patched kernels: scalar loops *)

Definition ivec_inner_product_avx512 x y d : M Z := int8_loop int8_ip x y d.
Definition ivec_L2sqr_avx512 x y d : M Z := int8_loop int8_l2 x y d.
Definition int8_vec_inner_product_avx512 x y d : M spec_float := let* res := int8_loop int8_ip x y d in Ret (F32.of_Z res).
Definition int8_vec_L2sqr_avx512 x y d : M spec_float := let* res := int8_loop int8_l2 x y d in Ret (F32.of_Z res).
Definition int8_vec_norm_L2sqr_avx512 x d : M spec_float := let* res := int8_loop int8_ip x x d in Ret (F32.of_Z res).
Definition int8_vec_inner_product_batch_4_avx512 := int8_batch_4 int8_ip.
Definition int8_vec_L2sqr_batch_4_avx512 := int8_batch_4 int8_l2.

Definition fvec_inner_product_bf16_patch_avx512 x y d := for2 ip_patch x y d F32.zero.
Definition fvec_L2sqr_bf16_patch_avx512 x y d := for2 l2_patch x y d F32.zero.
Definition fvec_inner_product_batch_4_bf16_patch_avx512 x y0 y1 y2 y3 d :=
  batch_4 (fun v => v) ip_patch x y0 y1 y2 y3 d.
Definition fvec_L2sqr_batch_4_bf16_patch_avx512 x y0 y1 y2 y3 d := batch_4 (fun v => v) l2_patch x y0 y1 y2 y3 d.

(** ** RaBitQ *)

(** The 16-bit word at [x + i], little endian. *)
Definition load_u16 (x : list Z) (i : nat) : M Z :=
  let* lo := vget x i in let* hi := vget x (i + 1) in Ret (lo + 256 * hi)%Z.

Definition fvec_masked_sum_avx512 {A} `{!Num A, !Usum A} (q : list A) (x : list Z) (d : nat) : M A :=
  let d_16 := d / 16 * 16 in
  let* (_, _, sum) := strips d_16 16 (fun i sum =>
      let* mask := load_u16 x (i / 8) in
      let* v := maskz_loadu nzero 16 mask (drop i q) in
      Ret (vadd sum v)) 0 d_16 (set1 16 nzero) in
  let* sum :=
    if negb (d =? d_16) then
      let leftovers := d - d_16 in
      let len_mask := (Z.shiftl 1 (Z.of_nat leftovers) - 1)%Z in
      let* mask := if 8 <? leftovers then load_u16 x (d_16 / 8) else vget x (d_16 / 8) in
      let* v := maskz_loadu nzero 16 (Z.land mask len_mask) (drop d_16 q) in
      Ret (vadd sum v)
    else Ret sum in
  Ret (usum sum).

Definition rabitq_dp_popcnt_avx512 (q x : list Z) (d nb : nat) : M Z :=
  let di_8b := (d + 7) / 8 in
  let di_64b := di_8b / 8 * 8 in
  foldM (fun dot j =>
      let* count_dot := common_bits (drop (j * di_8b) q) x di_8b di_64b in
      let* shifted := i32 (Z.shiftl (Z.of_nat count_dot) (Z.of_nat j)) in
      i32 (dot + shifted)) 0%Z (seq 0 nb).
