(* ===== verification/Avx512MinHash.v ===== *)
(** * The AVX-512 MinHash kernels (src/simd/distances_avx512.cc) *)

From S2P Require Import Prelude Float Num Operands MemoryIO Bitset Distances Rvv Simd.

#[local] Open Scope Z_scope.

(** ** Comparison masks: the list of their bits *)

Definition cmpeq_mask (a b : list Z) : list bool := zip_with Z.eqb a b.
Definition mask_nonzero (m : list bool) : bool := existsb (fun b => b) m.
(** [__builtin_ctz] of a non-zero mask. *)
Fixpoint mask_ctz (m : list bool) : nat :=
  match m with [] => 0 | b :: m => if b then 0 else S (mask_ctz m) end%nat.
(** [__builtin_popcount]. *)
Definition mask_popcount (m : list bool) : nat := length (filter (fun b => b = true) m).

(** ** Binary searches *)

Definition CHUNK_SIZE : nat := 8.

(** Up to 32 elements: chunk by chunk, then one by one. *)
Definition scan_eq (arr : list Z) (size : nat) (key : Z) : M Z :=
  let* hit := BitsetView.find_first (fun c =>
      let i := (c * CHUNK_SIZE)%nat in
      let* vdata := loadu CHUNK_SIZE (drop i arr) in
      let eq_mask := cmpeq_mask vdata (replicate CHUNK_SIZE key) in
      Ret (if mask_nonzero eq_mask then Some (to_int (i + mask_ctz eq_mask)) else None))
    (seq 0 (size / CHUNK_SIZE)) in
  match hit with
  | Some r => Ret r
  | None =>
      let from := (size / CHUNK_SIZE * CHUNK_SIZE)%nat in
      let* hit := BitsetView.find_first (fun i =>
          let* v := vget arr i in Ret (if v =? key then Some (to_int i) else None)) (seq from (size - from)) in
      Ret (match hit with Some r => r | None => -1 end)
  end.

(** What one comparison of [arr[mid]] decides: return, or the new range. *)
Definition probe_eq (arr : list Z) (key left right mid : Z) : M (Z + Z * Z) :=
  let* v := vget arr (Z.to_nat mid) in
  Ret (if v =? key then inl (to_int (Z.to_nat mid))
       else if v <? key then inr (mid + 1, right) else inr (left, mid - 1)).

(** [while (right - left + 1 >= CHUNK_SIZE * 2)]. *)
Fixpoint chunked_eq (fuel : nat) (arr : list Z) (size : nat) (key left right : Z) : M (Z + Z * Z) :=
  if 16 <=? right - left + 1 then
    match fuel with
    | O => Undef
    | S fuel =>
        let mid := left + Z.quot (right - left) 2 in
        let chunk_start := Z.max left (mid - 4) in
        let chunk_start := Z.quot chunk_start 8 * 8 in
        let* next :=
          if (chunk_start + 8 <=? Z.of_nat size) && (chunk_start + 8 - 1 <=? right) then
            let* vdata := loadu CHUNK_SIZE (drop (Z.to_nat chunk_start) arr) in
            let eq_mask := cmpeq_mask vdata (replicate CHUNK_SIZE key) in
            if mask_nonzero eq_mask then Ret (inl (to_int (Z.to_nat chunk_start + mask_ctz eq_mask)))
            else
              let* chunk_mid_value := vget arr (Z.to_nat (chunk_start + 4)) in
              Ret (if chunk_mid_value <? key then inr (chunk_start + 8, right) else inr (left, chunk_start - 1))
          else probe_eq arr key left right mid in
        match next with
        | inl r => Ret (inl r)
        | inr (l, r) => chunked_eq fuel arr size key l r
        end
    end
  else Ret (inr (left, right)).

(** [while (left <= right)]. *)
Fixpoint bisect_eq (fuel : nat) (arr : list Z) (key left right : Z) : M Z :=
  if left <=? right then
    match fuel with
    | O => Undef
    | S fuel =>
        let mid := left + Z.quot (right - left) 2 in
        let* next := probe_eq arr key left right mid in
        match next with
        | inl r => Ret r
        | inr (l, r) => bisect_eq fuel arr key l r
        end
    end
  else Ret (-1).

Definition u64_binary_search_eq_avx512 (arr : list Z) (size : nat) (key : Z) : M Z :=
  if (size =? 0)%nat then Ret (-1)
  else if (size <=? 32)%nat then scan_eq arr size key
  else
    let left := 0 in
    let right := Z.of_nat size - 1 in
    let* next := if (128 <? size)%nat then chunked_eq size arr size key left right else Ret (inr (left, right)) in
    match next with
    | inl r => Ret r
    | inr (l, r) => bisect_eq size arr key l r
    end.

(** [while (right - left + 1 >= CHUNK_SIZE * 4)], on [int]s. *)
Fixpoint chunked_ge (fuel : nat) (data : list Z) (size : nat) (target left right result : Z) : M (Z * Z * Z) :=
  if 32 <=? right - left + 1 then
    match fuel with
    | O => Undef
    | S fuel =>
        let mid := left + Z.quot (right - left) 2 in
        let aligned_mid := Z.quot mid 8 * 8 in
        let aligned_mid := if to_int size <=? aligned_mid + 8 - 1 then to_int size - 8 else aligned_mid in
        let aligned_mid := if aligned_mid <? left then left else aligned_mid in
        if aligned_mid + 8 <=? to_int size then
          let* v_data := loadu CHUNK_SIZE (drop (Z.to_nat aligned_mid) data) in
          let ge_mask := (fun v => target <=? v) <$> v_data in
          if mask_nonzero ge_mask then chunked_ge fuel data size target left (aligned_mid + 8 - 1) result
          else chunked_ge fuel data size target (aligned_mid + 8) right result
        else
          let* v := vget data (Z.to_nat mid) in
          if target <=? v then chunked_ge fuel data size target left (mid - 1) mid
          else chunked_ge fuel data size target (mid + 1) right result
    end
  else Ret (left, right, result).

Definition u64_binary_search_ge_avx512 (data : list Z) (size : nat) (target : Z) : M Z :=
  if (size =? 0)%nat then Ret (-1)
  else
    let* (l, r, result) := chunked_ge size data size target 0 (to_int size - 1) (-1) in
    search_ge (S size) data target l r result.

(** ** Jaccard distances

    The element arrays are decoded.  [int64_t count] starts at the number of
    elements. *)

(** [_mm512_maskz_set1_epi32(mask, 1)]: a one in every selected lane of 16. *)
Definition ones_at (m : list bool) : list Z :=
  (fun b : bool => if b then 1 else 0) <$> (m ++ replicate (16 - length m) false).

(** [_mm512_add_epi32], [_mm512_reduce_add_epi32]. *)
Definition add_epi32 : list Z -> list Z -> list Z := zip_with (fun a b => u32 (a + b)).
Definition reduce_add_epi32 (v : list Z) : Z := u32 (foldr Z.add 0 v).

(** [while (count - w > 0)]: whole registers, leaving between one and [w]
    elements. *)
Fixpoint while_more {S : Type} (fuel w step : nat) (body : nat -> S -> M S) (off count : nat) (s : S) : M (nat * nat * S) :=
  if (w <? count)%nat then
    match fuel with
    | O => Undef
    | S fuel => let* s := body off s in while_more fuel w step body (off + step) (count - step) s
    end
  else Ret (off, count, s).

(** A comparison of [w] elements, and one of the last [count] of them, where
    [maskz_loadu] zeroes the lanes beyond in both operands. *)
Definition cmp_strip (w : nat) (x y : list Z) (off : nat) : M (list bool) :=
  let* vec_x := loadu w (drop off x) in
  let* vec_y := loadu w (drop off y) in
  Ret (cmpeq_mask vec_x vec_y).
Definition cmp_rest (w : nat) (x y : list Z) (off count : nat) : M (list bool) :=
  let mask := Z.shiftl 1 (Z.of_nat count) - 1 in
  let* mx := maskz_loadu 0 w mask (drop off x) in
  let* my := maskz_loadu 0 w mask (drop off y) in
  Ret (cmpeq_mask mx my).

(** [w] elements per register: 16 of 32 bits, 8 of 64 bits. *)
Definition jaccard_avx512 (w : nat) (x y : list Z) (element_length : nat) : M spec_float :=
  let* (off, count, equal_sum) := while_more element_length w w (fun off equal_sum =>
      let* cmp_result := cmp_strip w x y off in
      Ret (add_epi32 equal_sum (ones_at cmp_result))) 0 element_length (replicate 16 0) in
  let* equal_sum :=
    if (0 <? count)%nat then
      let* cmp_result := cmp_rest w x y off count in
      Ret (add_epi32 equal_sum (ones_at cmp_result))
    else Ret equal_sum in
  let sum := reduce_add_epi32 equal_sum in
  Ret (F32.div (F32.of_Z sum) (F32.of_Z (Z.of_nat element_length))).

Definition u32_jaccard_distance_avx512 := jaccard_avx512 16.
Definition u64_jaccard_distance_avx512 := jaccard_avx512 8.

(** The batches of four count the bits of the masks. *)
Definition counts : Type := (Z * Z * Z * Z)%type.
Definition add_counts (wrap : Z -> Z) (cmp : list Z -> list Z -> M (list bool)) (x y0 y1 y2 y3 : list Z) (d : counts) : M counts :=
  let '(d0, d1, d2, d3) := d in
  let* cmp_result0 := cmp x y0 in
  let* cmp_result1 := cmp x y1 in
  let* cmp_result2 := cmp x y2 in
  let* cmp_result3 := cmp x y3 in
  let plus s m := wrap (s + Z.of_nat (mask_popcount m)) in
  Ret (plus d0 cmp_result0, plus d1 cmp_result1, plus d2 cmp_result2, plus d3 cmp_result3).

Definition averages (d : counts) (element_length : nat) : spec_float * spec_float * spec_float * spec_float :=
  let '(d0, d1, d2, d3) := d in
  let avg s := F32.div (F32.of_Z s) (F32.of_Z (Z.of_nat element_length)) in
  (avg d0, avg d1, avg d2, avg d3).

Definition u32_jaccard_distance_batch_4_avx512 (x y0 y1 y2 y3 : list Z) (element_length : nat) :=
  let* (off, count, d) := while_more element_length 16 16 (fun off =>
      add_counts u32 (fun p q => cmp_strip 16 p q off) x y0 y1 y2 y3) 0 element_length (0, 0, 0, 0) in
  let* d := if (0 <? count)%nat then add_counts u32 (fun p q => cmp_rest 16 p q off count) x y0 y1 y2 y3 d else Ret d in
  Ret (averages d element_length).

(** [_mm512_maskz_loadu_epi32(mask, p)] on 64-bit elements: the mask selects
    32-bit halves. *)
Definition maskz_loadu_halves (mask : Z) (p : list Z) : M (list Z) :=
  foldM (fun buf i =>
      let lo := Z.testbit mask (2 * Z.of_nat i) in
      let hi := Z.testbit mask (2 * Z.of_nat i + 1) in
      if lo || hi then
        let* e := vget p i in
        vset buf i ((if lo then e mod 2 ^ 32 else 0) + (if hi then e / 2 ^ 32 * 2 ^ 32 else 0))
      else Ret buf)
    (replicate 8 0) (seq 0 8).

Definition cmp_rest_halves (x y : list Z) (off count : nat) : M (list bool) :=
  let mask := Z.shiftl 1 (Z.of_nat count) - 1 in
  let* mx := maskz_loadu_halves mask (drop off x) in
  let* my := maskz_loadu_halves mask (drop off y) in
  Ret (cmpeq_mask mx my).

Definition u64_jaccard_distance_batch_4_avx512 (x y0 y1 y2 y3 : list Z) (element_length : nat) :=
  let* (off, count, d) := while_more element_length 16 8 (fun off =>
      add_counts (fun s => s mod 2 ^ 64) (fun p q => cmp_strip 8 p q off) x y0 y1 y2 y3) 0 element_length (0, 0, 0, 0) in
  let* d := if (0 <? count)%nat then add_counts (fun s => s mod 2 ^ 64) (fun p q => cmp_rest_halves p q off count) x y0 y1 y2 y3 d else Ret d in
  Ret (averages d element_length).

(** ** The MinHash hash *)

Section hash.
Context (XXH3_64bits : list Z -> Z).

Definition calculate_hash_avx512 (data : list Z) (size : nat) : M Z :=
  if (size <=? length data)%nat then Ret (XXH3_64bits (take size data)) else Undef.

End hash.
