(* ===== verification/Avx512Props.v ===== *)
(** * The AVX-512 kernels compute what the reference kernels compute *)

From S2P Require Import Prelude Float Num Bitset MemoryIO Operands Distances DistanceProps Rvv RvvKernels RvvProps Simd.
From S2P Require Import SimdProps AvxKernels AvxProps Avx512Kernels.

#[local] Open Scope Z_scope.

(** ** Masked loads of the rest *)

Lemma ones_bit (d i : nat) : Z.testbit (Z.shiftl 1 (Z.of_nat d) - 1) (Z.of_nat i) = (i <? d)%nat.
Proof.
  replace (Z.shiftl 1 (Z.of_nat d) - 1) with (Z.ones (Z.of_nat d)) by (rewrite Z.ones_equiv, Z.shiftl_1_l; lia).
  destruct (Nat.ltb_spec i d); [apply Z.ones_spec_low|apply Z.ones_spec_high]; lia.
Qed.

Lemma maskz_prefix {B} `{!Inhabited B} (zero : B) w d p off : (d <= w)%nat -> (off + d <= length p)%nat ->
  maskz_loadu zero w (Z.shiftl 1 (Z.of_nat d) - 1) (drop off p) =
  Ret (slice off (off + d) p ++ replicate (w - d) zero).
Proof.
  intros Hd Hp. unfold maskz_loadu. rewrite (masked_load_ext _ _ _ (fun i => (i <? d)%nat)) by (intros; apply ones_bit).
  by apply prefix_load.
Qed.

(** ** Sums *)

Section sums.
Context {B : Type} `{!Inhabited B, !Usum Z} (zero : B) (ld : B -> Z) (ld_0 : ld zero = 0).
Implicit Types x y : list B.

Lemma ld16_ok x off : (off + 16 <= length x)%nat -> ld16 ld x off = Ret (slice off (off + 16) (ld <$> x)).
Proof. intros H. unfold ld16. rewrite loadu_ok by done. cbn [bind]. by rewrite slice_fmap. Qed.

Lemma ld_rest_ok x off d : (d < 16)%nat -> (off + d <= length x)%nat ->
  ld_rest zero ld x off d = Ret (slice off (off + d) (ld <$> x) ++ replicate (16 - d) 0).
Proof.
  intros Hd H. unfold ld_rest. rewrite maskz_prefix by lia. cbn [bind].
  by rewrite fmap_app, slice_fmap, fmap_replicate, ld_0.
Qed.

Lemma reduce512_holds T n acc : holds 16 T n acc -> _mm512_reduce_add_ps acc = lanesum (take n T).
Proof. intros [Hl <-]. apply usum_exact. Qed.

(** What a kernel adds: the terms of a strip, and those of the rest. *)
Definition accumulates (add : (list B -> M (list Z)) -> list Z -> M (list Z)) (T : list Z) (d : nat) : Prop :=
  (forall o acc, (o + 16 <= d)%nat ->
    wp (add (fun p => ld16 ld p o) acc) (fun r => length acc = 16%nat -> length r = 16%nat /\
      lanesum r = lanesum acc + lanesum (slice o (o + 16) T))) /\
  (forall o e acc, (o + e = d)%nat -> (e < 16)%nat ->
    wp (add (fun p => ld_rest zero ld p o e) acc) (fun r => length acc = 16%nat -> length r = 16%nat /\
      lanesum r = lanesum acc + lanesum (slice o (o + e) T))).

Lemma holds_more T w o e acc r : (length acc = w -> length r = w /\ lanesum r = lanesum acc + lanesum (slice o (o + e) T)) ->
  holds w T o acc -> holds w T (o + e) r.
Proof. intros H [Hl Hs]. destruct (H Hl) as [Hr E]. split; [done|]. rewrite E, Hs, (lanesum_slice T o (o + e)) by lia. done. Qed.

Section loops.
Context (add : (list B -> M (list Z)) -> list Z -> M (list Z)) (T : list Z) (d : nat) (Hadd : accumulates add T d).

Lemma add_strip o acc : (o + 16 <= d)%nat -> holds 16 T o acc -> wp (add (fun p => ld16 ld p o) acc) (holds 16 T (o + 16)).
Proof. intros Ho Ha. eapply wp_mono; [by apply Hadd|]. intros r Hr. exact (holds_more _ _ _ _ _ _ Hr ltac:(eassumption)). Qed.

(** The part after the strips of 32. *)
Lemma last_strips o e acc : (o + e = d)%nat -> (e < 32)%nat -> holds 16 T o acc ->
  wp (let* (off, d, m512_res) := strip_if 16 (fun off => add (fun p => ld16 ld p off)) (o, e, acc) in
      let* m512_res := if (0 <? d)%nat then add (fun p => ld_rest zero ld p off d) m512_res else Ret m512_res in
      Ret (_mm512_reduce_add_ps m512_res)) (fun r => r = lanesum (take d T)).
Proof.
  intros Ho He Ha. apply wp_bind.
  eapply wp_mono; [apply (strip_if_spec (holds 16 T) d); [done|done|]|].
  { intros t Ho' Ht. by apply add_strip. }
  intros [[o' e'] s] (Ho' & He' & Hs). specialize (He' ltac:(lia)). apply wp_bind.
  apply (wp_mono _ (holds 16 T d)); [|intros r Hr; cbn [wp]; by apply reduce512_holds].
  destruct (Nat.ltb_spec 0 e'); cbn [wp]; [|by replace d with o' by lia].
  eapply wp_mono; [by apply Hadd|]. intros r Hr. rewrite <- Ho'. exact (holds_more _ _ _ _ _ _ Hr ltac:(eassumption)).
Qed.

Lemma one_sum_value : one_sum zero ld add d = Ret (lanesum (take d T)).
Proof.
  match goal with |- ?m = Ret ?r => assert (wp m (fun q => q = r)) as E; [|by apply wp_elim in E as (? & -> & ->)] end.
  unfold one_sum. apply wp_bind.
  eapply wp_mono; [apply (strips_spec (holds 16 T) d); [lia|lia|lia|apply holds_zero|]|].
  { intros o t Ho Ht. apply wp_bind. eapply wp_mono; [apply add_strip; [lia|done]|]. intros r Hr.
    replace (o + 32)%nat with (o + 16 + 16)%nat by lia. apply add_strip; [lia|done]. }
  intros [[o e] s] (Ho & He & Hs). by apply last_strips.
Qed.

Lemma two_sums_value : two_sums zero ld add d = Ret (lanesum (take d T)).
Proof.
  match goal with |- ?m = Ret ?r => assert (wp m (fun q => q = r)) as E; [|by apply wp_elim in E as (? & -> & ->)] end.
  unfold two_sums. apply wp_bind.
  eapply wp_mono; [apply (strips_spec (fun o (st : list Z * list Z) => length st.1 = 16%nat /\ length st.2 = 16%nat /\
    lanesum st.1 + lanesum st.2 = lanesum (take o T)) d); [lia|lia|lia| |]|].
  - done.
  - intros o [a b] Ho (La & Lb & Hs). cbn [fst snd] in *.
    apply wp_bind. eapply wp_mono; [apply Hadd; lia|]. intros a' Ha. destruct (Ha La) as [La' Ea].
    apply wp_bind. eapply wp_mono; [apply Hadd; lia|]. intros b' Hb. destruct (Hb Lb) as [Lb' Eb]. cbn [wp fst snd].
    split_and!; [done|done|]. rewrite Ea, Eb, (lanesum_slice T o (o + 32)), (slice_sum T o (o + 16) (o + 32)) by lia.
    replace (o + 16 + 16)%nat with (o + 32)%nat by lia. lia.
  - intros [[o e] [a b]] (Ho & He & La & Lb & Hs). cbn [fst snd] in *. apply last_strips; [done|done|].
    split; [unfold vadd; rewrite length_zip_with; lia|].
    change (lanesum (zip_with Z.add a b) = lanesum (take o T)). rewrite lanesum_add by lia. done.
Qed.
End loops.

(** ** The kernels *)

Lemma fmadd_sum w (a b acc : list Z) t : length a = w -> length b = w -> lanesum (zip_with Z.mul a b) = t ->
  length acc = w -> length (fmadd a b acc) = w /\ lanesum (fmadd a b acc) = lanesum acc + t.
Proof.
  intros Ha Hb <- Hc. rewrite fmadd_vadd. unfold vadd. rewrite !length_zip_with. split; [lia|].
  apply lanesum_add. rewrite length_zip_with. lia.
Qed.

Lemma ip_accumulates x y d : (d <= length x)%nat -> (d <= length y)%nat ->
  accumulates (fun load => ip_add load x y) (zip_with Z.mul (ld <$> x) (ld <$> y)) d.
Proof.
  intros Hx Hy. split; intros o; intros; unfold ip_add.
  - rewrite !ld16_ok by lia. cbn [bind wp].
    destruct (slice_terms Z.mul (ld <$> x) (ld <$> y) 16 o) as (Lx & Ly & E); [rewrite length_fmap; lia..|].
    apply fmadd_sum; [done|done|by rewrite E].
  - rewrite !ld_rest_ok by lia. cbn [bind wp].
    destruct (padded_terms Z.mul (ld <$> x) (ld <$> y) 16 e o 0) as (Lx & Ly & E); [lia|rewrite length_fmap; lia..|done|].
    apply fmadd_sum; [done|done|exact E].
Qed.

Lemma vsub_length w (a b : list Z) : length a = w -> length b = w -> length (vsub a b) = w.
Proof. intros. unfold vsub. rewrite length_zip_with. lia. Qed.

Lemma l2_accumulates x y d : (d <= length x)%nat -> (d <= length y)%nat ->
  accumulates (fun load => l2_add load x y) (zip_with sq (ld <$> x) (ld <$> y)) d.
Proof.
  intros Hx Hy. split; intros o; intros; unfold l2_add.
  - rewrite !ld16_ok by lia. cbn [bind wp].
    destruct (slice_terms sq (ld <$> x) (ld <$> y) 16 o) as (Lx & Ly & E); [rewrite length_fmap; lia..|].
    apply fmadd_sum; [by apply vsub_length..|by rewrite vsub_sq, E].
  - rewrite !ld_rest_ok by lia. cbn [bind wp].
    destruct (padded_terms sq (ld <$> x) (ld <$> y) 16 e o 0) as (Lx & Ly & E); [lia|rewrite length_fmap; lia..|done|].
    apply fmadd_sum; [by apply vsub_length..|rewrite vsub_sq; exact E].
Qed.

Lemma norm_accumulates x d : (d <= length x)%nat ->
  accumulates (fun load => norm_add load x) (zip_with Z.mul (ld <$> x) (ld <$> x)) d.
Proof.
  intros Hx. destruct (ip_accumulates x x d Hx Hx) as [H1 H2]. split; intros o; intros.
  - specialize (H1 o acc ltac:(done)). unfold ip_add in H1. unfold norm_add. rewrite !ld16_ok in * by lia. exact H1.
  - specialize (H2 o e acc ltac:(done) ltac:(done)). unfold ip_add in H2. unfold norm_add.
    rewrite !ld_rest_ok in * by lia. exact H2.
Qed.

Lemma batch_512_value step f x y0 y1 y2 y3 d : adds 16 step f -> (d <= length x)%nat ->
  Forall (fun p => (d <= length p)%nat) [y0; y1; y2; y3] ->
  let s y := lanesum (take d (zip_with f (ld <$> x) (ld <$> y))) in
  half_batch_4_avx512 zero ld step x y0 y1 y2 y3 d = Ret (s y0, s y1, s y2, s y3).
Proof.
  intros Hs Hx Hy. apply batch_4_regs_value; try done; try lia.
  - apply ld16_ok.
  - intros. by apply ld_rest_ok.
  - intros v _. apply usum_exact.
Qed.

End sums.

(** ** L1 and Linf *)

Lemma l1_512_value (x y : list Z) d : (d <= length x)%nat -> (d <= length y)%nat ->
  fvec_L1_avx512 x y d = Ret (lanesum (take d (zip_with dist1 x y))).
Proof.
  intros Hx Hy. set (T := zip_with dist1 x y).
  match goal with |- ?m = Ret ?r => assert (wp m (fun q => q = r)) as E; [|by apply wp_elim in E as (? & -> & ->)] end.
  apply wp_bind. apply (wp_mono _ (holds 4 T d)); [|intros v [Hl Hv]; cbn [wp]; by rewrite hadd_twice].
  unfold abs_fold. apply wp_bind.
  eapply wp_mono; [apply (strips_spec (holds 16 T) d); [lia|lia|lia|apply holds_zero|]|].
  { intros o t Ho Ht. apply abs_strip_holds; [lia|lia|done]. }
  intros [[o e] s] (Ho & He & Hs%(halves_sum 8)). rewrite vadd_comm in Hs. apply wp_bind.
  eapply wp_mono; [apply (strip_if_spec (holds 8 T) d); [done|exact Hs|]|].
  { intros t Ho' Ht. apply abs_strip_holds; [lia|lia|done]. }
  intros [[o' e'] s'] (Ho' & He' & Hs'%(halves_sum 4)). rewrite vadd_comm in Hs'. rewrite <- Ho'.
  apply abs_tail_holds; [lia|lia|by apply He'|exact Hs'].
Qed.

Lemma covering_halves w T off v : Forall mag (take off T) -> covering (w + w) T off v ->
  covering w T off (vmax (drop w v) (take w v)).
Proof.
  intros HT [Hl Hv]. split; [unfold vmax; rewrite length_zip_with, length_drop, length_take; lia|].
  apply covers_halves; [rewrite length_take, length_drop; lia|done|by rewrite take_drop].
Qed.

Lemma linf_512_value (x y : list spec_float) d : (d <= length x)%nat -> (d <= length y)%nat ->
  Forall mag (take d (diffs x y)) -> fvec_Linf_avx512 x y d = fvec_Linf_ref x y d.
Proof.
  intros Hx Hy HT. destruct (linf_ref_covers x y d Hx Hy HT) as (r & -> & Hr). set (T := diffs x y) in *.
  match goal with |- ?m = Ret _ => assert (wp m (fun u => u = r)) as E; [|by apply wp_elim in E as (? & -> & ->)] end.
  apply wp_bind. apply (wp_mono _ (covering 4 T d)).
  2:{ intros v [Hl Hv]. cbn [wp]. symmetry. apply (covers_unique (take d T)); [done|done|]. by apply last_max. }
  unfold abs_fold. change (@nzero _ F32_num) with F32.zero. apply wp_bind.
  eapply wp_mono; [apply (strips_spec (covering 16 T) d); [lia|lia|lia| |]|].
  { split; [done|]. apply (covers_zero 16). lia. }
  { intros o t Ho Ht. by apply max_strip_covering with (d := d). }
  intros [[o e] s] (Ho & He & Hs). apply wp_bind.
  apply (covering_halves 8) in Hs; [|eapply mags_take; [|done]; lia].
  eapply wp_mono; [apply (strip_if_spec (covering 8 T) d); [done|exact Hs|]|].
  { intros t Ho' Ht. by apply max_strip_covering with (d := d). }
  intros [[o' e'] s'] (Ho' & He' & Hs'). apply (covering_halves 4) in Hs'; [|eapply mags_take; [|done]; lia].
  apply max_tail_covering; [done|done|done|done|by apply He'|exact Hs'].
Qed.

(** * The masked sum of the AVX-512 kernels *)

Lemma block16 k j : ((16 * k + j) / 8 = 2 * k + j / 8)%nat /\ ((16 * k + j) mod 8 = j mod 8)%nat.
Proof.
  replace (16 * k + j)%nat with (j + 2 * k * 8)%nat by lia. rewrite Nat.div_add, Nat.Div0.mod_add by lia. lia.
Qed.

Section masked.
Context `{!Usum Z} (q x : list Z) (d : nat).
Hypothesis Hq : (d <= length q)%nat.
Hypothesis Hx : (d <= 8 * length x)%nat.
Hypothesis Hbytes : Forall BitsetView.byte_ok x.
Let T := masked_term q x <$> seq 0 d.

(** Bit [j] of the mask for position [16 * k]. *)
Definition wanted (k j : nat) : bool := Z.testbit (x !!! (2 * k + j / 8)%nat) (Z.of_nat (j mod 8)).

Lemma mask16_lanes k w mask : (w <= 16)%nat -> (16 * k + w <= d)%nat ->
  (forall j, (j < 16)%nat -> Z.testbit mask (Z.of_nat j) = (j <? w)%nat && wanted k j) ->
  exists v, maskz_loadu 0 16 mask (drop (16 * k) q) = Ret v /\ length v = 16%nat /\
    lanesum v = lanesum (slice (16 * k) (16 * k + w) T).
Proof.
  intros Hw Hk Hbit. unfold maskz_loadu. rewrite (masked_load_ext _ _ _ (fun j => (j <? w)%nat && wanted k j)) by done.
  rewrite masked_load_spec.
  2:{ intros j _ [Hj%Nat.ltb_lt _]%andb_prop. rewrite length_drop. lia. }
  eexists. split; [done|]. split; [done|]. unfold T. rewrite slice_T by done.
  rewrite (lanesum_prefix _ w) by (done || (intros j Hj; destruct (Nat.ltb_spec j w); [lia|done])).
  f_equal. replace (seq (16 * k) w) with (Nat.add (16 * k) <$> seq 0 w) by (rewrite fmap_add_seq; f_equal; lia).
  rewrite <- list_fmap_compose. apply list_fmap_ext. intros j ? [-> Hj]%lookup_seq.
  unfold compose. rewrite Nat.add_0_l. unfold masked_term, wanted. destruct (block16 k j) as [-> ->].
  destruct (Nat.ltb_spec j w); [|lia]. by rewrite lookup_total_drop.
Qed.

Lemma mask_byte_ok i : (i < length x)%nat -> BitsetView.byte_ok (x !!! i).
Proof. intros H. by apply (Forall_lookup_total_1 _ _ _ Hbytes). Qed.

Lemma load_u16_bits k : (2 * k + 1 < length x)%nat ->
  exists m, load_u16 x (2 * k) = Ret m /\ forall j, (j < 16)%nat -> Z.testbit m (Z.of_nat j) = wanted k j.
Proof.
  intros H. unfold load_u16. rewrite !vget_total by lia. cbn [bind]. eexists. split; [done|]. intros j Hj.
  rewrite BitsetView.testbit_cons by (apply mask_byte_ok; lia). unfold wanted. destruct (Nat.ltb_spec j 8).
  - by rewrite Nat.div_small, Nat.mod_small, Nat.add_0_r by lia.
  - replace j with (j - 8 + 1 * 8)%nat at 2 3 by lia. rewrite Nat.div_add, Nat.Div0.mod_add by lia.
    by rewrite Nat.div_small, Nat.mod_small by lia.
Qed.

Lemma masked512_strips n : (16 * n <= d)%nat ->
  wp (strips (16 * n) 16 (fun i sum =>
      let* mask := load_u16 x (i / 8) in
      let* v := maskz_loadu 0 16 mask (drop i q) in
      Ret (vadd sum v)) 0 (16 * n) (set1 16 0)) (fun '(_, _, r) => holds 16 T (16 * n) r).
Proof.
  intros Hn. eapply wp_mono; [apply (strips_spec (fun o r => (exists k, o = 16 * k)%nat /\ holds 16 T o r) (16 * n))|].
  - lia.
  - lia.
  - lia.
  - split; [by exists 0%nat|apply holds_zero].
  - intros o t Ho [[k ->] Ht]. destruct (block16 k 0) as [E _]. rewrite Nat.add_0_r, Nat.add_0_r in E. rewrite E.
    destruct (load_u16_bits k) as (m & -> & Hm); [lia|]. cbn [bind].
    destruct (mask16_lanes k 16 m) as (v & -> & Hl & Hs); [lia|lia| |].
    { intros j Hj. rewrite Hm by done. by destruct (Nat.ltb_spec j 16); [|lia]. }
    cbn [bind wp]. split; [exists (k + 1)%nat; lia|]. eapply holds_add; [done|done|lia|done].
  - intros [[o e] r] (Ho & He & (k & ->) & Hr). by replace (16 * n)%nat with (16 * k)%nat by lia.
Qed.

Lemma masked512_rest n acc w : (16 * n + w = d)%nat -> (0 < w < 16)%nat -> holds 16 T (16 * n) acc ->
  wp (let* mask := if (8 <? w)%nat then load_u16 x (2 * n) else vget x (2 * n) in
      let* v := maskz_loadu 0 16 (Z.land mask (Z.shiftl 1 (Z.of_nat w) - 1)) (drop (16 * n) q) in
      Ret (vadd acc v)) (holds 16 T d).
Proof.
  intros Hd Hw Ha.
  assert (exists m, (if (8 <? w)%nat then load_u16 x (2 * n) else vget x (2 * n)) = Ret m /\
    forall j, (j < w)%nat -> Z.testbit m (Z.of_nat j) = wanted n j) as (m & -> & Hm).
  { destruct (Nat.ltb_spec 8 w).
    - destruct (load_u16_bits n) as (m & -> & Hm); [lia|]. exists m. split; [done|]. intros. apply Hm. lia.
    - rewrite vget_total by lia. eexists. split; [done|]. intros j Hj. unfold wanted.
      by rewrite Nat.div_small, Nat.mod_small, Nat.add_0_r by lia. }
  cbn [bind]. destruct (mask16_lanes n w (Z.land m (Z.shiftl 1 (Z.of_nat w) - 1))) as (v & -> & Hl & Hs); [lia|lia| |].
  { intros j Hj. rewrite Z.land_spec, ones_bit, andb_comm. destruct (Nat.ltb_spec j w); [|done]. by rewrite Hm. }
  cbn [bind wp]. eapply holds_add; [done|done|lia|]. by rewrite Hs, Hd.
Qed.

Lemma masked_sum_512_value : fvec_masked_sum_avx512 q x d = fvec_masked_sum_ref q x d.
Proof.
  rewrite masked_ref_value by done. fold T.
  match goal with |- ?m = Ret ?r => assert (wp m (fun u => u = r)) as E; [|by apply wp_elim in E as (? & -> & ->)] end.
  unfold fvec_masked_sum_avx512. change (@nzero Z Z_num) with 0.
  pose proof (Nat.div_mod_eq d 16). pose proof (Nat.mod_upper_bound d 16).
  replace (d / 16 * 16)%nat with (16 * (d / 16))%nat by lia. set (n := (d / 16)%nat) in *.
  apply wp_bind. eapply wp_mono; [apply masked512_strips; lia|]. intros [[? ?] acc] Ha. apply wp_bind.
  apply (wp_mono _ (holds 16 T d)).
  { destruct (Nat.eqb_spec d (16 * n)) as [Heq|Hne]; cbn [negb wp]; [by rewrite <- Heq in Ha|].
    destruct (block16 n 0) as [E _]. rewrite !Nat.add_0_r in E. rewrite E.
    apply masked512_rest; [lia|lia|done]. }
  intros r [Hl Hr]. cbn [wp]. rewrite <- Hr. apply usum_exact.
Qed.
End masked.
