(* ===== verification/Avx512MinHashProps.v ===== *)
(** * The AVX-512 MinHash kernels: searches and Jaccard distances *)

From S2P Require Import Prelude Float Num Bitset MemoryIO Operands Distances DistanceProps Rvv RvvProps Simd SimdProps.
From S2P Require Import Avx512MinHash Avx512Props.

#[local] Open Scope Z_scope.
Implicit Types data arr x y : list Z.

(** ** Chunks *)

Lemma mask_nonzero_spec (m : list bool) : mask_nonzero m = true <-> exists i, m !! i = Some true.
Proof.
  unfold mask_nonzero. rewrite existsb_exists. split.
  - intros (b & [i Hi]%list_elem_of_In%list_elem_of_lookup_1 & ->). by exists i.
  - intros [i Hi%list_elem_of_lookup_2%list_elem_of_In]. by exists true.
Qed.

Lemma mask_ctz_spec (m : list bool) : mask_nonzero m = true ->
  m !! mask_ctz m = Some true /\ forall i, (i < mask_ctz m)%nat -> m !! i = Some false.
Proof.
  induction m as [|[] m IH]; [done|intros _; split; [done|simpl; lia]|]. intros H.
  destruct (IH H) as [H1 H2]. split; [done|]. intros [|i] Hi; [done|]. simpl. apply H2. simpl in Hi. lia.
Qed.

(** What a comparison of a chunk says about the array. *)
Lemma chunk_spec (P : Z -> bool) data i : (i + 8 <= length data)%nat ->
  exists v, loadu CHUNK_SIZE (drop i data) = Ret v /\ length v = 8%nat /\
    (let m := P <$> v in
     if mask_nonzero m then (mask_ctz m < 8)%nat /\ P (data !!! (i + mask_ctz m)%nat) = true /\
       forall j, (j < mask_ctz m)%nat -> P (data !!! (i + j)%nat) = false
     else forall j, (j < 8)%nat -> P (data !!! (i + j)%nat) = false).
Proof.
  intros Hi. assert (length (slice i (i + 8) data) = 8%nat) as Hl by (rewrite length_slice; lia).
  exists (slice i (i + 8) data). split; [by apply loadu_ok|]. split; [done|].
  set (m := P <$> slice i (i + 8) data).
  assert (forall j, (j < 8)%nat -> m !! j = Some (P (data !!! (i + j)%nat))) as Hm.
  { intros j Hj. unfold m. rewrite list_lookup_fmap, lookup_slice, list_lookup_lookup_total_lt by lia. done. }
  cbv zeta. destruct (mask_nonzero m) eqn:E.
  - destruct (mask_ctz_spec m E) as [H1 H2].
    assert (mask_ctz m < 8)%nat as Hlt.
    { apply lookup_lt_Some in H1. unfold m in H1 at 2. by rewrite length_fmap, Hl in H1. }
    split_and!; [done|rewrite Hm in H1 by done; congruence|]. intros j Hj. specialize (H2 j Hj). rewrite Hm in H2 by lia. congruence.
  - intros j Hj. apply not_true_iff_false. intros Ht. apply not_true_iff_false in E. apply E, mask_nonzero_spec.
    exists j. rewrite Hm by done. by rewrite Ht.
Qed.

Lemma cmpeq_key v key : length v = 8%nat -> cmpeq_mask v (replicate 8 key) = (fun e => e =? key) <$> v.
Proof. intros H. unfold cmpeq_mask. by rewrite zip_with_replicate_r_eq. Qed.

(** A loop with an early return: [I k] holds before its iteration [k]. *)
Lemma wp_find_first {V B} (f : V -> M (option B)) l (I : nat -> Prop) (Q : option B -> Prop) :
  I 0%nat ->
  (forall k a, l !! k = Some a -> I k -> wp (f a) (fun o => match o with Some b => Q (Some b) | None => I (S k) end)) ->
  (I (length l) -> Q None) -> wp (BitsetView.find_first f l) Q.
Proof.
  revert I. induction l as [|a l IH]; intros I H0 Hs HQ; cbn [BitsetView.find_first]; [by apply HQ|].
  apply wp_bind. eapply wp_mono; [by apply (Hs 0%nat)|]. intros [b|]; [done|]. intros H1.
  apply (IH (fun k => I (S k))); [done| |done]. intros k v Hv Hk. by apply Hs.
Qed.

(** ** First position not below the target *)

Section ge.
Context data (size : nat) (target : Z).
Hypothesis Hsorted : sorted_upto data size.
Hypothesis Hlen : (size <= length data)%nat.
Hypothesis Hsize : Z.of_nat size < 2 ^ 31.

(** Everything before [left] is too small; if [right] has moved, something up
    to it is large enough. *)
Definition ge_range (left right : Z) : Prop :=
  0 <= left /\ left <= right + 1 /\ right < Z.of_nat size /\
  (forall j, Z.of_nat j < left -> data !!! j < target) /\
  (right = Z.of_nat size - 1 \/ exists j, left <= Z.of_nat j <= right /\ target <= data !!! j).

Lemma chunked_ge_spec fuel left right : right - left < Z.of_nat fuel -> ge_range left right ->
  wp (chunked_ge fuel data size target left right (-1)) (fun '(l, r, res) => ge_range l r /\ res = -1).
Proof.
  revert left right. induction fuel as [|fuel IH]; intros left right Hf Hr; cbn [chunked_ge];
    destruct (Z.leb_spec 32 (right - left + 1)) as [Hge|Hlt]; try done; [lia|].
  rewrite (to_int_small size) by done.
  destruct Hr as (H1 & H2 & H3 & Hleft & Hright).
  assert (left + 15 <= left + Z.quot (right - left) 2 <= right - 15) as Hm.
  { rewrite Z.quot_div_nonneg by lia. pose proof (Z.div_mod (right - left) 2). pose proof (Z.mod_pos_bound (right - left) 2). lia. }
  set (mid := left + Z.quot (right - left) 2) in *. assert (mid - 7 <= Z.quot mid 8 * 8 <= mid) as Ha.
  { rewrite Z.quot_div_nonneg by lia. pose proof (Z.div_mod mid 8). pose proof (Z.mod_pos_bound mid 8). lia. }
  destruct (Z.leb_spec (Z.of_nat size) (Z.quot mid 8 * 8 + 8 - 1)); [lia|].
  destruct (Z.ltb_spec (Z.quot mid 8 * 8) left); [lia|].
  set (am := Z.quot mid 8 * 8) in *.
  destruct (Z.leb_spec (am + 8) (Z.of_nat size)); [|lia].
  destruct (chunk_spec (fun v => target <=? v) data (Z.to_nat am) ltac:(lia)) as (v & -> & Hv & Hc). cbn [bind]. cbv zeta in Hc.
  destruct (mask_nonzero _) eqn:E.
  - destruct Hc as (Hc & Hp & _). apply IH; [lia|]. split_and!; [lia|lia|lia|done|]. right.
    eexists. split; [|apply Z.leb_le; exact Hp]. lia.
  - apply IH; [lia|]. split_and!; [lia|lia|lia| |].
    + intros j Hj. destruct (decide (Z.of_nat j < left)) as [|Hnl]; [by apply Hleft|].
      specialize (Hc 7%nat ltac:(lia)). apply Z.leb_gt in Hc.
      specialize (Hsorted j (Z.to_nat am + 7)%nat ltac:(lia)). lia.
    + destruct Hright as [|(j & Hj & Ht)]; [by left|]. right. exists j. split; [|done].
      destruct (decide (am + 8 <= Z.of_nat j)) as [|Hlt]; [lia|].
      specialize (Hc 7%nat ltac:(lia)). apply Z.leb_gt in Hc.
      specialize (Hsorted j (Z.to_nat am + 7)%nat ltac:(lia)). lia.
Qed.

Lemma search_ge_avx512_first : wp (u64_binary_search_ge_avx512 data size target) (first_index (fun v => target <= v) data size).
Proof.
  unfold u64_binary_search_ge_avx512. destruct (Nat.eqb_spec size 0) as [->|Hne].
  { left. split; [done|lia]. }
  rewrite (to_int_small size) by done. apply wp_bind.
  eapply wp_mono; [apply chunked_ge_spec; [lia|]|].
  { split_and!; [lia|lia|lia|lia|by left]. }
  intros [[l r] res] [(H1 & H2 & H3 & Hl & Hr) ->].
  eapply wp_mono.
  { apply (search_ge_spec data (Z.to_nat (r + 1)) target); [| | |lia].
    - intros i j Hij. apply Hsorted. lia.
    - lia.
    - split; [lia|done|]. left. split; [done|lia]. }
  intros q [[-> Hno]|(Hq & Hp & Hlt)].
  - left. split; [done|]. intros j Hj. destruct Hr as [->|(k & Hk & Ht)]; [apply Hno; lia|].
    destruct (Hno k ltac:(lia) Ht).
  - right. split_and!; [lia|lia|done|done].
Qed.
End ge.

(** ** A position that holds the key *)

Section eq.
Context arr (size : nat) (key : Z).
Hypothesis Hsorted : sorted_upto arr size.
Hypothesis Hlen : (size <= length arr)%nat.
Hypothesis Hsize : Z.of_nat size < 2 ^ 31.

(** A position of the key, or [-1] when it does not occur. *)
Definition some_index (r : Z) : Prop :=
  (r = -1 /\ forall j, (j < size)%nat -> arr !!! j <> key) \/ (0 <= r < Z.of_nat size /\ arr !!! Z.to_nat r = key).

(** Every occurrence is between [left] and [right]. *)
Definition eq_range (left right : Z) : Prop :=
  0 <= left /\ right < Z.of_nat size /\
  forall j, (j < size)%nat -> arr !!! j = key -> left <= Z.of_nat j <= right.

Lemma hit_index i : (i < size)%nat -> arr !!! i = key -> some_index (to_int i).
Proof. intros Hi E. right. rewrite to_int_small by lia. rewrite Nat2Z.id. split; [lia|done]. Qed.

(** Both outcomes of a step: the result, or a smaller range. *)
Definition step_ok (left right : Z) (next : Z + Z * Z) : Prop :=
  match next with
  | inl r => some_index r
  | inr (l, r) => eq_range l r /\ r - l < right - left
  end.

Lemma probe_eq_spec left right mid : eq_range left right -> left <= mid <= right ->
  wp (probe_eq arr key left right mid) (step_ok left right).
Proof.
  intros (H1 & H2 & Hr) Hm. unfold probe_eq. rewrite vget_total by lia. cbn [bind wp].
  destruct (Z.eqb_spec (arr !!! Z.to_nat mid) key) as [E|Hne]; [apply hit_index; [lia|done]|].
  destruct (Z.ltb_spec (arr !!! Z.to_nat mid) key) as [Hlt|Hge]; cbn [step_ok]; split; try lia; (split_and!; [lia|lia|]);
    intros j Hj E; specialize (Hr j Hj E).
  - assert (~ Z.of_nat j <= mid); [|lia]. intros Hle. specialize (Hsorted j (Z.to_nat mid) ltac:(lia)). lia.
  - assert (~ mid <= Z.of_nat j); [|lia]. intros Hle. specialize (Hsorted (Z.to_nat mid) j ltac:(lia)). lia.
Qed.

Lemma bisect_eq_spec fuel left right : right - left < Z.of_nat fuel -> eq_range left right ->
  wp (bisect_eq fuel arr key left right) some_index.
Proof.
  revert left right. induction fuel as [|fuel IH]; intros left right Hf Hr; cbn [bisect_eq];
    destruct (Z.leb_spec left right) as [Hle|Hgt]; try lia.
  1,3: left; split; [done|]; intros j Hj E; destruct Hr as (_ & _ & Hr); specialize (Hr j Hj E); lia.
  pose proof Hr as (H1 & _). apply wp_bind. eapply wp_mono; [apply probe_eq_spec; [done|apply mid_range; lia]|].
  intros [r|[l r]] Hs; [exact Hs|]. destruct Hs as [Hs Hlt]. apply IH; [lia|done].
Qed.

Lemma chunked_eq_spec fuel left right : right - left < Z.of_nat fuel -> eq_range left right ->
  wp (chunked_eq fuel arr size key left right)
    (fun next => match next with inl r => some_index r | inr (l, r) => eq_range l r /\ r - l <= right - left end).
Proof.
  revert left right. induction fuel as [|fuel IH]; intros left right Hf Hr; cbn [chunked_eq];
    destruct (Z.leb_spec 16 (right - left + 1)) as [Hge|Hlt]; try (by split; [done|lia]); [lia|].
  pose proof Hr as (H1 & H2 & Hin). pose proof (mid_range left right ltac:(lia)) as Hm.
  set (mid := left + Z.quot (right - left) 2) in *. set (c0 := Z.max left (mid - 4)) in *.
  assert (c0 - 7 <= Z.quot c0 8 * 8 <= c0 /\ 0 <= Z.quot c0 8 * 8) as [Hc H0].
  { rewrite Z.quot_div_nonneg by lia. pose proof (Z.div_mod c0 8). pose proof (Z.mod_pos_bound c0 8).
    pose proof (Z.div_pos c0 8). lia. }
  set (cs := Z.quot c0 8 * 8) in *. apply wp_bind. apply (wp_mono _ (step_ok left right)).
  2:{ intros [r|[l r]] Hs; [exact Hs|]. destruct Hs as [Hs Hlt]. eapply wp_mono; [apply IH; [lia|done]|].
      intros [r'|[l' r']] Hn; [exact Hn|]. destruct Hn. split; [done|lia]. }
  destruct (Z.leb_spec (cs + 8) (Z.of_nat size)), (Z.leb_spec (cs + 8 - 1) right); cbn [andb]; try (by apply probe_eq_spec).
  destruct (chunk_spec (fun v => v =? key) arr (Z.to_nat cs) ltac:(lia)) as (v & -> & Hv & Hch). cbn [bind]. cbv zeta in Hch.
  unfold CHUNK_SIZE. rewrite cmpeq_key by done. destruct (mask_nonzero _) eqn:E.
  { destruct Hch as (Hlt & Hp & _). apply hit_index; [lia|by apply Z.eqb_eq]. }
  assert (forall j, cs <= Z.of_nat j < cs + 8 -> arr !!! j <> key) as Hnot.
  { intros j Hj. specialize (Hch (j - Z.to_nat cs)%nat ltac:(lia)). apply Z.eqb_neq in Hch.
    by replace (Z.to_nat cs + (j - Z.to_nat cs))%nat with j in Hch by lia. }
  rewrite vget_total by lia. cbn [bind wp].
  destruct (Z.ltb_spec (arr !!! Z.to_nat (cs + 4)) key) as [Hlt|Hge']; cbn [step_ok]; split; try lia; (split_and!; [lia|lia|]);
    intros j Hj Ej; specialize (Hin j Hj Ej).
  - assert (~ Z.of_nat j < cs + 8); [|lia]. intros Hlt'. destruct (decide (cs <= Z.of_nat j)); [by apply (Hnot j)|].
    specialize (Hsorted j (Z.to_nat (cs + 4)) ltac:(lia)). lia.
  - assert (~ cs <= Z.of_nat j); [|lia]. intros Hle. destruct (decide (Z.of_nat j < cs + 8)); [by apply (Hnot j)|].
    specialize (Hnot (Z.to_nat (cs + 4)) ltac:(lia)). specialize (Hsorted (Z.to_nat (cs + 4)) j ltac:(lia)). lia.
Qed.

Lemma scan_eq_spec : wp (scan_eq arr size key) (first_index (fun v => v = key) arr size).
Proof.
  unfold scan_eq. pose proof (Nat.div_mod_eq size CHUNK_SIZE) as Hdiv. unfold CHUNK_SIZE in *.
  set (n := (size / 8)%nat) in *.
  apply wp_bind. apply (wp_find_first _ _ (fun k => forall j, (j < 8 * k)%nat -> arr !!! j <> key)).
  { lia. }
  { intros k i [-> Hk]%lookup_seq Hno. rewrite Nat.add_0_l.
    destruct (chunk_spec (fun v => v =? key) arr (k * 8) ltac:(lia)) as (v & Hld & Hv & Hc).
    unfold CHUNK_SIZE in Hld. rewrite Hld. cbn [bind wp]. cbv zeta in Hc.
    rewrite cmpeq_key by done. destruct (mask_nonzero _) eqn:E.
    - destruct Hc as (Hlt & Hp%Z.eqb_eq & Hf). cbn [wp]. rewrite to_int_small by lia. right.
      rewrite Nat2Z.id. split_and!; [lia|lia|done|]. intros j Hj.
      destruct (decide (j < 8 * k)%nat); [by apply Hno|]. specialize (Hf (j - k * 8)%nat ltac:(lia)).
      apply Z.eqb_neq in Hf. by replace (k * 8 + (j - k * 8))%nat with j in Hf by lia.
    - intros j Hj. destruct (decide (j < 8 * k)%nat); [by apply Hno|]. specialize (Hc (j - k * 8)%nat ltac:(lia)).
      apply Z.eqb_neq in Hc. by replace (k * 8 + (j - k * 8))%nat with j in Hc by lia. }
  rewrite length_seq. intros Hno. apply wp_bind.
  apply (wp_find_first _ _ (fun k => forall j, (j < 8 * n + k)%nat -> arr !!! j <> key)).
  { intros j Hj. apply Hno. lia. }
  { intros k i [-> Hk]%lookup_seq Hno'. rewrite vget_total by lia. cbn [bind wp].
    destruct (Z.eqb_spec (arr !!! (n * 8 + k)%nat) key) as [E|Hne].
    - cbn [wp]. rewrite to_int_small by lia. right. rewrite Nat2Z.id. split_and!; [lia|lia|done|].
      intros j Hj. apply Hno'. lia.
    - intros j Hj. destruct (decide (j = n * 8 + k)%nat) as [->|]; [done|]. apply Hno'. lia. }
  rewrite length_seq. intros Hall. cbn [wp]. left. split; [done|]. intros j Hj. apply Hall. lia.
Qed.

Lemma search_eq_avx512_some : wp (u64_binary_search_eq_avx512 arr size key) (fun r => some_index r /\
  ((size <= 32)%nat -> first_index (fun v => v = key) arr size r)).
Proof.
  unfold u64_binary_search_eq_avx512. destruct (Nat.eqb_spec size 0) as [E|Hne].
  { cbn [wp]. split; [|intros _]; left; (split; [done|lia]). }
  destruct (Nat.leb_spec size 32) as [Hle|Hgt].
  - eapply wp_mono; [apply scan_eq_spec|]. intros r Hr. split; [|done].
    destruct Hr as [[-> Hr]|(Hr & E & _)]; [by left|by right].
  - assert (eq_range 0 (Z.of_nat size - 1)) as Hr by (split_and!; lia).
    apply wp_bind. apply (wp_mono _ (fun next => match next with
      inl r => some_index r | inr (l, r) => eq_range l r /\ r - l <= Z.of_nat size - 1 end)).
    { destruct (128 <? size)%nat; [|by split; [|lia]]. eapply wp_mono; [apply chunked_eq_spec; [lia|done]|].
      intros [r|[l r]]; [done|]. intros [? ?]. split; [done|lia]. }
    intros [r|[l r]] Hn; cbn [wp]; [split; [done|lia]|]. destruct Hn as [Hn Hd].
    eapply wp_mono; [apply bisect_eq_spec; [lia|done]|]. intros q Hq. split; [done|lia].
Qed.
End eq.

(** * The AVX-512 Jaccard kernels count padding lanes as equal *)


Definition eq01 (a b : Z) : Z := if a =? b then 1 else 0.

(** The number of positions below [n] at which [x] and [y] agree. *)
Definition agreements x y (n : nat) : Z := lanesum (take n (zip_with eq01 x y)).

(** The lanes that the last register has beyond the elements. *)
Definition padding (w n : nat) : Z := Z.of_nat ((w - n mod w) mod w).

Lemma while_more_spec {S} (Inv : nat -> S -> Prop) n w body fuel off d s : (0 < w)%nat -> (d <= fuel)%nat ->
  (off + d = n)%nat -> (0 < d)%nat -> (exists k, off = w * k)%nat -> Inv off s ->
  (forall o t, (o + w < n)%nat -> Inv o t -> wp (body o t) (Inv (o + w)%nat)) ->
  wp (while_more fuel w w body off d s) (fun '(off', d', s') =>
    (off' + d' = n)%nat /\ (0 < d' <= w)%nat /\ (exists k, off' = w * k)%nat /\ Inv off' s').
Proof.
  intros Hw. revert off d s. induction fuel as [|fuel IH]; intros off d s Hf Hn Hd Hk Hi Hb; [lia|]. cbn [while_more].
  destruct (Nat.ltb_spec w d) as [Hlt|Hge]; [|cbn [wp]; split_and!; [done|lia|lia|done|done]].
  apply wp_bind. eapply wp_mono; [apply Hb; [lia|done]|]. intros s' Hs'.
  apply IH; [lia|lia|lia| |done|done]. destruct Hk as [k ->]. exists (k + 1)%nat. lia.
Qed.

Lemma padding_rest w n off d : (0 < w)%nat -> (off + d = n)%nat -> (0 < d <= w)%nat -> (exists k, off = w * k)%nat ->
  padding w n = Z.of_nat (w - d).
Proof.
  intros Hw <- Hd [k ->]. unfold padding. f_equal. rewrite Nat.add_comm, Nat.mul_comm, Nat.Div0.mod_add.
  destruct (decide (d = w)) as [->|].
  - rewrite Nat.Div0.mod_same, Nat.sub_0_r, Nat.Div0.mod_same. lia.
  - rewrite (Nat.mod_small d w), Nat.mod_small by lia. done.
Qed.

(** ** One comparison *)

Definition ones (m : list bool) : list Z := (fun b : bool => if b then 1 else 0) <$> m.

Lemma ones_cmpeq a b : ones (cmpeq_mask a b) = zip_with eq01 a b.
Proof. unfold ones, cmpeq_mask. revert b. induction a as [|u a IH]; intros [|v b]; simpl; try done. f_equal. apply IH. Qed.

Lemma ones_popcount m : Z.of_nat (mask_popcount m) = lanesum (ones m).
Proof.
  unfold mask_popcount. induction m as [|[] m IH]; [done| |].
  - rewrite filter_cons_True by done. cbn [length ones fmap list_fmap lanesum foldr]. unfold ones, lanesum in IH. lia.
  - rewrite filter_cons_False by done. cbn [ones fmap list_fmap lanesum foldr]. unfold ones, lanesum in IH. lia.
Qed.

Lemma cmp_strip_ok w x y o : (o + w <= length x)%nat -> (o + w <= length y)%nat ->
  exists m, cmp_strip w x y o = Ret m /\ length m = w /\ ones m = slice o (o + w) (zip_with eq01 x y).
Proof.
  intros Hx Hy. unfold cmp_strip. rewrite !loadu_ok by done. cbn [bind]. eexists. split; [done|].
  rewrite ones_cmpeq. destruct (slice_terms eq01 x y w o Hx Hy) as (Lx & Ly & E). split; [|done].
  unfold cmpeq_mask. rewrite length_zip_with. lia.
Qed.

Lemma lanesum_ones n : lanesum (replicate n 1) = Z.of_nat n.
Proof. induction n as [|n IH]; [done|]. cbn [replicate lanesum foldr]. unfold lanesum in IH. lia. Qed.

Lemma cmp_rest_ok w x y o d : (d <= w)%nat -> (o + d <= length x)%nat -> (o + d <= length y)%nat ->
  exists m, cmp_rest w x y o d = Ret m /\ length m = w /\
    ones m = slice o (o + d) (zip_with eq01 x y) ++ replicate (w - d) 1.
Proof.
  intros Hd Hx Hy. unfold cmp_rest. rewrite !maskz_prefix by done. cbn [bind]. eexists. split; [done|].
  destruct (slice_terms eq01 x y d o Hx Hy) as (Lx & Ly & E).
  rewrite ones_cmpeq. unfold cmpeq_mask. rewrite length_zip_with, !length_app, length_replicate. split; [lia|].
  rewrite zip_with_app, E, zip_with_replicate by lia. done.
Qed.

(** ** Whole kernels *)

(** Sixteen 32-bit counters that hold [t] matches, none above [o]. *)
Definition counters (t : Z) (o : nat) (acc : list Z) : Prop :=
  length acc = 16%nat /\ Forall (fun c => 0 <= c <= Z.of_nat o) acc /\ lanesum acc = t.

Lemma ones_at_spec m : (length m <= 16)%nat ->
  length (ones_at m) = 16%nat /\ Forall (fun c => 0 <= c <= 1) (ones_at m) /\ lanesum (ones_at m) = lanesum (ones m).
Proof.
  intros H. unfold ones_at. rewrite fmap_app, length_app, !length_fmap, length_replicate, fmap_replicate, lanesum_app, lanesum_replicate.
  split_and!; [lia| |unfold ones; lia]. apply Forall_app. split.
  - apply Forall_forall. intros c ([] & -> & _)%list_elem_of_fmap; lia.
  - apply Forall_replicate. lia.
Qed.

Lemma counters_add t o w acc m : (0 < w)%nat -> Z.of_nat (o + w) < 2 ^ 32 -> (length m <= 16)%nat -> counters t o acc ->
  counters (t + lanesum (ones m)) (o + w) (add_epi32 acc (ones_at m)).
Proof.
  intros Hw Ho Hm (Hl & Hf & <-). destruct (ones_at_spec m Hm) as (Lm & Fm & <-).
  assert (forall a b : list Z, length a = length b -> Forall (fun c => 0 <= c <= Z.of_nat o) a -> Forall (fun c => 0 <= c <= 1) b ->
    add_epi32 a b = zip_with Z.add a b /\ Forall (fun c => 0 <= c <= Z.of_nat (o + w)) (add_epi32 a b)) as Hadd.
  { induction a as [|u a IH]; intros [|v b] L Ha Hb; try done. inversion Ha; inversion Hb; subst.
    destruct (IH b) as [E F]; [by injection L|done..|]. unfold add_epi32 in *. cbn [zip_with].
    assert (u32 (u + v) = u + v) as -> by (unfold u32; apply Z.mod_small; lia).
    rewrite E. split; [done|]. rewrite <- E. constructor; [lia|done]. }
  destruct (Hadd acc (ones_at m)) as [E F]; [lia|done|done|]. split_and!; [|done|].
  - rewrite E, length_zip_with. lia.
  - rewrite E. apply lanesum_add. lia.
Qed.

Lemma agreements_slice x y i j : (i <= j)%nat ->
  agreements x y j = agreements x y i + lanesum (slice i j (zip_with eq01 x y)).
Proof. apply lanesum_slice. Qed.

Lemma eq01_bounds a b : 0 <= eq01 a b <= 1.
Proof. unfold eq01. destruct (a =? b); lia. Qed.

Lemma agreements_bounds x y n : 0 <= agreements x y n <= Z.of_nat n.
Proof.
  unfold agreements. revert x y. induction n as [|n IH]; intros x y; [rewrite take_0; cbn; lia|].
  destruct x as [|a x]; [cbn; lia|]. destruct y as [|b y]; [cbn; lia|].
  specialize (IH x y). cbn [zip_with take lanesum foldr]. pose proof (eq01_bounds a b). unfold lanesum in IH. lia.
Qed.

(** [n] elements, [w] per register: the agreements, plus the padding lanes. *)
Definition padded_average w x y (n : nat) : spec_float :=
  F32.div (F32.of_Z (agreements x y n + padding w n)) (F32.of_Z (Z.of_nat n)).

Lemma jaccard_512_value w x y n : (0 < w <= 16)%nat -> (0 < n)%nat -> Z.of_nat n + 16 < 2 ^ 32 ->
  (n <= length x)%nat -> (n <= length y)%nat -> jaccard_avx512 w x y n = Ret (padded_average w x y n).
Proof.
  intros Hw Hn Hmax Hx Hy.
  match goal with |- ?m = Ret ?r => assert (wp m (fun q => q = r)) as E; [|by apply wp_elim in E as (? & -> & ->)] end.
  unfold jaccard_avx512. apply wp_bind.
  eapply wp_mono; [apply (while_more_spec (fun o acc => counters (agreements x y o) o acc) n)|]; try lia.
  { by exists 0%nat. }
  { split_and!; [done|by apply Forall_replicate|done]. }
  { intros o t Ho Ht. destruct (cmp_strip_ok w x y o) as (m & -> & Lm & Em); [lia|lia|]. cbn [bind wp].
    rewrite (agreements_slice x y o) by lia. rewrite <- Em. apply counters_add; [lia|lia|lia|done]. }
  intros [[o d] acc] (Ho & Hd & Hk & Ha). apply wp_bind. destruct (Nat.ltb_spec 0 d); [|lia].
  destruct (cmp_rest_ok w x y o d) as (m & -> & Lm & Em); [lia..|]. cbn [bind wp].
  apply (counters_add _ _ w _ m) in Ha; [|lia|lia|lia]. destruct Ha as (_ & _ & Hs).
  unfold padded_average, reduce_add_epi32. do 2 f_equal. change (foldr Z.add 0) with lanesum. rewrite Hs, Em, lanesum_app, lanesum_ones.
  rewrite Ho. rewrite Z.add_assoc, <- (agreements_slice x y o n) by lia.
  rewrite (padding_rest w n o d) by (done || lia). pose proof (agreements_bounds x y n). unfold u32. apply Z.mod_small. lia.
Qed.

Lemma u32_wrap_small z : 0 <= z < 2 ^ 32 -> u32 z = z.
Proof. apply Z.mod_small. Qed.

Lemma jaccard_batch_512_value x y0 y1 y2 y3 n : (0 < n)%nat -> Z.of_nat n + 16 < 2 ^ 32 -> (n <= length x)%nat ->
  Forall (fun p => (n <= length p)%nat) [y0; y1; y2; y3] ->
  let s y := padded_average 16 x y n in
  u32_jaccard_distance_batch_4_avx512 x y0 y1 y2 y3 n = Ret (s y0, s y1, s y2, s y3).
Proof.
  intros Hn Hmax Hx (H0 & H1 & H2 & H3 & _)%Forall4 s.
  match goal with |- ?m = Ret ?r => assert (wp m (fun q => q = r)) as E; [|by apply wp_elim in E as (? & -> & ->)] end.
  unfold u32_jaccard_distance_batch_4_avx512. apply wp_bind.
  set (at_ := fun o : nat => (agreements x y0 o, agreements x y1 o, agreements x y2 o, agreements x y3 o)).
  assert (forall y o k m, (o + k <= n)%nat -> ones m = slice o (o + k) (zip_with eq01 x y) ++ replicate (16 - k) 1 ->
    (k <= 16)%nat ->
    u32 (agreements x y o + Z.of_nat (mask_popcount m)) = agreements x y (o + k) + Z.of_nat (16 - k)) as Hp.
  { intros y o k m Hok Em Hk. rewrite ones_popcount, Em, lanesum_app, lanesum_ones, Z.add_assoc, <- agreements_slice by lia.
    pose proof (agreements_bounds x y (o + k)). apply u32_wrap_small. lia. }
  eapply wp_mono; [apply (while_more_spec (fun o acc => acc = at_ o) n)|]; try lia.
  { by exists 0%nat. }
  { done. }
  { intros o t Ho ->. cbn [add_counts at_].
    destruct (cmp_strip_ok 16 x y0 o) as (m0 & -> & _ & E0); [lia|lia|]. cbn [bind].
    destruct (cmp_strip_ok 16 x y1 o) as (m1 & -> & _ & E1); [lia|lia|]. cbn [bind].
    destruct (cmp_strip_ok 16 x y2 o) as (m2 & -> & _ & E2); [lia|lia|]. cbn [bind].
    destruct (cmp_strip_ok 16 x y3 o) as (m3 & -> & _ & E3); [lia|lia|]. cbn [bind wp].
    rewrite (Hp y0 o 16%nat m0), (Hp y1 o 16%nat m1), (Hp y2 o 16%nat m2), (Hp y3 o 16%nat m3) by (lia || rewrite app_nil_r; done).
    unfold at_. by rewrite !Z.add_0_r. }
  intros [[o d] acc] (Ho & Hd & Hk & ->). destruct (Nat.ltb_spec 0 d); [|lia]. apply wp_bind. unfold at_. cbn [add_counts].
  destruct (cmp_rest_ok 16 x y0 o d) as (m0 & -> & _ & E0); [lia..|]. cbn [bind].
  destruct (cmp_rest_ok 16 x y1 o d) as (m1 & -> & _ & E1); [lia..|]. cbn [bind].
  destruct (cmp_rest_ok 16 x y2 o d) as (m2 & -> & _ & E2); [lia..|]. cbn [bind].
  destruct (cmp_rest_ok 16 x y3 o d) as (m3 & -> & _ & E3); [lia..|]. cbn [bind wp].
  rewrite (Hp y0 o d m0), (Hp y1 o d m1), (Hp y2 o d m2), (Hp y3 o d m3) by (done || lia).
  unfold s, padded_average, averages. rewrite (padding_rest 16 n o d) by (done || lia). by rewrite Ho.
Qed.

(** ** The 64-bit batch on 16 elements *)

Lemma halves_whole p : (8 <= length p)%nat -> maskz_loadu_halves (Z.shiftl 1 16 - 1) p = Ret (take 8 p).
Proof.
  intros Hp.
  match goal with |- ?m = Ret ?r => assert (wp m (fun q => q = r)) as E; [|by apply wp_elim in E as (? & -> & ->)] end.
  apply (wp_for _ (fun i buf => buf = take i p ++ replicate (8 - i) 0)); [done| |].
  - intros i buf Hi ->.
    assert (forall z, 0 <= z < 16 -> Z.testbit (Z.shiftl 1 16 - 1) z = true) as Hbit.
    { intros z Hz. rewrite <- (Z2Nat.id z) by lia. change 16 with (Z.of_nat 16). rewrite ones_bit.
      apply Nat.ltb_lt. lia. }
    rewrite !Hbit by lia. cbn [orb]. rewrite vget_total by lia. cbn [bind].
    replace (8 - i)%nat with (S (8 - (i + 1))) by lia. cbn [replicate].
    assert (length (take i p) = i) as Hl by (rewrite length_take; lia).
    apply wp_vset; [rewrite length_app, Hl; simpl; lia|]. rewrite <- Hl at 1. rewrite insert_next.
    rewrite Nat.add_1_r, (take_S_r _ _ (p !!! i)) by (apply list_lookup_lookup_total_lt; lia).
    do 3 f_equal. pose proof (Z.div_mod (p !!! i) (2 ^ 32)). lia.
  - intros buf ->. by rewrite app_nil_r.
Qed.

Lemma jaccard_batch_64_value x y0 y1 y2 y3 : (16 <= length x)%nat ->
  Forall (fun p => (16 <= length p)%nat) [y0; y1; y2; y3] ->
  u64_jaccard_distance_batch_4_avx512 x y0 y1 y2 y3 16 =
  Ret (averages (agreements x y0 8, agreements x y1 8, agreements x y2 8, agreements x y3 8) 16).
Proof.
  intros Hx (H0 & H1 & H2 & H3 & _)%Forall4.
  assert (forall y, (16 <= length y)%nat -> exists m, cmp_rest_halves x y 0 16 = Ret m /\
    (0 + Z.of_nat (mask_popcount m)) mod 2 ^ 64 = agreements x y 8) as Hc.
  { intros y Hy. unfold cmp_rest_halves. rewrite !drop_0. change (Z.of_nat 16) with 16. rewrite !halves_whole by lia.
    cbn [bind]. eexists. split; [done|]. rewrite ones_popcount, ones_cmpeq, <- zip_with_take. fold (agreements x y 8).
    pose proof (agreements_bounds x y 8). apply Z.mod_small. lia. }
  unfold u64_jaccard_distance_batch_4_avx512. cbn [while_more Nat.ltb Nat.leb bind add_counts].
  destruct (Hc y0 H0) as (m0 & -> & E0), (Hc y1 H1) as (m1 & -> & E1), (Hc y2 H2) as (m2 & -> & E2), (Hc y3 H3) as (m3 & -> & E3).
  cbn [bind]. by rewrite E0, E1, E2, E3.
Qed.
