(* ===== verification/Avx512Icx.v ===== *)
(** * The Ice Lake kernel (src/simd/distances_avx512icx.cc)

    The RaBitQ dot product with the vector population count of
    AVX512-VPOPCNTDQ.  A register of integers is the list of its bytes where it
    is loaded and combined bit by bit, and the list of its 32-bit lanes, as
    unsigned numbers, where it is counted and added. *)

From S2P Require Import Prelude Float Num Bitset MemoryIO Operands Distances DistanceProps Rvv RvvKernels RvvProps Simd.
From S2P Require Import SimdProps.
Import BitsetView.

#[local] Open Scope Z_scope.

(** ** Integer instructions *)

Definition and_si (a b : list Z) : list Z := zip_with Z.land a b.

(** [_mm512_popcnt_epi32]: a 32-bit lane is four bytes. *)
Fixpoint popcnt_epi32 (v : list Z) : list Z :=
  match v with
  | a :: b :: c :: d :: v =>
      Z.of_nat (popcount 8 a + popcount 8 b + popcount 8 c + popcount 8 d) :: popcnt_epi32 v
  | _ => []
  end.

Definition slli_epi32 (v : list Z) (j : nat) : list Z := (fun l => Z.shiftl l (Z.of_nat j) mod 2 ^ 32) <$> v.
Definition add_epi32 (a b : list Z) : list Z := zip_with (fun s t => (s + t) mod 2 ^ 32) a b.
(** [_mm_extract_epi32]: a lane as an [int]. *)
Definition extract_epi32 (v : list Z) (i : nat) : Z := let l := nth i v 0 in if l <? 2 ^ 31 then l else l - 2 ^ 32.

(** ** The kernel *)

Section rabitq_dp_q.
Context (qb : nat) (q x : list Z) (d : nat).

(** The bits two registers have in common, weighted by the plane, for all planes. *)
Definition add_planes (load : list Z -> M (list Z)) (sum : list Z) : M (list Z) :=
  let di_8b := ((d + 7) / 8)%nat in
  let* v_x := load x in
  foldM (fun sum j =>
      let* v_q := load (drop (j * di_8b) q) in
      let v_and := and_si v_q v_x in
      let v_popcnt := popcnt_epi32 v_and in
      Ret (add_epi32 sum (slli_epi32 v_popcnt j))) sum (seq 0 qb).

Definition rabitq_dp_q : M Z :=
  let d_512 := (d / 512 * 512)%nat in
  let d_256 := (d / 256 * 256)%nat in
  let d_128 := (d / 128 * 128)%nat in
  let* sum_512 := foldM (fun sum i => add_planes (fun p => loadu 64 (drop (512 * i / 8) p)) sum)
                    (replicate 16 0) (seq 0 (d / 512)) in
  let sum_256 := add_epi32 (take 8 sum_512) (drop 8 sum_512) in
  let* sum_256 :=
    if negb (d_256 =? d_512)%nat then add_planes (fun p => loadu 32 (drop (d_512 / 8) p)) sum_256 else Ret sum_256 in
  let sum_128 := add_epi32 (take 4 sum_256) (drop 4 sum_256) in
  let* sum_128 :=
    if negb (d_128 =? d_256)%nat then add_planes (fun p => loadu 16 (drop (d_256 / 8) p)) sum_128 else Ret sum_128 in
  let* sum_128 :=
    if negb (d =? d_128)%nat then
      let leftovers := (d - d_128)%nat in
      let mask := (Z.shiftl 1 (Z.of_nat ((leftovers + 7) / 8)) - 1) mod 2 ^ 16 in
      add_planes (fun p => maskz_loadu 0 16 mask (drop (d_128 / 8) p)) sum_128
    else Ret sum_128 in
  foldM (fun sum_64le i => i32 (sum_64le + extract_epi32 sum_128 i)) 0 (seq 0 4).

End rabitq_dp_q.

Definition rabitq_dp_popcnt_avx512icx (q x : list Z) (d nb : nat) : M Z :=
  if (1 <=? nb)%nat && (nb <=? 8)%nat then rabitq_dp_q nb q x d else Ret 0.

(** ** Lanes that do not wrap around *)

Definition nonneg (v : list Z) : Prop := Forall (fun l => 0 <= l) v.

Lemma nonneg_sum v : nonneg v -> 0 <= lanesum v.
Proof. induction 1; simpl; lia. Qed.

Lemma lane_le v l : nonneg v -> l ∈ v -> l <= lanesum v.
Proof.
  induction 1 as [|a v Ha Hv IH]; [by intros ?%elem_of_nil|]. pose proof (nonneg_sum _ Hv).
  intros [-> | Hl]%elem_of_cons; simpl; [lia|]. specialize (IH Hl). lia.
Qed.

Lemma add_epi32_exact a b : length a = length b -> nonneg a -> nonneg b -> lanesum a + lanesum b < 2 ^ 32 ->
  add_epi32 a b = zip_with Z.add a b.
Proof.
  intros Hl Ha. revert b Hl. induction Ha as [|s a Hs Ha IH]; intros [|t b] Hl Hb Hsum; simpl in *; try done.
  inversion Hb; subst. pose proof (nonneg_sum _ Ha). pose proof (nonneg_sum b ltac:(done)).
  unfold add_epi32 in *. simpl. rewrite Z.mod_small by lia. f_equal. apply IH; [lia|done|lia].
Qed.

Lemma zip_add_nonneg a b : nonneg a -> nonneg b -> nonneg (zip_with Z.add a b).
Proof.
  intros Ha. revert b. induction Ha as [|s a Hs Ha IH]; intros [|t b] Hb; simpl; try constructor; inversion Hb; subst.
  - lia.
  - by apply IH.
Qed.

Lemma slli_exact v j : nonneg v -> 2 ^ Z.of_nat j * lanesum v < 2 ^ 32 ->
  nonneg (slli_epi32 v j) /\ length (slli_epi32 v j) = length v /\ lanesum (slli_epi32 v j) = 2 ^ Z.of_nat j * lanesum v.
Proof.
  intros Hv. unfold slli_epi32. rewrite length_fmap. pose proof (Z.pow_pos_nonneg 2 (Z.of_nat j)).
  unfold lanesum. induction Hv as [|l v Hl Hv IH]; [intros; split_and!; [constructor|done|simpl; lia]|].
  cbn [fmap list_fmap foldr]. intros Hb. pose proof (nonneg_sum _ Hv) as Hnn. unfold lanesum in Hnn. rewrite Z.shiftl_mul_pow2, Z.mod_small by nia.
  destruct IH as (H1 & _ & H2); [nia|]. split_and!; [constructor; [nia|done]|done|].
  cbn [fmap] in H2. rewrite H2. nia.
Qed.

Lemma popcnt_lanes n v : length v = (4 * n)%nat ->
  length (popcnt_epi32 v) = n /\ nonneg (popcnt_epi32 v) /\
  lanesum (popcnt_epi32 v) = lanesum ((fun b => Z.of_nat (popcount 8 b)) <$> v).
Proof.
  revert v. induction n as [|n IH]; intros v Hv.
  { destruct v; [|simpl in Hv; lia]. split_and!; [done|constructor|done]. }
  destruct v as [|a [|b [|c [|d v]]]]; simpl in Hv; try lia. destruct (IH v ltac:(lia)) as (H1 & H2 & H3).
  cbn [popcnt_epi32]. split_and!; [simpl; lia|constructor; [lia|done]|].
  cbn [lanesum foldr fmap list_fmap] in *. unfold lanesum in *. rewrite H3. lia.
Qed.

(** ** Weighted sums over planes *)

Fixpoint weighted (F : nat -> Z) (n : nat) : Z :=
  match n with O => 0 | S n => weighted F n + 2 ^ Z.of_nat n * F n end.

Lemma weighted_add F G n : weighted (fun j => F j + G j) n = weighted F n + weighted G n.
Proof. induction n as [|n IH]; simpl; [done|]. rewrite IH. lia. Qed.

Lemma weighted_ext F G n : (forall j, (j < n)%nat -> F j = G j) -> weighted F n = weighted G n.
Proof. intros H. induction n as [|n IH]; simpl; [done|]. rewrite IH by (intros; apply H; lia). by rewrite H by lia. Qed.

Lemma weighted_mono F G n : (forall j, (j < n)%nat -> F j <= G j) -> weighted F n <= weighted G n.
Proof.
  intros H. induction n as [|n IH]; simpl; [done|]. specialize (IH ltac:(intros; apply H; lia)).
  specialize (H n ltac:(lia)). pose proof (Z.pow_pos_nonneg 2 (Z.of_nat n)). nia.
Qed.

Lemma weighted_prefix F n m : (n <= m)%nat -> (forall j, 0 <= F j) -> 0 <= weighted F n <= weighted F m.
Proof.
  intros Hnm H. induction Hnm as [|m Hnm IH]; simpl.
  - split; [|done]. induction n as [|n IH]; simpl; [done|]. specialize (H n). pose proof (Z.pow_pos_nonneg 2 (Z.of_nat n)). nia.
  - specialize (H m). pose proof (Z.pow_pos_nonneg 2 (Z.of_nat m)). nia.
Qed.

(** ** The kernel computes the dot product of the planes *)

Definition common (a b : Z) : Z := Z.of_nat (popcount 8 (Z.land a b)).

Lemma count_true_common q x n : (n <= length q)%nat -> (n <= length x)%nat ->
  Z.of_nat (count_true (fun k => bit_at q k && bit_at x k) (8 * n)) = lanesum (take n (zip_with common q x)).
Proof.
  intros Hq Hx. induction n as [|n IH]; [done|].
  destruct (lookup_lt_is_Some_2 q n ltac:(lia)) as [bq Hbq]. destruct (lookup_lt_is_Some_2 x n ltac:(lia)) as [bx Hbx].
  rewrite (take_S_r _ _ (common bq bx)) by (rewrite lookup_zip_with, Hbq, Hbx; done).
  rewrite lanesum_app, <- IH by lia. replace (8 * S n)%nat with (8 * n + 8)%nat by lia.
  rewrite count_true_add, Nat2Z.inj_add. f_equal. cbn [lanesum foldr]. rewrite Z.add_0_r. unfold common, popcount.
  f_equal. apply count_true_ext. intros k Hk.
  by rewrite Z.land_spec, (bit_at_byte q n bq), (bit_at_byte x n bx).
Qed.

Section planes.
Context (qb : nat) (q x : list Z) (d : nat).
Let di := ((d + 7) / 8)%nat.
Hypothesis Hx : (di <= length x)%nat.
Hypothesis Hq : (qb * di <= length q)%nat.

Definition plane (j : nat) : list Z := zip_with common (drop (j * di) q) x.
Definition G (o : nat) : Z := weighted (fun j => lanesum (take o (plane j))) qb.
Hypothesis Hmax : G di < 2 ^ 31.

Lemma plane_long j : (j < qb)%nat -> (di <= length (plane j))%nat.
Proof. intros. unfold plane. rewrite length_zip_with, length_drop. nia. Qed.

Lemma common_nonneg l k : nonneg (zip_with common l k).
Proof. revert k. induction l; intros [|]; simpl; constructor; [unfold common; lia|apply IHl]. Qed.

Lemma sub_nonneg b e l : nonneg l -> nonneg (slice b e l).
Proof. intros. by apply Forall_take, Forall_drop. Qed.

(** A load of [e] bytes at [o], padded with zero bytes to [w] lanes. *)
Definition loads (load : list Z -> M (list Z)) (o e w : nat) : Prop :=
  (e <= 4 * w)%nat /\ forall p, (o + e <= length p)%nat -> load p = Ret (slice o (o + e) p ++ replicate (4 * w - e) 0).

Lemma loadu_loads o w : loads (fun p => loadu (4 * w) (drop o p)) o (4 * w) w.
Proof. split; [done|]. intros p Hp. rewrite loadu_ok by done. by rewrite Nat.sub_diag, app_nil_r. Qed.

Lemma and_common o e n qj : (o + e <= length qj)%nat -> (o + e <= length x)%nat ->
  lanesum ((fun b => Z.of_nat (popcount 8 b)) <$> and_si (slice o (o + e) qj ++ replicate n 0) (slice o (o + e) x ++ replicate n 0)) =
  lanesum (slice o (o + e) (zip_with common qj x)).
Proof.
  intros H1 H2. unfold and_si. rewrite zip_with_app by (rewrite !length_slice; lia).
  rewrite fmap_app, lanesum_app, zip_with_replicate, fmap_replicate. change (Z.of_nat (popcount 8 (Z.land 0 0))) with 0.
  rewrite lanesum_replicate, Z.add_0_r, slice_zip_with. f_equal.
  generalize (slice o (o + e) qj) (slice o (o + e) x). intros l. induction l as [|u l IH]; intros [|v k]; simpl; try done.
  f_equal. apply IH.
Qed.

Lemma planes_split o e j : (j <= qb)%nat -> (o + e <= di)%nat ->
  let P := weighted (fun j => lanesum (slice o (o + e) (plane j))) j in
  0 <= P /\ G o + P <= G (o + e) /\ G (o + e) <= G di.
Proof.
  intros Hj Ho P.
  assert (forall b n k, 0 <= lanesum (slice b n (plane k))) as Hnn
    by (intros; apply nonneg_sum, sub_nonneg, common_nonneg).
  destruct (weighted_prefix (fun j => lanesum (slice o (o + e) (plane j))) j qb Hj ltac:(intros; apply Hnn)) as [H0 H1].
  split; [done|]. split.
  - unfold G. erewrite (weighted_ext (fun j => lanesum (take (o + e) _))).
    2:{ intros k Hk. exact (lanesum_slice (plane k) o (o + e) ltac:(lia)). }
    rewrite weighted_add. unfold P. lia.
  - apply weighted_mono. intros k Hk. rewrite (lanesum_slice (plane k) (o + e) di) by lia.
    specialize (Hnn (o + e)%nat di k). lia.
Qed.

(** The registers of 32-bit sums: [w] lanes that add up to the first [o] bytes. *)
Definition counted (w o : nat) (sum : list Z) : Prop := length sum = w /\ nonneg sum /\ lanesum sum = G o.

Lemma add_planes_counted load o e w sum : loads load o e w -> (o + e <= di)%nat -> counted w o sum ->
  wp (add_planes qb q x d load sum) (counted w (o + e)).
Proof.
  intros [Hw Hl] Ho (Hs & Hn & Hsum). unfold add_planes. fold di. rewrite Hl by lia. cbn [bind].
  apply (wp_for _ (fun j r => length r = w /\ nonneg r /\
    lanesum r = G o + weighted (fun j => lanesum (slice o (o + e) (plane j))) j)).
  - split_and!; [done|done|]. simpl. lia.
  - intros j r Hj (Hr & Hrn & Hrs). rewrite Hl by (rewrite length_drop; nia). cbn [bind wp].
    set (v := popcnt_epi32 _). destruct (popcnt_lanes w (and_si (slice o (o + e) (drop (j * di) q) ++ replicate (4 * w - e) 0)
      (slice o (o + e) x ++ replicate (4 * w - e) 0))) as (Hv1 & Hv2 & Hv3).
    { unfold and_si. rewrite length_zip_with, !length_app, !length_replicate, !length_slice by (rewrite ?length_drop; nia). lia. }
    fold v in Hv1, Hv2, Hv3. rewrite and_common in Hv3 by (rewrite ?length_drop; nia). fold (plane j) in Hv3.
    destruct (planes_split o e (S j) ltac:(lia) Ho) as (H1 & H2 & H3). cbn [weighted] in H1, H2.
    pose proof (nonneg_sum _ Hrn). pose proof (nonneg_sum _ Hv2). pose proof (Z.pow_pos_nonneg 2 (Z.of_nat j)).
    destruct (slli_exact v j Hv2) as (Hz1 & Hz2 & Hz3); [rewrite Hv3; lia|].
    rewrite add_epi32_exact; [|lia|done|done|rewrite Hz3, Hv3; lia].
    split_and!; [rewrite length_zip_with; lia|by apply zip_add_nonneg|].
    rewrite lanesum_add by lia. rewrite Hz3, Hv3, Hrs, Nat.add_1_r. cbn [weighted]. lia.
  - intros r (Hr & Hrn & Hrs). split_and!; [done|done|]. rewrite Hrs. unfold G.
    erewrite (weighted_ext (fun j => lanesum (take (o + e) _))).
    2:{ intros k Hk. exact (lanesum_slice (plane k) o (o + e) ltac:(lia)). }
    by rewrite weighted_add.
Qed.

(** Folding a register in half. *)
Lemma fold_counted w o sum : (o <= di)%nat -> counted (w + w) o sum ->
  counted w o (add_epi32 (take w sum) (drop w sum)).
Proof.
  intros Ho (Hl & Hn & Hs). destruct (planes_split o (di - o) 0 ltac:(lia) ltac:(lia)) as (_ & H2 & H3). simpl in H2.
  replace (o + (di - o))%nat with di in * by lia.
  assert (lanesum sum = lanesum (take w sum) + lanesum (drop w sum)) as Hsplit
    by (rewrite <- lanesum_app, take_drop; done).
  rewrite add_epi32_exact.
  - split_and!.
    + rewrite length_zip_with, length_take, length_drop. lia.
    + by apply zip_add_nonneg; [apply Forall_take|apply Forall_drop].
    + rewrite lanesum_add by (rewrite length_take, length_drop; lia). lia.
  - rewrite length_take, length_drop. lia.
  - by apply Forall_take.
  - by apply Forall_drop.
  - lia.
Qed.

Lemma counted_zero w : counted w 0 (replicate w 0).
Proof.
  split_and!; [apply length_replicate|apply Forall_replicate; lia|]. rewrite lanesum_replicate. unfold G.
  symmetry. generalize qb. intros n. induction n as [|n IH]; cbn [weighted]; [done|]. rewrite IH, take_0. cbn [lanesum foldr]. lia.
Qed.

(** The last load is masked to the bytes that are left. *)
Lemma masked_loads : let o := (d / 128 * 128 / 8)%nat in let left_ := ((d - d / 128 * 128 + 7) / 8)%nat in
  (o + left_ = di)%nat /\
  loads (fun p => maskz_loadu 0 16 ((Z.shiftl 1 (Z.of_nat left_) - 1) mod 2 ^ 16) (drop o p)) o left_ 4.
Proof.
  intros o left_. pose proof (Nat.div_mod_eq d 128) as Hd. pose proof (Nat.mod_upper_bound d 128).
  assert (o = d / 128 * 16)%nat as Ho.
  { unfold o. replace (d / 128 * 128)%nat with (d / 128 * 16 * 8)%nat by lia. by rewrite Nat.div_mul by lia. }
  assert (left_ = (d mod 128 + 7) / 8)%nat as Hleft by (unfold left_; f_equal; lia).
  assert (left_ <= 16)%nat as Hle.
  { assert (left_ < 17)%nat; [|lia]. rewrite Hleft. apply Nat.Div0.div_lt_upper_bound. lia. }
  split.
  - unfold di. rewrite Ho, Hleft. replace (d + 7)%nat with (d mod 128 + 7 + d / 128 * 16 * 8)%nat by lia.
    rewrite Nat.div_add by lia. lia.
  - split; [lia|]. intros p Hp. unfold maskz_loadu. erewrite masked_load_ext; [by rewrite (prefix_load 0 16 left_)|].
    intros i Hi. cbv beta. rewrite <- Z.land_ones, Z.land_spec, Z.ones_spec_low, andb_true_r by lia.
    rewrite Z.shiftl_1_l, Z.sub_1_r, <- Z.ones_equiv. destruct (Nat.ltb_spec i left_).
    + by rewrite Z.ones_spec_low by lia.
    + by rewrite Z.ones_spec_high by lia.
Qed.

Lemma half_byte_offsets : (d / 512 * 512 / 8 = d / 512 * 64 /\ d / 256 * 256 / 8 = d / 256 * 32 /\
  d / 128 * 128 / 8 = d / 128 * 16 /\ d / 128 * 16 <= di)%nat.
Proof.
  split_and!; [rewrite <- (Nat.div_mul (d / 512 * 64) 8) by lia; f_equal; lia|
    rewrite <- (Nat.div_mul (d / 256 * 32) 8) by lia; f_equal; lia|
    rewrite <- (Nat.div_mul (d / 128 * 16) 8) by lia; f_equal; lia|].
  destruct masked_loads as [H _]. rewrite <- H. rewrite <- (Nat.div_mul (d / 128 * 16) 8) at 1 by lia.
  replace (d / 128 * 16 * 8)%nat with (d / 128 * 128)%nat by lia. lia.
Qed.

(** What [d / 2w] and [d / w] leave between them: nothing or one register. *)
Lemma halving w : (0 < w)%nat ->
  (d / (2 * w) * (2 * w) = d / w * w \/ d / (2 * w) * (2 * w) + w = d / w * w)%nat.
Proof.
  intros Hw. rewrite (Nat.mul_comm 2 w), <- Nat.Div0.div_div. pose proof (Nat.div_mod_eq (d / w) 2).
  pose proof (Nat.mod_upper_bound (d / w) 2). assert ((d / w) mod 2 = 0 \/ (d / w) mod 2 = 1)%nat as [E|E] by lia; [left|right]; nia.
Qed.

Lemma rabitq_dp_q_value : rabitq_dp_q qb q x d = Ret (G di).
Proof.
  match goal with |- ?m = Ret ?r => assert (wp m (fun s => s = r)) as E; [|by apply wp_elim in E as (? & -> & ->)] end.
  destruct half_byte_offsets as (E5 & E2 & E1 & Hdi). pose proof (halving 256 ltac:(lia)) as H5.
  pose proof (halving 128 ltac:(lia)) as H2. change (2 * 256)%nat with 512%nat in H5. change (2 * 128)%nat with 256%nat in H2.
  unfold rabitq_dp_q. apply wp_bind.
  apply (wp_for _ (fun i s => counted 16 (64 * i) s)); [apply counted_zero| |].
  { intros i s Hi Hs. replace (64 * (i + 1))%nat with (64 * i + 4 * 16)%nat by lia.
    eapply add_planes_counted; [|lia|done]. replace (512 * i / 8)%nat with (64 * i)%nat; [apply (loadu_loads (64 * i) 16)|].
    rewrite <- (Nat.div_mul (64 * i) 8) at 1 by lia. f_equal. lia. }
  intros s Hs%(fold_counted 8); [|lia]. apply wp_bind.
  assert (forall o o' w s, o = o' -> counted w o s -> counted w o' s) as Hcast by (by intros ???? ->).
  eapply (wp_mono _ (counted 8 (d / 256 * 32))).
  { destruct (Nat.eqb_spec (d / 256 * 256) (d / 512 * 512)) as [E|E]; cbn [negb].
    - cbn [wp]. eapply Hcast; [|exact Hs]. lia.
    - eapply wp_mono; [eapply (add_planes_counted _ (64 * (d / 512)) 32 8); [|lia|exact Hs]|].
      + rewrite E5, Nat.mul_comm. apply (loadu_loads _ 8).
      + intros r. apply Hcast. lia. }
  clear s Hs. intros s Hs%(fold_counted 4); [|lia]. apply wp_bind.
  eapply (wp_mono _ (counted 4 (d / 128 * 16))).
  { destruct (Nat.eqb_spec (d / 128 * 128) (d / 256 * 256)) as [E|E]; cbn [negb].
    - cbn [wp]. eapply Hcast; [|exact Hs]. lia.
    - eapply wp_mono; [eapply (add_planes_counted _ (d / 256 * 32) 16 4); [|lia|exact Hs]|].
      + rewrite E2. apply (loadu_loads _ 4).
      + intros r. apply Hcast. lia. }
  clear s Hs. intros s Hs. apply wp_bind. destruct masked_loads as [Ho Hload]. cbv zeta in Ho, Hload.
  eapply (wp_mono _ (counted 4 di)).
  { destruct (Nat.eqb_spec d (d / 128 * 128)) as [E|E]; cbn [negb].
    - cbn [wp]. eapply Hcast; [|exact Hs]. rewrite E1 in Ho. replace (d - d / 128 * 128)%nat with 0%nat in Ho by lia.
      change ((0 + 7) / 8)%nat with 0%nat in Ho. lia.
    - rewrite <- Ho. eapply add_planes_counted; [exact Hload|lia|]. rewrite E1. exact Hs. }
  clear s Hs. intros s (Hl & Hn & Hs). destruct (reg4 s Hl) as (a & b & c & e & ->).
  repeat (apply Forall_cons in Hn as [? Hn]). cbn [lanesum foldr] in Hs.
  cbn [seq foldM]. unfold extract_epi32. cbn [nth].
  repeat match goal with |- context [?u <? 2 ^ 31] => destruct (Z.ltb_spec u (2 ^ 31)); [|lia] end.
  repeat (rewrite i32_ok by lia; cbn [bind]). cbn [wp]. lia.
Qed.

(** The sums over planes are the dot product of the reference kernel. *)
Lemma G_plane_dot : G di = plane_dot q x (8 * di) qb (8 * di).
Proof.
  unfold G. assert (forall n, (n <= qb)%nat -> weighted (fun j => lanesum (take di (plane j))) n = plane_dot q x (8 * di) n (8 * di)) as H;
    [|by apply H].
  induction n as [|n IH]; intros Hn.
  - pose proof (plane_dot_range q x (8 * di) 0 (8 * di)) as Hz. change (2 ^ Z.of_nat 0 - 1) with 0 in Hz. cbn [weighted]. lia.
  - cbn [weighted]. rewrite IH, plane_dot_S by lia. do 2 f_equal. unfold plane.
    rewrite <- count_true_common by (rewrite ?length_drop; nia). f_equal. apply count_true_ext. intros k Hk. f_equal.
    unfold bit_at. rewrite lookup_total_drop. destruct (byte_bit (n * di) k) as [H1 H2].
    replace (8 * di * n + k)%nat with (8 * (n * di) + k)%nat by lia. by rewrite H1, H2.
Qed.

End planes.

(** The Ice Lake kernel returns what the reference kernel returns, for one to
    eight planes, while the largest possible value fits an [int]. *)
Lemma rabitq_icx_value q x (d nb : nat) :
  let bytes := ((d + 7) / 8)%nat in
  (1 <= nb <= 8)%nat ->
  Forall byte_ok q -> Forall byte_ok x -> (nb * bytes <= length q)%nat -> (bytes <= length x)%nat ->
  (2 ^ Z.of_nat nb - 1) * Z.of_nat (8 * bytes) < 2 ^ 31 ->
  rabitq_dp_popcnt_avx512icx q x d nb = rabitq_dp_popcnt_ref q x d nb.
Proof.
  intros bytes Hnb Hq Hx Hlq Hlx Hmax. rewrite rabitq_ref_value by done. unfold rabitq_dp_popcnt_avx512icx.
  destruct (Nat.leb_spec 1 nb), (Nat.leb_spec nb 8); try lia. cbn [andb].
  pose proof (G_plane_dot nb q x d Hlx Hlq) as HG. rewrite rabitq_dp_q_value; [|done|done|].
  - f_equal. exact HG.
  - rewrite HG. pose proof (plane_dot_range q x (8 * bytes) nb (8 * bytes)). fold bytes. lia.
Qed.
