(* ===== verification/X86Spec.v ===== *)
(** * What the x86 kernels promise

    The SSE, AVX2 and AVX-512 kernels against the scalar reference kernels. *)

From S2P Require Import Prelude Float Num Bitset MemoryIO Operands Distances DistanceProps Rvv RvvKernels RvvProps Simd.
From S2P Require Import SimdProps AvxKernels AvxProps SseKernels SseProps Avx512Kernels Avx512MinHash Avx512Props.
From S2P Require Import Avx512MinHashProps.

#[local] Open Scope Z_scope.

(** ** Kernels on [float] *)

Lemma l2_rows_avx x y dis d ny : (d <= length x)%nat -> (ny * d <= length y)%nat -> (ny <= length dis)%nat ->
  fvec_L2sqr_ny_avx dis x y d ny = fvec_L2sqr_ny_ref dis x y d ny.
Proof.
  intros Hx Hy Hd. unfold fvec_L2sqr_ny_avx. destruct (Nat.eqb_spec d 2) as [->|]; [by apply l2_rows_d2|].
  destruct (Nat.eqb_spec d 4) as [->|]; [by apply l2_rows_d4|]. by apply l2_rows_impl.
Qed.

Lemma norm_512_value `{!Usum Z} (x : list Z) d : (d <= length x)%nat ->
  fvec_norm_L2sqr_avx512 x d = Ret (lanesum (take d (zip_with Z.mul x x))).
Proof.
  intros Hx. rewrite <- (fmap_id_list x) at 2 3. apply two_sums_value. by apply norm_accumulates.
Qed.

(** The nearest-row scan from two start values. *)
Lemma scan_Z (u : Z) buf n : (n <= length buf)%nat -> wp (nearest_scan u buf n) (first_least u buf n).
Proof. intros Hn. apply nearest_scan_spec; [exact I|by apply Forall_forall|exact Hn]. Qed.

Lemma scan_starts (u v : Z) buf n : (n <= length buf)%nat -> (forall i, (i < n)%nat -> buf !!! i < v) ->
  (exists i, (i < n)%nat /\ buf !!! i < u) -> nearest_scan u buf n = nearest_scan v buf n.
Proof.
  intros Hn Hv (i & Hi & Hu).
  destruct (wp_elim _ _ (scan_Z u buf n Hn)) as (k & -> & [[H _]|(Hk & _ & Hle & Hlt)]).
  { specialize (H i Hi). cbn in H. apply Z.ltb_ge in H. lia. }
  destruct (wp_elim _ _ (scan_Z v buf n Hn)) as (q & -> & [[H _]|(Hq & _ & Hle' & Hlt')]).
  { specialize (H i Hi). cbn in H. apply Z.ltb_ge in H. specialize (Hv i Hi). lia. }
  f_equal. destruct (lt_eq_lt_dec k q) as [[H| ->]|H]; [|done|].
  - specialize (Hlt' k H). rewrite (Hle q Hq) in Hlt'. discriminate.
  - specialize (Hlt q H). rewrite (Hle' k Hk) in Hlt. discriminate.
Qed.

Lemma scan_none (u : Z) buf n : (n <= length buf)%nat -> (forall i, (i < n)%nat -> u <= buf !!! i) -> nearest_scan u buf n = Ret 0%nat.
Proof.
  intros Hn Hu.
  destruct (wp_elim _ _ (scan_Z u buf n Hn)) as (k & -> & [[_ ->]|(Hk & H & _)]); [done|].
  specialize (Hu k Hk). cbn in H. apply Z.ltb_lt in H. lia.
Qed.

(** What a nearest-row kernel that starts from the largest [float] returns, when
    the reference starts from an infinity [huge] above every distance: the same
    if some row is closer than the largest [float], and otherwise row 0. *)
Definition nearest_below_max (f : list Z -> list Z -> list Z -> nat -> nat -> M (list Z * nat)) (dis x y : list Z) (d ny : nat) : Prop :=
  forall huge buf, fvec_L2sqr_ny_ref dis x y d ny = Ret buf -> (forall i, (i < ny)%nat -> buf !!! i < huge) ->
  ((exists i, (i < ny)%nat /\ buf !!! i < flt_max) -> f dis x y d ny = fvec_L2sqr_ny_nearest_ref huge dis x y d ny) /\
  ((forall i, (i < ny)%nat -> flt_max <= buf !!! i) -> f dis x y d ny = Ret (buf, 0%nat)).

Lemma nearest_avx_max x y dis d ny : (d <= length x)%nat -> (ny * d <= length y)%nat -> (ny <= length dis)%nat ->
  nearest_below_max fvec_L2sqr_ny_nearest_avx dis x y d ny.
Proof.
  intros Hx Hy Hd huge buf E Hh. unfold fvec_L2sqr_ny_nearest_avx, fvec_L2sqr_ny_nearest_ref. rewrite l2_rows_avx, E by done. cbn [bind].
  assert (ny <= length buf)%nat as Hl.
  { destruct (wp_elim (fvec_L2sqr_ny_ref dis x y d ny) (fun r => length r = length dis)) as (r & E' & Hr); [|rewrite E in E'; injection E' as <-; lia].
    apply (wp_for _ (fun _ r => length r = length dis)); [done| |done]. intros i r Hi Hr.
    rewrite l2_ref_value by (rewrite ?length_drop; nia). cbn [bind]. apply wp_vset; [lia|]. by rewrite length_insert. }
  split; intros H; [by rewrite (scan_starts flt_max huge)|by rewrite scan_none].
Qed.

(** C25: in exact arithmetic the vector kernels on [float] terminate and return
    what the scalar kernels return, whatever the dimension and the order of the
    AVX-512 reduction: inner product, squared L2 and L1 distance with SSE, AVX2
    and AVX-512, squared norm, inner products and squared distances of one
    vector and many rows (with the variants for small dimensions) and the masked
    sum over a bit string.  The AVX2 search for the nearest row starts from the
    largest [float] and not, like the reference, from infinity: it returns what
    the reference returns when some row is closer than that, and row 0 when
    none is. *)
Theorem x86_float_kernels_match_reference `{HU : !Usum Z} (x y dis : list Z) (d ny : nat) :
  (d <= length x)%nat ->
  ((d <= length y)%nat ->
   Forall (fun f => f x y d = fvec_inner_product_ref x y d)
     [fvec_inner_product_sse; fvec_inner_product_avx; fvec_inner_product_avx512] /\
   Forall (fun f => f x y d = fvec_L2sqr_ref x y d) [fvec_L2sqr_sse; fvec_L2sqr_avx; fvec_L2sqr_avx512] /\
   Forall (fun f => f x y d = fvec_L1_ref x y d) [fvec_L1_sse; fvec_L1_avx; fvec_L1_avx512]) /\
  Forall (fun f => f x d = fvec_norm_L2sqr_ref x d) [fvec_norm_L2sqr_sse; fvec_norm_L2sqr_avx; fvec_norm_L2sqr_avx512] /\
  ((ny * d <= length y)%nat -> (ny <= length dis)%nat ->
   fvec_inner_products_ny_sse dis x y d ny = fvec_inner_products_ny_ref dis x y d ny /\
   fvec_L2sqr_ny_sse dis x y d ny = fvec_L2sqr_ny_ref dis x y d ny /\
   fvec_L2sqr_ny_avx dis x y d ny = fvec_L2sqr_ny_ref dis x y d ny /\
   nearest_below_max fvec_L2sqr_ny_nearest_avx dis x y d ny) /\
  (forall bits, (d <= 8 * length bits)%nat -> Forall BitsetView.byte_ok bits ->
   Forall (fun f => f x bits d = fvec_masked_sum_ref x bits d)
     [fvec_masked_sum_sse; fvec_masked_sum_avx; fvec_masked_sum_avx512]).
Proof.
  intros Hx. split_and!.
  - intros Hy. rewrite !Forall_cons, !Forall_nil.
    rewrite l1_avx_value, l1_512_value, ip_sse_value, l2_sse_value by done.
    rewrite <- !ip_ref_value, <- !l2_ref_value, <- !l1_ref_value by done. by split_and!.
  - rewrite !Forall_cons, Forall_nil. rewrite norm_sse_value, norm_avx_value, norm_512_value, fvec_norm_ref_ip, ip_ref_value by done. by split_and!.
  - intros Hy Hd. rewrite ny_sse_ip, ny_sse_l2, l2_rows_avx by done. split_and!; [done..|]. by apply nearest_avx_max.
  - intros bits Hb Ho. rewrite !Forall_cons, Forall_nil, masked_sum_value, masked_sum_512_value by done. by split_and!.
Qed.

Lemma x86_float_kernels_match_reference_witness :
  fvec_L1_avx512 [1; 2; 3] [4; 0; 6] 3 = Ret 8 /\
  fvec_L2sqr_ny_avx [0; 0; 0] [1; 2] [4; 5; 1; 1; 1; 2] 2 3 = Ret [18; 1; 0] /\
  fvec_L2sqr_ny_nearest_avx [0; 0; 0] [1; 2] [4; 5; 1; 1; 1; 2] 2 3 = Ret ([18; 1; 0], 2%nat) /\
  fvec_masked_sum_avx [1; 2; 3] [5] 3 = Ret 4.
Proof.
  pose proof (x86_float_kernels_match_reference [1; 2; 3] [4; 0; 6] [] 3 0 ltac:(simpl; lia)) as (H1 & _ & _ & H4).
  pose proof (x86_float_kernels_match_reference [1; 2] [4; 5; 1; 1; 1; 2] [0; 0; 0] 2 3 ltac:(simpl; lia)) as (_ & _ & H3 & _).
  destruct (H1 ltac:(simpl; lia)) as (_ & _ & L1). rewrite !Forall_cons in L1. destruct L1 as (_ & _ & -> & _).
  destruct (H3 ltac:(simpl; lia) ltac:(simpl; lia)) as (_ & _ & -> & Hn).
  pose proof (H4 [5] ltac:(simpl; lia) ltac:(repeat constructor; lia)) as Hm. rewrite !Forall_cons in Hm. destruct Hm as (_ & -> & _).
  refine (conj eq_refl (conj eq_refl (conj _ eq_refl))).
  destruct (Hn 1000 [18; 1; 0] eq_refl) as [-> _]; [intros [|[|[|i]]] Hi; cbn; lia|reflexivity|].
  exists 0%nat. split; [lia|reflexivity].
Defined.

(** ** Kernels on 16-bit elements *)

(** over an exact conversion of the elements the 16-bit kernels return what
    the [float] kernels return on the converted vectors: inner product, squared
    L2 distance, squared norm and batches of four, with SSE (bf16 only), AVX2
    and AVX-512, although the last register is padded with zero elements. *)
Theorem x86_half_kernels_match_reference `{HU : !Usum Z} (widen : Z -> Z) (x y y0 y1 y2 y3 : list Z) (d : nat) :
  widen 0 = 0 -> (d <= length x)%nat ->
  let wx := widen <$> x in let wy := widen <$> y in
  ((d <= length y)%nat ->
   let ip := fvec_inner_product_ref wx wy d in let l2 := fvec_L2sqr_ref wx wy d in
   half_ip_sse widen x y d = ip /\ half_ip_avx widen x y d = ip /\
   one_sum 0 widen (fun load => ip_add load x y) d = ip /\ two_sums 0 widen (fun load => ip_add load x y) d = ip /\
   half_L2sqr_sse widen x y d = l2 /\ half_L2sqr_avx widen x y d = l2 /\
   two_sums 0 widen (fun load => l2_add load x y) d = l2) /\
  (let norm := fvec_inner_product_ref wx wx d in
   half_norm_sse widen x d = norm /\ half_norm_avx widen x d = norm /\
   two_sums 0 widen (fun load => norm_add load x) d = norm) /\
  (Forall (fun p => (d <= length p)%nat) [y0; y1; y2; y3] ->
   let b step := step wx (widen <$> y0) (widen <$> y1) (widen <$> y2) (widen <$> y3) d in
   half_batch_4_avx widen ip_lanes x y0 y1 y2 y3 d = b fvec_inner_product_batch_4_ref /\
   half_batch_4_avx512 0 widen ip_lanes x y0 y1 y2 y3 d = b fvec_inner_product_batch_4_ref /\
   half_batch_4_avx widen l2_lanes x y0 y1 y2 y3 d = b fvec_L2sqr_batch_4_ref /\
   half_batch_4_avx512 0 widen l2_lanes x y0 y1 y2 y3 d = b fvec_L2sqr_batch_4_ref).
Proof.
  intros Hz Hx wx wy. subst wx wy.
  assert (forall p o e, (e < 4)%nat -> (o + e <= length p)%nat ->
    ld4_rest8 0 widen p o e = Ret (slice o (o + e) (widen <$> p) ++ replicate (4 - e) 0)) as Hr
    by (intros; by apply ld4_rest8_ok).
  split_and!.
  - intros Hy ip l2. subst ip l2. rewrite half_ip_avx_value, half_l2_avx_value, ip_ref_value, l2_ref_value
      by (done || (rewrite length_fmap; lia)).
    split_and!; try done.
    + apply sum_if_value; by apply ip_terms.
    + apply one_sum_value. by apply ip_accumulates.
    + apply two_sums_value. by apply ip_accumulates.
    + apply sum_if_value; by apply l2_terms.
    + apply two_sums_value. by apply l2_accumulates.
  - intros. subst norm. rewrite half_norm_avx_value, ip_ref_value by (done || (rewrite length_fmap; lia)). split_and!; try done.
    + apply sum_if_value; by apply norm_terms.
    + apply two_sums_value. by apply norm_accumulates.
  - intros Hy b. pose proof Hy as (H0 & H1 & H2 & H3 & _)%Forall4.
    subst b. cbv beta. unfold fvec_inner_product_batch_4_ref, fvec_L2sqr_batch_4_ref.
    rewrite (batch_ref_value _ Z.mul), (batch_ref_value _ sq) by (done || (rewrite length_fmap; lia)).
    rewrite !(half_batch_value _ _ Z.mul), !(half_batch_value _ _ sq) by (done || apply ip_lanes_adds || apply l2_lanes_adds).
    rewrite !(batch_512_value 0 widen Hz _ Z.mul), !(batch_512_value 0 widen Hz _ sq) by (done || apply ip_lanes_adds || apply l2_lanes_adds).
    done.
Qed.

Lemma x86_half_kernels_match_reference_witness :
  let halve v := v / 2 in
  half_ip_avx halve [2; 4; 6] [8; 10; 13] 3 = Ret 32 /\
  half_norm_sse halve [2; 4; 6] 3 = Ret 14 /\
  half_batch_4_avx512 0 halve l2_lanes [2; 4] [2; 4] [0; 0] [4; 4] [6; 6] 2 = Ret (0, 5, 1, 5).
Proof.
  split_and!.
  - rewrite (proj1 (proj2 (proj1 (x86_half_kernels_match_reference (fun v => v / 2) [2; 4; 6] [8; 10; 13] [] [] [] [] 3
      eq_refl ltac:(simpl; lia)) ltac:(simpl; lia)))). reflexivity.
  - rewrite (proj1 (proj1 (proj2 (x86_half_kernels_match_reference (fun v => v / 2) [2; 4; 6] [] [] [] [] [] 3
      eq_refl ltac:(simpl; lia))))). reflexivity.
  - rewrite (proj2 (proj2 (proj2 (proj2 (proj2 (x86_half_kernels_match_reference (fun v => v / 2) [2; 4] []
      [2; 4] [0; 0] [4; 4] [6; 6] 2 eq_refl ltac:(simpl; lia))) ltac:(repeat constructor))))). reflexivity.
Defined.

(** ** Linf on binary32 numbers *)

Lemma diffs_mag x y d : Forall (fun t => is_nan t = false) (zip_with F32.sub (take d x) (take d y)) ->
  Forall mag (take d (diffs x y)).
Proof.
  intros H. unfold diffs. rewrite zip_with_take. revert H. generalize (take d x) (take d y). intros a.
  induction a as [|u a IH]; intros [|w b] H; try constructor; inversion H; subst; [by eexists|by apply IH].
Qed.

(** on binary32 numbers the AVX2 and AVX-512 kernels for the Linf distance
    return the very value of the reference kernel (the maximum is not rounded,
    and the maximum of magnitudes does not depend on the order), provided no
    difference is NaN. *)
Theorem x86_linf_is_reference (x y : list spec_float) (d : nat) :
  (d <= length x)%nat -> (d <= length y)%nat ->
  Forall (fun t => is_nan t = false) (zip_with F32.sub (take d x) (take d y)) ->
  fvec_Linf_avx x y d = fvec_Linf_ref x y d /\ fvec_Linf_avx512 x y d = fvec_Linf_ref x y d.
Proof. intros Hx Hy H%diffs_mag. split; [by apply linf_avx_value|by apply linf_512_value]. Qed.

Lemma x86_linf_is_reference_witness :
  let v := F32.of_Z <$> [1; 5; 2] in let w := F32.of_Z <$> [2; 1; 9] in
  fvec_Linf_avx v w 3 = Ret (F32.of_Z 7) /\ fvec_Linf_avx512 v w 3 = Ret (F32.of_Z 7).
Proof.
  intros v w. destruct (x86_linf_is_reference v w 3) as [E1 E2].
  - simpl; lia.
  - simpl; lia.
  - repeat constructor.
  - rewrite E1, E2. split; vm_compute; reflexivity.
Defined.

(** ** Multiply-add and argmin *)

(** the SSE multiply-add writes the very values of the reference, in any
    arithmetic and for any length and alignment; the SSE argmin writes the same
    values and, in exact arithmetic, returns a position of a least value below
    the initial one, or -1.  Among equal values it need not be the first, which
    the reference returns. *)
Theorem sse_madd_and_argmin (a b c : list Z) (bf vmin0 : Z) (n : nat) (aligned : bool) :
  (n <= length a)%nat -> (n <= length b)%nat -> (n <= length c)%nat -> Z.of_nat n + 8 < 2 ^ 31 ->
  fvec_madd_sse aligned n a bf b c = fvec_madd_ref n a bf b c /\
  (exists r i j,
    fvec_madd_and_argmin_sse vmin0 aligned n a bf b c = Ret (r, i) /\
    fvec_madd_and_argmin_ref vmin0 n a bf b c = Ret (r, j) /\
    fvec_madd_ref n a bf b c = Ret r /\
    least_index a b bf vmin0 n i /\ least_index a b bf vmin0 n j) /\
  (let d := [5; 9; 1; 9; 1; 9; 9; 9] in
   fvec_madd_and_argmin_sse 100 true 8 d 0 d d = Ret (d, 4) /\ fvec_madd_and_argmin_ref 100 8 d 0 d d = Ret (d, 2)).
Proof.
  intros Ha Hb Hc Hn. split; [by apply madd_sse_value|]. split; [|split; reflexivity].
  destruct (wp_elim _ _ (argmin_sse_least a b c bf vmin0 n Ha Hb Hc Hn aligned)) as ([r i] & -> & Hr & Hi).
  destruct (wp_elim _ _ (argmin_ref_least a b c bf vmin0 n Ha Hb Hc)) as ([r' j] & -> & Hr' & Hj).
  destruct (wp_elim _ _ (madd_ref_filled a b c bf n Ha Hb Hc)) as (r'' & -> & Hr'').
  unfold filled in *. subst. by eexists _, i, j.
Qed.

Lemma sse_madd_and_argmin_witness :
  fvec_madd_sse true 4 [1; 2; 3; 4] 2 [1; 1; 1; 1] [0; 0; 0; 0] = Ret [3; 4; 5; 6] /\
  exists r i j, fvec_madd_and_argmin_sse 100 true 4 [3; 2; 1; 4] 0 [1; 1; 1; 1] [0; 0; 0; 0] = Ret (r, i) /\
    fvec_madd_and_argmin_ref 100 4 [3; 2; 1; 4] 0 [1; 1; 1; 1] [0; 0; 0; 0] = Ret (r, j).
Proof.
  split.
  - rewrite (proj1 (sse_madd_and_argmin [1; 2; 3; 4] [1; 1; 1; 1] [0; 0; 0; 0] 2 100 4 true ltac:(simpl; lia)
      ltac:(simpl; lia) ltac:(simpl; lia) ltac:(simpl; lia))). reflexivity.
  - destruct (proj1 (proj2 (sse_madd_and_argmin [3; 2; 1; 4] [1; 1; 1; 1] [0; 0; 0; 0] 0 100 4 true ltac:(simpl; lia)
      ltac:(simpl; lia) ltac:(simpl; lia) ltac:(simpl; lia)))) as (r & i & j & H1 & H2 & _).
    exists r, i, j. split; [exact H1|exact H2].
Defined.

(** ** Searches in sorted arrays *)

Lemma first_index_unique (P : Z -> Prop) (data : list Z) (size : nat) r q :
  first_index P data size r -> first_index P data size q -> r = q.
Proof.
  intros [[-> Hr]|(Hr & Hpr & Hr')] [[-> Hq]|(Hq & Hpq & Hq')]; [done| | |].
  - destruct (Hr (Z.to_nat q)); [lia|done].
  - destruct (Hq (Z.to_nat r)); [lia|done].
  - destruct (Z.lt_trichotomy r q) as [H|[H|H]]; [|done|].
    + destruct (Hq' (Z.to_nat r)); [lia|done].
    + destruct (Hr' (Z.to_nat q)); [lia|done].
Qed.

Section searches.
Context (data : list Z) (size : nat) (key : Z).
Hypothesis (Hs : sorted_upto data size) (Hl : (size <= length data)%nat) (Hm : Z.of_nat size < 2 ^ 31).

Lemma searching_all (P : Z -> Prop) : (P = (fun v => key <= v) \/ P = (fun v => v = key)) ->
  searching P data size key 0 (to_int size - 1) (-1).
Proof. intros HP. rewrite to_int_small by done. destruct HP as [-> | ->]; (split; [lia|lia|left; split; [done|lia]]). Qed.

(** The reference searches return the first matching position. *)
Lemma search_refs_first :
  (exists q, u64_binary_search_ge_ref data size key = Ret q /\ first_index (fun v => key <= v) data size q) /\
  (exists q, u64_binary_search_eq_ref data size key = Ret q /\ first_index (fun v => v = key) data size q).
Proof.
  split.
  - destruct (wp_elim _ _ (search_ge_spec data size key (S size) _ _ _ Hs Hl (searching_all _ (or_introl eq_refl))
      ltac:(rewrite to_int_small by done; lia))) as (q & Eq & Hq). by exists q.
  - destruct (wp_elim _ _ (search_eq_spec data size key (S size) _ _ _ Hs Hl (searching_all _ (or_intror eq_refl))
      ltac:(rewrite to_int_small by done; lia))) as (q & Eq & Hq). by exists q.
Qed.

Lemma search_ge_avx512_ref : u64_binary_search_ge_avx512 data size key = u64_binary_search_ge_ref data size key.
Proof.
  destruct (wp_elim _ _ (search_ge_avx512_first data size key Hs Hl Hm)) as (r & -> & Hr).
  destruct search_refs_first as [(q & -> & Hq) _]. f_equal. by eapply first_index_unique.
Qed.

Lemma search_eq_avx512_index : exists r, u64_binary_search_eq_avx512 data size key = Ret r /\ some_index data size key r.
Proof.
  destruct (wp_elim _ _ (search_eq_avx512_some data size key Hs Hl Hm)) as (e & Ee & Hsome & Hfirst). by exists e.
Qed.

End searches.

(** on sorted data of fewer than 2^31 elements the AVX-512 searches
    terminate and read nothing outside the data.  The search for the first
    element not below a target returns what the reference returns; the search
    for a key returns a position that holds it, or -1 when there is none.  Up
    to 32 elements that is the first position, as in the reference; beyond, it
    may be another one. *)
Theorem avx512_searches (data : list Z) (size : nat) (key : Z) :
  sorted_upto data size -> (size <= length data)%nat -> Z.of_nat size < 2 ^ 31 ->
  u64_binary_search_ge_avx512 data size key = u64_binary_search_ge_ref data size key /\
  (exists r, u64_binary_search_eq_avx512 data size key = Ret r /\ some_index data size key r) /\
  ((size <= 32)%nat -> u64_binary_search_eq_avx512 data size key = u64_binary_search_eq_ref data size key) /\
  (let d := replicate 33 7 in
   u64_binary_search_eq_avx512 d 33 7 = Ret 16 /\ u64_binary_search_eq_ref d 33 7 = Ret 0).
Proof.
  intros Hs Hl Hm. refine (conj _ (conj _ (conj _ _))).
  - by apply search_ge_avx512_ref.
  - by apply search_eq_avx512_index.
  - intros H32. destruct (wp_elim _ _ (search_eq_avx512_some data size key Hs Hl Hm)) as (e & -> & _ & Hfirst).
    destruct (search_refs_first data size key Hs Hl Hm) as [_ (q & -> & Hq)]. f_equal.
    eapply first_index_unique; [by apply Hfirst|done].
  - split; vm_compute; reflexivity.
Qed.

Lemma avx512_searches_witness :
  u64_binary_search_ge_avx512 [1; 3; 3; 8] 4 2 = Ret 1 /\ u64_binary_search_eq_avx512 [1; 3; 3; 8] 4 3 = Ret 1.
Proof.
  assert (sorted_upto [1; 3; 3; 8] 4) as Hs by (intros [|[|[|[|i]]]] [|[|[|[|j]]]] Hij; simpl; lia).
  split.
  - rewrite (proj1 (avx512_searches [1; 3; 3; 8] 4 2 Hs ltac:(simpl; lia) ltac:(simpl; lia))). reflexivity.
  - rewrite (proj1 (proj2 (proj2 (avx512_searches [1; 3; 3; 8] 4 3 Hs ltac:(simpl; lia) ltac:(simpl; lia)))) ltac:(lia)).
    reflexivity.
Defined.

(** ** Jaccard distances *)

(** the AVX-512 Jaccard kernels compare the zeroed lanes behind the last
    element as well and count them as equal, so that the result is
    (agreements + padding) / n: right when the number of elements is a multiple
    of the lanes of a register, and 13/3 for two disjoint arrays of three
    32-bit elements.  The 64-bit batch leaves its loop with up to 16 elements
    left and masks 32-bit halves, so that of 16 elements it compares the first
    8 and returns at most 1/2. *)
Theorem avx512_jaccard_counts_padding (x y0 y1 y2 y3 : list Z) (n : nat) :
  (0 < n)%nat -> Z.of_nat n + 16 < 2 ^ 32 -> (n <= length x)%nat ->
  Forall (fun p => (n <= length p)%nat) [y0; y1; y2; y3] ->
  u32_jaccard_distance_avx512 x y0 n = Ret (padded_average 16 x y0 n) /\
  u64_jaccard_distance_avx512 x y0 n = Ret (padded_average 8 x y0 n) /\
  u32_jaccard_distance_batch_4_avx512 x y0 y1 y2 y3 n =
    Ret (padded_average 16 x y0 n, padded_average 16 x y1 n, padded_average 16 x y2 n, padded_average 16 x y3 n) /\
  (n = 16%nat -> u64_jaccard_distance_batch_4_avx512 x y0 y1 y2 y3 n =
    Ret (averages (agreements x y0 8, agreements x y1 8, agreements x y2 8, agreements x y3 8) 16)) /\
  (forall w k, (0 < w)%nat -> padding w (w * k) = 0) /\
  u32_jaccard_distance_avx512 [1; 2; 3] [4; 5; 6] 3 = Ret (F32.div (F32.of_Z 13) (F32.of_Z 3)).
Proof.
  intros Hn Hmax Hx Hy. pose proof Hy as (H0 & H1 & H2 & H3 & _)%Forall4. split_and!.
  - apply jaccard_512_value; lia.
  - apply jaccard_512_value; lia.
  - by apply jaccard_batch_512_value.
  - intros ->. by apply jaccard_batch_64_value.
  - intros w k Hw. unfold padding. rewrite Nat.mul_comm, Nat.Div0.mod_mul, Nat.sub_0_r, Nat.Div0.mod_same. done.
  - vm_compute; reflexivity.
Qed.

Lemma avx512_jaccard_counts_padding_witness :
  u64_jaccard_distance_avx512 [1; 2; 3] [1; 5; 6] 3 = Ret (F32.div (F32.of_Z 6) (F32.of_Z 3)).
Proof.
  rewrite (proj1 (proj2 (avx512_jaccard_counts_padding [1; 2; 3] [1; 5; 6] [1; 2; 3] [1; 2; 3] [1; 2; 3] 3
    ltac:(lia) ltac:(lia) ltac:(simpl; lia) ltac:(repeat constructor)))). reflexivity.
Defined.
