(* ===== verification/Neon.v ===== *)
(** * The NEON kernels (src/simd/distances_neon.cc)

    The kernels for 64-bit Arm.  A register is the list of its four lanes, a
    value of type [float32x4x4_t] or [float32x4x2_t] the list of its registers.
    The kernels share one shape: strips of 16 elements, then at most one strip
    of 8 and one of 4, then up to three elements loaded lane by lane. *)

From S2P Require Import Prelude Float Num Operands Distances Rvv RvvKernels Simd AvxKernels.

(** ** Loads and reductions *)

Section loads.
Context {B : Type} (zero : B).

(** [vld1q_f32_x4], [vld1q_f32_x2], [vld1q_f32]: [n] registers one after the other. *)
Definition vld1_x (n : nat) (p : list B) : M (list (list B)) :=
  let* v := loadu (4 * n) p in Ret ((fun k => slice (4 * k) (4 * k + 4) v) <$> seq 0 n).

(** [vld4_f16], [vld2_f16], [vld1_f16]: element [n * i + k] goes to lane [i] of register [k]. *)
Definition vld_n (n : nat) (p : list B) : M (list (list B)) :=
  let* v := loadu (4 * n) p in Ret ((fun k => (fun i => nth (n * i + k) v zero) <$> seq 0 4) <$> seq 0 n).

(** [vst4q_f32]: the inverse. *)
Definition interleave (n : nat) (r : list (list B)) : list B :=
  (fun j => nth (j / n) (nth (j mod n) r []) zero) <$> seq 0 (4 * n).

(** The falling tests [d >= 3], [d >= 2], [d >= 1], each loading the next
    element into lane 2, 1 or 0 of a zeroed register. *)
Definition lanes_rest (p : list B) (off d : nat) : M (list B) :=
  let* (res, _, _) := foldM (fun (st : list B * nat * nat) l =>
      let '(res, off, d) := st in
      if S l <=? d then let* e := vget p off in let* res := vset res l e in Ret (res, off + 1, d - 1) else Ret st)
    (replicate 4 zero, off, d) [2; 1; 0] in
  Ret res.

End loads.

(** The strips of 16, 8 and 4 elements; [add n off] processes [n] registers. *)
Definition strips_16_8_4 {S} (add : nat -> nat -> S -> M S) (d : nat) (s : S) : M (nat * nat * S) :=
  let* st := strips d 16 (add 4) 0 d s in
  let* st := strip_if 8 (add 2) st in
  strip_if 4 (add 1) st.

Section lanes.
Context {A : Type} `{!Num A}.

(** [vaddvq_f32]: pairwise additions. *)
Definition vaddvq (v : list A) : A := nadd (nadd (lane v 0) (lane v 1)) (nadd (lane v 2) (lane v 3)).

(** [vmaxq_f32]: a NaN operand yields NaN.  (Zeros of either sign are taken to be
    equal; the kernels compare magnitudes.) *)
Definition maxq (s t : A) : A :=
  if negb (neqb s s) then s else if negb (neqb t t) then t else if nltb t s then s else t.
Definition vmaxq : list A -> list A -> list A := zip_with maxq.
(** [vminq_f32], likewise. *)
Definition vminq : list A -> list A -> list A :=
  zip_with (fun s t => if negb (neqb s s) then s else if negb (neqb t t) then t else if nltb t s then t else s).
Definition vmaxvq (v : list A) : A := maxq (maxq (lane v 0) (lane v 1)) (maxq (lane v 2) (lane v 3)).

(** The registers of a strip folded into one: [c0 op c1], [c2 op c3], then both. *)
Definition fold_regs (op : list A -> list A -> list A) (c : list (list A)) : list A :=
  match c with
  | [c0; c1; c2; c3] => op (op c0 c1) (op c2 c3)
  | [c0; c1] => op c0 c1
  | [c0] => c0
  | _ => []
  end.

(** What a kernel computes of the registers it loads. *)
Definition ip_regs (a b : list A) : list A := vmul a b.
Definition l2_regs (a b : list A) : list A := let c := vsub a b in vmul c c.
Definition l1_regs (a b : list A) : list A := vabs (vsub a b).

(** ** One vector against one *)

(** [terms load] loads the operands with [load] and returns their terms. *)
Definition neon_fold (op : list A -> list A -> list A) (terms : (list A -> M (list (list A))) -> M (list (list A)))
    (d : nat) : M (list A) :=
  let* (off, d, sum_) := strips_16_8_4 (fun n off sum_ =>
      let* c := terms (fun p => vld1_x n (drop off p)) in Ret (op sum_ (fold_regs op c))) d (set1 4 nzero) in
  let* c := terms (fun p => let* r := lanes_rest nzero p off d in Ret [r]) in
  Ret (op sum_ (fold_regs op c)).

Definition terms_of (term : list A -> list A -> list A) (x y : list A) (load : list A -> M (list (list A)))
    : M (list (list A)) :=
  let* a := load x in let* b := load y in Ret (zip_with term a b).

Definition own_terms (x : list A) (load : list A -> M (list (list A))) : M (list (list A)) :=
  let* a := load x in Ret ((fun r => vmul r r) <$> a).

Definition fvec_inner_product_neon (x y : list A) (d : nat) : M A :=
  let* sum_ := neon_fold vadd (terms_of ip_regs x y) d in Ret (vaddvq sum_).
Definition fvec_L2sqr_neon (x y : list A) (d : nat) : M A :=
  let* sum_ := neon_fold vadd (terms_of l2_regs x y) d in Ret (vaddvq sum_).
Definition fvec_L1_neon (x y : list A) (d : nat) : M A :=
  let* sum_ := neon_fold vadd (terms_of l1_regs x y) d in Ret (vaddvq sum_).
Definition fvec_Linf_neon (x y : list A) (d : nat) : M A :=
  let* sum_ := neon_fold vmaxq (terms_of l1_regs x y) d in Ret (vmaxvq sum_).
Definition fvec_norm_L2sqr_neon (x : list A) (d : nat) : M A :=
  let* sum_ := neon_fold vadd (own_terms x) d in Ret (vaddvq sum_).

(** ** One vector against four *)

Section batch.
Context {B : Type} (load : nat -> list B -> M (list (list A))) (rest : list B -> nat -> nat -> M (list A)).
Context (step : list (list A) -> list (list A) -> list A -> list A).

Definition neon_batch_4 (x y0 y1 y2 y3 : list B) (dim : nat) : M (A * A * A * A) :=
  let add (ld : list B -> M (list (list A))) (st : list A * list A * list A * list A) :=
    let '(sum_0, sum_1, sum_2, sum_3) := st in
    let* a := ld x in
    let* b0 := ld y0 in
    let* b1 := ld y1 in
    let* b2 := ld y2 in
    let* b3 := ld y3 in
    Ret (step a b0 sum_0, step a b1 sum_1, step a b2 sum_2, step a b3 sum_3) in
  let zero := set1 4 nzero in
  let* (off, d, st) := strips_16_8_4 (fun n off => add (fun p => load n (drop off p))) dim (zero, zero, zero, zero) in
  let* st := add (fun p => let* r := rest p off d in Ret [r]) st in
  let '(sum_0, sum_1, sum_2, sum_3) := st in
  Ret (vaddvq sum_0, vaddvq sum_1, vaddvq sum_2, vaddvq sum_3).
End batch.

Definition add_folded (term : list A -> list A -> list A) (a b : list (list A)) (sum_ : list A) : list A :=
  vadd sum_ (fold_regs vadd (zip_with term a b)).

Definition fvec_inner_product_batch_4_neon (x y0 y1 y2 y3 : list A) (dim : nat) : M (A * A * A * A) :=
  neon_batch_4 vld1_x (lanes_rest nzero) (add_folded ip_regs) x y0 y1 y2 y3 dim.
Definition fvec_L2sqr_batch_4_neon (x y0 y1 y2 y3 : list A) (dim : nat) : M (A * A * A * A) :=
  neon_batch_4 vld1_x (lanes_rest nzero) (add_folded l2_regs) x y0 y1 y2 y3 dim.

(** ** One vector against many rows *)

Definition fvec_L2sqr_ny_dimN_neon (dis x y : list A) (d ny : nat) : M (list A) :=
  foldM (fun dis i => let* v := fvec_L2sqr_neon x (drop (i * d) y) d in vset dis i v) dis (seq 0 ny).

Definition fvec_inner_products_ny_neon (ip x y : list A) (d ny : nat) : M (list A) :=
  foldM (fun ip i => let* v := fvec_inner_product_neon x (drop (i * d) y) d in vset ip i v) ip (seq 0 ny).

Definition sq_diff (s t : A) : A := nmul (nsub s t) (nsub s t).

(** Dimension 1: the rows are the elements of [y]; the last three by a falling switch. *)
Definition fvec_L2sqr_ny_dim1_neon (dis x y : list A) (d ny : nat) : M (list A) :=
  let* x_val := vget x 0 in
  let x_vec := set1 4 x_val in
  let* st := strips ny 16 (fun i dis =>
      let* y4 := vld_n nzero 4 (drop i y) in
      let y4 := (fun r => vsub x_vec r) <$> y4 in
      let res := (fun r => vmul r r) <$> y4 in
      storeu dis i (interleave nzero 4 res)) 0 ny dis in
  let* st := strip_if 8 (fun i dis =>
      let* y2 := vld1_x 2 (drop i y) in
      let res := (fun r => vmul r r) <$> ((fun r => vsub x_vec r) <$> y2) in
      let* dis := storeu dis i (nth 0 res []) in
      storeu dis (i + 4) (nth 1 res [])) st in
  let* st := strip_if 4 (fun i dis =>
      let* y0 := loadu 4 (drop i y) in
      let y0 := vsub x_vec y0 in
      storeu dis i (vmul y0 y0)) st in
  let '(i, left_, dis) := st in
  foldM (fun dis l => let* x0 := vget x 0 in let* yi := vget y (i + l) in vset dis (i + l) (sq_diff x0 yi))
    dis (rev (seq 0 left_)).

(** [vuzp1q_f32] and [vuzp2q_f32]: the even and the odd lanes of two registers. *)
Definition vuzp1q (a b : list A) : list A := [lane a 0; lane a 2; lane b 0; lane b 2].
Definition vuzp2q (a b : list A) : list A := [lane a 1; lane a 3; lane b 1; lane b 3].

(** Dimension 2: two rows per register, summed by pairs of lanes. *)
Definition four_rows_2 (x0 y y' dis : list A) (i : nat) : M (list A) :=
  let y := vsub x0 y in
  let y' := vsub x0 y' in
  let y := vmul y y in
  let y' := vmul y' y' in
  storeu dis i (vadd (vuzp1q y y') (vuzp2q y y')).

Definition fvec_L2sqr_ny_dim2_neon (dis x y : list A) (d ny : nat) : M (list A) :=
  let* xa := vget x 0 in
  let* xb := vget x 1 in
  let x0 := [xa; xb; xa; xb] in
  let* st := strips ny 8 (fun i dis =>
      let* y0 := vld1_x 2 (drop (i * d) y) in
      let* y1 := vld1_x 2 (drop ((i + 4) * d) y) in
      let* dis := four_rows_2 x0 (nth 0 y0 []) (nth 1 y0 []) dis i in
      four_rows_2 x0 (nth 0 y1 []) (nth 1 y1 []) dis (i + 4)) 0 ny dis in
  let* st := strip_if 4 (fun i dis =>
      let* y0 := loadu 4 (drop (i * d) y) in
      let* y1 := loadu 4 (drop ((i + 2) * d) y) in
      four_rows_2 x0 y0 y1 dis i) st in
  let '(i, left_, dis) := st in
  foldM (fun dis i =>
      let* xa := vget x 0 in let* ya := vget y (i * d) in
      let* xb := vget x 1 in let* yb := vget y (i * d + 1) in
      vset dis i (nadd (sq_diff xa ya) (sq_diff xb yb))) dis (seq i left_).

(** Dimension 4: one row per register. *)
Definition row_4 (x_vec y_vec : list A) : A := let y_vec := vsub x_vec y_vec in vaddvq (vmul y_vec y_vec).

Definition fvec_L2sqr_ny_dim4_neon (dis x y : list A) (d ny : nat) : M (list A) :=
  let* x_vec := loadu 4 x in
  let* (i, left_, dis) := strips ny 4 (fun i dis =>
      let* y4 := vld1_x 4 (drop (i * d) y) in
      foldM (fun dis k => vset dis (i + k) (row_4 x_vec (nth k y4 []))) dis (seq 0 4)) 0 ny dis in
  foldM (fun dis i => let* y_vec := loadu 4 (drop (i * d) y) in vset dis i (row_4 x_vec y_vec)) dis (seq i left_).

Definition fvec_L2sqr_ny_neon (dis x y : list A) (d ny : nat) : M (list A) :=
  match d with
  | 1 => fvec_L2sqr_ny_dim1_neon dis x y d ny
  | 2 => fvec_L2sqr_ny_dim2_neon dis x y d ny
  | 4 => fvec_L2sqr_ny_dim4_neon dis x y d ny
  | _ => fvec_L2sqr_ny_dimN_neon dis x y d ny
  end.

Definition fvec_L2sqr_ny_nearest_neon (huge : A) (buffer x y : list A) (d ny : nat) : M (list A * nat) :=
  let* buffer := fvec_L2sqr_ny_neon buffer x y d ny in
  let* (_, nearest_idx) := foldM (fun (st : A * nat) i =>
      let* v := vget buffer i in
      Ret (if nltb v (fst st) then (v, i) else st)) (huge, 0) (seq 0 ny) in
  Ret (buffer, nearest_idx).

End lanes.

(** * The NEON kernels, continued (src/simd/distances_neon.cc)

    Multiply-add and argmin, 16-bit elements, int8 and the fp32-as-bf16 patch. *)

(** ** c = a + bf * b *)

Section madd.
Context {A : Type} `{!Num A}.

(** [n] registers of [a] and [b]: [vmulq_n_f32(b, bf)], then [vaddq_f32(b, a)]. *)
Definition madd_regs (bf : A) (a b : list (list A)) : list (list A) :=
  zip_with vadd ((fun r : list A => (fun t => nmul t bf) <$> r) <$> b) a.

(** The last one to three elements: lane loads from the highest down, and lane stores. *)
Definition lanes_down (p : list A) (off n : nat) : M (list A) :=
  foldM (fun r l => let* e := vget p (off + l) in vset r l e) (set1 4 nzero) (rev (seq 0 n)).
Definition store_down (c : list A) (off n : nat) (r : list A) : M (list A) :=
  foldM (fun c l => vset c (off + l) (lane r l)) c (rev (seq 0 n)).

Definition fvec_madd_neon (n : nat) (a : list A) (bf : A) (b c : list A) : M (list A) :=
  let* (off, n, c) := strips_16_8_4 (fun k off c =>
      let* a_ := vld1_x k (drop off a) in
      let* b_ := vld1_x k (drop off b) in
      storeu c off (List.concat (madd_regs bf a_ b_))) n c in
  if 0 <? n then
    let* a_ := lanes_down a off n in
    let* b_ := lanes_down b off n in
    store_down c off n (List.concat (madd_regs bf [a_] [b_]))
  else Ret c.

(** ** ... and the position of the least element *)

(** [vcleq_f32] and [vbslq_u32] for one register [k] of the strip at [loc]. *)
Definition take_less (loc k : nat) (c_ : list A) (st : list Z * list A) : list Z * list A :=
  let '(ids, val) := st in
  let cmp := zip_with (fun s t => nltb s t || neqb s t) c_ val in
  let here := (fun l => (Z.of_nat (4 * k + l) + Z.of_nat loc mod 2 ^ 32)%Z) <$> seq 0 4 in
  (zip_with (fun (m : bool) hi => if m then fst hi else snd hi) cmp (zip ((fun i => (i mod 2 ^ 32)%Z) <$> here) ids),
   vminq val c_).

(** The four candidates compared in memory; [c[ids_[i]]] may lie behind the array. *)
Definition fvec_madd_and_argmin_neon (inf : A) (n : nat) (a : list A) (bf : A) (b c : list A) : M (list A * Z) :=
  let* (off, n, st) := strips_16_8_4 (fun k off (st : list A * (list Z * list A)) =>
      let '(c, iv) := st in
      let* a_ := vld1_x k (drop off a) in
      let* b_ := vld1_x k (drop off b) in
      let c_ := madd_regs bf a_ b_ in
      let* c := storeu c off (List.concat c_) in
      Ret (c, foldl (fun iv k => take_less off k (nth k c_ []) iv) iv (seq 0 k)))
    n (c, (replicate 4 0%Z, replicate 4 inf)) in
  let '(c, iv) := st in
  let* (c, iv) :=
    if 0 <? n then
      let* a_ := lanes_down a off n in
      let* b_ := lanes_down b off n in
      let c_ := List.concat (madd_regs bf [a_] [b_]) in
      let* c := store_down c off n c_ in
      let c_ := take n c_ ++ replicate (4 - n) inf in
      Ret (c, take_less off 0 c_ iv)
    else Ret (c, iv) in
  let* (ans_, _) := foldM (fun (st : Z * A) i =>
      let id := nth i (fst iv) 0%Z in
      let* ci := vget c (Z.to_nat id) in
      Ret (if nltb ci (snd st) then (id, ci) else st)) (0%Z, inf) (seq 0 4) in
  Ret (c, ans_).

(** ** 16-bit elements, widened by [widen]

    [vmlaq_f32(r, a, b)] is a multiplication and an addition. *)

Section half.
Context (widen : Z -> A).

(** [vcvt4_f32_f16(vld4_f16(p))] and [vcvt4_f32_half(vld4_u16(p))], with 2 and 1 registers. *)
Definition cvt_n (n : nat) (p : list Z) : M (list (list A)) :=
  let* r := vld_n 0%Z n p in Ret ((fun v : list Z => widen <$> v) <$> r).
Definition cvt_rest_neon (p : list Z) (off d : nat) : M (list A) :=
  let* r := lanes_rest 0%Z p off d in Ret (widen <$> r).

(** One register of sums for each register of a strip of 16, folded to two for
    the strip of 8 and to one for the rest.  [term load] loads the operands and
    returns what is added. *)
Definition half_neon (term : (list Z -> M (list (list A))) -> M (list (list A))) (d : nat) : M A :=
  let at_ n off : list Z -> M (list (list A)) := fun p => cvt_n n (drop off p) in
  let zero := set1 4 nzero in
  let* (off, d, res) := strips d 16 (fun off res =>
      let* t := term (at_ 4 off) in Ret (zip_with vadd res t)) 0 d [zero; zero; zero; zero] in
  let res_0 := vadd (nth 0 res []) (nth 1 res []) in
  let res_2 := vadd (nth 2 res []) (nth 3 res []) in
  let* (off, d, res) := strip_if 8 (fun off (res : list A * list A) =>
      let* t := term (at_ 2 off) in
      Ret (vadd (fst res) (nth 0 t []), vadd (snd res) (nth 1 t []))) (off, d, (res_0, res_2)) in
  let res_0 := vadd (fst res) (snd res) in
  let* (off, d, res_0) := strip_if 4 (fun off res_0 =>
      let* t := term (at_ 1 off) in Ret (vadd res_0 (nth 0 t []))) (off, d, res_0) in
  let* t := term (fun p => let* r := cvt_rest_neon p off d in Ret [r]) in
  Ret (vaddvq (vadd res_0 (nth 0 t []))).

Definition half_terms (term : list A -> list A -> list A) (x y : list Z) (load : list Z -> M (list (list A)))
    : M (list (list A)) :=
  let* a := load x in let* b := load y in Ret (zip_with term a b).
Definition half_own_terms (x : list Z) (load : list Z -> M (list (list A))) : M (list (list A)) :=
  let* a := load x in Ret ((fun r : list A => vmul r r) <$> a).

Definition half_ip_neon (x y : list Z) (d : nat) : M A := half_neon (half_terms ip_regs x y) d.
Definition half_L2sqr_neon (x y : list Z) (d : nat) : M A := half_neon (half_terms l2_regs x y) d.
Definition half_norm_neon (x : list Z) (d : nat) : M A := half_neon (half_own_terms x) d.

(** In a batch the registers of a strip are added one after the other, either
    [res + t] or [t + res]. *)
Definition add_each (term : list A -> list A -> list A) (a b : list (list A)) (res : list A) : list A :=
  foldl vadd res (zip_with term a b).
Definition add_each_to (term : list A -> list A -> list A) (a b : list (list A)) (res : list A) : list A :=
  foldl (fun res t => vadd t res) res (zip_with term a b).

Definition half_ip_batch_4_neon (x y0 y1 y2 y3 : list Z) (d : nat) : M (A * A * A * A) :=
  neon_batch_4 cvt_n cvt_rest_neon (add_each ip_regs) x y0 y1 y2 y3 d.
Definition half_L2sqr_batch_4_neon (x y0 y1 y2 y3 : list Z) (d : nat) : M (A * A * A * A) :=
  neon_batch_4 cvt_n cvt_rest_neon (add_each l2_regs) x y0 y1 y2 y3 d.
Definition half_L2sqr_batch_4_to_neon (x y0 y1 y2 y3 : list Z) (d : nat) : M (A * A * A * A) :=
  neon_batch_4 cvt_n cvt_rest_neon (add_each_to l2_regs) x y0 y1 y2 y3 d.
End half.

End madd.

(** [vcvt_f32_f16] and [vreinterpretq_f32_u32(vshlq_n_u32(vmovl_u16(x), 16))]. *)
Definition vcvt_f32_half (h : Z) : spec_float := F32.of_bits (u32 (Z.shiftl h 16)).

Definition fp16_vec_inner_product_neon := half_ip_neon f16_widen.
Definition fp16_vec_L2sqr_neon := half_L2sqr_neon f16_widen.
Definition fp16_vec_norm_L2sqr_neon := half_norm_neon f16_widen.
Definition fp16_vec_inner_product_batch_4_neon := half_ip_batch_4_neon f16_widen.
Definition fp16_vec_L2sqr_batch_4_neon := half_L2sqr_batch_4_to_neon f16_widen.
Definition bf16_vec_inner_product_neon := half_ip_neon vcvt_f32_half.
Definition bf16_vec_L2sqr_neon := half_L2sqr_neon vcvt_f32_half.
Definition bf16_vec_norm_L2sqr_neon := half_norm_neon vcvt_f32_half.
Definition bf16_vec_inner_product_batch_4_neon := half_ip_batch_4_neon vcvt_f32_half.
Definition bf16_vec_L2sqr_batch_4_neon := half_L2sqr_batch_4_neon vcvt_f32_half.

(** ** The fp32-as-bf16 patch: [bf16_float_neon] on the candidates *)

Definition bf16_float_neon (f : list spec_float) : list spec_float :=
  (fun v => F32.of_bits (Z.land (u32 (F32.to_bits v + 32768)) 4294901760)) <$> f.

Definition fvec_inner_product_bf16_patch_neon (x y : list spec_float) (d : nat) : M spec_float :=
  let* sum_ := neon_fold vadd (terms_of (fun a b => ip_regs a (bf16_float_neon b)) x y) d in Ret (vaddvq sum_).
Definition fvec_L2sqr_bf16_patch_neon (x y : list spec_float) (d : nat) : M spec_float :=
  let* sum_ := neon_fold vadd (terms_of (fun a b => l2_regs a (bf16_float_neon b)) x y) d in Ret (vaddvq sum_).
Definition fvec_inner_product_batch_4_bf16_patch_neon (x y0 y1 y2 y3 : list spec_float) (dim : nat) :=
  neon_batch_4 vld1_x (lanes_rest nzero) (add_folded (fun a b => ip_regs a (bf16_float_neon b))) x y0 y1 y2 y3 dim.
Definition fvec_L2sqr_batch_4_bf16_patch_neon (x y0 y1 y2 y3 : list spec_float) (dim : nat) :=
  neon_batch_4 vld1_x (lanes_rest nzero) (add_folded (fun a b => l2_regs a (bf16_float_neon b))) x y0 y1 y2 y3 dim.

(** ** int8: 32-bit lanes that wrap around *)

Section int8.
#[local] Open Scope Z_scope.

Definition wrap_s32 (z : Z) : Z := (z + 2 ^ 31) mod 2 ^ 32 - 2 ^ 31.
Definition vaddq_s32 (a b : list Z) : list Z := zip_with (fun s t => wrap_s32 (s + t)) a b.
Definition vmulq_s32 (a b : list Z) : list Z := zip_with (fun s t => wrap_s32 (s * t)) a b.
Definition vsubq_s32 (a b : list Z) : list Z := zip_with (fun s t => wrap_s32 (s - t)) a b.
Definition vaddvq_s32 (v : list Z) : Z := wrap_s32 (nth 0 v 0 + nth 1 v 0 + nth 2 v 0 + nth 3 v 0).

(** [vsubl_s16], [vmovl_s16] and [vmovl_s8] are exact.
    [n] widened registers from a load of [w] elements; the last strip takes the
    low half of a load of eight. *)
Definition widen_s8 (w n : nat) (p : list Z) : M (list (list Z)) :=
  let* v := loadu w p in Ret ((fun k => slice (4 * k) (4 * k + 4) v) <$> seq 0 n).

(** The main loops; [add w n off] processes [n] registers out of [w] elements. *)
Definition strips_s8 {S} (add : nat -> nat -> nat -> S -> M S) (d : nat) (s : S) : M (nat * nat * S) :=
  let* st := strips d 16 (add 16%nat 4%nat) 0%nat d s in
  let* st := strip_if 8 (add 8%nat 2%nat) st in
  strip_if 4 (add 8%nat 1%nat) st.

Definition ip_s32 (a b : list Z) : list Z := vmulq_s32 a b.
Definition l2_s32 (a b : list Z) : list Z := let diff := vsubq_s32 a b in vmulq_s32 diff diff.
Definition add_s32 (term : list Z -> list Z -> list Z) (a b : list (list Z)) (sum_ : list Z) : list Z :=
  foldl vaddq_s32 sum_ (zip_with term a b).

Definition int8_neon (term : list Z -> list Z -> list Z) (step : Z -> Z -> Z -> M Z) (x y : list Z) (d : nat) : M Z :=
  let* (off, d, sum_) := strips_s8 (fun w n off sum_ =>
      let* a := widen_s8 w n (drop off x) in
      let* b := widen_s8 w n (drop off y) in
      Ret (add_s32 term a b sum_)) d (replicate 4 0) in
  let* rem_sum := foldM (fun rem_sum i =>
      let* xi := vget (drop off x) i in let* yi := vget (drop off y) i in step rem_sum xi yi) 0 (seq 0 d) in
  i32 (vaddvq_s32 sum_ + rem_sum).

Definition int8_vec_inner_product_neon (x y : list Z) (d : nat) : M spec_float :=
  let* r := int8_neon ip_s32 int8_ip x y d in Ret (F32.of_Z r).
Definition int8_vec_L2sqr_neon (x y : list Z) (d : nat) : M spec_float :=
  let* r := int8_neon l2_s32 int8_l2 x y d in Ret (F32.of_Z r).
(** The squared norm reads [x] where the inner product reads [y]. *)
Definition int8_vec_norm_L2sqr_neon (x : list Z) (d : nat) : M spec_float :=
  let* r := int8_neon ip_s32 int8_ip x x d in Ret (F32.of_Z r).

Definition int8_batch_4_neon (term : list Z -> list Z -> list Z) (step : Z -> Z -> Z -> M Z)
    (x y0 y1 y2 y3 : list Z) (dim : nat) : M (spec_float * spec_float * spec_float * spec_float) :=
  let* (off, d, st) := strips_s8 (fun w n off (st : list Z * list Z * list Z * list Z) =>
      let '(sum0, sum1, sum2, sum3) := st in
      let* a := widen_s8 w n (drop off x) in
      let* b0 := widen_s8 w n (drop off y0) in
      let* b1 := widen_s8 w n (drop off y1) in
      let* b2 := widen_s8 w n (drop off y2) in
      let* b3 := widen_s8 w n (drop off y3) in
      Ret (add_s32 term a b0 sum0, add_s32 term a b1 sum1, add_s32 term a b2 sum2, add_s32 term a b3 sum3))
    dim (replicate 4 0, replicate 4 0, replicate 4 0, replicate 4 0) in
  let '(sum0, sum1, sum2, sum3) := st in
  let* (r0, r1, r2, r3) := foldM (fun (st : Z * Z * Z * Z) i =>
      let '(r0, r1, r2, r3) := st in
      let* val_x := vget x (dim - d + i) in
      let* v0 := vget y0 (dim - d + i) in let* r0 := step r0 val_x v0 in
      let* v1 := vget y1 (dim - d + i) in let* r1 := step r1 val_x v1 in
      let* v2 := vget y2 (dim - d + i) in let* r2 := step r2 val_x v2 in
      let* v3 := vget y3 (dim - d + i) in let* r3 := step r3 val_x v3 in
      Ret (r0, r1, r2, r3)) (0, 0, 0, 0) (seq 0 d) in
  let* d0 := i32 (vaddvq_s32 sum0 + r0) in
  let* d1 := i32 (vaddvq_s32 sum1 + r1) in
  let* d2 := i32 (vaddvq_s32 sum2 + r2) in
  let* d3 := i32 (vaddvq_s32 sum3 + r3) in
  Ret (F32.of_Z d0, F32.of_Z d1, F32.of_Z d2, F32.of_Z d3).

Definition int8_vec_inner_product_batch_4_neon := int8_batch_4_neon ip_s32 int8_ip.
Definition int8_vec_L2sqr_batch_4_neon := int8_batch_4_neon l2_s32 int8_l2.

Definition ivec_inner_product_neon x y d : M Z := int8_loop int8_ip x y d.
Definition ivec_L2sqr_neon x y d : M Z := int8_loop int8_l2 x y d.

End int8.
