(* ===== verification/NeonProps.v ===== *)
(** * The NEON kernels compute what the reference kernels compute *)

From S2P Require Import Prelude Float HnswGraph Num Bitset MemoryIO Operands Distances DistanceProps Rvv RvvKernels.
From S2P Require Import RvvProps Simd SimdProps AvxProps SseProps Neon.

(** ** Strips *)

Lemma strips_16_8_4_spec {S} (Inv : nat -> S -> Prop) (add : nat -> nat -> S -> M S) d s :
  Inv 0 s -> (forall n off t, n = 1 \/ n = 2 \/ n = 4 -> off + 4 * n <= d -> Inv off t -> wp (add n off t) (Inv (off + 4 * n))) ->
  wp (strips_16_8_4 add d s) (fun '(off, r, t) => off + r = d /\ r < 4 /\ Inv off t).
Proof.
  intros H0 Ha. unfold strips_16_8_4. apply wp_bind.
  eapply wp_mono; [apply (strips_spec Inv d 16); [lia|lia|lia|done|intros o t Ho Ht; apply (Ha 4); auto]|].
  intros [[o r] t] (Hr & Hlt & Ht). apply wp_bind.
  eapply wp_mono; [apply (strip_if_spec Inv d 8); [done|done|intros u Ho Hu; apply (Ha 2); auto]|].
  intros [[o2 r2] t2] (Hr2 & Hlt2 & Ht2).
  eapply wp_mono; [apply (strip_if_spec Inv d 4); [done|done|intros u Ho Hu; apply (Ha 1); auto]|].
  intros [[o3 r3] t3] (Hr3 & Hlt3 & Ht3). split_and!; [done|lia|done].
Qed.

#[local] Open Scope Z_scope.

(** The registers of a strip. *)
Definition chunks {B} (n : nat) (l : list B) : list (list B) := (fun k => slice (4 * k) (4 * k + 4) l) <$> seq 0 n.
Definition deal {B} (zero : B) (n : nat) (l : list B) : list (list B) :=
  (fun k => (fun i => nth (n * i + k) l zero) <$> seq 0 4) <$> seq 0 n.

Lemma vld1_x_ok {B} n (p : list B) off : (off + 4 * n <= length p)%nat ->
  vld1_x n (drop off p) = Ret (chunks n (slice off (off + 4 * n) p)).
Proof. intros H. unfold vld1_x. by rewrite loadu_ok by done. Qed.

Lemma vld_n_ok {B} (zero : B) n (p : list B) off : (off + 4 * n <= length p)%nat ->
  vld_n zero n (drop off p) = Ret (deal zero n (slice off (off + 4 * n) p)).
Proof. intros H. unfold vld_n. by rewrite loadu_ok by done. Qed.

(** Lists of four, eight and sixteen elements, element by element. *)
Ltac explode l H := do 16 (try (destruct l as [|? l]; [simpl in H; lia|])); try (destruct l; [|simpl in H; lia]).

#[local] Arguments vget : simpl never.

Lemma vget_drop {B} (p : list B) off k : vget (drop off p) k = vget p (off + k).
Proof. unfold vget. by rewrite lookup_drop. Qed.

Ltac load_lane := cbn; unfold vset; rewrite decide_True by (simpl; lia); cbn; rewrite ?take_0; try reflexivity.

Lemma lanes_rest_ok {B} (zero : B) (p : list B) off d : (d < 4)%nat -> (off + d <= length p)%nat ->
  lanes_rest zero p off d = Ret (rev (slice off (off + d) p) ++ replicate (4 - d) zero).
Proof.
  intros Hd Hp. unfold slice. replace (off + d - off)%nat with d by lia.
  assert (d <= length (drop off p))%nat as Hq by (rewrite length_drop; lia).
  pose proof (vget_drop p off) as Hv. unfold lanes_rest. revert Hq Hv. generalize (drop off p). intros q Hq Hv.
  pose proof (Hv 0%nat) as H0. rewrite Nat.add_0_r in H0. pose proof (Hv 1%nat) as H1. pose proof (Hv 2%nat) as H2.
  replace (off + 2)%nat with (off + 1 + 1)%nat in H2 by lia.
  destruct d as [|[|[|[|d]]]]; [| | |  |lia]; cbn [foldM Nat.leb bind]; [by rewrite take_0| | |].
  - destruct q as [|a q]; [simpl in Hq; lia|]. change (Ret a = vget p off) in H0. rewrite <- H0. load_lane.
  - destruct q as [|a [|b q]]; try (simpl in Hq; lia).
    change (Ret a = vget p off) in H0. change (Ret b = vget p (off + 1)) in H1.
    rewrite <- H0. load_lane. rewrite <- H1. load_lane.
  - destruct q as [|a [|b [|c q]]]; try (simpl in Hq; lia).
    change (Ret a = vget p off) in H0. change (Ret b = vget p (off + 1)) in H1. change (Ret c = vget p (off + 1 + 1)) in H2.
    rewrite <- H0. load_lane. rewrite <- H1. load_lane. rewrite <- H2. load_lane.
Qed.

(** ** Sums of registers *)

Definition len4 (r : list Z) : Prop := length r = 4%nat.
Definition regsum (c : list (list Z)) : Z := lanesum (lanesum <$> c).

(** One, two or four registers whose lanes add up to [s]. *)
Definition strip_sum (c : list (list Z)) (s : Z) : Prop :=
  (length c = 1 \/ length c = 2 \/ length c = 4)%nat /\ Forall len4 c /\ regsum c = s.

Lemma vadd_len4 a b : len4 a -> len4 b -> len4 (vadd a b) /\ lanesum (vadd a b) = lanesum a + lanesum b.
Proof.
  unfold len4. intros Ha Hb. split; [unfold vadd; rewrite length_zip_with; lia|]. apply lanesum_add. lia.
Qed.

Lemma fold_regs_sum c s : strip_sum c s -> len4 (fold_regs vadd c) /\ lanesum (fold_regs vadd c) = s.
Proof.
  intros (Hl & Hc & <-). unfold regsum.
  destruct c as [|c0 [|c1 [|c2 [|c3 [|]]]]]; simpl in Hl; try lia;
    repeat (apply Forall_cons in Hc as [? Hc]); cbn [fold_regs fmap list_fmap].
  - split; [done|]. cbn. lia.
  - destruct (vadd_len4 c0 c1) as [L1 S1]; [done|done|]. split; [done|]. cbn -[vadd]. lia.
  - destruct (vadd_len4 c0 c1) as [L1 S1]; [done|done|]. destruct (vadd_len4 c2 c3) as [L2 S2]; [done|done|].
    destruct (vadd_len4 _ _ L1 L2) as [L3 S3]. split; [done|]. cbn -[vadd]. lia.
Qed.

Lemma foldl_sum c r : len4 r -> Forall len4 c ->
  len4 (foldl vadd r c) /\ lanesum (foldl vadd r c) = lanesum r + regsum c /\
  len4 (foldl (fun r t => vadd t r) r c) /\ lanesum (foldl (fun r t => vadd t r) r c) = lanesum r + regsum c.
Proof.
  intros Hr Hc. revert r Hr. induction Hc as [|t c Ht Hc IH]; intros r Hr; cbn [foldl].
  - unfold regsum. simpl. split_and!; [done|lia|done|lia].
  - destruct (vadd_len4 r t Hr Ht) as [H1 H2]. destruct (vadd_len4 t r Ht Hr) as [H3 H4].
    destruct (IH _ H1) as (I1 & I2 & _). destruct (IH _ H3) as (_ & _ & I3 & I4).
    unfold regsum in *. cbn [fmap list_fmap lanesum foldr] in *. unfold lanesum in *. split_and!; [done|lia|done|lia].
Qed.

(** How a kernel loads: registers of converted elements whose terms, for any
    binary operation, add up to the terms of the elements. *)
Class Loader {B} (wid : B -> Z) (load : nat -> list B -> M (list (list Z))) (rest : list B -> nat -> nat -> M (list Z)) := {
  load_terms f x y n off : (n = 1 \/ n = 2 \/ n = 4)%nat -> (off + 4 * n <= length x)%nat -> (off + 4 * n <= length y)%nat ->
    exists a b, load n (drop off x) = Ret a /\ load n (drop off y) = Ret b /\ length a = n /\ length b = n /\
      strip_sum (zip_with (zip_with f) a b) (lanesum (slice off (off + 4 * n) (zip_with f (wid <$> x) (wid <$> y))));
  rest_terms f x y off d : (d < 4)%nat -> (off + d <= length x)%nat -> (off + d <= length y)%nat -> f 0 0 = 0 ->
    exists a b, rest x off d = Ret a /\ rest y off d = Ret b /\
      strip_sum [zip_with f a b] (lanesum (slice off (off + d) (zip_with f (wid <$> x) (wid <$> y))))
}.

Lemma chunk_terms f n (l k : list Z) : (n = 1 \/ n = 2 \/ n = 4)%nat -> length l = (4 * n)%nat -> length k = (4 * n)%nat ->
  strip_sum (zip_with (zip_with f) (chunks n l) (chunks n k)) (lanesum (zip_with f l k)).
Proof.
  intros [-> |[-> | ->]] Hl Hk; explode l Hl; explode k Hk; (split; [cbn; lia|]); (split; [repeat constructor|]);
    unfold regsum; cbn -[Z.add]; lia.
Qed.

Lemma deal_terms {B} (wid : B -> Z) zero f n (l k : list B) : (n = 1 \/ n = 2 \/ n = 4)%nat ->
  length l = (4 * n)%nat -> length k = (4 * n)%nat ->
  strip_sum (zip_with (zip_with f) ((fun v : list B => wid <$> v) <$> deal zero n l) ((fun v : list B => wid <$> v) <$> deal zero n k))
    (lanesum (zip_with f (wid <$> l) (wid <$> k))).
Proof.
  intros [-> |[-> | ->]] Hl Hk; explode l Hl; explode k Hk; (split; [cbn; lia|]); (split; [repeat constructor|]);
    unfold regsum; cbn -[Z.add]; lia.
Qed.

Lemma lanesum_rev l : lanesum (rev l) = lanesum l.
Proof. induction l as [|a l IH]; [done|]. cbn [rev]. rewrite lanesum_app, IH. change (lanesum l + (a + 0) = a + lanesum l). lia. Qed.

Lemma rev_fmap {A B} (f : A -> B) l : f <$> rev l = rev (f <$> l).
Proof. exact (map_rev f l). Qed.

Lemma rev_zip_with {A B C} (f : A -> B -> C) l k : length l = length k -> zip_with f (rev l) (rev k) = rev (zip_with f l k).
Proof.
  revert k. induction l as [|a l IH]; intros [|b k] Hl; simpl in *; try lia; [done|].
  rewrite zip_with_app by (rewrite !length_rev; lia). rewrite IH by lia. done.
Qed.

(** The last lanes, reversed and padded. *)
Lemma rest_lanes f (l k : list Z) d : length l = d -> length k = d -> (d < 4)%nat -> f 0 0 = 0 ->
  strip_sum [zip_with f (rev l ++ replicate (4 - d) 0) (rev k ++ replicate (4 - d) 0)] (lanesum (zip_with f l k)).
Proof.
  intros Hl Hk Hd Hz. split; [auto|]. split.
  - constructor; [|done]. unfold len4. rewrite length_zip_with, !length_app, !length_rev, !length_replicate. lia.
  - unfold regsum. cbn [fmap list_fmap lanesum foldr]. rewrite Z.add_0_r. change (foldr Z.add 0) with lanesum.
    rewrite zip_with_pad by (rewrite ?length_rev; lia || done). by rewrite rev_zip_with, lanesum_rev by lia.
Qed.

Lemma slice_both {B} (wid : B -> Z) (f : Z -> Z -> Z) (x y : list B) i j :
  slice i j (zip_with f (wid <$> x) (wid <$> y)) = zip_with f (wid <$> slice i j x) (wid <$> slice i j y).
Proof. by rewrite slice_zip_with, <- !slice_fmap. Qed.

#[export] Instance float_loader : Loader (fun v : Z => v) vld1_x (lanes_rest 0).
Proof.
  split.
  - intros f x y n off Hn Hx Hy. rewrite !vld1_x_ok by done. eexists _, _. split; [reflexivity|]. split; [reflexivity|].
    split; [unfold chunks; by rewrite length_fmap, length_seq|]. split; [unfold chunks; by rewrite length_fmap, length_seq|].
    rewrite slice_both, !list_fmap_id. apply chunk_terms; [done|rewrite length_slice; lia|rewrite length_slice; lia].
  - intros f x y off d Hd Hx Hy Hz. rewrite !lanes_rest_ok by done. eexists _, _. split; [reflexivity|]. split; [reflexivity|].
    rewrite slice_both, !list_fmap_id. apply rest_lanes; [rewrite length_slice; lia|rewrite length_slice; lia|done|done].
Qed.

Lemma half_loader (wid : Z -> Z) : wid 0 = 0 -> Loader wid (cvt_n wid) (cvt_rest_neon wid).
Proof.
  intros Hw. split.
  - intros f x y n off Hn Hx Hy. unfold cvt_n. rewrite !vld_n_ok by done. cbn [bind].
    eexists _, _. split; [reflexivity|]. split; [reflexivity|].
    split; [unfold deal; by rewrite !length_fmap, length_seq|]. split; [unfold deal; by rewrite !length_fmap, length_seq|].
    rewrite slice_both. apply deal_terms; [done|rewrite length_slice; lia|rewrite length_slice; lia].
  - intros f x y off d Hd Hx Hy Hz. unfold cvt_rest_neon. rewrite !lanes_rest_ok by done. cbn [bind].
    eexists _, _. split; [reflexivity|]. split; [reflexivity|].
    rewrite slice_both, !fmap_app, !fmap_replicate, Hw. rewrite !rev_fmap.
    apply rest_lanes; [rewrite length_fmap, length_slice; lia|rewrite length_fmap, length_slice; lia|done|done].
Qed.

(** ** One vector against one *)

Lemma vaddvq_len4 v : len4 v -> vaddvq v = lanesum v.
Proof. intros (a & b & c & d & ->)%reg4. unfold vaddvq, lane. cbn -[Z.add]. lia. Qed.

(** The terms a kernel adds: [f] of the elements of [x] and [y]. *)
Definition adds_terms {B} (wid : B -> Z) (load : nat -> list B -> M (list (list Z))) (rest : list B -> nat -> nat -> M (list Z))
    (terms : (list B -> M (list (list Z))) -> M (list (list Z))) (T : list Z) (d : nat) : Prop :=
  (forall n off, (n = 1 \/ n = 2 \/ n = 4)%nat -> (off + 4 * n <= d)%nat ->
    wp (terms (fun p => load n (drop off p))) (fun c => length c = n /\ strip_sum c (lanesum (slice off (off + 4 * n) T)))) /\
  (forall off e, (e < 4)%nat -> (off + e = d)%nat ->
    wp (terms (fun p => let* r := rest p off e in Ret [r])) (fun c => length c = 1%nat /\ strip_sum c (lanesum (slice off d T)))).

Lemma pair_terms {B} (wid : B -> Z) load rest `{HL : !Loader wid load rest} term f x y d :
  (forall a b, term a b = zip_with f a b) -> f 0 0 = 0 -> (d <= length x)%nat -> (d <= length y)%nat ->
  adds_terms wid load rest (fun ld => let* a := ld x in let* b := ld y in Ret (zip_with term a b))
    (zip_with f (wid <$> x) (wid <$> y)) d.
Proof.
  intros Hterm Hz Hx Hy.
  assert (forall a b, zip_with term a b = zip_with (zip_with f) a b) as Hzip.
  { intros a. induction a as [|u a IH]; intros [|v b]; simpl; try done. by rewrite Hterm, IH. }
  split.
  - intros n off Hn Ho. destruct (load_terms f x y n off) as (a & b & -> & -> & Ha & Hb & Hs); [done|lia|lia|].
    cbn [bind wp]. rewrite Hzip. split; [rewrite length_zip_with; lia|done].
  - intros off e He Ho. destruct (rest_terms f x y off e) as (a & b & -> & -> & Hs); [done|lia|lia|done|].
    cbn [bind wp zip_with]. rewrite Hterm. split; [done|]. by rewrite <- Ho.
Qed.

Lemma own_terms_add {B} (wid : B -> Z) load rest `{HL : !Loader wid load rest} x d : (d <= length x)%nat ->
  adds_terms wid load rest (fun ld => let* a := ld x in Ret ((fun r : list Z => vmul r r) <$> a))
    (zip_with Z.mul (wid <$> x) (wid <$> x)) d.
Proof.
  intros Hx. assert (forall a : list (list Z), (fun r : list Z => vmul r r) <$> a = zip_with (zip_with Z.mul) a a) as Hz.
  { intros a. induction a as [|u a IH]; simpl; [done|]. by f_equal. }
  split.
  - intros n off Hn Ho. destruct (load_terms Z.mul x x n off) as (a & b & Ea & Eb & Ha & Hb & Hs); [done|lia|lia|].
    assert (b = a) as -> by congruence. rewrite Ea. cbn [bind wp]. rewrite Hz. split; [rewrite length_zip_with; lia|done].
  - intros off e He Ho. destruct (rest_terms Z.mul x x off e) as (a & b & Ea & Eb & Hs); [done|lia|lia|done|].
    assert (b = a) as -> by congruence. rewrite Ea. cbn [bind wp fmap list_fmap]. split; [done|]. by rewrite <- Ho.
Qed.

Lemma neon_fold_value terms T d : adds_terms (fun v : Z => v) vld1_x (lanes_rest 0) terms T d ->
  wp (neon_fold vadd terms d) (fun s => len4 s /\ lanesum s = lanesum (take d T)).
Proof.
  intros [Hs Hr]. unfold neon_fold. apply wp_bind.
  eapply wp_mono; [apply (strips_16_8_4_spec (holds 4 T)); [apply holds_zero|]|].
  - intros n off t Hn Ho [Hl Ht]. apply wp_bind. eapply wp_mono; [by apply Hs|]. intros c [_ [Hf1 Hf2]%fold_regs_sum]. cbn [wp].
    destruct (vadd_len4 t _ Hl Hf1) as [H1 H2]. split; [done|]. rewrite H2, Hf2, Ht, (lanesum_slice T off (off + 4 * n)) by lia. done.
  - intros [[off e] s] (Ho & He & [Hl Ht]). apply wp_bind. eapply wp_mono; [by apply Hr|].
    intros c [_ [Hf1 Hf2]%fold_regs_sum]. cbn [wp]. destruct (vadd_len4 s _ Hl Hf1) as [H1 H2]. split; [done|].
    rewrite H2, Hf2, Ht, (lanesum_slice T off d) by lia. done.
Qed.

Lemma neon_pair_value (term : list Z -> list Z -> list Z) f x y d : (forall a b, term a b = zip_with f a b) -> f 0 0 = 0 ->
  (d <= length x)%nat -> (d <= length y)%nat ->
  (let* sum_ := neon_fold vadd (terms_of term x y) d in Ret (vaddvq sum_)) = Ret (lanesum (take d (zip_with f x y))).
Proof.
  intros Ht Hz Hx Hy.
  destruct (wp_elim _ _ (neon_fold_value _ _ d (pair_terms (fun v : Z => v) vld1_x (lanes_rest 0) term f x y d Ht Hz Hx Hy)))
    as (s & E & Hl & Hs). rewrite !list_fmap_id in Hs. unfold terms_of. rewrite E. cbn [bind]. by rewrite vaddvq_len4, Hs.
Qed.

Lemma l2_regs_sq a b : l2_regs a b = zip_with sq a b.
Proof. apply vsub_sq. Qed.
Lemma l1_regs_dist a b : l1_regs a b = zip_with dist1 a b.
Proof. apply vsub_dist1. Qed.

Section pair.
Context (x y : list Z) (d : nat) (Hx : (d <= length x)%nat) (Hy : (d <= length y)%nat).

Lemma ip_neon_value : fvec_inner_product_neon x y d = Ret (lanesum (take d (zip_with Z.mul x y))).
Proof. by apply neon_pair_value. Qed.
Lemma l2_neon_value : fvec_L2sqr_neon x y d = Ret (lanesum (take d (zip_with sq x y))).
Proof. apply neon_pair_value; [apply l2_regs_sq|done|done|done]. Qed.
Lemma l1_neon_value : fvec_L1_neon x y d = Ret (lanesum (take d (zip_with dist1 x y))).
Proof. apply neon_pair_value; [apply l1_regs_dist|done|done|done]. Qed.
Lemma norm_neon_value : fvec_norm_L2sqr_neon x d = Ret (lanesum (take d (zip_with Z.mul x x))).
Proof.
  destruct (wp_elim _ _ (neon_fold_value _ _ d (own_terms_add (fun v : Z => v) vld1_x (lanes_rest 0) x d Hx)))
    as (s & E & Hl & Hs). rewrite !list_fmap_id in Hs. unfold fvec_norm_L2sqr_neon, own_terms. rewrite E. cbn [bind].
  by rewrite vaddvq_len4, Hs.
Qed.
End pair.

(** ** 16-bit elements *)

Lemma add_regs (a c : list (list Z)) : length a = length c -> Forall len4 a -> Forall len4 c ->
  Forall len4 (zip_with vadd a c) /\ regsum (zip_with vadd a c) = regsum a + regsum c.
Proof.
  unfold regsum. intros Hl Ha. revert c Hl. induction Ha as [|r a Hr Ha IH]; intros [|t c] Hl Hc; simpl in Hl; try lia.
  - split; [constructor|done].
  - apply Forall_cons in Hc as [Ht Hc]. destruct (IH c ltac:(lia) Hc) as [H1 H2]. destruct (vadd_len4 r t Hr Ht) as [H3 H4].
    split; [by constructor|]. cbn [zip_with fmap list_fmap lanesum foldr] in *. unfold lanesum in *. lia.
Qed.

(** [k] registers that add up to the first [off] terms. *)
Definition regs_hold (k : nat) (T : list Z) (off : nat) (res : list (list Z)) : Prop :=
  length res = k /\ Forall len4 res /\ regsum res = lanesum (take off T).

Lemma regs_hold_add k T off off' res c : regs_hold k T off res -> length c = k -> (off <= off')%nat ->
  strip_sum c (lanesum (slice off off' T)) -> regs_hold k T off' (zip_with vadd res c).
Proof.
  intros (Hl & Hr & Hs) Hc Ho (_ & Hc4 & Hcs). destruct (add_regs res c) as [E1 E2]; [lia|done|done|].
  split_and!; [rewrite length_zip_with; lia|done|]. rewrite E2, Hs, Hcs. symmetry. by apply lanesum_slice.
Qed.

(** Pairs of registers folded into one. *)
Lemma regs_hold_fold T off r0 r1 r2 r3 : regs_hold 4 T off [r0; r1; r2; r3] -> regs_hold 2 T off [vadd r0 r1; vadd r2 r3].
Proof.
  intros (_ & Hr & Hs). repeat (apply Forall_cons in Hr as [? Hr]).
  destruct (vadd_len4 r0 r1) as [L0 S0]; [done|done|]. destruct (vadd_len4 r2 r3) as [L2 S2]; [done|done|].
  split_and!; [done|by repeat constructor|]. rewrite <- Hs. unfold regsum. cbn [fmap list_fmap lanesum foldr].
  change (foldr Z.add 0) with lanesum. lia.
Qed.

Lemma regs_hold_fold2 T off r0 r1 : regs_hold 2 T off [r0; r1] -> regs_hold 1 T off [vadd r0 r1].
Proof.
  intros (_ & Hr & Hs). repeat (apply Forall_cons in Hr as [? Hr]). destruct (vadd_len4 r0 r1) as [L0 S0]; [done|done|].
  split_and!; [done|by repeat constructor|]. rewrite <- Hs. unfold regsum. cbn [fmap list_fmap lanesum foldr].
  change (foldr Z.add 0) with lanesum. lia.
Qed.

Lemma half_neon_value (wid : Z -> Z) terms T d : adds_terms wid (cvt_n wid) (cvt_rest_neon wid) terms T d ->
  half_neon wid terms d = Ret (lanesum (take d T)).
Proof.
  intros [Hs Hr].
  match goal with |- ?m = Ret ?r => assert (wp m (fun q => q = r)) as E; [|by apply wp_elim in E as (? & -> & ->)] end.
  unfold half_neon. apply wp_bind.
  eapply wp_mono; [apply (strips_spec (regs_hold 4 T) d); [lia|lia|lia|by repeat constructor|]|].
  { intros o t Ho Ht. apply wp_bind. eapply wp_mono; [apply (Hs 4%nat); [auto|done]|].
    intros c (Hc & Hcs). cbn [wp]. apply (regs_hold_add 4 T o); [done|done|lia|done]. }
  intros [[o e] res] (Ho & He & Ht). destruct res as [|r0 [|r1 [|r2 [|r3 [|]]]]]; try by destruct Ht.
  cbn [nth]. apply regs_hold_fold in Ht. apply wp_bind.
  eapply wp_mono; [apply (strip_if_spec (fun off (r : list Z * list Z) => regs_hold 2 T off [fst r; snd r]) d); [done|done|]|].
  { intros t Ho' Ht'. apply wp_bind. eapply wp_mono; [apply (Hs 2%nat); [auto|done]|].
    intros c (Hc & Hcs). destruct c as [|c0 [|c1 [|]]]; try done. cbn [wp nth fst snd].
    apply (regs_hold_add 2 T o (o + 8) [fst t; snd t] [c0; c1]); [done|done|lia|done]. }
  clear Ht r0 r1 r2 r3. intros [[o' e'] [s0 s2]] (Ho' & He' & Ht). specialize (He' ltac:(lia)). cbn [fst snd] in *.
  apply regs_hold_fold2 in Ht. apply wp_bind.
  eapply wp_mono; [apply (strip_if_spec (fun off r => regs_hold 1 T off [r]) d); [done|done|]|].
  { intros t Ho'' Ht'. apply wp_bind. eapply wp_mono; [apply (Hs 1%nat); [auto|done]|].
    intros c (Hc & Hcs). destruct c as [|c0 [|]]; try done. cbn [wp nth].
    apply (regs_hold_add 1 T o' (o' + 4) [t] [c0]); [done|done|lia|done]. }
  clear Ht s0 s2 o e Ho He. intros [[o e] r] (Ho & He & Ht). specialize (He ltac:(lia)). apply wp_bind.
  eapply wp_mono; [apply Hr; [done|done]|]. intros c (Hc & Hcs). destruct c as [|c0 [|]]; try done. cbn [wp nth].
  destruct (regs_hold_add 1 T o d [r] [c0]) as (_ & H4 & Hsum); [done|done|lia|done|].
  apply Forall_cons in H4 as [H4 _]. rewrite vaddvq_len4 by done. rewrite <- Hsum. unfold regsum. cbn. lia.
Qed.

Section half.
Context (wid : Z -> Z) (Hw : wid 0 = 0) (x y : list Z) (d : nat) (Hx : (d <= length x)%nat) (Hy : (d <= length y)%nat).
#[local] Instance half_load : Loader wid (cvt_n wid) (cvt_rest_neon wid) := half_loader wid Hw.

Lemma half_ip_neon_value : half_ip_neon wid x y d = Ret (lanesum (take d (zip_with Z.mul (wid <$> x) (wid <$> y)))).
Proof. apply half_neon_value. exact (pair_terms wid _ _ ip_regs Z.mul x y d (fun a b => eq_refl) eq_refl Hx Hy). Qed.
Lemma half_l2_neon_value : half_L2sqr_neon wid x y d = Ret (lanesum (take d (zip_with sq (wid <$> x) (wid <$> y)))).
Proof. apply half_neon_value. exact (pair_terms wid _ _ l2_regs sq x y d l2_regs_sq eq_refl Hx Hy). Qed.
Lemma half_norm_neon_value : half_norm_neon wid x d = Ret (lanesum (take d (zip_with Z.mul (wid <$> x) (wid <$> x)))).
Proof. apply half_neon_value. exact (own_terms_add wid _ _ x d Hx). Qed.
End half.

(** ** One vector against four *)

(** A step adds the terms of its registers to the sum. *)
Definition adds_regs (step : list (list Z) -> list (list Z) -> list Z -> list Z) (f : Z -> Z -> Z) : Prop :=
  forall a b r s, len4 r -> strip_sum (zip_with (zip_with f) a b) s -> len4 (step a b r) /\ lanesum (step a b r) = lanesum r + s.

Lemma zip_regs (term : list Z -> list Z -> list Z) f a b : (forall u v, term u v = zip_with f u v) ->
  zip_with term a b = zip_with (zip_with f) a b.
Proof. intros Ht. revert b. induction a as [|u a IH]; intros [|v b]; simpl; try done. by rewrite Ht, IH. Qed.

Lemma add_folded_adds term f : (forall u v, term u v = zip_with f u v) -> adds_regs (add_folded term) f.
Proof.
  intros Ht a b r s Hr Hs. unfold add_folded. rewrite (zip_regs term f) by done.
  destruct (fold_regs_sum _ _ Hs) as [H1 H2]. destruct (vadd_len4 r _ Hr H1) as [H3 H4]. split; [done|lia].
Qed.

Lemma add_each_adds term f : (forall u v, term u v = zip_with f u v) -> adds_regs (add_each term) f /\ adds_regs (add_each_to term) f.
Proof.
  intros Ht. split; intros a b r s Hr (_ & H4 & Hs); unfold add_each, add_each_to; rewrite (zip_regs term f) by done;
    destruct (foldl_sum _ r Hr H4) as (E1 & E2 & E3 & E4); rewrite Hs in *; done.
Qed.

Lemma neon_batch_value {B} (wid : B -> Z) load rest `{HL : !Loader wid load rest} step f x y0 y1 y2 y3 d :
  adds_regs step f -> f 0 0 = 0 -> (d <= length x)%nat -> Forall (fun p => (d <= length p)%nat) [y0; y1; y2; y3] ->
  let v y := lanesum (take d (zip_with f (wid <$> x) (wid <$> y))) in
  neon_batch_4 load rest step x y0 y1 y2 y3 d = Ret (v y0, v y1, v y2, v y3).
Proof.
  intros Hst Hz Hx Hy v. pose proof Hy as (Hy0 & Hy1 & Hy2 & Hy3 & _)%Forall4.
  match goal with |- ?m = Ret ?r => assert (wp m (fun q => q = r)) as E; [|by apply wp_elim in E as (? & -> & ->)] end.
  set (H := fun y off r => holds 4 (zip_with f (wid <$> x) (wid <$> y)) off r).
  unfold neon_batch_4. apply wp_bind.
  eapply wp_mono; [apply (strips_16_8_4_spec (fun off '(s0, s1, s2, s3) => H y0 off s0 /\ H y1 off s1 /\ H y2 off s2 /\ H y3 off s3));
    [split_and!; apply holds_zero|]|].
  - intros n off [[[s0 s1] s2] s3] Hn Ho (H0 & H1 & H2 & H3).
    assert (forall y, (d <= length y)%nat -> exists a b, load n (drop off x) = Ret a /\ load n (drop off y) = Ret b /\
      forall r, H y off r -> H y (off + 4 * n)%nat (step a b r)) as Hld.
    { intros y Hy'. destruct (load_terms f x y n off) as (a & b & Ea & Eb & _ & _ & Hs); [done|lia|lia|].
      exists a, b. split_and!; [done|done|]. intros r [Hr1 Hr2]. destruct (Hst a b r _ Hr1 Hs) as [E1 E2]. split; [done|].
      rewrite E2, Hr2. symmetry. apply lanesum_slice. lia. }
    destruct (Hld y0 Hy0) as (a & b0 & Ea & -> & K0), (Hld y1 Hy1) as (a1 & b1 & Ea1 & -> & K1),
      (Hld y2 Hy2) as (a2 & b2 & Ea2 & -> & K2), (Hld y3 Hy3) as (a3 & b3 & Ea3 & -> & K3).
    assert (a1 = a) as -> by congruence. assert (a2 = a) as -> by congruence. assert (a3 = a) as -> by congruence.
    rewrite Ea. cbn [bind wp]. split_and!; auto.
  - intros [[off e] [[[s0 s1] s2] s3]] (Ho & He & H0 & H1 & H2 & H3). apply wp_bind.
    assert (forall y, (d <= length y)%nat -> exists a b, rest x off e = Ret a /\ rest y off e = Ret b /\
      forall r, H y off r -> vaddvq (step [a] [b] r) = v y) as Hld.
    { intros y Hy'. destruct (rest_terms f x y off e) as (a & b & Ea & Eb & Hs); [done|lia|lia|done|].
      exists a, b. split_and!; [done|done|]. intros r [Hr1 Hr2].
      destruct (Hst [a] [b] r (lanesum (slice off (off + e) (zip_with f (wid <$> x) (wid <$> y)))) Hr1 Hs) as [E1 E2].
      rewrite vaddvq_len4, E2, Hr2 by done. unfold v. rewrite <- Ho. symmetry. apply lanesum_slice. lia. }
    destruct (Hld y0 Hy0) as (a & b0 & Ea & -> & K0), (Hld y1 Hy1) as (a1 & b1 & Ea1 & -> & K1),
      (Hld y2 Hy2) as (a2 & b2 & Ea2 & -> & K2), (Hld y3 Hy3) as (a3 & b3 & Ea3 & -> & K3).
    assert (a1 = a) as -> by congruence. assert (a2 = a) as -> by congruence. assert (a3 = a) as -> by congruence.
    rewrite Ea. cbn [bind wp]. by rewrite K0, K1, K2, K3.
Qed.

(** * The NEON kernels that fill an array: rows, multiply-add and argmin *)

(** ** One vector against many rows *)

Lemma slice_at {B} `{!Inhabited B} (y : list B) b w : (b + w <= length y)%nat ->
  slice b (b + w) y = (fun j => y !!! (b + j)%nat) <$> seq 0 w.
Proof.
  intros H. apply list_eq. intros j. rewrite list_lookup_fmap. destruct (decide (j < w)%nat) as [Hj|Hj].
  - rewrite lookup_seq_lt by done. cbn [fmap option_fmap option_map]. unfold slice. rewrite lookup_take_lt, lookup_drop by lia.
    rewrite list_lookup_lookup_total_lt by lia. done.
  - rewrite lookup_seq_ge, lookup_ge_None_2 by (rewrite ?length_slice; lia). done.
Qed.

Lemma filled_ext {V} (v u : nat -> V) dis n r : (forall k, (k < n)%nat -> v k = u k) -> filled v dis n r -> filled u dis n r.
Proof.
  intros E ->. unfold filled. f_equal. apply list_fmap_ext. intros i k [-> Hk]%lookup_seq. apply E. lia.
Qed.

(** Rows written from the last down to the first. *)
Lemma vset_rows_down {V} (v : nat -> V) dis i w r (body : list V -> nat -> M (list V)) :
  (i + w <= length dis)%nat -> filled v dis i r ->
  (forall k t, (k < w)%nat -> body t k = vset t (i + k) (v (i + k)%nat)) ->
  wp (foldM body r (rev (seq 0 w))) (filled v dis (i + w)).
Proof.
  intros Hw Hr Hb.
  assert (forall k buf, (k <= w)%nat -> length buf = length dis -> take i buf = v <$> seq 0 i ->
    drop (i + k) buf = (v <$> seq (i + k) (w - k)) ++ drop (i + w) dis ->
    wp (foldM body buf (rev (seq 0 k))) (filled v dis (i + w))) as Hk.
  { induction k as [|k IH]; intros buf Hkw Hl Ht Hd.
    - cbn [seq rev foldM wp]. unfold filled. rewrite <- (take_drop i buf), Ht.
      rewrite Nat.add_0_r, Nat.sub_0_r in Hd. rewrite Hd, seq_app, fmap_app, <- app_assoc. done.
    - rewrite seq_S, rev_app_distr. cbn [rev app foldM Nat.add]. rewrite Hb by lia. apply wp_bind, wp_vset; [lia|].
      apply IH; [lia|by rewrite length_insert|rewrite take_insert_ge by lia; done|].
      rewrite (drop_S _ (v (i + k)%nat)) by (apply list_lookup_insert_eq; lia). rewrite drop_insert_lt by lia.
      replace (S (i + k)) with (i + S k)%nat by lia. rewrite Hd. replace (w - k)%nat with (S (w - S k)) by lia.
      replace (i + S k)%nat with (S (i + k)) by lia. done. }
  rewrite Hr. apply Hk; [done| | |].
  - rewrite length_app, length_filled, length_drop. lia.
  - rewrite <- (length_filled v i) at 1. by rewrite take_app_length.
  - rewrite Nat.sub_diag. cbn [seq fmap list_fmap app]. rewrite drop_app_ge, length_filled, drop_drop by (rewrite length_filled; lia).
    f_equal. lia.
Qed.

Section rows.
Context (x y dis : list Z) (d ny : nat).
Hypothesis Hx : (d <= length x)%nat.
Hypothesis Hy : (ny * d <= length y)%nat.
Hypothesis Hdis : (ny <= length dis)%nat.

Lemma rows_by (v : nat -> Z) (m : M (list Z)) : (forall k, (k < ny)%nat -> v k = row_l2 x y d k) ->
  wp m (filled v dis ny) -> m = fvec_L2sqr_ny_ref dis x y d ny.
Proof. intros E H. apply rows_value; [done..|]. eapply wp_mono; [exact H|]. intros r. by apply filled_ext. Qed.

Lemma rows_dimN : fvec_L2sqr_ny_dimN_neon dis x y d ny = fvec_L2sqr_ny_ref dis x y d ny.
Proof.
  apply (rows_by (row_l2 x y d)); [done|]. unfold fvec_L2sqr_ny_dimN_neon.
  apply (vset_rows _ dis 0 ny dis); [lia|done|]. intros k t Hk. rewrite l2_neon_value; [done|done|].
  apply (row_length y d ny); [done|lia].
Qed.

Lemma ip_rows : fvec_inner_products_ny_neon dis x y d ny = fvec_inner_products_ny_ref dis x y d ny.
Proof.
  assert (fvec_inner_products_ny_ref dis x y d ny =
    Ret (((fun i => lanesum (take d (zip_with Z.mul x (drop (i * d) y)))) <$> seq 0 ny) ++ drop ny dis)) as ->.
  { apply fill_spec; [done|]. intros i Hi. apply ip_ref_value; [done|]. by apply (row_length y d ny). }
  match goal with |- ?m = Ret ?r => assert (wp m (fun q => q = r)) as E; [|by apply wp_elim in E as (? & -> & ->)] end.
  apply (vset_rows _ dis 0 ny dis); [lia|done|]. intros k t Hk. rewrite ip_neon_value; [done|done|].
  apply (row_length y d ny); [done|lia].
Qed.
End rows.

(** Equal lists of sums, element by element. *)
Ltac lanes_eq := repeat (apply (f_equal2 cons); [|]); try reflexivity; unfold sq, sq_diff; cbn; try ring.

Lemma seq_at i n : seq i n = (fun k => (i + k)%nat) <$> seq 0 n.
Proof. rewrite fmap_add_seq. by rewrite Nat.add_0_r. Qed.

Section dim1.
Context (a : Z) (x' y dis : list Z) (ny : nat).
Hypothesis Hy : (ny * 1 <= length y)%nat.
Hypothesis Hdis : (ny <= length dis)%nat.
Let v (k : nat) : Z := (a - y !!! k) * (a - y !!! k).

Lemma dim1_row k : (k < ny)%nat -> v k = row_l2 (a :: x') y 1 k.
Proof.
  clear Hdis. intros Hk. unfold row_l2. rewrite Nat.mul_1_r, drop_cons_total by lia. cbn [zip_with take]. rewrite take_0.
  unfold v, sq, lanesum. cbn [foldr]. lia.
Qed.

Lemma rows_dim1 : fvec_L2sqr_ny_dim1_neon dis (a :: x') y 1 ny = fvec_L2sqr_ny_ref dis (a :: x') y 1 ny.
Proof.
  apply (rows_by (a :: x') y dis 1 ny ltac:(simpl; lia) Hy Hdis v); [apply dim1_row|].
  unfold fvec_L2sqr_ny_dim1_neon. change (vget (a :: x') 0) with (Ret a). cbn [bind]. apply wp_bind.
  eapply wp_mono; [apply (strips_spec (filled v dis) ny); [lia|lia|lia|done|]|].
  { intros i r Hi Hr. rewrite (vld_n_ok 0 4) by lia. cbn [bind]. rewrite slice_at by lia.
    apply storeu_filled; [lia|done|]. rewrite (seq_at i). reflexivity. }
  intros [[i e] r] (Hie & He & Hr). apply wp_bind.
  eapply wp_mono; [apply (strip_if_spec (filled v dis) ny); [done|done|]|].
  { clear r Hr. intros r Hi Hr. rewrite (vld1_x_ok 2) by lia. cbn [bind]. rewrite slice_at by lia.
    apply wp_bind. eapply wp_mono; [apply (storeu_filled v dis i 4); [lia|done|rewrite (seq_at i); reflexivity]|].
    clear r Hr. intros r Hr. replace (i + 8)%nat with (i + 4 + 4)%nat by lia.
    apply storeu_filled; [lia|done|]. rewrite seq_from. reflexivity. }
  clear r Hr. intros [[i' e'] r] (Hie' & He' & Hr). apply wp_bind.
  eapply wp_mono; [apply (strip_if_spec (filled v dis) ny); [done|done|]|].
  { clear r Hr. intros r Hi Hr. rewrite loadu_ok by lia. cbn [bind]. rewrite slice_at by lia.
    apply storeu_filled; [lia|done|]. rewrite (seq_at i'). reflexivity. }
  clear r Hr. intros [[i2 e2] r] (Hie2 & He2 & Hr). rewrite <- Hie2. apply vset_rows_down; [lia|done|].
  intros k t Hk. rewrite vget_total by lia. done.
Qed.
End dim1.

Section dim2.
Context (a b : Z) (x' y dis : list Z) (ny : nat).
Hypothesis Hy : (ny * 2 <= length y)%nat.
Hypothesis Hdis : (ny <= length dis)%nat.
Let v (k : nat) : Z := sq_diff a (y !!! (k * 2)%nat) + sq_diff b (y !!! (k * 2 + 1)%nat).

Lemma dim2_row k : (k < ny)%nat -> v k = row_l2 (a :: b :: x') y 2 k.
Proof.
  clear Hdis. intros Hk. rewrite <- (Nat.add_0_r k) at 2. rewrite row_l2_2 by lia.
  unfold v. rewrite Nat.mul_0_r, Nat.add_0_l, !Nat.add_0_r. done.
Qed.

(** Four rows from two registers loaded at [base = 2 i]. *)
Lemma four_rows_ok i r : (i + 4 <= ny)%nat -> filled v dis i r ->
  wp (four_rows_2 [a; b; a; b] (slice (i * 2) (i * 2 + 4) y) (slice (i * 2 + 4) (i * 2 + 4 + 4) y) r i) (filled v dis (i + 4)).
Proof.
  intros Hi Hr. unfold four_rows_2. rewrite !slice_at by lia. apply storeu_filled; [lia|done|]. rewrite (seq_at i).
  unfold v, sq_diff, vuzp1q, vuzp2q, lane. cbn -[Nat.mul].
  replace (i + 0)%nat with i by lia. replace ((i + 1) * 2)%nat with (i * 2 + 2)%nat by lia.
  replace ((i + 2) * 2)%nat with (i * 2 + 4 + 0)%nat by lia. replace ((i + 3) * 2)%nat with (i * 2 + 4 + 2)%nat by lia.
  replace (i * 2 + 4 + 0 + 1)%nat with (i * 2 + 4 + 1)%nat by lia. replace (i * 2 + 2 + 1)%nat with (i * 2 + 3)%nat by lia.
  replace (i * 2 + 4 + 2 + 1)%nat with (i * 2 + 4 + 3)%nat by lia. replace (i * 2 + 0)%nat with (i * 2)%nat by lia.
  reflexivity.
Qed.

Lemma rows_dim2 : fvec_L2sqr_ny_dim2_neon dis (a :: b :: x') y 2 ny = fvec_L2sqr_ny_ref dis (a :: b :: x') y 2 ny.
Proof.
  apply (rows_by (a :: b :: x') y dis 2 ny ltac:(simpl; lia) Hy Hdis v); [apply dim2_row|].
  unfold fvec_L2sqr_ny_dim2_neon. change (vget (a :: b :: x') 0) with (Ret a). change (vget (a :: b :: x') 1) with (Ret b).
  cbn [bind]. apply wp_bind.
  assert (forall i o, (o = i * 2)%nat -> (o + 8 <= length y)%nat ->
    vld1_x 2 (drop o y) = Ret [slice (i * 2) (i * 2 + 4) y; slice (i * 2 + 4) (i * 2 + 4 + 4) y]) as Hld.
  { intros i o -> Ho. rewrite vld1_x_ok by done. unfold chunks. cbn [fmap list_fmap seq].
    rewrite !HNSW.slice_slice by lia. do 4 f_equal; lia. }
  eapply wp_mono; [apply (strips_spec (filled v dis) ny); [lia|lia|lia|done|]|].
  { intros i r Hi Hr. rewrite (Hld i), (Hld (i + 4)%nat) by lia. cbn [bind nth]. apply wp_bind.
    eapply wp_mono; [apply four_rows_ok; [lia|done]|]. clear r Hr. intros r Hr.
    replace (i + 8)%nat with (i + 4 + 4)%nat by lia. apply four_rows_ok; [lia|done]. }
  intros [[i e] r] (Hie & He & Hr). apply wp_bind.
  eapply wp_mono; [apply (strip_if_spec (filled v dis) ny); [done|done|]|].
  { clear r Hr. intros r Hi Hr. replace ((i + 2) * 2)%nat with (i * 2 + 4)%nat by lia. rewrite !loadu_ok by lia.
    cbn [bind]. by apply four_rows_ok. }
  clear r Hr. intros [[i' e'] r] (Hie' & He' & Hr). rewrite <- Hie'. apply vset_rows; [lia|done|].
  intros k t Hk. rewrite !vget_total by lia. done.
Qed.
End dim2.

Section dim4.
Context (x y dis : list Z) (ny : nat).
Hypothesis Hx : (4 <= length x)%nat.
Hypothesis Hy : (ny * 4 <= length y)%nat.
Hypothesis Hdis : (ny <= length dis)%nat.

Lemma row_4_value k : (k < ny)%nat -> row_4 (take 4 x) (slice (k * 4) (k * 4 + 4) y) = row_l2 x y 4 k.
Proof.
  clear Hdis. intros Hk. unfold row_4. change (vmul ?c ?c) with (l2_regs (take 4 x) (slice (k * 4) (k * 4 + 4) y)).
  rewrite l2_regs_sq, vaddvq_len4.
  - unfold row_l2. rewrite zip_with_take. do 2 f_equal. unfold slice. f_equal. lia.
  - unfold len4. rewrite length_zip_with, length_take, length_slice by lia. lia.
Qed.

Lemma rows_dim4 : fvec_L2sqr_ny_dim4_neon dis x y 4 ny = fvec_L2sqr_ny_ref dis x y 4 ny.
Proof.
  apply (rows_by x y dis 4 ny Hx Hy Hdis (row_l2 x y 4)); [done|]. set (v := row_l2 x y 4).
  unfold fvec_L2sqr_ny_dim4_neon. rewrite <- (drop_0 x) at 1. rewrite loadu_ok by lia. cbn [bind]. rewrite slice_0. apply wp_bind.
  eapply wp_mono; [apply (strips_spec (filled v dis) ny); [lia|lia|lia|done|]|].
  { intros i r Hi Hr. rewrite vld1_x_ok by lia. cbn [bind].
    assert (forall k, (k < 4)%nat -> nth k (chunks 4 (slice (i * 4) (i * 4 + 16) y)) [] =
      slice ((i + k) * 4) ((i + k) * 4 + 4) y) as Hn.
    { intros k Hk. unfold chunks. rewrite (nth_lookup_Some _ k [] (slice (4 * k) (4 * k + 4) (slice (i * 4) (i * 4 + 16) y))).
      - rewrite HNSW.slice_slice by lia. f_equal; lia.
      - rewrite list_lookup_fmap, lookup_seq_lt by lia. done. }
    replace (foldM _ r (seq 0 4)) with (foldM (fun dis k => vset dis k (v k)) r (seq i 4)).
    { apply vset_rows; [lia|done|done]. }
    rewrite (seq_at i), foldM_fmap. apply foldM_ext. intros t k Hk%elem_of_seq. rewrite Hn by lia.
    by rewrite row_4_value by lia. }
  intros [[i e] r] (Hie & He & Hr). rewrite <- Hie. apply vset_rows; [lia|done|].
  intros k t Hk. rewrite loadu_ok by lia. cbn [bind]. by rewrite row_4_value by lia.
Qed.
End dim4.

Lemma ny_neon_l2 x y dis d ny : (d <= length x)%nat -> (ny * d <= length y)%nat -> (ny <= length dis)%nat ->
  fvec_L2sqr_ny_neon dis x y d ny = fvec_L2sqr_ny_ref dis x y d ny.
Proof.
  intros Hx Hy Hd. unfold fvec_L2sqr_ny_neon.
  destruct d as [|[|[|[|[|d]]]]]; try by apply rows_dimN.
  - destruct x as [|a x']; [simpl in Hx; lia|]. by apply rows_dim1.
  - destruct x as [|a [|b x']]; simpl in Hx; try lia. by apply rows_dim2.
  - by apply rows_dim4.
Qed.

(** * The NEON Linf distance, on binary32 numbers *)

#[local] Close Scope Z_scope.

Section linf_lanes.
Implicit Types (S T v w : list spec_float).

(** [vmaxq_f32] is the maximum of the other kernels where no lane is NaN. *)
Lemma maxq_max2 (s t : spec_float) : mag s -> mag t -> maxq s t = max2 s t.
Proof.
  intros Hs%mag_nan Ht%mag_nan. unfold maxq.
  rewrite !neqb_total by (done || by apply (sw_irrefl (ok := nok))). done.
Qed.

Lemma vmaxq_vmax v w : Forall mag v -> Forall mag w -> vmaxq v w = vmax v w.
Proof.
  intros Hv. revert w. induction Hv as [|s v Hs Hv IH]; intros [|t w] Hw; try done. apply Forall_cons in Hw as [Ht Hw].
  change (maxq s t :: vmaxq v w = max2 s t :: vmax v w). by rewrite maxq_max2, IH.
Qed.

(** [w] has lanes among zero and [S], and an upper bound of each element of [S]. *)
Definition peaks S w : Prop := (forall u, u ∈ w -> u ∈ F32.zero :: S) /\ (forall t, t ∈ S -> exists u, u ∈ w /\ nle t u).

Lemma peaks_mags S w : Forall mag S -> peaks S w -> Forall mag w.
Proof. intros HS [H _]. apply Forall_forall. intros u Hu. eapply mags_nok; [done|by apply H]. Qed.

Lemma peaks_among S w zeros : Forall mag S -> Forall (eq F32.zero) zeros -> (forall t, t ∈ w <-> t ∈ S) -> peaks S (w ++ zeros).
Proof.
  intros HS Hz Hw. rewrite Forall_forall in Hz. split.
  - intros u [Hu%Hw|Hu%Hz]%elem_of_app; set_solver.
  - intros t Ht. exists t. split; [apply elem_of_app; left; by apply Hw|]. by eapply nle_refl, mag_nan, Forall_forall.
Qed.

Lemma peaks_self S : Forall mag S -> peaks S S.
Proof. intros HS. rewrite <- (app_nil_r S) at 2. by apply peaks_among. Qed.

Lemma peaks_vmaxq S T v w : length v = length w -> Forall mag S -> Forall mag T -> peaks S v -> peaks T w ->
  peaks (S ++ T) (vmaxq v w).
Proof.
  intros Hl HS HT Hv Hw. pose proof (peaks_mags S v HS Hv) as Mv. pose proof (peaks_mags T w HT Hw) as Mw.
  rewrite vmaxq_vmax by done. destruct Hv as [H1 H2], Hw as [H3 H4].
  assert (forall i a b, v !! i = Some a -> w !! i = Some b -> max2 a b ∈ vmax v w /\ nle a (max2 a b) /\ nle b (max2 a b)) as Hi.
  { intros i a b Ha Hb. split; [apply zip_elem; by exists i, a, b|].
    apply max2_ge; apply mag_nan; [apply (Forall_lookup_1 _ _ _ _ Mv Ha)|apply (Forall_lookup_1 _ _ _ _ Mw Hb)]. }
  split.
  - intros u (i & a & b & Ha%list_elem_of_lookup_2 & Hb%list_elem_of_lookup_2 & ->)%zip_elem.
    change (max2 a b ∈ F32.zero :: S ++ T). destruct (max2_cases a b) as [->| ->]; set_solver.
  - intros t [Ht|Ht]%elem_of_app.
    + destruct (H2 t Ht) as (a & [i Ha]%list_elem_of_lookup_1 & Hta).
      destruct (lookup_lt_is_Some_2 w i) as [b Hb]; [rewrite <- Hl; by eapply lookup_lt_Some|].
      destruct (Hi i a b Ha Hb) as (Hin & Hle & _). exists (max2 a b). split; [done|by etrans].
    + destruct (H4 t Ht) as (b & [i Hb]%list_elem_of_lookup_1 & Htb).
      destruct (lookup_lt_is_Some_2 v i) as [a Ha]; [rewrite Hl; by eapply lookup_lt_Some|].
      destruct (Hi i a b Ha Hb) as (Hin & _ & Hle). exists (max2 a b). split; [done|by etrans].
Qed.

(** The registers of a strip. *)
Lemma chunk_peaks n T : (n = 1 \/ n = 2 \/ n = 4) -> length T = 4 * n -> Forall mag T ->
  length (fold_regs vmaxq (chunks n T)) = 4 /\ peaks T (fold_regs vmaxq (chunks n T)).
Proof.
  intros Hn Hl HT.
  assert (forall i, Forall mag (slice i (i + 4) T)) as Hs by (intros i; unfold slice; by apply Forall_take, Forall_drop).
  assert (forall i, i + 4 <= length T -> length (slice i (i + 4) T) = 4) as Hsl by (intros i Hi; rewrite length_slice; lia).
  assert (forall i, i + 8 <= length T -> length (vmaxq (slice i (i + 4) T) (slice (i + 4) (i + 8) T)) = 4 /\
    peaks (slice i (i + 4) T ++ slice (i + 4) (i + 8) T) (vmaxq (slice i (i + 4) T) (slice (i + 4) (i + 8) T))) as H2.
  { intros i Hi. replace (i + 8) with (i + 4 + 4) by lia. split.
    - unfold vmaxq. rewrite length_zip_with, !Hsl by lia. done.
    - apply peaks_vmaxq; [rewrite !Hsl by lia; done|done|done|by apply peaks_self|by apply peaks_self]. }
  assert (T = slice 0 (4 * n) T) as E by (rewrite slice_0, take_ge by lia; done).
  enough (length (fold_regs vmaxq (chunks n T)) = 4 /\ peaks (slice 0 (4 * n) T) (fold_regs vmaxq (chunks n T))) as H by (by rewrite <- E in H).
  destruct Hn as [-> |[-> | ->]]; unfold chunks; cbn [seq fmap list_fmap fold_regs].
  - split; [apply (Hsl 0); lia|]. apply peaks_self, (Hs 0).
  - rewrite <- (slice_app 0 4 8) by lia. apply (H2 0). lia.
  - rewrite <- (slice_app 0 8 16), <- (slice_app 0 4 8), <- (slice_app 8 12 16) by lia.
    destruct (H2 0) as [L0 P0]; [lia|]. destruct (H2 8) as [L8 P8]; [lia|]. cbn [Nat.add Nat.mul] in *. split.
    + unfold vmaxq in *. rewrite length_zip_with. lia.
    + apply peaks_vmaxq; [lia| | |done|done]; apply Forall_app; split; (apply (Hs 0) || apply (Hs 4) || apply (Hs 8) || apply (Hs 12)).
Qed.

Lemma zip_chunks n x y : zip_with l1_regs (chunks n x) (chunks n y) = chunks n (diffs x y).
Proof.
  unfold chunks. rewrite zip_with_fmap_l, zip_with_fmap_r, zip_with_diag. apply list_fmap_ext. intros ? k _. apply slice_diffs.
Qed.

Lemma rest_diffs (x y : list spec_float) k : length x = length y ->
  l1_regs (rev x ++ replicate k F32.zero) (rev y ++ replicate k F32.zero) = rev (diffs x y) ++ replicate k F32.zero.
Proof.
  intros Hl. unfold l1_regs, vabs, vsub. rewrite zip_with_app by (by rewrite !length_rev). rewrite fmap_app, rev_zip_with by done.
  rewrite zip_with_replicate, fmap_replicate. f_equal. rewrite rev_fmap. f_equal. unfold diffs.
  clear Hl. revert y. induction x as [|u x IH]; intros [|w y]; simpl; try done. f_equal. apply IH.
Qed.

(** Lane maxima, two and two. *)
Lemma covers_vmaxvq S v : length v = 4 -> Forall mag S -> covers S v -> covers S [vmaxvq v].
Proof.
  intros Hl HS Hv. destruct v as [|a [|b [|c [|e [|]]]]]; try done. unfold vmaxvq, lane. cbn [nth].
  assert (Forall mag [a; b; c; e]) as Hm.
  { apply Forall_forall. intros u Hu. eapply mags_nok; [done|]. by apply Hv. }
  repeat (apply Forall_cons in Hm as [? Hm]).
  assert (covers S ([a; c] ++ [b; e])) as Hv'.
  { destruct Hv as [Hv1 Hv2]. split; [intros u Hu; apply Hv1; set_solver|].
    intros t Ht. destruct (Hv2 t Ht) as (u & Hu & Htu). exists u. split; [set_solver|done]. }
  apply covers_halves in Hv' as [Hv' _]; [|done|done]. apply (covers_halves S [_] [_]) in Hv' as [Hv' _]; [|done|done].
  rewrite (maxq_max2 a b), (maxq_max2 c e) by done. rewrite maxq_max2; [exact Hv'| |];
    [destruct (max2_cases a b) as [->| ->]|destruct (max2_cases c e) as [->| ->]]; done.
Qed.

Section linf.
Context (x y : list spec_float) (d : nat).
Hypothesis Hx : d <= length x.
Hypothesis Hy : d <= length y.
Let T := diffs x y.
Hypothesis HT : Forall mag (take d T).

Lemma covering_peaks off off' v w : off <= off' -> off' <= d -> covering 4 T off v -> length w = 4 ->
  peaks (slice off off' T) w -> covering 4 T off' (vmaxq v w).
Proof.
  intros Ho Hd [Hl Hv] Hw Hp.
  assert (Forall mag (take off T)) as M1 by (eapply mags_take; [|exact HT]; lia).
  assert (Forall mag (slice off off' T)) as M2 by (eapply mags_slice, mags_take; [|exact HT]; lia).
  rewrite vmaxq_vmax; [|apply Forall_forall; intros u Hu; eapply mags_nok; [exact M1|by apply Hv]|by eapply peaks_mags].
  split; [unfold vmax; rewrite length_zip_with; lia|]. rewrite (take_slice_app off off') by done.
  destruct Hp. apply covers_vmax; [lia|done|done|done|done|done].
Qed.

Lemma linf_neon_value : fvec_Linf_neon x y d = fvec_Linf_ref x y d.
Proof.
  destruct (linf_ref_covers x y d Hx Hy HT) as (r & -> & Hr).
  match goal with |- ?m = Ret _ => assert (wp m (fun u => u = r)) as E; [|by apply wp_elim in E as (? & -> & ->)] end.
  unfold fvec_Linf_neon, neon_fold. apply wp_bind, wp_bind.
  eapply wp_mono; [apply (strips_16_8_4_spec (covering 4 T)); [split; [done|]; apply (covers_zero 4); lia|]|].
  - intros n off v Hn Ho Hv. apply wp_bind. unfold terms_of. rewrite !vld1_x_ok by lia. cbn [bind wp].
    rewrite zip_chunks. unfold diffs. rewrite <- slice_zip_with. change (zip_with _ x y) with T.
    destruct (chunk_peaks n (slice off (off + 4 * n) T)) as [Hl Hp];
      [done|unfold T; rewrite length_slice by (rewrite length_diffs; lia); lia|eapply mags_slice, mags_take; [|exact HT]; lia|].
    apply (covering_peaks off); [lia|done|done|done|done].
  - intros [[off e] v] (Ho & He & Hv). apply wp_bind. unfold terms_of. rewrite !lanes_rest_ok by lia. cbn [bind wp].
    cbn [zip_with fold_regs]. change (@nzero spec_float F32_num) with F32.zero. rewrite rest_diffs by (rewrite !length_slice; lia).
    unfold diffs. rewrite <- slice_zip_with. change (zip_with _ x y) with T. rewrite Ho.
    symmetry. apply (covers_unique (take d T)); [done|done|].
    assert (length (slice off d T) = e) as Hls by (unfold T; rewrite length_slice; [lia|rewrite length_diffs; lia]).
    assert (Forall mag (slice off d T)) as Hms by by apply mags_slice.
    apply covers_vmaxvq; [unfold vmaxq; rewrite length_zip_with, length_app, length_rev, length_replicate, Hls; destruct Hv; lia|done|].
    apply (covering_peaks off d); [lia|done|done|rewrite length_app, length_rev, length_replicate; lia|].
    apply peaks_among; [done|by apply Forall_replicate|]. intros t. by rewrite !list_elem_of_In, <- in_rev.
Qed.
End linf.
End linf_lanes.

(** * The NEON kernels of the fp32-as-bf16 patch

    Rounding the registers of the candidate is rounding its elements: a patched
    kernel is the plain one on a candidate rounded beforehand. *)

(** ** Loads commute with a conversion of the elements *)

Section load_fmap.
Context {A B : Type} (f : A -> B).

Lemma vget_fmap (p : list A) i : vget (f <$> p) i = let* e := vget p i in Ret (f e).
Proof. unfold vget. rewrite list_lookup_fmap. by destruct (p !! i). Qed.

Lemma vset_fmap (p : list A) i e : vset (f <$> p) i (f e) = let* r := vset p i e in Ret (f <$> r).
Proof. unfold vset. rewrite length_fmap. destruct (decide (i < length p)); [|done]. by rewrite <- list_fmap_insert. Qed.

Lemma vld1_x_fmap n (p : list A) off :
  vld1_x n (drop off (f <$> p)) = let* r := vld1_x n (drop off p) in Ret ((fun v : list A => f <$> v) <$> r).
Proof.
  unfold vld1_x, loadu. rewrite <- fmap_drop, length_fmap. destruct (_ <=? _); [|done]. cbn [bind]. f_equal.
  rewrite <- fmap_take, <- list_fmap_compose. apply list_fmap_ext. intros ? k _. unfold compose. by rewrite slice_fmap.
Qed.

Lemma lanes_rest_fmap zero (p : list A) off d :
  lanes_rest (f zero) (f <$> p) off d = let* r := lanes_rest zero p off d in Ret (f <$> r).
Proof.
  unfold lanes_rest. rewrite <- (fmap_replicate f 4 zero).
  assert (forall l (st : list A * nat * nat), foldM (fun (st : list B * nat * nat) l =>
      let '(res, off, d) := st in
      if S l <=? d then let* e := vget (f <$> p) off in let* res := vset res l e in Ret (res, off + 1, d - 1) else Ret st)
    (f <$> st.1.1, st.1.2, st.2) l =
    let* t := foldM (fun (st : list A * nat * nat) l =>
      let '(res, off, d) := st in
      if S l <=? d then let* e := vget p off in let* res := vset res l e in Ret (res, off + 1, d - 1) else Ret st) st l in
    Ret (f <$> t.1.1, t.1.2, t.2)) as H.
  { induction l as [|i l IH]; intros [[r o] k]; [done|]. cbn [foldM fst snd]. destruct (S i <=? k); [|apply (IH (r, o, k))].
    rewrite vget_fmap. destruct (vget p o) as [e| |]; try done. cbn [bind]. rewrite vset_fmap.
    destruct (vset r i e) as [r'| |]; try done. cbn [bind]. apply (IH (r', o + 1, k - 1)). }
  rewrite (H _ (replicate 4 zero, off, d)). destruct (foldM _ (replicate 4 zero, off, d) _) as [[[r o] k]| |]; done.
Qed.
End load_fmap.

Lemma strips_ext {S} fuel w (f g : nat -> S -> M S) off d s : (forall o t, f o t = g o t) ->
  strips fuel w f off d s = strips fuel w g off d s.
Proof.
  intros H. revert off d s. induction fuel as [|fuel IH]; intros off d s; cbn [strips]; [done|]. destruct (w <=? d); [|done].
  rewrite H. destruct (g off s); cbn [bind]; [apply IH|done..].
Qed.

Lemma strips_16_8_4_ext {S} (f g : nat -> nat -> S -> M S) d s : (forall n o t, f n o t = g n o t) ->
  strips_16_8_4 f d s = strips_16_8_4 g d s.
Proof.
  intros H. unfold strips_16_8_4. rewrite (strips_ext _ _ (f 4) (g 4)) by done.
  destruct (strips d 16 (g 4) 0 d s) as [[[o r] t]| |]; try done. cbn [bind].
  replace (strip_if 8 (f 2) (o, r, t)) with (strip_if 8 (g 2) (o, r, t)) by (unfold strip_if; by rewrite H).
  destruct (strip_if 8 (g 2) (o, r, t)) as [[[o' r'] t']| |]; try done. cbn [bind]. unfold strip_if. by rewrite H.
Qed.

Lemma neon_fold_ext {A} `{!Num A} op t1 t2 d :
  (forall n off, t1 (fun p => vld1_x n (drop off p)) = t2 (fun p => vld1_x n (drop off p))) ->
  (forall off e, t1 (fun p => let* r := lanes_rest nzero p off e in Ret [r]) = t2 (fun p => let* r := lanes_rest nzero p off e in Ret [r])) ->
  neon_fold op t1 d = neon_fold op t2 d.
Proof.
  intros H1 H2. unfold neon_fold. rewrite (strips_16_8_4_ext _ (fun n off sum_ =>
      let* c := t2 (fun p => vld1_x n (drop off p)) in Ret (op sum_ (fold_regs op c)))) by (intros; by rewrite H1).
  match goal with |- context [strips_16_8_4 ?a ?b ?c] => destruct (strips_16_8_4 a b c) as [[[o r] t]| |] end; try done.
  cbn [bind]. by rewrite H2.
Qed.

(** ** Kernels *)

Abbreviation rounded y := (bf16_float <$> y) (only parsing).

(** Zero, the padding of the last register, is rounded to zero. *)
Lemma lanes_rest_rounded (y : list spec_float) off e :
  lanes_rest nzero (rounded y) off e = let* r := lanes_rest nzero y off e in Ret (bf16_float <$> r).
Proof. exact (lanes_rest_fmap bf16_float nzero y off e). Qed.

Lemma zip_rounded (term : list spec_float -> list spec_float -> list spec_float) (a b : list (list spec_float)) :
  zip_with (fun a b => term a (bf16_float_neon b)) a b = zip_with term a ((fun v : list spec_float => bf16_float <$> v) <$> b).
Proof. by rewrite zip_with_fmap_r. Qed.

Lemma patched_terms term (x y : list spec_float) d :
  neon_fold vadd (terms_of (fun a b => term a (bf16_float_neon b)) x y) d = neon_fold vadd (terms_of term x (rounded y)) d.
Proof.
  apply neon_fold_ext; unfold terms_of.
  - intros n off. rewrite vld1_x_fmap. destruct (vld1_x n (drop off x)) as [a| |]; try done. cbn [bind].
    destruct (vld1_x n (drop off y)) as [b| |]; try done. cbn [bind]. by rewrite zip_rounded.
  - intros off e. rewrite lanes_rest_rounded.
    destruct (lanes_rest nzero x off e) as [a| |]; try done. cbn [bind].
    destruct (lanes_rest nzero y off e) as [b| |]; done.
Qed.

Lemma patched_batch term (x y0 y1 y2 y3 : list spec_float) d :
  neon_batch_4 vld1_x (lanes_rest nzero) (add_folded (fun a b => term a (bf16_float_neon b))) x y0 y1 y2 y3 d =
  neon_batch_4 vld1_x (lanes_rest nzero) (add_folded term) x (rounded y0) (rounded y1) (rounded y2) (rounded y3) d.
Proof.
  unfold neon_batch_4. cbn zeta.
  match goal with |- bind (strips_16_8_4 ?f _ ?s) _ = bind (strips_16_8_4 ?g _ _) _ => rewrite (strips_16_8_4_ext f g) end.
  - match goal with |- bind (strips_16_8_4 ?a ?b ?c) _ = _ => destruct (strips_16_8_4 a b c) as [[[o r] [[[s0 s1] s2] s3]]| |] end; try done.
    cbn [bind]. rewrite !lanes_rest_rounded.
    destruct (lanes_rest nzero x o r) as [a| |]; try done. cbn [bind].
    destruct (lanes_rest nzero y0 o r) as [b0| |]; try done. cbn [bind].
    destruct (lanes_rest nzero y1 o r) as [b1| |]; try done. cbn [bind].
    destruct (lanes_rest nzero y2 o r) as [b2| |]; try done. cbn [bind].
    destruct (lanes_rest nzero y3 o r) as [b3| |]; done.
  - intros n o [[[s0 s1] s2] s3]. rewrite !vld1_x_fmap.
    destruct (vld1_x n (drop o x)) as [a| |]; try done. cbn [bind].
    destruct (vld1_x n (drop o y0)) as [b0| |]; try done. cbn [bind].
    destruct (vld1_x n (drop o y1)) as [b1| |]; try done. cbn [bind].
    destruct (vld1_x n (drop o y2)) as [b2| |]; try done. cbn [bind].
    destruct (vld1_x n (drop o y3)) as [b3| |]; try done. cbn [bind]. unfold add_folded. by rewrite !zip_rounded.
Qed.
