(* ===== verification/NeonInt8.v ===== *)
(** * The NEON multiply-add and argmin *)

From S2P Require Import Prelude Float HnswGraph Num Bitset MemoryIO Operands Distances DistanceProps Rvv RvvKernels.
From S2P Require Import RvvProps RvvColumns Simd SimdProps AvxProps SseProps Neon NeonProps.

#[local] Open Scope Z_scope.

Lemma lanes_down_ok (p : list Z) off k : (k < 4)%nat -> (off + k <= length p)%nat ->
  lanes_down p off k = Ret (slice off (off + k) p ++ replicate (4 - k) 0).
Proof.
  intros Hk Hp. rewrite <- (masked_read_spec 0 4 k p off) by lia. unfold lanes_down, masked_read.
  apply foldM_ext. intros t l _. by rewrite vget_drop.
Qed.

Section madd.
Context (a b c : list Z) (bf : Z) (n : nat).
Hypothesis Ha : (n <= length a)%nat.
Hypothesis Hb : (n <= length b)%nat.
Hypothesis Hc : (n <= length c)%nat.
Let v := madd_at a b bf.

(** The elements [off], ..., [off + w - 1] of the result. *)
Lemma madd_slice w off : (off + w <= n)%nat ->
  zip_with Z.add ((fun t => t * bf) <$> slice off (off + w) b) (slice off (off + w) a) = v <$> seq off w.
Proof.
  clear Hc. intros Ho. rewrite !slice_at, (seq_at off) by lia. rewrite <- !list_fmap_compose, zip_with_fmap_l, zip_with_fmap_r.
  rewrite zip_with_diag. apply list_fmap_ext. intros ? k _. unfold compose, v, madd_at. cbn. lia.
Qed.

(** The registers of a strip. *)
Definition next_regs (off k : nat) : list (list Z) := (fun j => v <$> seq (off + 4 * j) 4) <$> seq 0 k.

Lemma strip_values k off : (off + 4 * k <= n)%nat ->
  madd_regs bf (chunks k (slice off (off + 4 * k) a)) (chunks k (slice off (off + 4 * k) b)) = next_regs off k.
Proof.
  clear Hc. intros Ho. unfold madd_regs, chunks, next_regs.
  rewrite <- !list_fmap_compose, zip_with_fmap_l, zip_with_fmap_r, zip_with_diag.
  apply list_fmap_ext. intros ? j [-> Hj]%lookup_seq. unfold compose. rewrite Nat.add_0_l, !HNSW.slice_slice by lia.
  rewrite Nat.add_assoc. apply madd_slice. lia.
Qed.

Lemma concat_next off k : List.concat (next_regs off k) = v <$> seq off (4 * k).
Proof.
  clear Ha Hb Hc. unfold next_regs. induction k as [|k IH]; [by rewrite Nat.mul_0_r|].
  rewrite seq_S, fmap_app, concat_app, IH. cbn [fmap list_fmap List.concat]. rewrite app_nil_r.
  replace (4 * S k)%nat with (4 * k + 4)%nat by lia. rewrite (seq_app (4 * k)), fmap_app. do 2 f_equal.
Qed.

(** The last register: the elements left and zeros. *)
Lemma rest_values off r : (r < 4)%nat -> (off + r = n)%nat -> exists a_ b_ pad,
  lanes_down a off r = Ret a_ /\ lanes_down b off r = Ret b_ /\
  List.concat (madd_regs bf [a_] [b_]) = (v <$> seq off r) ++ pad /\ length pad = (4 - r)%nat.
Proof.
  clear Hc. intros Hr Ho. rewrite !lanes_down_ok by lia. eexists _, _, _. split; [done|]. split; [done|].
  unfold madd_regs. cbn [fmap list_fmap zip_with List.concat]. rewrite app_nil_r. unfold vadd.
  rewrite fmap_app, zip_with_app by (rewrite length_fmap, !length_slice; lia). rewrite <- madd_slice by lia.
  split; [reflexivity|]. rewrite length_zip_with, length_fmap, !length_replicate. lia.
Qed.

Lemma lane_app off r l pad : (l < r)%nat -> lane ((v <$> seq off r) ++ pad) l = v (off + l)%nat.
Proof.
  clear Ha Hb Hc. intros Hl. unfold lane. rewrite app_nth1 by (rewrite length_fmap, length_seq; lia).
  apply nth_lookup_Some. rewrite list_lookup_fmap, lookup_seq_lt by lia. done.
Qed.

Lemma store_rest off r pad t : (off + r = n)%nat -> filled v c off t ->
  wp (store_down t off r ((v <$> seq off r) ++ pad)) (filled v c n).
Proof.
  intros Ho Ht. rewrite <- Ho. apply vset_rows_down; [lia|done|]. intros k u Hk. by rewrite lane_app.
Qed.

Lemma madd_neon_filled : wp (fvec_madd_neon n a bf b c) (filled v c n).
Proof.
  unfold fvec_madd_neon. apply wp_bind.
  eapply wp_mono; [apply (strips_16_8_4_spec (filled v c)); [done|]|].
  - intros k off t Hk Ho Ht. rewrite !vld1_x_ok by lia. cbn [bind]. rewrite strip_values by done.
    apply storeu_filled; [lia|done|]. apply concat_next.
  - intros [[off r] t] (Ho & Hr & Ht). destruct (Nat.ltb_spec 0 r) as [H0|H0].
    + destruct (rest_values off r Hr Ho) as (a_ & b_ & pad & -> & -> & E & _). cbn [bind]. rewrite E. by apply store_rest.
    + cbn [wp]. by replace n with off by lia.
Qed.
End madd.

(** ** The argmin

    Every lane keeps the position and the value of its least element so far. *)

Definition pick (p q : Z * Z) : Z * Z := if q.2 <=? p.2 then q else p.
#[local] Abbreviation ids_of ps := (@fst Z Z <$> ps).
#[local] Abbreviation vals_of ps := (@snd Z Z <$> ps).

Lemma pick_id p q : (if (q.2 <? p.2) || (q.2 =? p.2) then q.1 else p.1) = (pick p q).1.
Proof. unfold pick. destruct (Z.ltb_spec q.2 p.2), (Z.eqb_spec q.2 p.2), (Z.leb_spec q.2 p.2); cbn; lia || done. Qed.
Lemma pick_val p q :
  (if negb (p.2 =? p.2) then p.2 else if negb (q.2 =? q.2) then q.2 else if q.2 <? p.2 then q.2 else p.2) = (pick p q).2.
Proof. rewrite !Z.eqb_refl. unfold pick. cbn [negb]. destruct (Z.ltb_spec q.2 p.2), (Z.leb_spec q.2 p.2); lia. Qed.

Lemma take_less_picks loc k c_ ps qs : length ps = 4%nat -> length qs = 4%nat ->
  vals_of qs = c_ -> ids_of qs = (fun l => Z.of_nat (loc + 4 * k + l)) <$> seq 0 4 -> Z.of_nat loc + 4 * Z.of_nat k + 4 <= 2 ^ 32 ->
  take_less loc k c_ (ids_of ps, vals_of ps) = (ids_of (zip_with pick ps qs), vals_of (zip_with pick ps qs)).
Proof.
  intros Hp Hq <- Hi Hk. unfold take_less.
  assert ((fun i => i mod 2 ^ 32) <$> ((fun l => Z.of_nat (4 * k + l) + Z.of_nat loc mod 2 ^ 32) <$> seq 0 4) = ids_of qs) as ->.
  { rewrite Hi, <- list_fmap_compose. apply list_fmap_ext. intros ? l [-> Hl]%lookup_seq. unfold compose.
    rewrite (Z.mod_small (Z.of_nat loc)), Z.mod_small by lia. lia. }
  destruct ps as [|p0 [|p1 [|p2 [|p3 [|]]]]], qs as [|q0 [|q1 [|q2 [|q3 [|]]]]]; try done.
  unfold vminq. cbn [fmap list_fmap zip_with zip]. rewrite <- !pick_id, <- !pick_val. done.
Qed.

Section argmin.
Context (a b c : list Z) (bf inf : Z) (n : nat).
Hypothesis Ha : (n <= length a)%nat.
Hypothesis Hb : (n <= length b)%nat.
Hypothesis Hc : (n <= length c)%nat.
Hypothesis Hn : Z.of_nat n + 4 <= 2 ^ 32.
Let v := madd_at a b bf.
Hypothesis Hv : forall i, (i < n)%nat -> v i < inf.

(** After [R] registers. *)
Definition cand (R l : nat) (p : Z * Z) : Prop :=
  (R = 0%nat /\ p = (0, inf)) \/
  exists j, (j < R)%nat /\ p = (Z.of_nat (4 * j + l), v (4 * j + l)%nat) /\
    forall j', (j' < R)%nat -> p.2 <= v (4 * j' + l)%nat.
Definition cands (R : nat) (ps : list (Z * Z)) : Prop :=
  length ps = 4%nat /\ forall l p, ps !! l = Some p -> cand R l p.

Definition reg_at (R : nat) : list (Z * Z) := (fun l => (Z.of_nat (4 * R + l), v (4 * R + l)%nat)) <$> seq 0 4.

Lemma cand_step R l p : (4 * R + l < n)%nat -> cand R l p -> cand (R + 1) l (pick p (Z.of_nat (4 * R + l), v (4 * R + l)%nat)).
Proof.
  intros Hl Hp. right. unfold pick. cbn [snd]. destruct Hp as [[-> ->]|(j & Hj & -> & Hmin)]; cbn [snd] in *.
  - specialize (Hv _ Hl). exists 0%nat. rewrite (proj2 (Z.leb_le _ _)) by lia. split_and!; [lia|done|].
    intros j' Hj'. assert (j' = 0%nat) as -> by lia. cbn. lia.
  - destruct (Z.leb_spec (v (4 * R + l)%nat) (v (4 * j + l)%nat)) as [Hle|Hgt].
    + exists R. split_and!; [lia|done|]. intros j' Hj'. cbn [snd]. destruct (decide (j' = R)) as [->|]; [lia|].
      specialize (Hmin j' ltac:(lia)). lia.
    + exists j. split_and!; [lia|done|]. intros j' Hj'. cbn [snd]. destruct (decide (j' = R)) as [->|]; [lia|]. apply Hmin. lia.
Qed.

Lemma cands_step R ps : (4 * R + 4 <= n)%nat -> cands R ps -> cands (R + 1) (zip_with pick ps (reg_at R)).
Proof.
  intros HR [Hl Hp]. split; [unfold reg_at; rewrite length_zip_with, length_fmap, length_seq; lia|].
  intros l p (p0 & q & -> & H0 & Hq)%lookup_zip_with_Some. apply list_lookup_fmap_Some in Hq as (i & -> & [-> Hi]%lookup_seq).
  apply cand_step; [lia|]. by apply Hp.
Qed.

Lemma strip_picks off R k ps : (off = 4 * R)%nat -> (off + 4 * k <= n)%nat -> cands R ps -> exists ps',
  foldl (fun iv j => take_less off j (nth j (next_regs a b bf off k) []) iv) (ids_of ps, vals_of ps) (seq 0 k) =
    (ids_of ps', vals_of ps') /\ cands (R + k) ps'.
Proof.
  intros -> Hk Hps.
  assert (forall j, (j <= k)%nat -> exists ps',
    foldl (fun iv j => take_less (4 * R) j (nth j (next_regs a b bf (4 * R) k) []) iv) (ids_of ps, vals_of ps) (seq 0 j) =
    (ids_of ps', vals_of ps') /\ cands (R + j) ps') as Hj; [|by apply Hj].
  induction j as [|j IH]; intros Hj; [exists ps; by rewrite Nat.add_0_r|].
  destruct IH as (ps' & E & Hps'); [lia|]. rewrite seq_S, foldl_app, E. cbn [foldl Nat.add].
  exists (zip_with pick ps' (reg_at (R + j))). split; [|replace (R + S j)%nat with (R + j + 1)%nat by lia; apply cands_step; [lia|done]].
  apply take_less_picks; [apply Hps'|unfold reg_at; by rewrite length_fmap, length_seq| | |lia].
  - unfold next_regs, reg_at. erewrite nth_lookup_Some; [|rewrite list_lookup_fmap, lookup_seq_lt by lia; reflexivity].
    rewrite (seq_at (4 * R + 4 * (0 + j))), <- !list_fmap_compose. apply list_fmap_ext. intros ? l _. unfold compose. cbn [snd].
    unfold v. f_equal. lia.
  - unfold reg_at. rewrite <- list_fmap_compose. apply list_fmap_ext. intros ? l _. unfold compose. cbn [fst]. lia.
Qed.
(** After all of them: every lane holds a least element of its own. *)
Definition lane_min (l : nat) (p : Z * Z) : Prop :=
  exists i, (i < n)%nat /\ p = (Z.of_nat i, v i) /\ forall j, (j < n)%nat -> (j mod 4 = l)%nat -> v i <= v j.
Definition lane_mins (ps : list (Z * Z)) : Prop := length ps = 4%nat /\ forall l p, ps !! l = Some p -> lane_min l p.

Lemma lane_of j : exists k, j = (4 * k + j mod 4)%nat.
Proof. exists (j / 4)%nat. apply Nat.div_mod_eq. Qed.

Lemma cands_all R ps : (4 * R = n)%nat -> (0 < R)%nat -> cands R ps -> lane_mins ps.
Proof.
  intros HR H0 [Hl Hp]. split; [done|]. intros l p Hlp. pose proof (lookup_lt_Some _ _ _ Hlp) as Hl4.
  destruct (Hp l p Hlp) as [[-> _]|(j & Hj & -> & Hmin)]; [lia|]. exists (4 * j + l)%nat. split_and!; [lia|done|].
  intros i Hi Hm. destruct (lane_of i) as [k Ek]. rewrite Hm in Ek. subst i. apply Hmin. lia.
Qed.

(** The last register, padded with [inf]. *)
Definition last_reg (off r : nat) : list (Z * Z) :=
  (fun l => (Z.of_nat (off + l), if decide (l < r)%nat then v (off + l)%nat else inf)) <$> seq 0 4.

Lemma cands_last R r ps : (4 * R + r = n)%nat -> (0 < r < 4)%nat -> (0 < R)%nat -> cands R ps ->
  lane_mins (zip_with pick ps (last_reg (4 * R) r)).
Proof.
  intros HR Hr H0 [Hl Hp]. split; [unfold last_reg; rewrite length_zip_with, length_fmap, length_seq; lia|].
  intros l p (p0 & q & -> & Hl0 & Hq)%lookup_zip_with_Some. apply list_lookup_fmap_Some in Hq as (i & -> & [-> Hi]%lookup_seq).
  rewrite Nat.add_0_l. destruct (decide (l < r)%nat) as [Hlr|Hlr].
  - destruct (cand_step R l p0 ltac:(lia) (Hp l p0 Hl0)) as [[? _]|(j & Hj & -> & Hmin)]; [lia|].
    exists (4 * j + l)%nat. split_and!; [lia|done|]. intros i Hin Hm. destruct (lane_of i) as [k Ek]. rewrite Hm in Ek. subst i.
    apply Hmin. lia.
  - destruct (Hp l p0 Hl0) as [[-> _]|(j & Hj & -> & Hmin)]; [lia|]. unfold pick. cbn [snd] in *.
    pose proof (Hv (4 * j + l)%nat ltac:(lia)). rewrite (proj2 (Z.leb_gt _ _)) by lia.
    exists (4 * j + l)%nat. split_and!; [lia|done|]. intros i Hin Hm. destruct (lane_of i) as [k Ek]. rewrite Hm in Ek. subst i.
    apply Hmin. lia.
Qed.

Lemma vals_last off r pad : (r <= 4)%nat ->
  vals_of (last_reg off r) = take r ((v <$> seq off r) ++ pad) ++ replicate (4 - r) inf.
Proof.
  clear Ha Hb Hc Hn Hv. intros Hr. rewrite take_app_length' by (rewrite length_fmap, length_seq; done). unfold last_reg.
  rewrite <- list_fmap_compose, (seq_at off). rewrite <- list_fmap_compose.
  replace 4%nat with (r + (4 - r))%nat at 1 by lia. rewrite seq_app, fmap_app. f_equal.
  - apply list_fmap_ext. intros ? l [-> Hl]%lookup_seq. unfold compose. cbn [snd]. by rewrite decide_True by lia.
  - apply list_eq. intros l. rewrite list_lookup_fmap. destruct (decide (l < 4 - r)%nat).
    + rewrite lookup_seq_lt, lookup_replicate_2 by lia. cbn. by rewrite decide_False by lia.
    + rewrite lookup_seq_ge, lookup_ge_None_2 by (rewrite ?length_replicate; lia). done.
Qed.

(** The last comparison, in memory. *)
Lemma least_lane r ps : filled v c n r -> lane_mins ps ->
  wp (foldM (fun (st : Z * Z) i =>
        let id := nth i (ids_of ps) 0 in
        let* ci := vget r (Z.to_nat id) in
        Ret (if ci <? st.2 then (id, ci) else st)) (0, inf) (seq 0 4))
    (fun '(ans, _) => exists i, (i < n)%nat /\ ans = Z.of_nat i /\ forall j, (j < n)%nat -> v i <= v j).
Proof.
  intros Hr [Hl Hp].
  apply (wp_for _ (fun k (st : Z * Z) => (k = 0%nat /\ st = (0, inf)) \/ exists i, (i < n)%nat /\ st = (Z.of_nat i, v i) /\
    forall j, (j < n)%nat -> (j mod 4 < k)%nat -> v i <= v j)).
  - by left.
  - intros l st Hk Hst. destruct (lookup_lt_is_Some_2 ps l) as [p Hlp]; [lia|]. cbn zeta.
    destruct (Hp l p Hlp) as (i & Hi & -> & Hmin).
    rewrite (nth_lookup_Some _ l 0 (Z.of_nat i)) by (rewrite list_lookup_fmap, Hlp; done). rewrite Nat2Z.id.
    rewrite (proj2 (vget_Ret r i (v i))); [|rewrite Hr; apply lookup_app_l_Some; rewrite list_lookup_fmap, lookup_seq_lt by lia; done].
    cbn [bind wp]. right. destruct Hst as [[-> ->]|(i0 & Hi0 & -> & Hmin0)]; cbn [snd].
    + pose proof (Hv i Hi). rewrite (proj2 (Z.ltb_lt _ _)) by lia. exists i. split_and!; [done|done|].
      intros j Hj Hm. apply Hmin; [done|lia].
    + destruct (Z.ltb_spec (v i) (v i0)) as [Hlt|Hge]; [exists i|exists i0]; (split_and!; [done|done|]); intros j Hj Hm;
        (destruct (decide (j mod 4 = l)%nat); [specialize (Hmin j Hj ltac:(done))|specialize (Hmin0 j Hj ltac:(lia))]); lia.
  - intros [ans m] [[? _]|(i & Hi & [= -> ->] & Hmin)]; [lia|]. exists i. split_and!; [done|done|].
    intros j Hj. apply Hmin; [done|]. apply Nat.mod_upper_bound. lia.
Qed.

Lemma argmin_neon_least : (4 <= n)%nat ->
  wp (fvec_madd_and_argmin_neon inf n a bf b c) (fun '(r, ans) => filled v c n r /\
    exists i, (i < n)%nat /\ ans = Z.of_nat i /\ forall j, (j < n)%nat -> v i <= v j).
Proof.
  intros H4. unfold fvec_madd_and_argmin_neon. apply wp_bind.
  eapply wp_mono; [apply (strips_16_8_4_spec (fun off (st : list Z * (list Z * list Z)) => filled v c off st.1 /\
    exists R ps, (off = 4 * R)%nat /\ st.2 = (ids_of ps, vals_of ps) /\ cands R ps))|].
  { split; [done|]. exists 0%nat, (replicate 4 (0, inf)). split_and!; [done|done|]. split; [done|].
    intros l p [-> Hl]%lookup_replicate. by left. }
  { intros k off [r iv] Hk Ho (Hr & R & ps & E & Hiv & Hps). cbn [fst snd] in *. subst iv.
    rewrite !vld1_x_ok by lia. cbn [bind]. rewrite (strip_values a b bf n) by done. apply wp_bind.
    eapply wp_mono; [apply (storeu_filled v c off (4 * k)); [lia|done|apply concat_next]|]. intros r' Hr'. cbn [wp fst snd].
    split; [done|]. destruct (strip_picks off R k ps E Ho Hps) as (ps' & -> & Hps').
    exists (R + k)%nat, ps'. split_and!; [lia|done|done]. }
  intros [[off r] [t iv]] (Ho & Hr & Ht & R & ps & -> & Hiv & Hps). cbn [fst snd] in *. subst iv.
  assert (0 < R)%nat as HR by lia.
  assert (forall t ps, filled v c n t -> lane_mins ps -> wp
    (let* (ans_, _) := foldM (fun (st : Z * Z) i =>
        let id := nth i (fst (ids_of ps, vals_of ps)) 0%Z in
        let* ci := vget t (Z.to_nat id) in
        Ret (if nltb ci (snd st) then (id, ci) else st)) (0%Z, inf) (seq 0 4) in Ret (t, ans_))
    (fun '(r, ans) => filled v c n r /\ exists i, (i < n)%nat /\ ans = Z.of_nat i /\ forall j, (j < n)%nat -> v i <= v j)) as Hfin.
  { intros u qs Hu Hqs. apply wp_bind. eapply wp_mono; [by apply (least_lane u qs)|]. intros [ans m] Hans. by split. }
  destruct (Nat.ltb_spec 0 r) as [H0|H0].
  - destruct (rest_values a b bf n Ha Hb (4 * R) r Hr Ho) as (a_ & b_ & pad & -> & -> & E & Hpad). cbn [bind]. rewrite E. apply wp_bind.
    apply wp_bind. eapply wp_mono; [by apply (store_rest a b c bf n)|]. intros u Hu. cbn [wp].
    rewrite (take_less_picks _ 0 _ ps (last_reg (4 * R) r)); [|apply Hps|done|apply vals_last; lia| |lia].
    + apply Hfin; [done|]. apply cands_last; [done|lia|done|done].
    + unfold last_reg. rewrite <- list_fmap_compose. apply list_fmap_ext. intros ? l _. unfold compose. cbn [fst]. f_equal. lia.
  - cbn [bind]. apply Hfin; [by replace n with (4 * R)%nat by lia|]. apply (cands_all R); [lia|done|done].
Qed.
End argmin.

(** Fewer than four elements: the candidates of the lanes without an element lie
    behind the array. *)
Lemma foldM_reaches {S} (f : S -> nat -> M S) l i s : i ∈ l -> (forall t, f t i = Undef) ->
  (forall t j, f t j = Undef \/ exists t', f t j = Ret t') -> foldM f s l = Undef.
Proof.
  intros Hi Hu Hall. revert s. induction l as [|j l IH]; intros s; [by apply elem_of_nil in Hi|]. cbn [foldM].
  apply elem_of_cons in Hi as [<-|Hi]; [by rewrite Hu|]. destruct (Hall s j) as [->|[t ->]]; [done|]. cbn [bind]. by apply IH.
Qed.

Lemma vget_cases {B} (l : list B) i : vget l i = Undef \/ exists e, vget l i = Ret e.
Proof. unfold vget. destruct (l !! i); eauto. Qed.

Lemma reads_behind r ids n : length r = n -> (n < 4)%nat -> nth n ids 0 = Z.of_nat n ->
  (forall inf, foldM (fun (st : Z * Z) i =>
      let id := nth i ids 0 in
      let* ci := vget r (Z.to_nat id) in
      Ret (if ci <? st.2 then (id, ci) else st)) (0, inf) (seq 0 4) = Undef).
Proof.
  intros Hr Hn Hi inf. apply (foldM_reaches _ _ n).
  - apply elem_of_seq. lia.
  - intros t. cbn zeta. rewrite Hi, Nat2Z.id. unfold vget. by rewrite lookup_ge_None_2 by lia.
  - intros t j. cbn zeta. destruct (vget_cases r (Z.to_nat (nth j ids 0))) as [->|[e ->]]; [by left|right; by eexists].
Qed.

Lemma argmin_neon_behind inf n a b c bf : (n < 4)%nat -> length c = n -> (n <= length a)%nat -> (n <= length b)%nat ->
  fvec_madd_and_argmin_neon inf n a bf b c = Undef.
Proof.
  intros Hn Hc Ha Hb. unfold fvec_madd_and_argmin_neon.
  assert (forall T (add : nat -> nat -> T -> M T) s, strips_16_8_4 add n s = Ret (0%nat, n, s)) as ->.
  { intros. destruct n as [|[|[|[|n]]]]; [done|done|done|done|lia]. }
  cbn [bind]. destruct (Nat.ltb_spec 0 n) as [H0|H0].
  - destruct (rest_values a b bf n Ha Hb 0 n Hn eq_refl) as (a_ & b_ & pad & -> & -> & E & Hpad). cbn [bind]. rewrite E.
    destruct (wp_elim _ _ (store_rest a b c bf n Ha Hb ltac:(lia) 0%nat n pad c eq_refl eq_refl)) as (r & -> & Hr). cbn [bind].
    change (replicate 4 0, replicate 4 inf) with (ids_of (replicate 4 (0, inf)), vals_of (replicate 4 (0, inf))).
    rewrite (take_less_picks 0 0 _ _ (last_reg a b bf inf 0 n)); [|done|done|apply vals_last; lia|done|lia].
    cbn [bind]. cbn [fst]. cbn [nltb Z_num].
    rewrite (reads_behind r _ n); [done| |done|].
    + rewrite Hr. unfold filled. rewrite length_app, length_fmap, length_seq, length_drop. lia.
    + destruct n as [|[|[|[|n]]]]; [lia| | | |lia]; cbn; unfold pick; cbn [snd]; by rewrite Z.leb_refl.
  - cbn [bind fst nltb Z_num]. rewrite (reads_behind c _ n); [done|done|done|]. by replace n with 0%nat by lia.
Qed.

(** * The NEON kernels on [int8_t]

    The lanes are 32-bit and wrap around; a sum that fits 32 bits comes out
    exact whatever its lanes went through.  The strip of four elements loads
    eight, so that vectors whose dimension leaves four to seven elements behind
    a multiple of eight are read beyond their end. *)

(** ** Equality up to a multiple of 2^32 *)

Definition cong (s t : Z) : Prop := exists k, s = t + k * 4294967296.

Lemma cong_refl t : cong t t.
Proof. exists 0. lia. Qed.
Lemma cong_trans s t u : cong s t -> cong t u -> cong s u.
Proof. intros [k ->] [l ->]. exists (k + l). lia. Qed.
Lemma cong_add s s' t t' : cong s s' -> cong t t' -> cong (s + t) (s' + t').
Proof. intros [k ->] [l ->]. exists (k + l). lia. Qed.
Lemma cong_mul s s' t t' : cong s s' -> cong t t' -> cong (s * t) (s' * t').
Proof. intros [k ->] [l ->]. exists (s' * l + t' * k + k * l * 4294967296). ring. Qed.
Lemma cong_wrap z : cong (wrap_s32 z) z.
Proof.
  exists (- ((z + 2147483648) / 4294967296)). unfold wrap_s32. change (2 ^ 31) with 2147483648. change (2 ^ 32) with 4294967296.
  pose proof (Z.div_mod (z + 2147483648) 4294967296). lia.
Qed.

Lemma wrap_cong z t : cong z t -> - 2 ^ 31 <= t < 2 ^ 31 -> wrap_s32 z = t.
Proof.
  intros [k ->] H. unfold wrap_s32. change (2 ^ 31) with 2147483648 in *. change (2 ^ 32) with 4294967296.
  replace (t + k * 4294967296 + 2147483648) with (t + 2147483648 + k * 4294967296) by lia.
  rewrite Z.mod_add, Z.mod_small by lia. lia.
Qed.

(** Registers whose lanes are equal up to multiples of 2^32. *)
Definition congs : list Z -> list Z -> Prop := Forall2 cong.

Lemma congs_zip (g h : Z -> Z -> Z) a b a' b' : (forall s t s' t', cong s s' -> cong t t' -> cong (g s t) (h s' t')) ->
  congs a a' -> congs b b' -> congs (zip_with g a b) (zip_with h a' b').
Proof.
  intros Hg Ha. revert b b'. induction Ha as [|s s' a a' Hs Ha IH]; intros b b' Hb; [constructor|].
  destruct Hb as [|t t' b b' Ht Hb]; [constructor|]. cbn. constructor; [by apply Hg|by apply IH].
Qed.

Lemma congs_refl a : congs a a.
Proof. apply Forall2_same_length_lookup. split; [done|]. intros i s t Hs Ht. rewrite Hs in Ht. injection Ht as ->. apply cong_refl. Qed.

Lemma vaddq_congs a b a' b' : congs a a' -> congs b b' -> congs (vaddq_s32 a b) (vadd a' b').
Proof.
  apply congs_zip. intros s t s' t' Hs Ht. eapply cong_trans; [apply cong_wrap|]. by apply cong_add.
Qed.

(** ** One vector against one *)

Definition exact_terms (term : list Z -> list Z -> list Z) (f : Z -> Z -> Z) : Prop :=
  forall a b, congs (term a b) (zip_with f a b).

Lemma ip_s32_exact : exact_terms ip_s32 ip_lane.
Proof.
  intros a b. apply congs_zip; [|apply congs_refl..]. intros s t s' t' Hs Ht.
  eapply cong_trans; [apply cong_wrap|]. by apply cong_mul.
Qed.

Lemma l2_s32_exact : exact_terms l2_s32 l2_lane.
Proof.
  intros a b. unfold l2_s32, vmulq_s32, vsubq_s32. revert b.
  induction a as [|s a IH]; intros [|t b]; try constructor; [|apply IH].
  eapply cong_trans; [apply cong_wrap|]. apply cong_mul; apply cong_wrap.
Qed.

Section int8.
Context (term : list Z -> list Z -> list Z) (step : Z -> Z -> Z -> M Z) (f : Z -> Z -> Z) (b : Z).
Hypothesis Hterm : exact_terms term f.
Hypothesis Hb : 0 < b.
Hypothesis Hf : forall u v, is_int8 u -> is_int8 v -> Z.abs (f u v) <= b.
Hypothesis Hstep : forall s u v, is_int8 u -> is_int8 v -> - 2 ^ 31 <= s + f u v < 2 ^ 31 -> step s u v = Ret (s + f u v).
Context (d : nat).
Hypothesis Hd : Z.of_nat d * b < 2 ^ 31.

(** The elements the strip of four reads exist. *)
Definition readable (p : list Z) : Prop := operand d p /\ ((4 <= d mod 8)%nat -> (d / 8 * 8 + 8 <= length p)%nat).

(** A strip of [4 n] elements may load [w]. *)
Definition loads (off w n : nat) : Prop :=
  (n = 1 \/ n = 2 \/ n = 4)%nat /\ (4 * n <= w)%nat /\ (off + 4 * n <= d)%nat /\
  ((off + w <= d)%nat \/ ((4 <= d mod 8)%nat /\ off + w = d / 8 * 8 + 8)%nat).

Lemma loads_readable p off w n : loads off w n -> readable p -> (off + w <= length p)%nat.
Proof. clear -p. intros (_ & _ & _ & [H|[H1 H2]]) [[_ Hp] Hr]; [lia|]. specialize (Hr H1). lia. Qed.

Lemma strips_s8_spec {S} (Inv : nat -> S -> Prop) (add : nat -> nat -> nat -> S -> M S) s :
  Inv 0%nat s -> (forall w n off t, loads off w n -> Inv off t -> wp (add w n off t) (Inv (off + 4 * n)%nat)) ->
  wp (strips_s8 add d s) (fun '(off, r, t) => (off + r = d)%nat /\ (r < 4)%nat /\ Inv off t).
Proof.
  clear -S. intros H0 Ha. unfold strips_s8. pose proof (Nat.div_mod_eq d 8) as Hdiv.
  pose proof (Nat.mod_upper_bound d 8 ltac:(lia)) as Hmod. apply wp_bind.
  set (I := fun off t => Inv off t /\ exists k, off = (8 * k)%nat).
  eapply wp_mono; [apply (strips_spec I d 16); [lia|lia|lia|by split; [|exists 0%nat]|]|].
  { intros o t Ho [Ht [k ->]]. eapply wp_mono; [apply (Ha 16 4)%nat; [unfold loads; lia|done]|].
    intros u Hu. split; [done|]. exists (k + 2)%nat. lia. }
  intros [[o r] t] (Hr & Hlt & Ht). apply wp_bind.
  eapply wp_mono; [apply (strip_if_spec I d 8); [done|done|]|].
  { intros u Ho [Hu [k ->]]. eapply wp_mono; [apply (Ha 8 2)%nat; [unfold loads; lia|done]|].
    intros z Hz. split; [done|]. exists (k + 1)%nat. lia. }
  clear t Ht. intros [[o2 r2] t] (Hr2 & Hlt2 & Ht & k & ->). specialize (Hlt2 ltac:(lia)).
  assert (d / 8 = k)%nat as Hk by lia. assert (d mod 8 = r2)%nat as Hm by lia.
  eapply wp_mono; [apply (strip_if_spec Inv d 4); [done|done|]|].
  { intros u Ho Hu. apply (Ha 8 1)%nat; [unfold loads; lia|done]. }
  intros [[o3 r3] t3] (Hr3 & Hlt3 & Ht3). split_and!; [done|lia|done].
Qed.

Lemma widen_s8_ok p off w n : loads off w n -> readable p ->
  widen_s8 w n (drop off p) = Ret (chunks n (slice off (off + 4 * n) p)).
Proof.
  intros Hl Hp. pose proof (loads_readable p off w n Hl Hp) as Ho. destruct Hl as (_ & Hw & _). clear -Ho Hw.
  unfold widen_s8. rewrite loadu_ok by done. cbn [bind]. unfold chunks. f_equal. apply list_fmap_ext.
  intros ? k [-> Hk]%lookup_seq. rewrite !HNSW.slice_slice by lia. done.
Qed.

(** A register of sums, exact up to multiples of 2^32. *)
Definition sums (T : list Z) (off : nat) (s : list Z) : Prop := exists e, congs s e /\ holds 4 T off e.

Lemma sums_zero T : sums T 0 (replicate 4 0).
Proof. clear. exists (replicate 4 0). split; [apply congs_refl|]. apply holds_zero. Qed.

Lemma add_s32_sums x y off w n s : loads off w n -> readable x -> readable y -> sums (zip_with f x y) off s ->
  exists u v, widen_s8 w n (drop off x) = Ret u /\ widen_s8 w n (drop off y) = Ret v /\
    sums (zip_with f x y) (off + 4 * n) (add_s32 term u v s).
Proof.
  intros Hld Hx Hy (e & He & [Hl Ht]). eexists _, _.
  split; [by apply widen_s8_ok|]. split; [by apply widen_s8_ok|]. destruct Hld as (Hn & _ & Ho & _).
  destruct Hx as [[_ Hx] _], Hy as [[_ Hy] _]. clear -He Hl Ht Hn Ho Hx Hy Hterm.
  destruct (chunk_terms f n (slice off (off + 4 * n) x) (slice off (off + 4 * n) y)) as (_ & H4 & Hs);
    [done|rewrite length_slice; lia|rewrite length_slice; lia|].
  exists (foldl vadd e (zip_with (zip_with f) (chunks n (slice off (off + 4 * n) x)) (chunks n (slice off (off + 4 * n) y)))). split.
  - unfold add_s32. generalize (chunks n (slice off (off + 4 * n) x)) (chunks n (slice off (off + 4 * n) y)).
    clear -He Hterm. intros u. revert s e He. induction u as [|r u IH]; intros s e He [|t v]; cbn; try done.
    apply IH. apply vaddq_congs; [done|apply Hterm].
  - destruct (foldl_sum _ e Hl H4) as (L & E & _). split; [done|]. rewrite E, Ht, Hs, <- slice_zip_with. symmetry.
    apply lanesum_slice. lia.
Qed.

(** The last strip, element by element. *)
Definition rest_sum (x y : list Z) (off r : nat) : Z := zsum f (drop off x) (drop off y) r.

Lemma total x y off r s : (off + r = d)%nat -> operand d x -> operand d y -> sums (zip_with f x y) off s ->
  i32 (vaddvq_s32 s + rest_sum x y off r) = Ret (zsum f x y d).
Proof.
  intros Ho Hx Hy (e & He & [Hl Ht]). pose proof Hx as [_ Hlx]. pose proof Hy as [_ Hly].
  unfold rest_sum. rewrite !zsum_lanesum by (rewrite ?length_drop; lia).
  assert (forall i j, (i <= j <= d)%nat -> - 2 ^ 31 < lanesum (slice i j (zip_with f x y)) < 2 ^ 31) as Hbound.
  { intros i j Hij. pose proof (terms_bound f b d Hf x y i j Hx Hy) as Hab. clear Hf Hstep Hterm.
    rewrite length_slice in Hab by (rewrite length_zip_with; lia). nia. }
  assert (vaddvq_s32 s = lanesum (take off (zip_with f x y))) as ->.
  { apply wrap_cong; [|specialize (Hbound 0%nat off ltac:(lia)); rewrite slice_0 in Hbound; lia].
    rewrite <- Ht. clear -He Hl. destruct e as [|e0 [|e1 [|e2 [|e3 [|]]]]]; try done.
    unfold congs in He. do 4 (apply Forall2_cons_inv_r in He as (? & ? & ? & He & ->)).
    apply Forall2_nil_inv_r in He as ->. unfold lanesum. cbn [nth foldr].
    replace (e0 + (e1 + (e2 + (e3 + 0)))) with (e0 + e1 + e2 + e3) by lia. by repeat apply cong_add. }
  rewrite <- zip_with_drop. replace (take r (drop off (zip_with f x y))) with (slice off d (zip_with f x y))
    by (unfold slice; f_equal; lia).
  rewrite <- lanesum_slice by lia. apply i32_ok. specialize (Hbound 0%nat d ltac:(lia)). rewrite slice_0 in Hbound. lia.
Qed.

Lemma rest_exact x y off r : (off + r = d)%nat -> operand d x -> operand d y ->
  int8_loop step (drop off x) (drop off y) r = Ret (rest_sum x y off r).
Proof.
  intros Ho [Hx Hlx] [Hy Hly].
  apply (int8_loop_exact step f b); [done|nia|rewrite length_drop; lia|rewrite length_drop; lia|by apply Forall_drop|by apply Forall_drop| |done].
  intros u v Hu Hv. specialize (Hf u v Hu Hv). lia.
Qed.

Lemma int8_neon_value x y : readable x -> readable y -> int8_neon term step x y d = Ret (zsum f x y d).
Proof.
  intros Hx Hy.
  match goal with |- ?m = Ret ?r => assert (wp m (fun q => q = r)) as E; [|by apply wp_elim in E as (? & -> & ->)] end.
  unfold int8_neon. apply wp_bind. eapply wp_mono; [apply (strips_s8_spec (sums (zip_with f x y))); [apply sums_zero|]|].
  - intros w n off s Hld Hs. destruct (add_s32_sums x y off w n s Hld Hx Hy Hs) as (u & v & -> & -> & H). done.
  - intros [[off r] s] (Ho & Hr & Hs). change (foldM _ 0 (seq 0 r)) with (int8_loop step (drop off x) (drop off y) r).
    rewrite rest_exact by (done || apply Hx || apply Hy). cbn [bind]. by rewrite total by (done || apply Hx || apply Hy).
Qed.

Lemma int8_batch_4_neon_value x y0 y1 y2 y3 : readable x -> Forall readable [y0; y1; y2; y3] ->
  let s y := F32.of_Z (zsum f x y d) in int8_batch_4_neon term step x y0 y1 y2 y3 d = Ret (s y0, s y1, s y2, s y3).
Proof.
  intros Hx (Hy0 & Hy1 & Hy2 & Hy3 & _)%Forall4 s.
  match goal with |- ?m = Ret ?r => assert (wp m (fun q => q = r)) as E; [|by apply wp_elim in E as (? & -> & ->)] end.
  unfold int8_batch_4_neon. apply wp_bind. set (I := fun y => sums (zip_with f x y)).
  eapply wp_mono; [apply (strips_s8_spec (fun off '(s0, s1, s2, s3) => I y0 off s0 /\ I y1 off s1 /\ I y2 off s2 /\ I y3 off s3));
    [split_and!; apply sums_zero|]|].
  - intros w n off [[[s0 s1] s2] s3] Hld (H0 & H1 & H2 & H3).
    destruct (add_s32_sums x y0 off w n s0 Hld Hx Hy0 H0) as (u & v0 & Eu & -> & K0),
      (add_s32_sums x y1 off w n s1 Hld Hx Hy1 H1) as (u1 & v1 & Eu1 & -> & K1),
      (add_s32_sums x y2 off w n s2 Hld Hx Hy2 H2) as (u2 & v2 & Eu2 & -> & K2),
      (add_s32_sums x y3 off w n s3 Hld Hx Hy3 H3) as (u3 & v3 & Eu3 & -> & K3).
    assert (u1 = u) as -> by congruence. assert (u2 = u) as -> by congruence. assert (u3 = u) as -> by congruence.
    rewrite Eu. cbn [bind wp]. split_and!; done.
  - intros [[off r] [[[s0 s1] s2] s3]] (Ho & Hr & H0 & H1 & H2 & H3). replace (d - r)%nat with off by lia.
    assert (foldM (fun (st : Z * Z * Z * Z) i =>
      let '(r0, r1, r2, r3) := st in
      let* val_x := vget x (off + i) in
      let* v0 := vget y0 (off + i) in let* r0 := step r0 val_x v0 in
      let* v1 := vget y1 (off + i) in let* r1 := step r1 val_x v1 in
      let* v2 := vget y2 (off + i) in let* r2 := step r2 val_x v2 in
      let* v3 := vget y3 (off + i) in let* r3 := step r3 val_x v3 in
      Ret (r0, r1, r2, r3)) (0, 0, 0, 0) (seq 0 r) =
      Ret (rest_sum x y0 off r, rest_sum x y1 off r, rest_sum x y2 off r, rest_sum x y3 off r)) as ->.
    { transitivity (loop4 step 0 (drop off x) (drop off y0) (drop off y1) (drop off y2) (drop off y3) r).
      - apply foldM_ext. intros [[[t0 t1] t2] t3] i Hi%elem_of_seq. rewrite <- !vget_drop.
        rewrite !vget_total by (rewrite length_drop; destruct Hx as [[_ ?] _], Hy0 as [[_ ?] _], Hy1 as [[_ ?] _], Hy2 as [[_ ?] _], Hy3 as [[_ ?] _]; lia).
        done.
      - apply loop4_single. split_and!; apply rest_exact; (done || apply Hx || apply Hy0 || apply Hy1 || apply Hy2 || apply Hy3). }
    cbn [bind]. rewrite !total by (done || apply Hx || apply Hy0 || apply Hy1 || apply Hy2 || apply Hy3). done.
Qed.

(** The scalar kernels compute the same sums. *)
Lemma loop_exact x y : readable x -> readable y -> int8_loop step x y d = Ret (zsum f x y d).
Proof. intros [Hx _] [Hy _]. by apply (rest_exact x y 0 d). Qed.

Lemma int8_neon_agrees x y : readable x -> readable y -> int8_neon term step x y d = int8_loop step x y d.
Proof. intros Hx Hy. by rewrite int8_neon_value, loop_exact. Qed.

Lemma int8_batch_4_neon_agrees x y0 y1 y2 y3 : readable x -> Forall readable [y0; y1; y2; y3] ->
  int8_batch_4_neon term step x y0 y1 y2 y3 d = int8_batch_4 step x y0 y1 y2 y3 d.
Proof.
  intros Hx Hy. rewrite int8_batch_4_neon_value by done. symmetry. apply (int8_batch_ref step f).
  intros q Hq. apply loop_exact; [done|]. by eapply Forall_forall in Hy.
Qed.
End int8.

(** ** Vectors that end with the last element *)

Lemma strips_s8_overread {S} (add : nat -> nat -> nat -> S -> M S) d s : (4 <= d mod 8)%nat ->
  (forall w n off t, (off + w <= d)%nat -> wp (add w n off t) (fun _ => True)) ->
  (forall off t, (off < d < off + 8)%nat -> add 8%nat 1%nat off t = Undef) ->
  strips_s8 add d s = Undef.
Proof.
  intros Hm Hok Hover. pose proof (Nat.div_mod_eq d 8) as Hdiv. pose proof (Nat.mod_upper_bound d 8 ltac:(lia)) as Hmod.
  unfold strips_s8. set (I := fun off (_ : S) => exists k, off = (8 * k)%nat).
  destruct (wp_elim _ _ (strips_spec I d 16 (add 16 4)%nat d 0 d s ltac:(lia) ltac:(lia) ltac:(lia) (ex_intro _ 0%nat eq_refl)
    ltac:(intros o t Ho [k ->]; eapply wp_mono; [apply Hok; lia|]; intros u _; exists (k + 2)%nat; lia)))
    as ([[o r] t] & -> & Hr & Hlt & Ht). cbn [bind].
  destruct (wp_elim _ _ (strip_if_spec I d 8 (add 8 2)%nat o r t Hr Ht
    ltac:(intros u Ho [k ->]; eapply wp_mono; [apply Hok; lia|]; intros z _; exists (k + 1)%nat; lia)))
    as ([[o2 r2] t2] & -> & Hr2 & Hlt2 & [k ->]). cbn [bind]. specialize (Hlt2 ltac:(lia)).
  cbn [strip_if]. rewrite (proj2 (Nat.leb_le 4 r2)) by lia. by rewrite Hover by lia.
Qed.

Lemma widen_s8_some w n p off : (off + w <= length p)%nat -> exists r, widen_s8 w n (drop off p) = Ret r.
Proof. intros H. unfold widen_s8. rewrite loadu_ok by done. by eexists. Qed.

Lemma widen_s8_over n p off : (length p < off + 8)%nat -> widen_s8 8 n (drop off p) = Undef.
Proof.
  intros H. unfold widen_s8, loadu. by rewrite (proj2 (Nat.leb_gt _ _)) by (rewrite length_drop; lia).
Qed.

Lemma int8_neon_overread term step x y d : length x = d -> length y = d -> (4 <= d mod 8)%nat ->
  int8_neon term step x y d = Undef.
Proof.
  intros Hx Hy Hm. unfold int8_neon. rewrite strips_s8_overread; [done|done| |].
  - intros w n off t Ho. destruct (widen_s8_some w n x off) as [u ->]; [lia|].
    destruct (widen_s8_some w n y off) as [v ->]; [lia|]. done.
  - intros off t Ho. by rewrite widen_s8_over by lia.
Qed.

Lemma int8_batch_4_neon_overread term step x y0 y1 y2 y3 d : Forall (fun p => length p = d) [x; y0; y1; y2; y3] -> (4 <= d mod 8)%nat ->
  int8_batch_4_neon term step x y0 y1 y2 y3 d = Undef.
Proof.
  rewrite !Forall_cons. intros (Hx & Hy0 & Hy1 & Hy2 & Hy3 & _) Hm. unfold int8_batch_4_neon.
  rewrite strips_s8_overread; [done|done| |].
  - intros w n off [[[s0 s1] s2] s3] Ho. destruct (widen_s8_some w n x off) as [u ->]; [lia|].
    destruct (widen_s8_some w n y0 off) as [v0 ->]; [lia|]. destruct (widen_s8_some w n y1 off) as [v1 ->]; [lia|].
    destruct (widen_s8_some w n y2 off) as [v2 ->]; [lia|]. destruct (widen_s8_some w n y3 off) as [v3 ->]; [lia|]. done.
  - intros off [[[s0 s1] s2] s3] Ho. by rewrite widen_s8_over by lia.
Qed.

(** ** The two steps *)

Lemma ip_step_exact s u v : is_int8 u -> is_int8 v -> - 2 ^ 31 <= s + ip_lane u v < 2 ^ 31 -> int8_ip s u v = Ret (s + ip_lane u v).
Proof. unfold is_int8, ip_lane. intros Hu Hv Hs. unfold int8_ip. rewrite (i32_ok (u * v)) by nia. by apply i32_ok. Qed.

Lemma l2_step_exact s u v : is_int8 u -> is_int8 v -> - 2 ^ 31 <= s + l2_lane u v < 2 ^ 31 -> int8_l2 s u v = Ret (s + l2_lane u v).
Proof.
  unfold is_int8, l2_lane. intros Hu Hv Hs. unfold int8_l2. rewrite (i32_ok (u - v)) by nia. cbn [bind].
  rewrite (i32_ok ((u - v) * (u - v))) by nia. by apply i32_ok.
Qed.
