(* ===== verification/NeonSpec.v ===== *)
(** * What the NEON kernels promise

    The kernels of [distances_neon.cc] against the scalar reference kernels. *)

From S2P Require Import Prelude Float Num Bitset MemoryIO Operands Distances DistanceProps Rvv RvvKernels RvvProps.
From S2P Require Import RvvColumns Simd SimdProps AvxProps SseProps X86Spec Neon NeonInt8 NeonProps.

#[local] Open Scope Z_scope.

(** ** Kernels on [float] and on 16-bit elements *)

Section batches.
Context {B : Type} (wid : B -> Z) (load : nat -> list B -> M (list (list Z))) (rest : list B -> nat -> nat -> M (list Z)).
Context `{HL : !Loader wid load rest} (x y0 y1 y2 y3 : list B) (d : nat).
Hypothesis Hx : (d <= length x)%nat.
Hypothesis Hy : Forall (fun p => (d <= length p)%nat) [y0; y1; y2; y3].

Lemma neon_batch_ref step refstep f : adds_regs step f -> f 0 0 = 0 -> (forall r u v, refstep r u v = r + f u v) ->
  neon_batch_4 load rest step x y0 y1 y2 y3 d =
  batch_4 (fun v => v) refstep (wid <$> x) (wid <$> y0) (wid <$> y1) (wid <$> y2) (wid <$> y3) d.
Proof.
  intros Hs Hz Hr. pose proof Hy as (H0 & H1 & H2 & H3 & _)%Forall4.
  rewrite (neon_batch_value wid load rest step f) by done. symmetry. apply (batch_ref_value refstep f); rewrite ?length_fmap; done.
Qed.
End batches.

(** ** Multiply-add and argmin *)

(** The NEON multiply-add writes the reference's values on every length, and
    on four or more elements below the initial minimum its argmin variant
    returns the position of a least one.  On fewer than four elements, in an
    array that ends with the last one, it compares a candidate behind the end. *)
Theorem neon_madd_and_argmin (a b c : list Z) (bf inf : Z) (n : nat) :
  (n <= length a)%nat -> (n <= length b)%nat -> (n <= length c)%nat ->
  fvec_madd_neon n a bf b c = fvec_madd_ref n a bf b c /\
  ((4 <= n)%nat -> Z.of_nat n + 4 <= 2 ^ 32 -> (forall i, (i < n)%nat -> a !!! i + bf * b !!! i < inf) ->
   exists r i, fvec_madd_and_argmin_neon inf n a bf b c = Ret (r, Z.of_nat i) /\ fvec_madd_ref n a bf b c = Ret r /\
     (i < n)%nat /\ forall j, (j < n)%nat -> a !!! i + bf * b !!! i <= a !!! j + bf * b !!! j) /\
  ((n < 4)%nat -> length c = n -> fvec_madd_and_argmin_neon inf n a bf b c = Undef).
Proof.
  intros Ha Hb Hc. destruct (wp_elim _ _ (madd_ref_filled a b c bf n Ha Hb Hc)) as (r & Er & Hr).
  destruct (wp_elim _ _ (madd_neon_filled a b c bf n Ha Hb Hc)) as (r' & Er' & Hr').
  split_and!.
  - rewrite Er, Er', Hr, Hr'. done.
  - intros H4 Hn Hv. destruct (wp_elim _ _ (argmin_neon_least a b c bf inf n Ha Hb Hc Hn Hv H4)) as ([q ans] & -> & Hq & i & Hi & -> & Hmin).
    exists q, i. rewrite Er, Hr, Hq. done.
  - intros H4 Hl. by apply argmin_neon_behind.
Qed.

Lemma neon_madd_and_argmin_witness :
  (exists i, fvec_madd_and_argmin_neon 100 5 [3; 2; 5; 4; 1] 1 [1; 1; 1; 1; 1] [0; 0; 0; 0; 0] = Ret ([4; 3; 6; 5; 2], Z.of_nat i) /\
     i = 4%nat) /\
  fvec_madd_and_argmin_neon 100 1 [3] 1 [1] [0] = Undef.
Proof.
  split.
  - destruct (neon_madd_and_argmin [3; 2; 5; 4; 1] [1; 1; 1; 1; 1] [0; 0; 0; 0; 0] 1 100 5) as (_ & H & _); [simpl; lia..|].
    destruct H as (r & i & E & Er & Hi & Hmin); [lia|lia| |].
    + intros i Hi. destruct i as [|[|[|[|[|i]]]]]; cbn; lia.
    + exists i. rewrite E. cbn in Er. injection Er as <-. split; [done|]. specialize (Hmin 4%nat ltac:(lia)).
      destruct i as [|[|[|[|[|i]]]]]; cbn in Hmin; lia.
  - destruct (neon_madd_and_argmin [3] [1] [0] 1 100 1) as (_ & _ & H); [simpl; lia..|]. apply H; [lia|done].
Defined.

(** ** The kernels together *)

(** C26: the NEON kernels on [float] and on 16-bit elements against the scalar
    kernels, on every dimension.  In exact arithmetic these terminate and return
    what the scalar kernels return: inner product, squared L2 and L1 distance,
    squared norm and batches of four, on [float] and on converted 16-bit
    elements; inner products and squared distances of one vector and many rows
    (with the variants for dimensions 1, 2 and 4), the nearest row, and the
    multiply-add.  The multiply-add with argmin writes the same array and, on
    four or more elements below infinity, returns a position of a least one; on
    fewer than four elements it compares a value behind the end of the array.
    On binary32 numbers the Linf distance is the scalar one when no difference
    is NaN, and the kernels of the bf16 patch are the plain ones on a rounded
    candidate. *)
Theorem neon_kernels_match_reference (x y y0 y1 y2 y3 dis : list Z) (d ny : nat) (widen : Z -> Z) (u w w0 w1 w2 w3 : list spec_float) :
  (d <= length x)%nat -> widen 0 = 0 ->
  ((d <= length y)%nat ->
   fvec_inner_product_neon x y d = fvec_inner_product_ref x y d /\ fvec_L2sqr_neon x y d = fvec_L2sqr_ref x y d /\
   fvec_L1_neon x y d = fvec_L1_ref x y d /\ fvec_norm_L2sqr_neon x d = fvec_norm_L2sqr_ref x d /\
   half_ip_neon widen x y d = half_inner_product widen x y d /\ half_L2sqr_neon widen x y d = half_L2sqr widen x y d /\
   half_norm_neon widen x d = norm_L2sqr widen x d) /\
  ((ny * d <= length y)%nat -> (ny <= length dis)%nat ->
   fvec_inner_products_ny_neon dis x y d ny = fvec_inner_products_ny_ref dis x y d ny /\
   fvec_L2sqr_ny_neon dis x y d ny = fvec_L2sqr_ny_ref dis x y d ny /\
   forall huge, fvec_L2sqr_ny_nearest_neon huge dis x y d ny = fvec_L2sqr_ny_nearest_ref huge dis x y d ny) /\
  (Forall (fun p => (d <= length p)%nat) [y0; y1; y2; y3] ->
   fvec_inner_product_batch_4_neon x y0 y1 y2 y3 d = fvec_inner_product_batch_4_ref x y0 y1 y2 y3 d /\
   fvec_L2sqr_batch_4_neon x y0 y1 y2 y3 d = fvec_L2sqr_batch_4_ref x y0 y1 y2 y3 d /\
   half_ip_batch_4_neon widen x y0 y1 y2 y3 d = batch_4 widen ip_step x y0 y1 y2 y3 d /\
   half_L2sqr_batch_4_neon widen x y0 y1 y2 y3 d = batch_4 widen l2_step x y0 y1 y2 y3 d /\
   half_L2sqr_batch_4_to_neon widen x y0 y1 y2 y3 d = batch_4 widen l2_step x y0 y1 y2 y3 d) /\
  (forall a b c bf inf n, (n <= length a)%nat -> (n <= length b)%nat -> (n <= length c)%nat ->
   fvec_madd_neon n a bf b c = fvec_madd_ref n a bf b c /\
   ((4 <= n)%nat -> Z.of_nat n + 4 <= 2 ^ 32 -> (forall i, (i < n)%nat -> a !!! i + bf * b !!! i < inf) ->
    exists r i, fvec_madd_and_argmin_neon inf n a bf b c = Ret (r, Z.of_nat i) /\ fvec_madd_ref n a bf b c = Ret r /\
      (i < n)%nat /\ forall j, (j < n)%nat -> a !!! i + bf * b !!! i <= a !!! j + bf * b !!! j) /\
   ((n < 4)%nat -> length c = n -> fvec_madd_and_argmin_neon inf n a bf b c = Undef)) /\
  ((d <= length u)%nat -> (d <= length w)%nat -> Forall (fun t => is_nan t = false) (zip_with F32.sub (take d u) (take d w)) ->
   fvec_Linf_neon u w d = fvec_Linf_ref u w d) /\
  (let r p := bf16_float <$> p in
   fvec_inner_product_bf16_patch_neon u w d = fvec_inner_product_neon u (r w) d /\
   fvec_L2sqr_bf16_patch_neon u w d = fvec_L2sqr_neon u (r w) d /\
   fvec_inner_product_batch_4_bf16_patch_neon u w0 w1 w2 w3 d = fvec_inner_product_batch_4_neon u (r w0) (r w1) (r w2) (r w3) d /\
   fvec_L2sqr_batch_4_bf16_patch_neon u w0 w1 w2 w3 d = fvec_L2sqr_batch_4_neon u (r w0) (r w1) (r w2) (r w3) d).
Proof.
  intros Hx Hz. refine (conj _ (conj _ (conj _ (conj _ (conj _ _))))).
  - intros Hy. rewrite ip_neon_value, l2_neon_value, l1_neon_value, norm_neon_value by done.
    rewrite half_ip_neon_value, half_l2_neon_value, half_norm_neon_value by done.
    rewrite fvec_norm_ref_ip, half_ip_loaded, half_l2_loaded, norm_ref_ip.
    by rewrite !ip_ref_value, !l2_ref_value, l1_ref_value by (rewrite ?length_fmap; done).
  - intros Hy Hd. rewrite ip_rows, ny_neon_l2 by done. split_and!; [done|done|]. intros huge.
    unfold fvec_L2sqr_ny_nearest_neon, fvec_L2sqr_ny_nearest_ref. rewrite ny_neon_l2 by done.
    destruct (fvec_L2sqr_ny_ref dis x y d ny); try done.
    cbn [bind]. unfold nearest_scan. match goal with |- bind ?m _ = _ => by destruct m as [[? ?]| |] end.
  - intros Hy. pose proof (half_loader widen Hz) as Hld.
    pose proof (neon_batch_ref (fun v : Z => v) vld1_x (lanes_rest 0) x y0 y1 y2 y3 d Hx Hy) as Hf. rewrite !list_fmap_id in Hf.
    rewrite !(batch_loaded widen). pose proof (neon_batch_ref widen (cvt_n widen) (cvt_rest_neon widen) x y0 y1 y2 y3 d Hx Hy) as Hh.
    refine (conj _ (conj _ (conj _ (conj _ _)))).
    + apply (Hf _ _ Z.mul); [by apply add_folded_adds|done|done].
    + apply (Hf _ _ sq); [by apply add_folded_adds, l2_regs_sq|done|done].
    + apply (Hh _ _ Z.mul); [by apply add_each_adds|done|done].
    + apply (Hh _ _ sq); [by apply add_each_adds, l2_regs_sq|done|done].
    + apply (Hh _ _ sq); [by apply add_each_adds, l2_regs_sq|done|done].
  - intros a b c bf inf n. apply neon_madd_and_argmin.
  - intros Hu Hw Hn. by apply linf_neon_value; [..|apply diffs_mag].
  - intros r. unfold fvec_inner_product_bf16_patch_neon, fvec_L2sqr_bf16_patch_neon. rewrite !patched_terms.
    refine (conj eq_refl (conj eq_refl (conj _ _))); apply patched_batch.
Qed.

Lemma neon_kernels_match_reference_witness :
  fvec_L1_neon [1; 2; 3; 4; 5] [4; 0; 6; 4; 7] 5 = Ret 10 /\
  fvec_L2sqr_ny_neon [0; 0; 0] [1; 2] [4; 5; 1; 1; 1; 2] 2 3 = Ret [18; 1; 0] /\
  half_L2sqr_batch_4_to_neon (fun v => v / 2) [2; 4] [2; 4] [0; 0] [4; 4] [6; 6] 2 = Ret (0, 5, 1, 5) /\
  fvec_Linf_neon (F32.of_Z <$> [1; 5; 2]) (F32.of_Z <$> [2; 1; 9]) 3 = Ret (F32.of_Z 7).
Proof.
  refine (conj _ (conj _ (conj _ _))).
  - destruct (neon_kernels_match_reference [1; 2; 3; 4; 5] [4; 0; 6; 4; 7] [] [] [] [] [] 5 0 (fun v => v) [] [] [] [] [] []
      ltac:(simpl; lia) eq_refl) as ((_ & _ & E & _) & _); [simpl; lia|]. rewrite E. reflexivity.
  - destruct (neon_kernels_match_reference [1; 2] [4; 5; 1; 1; 1; 2] [] [] [] [] [0; 0; 0] 2 3 (fun v => v) [] [] [] [] [] []
      ltac:(simpl; lia) eq_refl) as (_ & (_ & E & _) & _); [simpl; lia|simpl; lia|]. rewrite E. reflexivity.
  - destruct (neon_kernels_match_reference [2; 4] [] [2; 4] [0; 0] [4; 4] [6; 6] [] 2 0 (fun v => v / 2) [] [] [] [] [] []
      ltac:(simpl; lia) eq_refl) as (_ & _ & (_ & _ & _ & _ & E) & _); [repeat constructor|]. rewrite E. reflexivity.
  - destruct (neon_kernels_match_reference [0; 0; 0] [] [] [] [] [] [] 3 0 (fun v => v) (F32.of_Z <$> [1; 5; 2])
      (F32.of_Z <$> [2; 1; 9]) [] [] [] [] ltac:(simpl; lia) eq_refl) as (_ & _ & _ & _ & E & _).
    rewrite E; [vm_compute; reflexivity|simpl; lia|simpl; lia|repeat constructor].
Defined.

(** ** int8 *)

(** on [int8_t] vectors the NEON kernels return exactly what the scalar
    kernels return (within the dimensions where those are exact) as long as the
    elements read by the strip of four exist; but that strip loads eight
    elements, so that on vectors of exactly [d] elements every kernel reads
    beyond the end when [d] modulo 8 is 4 or more. *)
Theorem neon_int8_overread (x y y0 y1 y2 y3 : list Z) (d : nat) :
  (Forall (readable d) [x; y; y0; y1; y2; y3] ->
   (Z.of_nat d <= 131071 ->
    int8_vec_inner_product_neon x y d = int8_vec_inner_product_ref x y d /\
    int8_vec_norm_L2sqr_neon x d = int8_vec_norm_L2sqr_ref x d /\
    int8_vec_inner_product_batch_4_neon x y0 y1 y2 y3 d = int8_vec_inner_product_batch_4_ref x y0 y1 y2 y3 d) /\
   (Z.of_nat d <= 33025 ->
    int8_vec_L2sqr_neon x y d = int8_vec_L2sqr_ref x y d /\
    int8_vec_L2sqr_batch_4_neon x y0 y1 y2 y3 d = int8_vec_L2sqr_batch_4_ref x y0 y1 y2 y3 d)) /\
  (Forall (fun p => length p = d) [x; y; y0; y1; y2; y3] -> (4 <= d mod 8)%nat ->
   int8_vec_inner_product_neon x y d = Undef /\ int8_vec_L2sqr_neon x y d = Undef /\ int8_vec_norm_L2sqr_neon x d = Undef /\
   int8_vec_inner_product_batch_4_neon x y0 y1 y2 y3 d = Undef /\ int8_vec_L2sqr_batch_4_neon x y0 y1 y2 y3 d = Undef).
Proof.
  split.
  - rewrite !Forall_cons. intros (Hx & Hy & H0 & H1 & H2 & H3 & _).
    assert (Forall (readable d) [y0; y1; y2; y3]) as H4 by (by rewrite !Forall_cons, Forall_nil). split; intros Hd.
    + pose proof (int8_neon_agrees ip_s32 int8_ip ip_lane 16384 ip_s32_exact ltac:(lia) ip_lane_bound ip_step_exact d ltac:(lia)) as E.
      unfold int8_vec_inner_product_neon, int8_vec_norm_L2sqr_neon. rewrite !E by done. refine (conj eq_refl (conj eq_refl _)).
      apply (int8_batch_4_neon_agrees _ _ ip_lane 16384); auto using ip_s32_exact, ip_lane_bound, ip_step_exact; lia.
    + pose proof (int8_neon_agrees l2_s32 int8_l2 l2_lane 65025 l2_s32_exact ltac:(lia) l2_lane_bound l2_step_exact d ltac:(lia)) as E.
      unfold int8_vec_L2sqr_neon. rewrite E by done. refine (conj eq_refl _).
      apply (int8_batch_4_neon_agrees _ _ l2_lane 65025); auto using l2_s32_exact, l2_lane_bound, l2_step_exact; lia.
  - rewrite !Forall_cons. intros (Hx & Hy & H0 & H1 & H2 & H3 & _) Hm.
    unfold int8_vec_inner_product_neon, int8_vec_L2sqr_neon, int8_vec_norm_L2sqr_neon. rewrite !int8_neon_overread by done.
    split_and!; try done; apply int8_batch_4_neon_overread; try done; by rewrite !Forall_cons, Forall_nil.
Qed.

Lemma neon_int8_overread_witness :
  int8_vec_inner_product_neon [1; 2; 3] [4; 5; 6] 3 = Ret (F32.of_Z 32) /\ int8_vec_L2sqr_neon [1; 2; 3; 4] [4; 5; 6; 7] 4 = Undef.
Proof.
  split.
  - destruct (neon_int8_overread [1; 2; 3] [4; 5; 6] [1; 2; 3] [1; 2; 3] [1; 2; 3] [1; 2; 3] 3) as [H _].
    rewrite (proj1 (proj1 (H ltac:(unfold readable, operand, is_int8; rewrite !Forall_cons, !Forall_nil; cbn; lia)) ltac:(lia))). reflexivity.
  - destruct (neon_int8_overread [1; 2; 3; 4] [4; 5; 6; 7] [1; 2; 3; 4] [1; 2; 3; 4] [1; 2; 3; 4] [1; 2; 3; 4] 4) as [_ H].
    apply H; [repeat constructor|cbn; lia].
Defined.
