(* ===== verification/Sve.v ===== *)
(** * The SVE kernels (src/simd/distances_sve.cc)

    The kernels for the scalable vector extension of 64-bit Arm.  The number of
    lanes belongs to the processor: [svcntw] lanes of 32 bits, a multiple of
    four.  A predicate is the list of its lanes; inactive lanes of a load are
    zero, those of an operation keep the first operand ([_m]), become zero ([_z])
    or anything ([_x]).  Prefetches have no effect and are left out. *)

From S2P Require Import Prelude Float Num Operands Distances Rvv RvvKernels Simd AvxKernels Neon.

Class SveImpl := {
  svcntw : nat;
  svcntw_quads : exists k, 0 < k /\ svcntw = 4 * k
}.

Lemma quads_one : exists k, 0 < k /\ 4 = 4 * k.
Proof. by exists 1; split; [lia|]. Qed.
(** 128-bit registers. *)
Definition sve128 : SveImpl := {| svcntw := 4; svcntw_quads := quads_one |}.

(** [svcnth] and [svcntb]: lanes of 16 and of 8 bits. *)
Definition svcnth `{!SveImpl} : nat := 2 * svcntw.
Definition svcntb `{!SveImpl} : nat := 4 * svcntw.

(** ** Predicates, loads and stores *)

Definition svptrue (w : nat) : list bool := replicate w true.
Definition svwhilelt (w i n : nat) : list bool := (fun l => i + l <? n) <$> seq 0 w.

(** [pg = svptrue(); ... if (d - i < w) pg = svwhilelt(i, d);] in round [i]: the
    predicate is narrowed in the last round only. *)
Definition pg_at (w i d : nat) : list bool := if d - i <? w then svwhilelt w i d else svptrue w.

Definition svld1 {B} (zero : B) (pg : list bool) (p : list B) : M (list B) :=
  masked_load zero (length pg) (fun l => nth l pg false) p.

Definition svsel {B} (pg : list bool) (a b : list B) : list B :=
  zip_with (fun (m : bool) ab => if m then fst ab else snd ab) pg (zip a b).

(** [while (i < d) { ...; i += step; }] *)
Fixpoint sve_while {S} (fuel step : nat) (body : nat -> S -> M S) (i d : nat) (s : S) : M S :=
  if i <? d then
    match fuel with
    | O => Undef
    | S fuel => let* s := body i s in sve_while fuel step body (i + step) d s
    end
  else Ret s.

Section sve.
Context {A : Type} `{!Num A, !Fma A, !Usum A, !Agnostic A, !SveImpl}.
Implicit Types a b v acc : list A.

Definition svst1 (pg : list bool) (p : list A) (off : nat) v : M (list A) :=
  foldM (fun p l => if nth l pg false then vset p (off + l) (lane v l) else Ret p) p (seq 0 (length pg)).

(** ** Operations *)

Definition svadd_m pg a b : list A := svsel pg (vadd a b) a.
Definition svsub_m pg a b : list A := svsel pg (vsub a b) a.
Definition svmul_m pg a b : list A := svsel pg (vmul a b) a.
Definition svmla_m pg acc a b : list A := svsel pg (fmadd a b acc) acc.
Definition svmax_m pg a b : list A := svsel pg (vmaxq a b) a.
Definition svabs_x pg v : list A := svsel pg (vabs v) (agn <$> seq 0 (length pg)).
Definition svsub_z pg a b : list A := svsel pg (vsub a b) (set1 (length pg) nzero).
Definition svmul_z pg a b : list A := svsel pg (vmul a b) (set1 (length pg) nzero).
Definition svadd_z pg a b : list A := svsel pg (vadd a b) (set1 (length pg) nzero).

(** [svuzp1] and [svuzp2]: the even and the odd elements of two registers. *)
Definition svuzp1 a b : list A := (fun l => lane (a ++ b) (2 * l)) <$> seq 0 (length a).
Definition svuzp2 a b : list A := (fun l => lane (a ++ b) (2 * l + 1)) <$> seq 0 (length a).

(** [svminv_f32] and [svmaxv_f32] over all lanes; NaN wins. *)
Definition minq (s t : A) : A :=
  if negb (neqb s s) then s else if negb (neqb t t) then t else if nltb t s then t else s.
Definition svmaxv v : A := foldl maxq (lane v 0) (drop 1 v).
Definition svminv v : A := foldl minq (lane v 0) (drop 1 v).

(** ** One vector against one *)

(** [load pg i] loads the operands of round [i], [add] accumulates them. *)
Definition sve_sum {L} (load : list bool -> nat -> M L) (add : list bool -> list A -> L -> list A) (d : nat) : M A :=
  let* sum := sve_while d svcntw (fun i sum =>
      let pg := pg_at svcntw i d in
      let* ab := load pg i in
      Ret (add pg sum ab)) 0 d (set1 svcntw nzero) in
  Ret (usum sum).

Definition load2 (x y : list A) (pg : list bool) (i : nat) : M (list A * list A) :=
  let* a := svld1 nzero pg (drop i x) in
  let* b := svld1 nzero pg (drop i y) in
  Ret (a, b).

Definition fvec_L2sqr_sve (x y : list A) (d : nat) : M A :=
  sve_sum (load2 x y) (fun pg sum '(a, b) => let diff := svsub_m pg a b in svmla_m pg sum diff diff) d.
Definition fvec_inner_product_sve (x y : list A) (d : nat) : M A :=
  sve_sum (load2 x y) (fun pg sum '(a, b) => svmla_m pg sum a b) d.
Definition fvec_L1_sve (x y : list A) (d : nat) : M A :=
  sve_sum (load2 x y) (fun pg sum '(a, b) => svadd_m pg sum (svabs_x pg (svsub_m pg a b))) d.
Definition fvec_norm_L2sqr_sve (x : list A) (d : nat) : M A :=
  sve_sum (fun pg i => svld1 nzero pg (drop i x)) (fun pg sum a => svmla_m pg sum a a) d.

Definition fvec_Linf_sve (x y : list A) (d : nat) : M A :=
  let* max_val := sve_while d svcntw (fun i max_val =>
      let pg := pg_at svcntw i d in
      let* (a, b) := load2 x y pg i in
      Ret (svmax_m pg max_val (svabs_x pg (svsub_m pg a b)))) 0 d (set1 svcntw nzero) in
  Ret (svmaxv max_val).

(** ** One vector against four *)

Section batch.
Context (step : list bool -> list A -> list A -> list A -> list A).

Definition sve_batch_4 (x y0 y1 y2 y3 : list A) (d : nat) : M (A * A * A * A) :=
  let zero := set1 svcntw nzero in
  let* st := sve_while d svcntw (fun i (st : list A * list A * list A * list A) =>
      let '(acc0, acc1, acc2, acc3) := st in
      let pg := pg_at svcntw i d in
      let* vx := svld1 nzero pg (drop i x) in
      let* vy0 := svld1 nzero pg (drop i y0) in
      let* vy1 := svld1 nzero pg (drop i y1) in
      let* vy2 := svld1 nzero pg (drop i y2) in
      let* vy3 := svld1 nzero pg (drop i y3) in
      Ret (step pg acc0 vx vy0, step pg acc1 vx vy1, step pg acc2 vx vy2, step pg acc3 vx vy3))
    0 d (zero, zero, zero, zero) in
  let '(acc0, acc1, acc2, acc3) := st in
  Ret (usum acc0, usum acc1, usum acc2, usum acc3).
End batch.

Definition fvec_inner_product_batch_4_sve : list A -> list A -> list A -> list A -> list A -> nat -> M (A * A * A * A) :=
  sve_batch_4 (fun pg acc vx vy => svmla_m pg acc vx vy).
Definition fvec_L2sqr_batch_4_sve : list A -> list A -> list A -> list A -> list A -> nat -> M (A * A * A * A) :=
  sve_batch_4 (fun pg acc vx vy => let vy := svsub_m pg vx vy in svmla_m pg acc vy vy).

(** ** One vector against many rows *)

Definition fvec_L2sqr_ny_dimN_sve (dis x y : list A) (d ny : nat) : M (list A) :=
  let* (i, left_, dis) := strips ny 4 (fun i dis =>
      let y := drop (i * d) y in
      let* (d0, d1, d2, d3) := fvec_L2sqr_batch_4_sve x y (drop d y) (drop (2 * d) y) (drop (3 * d) y) d in
      let* dis := vset dis i d0 in
      let* dis := vset dis (i + 1) d1 in
      let* dis := vset dis (i + 2) d2 in
      vset dis (i + 3) d3) 0 ny dis in
  foldM (fun dis i => let* r := fvec_L2sqr_sve x (drop (i * d) y) d in vset dis i r) dis (seq i left_).

Definition fvec_L2sqr_ny_dim1_sve (dis x y : list A) (d ny : nat) : M (list A) :=
  let vl := svcntw in
  if negb (vl mod d =? 0) then fvec_L2sqr_ny_dimN_sve dis x y d ny else
  let* x_ := vget x 0 in
  let x0 := set1 vl x_ in
  sve_while ny vl (fun i dis =>
      let active := svwhilelt vl i ny in
      let* y0 := svld1 nzero active (drop i y) in
      let diff0 := svsub_z active x0 y0 in
      let sq_diff0 := svmul_z active diff0 diff0 in
      svst1 active dis i sq_diff0) 0 ny dis.

Definition fvec_L2sqr_ny_dim2_sve (dis x y : list A) (d ny : nat) : M (list A) :=
  let vl := svcntw in
  if negb (vl mod d =? 0) then fvec_L2sqr_ny_dimN_sve dis x y d ny else
  let step := vl / 2 in
  let* x_0 := vget x 0 in
  let x0 := set1 vl x_0 in
  let* x_1 := vget x 1 in
  let x1 := set1 vl x_1 in
  sve_while ny step (fun i dis =>
      let active := svwhilelt vl (i * d) (ny * d) in
      let* y0 := svld1 nzero active (drop (d * i + 0) y) in
      let* y1 := svld1 nzero active (drop (d * i + 1) y) in
      let part0 := svuzp1 y0 y1 in
      let part1 := svuzp2 y0 y1 in
      let diff0 := svsub_z active x0 part0 in
      let diff1 := svsub_z active x1 part1 in
      let sq_diff0 := svmul_z active diff0 diff0 in
      let sq_diff1 := svmul_z active diff1 diff1 in
      let sum := svadd_z active sq_diff0 sq_diff1 in
      let store := svwhilelt vl 0 (Nat.min step (ny - i)) in
      svst1 store dis i sum) 0 ny dis.

(** [svld1rq_f32] repeats four elements; [svtbl_f32] selects lanes. *)
Definition svld1rq (p : list A) : M (list A) :=
  let* q := loadu 4 p in Ret ((fun l => lane q (l mod 4)) <$> seq 0 svcntw).
Definition svtbl v (indices : list nat) : list A := (fun i => lane v i) <$> indices.

Definition fvec_L2sqr_ny_dim4_sve (dis x y : list A) (d ny : nat) : M (list A) :=
  let vl := svcntw in
  let step := vl * 2 / d in
  if negb (vl mod d =? 0) && (step <? 1) then fvec_L2sqr_ny_dimN_sve dis x y d ny else
  let pg := svptrue vl in
  let* x_vec := svld1rq x in
  let indices := (fun l => Nat.land l 3) <$> seq 0 vl in
  let x_n := svtbl x_vec indices in
  let* (i, left_, dis) := strips ny step (fun i dis =>
      let active0 := svwhilelt vl (i * 4) (ny * 4) in
      let active1 := svwhilelt vl (i * 4 + vl) (ny * 4) in
      let* y0 := svld1 nzero active0 (drop (4 * i + 0) y) in
      let* y1 := svld1 nzero active1 (drop (4 * i + vl) y) in
      let y0 := svsub_z pg x_n y0 in
      let y1 := svsub_z pg x_n y1 in
      let y0 := svmul_z pg y0 y0 in
      let y1 := svmul_z pg y1 y1 in
      let part0 := svuzp1 y0 y1 in
      let part1 := svuzp2 y0 y1 in
      let part0 := svadd_z pg part0 part1 in
      let merged_evens := svuzp1 part0 (set1 vl nzero) in
      let merged_odds := svuzp2 part0 (set1 vl nzero) in
      let merged_evens := svadd_z pg merged_evens merged_odds in
      let store := svwhilelt vl 0 (Nat.min step (ny - i)) in
      svst1 store dis i merged_evens) 0 ny dis in
  foldM (fun dis i => let* r := fvec_L2sqr_sve x (drop (i * d) y) d in vset dis i r) dis (seq i left_).

Definition fvec_L2sqr_ny_sve (dis x y : list A) (d ny : nat) : M (list A) :=
  match d with
  | 1 => fvec_L2sqr_ny_dim1_sve dis x y d ny
  | 2 => fvec_L2sqr_ny_dim2_sve dis x y d ny
  | 4 => fvec_L2sqr_ny_dim4_sve dis x y d ny
  | _ => fvec_L2sqr_ny_dimN_sve dis x y d ny
  end.

Definition fvec_inner_products_ny_sve (ip x y : list A) (d ny : nat) : M (list A) :=
  foldM (fun ip i => let* r := fvec_inner_product_sve x (drop (i * d) y) d in vset ip i r) ip (seq 0 ny).

(** ** Least elements *)

(** [svcmplt] under a predicate, and the last active lane. *)
Definition svcmplt pg a b : list bool := zip_with andb pg (zip_with nltb a b).
Definition svlastb (pg : list bool) (v : list Z) : Z :=
  nth (default (length v - 1) (last (filter (fun l => nth l pg false = true) (seq 0 (length v))))) v 0%Z.
Definition lane_index (i : nat) : list Z := (fun l => (Z.of_nat (i + l) mod 2 ^ 32)%Z) <$> seq 0 svcntw.

Definition last_least (min_val : list A) (min_idx : list Z) : Z :=
  let min_scalar := svminv min_val in
  svlastb ((fun s => neqb s min_scalar) <$> min_val) min_idx.

Definition find_min_index_sve (data : list A) (ny : nat) : M Z :=
  if ny <=? 0 then Ret 0%Z else
  let* first := vget data 0 in
  let* (min_val, min_idx) := sve_while ny svcntw (fun i (st : list A * list Z) =>
      let '(min_val, min_idx) := st in
      let pg := svwhilelt svcntw i ny in
      let* vec := svld1 nzero pg (drop i data) in
      let cmp := svcmplt pg vec min_val in
      Ret (svsel cmp vec min_val, svsel cmp (lane_index i) min_idx))
    0 ny (set1 svcntw first, replicate svcntw 0%Z) in
  Ret (last_least min_val min_idx).

Definition fvec_L2sqr_ny_nearest_sve (huge : A) (buffer x y : list A) (d ny : nat) : M (list A * Z) :=
  let* buffer := fvec_L2sqr_ny_sve buffer x y d ny in
  if 16 <=? ny then let* i := find_min_index_sve buffer ny in Ret (buffer, i)
  else
    let* (_, nearest_idx) := foldM (fun (st : A * nat) i =>
        let* r := vget buffer i in
        Ret (if nltb r (fst st) then (r, i) else st)) (huge, 0) (seq 0 ny) in
    Ret (buffer, Z.of_nat nearest_idx).

Definition fvec_madd_sve (n : nat) (a : list A) (bf : A) (b c : list A) : M (list A) :=
  let bf_vec := set1 svcntw bf in
  sve_while n svcntw (fun i c =>
      let pg := pg_at svcntw i n in
      let* a_vec := svld1 nzero pg (drop i a) in
      let* b_vec := svld1 nzero pg (drop i b) in
      let c_vec := svmla_m pg a_vec b_vec bf_vec in
      svst1 pg c i c_vec) 0 n c.

Definition fvec_madd_and_argmin_sve (inf : A) (n : nat) (a : list A) (bf : A) (b c : list A) : M (list A * Z) :=
  let bf_vec := set1 svcntw bf in
  let* (c, min_val, min_idx) := sve_while n svcntw (fun i (st : list A * list A * list Z) =>
      let '(c, min_val, min_idx) := st in
      let pg := pg_at svcntw i n in
      let idx := svsel pg (lane_index i) (replicate svcntw 0%Z) in
      let* a_vec := svld1 nzero pg (drop i a) in
      let* b_vec := svld1 nzero pg (drop i b) in
      let c_vec := svmla_m pg a_vec b_vec bf_vec in
      let* c := svst1 pg c i c_vec in
      let cmp := svcmplt pg c_vec min_val in
      Ret (c, svsel cmp c_vec min_val, svsel cmp idx min_idx))
    0 n (c, set1 svcntw inf, replicate svcntw 0%Z) in
  Ret (c, last_least min_val min_idx).

End sve.

(** * The SVE kernels, continued (src/simd/distances_sve.cc)

    16-bit and 8-bit elements. *)

(** ** fp16 *)

Section half.
Context {A : Type} `{!Num A, !Fma A, !Usum A, !SveImpl} (widen : Z -> A).

(** [svcvt_f32_f16_z(pg_32, svtrn1_f16(v, v))] and [svtrn2_f16]: the even and the
    odd elements, widened. *)
Definition low_f32 (v : list Z) : list A := (fun l => widen (nth (2 * l) v 0%Z)) <$> seq 0 svcntw.
Definition high_f32 (v : list Z) : list A := (fun l => widen (nth (2 * l + 1) v 0%Z)) <$> seq 0 svcntw.

Definition half_load2 (x y : list Z) (pg : list bool) (i : nat) : M (list Z * list Z) :=
  let* a := svld1 0%Z pg (drop i x) in
  let* b := svld1 0%Z pg (drop i y) in
  Ret (a, b).

(** Two registers of sums, for the even and the odd elements. *)
Definition half_sve {L} (load : list bool -> nat -> M L) (add : (list Z -> list A) -> list A -> L -> list A) (d : nat)
    : M (list A * list A) :=
  sve_while d svcnth (fun i (st : list A * list A) =>
      let pg_16 := pg_at svcnth i d in
      let* ab := load pg_16 i in
      Ret (add low_f32 (fst st) ab, add high_f32 (snd st) ab))
    0 d (set1 svcntw nzero, set1 svcntw nzero).

Definition half_L2sqr_sve (x y : list Z) (d : nat) : M A :=
  let pg_32 := svptrue svcntw in
  let* (sum1, sum2) := half_sve (half_load2 x y) (fun part sum '(a, b) =>
      let diff := svsub_m pg_32 (part a) (part b) in svmla_m pg_32 sum diff diff) d in
  Ret (usum (svadd_m pg_32 sum1 sum2)).
Definition half_inner_product_sve (x y : list Z) (d : nat) : M A :=
  let pg_32 := svptrue svcntw in
  let* (sum1, sum2) := half_sve (half_load2 x y) (fun part sum '(a, b) => svmla_m pg_32 sum (part a) (part b)) d in
  Ret (usum (svadd_m pg_32 sum1 sum2)).
Definition half_norm_L2sqr_sve (x : list Z) (d : nat) : M A :=
  let pg_32 := svptrue svcntw in
  let* (sum1, sum2) := half_sve (fun pg i => svld1 0%Z pg (drop i x)) (fun part sum a =>
      svadd_m pg_32 sum (svmul_m pg_32 (part a) (part a))) d in
  Ret (nadd (usum sum1) (usum sum2)).

(** ** bf16

    [svbfdot_f32] adds two products to every lane; how it rounds depends on the
    processor, so [bfdot acc a0 b0 a1 b1] is a parameter. *)
Context (bfdot : A -> A -> A -> A -> A -> A) (two : A).

Definition svbfdot (acc : list A) (a b : list Z) : list A :=
  (fun l => bfdot (lane acc l) (widen (nth (2 * l) a 0%Z)) (widen (nth (2 * l) b 0%Z))
    (widen (nth (2 * l + 1) a 0%Z)) (widen (nth (2 * l + 1) b 0%Z))) <$> seq 0 svcntw.

Definition bf16_L2sqr_of (norm_x norm_y dot_xy : A) : A := nsub (nadd norm_x norm_y) (nmul two dot_xy).

Definition bf16_L2sqr_sve (x y : list Z) (d : nat) : M A :=
  let zero := set1 svcntw nzero in
  let* (acc_x, acc_y, acc_dot) := sve_while d svcnth (fun i (st : list A * list A * list A) =>
      let '(acc_x, acc_y, acc_dot) := st in
      let* (bf16_x, bf16_y) := half_load2 x y (pg_at svcnth i d) i in
      Ret (svbfdot acc_x bf16_x bf16_x, svbfdot acc_y bf16_y bf16_y, svbfdot acc_dot bf16_x bf16_y))
    0 d (zero, zero, zero) in
  Ret (bf16_L2sqr_of (usum acc_x) (usum acc_y) (usum acc_dot)).

Definition bf16_norm_L2sqr_sve (x : list Z) (d : nat) : M A :=
  let* acc := sve_while d svcnth (fun i acc =>
      let* x_vec := svld1 0%Z (pg_at svcnth i d) (drop i x) in Ret (svbfdot acc x_vec x_vec)) 0 d (set1 svcntw nzero) in
  Ret (usum acc).

Definition bf16_inner_product_sve (x y : list Z) (d : nat) : M A :=
  let* acc := sve_while d svcnth (fun i acc =>
      let* (x_vec, y_vec) := half_load2 x y (pg_at svcnth i d) i in Ret (svbfdot acc x_vec y_vec)) 0 d (set1 svcntw nzero) in
  Ret (usum acc).

Definition load5 (x y0 y1 y2 y3 : list Z) (pg : list bool) (i : nat) : M (list Z * (list Z * list Z * list Z * list Z)) :=
  let* x_vec := svld1 0%Z pg (drop i x) in
  let* y0_vec := svld1 0%Z pg (drop i y0) in
  let* y1_vec := svld1 0%Z pg (drop i y1) in
  let* y2_vec := svld1 0%Z pg (drop i y2) in
  let* y3_vec := svld1 0%Z pg (drop i y3) in
  Ret (x_vec, (y0_vec, y1_vec, y2_vec, y3_vec)).

Definition bf16_inner_product_batch_4_sve (x y0 y1 y2 y3 : list Z) (d : nat) : M (A * A * A * A) :=
  let zero := set1 svcntw nzero in
  let* (acc0, acc1, acc2, acc3) := sve_while d svcnth (fun i (st : list A * list A * list A * list A) =>
      let '(acc0, acc1, acc2, acc3) := st in
      let* (x_vec, (y0_vec, y1_vec, y2_vec, y3_vec)) := load5 x y0 y1 y2 y3 (pg_at svcnth i d) i in
      Ret (svbfdot acc0 x_vec y0_vec, svbfdot acc1 x_vec y1_vec, svbfdot acc2 x_vec y2_vec, svbfdot acc3 x_vec y3_vec))
    0 d (zero, zero, zero, zero) in
  Ret (usum acc0, usum acc1, usum acc2, usum acc3).

(** The squared norm of [x] once, and for every candidate its norm and product. *)
Definition bf16_L2sqr_batch_4_sve (x y0 y1 y2 y3 : list Z) (d : nat) : M (A * A * A * A) :=
  let zero := set1 svcntw nzero in
  let* (acc_x, accs, ips) := sve_while d svcnth
    (fun i (st : list A * (list A * list A * list A * list A) * (list A * list A * list A * list A)) =>
      let '(acc_x, (acc_y0, acc_y1, acc_y2, acc_y3), (acc_ip0, acc_ip1, acc_ip2, acc_ip3)) := st in
      let* (x_vec, (y0_vec, y1_vec, y2_vec, y3_vec)) := load5 x y0 y1 y2 y3 (pg_at svcnth i d) i in
      Ret (svbfdot acc_x x_vec x_vec,
        (svbfdot acc_y0 y0_vec y0_vec, svbfdot acc_y1 y1_vec y1_vec, svbfdot acc_y2 y2_vec y2_vec, svbfdot acc_y3 y3_vec y3_vec),
        (svbfdot acc_ip0 x_vec y0_vec, svbfdot acc_ip1 x_vec y1_vec, svbfdot acc_ip2 x_vec y2_vec, svbfdot acc_ip3 x_vec y3_vec)))
    0 d (zero, (zero, zero, zero, zero), (zero, zero, zero, zero)) in
  let '(acc_y0, acc_y1, acc_y2, acc_y3) := accs in
  let '(acc_ip0, acc_ip1, acc_ip2, acc_ip3) := ips in
  let norm_x := usum acc_x in
  Ret (bf16_L2sqr_of norm_x (usum acc_y0) (usum acc_ip0), bf16_L2sqr_of norm_x (usum acc_y1) (usum acc_ip1),
    bf16_L2sqr_of norm_x (usum acc_y2) (usum acc_ip2), bf16_L2sqr_of norm_x (usum acc_y3) (usum acc_ip3)).

End half.

(** [two] is [2.0f]. *)
Section kernels.
Context `{!Usum spec_float, !SveImpl} (bfdot : spec_float -> spec_float -> spec_float -> spec_float -> spec_float -> spec_float).

Definition fp16_vec_L2sqr_sve := half_L2sqr_sve f16_widen.
Definition fp16_vec_inner_product_sve := half_inner_product_sve f16_widen.
Definition fp16_vec_norm_L2sqr_sve := half_norm_L2sqr_sve f16_widen.
Definition bf16_vec_L2sqr_sve := bf16_L2sqr_sve bf16_to_fp32 bfdot (F32.of_Z 2).
Definition bf16_vec_norm_L2sqr_sve := bf16_norm_L2sqr_sve bf16_to_fp32 bfdot.
Definition bf16_vec_inner_product_sve := bf16_inner_product_sve bf16_to_fp32 bfdot.
Definition bf16_vec_inner_product_batch_4_sve := bf16_inner_product_batch_4_sve bf16_to_fp32 bfdot.
Definition bf16_vec_L2sqr_batch_4_sve := bf16_L2sqr_batch_4_sve bf16_to_fp32 bfdot (F32.of_Z 2).
End kernels.

(** ** int8 *)

Section int8.
#[local] Open Scope Z_scope.
Context `{!SveImpl}.
Implicit Types x y : list Z.

(** [svdot_s32]: four products per lane, which wraps around. *)
Definition svdot (acc a b : list Z) : list Z :=
  (fun l => wrap_s32 (nth l acc 0 + foldr Z.add 0 (zip_with Z.mul (slice (4 * l) (4 * l + 4) a) (slice (4 * l) (4 * l + 4) b))))
    <$> seq 0 svcntw.
(** [svaddv_s32] returns an [int64_t]. *)
Definition svaddv_s32 (v : list Z) : Z := foldr Z.add 0 v.
Definition svdup0 : list Z := replicate svcntw 0.

(** [total_a2 - 2 * total_ab + total_b2] in [int32_t]. *)
Definition int8_L2_of (a2 ab b2 : Z) : M Z :=
  let* t := i32 (2 * ab) in let* t := i32 (a2 - t) in i32 (t + b2).

Definition int8_vec_L2sqr_sve x y (d : nat) : M spec_float :=
  if (d <? 16)%nat then let* r := int8_loop int8_l2 x y d in Ret (F32.of_Z r) else
  let vl := svcntb in
  let add pg i (st : list Z * list Z * list Z) :=
    let '(sum_a2, sum_ab, sum_b2) := st in
    let* vx := svld1 0 pg (drop i x) in
    let* vy := svld1 0 pg (drop i y) in
    Ret (svdot sum_a2 vx vx, svdot sum_ab vx vy, svdot sum_b2 vy vy) in
  let* (i, left_, st) := strips d vl (add (svptrue vl)) 0%nat d (svdup0, svdup0, svdup0) in
  let* (sum_a2, sum_ab, sum_b2) := if (i <? d)%nat then add (svwhilelt vl i d) i st else Ret st in
  let total_a2 := wrap_s32 (svaddv_s32 sum_a2) in
  let total_ab := wrap_s32 (svaddv_s32 sum_ab) in
  let total_b2 := wrap_s32 (svaddv_s32 sum_b2) in
  let* r := int8_L2_of total_a2 total_ab total_b2 in
  Ret (F32.of_Z r).

(** The predicate decides when the loop ends. *)
Fixpoint while_any (fuel i d : nat) (body : list bool -> nat -> list Z -> M (list Z)) (s : list Z) : M (list Z) :=
  let pg := svwhilelt svcntb i d in
  if existsb id pg then
    match fuel with
    | O => Undef
    | S fuel => let* s := body pg i s in while_any fuel (i + svcntb) d body s
    end
  else Ret s.

Definition int8_vec_norm_L2sqr_sve x (d : nat) : M spec_float :=
  let* sum := while_any d 0 d (fun pg i sum =>
      let* a := svld1 0 pg (drop i x) in Ret (svdot sum a a)) svdup0 in
  Ret (F32.of_Z (wrap_s32 (svaddv_s32 sum))).

(** [sum_a2 += xi * xi] and the eight other scalar sums of one element. *)
Definition nine : Type := Z * (Z * Z * Z * Z) * (Z * Z * Z * Z).
Definition add9 x y0 y1 y2 y3 (st : nine) (i : nat) : M nine :=
  let '(a2, (ab0, ab1, ab2, ab3), (b20, b21, b22, b23)) := st in
  let* xi := vget x i in
  let* y0i := vget y0 i in
  let* y1i := vget y1 i in
  let* y2i := vget y2 i in
  let* y3i := vget y3 i in
  let* a2 := int8_ip a2 xi xi in
  let* ab0 := int8_ip ab0 xi y0i in
  let* ab1 := int8_ip ab1 xi y1i in
  let* ab2 := int8_ip ab2 xi y2i in
  let* ab3 := int8_ip ab3 xi y3i in
  let* b20 := int8_ip b20 y0i y0i in
  let* b21 := int8_ip b21 y1i y1i in
  let* b22 := int8_ip b22 y2i y2i in
  let* b23 := int8_ip b23 y3i y3i in
  Ret (a2, (ab0, ab1, ab2, ab3), (b20, b21, b22, b23)).

Definition nine_L2 (st : nine) : M (spec_float * spec_float * spec_float * spec_float) :=
  let '(a2, (ab0, ab1, ab2, ab3), (b20, b21, b22, b23)) := st in
  let* d0 := int8_L2_of a2 ab0 b20 in
  let* d1 := int8_L2_of a2 ab1 b21 in
  let* d2 := int8_L2_of a2 ab2 b22 in
  let* d3 := int8_L2_of a2 ab3 b23 in
  Ret (F32.of_Z d0, F32.of_Z d1, F32.of_Z d2, F32.of_Z d3).

Definition zero9 : nine := (0, (0, 0, 0, 0), (0, 0, 0, 0)).

Definition int8_vec_L2sqr_batch_4_sve x y0 y1 y2 y3 (dim : nat) : M (spec_float * spec_float * spec_float * spec_float) :=
  if (dim =? 0)%nat then Ret (F32.zero, F32.zero, F32.zero, F32.zero) else
  if (dim <? 16)%nat then
    let* st := foldM (add9 x y0 y1 y2 y3) zero9 (seq 0 dim) in nine_L2 st
  else
  let vl := svcntb in
  let pg := svptrue vl in
  let* (d, left_, vecs) := strips dim vl
    (fun d (st : list Z * (list Z * list Z * list Z * list Z) * (list Z * list Z * list Z * list Z)) =>
      let '(vec_a2, (vec_ab0, vec_ab1, vec_ab2, vec_ab3), (vec_b20, vec_b21, vec_b22, vec_b23)) := st in
      let* (a, (b0, b1, b2, b3)) := load5 x y0 y1 y2 y3 pg d in
      Ret (svdot vec_a2 a a,
        (svdot vec_ab0 a b0, svdot vec_ab1 a b1, svdot vec_ab2 a b2, svdot vec_ab3 a b3),
        (svdot vec_b20 b0 b0, svdot vec_b21 b1 b1, svdot vec_b22 b2 b2, svdot vec_b23 b3 b3)))
    0%nat dim (svdup0, (svdup0, svdup0, svdup0, svdup0), (svdup0, svdup0, svdup0, svdup0)) in
  let* st := foldM (add9 x y0 y1 y2 y3) zero9 (seq d left_) in
  let '(vec_a2, (vec_ab0, vec_ab1, vec_ab2, vec_ab3), (vec_b20, vec_b21, vec_b22, vec_b23)) := vecs in
  let '(a2, (ab0, ab1, ab2, ab3), (b20, b21, b22, b23)) := st in
  let plus s v := wrap_s32 (s + svaddv_s32 v) in
  nine_L2 (plus a2 vec_a2, (plus ab0 vec_ab0, plus ab1 vec_ab1, plus ab2 vec_ab2, plus ab3 vec_ab3),
    (plus b20 vec_b20, plus b21 vec_b21, plus b22 vec_b22, plus b23 vec_b23)).

Definition int8_vec_inner_product_sve x y (d : nat) : M spec_float :=
  let vl := svcntb in
  let step := (4 * vl)%nat in
  let dot pg off (sum : list Z) :=
    let* a := svld1 0 pg (drop off x) in
    let* b := svld1 0 pg (drop off y) in
    Ret (svdot sum a b) in
  let pg := svptrue vl in
  let* (off, d, st) := strips d step (fun off (st : list Z * list Z * list Z * list Z) =>
      let '(sum0, sum1, sum2, sum3) := st in
      let* sum0 := dot pg off sum0 in
      let* sum1 := dot pg (off + vl)%nat sum1 in
      let* sum2 := dot pg (off + 2 * vl)%nat sum2 in
      let* sum3 := dot pg (off + 3 * vl)%nat sum3 in
      Ret (sum0, sum1, sum2, sum3)) 0%nat d (svdup0, svdup0, svdup0, svdup0) in
  let '(sum0, sum1, sum2, sum3) := st in
  let sum := vaddq_s32 sum0 sum1 in
  let sum := vaddq_s32 sum sum2 in
  let sum := vaddq_s32 sum sum3 in
  let* (off, d, sum) := strips d vl (dot pg) off d sum in
  let* sum := if (0 <? d)%nat then dot (svwhilelt vl 0 d) off sum else Ret sum in
  Ret (F32.of_Z (wrap_s32 (svaddv_s32 sum))).

(** The sums are converted from [int64_t] here. *)
Definition int8_vec_inner_product_batch_4_sve x y0 y1 y2 y3 (dim : nat) : M (spec_float * spec_float * spec_float * spec_float) :=
  let vl := svcntb in
  let add pg d (st : list Z * list Z * list Z * list Z) :=
    let '(sum0, sum1, sum2, sum3) := st in
    let* (a, (b0, b1, b2, b3)) := load5 x y0 y1 y2 y3 pg d in
    Ret (svdot sum0 a b0, svdot sum1 a b1, svdot sum2 a b2, svdot sum3 a b3) in
  let* (d, left_, st) := strips dim vl (add (svptrue vl)) 0%nat dim (svdup0, svdup0, svdup0, svdup0) in
  let* (sum0, sum1, sum2, sum3) := if (d <? dim)%nat then add (svwhilelt vl d dim) d st else Ret st in
  Ret (F32.of_Z (svaddv_s32 sum0), F32.of_Z (svaddv_s32 sum1), F32.of_Z (svaddv_s32 sum2), F32.of_Z (svaddv_s32 sum3)).

End int8.
