(* ===== verification/SveProps.v ===== *)
(** * The SVE kernels compute what the reference kernels compute *)

From S2P Require Import Prelude Float HnswGraph Num Bitset MemoryIO Operands Distances DistanceProps Rvv RvvKernels.
From S2P Require Import RvvProps Simd SimdProps AvxProps SseProps Neon NeonInt8 NeonProps Sve.

(** ** Loops *)

Lemma sve_while_spec {T} (Inv : nat -> T -> Prop) fuel step body d s : 0 < step -> d <= fuel -> Inv 0 s ->
  (forall k t, k * step < d -> Inv (k * step) t -> wp (body (k * step) t) (Inv (Nat.min (k * step + step) d))) ->
  wp (sve_while fuel step body 0 d s) (Inv d).
Proof.
  intros Hstep Hf H0 Hb.
  assert (forall fuel k t, d - k * step <= fuel -> Inv (Nat.min (k * step) d) t -> wp (sve_while fuel step body (k * step) d t) (Inv d)) as Hk.
  { clear fuel Hf. induction fuel as [|fuel IH]; intros k t Hf Ht; cbn [sve_while].
    - destruct (Nat.ltb_spec (k * step) d); [lia|]. rewrite Nat.min_r in Ht by lia. done.
    - destruct (Nat.ltb_spec (k * step) d) as [Hlt|Hge]; [|rewrite Nat.min_r in Ht by lia; done].
      rewrite Nat.min_l in Ht by lia. apply wp_bind. eapply wp_mono; [by apply Hb|]. intros t' Ht'.
      replace (k * step + step) with (S k * step) in * by lia. apply IH; [lia|done]. }
  apply (Hk fuel 0); [lia|by rewrite Nat.mul_0_l, Nat.min_0_l].
Qed.

(** ** Predicates that select the first lanes *)

Definition prefix (w k : nat) : list bool := (fun l => l <? k) <$> seq 0 w.

Lemma length_prefix w k : length (prefix w k) = w.
Proof. unfold prefix. by rewrite length_fmap, length_seq. Qed.

Lemma whilelt_prefix w i n : svwhilelt w i n = prefix w (Nat.min w (n - i)).
Proof.
  apply list_fmap_ext. intros l ? [-> Hl]%lookup_seq. rewrite Nat.add_0_l.
  destruct (Nat.ltb_spec (i + l) n), (Nat.ltb_spec l (Nat.min w (n - i))); lia || done.
Qed.

Lemma ptrue_prefix w : svptrue w = prefix w w.
Proof.
  unfold svptrue, prefix. apply list_eq. intros l. rewrite list_lookup_fmap. destruct (decide (l < w)).
  - rewrite lookup_replicate_2, lookup_seq_lt by lia. cbn [fmap option_fmap option_map Nat.add]. by rewrite (proj2 (Nat.ltb_lt _ _)).
  - rewrite lookup_seq_ge, lookup_ge_None_2 by (rewrite ?length_replicate; lia). done.
Qed.

Lemma pg_at_prefix w i d : pg_at w i d = prefix w (Nat.min w (d - i)).
Proof.
  unfold pg_at. destruct (Nat.ltb_spec (d - i) w); [apply whilelt_prefix|]. rewrite ptrue_prefix. f_equal. lia.
Qed.

Lemma nth_prefix w k l : nth l (prefix w k) false = (l <? w) && (l <? k).
Proof.
  destruct (Nat.ltb_spec l w) as [Hl|Hl].
  - apply nth_lookup_Some. unfold prefix. rewrite list_lookup_fmap, lookup_seq_lt by done. done.
  - apply nth_overflow. by rewrite length_prefix.
Qed.

Lemma svld1_prefix {B} `{!Inhabited B} (zero : B) w k p off : k <= w -> off + k <= length p ->
  svld1 zero (prefix w k) (drop off p) = Ret (slice off (off + k) p ++ replicate (w - k) zero).
Proof.
  intros Hk Hp. unfold svld1. rewrite length_prefix, (masked_load_ext _ _ _ (fun l => l <? k)); [by apply prefix_load|].
  intros l Hl. rewrite nth_prefix. by rewrite (proj2 (Nat.ltb_lt l w)).
Qed.

Lemma vset_cases {B} (l : list B) i e : vset l i e = Undef \/ exists r, vset l i e = Ret r.
Proof. unfold vset. destruct (decide _); eauto. Qed.

Lemma svld1_over {B} (zero : B) w k p off : 0 < k <= w -> length p < off + k -> svld1 zero (prefix w k) (drop off p) = Undef.
Proof.
  intros Hk Hp. unfold svld1, masked_load. rewrite length_prefix. apply (foldM_reaches _ _ (k - 1)).
  - apply elem_of_seq. lia.
  - intros t. rewrite nth_prefix, !(proj2 (Nat.ltb_lt _ _)) by lia. cbn [andb]. unfold vget.
    by rewrite lookup_drop, lookup_ge_None_2 by lia.
  - intros t j. destruct (nth j (prefix w k) false); [|by right; eexists].
    destruct (vget_cases (drop off p) j) as [->|[e ->]]; [by left|]. apply vset_cases.
Qed.

Lemma svsel_prefix {B} w k (a b : list B) : k <= w -> length a = w -> length b = w ->
  svsel (prefix w k) a b = take k a ++ drop k b.
Proof.
  intros Hk Ha Hb. unfold svsel. apply list_eq. intros l. destruct (decide (l < w)) as [Hl|Hl].
  - destruct (lookup_lt_is_Some_2 a l) as [u Hu]; [lia|]. destruct (lookup_lt_is_Some_2 b l) as [v Hv]; [lia|].
    assert (zip_with (fun (m : bool) ab => if m then fst ab else snd ab) (prefix w k) (zip a b) !! l = Some (if l <? k then u else v)) as ->.
    { apply lookup_zip_with_Some. exists (l <? k), (u, v). split_and!; [done| |].
      - unfold prefix. by rewrite list_lookup_fmap, lookup_seq_lt.
      - apply lookup_zip_with_Some. by exists u, v. }
    destruct (Nat.ltb_spec l k).
    + rewrite lookup_app_l, lookup_take_lt by (rewrite ?length_take; lia). done.
    + rewrite lookup_app_r, length_take, lookup_drop by (rewrite ?length_take; lia). rewrite Nat.min_l by lia.
      replace (k + (l - k)) with l by lia. done.
  - rewrite !lookup_ge_None_2; [done|rewrite length_app, length_take, length_drop; lia|].
    rewrite !length_zip_with, length_prefix. lia.
Qed.

#[local] Open Scope Z_scope.

(** ** Registers of sums *)

(** A step that adds [f] of the first [k] elements and keeps the other lanes. *)
Definition sve_adds (step : list bool -> list Z -> list Z -> list Z -> list Z) (f : Z -> Z -> Z) : Prop :=
  forall w k acc s t, (k <= w)%nat -> length acc = w -> length s = k -> length t = k ->
    let z := replicate (w - k) 0 in
    step (prefix w k) acc (s ++ z) (t ++ z) = vadd acc (zip_with f s t ++ z).

Lemma vadd_zero (v : list Z) : vadd v (replicate (length v) 0) = v.
Proof. unfold vadd. cbn. induction v as [|a v IH]; [done|]. cbn. by rewrite IH, Z.add_0_r. Qed.

Lemma add_active w k (acc u z : list Z) : (k <= w)%nat -> length acc = w -> length u = k -> length z = (w - k)%nat ->
  svsel (prefix w k) (vadd acc (u ++ z)) acc = vadd acc (u ++ replicate (w - k) 0).
Proof.
  intros Hk Ha Hu Hz. rewrite svsel_prefix by (try done; unfold vadd; rewrite length_zip_with, length_app; lia).
  assert (forall z : list Z, vadd acc (u ++ z) = vadd (take k acc) u ++ vadd (drop k acc) z) as E.
  { intros z'. unfold vadd. rewrite <- zip_with_app by (rewrite length_take; lia). by rewrite take_drop. }
  rewrite !E, take_app_length' by (unfold vadd; rewrite length_zip_with, length_take; lia). f_equal.
  replace (w - k)%nat with (length (drop k acc)) by (rewrite length_drop; lia). by rewrite vadd_zero.
Qed.

Lemma fmadd_vmul (a b acc : list Z) : fmadd a b acc = vadd acc (vmul a b).
Proof.
  unfold fmadd, vadd, vmul. cbn. revert b acc. induction a as [|u a IH]; intros [|v b] [|s acc]; cbn; try done.
  rewrite IH. done.
Qed.

Lemma vmul_app (s t z : list Z) : length s = length t -> vmul (s ++ z) (t ++ z) = zip_with Z.mul s t ++ vmul z z.
Proof. intros H. unfold vmul. by rewrite zip_with_app. Qed.

Lemma mla_adds : sve_adds (fun pg acc a b => svmla_m pg acc a b) Z.mul.
Proof.
  intros w k acc s t Hk Ha Hs Ht z. unfold svmla_m. rewrite fmadd_vmul, vmul_app by lia.
  apply add_active; [done|done|rewrite length_zip_with; lia|]. unfold vmul, z. rewrite length_zip_with, length_replicate. lia.
Qed.

(** Differences of the active lanes; the others are zero. *)
Lemma sub_active w k (s t : list Z) : (k <= w)%nat -> length s = k -> length t = k ->
  svsub_m (prefix w k) (s ++ replicate (w - k) 0) (t ++ replicate (w - k) 0) = zip_with Z.sub s t ++ replicate (w - k) 0.
Proof.
  intros Hk Hs Ht. unfold svsub_m.
  rewrite svsel_prefix by (try done; unfold vsub; rewrite ?length_zip_with, !length_app, !length_replicate; lia).
  unfold vsub. rewrite zip_with_app by lia. rewrite take_app_length' by (rewrite length_zip_with; lia).
  by rewrite drop_app_length' by done.
Qed.

Lemma l2_adds : sve_adds (fun pg acc a b => let d := svsub_m pg a b in svmla_m pg acc d d) sq.
Proof.
  intros w k acc s t Hk Ha Hs Ht z. unfold z. rewrite sub_active by done.
  pose proof (mla_adds w k acc (zip_with Z.sub s t) (zip_with Z.sub s t) Hk Ha) as H. cbv zeta in H |- *.
  rewrite H by (rewrite length_zip_with; lia). do 2 f_equal. unfold sq. clear.
  revert t. induction s as [|u s IH]; intros [|v t]; try done. cbn. by rewrite IH.
Qed.

Lemma l1_adds `{!Agnostic Z} : sve_adds (fun pg acc a b => svadd_m pg acc (svabs_x pg (svsub_m pg a b))) dist1.
Proof.
  intros w k acc s t Hk Ha Hs Ht z. unfold z. rewrite sub_active by done. unfold svadd_m, svabs_x.
  rewrite length_prefix, (svsel_prefix w k (vabs _)); [|done|unfold vabs; rewrite length_fmap, length_app, length_zip_with, length_replicate; lia|by rewrite length_fmap, length_seq].
  unfold vabs. rewrite fmap_app, take_app_length' by (rewrite length_fmap, length_zip_with; lia).
  rewrite add_active; [|done|done|rewrite length_fmap, length_zip_with; lia|rewrite length_drop, length_fmap, length_seq; lia].
  do 2 f_equal. clear. revert t. induction s as [|u s IH]; intros [|v t]; try done. cbn. apply (f_equal2 cons); [done|apply IH].
Qed.

Section pair.
Context `{HI : !SveImpl, HU : !Usum Z}.

Lemma svcntw_pos : (0 < svcntw)%nat.
Proof. destruct svcntw_quads as (k & Hk & ->). lia. Qed.

Lemma next_off (i w d : nat) : (i < d)%nat -> Nat.min (i + w) d = (i + Nat.min w (d - i))%nat.
Proof. lia. Qed.

(** One round: the loads, and the sum of the next elements. *)
Lemma sve_round step f x y d i acc : sve_adds step f -> (d <= length x)%nat -> (d <= length y)%nat -> (i < d)%nat ->
  holds svcntw (zip_with f x y) i acc -> exists a b,
  svld1 0 (pg_at svcntw i d) (drop i x) = Ret a /\ svld1 0 (pg_at svcntw i d) (drop i y) = Ret b /\
  holds svcntw (zip_with f x y) (Nat.min (i + svcntw) d) (step (pg_at svcntw i d) acc a b).
Proof.
  intros Hst Hx Hy Hi [Hl Hs]. rewrite pg_at_prefix, next_off by done. set (k := Nat.min svcntw (d - i)).
  rewrite !svld1_prefix by lia. eexists _, _. split; [done|]. split; [done|].
  rewrite Hst by (rewrite ?length_slice; lia). rewrite <- slice_zip_with.
  apply (holds_add _ _ i); [done| |lia|].
  - rewrite length_app, length_replicate, length_slice by (rewrite length_zip_with; lia). lia.
  - rewrite lanesum_app, lanesum_replicate. lia.
Qed.

Lemma sve_pair_value step f x y d : sve_adds step f -> (d <= length x)%nat -> (d <= length y)%nat ->
  sve_sum (load2 x y) (fun pg sum '(a, b) => step pg sum a b) d = Ret (lanesum (take d (zip_with f x y))).
Proof.
  intros Hst Hx Hy.
  match goal with |- ?m = Ret ?r => assert (wp m (fun q => q = r)) as E; [|by apply wp_elim in E as (? & -> & ->)] end.
  unfold sve_sum. apply wp_bind.
  eapply wp_mono; [apply (sve_while_spec (holds svcntw (zip_with f x y))); [apply svcntw_pos|done|apply holds_zero|]|].
  - intros k t Hk Ht. cbn zeta. unfold load2. change (@nzero Z Z_num) with 0.
    destruct (sve_round step f x y d (k * svcntw) t Hst Hx Hy Hk Ht) as (a & b & -> & -> & H). done.
  - intros t [_ Ht]. cbn [wp]. by rewrite usum_exact, <- Ht.
Qed.

Section values.
Context `{!Agnostic Z} (x y : list Z) (d : nat) (Hx : (d <= length x)%nat) (Hy : (d <= length y)%nat).

Lemma ip_sve_value : fvec_inner_product_sve x y d = Ret (lanesum (take d (zip_with Z.mul x y))).
Proof. exact (sve_pair_value _ _ x y d mla_adds Hx Hy). Qed.
Lemma l2_sve_value : fvec_L2sqr_sve x y d = Ret (lanesum (take d (zip_with sq x y))).
Proof. exact (sve_pair_value _ _ x y d l2_adds Hx Hy). Qed.
Lemma l1_sve_value : fvec_L1_sve x y d = Ret (lanesum (take d (zip_with dist1 x y))).
Proof. exact (sve_pair_value _ _ x y d l1_adds Hx Hy). Qed.

Lemma norm_sve_value : fvec_norm_L2sqr_sve x d = Ret (lanesum (take d (zip_with Z.mul x x))).
Proof.
  match goal with |- ?m = Ret ?r => assert (wp m (fun q => q = r)) as E; [|by apply wp_elim in E as (? & -> & ->)] end.
  unfold fvec_norm_L2sqr_sve, sve_sum. apply wp_bind.
  eapply wp_mono; [apply (sve_while_spec (holds svcntw (zip_with Z.mul x x))); [apply svcntw_pos|done|apply holds_zero|]|].
  - intros k t Hk Ht. cbn zeta.
    destruct (sve_round _ _ x x d (k * svcntw) t mla_adds Hx Hx Hk Ht) as (a & b & E1 & E2 & H).
    assert (b = a) as -> by congruence. change (@nzero Z Z_num) with 0. rewrite E1. done.
  - intros t [_ Ht]. cbn [wp]. by rewrite usum_exact, <- Ht.
Qed.
End values.

Lemma sve_batch_value step f x y0 y1 y2 y3 d : sve_adds step f -> (d <= length x)%nat ->
  Forall (fun p => (d <= length p)%nat) [y0; y1; y2; y3] ->
  let v y := lanesum (take d (zip_with f x y)) in sve_batch_4 step x y0 y1 y2 y3 d = Ret (v y0, v y1, v y2, v y3).
Proof.
  intros Hst Hx (Hy0 & Hy1 & Hy2 & Hy3 & _)%Forall4 v.
  match goal with |- ?m = Ret ?r => assert (wp m (fun q => q = r)) as E; [|by apply wp_elim in E as (? & -> & ->)] end.
  unfold sve_batch_4. apply wp_bind. set (H := fun y => holds svcntw (zip_with f x y)).
  eapply wp_mono; [apply (sve_while_spec (fun i '(s0, s1, s2, s3) => H y0 i s0 /\ H y1 i s1 /\ H y2 i s2 /\ H y3 i s3));
    [apply svcntw_pos|done|split_and!; apply holds_zero|]|].
  - intros k [[[s0 s1] s2] s3] Hk (H0 & H1 & H2 & H3). cbn zeta. change (@nzero Z Z_num) with 0.
    destruct (sve_round step f x y0 d (k * svcntw) s0 Hst Hx Hy0 Hk H0) as (a & b0 & Ea & -> & K0),
      (sve_round step f x y1 d (k * svcntw) s1 Hst Hx Hy1 Hk H1) as (a1 & b1 & Ea1 & -> & K1),
      (sve_round step f x y2 d (k * svcntw) s2 Hst Hx Hy2 Hk H2) as (a2 & b2 & Ea2 & -> & K2),
      (sve_round step f x y3 d (k * svcntw) s3 Hst Hx Hy3 Hk H3) as (a3 & b3 & Ea3 & -> & K3).
    assert (a1 = a) as -> by congruence. assert (a2 = a) as -> by congruence. assert (a3 = a) as -> by congruence.
    rewrite Ea. cbn [bind wp]. split_and!; done.
  - intros [[[s0 s1] s2] s3] ([_ H0] & [_ H1] & [_ H2] & [_ H3]). cbn [wp]. rewrite !usum_exact.
    unfold lanesum in H0, H1, H2, H3. by rewrite H0, H1, H2, H3.
Qed.
End pair.

(** * The SVE kernels that fill an array *)

(** ** Single lanes *)

Lemma lane_some (v : list Z) l u : v !! l = Some u -> lane v l = u.
Proof. apply nth_lookup_Some. Qed.

Lemma lane_lookup (v : list Z) l : (l < length v)%nat -> v !! l = Some (lane v l).
Proof. intros [u Hu]%lookup_lt_is_Some_2. by rewrite (lane_some v l u Hu). Qed.

Lemma lane_sel w k l (u v : list Z) : (k <= w)%nat -> (l < k)%nat -> length u = w -> length v = w ->
  lane (svsel (prefix w k) u v) l = lane u l.
Proof.
  intros Hk Hl Hu Hv. rewrite svsel_prefix by done. apply lane_some.
  rewrite lookup_app_l, lookup_take_lt by (rewrite ?length_take; lia). apply lane_lookup. lia.
Qed.

Lemma lane_zip (f : Z -> Z -> Z) (a b : list Z) l : (l < length a)%nat -> (l < length b)%nat ->
  lane (zip_with f a b) l = f (lane a l) (lane b l).
Proof.
  intros Ha Hb. apply lane_some. apply lookup_zip_with_Some. exists (lane a l), (lane b l).
  split_and!; [done|by apply lane_lookup|by apply lane_lookup].
Qed.

Lemma lane_z (f : Z -> Z -> Z) w k l (a b : list Z) : (l < k <= w)%nat -> length a = w -> length b = w ->
  lane (svsel (prefix w k) (zip_with f a b) (set1 (length (prefix w k)) 0)) l = f (lane a l) (lane b l).
Proof.
  intros Hl Ha Hb. rewrite length_prefix, lane_sel by (try lia; try (rewrite length_zip_with; lia); unfold set1; by rewrite length_replicate).
  apply lane_zip; lia.
Qed.

Lemma length_sel {B} w k (a b : list B) : length a = w -> length b = w -> length (svsel (prefix w k) a b) = w.
Proof. intros Ha Hb. unfold svsel. rewrite !length_zip_with, length_prefix. lia. Qed.

Lemma length_z (f : Z -> Z -> Z) w k (a b : list Z) : length a = w -> length b = w ->
  length (svsel (prefix w k) (zip_with f a b) (set1 (length (prefix w k)) 0)) = w.
Proof. intros Ha Hb. apply length_sel; [rewrite length_zip_with; lia|unfold set1; by rewrite length_replicate, length_prefix]. Qed.

Lemma lane_loaded (p : list Z) off k z l : (l < k)%nat -> (off + k <= length p)%nat ->
  lane (slice off (off + k) p ++ z) l = p !!! (off + l)%nat.
Proof.
  intros Hl Hp. apply lane_some. rewrite lookup_app_l by (rewrite length_slice; lia). unfold slice.
  rewrite lookup_take_lt, lookup_drop by lia. apply list_lookup_lookup_total_lt. lia.
Qed.

Lemma length_loaded (p : list Z) off k w : (k <= w)%nat -> (off + k <= length p)%nat ->
  length (slice off (off + k) p ++ replicate (w - k) 0) = w.
Proof. intros Hk Hp. rewrite length_app, length_replicate, length_slice; lia. Qed.

Lemma lane_set1 w (u : Z) l : (l < w)%nat -> lane (set1 w u) l = u.
Proof. intros Hl. apply lane_some. by apply lookup_replicate_2. Qed.

Lemma lane_fmap (g : nat -> Z) w l : (l < w)%nat -> lane (g <$> seq 0 w) l = g l.
Proof. intros Hl. apply lane_some. by rewrite list_lookup_fmap, lookup_seq_lt. Qed.

(** A store of the first [k] lanes. *)
Lemma svst1_filled (v : nat -> Z) dis i w k r u : (k <= w)%nat -> (i + k <= length dis)%nat -> filled v dis i r ->
  (forall l, (l < k)%nat -> lane u l = v (i + l)%nat) -> wp (svst1 (prefix w k) r i u) (filled v dis (i + k)).
Proof.
  intros Hk Hd Hr Hu. unfold svst1. rewrite length_prefix.
  apply (wp_for _ (fun l t => filled v dis (i + Nat.min l k) t)); [by rewrite Nat.min_0_l, Nat.add_0_r| |].
  - intros l t Hl Ht. rewrite nth_prefix, (proj2 (Nat.ltb_lt l w)) by lia. cbn [andb]. destruct (Nat.ltb_spec l k) as [Hlk|Hlk].
    + rewrite Nat.min_l in Ht by lia. eapply wp_mono; [apply (vset_next_row v dis); [lia|done|by apply Hu]|].
      intros r' Hr'. rewrite Nat.min_l by lia. by rewrite Nat.add_assoc.
    + cbn [wp]. rewrite Nat.min_r in Ht |- * by lia. done.
  - intros t Ht. rewrite Nat.add_0_l, Nat.min_r in Ht by lia. done.
Qed.

(** ** Loops that end undefined *)

Definition no_throw {B} (m : M B) : Prop := m = Undef \/ exists r, m = Ret r.

Lemma foldM_cases {S B} (f : S -> B -> M S) s l : (forall t x, no_throw (f t x)) -> no_throw (foldM f s l).
Proof.
  intros Hf. revert s. induction l as [|x l IH]; intros s; cbn [foldM]; [by right; eexists|].
  destruct (Hf s x) as [->|[r ->]]; [by left|]. apply IH.
Qed.

Lemma svld1_cases {B} (zero : B) pg p : no_throw (svld1 zero pg p).
Proof.
  apply foldM_cases. intros t i. destruct (nth i pg false); [|by right; eexists].
  destruct (vget_cases p i) as [->|[e ->]]; [by left|]. apply vset_cases.
Qed.

Lemma svst1_cases pg (p : list Z) off v : no_throw (svst1 pg p off v).
Proof. apply foldM_cases. intros t i. destruct (nth i pg false); [apply vset_cases|by right; eexists]. Qed.

Lemma sve_while_undef {S} fuel step (body : nat -> S -> M S) d s : (0 < d)%nat ->
  (forall i t, no_throw (body i t)) -> (forall i t, (i < d)%nat -> (d <= i + step)%nat -> body i t = Undef) ->
  sve_while fuel step body 0 d s = Undef.
Proof.
  intros Hd Hn Hu. assert (forall fuel i t, (i < d)%nat -> sve_while fuel step body i d t = Undef) as H; [|by apply H].
  clear fuel s. induction fuel as [|fuel IH]; intros i t Hi; cbn [sve_while]; rewrite (proj2 (Nat.ltb_lt i d)) by done; [done|].
  destruct (decide (d <= i + step)%nat) as [Hle|Hle]; [by rewrite Hu|].
  destruct (Hn i t) as [->|[r ->]]; [done|]. cbn [bind]. apply IH. lia.
Qed.

Section rows.
Context `{HI : !SveImpl, HU : !Usum Z}.
#[local] Abbreviation w := (@svcntw HI).

Section dimN.
Context (x y dis : list Z) (d ny : nat).
Hypothesis Hx : (d <= length x)%nat.
Hypothesis Hy : (ny * d <= length y)%nat.
Hypothesis Hdis : (ny <= length dis)%nat.

Lemma last_rows i e r : (i + e = ny)%nat -> filled (row_l2 x y d) dis i r ->
  wp (foldM (fun dis i => let* r := fvec_L2sqr_sve x (drop (i * d) y) d in vset dis i r) r (seq i e)) (filled (row_l2 x y d) dis ny).
Proof.
  intros Hie Hr. rewrite <- Hie. apply vset_rows; [lia|done|]. intros k t Hk.
  rewrite (l2_sve_value x (drop (k * d) y) d); [done|done|]. apply (row_length y d ny); [done|lia].
Qed.

Lemma rows_dimN_sve : fvec_L2sqr_ny_dimN_sve dis x y d ny = fvec_L2sqr_ny_ref dis x y d ny.
Proof.
  apply (rows_by x y dis d ny Hx Hy Hdis (row_l2 x y d)); [done|]. unfold fvec_L2sqr_ny_dimN_sve. apply wp_bind.
  eapply wp_mono; [apply (strips_spec (filled (row_l2 x y d) dis) ny); [lia|lia|lia|done|]|].
  - intros i r Hi Hr. cbn zeta. rewrite !drop_drop.
    replace (i * d + d)%nat with ((i + 1) * d)%nat by lia. replace (i * d + 2 * d)%nat with ((i + 2) * d)%nat by lia.
    replace (i * d + 3 * d)%nat with ((i + 3) * d)%nat by lia.
    unfold fvec_L2sqr_batch_4_sve. rewrite (sve_batch_value _ sq); [|apply l2_adds|done|].
    + cbn [bind]. apply wp_bind. eapply wp_mono; [apply (vset_next_row (row_l2 x y d) dis); [lia|done|done]|]. clear r Hr. intros r Hr.
      apply wp_bind. eapply wp_mono; [apply (vset_next_row (row_l2 x y d) dis); [lia|done|done]|]. clear r Hr. intros r Hr.
      replace (i + 1 + 1)%nat with (i + 2)%nat in Hr by lia.
      apply wp_bind. eapply wp_mono; [apply (vset_next_row (row_l2 x y d) dis); [lia|done|done]|]. clear r Hr. intros r Hr.
      replace (i + 2 + 1)%nat with (i + 3)%nat in Hr by lia.
      eapply wp_mono; [apply (vset_next_row (row_l2 x y d) dis); [lia|done|done]|]. clear r Hr. intros r Hr.
      by replace (i + 4)%nat with (i + 3 + 1)%nat by lia.
    + rewrite !Forall_cons, Forall_nil. split_and!; try done; apply (row_length y d ny); try done; lia.
  - intros [[i e] r] (Hie & He & Hr). by apply last_rows.
Qed.

Lemma ip_rows_sve : fvec_inner_products_ny_sve dis x y d ny = fvec_inner_products_ny_ref dis x y d ny.
Proof.
  assert (fvec_inner_products_ny_ref dis x y d ny =
    Ret (((fun i => lanesum (take d (zip_with Z.mul x (drop (i * d) y)))) <$> seq 0 ny) ++ drop ny dis)) as ->.
  { apply fill_spec; [done|]. intros i Hi. apply ip_ref_value; [done|]. by apply (row_length y d ny). }
  match goal with |- ?m = Ret ?r => assert (wp m (fun q => q = r)) as E; [|by apply wp_elim in E as (? & -> & ->)] end.
  apply (vset_rows _ dis 0 ny dis); [lia|done|]. intros k t Hk. rewrite (ip_sve_value x (drop (k * d) y) d); [done|done|].
  apply (row_length y d ny); [done|lia].
Qed.
End dimN.

Section dim1.
Context (a : Z) (x' y dis : list Z) (ny : nat).
Hypothesis Hy : (ny * 1 <= length y)%nat.
Hypothesis Hdis : (ny <= length dis)%nat.
Let v (k : nat) : Z := (a - y !!! k) * (a - y !!! k).

Lemma rows_dim1_sve : fvec_L2sqr_ny_dim1_sve dis (a :: x') y 1 ny = fvec_L2sqr_ny_ref dis (a :: x') y 1 ny.
Proof.
  apply (rows_by (a :: x') y dis 1 ny ltac:(simpl; lia) Hy Hdis v); [by apply dim1_row|].
  unfold fvec_L2sqr_ny_dim1_sve. rewrite Nat.mod_1_r. cbn [Nat.eqb negb].
  change (vget (a :: x') 0) with (Ret a). cbn [bind].
  apply (sve_while_spec (filled v dis)); [apply svcntw_pos|done|done|].
  intros j r Hj Hr. rewrite whilelt_prefix, next_off by done. set (i := (j * w)%nat) in *. set (k := Nat.min w (ny - i)).
  change (@nzero Z Z_num) with 0. rewrite svld1_prefix by lia. cbn [bind].
  apply svst1_filled; [lia|lia|done|]. intros l Hl. unfold svmul_z, svsub_z, vmul, vsub.
  assert (length (slice i (i + k) y ++ replicate (w - k) 0) = w) as Hlen by (apply length_loaded; lia).
  assert (length (set1 w a) = w) as Hset by apply length_replicate.
  rewrite !lane_z; try (done || lia || by apply length_z). rewrite lane_set1, lane_loaded by lia. done.
Qed.
End dim1.

Lemma lane_app_l (u z : list Z) l : (l < length u)%nat -> lane (u ++ z) l = lane u l.
Proof. intros Hl. unfold lane. by apply app_nth1. Qed.

Lemma lane_app_r (u z : list Z) l : (length u <= l)%nat -> lane (u ++ z) l = lane z (l - length u).
Proof. intros Hl. unfold lane. by apply app_nth2. Qed.

Lemma uzp_lanes (u z : list Z) l : (l < length u)%nat ->
  lane (svuzp1 u z) l = lane (u ++ z) (2 * l) /\ lane (svuzp2 u z) l = lane (u ++ z) (2 * l + 1).
Proof. intros Hl. unfold svuzp1, svuzp2. by rewrite !lane_fmap by done. Qed.

Lemma length_uzp (u z : list Z) : length (svuzp1 u z) = length u /\ length (svuzp2 u z) = length u.
Proof. unfold svuzp1, svuzp2. by rewrite !length_fmap, !length_seq. Qed.

Section dim2.
Context (a b : Z) (x' y dis : list Z) (ny : nat).

(** The round of row [i]: [k] active elements, the second load one further. *)
Lemma dim2_guard : negb (w mod 2 =? 0)%nat = false /\ (w / 2 * 2 = w)%nat /\ (0 < w / 2)%nat.
Proof.
  destruct svcntw_quads as (q & Hq & E). pose proof (Nat.div_mod_eq w 2). 
  assert (w mod 2 = 0)%nat as Hm by (rewrite E; replace (4 * q)%nat with (2 * q * 2)%nat by lia; apply Nat.Div0.mod_mul).
  rewrite Hm. split; [done|]. lia.
Qed.

Section longer.
Hypothesis Hy : (ny * 2 < length y)%nat.
Hypothesis Hdis : (ny <= length dis)%nat.
Let v (k : nat) : Z := sq_diff a (y !!! (k * 2)%nat) + sq_diff b (y !!! (k * 2 + 1)%nat).

Lemma rows_dim2_sve : fvec_L2sqr_ny_dim2_sve dis (a :: b :: x') y 2 ny = fvec_L2sqr_ny_ref dis (a :: b :: x') y 2 ny.
Proof.
  apply (rows_by (a :: b :: x') y dis 2 ny ltac:(simpl; lia) ltac:(lia) Hdis v); [by apply dim2_row; lia|].
  unfold fvec_L2sqr_ny_dim2_sve. destruct dim2_guard as (-> & Hhalf & Hpos).
  change (vget (a :: b :: x') 0) with (Ret a). change (vget (a :: b :: x') 1) with (Ret b). cbn [bind].
  apply (sve_while_spec (filled v dis)); [done|done|done|].
  intros j r Hj Hr. rewrite !whilelt_prefix, next_off, Nat.sub_0_r by done. set (i := (j * (w / 2))%nat) in *.
  set (k := Nat.min w (ny * 2 - i * 2)). set (m := Nat.min (w / 2) (ny - i)). rewrite (Nat.min_r w m) by lia.
  change (@nzero Z Z_num) with 0. rewrite !svld1_prefix by lia. cbn [bind].
  set (y0 := slice (2 * i + 0) _ y ++ _). set (y1 := slice (2 * i + 1) _ y ++ _).
  assert (length y0 = w) as L0 by (apply length_loaded; lia).
  assert (length y1 = w) as L1 by (apply length_loaded; lia).
  destruct (length_uzp y0 y1) as [U1 U2]. rewrite L0 in U1, U2.
  assert (forall u : Z, length (set1 w u) = w) as Hset by (intros u; apply length_replicate).
  apply svst1_filled; [lia|lia|done|]. intros l Hl. unfold svadd_z, svmul_z, svsub_z, vadd, vmul, vsub.
  rewrite !lane_z by (try lia; try done; by repeat apply length_z). rewrite !lane_set1 by lia.
  destruct (uzp_lanes y0 y1 l) as [-> ->]; [lia|]. rewrite !lane_app_l by lia. unfold y0. rewrite !lane_loaded by lia.
  replace (2 * i + 0 + 2 * l)%nat with ((i + l) * 2)%nat by lia.
  replace (2 * i + 0 + (2 * l + 1))%nat with ((i + l) * 2 + 1)%nat by lia. reflexivity.
Qed.
End longer.

(** Rows that end with the array: the last active lane of the second load lies
    behind the end. *)
Lemma rows_dim2_over : (length y = ny * 2)%nat -> (0 < ny)%nat -> (ny <= length dis)%nat ->
  fvec_L2sqr_ny_dim2_sve dis (a :: b :: x') y 2 ny = Undef.
Proof.
  intros Hy Hny Hdis. unfold fvec_L2sqr_ny_dim2_sve. destruct dim2_guard as (-> & Hhalf & Hpos).
  change (vget (a :: b :: x') 0) with (Ret a). change (vget (a :: b :: x') 1) with (Ret b). cbn [bind].
  change (@nzero Z Z_num) with 0. apply sve_while_undef; [done| |].
  - intros i t. destruct (svld1_cases 0 (svwhilelt w (i * 2) (ny * 2)) (drop (2 * i + 0) y)) as [->|[u ->]]; [by left|]. cbn [bind].
    destruct (svld1_cases 0 (svwhilelt w (i * 2) (ny * 2)) (drop (2 * i + 1) y)) as [->|[z ->]]; [by left|]. cbn [bind].
    apply svst1_cases.
  - intros i t Hi Hle. rewrite whilelt_prefix. set (k := Nat.min w (ny * 2 - i * 2)).
    rewrite svld1_prefix by lia. cbn [bind]. by rewrite svld1_over by lia.
Qed.
End dim2.

Section dim4.
Context (x y dis : list Z) (ny : nat).
Hypothesis Hx : (4 <= length x)%nat.
Hypothesis Hy : (ny * 4 <= length y)%nat.
Hypothesis Hdis : (ny <= length dis)%nat.
(** The squared difference of element [j] of [y]. *)
Let g (j : nat) : Z := (x !!! (j mod 4)%nat - y !!! j) * (x !!! (j mod 4)%nat - y !!! j).
Let v (k : nat) : Z := g (4 * k) + g (4 * k + 1) + (g (4 * k + 2) + g (4 * k + 3)).

Lemma mod4 k t : (t < 4)%nat -> ((4 * k + t) mod 4 = t)%nat.
Proof.
  clear. intros Ht. replace (4 * k + t)%nat with (t + k * 4)%nat by lia. rewrite Nat.Div0.mod_add. by apply Nat.mod_small.
Qed.

Lemma dim4_row k : (k < ny)%nat -> v k = row_l2 x y 4 k.
Proof.
  clear Hdis. intros Hk. unfold row_l2. rewrite !drop_cons_total by lia.
  destruct x as [|a [|b [|c [|e x']]]]; try (simpl in Hx; lia). cbn [zip_with take]. rewrite take_0. unfold lanesum, sq. cbn [foldr].
  unfold v, g. pose proof (mod4 k 0 ltac:(lia)) as E0. rewrite Nat.add_0_r in E0. rewrite E0, !mod4 by lia.
  replace (k * 4)%nat with (4 * k)%nat by lia. replace (S (4 * k)) with (4 * k + 1)%nat by lia.
  replace (S (4 * k + 1)) with (4 * k + 2)%nat by lia. replace (S (4 * k + 2)) with (4 * k + 3)%nat by lia.
  cbn [lookup_total list_lookup_total]. ring.
Qed.

Lemma dim4_guard : negb (w mod 4 =? 0)%nat = false /\ (w * 2 / 4 * 2 = w)%nat /\ (0 < w * 2 / 4)%nat /\ (w mod 4 = 0)%nat.
Proof.
  clear. destruct svcntw_quads as (q & Hq & E). rewrite E. replace (4 * q)%nat with (q * 4)%nat by lia.
  rewrite Nat.Div0.mod_mul. replace (q * 4 * 2)%nat with (q * 2 * 4)%nat by lia. rewrite Nat.div_mul by lia. split_and!; try done; lia.
Qed.

Lemma x_n_lanes : exists x_vec, svld1rq x = Ret x_vec /\
  forall l, (l < w)%nat -> lane (svtbl x_vec ((fun l => Nat.land l 3) <$> seq 0 w)) l = x !!! (l mod 4)%nat.
Proof.
  unfold svld1rq. assert (loadu 4 x = Ret (slice 0 (0 + 4) x)) as -> by (apply (loadu_ok 4 x 0); lia). cbn [bind]. eexists. split; [reflexivity|].
  intros l Hl. unfold svtbl. rewrite <- list_fmap_compose. rewrite lane_fmap by done. unfold compose.
  replace (Nat.land l 3) with (l mod 4)%nat by (symmetry; exact (Nat.land_ones l 2)).
  pose proof (Nat.mod_upper_bound l 4 ltac:(lia)) as Hm. destruct svcntw_quads as (q & Hq & E).
  rewrite lane_fmap by lia. rewrite Nat.Div0.mod_mod.
  apply lane_some. rewrite slice_0, lookup_take_lt by done. apply list_lookup_lookup_total_lt. lia.
Qed.

Lemma rows_dim4_sve : fvec_L2sqr_ny_dim4_sve dis x y 4 ny = fvec_L2sqr_ny_ref dis x y 4 ny.
Proof.
  apply (rows_by x y dis 4 ny Hx Hy Hdis v); [apply dim4_row|].
  unfold fvec_L2sqr_ny_dim4_sve. destruct dim4_guard as (-> & Hhalf & Hpos & Hmod). cbn [andb].
  destruct x_n_lanes as (x_vec & -> & Hxn). cbn [bind]. set (x_n := svtbl _ _) in *.
  assert (length x_n = w) as Lx by (unfold x_n, svtbl; by rewrite !length_fmap, length_seq).
  apply wp_bind. set (step := (w * 2 / 4)%nat) in *.
  eapply wp_mono; [apply (strips_spec (filled v dis) ny); [done|lia|lia|done|]|].
  - intros i r Hi Hr. rewrite !whilelt_prefix, ptrue_prefix, Nat.sub_0_r.
    rewrite !(Nat.min_l w) by lia. rewrite (Nat.min_l step), (Nat.min_r w) by lia.
    change (@nzero Z Z_num) with 0. rewrite !svld1_prefix by lia. cbn [bind].
    set (y0 := slice (4 * i + 0) _ y ++ _). set (y1 := slice (4 * i + w) _ y ++ _).
    assert (length y0 = w) as L0 by (apply length_loaded; lia).
    assert (length y1 = w) as L1 by (apply length_loaded; lia).
    set (u0 := svmul_z _ (svsub_z _ x_n y0) _). set (u1 := svmul_z _ (svsub_z _ x_n y1) _).
    assert (length u0 = w) as M0 by by repeat apply length_z. assert (length u1 = w) as M1 by by repeat apply length_z.
    assert (forall j, (j < 2 * w)%nat -> lane (u0 ++ u1) j = g (4 * i + j)) as Hg.
    { intros j Hj. assert (forall l, (4 * i + l) mod 4 = l mod 4)%nat as Hi4.
      { intros l. rewrite Nat.add_comm, Nat.mul_comm. apply Nat.Div0.mod_add. }
      unfold g. rewrite Hi4. destruct (decide (j < w)%nat) as [Hjw|Hjw].
      - rewrite lane_app_l by lia. unfold u0, svmul_z, svsub_z, vmul, vsub. rewrite !lane_z by (try lia; try done; by apply length_z).
        rewrite Hxn by done. unfold y0. rewrite lane_loaded by lia. by rewrite Nat.add_0_r.
      - rewrite lane_app_r, M0 by lia. unfold u1, svmul_z, svsub_z, vmul, vsub. rewrite !lane_z by (try lia; try done; by apply length_z).
        rewrite Hxn by lia. unfold y1. rewrite lane_loaded by lia.
        replace (4 * i + w + (j - w))%nat with (4 * i + j)%nat by lia.
        replace ((j - w) mod 4)%nat with (j mod 4)%nat; [done|].
        rewrite (Nat.Div0.mod_divides w 4) in Hmod. destruct Hmod as [q Hq]. replace j with (j - w + q * 4)%nat at 1 by lia.
        apply Nat.Div0.mod_add. }
    destruct (length_uzp u0 u1) as [U1 U2]. rewrite M0 in U1, U2.
    set (p0 := svadd_z _ (svuzp1 u0 u1) (svuzp2 u0 u1)). assert (length p0 = w) as P0 by by apply length_z.
    assert (forall l, (l < w)%nat -> lane p0 l = g (4 * i + 2 * l) + g (4 * i + (2 * l + 1))) as Hp0.
    { intros l Hl. unfold p0, svadd_z, vadd. rewrite lane_z by (try lia; done).
      destruct (uzp_lanes u0 u1 l) as [-> ->]; [lia|]. by rewrite !Hg by lia. }
    destruct (length_uzp p0 (set1 w 0)) as [V1 V2]. rewrite P0 in V1, V2.
    replace (i + step)%nat with (i + step)%nat by done.
    apply svst1_filled; [lia|lia|done|]. intros l Hl. unfold svadd_z at 1, vadd. rewrite lane_z by (try lia; done).
    destruct (uzp_lanes p0 (set1 w 0) l) as [-> ->]; [lia|]. rewrite !lane_app_l, !Hp0 by lia. unfold v.
    replace (4 * i + 2 * (2 * l))%nat with (4 * (i + l))%nat by lia. replace (4 * i + (2 * (2 * l) + 1))%nat with (4 * (i + l) + 1)%nat by lia.
    replace (4 * i + 2 * (2 * l + 1))%nat with (4 * (i + l) + 2)%nat by lia.
    replace (4 * i + (2 * (2 * l + 1) + 1))%nat with (4 * (i + l) + 3)%nat by lia. done.
  - intros [[i e] r] (Hie & He & Hr). eapply wp_mono; [apply (last_rows x y dis 4 ny Hx Hy Hdis i e r Hie)|].
    + eapply filled_ext; [|exact Hr]. intros k Hk. apply dim4_row. lia.
    + intros t Ht. eapply filled_ext; [|exact Ht]. intros k Hk. symmetry. by apply dim4_row.
Qed.
End dim4.
End rows.

Section ny.
Context `{HI : !SveImpl, HU : !Usum Z}.

Lemma ny_sve_l2 x y dis d ny : (d <= length x)%nat -> (ny * d <= length y)%nat -> (ny <= length dis)%nat ->
  (d = 2%nat -> (ny * 2 < length y)%nat) -> fvec_L2sqr_ny_sve dis x y d ny = fvec_L2sqr_ny_ref dis x y d ny.
Proof.
  intros Hx Hy Hd H2. unfold fvec_L2sqr_ny_sve.
  destruct d as [|[|[|[|[|d]]]]]; try by apply rows_dimN_sve.
  - destruct x as [|a x']; [simpl in Hx; lia|]. by apply rows_dim1_sve.
  - destruct x as [|a [|b x']]; simpl in Hx; try lia. apply rows_dim2_sve; [by apply H2|done].
  - by apply rows_dim4_sve.
Qed.
End ny.

(** * Least elements with SVE: the nearest row, multiply-add and argmin *)

(** ** The last lane with the least value *)

Lemma minq_min (s t : Z) : minq s t = Z.min s t.
Proof. unfold minq. cbn. rewrite !Z.eqb_refl. cbn [negb]. destruct (Z.ltb_spec t s); lia. Qed.

Lemma foldl_min (l : list Z) a : (foldl minq a l ∈ a :: l) /\ forall u, u ∈ a :: l -> foldl minq a l <= u.
Proof.
  revert a. induction l as [|b l IH]; intros a; cbn [foldl].
  - split; [set_solver|]. intros u Hu. assert (u = a) as -> by set_solver. lia.
  - rewrite minq_min. destruct (IH (Z.min a b)) as [H1 H2]. split.
    + destruct (Z.min_spec a b) as [[_ E]|[_ E]]; rewrite E in *; set_solver.
    + pose proof (H2 (Z.min a b) ltac:(set_solver)) as Hm.
      intros u Hu. assert (u = a \/ u = b \/ u ∈ l) as [->|[->|Hl]] by set_solver; [lia|lia|]. apply H2. set_solver.
Qed.

Lemma svminv_least (v : list Z) : (0 < length v)%nat -> (exists l, (l < length v)%nat /\ lane v l = svminv v) /\
  forall l, (l < length v)%nat -> svminv v <= lane v l.
Proof.
  intros Hl. destruct v as [|a v]; [simpl in Hl; lia|]. unfold svminv. cbn [drop]. change (lane (a :: v) 0) with a.
  destruct (foldl_min v a) as [H1 H2]. split.
  - apply list_elem_of_lookup_1 in H1 as [l E]. exists l. split; [by eapply lookup_lt_Some|]. by apply lane_some.
  - intros l Hlt. apply H2. eapply list_elem_of_lookup_2. by apply lane_lookup.
Qed.

Lemma svlastb_some pg (v : list Z) : (exists l, (l < length v)%nat /\ nth l pg false = true) ->
  exists l, (l < length v)%nat /\ nth l pg false = true /\ svlastb pg v = lane v l.
Proof.
  intros (l0 & Hl0 & Hp0). unfold svlastb. set (f := filter _ _).
  destruct (last f) as [l|] eqn:E.
  - exists l. apply last_Some_elem_of, list_elem_of_filter in E as [Hp Hin%elem_of_seq]. cbn [default]. split_and!; [lia|done|done].
  - apply last_None in E. exfalso. assert (l0 ∈ f) as Hin; [|rewrite E in Hin; by apply elem_of_nil in Hin].
    apply list_elem_of_filter. split; [done|]. apply elem_of_seq. lia.
Qed.

(** ** Lanes that keep their least element *)

Section least.
Context `{HI : !SveImpl} (v : nat -> Z) (n : nat) (top : Z).
#[local] Abbreviation w := (@svcntw HI).
Hypothesis Hn : Z.of_nat n <= 2 ^ 32.

(** After the elements below [i]: every lane holds an element of the array and
    its position, or the start value, and nothing of its own is below. *)
Definition lane_good (i l : nat) (val idx : Z) : Prop :=
  ((exists t, (t < n)%nat /\ val = v t /\ idx = Z.of_nat t) \/ (val = top /\ idx = 0)) /\
  forall j, (j < i)%nat -> (j mod w = l)%nat -> val <= v j.
Definition lanes_good (i : nat) (vals idxs : list Z) : Prop :=
  length vals = w /\ length idxs = w /\ forall l, (l < w)%nat -> lane_good i l (lane vals l) (lane idxs l).

Lemma lane_svsel cmp (a b : list Z) l : (l < length cmp)%nat -> (l < length a)%nat -> (l < length b)%nat ->
  lane (svsel cmp a b) l = if nth l cmp false then lane a l else lane b l.
Proof.
  intros Hc Ha Hb. apply lane_some. apply lookup_zip_with_Some. exists (nth l cmp false), (lane a l, lane b l).
  split_and!; [by destruct (nth l cmp false)| |].
  - destruct (lookup_lt_is_Some_2 cmp l Hc) as [m Hm]. by rewrite (nth_lookup_Some _ _ _ _ Hm).
  - apply lookup_zip_with_Some. exists (lane a l), (lane b l). split_and!; [done|by apply lane_lookup|by apply lane_lookup].
Qed.

Lemma nth_cmplt m (a b : list Z) l : (l < w)%nat -> length a = w -> length b = w ->
  nth l (svcmplt (prefix w m) a b) false = (l <? m)%nat && (lane a l <? lane b l).
Proof.
  intros Hl Ha Hb. apply nth_lookup_Some, lookup_zip_with_Some. exists (l <? m)%nat, (lane a l <? lane b l).
  split_and!; [done| |].
  - unfold prefix. by rewrite list_lookup_fmap, lookup_seq_lt.
  - apply lookup_zip_with_Some. exists (lane a l), (lane b l). split_and!; [done|apply lane_lookup; lia|apply lane_lookup; lia].
Qed.

Lemma length_cmplt m (a b : list Z) : length a = w -> length b = w -> length (svcmplt (prefix w m) a b) = w.
Proof. intros Ha Hb. unfold svcmplt. rewrite !length_zip_with, length_prefix. lia. Qed.

Lemma mod_next i l : (exists k, i = k * w)%nat -> (l < w)%nat -> ((i + l) mod w = l)%nat.
Proof. intros [k ->] Hl. rewrite Nat.add_comm, Nat.Div0.mod_add. by apply Nat.mod_small. Qed.

(** One round: the values [vec] of the next elements and their positions [idx]. *)
Lemma lanes_good_round i vec idx vals idxs : (exists k, i = k * w)%nat -> (i < n)%nat -> length vec = w -> length idx = w ->
  let m := Nat.min w (n - i) in
  (forall l, (l < m)%nat -> lane vec l = v (i + l)%nat /\ lane idx l = Z.of_nat (i + l)) -> lanes_good i vals idxs ->
  let cmp := svcmplt (prefix w m) vec vals in
  lanes_good (i + m) (svsel cmp vec vals) (svsel cmp idx idxs).
Proof.
  intros Hi Hin Lv Li m Hm (L1 & L2 & Hg) cmp.
  assert (length cmp = w) as Lc by by apply length_cmplt.
  split; [unfold svsel; rewrite !length_zip_with; lia|]. split; [unfold svsel; rewrite !length_zip_with; lia|].
  intros l Hl. rewrite !lane_svsel by lia. unfold cmp. rewrite nth_cmplt by done.
  destruct (Hg l Hl) as [Hval Hmin]. destruct (Nat.ltb_spec l m) as [Hlm|Hlm]; cbn [andb].
  - destruct (Hm l Hlm) as [-> ->]. destruct (Z.ltb_spec (v (i + l)%nat) (lane vals l)) as [Hlt|Hge].
    + split; [left; exists (i + l)%nat; split_and!; [lia|done|done]|].
      intros j Hj Hmod. destruct (decide (j < i)%nat) as [Hji|Hji]; [specialize (Hmin j Hji Hmod); lia|].
      assert (j = i + l)%nat as ->; [|lia]. replace j with (i + (j - i))%nat in Hmod by lia. rewrite mod_next in Hmod by (done || lia). lia.
    + split; [done|]. intros j Hj Hmod. destruct (decide (j < i)%nat) as [Hji|Hji]; [by apply Hmin|].
      assert (j = i + l)%nat as ->; [|lia]. replace j with (i + (j - i))%nat in Hmod by lia. rewrite mod_next in Hmod by (done || lia). lia.
  - split; [done|]. intros j Hj Hmod. destruct (decide (j < i)%nat) as [Hji|Hji]; [by apply Hmin|].
    replace j with (i + (j - i))%nat in Hmod by lia. rewrite mod_next in Hmod by (done || lia). lia.
Qed.

Lemma lane_index_ok i l : (i + l < n)%nat -> (l < w)%nat -> lane (lane_index i) l = Z.of_nat (i + l).
Proof. intros Hi Hl. unfold lane_index. rewrite lane_fmap by done. apply Z.mod_small. lia. Qed.

Lemma last_least_ok vals idxs : (0 < n)%nat -> lanes_good n vals idxs -> (top = v 0%nat \/ v 0%nat < top) ->
  exists i, (i < n)%nat /\ last_least vals idxs = Z.of_nat i /\ forall j, (j < n)%nat -> v i <= v j.
Proof.
  intros H0 (L1 & L2 & Hg) Htop. pose proof svcntw_pos as Hw.
  destruct (svminv_least vals) as [(l0 & Hl0 & E0) Hmin]; [lia|]. unfold last_least. cbv zeta.
  set (pg := (fun s => neqb s (svminv vals)) <$> vals).
  assert (forall l, (l < w)%nat -> nth l pg false = (lane vals l =? svminv vals)) as Hpg.
  { intros l Hl. apply nth_lookup_Some. unfold pg. rewrite list_lookup_fmap, lane_lookup by lia. done. }
  destruct (svlastb_some pg idxs) as (l & Hl & Hp & ->).
  { exists l0. split; [lia|]. rewrite Hpg by lia. rewrite E0. apply Z.eqb_refl. }
  rewrite Hpg in Hp by lia. apply Z.eqb_eq in Hp.
  assert (forall j, (j < n)%nat -> lane vals l <= v j) as Hall.
  { intros j Hj. pose proof (Nat.mod_upper_bound j w ltac:(lia)) as Hm. destruct (Hg (j mod w)%nat Hm) as [_ Hj'].
    specialize (Hj' j Hj eq_refl). specialize (Hmin (j mod w)%nat ltac:(lia)). lia. }
  destruct (Hg l ltac:(lia)) as [[(t & Ht & Ev & ->)|[Ev ->]] _].
  - exists t. split_and!; [done|done|]. rewrite <- Ev. done.
  - pose proof (Hall 0%nat H0) as H00. exists 0%nat. split_and!; [done|done|].
    destruct Htop as [Etop|Hlt]; [|lia]. intros j Hj. specialize (Hall j Hj). lia.
Qed.
End least.

Section kernels.
Context `{HI : !SveImpl}.
#[local] Abbreviation w := (@svcntw HI).

Lemma lanes_good_start v n top : lanes_good v n top 0 (set1 w top) (replicate w 0).
Proof.
  split; [apply length_replicate|]. split; [apply length_replicate|]. intros l Hl.
  rewrite lane_set1 by done. rewrite (lane_some _ _ 0) by (by apply lookup_replicate_2). split; [by right|]. intros j Hj. lia.
Qed.

Lemma find_min_least (data : list Z) ny : (0 < ny)%nat -> (ny <= length data)%nat -> Z.of_nat ny <= 2 ^ 32 ->
  exists i, (i < ny)%nat /\ find_min_index_sve data ny = Ret (Z.of_nat i) /\ forall j, (j < ny)%nat -> data !!! i <= data !!! j.
Proof.
  intros H0 Hd Hn. set (v := fun i => data !!! i).
  enough (wp (find_min_index_sve data ny) (fun r => exists i, (i < ny)%nat /\ r = Z.of_nat i /\ forall j, (j < ny)%nat -> v i <= v j)) as H.
  { apply wp_elim in H as (r & -> & i & Hi & -> & Hmin). by exists i. }
  unfold find_min_index_sve. destruct (Nat.leb_spec ny 0); [lia|]. rewrite vget_total by lia. cbn [bind]. apply wp_bind.
  eapply wp_mono; [apply (sve_while_spec (fun i '(vals, idxs) => lanes_good v ny (v 0%nat) i vals idxs));
    [apply svcntw_pos|done|apply lanes_good_start|]|].
  - intros k [vals idxs] Hk Hg. rewrite whilelt_prefix, next_off by done. set (i := (k * w)%nat) in *. set (m := Nat.min w (ny - i)).
    change (@nzero Z Z_num) with 0. rewrite svld1_prefix by lia. cbn [bind wp].
    apply lanes_good_round; [by exists k|done|apply length_loaded; lia|unfold lane_index; by rewrite length_fmap, length_seq| |done].
    intros l Hl. split; [apply lane_loaded; lia|]. apply (lane_index_ok ny Hn); lia.
  - intros [vals idxs] Hg. cbn [wp].
    destruct (last_least_ok v ny (v 0%nat) vals idxs H0 Hg ltac:(by left)) as (i & Hi & E & Hmin). by exists i.
Qed.

Section madd.
Context (a b c : list Z) (bf : Z) (n : nat).
Hypothesis Ha : (n <= length a)%nat.
Hypothesis Hb : (n <= length b)%nat.
Hypothesis Hc : (n <= length c)%nat.
Let v := madd_at a b bf.

(** The register of the next elements: [a + b * bf] in the active lanes. *)
Lemma madd_round i : (i < n)%nat -> let m := Nat.min w (n - i) in exists a_ b_,
  svld1 0 (pg_at w i n) (drop i a) = Ret a_ /\ svld1 0 (pg_at w i n) (drop i b) = Ret b_ /\
  length (svmla_m (pg_at w i n) a_ b_ (set1 w bf)) = w /\
  forall l, (l < m)%nat -> lane (svmla_m (pg_at w i n) a_ b_ (set1 w bf)) l = v (i + l)%nat.
Proof.
  clear Hc. intros Hi m. rewrite pg_at_prefix. fold m. rewrite !svld1_prefix by lia. eexists _, _. split; [done|]. split; [done|].
  assert (length (slice i (i + m) a ++ replicate (w - m) 0) = w) as La by (apply length_loaded; lia).
  assert (length (slice i (i + m) b ++ replicate (w - m) 0) = w) as Lb by (apply length_loaded; lia).
  unfold svmla_m. rewrite fmadd_vmul. assert (length (set1 w bf) = w) as Lf by apply length_replicate. split.
  - apply length_sel; [unfold vadd, vmul; rewrite !length_zip_with; lia|done].
  - intros l Hl. rewrite lane_sel by (try lia; try done; unfold vadd, vmul; rewrite !length_zip_with; lia).
    unfold vadd, vmul. rewrite !lane_zip by (rewrite ?length_zip_with; lia). rewrite lane_set1, !lane_loaded by lia.
    unfold v, madd_at. cbn. lia.
Qed.

Lemma madd_sve_filled : wp (fvec_madd_sve n a bf b c) (filled v c n).
Proof.
  apply (sve_while_spec (filled v c)); [apply svcntw_pos|done|done|].
  intros k r Hk Hr. cbv beta zeta. change (@nzero Z Z_num) with 0. destruct (madd_round (k * w) Hk) as (a_ & b_ & -> & -> & _ & Hv). cbn [bind].
  rewrite next_off, pg_at_prefix in * by done. apply svst1_filled; [lia|lia|done|]. done.
Qed.

Lemma argmin_sve_least inf : (0 < n)%nat -> Z.of_nat n <= 2 ^ 32 -> (forall i, (i < n)%nat -> v i < inf) ->
  wp (fvec_madd_and_argmin_sve inf n a bf b c) (fun '(r, ans) => filled v c n r /\
    exists i, (i < n)%nat /\ ans = Z.of_nat i /\ forall j, (j < n)%nat -> v i <= v j).
Proof.
  intros H0 Hn Hv. unfold fvec_madd_and_argmin_sve. apply wp_bind.
  eapply wp_mono; [apply (sve_while_spec (fun i '(r, vals, idxs) => filled v c i r /\ lanes_good v n inf i vals idxs));
    [apply svcntw_pos|done|split; [done|apply lanes_good_start]|]|].
  - intros k [[r vals] idxs] Hk [Hr Hg]. change (@nzero Z Z_num) with 0. cbn zeta.
    destruct (madd_round (k * w) Hk) as (a_ & b_ & -> & -> & Lc & Hl). cbn [bind].
    set (i := (k * w)%nat) in *. set (m := Nat.min w (n - i)) in *. set (cv := svmla_m _ _ _ _) in *.
    rewrite next_off, pg_at_prefix by done. fold m. apply wp_bind.
    eapply wp_mono; [apply (svst1_filled v c i w m); [lia|lia|done|done]|]. intros r' Hr'. cbn [wp]. split; [done|].
    assert (length (lane_index i) = w) as Lix by (unfold lane_index; by rewrite length_fmap, length_seq).
    apply lanes_good_round; [by exists k|done|done|apply length_sel; [done|apply length_replicate]| |done].
    intros l Hlm. split; [by apply Hl|]. fold m in Hlm. rewrite lane_sel; [|lia|done|done|apply length_replicate].
    apply (lane_index_ok n Hn); lia.
  - intros [[r vals] idxs] [Hr Hg]. cbn [wp]. split; [done|].
    destruct (last_least_ok v n inf vals idxs H0 Hg ltac:(right; by apply Hv)) as (i & Hi & E & Hmin). by exists i.
Qed.
End madd.
End kernels.
