(* ===== verification/SveInt8.v ===== *)
(** * The SVE kernels on 16-bit elements *)

From S2P Require Import Prelude Float HnswGraph Num Bitset MemoryIO Operands Distances DistanceProps Rvv RvvKernels.
From S2P Require Import RvvProps RvvColumns Simd SimdProps AvxProps SseProps Neon NeonInt8 NeonProps Sve SveProps.

#[local] Open Scope Z_scope.

(** ** Sums over lanes that hold every second element *)

Lemma seq_snoc n : seq 0 (S n) = seq 0 n ++ [n].
Proof. by rewrite seq_S. Qed.

Lemma lanesum_one (a : Z) : lanesum [a] = a.
Proof. unfold lanesum. cbn [foldr]. lia. Qed.

Lemma sve_halves_sum (h : nat -> Z) n :
  lanesum ((fun l => h (2 * l)%nat) <$> seq 0 n) + lanesum ((fun l => h (2 * l + 1)%nat) <$> seq 0 n) = lanesum (h <$> seq 0 (2 * n)).
Proof.
  induction n as [|n IH]; [done|]. replace (2 * S n)%nat with (S (S (2 * n))) by lia.
  rewrite !seq_snoc, !fmap_app, !lanesum_app. rewrite <- IH. cbn [fmap list_fmap]. rewrite !lanesum_one.
  replace (S (2 * n)) with (2 * n + 1)%nat by lia. lia.
Qed.

Lemma sum_of_terms (f g : nat -> Z) l : lanesum ((fun j => f j + g j) <$> l) = lanesum (f <$> l) + lanesum (g <$> l).
Proof. unfold lanesum. induction l as [|j l IH]; [done|]. cbn [fmap list_fmap foldr] in *. lia. Qed.

Lemma nth_repl {B} (a : B) n j : nth j (replicate n a) a = a.
Proof. revert j. induction n as [|n IH]; intros [|j]; cbn; auto. Qed.

(** The terms of a load of [n] elements, of which [m] are active. *)
Lemma loaded_terms (f : Z -> Z -> Z) (wid : Z -> Z) (s t : list Z) n : length s = length t -> (length s <= n)%nat -> f (wid 0) (wid 0) = 0 ->
  let z := replicate (n - length s) 0 in
  lanesum ((fun j => f (wid (nth j (s ++ z) 0)) (wid (nth j (t ++ z) 0))) <$> seq 0 n) = lanesum (zip_with f (wid <$> s) (wid <$> t)).
Proof.
  intros Hl Hn Hz z. set (L := zip_with f (wid <$> s) (wid <$> t) ++ replicate (n - length s) 0).
  assert ((fun j => f (wid (nth j (s ++ z) 0)) (wid (nth j (t ++ z) 0))) <$> seq 0 n = L) as ->.
  { apply list_eq. intros j. rewrite list_lookup_fmap. destruct (decide (j < n)%nat) as [Hj|Hj].
    - rewrite lookup_seq_lt by done. cbn [fmap option_fmap option_map Nat.add]. unfold L. symmetry.
      destruct (decide (j < length s)%nat) as [Hjs|Hjs].
      + rewrite lookup_app_l by (rewrite length_zip_with, !length_fmap; lia). apply lookup_zip_with_Some.
        eexists _, _. split; [reflexivity|]. rewrite !app_nth1 by lia. rewrite !list_lookup_fmap.
        destruct (lookup_lt_is_Some_2 s j Hjs) as [u Hu]. destruct (lookup_lt_is_Some_2 t j ltac:(lia)) as [v Hv].
        rewrite Hu, Hv, (nth_lookup_Some s j 0 u Hu), (nth_lookup_Some t j 0 v Hv). done.
      + rewrite lookup_app_r by (rewrite length_zip_with, !length_fmap; lia). rewrite length_zip_with, !length_fmap.
        rewrite lookup_replicate_2 by lia. rewrite !app_nth2 by lia. unfold z.
        rewrite !nth_repl. by rewrite Hz.
    - rewrite lookup_seq_ge, lookup_ge_None_2; [done| |lia].
      unfold L. rewrite length_app, length_zip_with, !length_fmap, length_replicate. lia. }
  unfold L. rewrite lanesum_app, lanesum_replicate. lia.
Qed.

Lemma lanesum_vadd (a b : list Z) : length a = length b -> lanesum (vadd a b) = lanesum a + lanesum b.
Proof. apply lanesum_add. Qed.

Section half.
Context `{HI : !SveImpl, HU : !Usum Z} (wid : Z -> Z) (Hw : wid 0 = 0).
#[local] Abbreviation w := (@svcntw HI).

Lemma svcnth_pos : (0 < svcnth)%nat.
Proof. pose proof svcntw_pos. unfold svcnth. lia. Qed.

(** A step on whole registers. *)
Definition full_adds (step : list Z -> list Z -> list Z -> list Z) (f : Z -> Z -> Z) : Prop :=
  forall acc s t, length acc = w -> length s = w -> length t = w -> step acc s t = vadd acc (zip_with f s t).

Lemma full_of step f : sve_adds step f -> full_adds (step (svptrue w)) f.
Proof.
  intros H acc s t Ha Hs Ht. specialize (H w w acc s t ltac:(lia) Ha Hs Ht). rewrite Nat.sub_diag in H.
  cbn [replicate] in H. rewrite !app_nil_r in H. by rewrite ptrue_prefix.
Qed.

Lemma svsel_full (a b : list Z) : length a = w -> length b = w -> svsel (svptrue w) a b = a.
Proof. intros Ha Hb. rewrite ptrue_prefix, svsel_prefix by done. rewrite take_ge, drop_ge by lia. apply app_nil_r. Qed.

Lemma norm_full : full_adds (fun acc a _ => svadd_m (svptrue w) acc (svmul_m (svptrue w) a a)) (fun u _ => u * u).
Proof.
  intros acc s t Ha Hs Ht. unfold svadd_m, svmul_m. rewrite (svsel_full (vmul s s)) by (unfold vmul; rewrite ?length_zip_with; lia).
  rewrite svsel_full by (unfold vadd, vmul; rewrite ?length_zip_with; lia). f_equal. clear -Hs Ht. unfold vmul. cbn.
  assert (length s = length t) as E by lia. clear Hs Ht. revert t E. induction s as [|u s IH]; intros [|v t] E; simpl in E; try lia; [done|].
  cbn. f_equal. apply IH. lia.
Qed.

(** Both registers of sums together hold the first [i] terms. *)
Definition both_hold (T : list Z) (i : nat) (st : list Z * list Z) : Prop :=
  length st.1 = w /\ length st.2 = w /\ lanesum st.1 + lanesum st.2 = lanesum (take i T).

Lemma both_zero T : both_hold T 0 (set1 w 0, set1 w 0).
Proof. split; [apply length_replicate|]. split; [apply length_replicate|]. cbn [fst snd]. unfold set1. by rewrite lanesum_replicate. Qed.

Lemma zip_parts (f : Z -> Z -> Z) (p : nat -> nat) (a b : list Z) :
  zip_with f ((fun l => wid (nth (p l) a 0)) <$> seq 0 w) ((fun l => wid (nth (p l) b 0)) <$> seq 0 w) =
  (fun l => f (wid (nth (p l) a 0)) (wid (nth (p l) b 0))) <$> seq 0 w.
Proof. by rewrite zip_with_fmap_l, zip_with_fmap_r, zip_with_diag. Qed.

Lemma sve_slice_terms (f : Z -> Z -> Z) x y i m : (i + m <= length x)%nat -> (i + m <= length y)%nat -> (m <= svcnth)%nat -> f 0 0 = 0 ->
  let a := slice i (i + m) x ++ replicate (svcnth - m) 0 in let b := slice i (i + m) y ++ replicate (svcnth - m) 0 in
  lanesum ((fun j => f (wid (nth j a 0)) (wid (nth j b 0))) <$> seq 0 svcnth) =
  lanesum (slice i (i + m) (zip_with f (wid <$> x) (wid <$> y))).
Proof.
  intros Hx Hy Hm Hz a b. assert (length (slice i (i + m) x) = m) as Ls by (rewrite length_slice; lia).
  pose proof (loaded_terms f wid (slice i (i + m) x) (slice i (i + m) y) svcnth) as H.
  rewrite Ls in H. cbv zeta in H. unfold a, b. rewrite H; [|rewrite length_slice; lia|lia|by rewrite Hw].
  by rewrite slice_both.
Qed.

Lemma half_round step f x y d i st : full_adds step f -> f 0 0 = 0 -> (d <= length x)%nat -> (d <= length y)%nat -> (i < d)%nat ->
  both_hold (zip_with f (wid <$> x) (wid <$> y)) i st -> exists a b,
  svld1 0 (pg_at svcnth i d) (drop i x) = Ret a /\ svld1 0 (pg_at svcnth i d) (drop i y) = Ret b /\
  both_hold (zip_with f (wid <$> x) (wid <$> y)) (Nat.min (i + svcnth) d)
    (step (fst st) (low_f32 wid a) (low_f32 wid b), step (snd st) (high_f32 wid a) (high_f32 wid b)).
Proof.
  intros Hst Hz Hx Hy Hi (L1 & L2 & Hs). rewrite pg_at_prefix, next_off by done. set (m := Nat.min svcnth (d - i)).
  rewrite !svld1_prefix by lia. eexists _, _. split; [done|]. split; [done|].
  set (a := slice i (i + m) x ++ _). set (b := slice i (i + m) y ++ _).
  assert (forall p (c : list Z), length ((fun l => wid (nth (p l) c 0)) <$> seq 0 w) = w) as Lp by (intros; by rewrite length_fmap, length_seq).
  unfold low_f32, high_f32. rewrite !Hst by (done || apply Lp). rewrite !zip_parts.
  split; [cbn [fst]; unfold vadd; rewrite length_zip_with, length_fmap, length_seq; lia|].
  split; [cbn [snd]; unfold vadd; rewrite length_zip_with, length_fmap, length_seq; lia|]. cbn [fst snd].
  rewrite !lanesum_vadd by (rewrite length_fmap, length_seq; lia).
  rewrite (lanesum_slice _ i (i + m)) by lia. rewrite <- Hs, <- (sve_slice_terms f x y i m) by (done || lia). fold a b.
  pose proof (sve_halves_sum (fun j => f (wid (nth j a 0)) (wid (nth j b 0))) w) as E. change (2 * w)%nat with svcnth in E.
  cbv beta in E. lia.
Qed.

Lemma half_pair_value step f x y d (fin : list Z -> list Z -> Z) : full_adds step f -> f 0 0 = 0 -> (d <= length x)%nat -> (d <= length y)%nat ->
  (forall s t, length s = w -> length t = w -> fin s t = lanesum s + lanesum t) ->
  (let* (sum1, sum2) := half_sve wid (half_load2 x y) (fun part sum '(a, b) => step sum (part a) (part b)) d in Ret (fin sum1 sum2)) =
  Ret (lanesum (take d (zip_with f (wid <$> x) (wid <$> y)))).
Proof.
  intros Hst Hz Hx Hy Hfin.
  match goal with |- ?m = Ret ?r => assert (wp m (fun q => q = r)) as E; [|by apply wp_elim in E as (? & -> & ->)] end.
  apply wp_bind. unfold half_sve.
  eapply wp_mono; [apply (sve_while_spec (both_hold (zip_with f (wid <$> x) (wid <$> y)))); [apply svcnth_pos|done|apply both_zero|]|].
  - intros k st Hk Ht. cbn zeta. unfold half_load2.
    destruct (half_round step f x y d (k * svcnth) st Hst Hz Hx Hy Hk Ht) as (a & b & -> & -> & H). exact H.
  - intros [s t] (L1 & L2 & Hs). cbn [wp fst snd] in *. by rewrite Hfin, Hs.
Qed.

Lemma total_sum (s t : list Z) : length s = w -> length t = w -> usum (svadd_m (svptrue w) s t) = lanesum s + lanesum t.
Proof.
  intros Hs Ht. unfold svadd_m. rewrite svsel_full by (unfold vadd; rewrite ?length_zip_with; lia).
  rewrite usum_exact. apply lanesum_add. lia.
Qed.

Section values.
Context (x y : list Z) (d : nat) (Hx : (d <= length x)%nat) (Hy : (d <= length y)%nat).

Lemma half_ip_sve_value : half_inner_product_sve wid x y d = Ret (lanesum (take d (zip_with Z.mul (wid <$> x) (wid <$> y)))).
Proof.
  exact (half_pair_value _ _ x y d _ (full_of _ _ mla_adds) eq_refl Hx Hy total_sum).
Qed.
Lemma half_l2_sve_value : half_L2sqr_sve wid x y d = Ret (lanesum (take d (zip_with sq (wid <$> x) (wid <$> y)))).
Proof.
  exact (half_pair_value _ _ x y d _ (full_of _ _ l2_adds) eq_refl Hx Hy total_sum).
Qed.
End values.

Lemma sve_norm_terms (x : list Z) : zip_with (fun u _ => u * u) (wid <$> x) (wid <$> x) = zip_with Z.mul (wid <$> x) (wid <$> x).
Proof. clear. induction x as [|u x IH]; [done|]. cbn. by rewrite IH. Qed.

Lemma half_norm_sve_value x d : (d <= length x)%nat ->
  half_norm_L2sqr_sve wid x d = Ret (lanesum (take d (zip_with Z.mul (wid <$> x) (wid <$> x)))).
Proof.
  intros Hx. rewrite <- sve_norm_terms.
  match goal with |- ?m = Ret ?r => assert (wp m (fun q => q = r)) as E; [|by apply wp_elim in E as (? & -> & ->)] end.
  unfold half_norm_L2sqr_sve. apply wp_bind. unfold half_sve. set (f := fun u _ : Z => u * u).
  eapply wp_mono; [apply (sve_while_spec (both_hold (zip_with f (wid <$> x) (wid <$> x)))); [apply svcnth_pos|done|apply both_zero|]|].
  - intros k st Hk Ht. cbn zeta.
    destruct (half_round _ f x x d (k * svcnth) st norm_full eq_refl Hx Hx Hk Ht) as (a & b & -> & _ & H). exact H.
  - intros [s t] (L1 & L2 & Hs). cbn [wp fst snd] in *. rewrite !usum_exact. exact Hs.
Qed.

(** ** bf16 *)

Section bf16.
Context (bfdot : Z -> Z -> Z -> Z -> Z -> Z).
Hypothesis Hdot : forall acc a0 b0 a1 b1, bfdot acc a0 b0 a1 b1 = acc + a0 * b0 + a1 * b1.

Lemma lanes_of (acc : list Z) : length acc = w -> lane acc <$> seq 0 w = acc.
Proof.
  intros Hl. apply list_eq. intros l. rewrite list_lookup_fmap. destruct (decide (l < w)%nat).
  - rewrite lookup_seq_lt by done. cbn [fmap option_fmap option_map Nat.add]. symmetry. apply lane_lookup. lia.
  - rewrite lookup_seq_ge, lookup_ge_None_2 by lia. done.
Qed.

Lemma bfdot_sum acc a b : length acc = w ->
  lanesum (svbfdot wid bfdot acc a b) = lanesum acc + lanesum ((fun j => wid (nth j a 0) * wid (nth j b 0)) <$> seq 0 svcnth).
Proof.
  intros Hl. set (h := fun j => wid (nth j a 0) * wid (nth j b 0)).
  assert (svbfdot wid bfdot acc a b = (fun l => lane acc l + (h (2 * l)%nat + h (2 * l + 1)%nat)) <$> seq 0 w) as ->.
  { apply list_fmap_ext. intros ? l _. rewrite Hdot. unfold h. lia. }
  rewrite sum_of_terms, sum_of_terms, lanes_of by done. f_equal. exact (sve_halves_sum h w).
Qed.

Lemma bf16_add x y i m acc : (i + m <= length x)%nat -> (i + m <= length y)%nat -> (m <= svcnth)%nat ->
  let T := zip_with Z.mul (wid <$> x) (wid <$> y) in holds w T i acc ->
  holds w T (i + m) (svbfdot wid bfdot acc (slice i (i + m) x ++ replicate (svcnth - m) 0) (slice i (i + m) y ++ replicate (svcnth - m) 0)).
Proof.
  intros Hx Hy Hm T [Hl Hs]. split; [unfold svbfdot; by rewrite length_fmap, length_seq|].
  rewrite bfdot_sum by done. rewrite (sve_slice_terms Z.mul x y i m) by done. rewrite Hs. symmetry. apply lanesum_slice. lia.
Qed.

Section values.
Context (x : list Z) (d : nat) (Hx : (d <= length x)%nat).
Let H p q := holds w (zip_with Z.mul (wid <$> p) (wid <$> q)).
Let ip p q := lanesum (take d (zip_with Z.mul (wid <$> p) (wid <$> q))).

Lemma bf16_ip_sve_value y : (d <= length y)%nat -> bf16_inner_product_sve wid bfdot x y d = Ret (ip x y).
Proof.
  intros Hy.
  match goal with |- ?m = Ret ?r => assert (wp m (fun q => q = r)) as E; [|by apply wp_elim in E as (? & -> & ->)] end.
  unfold bf16_inner_product_sve. apply wp_bind.
  eapply wp_mono; [apply (sve_while_spec (H x y)); [apply svcnth_pos|done|apply holds_zero|]|].
  - intros k t Hk Ht. unfold half_load2. rewrite pg_at_prefix, next_off, !svld1_prefix by lia. cbn [bind wp]. apply bf16_add; [lia|lia|lia|done].
  - intros t [_ Ht]. cbn [wp]. rewrite usum_exact. exact Ht.
Qed.

Lemma bf16_norm_sve_value : bf16_norm_L2sqr_sve wid bfdot x d = Ret (ip x x).
Proof.
  match goal with |- ?m = Ret ?r => assert (wp m (fun q => q = r)) as E; [|by apply wp_elim in E as (? & -> & ->)] end.
  unfold bf16_norm_L2sqr_sve. apply wp_bind.
  eapply wp_mono; [apply (sve_while_spec (H x x)); [apply svcnth_pos|done|apply holds_zero|]|].
  - intros k t Hk Ht. rewrite pg_at_prefix, next_off, !svld1_prefix by lia. cbn [bind wp]. apply bf16_add; [lia|lia|lia|done].
  - intros t [_ Ht]. cbn [wp]. rewrite usum_exact. exact Ht.
Qed.

(** |x|^2 + |y|^2 - 2 x y is the squared distance. *)
Lemma binomial (s t : list Z) n : (n <= length s)%nat -> (n <= length t)%nat ->
  lanesum (take n (zip_with Z.mul s s)) + lanesum (take n (zip_with Z.mul t t)) - 2 * lanesum (take n (zip_with Z.mul s t)) =
  lanesum (take n (zip_with sq s t)).
Proof.
  clear. revert s t. induction n as [|n IH]; intros s t Hs Ht; [done|]. destruct s as [|u s], t as [|v t]; try (simpl in *; lia).
  simpl in Hs, Ht. specialize (IH s t ltac:(lia) ltac:(lia)). cbn [zip_with take lanesum foldr]. unfold lanesum, sq in *. cbn [foldr]. lia.
Qed.

Lemma bf16_l2_sve_value y : (d <= length y)%nat ->
  bf16_L2sqr_sve wid bfdot 2 x y d = Ret (lanesum (take d (zip_with sq (wid <$> x) (wid <$> y)))).
Proof.
  intros Hy.
  match goal with |- ?m = Ret ?r => assert (wp m (fun q => q = r)) as E; [|by apply wp_elim in E as (? & -> & ->)] end.
  unfold bf16_L2sqr_sve. apply wp_bind.
  eapply wp_mono; [apply (sve_while_spec (fun i '(s, t, u) => H x x i s /\ H y y i t /\ H x y i u));
    [apply svcnth_pos|done|split_and!; apply holds_zero|]|].
  - intros k [[s t] u] Hk (Hs & Ht & Hu). unfold half_load2. rewrite pg_at_prefix, next_off, !svld1_prefix by lia. cbn [bind wp].
    split_and!; apply bf16_add; (lia || done).
  - intros [[s t] u] ([_ Hs] & [_ Ht] & [_ Hu]). cbn [wp]. rewrite !usum_exact. change (foldr Z.add 0) with lanesum.
    rewrite Hs, Ht, Hu. apply binomial; rewrite length_fmap; lia.
Qed.

Section batch.
Context (y0 y1 y2 y3 : list Z).
Hypothesis Hy : Forall (fun p => (d <= length p)%nat) [y0; y1; y2; y3].

Lemma load5_ok i m : (i + m <= d)%nat -> (m <= svcnth)%nat ->
  let ld p := slice i (i + m) p ++ replicate (svcnth - m) 0 in
  load5 x y0 y1 y2 y3 (prefix svcnth m) i = Ret (ld x, (ld y0, ld y1, ld y2, ld y3)).
Proof.
  intros Hi Hm ld. pose proof Hy as (H0 & H1 & H2 & H3 & _)%Forall4. unfold load5. by rewrite !svld1_prefix by lia.
Qed.

Lemma bf16_ip_batch_sve_value : bf16_inner_product_batch_4_sve wid bfdot x y0 y1 y2 y3 d = Ret (ip x y0, ip x y1, ip x y2, ip x y3).
Proof.
  pose proof Hy as (H0 & H1 & H2 & H3 & _)%Forall4.
  match goal with |- ?m = Ret ?r => assert (wp m (fun q => q = r)) as E; [|by apply wp_elim in E as (? & -> & ->)] end.
  unfold bf16_inner_product_batch_4_sve. apply wp_bind.
  eapply wp_mono; [apply (sve_while_spec (fun i '(s0, s1, s2, s3) => H x y0 i s0 /\ H x y1 i s1 /\ H x y2 i s2 /\ H x y3 i s3));
    [apply svcnth_pos|done|split_and!; apply holds_zero|]|].
  - intros k [[[s0 s1] s2] s3] Hk (K0 & K1 & K2 & K3). rewrite pg_at_prefix, next_off, load5_ok by lia. cbn [bind wp].
    split_and!; apply bf16_add; (lia || done).
  - intros [[[s0 s1] s2] s3] ([_ K0] & [_ K1] & [_ K2] & [_ K3]). cbn [wp]. rewrite !usum_exact. change (foldr Z.add 0) with lanesum.
    by rewrite K0, K1, K2, K3.
Qed.

Lemma bf16_l2_batch_sve_value :
  let l2 y := lanesum (take d (zip_with sq (wid <$> x) (wid <$> y))) in
  bf16_L2sqr_batch_4_sve wid bfdot 2 x y0 y1 y2 y3 d = Ret (l2 y0, l2 y1, l2 y2, l2 y3).
Proof.
  intros l2. pose proof Hy as (H0 & H1 & H2 & H3 & _)%Forall4.
  match goal with |- ?m = Ret ?r => assert (wp m (fun q => q = r)) as E; [|by apply wp_elim in E as (? & -> & ->)] end.
  unfold bf16_L2sqr_batch_4_sve. apply wp_bind.
  eapply wp_mono; [apply (sve_while_spec (fun i '(s, (t0, t1, t2, t3), (u0, u1, u2, u3)) =>
    H x x i s /\ (H y0 y0 i t0 /\ H y1 y1 i t1 /\ H y2 y2 i t2 /\ H y3 y3 i t3) /\
    (H x y0 i u0 /\ H x y1 i u1 /\ H x y2 i u2 /\ H x y3 i u3)));
    [apply svcnth_pos|done|split_and!; apply holds_zero|]|].
  - intros k [[s [[[t0 t1] t2] t3]] [[[u0 u1] u2] u3]] Hk (Ks & (K0 & K1 & K2 & K3) & (J0 & J1 & J2 & J3)).
    rewrite pg_at_prefix, next_off, load5_ok by lia. cbn [bind wp]. split_and!; apply bf16_add; (lia || done).
  - intros [[s [[[t0 t1] t2] t3]] [[[u0 u1] u2] u3]] ([_ Ks] & ([_ K0] & [_ K1] & [_ K2] & [_ K3]) & ([_ J0] & [_ J1] & [_ J2] & [_ J3])).
    cbn [wp]. rewrite !usum_exact. change (foldr Z.add 0) with lanesum. rewrite Ks, K0, K1, K2, K3, J0, J1, J2, J3.
    unfold l2. rewrite <- !(binomial (wid <$> x)) by (rewrite length_fmap; lia). done.
Qed.
End batch.
End values.
End bf16.
End half.

(** * The SVE kernels on [int8_t]

    Every 32-bit lane sums four products per register.  Up to the dimensions for
    which the scalar kernels are exact no lane overflows. *)

(** ** Sums of four *)

Lemma quad_sum (T : list Z) n : lanesum ((fun l => lanesum (slice (4 * l) (4 * l + 4) T)) <$> seq 0 n) = lanesum (take (4 * n) T).
Proof.
  induction n as [|n IH]; [done|]. rewrite seq_snoc, fmap_app, lanesum_app, IH. cbn [fmap list_fmap]. rewrite lanesum_one.
  replace (4 * S n)%nat with (4 * n + 4)%nat by lia.
  by rewrite (lanesum_slice T (4 * n) (4 * n + 4)) by lia.
Qed.

Definition abs_sum (l : list Z) : Z := lanesum (Z.abs <$> l).

Lemma abs_sum_app l k : abs_sum (l ++ k) = abs_sum l + abs_sum k.
Proof. unfold abs_sum. by rewrite fmap_app, lanesum_app. Qed.

Lemma abs_sum_pos l : 0 <= abs_sum l.
Proof. unfold abs_sum, lanesum. induction l as [|a l IH]; cbn [fmap list_fmap foldr] in *; lia. Qed.

Lemma abs_sum_le l : Z.abs (lanesum l) <= abs_sum l.
Proof. unfold abs_sum, lanesum. induction l as [|a l IH]; cbn [fmap list_fmap foldr] in *; lia. Qed.

Lemma abs_sum_slice i j l : abs_sum (slice i j l) <= abs_sum l.
Proof.
  unfold slice. rewrite <- (take_drop i l) at 2. rewrite <- (take_drop (j - i) (drop i l)) at 2. rewrite !abs_sum_app.
  pose proof (abs_sum_pos (take i l)). pose proof (abs_sum_pos (drop (j - i) (drop i l))). lia.
Qed.

Lemma abs_sum_bound b l : Forall (fun v => Z.abs v <= b) l -> abs_sum l <= Z.of_nat (length l) * b.
Proof. unfold abs_sum, lanesum. induction 1 as [|v l Hv _ IH]; cbn [fmap list_fmap foldr length] in *; [lia|]. nia. Qed.

Section int8.
Context `{HI : !SveImpl}.
#[local] Abbreviation w := (@svcntw HI).

Definition ip (x y : list Z) : list Z := zip_with Z.mul x y.

Lemma ip_bounds x y : Forall is_int8 x -> Forall is_int8 y -> Forall (fun v => Z.abs v <= 16384) (ip x y).
Proof.
  intros Hx. revert y. induction Hx as [|u x Hu Hx IH]; intros y Hy; [constructor|]. destruct Hy as [|v y Hv Hy]; [constructor|].
  cbn. constructor; [|by apply IH]. unfold is_int8 in *. nia.
Qed.

(** A register that holds the first [i] products exactly. *)
Definition exact (x y : list Z) (i : nat) (s : list Z) : Prop :=
  holds w (ip x y) i s /\ Forall (fun v => Z.abs v <= Z.of_nat i * 16384) s.

Lemma exact_zero x y : exact x y 0 svdup0.
Proof. split; [apply holds_zero|]. unfold svdup0. apply Forall_replicate. lia. Qed.

Lemma svdot_exact x y i m s : Forall is_int8 x -> Forall is_int8 y -> (i + m <= length x)%nat -> (i + m <= length y)%nat ->
  (m <= svcntb)%nat -> Z.of_nat (i + m) * 16384 < 2 ^ 31 -> exact x y i s ->
  exact x y (i + m) (svdot s (slice i (i + m) x ++ replicate (svcntb - m) 0) (slice i (i + m) y ++ replicate (svcntb - m) 0)).
Proof.
  intros Ix Iy Hx Hy Hm Hb [[Hl Hs] Hf]. set (z := replicate (svcntb - m) 0).
  set (P := slice i (i + m) (ip x y) ++ z).
  assert (length (slice i (i + m) (ip x y)) = m) as LP by (rewrite length_slice; [lia|unfold ip; rewrite length_zip_with; lia]).
  assert (zip_with Z.mul (slice i (i + m) x ++ z) (slice i (i + m) y ++ z) = P) as EP.
  { rewrite zip_with_app by (rewrite !length_slice; lia). unfold P, ip. rewrite slice_zip_with. f_equal.
    unfold z. by rewrite zip_with_replicate. }
  assert (abs_sum P <= Z.of_nat m * 16384) as HP.
  { unfold P. rewrite abs_sum_app. assert (abs_sum z = 0) as ->.
    { unfold z, abs_sum. rewrite fmap_replicate. apply lanesum_replicate. }
    rewrite Z.add_0_r. pose proof (abs_sum_bound 16384 (slice i (i + m) (ip x y))) as H1. rewrite LP in H1.
    apply H1. unfold slice. by apply Forall_take, Forall_drop, ip_bounds. }
  set (q := fun l => lanesum (slice (4 * l) (4 * l + 4) P)).
  assert (forall l, Z.abs (q l) <= Z.of_nat m * 16384) as Hq.
  { intros l. unfold q. pose proof (abs_sum_le (slice (4 * l) (4 * l + 4) P)). pose proof (abs_sum_slice (4 * l) (4 * l + 4) P). lia. }
  assert (forall l, (l < w)%nat -> Z.abs (lane s l) <= Z.of_nat i * 16384) as Hlane.
  { intros l Hlw. apply (Forall_lookup_1 _ _ l _ Hf). apply lane_lookup. lia. }
  assert (svdot s (slice i (i + m) x ++ z) (slice i (i + m) y ++ z) = (fun l => lane s l + q l) <$> seq 0 w) as ->.
  { apply list_fmap_ext. intros l ? [-> Hlw]%lookup_seq. rewrite Nat.add_0_l. rewrite <- slice_zip_with, EP.
    apply (wrap_cong _ _ (cong_refl _)). specialize (Hlane l Hlw). specialize (Hq l). change (nth l s 0) with (lane s l).
    change (foldr Z.add 0 (slice (4 * l) (4 * l + 4) P)) with (q l). lia. }
  split; [split|].
  - by rewrite length_fmap, length_seq.
  - rewrite sum_of_terms, lanes_of by done. rewrite (quad_sum P w : lanesum (q <$> seq 0 w) = _), Hs.
    rewrite (lanesum_slice (ip x y) i (i + m)) by lia. f_equal.
    rewrite take_ge by (unfold P, z; rewrite length_app, length_replicate; unfold svcntb in *; lia).
    unfold P. rewrite lanesum_app. unfold z. rewrite lanesum_replicate. lia.
  - apply Forall_fmap, Forall_seq. intros l Hlw. unfold compose. specialize (Hlane l ltac:(lia)). specialize (Hq l). lia.
Qed.

Lemma svcntb_pos : (0 < svcntb)%nat.
Proof. pose proof svcntw_pos. unfold svcntb. lia. Qed.

(** The sum of the lanes, with and without the conversion to [int32_t]. *)
Lemma exact_total x y d s : Forall is_int8 x -> Forall is_int8 y -> (d <= length x)%nat -> (d <= length y)%nat -> Z.of_nat d * 16384 < 2 ^ 31 ->
  exact x y d s -> svaddv_s32 s = zsum Z.mul x y d /\ wrap_s32 (svaddv_s32 s) = zsum Z.mul x y d /\ Z.abs (zsum Z.mul x y d) <= Z.of_nat d * 16384.
Proof.
  intros Ix Iy Hx Hy Hb [[Hl Hs] _]. rewrite zsum_lanesum by done. change (svaddv_s32 s) with (lanesum s). unfold ip in Hs. rewrite Hs.
  assert (Z.abs (lanesum (take d (zip_with Z.mul x y))) <= Z.of_nat d * 16384) as Ht.
  { pose proof (abs_sum_le (take d (zip_with Z.mul x y))). pose proof (abs_sum_bound 16384 (take d (zip_with Z.mul x y))) as H1.
    rewrite length_take, length_zip_with in H1. specialize (H1 ltac:(by apply Forall_take, ip_bounds)). nia. }
  split_and!; [done| |done]. apply (wrap_cong _ _ (cong_refl _)). lia.
Qed.

(** ** Inner products *)

Section ip.
Context (x : list Z) (d : nat) (Hx : operand d x) (Hd : Z.of_nat d * 16384 < 2 ^ 31).

Lemma next_exact y i m s : operand d y -> (i + m <= d)%nat -> (m <= svcntb)%nat -> exact x y i s ->
  exists a b, svld1 0 (prefix svcntb m) (drop i x) = Ret a /\ svld1 0 (prefix svcntb m) (drop i y) = Ret b /\
    exact x y (i + m) (svdot s a b).
Proof.
  destruct Hx as [Ix Lx]. intros [Iy Ly] Hi Hm Hs. rewrite !svld1_prefix by lia. eexists _, _. split; [done|]. split; [done|].
  apply svdot_exact; [done|done|lia|lia|done|nia|done].
Qed.

Lemma ip_total y s : operand d y -> exact x y d s ->
  svaddv_s32 s = zsum Z.mul x y d /\ wrap_s32 (svaddv_s32 s) = zsum Z.mul x y d /\ Z.abs (zsum Z.mul x y d) <= Z.of_nat d * 16384.
Proof. destruct Hx as [Ix Lx]. intros [Iy Ly] Hs. by apply exact_total. Qed.

(** Up to multiples of 2^32 no bound on the lanes is needed. *)
Definition wraps (t : Z) (s : list Z) : Prop := exists e, congs s e /\ length e = w /\ lanesum e = t.

Lemma wraps_zero : wraps 0 svdup0.
Proof. exists svdup0. split; [apply congs_refl|]. split; [apply length_replicate|apply lanesum_replicate]. Qed.

Lemma svdot_wraps t s a b : wraps t s -> length a = svcntb -> length b = svcntb -> wraps (t + lanesum (zip_with Z.mul a b)) (svdot s a b).
Proof.
  clear. intros (e & Hse & He & <-) Ha Hb. set (P := zip_with Z.mul a b). set (q := fun l => lanesum (slice (4 * l) (4 * l + 4) P)).
  exists ((fun l => lane e l + q l) <$> seq 0 w). split; [|split].
  - unfold svdot. apply Forall2_fmap, Forall_Forall2_diag, Forall_seq. intros l Hl. eapply cong_trans; [apply cong_wrap|].
    apply cong_add; [|unfold q, P; rewrite slice_zip_with; apply cong_refl].
    destruct (Forall2_lookup_r _ _ _ l (lane e l) Hse) as (u & Hu & Hc); [apply lane_lookup; lia|]. by rewrite (nth_lookup_Some _ _ _ _ Hu).
  - by rewrite length_fmap, length_seq.
  - rewrite sum_of_terms, lanes_of by done. rewrite (quad_sum P w : lanesum (q <$> seq 0 w) = _). f_equal. f_equal. apply take_ge.
    unfold P. rewrite length_zip_with. unfold svcntb in *. lia.
Qed.

Lemma add_wraps t u s r : wraps t s -> wraps u r -> wraps (t + u) (vaddq_s32 s r).
Proof.
  clear. intros (e & Hse & He & <-) (f & Hrf & Hf & <-). exists (vadd e f). split; [by apply vaddq_congs|].
  split; [unfold vadd; rewrite length_zip_with; lia|]. apply lanesum_vadd. lia.
Qed.

Lemma wraps_total t s : wraps t s -> - 2 ^ 31 <= t < 2 ^ 31 -> wrap_s32 (svaddv_s32 s) = t.
Proof.
  clear. intros (e & Hse & He & <-) Ht. apply wrap_cong; [|done]. clear Ht He. unfold svaddv_s32, lanesum.
  induction Hse as [|u v s e Hu Hs IH]; [apply cong_refl|]. by apply cong_add.
Qed.

Section single.
Context (y : list Z) (Hy : operand d y).
Let T := zip_with Z.mul x y.

(** One register from position [off], [m] of its elements active. *)
Lemma dot_wraps off m t s : (off + m <= d)%nat -> (m <= svcntb)%nat -> wraps t s ->
  wp (let* a := svld1 0 (prefix svcntb m) (drop off x) in let* b := svld1 0 (prefix svcntb m) (drop off y) in Ret (svdot s a b))
    (wraps (t + lanesum (slice off (off + m) T))).
Proof.
  destruct Hx as [_ Lx], Hy as [_ Ly]. intros Ho Hm Hs. rewrite !svld1_prefix by lia. cbn [bind wp].
  assert (lanesum (slice off (off + m) T) = lanesum (zip_with Z.mul (slice off (off + m) x ++ replicate (svcntb - m) 0)
    (slice off (off + m) y ++ replicate (svcntb - m) 0))) as ->.
  { unfold T. rewrite zip_with_app by (rewrite !length_slice; lia). rewrite slice_zip_with, lanesum_app, zip_with_replicate, lanesum_replicate. lia. }
  apply svdot_wraps; [done|apply length_loaded; lia|apply length_loaded; lia].
Qed.
End single.

Lemma int8_ip_sve_value y : operand d y -> int8_vec_inner_product_sve x y d = Ret (F32.of_Z (zsum Z.mul x y d)).
Proof.
  intros Hy. set (T := zip_with Z.mul x y).
  match goal with |- ?m = Ret ?r => assert (wp m (fun q => q = r)) as E; [|by apply wp_elim in E as (? & -> & ->)] end.
  unfold int8_vec_inner_product_sve. rewrite ptrue_prefix. apply wp_bind. pose proof svcntb_pos as Hb.
  set (four := fun off (st : list Z * list Z * list Z * list Z) => let '(s0, s1, s2, s3) := st in
    exists t0 t1 t2 t3, wraps t0 s0 /\ wraps t1 s1 /\ wraps t2 s2 /\ wraps t3 s3 /\ t0 + t1 + t2 + t3 = lanesum (take off T)).
  eapply wp_mono; [apply (strips_spec four d); [lia|lia|lia| |]|].
  - exists 0, 0, 0, 0. split_and!; (apply wraps_zero || done).
  - intros o [[[s0 s1] s2] s3] Ho (t0 & t1 & t2 & t3 & H0 & H1 & H2 & H3 & Ht). set (v := svcntb) in *.
    assert (forall k, (k < 4)%nat -> (o + k * v + v <= d)%nat) as Hk by (intros k Hk; nia).
    apply wp_bind. eapply wp_mono; [apply (dot_wraps y Hy o v t0); [lia|lia|done]|]. intros r0 K0.
    apply wp_bind. eapply wp_mono; [apply (dot_wraps y Hy (o + v) v t1); [lia|lia|done]|]. intros r1 K1.
    apply wp_bind. eapply wp_mono; [apply (dot_wraps y Hy (o + 2 * v) v t2); [lia|lia|done]|]. intros r2 K2.
    apply wp_bind. eapply wp_mono; [apply (dot_wraps y Hy (o + 3 * v) v t3); [lia|lia|done]|]. intros r3 K3. cbn [wp].
    eexists _, _, _, _. split_and!; [done|done|done|done|]. fold T.
    rewrite (lanesum_slice T o (o + 4 * v)) by lia.
    rewrite (slice_sum T o (o + v) (o + 4 * v)), (slice_sum T (o + v) (o + 2 * v) (o + 4 * v)),
      (slice_sum T (o + 2 * v) (o + 3 * v) (o + 4 * v)) by lia.
    replace (o + v + v)%nat with (o + 2 * v)%nat by lia. replace (o + 2 * v + v)%nat with (o + 3 * v)%nat by lia.
    replace (o + 3 * v + v)%nat with (o + 4 * v)%nat by lia. lia.
  - intros [[o e] [[[s0 s1] s2] s3]] (Ho & He & t0 & t1 & t2 & t3 & H0 & H1 & H2 & H3 & Ht).
    assert (wraps (lanesum (take o T)) (vaddq_s32 (vaddq_s32 (vaddq_s32 s0 s1) s2) s3)) as Hsum.
    { rewrite <- Ht. by repeat apply add_wraps. }
    apply wp_bind. eapply wp_mono; [apply (strips_spec (fun o s => wraps (lanesum (take o T)) s) d); [done|lia|done|done|]|].
    + intros o' t Ho' Hs. rewrite (lanesum_slice T o' (o' + svcntb)) by lia. apply (dot_wraps y Hy o' svcntb ); [lia|lia|done].
    + intros [[o' e'] s] (Ho' & He' & Hs). apply wp_bind.
      assert (forall s, wraps (lanesum (take d T)) s -> F32.of_Z (wrap_s32 (svaddv_s32 s)) = F32.of_Z (zsum Z.mul x y d)) as Hfin.
      { intros r Hr. f_equal. destruct Hx as [Ix Lx], Hy as [Iy Ly]. rewrite zsum_lanesum by done. apply wraps_total; [done|].
        pose proof (abs_sum_le (take d T)). pose proof (abs_sum_bound 16384 (take d T)) as B. unfold T in *.
        rewrite length_take, length_zip_with in B. specialize (B ltac:(by apply Forall_take, ip_bounds)). nia. }
      destruct (Nat.ltb_spec 0 e') as [Hpos|Hz].
      * rewrite whilelt_prefix, Nat.sub_0_r. rewrite Nat.min_r by lia.
        eapply wp_mono; [apply (dot_wraps y Hy o' e' (lanesum (take o' T))); [lia|lia|done]|]. intros r Hr. cbn [wp].
        apply Hfin. rewrite (lanesum_slice T o' d) by lia. by rewrite <- Ho'.
      * cbn [wp]. apply Hfin. by replace d with o' by lia.
Qed.

(** ** Loops over one register at a time *)

(** Whole registers, then the elements left under a narrowed predicate. *)
Lemma one_by_one {S R} (Inv : nat -> S -> Prop) (add : list bool -> nat -> S -> M S) (K : S -> M R) (Q : R -> Prop) s :
  Inv 0%nat s ->
  (forall i m t, (i + m <= d)%nat -> (m <= svcntb)%nat -> Inv i t -> wp (add (prefix svcntb m) i t) (Inv (i + m)%nat)) ->
  (forall t, Inv d t -> wp (K t) Q) ->
  wp (bind (strips d svcntb (add (svptrue svcntb)) 0 d s) (fun '(i, left_, st) =>
        bind (if (i <? d)%nat then add (svwhilelt svcntb i d) i st else Ret st) K)) Q.
Proof.
  clear. intros H0 Ha HK. pose proof svcntb_pos as Hb. rewrite ptrue_prefix. apply wp_bind.
  eapply wp_mono; [apply (strips_spec Inv d); [done|lia|lia|done|]|].
  - intros o t Ho Ht. by apply Ha.
  - intros [[o e] t] (Ho & He & Ht). apply wp_bind. destruct (Nat.ltb_spec o d) as [Hlt|Hge].
    + rewrite whilelt_prefix, Nat.min_r by lia. pose proof (Ha o (d - o)%nat t ltac:(lia) ltac:(lia) Ht) as H.
      replace (o + (d - o))%nat with d in H by lia. eapply wp_mono; [exact H|]. done.
    + cbn [wp]. apply HK. by replace d with o by lia.
Qed.

Lemma load5_int8 y0 y1 y2 y3 i m : Forall (operand d) [y0; y1; y2; y3] -> (i + m <= d)%nat -> (m <= svcntb)%nat ->
  let ld p := slice i (i + m) p ++ replicate (svcntb - m) 0 in
  load5 x y0 y1 y2 y3 (prefix svcntb m) i = Ret (ld x, (ld y0, ld y1, ld y2, ld y3)).
Proof.
  rewrite !Forall_cons. intros ([_ H0] & [_ H1] & [_ H2] & [_ H3] & _) Hi Hm ld. destruct Hx as [_ Lx].
  unfold load5. by rewrite !svld1_prefix by lia.
Qed.

Lemma int8_ip_batch_sve_value y0 y1 y2 y3 : Forall (operand d) [y0; y1; y2; y3] ->
  let s y := F32.of_Z (zsum Z.mul x y d) in int8_vec_inner_product_batch_4_sve x y0 y1 y2 y3 d = Ret (s y0, s y1, s y2, s y3).
Proof.
  intros Hy sv. pose proof Hy as Hys. rewrite !Forall_cons in Hys. destruct Hys as (Y0 & Y1 & Y2 & Y3 & _).
  match goal with |- ?m = Ret ?r => assert (wp m (fun q => q = r)) as E; [|by apply wp_elim in E as (? & -> & ->)] end.
  apply (one_by_one (fun i '(s0, s1, s2, s3) => exact x y0 i s0 /\ exact x y1 i s1 /\ exact x y2 i s2 /\ exact x y3 i s3)).
  - split_and!; apply exact_zero.
  - intros i m [[[s0 s1] s2] s3] Hi Hm (H0 & H1 & H2 & H3). rewrite load5_int8 by done. cbn [bind wp].
    destruct Hx as [Ix Lx], Y0 as [I0 L0], Y1 as [I1 L1], Y2 as [I2 L2], Y3 as [I3 L3].
    split_and!; apply svdot_exact; try done; try lia; nia.
  - intros [[[s0 s1] s2] s3] (H0 & H1 & H2 & H3). cbn [wp]. unfold sv.
    by rewrite (proj1 (ip_total y0 s0 Y0 H0)), (proj1 (ip_total y1 s1 Y1 H1)), (proj1 (ip_total y2 s2 Y2 H2)), (proj1 (ip_total y3 s3 Y3 H3)).
Qed.

(** The loop that tests its predicate. *)
Lemma any_whilelt i : existsb id (svwhilelt svcntb i d) = (i <? d)%nat.
Proof.
  clear. pose proof svcntb_pos as Hb. destruct (Nat.ltb_spec i d) as [Hlt|Hge].
  - apply existsb_exists. exists true. split; [|done]. apply list_elem_of_In, list_elem_of_fmap. exists 0%nat.
    split; [by rewrite Nat.add_0_r, (proj2 (Nat.ltb_lt _ _))|]. apply elem_of_seq. lia.
  - apply not_true_iff_false. intros (b & Hb' & Hid)%existsb_exists. apply list_elem_of_In, list_elem_of_fmap in Hb' as (l & -> & _).
    unfold id in Hid. apply Nat.ltb_lt in Hid. lia.
Qed.

Lemma int8_norm_sve_value : int8_vec_norm_L2sqr_sve x d = Ret (F32.of_Z (zsum Z.mul x x d)).
Proof.
  match goal with |- ?m = Ret ?r => assert (wp m (fun q => q = r)) as E; [|by apply wp_elim in E as (? & -> & ->)] end.
  unfold int8_vec_norm_L2sqr_sve. apply wp_bind. pose proof svcntb_pos as Hb.
  assert (forall fuel i s, (i <= d)%nat \/ (d <= i)%nat -> (d - i <= fuel)%nat -> exact x x (Nat.min i d) s ->
    wp (while_any fuel i d (fun pg i sum => let* a := svld1 0 pg (drop i x) in Ret (svdot sum a a)) s) (exact x x d)) as H.
  { induction fuel as [|fuel IH]; intros i s _ Hf Hs; cbn [while_any]; rewrite any_whilelt.
    - destruct (Nat.ltb_spec i d); [lia|]. rewrite Nat.min_r in Hs by lia. done.
    - destruct (Nat.ltb_spec i d) as [Hlt|Hge]; [|rewrite Nat.min_r in Hs by lia; done]. rewrite Nat.min_l in Hs by lia.
      rewrite whilelt_prefix. set (m := Nat.min svcntb (d - i)).
      destruct (next_exact x i m s Hx ltac:(lia) ltac:(lia) Hs) as (a & b & Ea & Eb & Hn). assert (b = a) as -> by congruence.
      rewrite Ea. cbn [bind]. apply IH; [lia|lia|]. by replace (Nat.min (i + svcntb) d) with (i + m)%nat by lia. }
  eapply wp_mono; [apply (H d 0%nat svdup0); [lia|lia|apply exact_zero]|].
  intros s Hs. cbn [wp]. by rewrite (proj1 (proj2 (ip_total x s Hx Hs))).
Qed.
End ip.

(** ** Squared distances *)

Section l2.
Context (x : list Z) (d : nat) (Hx : operand d x) (Hd : Z.of_nat d <= 33025).

Lemma zsum_binomial y : (d <= length x)%nat -> (d <= length y)%nat ->
  zsum Z.mul x x d - 2 * zsum Z.mul x y d + zsum Z.mul y y d = zsum l2_lane x y d.
Proof.
  clear. intros Lx Ly. rewrite !zsum_lanesum by done. pose proof (binomial x y d Lx Ly) as H.
  change (zip_with sq x y) with (zip_with l2_lane x y) in H. lia.
Qed.

Lemma l2_of_exact y : operand d y ->
  int8_L2_of (zsum Z.mul x x d) (zsum Z.mul x y d) (zsum Z.mul y y d) = Ret (zsum l2_lane x y d).
Proof.
  intros Hy. pose proof Hx as [Ix Lx]. pose proof Hy as [Iy Ly]. pose proof (zsum_binomial y Lx Ly) as E.
  assert (forall p q, operand d p -> operand d q -> Z.abs (zsum Z.mul p q d) <= Z.of_nat d * 16384) as HB.
  { intros p q [Ip Lp] [Iq Lq]. rewrite zsum_lanesum by done. pose proof (abs_sum_le (take d (zip_with Z.mul p q))).
    pose proof (abs_sum_bound 16384 (take d (zip_with Z.mul p q))) as B. rewrite length_take, length_zip_with in B.
    specialize (B ltac:(by apply Forall_take, ip_bounds)). nia. }
  pose proof (HB x x Hx Hx). pose proof (HB x y Hx Hy). pose proof (HB y y Hy Hy).
  assert (Z.abs (zsum l2_lane x y d) <= Z.of_nat d * 65025) as HL.
  { rewrite zsum_lanesum by done. pose proof (terms_bound l2_lane 65025 d l2_lane_bound x y 0 d Hx Hy) as B.
    rewrite slice_0 in B. rewrite length_take, length_zip_with in B. rewrite Nat.min_l in B by lia. done. }
  unfold int8_L2_of. rewrite (i32_ok (2 * _)) by lia. cbn [bind]. rewrite (i32_ok (_ - _)) by lia. cbn [bind].
  rewrite E. apply i32_ok. lia.
Qed.

Lemma int8_l2_sve_value y : operand d y -> int8_vec_L2sqr_sve x y d = Ret (F32.of_Z (zsum l2_lane x y d)).
Proof.
  intros Hy. pose proof Hx as [Ix Lx]. pose proof Hy as [Iy Ly].
  unfold int8_vec_L2sqr_sve. destruct (Nat.ltb_spec d 16) as [Hlt|Hge]; [by rewrite int8_l2_loop|].
  match goal with |- ?m = Ret ?r => assert (wp m (fun q => q = r)) as E; [|by apply wp_elim in E as (? & -> & ->)] end.
  apply (one_by_one d (fun i '(s, t, u) => exact x x i s /\ exact x y i t /\ exact y y i u)
    (fun pg i '(s, t, u) => let* vx := svld1 0 pg (drop i x) in let* vy := svld1 0 pg (drop i y) in
      Ret (svdot s vx vx, svdot t vx vy, svdot u vy vy))).
  - split_and!; apply exact_zero.
  - intros i m [[s t] u] Hi Hm (Hs & Ht & Hu). rewrite !svld1_prefix by lia. cbn [bind wp].
    split_and!; apply svdot_exact; try done; try lia; nia.
  - intros [[s t] u] (Hs & Ht & Hu). cbv zeta.
    rewrite (proj1 (proj2 (ip_total x d Hx ltac:(lia) x s Hx Hs))), (proj1 (proj2 (ip_total x d Hx ltac:(lia) y t Hy Ht))),
      (proj1 (proj2 (ip_total y d Hy ltac:(lia) y u Hy Hu))).
    by rewrite l2_of_exact.
Qed.

(** *** Four candidates: nine sums *)

Section batch.
Context (y0 y1 y2 y3 : list Z) (Y0 : operand d y0) (Y1 : operand d y1) (Y2 : operand d y2) (Y3 : operand d y3).

Definition sums9 (f : list Z -> list Z -> Z) : nine := (f x x, (f x y0, f x y1, f x y2, f x y3), (f y0 y0, f y1 y1, f y2 y2, f y3 y3)).

Lemma ip_step p q off i : operand d p -> operand d q -> (off <= i < d)%nat ->
  int8_ip (lanesum (slice off i (ip p q))) (p !!! i) (q !!! i) = Ret (lanesum (slice off (i + 1) (ip p q))).
Proof.
  clear -Hd. intros [Ip Lp] [Iq Lq] Hi. unfold int8_ip.
  assert (is_int8 (p !!! i)) as H1 by (eapply Forall_lookup_1; [exact Ip|]; apply list_lookup_lookup_total_lt; lia).
  assert (is_int8 (q !!! i)) as H2 by (eapply Forall_lookup_1; [exact Iq|]; apply list_lookup_lookup_total_lt; lia).
  unfold is_int8 in H1, H2. rewrite (i32_ok (_ * _)) by nia. cbn [bind].
  assert (lanesum (slice off (i + 1) (ip p q)) = lanesum (slice off i (ip p q)) + p !!! i * q !!! i) as E.
  { rewrite (slice_sum (ip p q) off i (i + 1)) by lia. f_equal. rewrite slice_at by (unfold ip; rewrite length_zip_with; lia).
    cbn [seq fmap list_fmap]. rewrite lanesum_one, Nat.add_0_r. apply list_lookup_total_correct, lookup_zip_with_Some.
    exists (p !!! i), (q !!! i). split_and!; [done|apply list_lookup_lookup_total_lt; lia|apply list_lookup_lookup_total_lt; lia]. }
  rewrite <- E. apply i32_ok. pose proof (abs_sum_le (slice off (i + 1) (ip p q))).
  pose proof (abs_sum_bound 16384 (slice off (i + 1) (ip p q))) as B.
  rewrite length_slice in B by (unfold ip; rewrite length_zip_with; lia).
  specialize (B ltac:(unfold slice; by apply Forall_take, Forall_drop, ip_bounds)). nia.
Qed.

Lemma scalar_sums off e : (off + e = d)%nat ->
  foldM (add9 x y0 y1 y2 y3) zero9 (seq off e) = Ret (sums9 (fun p q => lanesum (slice off d (ip p q)))).
Proof.
  intros Ho.
  match goal with |- ?m = Ret ?r => assert (wp m (fun q => q = r)) as E; [|by apply wp_elim in E as (? & -> & ->)] end.
  apply (wp_for _ (fun i st => st = sums9 (fun p q => lanesum (slice off i (ip p q))))).
  - unfold sums9, slice. by rewrite Nat.sub_diag.
  - intros i st Hi ->. unfold add9, sums9. pose proof Hx as [_ Lx]. pose proof Y0 as [_ L0]. pose proof Y1 as [_ L1].
    pose proof Y2 as [_ L2]. pose proof Y3 as [_ L3]. rewrite !vget_total by lia. cbn [bind].
    repeat (rewrite ip_step by (done || lia); cbn [bind]). done.
  - intros st ->. by rewrite Ho.
Qed.

Lemma nine_exact : nine_L2 (sums9 (fun p q => zsum Z.mul p q d)) =
  let s y := F32.of_Z (zsum l2_lane x y d) in Ret (s y0, s y1, s y2, s y3).
Proof. unfold nine_L2, sums9. by rewrite !l2_of_exact. Qed.

Lemma plus_exact p q off s : operand d p -> operand d q -> (off <= d)%nat -> exact p q off s ->
  wrap_s32 (lanesum (slice off d (ip p q)) + svaddv_s32 s) = zsum Z.mul p q d.
Proof.
  clear -Hd. intros [Ip Lp] [Iq Lq] Ho [[_ Hs] _]. change (svaddv_s32 s) with (lanesum s). rewrite Hs, Z.add_comm, <- lanesum_slice by done.
  rewrite zsum_lanesum by done. apply (wrap_cong _ _ (cong_refl _)). fold (ip p q). pose proof (abs_sum_le (take d (ip p q))).
  pose proof (abs_sum_bound 16384 (take d (ip p q))) as B. rewrite length_take in B. unfold ip in B at 3. rewrite length_zip_with in B.
  specialize (B ltac:(by apply Forall_take, ip_bounds)). nia.
Qed.

Lemma int8_l2_batch_sve_value : let s y := F32.of_Z (zsum l2_lane x y d) in
  int8_vec_L2sqr_batch_4_sve x y0 y1 y2 y3 d = Ret (s y0, s y1, s y2, s y3).
Proof.
  intros sv. unfold int8_vec_L2sqr_batch_4_sve. destruct (Nat.eqb_spec d 0) as [E0|_].
  { unfold sv. rewrite E0. reflexivity. }
  assert (Forall (operand d) [y0; y1; y2; y3]) as Hy by (by rewrite !Forall_cons, Forall_nil).
  destruct (Nat.ltb_spec d 16) as [Hlt|Hge].
  { rewrite (scalar_sums 0 d) by done. cbn [bind]. unfold sv. pose proof nine_exact as N. cbv zeta in N. rewrite <- N. f_equal.
    unfold sums9. pose proof Hx as [_ Lx]. pose proof Y0 as [_ L0]. pose proof Y1 as [_ L1]. pose proof Y2 as [_ L2]. pose proof Y3 as [_ L3].
    rewrite !slice_0. by rewrite !zsum_lanesum. }
  match goal with |- ?m = Ret ?r => assert (wp m (fun q => q = r)) as E; [|by apply wp_elim in E as (? & -> & ->)] end.
  cbv zeta. rewrite ptrue_prefix. apply wp_bind. pose proof svcntb_pos as Hb.
  eapply wp_mono; [apply (strips_spec (fun i '(s, (t0, t1, t2, t3), (u0, u1, u2, u3)) => exact x x i s /\
    (exact x y0 i t0 /\ exact x y1 i t1 /\ exact x y2 i t2 /\ exact x y3 i t3) /\
    (exact y0 y0 i u0 /\ exact y1 y1 i u1 /\ exact y2 y2 i u2 /\ exact y3 y3 i u3)) d); [done|lia|lia| |]|].
  - split_and!; apply exact_zero.
  - intros i [[s [[[t0 t1] t2] t3]] [[[u0 u1] u2] u3]] Hi (Hs & (H0 & H1 & H2 & H3) & (K0 & K1 & K2 & K3)).
    rewrite (load5_int8 x d Hx) by done. cbn [bind wp].
    destruct Hx as [Ix Lx], Y0 as [I0 L0], Y1 as [I1 L1], Y2 as [I2 L2], Y3 as [I3 L3].
    split_and!; apply svdot_exact; try done; try lia.
  - intros [[o e] [[s [[[t0 t1] t2] t3]] [[[u0 u1] u2] u3]]] (Ho & He & Hs & (H0 & H1 & H2 & H3) & (K0 & K1 & K2 & K3)).
    rewrite (scalar_sums o e Ho). cbn [bind]. unfold sums9 at 1. rewrite !plus_exact by (done || lia).
    pose proof nine_exact as N. unfold sums9 in N. rewrite N. done.
Qed.
End batch.
End l2.
End int8.

(** * The SVE Linf distance, on binary32 numbers *)

#[local] Close Scope Z_scope.

Implicit Types (S T v w : list spec_float).

#[local] Instance sf_inhabited : Inhabited spec_float := populate F32.zero.

Lemma max2_zero s : mag s -> max2 s F32.zero = s.
Proof. intros (f & -> & Hf). by destruct f. Qed.

Lemma vmax_zeros v : Forall mag v -> vmax v (replicate (length v) F32.zero) = v.
Proof.
  induction 1 as [|s v Hs Hv IH]; [done|]. change (max2 s F32.zero :: vmax v (replicate (length v) F32.zero) = s :: v).
  by rewrite max2_zero, IH.
Qed.

(** The maximum in the first lanes only. *)
Lemma max_active n k v u z : k <= n -> length v = n -> length u = k -> length z = n - k -> Forall mag v -> Forall mag u ->
  svmax_m (prefix n k) v (u ++ z) = vmax v (u ++ replicate (n - k) F32.zero).
Proof.
  intros Hk Hv Hu Hz Mv Mu. unfold svmax_m.
  assert (forall z, vmaxq v (u ++ z) = vmaxq (take k v) u ++ vmaxq (drop k v) z) as E1.
  { intros z'. unfold vmaxq. rewrite <- zip_with_app by (rewrite length_take; lia). by rewrite take_drop. }
  assert (forall z, vmax v (u ++ z) = vmax (take k v) u ++ vmax (drop k v) z) as E2.
  { intros z'. unfold vmax. rewrite <- zip_with_app by (rewrite length_take; lia). by rewrite take_drop. }
  rewrite svsel_prefix by (try done; unfold vmaxq; rewrite length_zip_with, length_app; lia).
  rewrite E1, E2, take_app_length' by (unfold vmaxq; rewrite length_zip_with, length_take; lia).
  rewrite vmaxq_vmax by (done || by apply Forall_take). f_equal.
  replace (n - k) with (length (drop k v)) by (rewrite length_drop; lia). by rewrite vmax_zeros by by apply Forall_drop.
Qed.

Lemma diff_active `{!Agnostic spec_float} n k (s t : list spec_float) : k <= n -> length s = k -> length t = k ->
  exists z, length z = n - k /\
  svabs_x (prefix n k) (svsub_m (prefix n k) (s ++ replicate (n - k) F32.zero) (t ++ replicate (n - k) F32.zero)) = diffs s t ++ z.
Proof.
  intros Hk Hs Ht. unfold svabs_x, svsub_m. rewrite length_prefix.
  rewrite (svsel_prefix n k (vsub _ _)) by (try done; unfold vsub; rewrite ?length_zip_with, !length_app, !length_replicate; lia).
  unfold vsub. rewrite zip_with_app by lia. rewrite take_app_length' by (rewrite length_zip_with; lia).
  rewrite drop_app_length' by done.
  rewrite svsel_prefix;
    [|done|unfold vabs; rewrite length_fmap, length_app, length_zip_with, length_replicate; lia|by rewrite length_fmap, length_seq].
  unfold vabs. rewrite fmap_app, take_app_length' by (rewrite length_fmap, length_zip_with; lia).
  eexists. split; [|f_equal].
  - rewrite length_drop, length_fmap, length_seq. lia.
  - clear. unfold diffs. revert t. induction s as [|u s IH]; intros [|x t]; try done. cbn. apply (f_equal2 cons); [done|apply IH].
Qed.

Lemma covers_cons2 S a b v : Forall mag S -> covers S (a :: b :: v) -> covers S (max2 a b :: v).
Proof.
  intros HS [H1 H2].
  assert (mag a /\ mag b) as [Ma%mag_nan Mb%mag_nan] by (split; eapply mags_nok; try done; apply H1; set_solver).
  destruct (max2_ge a b Ma Mb) as [Ga Gb]. split.
  - intros u [->|Hu]%elem_of_cons; [|apply H1; set_solver]. destruct (max2_cases a b) as [->| ->]; apply H1; set_solver.
  - intros t Ht. destruct (H2 t Ht) as (u & Hu & Htu). assert (u = a \/ u = b \/ u ∈ v) as [->|[->|Hv]] by set_solver.
    + exists (max2 a b). split; [set_solver|by etrans].
    + exists (max2 a b). split; [set_solver|by etrans].
    + exists u. split; [set_solver|done].
Qed.

Lemma covers_foldl S v a : Forall mag S -> covers S (a :: v) -> covers S [foldl maxq a v].
Proof.
  intros HS. revert a. induction v as [|b v IH]; intros a Hc; [done|]. cbn [foldl]. apply IH.
  rewrite maxq_max2; [by apply covers_cons2|eapply mags_nok; [done|apply Hc; set_solver]|eapply mags_nok; [done|apply Hc; set_solver]].
Qed.

Section linf.
Context `{HI : !SveImpl, !Agnostic spec_float} (x y : list spec_float) (d : nat).
Hypothesis Hx : d <= length x.
Hypothesis Hy : d <= length y.
Let T := diffs x y.
Hypothesis HT : Forall mag (take d T).

Lemma linf_sve_value : fvec_Linf_sve x y d = fvec_Linf_ref x y d.
Proof.
  destruct (linf_ref_covers x y d Hx Hy HT) as (r & -> & Hr). pose proof svcntw_pos as Hw.
  match goal with |- ?m = Ret _ => assert (wp m (fun u => u = r)) as E; [|by apply wp_elim in E as (? & -> & ->)] end.
  unfold fvec_Linf_sve. apply wp_bind.
  eapply wp_mono; [apply (sve_while_spec (covering svcntw T)); [done|done|split; [apply length_replicate|by apply (covers_zero svcntw)]|]|].
  - intros j v Hj [Hl Hv]. unfold load2. change (@nzero spec_float F32_num) with F32.zero.
    rewrite pg_at_prefix, next_off by done. set (i := j * svcntw) in *. set (k := Nat.min svcntw (d - i)).
    rewrite !svld1_prefix by lia. cbn [bind wp].
    destruct (diff_active svcntw k (slice i (i + k) x) (slice i (i + k) y)) as (z & Hz & ->); [lia|rewrite length_slice; lia|rewrite length_slice; lia|].
    assert (diffs (slice i (i + k) x) (slice i (i + k) y) = slice i (i + k) T) as -> by (unfold T, diffs; by rewrite slice_zip_with).
    assert (Forall mag (take (i + k) T)) as M1 by (eapply mags_take; [|exact HT]; lia).
    rewrite max_active; [|lia|done| |done| |by apply mags_slice].
    + apply covering_step; [done|lia|unfold T; rewrite length_diffs; lia|done|by split].
    + rewrite length_slice; [lia|unfold T; rewrite length_diffs; lia].
    + apply Forall_forall. intros u Hu. eapply (mags_nok (take i T)); [eapply mags_take; [|exact HT]; lia|by apply Hv].
  - intros v [Hl Hv]. cbn [wp]. symmetry. apply (covers_unique (take d T)); [done|done|].
    destruct v as [|a v]; [simpl in Hl; lia|]. by apply covers_foldl.
Qed.
End linf.
