(* ===== verification/SveSpec.v ===== *)
(** * What the SVE kernels promise

    The kernels of [distances_sve.cc] against the scalar reference kernels, for
    every register length. *)

From S2P Require Import Prelude Float Num Bitset MemoryIO Operands Distances DistanceProps Rvv RvvKernels RvvProps.
From S2P Require Import RvvColumns Simd SimdProps AvxProps SseProps X86Spec Neon NeonProps Sve SveProps SveInt8.

#[local] Open Scope Z_scope.

Section batch.
Context `{HI : !SveImpl, HU : !Usum Z} (x y0 y1 y2 y3 : list Z) (d : nat).
Hypothesis Hx : (d <= length x)%nat.
Hypothesis Hy : Forall (fun p => (d <= length p)%nat) [y0; y1; y2; y3].

Lemma sve_batch_ref step refstep f : sve_adds step f -> (forall r u v, refstep r u v = r + f u v) ->
  sve_batch_4 step x y0 y1 y2 y3 d = batch_4 (fun v => v) refstep x y0 y1 y2 y3 d.
Proof.
  intros Hs Hr. pose proof Hy as (H0 & H1 & H2 & H3 & _)%Forall4. rewrite (sve_batch_value step f) by done.
  symmetry. by apply (batch_ref_value refstep f).
Qed.

Lemma bf16_batches_ref (wid : Z -> Z) bfdot : wid 0 = 0 -> (forall acc a0 b0 a1 b1, bfdot acc a0 b0 a1 b1 = acc + a0 * b0 + a1 * b1) ->
  let b step := step (wid <$> x) (wid <$> y0) (wid <$> y1) (wid <$> y2) (wid <$> y3) d in
  bf16_inner_product_batch_4_sve wid bfdot x y0 y1 y2 y3 d = b fvec_inner_product_batch_4_ref /\
  bf16_L2sqr_batch_4_sve wid bfdot 2 x y0 y1 y2 y3 d = b fvec_L2sqr_batch_4_ref.
Proof.
  intros Hw Hb b. pose proof Hy as (H0 & H1 & H2 & H3 & _)%Forall4. unfold b, fvec_inner_product_batch_4_ref, fvec_L2sqr_batch_4_ref.
  rewrite (bf16_ip_batch_sve_value wid Hw bfdot Hb x d Hx y0 y1 y2 y3 Hy), (bf16_l2_batch_sve_value wid Hw bfdot Hb x d Hx y0 y1 y2 y3 Hy).
  by rewrite (batch_ref_value _ Z.mul), (batch_ref_value _ sq) by (rewrite ?length_fmap; done).
Qed.
End batch.

(** ** Rows and least elements *)

(** One vector against many rows.  In exact arithmetic the SVE kernel writes
    the reference's distances for every dimension but 2; in dimension 2 it does
    so when an element follows the last row, and on an array that ends with the
    last row it reads one element behind the end, whatever the number of rows
    and the register length.  The nearest row is the reference's for fewer than
    16 rows; for 16 or more, as the argmin of the multiply-add, it is one of a
    least value, not always the first of them. *)
Theorem sve_rows_and_least `{HI : !SveImpl, HU : !Usum Z} (x y dis : list Z) (d ny : nat) :
  (d <= length x)%nat -> (ny * d <= length y)%nat -> (ny <= length dis)%nat ->
  (d <> 2%nat \/ (ny * d < length y)%nat ->
   fvec_L2sqr_ny_sve dis x y d ny = fvec_L2sqr_ny_ref dis x y d ny /\
   ((ny < 16)%nat -> forall huge, fvec_L2sqr_ny_nearest_sve huge dis x y d ny =
      (let* (r, i) := fvec_L2sqr_ny_nearest_ref huge dis x y d ny in Ret (r, Z.of_nat i))) /\
   ((16 <= ny)%nat -> Z.of_nat ny <= 2 ^ 32 -> forall huge, exists r i,
    fvec_L2sqr_ny_nearest_sve huge dis x y d ny = Ret (r, Z.of_nat i) /\ fvec_L2sqr_ny_ref dis x y d ny = Ret r /\
    (i < ny)%nat /\ forall j, (j < ny)%nat -> r !!! i <= r !!! j)) /\
  (d = 2%nat -> length y = (ny * d)%nat -> (0 < ny)%nat -> fvec_L2sqr_ny_sve dis x y d ny = Undef) /\
  (forall a b c bf n, (n <= length a)%nat -> (n <= length b)%nat -> (n <= length c)%nat ->
   fvec_madd_sve n a bf b c = fvec_madd_ref n a bf b c /\
   forall inf, (0 < n)%nat -> Z.of_nat n <= 2 ^ 32 -> (forall i, (i < n)%nat -> a !!! i + bf * b !!! i < inf) -> exists r i,
    fvec_madd_and_argmin_sve inf n a bf b c = Ret (r, Z.of_nat i) /\ fvec_madd_ref n a bf b c = Ret r /\
    (i < n)%nat /\ forall j, (j < n)%nat -> a !!! i + bf * b !!! i <= a !!! j + bf * b !!! j).
Proof.
  intros Hx Hy Hd. refine (conj _ (conj _ _)).
  - intros H2. assert (fvec_L2sqr_ny_sve dis x y d ny = fvec_L2sqr_ny_ref dis x y d ny) as E.
    { apply ny_sve_l2; [done|done|done|]. intros ->. by destruct H2. }
    split_and!; [done| |].
    { intros H16 huge. unfold fvec_L2sqr_ny_nearest_sve, fvec_L2sqr_ny_nearest_ref, nearest_scan. rewrite E.
      rewrite (proj2 (Nat.leb_gt 16 ny)) by done. destruct (fvec_L2sqr_ny_ref dis x y d ny); [|done..]. cbn [bind].
      match goal with |- bind ?m _ = _ => by destruct m as [[? ?]| |] end. }
    intros H16 Hn huge. unfold fvec_L2sqr_ny_nearest_sve. rewrite E, (ref_rows x y dis d ny Hx Hy Hd). cbn [bind].
    rewrite (proj2 (Nat.leb_le 16 ny)) by done. set (r := _ ++ _).
    destruct (find_min_least r ny) as (i & Hi & -> & Hmin); [lia|unfold r; rewrite length_app, length_filled, length_drop; lia|done|].
    by exists r, i.
  - intros -> Hl H0. destruct x as [|a [|b x']]; try (simpl in Hx; lia). by apply rows_dim2_over.
  - intros a b c bf n Ha Hb Hc. destruct (wp_elim _ _ (madd_ref_filled a b c bf n Ha Hb Hc)) as (r & Er & Hr).
    destruct (wp_elim _ _ (madd_sve_filled a b c bf n Ha Hb Hc)) as (r' & Er' & Hr'). split.
    + rewrite Er, Er', Hr, Hr'. done.
    + intros inf H0 Hn Hv. destruct (wp_elim _ _ (argmin_sve_least a b c bf n Ha Hb Hc inf H0 Hn Hv)) as ([q ans] & -> & Hq & i & Hi & -> & Hmin).
      exists q, i. rewrite Er, Hr, Hq. done.
Qed.

Lemma sve_rows_and_least_witness :
  let _ := sve128 in
  fvec_L2sqr_ny_sve [0; 0; 0] [1; 2] [4; 5; 1; 1; 1; 2; 9] 2 3 = Ret [18; 1; 0] /\
  fvec_L2sqr_ny_sve [0; 0; 0] [1; 2] [4; 5; 1; 1; 1; 2] 2 3 = Undef /\
  (exists i, fvec_madd_and_argmin_sve 100 3 [4; 1; 1] 2 [0; 0; 1] [0; 0; 0] = Ret ([4; 1; 3], Z.of_nat i) /\ i = 1%nat).
Proof.
  intros I. refine (conj _ (conj _ _)).
  - destruct (sve_rows_and_least [1; 2] [4; 5; 1; 1; 1; 2; 9] [0; 0; 0] 2 3) as (H & _); [simpl; lia..|].
    rewrite (proj1 (H ltac:(right; simpl; lia))). reflexivity.
  - destruct (sve_rows_and_least [1; 2] [4; 5; 1; 1; 1; 2] [0; 0; 0] 2 3) as (_ & H & _); [simpl; lia..|].
    apply H; [done|done|lia].
  - destruct (sve_rows_and_least [] [] [] 0 0) as (_ & _ & H); [simpl; lia..|].
    destruct (H [4; 1; 1] [0; 0; 1] [0; 0; 0] 2 3%nat) as [Er Hm]; [simpl; lia..|].
    destruct (Hm 100) as (r & i & E & Er' & Hi & Hmin); [lia|lia|intros i Hi; destruct i as [|[|[|i]]]; cbn; lia|].
    exists i. rewrite E. cbn in Er'. injection Er' as <-. split; [done|]. specialize (Hmin 1%nat ltac:(lia)).
    destruct i as [|[|[|i]]]; cbn in Hmin; lia.
Defined.

(** ** The kernels together *)

(** C27: the SVE kernels against the scalar kernels, on every register length
    and dimension.  In exact arithmetic these terminate and return what the
    scalar kernels return: inner product, squared L2 and L1 distance, squared
    norm, batches of four, inner products with many rows, the multiply-add, the
    fp16 kernels (even and odd elements apart) and the bf16 kernels (pairs of
    products; squared distances as |x|^2 + |y|^2 - 2 x y).  The squared
    distances to many rows do so in every dimension but 2, and in dimension 2
    when an element follows the last row; on an array that ends with the last
    row they read behind its end.  Where they do, the nearest row is the scalar
    kernel's for fewer than 16 rows and a row of least distance otherwise; the
    argmin of the multiply-add is a position of a least value.  On binary32
    numbers the Linf distance is the scalar one when no difference is NaN.  On
    [int8_t] all kernels return the scalar results, in the dimensions where
    those are exact. *)
Theorem sve_kernels_match_reference `{HI : !SveImpl, HU : !Usum Z, !Agnostic Z, !Agnostic spec_float}
    (x y y0 y1 y2 y3 dis : list Z) (d ny : nat) (widen : Z -> Z) (bfdot : Z -> Z -> Z -> Z -> Z -> Z) (u v : list spec_float) :
  (d <= length x)%nat -> widen 0 = 0 -> (forall acc a0 b0 a1 b1, bfdot acc a0 b0 a1 b1 = acc + a0 * b0 + a1 * b1) ->
  ((d <= length y)%nat ->
   fvec_inner_product_sve x y d = fvec_inner_product_ref x y d /\ fvec_L2sqr_sve x y d = fvec_L2sqr_ref x y d /\
   fvec_L1_sve x y d = fvec_L1_ref x y d /\ fvec_norm_L2sqr_sve x d = fvec_norm_L2sqr_ref x d /\
   half_inner_product_sve widen x y d = half_inner_product widen x y d /\ half_L2sqr_sve widen x y d = half_L2sqr widen x y d /\
   half_norm_L2sqr_sve widen x d = norm_L2sqr widen x d /\
   bf16_inner_product_sve widen bfdot x y d = half_inner_product widen x y d /\
   bf16_L2sqr_sve widen bfdot 2 x y d = half_L2sqr widen x y d /\
   bf16_norm_L2sqr_sve widen bfdot x d = norm_L2sqr widen x d) /\
  ((ny * d <= length y)%nat -> (ny <= length dis)%nat ->
   fvec_inner_products_ny_sve dis x y d ny = fvec_inner_products_ny_ref dis x y d ny /\
   (d <> 2%nat \/ (ny * d < length y)%nat ->
    fvec_L2sqr_ny_sve dis x y d ny = fvec_L2sqr_ny_ref dis x y d ny /\
    ((ny < 16)%nat -> forall huge, fvec_L2sqr_ny_nearest_sve huge dis x y d ny =
       (let* (r, i) := fvec_L2sqr_ny_nearest_ref huge dis x y d ny in Ret (r, Z.of_nat i))) /\
    ((16 <= ny)%nat -> Z.of_nat ny <= 2 ^ 32 -> forall huge, exists r i,
     fvec_L2sqr_ny_nearest_sve huge dis x y d ny = Ret (r, Z.of_nat i) /\ fvec_L2sqr_ny_ref dis x y d ny = Ret r /\
     (i < ny)%nat /\ forall j, (j < ny)%nat -> r !!! i <= r !!! j)) /\
   (d = 2%nat -> length y = (ny * d)%nat -> (0 < ny)%nat -> fvec_L2sqr_ny_sve dis x y d ny = Undef)) /\
  (forall a b c bf n, (n <= length a)%nat -> (n <= length b)%nat -> (n <= length c)%nat ->
   fvec_madd_sve n a bf b c = fvec_madd_ref n a bf b c /\
   forall inf, (0 < n)%nat -> Z.of_nat n <= 2 ^ 32 -> (forall i, (i < n)%nat -> a !!! i + bf * b !!! i < inf) -> exists r i,
    fvec_madd_and_argmin_sve inf n a bf b c = Ret (r, Z.of_nat i) /\ fvec_madd_ref n a bf b c = Ret r /\
    (i < n)%nat /\ forall j, (j < n)%nat -> a !!! i + bf * b !!! i <= a !!! j + bf * b !!! j) /\
  (Forall (fun p => (d <= length p)%nat) [y0; y1; y2; y3] ->
   fvec_inner_product_batch_4_sve x y0 y1 y2 y3 d = fvec_inner_product_batch_4_ref x y0 y1 y2 y3 d /\
   fvec_L2sqr_batch_4_sve x y0 y1 y2 y3 d = fvec_L2sqr_batch_4_ref x y0 y1 y2 y3 d /\
   bf16_inner_product_batch_4_sve widen bfdot x y0 y1 y2 y3 d = batch_4 widen Distances.ip_step x y0 y1 y2 y3 d /\
   bf16_L2sqr_batch_4_sve widen bfdot 2 x y0 y1 y2 y3 d = batch_4 widen Distances.l2_step x y0 y1 y2 y3 d) /\
  ((d <= length u)%nat -> (d <= length v)%nat -> Forall (fun t => is_nan t = false) (zip_with F32.sub (take d u) (take d v)) ->
   fvec_Linf_sve u v d = fvec_Linf_ref u v d) /\
  (Forall (operand d) [x; y; y0; y1; y2; y3] ->
   (Z.of_nat d <= 131071 ->
    int8_vec_inner_product_sve x y d = int8_vec_inner_product_ref x y d /\
    int8_vec_norm_L2sqr_sve x d = int8_vec_norm_L2sqr_ref x d /\
    int8_vec_inner_product_batch_4_sve x y0 y1 y2 y3 d = int8_vec_inner_product_batch_4_ref x y0 y1 y2 y3 d) /\
   (Z.of_nat d <= 33025 ->
    int8_vec_L2sqr_sve x y d = int8_vec_L2sqr_ref x y d /\
    int8_vec_L2sqr_batch_4_sve x y0 y1 y2 y3 d = int8_vec_L2sqr_batch_4_ref x y0 y1 y2 y3 d)).
Proof.
  intros Hx Hw Hb. refine (conj _ (conj _ (conj _ (conj _ (conj _ _))))).
  - intros Hy. rewrite ip_sve_value, l2_sve_value, l1_sve_value, norm_sve_value by done.
    rewrite half_ip_sve_value, half_l2_sve_value, half_norm_sve_value by done.
    rewrite bf16_ip_sve_value, bf16_l2_sve_value, bf16_norm_sve_value by done.
    rewrite fvec_norm_ref_ip, half_ip_loaded, half_l2_loaded, norm_ref_ip.
    rewrite !ip_ref_value, !l2_ref_value, l1_ref_value by (rewrite ?length_fmap; done). split_and!; done.
  - intros Hy Hd. split; [by apply ip_rows_sve|]. destruct (sve_rows_and_least x y dis d ny Hx Hy Hd) as (H1 & H2 & _). by split.
  - apply (sve_rows_and_least [] [] [] 0 0); simpl; lia.
  - intros Hy. rewrite !(batch_loaded widen). destruct (bf16_batches_ref x y0 y1 y2 y3 d Hx Hy widen bfdot Hw Hb) as [E1 E2].
    refine (conj _ (conj _ (conj E1 E2))).
    + by apply (sve_batch_ref x y0 y1 y2 y3 d Hx Hy _ _ Z.mul); [apply mla_adds|].
    + by apply (sve_batch_ref x y0 y1 y2 y3 d Hx Hy _ _ sq); [apply l2_adds|].
  - intros Hu Hv Hn. by apply linf_sve_value; [..|apply diffs_mag].
  - rewrite !Forall_cons. intros (Ox & Oy & O0 & O1 & O2 & O3 & _).
    assert (Forall (operand d) [y0; y1; y2; y3]) as O4 by (by rewrite !Forall_cons, Forall_nil). split; intros Hd.
    + assert (forall q, operand d q -> int8_loop int8_ip x q d = Ret (zsum Z.mul x q d)) as Hl.
      { intros q Hq. apply int8_ip_loop; (apply Ox || apply Hq || done). }
      rewrite int8_ip_sve_value, int8_norm_sve_value by (done || lia).
      unfold int8_vec_inner_product_ref, int8_vec_norm_L2sqr_ref. rewrite !Hl by done. refine (conj eq_refl (conj eq_refl _)).
      rewrite (int8_ip_batch_sve_value x d Ox ltac:(lia) y0 y1 y2 y3 O4). symmetry. apply (int8_batch_ref int8_ip Z.mul).
      intros q Hq. apply Hl. by eapply Forall_forall in O4.
    + assert (forall q, operand d q -> int8_loop int8_l2 x q d = Ret (zsum l2_lane x q d)) as Hl.
      { intros q Hq. apply int8_l2_loop; (apply Ox || apply Hq || done). }
      rewrite int8_l2_sve_value by done. unfold int8_vec_L2sqr_ref. rewrite Hl by done. refine (conj eq_refl _).
      rewrite (int8_l2_batch_sve_value x d Ox Hd y0 y1 y2 y3 O0 O1 O2 O3). symmetry. apply (int8_batch_ref int8_l2 l2_lane).
      intros q Hq. apply Hl. by eapply Forall_forall in O4.
Qed.

Lemma sve_kernels_match_reference_witness :
  let _ := sve128 in let _ := sevens in let _ := Build_Agnostic spec_float (fun _ => S754_nan) in
  fvec_L1_sve [1; 2; 3; 4; 5] [4; 0; 6; 4; 7] 5 = Ret 10 /\
  bf16_L2sqr_sve (fun v => v) (fun acc a0 b0 a1 b1 => acc + a0 * b0 + a1 * b1) 2 [1; 2; 3] [4; 5; 6] 3 = Ret 27 /\
  int8_vec_inner_product_sve [1; 2; 3] [4; 5; 6] 3 = Ret (F32.of_Z 32).
Proof.
  intros I J K. pose (dot := fun acc a0 b0 a1 b1 : Z => acc + a0 * b0 + a1 * b1).
  refine (conj _ (conj _ _)).
  - destruct (sve_kernels_match_reference [1; 2; 3; 4; 5] [4; 0; 6; 4; 7] [] [] [] [] [] 5 0 (fun v => v) dot [] []
      ltac:(simpl; lia) eq_refl ltac:(done)) as ((_ & _ & E & _) & _); [simpl; lia|]. etransitivity; [exact E|reflexivity].
  - destruct (sve_kernels_match_reference [1; 2; 3] [4; 5; 6] [] [] [] [] [] 3 0 (fun v => v) dot [] []
      ltac:(simpl; lia) eq_refl ltac:(done)) as ((_ & _ & _ & _ & _ & _ & _ & _ & E & _) & _); [simpl; lia|]. etransitivity; [exact E|reflexivity].
  - destruct (sve_kernels_match_reference [1; 2; 3] [4; 5; 6] [1; 2; 3] [1; 2; 3] [1; 2; 3] [1; 2; 3] [] 3 0 (fun v => v) dot [] []
      ltac:(simpl; lia) eq_refl ltac:(done)) as (_ & _ & _ & _ & _ & H).
    rewrite (proj1 (proj1 (H ltac:(unfold operand, is_int8; rewrite !Forall_cons, !Forall_nil; cbn; lia)) ltac:(lia))). reflexivity.
Defined.
