(* ===== verification/Ppc.v ===== *)
(** * PowerPC distance kernels (src/simd/distances_powerpc.cc)

    Registers of four lanes for the elements up to [base = (d / 4) * 4], a scalar
    loop for the rest.  [vec_xl] and the casts to [vector float*] read a whole
    register. *)

From S2P Require Import Prelude Float Num Bitset MemoryIO Operands Distances DistanceProps Rvv RvvKernels RvvProps.
From S2P Require Import RvvColumns Simd SimdProps AvxProps SseProps.

(** [for (i = 0; i < base; i += FLOAT_VEC_SIZE)]. *)
Definition vec_loop {S} (d : nat) (body : nat -> S -> M S) (s : S) : M S :=
  foldM (fun s k => body (k * 4) s) s (seq 0 (d / 4)).

(** [for (i = base; i < d; i++)]. *)
Definition rest_loop {S} (d : nat) (body : nat -> S -> M S) (s : S) : M S :=
  let base := d / 4 * 4 in foldM (fun s i => body i s) s (seq base (d - base)).

Section kernels.
Context {A : Type} `{!Num A, !Fma A}.
Implicit Types x y dis v : list A.

(** [vec_xl(i * sizeof(float), p)]. *)
Definition vec_xl (i : nat) (p : list A) : M (list A) := loadu 4 (drop i p).

(** The register part and the scalar part of a sum over two vectors. *)
Definition vec_part (vstep : list A -> list A -> list A -> list A) x y (d : nat) : M (list A) :=
  vec_loop d (fun i vres => let* vx := vec_xl i x in let* vy := vec_xl i y in Ret (vstep vres vx vy)) (set1 4 nzero).
Definition rest_part (step : A -> A -> A -> A) x y (d : nat) : M A :=
  rest_loop d (fun i res => let* xi := vget x i in let* yi := vget y i in Ret (step res xi yi)) nzero.

(** [res + vres[0] + vres[1] + vres[2] + vres[3]]. *)
Definition add_lanes (res : A) v : A := nadd (nadd (nadd (nadd res (lane v 0)) (lane v 1)) (lane v 2)) (lane v 3).

Definition ppc_sum (vstep : list A -> list A -> list A -> list A) (step : A -> A -> A -> A) x y (d : nat) : M A :=
  let* vres := vec_part vstep x y d in
  let* res := rest_part step x y d in
  Ret (add_lanes res vres).

Definition fvec_L2sqr_ppc x y (d : nat) : M A :=
  ppc_sum (fun vres vx vy => let vtmp := vsub vx vy in vadd vres (vmul vtmp vtmp))
    (fun res xi yi => let tmp := nsub xi yi in nadd res (nmul tmp tmp)) x y d.

Definition fvec_L1_ppc x y (d : nat) : M A :=
  ppc_sum (fun vres vx vy => let vtmp := vsub vx vy in let vtmp := vabs vtmp in vadd vtmp vres)
    (fun res xi yi => let tmp := nsub xi yi in nadd res (nabs tmp)) x y d.

Definition fvec_inner_product_ppc x y (d : nat) : M A :=
  ppc_sum (fun vres vx vy => fmadd vx vy vres) (fun res xi yi => nadd res (nmul xi yi)) x y d.

(** ** The squared norm: odd and even lanes squared and added as [double] *)

Section norm.
Context {D : Type} `{!Num D} (to_double : A -> D) (to_float : D -> A).

Definition vec_doubleo v : list D := [to_double (lane v 1); to_double (lane v 3)].
Definition vec_doublee v : list D := [to_double (lane v 0); to_double (lane v 2)].

Definition norm_L2sqr_ppc x (d : nat) : M A :=
  let* (vreso, vrese) := vec_loop d (fun i (st : list D * list D) =>
      let '(vreso, vrese) := st in
      let* vx := vec_xl i x in
      let vxdo := vec_doubleo vx in
      let vtmpo := vmul vxdo vxdo in
      let vreso := vadd vreso vtmpo in
      let vxde := vec_doublee vx in
      let vtmpe := vmul vxde vxde in
      let vrese := vadd vrese vtmpe in
      Ret (vreso, vrese)) (set1 2 nzero, set1 2 nzero) in
  let* res := rest_loop d (fun i res => let* xi := vget x i in Ret (nadd res (to_double (nmul xi xi)))) nzero in
  Ret (to_float (nadd (nadd (nadd (nadd res (lane vreso 0)) (lane vreso 1)) (lane vrese 0)) (lane vrese 1))).
End norm.

(** ** One vector against many *)

Definition fvec_L2sqr_ny_ppc dis x y (d ny : nat) : M (list A) :=
  foldM (fun dis i => let* r := fvec_L2sqr_ppc x (drop (i * d) y) d in vset dis i r) dis (seq 0 ny).

Definition fvec_inner_products_ny_ppc ip x y (d ny : nat) : M (list A) :=
  foldM (fun ip i => let* r := fvec_inner_product_ppc x (drop (i * d) y) d in vset ip i r) ip (seq 0 ny).

(** [dp] over the elements of column [i]: sixteen to a round, then one by one. *)
Definition column_step x y (d_offset i j : nat) (dp : A) : M A :=
  let* xj := vget x j in let* yj := vget y (i + j * d_offset) in Ret (nadd dp (nmul xj yj)).

Definition column_dp x y (d d_offset i : nat) : M A :=
  let base := d / 16 * 16 in
  let* dp := foldM (fun dp k =>
      foldM (fun dp l => column_step x y d_offset i (k * 16 + l) dp) dp (seq 0 16)) nzero (seq 0 (d / 16)) in
  foldM (fun dp j => column_step x y d_offset i j dp) dp (seq base (d - base)).

(** The remaining elements of [x] are read at [j + base]. *)
Definition x_sqlen_ppc x (d : nat) : M A :=
  let base := d / 4 * 4 in
  let* vx_sqlen := vec_loop d (fun i vx_sqlen => let* vx := vec_xl i x in Ret (fmadd vx vx vx_sqlen)) (set1 4 nzero) in
  let x_sqlen := nadd (nadd (nadd (lane vx_sqlen 0) (lane vx_sqlen 1)) (lane vx_sqlen 2)) (lane vx_sqlen 3) in
  rest_loop d (fun j x_sqlen =>
    let* xj := vget x (j + base) in let* xj' := vget x (j + base) in Ret (nadd x_sqlen (nmul xj xj'))) x_sqlen.

Definition fvec_L2sqr_ny_transposed_ppc dis x y (y_sqlen : list A) (d d_offset ny : nat) : M (list A) :=
  let* x_sqlen := x_sqlen_ppc x d in
  foldM (fun dis i =>
      let* dp := column_dp x y d d_offset i in
      let* yl := vget y_sqlen i in
      vset dis i (nsub (nadd x_sqlen yl) (nmul (nofZ 2) dp)))
    dis (seq 0 ny).

Definition fvec_L2sqr_ny_nearest_ppc (huge : A) buffer x y (d ny : nat) : M (list A * nat) :=
  let* buffer := fvec_L2sqr_ny_ppc buffer x y d ny in
  let* nearest_idx := nearest_scan huge buffer ny in
  Ret (buffer, nearest_idx).

Definition fvec_L2sqr_ny_nearest_y_transposed_ppc (huge : A) buffer x y y_sqlen (d d_offset ny : nat) : M (list A * nat) :=
  let* buffer := fvec_L2sqr_ny_transposed_ppc buffer x y y_sqlen d d_offset ny in
  let* nearest_idx := nearest_scan huge buffer ny in
  Ret (buffer, nearest_idx).

(** ** c = a + bf * b *)

Definition fvec_madd_ppc (n : nat) (a : list A) (bf : A) (b c : list A) : M (list A) :=
  let* c := vec_loop n (fun i c =>
      let* va := vec_xl i a in
      let* vb := vec_xl i b in
      storeu c i (fmadd vb (set1 4 bf) va)) c in
  rest_loop n (fun i c => let* ai := vget a i in let* bi := vget b i in vset c i (nadd ai (nmul bf bi))) c.

(** The products are compared but never stored; the least value seen is read
    from [c] as it was before the call. *)
Definition fvec_madd_and_argmin_ppc (vmin0 : A) (n : nat) (a : list A) (bf : A) (b c : list A) : M (list A * Z) :=
  let* st := vec_loop n (fun i st =>
      let* va := vec_xl i a in
      let* vb := vec_xl i b in
      let vc := fmadd (set1 4 bf) vb va in
      foldM (fun (st : A * Z) j =>
          if nltb (lane vc j) (fst st) then let* cij := vget c (i + j) in Ret (cij, Z.of_nat (i + j)) else Ret st)
        st (seq 0 4)) (vmin0, (-1)%Z) in
  let* (_, imin) := rest_loop n (fun i (st : A * Z) =>
      let* ci := vget c i in Ret (if nltb ci (fst st) then (ci, Z.of_nat i) else st)) st in
  Ret (c, imin).

(** ** Four vectors at once *)

Definition vec_part_4 (vstep : list A -> list A -> list A -> list A) x y0 y1 y2 y3 (d : nat)
    : M (list A * list A * list A * list A) :=
  let zero := set1 4 nzero in
  vec_loop d (fun i (st : list A * list A * list A * list A) =>
      let '(vd0, vd1, vd2, vd3) := st in
      let* vx := vec_xl i x in
      let* vy0 := vec_xl i y0 in
      let* vy1 := vec_xl i y1 in
      let* vy2 := vec_xl i y2 in
      let* vy3 := vec_xl i y3 in
      Ret (vstep vd0 vx vy0, vstep vd1 vx vy1, vstep vd2 vx vy2, vstep vd3 vx vy3)) (zero, zero, zero, zero).

Definition rest_part_4 (step : A -> A -> A -> A) x y0 y1 y2 y3 (d : nat) : M (A * A * A * A) :=
  rest_loop d (fun i (st : A * A * A * A) =>
      let '(d0, d1, d2, d3) := st in
      let* xi := vget x i in
      let* e0 := vget y0 i in
      let* e1 := vget y1 i in
      let* e2 := vget y2 i in
      let* e3 := vget y3 i in
      Ret (step d0 xi e0, step d1 xi e1, step d2 xi e2, step d3 xi e3)) (nzero, nzero, nzero, nzero).

Definition lane_sum v : A := nadd (nadd (nadd (lane v 0) (lane v 1)) (lane v 2)) (lane v 3).

Definition fvec_L2sqr_batch_4_ppc x y0 y1 y2 y3 (d : nat) : M (A * A * A * A) :=
  let* (vd0, vd1, vd2, vd3) := vec_part_4 (fun vd vx vy => let vq := vsub vx vy in vadd vd (vmul vq vq)) x y0 y1 y2 y3 d in
  let* (d0, d1, d2, d3) := rest_part_4 l2_step x y0 y1 y2 y3 d in
  Ret (nadd (lane_sum vd0) d0, nadd (lane_sum vd1) d1, nadd (lane_sum vd2) d2, nadd (lane_sum vd3) d3).

Definition fvec_inner_product_batch_4_ppc x y0 y1 y2 y3 (d : nat) : M (A * A * A * A) :=
  let* (vd0, vd1, vd2, vd3) := vec_part_4 (fun vd vx vy => fmadd vx vy vd) x y0 y1 y2 y3 d in
  let '(dis0, dis1, dis2, dis3) := (lane_sum vd0, lane_sum vd1, lane_sum vd2, lane_sum vd3) in
  if d mod 4 =? 0 then Ret (dis0, dis1, dis2, dis3)
  else
    let* (d0, d1, d2, d3) := rest_part_4 ip_step x y0 y1 y2 y3 d in
    Ret (nadd dis0 d0, nadd dis1 d1, nadd dis2 d2, nadd dis3 d3).

End kernels.

(** ** On binary32 numbers *)

(** [double]. *)
Definition F64_num : Num spec_float := {|
  nzero := F64.zero; nadd := F64.add; nsub := F64.sub; nmul := F64.mul; nabs := SFabs;
  nltb := SFltb; neqb := SFeqb;
  nofZ := F64.of_Z; ntrunc := SF_trunc; nnan := S754_nan
|}.

Definition fvec_norm_L2sqr_ppc : list spec_float -> nat -> M spec_float :=
  norm_L2sqr_ppc (Num1 := F64_num) F64.of_f32 F64.to_f32.

Definition fvec_Linf_ppc (x y : list spec_float) (d : nat) : M spec_float :=
  let* res := vec_loop d (fun i res =>
      let* vx := vec_xl i x in
      let* vy := vec_xl i y in
      let vtmp := vabs (vsub vx vy) in
      let res := fmax res (lane vtmp 0) in
      let res := fmax res (lane vtmp 1) in
      let res := fmax res (lane vtmp 2) in
      Ret (fmax res (lane vtmp 3))) F32.zero in
  rest_loop d (fun i res => let* xi := vget x i in let* yi := vget y i in Ret (fmax res (SFabs (F32.sub xi yi)))) res.

(** ** int8 *)

Definition ivec_inner_product_ppc (x y : list Z) (d : nat) : M Z := int8_loop int8_ip x y d.
Definition ivec_L2sqr_ppc (x y : list Z) (d : nat) : M Z := int8_loop int8_l2 x y d.

(** ** The two loops *)

Section loops.
Context {S : Type} (Inv : nat -> S -> Prop) (d : nat) (body : nat -> S -> M S) (s : S).

Lemma vec_loop_spec : Inv 0 s -> (forall i t, i + 4 <= d -> Inv i t -> wp (body i t) (Inv (i + 4))) ->
  wp (vec_loop d body s) (Inv (d / 4 * 4)).
Proof.
  intros H0 Hb. apply (wp_for _ (fun k t => Inv (k * 4) t)); [done| |done].
  intros k t Hk Ht. replace ((k + 1) * 4) with (k * 4 + 4) by lia. apply Hb; [|done].
  pose proof (Nat.div_mod_eq d 4). lia.
Qed.

Lemma rest_loop_spec : Inv (d / 4 * 4) s -> (forall i t, d / 4 * 4 <= i < d -> Inv i t -> wp (body i t) (Inv (i + 1))) ->
  wp (rest_loop d body s) (Inv d).
Proof.
  intros H0 Hb. pose proof (Nat.div_mod_eq d 4). unfold rest_loop. apply (wp_for _ Inv); [done| |].
  - intros i t Hi Ht. apply Hb; [lia|done].
  - intros t. by replace (d / 4 * 4 + (d - d / 4 * 4)) with d by lia.
Qed.
End loops.

#[local] Open Scope Z_scope.

(** ** Sums *)

(** A register step that adds [f] lane by lane. *)
Definition ppc_adds (step : list Z -> list Z -> list Z -> list Z) (f : Z -> Z -> Z) : Prop :=
  forall acc a b, length acc = 4%nat -> length a = 4%nat -> length b = 4%nat ->
    length (step acc a b) = 4%nat /\ lanesum (step acc a b) = lanesum acc + lanesum (zip_with f a b).

Lemma vadd_adds (acc t : list Z) : length acc = 4%nat -> length t = 4%nat ->
  length (vadd acc t) = 4%nat /\ lanesum (vadd acc t) = lanesum acc + lanesum t.
Proof.
  intros Ha Ht. split; [unfold vadd; rewrite length_zip_with; lia|].
  change (vadd acc t) with (zip_with Z.add acc t). apply lanesum_add. lia.
Qed.

Lemma l2_ppc_adds : ppc_adds (fun vres vx vy => let vtmp := vsub vx vy in vadd vres (vmul vtmp vtmp)) sq.
Proof. intros acc a b Ha Hl Hl'. cbv zeta. rewrite <- vsub_sq. apply vadd_adds; [done|]. unfold vmul, vsub. rewrite !length_zip_with. lia. Qed.

Lemma ip_ppc_adds : ppc_adds (fun vres vx vy => fmadd vx vy vres) Z.mul.
Proof. intros acc a b Ha Hl Hl'. rewrite fmadd_vadd. apply vadd_adds; [done|]. rewrite length_zip_with. lia. Qed.

Lemma l1_ppc_adds : ppc_adds (fun vres vx vy => let vtmp := vsub vx vy in let vtmp := vabs vtmp in vadd vtmp vres) dist1.
Proof.
  intros acc a b Ha Hl Hl'. cbv zeta. rewrite vsub_dist1.
  destruct (vadd_adds (zip_with dist1 a b) acc) as [E1 E2]; [rewrite length_zip_with; lia|done|]. split; [done|lia].
Qed.

Lemma vec_xl_ok (p : list Z) i : (i + 4 <= length p)%nat -> vec_xl i p = Ret (slice i (i + 4) p).
Proof. apply loadu_ok. Qed.

Lemma holds_step step f (x y : list Z) i acc : ppc_adds step f -> (i + 4 <= length x)%nat -> (i + 4 <= length y)%nat ->
  holds 4 (zip_with f x y) i acc ->
  holds 4 (zip_with f x y) (i + 4) (step acc (slice i (i + 4) x) (slice i (i + 4) y)).
Proof.
  intros Hs Hx Hy [Hl Ha]. destruct (Hs acc (slice i (i + 4) x) (slice i (i + 4) y)) as [E1 E2];
    [done|rewrite length_slice; lia|rewrite length_slice; lia|]. split; [done|].
  rewrite E2, Ha, (lanesum_slice _ i (i + 4)), slice_zip_with by lia. done.
Qed.

Lemma next_term (f : Z -> Z -> Z) (x y : list Z) i : (i < length x)%nat -> (i < length y)%nat ->
  lanesum (take (i + 1) (zip_with f x y)) = lanesum (take i (zip_with f x y)) + f (x !!! i) (y !!! i).
Proof.
  intros Hx Hy. rewrite Nat.add_1_r, (take_S_r _ _ (f (x !!! i) (y !!! i))).
  - rewrite lanesum_app. simpl. lia.
  - rewrite lookup_zip_with, !list_lookup_lookup_total_lt by lia. done.
Qed.

(** What the scalar loop has added by index [i]. *)
Definition added (f : Z -> Z -> Z) (x y : list Z) (d i : nat) (res : Z) : Prop :=
  lanesum (take (d / 4 * 4) (zip_with f x y)) + res = lanesum (take i (zip_with f x y)).

Lemma lanesum4 (v : list Z) : length v = 4%nat -> lanesum v = lane v 0 + lane v 1 + lane v 2 + lane v 3.
Proof. destruct v as [|a [|b [|c [|e [|? ?]]]]]; intros H; simpl in H; try lia. cbn. lia. Qed.

Section sums.
Context (x y : list Z) (d : nat).
Hypothesis Hx : (d <= length x)%nat.
Hypothesis Hy : (d <= length y)%nat.

Lemma vec_part_holds vstep f : ppc_adds vstep f -> wp (vec_part vstep x y d) (holds 4 (zip_with f x y) (d / 4 * 4)).
Proof.
  intros Hs. apply vec_loop_spec; [apply holds_zero|]. intros i acc Hi Ha.
  rewrite !vec_xl_ok by lia. by apply holds_step; [|lia|lia|].
Qed.

Lemma rest_part_added step f : (forall r u w, step r u w = r + f u w) -> wp (rest_part step x y d) (added f x y d d).
Proof.
  intros Hs. apply rest_loop_spec; [unfold added; cbn; lia|]. intros i r Hi Hr.
  rewrite !vget_total by lia. cbn [bind wp]. unfold added in *. rewrite Hs, next_term by lia. lia.
Qed.

Lemma ppc_sum_value vstep step f : ppc_adds vstep f -> (forall r u w, step r u w = r + f u w) ->
  ppc_sum vstep step x y d = Ret (lanesum (take d (zip_with f x y))).
Proof.
  intros Hv Hs. unfold ppc_sum. destruct (wp_elim _ _ (vec_part_holds vstep f Hv)) as (v & -> & Hl & Ha).
  destruct (wp_elim _ _ (rest_part_added step f Hs)) as (r & -> & Hr). cbn [bind]. f_equal.
  unfold added in Hr. rewrite <- Ha, lanesum4 in Hr by done. unfold add_lanes. cbn. rewrite <- Hr. lia.
Qed.

Lemma l2_ppc_value : fvec_L2sqr_ppc x y d = Ret (lanesum (take d (zip_with sq x y))).
Proof. by apply ppc_sum_value; [apply l2_ppc_adds|]. Qed.
Lemma ip_ppc_value : fvec_inner_product_ppc x y d = Ret (lanesum (take d (zip_with Z.mul x y))).
Proof. by apply ppc_sum_value; [apply ip_ppc_adds|]. Qed.
Lemma l1_ppc_value : fvec_L1_ppc x y d = Ret (lanesum (take d (zip_with dist1 x y))).
Proof. by apply ppc_sum_value; [apply l1_ppc_adds|]. Qed.

Lemma norm_ppc_value : norm_L2sqr_ppc (fun r => r) (fun r => r) x d = Ret (lanesum (take d (zip_with Z.mul x x))).
Proof.
  clear Hy y. unfold norm_L2sqr_ppc. set (T := zip_with Z.mul x x).
  match goal with |- bind ?m _ = _ => assert (wp m (fun '(o, e) => length o = 2%nat /\ length e = 2%nat /\
    lanesum o + lanesum e = lanesum (take (d / 4 * 4) T))) as H end.
  { apply (vec_loop_spec (fun i '(o, e) => length o = 2%nat /\ length e = 2%nat /\ lanesum o + lanesum e = lanesum (take i T))); [done|].
    intros i [o e] Hi (Ho & He & Hs). unfold vec_xl. rewrite load4_at by lia. cbn [bind wp].
    replace (i + 4)%nat with (i + 1 + 1 + 1 + 1)%nat by lia. unfold T. rewrite !next_term by lia. fold T.
    destruct o as [|o1 [|o2 [|]]]; [simpl in Ho; lia|simpl in Ho; lia| |simpl in Ho; lia].
    destruct e as [|e1 [|e2 [|]]]; [simpl in He; lia|simpl in He; lia| |simpl in He; lia].
    split; [done|]. split; [done|]. replace (i + 1 + 1)%nat with (i + 2)%nat by lia. replace (i + 2 + 1)%nat with (i + 3)%nat by lia.
    rewrite <- Hs. cbn. lia. }
  apply wp_elim in H as ([o e] & -> & Ho & He & Hs). cbn [bind].
  match goal with |- bind ?m _ = _ => assert (wp m (added Z.mul x x d d)) as H end.
  { apply rest_loop_spec; [unfold added; cbn; lia|]. intros i r Hi Hr.
    rewrite !vget_total by lia. cbn [bind wp]. unfold added in *. rewrite next_term by lia. cbn [nadd nmul Z_num]. lia. }
  apply wp_elim in H as (r & -> & Hr). unfold added in Hr. fold T in Hr. cbn [bind]. f_equal. rewrite <- Hr, <- Hs.
  destruct o as [|o1 [|o2 [|]]]; [simpl in Ho; lia|simpl in Ho; lia| |simpl in Ho; lia].
  destruct e as [|e1 [|e2 [|]]]; [simpl in He; lia|simpl in He; lia| |simpl in He; lia]. cbn. lia.
Qed.
End sums.

(** ** Batches of four *)

Section batch.
Context (x y0 y1 y2 y3 : list Z) (d : nat).
Hypothesis Hx : (d <= length x)%nat.
Hypothesis Hy : Forall (fun p => (d <= length p)%nat) [y0; y1; y2; y3].
Context (vstep : list Z -> list Z -> list Z -> list Z) (step : Z -> Z -> Z -> Z) (f : Z -> Z -> Z).
Hypothesis Hv : ppc_adds vstep f.
Hypothesis Hs : forall r u w, step r u w = r + f u w.

Lemma vec_part_4_holds : wp (vec_part_4 vstep x y0 y1 y2 y3 d) (fun '(v0, v1, v2, v3) =>
  let h y v := holds 4 (zip_with f x y) (d / 4 * 4) v in h y0 v0 /\ h y1 v1 /\ h y2 v2 /\ h y3 v3).
Proof.
  apply Forall4 in Hy as (H0 & H1 & H2 & H3 & _).
  apply (vec_loop_spec (fun i '(v0, v1, v2, v3) => holds 4 (zip_with f x y0) i v0 /\ holds 4 (zip_with f x y1) i v1 /\
    holds 4 (zip_with f x y2) i v2 /\ holds 4 (zip_with f x y3) i v3)).
  - split_and!; apply holds_zero.
  - intros i [[[v0 v1] v2] v3] Hi (E0 & E1 & E2 & E3). rewrite !vec_xl_ok by lia. cbn [bind wp].
    refine (conj _ (conj _ (conj _ _))); (apply holds_step; [done|lia|lia|done]).
Qed.

Lemma rest_part_4_added : wp (rest_part_4 step x y0 y1 y2 y3 d) (fun '(d0, d1, d2, d3) =>
  added f x y0 d d d0 /\ added f x y1 d d d1 /\ added f x y2 d d d2 /\ added f x y3 d d d3).
Proof.
  apply Forall4 in Hy as (H0 & H1 & H2 & H3 & _).
  apply (rest_loop_spec (fun i '(d0, d1, d2, d3) =>
    added f x y0 d i d0 /\ added f x y1 d i d1 /\ added f x y2 d i d2 /\ added f x y3 d i d3)).
  - unfold added. cbn. lia.
  - intros i [[[d0 d1] d2] d3] Hi (E0 & E1 & E2 & E3). rewrite !vget_total by lia. cbn [bind wp].
    unfold added in *. rewrite !Hs, !next_term by lia. lia.
Qed.

Lemma lane_sum_added y v r : holds 4 (zip_with f x y) (d / 4 * 4) v -> added f x y d d r ->
  lane_sum v + r = lanesum (take d (zip_with f x y)).
Proof. intros [Hl Ha] Hr. unfold added in Hr. rewrite <- Hr, <- Ha, lanesum4 by done. done. Qed.
End batch.

Section batches.
Context (x y0 y1 y2 y3 : list Z) (d : nat).
Hypothesis Hx : (d <= length x)%nat.
Hypothesis Hy : Forall (fun p => (d <= length p)%nat) [y0; y1; y2; y3].

Lemma l2_batch_ppc : fvec_L2sqr_batch_4_ppc x y0 y1 y2 y3 d = fvec_L2sqr_batch_4_ref x y0 y1 y2 y3 d.
Proof.
  pose proof Hy as (H0 & H1 & H2 & H3 & _)%Forall4.
  unfold fvec_L2sqr_batch_4_ref. rewrite (batch_ref_value _ sq) by done. unfold fvec_L2sqr_batch_4_ppc.
  destruct (wp_elim _ _ (vec_part_4_holds x y0 y1 y2 y3 d Hx Hy _ _ l2_ppc_adds)) as ([[[v0 v1] v2] v3] & E & E0 & E1 & E2 & E3).
  cbv zeta in E. rewrite E. clear E.
  destruct (wp_elim _ _ (rest_part_4_added x y0 y1 y2 y3 d Hx Hy l2_step sq ltac:(done))) as ([[[d0 d1] d2] d3] & -> & R0 & R1 & R2 & R3).
  cbn [bind]. do 4 f_equal; [..|]; by apply (lane_sum_added x d).
Qed.

Lemma ip_batch_ppc : fvec_inner_product_batch_4_ppc x y0 y1 y2 y3 d = fvec_inner_product_batch_4_ref x y0 y1 y2 y3 d.
Proof.
  pose proof Hy as (H0 & H1 & H2 & H3 & _)%Forall4.
  unfold fvec_inner_product_batch_4_ref. rewrite (batch_ref_value _ Z.mul) by done. unfold fvec_inner_product_batch_4_ppc.
  destruct (wp_elim _ _ (vec_part_4_holds x y0 y1 y2 y3 d Hx Hy _ _ ip_ppc_adds)) as ([[[v0 v1] v2] v3] & -> & E0 & E1 & E2 & E3).
  cbn [bind]. destruct (Nat.eqb_spec (d mod 4) 0) as [Hm|Hm].
  - assert (d / 4 * 4 = d)%nat as Hd by (pose proof (Nat.div_mod_eq d 4); lia). rewrite Hd in *.
    assert (forall y v, holds 4 (zip_with Z.mul x y) d v -> lane_sum v = lanesum (take d (zip_with Z.mul x y))) as Hh.
    { intros y v [Hl Ha]. by rewrite <- Ha, lanesum4. }
    by rewrite (Hh y0 v0), (Hh y1 v1), (Hh y2 v2), (Hh y3 v3) by done.
  - destruct (wp_elim _ _ (rest_part_4_added x y0 y1 y2 y3 d Hx Hy ip_step Z.mul ltac:(done))) as ([[[d0 d1] d2] d3] & -> & R0 & R1 & R2 & R3).
    cbn [bind]. do 4 f_equal; [..|]; by apply (lane_sum_added x d).
Qed.
End batches.

(** * What the PowerPC kernels promise *)

#[local] Close Scope Z_scope.

#[local] Instance sf_inhabited : Inhabited spec_float := populate F32.zero.

(** ** Linf, on every binary32 number *)

Section linf.
Context (x y : list spec_float).

Lemma linf_ref_next i r : i < length x -> i < length y -> fvec_Linf_ref x y i = Ret r ->
  fvec_Linf_ref x y (i + 1) = Ret (fmax r (SFabs (F32.sub (x !!! i) (y !!! i)))).
Proof.
  intros Hx Hy Hr. unfold fvec_Linf_ref, for2 in *. rewrite seq_app, foldM_app, Hr. cbn [bind seq foldM].
  by rewrite !vget_total by done.
Qed.

Lemma linf_ppc_ref d : d <= length x -> d <= length y -> fvec_Linf_ppc x y d = fvec_Linf_ref x y d.
Proof.
  intros Hx Hy. assert (wp (fvec_Linf_ppc x y d) (fun r => fvec_Linf_ref x y d = Ret r)) as (r & -> & ->)%wp_elim; [|done].
  unfold fvec_Linf_ppc. apply wp_bind. set (Inv := fun i r => fvec_Linf_ref x y i = Ret r).
  eapply wp_mono; [apply (vec_loop_spec Inv); [done|]|].
  - intros i r Hi Hr. unfold vec_xl. rewrite !load4_at by lia. cbn [bind wp]. unfold Inv in *.
    replace (i + 4) with (i + 1 + 1 + 1 + 1) by lia. replace (i + 2) with (i + 1 + 1) by lia. replace (i + 3) with (i + 1 + 1 + 1) by lia.
    apply linf_ref_next; [lia|lia|]. apply linf_ref_next; [lia|lia|]. apply linf_ref_next; [lia|lia|]. by apply linf_ref_next; [lia|lia|].
  - intros r Hr. apply (rest_loop_spec Inv); [done|]. intros i t Hi Ht. rewrite !vget_total by lia. by apply linf_ref_next; [lia|lia|].
Qed.
End linf.

(** ** Columns, in any arithmetic *)

Lemma foldM_shift {T} (g : nat -> T -> M T) o b m s :
  foldM (fun s l => g (o + l) s) s (seq b m) = foldM (fun s j => g j s) s (seq (o + b) m).
Proof.
  revert b s. induction m as [|m IH]; intros b s; [done|]. cbn [seq foldM]. destruct (g (o + b) s); cbn [bind]; [|done..].
  rewrite IH. by replace (o + S b) with (S (o + b)) by lia.
Qed.

Lemma foldM_rounds {T} (g : nat -> T -> M T) w n s :
  foldM (fun s k => foldM (fun s l => g (k * w + l) s) s (seq 0 w)) s (seq 0 n) = foldM (fun s j => g j s) s (seq 0 (n * w)).
Proof.
  revert s. induction n as [|n IH]; intros s; [done|].
  rewrite seq_S, foldM_app, IH, Nat.mul_succ_l, seq_app, foldM_app.
  destruct (foldM _ s _) as [t| |]; cbn [bind foldM]; [|done..].
  rewrite foldM_shift, Nat.add_0_r. by destruct (foldM _ t _).
Qed.

Lemma column_dp_ref {A} `{!Num A} (x y : list A) d d_offset i :
  column_dp x y d d_offset i = foldM (fun dp j => column_step x y d_offset i j dp) nzero (seq 0 d).
Proof.
  unfold column_dp. rewrite (foldM_rounds (fun j dp => column_step x y d_offset i j dp)). pose proof (Nat.div_mod_eq d 16) as Hd.
  replace (seq 0 d) with (seq 0 (d / 16 * 16 + (d - d / 16 * 16))) by (f_equal; lia). by rewrite seq_app, foldM_app.
Qed.

Lemma transposed_ppc_ref {A} `{!Num A, !Fma A} (dis x y y_sqlen : list A) d d_offset ny :
  x_sqlen_ppc x d = for2 (fun res xj xj' => nadd res (nmul xj xj')) x x d nzero ->
  fvec_L2sqr_ny_transposed_ppc dis x y y_sqlen d d_offset ny = fvec_L2sqr_ny_transposed_ref dis x y y_sqlen d d_offset ny.
Proof.
  intros E. unfold fvec_L2sqr_ny_transposed_ppc, fvec_L2sqr_ny_transposed_ref. rewrite E.
  destruct (for2 _ _ _ _ _) as [v| |]; cbn [bind]; [|done..]. apply foldM_ext. intros t i _. by rewrite column_dp_ref.
Qed.

#[local] Open Scope Z_scope.

(** ** The squared length of x *)

Section x_sqlen.
Context (x : list Z) (d : nat).
Hypothesis Hx : (d <= length x)%nat.

Lemma x_sqlen_vec : wp (vec_loop d (fun i vx_sqlen => let* vx := vec_xl i x in Ret (fmadd vx vx vx_sqlen)) (set1 4 0))
  (holds 4 (zip_with Z.mul x x) (d / 4 * 4)).
Proof.
  apply vec_loop_spec; [apply holds_zero|]. intros i acc Hi Ha. rewrite vec_xl_ok by lia.
  by apply (holds_step (fun vres vx vy => fmadd vx vy vres)); [apply ip_ppc_adds|lia|lia|].
Qed.

Lemma x_sqlen_ok : (d < 4 \/ d mod 4 = 0)%nat ->
  x_sqlen_ppc x d = for2 (fun res xj xj' => res + xj * xj') x x d 0.
Proof.
  intros Hd. rewrite (for2_lanesum Z.mul) by done. unfold x_sqlen_ppc.
  destruct (wp_elim _ _ x_sqlen_vec) as (v & E & Hl & Hv). change (@nzero Z Z_num) with 0. rewrite E. cbn [bind]. clear E.
  match goal with |- ?m = Ret ?r => assert (wp m (fun q => q = r)) as E; [|by apply wp_elim in E as (? & -> & ->)] end.
  apply (rest_loop_spec (fun i r => r = lanesum (take i (zip_with Z.mul x x)))).
  - rewrite <- Hv, lanesum4 by done. done.
  - intros i r Hi ->. pose proof (Nat.div_mod_eq d 4) as Hm. destruct Hd as [Hd|Hd]; [|lia].
    replace (d / 4)%nat with 0%nat by (symmetry; apply Nat.div_small; lia). rewrite Nat.add_0_r, !vget_total by lia.
    cbn [bind wp]. rewrite next_term by lia. done.
Qed.

Lemma x_sqlen_overread : (4 <= d)%nat -> (d mod 4 <> 0)%nat -> length x = d -> x_sqlen_ppc x d = Undef.
Proof.
  intros H4 Hm Hl. unfold x_sqlen_ppc. destruct (wp_elim _ _ x_sqlen_vec) as (v & E & _).
  change (@nzero Z Z_num) with 0. rewrite E. cbn [bind]. clear E. unfold rest_loop. pose proof (Nat.div_mod_eq d 4) as Hd.
  pose proof (Nat.mod_upper_bound d 4 ltac:(lia)) as Hu.
  destruct (d - d / 4 * 4)%nat as [|n] eqn:En; [lia|]. cbn [seq foldM].
  assert (vget x (d / 4 * 4 + d / 4 * 4) = Undef) as ->; [|done].
  unfold vget. rewrite lookup_ge_None_2 by lia. done.
Qed.
End x_sqlen.

(** ** Multiply-add *)

Section madd.
Context (a b c : list Z) (bf : Z) (n : nat).
Hypothesis Ha : (n <= length a)%nat.
Hypothesis Hb : (n <= length b)%nat.
Hypothesis Hc : (n <= length c)%nat.

Lemma madd_ppc_value : fvec_madd_ppc n a bf b c = fvec_madd_ref n a bf b c.
Proof.
  destruct (wp_elim _ _ (madd_ref_filled a b c bf n Ha Hb Hc)) as (r & -> & ->). set (v := madd_at a b bf).
  match goal with |- ?m = Ret ?r => assert (wp m (filled v c n)) as E; [|by apply wp_elim in E as (? & -> & ->)] end.
  unfold fvec_madd_ppc. apply wp_bind. eapply wp_mono; [apply (vec_loop_spec (filled v c)); [done|]|].
  - intros i r Hi Hr. unfold vec_xl. rewrite !load4_at by lia. cbn [bind]. apply storeu_filled; [lia|done|].
    unfold v, madd_at. cbn -[Nat.add Z.add Z.mul]. rewrite !(Z.mul_comm bf).
    by replace (S i) with (i + 1)%nat by lia; replace (S (i + 1)) with (i + 2)%nat by lia; replace (S (i + 2)) with (i + 3)%nat by lia.
  - intros r Hr. apply (rest_loop_spec (filled v c)); [done|]. intros i t Hi Ht. rewrite !vget_total by lia. cbn [bind].
    apply vset_next_row; [lia|done|done].
Qed.

(** The array is handed back as it came. *)
Lemma argmin_ppc_keeps vmin0 : wp (fvec_madd_and_argmin_ppc vmin0 n a bf b c) (fun r => fst r = c).
Proof.
  unfold fvec_madd_and_argmin_ppc. apply wp_bind. eapply wp_mono; [apply (vec_loop_spec (fun _ _ => True)); [done|]|].
  - intros i st Hi _. unfold vec_xl. rewrite !load4_at by lia. cbn [bind].
    apply (wp_for _ (fun _ _ => True)); [done| |done]. intros j [vm im] Hj _.
    case_match; [|done]. apply wp_bind, wp_vget; [lia|]. done.
  - intros st _. apply wp_bind. eapply wp_mono; [apply (rest_loop_spec (fun _ _ => True)); [done|]|].
    + intros i t Hi _. by rewrite vget_total by lia.
    + intros [vm im] _. done.
Qed.

(** With fewer than four elements the products are not even computed. *)
Lemma argmin_ppc_short vmin0 : (n < 4)%nat -> fvec_madd_and_argmin_ppc vmin0 n a bf b c = fvec_madd_and_argmin_ppc vmin0 n [] 0 [] c.
Proof. intros Hn. unfold fvec_madd_and_argmin_ppc, vec_loop. by rewrite Nat.div_small. Qed.
End madd.

(** on every dimension the PowerPC kernels terminate and return what the
    scalar kernels return: in exact arithmetic the inner product, the squared L2
    and the L1 distance, the squared norm (accumulated in two registers of
    doubles), batches of four, the kernels over many rows, the nearest row and the
    multiply-add; on all binary32 numbers, NaN included, the Linf distance. *)
Theorem ppc_kernels_match_reference (x y y0 y1 y2 y3 dis a b c : list Z) (bf huge : Z) (d ny n : nat) (u v : list spec_float) :
  (d <= length x)%nat ->
  ((d <= length y)%nat ->
   fvec_inner_product_ppc x y d = fvec_inner_product_ref x y d /\ fvec_L2sqr_ppc x y d = fvec_L2sqr_ref x y d /\
   fvec_L1_ppc x y d = fvec_L1_ref x y d /\
   norm_L2sqr_ppc (fun r => r) (fun r => r) x d = fvec_norm_L2sqr_ref x d) /\
  ((ny * d <= length y)%nat -> (ny <= length dis)%nat ->
   fvec_inner_products_ny_ppc dis x y d ny = fvec_inner_products_ny_ref dis x y d ny /\
   fvec_L2sqr_ny_ppc dis x y d ny = fvec_L2sqr_ny_ref dis x y d ny /\
   fvec_L2sqr_ny_nearest_ppc huge dis x y d ny = fvec_L2sqr_ny_nearest_ref huge dis x y d ny) /\
  (Forall (fun p => (d <= length p)%nat) [y0; y1; y2; y3] ->
   fvec_inner_product_batch_4_ppc x y0 y1 y2 y3 d = fvec_inner_product_batch_4_ref x y0 y1 y2 y3 d /\
   fvec_L2sqr_batch_4_ppc x y0 y1 y2 y3 d = fvec_L2sqr_batch_4_ref x y0 y1 y2 y3 d) /\
  ((n <= length a)%nat -> (n <= length b)%nat -> (n <= length c)%nat -> fvec_madd_ppc n a bf b c = fvec_madd_ref n a bf b c) /\
  ((d <= length u)%nat -> (d <= length v)%nat -> fvec_Linf_ppc u v d = fvec_Linf_ref u v d).
Proof.
  intros Hx. refine (conj _ (conj _ (conj _ (conj _ _)))).
  - intros Hy. rewrite ip_ppc_value, l2_ppc_value, l1_ppc_value, (norm_ppc_value x d) by done.
    by rewrite fvec_norm_ref_ip, !ip_ref_value, l2_ref_value, l1_ref_value by done.
  - intros Hy Hd. assert (forall i, (i < ny)%nat -> (d <= length (drop (i * d) y))%nat) as Hrow by (intros; by apply (row_length y d ny)).
    assert (fvec_L2sqr_ny_ppc dis x y d ny = fvec_L2sqr_ny_ref dis x y d ny) as E.
    { apply foldM_ext. intros t i [_ Hi]%elem_of_seq. by rewrite l2_ppc_value, l2_ref_value by (done || (apply Hrow; lia)). }
    split; [|split; [done|]].
    + apply foldM_ext. intros t i [_ Hi]%elem_of_seq. by rewrite ip_ppc_value, ip_ref_value by (done || (apply Hrow; lia)).
    + unfold fvec_L2sqr_ny_nearest_ppc, fvec_L2sqr_ny_nearest_ref. by rewrite E.
  - intros Hy. split; [by apply ip_batch_ppc|by apply l2_batch_ppc].
  - intros Ha Hb Hc. by apply madd_ppc_value.
  - intros Hu Hv. by apply linf_ppc_ref.
Qed.

Lemma ppc_kernels_match_reference_witness :
  fvec_L2sqr_ppc [1; 2; 3; 4; 5] [4; 0; 6; 4; 7] 5 = Ret 26 /\ fvec_madd_ppc 5 [1; 2; 3; 4; 5] 2 [1; 1; 1; 1; 1] [0; 0; 0; 0; 0] = Ret [3; 4; 5; 6; 7].
Proof.
  destruct (ppc_kernels_match_reference [1; 2; 3; 4; 5] [4; 0; 6; 4; 7] [] [] [] [] [] [1; 2; 3; 4; 5] [1; 1; 1; 1; 1] [0; 0; 0; 0; 0]
    2 0 5 0 5 [] [] ltac:(simpl; lia)) as (H & _ & _ & H' & _).
  split; [rewrite (proj1 (proj2 (H ltac:(simpl; lia))))|rewrite H' by (simpl; lia)]; reflexivity.
Defined.

(** two PowerPC kernels are wrong.  Distances to the columns of a matrix are
    the reference's for dimensions below four or divisible by four; in every
    other dimension the kernel reads behind a vector of exactly [d] elements.
    The multiply-add with argmin leaves [c] as it was, so it disagrees with the
    reference whenever the products differ from the old contents; with fewer than
    four elements its index does not depend on the operands at all. *)
Theorem ppc_transposed_and_argmin (x y y_sqlen dis a b c : list Z) (bf huge vmin0 : Z) (d d_offset ny n : nat) :
  (d <= length x)%nat -> (n <= length a)%nat -> (n <= length b)%nat -> (n <= length c)%nat ->
  ((d < 4 \/ d mod 4 = 0)%nat ->
   fvec_L2sqr_ny_transposed_ppc dis x y y_sqlen d d_offset ny = fvec_L2sqr_ny_transposed_ref dis x y y_sqlen d d_offset ny /\
   fvec_L2sqr_ny_nearest_y_transposed_ppc huge dis x y y_sqlen d d_offset ny =
   fvec_L2sqr_ny_nearest_y_transposed_ref huge dis x y y_sqlen d d_offset ny) /\
  ((4 <= d)%nat -> (d mod 4 <> 0)%nat -> length x = d ->
   fvec_L2sqr_ny_transposed_ppc dis x y y_sqlen d d_offset ny = Undef /\
   fvec_L2sqr_ny_nearest_y_transposed_ppc huge dis x y y_sqlen d d_offset ny = Undef) /\
  (exists i, fvec_madd_and_argmin_ppc vmin0 n a bf b c = Ret (c, i)) /\
  ((n < 4)%nat -> fvec_madd_and_argmin_ppc vmin0 n a bf b c = fvec_madd_and_argmin_ppc vmin0 n [] 0 [] c) /\
  (fvec_madd_ref n a bf b c <> Ret c -> forall r i, fvec_madd_ref n a bf b c = Ret r ->
   fvec_madd_and_argmin_ppc vmin0 n a bf b c <> Ret (r, i)).
Proof.
  intros Hx Ha Hb Hc. destruct (wp_elim _ _ (argmin_ppc_keeps a b c bf n Ha Hb Hc vmin0)) as ([c' i] & E & Hc'). simpl in Hc'. subst c'.
  refine (conj _ (conj _ (conj _ (conj _ _)))).
  - intros Hd. unfold fvec_L2sqr_ny_nearest_y_transposed_ppc. rewrite transposed_ppc_ref; [done|]. by apply x_sqlen_ok.
  - intros H4 Hm Hl. unfold fvec_L2sqr_ny_nearest_y_transposed_ppc, fvec_L2sqr_ny_transposed_ppc. by rewrite x_sqlen_overread.
  - by exists i.
  - by apply argmin_ppc_short.
  - intros Hne r j Er Hr. rewrite E in Hr. injection Hr as <- _. by apply Hne.
Qed.

Lemma ppc_transposed_and_argmin_witness :
  fvec_L2sqr_ny_transposed_ppc [0] [1; 2; 3; 4; 5] [1; 1; 1; 1; 1] [5] 5 1 1 = Undef /\
  fvec_L2sqr_ny_transposed_ppc [0] [1; 2; 3; 4] [1; 1; 1; 1] [4] 4 1 1 = Ret [14] /\
  exists i, fvec_madd_and_argmin_ppc 100 4 [1; 2; 3; 4] 1 [0; 0; 0; 0] [9; 9; 9; 9] = Ret ([9; 9; 9; 9], i) /\ i = 3.
Proof.
  refine (conj _ (conj _ _)).
  - destruct (ppc_transposed_and_argmin [1; 2; 3; 4; 5] [1; 1; 1; 1; 1] [5] [0] [] [] [] 0 0 0 5 1 1 0) as (_ & H & _); [simpl; lia..|].
    apply H; [lia|done|done].
  - destruct (ppc_transposed_and_argmin [1; 2; 3; 4] [1; 1; 1; 1] [4] [0] [] [] [] 0 0 0 4 1 1 0) as (H & _); [simpl; lia..|].
    rewrite (proj1 (H ltac:(by right))). reflexivity.
  - destruct (ppc_transposed_and_argmin [] [] [] [] [1; 2; 3; 4] [0; 0; 0; 0] [9; 9; 9; 9] 1 0 100 0 0 0 4) as (_ & _ & (i & E) & _); [simpl; lia..|].
    exists i. split; [exact E|]. vm_compute in E. by injection E.
Defined.
