(* ===== verification/Hook.v ===== *)
(** * Kernel dispatch (src/simd/hook.cc, src/simd/instruction_set.h,
      src/common/comp/knowhere_config.cc)

    Every distance computation goes through a table of function pointers.  The
    static initialiser fills it for the processor it runs on, [SetSimdType]
    refills it for a weaker instruction set, and the fp32-as-bf16 patch swaps
    four of its entries.  A pointer to [<slot>_<isa>] is [Plain isa] in the
    entry of the slot and a pointer to [<slot>_bf16_patch_<isa>] is
    [Bf16Patch isa].  What the preprocessor decides is the record [build], what
    the processor reports ([cpuid], the auxiliary vector) is the record
    [machine]. *)

From S2P Require Import Prelude.

#[local] Open Scope Z_scope.

(** ** The table *)

(** The function pointers, in the order of their definitions. *)
Inductive slot :=
  | fvec_inner_product | fvec_L2sqr | fvec_L1 | fvec_Linf | fvec_norm_L2sqr | fvec_L2sqr_ny
  | fvec_inner_products_ny | fvec_madd | fvec_madd_and_argmin | fvec_L2sqr_ny_nearest
  | fvec_L2sqr_ny_nearest_y_transposed | fvec_L2sqr_ny_transposed | fvec_inner_product_batch_4
  | fvec_L2sqr_batch_4 | ivec_inner_product | ivec_L2sqr | fp16_vec_L2sqr | fp16_vec_inner_product
  | fp16_vec_norm_L2sqr | fp16_vec_inner_product_batch_4 | fp16_vec_L2sqr_batch_4 | bf16_vec_L2sqr
  | bf16_vec_inner_product | bf16_vec_norm_L2sqr | bf16_vec_inner_product_batch_4 | bf16_vec_L2sqr_batch_4
  | int8_vec_L2sqr | int8_vec_inner_product | int8_vec_norm_L2sqr | int8_vec_inner_product_batch_4
  | int8_vec_L2sqr_batch_4 | fvec_masked_sum | rabitq_dp_popcnt | u64_binary_search_eq | u64_binary_search_ge
  | calculate_hash | u32_jaccard_distance | u32_jaccard_distance_batch_4 | u64_jaccard_distance
  | minhash_lsh_hit | u64_jaccard_distance_batch_4.

Definition all_slots : list slot :=
  [fvec_inner_product; fvec_L2sqr; fvec_L1; fvec_Linf; fvec_norm_L2sqr; fvec_L2sqr_ny; fvec_inner_products_ny;
   fvec_madd; fvec_madd_and_argmin; fvec_L2sqr_ny_nearest; fvec_L2sqr_ny_nearest_y_transposed;
   fvec_L2sqr_ny_transposed; fvec_inner_product_batch_4; fvec_L2sqr_batch_4; ivec_inner_product; ivec_L2sqr;
   fp16_vec_L2sqr; fp16_vec_inner_product; fp16_vec_norm_L2sqr; fp16_vec_inner_product_batch_4;
   fp16_vec_L2sqr_batch_4; bf16_vec_L2sqr; bf16_vec_inner_product; bf16_vec_norm_L2sqr;
   bf16_vec_inner_product_batch_4; bf16_vec_L2sqr_batch_4; int8_vec_L2sqr; int8_vec_inner_product;
   int8_vec_norm_L2sqr; int8_vec_inner_product_batch_4; int8_vec_L2sqr_batch_4; fvec_masked_sum;
   rabitq_dp_popcnt; u64_binary_search_eq; u64_binary_search_ge; calculate_hash; u32_jaccard_distance;
   u32_jaccard_distance_batch_4; u64_jaccard_distance; minhash_lsh_hit; u64_jaccard_distance_batch_4].

(** The suffixes of the kernels. *)
Inductive isa := REF | SSE | AVX | AVX512 | AVX512ICX | NEON | SVE | RVV | PPC.

Inductive kernel := Plain (i : isa) | Bf16Patch (i : isa).

Definition kernel_isa (k : kernel) : isa := match k with Plain i | Bf16Patch i => i end.

#[export] Instance isa_eq_dec : EqDecision isa.
Proof. solve_decision. Defined.
#[export] Instance kernel_eq_dec : EqDecision kernel.
Proof. solve_decision. Defined.
#[export] Instance slot_eq_dec : EqDecision slot.
Proof. solve_decision. Defined.

Definition table := slot -> kernel.
Definition store : Type := slot * kernel.

Notation "s '::=' i" := (s, Plain i) (at level 70, only parsing).
Notation "s '::=bf16' i" := (s, Bf16Patch i) (at level 70, only parsing).

(** One assignment to a pointer, and a block of them. *)
Definition assign (t : table) (st : store) : table := fun s => if decide (s = fst st) then snd st else t s.
Definition assign_all (t : table) (l : list store) : table := foldl assign t l.

(** The globals of hook.cc. *)
Record hooks := Hooks {
  use_avx512 : bool;
  use_avx2 : bool;
  use_sse4_2 : bool;
  support_pq_fast_scan : bool;
  ptr : table;
}.

(** Their static initialisers. *)
Definition static_hooks : hooks := Hooks true true true true (fun _ => Plain REF).

Definition set_ptr (h : hooks) (t : table) : hooks :=
  Hooks (use_avx512 h) (use_avx2 h) (use_sse4_2 h) (support_pq_fast_scan h) t.

(** ** The processor *)

(** The macros the sources test. *)
Record build := Build {
  x86_64 : bool;
  aarch64 : bool;
  apple : bool;
  arm_neon : bool;
  arm_feature_sve : bool;
  riscv_vector : bool;
  powerpc64 : bool;
}.

(** [cpuid leaf] is the result of [__cpuid_count(leaf, 0, ...)], its four
    registers; [hwcap_sve] is [getauxval(AT_HWCAP) & HWCAP_SVE]. *)
Record machine := Machine {
  cpuid : Z -> Z * Z * Z * Z;
  hwcap_sve : bool;
}.

(** An [int] read from a register. *)
Definition as_int (r : Z) : Z := (r + 2 ^ 31) mod 2 ^ 32 - 2 ^ 31.

(** The feature words of [InstructionSet] that the dispatch reads. *)
Record InstructionSet := MkInstructionSet {
  f_1_ECX_ : Z;
  f_7_EBX_ : Z;
  f_7_ECX_ : Z;
}.

(** The constructor: the leaves up to the highest valid one are stored, and the
    words of leaves 1 and 7 are kept if they are among them. *)
Definition read_instruction_set (m : machine) : InstructionSet :=
  let '(eax, _, _, _) := cpuid m 0 in
  let nIds_ := as_int eax in
  let data_ := (fun i => cpuid m (Z.of_nat i)) <$> seq 0 (Z.to_nat (nIds_ + 1)) in
  let word n (f : Z * Z * Z * Z -> Z) :=
    if Z.of_nat n <=? nIds_ then match data_ !! n with Some r => f r | None => 0 end else 0 in
  MkInstructionSet (word 1%nat (fun '(_, _, c, _) => c)) (word 7%nat (fun '(_, b, _, _) => b))
    (word 7%nat (fun '(_, _, c, _) => c)).

Definition SSE42 (s : InstructionSet) : bool := Z.testbit (f_1_ECX_ s) 20.
Definition AVX2 (s : InstructionSet) : bool := Z.testbit (f_7_EBX_ s) 5.
Definition AVX512F (s : InstructionSet) : bool := Z.testbit (f_7_EBX_ s) 16.
Definition AVX512DQ (s : InstructionSet) : bool := Z.testbit (f_7_EBX_ s) 17.
Definition AVX512BW (s : InstructionSet) : bool := Z.testbit (f_7_EBX_ s) 30.
Definition AVX512VPOPCNTDQ (s : InstructionSet) : bool := Z.testbit (f_7_ECX_ s) 14.

Definition cpu_support_avx512 (m : machine) : bool :=
  let s := read_instruction_set m in AVX512F s && AVX512DQ s && AVX512BW s.
Definition cpu_support_avx2 (m : machine) : bool := AVX2 (read_instruction_set m).
Definition cpu_support_sse4_2 (m : machine) : bool := SSE42 (read_instruction_set m).

Definition supports_sve (b : build) (m : machine) : bool := if apple b then false else hwcap_sve m.

(** ** [fvec_hook] *)

(** The first branch of [fvec_hook], up to the choice of the RaBitQ kernel. *)
Definition avx512_stores_1 : list store :=
  [fvec_inner_product ::= AVX512; fvec_L2sqr ::= AVX512; fvec_L1 ::= AVX512; fvec_Linf ::= AVX512;
    fvec_norm_L2sqr ::= AVX512; fvec_L2sqr_ny ::= AVX; fvec_inner_products_ny ::= SSE; fvec_madd ::= AVX512;
    fvec_madd_and_argmin ::= SSE; fvec_inner_product_batch_4 ::= AVX512; fvec_L2sqr_batch_4 ::= AVX512;
    fvec_L2sqr_ny_nearest ::= AVX; ivec_inner_product ::= AVX512; ivec_L2sqr ::= AVX512;
    fp16_vec_inner_product ::= AVX512; fp16_vec_L2sqr ::= AVX512; fp16_vec_norm_L2sqr ::= AVX512;
    fp16_vec_inner_product_batch_4 ::= AVX512; fp16_vec_L2sqr_batch_4 ::= AVX512;
    bf16_vec_inner_product ::= AVX512; bf16_vec_L2sqr ::= AVX512; bf16_vec_norm_L2sqr ::= AVX512;
    bf16_vec_inner_product_batch_4 ::= AVX512; bf16_vec_L2sqr_batch_4 ::= AVX512;
    int8_vec_inner_product ::= AVX512; int8_vec_L2sqr ::= AVX512; int8_vec_norm_L2sqr ::= AVX512;
    int8_vec_inner_product_batch_4 ::= AVX512; int8_vec_L2sqr_batch_4 ::= AVX512; fvec_masked_sum ::= AVX512].

(** What follows that choice. *)
Definition avx512_stores_2 : list store :=
  [u64_binary_search_eq ::= AVX512; u64_binary_search_ge ::= AVX512; calculate_hash ::= AVX512;
    u32_jaccard_distance ::= REF; u32_jaccard_distance_batch_4 ::= REF; u64_jaccard_distance ::= REF;
    u64_jaccard_distance_batch_4 ::= REF].

(** The AVX2 branch. *)
Definition avx2_stores : list store :=
  [fvec_inner_product ::= AVX; fvec_L2sqr ::= AVX; fvec_L1 ::= AVX; fvec_Linf ::= AVX; fvec_norm_L2sqr ::= AVX;
    fvec_L2sqr_ny ::= AVX; fvec_inner_products_ny ::= SSE; fvec_madd ::= AVX; fvec_madd_and_argmin ::= SSE;
    fvec_inner_product_batch_4 ::= AVX; fvec_L2sqr_batch_4 ::= AVX; fvec_L2sqr_ny_nearest ::= AVX;
    ivec_inner_product ::= AVX; ivec_L2sqr ::= AVX; fp16_vec_inner_product ::= AVX; fp16_vec_L2sqr ::= AVX;
    fp16_vec_norm_L2sqr ::= AVX; fp16_vec_inner_product_batch_4 ::= AVX; fp16_vec_L2sqr_batch_4 ::= AVX;
    bf16_vec_inner_product ::= AVX; bf16_vec_L2sqr ::= AVX; bf16_vec_norm_L2sqr ::= AVX;
    bf16_vec_inner_product_batch_4 ::= AVX; bf16_vec_L2sqr_batch_4 ::= AVX; int8_vec_inner_product ::= AVX;
    int8_vec_L2sqr ::= AVX; int8_vec_norm_L2sqr ::= AVX; int8_vec_inner_product_batch_4 ::= AVX;
    int8_vec_L2sqr_batch_4 ::= AVX; fvec_masked_sum ::= AVX; rabitq_dp_popcnt ::= AVX].

(** The SSE4.2 branch. *)
Definition sse_stores : list store :=
  [fvec_inner_product ::= SSE; fvec_L2sqr ::= SSE; fvec_L1 ::= SSE; fvec_Linf ::= SSE; fvec_norm_L2sqr ::= SSE;
    fvec_L2sqr_ny ::= SSE; fvec_inner_products_ny ::= SSE; fvec_madd ::= SSE; fvec_madd_and_argmin ::= SSE;
    fvec_inner_product_batch_4 ::= REF; fvec_L2sqr_batch_4 ::= REF; ivec_inner_product ::= SSE;
    ivec_L2sqr ::= SSE; fp16_vec_inner_product ::= REF; fp16_vec_L2sqr ::= REF; fp16_vec_norm_L2sqr ::= REF;
    fp16_vec_inner_product_batch_4 ::= REF; fp16_vec_L2sqr_batch_4 ::= REF; bf16_vec_inner_product ::= SSE;
    bf16_vec_L2sqr ::= SSE; bf16_vec_norm_L2sqr ::= SSE; bf16_vec_inner_product_batch_4 ::= REF;
    bf16_vec_L2sqr_batch_4 ::= REF; int8_vec_inner_product ::= SSE; int8_vec_L2sqr ::= SSE;
    int8_vec_norm_L2sqr ::= SSE; int8_vec_inner_product_batch_4 ::= REF; int8_vec_L2sqr_batch_4 ::= REF;
    fvec_masked_sum ::= SSE; rabitq_dp_popcnt ::= SSE].

(** The branch without vector instructions. *)
Definition generic_stores : list store :=
  [fvec_inner_product ::= REF; fvec_L2sqr ::= REF; fvec_L1 ::= REF; fvec_Linf ::= REF; fvec_norm_L2sqr ::= REF;
    fvec_L2sqr_ny ::= REF; fvec_inner_products_ny ::= REF; fvec_madd ::= REF; fvec_madd_and_argmin ::= REF;
    fvec_inner_product_batch_4 ::= REF; fvec_L2sqr_batch_4 ::= REF; ivec_inner_product ::= REF;
    ivec_L2sqr ::= REF; fp16_vec_inner_product ::= REF; fp16_vec_L2sqr ::= REF; fp16_vec_norm_L2sqr ::= REF;
    fp16_vec_inner_product_batch_4 ::= REF; fp16_vec_L2sqr_batch_4 ::= REF; bf16_vec_inner_product ::= REF;
    bf16_vec_L2sqr ::= REF; bf16_vec_norm_L2sqr ::= REF; bf16_vec_inner_product_batch_4 ::= REF;
    bf16_vec_L2sqr_batch_4 ::= REF; int8_vec_inner_product ::= REF; int8_vec_L2sqr ::= REF;
    int8_vec_norm_L2sqr ::= REF; int8_vec_inner_product_batch_4 ::= REF; int8_vec_L2sqr_batch_4 ::= REF;
    fvec_masked_sum ::= REF; rabitq_dp_popcnt ::= REF].

(** The SVE branch. *)
Definition sve_stores : list store :=
  [fvec_L2sqr ::= SVE; fvec_L1 ::= SVE; fvec_Linf ::= SVE; fvec_norm_L2sqr ::= SVE; fvec_madd ::= SVE;
    fvec_madd_and_argmin ::= SVE; fvec_inner_product ::= SVE; fvec_L2sqr_ny ::= SVE;
    fvec_L2sqr_ny_nearest ::= SVE; fvec_inner_products_ny ::= SVE; ivec_inner_product ::= NEON;
    ivec_L2sqr ::= NEON; fp16_vec_inner_product ::= SVE; fp16_vec_L2sqr ::= SVE; fp16_vec_norm_L2sqr ::= SVE;
    bf16_vec_inner_product ::= SVE; bf16_vec_L2sqr ::= SVE; bf16_vec_norm_L2sqr ::= SVE;
    fvec_L2sqr_batch_4 ::= SVE; fvec_inner_product_batch_4 ::= SVE; bf16_vec_L2sqr_batch_4 ::= SVE;
    bf16_vec_inner_product_batch_4 ::= SVE; int8_vec_L2sqr ::= SVE; int8_vec_norm_L2sqr ::= SVE;
    int8_vec_L2sqr_batch_4 ::= SVE; int8_vec_inner_product ::= SVE; int8_vec_inner_product_batch_4 ::= SVE].

(** The NEON branch. *)
Definition neon_stores : list store :=
  [fvec_inner_product ::= NEON; fvec_L2sqr ::= NEON; fvec_L1 ::= NEON; fvec_Linf ::= NEON;
    fvec_norm_L2sqr ::= NEON; fvec_L2sqr_ny ::= NEON; fvec_L2sqr_ny_nearest ::= NEON;
    fvec_inner_products_ny ::= NEON; fvec_madd ::= NEON; fvec_madd_and_argmin ::= NEON;
    ivec_inner_product ::= NEON; ivec_L2sqr ::= NEON; fvec_inner_product_batch_4 ::= NEON;
    fvec_L2sqr_batch_4 ::= NEON; fp16_vec_inner_product ::= NEON; fp16_vec_L2sqr ::= NEON;
    fp16_vec_norm_L2sqr ::= NEON; fp16_vec_inner_product_batch_4 ::= NEON; fp16_vec_L2sqr_batch_4 ::= NEON;
    bf16_vec_inner_product ::= NEON; bf16_vec_L2sqr ::= NEON; bf16_vec_norm_L2sqr ::= NEON;
    bf16_vec_inner_product_batch_4 ::= NEON; bf16_vec_L2sqr_batch_4 ::= NEON].

(** The RISC-V vector block. *)
Definition rvv_stores : list store :=
  [fvec_inner_product ::= RVV; fvec_L1 ::= RVV; fvec_Linf ::= RVV; fvec_L2sqr ::= RVV;
    fvec_L2sqr_ny_transposed ::= RVV; fvec_inner_products_ny ::= RVV; fvec_inner_product_batch_4 ::= RVV;
    fvec_L2sqr_batch_4 ::= RVV; fvec_norm_L2sqr ::= RVV; fvec_L2sqr_ny ::= RVV; fvec_L2sqr_ny_nearest ::= RVV;
    fvec_L2sqr_ny_nearest_y_transposed ::= RVV; fvec_madd ::= RVV; fvec_madd_and_argmin ::= RVV;
    ivec_inner_product ::= RVV; ivec_L2sqr ::= RVV; int8_vec_inner_product ::= RVV; int8_vec_L2sqr ::= RVV;
    int8_vec_norm_L2sqr ::= RVV; int8_vec_inner_product_batch_4 ::= RVV; int8_vec_L2sqr_batch_4 ::= RVV;
    fp16_vec_inner_product ::= RVV; fp16_vec_L2sqr ::= RVV; fp16_vec_norm_L2sqr ::= RVV;
    fp16_vec_inner_product_batch_4 ::= RVV; fp16_vec_L2sqr_batch_4 ::= RVV; bf16_vec_inner_product ::= RVV;
    bf16_vec_L2sqr ::= RVV; bf16_vec_norm_L2sqr ::= RVV; bf16_vec_inner_product_batch_4 ::= RVV;
    bf16_vec_L2sqr_batch_4 ::= RVV].

(** The PowerPC block. *)
Definition ppc_stores : list store :=
  [fvec_inner_product ::= PPC; fvec_L1 ::= PPC; fvec_Linf ::= PPC; fvec_L2sqr ::= PPC;
    fvec_L2sqr_ny_nearest ::= PPC; fvec_L2sqr_ny_transposed ::= PPC; fvec_inner_products_ny ::= PPC;
    fvec_inner_product_batch_4 ::= PPC; fvec_L2sqr_batch_4 ::= PPC; fvec_norm_L2sqr ::= PPC;
    fvec_L2sqr_ny ::= PPC; fvec_inner_products_ny ::= PPC; fvec_madd ::= PPC; fvec_madd_and_argmin ::= PPC;
    ivec_inner_product ::= PPC; ivec_L2sqr ::= PPC].

(** A block of [fvec_hook]: its assignments, [simd_type] and
    [support_pq_fast_scan]. *)
Record block := Block { stores : list store; simd_name : string; fast_scan : bool }.

Definition avx512_block (m : machine) : block :=
  Block (avx512_stores_1 ++
         (if AVX512VPOPCNTDQ (read_instruction_set m) then [rabitq_dp_popcnt ::= AVX512ICX]
          else [rabitq_dp_popcnt ::= AVX512]) ++ avx512_stores_2) "AVX512" true.

Definition x86_block (m : machine) (h : hooks) : block :=
  if use_avx512 h && cpu_support_avx512 m then avx512_block m
  else if use_avx2 h && cpu_support_avx2 m then Block avx2_stores "AVX2" true
  else if use_sse4_2 h && cpu_support_sse4_2 m then Block sse_stores "SSE4_2" false
  else Block generic_stores "GENERIC" false.

Definition aarch64_blocks (b : build) (m : machine) : list block :=
  if supports_sve b m then (if arm_feature_sve b then [Block sve_stores "SVE" true] else [])
  else if arm_neon b then [Block neon_stores "NEON" true] else [].

(** The blocks the build contains, in their order. *)
Definition hook_blocks (b : build) (m : machine) (h : hooks) : list block :=
  (if x86_64 b then [x86_block m h] else []) ++
  (if aarch64 b then aarch64_blocks b m else []) ++
  (if riscv_vector b then [Block rvv_stores "RVV" false] else []) ++
  (if powerpc64 b then [Block ppc_stores "PPC" false] else []).

Definition run_block (st : hooks * string) (k : block) : hooks * string :=
  let (h, _) := st in
  (Hooks (use_avx512 h) (use_avx2 h) (use_sse4_2 h) (fast_scan k) (assign_all (ptr h) (stores k)), simd_name k).

Definition fvec_hook (b : build) (m : machine) (h : hooks) (simd_type : string) : hooks * string :=
  foldl run_block (h, simd_type) (hook_blocks b m h).

(** The initialiser of [init_hook_]; [faiss::sq_hook] selects the scalar
    quantiser of faiss and does not touch these globals. *)
Definition init_hook (b : build) (m : machine) : hooks := fst (fvec_hook b m static_hooks "").

(** ** The fp32-as-bf16 patch *)

Definition patch_stores (i : isa) : list store :=
  [fvec_inner_product ::=bf16 i; fvec_inner_product_batch_4 ::=bf16 i;
   fvec_L2sqr ::=bf16 i; fvec_L2sqr_batch_4 ::=bf16 i].

Definition unpatch_stores (i : isa) : list store :=
  [fvec_inner_product ::= i; fvec_inner_product_batch_4 ::= i; fvec_L2sqr ::= i; fvec_L2sqr_batch_4 ::= i].

(** The assignments of [enable_patch_for_fp32_bf16]; the SSE4.2 branch is empty. *)
Definition enable_stores (b : build) (m : machine) (h : hooks) : list store :=
  (if x86_64 b then
     if use_avx512 h && cpu_support_avx512 m then patch_stores AVX512
     else if use_avx2 h && cpu_support_avx2 m then patch_stores AVX
     else if use_sse4_2 h && cpu_support_sse4_2 m then []
     else patch_stores REF
   else []) ++
  (if aarch64 b && (arm_neon b && negb (arm_feature_sve b)) then patch_stores NEON else []).

(** Those of [disable_patch_for_fp32_bf16], which has no branch for ARM. *)
Definition disable_stores (b : build) (m : machine) (h : hooks) : list store :=
  if x86_64 b then
    if use_avx512 h && cpu_support_avx512 m then unpatch_stores AVX512
    else if use_avx2 h && cpu_support_avx2 m then unpatch_stores AVX
    else if use_sse4_2 h && cpu_support_sse4_2 m then []
    else unpatch_stores REF
  else [].

Definition enable_patch_for_fp32_bf16 (b : build) (m : machine) (h : hooks) : hooks :=
  set_ptr h (assign_all (ptr h) (enable_stores b m h)).
Definition disable_patch_for_fp32_bf16 (b : build) (m : machine) (h : hooks) : hooks :=
  set_ptr h (assign_all (ptr h) (disable_stores b m h)).

(** ** [KnowhereConfig] *)

Inductive SimdType := AUTO | TAVX512 | TAVX2 | TSSE4_2 | GENERIC.

Definition set_use (h : hooks) (a512 a2 s42 : bool) : hooks :=
  Hooks a512 a2 s42 (support_pq_fast_scan h) (ptr h).

Definition SetSimdType (b : build) (m : machine) (h : hooks) (t : SimdType) : hooks * string :=
  let h :=
    if x86_64 b then
      match t with
      | AUTO | TAVX512 => set_use h true true true
      | TAVX2 => set_use h false true true
      | TSSE4_2 => set_use h false false true
      | GENERIC => set_use h false false false
      end
    else h in
  fvec_hook b m h "".

(** The operations a program can call, and the states they lead to. *)
Inductive hook_op := OpSetSimdType (t : SimdType) | OpEnablePatch | OpDisablePatch.

Definition hook_step (b : build) (m : machine) (h : hooks) (o : hook_op) : hooks :=
  match o with
  | OpSetSimdType t => fst (SetSimdType b m h t)
  | OpEnablePatch => enable_patch_for_fp32_bf16 b m h
  | OpDisablePatch => disable_patch_for_fp32_bf16 b m h
  end.

Inductive reachable (b : build) (m : machine) : hooks -> Prop :=
| reachable_init : reachable b m (init_hook b m)
| reachable_step h o : reachable b m h -> reachable b m (hook_step b m h o).
