(* ===== verification/HookProps.v ===== *)
(** * What the kernel dispatch guarantees *)

From S2P Require Import Prelude Hook.

#[local] Open Scope Z_scope.

(** ** Blocks of assignments *)

(** The last value a block assigns to a slot. *)
Definition last_store (l : list store) (s : slot) : option kernel :=
  foldl (fun r st => if decide (s = fst st) then Some (snd st) else r) None l.

Lemma assign_all_app t l1 l2 : assign_all t (l1 ++ l2) = assign_all (assign_all t l1) l2.
Proof. apply foldl_app. Qed.

(** A block decides the slots it mentions and leaves the others. *)
Lemma assign_all_spec t l s :
  assign_all t l s = match last_store l s with Some k => k | None => t s end.
Proof.
  induction l as [|[s' k] l IH] using rev_ind; [done|]. unfold last_store in *.
  rewrite assign_all_app, foldl_app. cbn. unfold assign. cbn. by destruct (decide (s = s')).
Qed.

Lemma assign_all_ext t u l s : t s = u s -> assign_all t l s = assign_all u l s.
Proof. rewrite !assign_all_spec. by intros ->. Qed.

(** What holds of every value assigned and of the old pointer holds after. *)
Lemma assign_all_forall (P : slot -> kernel -> Prop) t l s :
  P s (t s) -> Forall (fun st => P (fst st) (snd st)) l -> P s (assign_all t l s).
Proof.
  intros Ht. induction l as [|[s' k] l IH] using rev_ind; [done|]. rewrite assign_all_app.
  intros [Hl [Hk _]%Forall_cons]%Forall_app. cbn. unfold assign. cbn. destruct (decide (s = s')) as [->|]; [done|].
  by apply IH.
Qed.

Definition block_stores (l : list block) : list store := concat (stores <$> l).

Lemma run_blocks h ty l :
  ptr (fst (foldl run_block (h, ty) l)) = assign_all (ptr h) (block_stores l) /\
  use_avx512 (fst (foldl run_block (h, ty) l)) = use_avx512 h /\
  use_avx2 (fst (foldl run_block (h, ty) l)) = use_avx2 h /\
  use_sse4_2 (fst (foldl run_block (h, ty) l)) = use_sse4_2 h.
Proof.
  revert h ty. induction l as [|k l IH]; intros h ty; [done|]. cbn [foldl]. unfold block_stores. cbn [fmap list_fmap concat].
  rewrite assign_all_app. apply IH.
Qed.

Definition hook_stores b m h : list store := block_stores (hook_blocks b m h).

Lemma fvec_hook_ptr b m h ty : ptr (fst (fvec_hook b m h ty)) = assign_all (ptr h) (hook_stores b m h).
Proof. apply run_blocks. Qed.

(** ** Only kernels the processor can run *)

(** The instruction-set extensions, named as the compiler options. *)
Inductive extension :=
  | msse42 | mpopcnt | mfma | mf16c | mavx2 | mavx512f | mavx512dq | mavx512bw | mavx512vl | mavx512vpopcntdq.

(** Where the processor manuals put them: the [cpuid] leaf, its register (EAX,
    EBX, ECX and EDX from 0) and the bit. *)
Definition cpuid_bit (e : extension) : Z * nat * Z :=
  match e with
  | msse42 => (1, 2%nat, 20) | mpopcnt => (1, 2%nat, 23) | mfma => (1, 2%nat, 12) | mf16c => (1, 2%nat, 29)
  | mavx2 => (7, 1%nat, 5) | mavx512f => (7, 1%nat, 16) | mavx512dq => (7, 1%nat, 17) | mavx512bw => (7, 1%nat, 30)
  | mavx512vl => (7, 1%nat, 31) | mavx512vpopcntdq => (7, 2%nat, 14)
  end.

Definition register (r : Z * Z * Z * Z) (n : nat) : Z :=
  let '(eax, ebx, ecx, edx) := r in match n with 0%nat => eax | 1%nat => ebx | 2%nat => ecx | _ => edx end.

(** The processor reports an extension: the leaf exists and the bit is set. *)
Definition reports (m : machine) (e : extension) : bool :=
  let '(leaf, reg, bit) := cpuid_bit e in
  (leaf <=? register (cpuid m 0) 0 mod 2 ^ 32) && Z.testbit (register (cpuid m leaf) reg) bit.

(** The options the file of each kernel is compiled with. *)
Definition compiled_with (i : isa) : list extension :=
  match i with
  | SSE => [msse42; mpopcnt]
  | AVX => [mfma; mf16c; mavx2; mpopcnt]
  | AVX512 => [mfma; mf16c; mavx512f; mavx512dq; mavx512bw; mpopcnt; mavx512vl]
  | AVX512ICX => [mfma; mf16c; mavx512f; mavx512dq; mavx512bw; mpopcnt; mavx512vl; mavx512vpopcntdq]
  | _ => []
  end.

(** What a kernel needs: an x86 kernel that the processor reports each of its
    extensions, an SVE kernel that the kernel of the system reports SVE, and all
    that the build targets their architecture. *)
Definition supported (b : build) (m : machine) (i : isa) : bool :=
  match i with
  | REF => true
  | SSE | AVX | AVX512 | AVX512ICX => x86_64 b && forallb (reports m) (compiled_with i)
  | NEON => aarch64 b && arm_neon b
  | SVE => aarch64 b && arm_feature_sve b && hwcap_sve m
  | RVV => riscv_vector b
  | PPC => powerpc64 b
  end.

(** What holds of the processors in use, beyond what the dispatch tests:
    SSE4.2 comes with POPCNT; AVX2 with SSE4.2, FMA and F16C; and the three
    AVX-512 extensions together with AVX2 and AVX512VL. *)
Definition cpu_ok (m : machine) : Prop :=
  (reports m msse42 = true -> reports m mpopcnt = true) /\
  (reports m mavx2 = true -> reports m msse42 = true /\ reports m mfma = true /\ reports m mf16c = true) /\
  (reports m mavx512f = true -> reports m mavx512dq = true -> reports m mavx512bw = true ->
   reports m mavx2 = true /\ reports m mavx512vl = true).

(** The words the constructor of [InstructionSet] keeps are those of the
    processor, where its leaves exist. *)
Lemma word_reported m (n : nat) (f : Z * Z * Z * Z -> Z) bit :
  let nIds_ := as_int (register (cpuid m 0) 0) in
  Z.testbit (if Z.of_nat n <=? nIds_ then
      match ((fun i => cpuid m (Z.of_nat i)) <$> seq 0 (Z.to_nat (nIds_ + 1))) !! n with Some r => f r | None => 0 end
    else 0) bit = true ->
  (Z.of_nat n <=? register (cpuid m 0) 0 mod 2 ^ 32) && Z.testbit (f (cpuid m (Z.of_nat n))) bit = true.
Proof.
  intros nIds_. destruct (Z.leb_spec (Z.of_nat n) nIds_) as [Hn|]; [|by rewrite Z.testbit_0_l].
  rewrite list_lookup_fmap, lookup_seq_lt by lia. cbn [fmap option_fmap option_map Nat.add]. intros ->. rewrite andb_true_r.
  apply Z.leb_le. revert Hn. unfold nIds_, as_int. clear. Z.to_euclidean_division_equations; lia.
Qed.

Lemma instruction_set_reports m : let s := read_instruction_set m in
  (SSE42 s = true -> reports m msse42 = true) /\ (AVX2 s = true -> reports m mavx2 = true) /\
  (AVX512F s = true -> reports m mavx512f = true) /\ (AVX512DQ s = true -> reports m mavx512dq = true) /\
  (AVX512BW s = true -> reports m mavx512bw = true) /\ (AVX512VPOPCNTDQ s = true -> reports m mavx512vpopcntdq = true).
Proof.
  intros s. unfold s, read_instruction_set, reports. destruct (cpuid m 0) as [[[eax e0] e1] e2] eqn:E0.
  pose proof (word_reported m 1 (fun '(_, _, c, _) => c)) as W1. pose proof (word_reported m 7 (fun '(_, b, _, _) => b)) as W2.
  pose proof (word_reported m 7 (fun '(_, _, c, _) => c)) as W3. rewrite E0 in W1, W2, W3. cbn [cpuid_bit].
  split_and!; intros H; cbv [SSE42 AVX2 AVX512F AVX512DQ AVX512BW AVX512VPOPCNTDQ f_1_ECX_ f_7_EBX_ f_7_ECX_] in H;
    first [apply W1 in H|apply W2 in H|apply W3 in H]; revert H.
  all: change (Z.of_nat 1) with 1; change (Z.of_nat 7) with 7; rewrite ?E0.
  1: by destruct (cpuid m 1) as [[[]]].
  all: by destruct (cpuid m 7) as [[[]]].
Qed.

(** The tests of the dispatch, with what holds of the processors, give the
    extensions of each file. *)
Lemma tests_suffice m : cpu_ok m ->
  (cpu_support_sse4_2 m = true -> forallb (reports m) (compiled_with SSE) = true) /\
  (cpu_support_avx2 m = true -> forallb (reports m) (compiled_with AVX) = true /\ reports m msse42 = true) /\
  (cpu_support_avx512 m = true -> forallb (reports m) (compiled_with AVX512) = true /\ reports m mavx2 = true) /\
  (cpu_support_avx512 m = true -> AVX512VPOPCNTDQ (read_instruction_set m) = true ->
   forallb (reports m) (compiled_with AVX512ICX) = true).
Proof.
  intros (Hp & H2 & H5). destruct (instruction_set_reports m) as (R1 & R2 & R3 & R4 & R5 & R6).
  unfold cpu_support_sse4_2, cpu_support_avx2, cpu_support_avx512. cbn [compiled_with forallb].
  rewrite !andb_true_iff. tauto.
Qed.

(** A compiler that targets SVE targets NEON. *)
Definition build_ok (b : build) : Prop := arm_feature_sve b = true -> arm_neon b = true.

Definition store_supported b m (st : store) : Prop := supported b m (kernel_isa (snd st)) = true.

(** The instruction sets a block mentions, without repetition. *)
Lemma stores_supported b m (l : list store) (isas : list isa) :
  bool_decide (Forall (fun st => kernel_isa (snd st) ∈ isas) l) = true ->
  Forall (fun i => supported b m i = true) isas -> Forall (store_supported b m) l.
Proof.
  intros H%bool_decide_eq_true_1 Hi. eapply Forall_impl; [exact H|]. intros st Hst.
  rewrite Forall_forall in Hi. by apply Hi.
Qed.

Ltac all_supported isas :=
  apply (stores_supported _ _ _ isas); [vm_compute; reflexivity|repeat constructor; done].

Section supported.
Context (b : build) (m : machine) (Hb : build_ok b) (Hm : cpu_ok m).

Lemma x86_supported : x86_64 b = true ->
  (cpu_support_sse4_2 m = true -> supported b m SSE = true) /\
  (cpu_support_avx2 m = true -> supported b m SSE = true /\ supported b m AVX = true) /\
  (cpu_support_avx512 m = true -> supported b m SSE = true /\ supported b m AVX = true /\ supported b m AVX512 = true) /\
  (cpu_support_avx512 m = true -> AVX512VPOPCNTDQ (read_instruction_set m) = true -> supported b m AVX512ICX = true).
Proof.
  intros Hx. destruct (tests_suffice m Hm) as (T1 & T2 & T3 & T4), Hm as (Hp & H2 & H5).
  unfold supported. rewrite Hx. cbn [andb]. split_and!; [done| | |done]; revert T2 T3; cbn [compiled_with forallb];
    rewrite !andb_true_iff; tauto.
Qed.

Lemma hook_stores_supported h : Forall (store_supported b m) (hook_stores b m h).
Proof.
  unfold hook_stores, block_stores, hook_blocks.
  rewrite !fmap_app, !concat_app, !Forall_app. split_and!.
  - destruct (x86_64 b) eqn:Ex; [|constructor]. destruct (x86_supported Ex) as (S1 & S2 & S3 & S4).
    cbn [fmap list_fmap List.concat]. rewrite app_nil_r. unfold x86_block.
    destruct (use_avx512 h && cpu_support_avx512 m) eqn:E5.
    { apply andb_true_iff in E5 as [_ E5]. destruct (S3 E5) as (? & ? & ?). unfold avx512_block. cbn [stores].
      destruct (AVX512VPOPCNTDQ (read_instruction_set m)) eqn:Ei; rewrite ?Forall_app; split_and!;
        try all_supported [SSE; AVX; AVX512; REF]. specialize (S4 E5 eq_refl). all_supported [AVX512ICX]. }
    destruct (use_avx2 h && cpu_support_avx2 m) eqn:E2.
    { apply andb_true_iff in E2 as [_ E2]. destruct (S2 E2). all_supported [SSE; AVX]. }
    destruct (use_sse4_2 h && cpu_support_sse4_2 m) eqn:E4.
    { apply andb_true_iff in E4 as [_ E4]. specialize (S1 E4). all_supported [SSE; REF]. }
    all_supported [REF].
  - destruct (aarch64 b) eqn:Ea; [|constructor]. unfold aarch64_blocks. destruct (supports_sve b m) eqn:Es.
    + destruct (arm_feature_sve b) eqn:Ef; [|constructor]. cbn [fmap list_fmap List.concat]. rewrite app_nil_r. specialize (Hb Ef).
      assert (hwcap_sve m = true) as Hw by (revert Es; unfold supports_sve; by destruct (apple b)).
      apply (stores_supported _ _ _ [SVE; NEON]); [vm_compute; reflexivity|].
      repeat constructor; cbn [supported]; by rewrite Ea, ?Ef, ?Hw, ?Hb.
    + destruct (arm_neon b) eqn:En; [|constructor]. cbn [fmap list_fmap List.concat]. rewrite app_nil_r.
      apply (stores_supported _ _ _ [NEON]); [vm_compute; reflexivity|]. repeat constructor; cbn [supported]; by rewrite Ea, En.
  - destruct (riscv_vector b) eqn:Er; [|constructor]. cbn [fmap list_fmap List.concat]. rewrite app_nil_r.
    apply (stores_supported _ _ _ [RVV]); [vm_compute; reflexivity|by repeat constructor].
  - destruct (powerpc64 b) eqn:Er; [|constructor]. cbn [fmap list_fmap List.concat]. rewrite app_nil_r.
    apply (stores_supported _ _ _ [PPC]); [vm_compute; reflexivity|by repeat constructor].
Qed.

Lemma patch_isa_supported i : supported b m i = true ->
  Forall (store_supported b m) (patch_stores i) /\ Forall (store_supported b m) (unpatch_stores i).
Proof. intros Hi. split; repeat constructor; exact Hi. Qed.

Lemma patch_stores_supported h :
  Forall (store_supported b m) (enable_stores b m h) /\ Forall (store_supported b m) (disable_stores b m h).
Proof.
  assert (Forall (store_supported b m)
    (if aarch64 b && (arm_neon b && negb (arm_feature_sve b)) then patch_stores NEON else [])) as Ha.
  { destruct (aarch64 b && _) eqn:Ea; [|constructor]. rewrite !andb_true_iff in Ea.
    apply patch_isa_supported. cbn [supported]. rewrite andb_true_iff. tauto. }
  unfold enable_stores, disable_stores. rewrite Forall_app. destruct (x86_64 b) eqn:Ex; [|by repeat split].
  destruct (use_avx512 h && cpu_support_avx512 m) eqn:E5; [|destruct (use_avx2 h && cpu_support_avx2 m) eqn:E2;
    [|destruct (use_sse4_2 h && cpu_support_sse4_2 m) eqn:E4; [by repeat split|]]].
  all: repeat match goal with H : _ && _ = true |- _ => apply andb_true_iff in H as [_ H] end.
  all: destruct (x86_supported Ex) as (_ & S2 & S3 & _); split_and!; try done; apply patch_isa_supported; try done.
  all: first [by apply S3|by apply S2].
Qed.

Lemma reachable_supported h : reachable b m h -> forall s, supported b m (kernel_isa (ptr h s)) = true.
Proof.
  intros Hr. induction Hr as [|h o Hr IH]; intros s.
  - unfold init_hook. rewrite fvec_hook_ptr.
    apply (assign_all_forall (fun _ k => supported b m (kernel_isa k) = true)); [done|apply hook_stores_supported].
  - destruct o as [t| |]; cbn [hook_step].
    + unfold SetSimdType. rewrite fvec_hook_ptr.
      apply (assign_all_forall (fun _ k => supported b m (kernel_isa k) = true)); [|apply hook_stores_supported].
      by destruct (x86_64 b), t; apply IH.
    + apply (assign_all_forall (fun _ k => supported b m (kernel_isa k) = true)); [apply IH|apply patch_stores_supported].
    + apply (assign_all_forall (fun _ k => supported b m (kernel_isa k) = true)); [apply IH|apply patch_stores_supported].
Qed.

End supported.

Definition bits (l : list Z) : Z := foldr (fun i w => Z.lor (Z.shiftl 1 i) w) 0 l.

(** An x86-64 and a NEON build, and a processor with every AVX-512 extension
    the dispatch asks for. *)
Definition x86_build : build := Build true false false false false false false.
Definition neon_build : build := Build false true false true false false false.
Definition icx_machine : machine :=
  Machine (fun leaf =>
    if leaf =? 0 then (7, 0, 0, 0)
    else if leaf =? 1 then (0, 0, bits [12; 20; 23; 29], 0)
    else if leaf =? 7 then (0, bits [5; 16; 17; 30; 31], bits [14], 0)
    else (0, 0, 0, 0)) false.

(** The same processor without one extension. *)
Definition no_bit_machine (e : extension) : machine :=
  let '(leaf, reg, bit) := cpuid_bit e in
  Machine (fun l =>
    let '(a, b, c, d) := cpuid icx_machine l in
    let clear n w := if (l =? leaf) && (n =? reg)%nat then Z.clearbit w bit else w in
    (clear 0%nat a, clear 1%nat b, clear 2%nat c, clear 3%nat d)) false.



(** FMA, F16C, POPCNT and AVX512VL are among the compiler options and are not
    tested: on a processor (or a virtual machine that masks the bit) that
    reports everything but one of them, the dispatch selects kernels that need
    it. *)
Theorem untested_extensions (e : extension) : e ∈ [mfma; mf16c; mpopcnt; mavx512vl] ->
  let m := no_bit_machine e in
  reports m e = false /\ (forall e', e' <> e -> reports m e' = true) /\
  ptr (init_hook x86_build m) fvec_L2sqr = Plain AVX512 /\ supported x86_build m AVX512 = false.
Proof.
  intros He m. unfold m. repeat (apply elem_of_cons in He as [-> | He]; [|]); [..|by apply elem_of_nil in He].
  all: split_and!; [vm_compute; reflexivity| |vm_compute; reflexivity|vm_compute; reflexivity].
  all: intros [] H; first [by destruct H|vm_compute; reflexivity].
Qed.

Lemma untested_extensions_witness :
  mfma ∈ [mfma; mf16c; mpopcnt; mavx512vl] /\ ptr (init_hook x86_build (no_bit_machine mfma)) fvec_L2sqr = Plain AVX512.
Proof. split; [left|]. apply (untested_extensions mfma). left. Defined.

(** ** [SetSimdType] *)

(** The name of the block a request selects on a processor. *)
Definition requested (t : SimdType) (m : machine) : string :=
  let want512 := match t with AUTO | TAVX512 => true | _ => false end in
  let want2 := match t with AUTO | TAVX512 | TAVX2 => true | _ => false end in
  let want42 := match t with GENERIC => false | _ => true end in
  if want512 && cpu_support_avx512 m then "AVX512"
  else if want2 && cpu_support_avx2 m then "AVX2"
  else if want42 && cpu_support_sse4_2 m then "SSE4_2" else "GENERIC".

(** The pointers the blocks do not assign. *)
Definition minhash_slots : list slot :=
  [u64_binary_search_eq; u64_binary_search_ge; calculate_hash; u32_jaccard_distance; u32_jaccard_distance_batch_4;
   u64_jaccard_distance; u64_jaccard_distance_batch_4].
Definition unassigned (name : string) : list slot :=
  [fvec_L2sqr_ny_nearest_y_transposed; fvec_L2sqr_ny_transposed; minhash_lsh_hit] ++
  (if decide (name = "AVX512"%string) then [] else minhash_slots) ++
  (if decide (name = "SSE4_2"%string \/ name = "GENERIC"%string) then [fvec_L2sqr_ny_nearest] else []).

Definition x86_only (b : build) : Prop :=
  x86_64 b = true /\ aarch64 b = false /\ riscv_vector b = false /\ powerpc64 b = false.

(** On x86 the dispatch is one block. *)
Lemma x86_hook b m h ty : x86_only b -> fvec_hook b m h ty = run_block (h, ty) (x86_block m h).
Proof. intros (E1 & E2 & E3 & E4). unfold fvec_hook, hook_blocks. by rewrite E1, E2, E3, E4. Qed.

(** The four blocks by name: what each assigns does not depend on the state. *)
Definition named_block (m : machine) (name : string) : block :=
  if decide (name = "AVX512"%string) then avx512_block m
  else if decide (name = "AVX2"%string) then Block avx2_stores "AVX2" true
  else if decide (name = "SSE4_2"%string) then Block sse_stores "SSE4_2" false
  else Block generic_stores "GENERIC" false.

Lemma set_simd_block b m h t : x86_only b ->
  exists h', SetSimdType b m h t = run_block (h', ""%string) (named_block m (requested t m)) /\ ptr h' = ptr h.
Proof.
  intros Hb. unfold SetSimdType. rewrite (proj1 Hb).
  match goal with |- context [fvec_hook b m ?h' _] => exists h' end. split; [|by destruct t].
  rewrite x86_hook by done. apply f_equal. unfold x86_block, requested.
  destruct t; cbn [set_use use_avx512 use_avx2 use_sse4_2 andb];
    destruct (cpu_support_avx512 m), (cpu_support_avx2 m), (cpu_support_sse4_2 m); reflexivity.
Qed.

Lemma requested_cases t m :
  requested t m = "AVX512"%string \/ requested t m = "AVX2"%string \/
  requested t m = "SSE4_2"%string \/ requested t m = "GENERIC"%string.
Proof. unfold requested. repeat case_match; tauto. Qed.

(** A block assigns exactly the slots outside [unassigned]. *)
Lemma block_assigns m t s :
  bool_decide (s ∈ unassigned (requested t m)) =
  match last_store (stores (named_block m (requested t m))) s with Some _ => false | None => true end.
Proof.
  destruct (requested_cases t m) as [-> | [-> | [-> | ->]]].
  - change (named_block m "AVX512") with (avx512_block m). unfold avx512_block. cbn [stores].
    destruct (AVX512VPOPCNTDQ (read_instruction_set m)), s; vm_compute; reflexivity.
  - destruct s; vm_compute; reflexivity.
  - destruct s; vm_compute; reflexivity.
  - destruct s; vm_compute; reflexivity.
Qed.

(** on x86 [SetSimdType] reports the strongest instruction set that is
    requested and present, sets the fast-scan flag for AVX2 and AVX-512, and
    rebinds every pointer its block assigns to a kernel that depends on the
    request and the processor only.  The others keep their kernels: after
    [GENERIC] on an AVX-512 processor the nearest-row search still runs the AVX2
    kernel and the MinHash searches the AVX-512 kernels. *)
Theorem set_simd_type_rebinds (b : build) (m : machine) (h g : hooks) (t : SimdType) (s : slot) :
  x86_only b ->
  let r := SetSimdType b m h t in
  snd r = requested t m /\
  support_pq_fast_scan (fst r) = bool_decide (requested t m = "AVX512"%string \/ requested t m = "AVX2"%string) /\
  (s ∈ unassigned (requested t m) -> ptr (fst r) s = ptr h s) /\
  (s ∉ unassigned (requested t m) -> ptr (fst r) s = ptr (fst (SetSimdType b m g t)) s) /\
  (let q := SetSimdType x86_build icx_machine (init_hook x86_build icx_machine) GENERIC in
   snd q = "GENERIC"%string /\ ptr (fst q) fvec_L2sqr_ny_nearest = Plain AVX /\
   ptr (fst q) u64_binary_search_eq = Plain AVX512).
Proof.
  intros Hb. cbv zeta. destruct (set_simd_block b m h t Hb) as (h' & -> & Hh).
  destruct (set_simd_block b m g t Hb) as (g' & -> & Hg). cbn [run_block fst snd ptr support_pq_fast_scan].
  rewrite !assign_all_spec, Hh. pose proof (block_assigns m t s) as Ha.
  refine (conj _ (conj _ (conj _ (conj _ _)))).
  - destruct (requested_cases t m) as [-> | [-> | [-> | ->]]]; reflexivity.
  - destruct (requested_cases t m) as [-> | [-> | [-> | ->]]]; reflexivity.
  - intros Hs. rewrite bool_decide_eq_true_2 in Ha by done. by destruct (last_store _ s).
  - intros Hs. rewrite bool_decide_eq_false_2 in Ha by done. by destruct (last_store _ s).
  - vm_compute. by split_and!.
Qed.

Lemma set_simd_type_rebinds_witness :
  let r := SetSimdType x86_build icx_machine (init_hook x86_build icx_machine) TSSE4_2 in
  snd r = "SSE4_2"%string /\ ptr (fst r) fvec_L2sqr_ny_nearest = Plain AVX.
Proof.
  destruct (set_simd_type_rebinds x86_build icx_machine (init_hook x86_build icx_machine) static_hooks TSSE4_2
    fvec_L2sqr_ny_nearest ltac:(repeat split)) as (H1 & _ & H2 & _).
  split; [rewrite H1; reflexivity|]. rewrite H2; [reflexivity|].
  apply (bool_decide_unpack _). vm_compute. exact I.
Defined.

(** ** The patch *)

(** The instruction set of the four patched kernels. *)
Definition patch_isa (name : string) : isa :=
  if decide (name = "AVX512"%string) then AVX512 else if decide (name = "AVX2"%string) then AVX else REF.
Definition patched_slots : list slot :=
  [fvec_inner_product; fvec_inner_product_batch_4; fvec_L2sqr; fvec_L2sqr_batch_4].

(** After [SetSimdType] the patch functions take the branch of the request. *)
Lemma patch_branch b m h t : x86_only b ->
  let g := fst (SetSimdType b m h t) in
  enable_stores b m g = (if decide (requested t m = "SSE4_2"%string) then [] else patch_stores (patch_isa (requested t m))) /\
  disable_stores b m g = (if decide (requested t m = "SSE4_2"%string) then [] else unpatch_stores (patch_isa (requested t m))).
Proof.
  intros Hb. pose proof Hb as (E1 & E2 & _). cbv zeta. unfold SetSimdType. rewrite E1, x86_hook by done.
  unfold run_block, enable_stores, disable_stores. cbn [fst]. rewrite E1, E2. unfold requested.
  cbn [use_avx512 use_avx2 use_sse4_2]. destruct t; cbn [set_use use_avx512 use_avx2 use_sse4_2 andb];
    destruct (cpu_support_avx512 m), (cpu_support_avx2 m), (cpu_support_sse4_2 m); split; reflexivity.
Qed.

Lemma last_patch i s : last_store (patch_stores i) s = if decide (s ∈ patched_slots) then Some (Bf16Patch i) else None.
Proof. destruct s; vm_compute; reflexivity. Qed.
Lemma last_unpatch i s : last_store (unpatch_stores i) s = if decide (s ∈ patched_slots) then Some (Plain i) else None.
Proof. destruct s; vm_compute; reflexivity. Qed.

(** Before the patch the four pointers refer to the plain kernels of the same
    instruction set. *)
Lemma unpatched_isa b m h t s : x86_only b -> s ∈ patched_slots -> requested t m <> "SSE4_2"%string ->
  ptr (fst (SetSimdType b m h t)) s = Plain (patch_isa (requested t m)).
Proof.
  intros Hb Hs Hn. destruct (set_simd_block b m h t Hb) as (h' & -> & Hh). cbn [run_block fst ptr].
  rewrite assign_all_spec.
  assert (last_store (stores (named_block m (requested t m))) s = Some (Plain (patch_isa (requested t m)))) as ->; [|done].
  destruct (requested_cases t m) as [-> | [-> | [E | ->]]]; [|  |done|].
  - change (named_block m "AVX512") with (avx512_block m). unfold avx512_block. cbn [stores].
    destruct (AVX512VPOPCNTDQ (read_instruction_set m)); repeat (apply elem_of_cons in Hs as [-> | Hs]; [reflexivity|]);
      by apply elem_of_nil in Hs.
  - repeat (apply elem_of_cons in Hs as [-> | Hs]; [reflexivity|]); by apply elem_of_nil in Hs.
  - repeat (apply elem_of_cons in Hs as [-> | Hs]; [reflexivity|]); by apply elem_of_nil in Hs.
Qed.

(** on x86, after [SetSimdType] selected AVX-512, AVX2 or no vector
    instructions, enabling the fp32-as-bf16 patch points exactly the four [float]
    kernels at their bf16 variants and disabling it restores the table; with
    SSE4.2 both do nothing.  A later [SetSimdType] drops the patch.  On a NEON
    build the patch is never undone. *)
Theorem bf16_patch_round_trip (b : build) (m : machine) (h0 : hooks) (t : SimdType) :
  x86_only b ->
  let h := fst (SetSimdType b m h0 t) in
  let e := enable_patch_for_fp32_bf16 b m h in
  (requested t m <> "SSE4_2"%string ->
   (forall s, ptr e s = if decide (s ∈ patched_slots) then Bf16Patch (patch_isa (requested t m)) else ptr h s) /\
   (forall s, ptr (disable_patch_for_fp32_bf16 b m e) s = ptr h s)) /\
  (requested t m = "SSE4_2"%string -> forall s, ptr e s = ptr h s) /\
  (forall u s, ptr (fst (SetSimdType b m e u)) s = ptr (fst (SetSimdType b m h u)) s) /\
  (let n := init_hook neon_build m in let d h := disable_patch_for_fp32_bf16 neon_build m h in
   hwcap_sve m = false ->
   ptr n fvec_L2sqr = Plain NEON /\ ptr (d (enable_patch_for_fp32_bf16 neon_build m n)) fvec_L2sqr = Bf16Patch NEON).
Proof.
  intros Hb h e. destruct (patch_branch b m h0 t Hb) as [He Hd]. fold h in He, Hd.
  assert (disable_stores b m e = disable_stores b m h) as Hde by reflexivity.
  assert (forall s, requested t m <> "SSE4_2"%string ->
    ptr e s = if decide (s ∈ patched_slots) then Bf16Patch (patch_isa (requested t m)) else ptr h s) as Hen.
  { intros s Hn. unfold e, enable_patch_for_fp32_bf16. cbn [ptr set_ptr].
    rewrite assign_all_spec, He, decide_False, last_patch by done. by destruct (decide (s ∈ patched_slots)). }
  refine (conj _ (conj _ (conj _ _))).
  - intros Hn. split; [by intros; apply Hen|]. intros s. unfold disable_patch_for_fp32_bf16. cbn [ptr set_ptr].
    rewrite assign_all_spec, Hde, Hd, decide_False, last_unpatch, Hen by done.
    destruct (decide (s ∈ patched_slots)) as [Hs|]; [|done].
    symmetry. by apply unpatched_isa.
  - intros Hn s. unfold e, enable_patch_for_fp32_bf16. cbn [ptr set_ptr]. by rewrite assign_all_spec, He, decide_True.
  - intros u s. destruct (set_simd_block b m e u Hb) as (e' & -> & He'), (set_simd_block b m h u Hb) as (h' & -> & Hh').
    cbn [run_block fst ptr]. rewrite !assign_all_spec, He', Hh'.
    destruct (last_store _ s) eqn:El; [done|]. unfold e, enable_patch_for_fp32_bf16. cbn [ptr set_ptr].
    rewrite assign_all_spec, He. destruct (decide (requested t m = _)); [done|]. rewrite last_patch.
    destruct (decide (s ∈ patched_slots)) as [Hs|]; [|done].
    pose proof (block_assigns m u s) as Ha. rewrite El in Ha. apply bool_decide_eq_true_1 in Ha.
    exfalso. revert Hs Ha. destruct (requested_cases u m) as [-> | [-> | [-> | ->]]]; set_solver.
  - intros n d Hs. unfold d, n, init_hook, fvec_hook, hook_blocks, aarch64_blocks, supports_sve. cbn [x86_64 aarch64
      apple neon_build app]. rewrite Hs. split; vm_compute; reflexivity.
Qed.

Lemma bf16_patch_round_trip_witness :
  let h := fst (SetSimdType x86_build icx_machine static_hooks TAVX2) in
  let e := enable_patch_for_fp32_bf16 x86_build icx_machine h in
  ptr e fvec_L2sqr = Bf16Patch AVX /\ ptr (disable_patch_for_fp32_bf16 x86_build icx_machine e) fvec_L2sqr = Plain AVX.
Proof.
  destruct (proj1 (bf16_patch_round_trip x86_build icx_machine static_hooks TAVX2 ltac:(repeat split))
    ltac:(vm_compute; discriminate)) as [H1 H2].
  split; [rewrite H1|rewrite H2]; vm_compute; reflexivity.
Defined.

(** ** Concurrent calls *)

(** Two calls whose assignments alternate in any way. *)
Inductive interleaving {A} : list A -> list A -> list A -> Prop :=
| inter_nil : interleaving [] [] []
| inter_left x l1 l2 l : interleaving l1 l2 l -> interleaving (x :: l1) l2 (x :: l)
| inter_right y l1 l2 l : interleaving l1 l2 l -> interleaving l1 (y :: l2) (y :: l).

Lemma interleaving_app {A} (l1 l2 : list A) : interleaving l1 l2 (l1 ++ l2).
Proof.
  induction l1 as [|x l1 IH]; cbn; [|by constructor]. induction l2; constructor; done.
Qed.

Lemma last_store_cons st l s :
  last_store (st :: l) s =
  match last_store l s with Some k => Some k | None => if decide (s = fst st) then Some (snd st) else None end.
Proof.
  induction l as [|st' l IH] using rev_ind; [done|]. unfold last_store in *.
  rewrite app_comm_cons, !foldl_app, IH. cbn [foldl]. by destruct (decide (s = fst st')).
Qed.

(** The last assignment to a slot is the last one of one of the two calls. *)
Lemma interleaved_last l1 l2 l s : interleaving l1 l2 l ->
  (last_store l s = last_store l1 s /\ (last_store l1 s = None -> last_store l2 s = None)) \/
  (last_store l s = last_store l2 s /\ last_store l2 s <> None).
Proof.
  induction 1 as [|st l1 l2 l H IH|st l1 l2 l H IH]; [by left| |]; rewrite !last_store_cons.
  - destruct IH as [[-> Hn]|[-> Hn]]; [|right; by destruct (last_store l2 s)].
    left. split; [done|]. by destruct (last_store l1 s); [|rewrite Hn].
  - destruct IH as [[-> Hn]|[-> Hn]]; [|right; by destruct (last_store l2 s)].
    destruct (last_store l1 s); [by left|]. rewrite Hn by done. destruct (decide (s = fst st)); [by right|by left].
Qed.

(** [fvec_hook] and [enable_patch_for_fp32_bf16] take different mutexes.
    However their assignments alternate, every pointer ends as one of the two
    calls alone would leave it, and only the four patched pointers can end as
    the patch leaves them; but the four need not agree: there is an order of
    the assignments of an x86 program after which the inner product uses the
    plain kernel and the L2 distance the patched one. *)
Theorem patch_races_with_hook (b : build) (m : machine) (h : hooks) (l : list store) (s : slot) :
  x86_only b ->
  interleaving (hook_stores b m h) (enable_stores b m h) l ->
  (assign_all (ptr h) l s = ptr (fst (fvec_hook b m h "")) s \/
   (s ∈ patched_slots /\ assign_all (ptr h) l s = ptr (enable_patch_for_fp32_bf16 b m h) s)) /\
  (exists l', let h0 := init_hook x86_build icx_machine in
     interleaving (hook_stores x86_build icx_machine h0) (enable_stores x86_build icx_machine h0) l' /\
     assign_all (ptr h0) l' fvec_inner_product = Plain AVX512 /\
     assign_all (ptr h0) l' fvec_L2sqr = Bf16Patch AVX512).
Proof.
  intros Hb Hi. split.
  - rewrite fvec_hook_ptr. unfold enable_patch_for_fp32_bf16. cbn [ptr set_ptr]. rewrite !assign_all_spec.
    destruct (interleaved_last _ _ _ s Hi) as [[-> _]|[-> Hn]]; [by left|]. right. split; [|done].
    revert Hn. destruct Hb as (E1 & E2 & _). unfold enable_stores. rewrite E1, E2. cbn [andb]. rewrite app_nil_r.
    repeat case_match; rewrite ?last_patch; try done; by case_decide.
  - set (h0 := init_hook x86_build icx_machine). cbv zeta.
    exists (take 2 (enable_stores x86_build icx_machine h0) ++ hook_stores x86_build icx_machine h0 ++
            drop 2 (enable_stores x86_build icx_machine h0)). split; [|split; vm_compute; reflexivity].
    assert (forall (p q r : list store), interleaving q (p ++ r) (p ++ q ++ r)) as Hint.
    { intros p q r. induction p as [|x p IH]; [exact (interleaving_app q r)|by constructor]. }
    rewrite <- (take_drop 2 (enable_stores x86_build icx_machine h0)) at 1. apply Hint.
Qed.

Lemma patch_races_with_hook_witness :
  let h := init_hook x86_build icx_machine in
  let l := hook_stores x86_build icx_machine h ++ enable_stores x86_build icx_machine h in
  assign_all (ptr h) l fvec_L1 = Plain AVX512.
Proof.
  intros h l.
  destruct (proj1 (patch_races_with_hook x86_build icx_machine h l fvec_L1 ltac:(repeat split)
    (interleaving_app _ _))) as [H|[H _]].
  - rewrite H. vm_compute. reflexivity.
  - exfalso. apply (bool_decide_eq_true_2 _) in H. vm_compute in H. discriminate H.
Defined.
