(* ===== verification/HookSpec.v ===== *)
(** * What a caller of the dispatch table relies on

    The callers of src/simd/hook.h see function pointers.  [contract] states
    what they may assume of the function behind each of them and [ExactTable]
    that a table keeps it; the theorem at the end shows that the table of an x86
    program does in every reachable state in which the fp32-as-bf16 patch is
    off. *)

From S2P Require Import Prelude Float Num Bitset MemoryIO Operands Distances DistanceProps Rvv RvvKernels RvvProps Simd.
From S2P Require Import SimdProps AvxKernels AvxProps SseKernels SseProps Avx512Kernels Avx512MinHash Avx512Props.
From S2P Require Import Avx512MinHashProps Avx512Icx X86Spec Hook HookProps.

#[local] Open Scope Z_scope.

(** ** The functions behind the pointers *)

Section interface.
Context `{HU : !Usum Z} (widen : Z -> Z) (XXH3_64bits : list Z -> Z).

(** The type of each pointer of hook.h.  [float] is read as exact integers,
    except where a kernel only rounds once at the end or takes a maximum, and
    16-bit elements are converted by [widen].  Two arguments do not exist in
    the source: the value a nearest search or an argmin starts from, and whether
    the arrays are 16-byte aligned. *)
Definition sig (s : slot) : Type :=
  match s with
  | fvec_inner_product | fvec_L2sqr | fvec_L1 | fvec_masked_sum | ivec_inner_product | ivec_L2sqr
  | fp16_vec_inner_product | fp16_vec_L2sqr | bf16_vec_inner_product | bf16_vec_L2sqr => list Z -> list Z -> nat -> M Z
  | fvec_Linf => list spec_float -> list spec_float -> nat -> M spec_float
  | int8_vec_inner_product | int8_vec_L2sqr | u32_jaccard_distance | u64_jaccard_distance =>
      list Z -> list Z -> nat -> M spec_float
  | fvec_norm_L2sqr | fp16_vec_norm_L2sqr | bf16_vec_norm_L2sqr => list Z -> nat -> M Z
  | int8_vec_norm_L2sqr => list Z -> nat -> M spec_float
  | fvec_L2sqr_ny | fvec_inner_products_ny => list Z -> list Z -> list Z -> nat -> nat -> M (list Z)
  | fvec_L2sqr_ny_nearest => Z -> list Z -> list Z -> list Z -> nat -> nat -> M (list Z * nat)
  | fvec_L2sqr_ny_transposed => list Z -> list Z -> list Z -> list Z -> nat -> nat -> nat -> M (list Z)
  | fvec_L2sqr_ny_nearest_y_transposed => Z -> list Z -> list Z -> list Z -> list Z -> nat -> nat -> nat -> M (list Z * nat)
  | fvec_madd => bool -> nat -> list Z -> Z -> list Z -> list Z -> M (list Z)
  | fvec_madd_and_argmin => Z -> bool -> nat -> list Z -> Z -> list Z -> list Z -> M (list Z * Z)
  | fvec_inner_product_batch_4 | fvec_L2sqr_batch_4 | fp16_vec_inner_product_batch_4 | fp16_vec_L2sqr_batch_4
  | bf16_vec_inner_product_batch_4 | bf16_vec_L2sqr_batch_4 =>
      list Z -> list Z -> list Z -> list Z -> list Z -> nat -> M (Z * Z * Z * Z)
  | int8_vec_inner_product_batch_4 | int8_vec_L2sqr_batch_4 | u32_jaccard_distance_batch_4 | u64_jaccard_distance_batch_4 =>
      list Z -> list Z -> list Z -> list Z -> list Z -> nat -> M (spec_float * spec_float * spec_float * spec_float)
  | rabitq_dp_popcnt => list Z -> list Z -> nat -> nat -> M Z
  | u64_binary_search_eq | u64_binary_search_ge => list Z -> nat -> Z -> M Z
  | calculate_hash => list Z -> nat -> M Z
  | minhash_lsh_hit => list Z -> list Z -> nat -> nat -> M bool
  end.

(** A choice of kernels, one per instruction set that has one. *)
Definition by_isa {F} (ref : F) (sse avx avx512 icx : option F) (k : kernel) : option F :=
  match k with
  | Plain REF => Some ref | Plain SSE => sse | Plain AVX => avx | Plain AVX512 => avx512 | Plain AVX512ICX => icx
  | _ => None
  end.

(** The function a pointer value stands for; [None] for a value that names no
    x86 kernel. *)
Definition resolve (s : slot) : kernel -> option (sig s) :=
  match s return kernel -> option (sig s) with
  | fvec_inner_product => by_isa fvec_inner_product_ref (Some fvec_inner_product_sse) (Some fvec_inner_product_avx)
      (Some fvec_inner_product_avx512) None
  | fvec_L2sqr => by_isa fvec_L2sqr_ref (Some fvec_L2sqr_sse) (Some fvec_L2sqr_avx) (Some fvec_L2sqr_avx512) None
  | fvec_L1 => by_isa fvec_L1_ref (Some fvec_L1_sse) (Some fvec_L1_avx) (Some fvec_L1_avx512) None
  | fvec_Linf => by_isa fvec_Linf_ref (Some fvec_Linf_sse) (Some fvec_Linf_avx) (Some fvec_Linf_avx512) None
  | fvec_norm_L2sqr => by_isa fvec_norm_L2sqr_ref (Some fvec_norm_L2sqr_sse) (Some fvec_norm_L2sqr_avx)
      (Some fvec_norm_L2sqr_avx512) None
  | fvec_L2sqr_ny => by_isa fvec_L2sqr_ny_ref (Some fvec_L2sqr_ny_sse) (Some fvec_L2sqr_ny_avx) None None
  | fvec_inner_products_ny => by_isa fvec_inner_products_ny_ref (Some fvec_inner_products_ny_sse) None None None
  | fvec_madd => by_isa (fun _ => fvec_madd_ref) (Some fvec_madd_sse) (Some (fun _ => fvec_madd_avx))
      (Some (fun _ => fvec_madd_avx512)) None
  | fvec_madd_and_argmin => by_isa (fun v _ => fvec_madd_and_argmin_ref v) (Some fvec_madd_and_argmin_sse) None None None
  | fvec_L2sqr_ny_nearest => by_isa fvec_L2sqr_ny_nearest_ref None (Some (fun _ => fvec_L2sqr_ny_nearest_avx)) None None
  | fvec_L2sqr_ny_nearest_y_transposed => by_isa fvec_L2sqr_ny_nearest_y_transposed_ref None None None None
  | fvec_L2sqr_ny_transposed => by_isa fvec_L2sqr_ny_transposed_ref None None None None
  | fvec_inner_product_batch_4 => by_isa fvec_inner_product_batch_4_ref None (Some fvec_inner_product_batch_4_avx)
      (Some fvec_inner_product_batch_4_avx512) None
  | fvec_L2sqr_batch_4 => by_isa fvec_L2sqr_batch_4_ref None (Some fvec_L2sqr_batch_4_avx) (Some fvec_L2sqr_batch_4_avx512) None
  | ivec_inner_product => by_isa ivec_inner_product_ref (Some ivec_inner_product_sse) (Some ivec_inner_product_avx)
      (Some ivec_inner_product_avx512) None
  | ivec_L2sqr => by_isa ivec_L2sqr_ref (Some ivec_L2sqr_sse) (Some ivec_L2sqr_avx) (Some ivec_L2sqr_avx512) None
  | fp16_vec_L2sqr => by_isa (half_L2sqr widen) None (Some (half_L2sqr_avx widen))
      (Some (fun x y => two_sums 0 widen (fun load => l2_add load x y))) None
  | fp16_vec_inner_product => by_isa (half_inner_product widen) None (Some (half_ip_avx widen))
      (Some (fun x y => one_sum 0 widen (fun load => ip_add load x y))) None
  | fp16_vec_norm_L2sqr => by_isa (norm_L2sqr widen) None (Some (half_norm_avx widen))
      (Some (fun x => two_sums 0 widen (fun load => norm_add load x))) None
  | fp16_vec_inner_product_batch_4 => by_isa (batch_4 widen ip_step) None (Some (half_batch_4_avx widen ip_lanes))
      (Some (half_batch_4_avx512 0 widen ip_lanes)) None
  | fp16_vec_L2sqr_batch_4 => by_isa (batch_4 widen l2_step) None (Some (half_batch_4_avx widen l2_lanes))
      (Some (half_batch_4_avx512 0 widen l2_lanes)) None
  | bf16_vec_L2sqr => by_isa (half_L2sqr widen) (Some (half_L2sqr_sse widen)) (Some (half_L2sqr_avx widen))
      (Some (fun x y => two_sums 0 widen (fun load => l2_add load x y))) None
  | bf16_vec_inner_product => by_isa (half_inner_product widen) (Some (half_ip_sse widen)) (Some (half_ip_avx widen))
      (Some (fun x y => two_sums 0 widen (fun load => ip_add load x y))) None
  | bf16_vec_norm_L2sqr => by_isa (norm_L2sqr widen) (Some (half_norm_sse widen)) (Some (half_norm_avx widen))
      (Some (fun x => two_sums 0 widen (fun load => norm_add load x))) None
  | bf16_vec_inner_product_batch_4 => by_isa (batch_4 widen ip_step) None (Some (half_batch_4_avx widen ip_lanes))
      (Some (half_batch_4_avx512 0 widen ip_lanes)) None
  | bf16_vec_L2sqr_batch_4 => by_isa (batch_4 widen l2_step) None (Some (half_batch_4_avx widen l2_lanes))
      (Some (half_batch_4_avx512 0 widen l2_lanes)) None
  | int8_vec_L2sqr => by_isa int8_vec_L2sqr_ref (Some int8_vec_L2sqr_sse) (Some int8_vec_L2sqr_avx) (Some int8_vec_L2sqr_avx512) None
  | int8_vec_inner_product => by_isa int8_vec_inner_product_ref (Some int8_vec_inner_product_sse)
      (Some int8_vec_inner_product_avx) (Some int8_vec_inner_product_avx512) None
  | int8_vec_norm_L2sqr => by_isa int8_vec_norm_L2sqr_ref (Some int8_vec_norm_L2sqr_sse) (Some int8_vec_norm_L2sqr_avx)
      (Some int8_vec_norm_L2sqr_avx512) None
  | int8_vec_inner_product_batch_4 => by_isa int8_vec_inner_product_batch_4_ref None
      (Some int8_vec_inner_product_batch_4_avx) (Some int8_vec_inner_product_batch_4_avx512) None
  | int8_vec_L2sqr_batch_4 => by_isa int8_vec_L2sqr_batch_4_ref None (Some int8_vec_L2sqr_batch_4_avx)
      (Some int8_vec_L2sqr_batch_4_avx512) None
  | fvec_masked_sum => by_isa fvec_masked_sum_ref (Some fvec_masked_sum_sse) (Some fvec_masked_sum_avx)
      (Some fvec_masked_sum_avx512) None
  | rabitq_dp_popcnt => by_isa rabitq_dp_popcnt_ref (Some rabitq_dp_popcnt_sse) (Some rabitq_dp_popcnt_avx)
      (Some rabitq_dp_popcnt_avx512) (Some rabitq_dp_popcnt_avx512icx)
  | u64_binary_search_eq => by_isa u64_binary_search_eq_ref None None (Some u64_binary_search_eq_avx512) None
  | u64_binary_search_ge => by_isa u64_binary_search_ge_ref None None (Some u64_binary_search_ge_avx512) None
  | calculate_hash => by_isa (calculate_hash_ref XXH3_64bits) None None (Some (calculate_hash_avx512 XXH3_64bits)) None
  | u32_jaccard_distance => by_isa u32_jaccard_distance_ref None None None None
  | u32_jaccard_distance_batch_4 => by_isa u32_jaccard_distance_batch_4_ref None None None None
  | u64_jaccard_distance => by_isa u64_jaccard_distance_ref None None None None
  | minhash_lsh_hit => by_isa minhash_lsh_hit_ref None None None None
  | u64_jaccard_distance_batch_4 => by_isa u64_jaccard_distance_batch_4_ref None None None None
  end.

(** ** The contract *)

Implicit Types x y : list Z.

(** Agreement with a reference kernel on arrays that hold what is read. *)
Definition agrees {C} (ref f : list Z -> list Z -> nat -> M C) : Prop :=
  forall x y d, (d <= length x)%nat -> (d <= length y)%nat -> f x y d = ref x y d.
Definition agrees_norm (ref f : list Z -> nat -> M Z) : Prop :=
  forall x d, (d <= length x)%nat -> f x d = ref x d.
Definition agrees_rows (ref f : list Z -> list Z -> list Z -> nat -> nat -> M (list Z)) : Prop :=
  forall dis x y d ny, (d <= length x)%nat -> (ny * d <= length y)%nat -> (ny <= length dis)%nat ->
  f dis x y d ny = ref dis x y d ny.
Definition agrees_batch (ref f : list Z -> list Z -> list Z -> list Z -> list Z -> nat -> M (Z * Z * Z * Z)) : Prop :=
  forall x y0 y1 y2 y3 d, (d <= length x)%nat -> Forall (fun p => (d <= length p)%nat) [y0; y1; y2; y3] ->
  f x y0 y1 y2 y3 d = ref x y0 y1 y2 y3 d.

(** The nearest row, when some row is closer than the largest [float].  When
    none is, row 0 may be returned instead. *)
Definition agrees_nearest (f : Z -> list Z -> list Z -> list Z -> nat -> nat -> M (list Z * nat)) : Prop :=
  forall huge dis x y d ny buf, (d <= length x)%nat -> (ny * d <= length y)%nat -> (ny <= length dis)%nat ->
  fvec_L2sqr_ny_ref dis x y d ny = Ret buf -> (forall i, (i < ny)%nat -> buf !!! i < huge) ->
  ((exists i, (i < ny)%nat /\ buf !!! i < flt_max) -> f huge dis x y d ny = fvec_L2sqr_ny_nearest_ref huge dis x y d ny) /\
  ((forall i, (i < ny)%nat -> flt_max <= buf !!! i) ->
   f huge dis x y d ny = fvec_L2sqr_ny_nearest_ref huge dis x y d ny \/ f huge dis x y d ny = Ret (buf, 0%nat)).

(** The array of the reference, and a position of a least value below the
    start, as the reference's position is one, or -1. *)
Definition agrees_argmin (f : Z -> bool -> nat -> list Z -> Z -> list Z -> list Z -> M (list Z * Z)) : Prop :=
  forall vmin0 al n a bf b c, (n <= length a)%nat -> (n <= length b)%nat -> (n <= length c)%nat -> Z.of_nat n + 8 < 2 ^ 31 ->
  exists r i j, f vmin0 al n a bf b c = Ret (r, i) /\ fvec_madd_and_argmin_ref vmin0 n a bf b c = Ret (r, j) /\
    least_index a b bf vmin0 n i /\ least_index a b bf vmin0 n j.

(** A position of the key, where the reference returns its first position, or -1. *)
Definition agrees_search_eq (f : list Z -> nat -> Z -> M Z) : Prop :=
  forall data size key, sorted_upto data size -> (size <= length data)%nat -> Z.of_nat size < 2 ^ 31 ->
  exists r q, f data size key = Ret r /\ u64_binary_search_eq_ref data size key = Ret q /\
    some_index data size key r /\ first_index (fun v => v = key) data size q.

(** What a caller may assume of the function behind each pointer. *)
Definition contract (s : slot) : sig s -> Prop :=
  match s return sig s -> Prop with
  | fvec_inner_product => agrees fvec_inner_product_ref
  | fvec_L2sqr => agrees fvec_L2sqr_ref
  | fvec_L1 => agrees fvec_L1_ref
  | fvec_Linf => fun f => forall (x y : list spec_float) d, (d <= length x)%nat -> (d <= length y)%nat ->
      Forall (fun t => is_nan t = false) (zip_with F32.sub (take d x) (take d y)) -> f x y d = fvec_Linf_ref x y d
  | fvec_norm_L2sqr => agrees_norm fvec_norm_L2sqr_ref
  | fvec_L2sqr_ny => agrees_rows fvec_L2sqr_ny_ref
  | fvec_inner_products_ny => agrees_rows fvec_inner_products_ny_ref
  | fvec_madd => fun f => forall al n a bf b c, (n <= length a)%nat -> (n <= length b)%nat -> (n <= length c)%nat ->
      f al n a bf b c = fvec_madd_ref n a bf b c
  | fvec_madd_and_argmin => agrees_argmin
  | fvec_L2sqr_ny_nearest => agrees_nearest
  | fvec_L2sqr_ny_nearest_y_transposed => fun f => f = fvec_L2sqr_ny_nearest_y_transposed_ref
  | fvec_L2sqr_ny_transposed => fun f => f = fvec_L2sqr_ny_transposed_ref
  | fvec_inner_product_batch_4 => fun f => f = fvec_inner_product_batch_4_ref
  | fvec_L2sqr_batch_4 => fun f => f = fvec_L2sqr_batch_4_ref
  | ivec_inner_product => fun f => f = ivec_inner_product_ref
  | ivec_L2sqr => fun f => f = ivec_L2sqr_ref
  | fp16_vec_L2sqr | bf16_vec_L2sqr => agrees (half_L2sqr widen)
  | fp16_vec_inner_product | bf16_vec_inner_product => agrees (half_inner_product widen)
  | fp16_vec_norm_L2sqr | bf16_vec_norm_L2sqr => agrees_norm (norm_L2sqr widen)
  | fp16_vec_inner_product_batch_4 | bf16_vec_inner_product_batch_4 => agrees_batch (batch_4 widen ip_step)
  | fp16_vec_L2sqr_batch_4 | bf16_vec_L2sqr_batch_4 => agrees_batch (batch_4 widen l2_step)
  | int8_vec_L2sqr => fun f => f = int8_vec_L2sqr_ref
  | int8_vec_inner_product => fun f => f = int8_vec_inner_product_ref
  | int8_vec_norm_L2sqr => fun f => f = int8_vec_norm_L2sqr_ref
  | int8_vec_inner_product_batch_4 => fun f => f = int8_vec_inner_product_batch_4_ref
  | int8_vec_L2sqr_batch_4 => fun f => f = int8_vec_L2sqr_batch_4_ref
  | fvec_masked_sum => fun f => forall q bits d, (d <= length q)%nat -> (d <= 8 * length bits)%nat ->
      Forall BitsetView.byte_ok bits -> f q bits d = fvec_masked_sum_ref q bits d
  | rabitq_dp_popcnt => fun f => forall q x d nb, let bytes := ((d + 7) / 8)%nat in
      (1 <= nb <= 8)%nat -> Forall BitsetView.byte_ok q -> Forall BitsetView.byte_ok x ->
      (nb * bytes <= length q)%nat -> (bytes <= length x)%nat -> (2 ^ Z.of_nat nb - 1) * Z.of_nat (8 * bytes) < 2 ^ 31 ->
      f q x d nb = rabitq_dp_popcnt_ref q x d nb
  | u64_binary_search_eq => agrees_search_eq
  | u64_binary_search_ge => fun f => forall data size key, sorted_upto data size -> (size <= length data)%nat ->
      Z.of_nat size < 2 ^ 31 -> f data size key = u64_binary_search_ge_ref data size key
  | calculate_hash => fun f => f = calculate_hash_ref XXH3_64bits
  | u32_jaccard_distance => fun f => f = u32_jaccard_distance_ref
  | u32_jaccard_distance_batch_4 => fun f => f = u32_jaccard_distance_batch_4_ref
  | u64_jaccard_distance => fun f => f = u64_jaccard_distance_ref
  | minhash_lsh_hit => fun f => f = minhash_lsh_hit_ref
  | u64_jaccard_distance_batch_4 => fun f => f = u64_jaccard_distance_batch_4_ref
  end.

(** A table that keeps the contract: every pointer names a function that
    satisfies its part. *)
Class ExactTable (t : table) : Prop :=
  exact_slot s : exists f, resolve s (t s) = Some f /\ contract s f.

End interface.

(** ** The pointer values of an x86 program *)

(** Every assignment of hook.cc that an x86 build contains. *)
Definition x86_stores : list store :=
  avx512_stores_1 ++ [rabitq_dp_popcnt ::= AVX512ICX; rabitq_dp_popcnt ::= AVX512] ++ avx512_stores_2 ++ avx2_stores ++
  sse_stores ++ generic_stores ++ patch_stores AVX512 ++ patch_stores AVX ++ patch_stores REF.

Definition x86_values (s : slot) : list kernel :=
  Plain REF :: omap (fun st : store => if decide (fst st = s) then Some (snd st) else None) x86_stores.

Definition x86_store_ok (st : store) : Prop := snd st ∈ x86_values (fst st).

Lemma x86_stores_ok l : bool_decide (Forall (fun st => st ∈ x86_stores) l) = true -> Forall x86_store_ok l.
Proof.
  intros H%bool_decide_eq_true_1. eapply Forall_impl; [exact H|]. intros [s k] Hst. apply list_elem_of_further.
  apply list_elem_of_omap. exists (s, k). split; [done|]. cbn. by rewrite decide_True.
Qed.

Lemma x86_block_ok m h : Forall x86_store_ok (stores (x86_block m h)).
Proof.
  unfold x86_block. destruct (use_avx512 h && cpu_support_avx512 m); [|destruct (use_avx2 h && cpu_support_avx2 m);
    [|destruct (use_sse4_2 h && cpu_support_sse4_2 m)]]; cbn [stores];
    [|apply x86_stores_ok; vm_compute; reflexivity..].
  unfold avx512_block. cbn [stores]. destruct (AVX512VPOPCNTDQ (read_instruction_set m));
    apply x86_stores_ok; vm_compute; reflexivity.
Qed.

Lemma patch_ok b m h : x86_only b ->
  Forall x86_store_ok (enable_stores b m h) /\ Forall x86_store_ok (disable_stores b m h).
Proof.
  intros (E1 & E2 & _). unfold enable_stores, disable_stores. rewrite E1, E2. cbn [andb]. rewrite app_nil_r.
  repeat case_match; split; apply x86_stores_ok; vm_compute; reflexivity.
Qed.

Lemma reachable_x86 b m h s : x86_only b -> reachable b m h -> ptr h s ∈ x86_values s.
Proof.
  intros Hb Hr. assert (forall g, Forall x86_store_ok (hook_stores b m g)) as Hh.
  { intros g. pose proof Hb as (E1 & E2 & E3 & E4). unfold hook_stores, block_stores, hook_blocks.
    rewrite E1, E2, E3, E4. cbn [app fmap list_fmap List.concat]. rewrite app_nil_r. apply x86_block_ok. }
  induction Hr as [|h o Hr IH].
  - unfold init_hook. rewrite fvec_hook_ptr. apply (assign_all_forall (fun s k => k ∈ x86_values s)); [left|apply Hh].
  - destruct o as [t| |]; cbn [hook_step].
    + unfold SetSimdType. rewrite fvec_hook_ptr. apply (assign_all_forall (fun s k => k ∈ x86_values s)); [|apply Hh].
      by destruct (x86_64 b), t.
    + apply (assign_all_forall (fun s k => k ∈ x86_values s)); [done|by apply patch_ok].
    + apply (assign_all_forall (fun s k => k ∈ x86_values s)); [done|by apply patch_ok].
Qed.

(** ** Each pointer satisfies its part of the contract *)

Section pointers.
Context `{HU : !Usum Z} (widen : Z -> Z) (XXH3_64bits : list Z -> Z) (Hwiden : widen 0 = 0).

Definition is_patch (k : kernel) : bool := match k with Bf16Patch _ => true | Plain _ => false end.

(** A property of the unpatched values of a slot, by cases. *)
Lemma by_values (P : kernel -> Prop) s k : k ∈ x86_values s -> is_patch k = false ->
  Forall P (filter (fun k => is_patch k = false) (remove_dups (x86_values s))) -> P k.
Proof.
  intros Hk Hp HP. rewrite Forall_forall in HP. apply HP. apply list_elem_of_filter. split; [done|].
  by apply elem_of_remove_dups.
Qed.

(** Every unpatched value a slot holds on x86 names a function that satisfies
    the contract of the slot. *)
Definition provides (s : slot) : Prop := forall k, k ∈ x86_values s -> is_patch k = false ->
  exists f, resolve widen XXH3_64bits s k = Some f /\ contract widen XXH3_64bits s f.

Ltac by_slot :=
  intros k Hk Hp; pattern k; apply (by_values _ _ _ Hk Hp);
  match goal with |- Forall _ ?l => let l' := eval vm_compute in l in change l with l' end;
  repeat apply Forall_cons_2; [..|apply Forall_nil_2]; eexists; (split; [reflexivity|]).

Lemma pair_pointers : provides fvec_inner_product /\ provides fvec_L2sqr /\ provides fvec_L1 /\ provides fvec_norm_L2sqr.
Proof.
  split_and!; by_slot; repeat intro; try reflexivity;
    rewrite ?ip_sse_value, ?l2_sse_value, ?l1_512_value, ?l1_avx_value, ?norm_sse_value, ?norm_avx_value, ?norm_512_value,
      ?fvec_norm_ref_ip by done; by rewrite ?ip_ref_value, ?l2_ref_value, ?l1_ref_value.
Qed.

Lemma linf_pointer : provides fvec_Linf.
Proof.
  by_slot; repeat intro; try reflexivity.
  - apply linf_512_value; [done|done|by apply diffs_mag].
  - apply linf_avx_value; [done|done|by apply diffs_mag].
Qed.

Lemma row_pointers : provides fvec_L2sqr_ny /\ provides fvec_inner_products_ny.
Proof.
  split; by_slot; repeat intro; first [reflexivity|by apply l2_rows_avx|by rewrite ny_sse_l2|by rewrite ny_sse_ip].
Qed.

Lemma nearest_pointer : provides fvec_L2sqr_ny_nearest.
Proof.
  by_slot; intros huge dis x y d ny buf Hx Hy Hd E Hh; [split; auto|].
  destruct (nearest_avx_max x y dis d ny Hx Hy Hd huge buf E Hh) as [H1 H2]. split; auto.
Qed.

Lemma madd_pointer : provides fvec_madd.
Proof. by_slot; repeat intro; try reflexivity. by apply madd_sse_value. Qed.

Lemma argmin_pointer : provides fvec_madd_and_argmin.
Proof.
  by_slot; intros vmin0 al n a bf b c Ha Hb Hc Hn;
    destruct (wp_elim _ _ (argmin_ref_least a b c bf vmin0 n Ha Hb Hc)) as ([q j] & Eq & Hq & Hj).
  - destruct (wp_elim _ _ (argmin_sse_least a b c bf vmin0 n Ha Hb Hc Hn al)) as ([r i] & -> & Hr & Hi).
    exists r, i, j. rewrite Eq. unfold filled in *. by subst.
  - exists q, j, j. by rewrite Eq.
Qed.

Lemma half_pointers_pair :
  (provides fp16_vec_inner_product /\ provides fp16_vec_L2sqr) /\ (provides bf16_vec_inner_product /\ provides bf16_vec_L2sqr).
Proof.
  split_and!; by_slot; intros x y d Hx Hy; try reflexivity; rewrite ?half_ip_loaded, ?half_l2_loaded;
    by apply (x86_half_kernels_match_reference widen x y [] [] [] [] d Hwiden Hx).
Qed.

Lemma half_pointers_norm : provides fp16_vec_norm_L2sqr /\ provides bf16_vec_norm_L2sqr.
Proof.
  split; by_slot; intros x d Hx; try reflexivity; rewrite norm_ref_ip;
    apply (x86_half_kernels_match_reference widen x [] [] [] [] [] d Hwiden Hx).
Qed.

Lemma half_pointers_batch :
  (provides fp16_vec_inner_product_batch_4 /\ provides fp16_vec_L2sqr_batch_4) /\
  (provides bf16_vec_inner_product_batch_4 /\ provides bf16_vec_L2sqr_batch_4).
Proof.
  split_and!; by_slot; intros x y0 y1 y2 y3 d Hx Hy; try reflexivity; rewrite batch_loaded;
    by apply (x86_half_kernels_match_reference widen x [] y0 y1 y2 y3 d Hwiden Hx).
Qed.

Lemma masked_sum_pointer : provides fvec_masked_sum.
Proof. by_slot; repeat intro; try reflexivity; by rewrite ?masked_sum_value, ?masked_sum_512_value. Qed.

Lemma rabitq_pointer : provides rabitq_dp_popcnt.
Proof. by_slot; repeat intro; first [reflexivity|by apply rabitq_icx_value]. Qed.

Lemma search_pointers : provides u64_binary_search_ge /\ provides u64_binary_search_eq.
Proof.
  split; by_slot; [by repeat intro|repeat intro; by apply search_ge_avx512_ref|..]; intros data size key Hs Hl Hm;
    destruct (search_refs_first data size key Hs Hl Hm) as [_ (q & Eq & Hq)].
  - exists q, q. rewrite Eq. split_and!; [done..| |done]. destruct Hq as [Hq|(Hq1 & Hq2 & _)]; [by left|by right].
  - destruct (search_eq_avx512_index data size key Hs Hl Hm) as (r & -> & Hr). by exists r, q.
Qed.

Lemma all_provided s : provides s.
Proof.
  destruct pair_pointers as (? & ? & ? & ?), row_pointers, half_pointers_pair as [[] []], half_pointers_norm,
    half_pointers_batch as [[] []], search_pointers.
  pose proof linf_pointer. pose proof nearest_pointer. pose proof madd_pointer. pose proof argmin_pointer.
  pose proof masked_sum_pointer. pose proof rabitq_pointer.
  destruct s; lazymatch goal with
    | H : provides ?s |- provides ?s => exact H
    | |- _ => by_slot; first [reflexivity|by repeat intro]
    end.
Qed.

End pointers.

(** C28: in every state an x86 program can reach and in which no pointer is
    patched, each of the 41 pointers names a kernel that keeps the contract of
    its slot, whichever instruction sets the pointers were bound for, also when
    kernels of different instruction sets are mixed.  With sums and products
    exact (whatever the order of the AVX-512 reductions, for any conversion of
    the 16-bit elements that maps 0 to 0 and any hash function) that is the
    result of the scalar reference kernel, with three exceptions: the
    multiply-add with argmin writes the reference's array and returns a position
    of a least value, the search for an equal key returns a position of the key,
    where the reference returns the first one, and the nearest row is the
    reference's unless no row is closer than the largest [float], when it may be
    row 0. *)
Theorem dispatched_kernels_exact `{HU : !Usum Z} (widen : Z -> Z) (XXH3_64bits : list Z -> Z)
    (b : build) (m : machine) (h : hooks) :
  widen 0 = 0 -> x86_only b -> reachable b m h -> (forall s, is_patch (ptr h s) = false) ->
  ExactTable widen XXH3_64bits (ptr h).
Proof. intros Hw Hb Hr Hp s. apply all_provided; [done|by eapply reachable_x86|done]. Qed.

Lemma dispatched_kernels_exact_witness :
  let h := fst (SetSimdType x86_build icx_machine (init_hook x86_build icx_machine) TSSE4_2) in
  ptr h fvec_L2sqr = Plain SSE /\ ptr h u64_binary_search_ge = Plain AVX512 /\
  (exists f, resolve (fun v => v) (fun _ => 0) fvec_L2sqr (ptr h fvec_L2sqr) = Some f /\ f [1; 2; 3] [4; 0; 6] 3%nat = Ret 22) /\
  (exists f, resolve (fun v => v) (fun _ => 0) bf16_vec_norm_L2sqr (ptr h bf16_vec_norm_L2sqr) = Some f /\ f [1; 2; 3] 3%nat = Ret 14).
Proof.
  intros h.
  assert (ExactTable (fun v => v) (fun _ => 0) (ptr h)) as Ht.
  { apply (dispatched_kernels_exact (fun v => v) (fun _ => 0) x86_build icx_machine h eq_refl ltac:(repeat split)
      (reachable_step x86_build icx_machine (init_hook x86_build icx_machine) (OpSetSimdType TSSE4_2)
        (reachable_init x86_build icx_machine))).
    intros []; vm_compute; reflexivity. }
  split; [vm_compute; reflexivity|]. split; [vm_compute; reflexivity|]. split.
  - destruct (Ht fvec_L2sqr) as (f & E & Hf). exists f. split; [exact E|]. rewrite (Hf [1; 2; 3] [4; 0; 6] 3%nat); [reflexivity|simpl; lia..].
  - destruct (Ht bf16_vec_norm_L2sqr) as (f & E & Hf). exists f. split; [exact E|]. rewrite (Hf [1; 2; 3] 3%nat); [reflexivity|simpl; lia].
Defined.
