(* ===== verification/RangeUtil.v ===== *)
(** * Range-search results (include/knowhere/range_util.h, src/common/range_util.cc)

    Filtering the hits of one query in place, and packing the hits of all
    queries into flat arrays with limits. *)

From S2P Require Import Prelude Float Num.

Section range.
Context {A : Type} `{!Num A}.
Implicit Types dist radius range_filter : A.

Definition distance_in_range dist radius range_filter (is_ip : bool) : bool :=
  (is_ip && nltb radius dist && nleb dist range_filter) ||
  (negb is_ip && nleb range_filter dist && nltb dist radius).

(** [KNOWHERE_THROW_IF_NOT_FMT]: the formatted numbers are left out of the text. *)
Definition FilterRangeSearchResultForOneNq (distances : list A) (labels : list Z) (is_ip : bool)
    radius range_filter : M (list A * list Z) :=
  let* _ := require (length distances =? length labels) "distances' size not equal to labels' size" in
  let* (distances, labels, valid_cnt) := foldM (fun (st : list A * list Z * nat) i =>
      let '(distances, labels, valid_cnt) := st in
      let* dist := vget distances i in
      let* id := vget labels i in
      if distance_in_range dist radius range_filter is_ip then
        let* distances := vset distances valid_cnt dist in
        let* labels := vset labels valid_cnt id in
        Ret (distances, labels, valid_cnt + 1)
      else Ret st)
    (distances, labels, 0) (seq 0 (length distances)) in
  if negb (valid_cnt =? length distances) then Ret (take valid_cnt distances, take valid_cnt labels)
  else Ret (distances, labels).

(** A null pointer is [None]. *)
Record RangeSearchResult := mkRangeResult {
  rr_distances : option (list A);
  rr_labels : option (list Z);
  rr_lims : list nat
}.

(** [std::copy_n(src.data(), n, dst + at)]. *)
Definition copy_n {B} (src : list B) (n : nat) (dst : list B) (at_ : nat) : M (list B) :=
  memcpy dst at_ src 0 n.

(** [make_unique<T[]>] value-initialises. *)
Definition GetRangeSearchResult (result_distances : list (list A)) (result_labels : list (list Z))
    (nq : nat) : M RangeSearchResult :=
  let* _ := require (length result_distances =? nq) "result distances size not equal to nq" in
  let* _ := require (length result_labels =? nq) "result labels size not equal to nq" in
  let* lims := foldM (fun lims i =>
      let* li := vget lims i in
      let* ds := vget result_distances i in
      vset lims (i + 1) (li + length ds))
    (replicate (nq + 1) 0) (seq 0 nq) in
  let* total_valid := vget lims nq in
  if total_valid =? 0 then Ret (mkRangeResult None None lims)
  else
    let* (distances, labels) := foldM (fun (st : list A * list Z) i =>
        let '(distances, labels) := st in
        let* li := vget lims i in
        let* li' := vget lims (i + 1) in
        let* ds := vget result_distances i in
        let* ls := vget result_labels i in
        let* distances := copy_n ds (li' - li) distances li in
        let* labels := copy_n ls (li' - li) labels li in
        Ret (distances, labels))
      (replicate total_valid nzero, replicate total_valid 0%Z) (seq 0 nq) in
    Ret (mkRangeResult (Some distances) (Some labels) lims).

End range.
Arguments RangeSearchResult A : clear implicits.

(** ** In-place compaction *)

Section compaction.
Context {A : Type} `{!Num A}.

(** The pairs kept. *)
Definition kept (radius range_filter : A) (is_ip : bool) (l : list (A * Z)) : list (A * Z) :=
  List.filter (fun p => distance_in_range (fst p) radius range_filter is_ip) l.

Lemma vset_split {B} (pre : list B) x rest v : vset (pre ++ x :: rest) (length pre) v = Ret (pre ++ v :: rest).
Proof.
  unfold vset. rewrite decide_True by (rewrite length_app; simpl; lia).
  by rewrite insert_next, <- app_assoc.
Qed.

(** The state after [i] steps: the kept pairs, junk up to [i], the untouched rest. *)
Lemma compact_step {B C} (p : B * C -> bool) (l : list (B * C)) i b c ds ls cnt :
  l !! i = Some (b, c) ->
  length ds = i -> length ls = i -> cnt <= i ->
  take cnt ds = (List.filter p (take i l)).*1 -> take cnt ls = (List.filter p (take i l)).*2 ->
  cnt = length (List.filter p (take i l)) ->
  exists ds' ls', length ds' = S i /\ length ls' = S i /\
    (if p (b, c) then
      vset (ds ++ (drop i l).*1) cnt b = Ret (ds' ++ (drop (S i) l).*1) /\
      vset (ls ++ (drop i l).*2) cnt c = Ret (ls' ++ (drop (S i) l).*2)
     else ds ++ (drop i l).*1 = ds' ++ (drop (S i) l).*1 /\ ls ++ (drop i l).*2 = ls' ++ (drop (S i) l).*2) /\
    let cnt' := if p (b, c) then cnt + 1 else cnt in
    take cnt' ds' = (List.filter p (take (S i) l)).*1 /\ take cnt' ls' = (List.filter p (take (S i) l)).*2 /\
    cnt' = length (List.filter p (take (S i) l)).
Proof.
  intros Hi Hds Hls Hc Ht1 Ht2 Hcnt. rewrite (drop_S _ _ _ Hi), (take_S_r _ _ _ Hi), List.filter_app.
  cbn [fmap list_fmap fst snd]. rewrite !fmap_app, length_app. cbn [List.filter].
  destruct (p (b, c)); cbn [fmap list_fmap fst snd length].
  - exists (<[cnt := b]> (ds ++ [b])), (<[cnt := c]> (ls ++ [c])). rewrite !length_insert, !length_app. simpl.
    assert (forall (T : Type) (u : list T) v rest, length u = i ->
      vset (u ++ v :: rest) cnt v = Ret (<[cnt := v]> (u ++ [v]) ++ rest)) as Hset.
    { intros T u v rest Hu. unfold vset. rewrite decide_True by (rewrite length_app; simpl; lia). f_equal.
      rewrite <- insert_app_l by (rewrite length_app; simpl; lia). by rewrite <- app_assoc. }
    assert (forall (T : Type) (u : list T) v, length u = i -> take (cnt + 1) (<[cnt := v]> (u ++ [v])) = take cnt u ++ [v]) as Htk.
    { intros T u v Hu. rewrite Nat.add_1_r. rewrite (take_S_r _ _ v).
      - rewrite take_insert_ge by lia. rewrite take_app_le by lia. done.
      - apply list_lookup_insert_eq. rewrite length_app. simpl. lia. }
    split_and!; try lia; [by apply Hset|by apply Hset|rewrite Htk by done; by rewrite Ht1|rewrite Htk by done; by rewrite Ht2].
  - exists (ds ++ [b]), (ls ++ [c]). rewrite !length_app, !app_nil_r. simpl.
    split_and!; try lia; first [by rewrite <- app_assoc|by rewrite take_app_le by lia].
Qed.

(** filtering one query's hits in place keeps exactly the pairs whose
    distance is in the range, in their order; vectors of different lengths are
    rejected. *)
Theorem range_filter_keeps_in_range (distances : list A) (labels : list Z) is_ip radius range_filter :
  (length distances = length labels ->
   FilterRangeSearchResultForOneNq distances labels is_ip radius range_filter =
     Ret ((kept radius range_filter is_ip (zip distances labels)).*1,
          (kept radius range_filter is_ip (zip distances labels)).*2)) /\
  (length distances <> length labels ->
   exists e, FilterRangeSearchResultForOneNq distances labels is_ip radius range_filter = Throw e).
Proof.
  split.
  - intros Hlen. set (l := zip distances labels). set (p := fun q : A * Z => distance_in_range (fst q) radius range_filter is_ip).
    assert (distances = l.*1 /\ labels = l.*2) as [Hd Hl].
    { unfold l. by rewrite fst_zip, snd_zip by lia. }
    assert (length l = length distances) as Hll by (by rewrite Hd, length_fmap).
    match goal with |- ?m = Ret ?r => assert (wp m (fun d => d = r)) as H; [|by apply wp_elim in H as (? & -> & ->)] end.
    unfold FilterRangeSearchResultForOneNq. rewrite (proj2 (Nat.eqb_eq _ _)) by done. cbn [require bind].
    apply wp_bind. apply (wp_for _ (fun i '(D, L, cnt) => exists ds ls, D = ds ++ (drop i l).*1 /\ L = ls ++ (drop i l).*2 /\
      length ds = i /\ length ls = i /\ take cnt ds = (List.filter p (take i l)).*1 /\
      take cnt ls = (List.filter p (take i l)).*2 /\ cnt = length (List.filter p (take i l)))).
    + exists [], []. by rewrite drop_0.
    + intros i [[D L] cnt] Hi (ds & ls & -> & -> & Hds & Hls & Ht1 & Ht2 & Hcnt).
      destruct (lookup_lt_is_Some_2 l i ltac:(lia)) as [[b c] Hbc].
      assert (cnt <= i) as Hc.
      { rewrite Hcnt. pose proof (List.filter_length_le p (take i l)). rewrite length_take in *. lia. }
      destruct (compact_step p l i b c ds ls cnt) as (ds' & ls' & Hds' & Hls' & Hset & Hr1 & Hr2 & Hr3); try done.
      assert (vget (ds ++ (drop i l).*1) i = Ret b /\ vget (ls ++ (drop i l).*2) i = Ret c) as [-> ->].
      { rewrite !vget_Ret, (drop_S _ _ _ Hbc). cbn [fmap list_fmap fst snd].
        rewrite <- Hds at 2. rewrite <- Hls at 2. by rewrite !list_lookup_middle. }
      cbn [bind]. fold (p (b, c)). replace (i + 1) with (S i) by lia.
      change (distance_in_range b radius range_filter is_ip) with (p (b, c)).
      destruct (p (b, c)).
      * destruct Hset as [-> ->]. cbn [bind wp]. exists ds', ls'. by split_and!.
      * destruct Hset as [-> ->]. cbn [wp]. exists ds', ls'. by split_and!.
    + intros [[D L] cnt] (ds & ls & HD & HL & Hds & Hls & Ht1 & Ht2 & Hcnt).
      rewrite Nat.add_0_l, <- Hll, drop_all in *. rewrite app_nil_r in *. subst D L.
      rewrite (take_ge l) in Ht1, Ht2, Hcnt by lia. unfold kept. fold p.
      destruct (Nat.eqb_spec cnt (length ds)) as [He|Hne]; cbn [negb].
      * rewrite take_ge in Ht1 by lia. rewrite take_ge in Ht2 by lia. simpl. by rewrite Ht1, Ht2.
      * simpl. by rewrite Ht1, Ht2.
  - intros Hne. unfold FilterRangeSearchResultForOneNq. rewrite (proj2 (Nat.eqb_neq _ _)) by done. by eexists.
Qed.

End compaction.

Lemma range_filter_keeps_in_range_witness :
  FilterRangeSearchResultForOneNq [3; 9; 5; 1]%Z [30; 90; 50; 10]%Z true 2%Z 5%Z = Ret ([3; 5]%Z, [30; 50]%Z).
Proof. rewrite (proj1 (range_filter_keeps_in_range [3; 9; 5; 1]%Z [30; 90; 50; 10]%Z true 2%Z 5%Z) eq_refl). reflexivity. Defined.

(** ** Packing *)

Section packing.
Context {A : Type} `{!Num A}.

(** The running totals of [lens] from [a] on. *)
Fixpoint totals (a : nat) (lens : list nat) : list nat :=
  a :: match lens with [] => [] | n :: lens => totals (a + n) lens end.

Lemma totals_lookup a lens i : i <= length lens -> totals a lens !! i = Some (a + sum_list (take i lens)).
Proof.
  revert a i. induction lens as [|n lens IH]; intros a i Hi; destruct i as [|i]; simpl in *; try lia.
  - f_equal. lia.
  - f_equal. lia.
  - rewrite IH by lia. f_equal. lia.
Qed.

Lemma length_totals a lens : length (totals a lens) = S (length lens).
Proof. revert a. induction lens as [|n lens IH]; intros a; simpl; [done|]. by rewrite IH. Qed.

Lemma totals_snoc a lens n : totals a (lens ++ [n]) = totals a lens ++ [a + sum_list lens + n].
Proof. revert a. induction lens as [|m lens IH]; intros a; simpl; [do 2 f_equal; lia|]. rewrite IH. do 3 f_equal. lia. Qed.

Lemma length_concat_sum {B} (ls : list (list B)) : length (concat ls) = sum_list (length <$> ls).
Proof. induction ls as [|l ls IH]; [done|]. cbn [concat fmap list_fmap sum_list_with]. by rewrite length_app, IH. Qed.

(** The limits loop. *)
Lemma lims_spec {B} (rs : list (list B)) :
  foldM (fun lims i =>
      let* li := vget lims i in
      let* ds := vget rs i in
      vset lims (i + 1) (li + length ds)) (replicate (length rs + 1) 0) (seq 0 (length rs)) =
  Ret (totals 0 (length <$> rs)).
Proof.
  match goal with |- ?m = Ret ?r => assert (wp m (fun d => d = r)) as H; [|by apply wp_elim in H as (? & -> & ->)] end.
  apply (wp_for _ (fun i lims => lims = totals 0 (length <$> take i rs) ++ replicate (length rs - i) 0)).
  - rewrite Nat.add_1_r, Nat.sub_0_r. done.
  - intros i lims Hi ->. destruct (lookup_lt_is_Some_2 rs i ltac:(lia)) as [ds Hds].
    assert (length (length <$> take i rs) = i) as Hl by (rewrite length_fmap, length_take; lia).
    assert (length (totals 0 (length <$> take i rs)) = S i) as Hlt by (by rewrite length_totals, Hl).
    assert (vget (totals 0 (length <$> take i rs) ++ replicate (length rs - i) 0) i =
      Ret (0 + sum_list (length <$> take i rs))) as ->.
    { apply vget_Ret. rewrite lookup_app_l by lia. rewrite totals_lookup by lia. by rewrite take_ge by lia. }
    rewrite (proj2 (vget_Ret _ _ _) Hds). cbn [bind].
    replace (length rs - i) with (S (length rs - (i + 1))) by lia. cbn [replicate].
    set (tot := totals 0 (length <$> take i rs)) in *.
    assert (forall v rest, vset (tot ++ 0 :: rest) (i + 1) v = Ret (tot ++ v :: rest)) as ->.
    { intros v rest. rewrite <- (vset_split tot 0). f_equal. lia. }
    cbn [wp]. unfold tot.
    rewrite Nat.add_1_r, (take_S_r _ _ _ Hds), fmap_app. cbn [fmap list_fmap]. rewrite totals_snoc, <- app_assoc.
    cbn [app]. by rewrite <- Nat.add_1_r.
  - intros lims ->. rewrite Nat.add_0_l, Nat.sub_diag, take_ge by lia. cbn [replicate]. by rewrite app_nil_r.
Qed.

(** Copying part [i] behind the first [i] parts. *)
Lemma copy_part {B} (ls : list (list B)) i l n (z : B) : ls !! i = Some l -> n = length (concat ls) ->
  memcpy (concat (take i ls) ++ replicate (n - length (concat (take i ls))) z) (length (concat (take i ls))) l 0 (length l) =
  Ret (concat (take (S i) ls) ++ replicate (n - length (concat (take (S i) ls))) z).
Proof.
  intros Hi ->. set (done_ := concat (take i ls)).
  assert (concat (take (S i) ls) = done_ ++ l) as Hnext.
  { by rewrite (take_S_r _ _ _ Hi), concat_app; simpl; rewrite app_nil_r. }
  assert (length done_ + length l <= length (concat ls)) as Hfit.
  { rewrite <- (take_drop (S i) ls), concat_app, Hnext, !length_app. lia. }
  rewrite Hnext. set (m := length (concat ls) - length done_).
  match goal with |- ?m = Ret ?r => assert (wp m (fun d => d = r)) as H; [|by apply wp_elim in H as (? & -> & ->)] end.
  apply wp_memcpy; [rewrite length_app, length_replicate; lia|lia|].
  rewrite Nat.add_0_l, slice_all, take_app_length, drop_app_add', drop_replicate, length_app by done.
  rewrite <- app_assoc. do 3 f_equal. lia.
Qed.

(** packing copies every query's hits behind one another, with limits such
    that hits [lims i .. lims (i + 1)) are those of query [i]; with no hit at all
    the arrays are null; a wrong number of queries is rejected. *)
Theorem range_results_packed (rd : list (list A)) (rl : list (list Z)) nq :
  (length rd = nq -> length rl = nq -> length <$> rd = length <$> rl ->
   exists r, GetRangeSearchResult rd rl nq = Ret r /\ rr_lims r = totals 0 (length <$> rd) /\
     (concat rd = [] -> rr_distances r = None /\ rr_labels r = None) /\
     (concat rd <> [] -> rr_distances r = Some (concat rd) /\ rr_labels r = Some (concat rl))) /\
  (length rd <> nq \/ length rl <> nq -> exists e, GetRangeSearchResult rd rl nq = Throw e).
Proof.
  split.
  - intros Hd Hl Hlens. unfold GetRangeSearchResult. rewrite Hd, Hl, Nat.eqb_refl. cbn [require bind].
    assert (length (concat rl) = length (concat rd)) as Hcl by (by rewrite !length_concat_sum, Hlens).
    rewrite <- Hd. rewrite lims_spec. cbn [bind].
    assert (forall i, i <= length rd -> vget (totals 0 (length <$> rd)) i = Ret (length (concat (take i rd)))) as Hlim.
    { intros i Hi. apply vget_Ret. rewrite totals_lookup by (by rewrite length_fmap).
      by rewrite length_concat_sum, fmap_take. }
    rewrite Hlim, take_ge by lia. cbn [bind]. destruct (Nat.eqb_spec (length (concat rd)) 0) as [Hz|Hnz].
    { eexists. split; [done|]. apply nil_length_inv in Hz. by split_and!. }
    apply wp_elim, wp_bind.
    apply (wp_for _ (fun i '(D, L) =>
      D = concat (take i rd) ++ replicate (length (concat rd) - length (concat (take i rd))) nzero /\
      L = concat (take i rl) ++ replicate (length (concat rd) - length (concat (take i rl))) 0%Z)).
    + simpl. by rewrite Nat.sub_0_r.
    + intros i [D L] Hi [-> ->]. rewrite !Hlim by lia. cbn [bind].
      destruct (lookup_lt_is_Some_2 rd i ltac:(lia)) as [ds Hds].
      destruct (lookup_lt_is_Some_2 rl i ltac:(lia)) as [ls Hls].
      rewrite (proj2 (vget_Ret _ _ _) Hds), (proj2 (vget_Ret _ _ _) Hls). cbn [bind].
      assert (length ds = length ls) as Hdl.
      { assert ((length <$> rd) !! i = (length <$> rl) !! i) as He by (by rewrite Hlens).
        rewrite !list_lookup_fmap, Hds, Hls in He. by injection He. }
      assert (length (concat (take (i + 1) rd)) - length (concat (take i rd)) = length ds) as ->.
      { rewrite Nat.add_1_r, (take_S_r _ _ _ Hds), concat_app, length_app. simpl. rewrite app_nil_r. lia. }
      unfold copy_n. rewrite (copy_part rd i ds) by done. cbn [bind].
      assert (length (concat (take i rd)) = length (concat (take i rl))) as Hpre.
      { by rewrite !length_concat_sum, !fmap_take, Hlens. }
      rewrite Hpre, Hdl, (copy_part rl i ls) by done. cbn [bind wp]. by rewrite Nat.add_1_r.
    + intros [D L] [-> ->]. rewrite Nat.add_0_l. rewrite (take_ge rd), (take_ge rl) by lia.
      rewrite Hcl, Nat.sub_diag. cbn [replicate]. rewrite !app_nil_r. cbn [wp rr_lims rr_distances rr_labels].
      split_and!; [done| |done]. intros Hn. by rewrite Hn in Hnz.
  - intros Hne. unfold GetRangeSearchResult.
    destruct (Nat.eqb_spec (length rd) nq) as [Hd|]; cbn [require bind]; [|by eexists].
    destruct (Nat.eqb_spec (length rl) nq) as [Hl|]; cbn [require bind]; [|by eexists]. tauto.
Qed.

End packing.

Lemma range_results_packed_witness :
  exists r, GetRangeSearchResult [[5]; []; [7; 8]]%Z [[1]; []; [2; 3]]%Z 3 = Ret r /\ rr_lims r = totals 0 [1; 0; 2] /\
     (concat [[5]; []; [7; 8]]%Z = [] -> rr_distances r = None /\ rr_labels r = None) /\
     (concat [[5]; []; [7; 8]]%Z <> [] -> rr_distances r = Some [5; 7; 8]%Z /\ rr_labels r = Some [1; 2; 3]%Z).
Proof. apply (proj1 (range_results_packed [[5]; []; [7; 8]]%Z [[1]; []; [2; 3]]%Z 3)); reflexivity. Defined.
