(* ===== verification/Bloom.v ===== *)
(** * Bloom filter (include/knowhere/comp/bloomfilter.h)

    [k] consecutive positions from one multiplicative hash.  The sizes [m] and
    [k] come from logarithms in the constructor and are its arguments here; the
    probability [p] is only stored and is kept as its 64-bit pattern. *)

From S2P Require Import Prelude Float MemoryIO.

#[local] Open Scope Z_scope.

(** [char] is signed or unsigned depending on the target; an element is the list
    of its bytes. *)
Record BloomFilter := mkBloom {
  bits : list bool;
  n : nat;
  p : Z;
  m : nat;
  k : nat
}.

(** The constructor, [m0] and [k0] being the values of its two formulas. *)
Definition make_bloom (expected_elements : nat) (prob : Z) (m0 k0 : nat) : BloomFilter :=
  let m := Nat.max m0 1 in
  mkBloom (replicate m false) expected_elements prob m (Nat.max k0 1).

Section filter.
Context (char_signed : bool).
Implicit Types f : BloomFilter.

Definition multiplier : Z := 31.

(** [static_cast<size_t>(data[i])]. *)
Definition char_value (byte : Z) : Z :=
  if char_signed && (128 <=? byte) then (byte - 256) mod 2 ^ 64 else byte.

Definition hash f (data : list Z) (bucket_i : nat) : Z :=
  let result := foldl (fun result b => (result * multiplier + char_value b) mod 2 ^ 64) 0 data in
  ((result + Z.of_nat bucket_i) mod 2 ^ 64) mod Z.of_nat (m f).

(** The position of probe [i]. *)
Definition probe f (glb_hash : Z) (i : nat) : nat :=
  Z.to_nat (((glb_hash + Z.of_nat i) mod 2 ^ 64) mod Z.of_nat (m f)).

Definition set_bits f (b : list bool) : BloomFilter := mkBloom b (n f) (p f) (m f) (k f).

Definition add f (element : list Z) : M BloomFilter :=
  let glb_hash := hash f element 0 in
  let* b := foldM (fun b i => vset b (probe f glb_hash i) true) (bits f) (seq 0 (k f)) in
  Ret (set_bits f b).

Fixpoint all_set f (glb_hash : Z) (probes : list nat) : M bool :=
  match probes with
  | [] => Ret true
  | i :: probes =>
      let* bit := vget (bits f) (probe f glb_hash i) in
      if negb bit then Ret false else all_set f glb_hash probes
  end.

Definition contains f (element : list Z) : M bool := all_set f (hash f element 0) (seq 0 (k f)).

(** ** Saving and loading *)

Definition bytes_num (m : nat) : nat := ((m + 8 - 1) / 8)%nat.

Definition pack_bits f : M (list Z) :=
  foldM (fun buffer i =>
      let* bit := vget (bits f) i in
      if bit : bool then
        let* byte := vget buffer (i / 8) in
        vset buffer (i / 8) (Z.lor byte (Z.shiftl 1 (Z.of_nat (i mod 8))))
      else Ret buffer)
    (replicate (bytes_num (m f)) 0) (seq 0 (m f)).

Definition save f (w : MemoryIOWriter) : M MemoryIOWriter :=
  let* w := put u64_pod w (Z.of_nat (m f)) in
  let* w := put u32_pod w (Z.of_nat (k f)) in
  let* w := put u64_pod w (Z.of_nat (n f)) in
  let* w := put u64_pod w (p f) in
  let* buffer := pack_bits f in
  let* (w, _) := write w buffer (length buffer) 1 in
  Ret w.

(** [bits.resize(m)] and then one [push_back] per bit. *)
Definition load f (r : MemoryIOReader) : M BloomFilter :=
  let* (r, m') := read_pod (Pod0:=u64_pod) r (Z.of_nat (m f)) in
  let* (r, k') := read_pod (Pod0:=u32_pod) r (Z.of_nat (k f)) in
  let* (r, n') := read_pod (Pod0:=u64_pod) r (Z.of_nat (n f)) in
  let* (r, p') := read_pod (Pod0:=u64_pod) r (p f) in
  let m' := Z.to_nat m' in
  let b := replicate m' false in
  let* (r, data, cnt) := read r (bytes_num m') 1 in
  let buffer := if (cnt =? 1)%nat then data else replicate (bytes_num m') 0 in
  let* b := foldM (fun b i =>
      let* byte := vget buffer (i / 8) in
      Ret (b ++ [Z.testbit byte (Z.of_nat (i mod 8))])) b (seq 0 m') in
  Ret (mkBloom b (Z.to_nat n') p' m' (Z.to_nat k')).

(** ** No false negatives *)

Record bloom_ok f : Prop := {
  bo_m : (0 < m f)%nat;
  bo_k : (0 < k f)%nat;
  bo_len : (m f <= length (bits f))%nat
}.

Lemma probe_lt f h i : (0 < m f)%nat -> (probe f h i < m f)%nat.
Proof. intros Hm. unfold probe. pose proof (Z.mod_pos_bound ((h + Z.of_nat i) mod 2 ^ 64) (Z.of_nat (m f))). lia. Qed.

Lemma add_spec f e : bloom_ok f ->
  wp (add f e) (fun f' => bloom_ok f' /\ m f' = m f /\ k f' = k f /\ length (bits f') = length (bits f) /\
    (forall i, bits f !! i = Some true -> bits f' !! i = Some true) /\
    (forall i, (i < k f)%nat -> bits f' !! probe f (hash f e 0) i = Some true)).
Proof.
  intros [Hm Hk Hl]. unfold add. apply wp_bind. set (h := hash f e 0).
  apply (wp_for _ (fun i b => length b = length (bits f) /\
    (forall j, bits f !! j = Some true -> b !! j = Some true) /\
    (forall j, (j < i)%nat -> b !! probe f h j = Some true))).
  - split_and!; [done..|lia].
  - intros i b Hi (Hlen & Hold & Hnew). pose proof (probe_lt f h i Hm).
    assert (forall j, b !! j = Some true -> <[probe f h i := true]> b !! j = Some true) as Hkeep.
    { intros j Hj. destruct (decide (probe f h i = j)) as [->|]; [|by rewrite list_lookup_insert_ne].
      apply list_lookup_insert_eq. by apply lookup_lt_Some in Hj. }
    apply wp_vset; [lia|]. split_and!; [by rewrite length_insert|auto|].
    intros j Hj. destruct (decide (j = i)) as [->|].
    + apply list_lookup_insert_eq. lia.
    + apply Hkeep, Hnew. lia.
  - intros b (Hlen & Hold & Hnew). cbn [wp]. unfold set_bits. simpl. split_and!; [by split; simpl; lia|done..|].
    intros i Hi. apply Hnew. lia.
Qed.

(** [e] is in the filter: all its positions are set. *)
Definition holds f e : Prop := forall i, (i < k f)%nat -> bits f !! probe f (hash f e 0) i = Some true.

Lemma holds_contains f e : holds f e -> contains f e = Ret true.
Proof.
  intros H. unfold contains. assert (Forall (fun i => (i < k f)%nat) (seq 0 (k f))) as Hs.
  { apply Forall_forall. intros i Hi%elem_of_seq. lia. }
  induction Hs as [|i probes Hi His IH]; [done|]. cbn [all_set].
  rewrite (proj2 (vget_Ret _ _ _) (H i Hi)). exact IH.
Qed.

Lemma add_holds f e e' f' : bloom_ok f -> add f e = Ret f' -> holds f e' -> holds f' e'.
Proof.
  intros Hok Ha Hh i Hi. pose proof (add_spec f e Hok) as Hs. rewrite Ha in Hs. cbn [wp] in Hs.
  destruct Hs as (_ & Hm & Hk & _ & Hold & _). unfold holds, probe, hash in *. rewrite Hm, Hk in *. auto.
Qed.

(** a filter has no false negatives: after adding any elements to a new
    filter, of whatever size, [contains] answers true for each of them. *)
Theorem bloom_no_false_negatives n0 p0 m0 k0 (elements : list (list Z)) :
  exists f, foldM add (make_bloom n0 p0 m0 k0) elements = Ret f /\
    forall e, e ∈ elements -> contains f e = Ret true.
Proof.
  assert (wp (foldM add (make_bloom n0 p0 m0 k0) elements)
    (fun f => forall e, e ∈ elements -> contains f e = Ret true)) as H; [|by apply wp_elim in H].
  apply (wp_foldM _ (fun pre f => bloom_ok f /\ forall e, e ∈ pre -> holds f e)).
  - split; [|intros e He; by apply elem_of_nil in He]. unfold make_bloom. split; cbn [m k bits]; [lia..|].
    rewrite length_replicate. lia.
  - intros pre e post f _ [Hok Hin]. pose proof (add_spec f e Hok) as Hs.
    destruct (wp_elim _ _ Hs) as (f' & Ha & Hok' & Hm & Hk & _ & _ & Hnew). rewrite Ha. cbn [wp].
    split; [done|]. intros e' [He'|He'%list_elem_of_singleton]%elem_of_app.
    + by apply (add_holds f e e' f' Hok Ha), Hin.
    + subst e'. intros i Hi. unfold holds, probe, hash in *. rewrite Hm, Hk in *. by apply Hnew.
  - intros f [_ Hin] e He. by apply holds_contains, Hin.
Qed.

(** ** Loading *)

Lemma pack_bits_spec f : length (bits f) = m f -> wp (pack_bits f) (fun buf => length buf = bytes_num (m f)).
Proof.
  intros Hl. unfold pack_bits. apply (wp_for _ (fun _ buf => length buf = bytes_num (m f))); [apply length_replicate| |done].
  intros i buf Hi Hbuf. apply wp_bind, wp_vget; [lia|]. intros [] _; [|done].
  assert (i / 8 < bytes_num (m f))%nat as Hb.
  { unfold bytes_num. apply Nat.Div0.div_lt_upper_bound.
    pose proof (Nat.div_mod_eq (m f + 8 - 1) 8). pose proof (Nat.mod_upper_bound (m f + 8 - 1) 8). lia. }
  apply wp_bind, wp_vget; [lia|]. intros byte _. apply wp_vset; [lia|]. by rewrite length_insert.
Qed.

Lemma bytes_num_pos x : (0 < x)%nat -> (0 < bytes_num x)%nat.
Proof. intros H. unfold bytes_num. apply Nat.div_str_pos. lia. Qed.

(** A filter whose first [m] bits are clear contains nothing. *)
Lemma clear_contains_nothing f e : (0 < m f)%nat -> (0 < k f)%nat ->
  (forall i, (i < m f)%nat -> bits f !! i = Some false) -> contains f e = Ret false.
Proof.
  intros Hm Hk Hb. unfold contains. destruct (k f) as [|k']; [lia|]. cbn [seq all_set].
  by rewrite (proj2 (vget_Ret _ _ _) (Hb _ (probe_lt f _ 0 Hm))).
Qed.

Lemma push_bits (g : nat -> M Z) (h : Z -> nat -> bool) b0 len : (forall i, (i < len)%nat -> exists v, g i = Ret v) ->
  wp (foldM (fun b i => let* v := g i in Ret (b ++ [h v i])) b0 (seq 0 len))
     (fun b => exists tl, b = b0 ++ tl /\ length tl = len).
Proof.
  intros Hg. apply (wp_for _ (fun i b => exists tl, b = b0 ++ tl /\ length tl = i)).
  - exists []. by rewrite app_nil_r.
  - intros i b Hi (tl & -> & Hl). destruct (Hg i ltac:(lia)) as [v ->]. cbn [bind wp].
    exists (tl ++ [h v i]). rewrite app_assoc, length_app. simpl. split; [done|lia].
  - done.
Qed.

(** loading resizes the bit vector to [m] clear bits and then appends the
    stored ones, so a loaded filter has [2 m] bits of which only the first,
    clear half is consulted: it contains nothing, whatever was saved. *)
Theorem loaded_bloom_contains_nothing f g e : bloom_ok f -> length (bits f) = m f ->
  Z.of_nat (m f) < 2 ^ 64 -> Z.of_nat (k f) < 2 ^ 32 -> Z.of_nat (n f) < 2 ^ 64 -> 0 <= p f < 2 ^ 64 ->
  exists w f', save f new_writer = Ret w /\ load g (new_reader (written w)) = Ret f' /\
    length (bits f') = (2 * m f)%nat /\ contains f' e = Ret false.
Proof.
  intros [Hm Hk _] Hl Hm' Hk' Hn' Hp'.
  destruct (wp_elim _ _ (pack_bits_spec f Hl)) as (buf & Hbuf & Hlen).
  assert (wp (save f new_writer) (has_written
    (pod_enc (Pod:=u64_pod) (Z.of_nat (m f)) ++ pod_enc (Pod:=u32_pod) (Z.of_nat (k f)) ++
     pod_enc (Pod:=u64_pod) (Z.of_nat (n f)) ++ pod_enc (Pod:=u64_pod) (p f) ++ buf))) as Hs.
  { unfold save. assert (has_written [] new_writer) as H0 by (split; [apply new_writer_ok|done]).
    do 4 (eapply wp_written; [by eapply put_spec|]; clear H0; intros ? H0). rewrite Hbuf. cbn [bind].
    apply wp_bind. destruct H0 as [Hok Hw]. eapply wp_mono; [apply write_spec; [done|lia]|].
    intros [w' ?] (Hok' & _ & Hw'). split; [done|]. by rewrite Hw', Hw, <- !app_assoc. }
  destruct (wp_elim _ _ Hs) as (w & Hw & _ & Hfile). exists w.
  set (file := written w) in *. set (r := new_reader file).
  assert (reads file r) as Hr by done.
  assert (at_pos file (rrp r) file) as Hat by (exists [], []; by rewrite app_nil_r). rewrite Hfile in Hat at 2.
  apply at_pos_app in Hat as [Hat1 Hat]. apply at_pos_app in Hat as [Hat2 Hat].
  apply at_pos_app in Hat as [Hat3 Hat]. apply at_pos_app in Hat as [Hat4 Hat5]. rewrite !pod_length in *.
  assert (wp (load g r) (fun f' => m f' = m f /\ k f' = k f /\ exists tl, bits f' = replicate (m f) false ++ tl /\ length tl = m f)) as Hload.
  { unfold load.
    rewrite (read_pod_at file _ (Z.of_nat (m f))) by (try done; cbn [pod_valid u64_pod]; lia). cbn [bind].
    rewrite (read_pod_at file _ (Z.of_nat (k f))) by (try done; cbn [pod_valid u32_pod]; lia). cbn [bind].
    rewrite (read_pod_at file _ (Z.of_nat (n f))) by (try done; cbn [pod_valid u64_pod]; lia). cbn [bind].
    rewrite (read_pod_at file _ (p f)) by done. cbn [bind]. rewrite !Nat2Z.id.
    rewrite (read_bytes_at file _ buf) by (try done; by apply bytes_num_pos). cbn [bind Nat.eqb].
    apply wp_bind. eapply wp_mono; [apply (push_bits (fun i => vget buf (i / 8)) (fun byte i => Z.testbit byte (Z.of_nat (i mod 8))))|].
    - intros i Hi. destruct (lookup_lt_is_Some_2 buf (i / 8)) as [byte Hbyte].
      + rewrite Hlen. unfold bytes_num. apply Nat.Div0.div_lt_upper_bound.
        pose proof (Nat.div_mod_eq (m f + 8 - 1) 8). pose proof (Nat.mod_upper_bound (m f + 8 - 1) 8). lia.
      + rewrite (proj2 (vget_Ret _ _ _) Hbyte). by eexists.
    - intros b (tl & -> & Htl). cbn [wp m k bits]. split_and!; [done..|]. by exists tl. }
  destruct (wp_elim _ _ Hload) as (f' & Hf' & Hm'' & Hk'' & tl & Hb & Htl).
  exists f'. split_and!; [done|done| |].
  - rewrite Hb, length_app, length_replicate. lia.
  - apply clear_contains_nothing; [lia..|]. intros i Hi. rewrite Hb, lookup_app_l by (rewrite length_replicate; lia).
    apply lookup_replicate_2. lia.
Qed.

End filter.

Lemma loaded_bloom_contains_nothing_witness :
  exists w f', save (mkBloom [true; true; true] 3 0 3 2) new_writer = Ret w /\
    load (make_bloom 1 0 1 1) (new_reader (written w)) = Ret f' /\
    length (bits f') = 6%nat /\ contains false f' [7] = Ret false.
Proof.
  apply (loaded_bloom_contains_nothing false (mkBloom [true; true; true] 3 0 3 2) (make_bloom 1 0 1 1) [7]);
    [split; simpl; lia | reflexivity | simpl; lia | simpl; lia | simpl; lia | simpl; lia].
Defined.
