(* ===== verification/RwLock.v ===== *)
(** * Fair readers-writer lock (include/knowhere/comp/rw_lock.h)

    Every method body runs under the mutex and is one atomic step, except that
    [wait] releases the mutex: a thread whose predicate is false sleeps on its
    condition variable until it is notified, and then evaluates the predicate
    again.  Threads that are neither in a method nor hold the lock are absent
    from the thread map.  [notify_one] wakes an arbitrary sleeping thread. *)

From S2P Require Import Prelude.

(** Where a thread is: asleep (or notified, [awake = true]) in [LockRead] or
    [LockWrite] with its ticket, or holding the lock. *)
Inductive act :=
  | WaitRead (id : nat) (awake : bool)
  | Reading
  | WaitWrite (id : nat) (awake : bool)
  | Writing (id : nat).

#[export] Instance act_eq_dec : EqDecision act.
Proof. solve_decision. Defined.

Record FairRWLock := mkLock {
  id_counter : nat;
  readers : nat;
  writer : bool;
  write_requests : list nat;
  threads : gmap nat act
}.

Definition new_lock : FairRWLock := mkLock 0 0 false [] ∅.

(** The two predicates. *)
Definition may_read (s : FairRWLock) (id : nat) : bool :=
  negb (writer s) && match write_requests s with [] => true | f :: _ => id <? f end.

Definition may_write (s : FairRWLock) (id : nat) : bool :=
  negb (writer s) && (readers s =? 0) && match write_requests s with [] => false | f :: _ => f =? id end.

(** The predicate loop of [read_cv_.wait]: go on, or sleep (again). *)
Definition try_read (s : FairRWLock) (t id : nat) : FairRWLock :=
  if may_read s id then
    mkLock (id_counter s) (readers s + 1) (writer s) (write_requests s) (<[t := Reading]> (threads s))
  else
    mkLock (id_counter s) (readers s) (writer s) (write_requests s) (<[t := WaitRead id false]> (threads s)).

Definition try_write (s : FairRWLock) (t id : nat) : FairRWLock :=
  if may_write s id then
    mkLock (id_counter s) (readers s) true (write_requests s) (<[t := Writing id]> (threads s))
  else
    mkLock (id_counter s) (readers s) (writer s) (write_requests s) (<[t := WaitWrite id false]> (threads s)).

Definition LockRead (s : FairRWLock) (t : nat) : FairRWLock :=
  let id := id_counter s in
  try_read (mkLock (id_counter s + 1) (readers s) (writer s) (write_requests s) (threads s)) t id.

Definition LockWrite (s : FairRWLock) (t : nat) : FairRWLock :=
  let id := id_counter s in
  try_write (mkLock (id_counter s + 1) (readers s) (writer s) (write_requests s ++ [id]) (threads s)) t id.

Definition wake (a : act) : act :=
  match a with
  | WaitRead id _ => WaitRead id true
  | WaitWrite id _ => WaitWrite id true
  | _ => a
  end.

(** [read_cv_.notify_all()]. *)
Definition notify_readers (s : FairRWLock) : FairRWLock :=
  mkLock (id_counter s) (readers s) (writer s) (write_requests s)
    ((fun a => match a with WaitRead _ _ => wake a | _ => a end) <$> threads s).

(** [write_cv_.notify_one()]: some thread asleep in [LockWrite] is woken, or
    nothing happens when there is none. *)
Definition asleep_writer (s : FairRWLock) (t : nat) : Prop :=
  exists id, threads s !! t = Some (WaitWrite id false).

Inductive notify_writer (s : FairRWLock) : FairRWLock -> Prop :=
  | notify_none : (forall t, ~ asleep_writer s t) -> notify_writer s s
  | notify_one t id : threads s !! t = Some (WaitWrite id false) ->
      notify_writer s (mkLock (id_counter s) (readers s) (writer s) (write_requests s)
                         (<[t := WaitWrite id true]> (threads s))).

Definition release_read (s : FairRWLock) (t : nat) : FairRWLock :=
  mkLock (id_counter s) (readers s - 1) (writer s) (write_requests s) (delete t (threads s)).

Definition release_write (s : FairRWLock) (t : nat) : FairRWLock :=
  mkLock (id_counter s) (readers s) false (tail (write_requests s)) (delete t (threads s)).

(** [UnLockRead] and [UnLockWrite], with the choice made by [notify_one]. *)
Inductive UnLockRead (s : FairRWLock) (t : nat) : FairRWLock -> Prop :=
  | unlock_read_quiet : readers s - 1 <> 0 \/ write_requests s = [] ->
      UnLockRead s t (release_read s t)
  | unlock_read_notify s' : readers s - 1 = 0 -> write_requests s <> [] ->
      notify_writer (release_read s t) s' -> UnLockRead s t s'.

Inductive UnLockWrite (s : FairRWLock) (t : nat) : FairRWLock -> Prop :=
  | unlock_write_writer s' : tail (write_requests s) <> [] ->
      notify_writer (release_write s t) s' -> UnLockWrite s t s'
  | unlock_write_readers : tail (write_requests s) = [] ->
      UnLockWrite s t (notify_readers (release_write s t)).

(** One step of one thread.  A notified thread re-evaluates its predicate; with
    [spurious] a sleeping thread may wake up on its own. *)
Inductive step (spurious : bool) (s : FairRWLock) : FairRWLock -> Prop :=
  | step_lock_read t : threads s !! t = None -> step spurious s (LockRead s t)
  | step_lock_write t : threads s !! t = None -> step spurious s (LockWrite s t)
  | step_wake_read t id : threads s !! t = Some (WaitRead id true) -> step spurious s (try_read s t id)
  | step_wake_write t id : threads s !! t = Some (WaitWrite id true) -> step spurious s (try_write s t id)
  | step_unlock_read t s' : threads s !! t = Some Reading -> UnLockRead s t s' -> step spurious s s'
  | step_unlock_write t id s' : threads s !! t = Some (Writing id) -> UnLockWrite s t s' -> step spurious s s'
  | step_spurious t a : spurious = true -> threads s !! t = Some a ->
      step spurious s (mkLock (id_counter s) (readers s) (writer s) (write_requests s) (<[t := wake a]> (threads s))).

Inductive reachable (spurious : bool) : FairRWLock -> Prop :=
  | reach_new : reachable spurious new_lock
  | reach_step s s' : reachable spurious s -> step spurious s s' -> reachable spurious s'.

(** ** The invariant *)

Definition is_reading (a : act) : Prop := a = Reading.
#[export] Instance is_reading_dec a : Decision (is_reading a) := decide (a = Reading).

(** The threads that hold the lock for reading. *)
Definition reading (s : FairRWLock) : gmap nat act := filter (fun p => is_reading (snd p)) (threads s).

Definition ticket (a : act) : option nat :=
  match a with WaitWrite id _ | Writing id => Some id | _ => None end.

Record inv (s : FairRWLock) : Prop := {
  inv_readers : readers s = size (reading s);
  inv_writing : forall t id, threads s !! t = Some (Writing id) ->
    writer s = true /\ readers s = 0 /\ head (write_requests s) = Some id;
  inv_writer : writer s = true -> exists t id, threads s !! t = Some (Writing id);
  inv_sorted : StronglySorted lt (write_requests s) /\ Forall (fun id => id < id_counter s) (write_requests s);
  inv_ticket : forall t a id, threads s !! t = Some a -> ticket a = Some id -> id ∈ write_requests s;
  inv_owner : forall id, id ∈ write_requests s -> exists t a, threads s !! t = Some a /\ ticket a = Some id;
  inv_inj : forall t t' a a' id, threads s !! t = Some a -> threads s !! t' = Some a' ->
    ticket a = Some id -> ticket a' = Some id -> t = t'
}.

Lemma new_lock_inv : inv new_lock.
Proof.
  split; simpl; try done; try (intros *; rewrite lookup_empty; done).
  - split; constructor.
  - intros id Hid. by apply elem_of_nil in Hid.
Qed.

Section counting.
Implicit Types m : gmap nat act.

Definition readers_of m : gmap nat act := filter (fun p => is_reading (snd p)) m.

Lemma readers_of_other m t a : a <> Reading -> m !! t <> Some Reading -> readers_of (<[t := a]> m) = readers_of m.
Proof.
  intros Ha Ht. unfold readers_of. rewrite map_filter_insert_False by done.
  apply map_filter_delete_not. intros y Hy Hr. simpl in Hr. unfold is_reading in Hr. congruence.
Qed.

Lemma readers_of_add m t : m !! t <> Some Reading -> size (readers_of (<[t := Reading]> m)) = size (readers_of m) + 1.
Proof.
  intros Ht. unfold readers_of. rewrite map_filter_insert_True by done. rewrite map_size_insert_None; [lia|].
  apply map_lookup_filter_None. destruct (m !! t) as [a|] eqn:E; [|by left]. right. intros a' [= <-] Hr.
  simpl in Hr. unfold is_reading in Hr. congruence.
Qed.

Lemma readers_of_delete m t : m !! t = Some Reading -> size (readers_of (delete t m)) = size (readers_of m) - 1.
Proof.
  intros Ht. unfold readers_of. rewrite map_filter_delete.
  rewrite map_size_delete_Some; [lia|]. exists Reading. by apply map_lookup_filter_Some.
Qed.

Lemma readers_of_delete_other m t : m !! t <> Some Reading -> readers_of (delete t m) = readers_of m.
Proof.
  intros Ht. apply map_filter_delete_not. intros y Hy Hr. simpl in Hr. unfold is_reading in Hr. congruence.
Qed.

Lemma no_readers m t : size (readers_of m) = 0 -> m !! t <> Some Reading.
Proof.
  intros Hs Ht. apply map_size_empty_iff in Hs.
  assert (readers_of m !! t = Some Reading) as Hf by (by apply map_lookup_filter_Some). by rewrite Hs in Hf.
Qed.

End counting.

(** Changing what one thread does, its ticket staying the same. *)
Lemma inv_keep s t a cnt rd wr : inv s -> id_counter s <= cnt ->
  (threads s !! t ≫= ticket) = ticket a ->
  rd = size (readers_of (<[t := a]> (threads s))) ->
  (forall t' id, <[t := a]> (threads s) !! t' = Some (Writing id) ->
     wr = true /\ rd = 0 /\ head (write_requests s) = Some id) ->
  (wr = true -> exists t' id, <[t := a]> (threads s) !! t' = Some (Writing id)) ->
  inv (mkLock cnt rd wr (write_requests s) (<[t := a]> (threads s))).
Proof.
  intros [] Hcnt Htk Hrd Hw1 Hw2. split; simpl; try done.
  - split; [apply inv_sorted0|]. eapply Forall_impl; [apply inv_sorted0|]. simpl. lia.
  - intros t' a' id. rewrite lookup_insert. case_decide; [|apply inv_ticket0].
    intros [= <-] Hid. subst t'. rewrite Hid in Htk. apply bind_Some in Htk as (b & Hb & Hb'). by eapply inv_ticket0.
  - intros id Hid. destruct (inv_owner0 id Hid) as (t' & b & Hb & Hb'). destruct (decide (t' = t)) as [->|].
    + exists t, a. rewrite lookup_insert_eq. split; [done|]. rewrite Hb in Htk. simpl in Htk. congruence.
    + exists t', b. by rewrite lookup_insert_ne.
  - intros t1 t2 a1 a2 id. rewrite !lookup_insert.
    assert (forall t' b, threads s !! t' = Some b -> ticket b = Some id -> ticket a = Some id -> t' = t) as Hu.
    { intros t' b Hb Hb' Ha. rewrite Ha in Htk. apply bind_Some in Htk as (c & Hc & Hc'). by eapply inv_inj0. }
    repeat case_decide; intros Hl1 Hl2 Hk1 Hk2; simplify_eq; eauto. symmetry. eauto.
Qed.

Lemma inv_no_writer s t id : inv s -> writer s = false -> threads s !! t <> Some (Writing id).
Proof. intros [] Hw Ht. apply inv_writing0 in Ht as [? _]. congruence. Qed.

(** A thread that sleeps, wakes up or starts to read. *)
Lemma inv_not_writing s t a cnt rd : inv s -> id_counter s <= cnt -> (threads s !! t ≫= ticket) = ticket a ->
  (forall id, a <> Writing id) -> (forall id, threads s !! t <> Some (Writing id)) ->
  rd = size (readers_of (<[t := a]> (threads s))) -> (writer s = true -> rd = readers s) ->
  inv (mkLock cnt rd (writer s) (write_requests s) (<[t := a]> (threads s))).
Proof.
  intros Hinv Hcnt Htk Ha Ht Hrd Hsame. apply inv_keep; try done.
  - intros t' id. rewrite lookup_insert. case_decide; [intros [= ->]; by destruct (Ha id)|].
    intros Hw. apply (inv_writing s Hinv) in Hw as (? & ? & ?). rewrite Hsame by done. done.
  - intros Hw. destruct (inv_writer s Hinv Hw) as (t' & id & Hw'). exists t', id.
    rewrite lookup_insert_ne; [done|]. intros ->. by destruct (Ht id).
Qed.

Lemma inv_try_read s t id b : inv s -> threads s !! t = Some (WaitRead id b) -> inv (try_read s t id).
Proof.
  intros Hinv Ht. pose proof (inv_readers s Hinv) as Hr. change (reading s) with (readers_of (threads s)) in Hr.
  unfold try_read. destruct (may_read s id) eqn:Hp.
  - unfold may_read in Hp. destruct (writer s) eqn:Hw; [done|]. rewrite <- Hw.
    apply inv_not_writing; try done; [by rewrite Ht|intros ?; by rewrite Ht| |congruence].
    rewrite readers_of_add by (by rewrite Ht). lia.
  - apply inv_not_writing; try done; [by rewrite Ht|intros ?; by rewrite Ht|].
    by rewrite readers_of_other by (by rewrite ?Ht).
Qed.

Lemma inv_try_write s t id b : inv s -> threads s !! t = Some (WaitWrite id b) -> inv (try_write s t id).
Proof.
  intros Hinv Ht. pose proof (inv_readers s Hinv) as Hr. change (reading s) with (readers_of (threads s)) in Hr.
  unfold try_write. destruct (may_write s id) eqn:Hp.
  - unfold may_write in Hp. rewrite !andb_true_iff, negb_true_iff, Nat.eqb_eq in Hp. destruct Hp as [[Hw Hz] Hf].
    destruct (write_requests s) as [|f rest] eqn:Hq; [done|]. apply Nat.eqb_eq in Hf as ->. rewrite <- Hq.
    apply inv_keep; try done; [by rewrite Ht|by rewrite readers_of_other by (by rewrite ?Ht)| |].
    + intros t' id'. rewrite lookup_insert. case_decide.
      * intros [= ->]. by rewrite Hq.
      * intros Hx. by destruct (inv_no_writer s t' id' Hinv Hw).
    + intros _. exists t, id. apply lookup_insert_eq.
  - apply inv_not_writing; try done; [by rewrite Ht|intros ?; by rewrite Ht|].
    by rewrite readers_of_other by (by rewrite ?Ht).
Qed.

Lemma inv_enqueue_read s t : inv s -> threads s !! t = None ->
  inv (mkLock (id_counter s + 1) (readers s) (writer s) (write_requests s)
         (<[t := WaitRead (id_counter s) false]> (threads s))).
Proof.
  intros Hinv Ht. apply inv_not_writing; try done; [lia|by rewrite Ht|intros ?; by rewrite Ht|].
  rewrite readers_of_other by (by rewrite ?Ht). apply (inv_readers s Hinv).
Qed.

(** A new write request goes to the end of the queue with the next ticket. *)
Lemma inv_enqueue_write s t : inv s -> threads s !! t = None ->
  inv (mkLock (id_counter s + 1) (readers s) (writer s) (write_requests s ++ [id_counter s])
         (<[t := WaitWrite (id_counter s) false]> (threads s))).
Proof.
  intros [] Ht. destruct inv_sorted0 as [Hs Hb].
  assert (forall t' a id, threads s !! t' = Some a -> ticket a = Some id -> id < id_counter s) as Hlt.
  { intros t' a id Ha Hid. rewrite Forall_forall in Hb. apply Hb. by eapply inv_ticket0. }
  assert (head (write_requests s ++ [id_counter s]) = head (write_requests s) \/ write_requests s = []) as Hh.
  { destruct (write_requests s); auto. }
  split; simpl.
  - change (reading _) with (readers_of (<[t := WaitWrite (id_counter s) false]> (threads s))).
    by rewrite readers_of_other by (by rewrite ?Ht).
  - intros t' id. rewrite lookup_insert. case_decide; [done|]. intros Hw.
    apply inv_writing0 in Hw as (? & ? & Hhd). split_and!; [done..|]. destruct Hh as [->|Hn]; [done|]. by rewrite Hn in Hhd.
  - intros Hw. destruct (inv_writer0 Hw) as (t' & id & Hx). exists t', id. rewrite lookup_insert_ne; [done|congruence].
  - split.
    + apply StronglySorted_app. split_and!; [|done|by repeat constructor].
      intros x y Hx ->%list_elem_of_singleton. rewrite Forall_forall in Hb. by apply Hb.
    + apply Forall_app. split; [|constructor; [lia|constructor]]. eapply Forall_impl; [exact Hb|]. simpl. lia.
  - intros t' a id. rewrite lookup_insert, elem_of_app, list_elem_of_singleton. case_decide.
    + intros [= <-] [= <-]. by right.
    + intros Ha Hid. left. by eapply inv_ticket0.
  - intros id. rewrite elem_of_app, list_elem_of_singleton. intros [Hid| ->].
    + destruct (inv_owner0 id Hid) as (t' & a & Ha & Hid'). exists t', a. rewrite lookup_insert_ne; [done|congruence].
    + exists t, (WaitWrite (id_counter s) false). by rewrite lookup_insert_eq.
  - intros t1 t2 a1 a2 id. rewrite !lookup_insert. repeat case_decide; intros Hl1 Hl2 Hk1 Hk2; simplify_eq; eauto.
    + simpl in Hk1. simplify_eq. specialize (Hlt t2 a2 _ Hl2 Hk2). lia.
    + simpl in Hk2. simplify_eq. specialize (Hlt t1 a1 _ Hl1 Hk1). lia.
Qed.

Lemma ticket_wake a : ticket (wake a) = ticket a.
Proof. by destruct a. Qed.

Lemma wake_eq a b : (b = Reading \/ exists id, b = Writing id) -> wake a = b <-> a = b.
Proof. intros [->|[id ->]]; destruct a; simpl; split; congruence. Qed.

(** Waking threads up, by a notification or spuriously, changes nothing else. *)
Lemma inv_wake s (sel : nat -> act -> bool) (m : gmap nat act) : inv s ->
  (forall t, m !! t = (fun a => if sel t a then wake a else a) <$> threads s !! t) ->
  inv (mkLock (id_counter s) (readers s) (writer s) (write_requests s) m).
Proof.
  intros [] Hm. set (g := fun t a => if sel t a then wake a else a).
  assert (forall t a, m !! t = Some a <-> exists a0, threads s !! t = Some a0 /\ a = g t a0) as Hl.
  { intros t a. rewrite Hm, fmap_Some. done. }
  assert (forall t a, ticket (g t a) = ticket a) as Hg by (intros t a; unfold g; destruct (sel t a); [apply ticket_wake|done]).
  assert (forall t b, (b = Reading \/ exists id, b = Writing id) -> m !! t = Some b <-> threads s !! t = Some b) as Hb.
  { intros t b Hb. rewrite Hl. split.
    - intros (a & Ha & Hga). assert (a = b) as ->; [|done]. unfold g in Hga. destruct (sel t a); [|done].
      by apply (wake_eq a b Hb).
    - intros Hx. exists b. split; [done|]. unfold g. destruct (sel t b); [|done]. symmetry. by apply (wake_eq b b Hb). }
  split; cbn [readers threads writer write_requests id_counter].
  - rewrite inv_readers0. apply (f_equal size), map_eq. intros t. apply option_eq. intros x.
    unfold reading. cbn [threads]. rewrite !map_lookup_filter_Some. unfold is_reading. simpl.
    split; intros [Hx ->]; (split; [|done]); apply (Hb t Reading); auto.
  - intros t id Hw. apply (inv_writing0 t). apply (Hb t (Writing id)); eauto.
  - intros Hw. destruct (inv_writer0 Hw) as (t & id & Hx). exists t, id. apply Hb; eauto.
  - done.
  - intros t a id (a0 & Ha & ->)%Hl. rewrite Hg. by eapply inv_ticket0.
  - intros id Hid. destruct (inv_owner0 id Hid) as (t & a & Ha & Hid'). exists t, (g t a).
    rewrite Hg. split; [|done]. apply Hl. eauto.
  - intros t t' a a' id (a0 & Ha & ->)%Hl (a1 & Ha' & ->)%Hl. rewrite !Hg. by eapply inv_inj0.
Qed.

Lemma inv_wake_one s t a : inv s -> threads s !! t = Some a ->
  inv (mkLock (id_counter s) (readers s) (writer s) (write_requests s) (<[t := wake a]> (threads s))).
Proof.
  intros Hinv Ht. apply (inv_wake s (fun t' _ => bool_decide (t' = t))); [done|].
  intros t'. rewrite lookup_insert. case_decide as Heq; [subst; by rewrite Ht, bool_decide_true|].
  rewrite bool_decide_false by done. by destruct (threads s !! t').
Qed.

Lemma inv_notify_writer s s' : inv s -> notify_writer s s' -> inv s'.
Proof.
  intros Hinv [_|t id Ht]; [done|]. apply (inv_wake_one s t (WaitWrite id false) Hinv Ht).
Qed.

Lemma inv_notify_readers s : inv s -> inv (notify_readers s).
Proof.
  intros Hinv. apply (inv_wake s (fun _ a => match a with WaitRead _ _ => true | _ => false end)); [done|].
  intros t. rewrite lookup_fmap. by destruct (threads s !! t) as [[]|].
Qed.

Lemma inv_release_read s t : inv s -> threads s !! t = Some Reading -> inv (release_read s t).
Proof.
  intros Hinv Ht. pose proof Hinv as [].
  assert (writer s = false) as Hw.
  { destruct (writer s) eqn:Hw; [|done]. destruct (inv_writer0 eq_refl) as (t' & id & Hx).
    apply inv_writing0 in Hx as (_ & Hz & _). rewrite inv_readers0 in Hz. by destruct (no_readers (threads s) t). }
  split; simpl.
  - rewrite inv_readers0. symmetry. by apply readers_of_delete.
  - intros t' id. rewrite lookup_delete. case_decide; [done|]. intros Hx. by destruct (inv_no_writer s t' id Hinv Hw).
  - congruence.
  - done.
  - intros t' a id. rewrite lookup_delete. case_decide; [done|]. apply inv_ticket0.
  - intros id Hid. destruct (inv_owner0 id Hid) as (t' & a & Ha & Hid'). exists t', a.
    rewrite lookup_delete_ne; [done|]. intros ->. rewrite Ht in Ha. by simplify_eq.
  - intros t1 t2 a1 a2 id. rewrite !lookup_delete. repeat case_decide; try done. apply inv_inj0.
Qed.

Lemma inv_release_write s t id : inv s -> threads s !! t = Some (Writing id) -> inv (release_write s t).
Proof.
  intros Hinv Ht. pose proof Hinv as []. destruct (inv_writing0 t id Ht) as (Hw & Hz & Hh).
  destruct (write_requests s) as [|f rest] eqn:Hq; [done|]. simpl in Hh. simplify_eq.
  destruct inv_sorted0 as [Hs Hb]. apply StronglySorted_inv in Hs as [Hs Hlt]. apply Forall_cons_1 in Hb as [_ Hb].
  assert (forall t' a id', t' <> t -> threads s !! t' = Some a -> ticket a = Some id' -> id' ∈ rest) as Hrest.
  { intros t' a id' Hne Ha Hid. specialize (inv_ticket0 t' a id' Ha Hid). rewrite ?Hq in inv_ticket0.
    apply elem_of_cons in inv_ticket0 as [->|]; [|done]. destruct Hne. by eapply inv_inj0. }
  split; simpl; rewrite ?Hq; simpl.
  - rewrite inv_readers0. change (reading (release_write s t)) with (readers_of (delete t (threads s))).
    by rewrite readers_of_delete_other by (by rewrite Ht).
  - intros t' id'. rewrite lookup_delete. case_decide; [done|]. intros Hx. exfalso.
    destruct (inv_writing0 t' id' Hx) as (_ & _ & Hh'). rewrite ?Hq in Hh'. simpl in Hh'. simplify_eq.
    assert (t = t') by (by eapply inv_inj0). done.
  - done.
  - done.
  - intros t' a id'. rewrite lookup_delete. case_decide as Hne; [done|]. intros. by eapply (Hrest t' a).
  - intros id' Hid. destruct (inv_owner0 id') as (t' & a & Ha & Hid'); [rewrite ?Hq, elem_of_cons; by right|].
    exists t', a. rewrite lookup_delete_ne; [done|]. intros <-. rewrite Ht in Ha. simplify_eq. simpl in Hid'. simplify_eq.
    rewrite Forall_forall in Hlt. specialize (Hlt _ Hid). lia.
  - intros t1 t2 a1 a2 id'. rewrite !lookup_delete. repeat case_decide; try done. apply inv_inj0.
Qed.

Lemma step_inv spurious s s' : inv s -> step spurious s s' -> inv s'.
Proof.
  intros Hinv [t Ht|t Ht|t id Ht|t id Ht|t ? Ht Hu|t id ? Ht Hu|t a _ Ht].
  - unfold LockRead. pose proof (inv_try_read _ t _ _ (inv_enqueue_read s t Hinv Ht) (lookup_insert_eq _ _ _)) as H.
    unfold try_read in *. cbn [threads] in H. by rewrite !insert_insert_eq in H.
  - unfold LockWrite. pose proof (inv_try_write _ t _ _ (inv_enqueue_write s t Hinv Ht) (lookup_insert_eq _ _ _)) as H.
    unfold try_write in *. cbn [threads] in H. by rewrite !insert_insert_eq in H.
  - by eapply inv_try_read.
  - by eapply inv_try_write.
  - destruct Hu; [by apply inv_release_read|]. eapply inv_notify_writer; [|done]. by apply inv_release_read.
  - destruct Hu; [eapply inv_notify_writer; [|done]|apply inv_notify_readers]; by eapply inv_release_write.
  - by apply inv_wake_one.
Qed.

Lemma reachable_inv spurious s : reachable spurious s -> inv s.
Proof. induction 1; [apply new_lock_inv|by eapply step_inv]. Qed.

(** C34: whatever the interleaving, and with spurious wake-ups allowed, a thread
    that holds the lock for writing is alone (no reader, no other writer) and no
    thread with an older write ticket is still waiting: writers are served in
    the order of their requests. *)
Theorem rwlock_mutual_exclusion s t id : reachable true s -> threads s !! t = Some (Writing id) ->
  (forall t', threads s !! t' <> Some Reading) /\
  (forall t' id', threads s !! t' = Some (Writing id') -> t' = t) /\
  (forall t' id' b, threads s !! t' = Some (WaitWrite id' b) -> id < id').
Proof.
  intros Hr Ht. pose proof (reachable_inv _ _ Hr) as []. destruct (inv_writing0 t id Ht) as (Hw & Hz & Hh).
  destruct (write_requests s) as [|f rest] eqn:Hq; [done|]. simpl in Hh. simplify_eq. split_and!.
  - intros t'. apply no_readers. by rewrite <- Hz, inv_readers0.
  - intros t' id' Ht'. destruct (inv_writing0 t' id' Ht') as (_ & _ & Hh'). simpl in Hh'. simplify_eq.
    by eapply inv_inj0.
  - intros t' id' b Ht'. assert (id' ∈ id :: rest) as Hin by (by eapply inv_ticket0).
    destruct inv_sorted0 as [Hs _]. apply StronglySorted_inv in Hs as [_ Hlt].
    apply elem_of_cons in Hin as [->|Hin].
    + assert (t = t') by (by eapply inv_inj0). congruence.
    + rewrite Forall_forall in Hlt. by apply Hlt.
Qed.

(** One writer, then a reader and a second writer that have to wait. *)
Definition ex_lock : FairRWLock := LockWrite (LockRead (LockWrite new_lock 1) 2) 3.

Lemma ex_lock_reachable spurious : reachable spurious ex_lock.
Proof.
  eapply reach_step; [eapply reach_step; [eapply reach_step; [apply reach_new|]|]|].
  - by apply (step_lock_write _ _ 1).
  - by apply (step_lock_read _ _ 2).
  - by apply (step_lock_write _ _ 3).
Qed.

Lemma rwlock_mutual_exclusion_witness :
  (forall t', threads ex_lock !! t' <> Some Reading) /\
  (forall t' id', threads ex_lock !! t' = Some (Writing id') -> t' = 1) /\
  (forall t' id' b, threads ex_lock !! t' = Some (WaitWrite id' b) -> 0 < id').
Proof. apply (rwlock_mutual_exclusion ex_lock 1 0 (ex_lock_reachable true)). vm_compute. reflexivity. Defined.

(** ** A lost wake-up *)

(** The lock is free, yet the thread next in line sleeps without a notification,
    and so does every other thread. *)
Record dead (t : nat) (s : FairRWLock) : Prop := {
  dead_free : writer s = false /\ readers s = 0;
  dead_front : exists id rest, write_requests s = id :: rest /\ threads s !! t = Some (WaitWrite id false) /\
    id < id_counter s /\ Forall (fun id' => id' <> id) rest;
  dead_asleep : forall t' a, threads s !! t' = Some a ->
    (exists id, a = WaitRead id false) \/ (exists id, a = WaitWrite id false)
}.

(** Without spurious wake-ups such a state is never left: every new request goes
    to sleep too. *)
Lemma dead_step t s s' : dead t s -> step false s s' -> dead t s'.
Proof.
  intros [[Hw Hz] (id & rest & Hq & Ht & Hid & Hne) Ha] Hstep.
  destruct Hstep as [t' Ht'|t' Ht'|t' id' Ht'|t' id' Ht'|t' s' Ht' _|t' id' s' Ht' _|t' a Hsp _];
    try (destruct (Ha _ _ Ht') as [[? [=]]|[? [=]]]); try done.
  - assert (t <> t') by congruence.
    unfold LockRead, try_read, may_read. cbn [writer write_requests]. rewrite Hw, Hq. cbn [negb andb].
    rewrite (proj2 (Nat.ltb_ge _ _)) by lia. split; cbn; [done| |].
    + exists id, rest. rewrite lookup_insert_ne by done. split_and!; [done..|lia|done].
    + intros u a. rewrite lookup_insert. case_decide; [intros [= <-]; eauto|apply Ha].
  - assert (t <> t') by congruence.
    unfold LockWrite, try_write, may_write. cbn [writer readers write_requests]. rewrite Hw, Hz, Hq.
    cbn [negb andb app Nat.eqb]. rewrite (proj2 (Nat.eqb_neq _ _)) by lia. split; cbn; [done| |].
    + exists id, (rest ++ [id_counter s]). rewrite lookup_insert_ne by done. split_and!; [done..|lia|].
      apply Forall_app. split; [done|]. constructor; [lia|constructor].
    + intros u a. rewrite lookup_insert. case_decide; [intros [= <-]; eauto|apply Ha].
Qed.

(** Three writers: the first one, on release, notifies the third instead of the second. *)
Definition dead_lock : FairRWLock :=
  mkLock 3 0 false [1; 2] (<[3 := WaitWrite 2 false]> (<[2 := WaitWrite 1 false]> ∅)).

Lemma dead_lock_reachable : reachable false dead_lock.
Proof.
  set (s1 := LockWrite new_lock 1). set (s2 := LockWrite s1 2). set (s3 := LockWrite s2 3).
  set (s4 := mkLock 3 0 false [1; 2] (<[3 := WaitWrite 2 true]> (threads (release_write s3 1)))).
  assert (dead_lock = try_write s4 3 2) as -> by (vm_compute; reflexivity).
  eapply (reach_step _ s4); [|by apply (step_wake_write _ _ 3 2)].
  eapply (reach_step _ s3).
  - eapply reach_step; [eapply reach_step; [eapply reach_step; [apply reach_new|]|]|].
    + by apply (step_lock_write _ _ 1).
    + by apply (step_lock_write _ _ 2).
    + by apply (step_lock_write _ _ 3).
  - apply (step_unlock_write _ _ 1 0); [by vm_compute|]. apply unlock_write_writer; [done|].
    apply (notify_one (release_write s3 1) 3 2). by vm_compute.
Qed.

Lemma dead_lock_dead : dead 2 dead_lock.
Proof.
  split; [done| |].
  - exists 1, [2]. split_and!; [done|by vm_compute|simpl; lia|]. by repeat constructor.
  - intros t a. unfold dead_lock. cbn [threads]. rewrite !lookup_insert.
    repeat case_decide; intros; simplify_eq; eauto.
Qed.

(** C35: [UnLockWrite] notifies one waiting writer, and [notify_one] may pick a
    writer that is not the next in line, which goes back to sleep.  So a state is
    reachable, with three writers and no spurious wake-up, in which the lock is
    free and every thread sleeps; whatever requests follow, no thread ever gets
    the lock again. *)
Theorem rwlock_lost_wakeup :
  exists s, reachable false s /\ writer s = false /\ readers s = 0 /\ write_requests s <> [] /\
    forall s', rtc (step false) s s' ->
      forall t a, threads s' !! t = Some a -> a <> Reading /\ forall id, a <> Writing id.
Proof.
  exists dead_lock. split_and!; [apply dead_lock_reachable|done|done|done|].
  intros s' Hs'. assert (dead 2 s') as [_ _ Ha].
  { pose proof dead_lock_dead as Hd. revert Hd. generalize dead_lock as s, Hs'. clear Hs'.
    induction 1 as [s|s1 s2 s3 H12 _ IH]; [done|]. intros Hd. by eapply IH, dead_step. }
  intros t a Ht. destruct (Ha t a Ht) as [[id ->]|[id ->]]; done.
Qed.
