(* ===== verification/BlockingQueue.v ===== *)
(** * Blocking queue (include/knowhere/comp/blocking_queue.h)

    Method bodies run under the mutex and are atomic steps; a thread whose wait
    predicate is false sleeps until [notify_all] on its condition variable and
    then evaluates the predicate again.  The logs of what was put and taken, and
    the largest capacity so far, are ghost state. *)

From S2P Require Import Prelude.

(** The methods that wait for an element. *)
Inductive getter := Take | Front | Back.

Section queue.
Context {T : Type}.

Inductive waiting :=
  | WaitPut (task : T) (awake : bool)
  | WaitGet (g : getter) (awake : bool).

Record BlockingQueue := mkQueue {
  queue : list T;
  capacity : nat;
  sleepers : gmap nat waiting;
  put_log : list T;
  take_log : list T;
  max_capacity : nat
}.

Definition new_queue : BlockingQueue := mkQueue [] 32 ∅ [] [] 32.

Implicit Types s : BlockingQueue.

(** [empty_.notify_all()] and [full_.notify_all()]. *)
Definition notify_empty (m : gmap nat waiting) : gmap nat waiting :=
  (fun w => match w with WaitGet g _ => WaitGet g true | _ => w end) <$> m.
Definition notify_full (m : gmap nat waiting) : gmap nat waiting :=
  (fun w => match w with WaitPut x _ => WaitPut x true | _ => w end) <$> m.

(** [Put] from its predicate on. *)
Definition try_put s (t : nat) (task : T) : BlockingQueue :=
  if length (queue s) <? capacity s then
    mkQueue (queue s ++ [task]) (capacity s) (notify_empty (delete t (sleepers s)))
      (put_log s ++ [task]) (take_log s) (max_capacity s)
  else
    mkQueue (queue s) (capacity s) (<[t := WaitPut task false]> (sleepers s)) (put_log s) (take_log s) (max_capacity s).

(** [Take], [Front] and [Back] from their predicate on, with the value returned. *)
Definition try_get s (t : nat) (g : getter) : BlockingQueue * option T :=
  match queue s with
  | [] => (mkQueue [] (capacity s) (<[t := WaitGet g false]> (sleepers s)) (put_log s) (take_log s) (max_capacity s), None)
  | x :: rest =>
      match g with
      | Take => (mkQueue rest (capacity s) (notify_full (delete t (sleepers s))) (put_log s) (take_log s ++ [x]) (max_capacity s), Some x)
      | Front => (mkQueue (queue s) (capacity s) (delete t (sleepers s)) (put_log s) (take_log s) (max_capacity s), Some x)
      | Back => (mkQueue (queue s) (capacity s) (delete t (sleepers s)) (put_log s) (take_log s) (max_capacity s), last (queue s))
      end
  end.

Definition Size s : nat := length (queue s).
Definition Empty s : bool := match queue s with [] => true | _ => false end.

Definition SetCapacity s (c : nat) : BlockingQueue :=
  let c' := if 0 <? c then c else capacity s in
  mkQueue (queue s) c' (sleepers s) (put_log s) (take_log s) (Nat.max (max_capacity s) c').

(** [resize]: whether [SetCapacity] is called. *)
Inductive step (resize : bool) s : BlockingQueue -> Prop :=
  | step_put t x : sleepers s !! t = None -> step resize s (try_put s t x)
  | step_get t g : sleepers s !! t = None -> step resize s (fst (try_get s t g))
  | step_wake_put t x : sleepers s !! t = Some (WaitPut x true) -> step resize s (try_put s t x)
  | step_wake_get t g : sleepers s !! t = Some (WaitGet g true) -> step resize s (fst (try_get s t g))
  | step_resize c : resize = true -> step resize s (SetCapacity s c).

Definition reachable (resize : bool) s : Prop := rtc (step resize) new_queue s.

(** ** First in, first out; bounded; no lost wake-up *)

Record inv s : Prop := {
  inv_fifo : put_log s = take_log s ++ queue s;
  inv_bound : length (queue s) <= max_capacity s /\ capacity s <= max_capacity s
}.

(** Nobody sleeps whose predicate holds. *)
Definition no_lost_wakeup s : Prop :=
  (forall t g, sleepers s !! t = Some (WaitGet g false) -> queue s = []) /\
  (forall t x, sleepers s !! t = Some (WaitPut x false) -> capacity s <= length (queue s)).

Lemma try_put_inv s t x : inv s -> inv (try_put s t x).
Proof.
  intros [Hf [Hb Hc]]. unfold try_put. destruct (Nat.ltb_spec (length (queue s)) (capacity s)); split; simpl; try done.
  - by rewrite Hf, app_assoc.
  - rewrite length_app. simpl. lia.
Qed.

Lemma try_get_inv s t g : inv s -> inv (fst (try_get s t g)).
Proof.
  intros [Hf [Hb Hc]]. unfold try_get. destruct (queue s) as [|x rest] eqn:Hq.
  - split; simpl; [done|lia].
  - destruct g; split; simpl in *; rewrite ?Hq; simpl; try done; [by rewrite <- app_assoc|lia].
Qed.

Lemma queue_step_inv r s s' : inv s -> step r s s' -> inv s'.
Proof.
  intros Hinv [t x _|t g _|t x _|t g _|c _]; try (by apply try_put_inv); try (by apply try_get_inv).
  destruct Hinv as [Hf [Hb Hc]]. split; simpl; [done|lia].
Qed.

Lemma try_put_wakeup s t x : no_lost_wakeup s -> no_lost_wakeup (try_put s t x).
Proof.
  intros [Hg Hp]. unfold try_put. destruct (Nat.ltb_spec (length (queue s)) (capacity s)) as [Hlt|Hge]; split; simpl.
  - intros t' g. unfold notify_empty. rewrite lookup_fmap, lookup_delete. case_decide; [done|].
    by destruct (sleepers s !! t') as [[]|].
  - intros t' y. unfold notify_empty. rewrite lookup_fmap, lookup_delete. case_decide; [done|].
    destruct (sleepers s !! t') as [[z b|]|] eqn:E; simpl; try done. intros [= -> ->]. apply Hp in E. lia.
  - intros t' g. rewrite lookup_insert. case_decide; [done|apply Hg].
  - intros t' y. rewrite lookup_insert. case_decide; [done|apply Hp].
Qed.

Lemma try_get_wakeup s t g : no_lost_wakeup s -> no_lost_wakeup (fst (try_get s t g)).
Proof.
  intros [Hg Hp]. unfold try_get. destruct (queue s) as [|x rest] eqn:Hq.
  - split; simpl; intros t' y; rewrite lookup_insert; case_decide; try done. apply Hp.
  - assert (forall t' g', sleepers s !! t' <> Some (WaitGet g' false)) as Hno.
    { intros t' g' H. by apply Hg in H. }
    destruct g; split; simpl; intros t' y; unfold notify_full; rewrite ?lookup_fmap, lookup_delete; case_decide; try done.
    + destruct (sleepers s !! t') as [[]|] eqn:E; simpl; try done. intros [= -> ->]. by destruct (Hno t' y).
    + by destruct (sleepers s !! t') as [[]|].
    + intros H'. by destruct (Hno t' y).
    + intros H'. apply Hp in H'. by rewrite ?Hq in *.
    + intros H'. by destruct (Hno t' y).
    + intros H'. apply Hp in H'. by rewrite ?Hq in *.
Qed.

(** C36: in every interleaving of [Put], [Take], [Front], [Back] and
    [SetCapacity], the elements taken are exactly a prefix of those put, in the
    same order, the rest being queued, and the queue never exceeds the largest
    capacity set so far.  If the capacity is not changed there is no lost
    wake-up: a thread sleeps in a getter only while the queue is empty and in
    [Put] only while it is full. *)
Theorem blocking_queue_fifo r s : reachable r s ->
  put_log s = take_log s ++ queue s /\ length (queue s) <= max_capacity s /\
  (r = false -> no_lost_wakeup s).
Proof.
  intros Hr. assert (inv s /\ (r = false -> no_lost_wakeup s)) as [[Hf [Hb _]] Hn]; [|by split_and!].
  unfold reachable in Hr. assert (inv new_queue /\ (r = false -> no_lost_wakeup new_queue)) as H0.
  { split; [split; simpl; [done|lia]|]. intros _. split; simpl; intros *; by rewrite lookup_empty. }
  revert H0. induction Hr as [s|s1 s2 s3 Hstep _ IH]; [done|]. intros [Hinv Hno]. apply IH.
  split; [by eapply queue_step_inv|]. intros ->. specialize (Hno eq_refl).
  destruct Hstep; try (by apply try_put_wakeup); try (by apply try_get_wakeup). done.
Qed.

End queue.
Arguments BlockingQueue T : clear implicits.

(** Thread 1 waits in [Take]; thread 2 puts an element; thread 1 is woken and takes it. *)
Definition ex_queue : BlockingQueue nat := fst (try_get (try_put (fst (try_get new_queue 1 Take)) 2 7) 1 Take).

Lemma ex_queue_reachable : reachable false ex_queue.
Proof.
  eapply rtc_l; [by apply (step_get _ _ 1 Take)|]. eapply rtc_l; [by apply (step_put _ _ 2 7)|].
  apply rtc_once. by apply (step_wake_get _ _ 1 Take).
Qed.

Lemma blocking_queue_fifo_witness :
  put_log ex_queue = take_log ex_queue ++ queue ex_queue /\ length (queue ex_queue) <= max_capacity ex_queue /\
  (false = false -> no_lost_wakeup ex_queue).
Proof. apply (blocking_queue_fifo false ex_queue ex_queue_reachable). Defined.
