(* ===== verification/EmbList.v ===== *)
(** * Embedding lists (include/knowhere/emb_list_utils.h)

    A document is a list of vectors; the offset table maps vector ids to
    documents, and the aggregation functions turn the matrix of distances
    between a query's and a document's vectors into one score. *)

From S2P Require Import Prelude Float Num Operands MemoryIO Bitset Distances.

(** ** Offsets *)

Record EmbListOffset := mkOffset { offset : list nat }.

(** [while (lims[idx] < rows) offset.push_back(lims[idx]), idx++]; [strict] is
    the comparison used. *)
Fixpoint collect_lims (fuel : nat) (keep : nat -> bool) (lims : list nat) (idx : nat) (acc : list nat)
    : M (list nat * nat) :=
  let* v := vget lims idx in
  if keep v then
    match fuel with
    | 0 => Undef
    | S fuel => collect_lims fuel keep lims (idx + 1) (acc ++ [v])
    end
  else Ret (acc, idx).

(** [EmbListOffset(const size_t* lims, size_t rows)]. *)
Definition emb_list_offset (lims : list nat) (rows : nat) : M EmbListOffset :=
  let* (acc, idx) := collect_lims (length lims) (fun v => v <? rows) lims 0 [] in
  let* v := vget lims idx in
  Ret (mkOffset (acc ++ [v])).

Definition convert_lims_to_vector (lims : list nat) (rows : nat) : M (list nat) :=
  let* (acc, _) := collect_lims (length lims) (fun v => v <=? rows) lims 0 [] in Ret acc.

(** [std::upper_bound]: the library's bisection. *)
Fixpoint upper_bound (fuel : nat) (l : list nat) (val first len : nat) : M nat :=
  if len =? 0 then Ret first
  else match fuel with
  | 0 => Undef
  | S fuel =>
      let half := len / 2 in
      let* m := vget l (first + half) in
      if val <? m then upper_bound fuel l val first half
      else upper_bound fuel l val (first + half + 1) (len - half - 1)
  end.

(** [std::distance(begin, it) - 1] in [size_t]. *)
Definition get_el_id (o : EmbListOffset) (vid : nat) : M Z :=
  let* it := upper_bound (length (offset o)) (offset o) vid 0 (length (offset o)) in
  Ret ((Z.of_nat it - 1) mod 2 ^ 64)%Z.

Definition get_vids (o : EmbListOffset) (el_id : nat) : M (list nat) :=
  let* hi := vget (offset o) (el_id + 1) in
  let* lo := vget (offset o) el_id in
  Ret (seq lo (hi - lo)).

Definition num_el (o : EmbListOffset) : nat := length (offset o) - 1.

(** ** Aggregation *)

Section agg.
Context {A : Type} `{!Num A} (lowest highest : A).
Implicit Types dists : list A.

(** [int] indices; a range that is empty or starts below zero has no value. *)
Definition find_max_in_range dists (start_idx end_idx : Z) : M (option A) :=
  if ((start_idx <? 0) || (end_idx <=? start_idx))%Z then Ret None
  else
    let* v := foldM (fun max_v i =>
        let* d := vget dists i in Ret (if nltb max_v d then d else max_v))
      lowest (seq (Z.to_nat start_idx) (Z.to_nat (end_idx - start_idx))) in
    Ret (Some v).

Definition find_min_in_range dists (start_idx end_idx : Z) : M (option A) :=
  if ((start_idx <? 0) || (end_idx <=? start_idx))%Z then Ret None
  else
    let* v := foldM (fun min_v i =>
        let* d := vget dists i in Ret (if nltb d min_v then d else min_v))
      highest (seq (Z.to_nat start_idx) (Z.to_nat (end_idx - start_idx))) in
    Ret (Some v).

(** The first missing value ends the loop. *)
Fixpoint sum_rows (best : Z -> Z -> M (option A)) (el_len : nat) (rows : list nat) (score : A) : M (option A) :=
  match rows with
  | [] => Ret (Some score)
  | i :: rows =>
      let* v := best (to_int (i * el_len)) (to_int ((i + 1) * el_len)) in
      match v with
      | Some v => sum_rows best el_len rows (nadd score v)
      | None => Ret None
      end
  end.

Definition get_sum_max_sim dists (nq el_len : nat) (larger_is_closer : bool) : M (option A) :=
  if larger_is_closer then sum_rows (find_max_in_range dists) el_len (seq 0 nq) nzero
  else sum_rows (find_min_in_range dists) el_len (seq 0 nq) nzero.

(** One row of the ordered aggregation; [pick] is [std::max] or [std::min]. *)
Definition ordered_row (pick : A -> A -> A) dists (el_len i : nat) (scores : list A) : M (list A) :=
  let* s0 := vget scores 0 in
  let* d0 := vget dists (i * el_len) in
  let* scores := vset scores 0 (nadd s0 d0) in
  foldM (fun scores j =>
      let* p := vget scores (j - 1) in
      let* s := vget scores j in
      let* d := vget dists (i * el_len + j) in
      vset scores j (pick p (nadd s d)))
    scores (seq 1 (el_len - 1)).

Definition get_ordered_sum_max_sim dists (nq el_len : nat) (larger_is_closer : bool) : M (option A) :=
  if (nq =? 0) || (el_len =? 0) then Ret None
  else
    let* scores := foldM (fun scores i =>
        ordered_row (if larger_is_closer then nmax else nmin) dists el_len i scores)
      (replicate el_len nzero) (seq 0 nq) in
    let* v := vget scores (el_len - 1) in
    Ret (Some v).

(** The type of aggregation functions. *)
Definition agg_func : Type := list A -> nat -> nat -> bool -> M (option A).

(** [std::optional<std::function<...>>]: [nullptr] converts to an empty function
    inside the optional, [Some None]. *)
Definition get_emb_list_agg_func (el_metric_type : string) : option (option agg_func) :=
  if bool_decide (el_metric_type = "MAX_SIM") then Some (Some get_sum_max_sim) else Some None.

(** Calling a [std::function]. *)
Definition call_agg (f : option agg_func) : agg_func :=
  match f with Some f => f | None => fun _ _ _ _ => Throw "bad_function_call" end.

End agg.

(** ** Metric names *)

Definition get_el_metric_type (metric_type : string) : option string :=
  if bool_decide (metric_type ∈ ["MAX_SIM"; "MAX_SIM_IP"; "MAX_SIM_L2"; "MAX_SIM_COSINE"; "MAX_SIM_HAMMING"; "MAX_SIM_JACCARD"])
  then Some "MAX_SIM"
  else if bool_decide (metric_type ∈ ["DTW"; "DTW_IP"; "DTW_L2"; "DTW_COSINE"; "DTW_HAMMING"; "DTW_JACCARD"])
  then Some "DTW"
  else None.

Definition get_sub_metric_type (metric_type : string) : option string :=
  if bool_decide (metric_type ∈ ["MAX_SIM_COSINE"; "MAX_SIM"; "DTW_COSINE"; "DTW"]) then Some "COSINE"
  else if bool_decide (metric_type ∈ ["MAX_SIM_IP"; "DTW_IP"]) then Some "IP"
  else if bool_decide (metric_type ∈ ["MAX_SIM_L2"; "DTW_L2"]) then Some "L2"
  else if bool_decide (metric_type ∈ ["MAX_SIM_HAMMING"; "DTW_HAMMING"]) then Some "HAMMING"
  else if bool_decide (metric_type ∈ ["MAX_SIM_JACCARD"; "DTW_JACCARD"]) then Some "JACCARD"
  else None.

(** ** The offset table partitions the vector ids *)

(** Offsets from 0 to [rows], not decreasing. *)
Record offsets_ok (o : EmbListOffset) (rows : nat) : Prop := {
  oo_first : offset o !! 0 = Some 0;
  oo_last : last (offset o) = Some rows;
  oo_sorted : forall i j a b, i <= j -> offset o !! i = Some a -> offset o !! j = Some b -> a <= b
}.

Lemma upper_bound_spec l val fuel first len :
  (forall i j a b, i <= j -> l !! i = Some a -> l !! j = Some b -> a <= b) ->
  len <= fuel -> first + len <= length l ->
  (forall i a, i < first -> l !! i = Some a -> a <= val) ->
  (forall i a, first + len <= i -> l !! i = Some a -> val < a) ->
  wp (upper_bound fuel l val first len) (fun r => r <= length l /\
    (forall i a, i < r -> l !! i = Some a -> a <= val) /\ (forall i a, r <= i -> l !! i = Some a -> val < a)).
Proof.
  intros Hs. revert first len. induction fuel as [|fuel IH]; intros first len Hf Hl Hlo Hhi; cbn [upper_bound];
    (destruct (Nat.eqb_spec len 0) as [->|Hne]; [cbn [wp]; rewrite Nat.add_0_r in *; by split_and!|]); [lia|].
  assert (len / 2 < len) as Hh by (apply Nat.div_lt; lia). set (half := len / 2) in *.
  apply wp_bind, wp_vget; [lia|]. intros m Hm. destruct (Nat.ltb_spec val m) as [Hv|Hv]; apply IH; try lia.
  - done.
  - intros i a Hi Ha. specialize (Hs _ _ _ _ Hi Hm Ha). lia.
  - intros i a Hi Ha. specialize (Hs i (first + half) a m ltac:(lia) Ha Hm). lia.
  - intros i a Hi Ha. apply (Hhi i); [lia|done].
Qed.

Lemma get_el_id_spec o rows vid : offsets_ok o rows -> vid < rows -> (Z.of_nat (length (offset o)) < 2 ^ 64)%Z ->
  exists el lo hi, get_el_id o vid = Ret (Z.of_nat el) /\ offset o !! el = Some lo /\ offset o !! (el + 1) = Some hi /\
    lo <= vid < hi.
Proof.
  intros [H0 Hlast Hs] Hv Hmax.
  destruct (wp_elim _ _ (upper_bound_spec (offset o) vid (length (offset o)) 0 (length (offset o)) Hs
    ltac:(lia) ltac:(lia) ltac:(lia) ltac:(intros i a Hi Ha; apply lookup_lt_Some in Ha; lia))) as (r & Hr & Hrl & Hlo & Hhi).
  assert (0 < r) as Hr0. { destruct (decide (r = 0)) as [->|]; [|lia]. specialize (Hhi 0 0 ltac:(lia) H0). lia. }
  assert (r < length (offset o)) as Hr1.
  { destruct (decide (r = length (offset o))) as [->|]; [|lia].
    rewrite last_lookup in Hlast. apply (Hlo _ rows) in Hlast; [lia|]. apply lookup_lt_Some in Hlast. lia. }
  destruct (lookup_lt_is_Some_2 (offset o) (r - 1) ltac:(lia)) as [lo Hl].
  destruct (lookup_lt_is_Some_2 (offset o) r Hr1) as [hi Hh].
  exists (r - 1), lo, hi. unfold get_el_id. rewrite Hr. cbn [bind]. split_and!.
  - rewrite Z.mod_small by lia. f_equal. lia.
  - done.
  - by replace (r - 1 + 1) with r by lia.
  - apply (Hlo (r - 1)); [lia|done].
  - by apply (Hhi r).
Qed.

(** for a non-decreasing offset table from 0 to [rows], every vector id
    below [rows] belongs to exactly one document: [get_el_id] returns it, and
    the ids listed by [get_vids] for a document are exactly those whose
    [get_el_id] is that document (empty documents list none). *)
Theorem emb_list_ids_partition o rows vid el : offsets_ok o rows -> (Z.of_nat (length (offset o)) < 2 ^ 64)%Z ->
  vid < rows -> el < num_el o ->
  exists vids, get_vids o el = Ret vids /\ (vid ∈ vids <-> get_el_id o vid = Ret (Z.of_nat el)).
Proof.
  intros Hok Hmax Hv Hel. unfold num_el in Hel.
  destruct (lookup_lt_is_Some_2 (offset o) el ltac:(lia)) as [lo Hlo].
  destruct (lookup_lt_is_Some_2 (offset o) (el + 1) ltac:(lia)) as [hi Hhi].
  destruct (get_el_id_spec o rows vid Hok Hv Hmax) as (el' & lo' & hi' & Hid & Hlo' & Hhi' & Hin).
  unfold get_vids. rewrite (proj2 (vget_Ret _ _ _) Hhi), (proj2 (vget_Ret _ _ _) Hlo). cbn [bind].
  eexists. split; [done|]. rewrite elem_of_seq, Hid. destruct Hok as [_ _ Hs].
  pose proof (Hs el (el + 1) lo hi ltac:(lia) Hlo Hhi) as Hle. split.
  - intros Hr. f_equal. f_equal. destruct (lt_eq_lt_dec el' el) as [[Hlt|]|Hgt]; [|done|].
    + specialize (Hs (el' + 1) el hi' lo ltac:(lia) Hhi' Hlo). lia.
    + specialize (Hs (el + 1) el' hi lo' ltac:(lia) Hhi Hlo'). lia.
  - intros [= ->%Nat2Z.inj]. simplify_eq. lia.
Qed.

Lemma emb_list_ids_partition_witness :
  exists vids, get_vids (mkOffset [0; 2; 2; 5]) 2 = Ret vids /\
    (3 ∈ vids <-> get_el_id (mkOffset [0; 2; 2; 5]) 3 = Ret 2%Z).
Proof.
  apply (emb_list_ids_partition (mkOffset [0; 2; 2; 5]) 5 3 2); [|vm_compute; reflexivity|lia|vm_compute; lia].
  split; [reflexivity | reflexivity |].
  intros [|[|[|[|i]]]] [|[|[|[|j]]]] a b Hij Ha Hb; simpl in *; rewrite ?lookup_nil in *; simplify_eq; lia.
Defined.

(** ** The ordered aggregation is optimal *)

Section ordered.
#[local] Open Scope Z_scope.
Context (larger : bool) (dists : list Z) (el_len : nat).

(** [a] is no better a score than [b]. *)
Definition no_better (a b : Z) : Prop := if larger then a <= b else b <= a.

Definition pick : Z -> Z -> Z := if larger then nmax else nmin.

Lemma pick_spec a b : (pick a b = a \/ pick a b = b) /\ no_better a (pick a b) /\ no_better b (pick a b).
Proof.
  unfold pick, no_better. destruct larger; unfold nmax, nmin; simpl.
  - destruct (Z.ltb_spec a b); split_and!; auto; lia.
  - destruct (Z.ltb_spec b a); split_and!; auto; lia.
Qed.

Lemma no_better_trans a b c : no_better a b -> no_better b c -> no_better a c.
Proof. unfold no_better. destruct larger; lia. Qed.

(** Row [k], [k + 1], ... matched with the positions [js]. *)
Fixpoint cost (k : nat) (js : list nat) : Z :=
  match js with
  | [] => 0
  | j :: js => dists !!! (k * el_len + j)%nat + cost (S k) js
  end.

Lemma cost_snoc k js j : cost k (js ++ [j]) = cost k js + dists !!! ((k + length js) * el_len + j)%nat.
Proof.
  revert k. induction js as [|j' js IH]; intros k; cbn [app cost length].
  - rewrite Nat.add_0_r. lia.
  - rewrite IH. replace (S k + length js)%nat with (k + S (length js))%nat by lia. lia.
Qed.

(** A way to match [n] rows in order, with positions up to [j]. *)
Definition aligned (n j : nat) (js : list nat) : Prop :=
  length js = n /\ StronglySorted Nat.le js /\ Forall (fun x => (x <= j)%nat) js.

(** [v] is the best score of such a matching. *)
Definition optimal (n j : nat) (v : Z) : Prop :=
  (exists js, aligned n j js /\ cost 0 js = v) /\ forall js, aligned n j js -> no_better (cost 0 js) v.

Lemma optimal_0 j : optimal 0 j 0.
Proof.
  split.
  - exists []. split; [|done]. split_and!; [done|constructor|constructor].
  - intros [|x js] [Hl _]; [|done]. unfold no_better. destruct larger; simpl; lia.
Qed.

Lemma aligned_snoc n j js x : aligned n x js -> (x <= j)%nat -> aligned (S n) j (js ++ [x]).
Proof.
  intros (Hl & Hs & Hb) Hx. split_and!.
  - rewrite length_app. simpl. lia.
  - apply StronglySorted_app. split_and!; [|done|by repeat constructor].
    intros y z Hy ->%list_elem_of_singleton. rewrite Forall_forall in Hb. by apply Hb.
  - apply Forall_app. split; [|by repeat constructor]. eapply Forall_impl; [exact Hb|]. simpl. lia.
Qed.

Lemma aligned_inv n j js : aligned (S n) j js -> exists js' x, js = js' ++ [x] /\ aligned n x js' /\ (x <= j)%nat.
Proof.
  intros (Hl & Hs & Hb). destruct js as [|x js' _] using rev_ind; [done|]. exists js', x.
  apply StronglySorted_app in Hs as (Hc & Hs & _). apply Forall_app in Hb as [Hb Hx]. apply Forall_cons_1 in Hx as [Hx _].
  rewrite length_app in Hl. simpl in Hl. split; [done|]. split; [|done]. split_and!; [lia|done|].
  rewrite Forall_forall. intros y Hy. apply Hc; [done|]. by apply list_elem_of_singleton.
Qed.

(** The recurrence: match the last row at position [j], or below it. *)
Lemma optimal_first n v : optimal n 0 v -> optimal (S n) 0 (v + dists !!! (n * el_len)%nat).
Proof.
  intros [(js & Hjs & <-) Hbest]. split.
  - exists (js ++ [0%nat]). split; [by apply aligned_snoc|]. rewrite cost_snoc. destruct Hjs as [-> _].
    by rewrite Nat.add_0_l, Nat.add_0_r.
  - intros js' (js1 & x & -> & Ha & Hx)%aligned_inv. assert (x = 0%nat) as -> by lia.
    specialize (Hbest js1 Ha). rewrite cost_snoc. destruct Ha as [-> _]. rewrite Nat.add_0_l, Nat.add_0_r.
    unfold no_better in *. destruct larger; lia.
Qed.

Lemma optimal_next n j p v : optimal (S n) j p -> optimal n (S j) v ->
  optimal (S n) (S j) (pick p (v + dists !!! (n * el_len + S j)%nat)).
Proof.
  intros [(jp & Hjp & Hcp) Hbp] [(jv & Hjv & Hcv) Hbv].
  destruct (pick_spec p (v + dists !!! (n * el_len + S j)%nat)) as (Hor & Hp & Hv). set (w := pick _ _) in *. split.
  - destruct Hor as [->| ->].
    + exists jp. split; [|done]. destruct Hjp as (? & ? & Hb). split_and!; [done..|].
      eapply Forall_impl; [exact Hb|]. simpl. lia.
    + exists (jv ++ [S j]). split; [by apply aligned_snoc|]. rewrite cost_snoc. destruct Hjv as [-> _].
      rewrite Nat.add_0_l. lia.
  - intros js' (js1 & x & -> & Ha & Hx)%aligned_inv. destruct (decide (x = S j)) as [->|Hne].
    + eapply no_better_trans; [|exact Hv]. specialize (Hbv js1 Ha). rewrite cost_snoc. destruct Ha as [-> _].
      rewrite Nat.add_0_l. unfold no_better in *. destruct larger; lia.
    + eapply no_better_trans; [|exact Hp]. apply Hbp, aligned_snoc; [done|lia].
Qed.

(** After [n] rows and the first [j] positions of the next one. *)
Definition row_inv (n j : nat) (scores : list Z) : Prop :=
  length scores = el_len /\
  (forall k v, (k < j)%nat -> scores !! k = Some v -> optimal (S n) k v) /\
  (forall k v, (j <= k)%nat -> scores !! k = Some v -> optimal n k v).

Lemma ordered_row_spec n scores : (0 < el_len)%nat -> (S n * el_len <= length dists)%nat -> row_inv n 0 scores ->
  wp (ordered_row pick dists el_len n scores) (row_inv n el_len).
Proof.
  intros Hlen Hd (Hl & _ & Hold). unfold ordered_row.
  apply wp_bind, wp_vget; [lia|]. intros s0 Hs0. apply wp_bind, wp_vget; [nia|]. intros d0 Hd0.
  apply wp_bind, wp_vset; [lia|]. assert (0 + (1 + (el_len - 1)) = el_len)%nat as Hsz by lia.
  apply (wp_for _ (fun j => row_inv n j)).
  - split_and!; [by rewrite length_insert| |].
    + intros [|k] v Hk; [|lia]. rewrite list_lookup_insert_eq by lia. intros [= <-].
      apply list_lookup_total_correct in Hd0. rewrite <- Hd0. apply optimal_first. by apply (Hold 0%nat).
    + intros k v Hk. rewrite list_lookup_insert_ne by lia. apply Hold. lia.
  - intros j sc Hj (Hlsc & Hnew & Hrest). apply wp_bind, wp_vget; [lia|]. intros p Hp.
    apply wp_bind, wp_vget; [lia|]. intros v Hv. apply wp_bind, wp_vget; [nia|]. intros d Hdj.
    apply wp_vset; [lia|]. split_and!; [by rewrite length_insert| |].
    + intros k u Hk. destruct (decide (k = j)) as [->|Hne].
      * rewrite list_lookup_insert_eq by lia. intros [= <-]. apply list_lookup_total_correct in Hdj. rewrite <- Hdj.
        destruct j as [|j]; [lia|]. replace (S j - 1)%nat with j in Hp by lia.
        apply (optimal_next n j p v); [apply (Hnew j); [lia|done]|apply (Hrest (S j)); [lia|done]].
      * rewrite list_lookup_insert_ne by lia. apply Hnew. lia.
    + intros k u Hk. rewrite list_lookup_insert_ne by lia. apply Hrest. lia.
  - intros sc Hsc. by replace (1 + (el_len - 1))%nat with el_len in Hsc by lia.
Qed.

End ordered.

(** C37: in exact arithmetic the ordered aggregation of an [nq] by [el_len]
    distance matrix is the best score over all ways to match the query's vectors
    in order with document vectors at non-decreasing positions: the value
    returned is attained by such a matching and no matching is better.  With no
    row or no column there is no value. *)
Theorem ordered_sum_is_optimal (larger : bool) (dists : list Z) (nq el_len : nat) :
  nq * el_len <= length dists ->
  (nq = 0 \/ el_len = 0 -> get_ordered_sum_max_sim dists nq el_len larger = Ret None) /\
  (0 < nq -> 0 < el_len -> exists v, get_ordered_sum_max_sim dists nq el_len larger = Ret (Some v) /\
     optimal larger dists el_len nq (el_len - 1) v).
Proof.
  intros Hd. unfold get_ordered_sum_max_sim. split.
  - intros [->| ->]; [done|]. by rewrite orb_true_r.
  - intros Hnq Hel. rewrite !(proj2 (Nat.eqb_neq _ _)) by lia. cbn [orb].
    assert (wp (let* scores := foldM (fun scores i => ordered_row (if larger then nmax else nmin) dists el_len i scores)
        (replicate el_len nzero) (seq 0 nq) in let* v := vget scores (el_len - 1) in Ret (Some v))
      (fun r => exists v, r = Some v /\ optimal larger dists el_len nq (el_len - 1) v)) as H.
    { apply wp_bind. apply (wp_for _ (fun i => row_inv larger dists el_len i 0)).
      - split_and!; [apply length_replicate|lia|]. intros k v _ [-> _]%lookup_replicate. apply optimal_0.
      - intros i sc Hi Hsc. eapply wp_mono; [apply (ordered_row_spec larger); [done|nia|done]|].
        intros sc' (Hl & Hnew & _). rewrite Nat.add_1_r. split_and!; [done|lia|].
        intros k v _ Hk. apply (Hnew k); [|done]. rewrite <- Hl. by eapply lookup_lt_Some.
      - intros sc (Hl & _ & Hopt). apply wp_bind, wp_vget; [lia|]. intros v Hv. exists v. split; [done|].
        apply (Hopt _ v); [lia|done]. }
    apply wp_elim in H as (r & -> & v & -> & Hv). by exists v.
Qed.

Lemma ordered_sum_is_optimal_witness :
  exists v, get_ordered_sum_max_sim [3; 9; 8; 2; 5; 7]%Z 2 3 true = Ret (Some v) /\
    optimal true [3; 9; 8; 2; 5; 7]%Z 3 2 2 v.
Proof. apply (proj2 (ordered_sum_is_optimal true [3; 9; 8; 2; 5; 7]%Z 2 3 ltac:(simpl; lia))); lia. Defined.

(** ** Reading limits *)

Lemma collect_lims_spec keep pre post fuel done_ acc : length pre <= fuel -> Forall (fun v => keep v = true) pre ->
  collect_lims fuel keep (done_ ++ pre ++ post) (length done_) acc =
  match post with
  | [] => Undef
  | v :: _ => if keep v then collect_lims (fuel - length pre) keep (done_ ++ pre ++ post) (length (done_ ++ pre)) (acc ++ pre)
              else Ret (acc ++ pre, length (done_ ++ pre))
  end.
Proof.
  intros Hf Hk. revert fuel done_ acc Hf. induction Hk as [|v pre Hv Hk IH]; intros fuel done_ acc Hf.
  - cbn [app]. rewrite !app_nil_r, Nat.sub_0_r. destruct post as [|u post].
    + destruct fuel; cbn [collect_lims]; unfold vget; by rewrite app_nil_r, lookup_ge_None_2.
    + destruct (keep u) eqn:E; [done|].
      assert (vget (done_ ++ u :: post) (length done_) = Ret u) as Hg by (apply vget_Ret, list_lookup_middle; done).
      destruct fuel; cbn [collect_lims]; rewrite Hg; cbn [bind]; by rewrite E.
  - destruct fuel as [|fuel]; [simpl in Hf; lia|]. cbn [collect_lims app].
    assert (vget (done_ ++ v :: pre ++ post) (length done_) = Ret v) as -> by (apply vget_Ret, list_lookup_middle; done).
    cbn [bind]. rewrite Hv. specialize (IH fuel (done_ ++ [v]) (acc ++ [v]) ltac:(simpl in Hf; lia)).
    rewrite <- !app_assoc in IH. cbn [app] in IH. rewrite length_app in IH. cbn [length] in IH. rewrite IH.
    cbn [length Nat.sub]. done.
Qed.

(** limits [pre ++ [rows]] with every entry before the last below [rows]
    are what the offset table is built from.  [convert_lims_to_vector], whose
    loop goes on while the entry is at most [rows], reads one entry past the end
    of the same array. *)
Theorem lims_conversion_overreads pre rows : Forall (fun v => v < rows) pre ->
  emb_list_offset (pre ++ [rows]) rows = Ret (mkOffset (pre ++ [rows])) /\
  convert_lims_to_vector (pre ++ [rows]) rows = Undef.
Proof.
  intros Hp. split.
  - unfold emb_list_offset.
    rewrite (collect_lims_spec (fun v => v <? rows) pre [rows] _ [] []); [|rewrite length_app; lia|].
    + rewrite Nat.ltb_irrefl. cbn [bind app]. unfold vget. by rewrite list_lookup_middle.
    + eapply Forall_impl; [exact Hp|]. intros v. apply Nat.ltb_lt.
  - unfold convert_lims_to_vector.
    pose proof (collect_lims_spec (fun v => v <=? rows) (pre ++ [rows]) [] (length (pre ++ [rows])) [] []) as H.
    rewrite app_nil_r in H. cbn [app length] in H. rewrite H; [done|lia|].
    apply Forall_app. split; [|constructor; [apply Nat.leb_refl|constructor]].
    eapply Forall_impl; [exact Hp|]. intros v Hv. by apply Nat.leb_le, Nat.lt_le_incl.
Qed.

Lemma lims_conversion_overreads_witness :
  emb_list_offset ([0; 2; 4] ++ [5]) 5 = Ret (mkOffset ([0; 2; 4] ++ [5])) /\
  convert_lims_to_vector ([0; 2; 4] ++ [5]) 5 = Undef.
Proof. apply (lims_conversion_overreads [0; 2; 4] 5). repeat constructor. Defined.

(** ** Choosing the aggregation *)

(** for every MAX_SIM metric the lookup of the aggregation function finds
    the unordered sum; for every DTW metric the optional that is returned has a
    value, an empty function, so the callers' [has_value] check passes and the
    call throws. *)
Theorem agg_func_lookup {A} `{!Num A} (lowest highest : A) metric el :
  get_el_metric_type metric = Some el ->
  (el = "MAX_SIM" /\ get_emb_list_agg_func lowest highest el = Some (Some (get_sum_max_sim lowest highest))) \/
  (el = "DTW" /\ exists f, get_emb_list_agg_func lowest highest el = Some f /\
     forall dists nq el_len b, exists e, call_agg f dists nq el_len b = Throw e).
Proof.
  unfold get_el_metric_type. repeat case_bool_decide; intros [= <-]; [by left|right].
  split; [done|]. exists None. split; [done|]. intros. by eexists.
Qed.

Lemma agg_func_lookup_witness :
  ("DTW" = "MAX_SIM"%string /\ get_emb_list_agg_func 0%Z 0%Z "DTW" = Some (Some (get_sum_max_sim 0%Z 0%Z))) \/
  ("DTW" = "DTW"%string /\ exists f, get_emb_list_agg_func 0%Z 0%Z "DTW" = Some f /\
     forall dists nq el_len b, exists e, call_agg f dists nq el_len b = Throw e).
Proof. apply (agg_func_lookup 0%Z 0%Z "DTW_IP" "DTW"). vm_compute. reflexivity. Defined.

(** ** The unordered sum *)

Section unordered.
Context {A : Type} `{!Num A, !NumOrder A, !Inhabited A}.
Implicit Types dists : list A.

(** [m] is the greatest of [lowest] and the values of row [i]. *)
Definition row_max (lowest : A) dists (el_len i : nat) (m : A) : Prop :=
  (m = lowest \/ exists j, j < el_len /\ dists !! (i * el_len + j) = Some m) /\
  nle lowest m /\ forall j d, j < el_len -> dists !! (i * el_len + j) = Some d -> nle d m.

Lemma find_max_spec lowest dists el_len i : nok lowest -> Forall nok dists -> 0 < el_len ->
  (i + 1) * el_len <= length dists -> (Z.of_nat ((i + 1) * el_len) < 2 ^ 31)%Z ->
  exists m, find_max_in_range lowest dists (to_int (i * el_len)) (to_int ((i + 1) * el_len)) = Ret (Some m) /\
    nok m /\ row_max lowest dists el_len i m.
Proof.
  intros Hlow Hok Hel Hd Hmax.
  assert (forall z, (Z.of_nat z < 2 ^ 31)%Z -> to_int z = Z.of_nat z) as Hint.
  { intros z Hz. unfold to_int. rewrite Z.mod_small; lia. }
  unfold find_max_in_range. rewrite !Hint by nia.
  rewrite (proj2 (Z.ltb_ge _ _)), (proj2 (Z.leb_gt _ _)) by nia. cbn [orb].
  rewrite Nat2Z.id. replace (Z.to_nat (Z.of_nat ((i + 1) * el_len) - Z.of_nat (i * el_len))) with el_len by nia.
  assert (wp (let* v := foldM (fun max_v i => let* d := vget dists i in Ret (if nltb max_v d then d else max_v))
      lowest (seq (i * el_len) el_len) in Ret (Some v))
    (fun r => exists m, r = Some m /\ nok m /\ row_max lowest dists el_len i m)) as H;
    [|apply wp_elim in H as (r & -> & m & -> & ? & ?); eauto].
  apply wp_bind. apply (wp_for _ (fun e m => nok m /\
    (m = lowest \/ exists j, j < el_len /\ dists !! (i * el_len + j) = Some m) /\ nle lowest m /\
    forall j d, i * el_len + j < e -> dists !! (i * el_len + j) = Some d -> nle d m)).
  - split_and!; [done|by left|by apply nle_refl|lia].
  - intros e m He (Hm & Hor & Hlm & Hall). apply wp_bind, wp_vget; [nia|]. intros d Hde.
    assert (nok d) as Hdok by (by eapply Forall_lookup_1). cbn [wp].
    assert (exists j, e = i * el_len + j /\ j < el_len) as (je & -> & Hje) by (exists (e - i * el_len); lia).
    destruct (nltb m d) eqn:E.
    + assert (nle m d) as Hmd by (by apply nltb_nle). split_and!; [done|right; eauto|by etrans|].
      intros j u Hj Hu. destruct (decide (j = je)) as [->|]; [simplify_eq; by apply nle_refl|].
      etrans; [|exact Hmd]. apply (Hall j u); [lia|done].
    + split_and!; [done..|]. intros j u Hj Hu. destruct (decide (j = je)) as [->|]; [simplify_eq; by split_and!|].
      apply (Hall j u); [lia|done].
  - intros m (Hm & Hor & Hlm & Hall). cbn [wp]. exists m. unfold row_max. split_and!; [done..|].
    intros j d Hj Hd'. apply (Hall j d); [lia|done].
Qed.

(** with at least one column, finite indices and no NaN, the unordered
    aggregation returns the sum, in row order, of the greatest value of each
    query row. *)
Theorem sum_max_sim_sums_row_maxima (lowest highest : A) dists (nq el_len : nat) :
  nok lowest -> Forall nok dists -> 0 < el_len -> nq * el_len <= length dists ->
  (Z.of_nat (nq * el_len) < 2 ^ 31)%Z ->
  exists ms, get_sum_max_sim lowest highest dists nq el_len true = Ret (Some (foldl nadd nzero ms)) /\
    length ms = nq /\ forall i m, ms !! i = Some m -> row_max lowest dists el_len i m.
Proof.
  intros Hlow Hok Hel Hd Hmax. unfold get_sum_max_sim.
  assert (forall n k score, k + n = nq -> exists ms,
    sum_rows (find_max_in_range lowest dists) el_len (seq k n) score = Ret (Some (foldl nadd score ms)) /\
    length ms = n /\ forall i m, ms !! i = Some m -> row_max lowest dists el_len (k + i) m) as H; [|apply (H nq 0 nzero eq_refl)].
  induction n as [|n IH]; intros k score Hk.
  - exists []. split_and!; [done..|]. intros i m Hi. by rewrite lookup_nil in Hi.
  - cbn [seq sum_rows]. destruct (find_max_spec lowest dists el_len k Hlow Hok Hel ltac:(nia) ltac:(nia)) as (m & -> & _ & Hm).
    cbn [bind]. destruct (IH (S k) (nadd score m) ltac:(lia)) as (ms & -> & Hl & Hms).
    exists (m :: ms). split_and!; [done|simpl; lia|]. intros [|i] u Hu; cbn in Hu; simplify_eq.
    + by rewrite Nat.add_0_r.
    + rewrite <- Nat.add_succ_comm. by apply Hms.
Qed.

End unordered.

Lemma sum_max_sim_sums_row_maxima_witness :
  exists ms, get_sum_max_sim (-1000)%Z 1000%Z [3; 9; 8; 2; 5; 7]%Z 2 3 true = Ret (Some (foldl nadd nzero ms)) /\
    length ms = 2 /\ forall i m, ms !! i = Some m -> row_max (-1000)%Z [3; 9; 8; 2; 5; 7]%Z 3 i m.
Proof.
  apply (sum_max_sim_sums_row_maxima (-1000)%Z 1000%Z [3; 9; 8; 2; 5; 7]%Z 2 3);
    [exact I | repeat constructor | lia | simpl; lia | simpl; lia].
Defined.
