(* ===== verification/ResultHeap.v ===== *)
(** * Bounded result heap (include/knowhere/heap.h)

    [ResultMaxHeap] keeps the [k] smallest distances in a
    [std::priority_queue], which is a vector maintained by [std::push_heap] and
    [std::pop_heap] under the lexicographic order of pairs. *)

From S2P Require Import Prelude Float Num StdHeap.

Section heap.
Context {A : Type} `{!Num A}.

(** [operator<] of [std::pair<DisT, IdT>]. *)
Definition pair_lt (x y : A * Z) : bool :=
  nltb (fst x) (fst y) || (negb (nltb (fst y) (fst x)) && (snd x <? snd y)%Z).

Record ResultMaxHeap := mkResultHeap { k_ : nat; pq : list (A * Z) }.

Definition result_heap (k : nat) : ResultMaxHeap := mkResultHeap k [].

(** [pq.emplace(dis, id)] and [pq.pop()]. *)
Definition pq_emplace (q : list (A * Z)) (x : A * Z) : M (list (A * Z)) := push_heap pair_lt (q ++ [x]).
Definition pq_pop (q : list (A * Z)) : M (list (A * Z)) :=
  let* q := pop_heap pair_lt q in Ret (take (length q - 1) q).

Definition Push (h : ResultMaxHeap) (dis : A) (id : Z) : M ResultMaxHeap :=
  if length (pq h) <? k_ h then
    let* q := pq_emplace (pq h) (dis, id) in Ret (mkResultHeap (k_ h) q)
  else
    let* top := vget (pq h) 0 in
    if nltb dis (fst top) then
      let* q := pq_pop (pq h) in
      let* q := pq_emplace q (dis, id) in
      Ret (mkResultHeap (k_ h) q)
    else Ret h.

Definition Pop (h : ResultMaxHeap) : M (ResultMaxHeap * option (A * Z)) :=
  match pq h with
  | [] => Ret (h, None)
  | _ =>
      let* res := vget (pq h) 0 in
      let* q := pq_pop (pq h) in
      Ret (mkResultHeap (k_ h) q, Some res)
  end.

(** Popping until the heap is empty. *)
Fixpoint pop_all (fuel : nat) (h : ResultMaxHeap) : M (list (A * Z)) :=
  let* (h', r) := Pop h in
  match r, fuel with
  | None, _ => Ret []
  | Some _, 0 => Undef
  | Some x, S fuel => let* rest := pop_all fuel h' in Ret (x :: rest)
  end.

Definition push_results (h : ResultMaxHeap) (l : list (A * Z)) : M ResultMaxHeap :=
  foldM (fun h x => Push h (fst x) (snd x)) h l.

(** ** The [k] smallest *)

Context `{!NumOrder A}.
Implicit Types x y : A * Z.

Definition okp x : Prop := nok (fst x).
Definition above x y : Prop := nle (fst y) (fst x).

#[local] Instance above_trans : Transitive above.
Proof. intros x y z Hxy Hyz. unfold above in *. by etrans. Qed.

Lemma above_refl x : okp x -> above x x.
Proof. apply nle_refl. Qed.

Lemma pair_lt_true p v : okp p -> okp v -> pair_lt p v = true -> above v p.
Proof.
  intros Hp Hv. unfold pair_lt. rewrite orb_true_iff, andb_true_iff, negb_true_iff.
  intros [H|[H _]]; [by apply nltb_nle|by split_and!].
Qed.

Lemma pair_lt_false p v : okp p -> okp v -> pair_lt p v = false -> above p v.
Proof. intros Hp Hv. unfold pair_lt. rewrite orb_false_iff. intros [H _]. by split_and!. Qed.

(** [K] are [cap] smallest of the elements [l] (all of them while they fit). *)
Definition smallest_of (cap : nat) (l K : list (A * Z)) : Prop :=
  exists D, l ≡ₚ K ++ D /\ length K <= cap /\ (D = [] \/ length K = cap) /\
    forall x d, x ∈ K -> d ∈ D -> above d x.

Definition heap_ok (h : ResultMaxHeap) : Prop := Forall okp (pq h) /\ heap_ordered above (pq h).

Lemma pq_emplace_spec q x : Forall okp q -> okp x -> heap_ordered above q ->
  wp (pq_emplace q x) (fun q' => Forall okp q' /\ heap_ordered above q' /\ q' ≡ₚ x :: q).
Proof.
  intros Hq Hx Ho. eapply wp_mono; [apply (push_heap_spec _ okp above pair_lt_true pair_lt_false); done|].
  intros q' [Ho' Hp]. split_and!; [|done..]. rewrite Hp. by constructor.
Qed.

Lemma pq_pop_spec x q : Forall okp (x :: q) -> heap_ordered above (x :: q) ->
  wp (pq_pop (x :: q)) (fun q' => Forall okp q' /\ heap_ordered above q' /\ q' ≡ₚ q) /\ Forall (above x) (x :: q).
Proof.
  intros Hq Ho. split; [|by apply (heap_root okp above above_refl)].
  unfold pq_pop. apply wp_bind.
  eapply wp_mono; [apply (pop_heap_spec _ okp above above_refl pair_lt_true pair_lt_false); done|].
  intros l' (front & -> & Ho' & Hp). cbn [wp]. rewrite length_app. simpl.
  replace (length front + 1 - 1) with (length front) by lia. rewrite take_app_length.
  split_and!; [|done..]. rewrite Hp. by apply Forall_cons_1 in Hq as [_ ?].
Qed.

Lemma Push_spec h l x : 0 < k_ h -> heap_ok h -> okp x -> smallest_of (k_ h) l (pq h) ->
  wp (Push h (fst x) (snd x)) (fun h' => heap_ok h' /\ k_ h' = k_ h /\ smallest_of (k_ h) (l ++ [x]) (pq h')).
Proof.
  intros Hk [Hok Ho] Hx (D & HlD & HK & HD & Hle). unfold Push. rewrite <- surjective_pairing.
  assert (l ++ [x] ≡ₚ x :: pq h ++ D) as Hlx by (by rewrite Permutation_app_comm, HlD).
  destruct (Nat.ltb_spec (length (pq h)) (k_ h)) as [Hlt|Hge].
  - apply wp_bind. eapply wp_mono; [by apply pq_emplace_spec|]. intros q' (Hok' & Ho' & Hp). cbn [wp pq k_].
    destruct HD as [->|HD]; [|lia]. split_and!; [done..|]. exists []. split_and!.
    + by rewrite Hlx, app_nil_r, app_nil_r, Hp.
    + rewrite Hp. simpl. lia.
    + by left.
    + by intros y d _ ?%elem_of_nil.
  - destruct (pq h) as [|t rest] eqn:Hpq; [simpl in *; lia|]. change (vget (t :: rest) 0) with (Ret t). cbn [bind].
    destruct (pq_pop_spec t rest Hok Ho) as [Hpop Hmax].
    assert (okp t) as Hokt by (by apply Forall_cons_1 in Hok as [? _]).
    destruct (nltb (fst x) (fst t)) eqn:E.
    + apply wp_bind. eapply wp_mono; [exact Hpop|]. intros q1 (Hok1 & Ho1 & Hp1).
      apply wp_bind. eapply wp_mono; [by apply pq_emplace_spec|]. intros q2 (Hok2 & Ho2 & Hp2). cbn [wp pq k_].
      assert (above t x) as Htx by (by apply nltb_nle).
      split_and!; [done..|]. exists (t :: D). rewrite Hp2, Hp1. split_and!.
      * rewrite Hlx. simpl. apply perm_skip, Permutation_middle.
      * simpl in *. lia.
      * right. simpl in *. lia.
      * intros y d Hy Hd. rewrite Hp2, Hp1 in Hy. apply elem_of_cons in Hy, Hd.
        assert (above t y) as Hty.
        { destruct Hy as [->|Hy]; [done|]. rewrite Forall_forall in Hmax. apply Hmax. apply elem_of_cons. by right. }
        destruct Hd as [->|Hd]; [done|]. transitivity t; [|done]. apply Hle; [|done]. apply elem_of_cons. by left.
    + cbn [wp]. split; [unfold heap_ok; by rewrite Hpq|]. split; [done|]. rewrite Hpq. exists (x :: D). split_and!.
      * rewrite Hlx. apply Permutation_middle.
      * done.
      * right. simpl in *. lia.
      * intros y d Hy Hd. apply elem_of_cons in Hd as [->|Hd]; [|by apply Hle].
        assert (above t y) by (rewrite Forall_forall in Hmax; by apply Hmax).
        transitivity t; [|done]. by split_and!.
Qed.

Definition descending_pairs : list (A * Z) -> Prop := StronglySorted above.

Lemma pop_all_spec fuel h : heap_ok h -> length (pq h) <= fuel ->
  wp (pop_all fuel h) (fun out => out ≡ₚ pq h /\ descending_pairs out).
Proof.
  revert h. induction fuel as [|fuel IH]; intros h [Hok Ho] Hf; cbn [pop_all]; unfold Pop;
    destruct (pq h) as [|t rest] eqn:Hpq; try (simpl in Hf; lia); try (cbn; rewrite ?Hpq; split; [done|constructor]).
  destruct (pq_pop_spec t rest Hok Ho) as [Hpop Hmax]. change (vget (t :: rest) 0) with (Ret t). cbn [bind].
  apply wp_bind, wp_bind. eapply wp_mono; [exact Hpop|]. intros q (Hok' & Ho' & Hp). cbn [wp].
  apply wp_bind. eapply wp_mono; [apply (IH (mkResultHeap (k_ h) q)); [done|]|].
  - cbn [pq]. rewrite Hp. simpl in Hf. lia.
  - intros out [Hout Hd]. cbn [wp pq] in *. rewrite Hp in Hout. split; [by rewrite Hout|].
    constructor; [done|]. rewrite Hout. by apply Forall_cons_1 in Hmax as [_ ?].
Qed.

(** pushing any number of results that are not NaN into a heap of capacity
    [k > 0] and popping it empty returns [k] smallest of them (all of them when
    fewer were pushed), largest first. *)
Theorem result_heap_keeps_smallest k (l : list (A * Z)) : 0 < k -> Forall okp l ->
  exists out, (let* h := push_results (result_heap k) l in pop_all (length (pq h)) h) = Ret out /\
    smallest_of k l out /\ descending_pairs out.
Proof.
  intros Hk Hl. apply wp_elim, wp_bind.
  apply (wp_foldM _ (fun pre h => heap_ok h /\ k_ h = k /\ smallest_of k pre (pq h))).
  - split_and!; [split; [constructor|by intros j x y _ [=]]|done|]. exists []. split_and!; [done|simpl; lia|by left|].
    by intros x d ?%elem_of_nil.
  - intros pre x post h -> (Hok & Hkh & Hs). apply Forall_app in Hl as [_ Hx]. apply Forall_cons_1 in Hx as [Hx _].
    rewrite <- Hkh in Hs. eapply wp_mono; [apply Push_spec; [by rewrite Hkh|done..]|].
    intros h' (? & ? & ?). split_and!; [done|congruence|by rewrite <- Hkh].
  - intros h (Hok & _ & D & HD & Hlen & Hc & Hle). eapply wp_mono; [by apply pop_all_spec|].
    intros out [Hp Hd]. split; [|done]. exists D. split_and!; [by rewrite Hp|by rewrite Hp|by rewrite Hp|].
    intros x d Hx. apply Hle. by rewrite <- Hp.
Qed.

End heap.

Lemma result_heap_keeps_smallest_witness :
  exists out, (let* h := push_results (result_heap 2) [(5, 0); (9, 1); (3, 2); (4, 3)]%Z in pop_all (length (pq h)) h) = Ret out /\
    smallest_of 2 [(5, 0); (9, 1); (3, 2); (4, 3)]%Z out /\ descending_pairs out.
Proof. apply (result_heap_keeps_smallest 2 [(5, 0); (9, 1); (3, 2); (4, 3)]%Z); [lia | repeat constructor]. Defined.
