(* ===== verification/Config.v ===== *)
(** * Configurations (knowhere/config.h, common/config.cc, comp/materialized_view.cc)

    A configuration object has optional members; a dictionary describes each
    parameter: the member it fills, the operations that read it, its default, its
    range.  [FormatAndCheck] turns numbers given as strings into numbers, [Load]
    copies the parameters of one operation from a JSON object into the members
    and lets the class adjust them.  The dictionary is an unordered map: it is a
    list of pairs in any order.  Of the messages only what may throw is modelled:
    they print the offending value with [to_string], which rejects text that is
    not UTF-8. *)

From S2P Require Import Prelude Float Expected.

(** ** The JSON library

    What the code uses of nlohmann::json: tests of the kind of a value,
    conversions, and the text of a value.  A conversion from a value of another
    kind throws; between numbers it is a [static_cast]. *)

Definition int32_min : Z := (- 2 ^ 31)%Z.
Definition int32_max : Z := (2 ^ 31 - 1)%Z.
Definition int64_min : Z := (- 2 ^ 63)%Z.
Definition int64_max : Z := (2 ^ 63 - 1)%Z.
Definition is_int32 (z : Z) : Prop := (int32_min <= z <= int32_max)%Z.
Definition is_int64 (z : Z) : Prop := (int64_min <= z <= int64_max)%Z.

(** [static_cast<int32_t>] of a 64-bit integer. *)
Definition to_int32 (z : Z) : Z := ((z + 2 ^ 31) mod 2 ^ 32 - 2 ^ 31)%Z.

Record MaterializedViewSearchInfo := mkView {
  field_id_to_touched_categories_cnt : list (Z * Z);
  is_pure_and : bool;
  has_not : bool
}.

(** The code returns a value. *)
Definition returns {A} (m : M A) : Prop := exists a, m = Ret a.

(** Well-formed UTF-8: [n] continuation bytes to come, the next one between [lo]
    and [hi]. *)
Fixpoint utf8_from (n lo hi : nat) (s : string) : bool :=
  match s with
  | EmptyString => n =? 0
  | String c s' =>
      let b := Ascii.nat_of_ascii c in
      let between l h := (l <=? b) && (b <=? h) in
      match n with
      | S n => between lo hi && utf8_from n 128 191 s'
      | 0 =>
          if b <? 128 then utf8_from 0 128 191 s'
          else if between 194 223 then utf8_from 1 128 191 s'
          else if b =? 224 then utf8_from 2 160 191 s'
          else if b =? 237 then utf8_from 2 128 159 s'
          else if between 225 239 then utf8_from 2 128 191 s'
          else if b =? 240 then utf8_from 3 144 191 s'
          else if between 241 243 then utf8_from 3 128 191 s'
          else if b =? 244 then utf8_from 3 128 143 s'
          else false
      end
  end.
Definition utf8 (s : string) : bool := utf8_from 0 128 191 s.

Class JsonLib (Json : Type) := {
  is_null : Json -> bool;
  is_number_integer : Json -> bool;
  is_number : Json -> bool;
  is_string : Json -> bool;
  is_boolean : Json -> bool;
  get_int64 : Json -> M Z;                            (* [get<T>()] and conversions to T *)
  get_int32 : Json -> M Z;
  get_double : Json -> M spec_float;
  get_float : Json -> M spec_float;
  get_string : Json -> M string;
  get_bool : Json -> M bool;
  equals_string : Json -> string -> bool;             (* [== "..."] *)
  json_at : Json -> string -> option Json;            (* [contains] and [at] *)
  get_to_bool : Json -> M bool;
  get_to_counts : Json -> M (list (Z * Z));
  json_int : Z -> Json;
  json_float : spec_float -> Json;
  json_bool : bool -> Json;
  dump : Json -> M string;                            (* [to_string] *)
  dump_object : gmap string Json -> M string
}.

(** What the code relies on: a value of the right kind converts, integers by
    truncation; an integer assigned to a JSON value is read back as it was;
    numbers and booleans are no strings; the text of a value exists unless it
    contains a string that is not well-formed UTF-8. *)
Class JsonLaws (Json : Type) `{!JsonLib Json} := {
  get_integer : forall j, is_number_integer j = true ->
    exists z, get_int64 j = Ret z /\ is_int64 z /\ get_int32 j = Ret (to_int32 z);
  get_number : forall j, is_number j = true -> returns (get_double j) /\ returns (get_float j);
  get_text : forall j, is_string j = true ->
    exists s, get_string j = Ret s /\ (forall t, equals_string j t = bool_decide (s = t)) /\ (returns (dump j) <-> utf8 s = true);
  get_boolean : forall j, is_boolean j = true -> returns (get_bool j);
  json_int_kind : forall z, is_number_integer (json_int z) = true /\ is_string (json_int z) = false;
  json_int_get : forall z, is_int64 z -> get_int64 (json_int z) = Ret z;
  json_float_kind : forall f, is_number (json_float f) = true /\ is_string (json_float f) = false;
  json_bool_kind : forall b, is_boolean (json_bool b) = true /\ is_string (json_bool b) = false;
  dump_scalar : forall j, is_number_integer j || is_number j || is_boolean j = true -> returns (dump j);
  dump_members : forall m : gmap string Json,
    returns (dump_object m) <-> forall key j, m !! key = Some j -> utf8 key = true /\ returns (dump j)
}.

(** Whether [DLOG] is compiled in, which is so unless [NDEBUG] is defined. *)
Class GlogBuild := dlog : bool.

(** ** Numbers in strings *)

(** What [std::stoll] and [std::stof] do: a value and the index behind it, or one
    of their two exceptions. *)
Inductive stox (A : Type) := Converted (v : A) (sz : nat) | OutOfRange | InvalidArgument.
Arguments Converted {A}.
Arguments OutOfRange {A}.
Arguments InvalidArgument {A}.

Definition isspace (c : Ascii.ascii) : bool :=
  let n := Ascii.nat_of_ascii c in (n =? 32) || ((9 <=? n) && (n <=? 13)).
Definition digit_of (c : Ascii.ascii) : option Z :=
  let n := Ascii.nat_of_ascii c in if (48 <=? n) && (n <=? 57) then Some (Z.of_nat (n - 48)) else None.

Fixpoint skip_space (s : string) (i : nat) : string * nat :=
  match s with
  | String c s' => if isspace c then skip_space s' (S i) else (s, i)
  | EmptyString => (s, i)
  end.

(** The digits from [s] on: their value added to [acc], and how many. *)
Fixpoint read_digits (s : string) (acc : Z) (n : nat) : Z * nat :=
  match s with
  | String c s' => match digit_of c with Some d => read_digits s' (10 * acc + d)%Z (S n) | None => (acc, n) end
  | EmptyString => (acc, n)
  end.

Definition stoll (s : string) : stox Z :=
  let '(s, i) := skip_space s 0 in
  let '(neg, s, i) :=
    match s with
    | String c s' =>
        if Ascii.nat_of_ascii c =? 45 (* '-' *) then (true, s', S i)
        else if Ascii.nat_of_ascii c =? 43 (* '+' *) then (false, s', S i) else (false, s, i)
    | EmptyString => (false, s, i)
    end in
  let '(v, n) := read_digits s 0 0 in
  if n =? 0 then InvalidArgument
  else
    let v := if neg : bool then (- v)%Z else v in
    if bool_decide (is_int64 v) then Converted v (i + n) else OutOfRange.

(** [std::stof] is the C library's. *)
Class FloatConv := { stof : string -> stox spec_float }.

(** [s.c_str()] read as a string: up to the first NUL. *)
Fixpoint c_str (s : string) : string :=
  match s with
  | String c s' => if Ascii.nat_of_ascii c =? 0 then EmptyString else String c (c_str s')
  | EmptyString => EmptyString
  end.

(** ** Entries *)

Record Range (T : Type) := mkRange { left : T; right : T; include_left : bool; include_right : bool }.
Arguments mkRange {T}.
Arguments left {T}.
Arguments right {T}.
Arguments include_left {T}.
Arguments include_right {T}.

Definition within {T} (ltb leb : T -> T -> bool) (r : Range T) (val : T) : bool :=
  let left_range_check := ltb (left r) val || (include_left r && leb (left r) val) in
  let right_range_check := ltb val (right r) || (include_right r && leb val (right r)) in
  left_range_check && right_range_check.

Definition within_int : Range Z -> Z -> bool := within Z.ltb Z.leb.
Definition within_float : Range spec_float -> spec_float -> bool := within SFltb SFleb.

Inductive PARAM_TYPE :=
  TRAIN | SEARCH | RANGE_SEARCH | FEDER | DESERIALIZE | DESERIALIZE_FROM_FILE | ITERATOR | CLUSTER | STATIC.

Definition param_bit (p : PARAM_TYPE) : Z :=
  match p with
  | TRAIN => 1 | SEARCH => 2 | RANGE_SEARCH => 4 | FEDER => 8 | DESERIALIZE => 16 | DESERIALIZE_FROM_FILE => 32
  | ITERATOR => 64 | CLUSTER => 128 | STATIC => 256
  end.

#[export] Instance param_eq_dec : EqDecision PARAM_TYPE.
Proof. solve_decision. Defined.

(** A member of the object: the class that declares it and its name.  A derived
    class may declare a member of the same name again. *)
Abbreviation Field := (string * string)%type.

Inductive Value :=
  | VString (s : string) | VFloat (f : spec_float) | VInt (z : Z) | VInt64 (z : Z) | VBool (b : bool)
  | VView (v : MaterializedViewSearchInfo).

(** The members and what their optionals hold. *)
Abbreviation Fields := (gmap Field (option Value)).

Record Entry (T : Type) := mkEntry {
  val : Field;                      (* the member the entry points to *)
  default_val : option T;
  type : Z;                         (* the operations that read it *)
  range : option (Range T);
  allow_empty_without_default : bool
}.
Arguments mkEntry {T}.
Arguments val {T}.
Arguments default_val {T}.
Arguments type {T}.
Arguments range {T}.
Arguments allow_empty_without_default {T}.

Inductive VarEntry :=
  | EString (e : Entry string) | EFloat (e : Entry spec_float) | EInt (e : Entry Z) | EInt64 (e : Entry Z)
  | EBool (e : Entry bool) | EView (e : Entry MaterializedViewSearchInfo).

Record Config := mkConfig {
  __DICT__ : list (string * VarEntry);
  fields : Fields;
  CheckAndAdjust : PARAM_TYPE -> Fields -> M (Fields * Status)
}.

(** ** Load *)

Section load.
Context {Json : Type} `{!JsonLib Json, !FloatConv}.
Implicit Types (json : gmap string Json) (j : Json).

(** An error that prints the value. *)
Definition reject {T} j (s : Status) : M (T + Status) := let* _ := dump j in Ret (inr s).

(** What one present parameter yields: a value or the status of the error. *)
Definition convert_int (e : Entry Z) j : M (Z + Status) :=
  if negb (is_number_integer j) then reject j type_conflict_in_json
  else
    match range e with
    | Some r =>
        let* n := get_int64 j in
        if (int32_max <? n)%Z then reject j arithmetic_overflow
        else
          let* v := get_int32 j in
          if within_int r v then Ret (inl v) else reject j out_of_range_in_json
    | None => let* v := get_int32 j in Ret (inl v)
    end.

Definition convert_int64 (e : Entry Z) j : M (Z + Status) :=
  if negb (is_number_integer j) then reject j type_conflict_in_json
  else
    match range e with
    | Some r =>
        let* n := get_int64 j in
        if (int64_max <? n)%Z then reject j arithmetic_overflow
        else
          let* v := get_int64 j in
          if within_int r v then Ret (inl v) else reject j out_of_range_in_json
    | None => let* v := get_int64 j in Ret (inl v)
    end.

(** [std::numeric_limits<float>::max()]. *)
Definition float_max : spec_float := S754_finite false 16777215 104.

Definition convert_float (e : Entry spec_float) j : M (spec_float + Status) :=
  if negb (is_number j) then reject j type_conflict_in_json
  else
    match range e with
    | Some r =>
        let* x := get_double j in
        if SFltb (F64.of_f32 float_max) x then reject j arithmetic_overflow
        else
          let* v := get_float j in
          if within_float r v then Ret (inl v) else reject j out_of_range_in_json
    | None => let* v := get_float j in Ret (inl v)
    end.

Definition convert_string j : M (string + Status) :=
  if negb (is_string j) then reject j type_conflict_in_json else let* v := get_string j in Ret (inl v).
Definition convert_bool j : M (bool + Status) :=
  if negb (is_boolean j) then reject j type_conflict_in_json else let* v := get_bool j in Ret (inl v).

(** [from_json]: missing keys keep the defaults, values of another kind throw. *)
Definition from_json j (info : MaterializedViewSearchInfo) : M MaterializedViewSearchInfo :=
  if is_null j then Ret info
  else
    let* info := match json_at j "field_id_to_touched_categories_cnt" with
      | Some v => let* c := get_to_counts v in Ret (mkView c (is_pure_and info) (has_not info)) | None => Ret info end in
    let* info := match json_at j "is_pure_and" with
      | Some v => let* b := get_to_bool v in Ret (mkView (field_id_to_touched_categories_cnt info) b (has_not info)) | None => Ret info end in
    match json_at j "has_not" with
    | Some v => let* b := get_to_bool v in Ret (mkView (field_id_to_touched_categories_cnt info) (is_pure_and info) b) | None => Ret info end.

Definition default_view : MaterializedViewSearchInfo := mkView [] true false.

(** What an entry does with the object: nothing, a new value, or an error. *)
Definition check_entry {T} (inj : T -> Value) (convert : Json -> M (T + Status)) json (ty : PARAM_TYPE) (key : string)
    (e : Entry T) : M (option Value + Status) :=
  if (Z.land (param_bit ty) (type e) =? 0)%Z then Ret (inl None)
  else
    match json !! key with
    | None =>
        match default_val e with
        | None => if allow_empty_without_default e then Ret (inl None) else Ret (inr invalid_param_in_json)
        | Some d => Ret (inl (Some (inj d)))
        end
    | Some j =>
        let* r := convert j in
        match r with inl v => Ret (inl (Some (inj v))) | inr s => Ret (inr s) end
    end.

Definition check_var json (ty : PARAM_TYPE) (key : string) (var : VarEntry) : M (option Value + Status) :=
  match var with
  | EInt e => check_entry VInt (convert_int e) json ty key e
  | EInt64 e => check_entry VInt64 (convert_int64 e) json ty key e
  | EFloat e => check_entry VFloat (convert_float e) json ty key e
  | EString e => check_entry VString convert_string json ty key e
  | EBool e => check_entry VBool convert_bool json ty key e
  | EView e => check_entry VView (fun j => let* v := from_json j default_view in Ret (inl v)) json ty key e
  end.

(** The member an entry points to. *)
Definition target (var : VarEntry) : Field :=
  match var with
  | EInt e => val e | EInt64 e => val e | EFloat e => val e | EString e => val e | EBool e => val e | EView e => val e
  end.

Fixpoint load_loop (dict : list (string * VarEntry)) json (ty : PARAM_TYPE) (fs : Fields) : M (Fields * Status) :=
  match dict with
  | [] => Ret (fs, success)
  | (key, var) :: rest =>
      let* r := check_var json ty key var in
      match r with
      | inl None => load_loop rest json ty fs
      | inl (Some v) => load_loop rest json ty (<[target var := Some v]> fs)
      | inr s => Ret (fs, s)
      end
  end.

Definition Load (cfg : Config) json (ty : PARAM_TYPE) : M (Fields * Status) :=
  let* (fs, s) := load_loop (__DICT__ cfg) json ty (fields cfg) in
  if bool_decide (s = success) then CheckAndAdjust cfg ty fs else Ret (fs, s).

(** ** FormatAndCheck *)

(** An integer parameter given as a string; the exceptions end in a status. *)
Definition format_integer (lo hi : Z) j : M (Json + Status) :=
  let* value_str := get_string j in
  match stoll value_str with
  | Converted v sz =>
      if sz <? String.length value_str then Ret (inr invalid_value_in_json)
      else if ((v <? lo) || (hi <? v))%Z then Ret (inr invalid_value_in_json)
      else Ret (inl (json_int v))
  | OutOfRange | InvalidArgument => Ret (inr invalid_value_in_json)
  end.

Definition format_var j (var : VarEntry) : M (Json + Status) :=
  match var with
  | EInt _ => format_integer int32_min int32_max j
  | EInt64 _ => format_integer int64_min int64_max j
  | EFloat _ =>
      let* _ := get_string j in
      let* s := get_string j in
      match stof (c_str s) with
      | Converted v _ => Ret (inl (json_float v))
      | OutOfRange | InvalidArgument => Ret (inr invalid_value_in_json)
      end
  | EBool _ =>
      let j := if equals_string j "true" || equals_string j "True" || equals_string j "TRUE" then json_bool true else j in
      let j := if equals_string j "false" || equals_string j "False" || equals_string j "FALSE" then json_bool false else j in
      Ret (inl j)
  | EString _ | EView _ => Ret (inl j)
  end.

(** Every exception in the loop is caught behind it. *)
Fixpoint format_loop (dict : list (string * VarEntry)) json : M (gmap string Json * Status) :=
  match dict with
  | [] => Ret (json, success)
  | (key, var) :: rest =>
      match json !! key with
      | Some j =>
          if is_string j then
            match format_var j var with
            | Ret (inl j') => format_loop rest (<[key := j']> json)
            | Ret (inr s) => Ret (json, s)
            | Throw _ => Ret (json, invalid_value_in_json)
            | Undef => Undef
            end
          else format_loop rest json
      | None => format_loop rest json
      end
  end.

Definition FormatAndCheck (cfg : Config) json : M (gmap string Json * Status) := format_loop (__DICT__ cfg) json.

(** [LoadConfig] of index.cc, index_static.cc and cluster.cc; a debug build logs
    the object. *)
Definition LoadConfig `{!GlogBuild} (cfg : Config) json (ty : PARAM_TYPE) : M (Fields * Status) :=
  let* (json_, res) := FormatAndCheck cfg json in
  let* _ := if dlog then (let* _ := dump_object json_ in Ret tt) else Ret tt in
  if bool_decide (res = success) then Load cfg json_ ty else Ret (fields cfg, res).

End load.

(** ** Declaring parameters: [EntryAccess] *)

(** The entry under construction and what its member holds. *)
Record EntryAccess (T : Type) := mkAccess { entry : Entry T; current : option T }.
Arguments mkAccess {T}.
Arguments entry {T}.
Arguments current {T}.

Section access.
Context {T : Type}.
Implicit Types a : EntryAccess T.

Definition set_default (dft : T) a : EntryAccess T :=
  let e := entry a in
  mkAccess (mkEntry (val e) (Some dft) (type e) (range e) (allow_empty_without_default e)) (Some dft).
Definition set_range_incl (lo hi : T) (il ir : bool) a : EntryAccess T :=
  let e := entry a in
  mkAccess (mkEntry (val e) (default_val e) (type e) (Some (mkRange lo hi il ir)) (allow_empty_without_default e)) (current a).
Definition set_range (lo hi : T) a : EntryAccess T := set_range_incl lo hi true true a.
Definition allow_empty a : EntryAccess T :=
  let e := entry a in mkAccess (mkEntry (val e) (default_val e) (type e) (range e) true) (current a).
Definition for_param (p : PARAM_TYPE) a : EntryAccess T :=
  let e := entry a in
  mkAccess (mkEntry (val e) (default_val e) (Z.lor (type e) (param_bit p)) (range e) (allow_empty_without_default e)) (current a).
Definition for_static := for_param STATIC.
Definition for_train := for_param TRAIN.
Definition for_search := for_param SEARCH.
Definition for_range_search := for_param RANGE_SEARCH.
Definition for_iterator := for_param ITERATOR.
Definition for_feder := for_param FEDER.
Definition for_deserialize := for_param DESERIALIZE.
Definition for_deserialize_from_file := for_param DESERIALIZE_FROM_FILE.
Definition for_train_and_search a : EntryAccess T := for_range_search (for_search (for_train a)).
End access.

(** [__DICT__[name] = entry]. *)
Fixpoint dict_set (name : string) (var : VarEntry) (dict : list (string * VarEntry)) : list (string * VarEntry) :=
  match dict with
  | [] => [(name, var)]
  | (k, v) :: rest => if bool_decide (k = name) then (name, var) :: rest else (k, v) :: dict_set name var rest
  end.

(** [KNOWHERE_CONFIG_DECLARE_FIELD(name)....]: a fresh entry for the member
    [name] of class [cls], then the chain of calls. *)
Section declare.
Context {T : Type} (wrap : Entry T -> VarEntry) (inj : T -> Value) (cls name : string)
  (chain : list (EntryAccess T -> EntryAccess T)).

Definition declare_field (dict_fields : list (string * VarEntry) * Fields) : list (string * VarEntry) * Fields :=
  let '(dict, fs) := dict_fields in
  let fresh := mkAccess (mkEntry (cls, name) None 0 None false) None in
  let a := foldl (fun a call => call a) fresh chain in
  let held := match fs !! (cls, name) with Some (Some v) => Some v | _ => None end in
  (dict_set name (wrap (entry a)) dict,
   <[(cls, name) := match current a with Some v => Some (inj v) | None => held end]> fs).
End declare.

Definition cfg_int := declare_field EInt VInt.
Definition cfg_int64 := declare_field EInt64 VInt64.
Definition cfg_float := declare_field EFloat VFloat.
Definition cfg_string := declare_field EString VString.
Definition cfg_bool := declare_field EBool VBool.
Definition cfg_view := declare_field EView VView.

(** The declarations of a constructor, in order. *)
Definition constructor (decls : list (list (string * VarEntry) * Fields -> list (string * VarEntry) * Fields))
    (base : list (string * VarEntry) * Fields) : list (string * VarEntry) * Fields :=
  foldl (fun st decl => decl st) base decls.
