(* ===== verification/Configs.v ===== *)
(** * The configuration classes

    [BaseConfig] and the classes of every index: the declarations of their
    constructors and their [CheckAndAdjust].  The number of hardware threads and
    whether the processor has the instructions of PQ fast scan are parameters. *)

From S2P Require Import Prelude Float Num Expected Bitset Config.

#[local] Open Scope string_scope.
#[local] Open Scope Z_scope.

Definition Declared : Type := list (string * VarEntry) * Fields.

(** ** Reading and writing members *)

Definition member_int (fs : Fields) (f : Field) : option Z :=
  match fs !! f with Some (Some (VInt z)) | Some (Some (VInt64 z)) => Some z | _ => None end.
Definition member_float (fs : Fields) (f : Field) : option spec_float :=
  match fs !! f with Some (Some (VFloat v)) => Some v | _ => None end.
Definition member_string (fs : Fields) (f : Field) : option string :=
  match fs !! f with Some (Some (VString s)) => Some s | _ => None end.
Definition member_bool (fs : Fields) (f : Field) : option bool :=
  match fs !! f with Some (Some (VBool b)) => Some b | _ => None end.

(** [std::optional::value()]. *)
Definition opt_value {T} (o : option T) : M T := match o with Some v => Ret v | None => Throw "bad optional access" end.

Definition assign (fs : Fields) (f : Field) (v : Value) : Fields := <[f := Some v]> fs.

Definition ok (fs : Fields) : M (Fields * Status) := Ret (fs, success).
Definition HandleError (fs : Fields) (s : Status) : M (Fields * Status) := Ret (fs, s).

(** ** BaseConfig *)

Definition base (name : string) : Field := ("BaseConfig", name).

(** Literals: [0.01f] is rounded to binary32, [1.05] to binary64 and then to binary32. *)
Definition flit (n d : Z) : spec_float := F32.div (F32.of_Z n) (F32.of_Z d).
Definition dlit (n d : Z) : spec_float := F64.to_f32 (F64.div (F64.of_Z n) (F64.of_Z d)).
Definition defaultRangeFilter : spec_float := S754_infinity false.

Section configs.
Context (hardware_concurrency : Z) (support_pq_fast_scan : bool).

Definition BaseConfig : Declared :=
  let int := cfg_int "BaseConfig" in
  let flt := cfg_float "BaseConfig" in
  let str := cfg_string "BaseConfig" in
  let bool := cfg_bool "BaseConfig" in
  constructor
    [ cfg_int64 "BaseConfig" "dim" [allow_empty; for_train];
      str "metric_type" [set_default "L2"; for_train_and_search; for_static; for_iterator; for_deserialize; for_deserialize_from_file];
      bool "retrieve_friendly" [set_default false; for_static; for_train];
      str "data_path" [allow_empty; for_train];
      str "index_prefix" [allow_empty; for_train; for_deserialize];
      flt "vec_field_size_gb" [set_default (F32.of_Z 0); for_train];
      int "k" [set_default 10; set_range 1 int32_max; for_search];
      int "num_build_thread" [allow_empty; set_range 1 (to_int32 hardware_concurrency); for_train];
      flt "radius" [set_default (F32.of_Z 0); for_range_search];
      int "range_search_k" [set_default (-1); set_range (-1) int32_max; for_range_search];
      flt "range_filter" [set_default defaultRangeFilter; for_range_search];
      flt "range_search_level" [set_default (flit 1 100); set_range (F32.of_Z 0) (dlit 1 2); for_range_search];
      bool "trace_visit" [set_default false; for_search; for_range_search];
      bool "enable_mmap" [set_default false; for_static; for_deserialize; for_deserialize_from_file];
      bool "enable_mmap_pop" [set_default false; for_deserialize; for_deserialize_from_file];
      bool "shuffle_build" [set_default true; for_train];
      str "trace_id" [allow_empty; for_search; for_range_search];
      str "span_id" [allow_empty; for_search; for_range_search];
      int "trace_flags" [set_default 0; for_search; for_range_search];
      cfg_view "BaseConfig" "materialized_view_search_info" [allow_empty; for_search; for_iterator; for_range_search];
      str "opt_fields_path" [allow_empty; for_train];
      flt "iterator_refine_ratio" [set_default (dlit 1 2); for_iterator; for_range_search];
      bool "retain_iterator_order" [set_default false; for_iterator; for_range_search];
      flt "bm25_k1" [allow_empty; set_range (F32.of_Z 0) (F32.of_Z 3); for_train_and_search; for_iterator; for_deserialize; for_deserialize_from_file];
      flt "bm25_b" [allow_empty; set_range (F32.of_Z 0) (F32.of_Z 1); for_train_and_search; for_iterator; for_deserialize; for_deserialize_from_file];
      flt "bm25_avgdl" [allow_empty; set_range (F32.of_Z 0) float_max; for_train_and_search; for_iterator; for_deserialize; for_deserialize_from_file];
      int "refine_type" [set_default 0; for_train];
      bool "refine_with_quant" [set_default false; for_search; for_range_search; for_iterator];
      int "mh_lsh_band" [set_default 1; for_train; for_search];
      int "mh_element_bit_width" [set_default 8; set_range 8 256; for_train; for_search];
      bool "mh_search_with_jaccard" [set_default false; for_search];
      flt "retrieval_ann_ratio" [set_default (F32.of_Z 3); set_range (flit 1 100) (F32.of_Z 100); for_search];
      str "emb_list_meta_file_path" [allow_empty; for_deserialize; for_deserialize_from_file] ]
    ([], ∅).

(** The virtual [CheckAndAdjust] of [Config], not overridden. *)
Definition no_check (ty : PARAM_TYPE) (fs : Fields) : M (Fields * Status) := ok fs.

Definition make (d : Declared) (check : PARAM_TYPE -> Fields -> M (Fields * Status)) : Config := mkConfig (fst d) (snd d) check.

Definition FlatConfig : Config := make BaseConfig no_check.

(** ** HNSW *)

Definition kIteratorSeedEf : Z := 40.
Definition kEfMinValue : Z := 16.
Definition kDefaultRangeSearchEf : Z := 512.

Definition BaseHnswConfig : Declared :=
  let int := cfg_int "BaseHnswConfig" in
  constructor
    [ int "M" [set_default 30; set_range 2 2048; for_train];
      int "efConstruction" [set_default 360; set_range 1 int32_max; for_train];
      int "ef" [allow_empty; set_range 1 int32_max; for_search; for_range_search; for_iterator];
      int "overview_levels" [set_default 3; set_range 1 5; for_feder] ] BaseConfig.

Definition ef : Field := ("BaseHnswConfig", "ef").

Definition hnsw_check (ty : PARAM_TYPE) (fs : Fields) : M (Fields * Status) :=
  match ty with
  | SEARCH =>
      let* k := opt_value (member_int fs (base "k")) in
      match member_int fs ef with
      | None => ok (assign fs ef (VInt (Z.max k kEfMinValue)))
      | Some e => if e <? k then HandleError fs out_of_range_in_json else ok fs
      end
  | RANGE_SEARCH =>
      match member_int fs ef with
      | None => ok (assign fs ef (VInt kDefaultRangeSearchEf))
      | Some _ => ok fs
      end
  | _ => ok fs
  end.

Definition HnswConfig : Config := make BaseHnswConfig hnsw_check.

Definition FaissHnswDecl : Declared :=
  let cls := "FaissHnswConfig" in
  constructor
    [ cfg_int cls "seed_ef" [set_default kIteratorSeedEf; set_range 1 int32_max; for_iterator];
      cfg_bool cls "refine" [set_default false; for_train; for_static];
      cfg_float cls "refine_k" [set_default (F32.of_Z 1); set_range (F32.of_Z 1) float_max; for_search];
      cfg_string cls "refine_type" [allow_empty; for_train; for_static] ] BaseHnswConfig.

(** [str_to_lower], and membership in a list of names. *)
Fixpoint str_to_lower (s : string) : string :=
  match s with
  | String c s' =>
      let n := Ascii.nat_of_ascii c in
      String (if ((65 <=? n) && (n <=? 90))%nat then Ascii.ascii_of_nat (n + 32) else c) (str_to_lower s')
  | EmptyString => EmptyString
  end.

Definition acceptable (allowed_list : list string) (s : string) : bool :=
  existsb (String.eqb (str_to_lower s)) allowed_list.

Definition WhetherAcceptableRefineType : string -> bool := acceptable ["sq6"; "sq8"; "fp16"; "bf16"; "fp32"; "flat"].
Definition WhetherAcceptableQuantType : string -> bool := acceptable ["sq6"; "sq8"; "fp16"; "bf16"; "mpmi"].
Definition WhetherAcceptableGraphLayout : string -> bool := acceptable ["unordered"; "bfs"; "rcm"; "rabbitorder"; "gorder"; "rorder"].

Definition hnsw_refine : Field := ("FaissHnswConfig", "refine").
Definition hnsw_refine_type : Field := ("FaissHnswConfig", "refine_type").

Definition hnsw_flat_check (ty : PARAM_TYPE) (fs : Fields) : M (Fields * Status) :=
  let* (fs, base_status) := hnsw_check ty fs in
  if bool_decide (base_status <> success) then Ret (fs, base_status)
  else
    match ty with
    | TRAIN =>
        if default false (member_bool fs hnsw_refine) || bool_decide (is_Some (member_string fs hnsw_refine_type))
        then HandleError fs invalid_args else ok fs
    | _ => ok fs
    end.

Definition FaissHnswFlatConfig : Config := make FaissHnswDecl hnsw_flat_check.

(** The check of [refine_type] the quantised classes share. *)
Definition refine_type_check (refine_type : Field) (fs : Fields) : M (Fields * Status) :=
  match member_string fs refine_type with
  | Some t => if WhetherAcceptableRefineType t then ok fs else HandleError fs invalid_args
  | None => ok fs
  end.

Definition sq_type : Field := ("FaissHnswSqConfig", "sq_type").
Definition graph_layout : Field := ("FaissHnswSqConfig", "graph_layout").

Definition FaissHnswSqDecl : Declared :=
  let cls := "FaissHnswSqConfig" in
  constructor
    [ cfg_string cls "sq_type" [set_default "SQ8"; for_train; for_static];
      cfg_string cls "graph_layout" [set_default "unordered"; for_train; for_static] ] FaissHnswDecl.

Definition hnsw_sq_check (ty : PARAM_TYPE) (fs : Fields) : M (Fields * Status) :=
  let* (fs, base_status) := hnsw_check ty fs in
  if bool_decide (base_status <> success) then Ret (fs, base_status)
  else
    match ty with
    | TRAIN =>
        let* sq_type_v := opt_value (member_string fs sq_type) in
        if negb (WhetherAcceptableQuantType sq_type_v) then HandleError fs invalid_args
        else
          let* graph_layout_v := opt_value (member_string fs graph_layout) in
          if negb (WhetherAcceptableGraphLayout graph_layout_v) then HandleError fs invalid_args
          else if negb (String.eqb (str_to_lower graph_layout_v) "unordered") && default false (member_bool fs hnsw_refine)
          then HandleError fs invalid_args
          else refine_type_check hnsw_refine_type fs
    | _ => ok fs
    end.

Definition FaissHnswSqConfig : Config := make FaissHnswSqDecl hnsw_sq_check.

(** [vec_dim % param_m != 0] on [int]s. *)
Definition int_rem (a b : Z) : M Z :=
  if (b =? 0) || ((a =? int32_min) && (b =? -1)) then Undef else Ret (Z.rem a b).

(** The dimension must be a multiple of [m], when both are given. *)
Definition dim_multiple_check (m : Field) (fs : Fields) (rest : M (Fields * Status)) : M (Fields * Status) :=
  match member_int fs (base "dim"), member_int fs m with
  | Some d, Some param_m =>
      let vec_dim := to_int32 d in
      let* r := int_rem vec_dim param_m in
      if r =? 0 then rest else HandleError fs invalid_args
  | _, _ => rest
  end.

Definition FaissHnswPqDecl : Declared :=
  let int := cfg_int "FaissHnswPqConfig" in
  constructor
    [ int "m" [set_default 32; for_train; set_range 1 65536];
      int "nbits" [set_default 8; for_train; set_range 1 24] ] FaissHnswDecl.

(** The override does not call the base class. *)
Definition hnsw_pq_check (m : Field) (ty : PARAM_TYPE) (fs : Fields) : M (Fields * Status) :=
  match ty with
  | TRAIN => dim_multiple_check m fs (refine_type_check hnsw_refine_type fs)
  | _ => ok fs
  end.

Definition FaissHnswPqConfig : Config := make FaissHnswPqDecl (hnsw_pq_check ("FaissHnswPqConfig", "m")).

Definition FaissHnswPrqDecl : Declared :=
  let int := cfg_int "FaissHnswPrqConfig" in
  constructor
    [ int "m" [set_default 2; for_train; set_range 1 65536];
      int "nrq" [set_default 2; for_train; set_range 1 16];
      int "nbits" [set_default 8; for_train; set_range 1 24] ] FaissHnswDecl.

Definition FaissHnswPrqConfig : Config := make FaissHnswPrqDecl (hnsw_pq_check ("FaissHnswPrqConfig", "m")).

(** ** IVF *)

Definition IvfDecl : Declared :=
  let cls := "IvfConfig" in
  constructor
    [ cfg_int cls "nlist" [set_default 128; for_train; set_range 1 65536];
      cfg_int cls "nprobe" [set_default 8; for_search; for_range_search; for_iterator; set_range 1 65536];
      cfg_bool cls "use_elkan" [set_default true; for_train];
      cfg_bool cls "ensure_topk_full" [set_default true; for_search];
      cfg_int cls "max_empty_result_buckets" [set_default 2; for_range_search; set_range 1 65536] ] BaseConfig.

Definition IvfConfig : Config := make IvfDecl no_check.
Definition IvfFlatConfig : Config := make IvfDecl no_check.
Definition IvfSqConfig : Config := make IvfDecl no_check.

Definition IvfFlatCcDecl : Declared :=
  constructor [cfg_int "IvfFlatCcConfig" "ssize" [set_default 48; for_train; set_range 32 2048]] IvfDecl.
Definition IvfFlatCcConfig : Config := make IvfFlatCcDecl no_check.

Definition IvfPqDecl : Declared :=
  let int := cfg_int "IvfPqConfig" in
  constructor
    [ int "m" [for_train; set_range 1 65536];
      int "nbits" [set_default 8; for_train; set_range 1 24] ] IvfDecl.

Definition ivf_pq_check (ty : PARAM_TYPE) (fs : Fields) : M (Fields * Status) :=
  match ty with TRAIN => dim_multiple_check ("IvfPqConfig", "m") fs (ok fs) | _ => ok fs end.
Definition IvfPqConfig : Config := make IvfPqDecl ivf_pq_check.

Definition reorder_k : Field := ("ScannConfig", "reorder_k").
Definition sub_dim : Field := ("ScannConfig", "sub_dim").

(** [ensure_topk_full] is a new member: the one of [IvfConfig] keeps its value. *)
Definition ScannDecl : Declared :=
  let cls := "ScannConfig" in
  constructor
    [ cfg_int cls "reorder_k" [allow_empty; set_range 1 int32_max; for_search];
      cfg_bool cls "with_raw_data" [set_default true; for_static; for_train];
      cfg_int cls "sub_dim" [set_default 2; for_train; set_range 1 65536];
      cfg_bool cls "ensure_topk_full" [set_default false; for_search] ] IvfDecl.

Definition scann_search_check (fs : Fields) : M (Fields * Status) :=
  if negb support_pq_fast_scan then HandleError fs invalid_instruction_set
  else
    let* k := opt_value (member_int fs (base "k")) in
    match member_int fs reorder_k with
    | None => ok (assign fs reorder_k (VInt k))
    | Some r => if r <? k then HandleError fs out_of_range_in_json else ok fs
    end.

(** [TRAIN] falls through to [SEARCH]. *)
Definition scann_check (ty : PARAM_TYPE) (fs : Fields) : M (Fields * Status) :=
  match ty with
  | TRAIN =>
      match member_int fs (base "dim") with
      | Some d =>
          let* vec_sub_dim := opt_value (member_int fs sub_dim) in
          let* r := int_rem (to_int32 d) vec_sub_dim in
          if r =? 0 then scann_search_check fs else HandleError fs invalid_args
      | None => scann_search_check fs
      end
  | SEARCH => scann_search_check fs
  | _ => if negb support_pq_fast_scan then HandleError fs invalid_instruction_set else ok fs
  end.
Definition ScannConfig : Config := make ScannDecl scann_check.

Definition metric_check (legal_metric_list : list string) (ty : PARAM_TYPE) (fs : Fields) : M (Fields * Status) :=
  match ty with
  | TRAIN =>
      let* metric := opt_value (member_string fs (base "metric_type")) in
      if existsb (String.eqb metric) legal_metric_list then ok fs else HandleError fs invalid_metric_type
  | _ => ok fs
  end.

Definition IvfBinConfig : Config := make IvfDecl (metric_check ["HAMMING"; "JACCARD"]).

Definition code_size : Field := ("IvfSqCcConfig", "code_size").

Definition IvfSqCcDecl : Declared :=
  constructor
    [ cfg_int "IvfSqCcConfig" "code_size" [set_default 8; for_train];
      cfg_string "IvfSqCcConfig" "raw_data_store_prefix" [for_train; for_static; allow_empty] ] IvfFlatCcDecl.

Definition ivf_sq_cc_check (ty : PARAM_TYPE) (fs : Fields) : M (Fields * Status) :=
  match ty with
  | TRAIN =>
      let* code_size_v := opt_value (member_int fs code_size) in
      if existsb (Z.eqb code_size_v) [4; 6; 8; 16] then ok fs else HandleError fs invalid_value_in_json
  | _ => ok fs
  end.
Definition IvfSqCcConfig : Config := make IvfSqCcDecl ivf_sq_cc_check.

Definition IvfRaBitQDecl : Declared :=
  let cls := "IvfRaBitQConfig" in
  constructor
    [ cfg_int cls "rbq_bits_query" [set_default 0; set_range 0 8; for_search; for_range_search];
      cfg_bool cls "refine" [set_default false; for_train; for_static];
      cfg_float cls "refine_k" [set_default (F32.of_Z 1); set_range (F32.of_Z 1) float_max; for_search];
      cfg_string cls "refine_type" [allow_empty; for_train; for_static] ] IvfDecl.

Definition ivf_rabitq_check (ty : PARAM_TYPE) (fs : Fields) : M (Fields * Status) :=
  let* (fs, base_status) := no_check ty fs in
  if bool_decide (base_status <> success) then Ret (fs, base_status)
  else match ty with TRAIN => refine_type_check ("IvfRaBitQConfig", "refine_type") fs | _ => ok fs end.
Definition IvfRaBitQConfig : Config := make IvfRaBitQDecl ivf_rabitq_check.

(** ** Sparse, MinHash, DiskANN *)

Definition inverted_index_algo : Field := ("SparseInvertedIndexConfig", "inverted_index_algo").

Definition SparseInvertedIndexDecl : Declared :=
  let cls := "SparseInvertedIndexConfig" in
  constructor
    [ cfg_float cls "drop_ratio_build" [set_default (F32.of_Z 0); set_range_incl (F32.of_Z 0) (F32.of_Z 1) true false; for_train];
      cfg_float cls "drop_ratio_search" [set_default (F32.of_Z 0); set_range_incl (F32.of_Z 0) (F32.of_Z 1) true false; for_search; for_range_search; for_iterator];
      cfg_int cls "refine_factor" [set_default 1; for_search];
      cfg_float cls "dim_max_score_ratio" [set_range (dlit 1 2) (dlit 13 10); set_default (dlit 105 100); for_search];
      cfg_string cls "inverted_index_algo" [set_default "DAAT_MAXSCORE"; for_train; for_deserialize; for_deserialize_from_file] ] BaseConfig.

Definition sparse_check (ty : PARAM_TYPE) (fs : Fields) : M (Fields * Status) :=
  match ty with
  | TRAIN =>
      if existsb (String.eqb (default "" (member_string fs inverted_index_algo))) ["TAAT_NAIVE"; "DAAT_WAND"; "DAAT_MAXSCORE"]
      then ok fs else HandleError fs invalid_args
  | _ => ok fs
  end.
Definition SparseInvertedIndexConfig : Config := make SparseInvertedIndexDecl sparse_check.

Definition MinHashLSHDecl : Declared :=
  let cls := "MinHashLSHConfig" in
  constructor
    [ cfg_int cls "mh_lsh_aligned_block_size" [set_default 4096; set_range 4096 int32_max; for_train];
      cfg_bool cls "mh_lsh_code_in_mem" [set_default true; for_deserialize];
      cfg_bool cls "mh_lsh_shared_bloom_filter" [set_default false; for_deserialize];
      cfg_float cls "mh_lsh_bloom_false_positive_prob" [set_default (dlit 1 100); set_range (F32.of_Z 0) (F32.of_Z 1); for_deserialize];
      cfg_int cls "refine_k" [set_default 1; set_range 1 int32_max; for_search];
      cfg_bool cls "with_raw_data" [set_default false; for_train];
      cfg_bool cls "mh_lsh_batch_search" [set_default false; for_search] ] BaseConfig.
Definition MinHashLSHConfig : Config := make MinHashLSHDecl no_check.

Definition kSearchListSizeMinValue : Z := 16.
Definition kDefaultSearchListSizeForBuild : Z := 128.
Definition diskann (name : string) : Field := ("DiskANNConfig", name).

Definition DiskANNDecl : Declared :=
  let int := cfg_int "DiskANNConfig" in
  let flt := cfg_float "DiskANNConfig" in
  let bool := cfg_bool "DiskANNConfig" in
  constructor
    [ int "max_degree" [set_default 48; set_range 1 2048; for_train];
      int "search_list_size" [allow_empty; set_range 1 int32_max; for_train; for_search; for_range_search; for_iterator];
      flt "pq_code_budget_gb_ratio" [set_default (F32.of_Z 0); set_range (F32.of_Z 0) float_max; for_train];
      flt "pq_code_budget_gb" [set_default (F32.of_Z 0); set_range (F32.of_Z 0) float_max; for_train];
      flt "build_dram_budget_gb" [set_default (F32.of_Z 0); set_range (F32.of_Z 0) float_max; for_train];
      int "disk_pq_dims" [set_default 0; for_train];
      bool "accelerate_build" [set_default false; for_train];
      flt "search_cache_budget_gb_ratio" [set_default (F32.of_Z 0); set_range (F32.of_Z 0) float_max; for_train; for_deserialize];
      flt "search_cache_budget_gb" [set_default (F32.of_Z 0); set_range (F32.of_Z 0) float_max; for_train; for_deserialize];
      bool "warm_up" [set_default false; for_deserialize];
      bool "use_bfs_cache" [set_default false; for_deserialize];
      int "beamwidth" [set_default 8; set_range 1 128; for_search; for_range_search; for_iterator];
      int "min_k" [set_default 100; set_range 1 int32_max; for_range_search];
      int "max_k" [set_default int32_max; set_range 1 int32_max; for_range_search];
      flt "filter_threshold" [set_default (F32.of_Z (-1)); set_range (F32.of_Z (-1)) (F32.of_Z 1); for_search; for_iterator] ] BaseConfig.

(** [std::max(a, b)] on floats. *)
Definition fmax_std (a b : spec_float) : spec_float := if SFltb a b then b else a.

Definition diskann_check (ty : PARAM_TYPE) (fs : Fields) : M (Fields * Status) :=
  match ty with
  | TRAIN =>
      let fs := match member_int fs (diskann "search_list_size") with
        | None => assign fs (diskann "search_list_size") (VInt kDefaultSearchListSizeForBuild) | Some _ => fs end in
      let* vec_gb := opt_value (member_float fs (base "vec_field_size_gb")) in
      let* pq := opt_value (member_float fs (diskann "pq_code_budget_gb")) in
      let* pq_ratio := opt_value (member_float fs (diskann "pq_code_budget_gb_ratio")) in
      let fs := assign fs (diskann "pq_code_budget_gb") (VFloat (fmax_std pq (F32.mul pq_ratio vec_gb))) in
      let* cache := opt_value (member_float fs (diskann "search_cache_budget_gb")) in
      let* cache_ratio := opt_value (member_float fs (diskann "search_cache_budget_gb_ratio")) in
      ok (assign fs (diskann "search_cache_budget_gb") (VFloat (fmax_std cache (F32.mul cache_ratio vec_gb))))
  | SEARCH =>
      let* k := opt_value (member_int fs (base "k")) in
      match member_int fs (diskann "search_list_size") with
      | None => ok (assign fs (diskann "search_list_size") (VInt (Z.max k kSearchListSizeMinValue)))
      | Some l => if l <? k then HandleError fs out_of_range_in_json else ok fs
      end
  | _ => ok fs
  end.
Definition DiskANNConfig : Config := make DiskANNDecl diskann_check.

(** The constants are those of diskann/defaults.h. *)
Definition AisaqDecl : Declared :=
  let int := cfg_int "AisaqConfig" in
  constructor
    [ int "vectors_beamwidth" [set_default 1; set_range 1 4; for_search; for_range_search; for_iterator];
      int "inline_pq" [set_default (-1); set_range (-1) 2048; for_train];
      int "pq_cache_size" [set_default 0; set_range 0 (2 ^ 30); for_train; for_deserialize];
      int "pq_read_page_cache_size" [set_default 5242880; set_range 0 33554432; for_train; for_deserialize; for_search; for_range_search; for_iterator];
      cfg_bool "AisaqConfig" "rearrange" [set_default true; for_train];
      cfg_string "AisaqConfig" "pq_read_io_engine" [set_default "aio"; for_train; for_deserialize];
      int "num_entry_points" [set_default 100; set_range 0 1000; for_train] ] DiskANNDecl.
Definition AisaqConfig : Config := make AisaqDecl diskann_check.

(** ** GPU indexes *)

Definition gpu_id_decl (cls : string) : Declared -> Declared := constructor [cfg_int cls "gpu_id" [set_default 0; for_train]].
Definition GpuFlatConfig : Config := make (gpu_id_decl "GpuFlatConfig" BaseConfig) no_check.
Definition GpuIvfFlatConfig : Config := make (gpu_id_decl "GpuIvfFlatConfig" IvfDecl) no_check.
Definition GpuIvfPqConfig : Config := make (gpu_id_decl "GpuIvfPqConfig" IvfPqDecl) ivf_pq_check.
Definition GpuIvfSqConfig : Config := make (gpu_id_decl "GpuIvfSqConfig" IvfDecl) no_check.

Definition GpuCuvsBruteForceConfig : Config := make BaseConfig (metric_check ["L2"; "IP"; "COSINE"]).

(** Parameters of a base class are declared again, for the same member. *)
Definition GpuCuvsIvfFlatConfig : Config :=
  let cls := "GpuCuvsIvfFlatConfig" in
  make (constructor
    [ cfg_bool cls "cache_dataset_on_device" [set_default false; for_train];
      cfg_float cls "refine_ratio" [set_default (F32.of_Z 1); for_search];
      cfg_int "BaseConfig" "k" [set_default 10; set_range 1 2048; for_search];
      cfg_int cls "kmeans_n_iters" [set_default 20; for_train];
      cfg_float cls "kmeans_trainset_fraction" [set_default (dlit 1 2); for_train];
      cfg_bool cls "adaptive_centers" [set_default false; for_train] ] IvfDecl) (metric_check ["L2"; "IP"; "COSINE"]).

Definition GpuCuvsIvfPqConfig : Config :=
  let cls := "GpuCuvsIvfPqConfig" in
  make (constructor
    [ cfg_bool cls "cache_dataset_on_device" [set_default false; for_train];
      cfg_float cls "refine_ratio" [set_default (F32.of_Z 1); for_search];
      cfg_int "BaseConfig" "k" [set_default 10; set_range 1 1024; for_search];
      cfg_int "IvfPqConfig" "m" [set_default 0; set_range 0 65536; for_train];
      cfg_int "IvfPqConfig" "nbits" [set_default 8; set_range 4 8; for_train];
      cfg_int cls "kmeans_n_iters" [set_default 20; for_train];
      cfg_float cls "kmeans_trainset_fraction" [set_default (dlit 1 2); for_train];
      cfg_string cls "codebook_kind" [set_default "PER_SUBSPACE"; for_train];
      cfg_bool cls "force_random_rotation" [set_default false; for_train];
      cfg_bool cls "conservative_memory_allocation" [set_default false; for_train];
      cfg_string cls "lut_dtype" [set_default "CUDA_R_32F"; for_search];
      cfg_string cls "internal_distance_dtype" [set_default "CUDA_R_32F"; for_search];
      cfg_float cls "preferred_shmem_carveout" [set_range (F32.of_Z 0) (F32.of_Z 1); set_default (F32.of_Z 1); for_search] ] IvfPqDecl)
    (metric_check ["L2"; "IP"; "COSINE"]).

Definition cagra (name : string) : Field := ("GpuCuvsCagraConfig", name).
Definition kSearchWidth : Z := 1.
Definition kAlignFactor : Z := 32.
Definition kItopkSize : Z := 64.

Definition GpuCuvsCagraDecl : Declared :=
  let int := cfg_int "GpuCuvsCagraConfig" in
  let flt := cfg_float "GpuCuvsCagraConfig" in
  let str := cfg_string "GpuCuvsCagraConfig" in
  let bool := cfg_bool "GpuCuvsCagraConfig" in
  constructor
    [ bool "cache_dataset_on_device" [set_default false; for_train];
      flt "refine_ratio" [set_default (F32.of_Z 1); for_search];
      int "intermediate_graph_degree" [set_default 128; for_train];
      int "graph_degree" [set_default 64; for_train];
      int "itopk_size" [allow_empty; for_search];
      int "max_queries" [set_default 0; for_search];
      str "build_algo" [set_default "NN_DESCENT"; for_train];
      str "search_algo" [set_default "AUTO"; for_search];
      int "team_size" [set_default 0; set_range 0 32; for_search];
      int "search_width" [allow_empty; for_search];
      int "min_iterations" [set_default 0; for_search];
      int "max_iterations" [set_default 0; for_search];
      int "thread_block_size" [set_default 0; for_search];
      str "hashmap_mode" [set_default "AUTO"; for_search];
      int "hashmap_min_bitlen" [set_default 0; for_search];
      flt "hashmap_max_fill_rate" [set_default (flit 1 2); set_range (flit 1 10) (flit 9 10); for_search];
      int "nn_descent_niter" [set_default 20; for_train];
      bool "adapt_for_cpu" [set_default false; for_train; for_deserialize];
      int "ef" [allow_empty; set_range 1 int32_max; for_search];
      bool "persistent" [set_default false; for_search] ] BaseConfig.

(** A result of [int] arithmetic; overflow is undefined. *)
Definition int_result (z : Z) : M Z := if bool_decide (is_int32 z) then Ret z else Undef.

Definition cagra_search_check (fs : Fields) : M (Fields * Status) :=
  let* k := opt_value (member_int fs (base "k")) in
  let itopk_v := default (Z.max k kItopkSize) (member_int fs (cagra "itopk_size")) in
  let* up := int_result (itopk_v + kAlignFactor) in
  let* up := int_result (up - 1) in
  let* itopk := int_result (Z.quot up kAlignFactor * kAlignFactor) in
  let fs := assign fs (cagra "itopk_size") (VInt itopk) in
  match member_int fs (cagra "search_width") with
  | Some w =>
      let* wide := int_result (kAlignFactor * w) in
      if Z.max itopk wide <? k then HandleError fs out_of_range_in_json else ok fs
  | None => ok (assign fs (cagra "search_width") (VInt (Z.max (Z.quot (k - 1) kAlignFactor + 1) kSearchWidth)))
  end.

Definition cagra_check (ty : PARAM_TYPE) (fs : Fields) : M (Fields * Status) :=
  let* (fs, s) := metric_check ["L2"; "IP"; "COSINE"; "HAMMING"] ty fs in
  if bool_decide (s <> success) then Ret (fs, s)
  else match ty with SEARCH => cagra_search_check fs | _ => ok fs end.
Definition GpuCuvsCagraConfig : Config := make GpuCuvsCagraDecl cagra_check.

(** ** Data view refiners *)

Definition IndexWithDataViewRefinerConfig : Config :=
  make (constructor [cfg_float "IndexWithDataViewRefinerConfig" "refine_ratio" [set_default (F32.of_Z 1); for_search]] ScannDecl) scann_check.

Definition scann_dv_check (ty : PARAM_TYPE) (fs : Fields) : M (Fields * Status) :=
  if negb support_pq_fast_scan then HandleError fs invalid_instruction_set else ok fs.
Definition ScannWithDataViewRefinerConfig : Config :=
  make (constructor [cfg_float "ScannWithDataViewRefinerConfig" "refine_ratio" [set_default (F32.of_Z 1); for_search]] ScannDecl) scann_dv_check.

(** [int(f)]: undefined when the truncated value is not an [int]. *)
Definition float_to_int (f : spec_float) : M Z :=
  match f with S754_nan | S754_infinity _ => Undef | _ => int_result (SF_trunc f) end.

(** [ROUND_UP(X, Y)]. *)
Definition ROUND_UP (X Y : Z) : Z := (X / Y + (if X mod Y =? 0 then 0 else 1)) * Y.

(** Which class the dynamic casts of [AdaptToBaseIndexConfig] find. *)
Inductive RefinerClass := ScannRefiner | IndexRefiner | OtherClass.

(** [cfg->iterator_refine_ratio != 0.0f] on an optional. *)
Definition ratio_not_zero (fs : Fields) : bool :=
  match member_float fs (base "iterator_refine_ratio") with Some r => negb (SFeqb r (F32.of_Z 0)) | None => true end.

Definition range_and_iterator (ty : PARAM_TYPE) (fs : Fields) : Fields :=
  match ty with
  | RANGE_SEARCH => assign fs (base "range_filter") (VFloat defaultRangeFilter)
  | ITERATOR => if ratio_not_zero fs then assign fs (base "retain_iterator_order") (VBool false) else fs
  | _ => fs
  end.

Definition AdaptToBaseIndexConfig (cls : RefinerClass) (ty : PARAM_TYPE) (dim : Z) (fs : Fields) : M Fields :=
  match cls with
  | ScannRefiner =>
      let* metric := opt_value (member_string fs (base "metric_type")) in
      let fs := if String.eqb metric "COSINE" then assign fs (base "metric_type") (VString "L2") else fs in
      match ty with
      | TRAIN =>
          let fs := assign fs ("ScannConfig", "with_raw_data") (VBool false) in
          let* sd := opt_value (member_int fs sub_dim) in
          if sd =? 0 then Undef
          else
            let dim := if dim mod sd =? 0 then dim else ROUND_UP dim sd in
            let fs := assign fs (base "dim") (VInt64 dim) in
            Ret (assign fs ("IvfConfig", "use_elkan") (VBool false))
      | SEARCH =>
          let* k := opt_value (member_int fs (base "k")) in
          let* ratio := opt_value (member_float fs ("ScannWithDataViewRefinerConfig", "refine_ratio")) in
          let* rk := float_to_int (F32.mul (F32.of_Z k) ratio) in
          let fs := assign (assign fs (base "k") (VInt rk)) reorder_k (VInt rk) in
          Ret (assign fs ("ScannConfig", "ensure_topk_full") (VBool true))
      | _ => Ret (range_and_iterator ty fs)
      end
  | IndexRefiner =>
      let* metric := opt_value (member_string fs (base "metric_type")) in
      let fs := if String.eqb metric "COSINE" then assign fs (base "metric_type") (VString "IP") else fs in
      match ty with
      | SEARCH =>
          let* r := opt_value (member_int fs reorder_k) in
          Ret (assign fs (base "k") (VInt r))
      | _ => Ret (range_and_iterator ty fs)
      end
  | OtherClass => Throw "Not a valid config for DV(Data View) refiner index."
  end.

(** Every configuration class that can be created. *)
Definition all_configs : list Config :=
  [FlatConfig; HnswConfig; FaissHnswFlatConfig; FaissHnswSqConfig; FaissHnswPqConfig; FaissHnswPrqConfig;
   IvfConfig; IvfFlatConfig; IvfSqConfig; IvfFlatCcConfig; IvfPqConfig; ScannConfig; IvfBinConfig; IvfSqCcConfig; IvfRaBitQConfig;
   SparseInvertedIndexConfig; MinHashLSHConfig; DiskANNConfig; AisaqConfig;
   GpuFlatConfig; GpuIvfFlatConfig; GpuIvfPqConfig; GpuIvfSqConfig;
   GpuCuvsBruteForceConfig; GpuCuvsIvfFlatConfig; GpuCuvsIvfPqConfig; GpuCuvsCagraConfig;
   IndexWithDataViewRefinerConfig; ScannWithDataViewRefinerConfig].

End configs.

(** ** Graph search or brute force (hnsw/impl/IndexConditionalWrapper.cc) *)

Section wrapper.
Implicit Types (ntotal : option Z) (bitset : BitsetView.t).

Definition kHnswSearchKnnBFFilterThreshold : spec_float := flit 93 100.
Definition kHnswSearchRangeBFFilterThreshold : spec_float := flit 97 100.
Definition kHnswSearchBFTopkThreshold : spec_float := flit 1 2.

(** [a >= n * threshold]: the integers are converted to [float]. *)
Definition at_least (a n : Z) (threshold : spec_float) : bool := SFleb (F32.mul (F32.of_Z n) threshold) (F32.of_Z a).

(** [limit] against the number of vectors and of vectors left by the filter. *)
Definition prefer_brute_force (limit : Z) (filter_threshold left_threshold : spec_float) (ntotal : Z) bitset : bool :=
  if at_least limit ntotal kHnswSearchBFTopkThreshold then true
  else if BitsetView.empty bitset then false
  else
    let filtered_out_num := Z.of_nat (BitsetView.count bitset) in
    let size := Z.of_nat (BitsetView.size bitset) in
    at_least filtered_out_num size filter_threshold || at_least limit ((size - filtered_out_num) mod 2 ^ 64) left_threshold.

(** [ntotal] is absent for a null index. *)
Definition WhetherPerformBruteForceSearch ntotal (fs : Fields) bitset : option bool :=
  match member_int fs (base "k"), ntotal with
  | Some k, Some n => Some (prefer_brute_force k kHnswSearchKnnBFFilterThreshold kHnswSearchBFTopkThreshold n bitset)
  | _, _ => None
  end.

Definition WhetherPerformBruteForceRangeSearch ntotal (fs : Fields) bitset : option bool :=
  match member_int fs ef, ntotal with
  | Some e, Some n => Some (prefer_brute_force e kHnswSearchRangeBFFilterThreshold kHnswSearchRangeBFFilterThreshold n bitset)
  | _, _ => None
  end.

(** What the dynamic casts see of an index, and the wrapper built around it. *)
Inductive FaissIndex := IndexHNSW (storage_is_cosine : bool) | IndexRefine (base_index : FaissIndex) | OtherIndex.
Inductive Wrapper :=
  | IndexBruteForceWrapper | IndexHNSWWrapper | RefineWrapper (base_wrapper : Wrapper) (cosine_wrapper : bool).

Definition base_wrapper (whether_bf_search : bool) : Wrapper := if whether_bf_search then IndexBruteForceWrapper else IndexHNSWWrapper.

Definition create_conditional_hnsw_wrapper (index : FaissIndex) (fs : Fields) (whether_bf_search whether_to_enable_refine : bool)
    : M (option Wrapper * bool) :=
  let* metric := opt_value (member_string fs (base "metric_type")) in
  let is_cosine := String.eqb (str_to_lower (c_str metric)) "cosine" in
  match index with
  | IndexRefine (IndexHNSW storage_is_cosine) =>
      if whether_to_enable_refine then
        Ret (Some (RefineWrapper (base_wrapper whether_bf_search) (storage_is_cosine && is_cosine)), true)
      else Ret (Some (base_wrapper whether_bf_search), false)
  | IndexRefine _ => Ret (None, false)
  | IndexHNSW _ => Ret (Some (base_wrapper whether_bf_search), false)
  | OtherIndex => Ret (None, false)
  end.

End wrapper.
