(* ===== verification/ConfigProps.v ===== *)
(** * Loading a configuration, and what the configurations promise *)

From S2P Require Import Prelude Float Num Expected Config Configs.

(** ** Entries, whatever their type *)

Definition bits_of (var : VarEntry) : Z :=
  match var with
  | EInt e => type e | EInt64 e => type e | EFloat e => type e | EString e => type e | EBool e => type e | EView e => type e
  end.

Definition default_of (var : VarEntry) : option Value :=
  match var with
  | EInt e => VInt <$> default_val e | EInt64 e => VInt64 <$> default_val e | EFloat e => VFloat <$> default_val e
  | EString e => VString <$> default_val e | EBool e => VBool <$> default_val e | EView e => VView <$> default_val e
  end.

Definition may_be_empty (var : VarEntry) : bool :=
  match var with
  | EInt e => allow_empty_without_default e | EInt64 e => allow_empty_without_default e
  | EFloat e => allow_empty_without_default e | EString e => allow_empty_without_default e
  | EBool e => allow_empty_without_default e | EView e => allow_empty_without_default e
  end.

Definition selected (ty : PARAM_TYPE) (var : VarEntry) : bool := negb (Z.land (param_bit ty) (bits_of var) =? 0)%Z.

(** A value of the entry's type. *)
Definition kind_ok (var : VarEntry) (v : Value) : Prop :=
  match var, v with
  | EInt _, VInt z => is_int32 z
  | EInt64 _, VInt64 z => is_int64 z
  | EFloat _, VFloat _ | EString _, VString _ | EBool _, VBool _ | EView _, VView _ => True
  | _, _ => False
  end.

(** A value in the entry's range, if it has one. *)
Definition in_range (var : VarEntry) (v : Value) : bool :=
  match var, v with
  | EInt e, VInt z | EInt64 e, VInt64 z => match range e with Some r => within_int r z | None => true end
  | EFloat e, VFloat f => match range e with Some r => within_float r f | None => true end
  | _, _ => true
  end.

Definition good_value (var : VarEntry) (v : Value) : Prop := kind_ok var v /\ in_range var v = true.

#[export] Instance kind_ok_dec var v : Decision (kind_ok var v).
Proof. destruct var, v; simpl; try apply _; unfold is_int32, is_int64; apply _. Defined.
#[export] Instance good_value_dec var v : Decision (good_value var v).
Proof. unfold good_value. apply _. Defined.

(** ** Well-formed dictionaries and members *)

(** Names and members are distinct; defaults have the declared type and range. *)
Definition dict_ok (dict : list (string * VarEntry)) : Prop :=
  NoDup dict.*1 /\ NoDup (target <$> dict.*2) /\
  Forall (fun kv => forall v, default_of kv.2 = Some v -> good_value kv.2 v) dict.

(** Every declared member exists, holds nothing or a good value, and something if
    it has a default. *)
Definition members_ok (dict : list (string * VarEntry)) (fs : Fields) : Prop :=
  Forall (fun kv => exists o, fs !! target kv.2 = Some o /\ (forall v, o = Some v -> good_value kv.2 v) /\
    (is_Some (default_of kv.2) -> is_Some o)) dict.

(** The weaker property that survives [CheckAndAdjust]. *)
Definition members_typed (dict : list (string * VarEntry)) (fs : Fields) : Prop :=
  Forall (fun kv => exists o, fs !! target kv.2 = Some o /\ forall v, o = Some v -> kind_ok kv.2 v) dict.

Lemma members_ok_typed dict fs : members_ok dict fs -> members_typed dict fs.
Proof. intros H. eapply Forall_impl; [exact H|]. intros kv (o & Ho & Hv & _). exists o. split; [done|]. intros v E. by apply Hv. Qed.

Definition members_okb (dict : list (string * VarEntry)) (fs : Fields) : bool :=
  forallb (fun kv => match fs !! target kv.2 with
    | Some (Some v) => bool_decide (good_value kv.2 v)
    | Some None => bool_decide (default_of kv.2 = None)
    | None => false end) dict.

#[export] Instance Value_eq_None_dec (o : option Value) : Decision (o = None).
Proof. destruct o; [by right|by left]. Defined.

Lemma members_okb_ok dict fs : members_okb dict fs = true -> members_ok dict fs.
Proof.
  unfold members_okb. rewrite forallb_forall, <- List.Forall_forall. intros H. eapply Forall_impl; [exact H|]. clear H. intros [key var]. simpl.
  destruct (fs !! target var) as [[v|]|]; [| |done]; intros Hd%bool_decide_eq_true.
  - exists (Some v). split; [done|]. split; [by intros ? [= <-]|eauto].
  - exists None. rewrite Hd. split; [done|]. split; [done|]. intros [? ?]. done.
Qed.

Definition dict_okb (dict : list (string * VarEntry)) : bool :=
  bool_decide (NoDup dict.*1) && bool_decide (NoDup (target <$> dict.*2)) &&
  forallb (fun kv => match default_of kv.2 with Some v => bool_decide (good_value kv.2 v) | None => true end) dict.

Lemma dict_okb_ok dict : dict_okb dict = true -> dict_ok dict.
Proof.
  unfold dict_okb. rewrite !andb_true_iff, !bool_decide_eq_true, forallb_forall, <- List.Forall_forall. intros [[H1 H2] H3].
  split; [done|]. split; [done|]. eapply Forall_impl; [exact H3|]. intros [key var]. simpl. intros H v Hv. rewrite Hv in H.
  by apply bool_decide_eq_true in H.
Qed.

(** Every class declares its parameters well. *)
Lemma configs_ok hc fast : Forall (fun cfg => dict_ok (__DICT__ cfg) /\ members_ok (__DICT__ cfg) (fields cfg)) (all_configs hc fast).
Proof.
  unfold all_configs. repeat (apply Forall_cons_2; [split; [apply dict_okb_ok; vm_compute; reflexivity|apply members_okb_ok; vm_compute; reflexivity]|]).
  apply Forall_nil_2.
Qed.

(** ** What one entry accepts *)

Lemma to_int32_range z : is_int32 (to_int32 z).
Proof. unfold is_int32, to_int32, int32_min, int32_max. pose proof (Z.mod_pos_bound (z + 2 ^ 31) (2 ^ 32)). lia. Qed.

Lemma to_int32_id z : is_int32 z -> to_int32 z = z.
Proof. unfold is_int32, to_int32, int32_min, int32_max. intros H. rewrite Z.mod_small; lia. Qed.

Section load.
Context {Json : Type} `{JL : !JsonLib Json, JW : !JsonLaws Json, FC : !FloatConv}.
Implicit Types (json : gmap string Json) (ty : PARAM_TYPE) (dict : list (string * VarEntry)).

Lemma reject_inv {T} j st (c : T + Status) : reject j st = Ret c -> c = inr st.
Proof. unfold reject. by intros (_ & _ & [= <-])%bind_Ret_inv. Qed.

Lemma reject_returns {T} j st : returns (dump j) -> returns (reject (T:=T) j st).
Proof. intros [t E]. unfold reject. rewrite E. by eexists. Qed.

Lemma check_entry_cases {T} (inj : T -> Value) convert json ty key (e : Entry T) r :
  check_entry inj convert json ty key e = Ret r ->
  (Z.land (param_bit ty) (type e) = 0%Z /\ r = inl None) \/
  (Z.land (param_bit ty) (type e) <> 0%Z /\ json !! key = None /\ exists d, default_val e = Some d /\ r = inl (Some (inj d))) \/
  (Z.land (param_bit ty) (type e) <> 0%Z /\ json !! key = None /\ default_val e = None /\ allow_empty_without_default e = true /\ r = inl None) \/
  (Z.land (param_bit ty) (type e) <> 0%Z /\ json !! key = None /\ default_val e = None /\ allow_empty_without_default e = false /\ r = inr invalid_param_in_json) \/
  (Z.land (param_bit ty) (type e) <> 0%Z /\ exists j c, json !! key = Some j /\ convert j = Ret c /\
   r = match c with inl v => inl (Some (inj v)) | inr s => inr s end).
Proof.
  unfold check_entry. intros Hr. destruct (Z.eqb_spec (Z.land (param_bit ty) (type e)) 0) as [Hz|Hz]; [injection Hr as <-; by left|]. right.
  destruct (json !! key) as [j|] eqn:Ej.
  - apply bind_Ret_inv in Hr as (c & Hc & Hr). right. right. right. split; [done|]. exists j, c. split; [done|]. split; [done|].
    destruct c; by injection Hr.
  - destruct (default_val e) as [d|] eqn:Ed; [injection Hr as <-; left; eauto|].
    destruct (allow_empty_without_default e) eqn:Ea; injection Hr as <-; [right; left|right; right; left]; done.
Qed.

(** The conversions: a good value, or an error. *)
Definition converts {T} (var : VarEntry) (inj : T -> Value) (c : T + Status) : Prop :=
  match c with inl v => good_value var (inj v) | inr s => s <> success end.

Lemma convert_int_ok e j c : convert_int e j = Ret c -> converts (EInt e) VInt c.
Proof.
  unfold convert_int. destruct (is_number_integer j) eqn:Ei; cbn [negb]; [|by intros ->%reject_inv].
  destruct (get_integer j Ei) as (z & -> & Hz & ->). cbn [bind]. pose proof (to_int32_range z).
  destruct (range e) as [r|] eqn:Er; [|intros [= <-]; split; simpl; [done|by rewrite Er]].
  case_match; [by intros ->%reject_inv|]. case_match eqn:Ew; [|by intros ->%reject_inv]. intros [= <-]. split; simpl; [done|by rewrite Er].
Qed.

Lemma convert_int64_ok e j c : convert_int64 e j = Ret c -> converts (EInt64 e) VInt64 c.
Proof.
  unfold convert_int64. destruct (is_number_integer j) eqn:Ei; cbn [negb]; [|by intros ->%reject_inv].
  destruct (get_integer j Ei) as (z & -> & Hz & _). cbn [bind].
  destruct (range e) as [r|] eqn:Er; [|intros [= <-]; split; simpl; [done|by rewrite Er]].
  case_match; [by intros ->%reject_inv|]. case_match eqn:Ew; [|by intros ->%reject_inv]. intros [= <-]. split; simpl; [done|by rewrite Er].
Qed.

Lemma convert_float_ok e j c : convert_float e j = Ret c -> converts (EFloat e) VFloat c.
Proof.
  unfold convert_float. destruct (is_number j) eqn:Ei; cbn [negb]; [|by intros ->%reject_inv].
  destruct (get_number j Ei) as [[x ->] [v ->]]. cbn [bind].
  destruct (range e) as [r|] eqn:Er; [|intros [= <-]; split; simpl; [done|by rewrite Er]].
  case_match; [by intros ->%reject_inv|]. case_match eqn:Ew; [|by intros ->%reject_inv]. intros [= <-]. split; simpl; [done|by rewrite Er].
Qed.

Lemma convert_string_ok e j c : convert_string j = Ret c -> converts (EString e) VString c.
Proof.
  unfold convert_string. destruct (is_string j); cbn [negb]; [|by intros ->%reject_inv]. by intros (v & _ & [= <-])%bind_Ret_inv.
Qed.

Lemma convert_bool_ok e j c : convert_bool j = Ret c -> converts (EBool e) VBool c.
Proof.
  unfold convert_bool. destruct (is_boolean j); cbn [negb]; [|by intros ->%reject_inv]. by intros (v & _ & [= <-])%bind_Ret_inv.
Qed.

(** What [check_var] yields is a good value, and no error is [success]. *)
Definition outcome_ok (ty : PARAM_TYPE) (var : VarEntry) (r : option Value + Status) : Prop :=
  match r with
  | inl (Some v) => good_value var v
  | inl None => selected ty var = false \/ default_of var = None
  | inr s => s <> success
  end.

Lemma check_entry_ok {T} (inj : T -> Value) convert json ty key (e : Entry T) (var : VarEntry) :
  bits_of var = type e -> default_of var = inj <$> default_val e ->
  (forall d, default_val e = Some d -> good_value var (inj d)) ->
  (forall j c, convert j = Ret c -> converts var inj c) -> forall r, check_entry inj convert json ty key e = Ret r -> outcome_ok ty var r.
Proof.
  intros Hb Hdef Hd Hc r [[Hz ->]|[(Hz & _ & d & Ed & ->)|[(Hz & _ & Ed & _ & ->)|[(Hz & _ & Ed & _ & ->)|(Hz & j & c & _ & Ec & ->)]]]]%check_entry_cases.
  - left. unfold selected. rewrite Hb, Hz. done.
  - by apply Hd.
  - right. by rewrite Hdef, Ed.
  - done.
  - specialize (Hc j c Ec). by destruct c.
Qed.

Lemma check_var_ok json ty key var r : (forall v, default_of var = Some v -> good_value var v) ->
  check_var json ty key var = Ret r -> outcome_ok ty var r.
Proof.
  destruct var as [e|e|e|e|e|e]; simpl; intros Hd; eapply check_entry_ok; try done; try (intros d Ed; apply Hd; by rewrite Ed).
  - intros j c. apply convert_string_ok.
  - intros j c. apply convert_float_ok.
  - intros j c. apply convert_int_ok.
  - intros j c. apply convert_int64_ok.
  - intros j c. apply convert_bool_ok.
  - intros j c (v & _ & [= <-])%bind_Ret_inv. done.
Qed.

(** ** The loop *)

(** What the members are when every entry is accepted. *)
Definition load_all dict json ty (fs : Fields) : Fields :=
  foldl (fun fs '(key, var) => match check_var json ty key var with Ret (inl (Some v)) => <[target var := Some v]> fs | _ => fs end) fs dict.

Definition accepted json ty (kv : string * VarEntry) : Prop := exists o, check_var json ty kv.1 kv.2 = Ret (inl o).

(** No value is taken for an error. *)
Definition sound_errors dict : Prop := forall json ty key var s, (key, var) ∈ dict -> check_var json ty key var = Ret (inr s) -> s <> success.

Lemma dict_sound_errors dict : dict_ok dict -> sound_errors dict.
Proof.
  intros (_ & _ & Hd) json ty key var s Hin Hs. eapply Forall_forall in Hd; [|exact Hin].
  exact (check_var_ok json ty key var _ Hd Hs).
Qed.

Lemma load_loop_success dict json ty fs fs' : sound_errors dict ->
  load_loop dict json ty fs = Ret (fs', success) <-> Forall (accepted json ty) dict /\ fs' = load_all dict json ty fs.
Proof.
  revert fs. induction dict as [|[key var] dict IH]; intros fs Hs; [simpl; split; [intros [= <-]; by rewrite Forall_nil|by intros [_ ->]]|].
  assert (sound_errors dict) as Hs' by (intros j t k w r Hin; apply (Hs j t k w r); by right). cbn [load_loop load_all foldl]. rewrite Forall_cons.
  unfold accepted at 1. cbn [fst snd]. destruct (check_var json ty key var) as [[[v|]|s]|e|] eqn:E; cbn [bind].
  - rewrite (IH _ Hs'). split; [intros [H ->]|intros [[_ H] ->]]; [split; [split; [by eexists|done]|done]|done].
  - rewrite (IH _ Hs'). split; [intros [H ->]|intros [[_ H] ->]]; [split; [split; [by eexists|done]|done]|done].
  - assert ((key, var) ∈ (key, var) :: dict) as Hin by left. pose proof (Hs json ty key var s Hin E). split; [intros [= _ ->]; done|intros [[[o [=]] _] _]].
  - split; [done|intros [[[o [=]] _] _]].
  - split; [done|intros [[[o [=]] _] _]].
Qed.

(** The order of the entries does not matter. *)
Lemma load_all_perm dict dict' json ty fs : NoDup (target <$> dict.*2) -> dict ≡ₚ dict' ->
  load_all dict json ty fs = load_all dict' json ty fs.
Proof.
  intros Hn Hp. revert fs. induction Hp as [|[key var] l l' Hp IH|[k1 v1] [k2 v2] l|l1 l2 l3 H1 IH1 H2 IH2]; intros fs; [done| | |].
  - cbn [load_all foldl]. cbn in Hn. apply NoDup_cons in Hn as [_ Hn]. by apply IH.
  - cbn [load_all foldl]. cbn in Hn. apply NoDup_cons in Hn as [Hne Hn]. f_equal.
    destruct (check_var json ty k1 v1) as [[[w1|]|]| |], (check_var json ty k2 v2) as [[[w2|]|]| |]; try done.
    apply insert_insert_ne. intros E. apply Hne. rewrite E. left.
  - rewrite IH1 by done. apply IH2. by rewrite <- H1.
Qed.

(** A good value for one entry. *)
Lemma store_ok dict fs key var v : NoDup (target <$> dict.*2) -> (key, var) ∈ dict -> good_value var v ->
  members_ok dict fs -> members_ok dict (<[target var := Some v]> fs).
Proof.
  intros Hn Hin Hv Hm. apply Forall_forall. intros [key' var'] Hin'. destruct (decide (target var' = target var)) as [Et|Et].
  - assert (var' = var) as ->.
    { apply list_elem_of_lookup in Hin as [i Hi], Hin' as [i' Hi'].
      assert (i' = i) as ->; [|by rewrite Hi in Hi'; injection Hi'].
      apply (NoDup_lookup (target <$> dict.*2) i' i (target var)); [done|..]; rewrite !list_lookup_fmap, ?Hi, ?Hi'; simpl; by rewrite ?Et. }
    exists (Some v). cbn [snd]. rewrite lookup_insert_eq. split; [done|]. split; [by intros ? [= <-]|eauto].
  - eapply Forall_forall in Hm; [|exact Hin']. destruct Hm as (o & Ho & Hr). exists o. cbn [snd] in *.
    by rewrite lookup_insert_ne.
Qed.

Lemma load_loop_members dict d json ty fs fs' s : dict_ok dict -> d ⊆ dict -> members_ok dict fs ->
  load_loop d json ty fs = Ret (fs', s) -> members_ok dict fs'.
Proof.
  intros (_ & Hn & Hd). revert fs. induction d as [|[key var] d IH]; intros fs Hsub Hm; [by intros [= <- _]|]. cbn [load_loop].
  assert ((key, var) ∈ dict) as Hin by (apply Hsub; left).
  assert (d ⊆ dict) as Hsub' by (intros kv Hkv; apply Hsub; by right).
  destruct (check_var json ty key var) as [[[v|]|s']|e|] eqn:E; cbn [bind]; [..|done|done].
  - apply IH; [done|]. eapply store_ok; try done. eapply Forall_forall in Hd; [|exact Hin]. exact (check_var_ok json ty key var _ Hd E).
  - by apply IH.
  - by intros [= <- _].
Qed.

Lemma load_all_ok dict json ty fs : dict_ok dict -> Forall (accepted json ty) dict -> members_ok dict fs ->
  members_ok dict (load_all dict json ty fs).
Proof.
  intros Hd Ha Hm. apply (load_loop_members dict dict json ty fs _ success Hd); [done|done|].
  apply load_loop_success; [by apply dict_sound_errors|done].
Qed.

(** What [load_all] leaves in each member. *)
Lemma load_all_other dict json ty fs f : f ∉ target <$> dict.*2 -> load_all dict json ty fs !! f = fs !! f.
Proof.
  revert fs. induction dict as [|[key var] dict IH]; intros fs Hf; [done|]. cbn in Hf. rewrite not_elem_of_cons in Hf. destruct Hf as [Hf Hr].
  unfold load_all in *. cbn [foldl]. rewrite IH by done. repeat case_match; try done. by rewrite lookup_insert_ne.
Qed.

Lemma load_all_at dict json ty fs key var : NoDup (target <$> dict.*2) -> (key, var) ∈ dict ->
  load_all dict json ty fs !! target var =
  match check_var json ty key var with Ret (inl (Some v)) => Some (Some v) | _ => fs !! target var end.
Proof.
  revert fs. induction dict as [|[k w] dict IH]; intros fs Hn Hin; [by apply not_elem_of_nil in Hin|].
  cbn in Hn. apply NoDup_cons in Hn as [Hk Hn]. unfold load_all in *. cbn [foldl]. apply elem_of_cons in Hin as [[= <- <-]|Hin].
  - match goal with |- foldl _ ?g _ !! _ = _ => etransitivity; [apply (load_all_other dict json ty g); done|] end.
    repeat case_match; try done. by rewrite lookup_insert_eq.
  - rewrite IH by done. destruct (check_var json ty key var) as [[[v|]|]| |]; try done;
      (repeat case_match; try done; rewrite lookup_insert_ne; [done|intros E; apply Hk; rewrite E]);
      apply list_elem_of_fmap; exists var; (split; [done|]); apply list_elem_of_fmap; by exists (key, var).
Qed.

(** An absent parameter is accepted when it has a default or may be empty. *)
Definition optional (var : VarEntry) : bool := bool_decide (is_Some (default_of var)) || may_be_empty var.

Lemma absent_accepted json ty key var : json !! key = None -> optional var = true -> accepted json ty (key, var).
Proof.
  intros Hk Ho. unfold accepted, optional in *. cbn [fst snd].
  destruct var as [e|e|e|e|e|e]; simpl in *; unfold check_entry; rewrite Hk; (case_match; [by eexists|]);
    destruct (default_val e); (by eexists) || (simpl in Ho; rewrite Ho; by eexists).
Qed.

(** A failure is that of an entry. *)
Lemma load_loop_fails dict json ty fs fs' s : load_loop dict json ty fs = Ret (fs', s) -> s <> success ->
  exists key var, (key, var) ∈ dict /\ check_var json ty key var = Ret (inr s).
Proof.
  revert fs. induction dict as [|[key var] dict IH]; intros fs; [intros [= <- <-]; done|]. cbn [load_loop].
  destruct (check_var json ty key var) as [[[v|]|s']|e|] eqn:E; cbn [bind]; [| | |done..].
  - intros H Hs. destruct (IH _ H Hs) as (k & w & Hin & Hw). exists k, w. split; [by right|done].
  - intros H Hs. destruct (IH _ H Hs) as (k & w & Hin & Hw). exists k, w. split; [by right|done].
  - intros [= _ <-] _. exists key, var. split; [left|done].
Qed.

(** A conversion returns if the value can be printed. *)
Lemma conversions_return j : returns (dump j) ->
  (forall e, returns (convert_int e j)) /\ (forall e, returns (convert_int64 e j)) /\ (forall e, returns (convert_float e j)) /\
  returns (convert_string j) /\ returns (convert_bool j).
Proof.
  intros Hp. assert (forall T st, returns (reject (T:=T) j st)) as Hr by (intros; by apply reject_returns).
  assert (forall T (a : T), returns (Ret a)) as Ha by (intros; by eexists).
  unfold convert_int, convert_int64, convert_float, convert_string, convert_bool. split_and!.
  - intros e. destruct (is_number_integer j) eqn:Ei; cbn [negb]; [|done]. destruct (get_integer j Ei) as (z & -> & _ & ->). cbn [bind].
    repeat case_match; done.
  - intros e. destruct (is_number_integer j) eqn:Ei; cbn [negb]; [|done]. destruct (get_integer j Ei) as (z & -> & _ & _). cbn [bind].
    repeat case_match; done.
  - intros e. destruct (is_number j) eqn:Ei; cbn [negb]; [|done]. destruct (get_number j Ei) as [[x ->] [v ->]]. cbn [bind].
    repeat case_match; done.
  - destruct (is_string j) eqn:Ei; cbn [negb]; [|done]. destruct (get_text j Ei) as (s & -> & _). cbn [bind]. auto.
  - destruct (is_boolean j) eqn:Ei; cbn [negb]; [|done]. destruct (get_boolean j Ei) as (s & ->). cbn [bind]. auto.
Qed.

(** Only a view is converted by code that may throw on printable values. *)
Lemma check_var_returns json ty key var : (forall e, var <> EView e) -> (forall j, json !! key = Some j -> returns (dump j)) ->
  exists r, check_var json ty key var = Ret r.
Proof.
  intros Hv Hp. assert (forall T (inj : T -> Value) conv (e : Entry T), (forall j, json !! key = Some j -> returns (conv j)) ->
    exists r, check_entry inj conv json ty key e = Ret r) as H.
  { intros T inj conv e Hc. unfold check_entry. case_match; [by eexists|]. destruct (json !! key) as [j|]; [|repeat case_match; by eexists].
    destruct (Hc j eq_refl) as [c ->]. cbn [bind]. case_match; by eexists. }
  destruct var as [e|e|e|e|e|e]; [..|by destruct (Hv e)]; apply H; intros j Hj; destruct (conversions_return j (Hp j Hj)) as (?&?&?&?&?); auto.
Qed.

Lemma load_loop_returns dict json ty fs : (forall key j, json !! key = Some j -> returns (dump j)) ->
  (forall key e, (key, EView e) ∈ dict -> json !! key = None) -> exists fs' s, load_loop dict json ty fs = Ret (fs', s).
Proof.
  intros Hp. revert fs. induction dict as [|[key var] dict IH]; intros fs Hv; [by eexists _, _|]. cbn [load_loop].
  assert (exists r, check_var json ty key var = Ret r) as [r ->].
  { destruct var as [e|e|e|e|e|e]; try (apply check_var_returns; [done|by apply Hp]).
    simpl. unfold check_entry. rewrite (Hv key e) by left. case_match; [by eexists|]. repeat case_match; by eexists. }
  assert (forall key e, (key, EView e) ∈ dict -> json !! key = None) as Hv' by (intros k e He; apply (Hv k e); by right).
  cbn [bind]. destruct r as [[v|]|s]; [by apply IH|by apply IH|by eexists _, _].
Qed.

End load.

(** ** FormatAndCheck *)

Section format.
Context {Json : Type} `{JL : !JsonLib Json, JW : !JsonLaws Json, FC : !FloatConv}.
Implicit Types (json : gmap string Json) (ty : PARAM_TYPE) (dict : list (string * VarEntry)).

Definition format_one json (kv : string * VarEntry) : gmap string Json :=
  match json !! kv.1 with
  | Some j => if is_string j then match format_var j kv.2 with Ret (inl j') => <[kv.1 := j']> json | _ => json end else json
  | None => json
  end.
Definition format_all dict json : gmap string Json := foldl format_one json dict.

Definition formats json (kv : string * VarEntry) : Prop :=
  forall j s, json !! kv.1 = Some j -> is_string j = true -> format_var j kv.2 <> Ret (inr s).

(** A string is formatted or rejected, and what it becomes can be printed. *)
Lemma format_var_returns j var : is_string j = true -> exists r, format_var j var = Ret r /\
  match r with inl j' => returns (dump j) -> returns (dump j') | inr s => s = invalid_value_in_json end.
Proof.
  intros Hj. destruct (get_text j Hj) as (s & Hs & _).
  assert (forall z, returns (dump (json_int z))) as Hi by (intros z; apply dump_scalar; by rewrite (proj1 (json_int_kind z))).
  assert (forall f, returns (dump (json_float f))) as Hf
    by (intros f; apply dump_scalar; by rewrite (proj1 (json_float_kind f)), orb_true_r).
  assert (forall b, returns (dump (json_bool b))) as Hb by (intros b; apply dump_scalar; by rewrite (proj1 (json_bool_kind b)), orb_true_r).
  destruct var; cbn [format_var]; unfold format_integer; rewrite ?Hs; cbn [bind]; repeat case_match; eexists; split; try reflexivity; simpl; auto.
Qed.

Lemma format_var_error j var s : is_string j = true -> format_var j var = Ret (inr s) -> s = invalid_value_in_json.
Proof. intros Hj E. destruct (format_var_returns j var Hj) as (r & E' & Hr). rewrite E in E'. by injection E' as <-. Qed.

Lemma format_one_other json kv key : key <> kv.1 -> format_one json kv !! key = json !! key.
Proof. intros Hk. unfold format_one. repeat case_match; try done. by rewrite lookup_insert_ne. Qed.

Lemma format_loop_success dict json json' : NoDup dict.*1 ->
  format_loop dict json = Ret (json', success) <-> Forall (formats json) dict /\ json' = format_all dict json.
Proof.
  revert json. induction dict as [|[key var] dict IH]; intros json Hn; [simpl; rewrite Forall_nil; split; [by intros [= ->]|by intros [_ ->]]|].
  cbn in Hn. apply NoDup_cons in Hn as [Hk Hn]. cbn [format_loop]. rewrite Forall_cons. unfold format_all. cbn [foldl].
  assert (forall json2, json2 = format_one json (key, var) -> Forall (formats json2) dict <-> Forall (formats json) dict) as Hsame.
  { intros json2 ->. rewrite !Forall_forall. apply forall_proper. intros [k w]. unfold formats. cbn [fst snd].
    destruct (decide (k = key)) as [->|Hk']; [|by rewrite format_one_other].
    assert ((key, w) ∉ dict) by (intros Hin; apply Hk; apply list_elem_of_fmap; by exists (key, w)). naive_solver. }
  unfold format_one at 2. cbn [fst snd]. unfold formats at 1. cbn [fst snd]. destruct (json !! key) as [j|] eqn:Ej.
  - destruct (is_string j) eqn:Es.
    + destruct (format_var_returns j var Es) as (r & Ef & Hr). rewrite Ef. destruct r as [j'|s].
      * rewrite IH by done. rewrite Hsame by (unfold format_one; cbn [fst snd]; by rewrite Ej, Es, Ef).
        split; [intros [H ->]|intros [[_ H] ->]]; [|done]. split; [|done]. split; [|done]. intros ? s [= <-] _. by rewrite Ef.
      * split; [intros [= _ ->]; by apply format_var_error in Ef|]. intros [[H _] _]. by destruct (H j s).
    + rewrite IH by done. split; [intros [H ->]|intros [[_ H] ->]]; [|done]. split; [|done]. split; [|done]. intros ? s [= <-]. by rewrite Es.
  - rewrite IH by done. split; [intros [H ->]|intros [[_ H] ->]]; [|done]. split; [|done]. split; [|done]. done.
Qed.

Lemma format_all_perm dict dict' json : NoDup dict.*1 -> dict ≡ₚ dict' -> format_all dict json = format_all dict' json.
Proof.
  intros Hn Hp. revert json. induction Hp as [|[key var] l l' Hp IH|[k1 v1] [k2 v2] l|l1 l2 l3 H1 IH1 H2 IH2]; intros json; [done| | |].
  - unfold format_all in *. cbn [foldl]. cbn in Hn. apply NoDup_cons in Hn as [_ Hn]. by apply IH.
  - unfold format_all. cbn [foldl]. f_equal. cbn in Hn. apply NoDup_cons in Hn as [Hne _].
    assert (k1 <> k2) as Hk by (intros ->; apply Hne; left).
    unfold format_one at 1 3. cbn [fst snd]. rewrite !format_one_other by done. unfold format_one. cbn [fst snd].
    destruct (json !! k1) as [j1|], (json !! k2) as [j2|]; try done.
    destruct (is_string j1), (is_string j2); try done; destruct (format_var j1 v1) as [[?|?]| |], (format_var j2 v2) as [[?|?]| |]; try done.
    by apply insert_insert_ne.
  - rewrite IH1 by done. apply IH2. by rewrite <- H1.
Qed.

(** ** LoadConfig, entry by entry *)

Context `{GB : !GlogBuild}.

(** What a debug build has to print. *)
Definition printable json : Prop := dlog = true -> returns (dump_object json).

Lemma format_loop_returns dict json : exists json_ s, format_loop dict json = Ret (json_, s).
Proof.
  revert json. induction dict as [|[key var] dict IH]; intros json; [by eexists _, _|]. cbn [format_loop].
  destruct (json !! key) as [j|]; [|apply IH]. destruct (is_string j) eqn:Ej; [|apply IH].
  destruct (format_var_returns j var Ej) as ([j'|s] & -> & _); [apply IH|by eexists _, _].
Qed.

(** Formatting keeps an object printable. *)
Lemma format_loop_printable dict json json_ s : returns (dump_object json) -> format_loop dict json = Ret (json_, s) -> returns (dump_object json_).
Proof.
  revert json. induction dict as [|[key var] dict IH]; intros json Hp; [by intros [= <- _]|]. cbn [format_loop].
  destruct (json !! key) as [j|] eqn:Ek; [|by apply IH]. destruct (is_string j) eqn:Ej; [|by apply IH].
  destruct (format_var_returns j var Ej) as ([j'|s'] & -> & Hr); [|by intros [= <- _]]. apply IH. rewrite dump_members in Hp.
  apply dump_members. intros k w [[<- <-]|[_ Hw]]%lookup_insert_Some; [|by apply Hp]. destruct (Hp key j Ek). auto.
Qed.

Lemma LoadConfig_printed cfg json json_ s ty : format_loop (__DICT__ cfg) json = Ret (json_, s) -> printable json_ ->
  LoadConfig cfg json ty = if bool_decide (s = success) then Load cfg json_ ty else Ret (fields cfg, s).
Proof.
  intros E Hp. unfold LoadConfig, FormatAndCheck. rewrite E. cbn [bind]. unfold printable in Hp. destruct dlog; [|done].
  by destruct Hp as [t ->].
Qed.

Lemma LoadConfig_prints cfg json ty r : LoadConfig cfg json ty = Ret r ->
  exists json_ s, format_loop (__DICT__ cfg) json = Ret (json_, s) /\ printable json_.
Proof.
  unfold LoadConfig, FormatAndCheck. intros ([json_ s] & E & H)%bind_Ret_inv. exists json_, s. split; [done|]. intros Hg.
  apply bind_Ret_inv in H as (t & H & _). rewrite Hg in H. apply bind_Ret_inv in H as (u & -> & _). by eexists.
Qed.

Lemma load_config_success cfg json ty fs : dict_ok (__DICT__ cfg) ->
  LoadConfig cfg json ty = Ret (fs, success) <->
  Forall (formats json) (__DICT__ cfg) /\
  let json_ := format_all (__DICT__ cfg) json in
  printable json_ /\
  Forall (accepted json_ ty) (__DICT__ cfg) /\ CheckAndAdjust cfg ty (load_all (__DICT__ cfg) json_ ty (fields cfg)) = Ret (fs, success).
Proof.
  intros Hd. pose proof (dict_sound_errors _ Hd) as He. destruct Hd as (Hn & _ & _). cbv zeta.
  set (json_ := format_all (__DICT__ cfg) json). set (fs_ := load_all (__DICT__ cfg) json_ ty (fields cfg)).
  assert (Forall (accepted json_ ty) (__DICT__ cfg) <-> load_loop (__DICT__ cfg) json_ ty (fields cfg) = Ret (fs_, success)) as Hl.
  { rewrite (load_loop_success _ _ _ _ _ He). split; [by intros ?|by intros [? _]]. }
  split.
  - intros H. destruct (LoadConfig_prints _ _ _ _ H) as (json1 & s & Ef & Hp). rewrite (LoadConfig_printed _ _ _ _ _ Ef Hp) in H.
    case_bool_decide as Hs; [|injection H as _ ->; done]. subst s. apply format_loop_success in Ef as [Hf ->]; [|done]. fold json_ in Hp, H.
    split; [done|]. split; [done|]. unfold Load in H. apply bind_Ret_inv in H as ([fs' s'] & El & H).
    case_bool_decide as Hs'; [|injection H as _ ->; done]. subst s'. rewrite Hl. apply (load_loop_success _ _ _ _ _ He) in El as Hf'.
    destruct Hf' as [_ ->]. done.
  - intros (Hf & Hp & Ha & H). assert (format_loop (__DICT__ cfg) json = Ret (json_, success)) as E by (apply format_loop_success; [done|by split]).
    rewrite (LoadConfig_printed _ _ _ _ _ E Hp), bool_decide_true by done. unfold Load. apply Hl in Ha as ->. cbn [bind].
    by rewrite bool_decide_true.
Qed.

End format.

(** ** Members of a well-formed object *)

Definition entry_at (dict : list (string * VarEntry)) (f : Field) : option VarEntry :=
  snd <$> List.find (fun kv => bool_decide (target kv.2 = f)) dict.

Section members.
Context (dict : list (string * VarEntry)) (fs : Fields).
Hypothesis Hd : dict_ok dict.
Hypothesis Hm : members_ok dict fs.

Lemma entry_at_in f var : entry_at dict f = Some var -> exists key, (key, var) ∈ dict /\ target var = f.
Proof.
  unfold entry_at. destruct (List.find _ dict) as [[key w]|] eqn:E; [|done]. intros [= ->]. apply List.find_some in E as [Hin Ht].
  exists key. split; [by apply list_elem_of_In|by apply bool_decide_eq_true in Ht].
Qed.

Lemma member_at f var : entry_at dict f = Some var -> exists o, fs !! f = Some o /\
  (forall v, o = Some v -> good_value var v) /\ (is_Some (default_of var) -> is_Some o).
Proof. intros (key & Hin & <-)%entry_at_in. unfold members_ok in Hm. rewrite Forall_forall in Hm. exact (Hm _ Hin). Qed.

Lemma int_member f e : entry_at dict f = Some (EInt e) ->
  (forall z, member_int fs f = Some z -> is_int32 z /\ in_range (EInt e) (VInt z) = true) /\
  (is_Some (default_val e) -> is_Some (member_int fs f)).
Proof.
  intros (o & Ho & Hv & Hs)%member_at. unfold member_int. rewrite Ho. split.
  - destruct o as [v|]; [|done]. specialize (Hv v eq_refl). destruct v; simpl; try done; destruct Hv as [Hk Hr]; try done.
    by intros ? [= <-].
  - intros Hdef. destruct Hs as [v ->]; [by apply fmap_is_Some|]. destruct (Hv v eq_refl) as [Hk _]. destruct v; done.
Qed.

Lemma string_member f e : entry_at dict f = Some (EString e) -> is_Some (default_val e) -> is_Some (member_string fs f).
Proof.
  intros (o & Ho & Hv & Hs)%member_at Hdef. unfold member_string. rewrite Ho. destruct Hs as [v ->]; [by apply fmap_is_Some|].
  destruct (Hv v eq_refl) as [Hk _]. destruct v; done.
Qed.

Lemma float_member f e : entry_at dict f = Some (EFloat e) -> is_Some (default_val e) -> is_Some (member_float fs f).
Proof.
  intros (o & Ho & Hv & Hs)%member_at Hdef. unfold member_float. rewrite Ho. destruct Hs as [v ->]; [by apply fmap_is_Some|].
  destruct (Hv v eq_refl) as [Hk _]. destruct v; done.
Qed.
End members.

Lemma assign_typed dict fs f var v : dict_ok dict -> entry_at dict f = Some var -> kind_ok var v ->
  members_typed dict fs -> members_typed dict (assign fs f v).
Proof.
  intros (_ & Hn & _) He Hk Ht. pose proof (entry_at_in _ _ _ He) as (key & Hin & Hf). apply Forall_forall. intros [key' var'] Hin'.
  destruct (decide (target var' = f)) as [Et|Et].
  - assert (var' = var) as ->.
    { apply list_elem_of_lookup in Hin as [i Hi], Hin' as [i' Hi']. assert (i' = i) as ->; [|by rewrite Hi in Hi'; injection Hi'].
      apply (NoDup_lookup (target <$> dict.*2) i' i f); [done|..]; rewrite !list_lookup_fmap, ?Hi, ?Hi'; simpl; by rewrite ?Et, ?Hf. }
    exists (Some v). unfold assign. cbn [snd]. rewrite Hf, lookup_insert_eq. split; [done|]. by intros ? [= <-].
  - eapply Forall_forall in Ht; [|exact Hin']. destruct Ht as (o & Ho & Hr). exists o. unfold assign. cbn [snd] in *. by rewrite lookup_insert_ne.
Qed.

(** [CheckAndAdjust] returns, and the members keep their types. *)
Definition check_safe (cfg : Config) (ty : PARAM_TYPE) : Prop :=
  forall fs, members_ok (__DICT__ cfg) fs -> wp (CheckAndAdjust cfg ty fs) (fun r => members_typed (__DICT__ cfg) r.1).

Section checks.
Context (dict : list (string * VarEntry)) (fs : Fields) (ty : PARAM_TYPE).
Hypothesis Hd : dict_ok dict.
Hypothesis Hm : members_ok dict fs.
#[local] Abbreviation typed := (fun r : Fields * Status => members_typed dict r.1).

Lemma kept : members_typed dict fs.
Proof. by apply members_ok_typed. Qed.
Lemma kept_ok : wp (ok fs) typed.
Proof. exact kept. Qed.
Lemma kept_error s : wp (HandleError fs s) typed.
Proof. exact kept. Qed.
#[local] Ltac keep := first [exact kept | apply kept_ok | apply kept_error | done].

Lemma wp_member {T} (o : option T) (Q : T -> Prop) : is_Some o -> (forall v, o = Some v -> Q v) -> wp (opt_value o) Q.
Proof. intros [v ->] HQ. by apply HQ. Qed.

(** A limit that must not be below [k], filled in when absent. *)
Lemma limit_safe f ek ee lo err : entry_at dict (base "k") = Some (EInt ek) -> is_Some (default_val ek) ->
  entry_at dict f = Some (EInt ee) -> is_int32 lo ->
  wp (let* k := opt_value (member_int fs (base "k")) in
      match member_int fs f with
      | None => ok (assign fs f (VInt (Z.max k lo)))
      | Some e => if (e <? k)%Z then HandleError fs err else ok fs
      end) typed.
Proof.
  intros Ek Hdef Ef Hlo. destruct (int_member dict fs Hm _ _ Ek) as [Hk Hs]. apply wp_bind, wp_member; [auto|]. intros k Hkk.
  destruct (Hk k Hkk) as [Hr _]. destruct (member_int fs f) as [e|]; [case_match; keep|].
  simpl. apply (assign_typed _ _ _ (EInt ee)); [done|done| |keep]. simpl. unfold is_int32 in *. lia.
Qed.

Lemma hnsw_safe ek ee : entry_at dict (base "k") = Some (EInt ek) -> is_Some (default_val ek) -> entry_at dict ef = Some (EInt ee) ->
  wp (hnsw_check ty fs) typed.
Proof.
  intros Ek Hdef Ef. unfold hnsw_check. destruct ty; try keep.
  - eapply limit_safe; try done.
  - destruct (member_int fs ef); [keep|]. simpl. apply (assign_typed _ _ _ (EInt ee)); [done|done|done|keep].
Qed.

Lemma refine_type_safe f : wp (refine_type_check f fs) typed.
Proof. unfold refine_type_check. repeat case_match; keep. Qed.

Lemma hnsw_flat_safe ek ee : entry_at dict (base "k") = Some (EInt ek) -> is_Some (default_val ek) -> entry_at dict ef = Some (EInt ee) ->
  wp (hnsw_flat_check ty fs) typed.
Proof.
  intros Ek Hdef Ef. unfold hnsw_flat_check. apply wp_bind. eapply wp_mono; [by eapply hnsw_safe|]. intros [fs' s] Ht.
  case_match; [keep|]. destruct ty; try keep. case_match; keep.
Qed.

Lemma hnsw_sq_safe ek ee es eg : entry_at dict (base "k") = Some (EInt ek) -> is_Some (default_val ek) -> entry_at dict ef = Some (EInt ee) ->
  entry_at dict sq_type = Some (EString es) -> is_Some (default_val es) ->
  entry_at dict graph_layout = Some (EString eg) -> is_Some (default_val eg) -> wp (hnsw_sq_check ty fs) typed.
Proof.
  intros Ek Hdef Ef Es Hsd Eg Hgd. unfold hnsw_sq_check. destruct (decide (ty = TRAIN)) as [->|Hty].
  - cbn [hnsw_check ok bind]. rewrite bool_decide_false by (by intros ?). apply wp_bind, wp_member; [by eapply string_member|]. intros q _.
    case_match; [keep|]. apply wp_bind, wp_member; [by eapply string_member|]. intros g _. do 2 (case_match; [keep|]). apply refine_type_safe.
  - apply wp_bind. eapply wp_mono; [by eapply hnsw_safe|]. intros [fs' s] Ht. case_match; [keep|]. by destruct ty.
Qed.

(** Divisors are positive. *)
Definition positive (e : Entry Z) : Prop := forall z, in_range (EInt e) (VInt z) = true -> (0 < z)%Z.

Lemma rem_returns a b : (0 < b)%Z -> int_rem a b = Ret (Z.rem a b).
Proof.
  intros Hb. unfold int_rem. destruct (Z.eqb_spec b 0); [lia|]. destruct (Z.eqb_spec b (-1)); [lia|]. by rewrite andb_false_r.
Qed.

Lemma dim_multiple_safe f em rest : entry_at dict f = Some (EInt em) -> positive em -> wp rest typed -> wp (dim_multiple_check f fs rest) typed.
Proof.
  intros Em Hp Hr. unfold dim_multiple_check. destruct (member_int fs (base "dim")) as [dm|]; [|done].
  destruct (member_int fs f) as [m|] eqn:E; [|done]. destruct (int_member dict fs Hm _ _ Em) as [Hi _]. destruct (Hi m E) as [_ Hin].
  rewrite rem_returns by (by apply Hp). cbn [bind]. case_match; keep.
Qed.

Lemma hnsw_pq_safe f em : entry_at dict f = Some (EInt em) -> positive em -> wp (hnsw_pq_check f ty fs) typed.
Proof. intros Em Hp. unfold hnsw_pq_check. destruct ty; try keep. eapply dim_multiple_safe; try done. apply refine_type_safe. Qed.

Lemma ivf_pq_safe em : entry_at dict ("IvfPqConfig", "m") = Some (EInt em) -> positive em -> wp (ivf_pq_check ty fs) typed.
Proof. intros Em Hp. unfold ivf_pq_check. destruct ty; try keep. eapply dim_multiple_safe; [done|done|keep]. Qed.

Lemma metric_safe l em : entry_at dict (base "metric_type") = Some (EString em) -> is_Some (default_val em) -> wp (metric_check l ty fs) typed.
Proof.
  intros Em Hs. unfold metric_check. destruct ty; try keep. apply wp_bind, wp_member; [by eapply string_member|]. intros m _. case_match; keep.
Qed.

Lemma ivf_sq_cc_safe ec : entry_at dict code_size = Some (EInt ec) -> is_Some (default_val ec) -> wp (ivf_sq_cc_check ty fs) typed.
Proof.
  intros Ec Hs. unfold ivf_sq_cc_check. destruct ty; try keep. apply wp_bind, wp_member; [by eapply int_member|]. intros m _. case_match; keep.
Qed.

Lemma sparse_safe : wp (sparse_check ty fs) typed.
Proof. unfold sparse_check. destruct ty; try keep. case_match; keep. Qed.

Lemma rabitq_safe : wp (ivf_rabitq_check ty fs) typed.
Proof.
  unfold ivf_rabitq_check. cbn [no_check ok bind]. rewrite bool_decide_false by (by intros ?). destruct ty; try keep. apply refine_type_safe.
Qed.

Lemma scann_search_safe fast ek er : entry_at dict (base "k") = Some (EInt ek) -> is_Some (default_val ek) ->
  entry_at dict reorder_k = Some (EInt er) -> wp (scann_search_check fast fs) typed.
Proof.
  intros Ek Hdef Er. unfold scann_search_check. case_match; [keep|]. destruct (int_member dict fs Hm _ _ Ek) as [Hk Hs].
  apply wp_bind, wp_member; [auto|]. intros k Hkk. destruct (Hk k Hkk) as [Hr _].
  destruct (member_int fs reorder_k) as [e|]; [case_match; keep|]. simpl. apply (assign_typed _ _ _ (EInt er)); [done|done|done|keep].
Qed.

Lemma scann_safe fast ek er es : entry_at dict (base "k") = Some (EInt ek) -> is_Some (default_val ek) ->
  entry_at dict reorder_k = Some (EInt er) -> entry_at dict sub_dim = Some (EInt es) -> is_Some (default_val es) -> positive es ->
  wp (scann_check fast ty fs) typed.
Proof.
  intros Ek Hdef Er Es Hsd Hp. unfold scann_check. destruct ty; try (case_match; keep); [|by eapply scann_search_safe].
  destruct (member_int fs (base "dim")) as [dm|]; [|by eapply scann_search_safe]. destruct (int_member dict fs Hm _ _ Es) as [Hi Hs].
  apply wp_bind, wp_member; [auto|]. intros sd Hsd'. destruct (Hi sd Hsd') as [_ Hin]. rewrite rem_returns by (by apply Hp). cbn [bind].
  case_match; [by eapply scann_search_safe|keep].
Qed.

(** An assignment leaves the other members alone. *)
Lemma assign_other fs0 f g v : g <> f -> assign fs0 f v !! g = fs0 !! g.
Proof. intros H. unfold assign. by rewrite lookup_insert_ne. Qed.

Definition float_entry (f : Field) : Prop := exists e, entry_at dict f = Some (EFloat e) /\ is_Some (default_val e).

Lemma float_read fs0 f (Q : spec_float -> Prop) : float_entry f -> fs0 !! f = fs !! f -> (forall v, Q v) -> wp (opt_value (member_float fs0 f)) Q.
Proof.
  intros (e & He & Hs) Hf HQ. unfold member_float. rewrite Hf. apply wp_member; [by apply (float_member dict fs Hm f e)|auto].
Qed.

Lemma diskann_safe ek es : entry_at dict (base "k") = Some (EInt ek) -> is_Some (default_val ek) ->
  entry_at dict (diskann "search_list_size") = Some (EInt es) ->
  Forall float_entry [base "vec_field_size_gb"; diskann "pq_code_budget_gb"; diskann "pq_code_budget_gb_ratio";
    diskann "search_cache_budget_gb"; diskann "search_cache_budget_gb_ratio"] -> wp (diskann_check ty fs) typed.
Proof.
  intros Ek Hdef Es Hf. unfold diskann_check. destruct ty; try keep; [|by eapply limit_safe].
  rewrite !Forall_cons in Hf. destruct Hf as (Fv & Fp & Fr & Fc & Fs & _).
  assert (forall fs0 f v, float_entry f -> members_typed dict fs0 -> members_typed dict (assign fs0 f (VFloat v))) as Hset.
  { intros fs0 f v (e & He & _) Ht. by apply (assign_typed _ _ _ (EFloat e)). }
  set (fs1 := match member_int fs (diskann "search_list_size") with
    | None => assign fs (diskann "search_list_size") (VInt kDefaultSearchListSizeForBuild) | Some _ => fs end).
  assert (members_typed dict fs1 /\ forall g, g <> diskann "search_list_size" -> fs1 !! g = fs !! g) as [H1 Hs1].
  { subst fs1. destruct (member_int fs (diskann "search_list_size")); [split; [keep|done]|]. split.
    - apply (assign_typed _ _ _ (EInt es)); [done|done|done|keep].
    - intros g Hg. by apply assign_other. }
  apply wp_bind, float_read; [done|by apply Hs1|]. intros vec. apply wp_bind, float_read; [done|by apply Hs1|]. intros pq.
  apply wp_bind, float_read; [done|by apply Hs1|]. intros ratio.
  apply wp_bind, float_read; [done|rewrite assign_other by done; by apply Hs1|]. intros cache.
  apply wp_bind, float_read; [done|rewrite assign_other by done; by apply Hs1|]. intros cratio.
  apply Hset; [done|]. by apply Hset.
Qed.
End checks.

(** Every class but CAGRA, whose search parameters are unbounded. *)
#[local] Ltac entries := first
  [ assumption
  | vm_compute; reflexivity
  | eexists; vm_compute; reflexivity
  | let H := fresh in
    intros z H; unfold in_range, within_int, within in H; cbn [range left right include_left include_right andb] in H;
    rewrite andb_true_iff, !orb_true_iff, !Z.ltb_lt, !Z.leb_le in H; lia ].

#[local] Ltac has_float := eexists; split; [vm_compute; reflexivity|eexists; reflexivity].

Lemma checks_safe hc fast cfg ty : In cfg (all_configs hc fast) -> (cfg = GpuCuvsCagraConfig hc -> ty <> SEARCH) -> check_safe cfg ty.
Proof.
  intros Hin Hc fs Hm.
  assert (dict_ok (__DICT__ cfg)) as Hd.
  { pose proof (configs_ok hc fast) as H. rewrite List.Forall_forall in H. by apply H. }
  unfold all_configs in Hin. cbn [In] in Hin. repeat (destruct Hin as [<-|Hin]); [..|done].
  - by apply kept.
  - eapply hnsw_safe; entries.
  - eapply hnsw_flat_safe; entries.
  - eapply hnsw_sq_safe; entries.
  - eapply hnsw_pq_safe; entries.
  - eapply hnsw_pq_safe; entries.
  - by apply kept.
  - by apply kept.
  - by apply kept.
  - by apply kept.
  - eapply ivf_pq_safe; entries.
  - eapply scann_safe; entries.
  - eapply metric_safe; entries.
  - eapply ivf_sq_cc_safe; entries.
  - apply rabitq_safe; entries.
  - apply sparse_safe; entries.
  - by apply kept.
  - eapply diskann_safe; [entries..|]. repeat (apply Forall_cons_2; [has_float|]). apply Forall_nil_2.
  - eapply diskann_safe; [entries..|]. repeat (apply Forall_cons_2; [has_float|]). apply Forall_nil_2.
  - by apply kept.
  - by apply kept.
  - eapply ivf_pq_safe; entries.
  - by apply kept.
  - eapply metric_safe; entries.
  - eapply metric_safe; entries.
  - eapply metric_safe; entries.
  - specialize (Hc eq_refl). match goal with |- wp _ ?Q => change (wp (cagra_check ty fs) Q) end. unfold cagra_check. apply wp_bind.
    eapply wp_mono; [eapply (metric_safe (__DICT__ (GpuCuvsCagraConfig hc))); entries|]. intros [fs' s] Ht. case_match; [done|]. by destruct ty.
  - eapply scann_safe; entries.
  - match goal with |- wp _ ?Q => change (wp (scann_dv_check fast ty fs) Q) end. unfold scann_dv_check. case_match; by apply kept.
Qed.
