(* ===== verification/LoadSpec.v ===== *)
(** * What loading a configuration promises *)

From Stdlib Require Import Ascii.
From stdpp Require Import pretty.
From S2P Require Import Prelude Float Num Expected Bitset Config Configs ConfigProps.

(** ** A concrete JSON library *)

Inductive json_value :=
  | JNull | JBool (b : bool) | JInt (z : Z) | JFloat (f : spec_float) | JString (s : string)
  | JEmpty | JMember (key : string) (v rest : json_value).   (* objects *)

Fixpoint object_at (j : json_value) (key : string) : option json_value :=
  match j with JMember k v rest => if String.eqb k key then Some v else object_at rest key | _ => None end.

Definition to_int64 (z : Z) : Z := ((z + 2 ^ 63) mod 2 ^ 64 - 2 ^ 63)%Z.

(** The strings of a value are UTF-8; its text. *)
Fixpoint all_utf8 (j : json_value) : bool :=
  match j with JString s => utf8 s | JMember k v rest => utf8 k && all_utf8 v && all_utf8 rest | _ => true end.
Fixpoint text (j : json_value) : string :=
  match j with
  | JNull => "null" | JBool b => if b then "true" else "false" | JInt z => pretty z | JFloat _ => "float"
  | JString s => s | JEmpty => "" | JMember k v rest => k +:+ ":" +:+ text v +:+ "," +:+ text rest
  end.
Definition invalid_utf8 {A} : M A := Throw "type_error.316: invalid UTF-8 byte".
Definition wrong_kind {A} : M A := Throw "type_error.302: wrong type".

#[export] Instance json_lib : JsonLib json_value := {|
  is_null j := match j with JNull => true | _ => false end;
  is_number_integer j := match j with JInt _ => true | _ => false end;
  is_number j := match j with JInt _ | JFloat _ => true | _ => false end;
  is_string j := match j with JString _ => true | _ => false end;
  is_boolean j := match j with JBool _ => true | _ => false end;
  get_int64 j := match j with JInt z => Ret (to_int64 z) | JFloat f => Ret (to_int64 (SF_trunc f)) | _ => wrong_kind end;
  get_int32 j := match j with JInt z => Ret (to_int32 (to_int64 z)) | JFloat f => Ret (to_int32 (SF_trunc f)) | _ => wrong_kind end;
  get_double j := match j with JInt z => Ret (F64.of_Z (to_int64 z)) | JFloat f => Ret f | _ => wrong_kind end;
  get_float j := match j with JInt z => Ret (F32.of_Z (to_int64 z)) | JFloat f => Ret (F64.to_f32 f) | _ => wrong_kind end;
  get_string j := match j with JString s => Ret s | _ => wrong_kind end;
  get_bool j := match j with JBool b => Ret b | _ => wrong_kind end;
  equals_string j t := match j with JString s => bool_decide (s = t) | _ => false end;
  json_at := object_at;
  get_to_bool j := match j with JBool b => Ret b | _ => wrong_kind end;
  get_to_counts j := match j with JEmpty => Ret [] | _ => wrong_kind end;
  json_int := JInt; json_float f := JFloat (F64.of_f32 f); json_bool := JBool;
  dump j := if all_utf8 j then Ret (text j) else invalid_utf8;
  dump_object m :=
    if bool_decide (map_Forall (fun k j => utf8 k = true /\ all_utf8 j = true) m)
    then Ret (map_fold (fun k j t => k +:+ ":" +:+ text j +:+ "," +:+ t) EmptyString m) else invalid_utf8
|}.

Lemma dump_returns j : returns (dump j) <-> all_utf8 j = true.
Proof. cbn. destruct (all_utf8 j); split; try done; [by eexists|by intros [t [=]]]. Qed.

#[export] Instance json_laws : JsonLaws json_value.
Proof.
  split; try done.
  - intros [| |z| | | |] Hj; try done. exists (to_int64 z). split; [done|]. split; [|done].
    pose proof (Z.mod_pos_bound (z + 2 ^ 63) (2 ^ 64)) as Hm. unfold is_int64, to_int64, int64_min, int64_max. lia.
  - intros [| | | | | |] Hj; try done; split; by eexists.
  - intros [| | | |s| |] Hj; try done. exists s. split; [done|]. split; [done|]. apply dump_returns.
  - intros [| | | | | |] Hj; try done; by eexists.
  - intros z Hz. cbn [get_int64 json_int json_lib]. unfold to_int64, is_int64, int64_min, int64_max in *. rewrite Z.mod_small; [f_equal; lia|lia].
  - intros [| | | | | |] Hj; try done; by eexists.
  - intros m. cbn [dump_object json_lib]. case_bool_decide as Hm; split.
    + intros _ key j Hj. rewrite dump_returns. exact (Hm key j Hj).
    + intros _. by eexists.
    + by intros [t [=]].
    + intros H. exfalso. apply Hm. intros key j Hj. rewrite <- dump_returns. by apply H.
Qed.

(** No string is a number here, and the build is a debug build. *)
Definition no_floats : FloatConv := {| stof _ := InvalidArgument |}.
Definition debug_build : GlogBuild := true.

(** ** Types *)

(** Only one parameter is a view. *)
Lemma view_keys hc fast cfg key e : In cfg (all_configs hc fast) -> (key, EView e) ∈ __DICT__ cfg -> key = "materialized_view_search_info".
Proof.
  set (ok := fun cfg => forallb (fun kv : string * VarEntry => match kv.2 with
    | EView _ => String.eqb kv.1 "materialized_view_search_info" | _ => true end) (__DICT__ cfg)).
  assert (forallb ok (all_configs hc fast) = true) as H by (vm_compute; reflexivity).
  intros Hin He. rewrite forallb_forall in H. specialize (H cfg Hin). unfold ok in H. rewrite forallb_forall in H.
  apply list_elem_of_In in He. specialize (H _ He). by apply String.eqb_eq in H.
Qed.

(** The names of parameters are printable. *)
Lemma utf8_keys hc fast cfg key var : In cfg (all_configs hc fast) -> (key, var) ∈ __DICT__ cfg -> utf8 key = true.
Proof.
  set (ok := fun cfg => forallb (fun kv : string * VarEntry => utf8 kv.1) (__DICT__ cfg)).
  assert (forallb ok (all_configs hc fast) = true) as H by (vm_compute; reflexivity).
  intros Hin He. rewrite forallb_forall in H. specialize (H cfg Hin). unfold ok in H. rewrite forallb_forall in H.
  apply list_elem_of_In in He. exact (H _ He).
Qed.

(** ** Decimal notation *)

Lemma digit_char n : (n < 10)%N -> digit_of (pretty_N_char n) = Some (Z.of_N n).
Proof. intros H. destruct n as [|d]; [done|]. do 4 (destruct d as [d|d|]; [| |by (reflexivity || lia)]); lia. Qed.

Lemma read_pretty x s n : exists k, read_digits (pretty_N_go x s) 0 n = read_digits s (Z.of_N x) (n + k) /\
  String.length (pretty_N_go x s) = k + String.length s.
Proof.
  revert s n. induction (N.lt_wf_0 x) as [x _ IH]; intros s n. assert (x = 0 \/ 0 < x)%N as [->|Hx] by lia.
  - exists 0. rewrite pretty_N_go_0, Nat.add_0_r. done.
  - rewrite pretty_N_go_step by done. destruct (IH (x `div` 10)%N ltac:(by apply N.div_lt) (String (pretty_N_char (x `mod` 10)) s) n) as (k & E & El).
    exists (S k). rewrite E, El. cbn [String.length read_digits]. rewrite digit_char by (by apply N.mod_lt). split; [|lia]. f_equal; [|lia].
    pose proof (N.div_mod x 10 ltac:(done)) as Hm. set (q := (x `div` 10)%N) in *. set (r := (x `mod` 10)%N) in *. lia.
Qed.

Lemma pretty_head x s : (0 < x)%N -> exists c r d, pretty_N_go x s = String c r /\ digit_of c = Some d.
Proof.
  revert s. induction (N.lt_wf_0 x) as [x _ IH]; intros s Hx. rewrite pretty_N_go_step by done.
  assert (x `div` 10 = 0 \/ 0 < x `div` 10)%N as [->|Hd] by (clear; generalize (x `div` 10)%N; lia).
  - rewrite pretty_N_go_0. eexists _, _, _. split; [done|]. apply digit_char. by apply N.mod_lt.
  - apply IH; [by apply N.div_lt|done].
Qed.

(** A digit is neither white space nor a sign. *)
Lemma digit_plain c d : digit_of c = Some d -> isspace c = false /\ (Ascii.nat_of_ascii c =? 45) = false /\ (Ascii.nat_of_ascii c =? 43) = false.
Proof.
  unfold digit_of, isspace. destruct (Nat.leb_spec 48 (Ascii.nat_of_ascii c)), (Nat.leb_spec (Ascii.nat_of_ascii c) 57); cbn [andb]; try done. intros _.
  rewrite !(proj2 (Nat.eqb_neq _ _)) by lia. rewrite (proj2 (Nat.leb_gt (Ascii.nat_of_ascii c) 13)) by lia. by rewrite andb_false_r.
Qed.

Lemma stoll_unsigned x : (0 < x)%N -> is_int64 (Z.of_N x) ->
  stoll (pretty_N_go x "") = Converted (Z.of_N x) (String.length (pretty_N_go x "")).
Proof.
  intros Hx H64. destruct (read_pretty x "" 0) as (k & E & El), (pretty_head x "" Hx) as (c & r & d & Hc & Hd).
  destruct (digit_plain c d Hd) as (Hs & H1 & H2). unfold stoll. rewrite Hc in *. cbn [skip_space]. rewrite Hs, H1, H2, E. cbn [read_digits].
  rewrite El. cbn [String.length]. destruct k; [by cbn [String.length] in El; lia|]. by rewrite bool_decide_true, Nat.add_0_r by done.
Qed.

Lemma stoll_negative x : (0 < x)%N -> is_int64 (- Z.of_N x) ->
  stoll (String "-"%char (pretty_N_go x "")) = Converted (- Z.of_N x)%Z (S (String.length (pretty_N_go x ""))).
Proof.
  intros Hx H64. destruct (read_pretty x "" 0) as (k & E & El), (pretty_head x "" Hx) as (c & r & d & Hc & Hd).
  change (stoll (String "-" (pretty_N_go x ""))) with (let '(v, n) := read_digits (pretty_N_go x "") 0 0 in if n =? 0 then InvalidArgument
    else if bool_decide (is_int64 (- v)) then Converted (- v)%Z (1 + n) else OutOfRange). rewrite E. cbn [read_digits].
  rewrite El. cbn [String.length]. destruct k; [rewrite Hc in El; cbn [String.length] in El; lia|]. by rewrite bool_decide_true, Nat.add_0_r by done.
Qed.

Lemma stoll_pretty z : is_int64 z -> stoll (pretty z) = Converted z (String.length (pretty z)).
Proof.
  intros H64. destruct z as [|p|p]; [reflexivity|apply (stoll_unsigned (Npos p)); [lia|exact H64]|apply (stoll_negative (Npos p)); [lia|exact H64]].
Qed.

Section claims.
Context {Json : Type} `{JL : !JsonLib Json, JW : !JsonLaws Json, FC : !FloatConv, GB : !GlogBuild}.
Implicit Types (json : gmap string Json) (ty : PARAM_TYPE).

Lemma format_loop_absent dict json key json_ s : json !! key = None -> format_loop dict json = Ret (json_, s) -> json_ !! key = None.
Proof.
  revert json. induction dict as [|[k var] dict IH]; intros json Hk; [by intros [= <- _]|]. cbn [format_loop].
  destruct (json !! k) as [j|] eqn:Ej; [|by apply IH]. case_match; [|by apply IH].
  destruct (format_var j var) as [[j'|s']|e|]; [|intros [= <- _]; done|intros [= <- _]; done|done].
  apply IH. rewrite lookup_insert_ne; [done|]. intros ->. by rewrite Ej in Hk.
Qed.

Lemma format_all_absent dict json key : json !! key = None -> format_all dict json !! key = None.
Proof.
  revert json. induction dict as [|kv dict IH]; intros json Hk; [done|]. unfold format_all in *. cbn [foldl]. apply IH.
  destruct (decide (key = kv.1)) as [->|Hne]; [|by rewrite format_one_other]. unfold format_one. by rewrite Hk.
Qed.

(** C31: given any JSON object whose strings are well-formed UTF-8, loading a
    configuration of any class for any operation, in a debug or a release build,
    returns a status (no exception, no undefined behaviour), and afterwards every
    member of the object holds nothing or a value of its declared type.  A
    conversion from a value of another kind would throw, and so would printing
    ill-formed text in a message or in the debug log.  Excluded are the
    materialized view, whose conversion may throw, and the search parameters of
    CAGRA, whose arithmetic may overflow. *)
Theorem load_config_typed hc fast cfg json ty : In cfg (all_configs hc fast) ->
  (cfg = GpuCuvsCagraConfig hc -> ty <> SEARCH) -> json !! "materialized_view_search_info" = None ->
  returns (dump_object json) ->
  exists fs s, LoadConfig cfg json ty = Ret (fs, s) /\ members_typed (__DICT__ cfg) fs.
Proof.
  intros Hin Hc Hv Hp. pose proof (configs_ok hc fast) as Hok. rewrite List.Forall_forall in Hok. destruct (Hok cfg Hin) as [Hd Hm].
  destruct (format_loop_returns (__DICT__ cfg) json) as (json_ & res & Ef). pose proof (format_loop_absent _ _ _ _ _ Hv Ef) as Hv'.
  pose proof (format_loop_printable _ _ _ _ Hp Ef) as Hp'. rewrite (LoadConfig_printed _ _ _ _ _ Ef) by (intros _; exact Hp').
  case_match; [|eexists _, _; split; [done|by apply members_ok_typed]]. unfold Load.
  destruct (load_loop_returns (__DICT__ cfg) json_ ty (fields cfg)) as (fs & s & E).
  { intros key j Hj. rewrite dump_members in Hp'. by apply (Hp' key). }
  { intros key e He. by rewrite (view_keys hc fast cfg key e Hin He). }
  pose proof (load_loop_members _ _ _ _ _ _ _ Hd ltac:(done) Hm E) as Hfs. rewrite E. cbn [bind].
  case_match; [|eexists _, _; split; [done|by apply members_ok_typed]].
  destruct (wp_elim _ _ (checks_safe hc fast cfg ty Hin Hc fs Hfs)) as ([fs' s'] & -> & Ht). by eexists _, _.
Qed.

(** ** Order *)

(** the dictionary is an unordered map, and its order does not matter: a
    configuration whose parameters are distinct, visited in any two orders, loads
    successfully in both or in neither, and with the same members.  (Which error
    is reported may differ.) *)
Theorem load_order_irrelevant cfg dict' json ty fs : dict_ok (__DICT__ cfg) -> __DICT__ cfg ≡ₚ dict' ->
  LoadConfig cfg json ty = Ret (fs, success) <->
  LoadConfig (mkConfig dict' (fields cfg) (CheckAndAdjust cfg)) json ty = Ret (fs, success).
Proof.
  intros Hd Hp. assert (dict_ok dict') as Hd'.
  { destruct Hd as (H1 & H2 & H3). unfold dict_ok. rewrite <- Hp. done. }
  rewrite !load_config_success by done. cbn [__DICT__ fields CheckAndAdjust]. cbv zeta. destruct Hd as (H1 & H2 & _).
  assert (forall P, Forall P (__DICT__ cfg) <-> Forall P dict') as HF by (intros P; by rewrite Hp).
  by rewrite (format_all_perm _ _ json H1 Hp), <- (load_all_perm _ _ _ ty (fields cfg) H2 Hp), !HF.
Qed.

(** ** Limits *)

Lemma read_assign fs f v z : v = VInt z -> member_int (assign fs f v) f = Some z.
Proof. intros ->. unfold member_int, assign. by rewrite lookup_insert_eq. Qed.

Lemma read_other fs f g v : g <> f -> member_int (assign fs f v) g = member_int fs g.
Proof. intros H. unfold member_int. by rewrite assign_other. Qed.

(** A limit that is filled in from [k] or compared with it. *)
Lemma limit_covers f fs0 fs (fill : Z -> Z) : f <> base "k" -> (forall k, k <= fill k)%Z ->
  (let* k := opt_value (member_int fs0 (base "k")) in
   match member_int fs0 f with
   | None => ok (assign fs0 f (VInt (fill k)))
   | Some e => if (e <? k)%Z then HandleError fs0 out_of_range_in_json else ok fs0
   end) = Ret (fs, success) ->
  exists k l, member_int fs (base "k") = Some k /\ member_int fs0 (base "k") = Some k /\ member_int fs f = Some l /\ (k <= l)%Z /\
    l = default (fill k) (member_int fs0 f).
Proof.
  intros Hf Hfill. destruct (member_int fs0 (base "k")) as [k|] eqn:Ek; [|done]. cbn [opt_value bind].
  destruct (member_int fs0 f) as [e|] eqn:Ee.
  - destruct (Z.ltb_spec e k); [done|]. intros [= <-]. exists k, e. done.
  - intros [= <-]. exists k, (fill k). rewrite read_other, (read_assign _ _ _ (fill k)) by done. done.
Qed.

(** An override that first calls the base class. *)
Lemma base_success (m : M (Fields * Status)) K fs :
  (let* (g, s) := m in if bool_decide (s <> success) then Ret (g, s) else K g) = Ret (fs, success) ->
  exists g, m = Ret (g, success) /\ K g = Ret (fs, success).
Proof.
  intros ([g s] & -> & H)%bind_Ret_inv. destruct (decide (s = success)) as [->|Hs].
  - rewrite bool_decide_false in H by (by intros ?). by exists g.
  - rewrite bool_decide_true in H by done. congruence.
Qed.

(** The classes with such a limit: the member, its name and what fills it. *)
Definition limited (hc : Z) : list (Config * (Field * string * (Z -> Z))) :=
  let hnsw := (ef, "ef", fun k => Z.max k kEfMinValue) in
  let graph := (diskann "search_list_size", "search_list_size", fun k => Z.max k kSearchListSizeMinValue) in
  let scann := (reorder_k, "reorder_k", fun k => k) in
  [(HnswConfig hc, hnsw); (FaissHnswFlatConfig hc, hnsw); (FaissHnswSqConfig hc, hnsw);
   (DiskANNConfig hc, graph); (AisaqConfig hc, graph); (ScannConfig hc true, scann)].

Lemma limited_check hc cfg f key fill fs0 fs : In (cfg, (f, key, fill)) (limited hc) ->
  CheckAndAdjust cfg SEARCH fs0 = Ret (fs, success) ->
  exists k l, member_int fs (base "k") = Some k /\ member_int fs0 (base "k") = Some k /\ member_int fs f = Some l /\ (k <= l)%Z /\
    l = default (fill k) (member_int fs0 f).
Proof.
  unfold limited. cbn [In]. intros Hin H.
  assert (forall g, hnsw_check SEARCH fs0 = Ret (g, success) -> g = fs -> exists k l, member_int fs (base "k") = Some k /\
    member_int fs0 (base "k") = Some k /\ member_int fs ef = Some l /\ (k <= l)%Z /\ l = default (Z.max k kEfMinValue) (member_int fs0 ef)) as Hh.
  { intros g Hg ->. apply (limit_covers ef fs0 fs (fun k => Z.max k kEfMinValue)); [done|lia|exact Hg]. }
  destruct Hin as [[= <- <- <- <-]|[[= <- <- <- <-]|[[= <- <- <- <-]|[[= <- <- <- <-]|[[= <- <- <- <-]|[[= <- <- <- <-]|[]]]]]]].
  - by eapply Hh.
  - apply base_success in H as (g & Hg & [= <-]). by apply (Hh g).
  - apply base_success in H as (g & Hg & [= <-]). by apply (Hh g).
  - apply (limit_covers _ fs0 fs (fun k => Z.max k kSearchListSizeMinValue)); [done|lia|exact H].
  - apply (limit_covers _ fs0 fs (fun k => Z.max k kSearchListSizeMinValue)); [done|lia|exact H].
  - apply (limit_covers _ fs0 fs (fun k => k)); [done|lia|exact H].
Qed.

Lemma limited_class hc cfg p : In (cfg, p) (limited hc) -> In cfg (all_configs hc true).
Proof.
  unfold limited. cbn [In]. intros [[= <- _]|[[= <- _]|[[= <- _]|[[= <- _]|[[= <- _]|[[= <- _]|[]]]]]]]; unfold all_configs.
  - do 1 right. left. reflexivity.
  - do 2 right. left. reflexivity.
  - do 3 right. left. reflexivity.
  - do 17 right. left. reflexivity.
  - do 18 right. left. reflexivity.
  - do 11 right. left. reflexivity.
Qed.

(** The entries concerned, in each of these classes. *)
Lemma k_entry hc cfg p : In (cfg, p) (limited hc) -> exists ek, entry_at (__DICT__ cfg) (base "k") = Some (EInt ek) /\ positive ek.
Proof.
  unfold limited. cbn [In]. intros Hin.
  repeat (destruct Hin as [[= <- <-]|Hin]; [eexists; split; [vm_compute; reflexivity|
    let H := fresh in intros z H; unfold in_range, within_int, within in H; cbn [range left right include_left include_right andb] in H;
    rewrite andb_true_iff, !orb_true_iff, !Z.ltb_lt, !Z.leb_le in H; lia]|]). done.
Qed.

Lemma named_entry (dict : list (string * VarEntry)) key var :
  List.find (fun kv => String.eqb kv.1 key) dict = Some (key, var) -> (key, var) ∈ dict.
Proof. intros [H _]%List.find_some. by apply list_elem_of_In. Qed.

Lemma limit_entry hc cfg f key fill : In (cfg, (f, key, fill)) (limited hc) -> exists el, (key, EInt el) ∈ __DICT__ cfg /\ target (EInt el) = f /\
  default_val el = None /\ allow_empty_without_default el = true /\ fields cfg !! f = Some None.
Proof.
  unfold limited. cbn [In]. intros Hin.
  repeat (destruct Hin as [[= <- <- <- <-]|Hin]; [eexists; split; [apply named_entry; vm_compute; reflexivity|];
    split; [reflexivity|]; split; [reflexivity|]; split; [reflexivity|vm_compute; reflexivity]|]). done.
Qed.

(** C32: after a search configuration of HNSW, DiskANN, AiSAQ or SCANN has loaded
    successfully, [k] is a positive [int] and the size of the search ([ef], the
    search list, the candidates to reorder) is at least [k]: the given size, or
    the default for [k]. *)
Theorem search_limit_covers_k hc cfg f key fill json fs : In (cfg, (f, key, fill)) (limited hc) ->
  LoadConfig cfg json SEARCH = Ret (fs, success) ->
  exists k l, member_int fs (base "k") = Some k /\ member_int fs f = Some l /\ (1 <= k <= l)%Z /\ is_int32 k /\
    (json !! key = None -> l = fill k).
Proof.
  intros Hin H. pose proof (limited_class _ _ _ Hin) as Hc. pose proof (configs_ok hc true) as Hok. rewrite List.Forall_forall in Hok.
  destruct (Hok cfg Hc) as [Hd Hm]. apply load_config_success in H as (_ & _ & Ha & H); [|done]. cbv zeta in *. set (json_ := format_all _ _) in *.
  pose proof (load_all_ok _ _ _ _ Hd Ha Hm) as Hl. set (fs0 := load_all _ _ _ _) in *.
  destruct (limited_check _ _ _ _ _ _ _ Hin H) as (k & l & Ek & Ek0 & El & Hkl & Hfill). exists k, l.
  destruct (k_entry hc cfg (f, key, fill) Hin) as (ek & He & Hpos). destruct (int_member _ _ Hl _ _ He) as [Hk _].
  destruct (Hk k Ek0) as [Hi Hr]. specialize (Hpos k Hr). split; [done|]. split; [done|]. split; [lia|]. split; [done|].
  intros Habs. rewrite Hfill. destruct (limit_entry hc cfg f key fill Hin) as (el & Hel & Het & Hdl & Hal & Hfl).
  subst fs0. unfold member_int. rewrite <- Het, (load_all_at _ _ _ _ key (EInt el)) by (apply Hd || done).
  assert (json_ !! key = None) as Hj by (by apply format_all_absent).
  cbn [check_var]. unfold check_entry. rewrite Hj, Hdl, Hal, Het, Hfl. by destruct (Z.land _ _ =? 0)%Z.
Qed.

(** ** Loading small objects *)

Lemma load_config_checks cfg json ty : dict_ok (__DICT__ cfg) -> Forall (formats json) (__DICT__ cfg) ->
  printable (format_all (__DICT__ cfg) json) -> Forall (accepted (format_all (__DICT__ cfg) json) ty) (__DICT__ cfg) ->
  LoadConfig cfg json ty = CheckAndAdjust cfg ty (load_all (__DICT__ cfg) (format_all (__DICT__ cfg) json) ty (fields cfg)).
Proof.
  intros Hd Hf Hp Ha. assert (format_loop (__DICT__ cfg) json = Ret (format_all (__DICT__ cfg) json, success)) as E
    by (apply format_loop_success; [apply Hd|done]). rewrite (LoadConfig_printed _ _ _ _ _ E Hp), bool_decide_true by done. unfold Load.
  assert (load_loop (__DICT__ cfg) (format_all (__DICT__ cfg) json) ty (fields cfg) =
    Ret (load_all (__DICT__ cfg) (format_all (__DICT__ cfg) json) ty (fields cfg), success)) as -> by
    (apply load_loop_success; [by apply dict_sound_errors|done]).
  cbn [bind]. by rewrite bool_decide_true.
Qed.

(** An object without strings is left as it is. *)
Definition no_strings json : Prop := forall key j, json !! key = Some j -> is_string j = false.

Lemma no_strings_formats dict json : no_strings json -> Forall (formats json) dict /\ format_all dict json = json.
Proof.
  intros Hn. split.
  - apply Forall_forall. intros [key var] _ j s Hj Hs. cbn [fst] in Hj. by rewrite (Hn key j Hj) in Hs.
  - induction dict as [|kv dict IH]; [done|]. unfold format_all in *. cbn [foldl].
    assert (format_one json kv = json) as ->; [|done]. unfold format_one. destruct (json !! kv.1) as [j|] eqn:Ej; [|done]. by rewrite (Hn _ _ Ej).
Qed.

Lemma json_int_not_string z : is_string (json_int z) = false.
Proof. apply json_int_kind. Qed.

Lemma json_int_prints z : returns (dump (json_int z)).
Proof. apply dump_scalar. by rewrite (proj1 (json_int_kind z)). Qed.

Lemma ints_printable json : (forall key j, json !! key = Some j -> utf8 key = true /\ exists z, j = json_int z) -> printable json.
Proof. intros H _. apply dump_members. intros key j (Hk & z & ->)%H. split; [done|apply json_int_prints]. Qed.

(** An integer given for an [int] parameter. *)
Lemma int_checked json ty key e z : json !! key = Some (json_int z) -> is_int64 z -> selected ty (EInt e) = true ->
  check_var json ty key (EInt e) = Ret (match range e with
    | Some r => if (int32_max <? z)%Z then inr arithmetic_overflow
                else if within_int r (to_int32 z) then inl (Some (VInt (to_int32 z))) else inr out_of_range_in_json
    | None => inl (Some (VInt (to_int32 z))) end).
Proof.
  intros Hk Hz Hs. cbn [check_var]. unfold check_entry, selected in *. cbn [bits_of] in Hs. destruct (Z.land _ _ =? 0)%Z; [done|]. rewrite Hk. cbn [bind].
  unfold convert_int. destruct (json_int_kind z) as [Hi _]. rewrite Hi. cbn [negb]. destruct (get_integer _ Hi) as (y & Ey & _ & E32). rewrite json_int_get in Ey by done. injection Ey as <-. rewrite json_int_get, E32 by done. cbn [bind].
  destruct (json_int_prints z) as [t Et]. unfold reject. rewrite Et.
  destruct (range e) as [r|]; [|done]. destruct (int32_max <? z)%Z; [done|]. cbn [bind]. by destruct (within_int r (to_int32 z)).
Qed.

Lemma int_accepted json ty key e z : json !! key = Some (json_int z) -> is_int32 z -> in_range (EInt e) (VInt z) = true ->
  selected ty (EInt e) = true -> check_var json ty key (EInt e) = Ret (inl (Some (VInt z))).
Proof.
  intros Hk Hz Hr Hs. rewrite (int_checked json ty key e z Hk) by (done || (unfold is_int32, is_int64, int32_min, int32_max, int64_min, int64_max in *; lia)).
  rewrite to_int32_id by done. cbn [in_range] in Hr. destruct (range e); [|done]. destruct (Z.ltb_spec int32_max z); [unfold is_int32 in Hz; lia|]. by rewrite Hr.
Qed.

(** [int] parameters of a class whose other parameters are optional. *)
Lemma load_ints cfg json ty : dict_ok (__DICT__ cfg) -> (forall key var, (key, var) ∈ __DICT__ cfg -> utf8 key = true) ->
  (forall key var, (key, var) ∈ __DICT__ cfg -> json !! key = None -> optional var = true) ->
  (forall key j, json !! key = Some j -> exists e z, (key, EInt e) ∈ __DICT__ cfg /\ j = json_int z /\ is_int32 z /\ in_range (EInt e) (VInt z) = true /\ selected ty (EInt e) = true) ->
  LoadConfig cfg json ty = CheckAndAdjust cfg ty (load_all (__DICT__ cfg) json ty (fields cfg)) /\
  forall key e z, (key, EInt e) ∈ __DICT__ cfg -> json !! key = Some (json_int z) -> is_int32 z -> in_range (EInt e) (VInt z) = true -> selected ty (EInt e) = true ->
    member_int (load_all (__DICT__ cfg) json ty (fields cfg)) (val e) = Some z.
Proof.
  intros Hd Hu Ho Hj. assert (no_strings json) as Hn by (intros key j (e & z & _ & -> & _)%Hj; apply json_int_not_string).
  assert (printable json) as Hp.
  { apply ints_printable. intros key j (e & z & He & -> & _)%Hj. split; [by apply (Hu key (EInt e))|by exists z]. }
  destruct (no_strings_formats (__DICT__ cfg) json Hn) as [Hf E]. split.
  - rewrite load_config_checks; [by rewrite E|done|done|by rewrite E|]. rewrite E. apply Forall_forall. intros [key var] Hin.
    destruct (json !! key) as [j|] eqn:Ej; [|apply absent_accepted; [done|by apply (Ho key)]].
    destruct (Hj key j Ej) as (e & z & He & -> & Hz & Hr & Hs).
    assert (var = EInt e) as ->.
    { destruct Hd as (Hk & _). apply list_elem_of_lookup in Hin as [i Hi], He as [i' Hi'].
      assert (i' = i) as ->; [|rewrite Hi in Hi'; by injection Hi'].
      apply (NoDup_lookup (__DICT__ cfg).*1 i' i key); [done|..]; rewrite !list_lookup_fmap, ?Hi, ?Hi'; done. }
    eexists. cbn [fst snd]. by rewrite (int_accepted json ty key e z).
  - intros key e z Hin Hk Hz Hr Hs. unfold member_int. change (val e) with (target (EInt e)).
    rewrite (load_all_at _ _ _ _ key (EInt e)) by (apply Hd || done). by rewrite (int_accepted json ty key e z).
Qed.

(** ** HNSW with product quantizers *)

Definition pq_classes (hc : Z) : list Config := [FaissHnswPqConfig hc; FaissHnswPrqConfig hc].

Lemma pq_check hc cfg ty fs : In cfg (pq_classes hc) -> ty <> TRAIN -> CheckAndAdjust cfg ty fs = Ret (fs, success).
Proof. intros [<-|[<-|[]]] Ht; by destruct ty. Qed.

(** The entries of [k] and [ef] in the HNSW classes, and no parameter is required. *)
Lemma hnsw_entries hc cfg : In cfg (FaissHnswFlatConfig hc :: pq_classes hc) -> In cfg (all_configs hc true) /\
  (forall key var, (key, var) ∈ __DICT__ cfg -> optional var = true) /\
  exists ek ee, ("k", EInt ek) ∈ __DICT__ cfg /\ ("ef", EInt ee) ∈ __DICT__ cfg /\ val ek = base "k" /\ val ee = ef /\
    selected SEARCH (EInt ek) = true /\ selected SEARCH (EInt ee) = true /\
    range ek = Some (mkRange 1%Z int32_max true true) /\ range ee = Some (mkRange 1%Z int32_max true true) /\
    default_val ee = None /\ allow_empty_without_default ee = true /\ fields cfg !! ef = Some None.
Proof.
  assert (forall c, forallb (fun kv => optional kv.2) (__DICT__ c) = true -> forall key var, (key, var) ∈ __DICT__ c -> optional var = true) as Ho.
  { intros c H key var Hin%list_elem_of_In. rewrite forallb_forall in H. exact (H _ Hin). }
  intros [<-|[<-|[<-|[]]]].
  - split; [do 2 right; left; reflexivity|]. split; [apply Ho; vm_compute; reflexivity|].
    eexists _, _. split; [apply named_entry; vm_compute; reflexivity|]. split; [apply named_entry; vm_compute; reflexivity|]. by vm_compute.
  - split; [do 4 right; left; reflexivity|]. split; [apply Ho; vm_compute; reflexivity|].
    eexists _, _. split; [apply named_entry; vm_compute; reflexivity|]. split; [apply named_entry; vm_compute; reflexivity|]. by vm_compute.
  - split; [do 5 right; left; reflexivity|]. split; [apply Ho; vm_compute; reflexivity|].
    eexists _, _. split; [apply named_entry; vm_compute; reflexivity|]. split; [apply named_entry; vm_compute; reflexivity|]. by vm_compute.
Qed.

Definition k_and_ef (k e : Z) : gmap string Json := <["k" := json_int k]> {["ef" := json_int e]}.

(** Loading [k] and [ef]. *)
Lemma load_k_and_ef hc cfg k e : In cfg (FaissHnswFlatConfig hc :: pq_classes hc) -> (1 <= k <= int32_max)%Z -> (1 <= e <= int32_max)%Z ->
  exists fs, LoadConfig cfg (k_and_ef k e) SEARCH = CheckAndAdjust cfg SEARCH fs /\ member_int fs (base "k") = Some k /\ member_int fs ef = Some e.
Proof.
  intros Hin Hk He. destruct (hnsw_entries hc cfg Hin) as (Hc & Ho & ek & ee & Ik & Ie & Vk & Ve & Sk & Se & Rk & Re & _).
  pose proof (configs_ok hc true) as Hok. rewrite List.Forall_forall in Hok. destruct (Hok cfg Hc) as [Hd _].
  assert (forall z, (1 <= z <= int32_max)%Z -> is_int32 z /\ within_int (mkRange 1%Z int32_max true true) z = true) as Hz.
  { intros z Hz. split; [unfold is_int32, int32_min; lia|]. unfold within_int, within. cbn [left right include_left include_right].
    rewrite (proj2 (Z.leb_le 1 z)), (proj2 (Z.leb_le z int32_max)) by lia. by rewrite !orb_true_r. }
  destruct (Hz k Hk) as [K1 K2], (Hz e He) as [E1 E2].
  destruct (load_ints cfg (k_and_ef k e) SEARCH Hd) as [E Hv]; [by intros key var; apply (utf8_keys hc true)|by intros key var Hkv _; apply (Ho key)| |].
  { unfold k_and_ef. intros key j [[<- <-]|[Hne [<- <-]%lookup_singleton_Some]]%lookup_insert_Some.
    - exists ek, k. cbn [in_range]. by rewrite Rk.
    - exists ee, e. cbn [in_range]. by rewrite Re. }
  eexists. split; [exact E|]. rewrite <- Vk, <- Ve. unfold k_and_ef in *. split.
  - apply (Hv "k" ek k); [done|by rewrite lookup_insert_eq|done|cbn [in_range]; by rewrite Rk|done].
  - apply (Hv "ef" ee e); [done|rewrite lookup_insert_ne by done; apply lookup_singleton_eq|done|cbn [in_range]; by rewrite Re|done].
Qed.

(** the product-quantizer HNSW classes override [CheckAndAdjust] without
    calling the base class.  So, unlike for the other HNSW classes, a missing
    [ef] stays empty in searches, and a range search is refused for want of it;
    and an [ef] below [k] is accepted, which the flat index rejects. *)
Theorem hnsw_pq_skips_base_check hc cfg : In cfg (pq_classes hc) ->
  (forall json ty fs, ty = SEARCH \/ ty = RANGE_SEARCH -> json !! "ef" = None -> LoadConfig cfg json ty = Ret (fs, success) ->
   member_int fs ef = None /\ forall ntotal bitset, WhetherPerformBruteForceRangeSearch ntotal fs bitset = None) /\
  (forall k e, (1 <= k <= int32_max)%Z -> (1 <= e <= int32_max)%Z ->
   (exists fs, LoadConfig cfg (k_and_ef k e) SEARCH = Ret (fs, success) /\ member_int fs (base "k") = Some k /\ member_int fs ef = Some e) /\
   ((e < k)%Z -> exists fs, LoadConfig (FaissHnswFlatConfig hc) (k_and_ef k e) SEARCH = Ret (fs, out_of_range_in_json))).
Proof.
  intros Hin. split.
  - intros json ty fs Hty Hj H. destruct (hnsw_entries hc cfg (or_intror Hin)) as (Hc & _ & ek & ee & _ & Ie & _ & Ve & _ & _ & _ & _ & Dn & Al & Hf).
    pose proof (configs_ok hc true) as Hok. rewrite List.Forall_forall in Hok. destruct (Hok cfg Hc) as [Hd _].
    apply load_config_success in H as (_ & _ & _ & H); [|done]. cbv zeta in H. rewrite (pq_check hc) in H by (done || (by destruct Hty as [->| ->])).
    injection H as <-. assert (member_int (load_all (__DICT__ cfg) (format_all (__DICT__ cfg) json) ty (fields cfg)) ef = None) as E.
    { unfold member_int. rewrite <- Ve. change (val ee) with (target (EInt ee)). rewrite (load_all_at _ _ _ _ "ef" (EInt ee)) by (apply Hd || done).
      cbn [check_var]. unfold check_entry. rewrite format_all_absent, Dn, Al by done. cbn [target]. rewrite Ve, Hf. by destruct (Z.land _ _ =? 0)%Z. }
    split; [done|]. intros ntotal bitset. unfold WhetherPerformBruteForceRangeSearch. by rewrite E.
  - intros k e Hk He. split.
    + destruct (load_k_and_ef hc cfg k e (or_intror Hin) Hk He) as (fs & -> & Ek & Ee). exists fs. by rewrite (pq_check hc).
    + intros Hlt. destruct (load_k_and_ef hc (FaissHnswFlatConfig hc) k e (or_introl eq_refl) Hk He) as (fs & -> & Ek & Ee). exists fs.
      change (hnsw_flat_check SEARCH fs = Ret (fs, out_of_range_in_json)). unfold hnsw_flat_check, hnsw_check. rewrite Ek, Ee. cbn [opt_value bind].
      by rewrite (proj2 (Z.ltb_lt e k)).
Qed.

(** ** Integers that do not fit *)

(** One parameter fails and all others are absent. *)
Lemma load_one_fails hc fast cfg key var j ty s : In cfg (all_configs hc fast) -> (key, var) ∈ __DICT__ cfg -> (forall e, var <> EView e) -> is_string j = false ->
  (forall k v, (k, v) ∈ __DICT__ cfg -> optional v = true) -> returns (dump j) -> check_var {[key := j]} ty key var = Ret (inr s) ->
  exists fs, LoadConfig cfg {[key := j]} ty = Ret (fs, s).
Proof.
  intros Hc Hin Hv Hj Ho Hpr Hs. pose proof (configs_ok hc fast) as Hok. rewrite List.Forall_forall in Hok. destruct (Hok cfg Hc) as [Hd _].
  assert (no_strings {[key := j]}) as Hn by (by intros k' j' [<- <-]%lookup_singleton_Some).
  destruct (no_strings_formats (__DICT__ cfg) {[key := j]} Hn) as [Hf E].
  assert (forall k' j', ({[key := j]} : gmap string Json) !! k' = Some j' -> utf8 k' = true /\ returns (dump j')) as Hall.
  { intros k' j' [<- <-]%lookup_singleton_Some. split; [by apply (utf8_keys hc fast cfg key var)|done]. }
  assert (format_loop (__DICT__ cfg) {[key := j]} = Ret ({[key := j]}, success)) as Ef
    by (apply format_loop_success; [apply Hd|by rewrite E]).
  rewrite (LoadConfig_printed _ _ _ _ _ Ef) by (intros _; by apply dump_members). rewrite bool_decide_true by done. unfold Load.
  assert (forall k' v', (k', v') ∈ __DICT__ cfg -> k' = key -> v' = var) as Huniq.
  { intros k' v' Hin' ->. destruct Hd as (Hk & _). apply list_elem_of_lookup in Hin as [i Hi], Hin' as [i' Hi'].
    assert (i' = i) as ->; [|rewrite Hi in Hi'; by injection Hi'].
    apply (NoDup_lookup (__DICT__ cfg).*1 i' i key); [done|..]; rewrite !list_lookup_fmap, ?Hi, ?Hi'; done. }
  destruct (load_loop_returns (__DICT__ cfg) {[key := j]} ty (fields cfg)) as (fs & s' & El).
  { intros k' j' Hj'. by apply (Hall k'). }
  { intros k' e' He'. apply lookup_singleton_ne. intros <-. specialize (Huniq key (EView e') He' eq_refl). by apply (Hv e'). }
  exists fs. rewrite El. cbn [bind]. assert (s' = s) as ->.
  - destruct (decide (s' = success)) as [->|Hs'].
    + apply (load_loop_success _ _ _ _ _ (dict_sound_errors _ Hd)) in El as [Ha _]. eapply Forall_forall in Ha; [|exact Hin].
      destruct Ha as [o Hacc]. cbn [fst snd] in Hacc. congruence.
    + destruct (load_loop_fails _ _ _ _ _ _ El Hs') as (k' & v' & Hin' & Hc').
      destruct (decide (k' = key)) as [->|Hne]; [rewrite (Huniq key v' Hin' eq_refl) in Hc'; congruence|].
      destruct (absent_accepted {[key := j]} ty k' v') as [o Hacc]; [by apply lookup_singleton_ne|by apply (Ho k')|].
      cbn [fst snd] in Hacc. congruence.
  - pose proof (dict_sound_errors _ Hd _ _ _ _ _ Hin Hs). by rewrite bool_decide_false.
Qed.

(** One integer parameter is accepted and all others are absent. *)
Lemma load_one_int cfg key e z v ty : dict_ok (__DICT__ cfg) -> utf8 key = true -> (key, EInt e) ∈ __DICT__ cfg ->
  (forall k v, (k, v) ∈ __DICT__ cfg -> optional v = true) -> check_var {[key := json_int z]} ty key (EInt e) = Ret (inl (Some (VInt v))) ->
  exists fs, LoadConfig cfg {[key := json_int z]} ty = CheckAndAdjust cfg ty fs /\ member_int fs (val e) = Some v.
Proof.
  intros Hd Hu Hin Ho Hv. assert (no_strings {[key := json_int z]}) as Hn by (intros k' j' [<- <-]%lookup_singleton_Some; apply json_int_not_string).
  destruct (no_strings_formats (__DICT__ cfg) _ Hn) as [Hf E]. eexists. rewrite load_config_checks; [split; [reflexivity|]|done|done| |]; rewrite E.
  - unfold member_int. change (val e) with (target (EInt e)). rewrite (load_all_at _ _ _ _ key (EInt e)) by (apply Hd || done). by rewrite Hv.
  - apply ints_printable. intros k' j' [<- <-]%lookup_singleton_Some. by eauto.
  - apply Forall_forall. intros [k' v'] Hin'. destruct (decide (k' = key)) as [->|Hne].
    + assert (v' = EInt e) as ->; [|by eexists]. destruct Hd as (Hk & _). apply list_elem_of_lookup in Hin as [i Hi], Hin' as [i' Hi'].
      assert (i' = i) as ->; [|rewrite Hi in Hi'; by injection Hi'].
      apply (NoDup_lookup (__DICT__ cfg).*1 i' i key); [done|..]; rewrite !list_lookup_fmap, ?Hi, ?Hi'; done.
    + apply absent_accepted; [by apply lookup_singleton_ne|by apply (Ho k')].
Qed.

Lemma flat_entries hc : In (FlatConfig hc) (all_configs hc true) /\
  (forall key var, (key, var) ∈ __DICT__ (FlatConfig hc) -> optional var = true) /\
  exists ek et, ("k", EInt ek) ∈ __DICT__ (FlatConfig hc) /\ ("trace_flags", EInt et) ∈ __DICT__ (FlatConfig hc) /\ val ek = base "k" /\
    val et = base "trace_flags" /\ selected SEARCH (EInt ek) = true /\ selected SEARCH (EInt et) = true /\
    range ek = Some (mkRange 1%Z int32_max true true) /\ range et = None.
Proof.
  split; [by left|]. split.
  - intros key var Hin%list_elem_of_In. assert (forallb (fun kv => optional kv.2) (__DICT__ (FlatConfig hc)) = true) as H by (vm_compute; reflexivity).
    rewrite forallb_forall in H. exact (H _ Hin).
  - eexists _, _. split; [apply named_entry; vm_compute; reflexivity|]. split; [apply named_entry; vm_compute; reflexivity|]. by vm_compute.
Qed.

(** what an integer [z] of up to 64 bits means for an [int] parameter.  With a
    range, as [k]: above [INT_MAX] it is rejected, but below [INT_MIN] it is
    truncated to 32 bits first and accepted if the truncated value is in the
    range, so that for instance [k = -4294967286] searches for ten neighbours.
    Without a range, as [trace_flags], it is truncated silently in both directions. *)
Theorem int_parameters_wrap hc z : is_int64 z ->
  ((int32_max < z)%Z -> exists fs, LoadConfig (FlatConfig hc) {["k" := json_int z]} SEARCH = Ret (fs, arithmetic_overflow)) /\
  ((z <= int32_max)%Z -> (to_int32 z < 1)%Z -> exists fs, LoadConfig (FlatConfig hc) {["k" := json_int z]} SEARCH = Ret (fs, out_of_range_in_json)) /\
  ((z <= int32_max)%Z -> (1 <= to_int32 z)%Z ->
   exists fs, LoadConfig (FlatConfig hc) {["k" := json_int z]} SEARCH = Ret (fs, success) /\ member_int fs (base "k") = Some (to_int32 z)) /\
  (exists fs, LoadConfig (FlatConfig hc) {["trace_flags" := json_int z]} SEARCH = Ret (fs, success) /\ member_int fs (base "trace_flags") = Some (to_int32 z)).
Proof.
  intros Hz. destruct (flat_entries hc) as (Hc & Ho & ek & et & Ik & It & Vk & Vt & Sk & St & Rk & Rt).
  pose proof (configs_ok hc true) as Hok. rewrite List.Forall_forall in Hok. destruct (Hok _ Hc) as [Hd _].
  pose proof (int_checked {["k" := json_int z]} SEARCH "k" ek z ltac:(apply lookup_singleton_eq) Hz Sk) as Ck. rewrite Rk in Ck.
  pose proof (int_checked {["trace_flags" := json_int z]} SEARCH "trace_flags" et z ltac:(apply lookup_singleton_eq) Hz St) as Ct. rewrite Rt in Ct.
  assert (within_int (mkRange 1%Z int32_max true true) (to_int32 z) = (1 <=? to_int32 z)%Z) as W.
  { pose proof (to_int32_range z) as [_ Hr]. unfold within_int, within. cbn [left right include_left include_right andb].
    rewrite (proj2 (Z.leb_le (to_int32 z) int32_max)) by done. rewrite orb_true_r, andb_true_r.
    destruct (Z.ltb_spec 1 (to_int32 z)), (Z.leb_spec 1 (to_int32 z)); try done; lia. }
  refine (conj _ (conj _ (conj _ _))).
  - intros Hlt. rewrite (proj2 (Z.ltb_lt int32_max z) Hlt) in Ck. eapply load_one_fails; try done; [apply json_int_not_string|apply json_int_prints].
  - intros Hle H1. rewrite (proj2 (Z.ltb_ge int32_max z) Hle), W, (proj2 (Z.leb_gt 1 _) H1) in Ck. eapply load_one_fails; try done; [apply json_int_not_string|apply json_int_prints].
  - intros Hle H1. rewrite (proj2 (Z.ltb_ge int32_max z) Hle), W, (proj2 (Z.leb_le 1 _) H1) in Ck.
    destruct (load_one_int _ "k" _ _ _ _ Hd eq_refl Ik Ho Ck) as (fs & -> & Hm). exists fs. by rewrite <- Vk.
  - destruct (load_one_int _ "trace_flags" _ _ _ _ Hd eq_refl It Ho Ct) as (fs & -> & Hm). exists fs. by rewrite <- Vt.
Qed.

(** ** Numbers written as strings *)

(** The object with one value replaced, before formatting. *)
Lemma format_loop_replace dict json key var j j' m1 s1 m2 s2 : NoDup dict.*1 -> (key, var) ∈ dict ->
  is_string j = true -> is_string j' = false -> format_var j var = Ret (inl j') ->
  format_loop dict (<[key := j]> json) = Ret (m1, s1) -> format_loop dict (<[key := j']> json) = Ret (m2, s2) ->
  s1 = s2 /\ (s1 = success -> m1 = m2).
Proof.
  intros Hd Hin Hj Hj' Hf. revert json Hd Hin. induction dict as [|[k v] dict IH]; intros json Hd Hin; [by apply elem_of_nil in Hin|].
  rewrite fmap_cons in Hd. apply NoDup_cons in Hd as [Hk Hd]. cbn [fst] in Hk. cbn [format_loop]. destruct (decide (k = key)) as [->|Hne].
  - assert (v = var) as ->.
    { apply elem_of_cons in Hin as [[=]|Hin]; [done|]. destruct Hk. apply list_elem_of_fmap. by exists (key, var). }
    rewrite !lookup_insert_eq, Hj, Hj', Hf, insert_insert_eq. intros -> [= -> ->]. done.
  - rewrite !lookup_insert_ne by done. apply elem_of_cons in Hin as [[=]|Hin]; [done|].
    destruct (json !! k) as [jk|]; [|by apply IH]. destruct (is_string jk) eqn:Ek; [|by apply IH].
    destruct (format_var_returns jk v Ek) as ([jf|s] & -> & Hs); [|intros [= _ <-] [= _ <-]; by rewrite Hs].
    rewrite !(insert_insert_ne _ k key) by done. by apply IH.
Qed.

Lemma load_config_replace cfg json key var j j' ty : NoDup (__DICT__ cfg).*1 -> (key, var) ∈ __DICT__ cfg ->
  is_string j = true -> is_string j' = false -> format_var j var = Ret (inl j') -> returns (dump j') -> returns (dump_object (<[key := j]> json)) ->
  LoadConfig cfg (<[key := j]> json) ty = LoadConfig cfg (<[key := j']> json) ty.
Proof.
  intros Hd Hin Hj Hj' Hf Hp' Hp.
  destruct (format_loop_returns (__DICT__ cfg) (<[key := j]> json)) as (m1 & s1 & E1), (format_loop_returns (__DICT__ cfg) (<[key := j']> json)) as (m2 & s2 & E2).
  assert (returns (dump_object (<[key := j']> json))) as Hp2.
  { rewrite dump_members in Hp. apply dump_members. intros k w [[<- <-]|[Hne Hw]]%lookup_insert_Some.
    - split; [|done]. by apply (Hp key j); rewrite lookup_insert_eq.
    - apply Hp. by rewrite lookup_insert_ne. }
  pose proof (format_loop_printable _ _ _ _ Hp E1). pose proof (format_loop_printable _ _ _ _ Hp2 E2).
  rewrite (LoadConfig_printed _ _ _ _ _ E1), (LoadConfig_printed _ _ _ _ _ E2) by (by intros _).
  destruct (format_loop_replace _ _ _ _ _ _ _ _ _ _ Hd Hin Hj Hj' Hf E1 E2) as [-> Hr].
  destruct (bool_decide_reflect (s2 = success)) as [E|]; [|done]. by rewrite Hr.
Qed.

(** An integer parameter and the values of its type. *)
Definition integer_parameter (var : VarEntry) (z : Z) : Prop :=
  match var with EInt _ => is_int32 z | EInt64 _ => is_int64 z | _ => False end.

Lemma format_decimal j var z : integer_parameter var z -> get_string j = Ret (pretty z) -> format_var j var = Ret (inl (json_int z)).
Proof.
  intros Hv Hs. assert (is_int64 z) as H64.
  { destruct var; try done; unfold integer_parameter, is_int32, is_int64, int32_min, int32_max, int64_min, int64_max in *; lia. }
  assert (forall lo hi, (lo <= z <= hi)%Z -> format_integer lo hi j = Ret (inl (json_int z))) as H.
  { intros lo hi Hz. unfold format_integer. rewrite Hs. cbn [bind]. rewrite stoll_pretty, Nat.ltb_irrefl by done.
    rewrite (proj2 (Z.ltb_ge z lo)), (proj2 (Z.ltb_ge hi z)) by lia. done. }
  destruct var; try done; by apply H.
Qed.

(** an integer parameter may be given as a string: for every parameter of type
    [int] or [int64_t] and every value of that type, its decimal notation as a
    string loads exactly as the number itself, whatever else the object holds
    that is UTF-8. *)
Theorem decimal_strings_load_as_numbers hc fast cfg json key var j z ty : In cfg (all_configs hc fast) -> (key, var) ∈ __DICT__ cfg ->
  integer_parameter var z -> is_string j = true -> get_string j = Ret (pretty z) -> returns (dump_object (<[key := j]> json)) ->
  LoadConfig cfg (<[key := j]> json) ty = LoadConfig cfg (<[key := json_int z]> json) ty.
Proof.
  intros Hin Hk Hv Hj Hs Hp. pose proof (configs_ok hc fast) as Hok. rewrite List.Forall_forall in Hok. destruct (Hok cfg Hin) as [Hd _].
  apply (load_config_replace _ _ _ var); [apply Hd|done|done|apply json_int_not_string|by apply format_decimal|apply json_int_prints|done].
Qed.

(** ** Text that is not UTF-8 *)

Lemma format_loop_same dict json : (forall key var j, (key, var) ∈ dict -> json !! key = Some j -> is_string j = true -> format_var j var = Ret (inl j)) ->
  format_loop dict json = Ret (json, success).
Proof.
  induction dict as [|[key var] dict IH]; intros H; [done|]. cbn [format_loop].
  assert (format_loop dict json = Ret (json, success)) as E by (apply IH; intros k v j Hin; apply H; by right).
  destruct (json !! key) as [j|] eqn:Ej; [|done]. destruct (is_string j) eqn:Es; [|done].
  rewrite (H key var j) by (done || left). by rewrite insert_id.
Qed.


(** The loop reaches an entry when all others are accepted. *)
Lemma load_loop_reaches dict json ty fs r key var : NoDup dict.*1 -> load_loop dict json ty fs = Ret r -> (key, var) ∈ dict ->
  (forall k v, (k, v) ∈ dict -> k <> key -> accepted json ty (k, v)) -> returns (check_var json ty key var).
Proof.
  revert fs. induction dict as [|[k v] dict IH]; intros fs Hn Hl Hin Ha; [by apply elem_of_nil in Hin|]. cbn [load_loop] in Hl.
  apply bind_Ret_inv in Hl as (c & Hc & Hl). rewrite fmap_cons in Hn. apply NoDup_cons in Hn as [Hk Hn].
  apply elem_of_cons in Hin as [[= -> ->]|Hin]; [by eexists|].
  assert (k <> key) as Hne by (intros ->; apply Hk, list_elem_of_fmap; by exists (key, var)).
  destruct (Ha k v) as [o Ho]; [left|done|]. cbn [fst snd] in Ho. rewrite Hc in Ho. injection Ho as ->.
  assert (forall k' v', (k', v') ∈ dict -> k' <> key -> accepted json ty (k', v')) as Ha' by (intros k' v' Hin'; apply Ha; by right).
  destruct o; by eapply IH.
Qed.

(** a boolean parameter given as a string that is not UTF-8: it is none of the
    accepted spellings and stays a string, but the message that reports the type
    conflict cannot be printed, so that loading throws instead of returning a
    status, also in a release build. *)
Theorem ill_formed_text_throws hc fast cfg key e j s ty : In cfg (all_configs hc fast) -> (key, EBool e) ∈ __DICT__ cfg ->
  selected ty (EBool e) = true -> (forall k v, (k, v) ∈ __DICT__ cfg -> optional v = true) ->
  is_string j = true -> is_boolean j = false -> get_string j = Ret s -> utf8 s = false ->
  ~ returns (LoadConfig cfg {[key := j]} ty).
Proof.
  intros Hin Hk Hs Ho Hj Hb Hg Hu [r H]. pose proof (configs_ok hc fast) as Hok. rewrite List.Forall_forall in Hok. destruct (Hok cfg Hin) as [Hd _].
  destruct (get_text j Hj) as (s' & Es & Heq & Hp). rewrite Hg in Es. injection Es as <-.
  assert (forall t, utf8 t = true -> equals_string j t = false) as Hne.
  { intros t Ht. rewrite Heq. apply bool_decide_eq_false. intros ->. congruence. }
  assert (forall v, (key, v) ∈ __DICT__ cfg -> v = EBool e) as Huniq.
  { intros v Hv. destruct Hd as (Hn & _). apply list_elem_of_lookup in Hk as [i Hi], Hv as [i' Hi'].
    assert (i' = i) as ->; [|rewrite Hi in Hi'; by injection Hi'].
    apply (NoDup_lookup (__DICT__ cfg).*1 i' i key); [done|..]; rewrite !list_lookup_fmap, ?Hi, ?Hi'; done. }
  assert (format_loop (__DICT__ cfg) {[key := j]} = Ret ({[key := j]}, success)) as Ef.
  { apply format_loop_same. intros k v j' Hv [<- <-]%lookup_singleton_Some _. rewrite (Huniq v Hv). cbn [format_var]. by rewrite !Hne. }
  destruct (LoadConfig_prints _ _ _ _ H) as (m & st & Ef' & Hpr). rewrite Ef in Ef'. injection Ef' as <- <-.
  rewrite (LoadConfig_printed _ _ _ _ _ Ef Hpr), bool_decide_true in H by done. unfold Load in H. apply bind_Ret_inv in H as (c & Hl & _).
  destruct (load_loop_reaches _ _ _ _ _ key (EBool e) (proj1 Hd) Hl Hk) as [v Hv].
  - intros k v Hv Hne'. apply absent_accepted; [by apply lookup_singleton_ne|by apply (Ho k)].
  - cbn [check_var] in Hv. unfold check_entry, selected in *. cbn [bits_of] in Hs. destruct (Z.land _ _ =? 0)%Z; [done|].
    rewrite lookup_singleton_eq in Hv. unfold convert_bool, reject in Hv. rewrite Hb in Hv. cbn [negb] in Hv.
    apply bind_Ret_inv in Hv as (u & (t & Ht & _)%bind_Ret_inv & _). assert (utf8 s = true) as E by (apply Hp; by eexists). congruence.
Qed.

End claims.

(** ** Witnesses *)

(** A configuration of each kind, loaded from concrete objects. *)
Lemma load_config_typed_witness : exists fs s,
  @LoadConfig json_value json_lib no_floats debug_build (FaissHnswFlatConfig 8) {["k" := JInt 5]} RANGE_SEARCH = Ret (fs, s) /\
  members_typed (__DICT__ (FaissHnswFlatConfig 8)) fs.
Proof. apply (@load_config_typed json_value json_lib json_laws no_floats debug_build 8 true); [do 2 right; left; reflexivity|intros _; discriminate|reflexivity|by eexists]. Defined.

(** The status decides whether an object loads. *)
Lemma loads (m : M (Fields * Status)) : match m with Ret (_, s) => s | _ => invalid_args end = success -> exists fs, m = Ret (fs, success).
Proof. destruct m as [[fs s]| |]; [|done..]. intros ->. by exists fs. Qed.

Lemma load_order_irrelevant_witness : exists fs,
  @LoadConfig json_value json_lib no_floats debug_build (FlatConfig 8) {["k" := JInt 5]} SEARCH = Ret (fs, success) /\
  @LoadConfig json_value json_lib no_floats debug_build (mkConfig (List.rev (__DICT__ (FlatConfig 8))) (fields (FlatConfig 8)) (CheckAndAdjust (FlatConfig 8)))
      {["k" := JInt 5]} SEARCH = Ret (fs, success).
Proof.
  assert (dict_ok (__DICT__ (FlatConfig 8))) as Hd
    by (pose proof (configs_ok 8 true) as Hok; rewrite List.Forall_forall in Hok; refine (proj1 (Hok _ _)); left; reflexivity).
  destruct (loads (@LoadConfig json_value json_lib no_floats debug_build (FlatConfig 8) {["k" := JInt 5]} SEARCH)) as [fs E]; [vm_compute; reflexivity|].
  exists fs. split; [exact E|].
  apply (@load_order_irrelevant json_value json_lib json_laws no_floats debug_build (FlatConfig 8) _ _ _ _ Hd (Permutation_rev _)). exact E.
Defined.

Lemma search_limit_covers_k_witness : exists fs k l,
  @LoadConfig json_value json_lib no_floats debug_build (HnswConfig 8) {["k" := JInt 5]} SEARCH = Ret (fs, success) /\
  member_int fs (base "k") = Some k /\ member_int fs ef = Some l /\ (1 <= k <= l)%Z /\ is_int32 k.
Proof.
  destruct (loads (@LoadConfig json_value json_lib no_floats debug_build (HnswConfig 8) {["k" := JInt 5]} SEARCH)) as [fs E]; [vm_compute; reflexivity|].
  destruct (@search_limit_covers_k json_value json_lib json_laws no_floats debug_build 8 (HnswConfig 8) ef "ef" (fun k => Z.max k kEfMinValue) {["k" := JInt 5]} fs)
    as (k & l & H1 & H2 & H3 & H4 & _); [left; reflexivity|exact E|]. exists fs, k, l. exact (conj E (conj H1 (conj H2 (conj H3 H4)))).
Defined.

Lemma hnsw_pq_skips_base_check_witness : exists fs,
  @LoadConfig json_value json_lib no_floats debug_build (FaissHnswPqConfig 8) (k_and_ef 10 2) SEARCH = Ret (fs, success) /\ member_int fs ef = Some 2%Z.
Proof.
  destruct (@hnsw_pq_skips_base_check json_value json_lib json_laws no_floats debug_build 8 (FaissHnswPqConfig 8)) as [_ H]; [left; reflexivity|].
  destruct (H 10%Z 2%Z) as [(fs & E & _ & He) _]; [unfold int32_max; lia..|]. exists fs. exact (conj E He).
Defined.

Lemma int_parameters_wrap_witness : exists fs,
  @LoadConfig json_value json_lib no_floats debug_build (FlatConfig 8) {["k" := json_int (-4294967286)%Z]} SEARCH = Ret (fs, success) /\
  member_int fs (base "k") = Some 10%Z.
Proof.
  destruct (@int_parameters_wrap json_value json_lib json_laws no_floats debug_build 8 (-4294967286)%Z) as (_ & _ & H & _);
    [unfold is_int64, int64_min, int64_max; lia|].
  destruct H as (fs & E & Hk); [unfold int32_max; lia|vm_compute; discriminate|]. exists fs. exact (conj E Hk).
Defined.

Lemma decimal_strings_load_as_numbers_witness :
  @LoadConfig json_value json_lib no_floats debug_build (FlatConfig 8) (<["k" := JString "25"]> ∅) SEARCH =
  @LoadConfig json_value json_lib no_floats debug_build (FlatConfig 8) (<["k" := json_int 25]> ∅) SEARCH.
Proof.
  destruct (flat_entries 8) as (Hc & _ & ek & _ & Ik & _).
  refine (@decimal_strings_load_as_numbers json_value json_lib json_laws no_floats debug_build 8 true (FlatConfig 8) ∅ "k" (EInt ek) (JString "25") 25 SEARCH Hc Ik _ _ _ _);
    [unfold integer_parameter, is_int32, int32_min, int32_max; lia|reflexivity|reflexivity|by eexists].
Defined.

(** The byte 255 occurs in no UTF-8 text. *)
Lemma ill_formed_text_throws_witness :
  ~ returns (@LoadConfig json_value json_lib no_floats debug_build (FlatConfig 8) {["trace_visit" := JString (String (ascii_of_nat 255) EmptyString)]} SEARCH).
Proof.
  destruct (flat_entries 8) as (Hc & Ho & _).
  refine (@ill_formed_text_throws json_value json_lib json_laws no_floats debug_build 8 true (FlatConfig 8) "trace_visit" _ _ _ SEARCH Hc
    (named_entry _ _ _ _) _ Ho _ _ _ _); vm_compute; reflexivity.
Defined.
