(* ===== verification/Iterators.v ===== *)
(** * Result iterators (knowhere/index/index_node.h, knowhere/object.h)

    The two iterators over the results of a query - one over distances computed
    beforehand and sorted piece by piece, one over batches of candidates kept in
    priority queues - and the range search built on them.  Work handed to the
    search pool is waited for at once, so it is written in line. *)

From S2P Require Import Prelude Float Num Expected StdHeap RangeUtil Config Configs.

(** ** Identified distances *)

Module DistId.

Record t (A : Type) := mk { id : Z; val : A }.
Arguments mk {A}.
Arguments id {A}.
Arguments val {A}.

Section ops.
Context {A} `{!Num A}.

Definition lt (lhs rhs : t A) : bool :=
  nltb (val lhs) (val rhs) || (neqb (val lhs) (val rhs) && (id lhs <? id rhs)%Z).
Definition eq (lhs rhs : t A) : bool := (id lhs =? id rhs)%Z && neqb (val lhs) (val rhs).
Definition gt (lhs rhs : t A) : bool := negb (lt lhs rhs) && negb (eq lhs rhs).
End ops.
End DistId.

Abbreviation dist_id := DistId.t.
Abbreviation did := DistId.id.
Abbreviation dval := DistId.val.

(** ** The library *)

(** [std::partial_sort(first, first + n, last, comp)]: the [n] least elements,
    sorted, then the others in an unspecified order. *)
Class StdPartialSort := {
  std_partial_sort : forall {A : Type}, (A -> A -> bool) -> nat -> list A -> list A;
  partial_sort_perm : forall A (ltb : A -> A -> bool) n l, std_partial_sort ltb n l ≡ₚ l;
  partial_sort_sorted : forall A (ltb : A -> A -> bool) n l, swo_on l ltb -> n <= length l ->
    StronglySorted (fun x y => ltb y x = false) (take n (std_partial_sort ltb n l));
  partial_sort_least : forall A (ltb : A -> A -> bool) n l x y, swo_on l ltb -> n <= length l ->
    x ∈ take n (std_partial_sort ltb n l) -> y ∈ drop n (std_partial_sort ltb n l) -> ltb y x = false
}.

(** [std::priority_queue]: the vector kept by [std::push_heap] and [std::pop_heap]. *)
Section queue.
Context {E : Type} (comp : E -> E -> bool).

Definition emplace (q : list E) (x : E) : M (list E) := push_heap comp (q ++ [x]).
Definition top (q : list E) : M E := vget q 0.
Definition pop (q : list E) : M (list E) := let* q := pop_heap comp q in Ret (take (length q - 1) q).
End queue.

(** An iterator: [HasNext] and [Next], and how many results it can still return. *)
Class Iterator (I A : Type) := {
  HasNext : I -> M (I * bool);
  Next : I -> M (I * (Z * A));
  bound : I -> nat
}.

(** ** PrecomputedDistanceIterator *)

Module Precomputed.
Section precomputed.
Context {A : Type} `{!Num A, !StdPartialSort}.

Record t := mk {
  compute_dist_func_ : M (list (dist_id A));
  larger_is_closer_ : bool;
  initialized_ : bool;
  results_ : list (dist_id A);
  next_ : nat;
  sorted_ : nat;
  sort_size_ : nat
}.
Implicit Types it : t.

Definition make (compute_dist_func : M (list (dist_id A))) (larger_is_closer : bool) : t :=
  mk compute_dist_func larger_is_closer false [] 0 0 0.

Definition get_sort_size (rows : nat) : nat := Nat.max (50 * 1000) (rows / 10).

Definition sort_next it : t :=
  if next_ it <? sorted_ it then it
  else
    let current_end := Nat.min (length (results_ it)) (sorted_ it + sort_size_ it) in
    let comp := if larger_is_closer_ it then DistId.gt else DistId.lt in
    let results := take (sorted_ it) (results_ it) ++
                   std_partial_sort comp (current_end - sorted_ it) (drop (sorted_ it) (results_ it)) in
    mk (compute_dist_func_ it) (larger_is_closer_ it) (initialized_ it) results (next_ it) current_end (sort_size_ it).

Definition initialize it : M t :=
  if initialized_ it then Throw "initialize should not be called twice"
  else
    let* results := compute_dist_func_ it in
    let it := mk (compute_dist_func_ it) (larger_is_closer_ it) (initialized_ it) results (next_ it) (sorted_ it)
                 (get_sort_size (length results)) in
    let it := sort_next it in
    Ret (mk (compute_dist_func_ it) (larger_is_closer_ it) true (results_ it) (next_ it) (sorted_ it) (sort_size_ it)).

Definition ready it : M t := if initialized_ it then Ret it else initialize it.

Definition Next it : M (t * (Z * A)) :=
  let* it := ready it in
  let it := sort_next it in
  let* result := vget (results_ it) (next_ it) in
  Ret (mk (compute_dist_func_ it) (larger_is_closer_ it) (initialized_ it) (results_ it) (next_ it + 1) (sorted_ it) (sort_size_ it),
       (did result, dval result)).

Definition HasNext it : M (t * bool) :=
  let* it := ready it in
  if next_ it <? length (results_ it) then
    let* r := vget (results_ it) (next_ it) in Ret (it, negb (did r =? -1)%Z)
  else Ret (it, false).

#[export] Instance iterator : Iterator t A := {|
  Iterators.HasNext := HasNext;
  Iterators.Next := Next;
  bound it := if initialized_ it then length (results_ it) - next_ it
              else match compute_dist_func_ it with Ret l => length l | _ => 0 end
|}.

End precomputed.
Arguments t : clear implicits.
End Precomputed.
#[export] Existing Instance Precomputed.iterator.

(** ** IndexIterator *)

(** What a subclass provides: [next_batch], as the batches it hands to its
    argument, [raw_distance], and the number of results it can still deliver. *)
Class Source (S A : Type) := {
  next_batch : S -> M (S * list (list (dist_id A)));
  raw_distance : S -> Z -> M A;
  pending : S -> nat
}.

Module IndexIterator.
Section iterator.
Context {S A : Type} `{!Num A, !Source S A}.

Record t := mk {
  refine_ratio_ : A;
  initialized_ : bool;
  retain_iterator_order_ : bool;
  sign_ : Z;
  res_ : list (dist_id A);
  refined_res_ : list (dist_id A);
  source : S
}.
Implicit Types it : t.

Definition make (larger_is_closer : bool) (refine_ratio : A) (retain_iterator_order : bool) (s : S) : t :=
  mk refine_ratio false retain_iterator_order (if larger_is_closer then -1 else 1)%Z [] [] s.

Definition refine_ it : bool := negb (neqb (refine_ratio_ it) nzero).

Definition with_queues it (res refined : list (dist_id A)) : t :=
  mk (refine_ratio_ it) (initialized_ it) (retain_iterator_order_ it) (sign_ it) res refined (source it).
Definition with_source it (s : S) : t :=
  mk (refine_ratio_ it) (initialized_ it) (retain_iterator_order_ it) (sign_ it) (res_ it) (refined_res_ it) s.

(** A negative value does not convert to [size_t]. *)
Definition min_refine_size it : M nat :=
  let v := ntrunc (nmul (nofZ (Z.of_nat (length (res_ it)))) (refine_ratio_ it)) in
  if (v <? 0)%Z then Undef else Ret (Nat.max 20 (Z.to_nat v)).

(** [dist * sign_]. *)
Definition signed it (v : A) : A := nmul v (nofZ (sign_ it)).

(** Every round takes an element out of [res_]. *)
Fixpoint refine_loop (fuel : nat) it : M t :=
  match res_ it with
  | [] => Ret it
  | _ =>
      let* m := min_refine_size it in
      if (length (refined_res_ it) =? 0) || (length (refined_res_ it) <? m) then
        match fuel with
        | 0 => Undef
        | Datatypes.S fuel =>
            let* nearest := top (res_ it) in
            let* res := pop DistId.gt (res_ it) in
            let* raw := raw_distance (source it) (did nearest) in
            let* refined := emplace DistId.gt (refined_res_ it) (DistId.mk (did nearest) (signed it raw)) in
            refine_loop fuel (with_queues it res refined)
        end
      else Ret it
  end.

Definition batch_handler it (batch : list (dist_id A)) : M t :=
  match batch with
  | [] => Ret it
  | _ =>
      let* res := foldM (fun q d => emplace DistId.gt q (DistId.mk (did d) (signed it (dval d)))) (res_ it) batch in
      let it := with_queues it res (refined_res_ it) in
      if refine_ it then refine_loop (length res) it else Ret it
  end.

Definition UpdateNext it : M t :=
  let* (s, batches) := next_batch (source it) in
  foldM batch_handler (with_source it s) batches.

Definition initialize it : M t :=
  if initialized_ it then Throw "initialize should not be called twice"
  else
    let* it := UpdateNext it in
    Ret (mk (refine_ratio_ it) true (retain_iterator_order_ it) (sign_ it) (res_ it) (refined_res_ it) (source it)).

Definition ready it : M t := if initialized_ it then Ret it else initialize it.

Definition is_empty {B} (l : list B) : bool := match l with [] => true | _ => false end.

Definition HasNext it : M (t * bool) :=
  let* it := ready it in Ret (it, negb (is_empty (res_ it)) || negb (is_empty (refined_res_ it))).

(** [q = refined_res_.empty() ? res_ : refined_res_] *)
Definition current it : list (dist_id A) := if is_empty (refined_res_ it) then res_ it else refined_res_ it.
Definition set_current it (q : list (dist_id A)) : t :=
  if is_empty (refined_res_ it) then with_queues it q (refined_res_ it) else with_queues it (res_ it) q.

(** The loop that drops results closer than the one returned. *)
Fixpoint retain_loop (fuel : nat) (val : A) it : M t :=
  let* (it, more) := HasNext it in
  if negb more then Ret it
  else
    let* next_ret := top (current it) in
    if nleb val (dval next_ret) then Ret it
    else
      match fuel with
      | 0 => Undef
      | Datatypes.S fuel =>
          let* q := pop DistId.gt (current it) in
          let* it := UpdateNext (set_current it q) in
          retain_loop fuel val it
      end.

Definition left_over it : nat := length (res_ it) + length (refined_res_ it) + pending (source it).

Definition Next it : M (t * (Z * A)) :=
  let* it := ready it in
  if is_empty (current it) then Throw "No more elements"
  else
    let* ret := top (current it) in
    let* q := pop DistId.gt (current it) in
    let* it := UpdateNext (set_current it q) in
    let* it := if retain_iterator_order_ it then retain_loop (left_over it) (dval ret) it else Ret it in
    Ret (it, (did ret, signed it (dval ret))).

#[export] Instance iterator : Iterator t A := {|
  Iterators.HasNext := HasNext;
  Iterators.Next := Next;
  bound := left_over
|}.

End iterator.
Arguments t : clear implicits.
End IndexIterator.
#[export] Existing Instance IndexIterator.iterator.

(** ** Range search *)

(** What the search reads from its configuration. *)
Record RangeParams (A : Type) := mkRangeParams {
  closer_bound : A;
  has_closer_bound : bool;
  radius : A;
  the_larger_the_closer : bool;
  range_search_k : Z;
  retain_order : bool;
  range_search_level : A
}.
Arguments mkRangeParams {A}.
Arguments closer_bound {A}.
Arguments has_closer_bound {A}.
Arguments radius {A}.
Arguments the_larger_the_closer {A}.
Arguments range_search_k {A}.
Arguments retain_order {A}.
Arguments range_search_level {A}.

(** [std::ceil] as an integer. *)
Class Ceil (A : Type) := { nceil : A -> Z }.

Definition SF_ceil (f : spec_float) : Z :=
  let t := SF_trunc f in if SFltb (F32.of_Z t) f then (t + 1)%Z else t.
#[export] Instance F32_ceil : Ceil spec_float := {| nceil := SF_ceil |}.
#[export] Instance Z_ceil : Ceil Z := {| nceil z := z |}.

Section range.
Context {A : Type} `{!Num A, !Ceil A} {I : Type} `{!Iterator I A}.
Implicit Types (p : RangeParams A) (dist : A) (it : I).

Definition is_first_closer p (dist_1 dist_2 : A) : bool :=
  if the_larger_the_closer p then nltb dist_2 dist_1 else nltb dist_1 dist_2.
Definition too_close p dist : bool := is_first_closer p dist (closer_bound p).

(** The results of one query, in order. *)
Fixpoint task_with_ordered_iterator (fuel : nat) p it (acc : list (Z * A)) : M (list (Z * A)) :=
  let* (it, more) := HasNext it in
  if negb more then Ret acc
  else
    match fuel with
    | 0 => Undef
    | S fuel =>
        let* (it, r) := Next it in
        let dist := snd r in
        if has_closer_bound p && too_close p dist then task_with_ordered_iterator fuel p it acc
        else if negb (is_first_closer p dist (radius p)) then Ret acc
        else
          let acc := acc ++ [r] in
          if (0 <=? range_search_k p)%Z && (range_search_k p <=? Z.of_nat (length acc))%Z then Ret acc
          else task_with_ordered_iterator fuel p it acc
    end.

(** [early_stop_further_bounds] is a heap whose top is furthest. *)
Record Unordered := mkUnordered {
  num_next : nat;
  num_over : nat;                     (* num_consecutive_over_further_bound *)
  tighter_further_bound : A;
  early_stop_further_bounds : list A;
  found : list (Z * A)
}.
Implicit Types st : Unordered.

Definition early_stop p st dist : M Unordered :=
  if (0 <? range_search_k p)%Z then
    if (Z.of_nat (length (early_stop_further_bounds st)) <? range_search_k p)%Z then
      let* q := emplace (is_first_closer p) (early_stop_further_bounds st) dist in
      Ret (mkUnordered (num_next st) (num_over st) (tighter_further_bound st) q (found st))
    else
      let* q := pop (is_first_closer p) (early_stop_further_bounds st) in
      let* q := emplace (is_first_closer p) q dist in
      let* b := top q in
      Ret (mkUnordered (num_next st) (num_over st) b q (found st))
  else Ret st.

Fixpoint task_with_unordered_iterator (fuel : nat) p it st : M (list (Z * A)) :=
  let* (it, more) := HasNext it in
  if negb more then Ret (found st)
  else
    match fuel with
    | 0 => Undef
    | S fuel =>
        let* (it, r) := Next it in
        let dist := snd r in
        let n := num_next st + 1 in
        let st := mkUnordered n (num_over st) (tighter_further_bound st) (early_stop_further_bounds st) (found st) in
        if has_closer_bound p && too_close p dist then task_with_unordered_iterator fuel p it st
        else if negb (is_first_closer p dist (tighter_further_bound st)) then
          let over := num_over st + 1 in
          let limit := nceil (nmul (nofZ (Z.of_nat n)) (range_search_level p)) in
          if (limit <? 0)%Z then Undef          (* does not convert to [size_t] *)
          else if (limit <? Z.of_nat over)%Z then Ret (found st)
          else task_with_unordered_iterator fuel p it
                 (mkUnordered n over (tighter_further_bound st) (early_stop_further_bounds st) (found st))
        else
          let* st := early_stop p st dist in
          task_with_unordered_iterator fuel p it
            (mkUnordered (num_next st) 0 (tighter_further_bound st) (early_stop_further_bounds st) (found st ++ [r]))
    end.

Definition search_one p it : M (list (Z * A)) :=
  if retain_order p then task_with_ordered_iterator (bound it) p it []
  else task_with_unordered_iterator (bound it) p it (mkUnordered 0 0 (radius p) [] []).

Definition search_all p (its : list I) : M (list (list (Z * A))) :=
  foldM (fun rs it => let* r := search_one p it in Ret (rs ++ [r])) [] its.

(** [nq] rows in the data set; [its_or] is what [AnnIterator] returned. *)
Definition range_search p (nq : nat) (its_or : Status + list I) : M (Status + RangeSearchResult A) :=
  if (range_search_k p =? 0)%Z then
    let* r := GetRangeSearchResult (replicate nq []) (replicate nq []) nq in Ret (inr r)
  else
    match its_or with
    | inl s => Ret (inl s)
    | inr its =>
        let* rs := search_all p its in
        let* r := GetRangeSearchResult (map (map snd) rs) (map (map fst) rs) (length its) in
        Ret (inr r)
    end.

End range.
Arguments Unordered : clear implicits.

(** [RangeSearch] reads the parameters from the configuration. *)
Definition range_params (fs : Fields) : M (RangeParams spec_float) :=
  let* filter := opt_value (member_float fs (base "range_filter")) in
  let* radius := opt_value (member_float fs (base "radius")) in
  let* metric := opt_value (member_string fs (base "metric_type")) in
  let* k := opt_value (member_int fs (base "range_search_k")) in
  let* order := opt_value (member_bool fs (base "retain_iterator_order")) in
  let* level := opt_value (member_float fs (base "range_search_level")) in
  Ret (mkRangeParams filter (negb (SFeqb filter defaultRangeFilter)) radius
        (string_equals metric "IP" || string_equals metric "COSINE" || string_equals metric "BM25") k order level).

Definition RangeSearch {I} `{!Iterator I spec_float} (fs : Fields) (nq : nat) (its_or : Status + list I)
    : M (Status + RangeSearchResult spec_float) :=
  let* p := range_params fs in range_search p nq its_or.
