(* ===== verification/IteratorProps.v ===== *)
(** * What the result iterators return *)

From S2P Require Import Prelude Float Num Expected StdHeap RangeUtil Config Configs Iterators.

(** ** Iterators as lists *)

(** [it] returns exactly the results [l], in this order. *)
Fixpoint yields {I A} `{!Iterator I A} (l : list (Z * A)) (it : I) : Prop :=
  match l with
  | [] => exists it', HasNext it = Ret (it', false)
  | x :: l => exists it1 it2, HasNext it = Ret (it1, true) /\ Next it1 = Ret (it2, x) /\ yields l it2
  end.

Definition as_pair {A} (d : dist_id A) : Z * A := (did d, dval d).

(** ** The order of results *)

Section order.
Context {A : Type} `{!Num A, !NumOrder A}.
Implicit Types x y z : dist_id A.

Definition okd x : Prop := nok (dval x).

Lemma dist_lt_spec x y : okd x -> okd y ->
  DistId.lt x y = true <-> nltb (dval x) (dval y) = true \/ (nltb (dval y) (dval x) = false /\ (did x < did y)%Z).
Proof.
  intros Hx Hy. unfold DistId.lt. rewrite orb_true_iff, andb_true_iff, Z.ltb_lt. split.
  - intros [H|[H1 H2]]; [by left|right; split; [by apply neqb_ge|done]].
  - intros [H|[H1 H2]]; [by left|]. destruct (nltb (dval x) (dval y)) eqn:E; [by left|right].
    split; [by apply neqb_total|done].
Qed.

Lemma dist_lt_asym x y : okd x -> okd y -> DistId.lt x y = true -> DistId.lt y x = false.
Proof.
  intros Hx Hy Hxy. apply not_true_iff_false. rewrite dist_lt_spec in * by done.
  intros [H|[H Hi]]; destruct Hxy as [H'|[H' Hj]]; try congruence; [|lia]. by rewrite (sw_asym (dval y) (dval x)) in H'.
Qed.

Lemma dist_lt_false x y : okd x -> okd y ->
  DistId.lt x y = false <-> nltb (dval x) (dval y) = false /\ (nltb (dval y) (dval x) = true \/ (did y <= did x)%Z).
Proof.
  intros Hx Hy. rewrite <- not_true_iff_false, dist_lt_spec by done.
  destruct (nltb (dval x) (dval y)); [by split; [intros H; destruct H; left|intros [? _]]|].
  destruct (nltb (dval y) (dval x)); [by split; [split; [done|left]|intros _ [?|[? _]]]|]. split.
  - intros H. split; [done|]. right. destruct (Z.le_gt_cases (did y) (did x)); [done|]. destruct H. by right.
  - intros [_ [?|H]] [?|[_ ?]]; [done..|lia].
Qed.

Lemma dist_lt_negtrans x y z : okd x -> okd y -> okd z ->
  DistId.lt x y = false -> DistId.lt y z = false -> DistId.lt x z = false.
Proof.
  intros Hx Hy Hz. rewrite !dist_lt_false by done. intros [Hxy Hi] [Hyz Hj].
  unfold okd in *. pose proof (sw_negtrans _ _ _ Hx Hy Hz Hxy Hyz) as Hxz. split; [done|].
  destruct (nltb (dval z) (dval x)) eqn:E; [by left|right].
  pose proof (sw_negtrans _ _ _ Hy Hz Hx Hyz E) as Hyx. pose proof (sw_negtrans _ _ _ Hz Hx Hy E Hxy) as Hzy.
  destruct Hi as [Hi|Hi], Hj as [Hj|Hj]; try congruence. lia.
Qed.

Lemma dist_gt_flip x y : okd x -> okd y -> DistId.gt x y = DistId.lt y x.
Proof.
  intros Hx Hy. unfold DistId.gt, DistId.eq. destruct (DistId.lt x y) eqn:E.
  - by rewrite dist_lt_asym.
  - cbn [negb andb]. apply dist_lt_false in E as [E Hi]; [|done..]. destruct (DistId.lt y x) eqn:F.
    + apply dist_lt_spec in F; [|done..]. destruct (neqb (dval x) (dval y)) eqn:Q; [|by rewrite andb_false_r].
      destruct F as [F|[_ F]]; [by rewrite neqb_ge in F|]. by rewrite (proj2 (Z.eqb_neq _ _)) by lia.
    + apply dist_lt_false in F as [F Hj]; [|done..]. rewrite (neqb_total (dval x) (dval y)) by done.
      destruct Hi as [?|Hi]; [congruence|]. destruct Hj as [?|Hj]; [congruence|]. by rewrite (proj2 (Z.eqb_eq _ _)) by lia.
Qed.

(** The comparator of the precomputed iterator. *)
Definition closer (larger : bool) : dist_id A -> dist_id A -> bool := if larger then DistId.gt else DistId.lt.

Lemma closer_swo larger l : Forall okd l -> swo_on l (closer larger).
Proof.
  intros Hl. rewrite Forall_forall in Hl. assert (forall x y, okd x -> okd y -> closer larger x y = (if larger then DistId.lt y x else DistId.lt x y)) as E.
  { intros x y Hx Hy. unfold closer. destruct larger; [by apply dist_gt_flip|done]. }
  split.
  - intros x y Hx%Hl Hy%Hl. rewrite !E by done. destruct larger; by apply dist_lt_asym.
  - intros x y z Hx%Hl Hy%Hl Hz%Hl. rewrite !E by done. destruct larger; [|by apply dist_lt_negtrans].
    intros H1 H2. by apply (dist_lt_negtrans _ y).
Qed.

(** No later result is closer. *)
Definition closest_first (larger : bool) (l : list (dist_id A)) : Prop :=
  StronglySorted (fun x y => closer larger y x = false) l.

(** ** Precomputed distances *)

Context `{PS : !StdPartialSort}.
Implicit Types it : Precomputed.t A.

(** The first [sorted_] results are the closest ones, in order. *)
Record sorted_prefix it : Prop := {
  sp_init : Precomputed.initialized_ it = true;
  sp_ok : Forall okd (Precomputed.results_ it);
  sp_next : Precomputed.next_ it <= Precomputed.sorted_ it <= length (Precomputed.results_ it);
  sp_size : 0 < Precomputed.sort_size_ it;
  sp_sorted : closest_first (Precomputed.larger_is_closer_ it) (take (Precomputed.sorted_ it) (Precomputed.results_ it));
  sp_least : forall x y, x ∈ take (Precomputed.sorted_ it) (Precomputed.results_ it) ->
    y ∈ drop (Precomputed.sorted_ it) (Precomputed.results_ it) -> closer (Precomputed.larger_is_closer_ it) y x = false
}.

Lemma sort_next_prefix it : sorted_prefix it -> let it' := Precomputed.sort_next it in
  sorted_prefix it' /\ Precomputed.next_ it' = Precomputed.next_ it /\ Precomputed.larger_is_closer_ it' = Precomputed.larger_is_closer_ it /\
  take (Precomputed.next_ it) (Precomputed.results_ it') = take (Precomputed.next_ it) (Precomputed.results_ it) /\
  drop (Precomputed.next_ it) (Precomputed.results_ it') ≡ₚ drop (Precomputed.next_ it) (Precomputed.results_ it) /\
  (Precomputed.next_ it < length (Precomputed.results_ it) -> Precomputed.next_ it < Precomputed.sorted_ it').
Proof.
  destruct it as [f larger init l next sorted size]. intros [Hi Hok Hn Hs Hso Hle]. unfold Precomputed.sort_next.
  cbn [Precomputed.initialized_ Precomputed.results_ Precomputed.next_ Precomputed.sorted_ Precomputed.sort_size_ Precomputed.larger_is_closer_ Precomputed.compute_dist_func_] in *.
  destruct (Nat.ltb_spec next sorted) as [Hlt|Hge]; cbv zeta;
    cbn [Precomputed.initialized_ Precomputed.results_ Precomputed.next_ Precomputed.sorted_ Precomputed.sort_size_ Precomputed.larger_is_closer_ Precomputed.compute_dist_func_].
  { split; [by split|]. done. }
  assert (next = sorted) as -> by lia. set (e := Nat.min (length l) (sorted + size)).
  change (if larger then DistId.gt else DistId.lt) with (closer larger).
  assert (sorted <= e <= length l) as He by (unfold e; lia).
  pose proof (partial_sort_perm _ (closer larger) (e - sorted) (drop sorted l)) as Hp. set (ps := std_partial_sort _ _ _) in *.
  assert (Forall okd (drop sorted l)) as Hok' by (by apply Forall_drop).
  assert (e - sorted <= length (drop sorted l)) as Hel by (rewrite length_drop; lia).
  pose proof (partial_sort_sorted _ (closer larger) (e - sorted) _ (closer_swo larger _ Hok') Hel) as Hps. fold ps in Hps.
  pose proof (fun x y => partial_sort_least _ (closer larger) (e - sorted) _ x y (closer_swo larger _ Hok') Hel) as Hpl. fold ps in Hpl.
  assert (length (take sorted l) = sorted) as Ht by (rewrite length_take; lia).
  assert (length ps = length l - sorted) as Hlp by (by rewrite Hp, length_drop).
  assert (take e (take sorted l ++ ps) = take sorted l ++ take (e - sorted) ps) as Et by (rewrite take_app_ge by lia; by rewrite Ht).
  assert (drop e (take sorted l ++ ps) = drop (e - sorted) ps) as Ed by (rewrite drop_app_ge by lia; by rewrite Ht).
  split; [split|split_and!]; cbn [Precomputed.initialized_ Precomputed.results_ Precomputed.next_ Precomputed.sorted_ Precomputed.sort_size_ Precomputed.larger_is_closer_].
  - done.
  - apply Forall_app_2; [by apply Forall_take|by rewrite Hp].
  - rewrite length_app, Ht, Hlp. lia.
  - done.
  - rewrite Et. apply StronglySorted_app. split_and!; [|done|done]. intros x y Hx Hy. apply Hle; [done|]. rewrite <- Hp.
    by eapply elem_of_submseteq, submseteq_take.
  - intros x y. rewrite Et, Ed, elem_of_app. intros [Hx|Hx] Hy; [|by apply Hpl]. apply Hle; [done|]. rewrite <- Hp.
    by eapply elem_of_submseteq, submseteq_drop.
  - done.
  - done.
  - by rewrite take_app_le, take_take, Nat.min_id by lia.
  - rewrite drop_app_ge, Ht, Nat.sub_diag, drop_0 by lia. done.
  - unfold e. lia.
Qed.

(** From such a state on, without filtered results. *)
Lemma prefix_yields it : sorted_prefix it -> Forall (fun d => did d <> (-1)%Z) (Precomputed.results_ it) ->
  exists out, yields (map as_pair out) it /\ out ≡ₚ drop (Precomputed.next_ it) (Precomputed.results_ it) /\
    closest_first (Precomputed.larger_is_closer_ it) (take (Precomputed.next_ it) (Precomputed.results_ it) ++ out).
Proof.
  remember (length (Precomputed.results_ it) - Precomputed.next_ it) as n eqn:Hn. revert it Hn.
  induction n as [|n IH]; intros it Hn Hsp Hid; pose proof (sp_next _ Hsp) as Hnx; pose proof (sp_init _ Hsp) as Hin.
  - exists []. rewrite drop_ge, app_nil_r, take_ge by lia. split_and!; [|done|].
    + eexists. cbn [HasNext Precomputed.iterator]. unfold Precomputed.HasNext, Precomputed.ready. rewrite Hin. cbn [bind].
      by rewrite (proj2 (Nat.ltb_ge _ _)) by lia.
    + pose proof (sp_sorted _ Hsp) as Hso. rewrite take_ge in Hso by lia. done.
  - destruct (sort_next_prefix it Hsp) as (Hsp' & En & El & Et & Ed & Hlt). specialize (Hlt ltac:(lia)). cbv zeta in *.
    set (it' := Precomputed.sort_next it) in *. pose proof (sp_next _ Hsp') as Hnx'.
    destruct (lookup_lt_is_Some_2 (Precomputed.results_ it') (Precomputed.next_ it)) as [x Hx]; [lia|].
    destruct (lookup_lt_is_Some_2 (Precomputed.results_ it) (Precomputed.next_ it)) as [x0 Hx0]; [lia|].
    set (it2 := Precomputed.mk (Precomputed.compute_dist_func_ it') (Precomputed.larger_is_closer_ it') (Precomputed.initialized_ it')
      (Precomputed.results_ it') (Precomputed.next_ it' + 1) (Precomputed.sorted_ it') (Precomputed.sort_size_ it')).
    assert (length (Precomputed.results_ it') = length (Precomputed.results_ it)) as Hlen.
    { pose proof (f_equal length Et) as H1. pose proof (Permutation_length Ed) as H2. rewrite !length_take in H1. rewrite !length_drop in H2. lia. }
    assert (Precomputed.results_ it' ≡ₚ Precomputed.results_ it) as Hperm.
    { by rewrite <- (take_drop (Precomputed.next_ it) (Precomputed.results_ it')), Et, Ed, take_drop. }
    destruct (IH it2) as (out & Hy & Hp & Hs).
    + unfold it2. cbn [Precomputed.results_ Precomputed.next_]. lia.
    + destruct Hsp' as [H1 H2 H3 H4 H5 H6]. split; unfold it2; cbn [Precomputed.initialized_ Precomputed.results_ Precomputed.next_ Precomputed.sorted_
        Precomputed.sort_size_ Precomputed.larger_is_closer_]; try done. lia.
    + unfold it2. cbn [Precomputed.results_]. by rewrite Hperm.
    + unfold it2 in Hp, Hs. cbn [Precomputed.results_ Precomputed.next_ Precomputed.larger_is_closer_] in Hp, Hs. rewrite En, Nat.add_1_r in Hp, Hs.
      exists (x :: out). cbn [map]. split_and!.
      * exists it, it2. split_and!; [| |exact Hy].
        -- cbn [HasNext Precomputed.iterator]. unfold Precomputed.HasNext, Precomputed.ready. rewrite Hin. cbn [bind].
           rewrite (proj2 (Nat.ltb_lt _ _)) by lia. rewrite (proj2 (vget_Ret _ _ _) Hx0). cbn [bind]. rewrite Forall_lookup in Hid.
           by rewrite (proj2 (Z.eqb_neq _ _)) by (by eapply Hid).
        -- cbn [Next Precomputed.iterator]. unfold Precomputed.Next, Precomputed.ready. rewrite Hin. cbn [bind]. fold it'.
           rewrite En, (proj2 (vget_Ret _ _ _) Hx). cbn [bind]. unfold it2. by rewrite En.
      * by rewrite <- Ed, (drop_S _ _ _ Hx), Hp.
      * rewrite (take_S_r _ _ _ Hx), Et, El, <- app_assoc in Hs. exact Hs.
Qed.

Lemma initialized_prefix larger l : Forall okd l ->
  let it := Precomputed.mk (Ret l) larger true l 0 0 (Precomputed.get_sort_size (length l)) in sorted_prefix it.
Proof.
  intros Hl. split; cbn [Precomputed.initialized_ Precomputed.results_ Precomputed.next_ Precomputed.sorted_ Precomputed.sort_size_ Precomputed.larger_is_closer_];
    [done|done|lia|unfold Precomputed.get_sort_size; lia|constructor|]. intros x y Hx. rewrite take_0 in Hx. by apply elem_of_nil in Hx.
Qed.

(** The first use computes and sorts. *)
Lemma first_use larger l : let it := Precomputed.make (Ret l) larger in
  let it0 := Precomputed.sort_next (Precomputed.mk (Ret l) larger true l 0 0 (Precomputed.get_sort_size (length l))) in
  Precomputed.ready it = Ret it0 /\ Precomputed.ready it0 = Ret it0.
Proof.
  cbv zeta. generalize (eq_refl (Precomputed.get_sort_size (length l))). generalize (Precomputed.get_sort_size (length l)) at 2 3 4 5. intros n En.
  unfold Precomputed.ready, Precomputed.make, Precomputed.initialize. cbn [Precomputed.initialized_ Precomputed.compute_dist_func_ bind]. by rewrite En.
Qed.

Lemma yields_ready l larger out : let it := Precomputed.make (Ret l) larger in
  let it0 := Precomputed.sort_next (Precomputed.mk (Ret l) larger true l 0 0 (Precomputed.get_sort_size (length l))) in
  yields out it0 -> yields out it.
Proof.
  cbv zeta. destruct (first_use larger l) as [E1 E2]. cbv zeta in E1, E2. set (it0 := Precomputed.sort_next _) in *.
  assert (HasNext (Precomputed.make (Ret l) larger) = HasNext it0) as E.
  { cbn [HasNext Precomputed.iterator]. unfold Precomputed.HasNext. by rewrite E1, E2. }
  destruct out as [|x out]; cbn [yields]; by rewrite E.
Qed.

Lemma precomputed_yields l larger : Forall okd l -> Forall (fun d => did d <> (-1)%Z) l ->
  exists out, out ≡ₚ l /\ closest_first larger out /\ yields (map as_pair out) (Precomputed.make (Ret l) larger).
Proof.
  intros Hok Hid. pose proof (initialized_prefix larger l Hok) as Hsp. cbv zeta in Hsp.
  destruct (sort_next_prefix _ Hsp) as (Hsp' & En & El & _ & Ed & _). cbv zeta in *. set (it0 := Precomputed.sort_next _) in *.
  cbn [Precomputed.next_ Precomputed.results_ Precomputed.larger_is_closer_] in En, El, Ed. rewrite !drop_0 in Ed.
  destruct (prefix_yields it0 Hsp') as (out & Hy & Hp & Hs); [by rewrite Ed|].
  rewrite En in Hp, Hs. rewrite El in Hs. rewrite drop_0 in Hp. rewrite take_0 in Hs.
  exists out. split_and!; [by rewrite Hp, Ed|exact Hs|]. apply yields_ready. exact Hy.
Qed.

(** an iterator over precomputed distances, none of them filtered out, returns
    every result exactly once, the closest first, although only pieces of the
    list are ever sorted; after the last one [HasNext] is false. *)
Theorem precomputed_iterator_sorts l larger : Forall okd l -> Forall (fun d => did d <> (-1)%Z) l ->
  exists out, out ≡ₚ l /\ closest_first larger out /\ yields (map as_pair out) (Precomputed.make (Ret l) larger).
Proof. apply precomputed_yields. Qed.

(** Inside the sorted piece, up to a filtered result behind it. *)
Lemma piece_yields it j : sorted_prefix it -> Precomputed.next_ it + j = Precomputed.sorted_ it ->
  Forall (fun d => did d <> (-1)%Z) (take (Precomputed.sorted_ it) (Precomputed.results_ it)) ->
  (exists d, Precomputed.results_ it !! Precomputed.sorted_ it = Some d /\ did d = (-1)%Z) ->
  yields (map as_pair (drop (Precomputed.next_ it) (take (Precomputed.sorted_ it) (Precomputed.results_ it)))) it.
Proof.
  intros Hsp. revert it Hsp. induction j as [|j IH]; intros it Hsp Hj Hid (d & Hd & Hf); pose proof (sp_init _ Hsp) as Hin;
    pose proof (lookup_lt_Some _ _ _ Hd) as Hlt.
  - rewrite drop_ge by (rewrite length_take; lia). cbn [map yields HasNext Precomputed.iterator]. unfold Precomputed.HasNext, Precomputed.ready.
    rewrite Hin. cbn [bind]. rewrite (proj2 (Nat.ltb_lt _ _)) by lia. replace (Precomputed.next_ it) with (Precomputed.sorted_ it) by lia.
    rewrite (proj2 (vget_Ret _ _ _) Hd). cbn [bind]. rewrite Hf. by eexists.
  - destruct (lookup_lt_is_Some_2 (Precomputed.results_ it) (Precomputed.next_ it)) as [x Hx]; [lia|].
    assert (take (Precomputed.sorted_ it) (Precomputed.results_ it) !! Precomputed.next_ it = Some x) as Hx' by (rewrite lookup_take_lt by lia; done).
    rewrite (drop_S _ _ _ Hx'). cbn [map yields].
    set (it2 := Precomputed.mk (Precomputed.compute_dist_func_ it) (Precomputed.larger_is_closer_ it) (Precomputed.initialized_ it)
      (Precomputed.results_ it) (Precomputed.next_ it + 1) (Precomputed.sorted_ it) (Precomputed.sort_size_ it)).
    exists it, it2. split_and!.
    + cbn [HasNext Precomputed.iterator]. unfold Precomputed.HasNext, Precomputed.ready. rewrite Hin. cbn [bind].
      rewrite (proj2 (Nat.ltb_lt _ _)) by lia. rewrite (proj2 (vget_Ret _ _ _) Hx). cbn [bind]. rewrite Forall_lookup in Hid.
      by rewrite (proj2 (Z.eqb_neq _ _)) by (by eapply Hid).
    + cbn [Next Precomputed.iterator]. unfold Precomputed.Next, Precomputed.ready. rewrite Hin. cbn [bind].
      unfold Precomputed.sort_next. rewrite (proj2 (Nat.ltb_lt _ _)) by lia. rewrite (proj2 (vget_Ret _ _ _) Hx). cbn [bind]. unfold it2. by rewrite Hin.
    + rewrite <- Nat.add_1_r. apply (IH it2); unfold it2; cbn [Precomputed.results_ Precomputed.next_ Precomputed.sorted_]; [|lia|done|by exists d].
      destruct Hsp as [H1 H2 H3 H4 H5 H6]. split; cbn [Precomputed.initialized_ Precomputed.results_ Precomputed.next_ Precomputed.sorted_
        Precomputed.sort_size_ Precomputed.larger_is_closer_]; try done. lia.
Qed.

(** C38: [HasNext] looks at the next result before the piece it lies in is sorted.
    So when there are more results than one piece holds and a filtered one
    (id -1) happens to stand right behind the first piece, the iterator ends
    there, and no result behind it is ever returned, filtered or not. *)
Theorem filtered_result_ends_iterator l larger n : Forall okd l -> n = Precomputed.get_sort_size (length l) -> n < length l ->
  let s := std_partial_sort (closer larger) n l in
  Forall (fun d => did d <> (-1)%Z) (take n s) -> (exists d, s !! n = Some d /\ did d = (-1)%Z) ->
  yields (map as_pair (take n s)) (Precomputed.make (Ret l) larger).
Proof.
  intros Hok Hn Hlt s Hid Hd. apply yields_ready. cbv zeta. rewrite <- Hn. pose proof (initialized_prefix larger l Hok) as Hsp. cbv zeta in Hsp.
  rewrite <- Hn in Hsp. destruct (sort_next_prefix _ Hsp) as (Hsp' & En & _). cbv zeta in *.
  assert (Precomputed.sorted_ (Precomputed.sort_next (Precomputed.mk (Ret l) larger true l 0 0 n)) = n /\
          Precomputed.results_ (Precomputed.sort_next (Precomputed.mk (Ret l) larger true l 0 0 n)) = s) as [Es Er].
  { unfold Precomputed.sort_next.
    cbn [Precomputed.initialized_ Precomputed.results_ Precomputed.next_ Precomputed.sorted_ Precomputed.sort_size_ Precomputed.larger_is_closer_].
    rewrite take_0, drop_0, Nat.sub_0_r, Nat.add_0_l, Nat.min_r by lia. done. }
  set (it0 := Precomputed.sort_next _) in *. cbn [Precomputed.next_] in En.
  pose proof (piece_yields it0 n Hsp' ltac:(rewrite En, Es; lia)) as H. rewrite En, Es, Er, drop_0 in H. by apply H.
Qed.

End order.

(** ** Priority queues *)

Section queue.
Context {E : Type} (P : E -> Prop) (comp : E -> E -> bool) `{SW : !StrictWeak P comp}.
Implicit Types (x y : E) (q : list E).

(** [x] may be on top of [y]. *)
Definition on_top x y : Prop := P x /\ P y /\ comp x y = false.
Definition queue q : Prop := Forall P q /\ heap_ordered on_top q.

#[local] Instance on_top_trans : Transitive on_top.
Proof. intros x y z (Hx & Hy & Hxy) (_ & Hz & Hyz). split; [done|]. split; [done|]. by apply (sw_negtrans x y z). Qed.

Lemma on_top_refl x : P x -> on_top x x.
Proof. intros Hx. split; [done|]. split; [done|]. by apply sw_irrefl. Qed.
Lemma on_top_true x y : P x -> P y -> comp x y = true -> on_top y x.
Proof. intros Hx Hy H. split; [done|]. split; [done|]. by apply sw_asym. Qed.
Lemma on_top_false x y : P x -> P y -> comp x y = false -> on_top x y.
Proof. by split. Qed.

Lemma queue_nil : queue [].
Proof. split; [constructor|]. intros j x y _ Hx. by rewrite lookup_nil in Hx. Qed.

Lemma queue_emplace q x : queue q -> P x -> wp (emplace comp q x) (fun q' => queue q' /\ q' ≡ₚ x :: q).
Proof.
  intros [HP Ho] Hx. eapply wp_mono; [apply (push_heap_spec comp P on_top on_top_true on_top_false); done|].
  intros q' [Hq' Hp]. split; [|done]. split; [|done]. rewrite Hp. by constructor.
Qed.

Lemma queue_top x q : queue (x :: q) -> Forall (on_top x) (x :: q).
Proof. intros [HP Ho]. by apply (heap_root P on_top on_top_refl (x :: q) x). Qed.

Lemma queue_pop x q : queue (x :: q) -> wp (pop comp (x :: q)) (fun q' => queue q' /\ q' ≡ₚ q).
Proof.
  intros [HP Ho]. unfold pop. apply wp_bind. eapply wp_mono; [apply (pop_heap_spec comp P on_top on_top_refl on_top_true on_top_false); done|].
  intros q' (front & -> & Hf & Hp). cbn [wp]. rewrite length_app. cbn [length]. rewrite Nat.add_sub, take_app_length.
  split; [|done]. split; [|done]. rewrite Hp. by apply Forall_cons_1 in HP as [_ HP].
Qed.

End queue.

Lemma fmap_map {X Y} (f : X -> Y) l : f <$> l = map f l.
Proof. induction l as [|x l IH]; [done|]. by rewrite fmap_cons, IH. Qed.

(** ** Range search over an iterator *)

Section range.
Context {A : Type} `{!Num A, !NumOrder A, !Ceil A} {I : Type} `{IT : !Iterator I A}.
Implicit Types (p : RangeParams A) (l : list (Z * A)).

#[local] Instance first_closer_sw p : StrictWeak nok (is_first_closer p).
Proof.
  unfold is_first_closer. destruct (the_larger_the_closer p); split.
  - intros x y Hx Hy. by apply sw_asym.
  - intros x y z Hx Hy Hz H1 H2. by apply (sw_negtrans z y x).
  - intros x y Hx Hy. by apply sw_asym.
  - intros x y z Hx Hy Hz. by apply sw_negtrans.
Qed.

(** In the range: not too close, and closer than the radius. *)
Definition wanted p (r : Z * A) : bool := negb (has_closer_bound p && too_close p (snd r)) && is_first_closer p (snd r) (radius p).
Definition far p (b : A) (r : Z * A) : Prop := is_first_closer p (snd r) b = false.

(** Closest first, and no NaN. *)
Definition in_order p l : Prop :=
  StronglySorted (fun x y => is_first_closer p (snd y) (snd x) = false) l /\ Forall (fun r => nok (snd r)) l.

Lemma far_rest p b r l : in_order p (r :: l) -> nok b -> far p b r -> Forall (far p b) l.
Proof.
  intros [Hs Hok] Hb Hf. apply StronglySorted_inv in Hs as [_ Hs]. apply Forall_cons_1 in Hok as [Hr Hok].
  apply Forall_forall. intros x Hx. rewrite Forall_forall in Hs, Hok. unfold far in *. by apply (sw_negtrans _ (snd r)); auto.
Qed.

Lemma far_unwanted p l : Forall (far p (radius p)) l -> List.filter (wanted p) l = [].
Proof. induction 1 as [|r l Hr _ IH]; [done|]. cbn [List.filter]. unfold wanted at 1. unfold far in Hr. by rewrite Hr, andb_false_r. Qed.

Lemma in_order_tail p r l : in_order p (r :: l) -> in_order p l.
Proof. intros [Hs Hok]. apply StronglySorted_inv in Hs as [Hs _]. apply Forall_cons_1 in Hok as [_ Hok]. done. Qed.

(** The first [k], or all when [k] is negative. *)
Definition cut (k : Z) l : list (Z * A) := if (k <? 0)%Z then l else take (Z.to_nat k) l.

Lemma ordered_task p l it acc fuel : yields l it -> length l <= fuel -> in_order p l -> nok (radius p) ->
  ((range_search_k p < 0)%Z \/ (Z.of_nat (length acc) < range_search_k p)%Z) ->
  task_with_ordered_iterator fuel p it acc = Ret (acc ++ cut (range_search_k p - Z.of_nat (length acc)) (List.filter (wanted p) l)).
Proof.
  revert it acc fuel. induction l as [|r l IH]; intros it acc fuel Hy Hf Ho Hrad Hk; cbn [yields] in Hy.
  - destruct Hy as [it' E]. assert (cut (range_search_k p - Z.of_nat (length acc)) (List.filter (wanted p) []) = []) as ->
      by (unfold cut; cbn [List.filter]; destruct (_ <? 0)%Z; [done|by rewrite take_nil]).
    rewrite app_nil_r. destruct fuel; cbn [task_with_ordered_iterator]; by rewrite E.
  - destruct Hy as (it1 & it2 & E1 & E2 & Hy). cbn [length] in Hf. destruct fuel as [|fuel]; [lia|]. cbn [task_with_ordered_iterator].
    rewrite E1. cbn [bind negb]. rewrite E2. cbn [bind List.filter]. cbv zeta. unfold wanted at 1.
    pose proof (in_order_tail _ _ _ Ho) as Ho'. destruct (has_closer_bound p && too_close p (snd r)); cbn [negb andb]; [by apply IH; [..|lia| | |]|].
    destruct (is_first_closer p (snd r) (radius p)) eqn:Er; cbn [negb].
    + rewrite length_app. cbn [length]. unfold cut in *. destruct (Z.ltb_spec (range_search_k p) 0) as [Hneg|Hpos].
      * rewrite (proj2 (Z.leb_gt 0 (range_search_k p))) by done. cbn [andb]. rewrite (IH it2) by (done || lia || tauto).
        rewrite !(proj2 (Z.ltb_lt _ _)) by lia. by rewrite <- app_assoc.
      * rewrite (proj2 (Z.leb_le 0 (range_search_k p))) by done. cbn [andb]. destruct Hk as [Hk|Hk]; [lia|].
        rewrite (proj2 (Z.ltb_ge _ _)) by lia. destruct (Z.to_nat (range_search_k p - Z.of_nat (length acc))) as [|m] eqn:Em; [lia|]. cbn [take].
        destruct (Z.leb_spec (range_search_k p) (Z.of_nat (length acc + 1))) as [Hfull|Hmore].
        -- assert (m = 0) as -> by lia. by rewrite take_0.
        -- rewrite (IH it2) by (done || (rewrite length_app; cbn [length]; lia) || lia). rewrite length_app. cbn [length].
           rewrite (proj2 (Z.ltb_ge _ _)) by lia. replace (Z.to_nat _) with m by lia. by rewrite <- app_assoc.
    + rewrite (far_unwanted p l) by (by apply (far_rest p _ r)). unfold cut. destruct (_ <? 0)%Z; by rewrite ?take_nil, app_nil_r.
Qed.

(** The number of far results in a row that is tolerated is a [size_t]. *)
Definition level_ok p : Prop := forall n, (0 <= nceil (nmul (nofZ (Z.of_nat n)) (range_search_level p)))%Z.

Lemma unordered_far p l it st fuel : yields l it -> length l <= fuel -> level_ok p -> Forall (far p (tighter_further_bound st)) l ->
  task_with_unordered_iterator fuel p it st = Ret (found st).
Proof.
  intros Hy Hf Hlev Hfar. revert it st fuel Hy Hf Hfar. induction l as [|r l IH]; intros it st fuel Hy Hf Hfar; cbn [yields] in Hy.
  - destruct Hy as [it' E]. destruct fuel; cbn [task_with_unordered_iterator]; by rewrite E.
  - destruct Hy as (it1 & it2 & E1 & E2 & Hy). cbn [length] in Hf. destruct fuel as [|fuel]; [lia|]. cbn [task_with_unordered_iterator].
    rewrite E1. cbn [bind negb]. rewrite E2. cbn [bind]. cbv zeta. cbn [num_next num_over tighter_further_bound early_stop_further_bounds found].
    apply Forall_cons_1 in Hfar as [Hr Hfar]. destruct (has_closer_bound p && too_close p (snd r)).
    + rewrite (IH it2); [done|done|lia|done].
    + unfold far in Hr. rewrite Hr. cbn [negb]. rewrite (proj2 (Z.ltb_ge _ 0)) by apply Hlev. destruct (_ <? _)%Z; [done|].
      rewrite (IH it2); [done|done|lia|done].
Qed.

Lemma unordered_all p l it st fuel : yields l it -> length l <= fuel -> level_ok p -> in_order p l -> nok (radius p) ->
  (range_search_k p < 0)%Z -> tighter_further_bound st = radius p ->
  task_with_unordered_iterator fuel p it st = Ret (found st ++ List.filter (wanted p) l).
Proof.
  intros Hy Hf Hlev Ho Hrad Hk. revert it st fuel Hy Hf Ho. induction l as [|r l IH]; intros it st fuel Hy Hf Ho Ht; cbn [yields] in Hy.
  - destruct Hy as [it' E]. destruct fuel; cbn [task_with_unordered_iterator List.filter]; rewrite E, app_nil_r; done.
  - pose proof Hy as Hy0. destruct Hy as (it1 & it2 & E1 & E2 & Hy). cbn [length] in Hf. destruct fuel as [|fuel]; [lia|].
    pose proof (in_order_tail _ _ _ Ho) as Ho'. cbn [List.filter]. unfold wanted at 1.
    destruct (has_closer_bound p && too_close p (snd r)) eqn:Ec.
    + cbn [negb andb task_with_unordered_iterator]. rewrite E1. cbn [bind negb]. rewrite E2. cbn [bind]. cbv zeta. rewrite Ec.
      rewrite (IH it2); [done|done|lia|done|done].
    + cbn [negb andb]. destruct (is_first_closer p (snd r) (radius p)) eqn:Er.
      * cbn [task_with_unordered_iterator]. rewrite E1. cbn [bind negb]. rewrite E2. cbn [bind]. cbv zeta. rewrite Ec.
        cbn [num_next num_over tighter_further_bound early_stop_further_bounds found]. rewrite Ht, Er. cbn [negb]. unfold early_stop.
        rewrite (proj2 (Z.ltb_ge 0 _)) by lia. cbn [bind num_next num_over tighter_further_bound early_stop_further_bounds found].
        rewrite (IH it2); [|done|lia|done|done]. cbn [found]. by rewrite <- app_assoc.
      * assert (Forall (far p (radius p)) (r :: l)) as Hfar by (constructor; [done|]; by apply (far_rest p _ r)).
        rewrite (unordered_far p (r :: l)); [|done|cbn [length]; lia|done|by rewrite Ht].
        rewrite (far_unwanted p l), app_nil_r; [done|]. by apply Forall_cons_1 in Hfar as [_ ?].
Qed.

(** Replacing the furthest of the first [k] by a result that is further still. *)
Lemma replace_furthest p q d x : queue nok (is_first_closer p) q -> nok d -> x ∈ q -> Forall (fun y => is_first_closer p d y = false) q ->
  wp (let* q := pop (is_first_closer p) q in let* q := emplace (is_first_closer p) q d in let* b := top q in Ret (b, q))
    (fun '(b, q') => nok b /\ is_first_closer p b d = false /\ is_first_closer p d b = false).
Proof.
  intros Hq Hd Hx Hall. destruct q as [|t q]; [by apply elem_of_nil in Hx|].
  apply wp_bind. eapply wp_mono; [by apply (queue_pop nok (is_first_closer p))|]. intros q1 [Hq1 Hp1].
  apply wp_bind. eapply wp_mono; [by apply (queue_emplace nok (is_first_closer p))|]. intros q2 [Hq2 Hp2].
  destruct q2 as [|b q2]; [by apply Permutation_nil_cons in Hp2|]. cbn [top vget bind wp].
  pose proof (queue_top nok (is_first_closer p) b q2 Hq2) as Ht. rewrite Hp2 in Ht. apply Forall_cons_1 in Ht as [(Hb & _ & Hbd) _].
  split; [done|]. split; [done|]. assert (b ∈ d :: q1) as Hin by (rewrite <- Hp2; left). apply elem_of_cons in Hin as [->|Hin]; [by apply sw_irrefl|].
  rewrite Hp1 in Hin. apply Forall_cons_1 in Hall as [_ Hall]. rewrite Forall_forall in Hall. by apply Hall.
Qed.

Lemma unordered_some p l it st fuel : yields l it -> length l <= fuel -> level_ok p -> in_order p (found st ++ l) -> nok (radius p) ->
  (0 < range_search_k p)%Z -> (Z.of_nat (length (found st)) <= range_search_k p)%Z -> tighter_further_bound st = radius p ->
  queue nok (is_first_closer p) (early_stop_further_bounds st) -> early_stop_further_bounds st ≡ₚ map snd (found st) ->
  task_with_unordered_iterator fuel p it st =
    Ret (found st ++ take (Z.to_nat (range_search_k p) + 1 - length (found st)) (List.filter (wanted p) l)).
Proof.
  intros Hy Hf Hlev Ho Hrad Hk. revert it st fuel Hy Hf Ho. induction l as [|r l IH]; intros it st fuel Hy Hf Ho Hle Ht Hq Hp; cbn [yields] in Hy.
  - destruct Hy as [it' E]. destruct fuel; cbn [task_with_unordered_iterator List.filter]; rewrite E, take_nil, app_nil_r; done.
  - pose proof Hy as Hy0. destruct Hy as (it1 & it2 & E1 & E2 & Hy). cbn [length] in Hf. destruct fuel as [|fuel]; [lia|].
    assert (in_order p (r :: l)) as Hrl.
    { destruct Ho as [Hs Hok]. apply StronglySorted_app in Hs as (_ & _ & Hs). by apply Forall_app in Hok as [_ Hok]. }
    assert (nok (snd r)) as Hr by (destruct Hrl as [_ Hok]; by apply Forall_cons_1 in Hok as [? _]).
    cbn [List.filter]. unfold wanted at 1. destruct (has_closer_bound p && too_close p (snd r)) eqn:Ec.
    + cbn [negb andb task_with_unordered_iterator]. rewrite E1. cbn [bind negb]. rewrite E2. cbn [bind]. cbv zeta. rewrite Ec.
      rewrite (IH it2); cbn [found tighter_further_bound early_stop_further_bounds]; [done|done|lia| |done..].
      destruct Ho as [Hs Hok]. apply StronglySorted_app in Hs as (Hc & Hs1 & Hs2). apply StronglySorted_inv in Hs2 as [Hs2 _].
      apply Forall_app in Hok as [Hok1 Hok2]. apply Forall_cons_1 in Hok2 as [_ Hok2]. split; [|by apply Forall_app].
      apply StronglySorted_app. split_and!; [|done|done]. intros x y Hx Hy'. apply Hc; [done|by right].
    + cbn [negb andb]. destruct (is_first_closer p (snd r) (radius p)) eqn:Er.
      2:{ assert (Forall (far p (radius p)) (r :: l)) as Hfar by (constructor; [done|]; by apply (far_rest p _ r)).
          rewrite (unordered_far p (r :: l)); [|done|cbn [length]; lia|done|by rewrite Ht].
          rewrite (far_unwanted p l), take_nil, app_nil_r; [done|]. by apply Forall_cons_1 in Hfar as [_ ?]. }
      cbn [task_with_unordered_iterator]. rewrite E1. cbn [bind negb]. rewrite E2. cbn [bind]. cbv zeta. rewrite Ec.
      cbn [num_next num_over tighter_further_bound early_stop_further_bounds found]. rewrite Ht, Er. cbn [negb]. unfold early_stop.
      cbn [num_next num_over tighter_further_bound early_stop_further_bounds found]. rewrite (proj2 (Z.ltb_lt 0 _)) by lia.
      rewrite (Permutation_length Hp), length_map. destruct (Z.ltb_spec (Z.of_nat (length (found st))) (range_search_k p)) as [Hlt|Hge].
      * destruct (wp_elim _ _ (queue_emplace nok (is_first_closer p) _ _ Hq Hr)) as (q' & -> & Hq' & Hp'). cbn [bind].
        cbn [num_next num_over tighter_further_bound early_stop_further_bounds found].
        rewrite (IH it2); cbn [found tighter_further_bound early_stop_further_bounds]; [|done|lia| | |done|done| ].
        -- rewrite length_app, <- app_assoc. cbn [length app]. replace (Z.to_nat (range_search_k p) + 1 - length (found st)) with
             (S (Z.to_nat (range_search_k p) + 1 - (length (found st) + 1))) by lia. done.
        -- by rewrite <- app_assoc.
        -- rewrite length_app. cbn [length]. lia.
        -- rewrite Hp', Hp, map_app. cbn [map]. apply Permutation_cons_append.
      * assert (Forall (fun y => is_first_closer p (snd r) y = false) (early_stop_further_bounds st)) as Hall.
        { rewrite Hp. apply Forall_forall. intros y (x & <- & Hx)%list_elem_of_In%in_map_iff.
          destruct Ho as [Hs _]. apply StronglySorted_app in Hs as (Hc & _ & _). apply Hc; [by apply list_elem_of_In|left]. }
        destruct (found st) as [|f0 fs] eqn:Ef; [cbn [length] in Hge; lia|].
        assert (snd f0 ∈ early_stop_further_bounds st) as Hin by (rewrite Hp; left).
        destruct (wp_elim _ _ (replace_furthest p _ (snd r) _ Hq Hr Hin Hall)) as ([b q'] & E & Hb & Hbr & Hrb).
        apply bind_Ret_inv in E as (q1 & -> & E). cbn [bind]. apply bind_Ret_inv in E as (q2 & -> & E). cbn [bind].
        apply bind_Ret_inv in E as (b' & -> & [= -> ->]). cbn [bind num_next num_over tighter_further_bound early_stop_further_bounds found].
        rewrite (unordered_far p l); [|done|lia|done|].
        -- cbn [found]. replace (Z.to_nat (range_search_k p) + 1 - length (f0 :: fs)) with 1 by lia. cbn [take]. by rewrite take_0.
        -- cbn [tighter_further_bound]. apply (far_rest p b r); [done..|]. exact Hrb.
Qed.

(** How many results the two variants return. *)
Definition limit p : Z := if retain_order p then range_search_k p else if (range_search_k p <? 0)%Z then (-1)%Z else (range_search_k p + 1)%Z.
Definition hits p l : list (Z * A) := cut (limit p) (List.filter (wanted p) l).

Lemma search_one_spec p l it : yields l it -> length l <= bound it -> level_ok p -> in_order p l -> nok (radius p) -> range_search_k p <> 0%Z ->
  search_one p it = Ret (hits p l).
Proof.
  intros Hy Hb Hlev Ho Hr Hk. unfold search_one, hits, limit. destruct (retain_order p).
  - rewrite (ordered_task p l) by (done || (cbn [length]; lia)). cbn [length app]. by rewrite Z.sub_0_r.
  - destruct (Z.ltb_spec (range_search_k p) 0) as [Hneg|Hpos].
    + by rewrite (unordered_all p l).
    + rewrite (unordered_some p l); [|done..| | | | | |]; cbn [found tighter_further_bound early_stop_further_bounds length app]; try done; try lia; try apply queue_nil.
      unfold cut. rewrite (proj2 (Z.ltb_ge _ 0)) by lia. do 2 f_equal. lia.
Qed.

Lemma search_all_spec p its ls : Forall2 (fun it l => yields l it /\ length l <= bound it /\ in_order p l) its ls ->
  level_ok p -> nok (radius p) -> range_search_k p <> 0%Z -> search_all p its = Ret (map (hits p) ls).
Proof.
  intros Hf Hlev Hr Hk. unfold search_all.
  assert (forall rs, foldM (fun rs it => let* r := search_one p it in Ret (rs ++ [r])) rs its = Ret (rs ++ map (hits p) ls)) as H; [|by apply H].
  induction Hf as [|it l its ls (Hy & Hb & Ho) Hf IH]; intros rs; cbn [foldM map].
  - by rewrite app_nil_r.
  - rewrite (search_one_spec p l it) by done. cbn [bind]. rewrite IH. by rewrite <- app_assoc.
Qed.

Lemma range_search_spec p nq its ls : Forall2 (fun it l => yields l it /\ length l <= bound it /\ in_order p l) its ls ->
  level_ok p -> nok (radius p) -> range_search_k p <> 0%Z ->
  exists r, range_search p nq (inr its) = Ret (inr r) /\ rr_lims r = totals 0 (map (fun l => length (hits p l)) ls) /\
    rr_distances r = (if concat (map (hits p) ls) is [] then None else Some (map snd (concat (map (hits p) ls)))) /\
    rr_labels r = (if concat (map (hits p) ls) is [] then None else Some (map fst (concat (map (hits p) ls)))).
Proof.
  intros Hf Hlev Hr Hk. unfold range_search. rewrite (proj2 (Z.eqb_neq _ _) Hk), (search_all_spec p its ls) by done. cbn [bind].
  destruct (range_results_packed (map (map snd) (map (hits p) ls)) (map (map fst) (map (hits p) ls)) (length its)) as [H _].
  rewrite !length_map, (Forall2_length _ _ _ Hf) in H. destruct H as (r & Er & El & Hn & Hc); [done|done| |].
  { rewrite !fmap_map, !map_map. apply map_ext. intros l. by rewrite !length_map. }
  rewrite (Forall2_length _ _ _ Hf), Er. cbn [bind]. exists r. split; [done|]. rewrite <- concat_map in Hn. rewrite <- !concat_map in Hc. split.
  - rewrite El. f_equal. rewrite fmap_map, !map_map. apply map_ext. intros l. by rewrite length_map.
  - destruct (concat (map (hits p) ls)) as [|h hs]; [by apply Hn|destruct Hc as [-> ->]; [discriminate|done]].
Qed.

End range.

(** ** Range search over precomputed distances *)

Section compose.
Context {A : Type} `{!Num A, !NumOrder A, !Ceil A, PS : !StdPartialSort}.

Lemma closest_first_in_order (p : RangeParams A) (out : list (dist_id A)) : Forall okd out -> closest_first (the_larger_the_closer p) out ->
  in_order p (map as_pair out).
Proof.
  intros Hok Hs. split; [|by rewrite Forall_map].
  induction Hs as [|x out Hs IH Hx]; cbn [map]; [constructor|]. apply Forall_cons_1 in Hok as [Hx' Hok]. constructor; [by apply IH|].
  rewrite Forall_map. apply Forall_forall. intros y Hy. rewrite Forall_forall in Hx, Hok. specialize (Hx y Hy). specialize (Hok y Hy).
  cbn [as_pair snd]. unfold closer, is_first_closer in *. destruct (the_larger_the_closer p).
  - rewrite dist_gt_flip in Hx by done. by apply dist_lt_false in Hx as [Hx _].
  - by apply dist_lt_false in Hx as [Hx _].
Qed.

(** Range search over precomputed distances is exact.  For each query it
    returns the results that are closer than the radius and not too close, each
    once and the closest first, at most [range_search_k] of them when the order
    of the iterator is retained and one more otherwise (all of them when
    [range_search_k] is negative), packed into flat arrays with the limits of
    the queries. *)
Theorem range_search_returns_range (p : RangeParams A) nq (ls : list (list (dist_id A))) :
  Forall (fun l => Forall okd l /\ Forall (fun d => did d <> (-1)%Z) l) ls -> nok (radius p) -> level_ok p -> range_search_k p <> 0%Z ->
  exists outs r, Forall2 (fun l out => out ≡ₚ l /\ closest_first (the_larger_the_closer p) out) ls outs /\
    let found := map (fun out => hits p (map as_pair out)) outs in
    range_search p nq (inr (map (fun l => Precomputed.make (Ret l) (the_larger_the_closer p)) ls)) = Ret (inr r) /\
    rr_lims r = totals 0 (map length found) /\
    rr_distances r = (if concat found is [] then None else Some (map snd (concat found))) /\
    rr_labels r = (if concat found is [] then None else Some (map fst (concat found))).
Proof.
  intros Hls Hr Hlev Hk.
  assert (exists outs, Forall2 (fun l out => out ≡ₚ l /\ closest_first (the_larger_the_closer p) out) ls outs /\
    Forall2 (fun it l => yields l it /\ length l <= bound it /\ in_order p l)
      (map (fun l => Precomputed.make (Ret l) (the_larger_the_closer p)) ls) (map (map as_pair) outs)) as (outs & Ho & Hy).
  { induction Hls as [|l ls [Hok Hid] _ (outs & Ho & Hy)]; [by exists []|].
    destruct (precomputed_yields l (the_larger_the_closer p) Hok Hid) as (out & Hp & Hs & Hyl). exists (out :: outs). split; [by constructor|].
    cbn [map]. constructor; [|done]. split; [done|]. split; [rewrite length_map, Hp; cbn; lia|].
    apply closest_first_in_order; [by rewrite Hp|done]. }
  destruct (range_search_spec p nq _ _ Hy Hlev Hr Hk) as (r & E & El & Ed & Eb). exists outs, r. split; [done|]. cbv zeta. split; [done|].
  rewrite !map_map in *. split; [by rewrite El|]. done.
Qed.

End compose.

(** ** Batches of candidates *)

(** Multiplying by 1 or -1 and back. *)
Class SignLaws (A : Type) `{!Num A, !NumOrder A} := {
  sign_twice : forall (x : A) s, (s = 1 \/ s = -1)%Z -> nmul (nmul x (nofZ s)) (nofZ s) = x;
  sign_ok : forall (x : A) s, (s = 1 \/ s = -1)%Z -> nok x -> nok (nmul x (nofZ s));
  sign_order : forall (x y : A), nok x -> nok y -> nltb (nmul x (nofZ (-1))) (nmul y (nofZ (-1))) = nltb y x;
  sign_one : forall (x : A), nmul x (nofZ 1) = x
}.

#[export] Instance Z_sign : SignLaws Z.
Proof. split; cbn [nmul nofZ nltb Z_num]; [intros x s [->| ->]; lia|done| |lia]. intros x y _ _. destruct (Z.ltb_spec (x * -1) (y * -1)), (Z.ltb_spec y x); lia || done. Qed.

(** A source has finitely many results, delivers some whenever there are any,
    and knows the distance of each. *)
Class SourceLaws (S A : Type) `{!Num A, !NumOrder A, !Source S A} := {
  items : S -> list (dist_id A);
  raw : Z -> A;
  items_ok : forall s, Forall okd (items s);
  next_batch_items : forall s, exists s' bs, next_batch s = Ret (s', bs) /\ items s = concat bs ++ items s' /\
    (concat bs = [] -> items s = []);
  pending_items : forall s, length (items s) <= pending s;
  raw_distance_raw : forall s id, raw_distance s id = Ret (raw id) /\ nok (raw id)
}.

#[export] Instance dist_gt_sw {A} `{!Num A, !NumOrder A} : StrictWeak (okd (A := A)) DistId.gt.
Proof.
  split.
  - intros x y Hx Hy. rewrite !dist_gt_flip by done. by apply dist_lt_asym.
  - intros x y z Hx Hy Hz. rewrite !dist_gt_flip by done. intros H1 H2. by apply (dist_lt_negtrans z y x).
Qed.

Section batches.
Context {S A : Type} `{!Num A, !NumOrder A, !Source S A, SL : !SourceLaws S A, SG : !SignLaws A}.
Implicit Types (it : IndexIterator.t S A) (d : dist_id A).

Abbreviation queued := (queue okd (DistId.gt (A := A))).

(** What is fixed when the iterator is made. *)
Definition same_setup it it' : Prop :=
  IndexIterator.refine_ratio_ it' = IndexIterator.refine_ratio_ it /\ IndexIterator.initialized_ it' = IndexIterator.initialized_ it /\
  IndexIterator.retain_iterator_order_ it' = IndexIterator.retain_iterator_order_ it /\ IndexIterator.sign_ it' = IndexIterator.sign_ it.

Definition sign_d it d : dist_id A := DistId.mk (did d) (IndexIterator.signed it (dval d)).

Definition sound it : Prop :=
  (IndexIterator.sign_ it = 1 \/ IndexIterator.sign_ it = -1)%Z /\ queued (IndexIterator.res_ it) /\ queued (IndexIterator.refined_res_ it) /\
  (forall n, (0 <= ntrunc (nmul (nofZ (Z.of_nat n)) (IndexIterator.refine_ratio_ it)))%Z).

(** Adding a batch. *)
Lemma push_batch it batch q : (IndexIterator.sign_ it = 1 \/ IndexIterator.sign_ it = -1)%Z -> Forall okd batch -> queued q ->
  wp (foldM (fun q d => emplace DistId.gt q (DistId.mk (did d) (IndexIterator.signed it (dval d)))) q batch)
    (fun q' => queued q' /\ q' ≡ₚ map (sign_d it) batch ++ q).
Proof.
  intros Hs. revert q. induction batch as [|d batch IH]; intros q Hb Hq; cbn [foldM map]; [done|].
  apply Forall_cons_1 in Hb as [Hd Hb]. apply wp_bind. eapply wp_mono; [apply (queue_emplace okd DistId.gt); [done|by apply sign_ok]|].
  intros q1 [Hq1 Hp1]. eapply wp_mono; [by apply IH|]. intros q2 [Hq2 Hp2]. split; [done|].
  rewrite Hp2, Hp1. cbn [app]. by rewrite Permutation_middle.
Qed.

(** Refining moves results from one queue to the other and replaces their distances. *)
Lemma refine_loop_spec fuel it : sound it -> length (IndexIterator.res_ it) <= fuel ->
  wp (IndexIterator.refine_loop fuel it) (fun it' => sound it' /\ same_setup it it' /\ IndexIterator.source it' = IndexIterator.source it /\
    exists moved, IndexIterator.res_ it ≡ₚ moved ++ IndexIterator.res_ it' /\
      IndexIterator.refined_res_ it' ≡ₚ map (fun d => DistId.mk (did d) (IndexIterator.signed it (raw (did d)))) moved ++ IndexIterator.refined_res_ it).
Proof.
  revert it. induction fuel as [|fuel IH]; intros it Hs Hf; pose proof Hs as (Hsg & Hq & Hqr & Hpos);
    cbn [IndexIterator.refine_loop]; destruct (IndexIterator.res_ it) as [|x q] eqn:Eq.
  1, 3: cbn [wp]; split; [done|]; split; [by unfold same_setup|]; split; [done|]; exists []; by rewrite Eq.
  - cbn [length] in Hf. lia.
  - unfold IndexIterator.min_refine_size. rewrite (proj2 (Z.ltb_ge _ 0)) by apply Hpos. cbn [bind]. destruct (_ || _).
    2:{ cbn [wp]. split; [done|]. split; [by unfold same_setup|]. split; [done|]. exists []. by rewrite Eq. }
    change (top (x :: q)) with (Ret x). cbn [bind]. apply wp_bind. eapply wp_mono; [by apply (queue_pop okd DistId.gt)|]. intros q' [Hq' Hp'].
    destruct (raw_distance_raw (IndexIterator.source it) (did x)) as [Er Hr]. rewrite Er. cbn [bind].
    apply wp_bind. eapply wp_mono; [apply (queue_emplace okd DistId.gt); [done|by apply sign_ok]|]. intros r' [Hr' Hpr'].
    eapply wp_mono; [apply IH|].
    + split; [done|]. split; [done|]. split; [done|]. exact Hpos.
    + cbn [IndexIterator.res_ IndexIterator.with_queues]. rewrite Hp'. cbn [length] in Hf. lia.
    + intros it' (Hs' & Hset & Hsrc & moved & Hm & Hmr). cbn [IndexIterator.res_ IndexIterator.refined_res_ IndexIterator.with_queues IndexIterator.source] in *.
      split; [done|]. split; [exact Hset|]. split; [exact Hsrc|]. exists (x :: moved). split.
      * cbn [app]. rewrite <- Hm. by rewrite Hp'.
      * cbn [map app]. rewrite Hmr, Hpr'. cbn [app]. by rewrite Permutation_middle.
Qed.

(** A result with its exact distance, as the queue holds it. *)
Definition refresh it d : dist_id A := DistId.mk (did d) (IndexIterator.signed it (raw (did d))).

(** [it'] has the results [new] in addition to those of [it], some of them refined. *)
Definition received it (new : list (dist_id A)) it' : Prop :=
  exists moved, map (sign_d it) new ++ IndexIterator.res_ it ≡ₚ moved ++ IndexIterator.res_ it' /\
    IndexIterator.refined_res_ it' ≡ₚ map (refresh it) moved ++ IndexIterator.refined_res_ it /\
    (IndexIterator.refine_ it = false -> moved = []).

Lemma same_setup_trans it1 it2 it3 : same_setup it1 it2 -> same_setup it2 it3 -> same_setup it1 it3.
Proof. unfold same_setup. intros (-> & -> & -> & ->) (-> & -> & -> & ->). done. Qed.

Lemma same_setup_sign it it' : same_setup it it' -> (forall d, sign_d it' d = sign_d it d) /\ (forall d, refresh it' d = refresh it d) /\
  (forall v, IndexIterator.signed it' v = IndexIterator.signed it v) /\ IndexIterator.refine_ it' = IndexIterator.refine_ it.
Proof. intros (E1 & _ & _ & E4). unfold sign_d, refresh, IndexIterator.signed, IndexIterator.refine_. by rewrite E1, E4. Qed.

Lemma received_trans it n1 it1 n2 it2 : same_setup it it1 -> received it n1 it1 -> received it1 n2 it2 -> received it (n1 ++ n2) it2.
Proof.
  intros Hset (m1 & Hp1 & Hr1 & Hn1) (m2 & Hp2 & Hr2 & Hn2). destruct (same_setup_sign _ _ Hset) as (Es & Er & _ & Ef). exists (m1 ++ m2). split_and!.
  - rewrite !map_app, <- !app_assoc, (Permutation_app_swap_app (map (sign_d it) n1)), Hp1.
    rewrite (Permutation_app_swap_app _ m1), <- Hp2. f_equiv. f_equiv. apply reflexive_eq. apply map_ext. intros d. by rewrite Es.
  - rewrite Hr2, Hr1, map_app, <- (app_assoc (map (refresh it) m1)). rewrite (Permutation_app_swap_app (map (refresh it) m1)). f_equiv.
    apply reflexive_eq, map_ext. intros d. by rewrite Er.
  - intros Hf. rewrite Hn1, Hn2; [done|by rewrite Ef|done].
Qed.

Lemma batch_handler_spec it batch : sound it -> Forall okd batch ->
  wp (IndexIterator.batch_handler it batch) (fun it' => sound it' /\ same_setup it it' /\ IndexIterator.source it' = IndexIterator.source it /\ received it batch it').
Proof.
  intros Hs Hb. pose proof Hs as (Hsg & Hq & Hqr & Hpos). destruct batch as [|d batch].
  { cbn [IndexIterator.batch_handler wp]. split; [done|]. split; [by unfold same_setup|]. split; [done|]. by exists []. }
  unfold IndexIterator.batch_handler. apply wp_bind. eapply wp_mono; [by apply push_batch|]. intros q' [Hq' Hp']. cbv zeta.
  set (it1 := IndexIterator.with_queues it q' (IndexIterator.refined_res_ it)).
  assert (sound it1) as Hs1 by (split; [done|]; split; [done|]; split; [done|exact Hpos]).
  change (IndexIterator.refine_ it1) with (IndexIterator.refine_ it). destruct (IndexIterator.refine_ it) eqn:Ef.
  - eapply wp_mono; [apply refine_loop_spec; [done|unfold it1; cbn; lia]|]. intros it' (Hs' & Hset & Hsrc & moved & Hm & Hmr).
    split; [done|]. split; [exact Hset|]. split; [exact Hsrc|]. exists moved. split_and!; [|exact Hmr|by rewrite Ef].
    by rewrite <- Hp', <- Hm.
  - cbn [wp]. split; [done|]. split; [by unfold same_setup|]. split; [done|]. exists []. split_and!; [by rewrite <- Hp'|done|done].
Qed.

Lemma batches_spec bs it : sound it -> Forall (Forall okd) bs ->
  wp (foldM IndexIterator.batch_handler it bs)
    (fun it' => sound it' /\ same_setup it it' /\ IndexIterator.source it' = IndexIterator.source it /\ received it (concat bs) it').
Proof.
  revert it. induction bs as [|b bs IH]; intros it Hs Hb; cbn [foldM concat].
  - cbn [wp]. split; [done|]. split; [by unfold same_setup|]. split; [done|]. by exists [].
  - apply Forall_cons_1 in Hb as [Hb0 Hb]. apply wp_bind. eapply wp_mono; [by apply batch_handler_spec|]. intros it1 (Hs1 & Hset1 & Hsrc1 & Hr1).
    eapply wp_mono; [by apply IH|]. intros it2 (Hs2 & Hset2 & Hsrc2 & Hr2). split; [done|]. split; [by eapply same_setup_trans|].
    split; [congruence|]. by eapply received_trans.
Qed.

(** While there are results to come, some are in the queues. *)
Definition live it : Prop := IndexIterator.res_ it = [] -> IndexIterator.refined_res_ it = [] -> items (IndexIterator.source it) = [].

Lemma UpdateNext_spec it : sound it ->
  wp (IndexIterator.UpdateNext it) (fun it' => sound it' /\ same_setup it it' /\ live it' /\
    exists new, items (IndexIterator.source it) = new ++ items (IndexIterator.source it') /\ received it new it').
Proof.
  intros Hs. unfold IndexIterator.UpdateNext. destruct (next_batch_items (IndexIterator.source it)) as (s' & bs & E & Hi & He). rewrite E. cbn [bind].
  assert (Forall (Forall okd) bs) as Hok.
  { pose proof (items_ok (IndexIterator.source it)) as Ho. rewrite Hi in Ho. apply Forall_app in Ho as [Ho _]. apply Forall_forall. intros b Hb.
    apply Forall_forall. intros d Hd. rewrite Forall_forall in Ho. apply Ho, elem_of_concat. by exists b. }
  eapply wp_mono; [apply batches_spec; [|done]|].
  { destruct Hs as (H1 & H2 & H3 & H4). split; [done|]. split; [done|]. split; [done|exact H4]. }
  intros it' (Hs' & Hset & Hsrc & Hr). cbn [IndexIterator.source IndexIterator.with_source] in Hsrc. split; [done|]. split; [exact Hset|].
  rewrite Hsrc. split; [|by exists (concat bs)]. intros H1 H2. rewrite Hsrc. destruct Hr as (moved & Hm & Hmr & _). rewrite H2 in Hmr. rewrite H1, app_nil_r in Hm.
  apply Permutation_nil, app_eq_nil in Hmr as [Hmr _]. destruct moved; [|done].
  symmetry in Hm. apply Permutation_nil, app_eq_nil in Hm as [Hm _]. destruct (concat bs) as [|d c] eqn:Ec; [|done].
  rewrite He in Hi by done. by destruct (items s').
Qed.

(** The ids of the results to come. *)
Definition ids it : list Z :=
  map did (IndexIterator.res_ it) ++ map did (IndexIterator.refined_res_ it) ++ map did (items (IndexIterator.source it)).

Lemma received_ids it new it' : items (IndexIterator.source it) = new ++ items (IndexIterator.source it') -> received it new it' -> ids it' ≡ₚ ids it.
Proof.
  intros Hi (moved & Hm & Hr & _). unfold ids. rewrite Hi, map_app. apply (Permutation_map did) in Hm. apply (Permutation_map did) in Hr.
  rewrite !map_app, !map_map in Hm. rewrite map_app, map_map in Hr. rewrite Hr. cbn [did sign_d refresh] in *.
  rewrite <- !app_assoc, (Permutation_app_swap_app (map did (IndexIterator.res_ it'))), (app_assoc (map did moved)), <- Hm, <- app_assoc.
  rewrite (app_assoc (map did new)), (Permutation_app_comm (map did new)), <- app_assoc. f_equiv. rewrite Permutation_app_swap_app. done.
Qed.

(** Taking the top out of the current queue. *)
Definition taken it x it1 : Prop := sound it1 /\ same_setup it it1 /\ IndexIterator.source it1 = IndexIterator.source it /\
  ((IndexIterator.refined_res_ it = [] /\ IndexIterator.refined_res_ it1 = [] /\ IndexIterator.res_ it ≡ₚ x :: IndexIterator.res_ it1) \/
   (IndexIterator.res_ it1 = IndexIterator.res_ it /\ IndexIterator.refined_res_ it ≡ₚ x :: IndexIterator.refined_res_ it1)).

Lemma take_current it x q : sound it -> IndexIterator.current it = x :: q ->
  top (IndexIterator.current it) = Ret x /\ okd x /\
  wp (pop DistId.gt (IndexIterator.current it)) (fun q' => taken it x (IndexIterator.set_current it q')).
Proof.
  intros Hs E. rewrite E. split; [done|]. pose proof Hs as (H1 & H2 & H3 & H4).
  assert (queued (x :: q)) as Hq by (rewrite <- E; unfold IndexIterator.current; by destruct (IndexIterator.is_empty _)).
  split; [destruct Hq as [Hq _]; by apply Forall_cons_1 in Hq as [? _]|].
  eapply wp_mono; [by apply (queue_pop okd DistId.gt)|]. intros q' [Hq' Hp]. unfold taken, IndexIterator.set_current, IndexIterator.current in *.
  destruct (IndexIterator.refined_res_ it) as [|y r] eqn:Er; cbn [IndexIterator.is_empty] in *.
  - split; [split; [done|]; split; [done|]; split; [apply queue_nil|exact H4]|]. split; [by unfold same_setup|]. split; [done|].
    left. cbn [IndexIterator.refined_res_ IndexIterator.res_ IndexIterator.with_queues]. by rewrite E, Hp.
  - split; [split; [done|]; split; [done|]; split; [done|exact H4]|]. split; [by unfold same_setup|]. split; [done|].
    right. cbn [IndexIterator.refined_res_ IndexIterator.res_ IndexIterator.with_queues]. by rewrite E, Hp.
Qed.

Lemma taken_ids it x it1 : taken it x it1 -> ids it ≡ₚ did x :: ids it1.
Proof.
  intros (_ & _ & Es & [(E1 & E2 & Hp)|(E & Hp)]); unfold ids; rewrite Es.
  - by rewrite Hp, E1, E2.
  - rewrite E, Hp. cbn [map app]. by rewrite <- Permutation_middle.
Qed.

Lemma has_next_ready it : IndexIterator.initialized_ it = true ->
  IndexIterator.HasNext it = Ret (it, negb (IndexIterator.is_empty (IndexIterator.current it))).
Proof.
  intros Hi. unfold IndexIterator.HasNext, IndexIterator.ready. rewrite Hi. cbn [bind]. do 2 f_equal. unfold IndexIterator.current.
  by destruct (IndexIterator.refined_res_ it), (IndexIterator.res_ it).
Qed.

(** Nothing that comes next is closer than [v]. *)
Definition floor (v : A) it : Prop := forall x q, IndexIterator.current it = x :: q -> nleb v (dval x) = true.

Lemma retain_loop_spec fuel v it : sound it -> IndexIterator.initialized_ it = true -> live it -> length (ids it) <= fuel ->
  wp (IndexIterator.retain_loop fuel v it) (fun it' => sound it' /\ same_setup it it' /\ live it' /\ ids it' ⊆+ ids it /\ floor v it').
Proof.
  revert it. induction fuel as [|fuel IH]; intros it Hs Hi Hl Hf; cbn [IndexIterator.retain_loop]; rewrite has_next_ready by done; cbn [bind];
    destruct (IndexIterator.current it) as [|x q] eqn:Ec; cbn [IndexIterator.is_empty negb].
  1, 3: cbn [wp]; split; [done|]; split; [by unfold same_setup|]; split; [done|]; split; [done|]; intros y r Hy; by rewrite Ec in Hy.
  all: change (top (x :: q)) with (Ret x); cbn [bind]; destruct (nleb v (dval x)) eqn:Ev.
  1, 3: cbn [wp]; split; [done|]; split; [by unfold same_setup|]; split; [done|]; split; [done|]; intros y r Hy; rewrite Ec in Hy; by injection Hy as <- <-.
  all: destruct (take_current it x q Hs Ec) as (_ & _ & Ht); rewrite Ec in Ht.
  - exfalso. destruct (wp_elim _ _ Ht) as (q' & _ & Ht'). apply taken_ids in Ht'. rewrite Ht' in Hf. cbn [length] in Hf. lia.
  - apply wp_bind. eapply wp_mono; [exact Ht|]. intros q' Ht'. pose proof (taken_ids _ _ _ Ht') as Hids. destruct Ht' as (Hs1 & Hset1 & Hsrc1 & _).
    apply wp_bind. eapply wp_mono; [by apply UpdateNext_spec|]. intros it2 (Hs2 & Hset2 & Hl2 & new & Hnew & Hrec).
    pose proof (received_ids _ _ _ Hnew Hrec) as Hids2. eapply wp_mono; [apply IH; [done| |done|]|].
    + destruct Hset1 as (_ & Hi1 & _), Hset2 as (_ & Hi2 & _). congruence.
    + rewrite Hids2. rewrite Hids in Hf. cbn [length] in Hf. lia.
    + intros it' (Hs' & Hset' & Hl' & Hsub & Hfl). split; [done|]. split; [by do 2 (eapply same_setup_trans; [done|])|]. split; [done|]. split; [|done].
      rewrite Hsub, Hids2, Hids. by apply submseteq_cons.
Qed.

Lemma Next_spec it x q : sound it -> IndexIterator.initialized_ it = true -> IndexIterator.current it = x :: q ->
  wp (IndexIterator.Next it) (fun '(it', r) => r = (did x, IndexIterator.signed it (dval x)) /\ okd x /\ sound it' /\ same_setup it it' /\ live it' /\
    (if IndexIterator.retain_iterator_order_ it then did x :: ids it' ⊆+ ids it /\ floor (dval x) it'
     else exists it1 new, taken it x it1 /\ items (IndexIterator.source it1) = new ++ items (IndexIterator.source it') /\ received it1 new it')).
Proof.
  intros Hs Hi Ec. unfold IndexIterator.Next, IndexIterator.ready. rewrite Hi. cbn [bind]. rewrite Ec. cbn [IndexIterator.is_empty].
  destruct (take_current it x q Hs Ec) as (_ & Hx & Ht). rewrite Ec in Ht. change (top (x :: q)) with (Ret x). cbn [bind].
  apply wp_bind. eapply wp_mono; [exact Ht|]. intros q' Ht'. pose proof (taken_ids _ _ _ Ht') as Hids. pose proof Ht' as (Hs1 & Hset1 & Hsrc1 & _).
  apply wp_bind. eapply wp_mono; [by apply UpdateNext_spec|]. intros it2 (Hs2 & Hset2 & Hl2 & new & Hnew & Hrec).
  pose proof (received_ids _ _ _ Hnew Hrec) as Hids2. pose proof (same_setup_trans _ _ _ Hset1 Hset2) as Hset.
  pose proof Hset as (_ & Ei & Eo & _). rewrite Eo. destruct (IndexIterator.retain_iterator_order_ it) eqn:Er; cbn [bind].
  - apply wp_bind. eapply wp_mono; [apply retain_loop_spec; [done|congruence|done|]|].
    + unfold IndexIterator.left_over, ids. rewrite !length_app, !length_map. pose proof (pending_items (IndexIterator.source it2)). lia.
    + intros it' (Hs' & Hset' & Hl' & Hsub & Hfl). cbn [wp]. pose proof (same_setup_trans _ _ _ Hset Hset') as Hset2'.
      destruct (same_setup_sign _ _ Hset2') as (_ & _ & -> & _). split; [done|]. split; [done|]. split; [done|]. split; [done|]. split; [done|]. split; [|done].
      rewrite Hids. apply submseteq_skip. by rewrite Hsub, Hids2.
  - cbn [wp]. destruct (same_setup_sign _ _ Hset) as (_ & _ & -> & _). split; [done|]. split; [done|]. split; [done|]. split; [done|]. split; [done|].
    by exists (IndexIterator.set_current it q'), new.
Qed.

(** The results to come when none is refined, with the distances to return. *)
Definition plain it : list (Z * A) :=
  map (fun d => as_pair (sign_d it d)) (IndexIterator.res_ it) ++ map (fun d => as_pair (sign_d it d)) (IndexIterator.refined_res_ it) ++
  map as_pair (items (IndexIterator.source it)).

Lemma plain_sign it it' : same_setup it it' -> plain it' =
  map (fun d => as_pair (sign_d it d)) (IndexIterator.res_ it') ++ map (fun d => as_pair (sign_d it d)) (IndexIterator.refined_res_ it') ++
  map as_pair (items (IndexIterator.source it')).
Proof. intros Hset. destruct (same_setup_sign _ _ Hset) as (E & _). unfold plain. by rewrite !(map_ext (fun d => as_pair (sign_d it' d)) (fun d => as_pair (sign_d it d))) by (intros d; by rewrite E). Qed.

Lemma plain_step it x it1 new it' : sound it -> taken it x it1 -> same_setup it it' ->
  items (IndexIterator.source it1) = new ++ items (IndexIterator.source it') -> received it1 new it' ->
  IndexIterator.refine_ it = false -> plain it ≡ₚ as_pair (sign_d it x) :: plain it'.
Proof.
  intros (Hsg & _) (_ & Hset & Es & Ht) Hset' Hi (moved & Hm & Hr & Hn) Hf. destruct (same_setup_sign _ _ Hset) as (E1 & _ & _ & Ef).
  rewrite (Hn ltac:(congruence)) in Hm, Hr. cbn [map app] in Hm, Hr.
  assert (plain it ≡ₚ as_pair (sign_d it x) :: plain it1) as ->.
  { rewrite (plain_sign it it1) by done. unfold plain. rewrite Es.
    destruct Ht as [(R1 & R2 & Hp)|(R & Hp)]; [by rewrite Hp, R1, R2|]. rewrite R, Hp. cbn [map app]. by rewrite <- Permutation_middle. }
  constructor. rewrite (plain_sign it it1), (plain_sign it it') by done. rewrite Hi, map_app, Hr, <- Hm, map_app, map_map.
  assert (map (fun d => as_pair (sign_d it (sign_d it1 d))) new = map as_pair new) as ->.
  { apply map_ext. intros [i v]. rewrite E1. unfold as_pair, sign_d, IndexIterator.signed. cbn [DistId.id DistId.val]. by rewrite sign_twice. }
  rewrite <- app_assoc, (Permutation_app_swap_app (map as_pair new)). f_equiv. by rewrite Permutation_app_swap_app.
Qed.

(** Closest first: no later distance is closer. *)
Definition pairs_in_order (larger : bool) (l : list (Z * A)) : Prop :=
  Sorted (fun a b => (if larger then nltb (snd a) (snd b) else nltb (snd b) (snd a)) = false) l.

Lemma floor_order it (larger : bool) x y : IndexIterator.sign_ it = (if larger then -1 else 1)%Z -> okd x -> okd y -> nleb (dval x) (dval y) = true ->
  (if larger then nltb (IndexIterator.signed it (dval x)) (IndexIterator.signed it (dval y))
   else nltb (IndexIterator.signed it (dval y)) (IndexIterator.signed it (dval x))) = false.
Proof.
  intros Hsg Hx Hy. rewrite nleb_nltb, negb_true_iff by done. intros H. unfold IndexIterator.signed. rewrite Hsg. destruct larger.
  - by rewrite sign_order.
  - by rewrite !sign_one.
Qed.

(** What an iterator in the middle of its work returns. *)
Lemma live_yields (larger : bool) it : sound it -> IndexIterator.initialized_ it = true -> live it -> IndexIterator.sign_ it = (if larger then -1 else 1)%Z ->
  exists out, yields out it /\ length out <= length (ids it) /\
    (if IndexIterator.retain_iterator_order_ it then map fst out ⊆+ ids it /\ pairs_in_order larger out /\
       (forall r rest, out = r :: rest -> exists x q, IndexIterator.current it = x :: q /\ okd x /\ snd r = IndexIterator.signed it (dval x))
     else map fst out ≡ₚ ids it /\ (IndexIterator.refine_ it = false -> out ≡ₚ plain it)).
Proof.
  remember (length (ids it)) as n eqn:Hn. revert it Hn. induction (lt_wf n) as [n _ IH]. intros it Hn Hs Hi Hl Hsg.
  destruct (IndexIterator.current it) as [|x q] eqn:Ec.
  - exists []. split; [exists it; cbn [HasNext IndexIterator.iterator]; by rewrite has_next_ready, Ec by done|]. split; [cbn; lia|].
    assert (IndexIterator.res_ it = [] /\ IndexIterator.refined_res_ it = []) as [E1 E2].
    { unfold IndexIterator.current in Ec. destruct (IndexIterator.refined_res_ it); cbn [IndexIterator.is_empty] in Ec; done. }
    specialize (Hl E1 E2). destruct (IndexIterator.retain_iterator_order_ it).
    + split; [apply submseteq_nil_l|]. split; [constructor|done].
    + unfold ids, plain. by rewrite E1, E2, Hl.
  - destruct (wp_elim _ _ (Next_spec it x q Hs Hi Ec)) as ([it' r] & E & -> & Hx & Hs' & Hset & Hl' & Hrest).
    assert (length (ids it') < n) as Hlt.
    { rewrite Hn. destruct (IndexIterator.retain_iterator_order_ it).
      - destruct Hrest as [Hsub _]. apply submseteq_length in Hsub. cbn [length] in Hsub. lia.
      - destruct Hrest as (it1 & new & Ht & Hnew & Hrec). rewrite (taken_ids _ _ _ Ht), (received_ids _ _ _ Hnew Hrec). cbn [length]. lia. }
    pose proof Hset as (_ & Ei & Eo & Esg).
    destruct (IH _ Hlt it' eq_refl Hs' ltac:(congruence) Hl' ltac:(congruence)) as (out & Hy & Hlen & Hout).
    exists ((did x, IndexIterator.signed it (dval x)) :: out). split; [|split; [cbn [length]; lia|]].
    { exists it, it'. split; [cbn [HasNext IndexIterator.iterator]; by rewrite has_next_ready, Ec by done|]. by split. }
    rewrite Eo in Hout. destruct (same_setup_sign _ _ Hset) as (_ & _ & Esi & Ef). destruct (IndexIterator.retain_iterator_order_ it).
    + destruct Hrest as [Hsub Hfl], Hout as (Ho1 & Ho2 & Ho3). split_and!.
      * cbn [map fst]. rewrite <- Hsub. by apply submseteq_skip.
      * constructor; [done|]. destruct out as [|r rest]; constructor. destruct (Ho3 r rest eq_refl) as (y & q' & Ey & Hyok & ->). rewrite Esi. cbn [snd].
        apply floor_order; [done..|]. by apply (Hfl y q').
      * intros r rest [= <- <-]. by exists x, q.
    + destruct Hrest as (it1 & new & Ht & Hnew & Hrec), Hout as [Ho1 Ho2]. split.
      * cbn [map fst]. by rewrite Ho1, (received_ids _ _ _ Hnew Hrec), (taken_ids _ _ _ Ht).
      * intros Hf. rewrite (plain_step it x it1 new it'), Ho2 by (done || congruence). done.
Qed.

(** C18: an iterator over batches of candidates ends, and returns every result of
    its source exactly once - with the distances of the source when it does not
    refine.  When it is to keep the order, it returns them closest first instead
    and leaves out those that came too late for that. *)
Theorem index_iterator_contract larger (ratio : A) retain s :
  (forall n, (0 <= ntrunc (nmul (nofZ (Z.of_nat n)) ratio))%Z) ->
  exists out, yields out (IndexIterator.make larger ratio retain s) /\
    (retain = false -> map fst out ≡ₚ map did (items s)) /\
    (retain = false -> neqb ratio nzero = true -> out ≡ₚ map as_pair (items s)) /\
    (retain = true -> map fst out ⊆+ map did (items s) /\ pairs_in_order larger out).
Proof.
  intros Hpos. set (it := IndexIterator.make larger ratio retain s).
  assert (sound it) as Hs. { split; [cbn; destruct larger; by auto|]. split; [apply queue_nil|]. split; [apply queue_nil|exact Hpos]. }
  destruct (wp_elim _ _ (UpdateNext_spec it Hs)) as (it1 & E & Hs1 & Hset & Hl1 & new & Hnew & Hrec).
  set (it2 := IndexIterator.mk (IndexIterator.refine_ratio_ it1) true (IndexIterator.retain_iterator_order_ it1) (IndexIterator.sign_ it1)
    (IndexIterator.res_ it1) (IndexIterator.refined_res_ it1) (IndexIterator.source it1)).
  assert (IndexIterator.ready it = Ret it2 /\ IndexIterator.ready it2 = Ret it2) as [R1 R2].
  { split; [|done]. unfold IndexIterator.ready, IndexIterator.initialize. cbn [IndexIterator.initialized_ it IndexIterator.make]. fold it. by rewrite E. }
  assert (forall out, yields out it2 -> yields out it) as Hy.
  { assert (HasNext it = HasNext it2) as EH by (cbn [HasNext IndexIterator.iterator]; unfold IndexIterator.HasNext; by rewrite R1, R2).
    intros [|r out]; cbn [yields]; by rewrite EH. }
  pose proof Hset as (_ & _ & Eo & Esg). destruct (same_setup_sign _ _ Hset) as (Es & _ & _ & Ef).
  destruct (live_yields larger it2) as (out & Hout & _ & Hr); [destruct Hs1 as (A1 & A2 & A3 & A4); exact (conj A1 (conj A2 (conj A3 A4)))|done|exact Hl1|by cbn [it2 IndexIterator.sign_]; rewrite Esg|].
  assert (ids it2 ≡ₚ map did (items s)) as Hids by (apply (received_ids it new it1); done).
  change (IndexIterator.retain_iterator_order_ it2) with (IndexIterator.retain_iterator_order_ it1) in Hr. rewrite Eo in Hr.
  exists out. split; [by apply Hy|]. change (IndexIterator.retain_iterator_order_ it) with retain in Hr. destruct retain.
  - split; [done|]. split; [done|]. intros _. destruct Hr as (H1 & H2 & _). by rewrite <- Hids.
  - destruct Hr as [H1 H2]. split; [by rewrite H1|]. split; [|done]. intros _ Hz. rewrite H2.
    + destruct Hrec as (moved & Hm & Hr & Hn). rewrite Hn in Hm, Hr by (unfold IndexIterator.refine_; cbn [it IndexIterator.make IndexIterator.refine_ratio_]; by rewrite Hz).
      cbn [map app it IndexIterator.make IndexIterator.res_ IndexIterator.refined_res_] in Hm, Hr. apply symmetry, Permutation_nil in Hr.
      unfold plain. cbn [it2 IndexIterator.res_ IndexIterator.refined_res_ IndexIterator.source]. rewrite Hr. cbn [map app]. rewrite <- Hm, app_nil_r, map_map.
      change (items s) with (items (IndexIterator.source it)). rewrite Hnew, map_app. f_equiv. apply reflexive_eq, map_ext. intros [i v].
      unfold as_pair, sign_d, IndexIterator.signed. cbn [DistId.id DistId.val IndexIterator.sign_ it2 it IndexIterator.make]. rewrite Esg. cbn [IndexIterator.sign_ it IndexIterator.make].
      rewrite sign_twice; [done|]. destruct larger; by auto.
    + change (IndexIterator.refine_ it2) with (IndexIterator.refine_ it1). rewrite Ef. unfold IndexIterator.refine_. cbn [it IndexIterator.make IndexIterator.refine_ratio_]. by rewrite Hz.
Qed.

(** *** Refinement stops with the source *)

Lemma UpdateNext_exhausted it : items (IndexIterator.source it) = [] ->
  exists s', items s' = [] /\ IndexIterator.UpdateNext it = Ret (IndexIterator.with_source it s').
Proof.
  intros Hi. unfold IndexIterator.UpdateNext. destruct (next_batch_items (IndexIterator.source it)) as (s' & bs & E & Hb & _). rewrite Hi in Hb.
  symmetry in Hb. apply app_eq_nil in Hb as [Hc Hs']. exists s'. split; [done|]. rewrite E. cbn [bind]. clear E.
  induction bs as [|b bs IH]; [done|]. cbn [concat] in Hc. apply app_eq_nil in Hc as [-> Hc]. cbn [foldM IndexIterator.batch_handler bind]. by apply IH.
Qed.

Definition returned it d : Z * A := as_pair (sign_d it d).

(** With nothing to come, the refined results are returned, then the others as they are. *)
Lemma exhausted_yields it : sound it -> IndexIterator.initialized_ it = true -> IndexIterator.retain_iterator_order_ it = false ->
  items (IndexIterator.source it) = [] ->
  exists o1 o2, o1 ≡ₚ IndexIterator.refined_res_ it /\ o2 ≡ₚ IndexIterator.res_ it /\ yields (map (returned it) o1 ++ map (returned it) o2) it.
Proof.
  remember (length (IndexIterator.refined_res_ it) + length (IndexIterator.res_ it)) as n eqn:Hn. revert it Hn.
  induction n as [|n IH]; intros it Hn Hs Hi Hr Hx; destruct (IndexIterator.current it) as [|x q] eqn:Ec.
  1, 3: assert (IndexIterator.res_ it = [] /\ IndexIterator.refined_res_ it = []) as [E1 E2] by
    (unfold IndexIterator.current in Ec; by destruct (IndexIterator.refined_res_ it)); exists [], []; rewrite E1, E2; split; [done|]; split; [done|];
    exists it; cbn [HasNext IndexIterator.iterator]; by rewrite has_next_ready, Ec by done.
  - exfalso. unfold IndexIterator.current in Ec. destruct (IndexIterator.refined_res_ it); cbn [IndexIterator.is_empty] in Ec; [rewrite Ec in Hn|]; cbn [length] in Hn; lia.
  - destruct (take_current it x q Hs Ec) as (_ & _ & Ht). rewrite Ec in Ht. destruct (wp_elim _ _ Ht) as (q' & Ep & Ht').
    pose proof Ht' as (Hs1 & Hset1 & Hsrc1 & Hcase). set (it1 := IndexIterator.set_current it q') in *.
    destruct (UpdateNext_exhausted it1) as (s' & Hs' & Eu); [by rewrite Hsrc1|]. set (it' := IndexIterator.with_source it1 s') in *.
    assert (IndexIterator.Next it = Ret (it', returned it x)) as EN.
    { unfold IndexIterator.Next, IndexIterator.ready. rewrite Hi. cbn [bind]. rewrite Ec. cbn [IndexIterator.is_empty]. change (top (x :: q)) with (Ret x). cbn [bind].
      rewrite Ep. cbn [bind]. fold it1. rewrite Eu. cbn [bind]. fold it'. pose proof Hset1 as (_ & _ & Eo & Esg).
      change (IndexIterator.retain_iterator_order_ it') with (IndexIterator.retain_iterator_order_ it1). rewrite Eo, Hr. cbn [bind].
      unfold returned, as_pair, sign_d, IndexIterator.signed. cbn [DistId.id DistId.val]. change (IndexIterator.sign_ it') with (IndexIterator.sign_ it1). by rewrite Esg. }
    pose proof Hset1 as (_ & Ei & Eo & Esg).
    destruct (IH it') as (o1 & o2 & Ho1 & Ho2 & Hy).
    + change (IndexIterator.refined_res_ it') with (IndexIterator.refined_res_ it1). change (IndexIterator.res_ it') with (IndexIterator.res_ it1).
      destruct Hcase as [(R1 & R2 & Hp)|(R & Hp)]; [rewrite R1, Hp in Hn; rewrite R2|rewrite Hp, <- R in Hn]; cbn [length] in *; lia.
    + destruct Hs1 as (A1 & A2 & A3 & A4). exact (conj A1 (conj A2 (conj A3 A4))).
    + by rewrite <- Hi, <- Ei.
    + by rewrite <- Hr, <- Eo.
    + done.
    + change (IndexIterator.refined_res_ it') with (IndexIterator.refined_res_ it1) in Ho1. change (IndexIterator.res_ it') with (IndexIterator.res_ it1) in Ho2.
      assert (forall l, map (returned it') l = map (returned it) l) as Eret.
      { intros l. apply map_ext. intros d. unfold returned, sign_d, IndexIterator.signed. change (IndexIterator.sign_ it') with (IndexIterator.sign_ it1). by rewrite Esg. }
      rewrite !Eret in Hy.
      assert (forall o, yields o it' -> yields (returned it x :: o) it) as Hcons.
      { intros o Ho. exists it, it'. split; [cbn [HasNext IndexIterator.iterator]; by rewrite has_next_ready, Ec by done|]. by split. }
      destruct Hcase as [(R1 & R2 & Hp)|(R & Hp)].
      * rewrite R2 in Ho1. apply symmetry, Permutation_nil in Ho1 as ->. exists [], (x :: o2). split; [by rewrite R1|]. split; [by rewrite Ho2, Hp|]. by apply Hcons.
      * exists (x :: o1), o2. split; [by rewrite Ho1, Hp|]. split; [by rewrite Ho2, R|]. by apply Hcons.
Qed.

(** The loop stops at twenty refined results when the ratio asks for no more. *)
Lemma refine_loop_twenty m fuel it : sound it -> length (IndexIterator.res_ it) <= fuel ->
  (forall n, n < m -> (ntrunc (nmul (nofZ (Z.of_nat n)) (IndexIterator.refine_ratio_ it)) <= 20)%Z) ->
  length (IndexIterator.res_ it) < m \/ (length (IndexIterator.refined_res_ it) = 0 /\ length (IndexIterator.res_ it) <= m) ->
  length (IndexIterator.refined_res_ it) <= 20 ->
  wp (IndexIterator.refine_loop fuel it) (fun it' =>
    length (IndexIterator.refined_res_ it') = Nat.min 20 (length (IndexIterator.refined_res_ it) + length (IndexIterator.res_ it))).
Proof.
  revert it. induction fuel as [|fuel IH]; intros it Hs Hf H20 Hm Hle; pose proof Hs as (Hsg & Hq & Hqr & Hpos);
    cbn [IndexIterator.refine_loop]; destruct (IndexIterator.res_ it) as [|x q] eqn:Eq.
  1, 3: cbn [wp length]; lia.
  - cbn [length] in Hf. lia.
  - unfold IndexIterator.min_refine_size. rewrite (proj2 (Z.ltb_ge _ 0)) by apply Hpos. cbn [bind].
    assert (((length (IndexIterator.refined_res_ it) =? 0) || (length (IndexIterator.refined_res_ it) <?
      Nat.max 20 (Z.to_nat (ntrunc (nmul (nofZ (Z.of_nat (length (IndexIterator.res_ it)))) (IndexIterator.refine_ratio_ it)))))) =
      (length (IndexIterator.refined_res_ it) <? 20)) as ->.
    { destruct (Nat.eqb_spec (length (IndexIterator.refined_res_ it)) 0) as [->|E0]; [done|]. cbn [orb]. f_equal. apply Nat.max_l.
      specialize (H20 (length (IndexIterator.res_ it))). rewrite Eq in H20 |- *. lia. }
    destruct (Nat.ltb_spec (length (IndexIterator.refined_res_ it)) 20) as [Hlt|Hge]; [|cbn [wp length]; lia].
    all: change (top (x :: q)) with (Ret x); cbn [bind]; apply wp_bind; (eapply wp_mono; [by apply (queue_pop okd DistId.gt)|]); intros q' [Hq' Hp'];
      destruct (raw_distance_raw (IndexIterator.source it) (did x)) as [Er Hr]; rewrite Er; cbn [bind];
      apply wp_bind; (eapply wp_mono; [apply (queue_emplace okd DistId.gt); [done|by apply sign_ok]|]); intros r' [Hr' Hpr'];
      (eapply wp_mono; [apply IH; [exact (conj Hsg (conj Hq' (conj Hr' Hpos)))| |exact H20|left|]|]);
      cbn [IndexIterator.res_ IndexIterator.refined_res_ IndexIterator.with_queues]; rewrite ?Hp', ?Hpr'; cbn [length] in *; try lia;
      intros it' ->; rewrite ?Hp', ?Hpr'; cbn [length]; lia.
Qed.

(** An iterator that refines stops doing so when its source has nothing more to
    deliver.  If a source hands over more than twenty results in one batch and
    no more after it, and the ratio asks for no more than twenty, then twenty of
    them are returned with their exact distances, and all others with the
    approximate distances of the source. *)
Theorem unrefined_results_remain larger (ratio : A) s s' batch : 
  (forall n, (0 <= ntrunc (nmul (nofZ (Z.of_nat n)) ratio))%Z) -> (forall n, n < length batch -> (ntrunc (nmul (nofZ (Z.of_nat n)) ratio) <= 20)%Z) ->
  neqb ratio nzero = false ->
  next_batch s = Ret (s', [batch]) -> items s' = [] -> 20 < length batch ->
  exists refined rest, batch ≡ₚ refined ++ rest /\ length refined = 20 /\
    yields (map (fun d => (did d, raw (did d))) refined ++ map as_pair rest) (IndexIterator.make larger ratio false s).
Proof.
  intros Hpos Hle Hz Eb Hs' Hlen. set (it := IndexIterator.make larger ratio false s).
  assert (Forall okd batch) as Hok.
  { destruct (next_batch_items s) as (s1 & bs & E & Hi & _). rewrite Eb in E. injection E as <- <-. cbn [concat] in Hi.
    pose proof (items_ok s) as Ho. rewrite Hi, app_nil_r in Ho. by apply Forall_app in Ho as [Ho _]. }
  assert (sound it) as Hs. { split; [cbn; destruct larger; by auto|]. split; [apply queue_nil|]. split; [apply queue_nil|]. intros n. apply Hpos. }
  destruct (wp_elim _ _ (push_batch (IndexIterator.with_source it s') batch [] ltac:(cbn; destruct larger; by auto) Hok (queue_nil _ _))) as (q & Eq & Hq & Hqp).
  rewrite app_nil_r in Hqp. set (it0 := IndexIterator.with_queues (IndexIterator.with_source it s') q []).
  assert (sound it0) as Hs0. { destruct Hs as (A1 & _ & A3 & A4). exact (conj A1 (conj Hq (conj A3 A4))). }
  assert (length (IndexIterator.res_ it0) <= length batch) as Hlq by (cbn [it0 IndexIterator.res_ IndexIterator.with_queues]; rewrite Hqp, length_map; lia).
  destruct (wp_elim _ _ (refine_loop_spec (length q) it0 Hs0 (Nat.le_refl _))) as (it1 & E1 & Hs1 & Hset1 & Hsrc1 & moved & Hm & Hmr).
  destruct (wp_elim _ _ (refine_loop_twenty (length batch) (length q) it0 Hs0 (Nat.le_refl _) Hle (or_intror (conj eq_refl Hlq)) (Nat.le_0_l _))) as (it1' & E1' & H20).
  rewrite E1 in E1'. injection E1' as <-. cbn [it0 IndexIterator.refined_res_ IndexIterator.res_ IndexIterator.with_queues length] in H20, Hm, Hmr.
  rewrite Hqp, length_map, Nat.add_0_l, Nat.min_l in H20 by lia. rewrite app_nil_r in Hmr.
  set (it2 := IndexIterator.mk (IndexIterator.refine_ratio_ it1) true (IndexIterator.retain_iterator_order_ it1) (IndexIterator.sign_ it1)
    (IndexIterator.res_ it1) (IndexIterator.refined_res_ it1) (IndexIterator.source it1)).
  assert (IndexIterator.UpdateNext it = Ret it1) as Eu.
  { unfold IndexIterator.UpdateNext. change (IndexIterator.source it) with s. rewrite Eb. cbn [bind foldM]. destruct batch as [|b0 batch]; [cbn [length] in Hlen; lia|].
    unfold IndexIterator.batch_handler. change (IndexIterator.res_ (IndexIterator.with_source it s')) with (@nil (dist_id A)). rewrite Eq. cbn [bind].
    change (IndexIterator.with_queues _ q _) with it0. assert (IndexIterator.refine_ it0 = true) as -> by (unfold IndexIterator.refine_; cbn; by rewrite Hz).
    by rewrite E1. }
  assert (HasNext it = HasNext it2) as EH.
  { cbn [HasNext IndexIterator.iterator]. unfold IndexIterator.HasNext, IndexIterator.ready, IndexIterator.initialize.
    cbn [IndexIterator.initialized_ it IndexIterator.make]. fold it. by rewrite Eu. }
  pose proof Hset1 as (_ & _ & Eo & Esg).
  destruct (exhausted_yields it2) as (o1 & o2 & Ho1 & Ho2 & Hy).
  { destruct Hs1 as (A1 & A2 & A3 & A4). exact (conj A1 (conj A2 (conj A3 A4))). }
  { done. } { exact Eo. } { cbn [it2 IndexIterator.source]. by rewrite Hsrc1. }
  cbn [it2 IndexIterator.refined_res_ IndexIterator.res_] in Ho1, Ho2.
  assert (Hsg : (IndexIterator.sign_ it = 1 \/ IndexIterator.sign_ it = -1)%Z) by (by destruct Hs).
  assert (forall d, returned it2 (sign_d it d) = as_pair d) as Eb1.
  { intros [i v]. unfold returned, as_pair, sign_d, IndexIterator.signed. cbn [DistId.id DistId.val it2 IndexIterator.sign_]. rewrite Esg.
    change (IndexIterator.sign_ it0) with (IndexIterator.sign_ it). by rewrite sign_twice. }
  rewrite Hmr in Ho1. rewrite Hm in Hqp. destruct (Permutation_map_inv _ _ Ho1) as (m1 & -> & Hm1).
  rewrite <- Ho2, Hm1 in Hqp. destruct (Permutation_map_inv _ _ Hqp) as (b1 & Hb1 & Hbp).
  apply symmetry, map_eq_app in Hb1 as (mm & oo & -> & <- & <-). exists mm, oo. split; [done|]. split.
  - rewrite <- H20, Hmr, length_map, Hm1. by rewrite length_map.
  - assert (map (returned it2) (map (fun d => DistId.mk (did d) (IndexIterator.signed it0 (raw (did d)))) (map (sign_d it) mm)) ++ map (returned it2) (map (sign_d it) oo) =
      map (fun d => (did d, raw (did d))) mm ++ map as_pair oo) as <-.
    { rewrite !map_map. f_equal; apply map_ext; intros d; [|by rewrite Eb1]. change (IndexIterator.signed it0) with (IndexIterator.signed it).
      cbn [sign_d DistId.id]. exact (Eb1 (DistId.mk (did d) (raw (did d)))). }
    assert (forall o, yields o it2 -> yields o it) as Hyy by (intros [|r o]; cbn [yields]; by rewrite EH). by apply Hyy.
Qed.

End batches.

(** ** Witnesses *)

(** A partial sort that leaves the rest backwards. *)
Definition sort_and_reverse {A} (ltb : A -> A -> bool) (n : nat) (l : list A) : list A :=
  let s := insertion_sort ltb l in take n s ++ rev (drop n s).

#[export] Instance reversing_partial_sort : StdPartialSort.
Proof.
  assert (forall A (ltb : A -> A -> bool) n l, n <= length l -> take n (sort_and_reverse ltb n l) = take n (insertion_sort ltb l) /\
    drop n (sort_and_reverse ltb n l) = rev (drop n (insertion_sort ltb l))) as H.
  { intros A ltb n l Hn. unfold sort_and_reverse. assert (length (take n (insertion_sort ltb l)) = n) as E by (rewrite length_take, insertion_sort_perm; lia).
    rewrite take_app_le, take_take, Nat.min_id, drop_app_ge, E, Nat.sub_diag, drop_0 by lia. done. }
  exists @sort_and_reverse.
  - intros A ltb n l. unfold sort_and_reverse. by rewrite <- Permutation_rev, take_drop, insertion_sort_perm.
  - intros A ltb n l Hs Hn. destruct (H A ltb n l Hn) as [-> _]. pose proof (insertion_sort_sorted ltb l Hs) as Hso.
    rewrite <- (take_drop n (insertion_sort ltb l)) in Hso. by apply StronglySorted_app in Hso as (_ & ? & _).
  - intros A ltb n l x y Hs Hn. destruct (H A ltb n l Hn) as [-> ->]. rewrite <- Permutation_rev. pose proof (insertion_sort_sorted ltb l Hs) as Hso.
    rewrite <- (take_drop n (insertion_sort ltb l)) in Hso. apply StronglySorted_app in Hso as (Hc & _ & _). intros Hx Hy. by apply (Hc x y).
Defined.

Lemma insertion_sort_id {A} (ltb : A -> A -> bool) l : StronglySorted (fun x y => ltb y x = false) l -> insertion_sort ltb l = l.
Proof.
  induction 1 as [|x l Hs IH Hx]; [done|]. cbn [insertion_sort foldr]. change (foldr (insert_sorted ltb) [] l) with (insertion_sort ltb l). rewrite IH.
  destruct l as [|y l]; [done|]. cbn [insert_sorted]. apply Forall_cons_1 in Hx as [Hx _]. by rewrite Hx.
Qed.

Lemma precomputed_iterator_sorts_witness : exists out, out ≡ₚ [DistId.mk 4 9; DistId.mk 5 2]%Z /\ closest_first false out /\
  yields (map as_pair out) (Precomputed.make (Ret [DistId.mk 4 9; DistId.mk 5 2]%Z) false).
Proof. apply (precomputed_iterator_sorts [DistId.mk 4 9; DistId.mk 5 2]%Z false); repeat constructor; discriminate. Defined.

(** A full piece, then one more result and a filtered one. *)
Definition many (n : nat) : list (dist_id Z) := map (fun i => DistId.mk (Z.of_nat i) (Z.of_nat i)) (seq 0 n).
Definition with_filtered (n : nat) : list (dist_id Z) := many n ++ [DistId.mk (Z.of_nat n) (Z.of_nat n); DistId.mk (-1) (Z.of_nat n + 1)%Z].

Lemma with_filtered_sorted n : StronglySorted (fun x y => closer false y x = false) (with_filtered n).
Proof.
  assert (forall x y : dist_id Z, (dval x < dval y)%Z -> closer false y x = false) as H.
  { intros x y Hv. unfold closer. apply dist_lt_false; [done..|]. cbn [nltb Z_num]. rewrite (proj2 (Z.ltb_ge _ _)), (proj2 (Z.ltb_lt _ _)) by lia. by auto. }
  unfold with_filtered. apply StronglySorted_app. split_and!.
  - intros x y Hx Hy. apply H. apply list_elem_of_In, in_map_iff in Hx as (i & <- & Hi%in_seq).
    apply elem_of_cons in Hy as [->|Hy%list_elem_of_singleton]; [|subst y]; cbn [DistId.val]; lia.
  - unfold many. generalize 0 as k. induction n as [|n IH]; intros k; cbn [seq map]; constructor; [apply IH|].
    apply Forall_forall. intros y Hy. apply H. apply list_elem_of_In, in_map_iff in Hy as (i & <- & Hi%in_seq). cbn [DistId.val]. lia.
  - constructor; [by repeat constructor|]. constructor; [|constructor]. apply H. cbn [DistId.val]. lia.
Qed.

Lemma length_with_filtered n : length (with_filtered n) = n + 2.
Proof. unfold with_filtered, many. rewrite length_app, length_map, length_seq. done. Qed.

(** The result 50000 is lost. *)
Lemma filtered_result_ends_iterator_witness : exists n, n = Precomputed.get_sort_size (length (with_filtered n)) /\
  yields (map as_pair (many n)) (Precomputed.make (Ret (with_filtered n)) false).
Proof.
  remember (50 * 1000) as n eqn:Hn. exists n. assert (n = Precomputed.get_sort_size (length (with_filtered n))) as E.
  { rewrite length_with_filtered. unfold Precomputed.get_sort_size. rewrite <- Hn. symmetry. apply Nat.max_l.
    assert (2 <= n) by lia. apply Nat.Div0.div_le_upper_bound. lia. }
  split; [exact E|]. assert (length (many n) = n) as Hl by (unfold many; by rewrite length_map, length_seq).
  assert (take n (with_filtered n) = many n) as Et by (unfold with_filtered; rewrite take_app_le, take_ge by lia; done).
  assert (std_partial_sort (closer false) n (with_filtered n) = many n ++ [DistId.mk (-1) (Z.of_nat n + 1)%Z; DistId.mk (Z.of_nat n) (Z.of_nat n)]) as Es.
  { cbn [std_partial_sort reversing_partial_sort]. unfold sort_and_reverse. rewrite insertion_sort_id by apply with_filtered_sorted. rewrite Et. f_equal.
    unfold with_filtered. rewrite drop_app_ge, Hl, Nat.sub_diag by lia. done. }
  pose proof (filtered_result_ends_iterator (with_filtered n) false n) as H. cbv zeta in H. rewrite Es in H. rewrite take_app_le, take_ge in H by lia. apply H.
  - by apply Forall_forall.
  - exact E.
  - rewrite length_with_filtered. lia.
  - apply Forall_forall. intros d Hd. apply list_elem_of_In, in_map_iff in Hd as (i & <- & _). cbn [DistId.id]. lia.
  - exists (DistId.mk (-1) (Z.of_nat n + 1)%Z). split; [|done]. rewrite lookup_app_r, Hl, Nat.sub_diag by lia. done.
Defined.

(** Squared distances below 30, not closer than 3. *)
Definition sample_params (retain : bool) : RangeParams Z := mkRangeParams 3%Z true 30%Z false 2%Z retain 0%Z.

Lemma range_search_returns_range_witness : exists outs r,
  Forall2 (fun l out => out ≡ₚ l /\ closest_first false out) [[DistId.mk 4 9; DistId.mk 5 2; DistId.mk 6 5]%Z; []] outs /\
  range_search (sample_params false) 2 (inr (map (fun l => Precomputed.make (Ret l) false) [[DistId.mk 4 9; DistId.mk 5 2; DistId.mk 6 5]%Z; []])) = Ret (inr r) /\
  rr_lims r = totals 0 (map length (map (fun out => hits (sample_params false) (map as_pair out)) outs)).
Proof.
  destruct (range_search_returns_range (sample_params false) 2 [[DistId.mk 4 9; DistId.mk 5 2; DistId.mk 6 5]%Z; []])
    as (outs & r & H1 & H2 & H3 & _); [|done|intros n; cbn; lia|done|].
  { repeat constructor; discriminate. }
  exists outs, r. by split_and!.
Defined.

(** A source that delivers everything at once; exact distances are 7 times the id. *)
#[export] Instance at_once : Source (list (dist_id Z)) Z := {|
  next_batch l := Ret ([], [l]); raw_distance _ id := Ret (7 * id)%Z; pending := length
|}.
#[export] Instance at_once_laws : SourceLaws (list (dist_id Z)) Z.
Proof.
  exists (fun l => l) (fun id => (7 * id)%Z); [intros s; by apply Forall_forall| |done|done].
  intros s. exists [], [s]. cbn [concat]. rewrite !app_nil_r. done.
Defined.

Lemma index_iterator_contract_witness : exists out,
  yields out (IndexIterator.make false 0%Z true [DistId.mk 4 9; DistId.mk 5 2]%Z) /\ map fst out ⊆+ [4; 5]%Z /\ pairs_in_order false out.
Proof.
  destruct (index_iterator_contract false 0%Z true [DistId.mk 4 9; DistId.mk 5 2]%Z) as (out & H1 & _ & _ & H2); [intros n; cbn; lia|].
  exists out. split; [exact H1|]. by apply H2.
Defined.

Lemma unrefined_results_remain_witness : exists refined rest, many 21 ≡ₚ refined ++ rest /\ length refined = 20 /\
  yields (map (fun d => (did d, 7 * did d)%Z) refined ++ map as_pair rest) (IndexIterator.make false 1%Z false (many 21)).
Proof.
  pose proof (unrefined_results_remain false 1%Z (many 21) [] (many 21)) as H. cbn [raw at_once_laws] in H.
  apply H; [intros n; cbn; lia|intros n Hn; cbn in *; lia|done|done|done|cbn; lia].
Defined.
