(* ===== verification/SparseNode.v ===== *)
(** * The concurrent sparse index node (src/index/sparse/sparse_index_node.cc)

    [SparseInvertedIndexNodeCC] orders its operations by tickets.  [Add] and
    every read operation ([ReadPermission]) draw a ticket under the mutex; an
    add runs when all earlier tasks have finished, a read when all earlier adds
    have.  Every critical section is one step; [wait] puts a task to sleep until
    it is notified and evaluates its predicate again.  The body of [Add] runs
    under the mutex and is part of its step. *)

From S2P Require Import Prelude.

Section protocol.
Context {B : Type}.                (* the rows of one [Add] *)

(** A task by its ticket.  [outer] is the ticket of a permission that the same
    thread already holds: [RangeSearch] holds one while it calls the virtual
    [AnnIterator], which asks for another. *)
Inductive task :=
  | WaitAdd (awake : bool) (rows : B)
  | WaitRead (awake : bool) (outer : option nat)
  | Reading (outer : option nat).

Record NodeCC := mkNode {
  active_readers_ : nat;
  add_tasks_ : list nat;
  next_task_id_ : nat;
  current_task_id_ : nat;
  tasks : gmap nat task;
  requested : list (nat * B);      (* every [Add] so far, with its ticket *)
  added : list (nat * B)           (* those that have run *)
}.
Implicit Types (s : NodeCC) (id : nat).

Definition new_node : NodeCC := mkNode 0 [] 0 0 ∅ [] [].

Definition with_tasks s (ts : gmap nat task) : NodeCC :=
  mkNode (active_readers_ s) (add_tasks_ s) (next_task_id_ s) (current_task_id_ s) ts (requested s) (added s).

(** [cv_.notify_all()]. *)
Definition wake (t : task) : task :=
  match t with
  | WaitAdd _ rows => WaitAdd true rows
  | WaitRead _ outer => WaitRead true outer
  | Reading outer => Reading outer
  end.
Definition notify_all s : NodeCC := with_tasks s (wake <$> tasks s).

(** ** Add *)

Definition may_add s id : bool := (current_task_id_ s =? id) && (active_readers_ s =? 0).

(** The body of [Add] from the end of [wait] on. *)
Definition run_add s id (rows : B) : NodeCC :=
  notify_all (mkNode (active_readers_ s) (tail (add_tasks_ s)) (next_task_id_ s) (current_task_id_ s + 1)
                (delete id (tasks s)) (requested s) (added s ++ [(id, rows)])).

Definition try_add s id (rows : B) : NodeCC :=
  if may_add s id then run_add s id rows else with_tasks s (<[id := WaitAdd false rows]> (tasks s)).

Definition Add s (rows : B) : NodeCC :=
  let id := next_task_id_ s in
  try_add (mkNode (active_readers_ s) (add_tasks_ s ++ [id]) (next_task_id_ s + 1) (current_task_id_ s) (tasks s)
             (requested s ++ [(id, rows)]) (added s)) id rows.

(** ** ReadPermission *)

Definition may_read s id : bool := match add_tasks_ s with [] => true | f :: _ => id <? f end.

Definition try_read s id (outer : option nat) : NodeCC :=
  if may_read s id then
    mkNode (active_readers_ s + 1) (add_tasks_ s) (next_task_id_ s) (current_task_id_ s) (<[id := Reading outer]> (tasks s))
      (requested s) (added s)
  else with_tasks s (<[id := WaitRead false outer]> (tasks s)).

(** The constructor: [wait] only when there is an add with a smaller ticket. *)
Definition ReadPermission s (outer : option nat) : NodeCC :=
  let id := next_task_id_ s in
  try_read (mkNode (active_readers_ s) (add_tasks_ s) (next_task_id_ s + 1) (current_task_id_ s) (tasks s) (requested s) (added s)) id outer.

(** The destructor. *)
Definition end_read s id : NodeCC :=
  notify_all (mkNode (active_readers_ s - 1) (add_tasks_ s) (next_task_id_ s) (current_task_id_ s + 1) (delete id (tasks s))
                (requested s) (added s)).

Definition outer_of (t : task) : option nat :=
  match t with WaitAdd _ _ => None | WaitRead _ outer => outer | Reading outer => outer end.

(** The steps of the tasks that exist.  A thread gives a permission back only
    when the one it asked for in between is gone. *)
Inductive task_step s : NodeCC -> Prop :=
  | step_wake_add id rows : tasks s !! id = Some (WaitAdd true rows) -> task_step s (try_add s id rows)
  | step_wake_read id outer : tasks s !! id = Some (WaitRead true outer) -> task_step s (try_read s id outer)
  | step_end_read id outer : tasks s !! id = Some (Reading outer) ->
      (forall id' t, tasks s !! id' = Some t -> outer_of t <> Some id) -> task_step s (end_read s id).

(** All steps; [nested] says whether a permission may be asked for while one is
    held, as [RangeSearch] does. *)
Inductive step (nested : bool) s : NodeCC -> Prop :=
  | step_task s' : task_step s s' -> step nested s s'
  | step_add rows : step nested s (Add s rows)
  | step_read : step nested s (ReadPermission s None)
  | step_nested id outer : nested = true -> tasks s !! id = Some (Reading outer) ->
      (forall id' t, tasks s !! id' = Some t -> outer_of t <> Some id) -> step nested s (ReadPermission s (Some id))
  | step_spurious id t : tasks s !! id = Some t -> step nested s (with_tasks s (<[id := wake t]> (tasks s))).

Inductive reachable (nested : bool) : NodeCC -> Prop :=
  | reach_new : reachable nested new_node
  | reach_step s s' : reachable nested s -> step nested s s' -> reachable nested s'.

(** ** The invariant *)

(** A ticket that is reading, and one whose task has finished. *)
Definition reading s id : bool := match tasks s !! id with Some (Reading _) => true | _ => false end.
Definition gone s id : bool := match tasks s !! id with None => true | _ => false end.

Definition count (f : nat -> bool) (n : nat) : nat := length (List.filter f (seq 0 n)).

Record core s : Prop := {
  iv_drawn : forall id t, tasks s !! id = Some t -> id < next_task_id_ s;
  iv_adds : forall id, id ∈ add_tasks_ s <-> exists awake rows, tasks s !! id = Some (WaitAdd awake rows);
  iv_sorted : StronglySorted Nat.lt (add_tasks_ s);
  iv_active : active_readers_ s = count (reading s) (next_task_id_ s);
  iv_current : current_task_id_ s = count (gone s) (next_task_id_ s);
  iv_before : forall f rest id, add_tasks_ s = f :: rest -> id < next_task_id_ s -> reading s id = true \/ gone s id = true -> id < f;
  iv_log : forall a rows, (a, rows) ∈ added s -> a < next_task_id_ s /\ gone s a = true;
  iv_log_sorted : StronglySorted Nat.lt (added s).*1;
  iv_done : forall a rows j, (a, rows) ∈ added s -> j < a -> gone s j = true;
  iv_requested : exists waiting, requested s = added s ++ waiting /\ waiting.*1 = add_tasks_ s /\
    forall a rows, (a, rows) ∈ waiting -> exists w, tasks s !! a = Some (WaitAdd w rows)
}.

(** Nobody sleeps who could go on. *)
Definition asleep_ok s : Prop :=
  (forall id rows, tasks s !! id = Some (WaitAdd false rows) -> may_add s id = false) /\
  (forall id outer, tasks s !! id = Some (WaitRead false outer) -> may_read s id = false).

Definition inv s : Prop := core s /\ asleep_ok s.

(** ** Counting *)

Lemma count_S f n : count f (S n) = count f n + (if f n then 1 else 0).
Proof. unfold count. rewrite seq_S, List.filter_app, length_app. cbn [List.filter Nat.add]. by destruct (f n). Qed.

Lemma count_ext f g n : (forall id, id < n -> f id = g id) -> count f n = count g n.
Proof. induction n as [|n IH]; intros H; [done|]. rewrite !count_S, (H n), IH by (intros; apply H || lia; lia) || lia. done. Qed.

Lemma count_flip f g n id : id < n -> f id = false -> g id = true -> (forall j, j <> id -> f j = g j) -> count g n = S (count f n).
Proof.
  intros Hid Hf Hg Hne. induction n as [|n IH]; [lia|]. rewrite !count_S. destruct (decide (id = n)) as [->|Hn].
  - rewrite Hf, Hg, (count_ext f g n); [lia|]. intros j Hj. apply Hne. lia.
  - rewrite IH, (Hne n) by lia. lia.
Qed.

Lemma count_le f n : count f n <= n.
Proof. induction n as [|n IH]; [done|]. rewrite count_S. destruct (f n); lia. Qed.

(** Only numbers below [m] are counted. *)
Lemma count_below f n m : m <= n -> (forall id, id < n -> f id = true -> id < m) -> count f n = count f m.
Proof.
  intros Hm H. induction n as [|n IH]; [by replace m with 0 by lia|]. destruct (decide (m = S n)) as [->|]; [done|]. rewrite count_S.
  destruct (f n) eqn:E; [specialize (H n ltac:(lia) E); lia|]. rewrite IH; [lia|lia|]. intros id Hid. apply H. lia.
Qed.

Lemma count_full f n : count f n = n -> forall id, id < n -> f id = true.
Proof.
  induction n as [|n IH]; intros H id Hid; [lia|]. rewrite count_S in H. pose proof (count_le f n). destruct (f n) eqn:E; [|lia].
  destruct (decide (id = n)) as [->|]; [done|]. apply IH; lia.
Qed.

Lemma count_none f n : count f n = 0 -> forall id, id < n -> f id = false.
Proof.
  induction n as [|n IH]; intros H id Hid; [lia|]. rewrite count_S in H. destruct (f n) eqn:E; [lia|].
  destruct (decide (id = n)) as [->|]; [done|]. apply IH; lia.
Qed.

(** ** Every step keeps it *)

Lemma inv_new : inv new_node.
Proof.
  split; [|by split]. split; cbn [new_node tasks add_tasks_ next_task_id_ active_readers_ current_task_id_ requested added]; try done; try apply SSorted_nil.
  - intros id. split; [intros H; by apply elem_of_nil in H|]. intros (? & ? & H). by rewrite lookup_empty in H.
  - intros a rows H. by apply elem_of_nil in H.
  - exists []. split_and!; [done|done|]. intros a rows H. by apply elem_of_nil in H.
Qed.

(** Waking tasks or putting them to sleep changes nothing else. *)
Definition same_task (t t' : task) : Prop := wake t = wake t'.

Lemma core_same s ts : core s -> (forall id, ts !! id = tasks s !! id \/ exists t t', tasks s !! id = Some t /\ ts !! id = Some t' /\ same_task t t') ->
  core (with_tasks s ts).
Proof.
  intros [] H.
  assert (forall id, reading (with_tasks s ts) id = reading s id) as Er.
  { intros id. unfold reading. cbn [with_tasks tasks]. destruct (H id) as [->|(t & t' & -> & -> & Hst)]; [done|]. by destruct t, t'. }
  assert (forall id, gone (with_tasks s ts) id = gone s id) as Eg.
  { intros id. unfold gone. cbn [with_tasks tasks]. by destruct (H id) as [->|(t & t' & -> & -> & Hst)]. }
  split; cbn [with_tasks tasks add_tasks_ next_task_id_ active_readers_ current_task_id_ requested added] in *.
  - intros id t Ht. destruct (H id) as [E|(t0 & t1 & E & _)]; [rewrite E in Ht|]; by eapply iv_drawn0.
  - intros id. rewrite iv_adds0. destruct (H id) as [->|(t0 & t1 & -> & -> & Hst)]; [done|]. split; intros (w & rows & [= ->]).
    + destruct t1; try done. by eexists _, _.
    + destruct t0; try done. by eexists _, _.
  - done.
  - rewrite iv_active0. apply count_ext. intros id _. by rewrite Er.
  - rewrite iv_current0. apply count_ext. intros id _. by rewrite Eg.
  - intros f rest id. rewrite Er, Eg. by apply iv_before0.
  - intros a rows Ha. rewrite Eg. by eapply iv_log0.
  - done.
  - intros a rows j. rewrite Eg. apply iv_done0.
  - destruct iv_requested0 as (wt & E1 & E2 & E3). exists wt. split_and!; [done|done|]. intros a rows Hin. destruct (E3 a rows Hin) as [w Hw].
    destruct (H a) as [->|(t & t' & E & -> & Hst)]; [by exists w|]. rewrite Hw in E. injection E as <-. destruct t'; try done. injection Hst as ->. by eexists.
Qed.

Lemma wake_awake t rows outer : wake t <> WaitAdd false rows /\ wake t <> WaitRead false outer.
Proof. by destruct t. Qed.

Lemma inv_notify s : core s -> inv (notify_all s).
Proof.
  intros Hs. split.
  - apply core_same; [done|]. intros id. rewrite lookup_fmap. destruct (tasks s !! id) as [t|]; [right; exists t, (wake t)|by left].
    split; [done|]. split; [done|]. by destruct t.
  - split; intros id x; cbn [notify_all with_tasks tasks]; rewrite lookup_fmap; destruct (tasks s !! id) as [[]|]; done.
Qed.

(** Going (back) to sleep. *)
Lemma inv_sleep s id t t' : inv s -> tasks s !! id = Some t -> same_task t t' ->
  (forall rows, t' = WaitAdd false rows -> may_add s id = false) -> (forall outer, t' = WaitRead false outer -> may_read s id = false) ->
  inv (with_tasks s (<[id := t']> (tasks s))).
Proof.
  intros [Hc [Ha Hr]] Ht Hst H1 H2. split; [|split].
  - apply core_same; [done|]. intros j. destruct (decide (j = id)) as [->|Hne]; [right; exists t, t'; by rewrite lookup_insert_eq|left; by rewrite lookup_insert_ne].
  - intros j rows. cbn [with_tasks tasks]. destruct (decide (j = id)) as [->|Hne]; [rewrite lookup_insert_eq; intros [= ->]; by apply (H1 rows)|].
    rewrite lookup_insert_ne by done. apply Ha.
  - intros j outer. cbn [with_tasks tasks]. destruct (decide (j = id)) as [->|Hne]; [rewrite lookup_insert_eq; intros [= ->]; by apply (H2 outer)|].
    rewrite lookup_insert_ne by done. apply Hr.
Qed.

(** Drawing a ticket, before the predicate is looked at. *)
Definition drawn s (t : task) (adds : list nat) : NodeCC :=
  mkNode (active_readers_ s) adds (next_task_id_ s + 1) (current_task_id_ s) (<[next_task_id_ s := t]> (tasks s))
    (match t with WaitAdd _ rows => requested s ++ [(next_task_id_ s, rows)] | _ => requested s end) (added s).

Lemma Add_drawn s rows : Add s rows = try_add (drawn s (WaitAdd true rows) (add_tasks_ s ++ [next_task_id_ s])) (next_task_id_ s) rows.
Proof.
  unfold Add, try_add, may_add, run_add, with_tasks, drawn. cbn [tasks add_tasks_ next_task_id_ active_readers_ current_task_id_ requested added].
  by rewrite delete_insert_eq, insert_insert_eq.
Qed.

Lemma Read_drawn s outer : ReadPermission s outer = try_read (drawn s (WaitRead true outer) (add_tasks_ s)) (next_task_id_ s) outer.
Proof.
  unfold ReadPermission, try_read, may_read, with_tasks, drawn. cbn [tasks add_tasks_ next_task_id_ active_readers_ current_task_id_ requested added].
  by rewrite !insert_insert_eq.
Qed.

Lemma drawn_lookup s t adds id : tasks (drawn s t adds) !! id = if decide (id = next_task_id_ s) then Some t else tasks s !! id.
Proof. cbn [drawn tasks]. destruct (decide (id = next_task_id_ s)) as [->|Hne]; [by rewrite lookup_insert_eq|by rewrite lookup_insert_ne]. Qed.

Lemma inv_drawn s t adds : inv s -> (forall outer, t <> Reading outer) -> (forall rows, t <> WaitAdd false rows) -> (forall outer, t <> WaitRead false outer) ->
  adds = match t with WaitAdd _ _ => add_tasks_ s ++ [next_task_id_ s] | _ => add_tasks_ s end -> inv (drawn s t adds).
Proof.
  intros [Hs [Ha Hr]] H1 H2 H3 ->. pose proof Hs as [].
  assert (forall id, reading (drawn s t (match t with WaitAdd _ _ => add_tasks_ s ++ [next_task_id_ s] | _ => add_tasks_ s end)) id =
    if decide (id = next_task_id_ s) then false else reading s id) as Er.
  { intros id. unfold reading. rewrite drawn_lookup. case_decide; [|done]. destruct t; try done. by destruct (H1 outer). }
  assert (forall id, gone (drawn s t (match t with WaitAdd _ _ => add_tasks_ s ++ [next_task_id_ s] | _ => add_tasks_ s end)) id =
    if decide (id = next_task_id_ s) then false else gone s id) as Eg by (intros id; unfold gone; rewrite drawn_lookup; by case_decide).
  assert (tasks s !! next_task_id_ s = None) as Hfresh.
  { destruct (tasks s !! next_task_id_ s) as [t0|] eqn:E; [|done]. specialize (iv_drawn0 _ _ E). lia. }
  split; [split|split]; cbn [drawn add_tasks_ next_task_id_ active_readers_ current_task_id_ requested added].
  - intros id t0. rewrite drawn_lookup. case_decide; [lia|]. intros Hx. specialize (iv_drawn0 _ _ Hx). lia.
  - intros id. rewrite drawn_lookup. destruct t as [w r|w o|o].
    + rewrite elem_of_app, list_elem_of_singleton, iv_adds0. case_decide as Hid; [subst|]; split; try by (intros _; eexists _, _).
      * intros _. by right.
      * intros [?|?]; [done|congruence].
      * intros ?. by left.
    + rewrite iv_adds0. case_decide as Hid; [|done]. subst. rewrite Hfresh. split; intros (? & ? & [=]).
    + by destruct (H1 o).
  - destruct t; [|done..]. apply StronglySorted_app. split_and!; [|done|by repeat constructor].
    intros a b Hin ->%list_elem_of_singleton. apply iv_adds0 in Hin as (? & ? & Hin). by apply iv_drawn0 in Hin.
  - rewrite Nat.add_1_r, count_S, Er. rewrite decide_True by done. rewrite Nat.add_0_r, iv_active0. apply count_ext. intros id Hid. rewrite Er. by rewrite decide_False by lia.
  - rewrite Nat.add_1_r, count_S, Eg. rewrite decide_True by done. rewrite Nat.add_0_r, iv_current0. apply count_ext. intros id Hid. rewrite Eg. by rewrite decide_False by lia.
  - intros f rest id Hf Hid. rewrite Er, Eg. case_decide as Hd; [by intros [?|?]|]. intros Hor. destruct t as [w r|w o|o]; [|by eapply iv_before0; eauto; lia..].
    destruct (add_tasks_ s) as [|f0 rest0] eqn:E; cbn [app] in Hf; injection Hf as <- <-; [lia|]. eapply iv_before0; [done|lia|done].
  - intros a rows Hin. apply iv_log0 in Hin as [Hlt Hg]. rewrite Eg. split; [lia|]. by rewrite decide_False by lia.
  - done.
  - intros a rows j Hin Hj. destruct (iv_log0 a rows Hin) as [Hlt _]. rewrite Eg, decide_False by lia. by apply (iv_done0 a rows).
  - destruct iv_requested0 as (wt & E1 & E2 & E3).
    assert (forall a rows, (a, rows) ∈ wt -> exists w, tasks (drawn s t (add_tasks_ s)) !! a = Some (WaitAdd w rows)) as E4.
    { intros a rows Hin. destruct (E3 a rows Hin) as [w Hw]. pose proof (iv_drawn0 _ _ Hw). exists w. by rewrite drawn_lookup, decide_False by lia. }
    destruct t as [w r|w o|o]; [|by exists wt..]. exists (wt ++ [(next_task_id_ s, r)]). rewrite E1, fmap_app, E2. split_and!; [by rewrite app_assoc|done|].
    intros a rows [Hin|[= -> ->]%list_elem_of_singleton]%elem_of_app; [by apply E4|]. exists w. apply lookup_insert_eq.
  - intros id rows. rewrite drawn_lookup. case_decide; [intros [= ->]; by destruct (H2 rows)|]. intros Hx. unfold may_add. cbn. by apply (Ha _ rows).
  - intros id outer. rewrite drawn_lookup. case_decide; [intros [= ->]; by destruct (H3 outer)|]. intros Hx. specialize (Hr _ _ Hx). unfold may_read in *. cbn.
    destruct t; [|done..]. by destruct (add_tasks_ s).
Qed.

(** When an add may run, it is the first one, and all earlier tasks have finished. *)
Lemma may_add_first s id awake rows : core s -> tasks s !! id = Some (WaitAdd awake rows) -> may_add s id = true ->
  (exists rest, add_tasks_ s = id :: rest) /\ (forall j, j < id -> gone s j = true) /\ (forall j, reading s j = false).
Proof.
  intros Hs Ht. pose proof Hs as []. unfold may_add. rewrite andb_true_iff, !Nat.eqb_eq. intros [Hc Ha].
  assert (id ∈ add_tasks_ s) as Hin by (apply iv_adds0; by eexists _, _). destruct (add_tasks_ s) as [|f rest] eqn:E; [by apply elem_of_nil in Hin|].
  assert (f <= id) as Hf. { apply elem_of_cons in Hin as [->|Hin]; [done|]. apply StronglySorted_inv in iv_sorted0 as [_ Hlt]. rewrite Forall_forall in Hlt. specialize (Hlt _ Hin). lia. }
  pose proof (iv_drawn0 _ _ Ht) as Hid. assert (count (gone s) (next_task_id_ s) = count (gone s) f) as Ec.
  { apply count_below; [lia|]. intros j Hj Hg. by apply (iv_before0 f rest j); [|lia|right]. }
  pose proof (count_le (gone s) f). assert (f = id) as -> by lia. split; [by exists rest|]. split; [apply count_full; lia|].
  intros j. destruct (reading s j) eqn:Er; [|done]. assert (j < next_task_id_ s) as Hj by (unfold reading in Er; destruct (tasks s !! j) eqn:Ej; [by apply iv_drawn0 in Ej|done]).
  rewrite (count_none (reading s) (next_task_id_ s)) in Er by lia. done.
Qed.

Lemma inv_try_add s id rows : inv s -> tasks s !! id = Some (WaitAdd true rows) -> inv (try_add s id rows).
Proof.
  intros Hs Ht. unfold try_add. destruct (may_add s id) eqn:Em.
  - destruct (may_add_first s id true rows (proj1 Hs) Ht Em) as ((rest & Ef) & Hgone & Hread). pose proof (proj1 Hs) as [].
    unfold run_add. rewrite Ef. cbn [tail]. apply inv_notify. set (s1 := mkNode _ _ _ _ _ _ _).
    assert (forall j, reading s1 j = false) as Er.
    { intros j. unfold reading, s1. cbn [tasks]. destruct (decide (j = id)) as [->|Hne]; [by rewrite lookup_delete_eq|]. rewrite lookup_delete_ne by done. apply Hread. }
    assert (forall j, gone s1 j = if decide (j = id) then true else gone s j) as Eg.
    { intros j. unfold gone, s1. cbn [tasks]. case_decide as Hd; [subst; by rewrite lookup_delete_eq|]. by rewrite lookup_delete_ne by done. }
    assert (gone s id = false) as Hgi by (unfold gone; by rewrite Ht). pose proof (iv_drawn0 _ _ Ht) as Hid.
    rewrite Ef in *. split; unfold s1; cbn [tail add_tasks_ next_task_id_ active_readers_ current_task_id_ requested added tasks].
    + intros j t. rewrite lookup_delete_Some. intros [_ H]. by eapply iv_drawn0.
    + intros j. apply StronglySorted_inv in iv_sorted0 as [_ Hlt]. rewrite Forall_forall in Hlt. split.
      * intros Hj. specialize (Hlt _ Hj). rewrite lookup_delete_ne by lia. apply iv_adds0. by right.
      * intros (w & r & [Hne Hj]%lookup_delete_Some). assert (j ∈ id :: rest) as Hin by (apply iv_adds0; by eexists _, _).
        apply elem_of_cons in Hin as [->|?]; done.
    + by apply StronglySorted_inv in iv_sorted0 as [? _].
    + fold s1. etrans; [exact iv_active0|]. apply count_ext. intros j _. by rewrite Er, Hread.
    + fold s1. rewrite (count_flip (gone s) (gone s1) _ id); [lia|done|done|rewrite Eg; by rewrite decide_True|]. intros j Hj. rewrite Eg. by rewrite decide_False.
    + fold s1. intros f r j -> Hj. rewrite Er, Eg. intros [?|Hg]; [done|]. apply StronglySorted_inv in iv_sorted0 as [_ Hlt]. apply Forall_cons_1 in Hlt as [Hlt _].
      case_decide; [subst; lia|]. specialize (iv_before0 id (f :: r) j eq_refl Hj (or_intror Hg)). lia.
    + fold s1. intros a r [Ha|[= -> ->]%list_elem_of_singleton]%elem_of_app; rewrite Eg; [|by rewrite decide_True]. apply iv_log0 in Ha as [? ?]. split; [done|]. by case_decide.
    + rewrite fmap_app. apply StronglySorted_app. split_and!; [|done|by repeat constructor].
      intros a b ([a' r] & -> & Ha)%list_elem_of_fmap ->%list_elem_of_singleton. cbn [fst]. apply iv_log0 in Ha as [Ha Hg]. by apply (iv_before0 id rest a'); [|lia|right].
    + fold s1. intros a r j [Hin|[= -> ->]%list_elem_of_singleton]%elem_of_app Hj; rewrite Eg; case_decide; [done| |done|by apply Hgone]. by apply (iv_done0 a r).
    + destruct iv_requested0 as (wt & E1 & E2 & E3). destruct wt as [|[i0 r0] wt]; [done|]. injection E2 as -> E2.
      destruct (E3 id r0) as [w Hw]; [by left|]. rewrite Ht in Hw. injection Hw as <- <-. exists wt. split_and!; [by rewrite E1, <- app_assoc|done|].
      intros a r Hin. apply StronglySorted_inv in iv_sorted0 as [_ Hlt]. rewrite Forall_forall in Hlt.
      assert (id < a) by (apply Hlt; rewrite <- E2; apply list_elem_of_fmap; by exists (a, r)).
      destruct (E3 a r) as [w Hw]; [by right|]. exists w. by rewrite lookup_delete_ne by lia.
  - eapply inv_sleep; [done|exact Ht|done|done|done].
Qed.

Lemma ticket_try_read s id outer : inv s -> tasks s !! id = Some (WaitRead true outer) -> inv (try_read s id outer).
Proof.
  intros Hs Ht. unfold try_read. destruct (may_read s id) eqn:Em; [|by eapply inv_sleep; [done|exact Ht|done..]].
  destruct Hs as [Hc [Ha Hr]]. pose proof Hc as []. set (s1 := mkNode _ _ _ _ _ _ _). pose proof (iv_drawn0 _ _ Ht) as Hid.
  assert (forall j, reading s1 j = if decide (j = id) then true else reading s j) as Er.
  { intros j. unfold reading, s1. cbn [tasks]. case_decide as Hd; [subst; by rewrite lookup_insert_eq|]. by rewrite lookup_insert_ne by done. }
  assert (forall j, gone s1 j = gone s j) as Eg.
  { intros j. unfold gone, s1. cbn [tasks]. destruct (decide (j = id)) as [->|Hne]; [by rewrite lookup_insert_eq, Ht|]. by rewrite lookup_insert_ne by done. }
  assert (gone s id = false /\ reading s id = false) as [Hgi Hri] by (unfold gone, reading; by rewrite Ht).
  split; [split|split]; unfold s1; cbn [add_tasks_ next_task_id_ active_readers_ current_task_id_ requested added tasks].
  - intros j t. destruct (decide (j = id)) as [->|Hne]; [by rewrite lookup_insert_eq|]. rewrite lookup_insert_ne by done. apply iv_drawn0.
  - intros j. rewrite iv_adds0. destruct (decide (j = id)) as [->|Hne]; [|by rewrite lookup_insert_ne by done].
    rewrite lookup_insert_eq, Ht. split; intros (? & ? & [=]).
  - done.
  - fold s1. rewrite (count_flip (reading s) (reading s1) _ id); [lia|done|done|rewrite Er; by rewrite decide_True|].
    intros j Hj. rewrite Er. by rewrite decide_False.
  - fold s1. etrans; [exact iv_current0|]. apply count_ext. intros j _. by rewrite Eg.
  - fold s1. intros f rest j Hf Hj. rewrite Er, Eg. case_decide as Hd; [|by eapply iv_before0]. intros _. subst j.
    unfold may_read in Em. rewrite Hf in Em. by apply Nat.ltb_lt in Em.
  - fold s1. intros a rows Hin. rewrite Eg. by eapply iv_log0.
  - done.
  - fold s1. intros a rows j. rewrite Eg. apply iv_done0.
  - destruct iv_requested0 as (wt & E1 & E2 & E3). exists wt. split_and!; [done|done|]. intros a rows Hin. destruct (E3 a rows Hin) as [w Hw]. exists w.
    rewrite lookup_insert_ne; [done|]. intros ->. congruence.
  - intros j rows. destruct (decide (j = id)) as [->|Hne]; [by rewrite lookup_insert_eq|]. rewrite lookup_insert_ne by done. intros Hj.
    unfold may_add. cbn [active_readers_ current_task_id_]. rewrite Nat.add_1_r. apply andb_false_r.
  - intros j o. destruct (decide (j = id)) as [->|Hne]; [by rewrite lookup_insert_eq|]. rewrite lookup_insert_ne by done. apply Hr.
Qed.

Lemma inv_end_read s id outer : inv s -> tasks s !! id = Some (Reading outer) -> inv (end_read s id).
Proof.
  intros [Hc _] Ht. pose proof Hc as []. unfold end_read. apply inv_notify. set (s1 := mkNode _ _ _ _ _ _ _). pose proof (iv_drawn0 _ _ Ht) as Hid.
  assert (forall j, reading s1 j = if decide (j = id) then false else reading s j) as Er.
  { intros j. unfold reading, s1. cbn [tasks]. case_decide as Hd; [subst; by rewrite lookup_delete_eq|]. by rewrite lookup_delete_ne by done. }
  assert (forall j, gone s1 j = if decide (j = id) then true else gone s j) as Eg.
  { intros j. unfold gone, s1. cbn [tasks]. case_decide as Hd; [subst; by rewrite lookup_delete_eq|]. by rewrite lookup_delete_ne by done. }
  assert (gone s id = false /\ reading s id = true) as [Hgi Hri] by (unfold gone, reading; by rewrite Ht).
  split; unfold s1; cbn [add_tasks_ next_task_id_ active_readers_ current_task_id_ requested added tasks].
  - intros j t [_ Hj]%lookup_delete_Some. by eapply iv_drawn0.
  - intros j. rewrite iv_adds0. destruct (decide (j = id)) as [->|Hne]; [|by rewrite lookup_delete_ne by done].
    rewrite lookup_delete_eq, Ht. split; intros (? & ? & [=]).
  - done.
  - fold s1. rewrite iv_active0, (count_flip (reading s1) (reading s) _ id); [lia|done|rewrite Er; by rewrite decide_True|done|].
    intros j Hj. rewrite Er. by rewrite decide_False.
  - fold s1. rewrite (count_flip (gone s) (gone s1) _ id); [lia|done|done|rewrite Eg; by rewrite decide_True|]. intros j Hj. rewrite Eg. by rewrite decide_False.
  - fold s1. intros f rest j Hf Hj. rewrite Er, Eg. case_decide as Hd; [|by eapply iv_before0]. intros _. subst j. by eapply iv_before0; [done|done|left].
  - fold s1. intros a rows Hin. rewrite Eg. destruct (iv_log0 a rows Hin) as [? ?]. split; [done|]. by case_decide.
  - done.
  - fold s1. intros a rows j Hin Hj. rewrite Eg. case_decide; [done|]. by apply (iv_done0 a rows).
  - destruct iv_requested0 as (wt & E1 & E2 & E3). exists wt. split_and!; [done|done|]. intros a rows Hin. destruct (E3 a rows Hin) as [w Hw]. exists w.
    rewrite lookup_delete_ne; [done|]. intros ->. congruence.
Qed.

Lemma tickets_inv nested s : reachable nested s -> inv s.
Proof.
  induction 1 as [|s s' _ IH Hstep]; [apply inv_new|]. destruct Hstep as [s' Ht|rows| |id outer _ Ho _|id t Ht].
  - destruct Ht as [id rows H|id outer H|id outer H _]; [by apply inv_try_add|by apply ticket_try_read|by eapply inv_end_read].
  - rewrite Add_drawn. apply inv_try_add; [by apply inv_drawn|]. by rewrite drawn_lookup, decide_True.
  - rewrite Read_drawn. apply ticket_try_read; [by apply inv_drawn|]. by rewrite drawn_lookup, decide_True.
  - rewrite Read_drawn. apply ticket_try_read; [by apply inv_drawn|]. by rewrite drawn_lookup, decide_True.
  - apply (inv_sleep s id t); [done|done|by destruct t| |]; intros x Hx; by destruct t.
Qed.

(** While ticket [r] reads, what has been added is what was asked for before it. *)
Lemma reader_added s r : core s -> reading s r = true -> added s = filter (fun p => p.1 < r) (requested s).
Proof.
  intros Hc Hr. pose proof Hc as []. assert (exists o, tasks s !! r = Some (Reading o)) as [o Ht] by (unfold reading in Hr; destruct (tasks s !! r) as [[| |o]|]; try done; by exists o).
  pose proof (iv_drawn0 _ _ Ht) as Hlt. destruct iv_requested0 as (wt & E1 & E2 & E3). rewrite E1, filter_app.
  rewrite (filter_all (fun p => p.1 < r) (added s)), (filter_none (fun p => p.1 < r) wt); [by rewrite app_nil_r|..].
  + intros [a rows] Hin. cbn. assert (a ∈ add_tasks_ s) as Ha by (rewrite <- E2; apply list_elem_of_fmap; by exists (a, rows)).
    destruct (add_tasks_ s) as [|f rest] eqn:E; [by apply elem_of_nil in Ha|]. pose proof (iv_before0 f rest r eq_refl Hlt (or_introl Hr)).
    apply elem_of_cons in Ha as [->|Ha]; [lia|]. apply StronglySorted_inv in iv_sorted0 as [_ Hall]. rewrite Forall_forall in Hall. specialize (Hall _ Ha). lia.
  + intros [a rows] Hin. cbn. destruct (lt_eq_lt_dec a r) as [[?| ->]|Hgt]; [done| |].
    * destruct (iv_log0 r rows Hin) as [_ Hg]. unfold gone in Hg. by rewrite Ht in Hg.
    * pose proof (iv_done0 a rows r Hin Hgt) as Hg. unfold gone in Hg. by rewrite Ht in Hg.
Qed.

(** C13: in every reachable state, operations take effect in the order of their
    tickets: while a read with ticket [r] is running, what has been added is
    exactly what the [Add] calls with smaller tickets asked for, in their order;
    and when an add runs, it is the first in the queue, nobody is reading and
    all tasks with smaller tickets have finished. *)
Theorem operations_follow_tickets nested s : reachable nested s ->
  StronglySorted Nat.lt (added s).*1 /\
  (forall r, reading s r = true -> added s = filter (fun p => p.1 < r) (requested s)) /\
  (forall a awake rows, tasks s !! a = Some (WaitAdd awake rows) -> may_add s a = true ->
     head (add_tasks_ s) = Some a /\ (forall r, reading s r = false) /\ (forall j, j < a -> gone s j = true)).
Proof.
  intros Hs%tickets_inv. pose proof (proj1 Hs) as Hc. pose proof Hc as []. split; [done|]. split.
  - intros r Hr. by apply reader_added.
  - intros a w rows Ha Hm. destruct (may_add_first s a w rows Hc Ha Hm) as ((rest & ->) & Hg & Hr). done.
Qed.

(** ** Progress *)

(** Without nesting no task has an outer one. *)
Lemma flat_outer s : reachable false s -> forall id t, tasks s !! id = Some t -> outer_of t = None.
Proof.
  assert (forall t, outer_of (wake t) = outer_of t) as Hw by (by intros []).
  set (flat := fun ts : gmap nat task => forall id t, ts !! id = Some t -> outer_of t = None).
  assert (forall ts, flat ts -> flat (wake <$> ts)) as Hn.
  { intros ts H id t. rewrite lookup_fmap. destruct (ts !! id) as [t0|] eqn:E; [|done]. intros [= <-]. rewrite Hw. by apply (H id). }
  assert (forall ts id t, flat ts -> outer_of t = None -> flat (<[id := t]> ts)) as Hi.
  { intros ts id t H Ht j u [[<- <-]|[_ Hu]]%lookup_insert_Some; [done|]. by apply (H j). }
  assert (forall ts id, flat ts -> flat (delete id ts)) as Hd by (intros ts id H j u [_ Hu]%lookup_delete_Some; by apply (H j)).
  assert (forall s id rows, flat (tasks s) -> flat (tasks (try_add s id rows))) as Ha.
  { intros s0 id rows H. unfold try_add. destruct (may_add s0 id); cbn [run_add notify_all with_tasks tasks]; auto. }
  assert (forall s id, flat (tasks s) -> flat (tasks (try_read s id None))) as Hr.
  { intros s0 id H. unfold try_read. destruct (may_read s0 id); cbn [with_tasks tasks]; auto. }
  change (reachable false s -> flat (tasks s)). induction 1 as [|s s' _ IH Hstep]; [by intros id t|].
  destruct Hstep as [s' Ht|rows| |id outer Hf|id t Ht].
  - destruct Ht as [id rows H|id outer H|id outer H _]; [by apply Ha| |cbn [end_read notify_all with_tasks tasks]; auto].
    pose proof (IH id _ H) as Ho. cbn [outer_of] in Ho. subst outer. by apply Hr.
  - by apply Ha.
  - by apply Hr.
  - done.
  - cbn [with_tasks tasks]. apply Hi; [done|]. rewrite Hw. by apply (IH id).
Qed.

Lemma flat_progress s : reachable false s -> tasks s <> ∅ -> exists s', task_step s s'.
Proof.
  intros Hreach Hne. pose proof (flat_outer s Hreach) as Hflat. destruct (tickets_inv _ _ Hreach) as [Hc [Ha Hr]]. pose proof Hc as [].
  assert (forall id outer, tasks s !! id = Some (Reading outer) -> exists s', task_step s s') as Hread.
  { intros id outer Hid. eexists. eapply step_end_read; [exact Hid|]. intros j t Hj. by rewrite (Hflat j t Hj). }
  assert (forall id w rows, tasks s !! id = Some (WaitAdd w rows) -> exists s', task_step s s') as Hadd.
  { intros id w rows Hid. assert (id ∈ add_tasks_ s) as Hin by (apply iv_adds0; by eexists _, _).
    destruct (add_tasks_ s) as [|f rest] eqn:E; [by apply elem_of_nil in Hin|].
    assert (exists w rows, tasks s !! f = Some (WaitAdd w rows)) as ([|] & rf & Hf) by (apply iv_adds0; left); [by eexists; eapply step_wake_add|].
    destruct (decide (Forall (fun j => gone s j = true) (seq 0 f))) as [Hall|Hnot].
    - exfalso. specialize (Ha f rf Hf). unfold may_add in Ha. pose proof (iv_drawn0 _ _ Hf) as Hlt. rewrite Forall_seq in Hall.
      assert (count (gone s) (next_task_id_ s) = f) as Ecur.
      { rewrite (count_below _ _ f); [|lia|intros j Hj Hg; by eapply iv_before0; [done|done|right]].
        rewrite (count_ext _ (fun _ => true)) by (intros j Hj; apply Hall; lia). clear. induction f as [|f IH]; [done|]. rewrite count_S. lia. }
      destruct (Nat.eqb_spec (current_task_id_ s) f); [|lia]. destruct (Nat.eqb_spec (active_readers_ s) 0) as [|Hact]; [done|].
      rewrite iv_active0, (count_below _ _ f) in Hact; [|lia|intros j Hj Hg; by eapply iv_before0; [done|done|left]].
      apply Hact. rewrite (count_ext _ (fun _ => false)); [clear; induction f as [|f IH]; [done|]; rewrite count_S; lia|].
      intros j Hj. specialize (Hall j ltac:(lia)). unfold gone, reading in *. by destruct (tasks s !! j).
    - apply not_Forall_Exists in Hnot; [|apply _]. apply Exists_exists in Hnot as (j & Hj & Hg). apply elem_of_seq in Hj.
      cbn in Hg. unfold gone in Hg. destruct (tasks s !! j) as [[w' r'|w' o'|o']|] eqn:Ej; [| | |by destruct (Hg eq_refl)].
      + exfalso. assert (j ∈ f :: rest) as Hjin by (apply iv_adds0; by eexists _, _). apply elem_of_cons in Hjin as [?|Hjin]; [lia|].
        apply StronglySorted_inv in iv_sorted0 as [_ Hall]. rewrite Forall_forall in Hall. specialize (Hall _ Hjin). lia.
      + destruct w'; [by eexists; eapply step_wake_read|]. specialize (Hr j o' Ej). unfold may_read in Hr. rewrite E in Hr. apply Nat.ltb_ge in Hr. lia.
      + by eapply Hread. }
  apply map_choose in Hne as (id & t & Ht). destruct t as [w rows|w outer|outer]; [by eapply Hadd| |by eapply Hread].
  destruct w; [by eexists; eapply step_wake_read|]. specialize (Hr id outer Ht). unfold may_read in Hr.
  destruct (add_tasks_ s) as [|f rest] eqn:E; [done|]. assert (exists w rows, tasks s !! f = Some (WaitAdd w rows)) as (w & rows & Hf) by (apply iv_adds0; left).
  by eapply Hadd.
Qed.

(** What is left to do: the stages of the tasks, and how many are awake. *)
Definition stage (t : task) : nat := match t with WaitRead _ _ => 2 | _ => 1 end.
Definition awake (t : task) : nat := match t with WaitAdd true _ | WaitRead true _ => 1 | _ => 0 end.
Definition total (f : task -> nat) (ts : gmap nat task) : nat := sum_list_with (fun p => f p.2) (map_to_list ts).

Lemma total_delete f ts id t : ts !! id = Some t -> total f ts = f t + total f (delete id ts).
Proof.
  intros Ht. unfold total. pose proof (map_to_list_delete ts id t Ht) as Hp. change (f t + _) with (sum_list_with (fun p : nat * task => f p.2) ((id, t) :: map_to_list (delete id ts))).
  by rewrite Hp.
Qed.

Lemma total_insert f ts id t u : ts !! id = Some t -> total f (<[id := u]> ts) + f t = total f ts + f u.
Proof.
  intros Ht. rewrite (total_delete f ts id t Ht), (total_delete f (<[id := u]> ts) id u) by apply lookup_insert_eq.
  rewrite delete_insert_eq. lia.
Qed.

Lemma total_wake ts : total stage (wake <$> ts) = total stage ts.
Proof. unfold total. rewrite map_to_list_fmap. induction (map_to_list ts) as [|[j t] l IH]; [done|]. cbn. rewrite <- IH. by destruct t. Qed.

(** Every step of a task finishes it, lets it read, or puts it to sleep. *)
Lemma task_step_total s s' : task_step s s' ->
  total stage (tasks s') < total stage (tasks s) \/
  (total stage (tasks s') = total stage (tasks s) /\ total awake (tasks s') < total awake (tasks s)).
Proof.
  intros [id rows H|id outer H|id outer H _].
  - unfold try_add. destruct (may_add s id); cbn [run_add notify_all with_tasks tasks].
    + left. rewrite total_wake, (total_delete _ _ _ _ H). cbn. lia.
    + right. pose proof (total_insert stage _ _ _ (WaitAdd false rows) H). pose proof (total_insert awake _ _ _ (WaitAdd false rows) H). cbn in *. lia.
  - unfold try_read. destruct (may_read s id); cbn [with_tasks tasks].
    + left. pose proof (total_insert stage _ _ _ (Reading outer) H). cbn in *. lia.
    + right. pose proof (total_insert stage _ _ _ (WaitRead false outer) H). pose proof (total_insert awake _ _ _ (WaitRead false outer) H). cbn in *. lia.
  - left. cbn [end_read notify_all with_tasks tasks]. rewrite total_wake, (total_delete _ _ _ _ H). cbn. lia.
Qed.

Lemma task_step_acc n m s : total stage (tasks s) <= n -> total awake (tasks s) <= m -> Acc (fun s' s => task_step s s') s.
Proof.
  revert m s. induction n as [n IHn] using lt_wf_ind. intros m. induction m as [m IHm] using lt_wf_ind. intros s Hn Hm.
  constructor. intros s' [Hlt|[Heq Hlt]]%task_step_total.
  - by apply (IHn (total stage (tasks s')) ltac:(lia) (total awake (tasks s'))).
  - by apply (IHm (total awake (tasks s')) ltac:(lia)); [lia|].
Qed.

(** C15: as long as no thread asks for a second permission, every task finishes: the
    tasks of a reachable state cannot take steps forever, and as long as one of
    them is unfinished, one of them can take a step. *)
Theorem flat_tasks_finish s : reachable false s ->
  Acc (fun s' s => task_step s s') s /\ (tasks s <> ∅ -> exists s', task_step s s').
Proof.
  intros Hs. split; [by eapply task_step_acc|]. by apply flat_progress.
Qed.

(** ** Deadlock *)

Inductive steps (nested : bool) s : NodeCC -> Prop :=
  | steps_refl : steps nested s s
  | steps_step s' s'' : steps nested s s' -> step nested s' s'' -> steps nested s s''.

(** The thread of ticket [r] reads and waits for ticket [n], which is behind the
    first add [a], which waits for [r]. *)
Record blocked (r a n : nat) (log : list (nat * B)) s : Prop := {
  bl_read : exists o, tasks s !! r = Some (Reading o);
  bl_add : exists w rows, tasks s !! a = Some (WaitAdd w rows);
  bl_nested : exists w, tasks s !! n = Some (WaitRead w (Some r));
  bl_first : head (add_tasks_ s) = Some a;
  bl_behind : a < n;
  bl_log : added s = log
}.

Lemma reader_active s r o : inv s -> tasks s !! r = Some (Reading o) -> active_readers_ s <> 0.
Proof.
  intros [[] _] Hr H0. rewrite iv_active0 in H0. pose proof (count_none _ _ H0 r (iv_drawn0 _ _ Hr)) as H. unfold reading in H. by rewrite Hr in H.
Qed.

Lemma blocked_same r a n log s ts : blocked r a n log s ->
  (forall id t, id = r \/ id = a \/ id = n -> tasks s !! id = Some t -> exists t', ts !! id = Some t' /\ same_task t t') -> blocked r a n log (with_tasks s ts).
Proof.
  intros [[o Hr] (wa & rows & Ha) [wn Hn] Hf Hb Hl] H. split; cbn [with_tasks tasks add_tasks_ added]; try done.
  - destruct (H r _ (or_introl eq_refl) Hr) as ([] & -> & [=]). by eexists.
  - destruct (H a _ (or_intror (or_introl eq_refl)) Ha) as ([] & -> & [=]). by eexists _, _.
  - destruct (H n _ (or_intror (or_intror eq_refl)) Hn) as ([] & -> & [=]). subst. by eexists.
Qed.

Lemma blocked_insert r a n log s id t t' : blocked r a n log s -> (tasks s !! id = Some t -> same_task t t') -> tasks s !! id = Some t ->
  blocked r a n log (with_tasks s (<[id := t']> (tasks s))).
Proof.
  intros Hb Hst Ht. apply blocked_same; [done|]. intros j u _ Hu. destruct (decide (j = id)) as [->|Hne].
  - exists t'. rewrite lookup_insert_eq. split; [done|]. rewrite Ht in Hu. injection Hu as <-. by apply Hst.
  - exists u. by rewrite lookup_insert_ne.
Qed.

Lemma blocked_notify r a n log s : blocked r a n log s -> blocked r a n log (notify_all s).
Proof.
  intros Hb. apply blocked_same; [done|]. intros j u _ Hu. exists (wake u). rewrite lookup_fmap, Hu. split; [done|]. by destruct u.
Qed.

(** The task of another ticket may change in any way. *)
Lemma blocked_other r a n log s ts active cur nxt : blocked r a n log s ->
  (forall id, id = r \/ id = a \/ id = n -> ts !! id = tasks s !! id) ->
  blocked r a n log (mkNode active (add_tasks_ s) nxt cur ts (requested s) (added s)).
Proof.
  intros [[o Hr] (wa & rows & Ha) [wn Hn] Hf Hb Hl] H. split; cbn [tasks add_tasks_ added]; rewrite ?H by auto; eauto.
Qed.

Lemma blocked_try_add r a n log s id rows : inv s -> blocked r a n log s -> tasks s !! id = Some (WaitAdd true rows) -> blocked r a n log (try_add s id rows).
Proof.
  intros Hs Hb Ht. pose proof (bl_read _ _ _ _ _ Hb) as [o Hr]. pose proof (reader_active s r o Hs Hr) as Hact. unfold try_add, may_add.
  destruct (Nat.eqb_spec (active_readers_ s) 0); [done|]. rewrite andb_false_r. by eapply blocked_insert; [done| |exact Ht].
Qed.

Lemma blocked_try_read r a n log s id outer : blocked r a n log s -> tasks s !! id = Some (WaitRead true outer) -> blocked r a n log (try_read s id outer).
Proof.
  intros Hb Ht. unfold try_read. destruct (may_read s id) eqn:Em; [|by eapply blocked_insert; [done| |exact Ht]].
  pose proof Hb as [[o Hr] (wa & rows & Ha) [wn Hn] Hf Hlt Hl]. apply blocked_other; [done|].
  unfold may_read in Em. destruct (add_tasks_ s) as [|f rest]; [done|]. cbn [head] in Hf. injection Hf as ->. apply Nat.ltb_lt in Em.
  intros j Hj. rewrite lookup_insert_ne; [done|]. intros ->. destruct Hj as [->|[->| ->]]; [congruence|congruence|lia].
Qed.

Lemma blocked_end_read r a n log s id outer : blocked r a n log s -> tasks s !! id = Some (Reading outer) ->
  (forall id' t, tasks s !! id' = Some t -> outer_of t <> Some id) -> blocked r a n log (end_read s id).
Proof.
  intros Hb Ht Hout. unfold end_read. apply blocked_notify. pose proof Hb as [[o Hr] (wa & rows & Ha) [wn Hn] Hf Hlt Hl].
  apply blocked_other; [done|]. intros j Hj. rewrite lookup_delete_ne; [done|]. intros ->.
  destruct Hj as [->|[->| ->]]; [by apply (Hout _ _ Hn)|congruence|congruence].
Qed.

Lemma blocked_drawn r a n log s t adds : inv s -> blocked r a n log s -> head adds = head (add_tasks_ s) -> blocked r a n log (drawn s t adds).
Proof.
  intros [[] _] [[o Hr] (wa & rows & Ha) [wn Hn] Hf Hb Hl] Hadds. pose proof (iv_drawn0 _ _ Hr). pose proof (iv_drawn0 _ _ Ha). pose proof (iv_drawn0 _ _ Hn).
  split; rewrite ?drawn_lookup, ?decide_False by lia; cbn [drawn add_tasks_ added]; eauto. by rewrite Hadds.
Qed.

Lemma blocked_step r a n log s s' : inv s -> blocked r a n log s -> step true s s' -> blocked r a n log s'.
Proof.
  intros Hs Hb. pose proof (bl_first _ _ _ _ _ Hb) as Hf. destruct 1 as [s' Ht|rows| |id outer _ Ho _|id t Ht].
  - destruct Ht as [id rows H|id outer H|id outer H Hout]; [by apply blocked_try_add|by apply blocked_try_read|by eapply blocked_end_read].
  - rewrite Add_drawn. apply blocked_try_add; [by apply inv_drawn| |by rewrite drawn_lookup, decide_True]. apply blocked_drawn; [done|done|]. by destruct (add_tasks_ s).
  - rewrite Read_drawn. apply blocked_try_read; [|by rewrite drawn_lookup, decide_True]. by apply blocked_drawn.
  - rewrite Read_drawn. apply blocked_try_read; [|by rewrite drawn_lookup, decide_True]. by apply blocked_drawn.
  - eapply blocked_insert; [done| |exact Ht]. intros _. by destruct t.
Qed.

(** C16: asking for a second permission while an add is queued deadlocks the node, as
    a range search does whose iterator is created after the [Add] of another
    thread has queued up: whatever steps follow, the range search keeps its
    permission, its iterator keeps waiting, the first add keeps waiting, and
    nothing is ever added again. *)
Theorem nested_read_deadlocks s r o a s' : reachable true s ->
  tasks s !! r = Some (Reading o) -> (forall id t, tasks s !! id = Some t -> outer_of t <> Some r) -> head (add_tasks_ s) = Some a ->
  steps true (ReadPermission s (Some r)) s' ->
  (exists o', tasks s' !! r = Some (Reading o')) /\ (exists w, tasks s' !! next_task_id_ s = Some (WaitRead w (Some r))) /\
  (exists w rows, tasks s' !! a = Some (WaitAdd w rows)) /\ added s' = added s.
Proof.
  intros Hs Hr Hout Hf Hsteps. pose proof (tickets_inv _ _ Hs) as Hi. pose proof (proj1 Hi) as [].
  destruct (add_tasks_ s) as [|f rest] eqn:E; [done|]. cbn [head] in Hf. injection Hf as ->.
  assert (exists w rows, tasks s !! a = Some (WaitAdd w rows)) as (w & rows & Ha) by (apply iv_adds0; left).
  pose proof (iv_drawn0 _ _ Hr) as Hlr. pose proof (iv_drawn0 _ _ Ha) as Hla.
  assert (reachable true s' /\ blocked r a (next_task_id_ s) (added s) s') as [_ []]; [|by eauto].
  induction Hsteps as [|s' s'' _ [IHr IHb] Hstep]; [|split; [by eapply reach_step|eapply blocked_step; [by eapply tickets_inv|done|done]]].
  split; [by eapply reach_step; [|eapply step_nested]|]. unfold ReadPermission, try_read, may_read. cbn [add_tasks_]. rewrite E.
  destruct (Nat.ltb_spec (next_task_id_ s) a); [lia|]. split; cbn [with_tasks tasks add_tasks_ added]; try done.
  - exists o. by rewrite lookup_insert_ne by lia.
  - exists w, rows. by rewrite lookup_insert_ne by lia.
  - exists false. by rewrite lookup_insert_eq.
Qed.

End protocol.

Arguments NodeCC : clear implicits.
Arguments task : clear implicits.

(** ** Examples *)

(** Ticket 0 reads, ticket 1 adds, tickets 2 and 3 read behind it. *)
Definition busy : NodeCC nat := ReadPermission (ReadPermission (Add (ReadPermission new_node None) 7) None) None.
(** Ticket 0 has finished, the add of ticket 1 has run and ticket 2 reads. *)
Definition added_one : NodeCC nat := try_read (try_add (end_read busy 0) 1 7) 2 None.

Lemma busy_reachable nested : reachable nested busy.
Proof. do 3 (eapply reach_step; [|by constructor]). eapply reach_step; [apply reach_new|]. by apply step_read. Qed.

Lemma added_one_reachable nested : reachable nested added_one.
Proof.
  eapply reach_step; [eapply reach_step; [eapply reach_step; [apply busy_reachable|]|]|].
  - apply step_task, (step_end_read _ 0 None); [reflexivity|]. intros id t Ht. unfold busy in Ht.
    destruct (decide (id < 4)) as [Hlt|Hge].
    + do 4 (destruct id as [|id]; [vm_compute in Ht; injection Ht as <-; discriminate|]). lia.
    + pose proof (iv_drawn _ (proj1 (tickets_inv _ _ (busy_reachable nested))) id t Ht) as H. change (id < 4) in H. lia.
  - apply step_task, (step_wake_add _ 1 7). reflexivity.
  - apply step_task, (step_wake_read _ 2 None). reflexivity.
Qed.

Lemma operations_follow_tickets_witness : reading added_one 2 = true /\ added added_one = [(1, 7)] /\
  added added_one = filter (fun p => p.1 < 2) (requested added_one).
Proof.
  split; [reflexivity|]. split; [reflexivity|].
  exact (proj1 (proj2 (operations_follow_tickets false added_one (added_one_reachable false))) 2 eq_refl).
Defined.

Lemma flat_tasks_finish_witness : exists s', task_step busy s'.
Proof.
  apply (proj2 (flat_tasks_finish busy (busy_reachable false))). intros H. apply (f_equal (lookup 0)) in H. vm_compute in H. discriminate H.
Defined.

(** A range search, then an [Add], then the iterator of the range search. *)
Definition queued : NodeCC nat := Add (ReadPermission new_node None) 7.

(** One more [Add] arrives. *)
Definition stuck : NodeCC nat := Add (ReadPermission queued (Some 0)) 8.

Lemma nested_read_deadlocks_witness :
  (exists o', tasks stuck !! 0 = Some (Reading o')) /\ (exists w, tasks stuck !! 2 = Some (WaitRead w (Some 0))) /\
  (exists w rows, tasks stuck !! 1 = Some (WaitAdd w rows)) /\ added stuck = [].
Proof.
  apply (nested_read_deadlocks queued 0 None 1 stuck).
  - eapply reach_step; [|by constructor]. eapply reach_step; [apply reach_new|]. by apply step_read.
  - reflexivity.
  - intros id t. destruct id as [|[|id]]; intros Ht; [vm_compute in Ht; injection Ht as <-; discriminate|vm_compute in Ht; injection Ht as <-; discriminate|].
    unfold queued in Ht. exfalso. assert (inv queued) as [[] _].
    { apply (tickets_inv true). eapply reach_step; [|by constructor]. eapply reach_step; [apply reach_new|]. by apply step_read. }
    specialize (iv_drawn0 _ _ Ht). change (S (S id) < 2) in iv_drawn0. lia.
  - reflexivity.
  - eapply steps_step; [apply steps_refl|]. apply step_add.
Defined.
