(* ===== verification/SparseIndexNode.v ===== *)
(** * The sparse index nodes (src/index/sparse/sparse_index_node.cc, knowhere/binaryset.h)

    [SparseInvertedIndexNode] owns one inverted index, chosen by metric and
    algorithm when it is trained or loaded, and offers training, adding, search,
    iterators, range search and serialisation; [SparseInvertedIndexNodeCC] adds
    the raw rows for IP and runs its operations under the tickets of
    SparseNode.v.  Searches handed to the pool are waited for at once and are
    written in line. *)

From S2P Require Import Prelude Float Num StdHeap Expected Bitset MemoryIO SparseUtils SparseIndex SparseIndexSpec SparseSearch SparseProps.
From S2P Require Import SparseSerial SparseSerialV0 RangeUtil Config Configs Iterators IteratorProps SparseNode.

(** ** Binary sets *)

Module BinarySet.

(** Named binaries; a null pointer is [None]. *)
Definition Binary : Type := list Z.
Abbreviation t := (gmap string (option Binary)).
Implicit Types bs : t.

Definition Contains bs (key : string) : bool := bool_decide (is_Some (bs !! key)).
Definition GetByName bs (name : string) : option Binary :=
  if Contains bs name then default None (bs !! name) else None.
Fixpoint GetByNames bs (names : list string) : option Binary :=
  match names with
  | [] => None
  | name :: names => if Contains bs name then default None (bs !! name) else GetByNames bs names
  end.
Definition Append bs (name : string) (binary : option Binary) : t := <[name := binary]> bs.
Definition Erase bs (name : string) : t * option Binary :=
  match bs !! name with Some b => (delete name bs, b) | None => (bs, None) end.
Definition clear bs : t := ∅.
Definition Size bs : nat := map_fold (fun _ b n => match b with Some d => length d | None => 0 end + n) 0 bs.

End BinarySet.

(** ** The index behind the base class *)

(** [InvertedIndex<float, QType, algo>] as a [BaseInvertedIndex<float>]. *)
Record BaseInvertedIndex := mkBase {
  QType : Type;
  quant : Quant spec_float QType;
  pod : Pod QType;
  algo : InvertedIndexAlgo;
  impl : InvertedIndex spec_float QType
}.
Implicit Types ib : BaseInvertedIndex.

Definition with_impl ib (ix : InvertedIndex spec_float (QType ib)) : BaseInvertedIndex :=
  mkBase (QType ib) (quant ib) (pod ib) (algo ib) ix.

#[local] Obligation Tactic := idtac.
Program Definition u16_pod : Pod Z := {|
  pod_size := 2; pod_valid := fun z => (0 <= z < 2 ^ 16)%Z;
  pod_enc := le_bytes 2; pod_dec := of_le_bytes
|}.
Next Obligation. intros x. apply (length_le_bytes 2). Qed.
Next Obligation. simpl. lia. Qed.
Next Obligation. intros x Hx. by apply (of_le_bytes_le_bytes 2). Qed.

(** ** The node *)

(** A data set: the rows and their dimension. *)
Record DataSet := mkDataSet { tensor : list (SparseRow spec_float); ds_dim : Z }.
Implicit Types ds : DataSet.

(** What a search returns: [nq] times [k] ids and distances. *)
Record KnnResult := mkKnn { knn_rows : nat; knn_dim : nat; knn_ids : list Z; knn_dists : list spec_float }.

Record IndexNode := mkIndexNode { index_ : option BaseInvertedIndex; index_version_ : Z }.
Implicit Types n : IndexNode.

Definition new_index_node (version : Z) : IndexNode := mkIndexNode None version.

Definition sparse_field (name : string) : Field := ("SparseInvertedIndexConfig", name).

Section node.
Context {SS : StdSort} {PS : StdPartialSort}.
Context (use_wand : bool).

Definition version_use_raw_data n : bool := (index_version_ n <? 8)%Z.

Definition Type_ : string := if use_wand then "SPARSE_WAND" else "SPARSE_INVERTED_INDEX".

(** [SetBM25Params]. *)
Definition SetBM25Params (k1 b avgdl : spec_float) : BM25Params spec_float :=
  mkBM25 k1 b [] [] (GetDocValueBM25Computer k1 b avgdl).

(** The chain of [if]s over the algorithm. *)
Definition choose_algo (fs : Fields) : M (option InvertedIndexAlgo) :=
  if use_wand then Ret (Some DAAT_WAND)
  else
    let* a := opt_value (member_string fs inverted_index_algo) in
    Ret (if String.eqb a "DAAT_WAND" then Some DAAT_WAND
         else if String.eqb a "DAAT_MAXSCORE" then Some DAAT_MAXSCORE
         else if String.eqb a "TAAT_NAIVE" then Some TAAT_NAIVE
         else None).

Definition CreateIndex (fs : Fields) : M (expected BaseInvertedIndex) :=
  let* metric := opt_value (member_string fs (base "metric_type")) in
  let invalid : expected BaseInvertedIndex := Err invalid_args "Invalid search algorithm for SparseInvertedIndex" in
  if IsMetricType metric "BM25" then
    match member_float fs (base "bm25_k1"), member_float fs (base "bm25_b"), member_float fs (base "bm25_avgdl") with
    | Some k1, Some b, Some avgdl =>
        let avgdl := nmax avgdl F32.one in
        let* a := choose_algo fs in
        Ret (match a with
             | Some a => of_value (mkBase Z u16_quant u16_pod a (new_index METRIC_BM25 (Some (SetBM25Params k1 b avgdl))))
             | None => invalid
             end)
    | _, _, _ => Ret (Err invalid_args "BM25 parameters k1, b, and avgdl must be set when building/loading")
    end
  else
    let* a := choose_algo fs in
    Ret (match a with
         | Some a => of_value (mkBase spec_float quant_id f32_pod a (new_index METRIC_IP None))
         | None => invalid
         end).

Definition set_index n (i : option BaseInvertedIndex) : IndexNode := mkIndexNode i (index_version_ n).

Definition Train n ds (fs : Fields) : M (IndexNode * Status) :=
  let* metric := opt_value (member_string fs (base "metric_type")) in
  if negb (IsMetricType metric "IP") && negb (IsMetricType metric "BM25") then Ret (n, invalid_metric_type)
  else
    let* index_or := CreateIndex fs in
    match exp_val index_or with
    | None => Ret (n, err index_or)
    | Some index => Ret (set_index n (Some index), success)
    end.

(** [InvertedIndex::Add] through the pool; an exception becomes a status (the
    rows posted before it would stay: [Add_spec] shows that there is none). *)
Definition Add n ds : M (IndexNode * Status) :=
  match index_ n with
  | None => Ret (n, empty_index)
  | Some ib =>
      match SparseIndex.Add (Quant0:=quant ib) (algo ib) (impl ib) (tensor ds) (ds_dim ds) with
      | Ret ix => Ret (set_index n (Some (with_impl ib ix)), success)
      | Throw _ => Ret (n, sparse_inner_error)
      | Undef => Undef
      end
  end.

Definition computer_of ib (fs : Fields) : M (expected (DocValueComputer spec_float)) :=
  GetDocValueComputer (algo ib) (impl ib) (member_string fs (base "metric_type"))
    (member_float fs (base "bm25_k1")) (member_float fs (base "bm25_b")) (member_float fs (base "bm25_avgdl")).

(** A heap capacity that does not fit in an [int] is outside the model. *)
Definition approx_params (fs : Fields) (k : Z) : M (InvertedIndexApproxSearchParams spec_float) :=
  let* ratio := opt_value (member_float fs (sparse_field "dim_max_score_ratio")) in
  let drop := default F32.zero (member_float fs (sparse_field "drop_ratio_search")) in
  let factor := default 1%Z (member_int fs (sparse_field "refine_factor")) in
  let factor := if SFeqb drop F32.zero then 1%Z else factor in
  if (0 <=? k * factor)%Z && (k * factor <=? int32_max)%Z then Ret (mkApprox (Z.to_nat factor) drop ratio) else Undef.

Definition Search n ds (fs : Fields) (bitset : BitsetView.t) : M (expected KnnResult) :=
  match index_ n with
  | None => Ret (Err empty_index "index not loaded")
  | Some ib =>
      let* computer_or := computer_of ib fs in
      match exp_val computer_or with
      | None => Ret (Err (err computer_or) (msg computer_or))
      | Some computer =>
          let* k := opt_value (member_int fs (base "k")) in
          let* params := approx_params fs k in
          let k := Z.to_nat k in
          let* rs := foldM (fun rs q =>
              let* r := SparseSearch.Search (Quant0:=quant ib) (algo ib) (impl ib) q k bitset computer params in Ret (rs ++ [r]))
            [] (tensor ds) in
          Ret (of_value (mkKnn (length (tensor ds)) k (concat (map snd rs)) (concat (map fst rs))))
      end
  end.

(** ** Iterators *)

(** [compute_dist_func]: the rows whose distance is not zero. *)
Definition distances_ids (distances : list spec_float) : list (dist_id spec_float) :=
  omap (fun i => match distances !! i with
                 | Some d => if SFeqb d F32.zero then None else Some (DistId.mk (Z.of_nat i) d)
                 | None => None
                 end) (seq 0 (length distances)).

Definition compute_dist_func ib (q : SparseRow spec_float) (drop : spec_float) (bitset : BitsetView.t)
    (computer : DocValueComputer spec_float) : M (list (dist_id spec_float)) :=
  let* distances := GetAllDistances (Quant0:=quant ib) (impl ib) q drop bitset computer in Ret (distances_ids distances).

(** [approximated] is the constant [false]. *)
Definition AnnIterator n ds (fs : Fields) (bitset : BitsetView.t) : M (expected (list (Precomputed.t spec_float))) :=
  match index_ n with
  | None => Ret (Err empty_index "index not loaded")
  | Some ib =>
      let* computer_or := computer_of ib fs in
      match exp_val computer_or with
      | None => Ret (Err (err computer_or) (msg computer_or))
      | Some computer =>
          let drop := default F32.zero (member_float fs (sparse_field "drop_ratio_search")) in
          Ret (of_value (map (fun q => Precomputed.make (compute_dist_func ib q drop bitset computer) true) (tensor ds)))
      end
  end.

(** The default [RangeSearch] of [IndexNode] over these iterators. *)
Definition node_range_search n ds (fs : Fields) (bitset : BitsetView.t) : M (Status + RangeSearchResult spec_float) :=
  let* p := range_params fs in
  if (range_search_k p =? 0)%Z then RangeSearch (I:=Precomputed.t spec_float) fs (length (tensor ds)) (inl success)
  else
    let* its := AnnIterator n ds fs bitset in
    RangeSearch fs (length (tensor ds)) (match exp_val its with Some l => inr l | None => inl (err its) end).

(** [RefineIterator]: batches of approximate results, exact distances for a window. *)
Record RefineSource := mkRefine {
  rf_index : BaseInvertedIndex;
  rf_query : SparseRow spec_float;
  rf_computer : DocValueComputer spec_float;
  precomputed_it_ : Precomputed.t spec_float;
  first_return_ : bool
}.

Fixpoint take_results (num : nat) (it : Precomputed.t spec_float) (acc : list (dist_id spec_float))
    : M (Precomputed.t spec_float * list (dist_id spec_float)) :=
  match num with
  | 0 => Ret (it, acc)
  | S num =>
      let* (it, more) := Precomputed.HasNext it in
      if negb more then Ret (it, acc)
      else let* (it, r) := Precomputed.Next it in take_results num it (acc ++ [DistId.mk (fst r) (snd r)])
  end.

Definition refine_next_batch (s : RefineSource) : M (RefineSource * list (list (dist_id spec_float))) :=
  let num := if first_return_ s then Nat.max (n_rows (impl (rf_index s)) / 10) 20 else 1 in
  let* (it, dists) := take_results num (precomputed_it_ s) [] in
  Ret (mkRefine (rf_index s) (rf_query s) (rf_computer s) it false, [dists]).

Definition refine_raw_distance (s : RefineSource) (id : Z) : M spec_float :=
  GetRawDistance (Quant0:=quant (rf_index s)) (impl (rf_index s)) (Z.to_nat id) (rf_query s) (rf_computer s).

#[export] Instance refine_source : Source RefineSource spec_float := {|
  next_batch := refine_next_batch;
  raw_distance := refine_raw_distance;
  pending s := bound (precomputed_it_ s)
|}.

(** ** Serialisation *)

Definition Serialize n (binset : BinarySet.t) : M (BinarySet.t * Status) :=
  match index_ n with
  | None => Ret (binset, empty_index)
  | Some ib =>
      let* (s, w) := (if version_use_raw_data n then SerializeV0 (Quant0:=quant ib) (PA:=f32_pod) (impl ib) new_writer
                      else let* w := SparseSerial.Serialize (PA:=f32_pod) (PQ:=pod ib) (impl ib) new_writer in Ret (success, w)) in
      if bool_decide (s <> success) then Ret (binset, s)
      else Ret (BinarySet.Append binset Type_ (Some (written w)), success)
  end.

Definition Deserialize n (binset : BinarySet.t) (fs : Fields) : M (IndexNode * Status) :=
  let n := set_index n None in
  match BinarySet.GetByName binset Type_ with
  | None => Ret (n, invalid_binary_set)
  | Some binary =>
      let* index_or := CreateIndex fs in
      match exp_val index_or with
      | None => Ret (n, err index_or)
      | Some ib =>
          let reader := new_reader binary in
          let* (s, ix) := (if version_use_raw_data n then DeserializeV0 (Quant0:=quant ib) (PA:=f32_pod) (algo ib) (impl ib) reader
                           else SparseSerial.Deserialize (PA:=f32_pod) (PQ:=pod ib) (impl ib) reader) in
          Ret (set_index n (Some (with_impl ib ix)), s)
      end
  end.

(** ** Accessors *)

Definition Dim n : Z := match index_ n with Some ib => n_cols (impl ib) | None => 0 end.
Definition Count n : nat := match index_ n with Some ib => n_rows (impl ib) | None => 0 end.

(** [InvertedIndex::size()]: [own] is [sizeof( *this)]; a span takes 16 bytes. *)
Definition index_size (own : nat) ib : nat :=
  own + size (dim_map (impl ib)) * (4 + 4) +
  16 * length (inverted_index_ids_spans (impl ib)) + sum_list ((fun l => 4 * length l) <$> inverted_index_ids_spans (impl ib)) +
  16 * length (inverted_index_vals_spans (impl ib)) +
  sum_list ((fun l => @pod_size _ (pod ib) * length l) <$> inverted_index_vals_spans (impl ib)) +
  (if is_daat (algo ib) then 4 * length (max_score_in_dim_spans (impl ib)) else 0).
Definition Size (own : nat) n : nat := match index_ n with Some ib => index_size own ib | None => 0 end.

(** ** The concurrent node

    [Add] is the body that runs when the ticket's turn has come. *)

Record NodeData := mkData { cc_node : IndexNode; raw_data_ : list (SparseRow spec_float) }.
Implicit Types d : NodeData.

Definition cc_Add d ds (fs : Fields) : M (NodeData * Status) :=
  let* (n, res) := Add (cc_node d) ds in
  let* metric := opt_value (member_string fs (base "metric_type")) in
  Ret (mkData n (if IsMetricType metric "IP" then raw_data_ d ++ tensor ds else raw_data_ d), res).

Definition cc_Type : string := if use_wand then "SPARSE_WAND_CC" else "SPARSE_INVERTED_INDEX_CC".
Definition cc_HasRawData (metric : string) : bool := IsMetricType metric "IP".

(** [raw_data_[id]] is not checked. *)
Definition cc_GetVectorByIds d (ids : list Z) : M (expected DataSet) :=
  match raw_data_ d with
  | [] => Ret (Err invalid_args "GetVectorByIds failed: raw data is empty")
  | _ =>
      let* (data, dim) := foldM (fun (st : list (SparseRow spec_float) * Z) id =>
          let* row := vgetz (raw_data_ d) id in Ret (fst st ++ [row], Z.max (snd st) (row_dim row)))
        ([], 0%Z) ids in
      Ret (of_value (mkDataSet data dim))
  end.

(** The node after the [Add]s that have run, in their order; the results. *)
Definition run_adds d (log : list (DataSet * Fields)) : M (NodeData * list Status) :=
  foldM (fun (st : NodeData * list Status) (r : DataSet * Fields) =>
      let* (d, s) := cc_Add (fst st) (fst r) (snd r) in Ret (d, snd st ++ [s]))
    (d, []) log.

End node.

(** ** Properties *)

Definition as_dist (x : idval spec_float) : dist_id spec_float := DistId.mk (Z.of_nat (IdVal.id x)) (IdVal.val x).

(** The rows that a bitset lets through. *)
Definition allowed (bitset : BitsetView.t) (i : nat) : bool :=
  BitsetView.empty bitset || negb ((BitsetView.num_bits bitset <=? i) || BitsetView.filtered bitset i).

Lemma bitset_test b i : BitsetView.plain b -> BitsetView.test b i = Ret ((BitsetView.num_bits b <=? i) || BitsetView.filtered b i).
Proof.
  intros Hb. destruct (Nat.leb_spec (BitsetView.num_bits b) i) as [Hge|Hlt].
  - unfold BitsetView.test. rewrite (BitsetView.pl_ids _ Hb), (BitsetView.pl_off _ Hb). cbn [bind].
    by rewrite Nat.add_0_r, (proj2 (Nat.leb_le _ _)).
  - by destruct (BitsetView.filtered_bit b i Hb Hlt) as [_ ->].
Qed.

Section scores.
Context {SS : StdSort} {PS : StdPartialSort}.
Context {Q : Type} `{!Quant spec_float Q} (a : InvertedIndexAlgo).
Context {ix : InvertedIndex spec_float Q} {rows : list (SparseRow spec_float)} (Hrep : represents a ix rows).
Context (computer : DocValueComputer spec_float).

(** The loop of [GetAllDistances] that clears the filtered rows. *)
Lemma clear_filtered bitset (l : list spec_float) : BitsetView.plain bitset ->
  wp (foldM (fun distances i =>
        let* t := BitsetView.test bitset i in if t then vset distances i nzero else Ret distances) l (seq 0 (length l)))
     (fun l' => forall i, l' !! i = (fun d => if (BitsetView.num_bits bitset <=? i) || BitsetView.filtered bitset i then nzero else d) <$> l !! i).
Proof.
  intros Hb. apply (wp_for _ (fun (n : nat) l' => length l' = length l /\
    forall i, l' !! i = (fun d => if (i <? n) && ((BitsetView.num_bits bitset <=? i) || BitsetView.filtered bitset i) then nzero else d) <$> l !! i)).
  - split; [done|]. intros i. by destruct (l !! i).
  - intros n l' Hn [Hl Hi]. rewrite bitset_test by done. cbn [bind].
    assert (forall x, l !! n = Some x -> forall i, i <> n -> (fun d : spec_float => if (i <? n) && ((BitsetView.num_bits bitset <=? i) || BitsetView.filtered bitset i) then nzero else d) <$> l !! i =
      (fun d => if (i <? n + 1) && ((BitsetView.num_bits bitset <=? i) || BitsetView.filtered bitset i) then nzero else d) <$> l !! i) as Hne.
    { intros _ _ i Hin. do 3 f_equal. destruct (Nat.ltb_spec i n), (Nat.ltb_spec i (n + 1)); try done; lia. }
    destruct (lookup_lt_is_Some_2 l n) as [x Hx]; [lia|]. specialize (Hne x Hx).
    destruct (_ || _) eqn:E.
    + apply wp_vset; [lia|]. rewrite length_insert. split; [done|]. intros i. destruct (decide (i = n)) as [->|Hin].
      * rewrite list_lookup_insert_eq by lia. rewrite Hx. cbn [fmap option_fmap option_map]. by rewrite E, (proj2 (Nat.ltb_lt n (n + 1))) by lia.
      * rewrite list_lookup_insert_ne, Hi by done. by apply Hne.
    + cbn [wp]. split; [done|]. intros i. rewrite Hi. destruct (decide (i = n)) as [->|Hin]; [|by apply Hne]. by rewrite E, !andb_false_r.
  - intros l' [Hl Hi] i. rewrite Hi. destruct (l !! i) as [x|] eqn:Hx; [|done]. apply lookup_lt_Some in Hx. cbn [fmap option_fmap option_map].
    destruct (Nat.ltb_spec i (0 + length l)); [done|lia].
Qed.

(** All distances, as the candidates of a search see them. *)
Lemma all_distances_allowed q drop bitset : SFeqb drop F32.zero = true -> BitsetView.plain bitset -> q <> [] ->
  wp (GetAllDistances ix q drop bitset computer) (fun l => length l = length rows /\
    forall i row, rows !! i = Some row -> l !! i = Some (if allowed bitset i then ref_score (ix:=ix) computer q row else nzero)).
Proof.
  intros Hd Hb Hq. pose proof (all_distances_spec a Hrep computer q drop Hd) as Hall. unfold GetAllDistances. destruct q as [|e q]; [done|].
  apply wp_elim in Hall as (l & E & ->). destruct (parse_query ix (e :: q) drop) as [qv| |]; cbn [bind] in *; try done. rewrite E. cbn [bind].
  assert (forall i row, rows !! i = Some row -> (ref_score (ix:=ix) computer (e :: q) <$> rows) !! i = Some (ref_score (ix:=ix) computer (e :: q) row)) as Hl
    by (intros i row Hi; by rewrite list_lookup_fmap, Hi).
  unfold allowed. destruct (BitsetView.empty bitset) eqn:Eb; cbn [orb].
  - cbn [wp]. split; [by rewrite length_fmap|done].
  - eapply wp_mono; [by apply clear_filtered|]. intros l' Hl'. split.
    + rewrite <- (length_fmap (ref_score (ix:=ix) computer (e :: q)) rows). apply Nat.le_antisymm; apply Nat.nlt_ge; intros Hlt.
      * apply lookup_lt_is_Some_2 in Hlt as [x Hx]. rewrite Hl' in Hx. apply fmap_Some in Hx as (y & Hy & _). apply lookup_lt_Some in Hy. lia.
      * apply lookup_lt_is_Some_2 in Hlt as [x Hx]. specialize (Hl' (length l')). rewrite Hx, lookup_ge_None_2 in Hl' by lia. done.
    + intros i row Hi. rewrite Hl', (Hl i row Hi). cbn [fmap option_fmap option_map]. by destruct (_ || _).
Qed.

Lemma candidates_map q pass (n : nat) : map as_dist (candidates (ix:=ix) (rows:=rows) computer q pass n) =
  omap (fun i => match rows !! i with
     | Some row => if pass i && negb (neqb (ref_score (ix:=ix) computer q row) nzero) then Some (DistId.mk (Z.of_nat i) (ref_score (ix:=ix) computer q row)) else None
     | None => None end) (seq 0 n).
Proof.
  unfold candidates. induction (seq 0 n) as [|i l IH]; [done|]. cbn [omap list_omap]. destruct (rows !! i) as [row|]; [|done].
  cbv zeta. destruct (pass i && _); [cbn [map]; by rewrite IH|done].
Qed.

Lemma omap_ext_in {X Y} (f g : X -> option Y) (l : list X) : (forall x, x ∈ l -> f x = g x) -> omap f l = omap g l.
Proof.
  induction l as [|x l IH]; intros H; [done|]. cbn [omap list_omap]. rewrite (H x) by (by left). rewrite IH; [done|]. intros y Hy. apply H. by right.
Qed.

Lemma dist_func_spec q drop bitset : SFeqb drop F32.zero = true -> BitsetView.plain bitset ->
  (let* distances := GetAllDistances ix q drop bitset computer in Ret (distances_ids distances)) =
  Ret (map as_dist (candidates (ix:=ix) (rows:=rows) computer q (allowed bitset) (length rows))).
Proof.
  intros Hd Hb. rewrite candidates_map. destruct (decide (q = [])) as [->|Hq].
  - cbn [GetAllDistances bind]. f_equal. unfold distances_ids. cbn [length seq omap list_omap]. symmetry.
    rewrite (omap_ext_in _ (fun _ => None)); [by induction (seq 0 (length rows))|]. intros i _. destruct (rows !! i); [|done]. by rewrite andb_false_r.
  - destruct (wp_elim _ _ (all_distances_allowed q drop bitset Hd Hb Hq)) as (l & -> & Hlen & Hl). cbn [bind]. f_equal. unfold distances_ids. rewrite Hlen.
    apply omap_ext_in. intros i Hi. apply elem_of_seq in Hi. destruct (lookup_lt_is_Some_2 rows i) as [row Hrow]; [lia|]. rewrite Hrow, (Hl i row Hrow).
    destruct (allowed bitset i); [|done]. cbn [andb]. cbn [nzero neqb F32_num]. by destruct (SFeqb (ref_score (ix:=ix) computer q row) F32.zero).
Qed.

End scores.

(** *** What queries read *)

(** The part of an index that queries read. *)
Definition view {Q} (ix : InvertedIndex spec_float Q) : InvertedIndex spec_float Q :=
  mkIndex (dim_map ix) (nr_inner_dims ix) [] [] (inverted_index_ids_spans ix) (inverted_index_vals_spans ix) [] (max_score_in_dim_spans ix)
    (metric_type ix) (n_rows_internal ix) (max_dim ix) 0
    (if is_bm25 ix then (fun p => mkBM25 (k1 p) (b p) [] (row_sums_spans p) GetDocValueOriginalComputer) <$> bm25_params ix else None) [] [].

Ltac by_fields ix := destruct ix as [? ? ? ? ? ? ? ? [|] ? ? ? [|] ? ?]; reflexivity.

Section view.
Context {SS : StdSort} {Q : Type} `{!Quant spec_float Q}.
Implicit Types ix : InvertedIndex spec_float Q.

Lemma wand_loop_view {F} `{!DocIdFilter F} fuel ix computer (st : wand_state (F:=F)) :
  wand_loop fuel (view ix) computer st = wand_loop fuel ix computer st.
Proof.
  assert (forall st, wand_round (view ix) computer st = wand_round ix computer st) as E by (intros ?; by_fields ix).
  revert st. induction fuel as [|fuel IH]; intros st; cbn [wand_loop]; rewrite E; [done|]. destruct (wand_round ix computer st) as [[st'|]| |]; cbn [bind]; auto.
Qed.

Lemma maxscore_loop_view {F} `{!DocIdFilter F} fuel ix computer bounds (st : ms_state (F:=F)) :
  maxscore_loop fuel (view ix) computer bounds st = maxscore_loop fuel ix computer bounds st.
Proof.
  assert (forall st, maxscore_round (view ix) computer bounds st = maxscore_round ix computer bounds st) as E by (intros ?; by_fields ix).
  revert st. induction fuel as [|fuel IH]; intros st; cbn [maxscore_loop]; rewrite E; [done|].
  destruct (maxscore_round ix computer bounds st) as [[[st'|] ?]| |]; cbn [bind]; auto.
Qed.

Lemma run_algo_view {F} `{!DocIdFilter F} algo ix q_vec heap (filter : F) computer ratio :
  run_algo algo (view ix) q_vec heap filter computer ratio = run_algo algo ix q_vec heap filter computer ratio.
Proof.
  destruct algo; cbn [run_algo]; [by_fields ix|..].
  - unfold search_daat_wand. replace (make_cursors (view ix)) with (make_cursors (F:=F) ix) by (by_fields ix).
    destruct (make_cursors ix q_vec filter ratio); cbn [bind]; [apply wand_loop_view|done..].
  - unfold search_daat_maxscore. change (by_bound (view ix)) with (by_bound ix). change (n_rows_internal (view ix)) with (n_rows_internal ix).
    replace (make_cursors (view ix)) with (make_cursors (F:=F) ix) by (by_fields ix).
    destruct (make_cursors ix _ filter ratio); cbn [bind]; [|done..]. destruct (heap_threshold heap); cbn [bind]; [|done..].
    destruct (shrink_essential _ _ _) as [[k|]| |]; cbn [bind]; [apply maxscore_loop_view|done..].
Qed.

Lemma Search_view algo ix q k bitset computer params :
  SparseSearch.Search algo (view ix) q k bitset computer params = SparseSearch.Search algo ix q k bitset computer params.
Proof.
  unfold SparseSearch.Search. destruct q as [|e q]; [done|]. change (parse_query (view ix)) with (parse_query ix).
  destruct (parse_query ix (e :: q) _) as [[|t qv]| |]; cbn [bind]; [done| |done..]. rewrite run_algo_view.
  destruct (run_algo algo ix _ _ bitset computer _) as [heap| |]; cbn [bind]; [|done..]. destruct (_ =? 1); [done|]. unfold refine_and_collect.
  destruct (drain heap) as [docids| |]; cbn [bind]; [|done..]. change (parse_query (view ix)) with (parse_query ix).
  destruct (parse_query ix (e :: q) nzero) as [[|t' qv']| |]; cbn [bind]; [done| |done..]. by rewrite run_algo_view.
Qed.

Lemma GetAllDistances_view ix q drop bitset computer : GetAllDistances (view ix) q drop bitset computer = GetAllDistances ix q drop bitset computer.
Proof. by_fields ix. Qed.

End view.

Section node_props.
Context {SS : StdSort} {PS : StdPartialSort}.

(** What the rows of an index are, whatever type its values are stored in. *)
Definition holds ib (rows : list (SparseRow spec_float)) : Prop := represents (Quant0:=quant ib) (algo ib) (impl ib) rows.

(** The scored candidates of a query. *)
Definition matches ib (rows : list (SparseRow spec_float)) computer bitset q : list (dist_id spec_float) :=
  map as_dist (candidates (Quant0:=quant ib) (ix:=impl ib) (rows:=rows) computer q (allowed bitset) (length rows)).

Lemma matches_ok ib rows computer bitset q :
  Forall (fun row => nok (ref_score (Quant0:=quant ib) (ix:=impl ib) computer q row)) rows ->
  Forall okd (matches ib rows computer bitset q) /\ Forall (fun d => did d <> (-1)%Z) (matches ib rows computer bitset q).
Proof.
  intros Hok. unfold matches. rewrite candidates_map. split; apply Forall_forall; intros x (i & Hi & Hx)%list_elem_of_omap;
    destruct (rows !! i) as [row|] eqn:Hrow; try done; destruct (_ && _); try done; injection Hx as <-; cbn [did]; [|lia].
  unfold okd. cbn [dval]. rewrite Forall_forall in Hok. apply Hok. by eapply list_elem_of_lookup_2.
Qed.

(** C17: range search on a sparse node is exact.  When no query term is dropped,
    each query gets the rows that pass the bitset, whose score is not zero, is
    above the radius and not above the range filter: each such row once, best
    score first, cut after [range_search_k] of them when that is positive (one
    later when the iterator's order need not be kept), packed into flat arrays
    with the limits of the queries.  Scores are the reference scores of the
    rows, in the arithmetic of [float]. *)
Theorem sparse_range_search_exact n ib rows ds fs bitset computer p :
  index_ n = Some ib -> holds ib rows -> computer_of ib fs = Ret (of_value computer) -> range_params fs = Ret p ->
  the_larger_the_closer p = true -> SFeqb (default F32.zero (member_float fs (sparse_field "drop_ratio_search"))) F32.zero = true ->
  BitsetView.plain bitset ->
  Forall (fun q => Forall (fun row => nok (ref_score (Quant0:=quant ib) (ix:=impl ib) computer q row)) rows) (tensor ds) ->
  nok (radius p) -> level_ok p -> range_search_k p <> 0%Z ->
  exists outs r, Forall2 (fun q out => out ≡ₚ matches ib rows computer bitset q /\ closest_first true out) (tensor ds) outs /\
    let found := map (fun out => hits p (map as_pair out)) outs in
    node_range_search n ds fs bitset = Ret (inr r) /\ rr_lims r = totals 0 (map length found) /\
    rr_distances r = (if concat found is [] then None else Some (map snd (concat found))) /\
    rr_labels r = (if concat found is [] then None else Some (map fst (concat found))).
Proof.
  intros Hn Hh Hc Hp Hlarge Hd Hb Hok Hr Hlev Hk.
  destruct (range_search_returns_range p (length (tensor ds)) (map (matches ib rows computer bitset) (tensor ds))) as (outs & r & Ho & E & Hres); [|done..|].
  { apply Forall_map. eapply Forall_impl; [exact Hok|]. intros q. apply matches_ok. }
  exists outs, r. rewrite Hlarge in *. split.
  { rewrite <- (map_id outs) in Ho. apply Forall2_fmap_1 in Ho. exact Ho. }
  cbv zeta in *. split; [|done]. rewrite <- E, map_map. unfold node_range_search. rewrite Hp. cbn [bind].
  rewrite (proj2 (Z.eqb_neq _ _) Hk). unfold AnnIterator. rewrite Hn, Hc. cbn [bind exp_val of_value].
  unfold RangeSearch. rewrite Hp. cbn [bind]. do 2 f_equal. apply map_ext. intros q. f_equal. unfold compute_dist_func.
  by rewrite (dist_func_spec (Quant0:=quant ib) (algo ib) Hh computer q _ bitset Hd Hb).
Qed.

Definition same_answers ib ib' : Prop :=
  (forall fs, computer_of ib' fs = computer_of ib fs) /\
  (forall (q : SparseRow spec_float) (k : nat) bitset computer params,
     SparseSearch.Search (Quant0:=quant ib') (algo ib') (impl ib') q k bitset computer params =
     SparseSearch.Search (Quant0:=quant ib) (algo ib) (impl ib) q k bitset computer params) /\
  (forall q drop bitset computer, compute_dist_func ib' q drop bitset computer = compute_dist_func ib q drop bitset computer) /\
  n_rows (impl ib') = n_rows (impl ib) /\ n_cols (impl ib') = n_cols (impl ib).

Lemma view_answers ib ix : view ix = view (impl ib) -> same_answers ib (with_impl ib ix).
Proof.
  intros E. split_and!.
  - intros fs. unfold computer_of. cbn [with_impl algo impl]. trans (GetDocValueComputer (algo ib) (view ix) (member_string fs (base "metric_type"))
      (member_float fs (base "bm25_k1")) (member_float fs (base "bm25_b")) (member_float fs (base "bm25_avgdl"))); [by_fields ix|]. rewrite E.
    by_fields (impl ib).
  - intros q k bitset computer params. cbn [with_impl QType quant algo impl]. by rewrite <- (Search_view _ ix), E, Search_view.
  - intros q drop bitset computer. unfold compute_dist_func. cbn [with_impl QType quant algo impl]. by rewrite <- (GetAllDistances_view ix), E, GetAllDistances_view.
  - exact (f_equal n_rows_internal E).
  - exact (f_equal max_dim E).
Qed.

(** Nodes with alike indexes answer alike. *)
Lemma same_answers_node n n' ib ib' ds fs bitset : index_ n = Some ib -> index_ n' = Some ib' -> same_answers ib ib' ->
  Search n' ds fs bitset = Search n ds fs bitset /\ AnnIterator n' ds fs bitset = AnnIterator n ds fs bitset /\
  node_range_search n' ds fs bitset = node_range_search n ds fs bitset /\ Count n' = Count n /\ Dim n' = Dim n.
Proof.
  intros Hn Hn' (Hc & Hs & Hd & Hr & Hcols).
  assert (AnnIterator n' ds fs bitset = AnnIterator n ds fs bitset) as Hann.
  { unfold AnnIterator. rewrite Hn, Hn', Hc. destruct (computer_of ib fs) as [e| |]; cbn [bind]; [|done..]. destruct (exp_val e); [|done].
    do 2 f_equal. apply map_ext. intros q. by rewrite Hd. }
  split_and!; [|done| |unfold Count; by rewrite Hn, Hn'|unfold Dim; by rewrite Hn, Hn'].
  - unfold Search. rewrite Hn, Hn', Hc. destruct (computer_of ib fs) as [e| |]; cbn [bind]; [|done..]. destruct (exp_val e); [|done].
    destruct (opt_value _) as [k| |]; cbn [bind]; [|done..]. destruct (approx_params fs k) as [params| |]; cbn [bind]; [|done..].
    f_equal. apply foldM_ext. intros rs q _. by rewrite Hs.
  - unfold node_range_search. by rewrite Hann.
Qed.

Lemma reload_view {Q} `{!Quant spec_float Q} (src ix' : InvertedIndex spec_float Q) metric bm : metric_type src = metric ->
  (is_bm25 src = true -> exists p, bm25_params src = Some p /\ length (row_sums_spans p) = n_rows_internal src) ->
  (fun p => (k1 p, b p)) <$> bm = (fun p => (k1 p, b p)) <$> bm25_params src ->
  same_published src (new_index metric bm) ix' -> view ix' = view src.
Proof.
  intros Hm Hsums Hkb []. unfold view. rewrite sp_dims, sp_nr, sp_ids, sp_vals, sp_ms, sp_rows, sp_cols. cbn [metric_type new_index bm25_params] in *.
  assert (is_bm25 ix' = is_bm25 src) as Eb by (unfold is_bm25; by rewrite sp_metric, Hm). rewrite sp_metric, Eb, sp_bm25, <- Hm. f_equal.
  destruct (is_bm25 src) eqn:Hb; [|done]. destruct (Hsums eq_refl) as (p & Hp & Hl). unfold sums_of. rewrite Hp in *.
  destruct bm as [p'|]; [|done]. cbn [fmap option_fmap option_map] in *. by injection Hkb as -> ->.
Qed.

(** C12: a node that is written and loaded again answers alike.  Take a node of file
    format 8 or later whose index fits the format, and a configuration that
    creates an empty index of the same kind (metric, stored type, algorithm, k1
    and b).  Then [Serialize] succeeds, and when the file is shorter than 2^64
    bytes, [Deserialize] of that set into any node of the same version succeeds,
    and the loaded node gives the same result as the original to every search,
    iterator and range search, for every configuration and bitset, and has the
    same row count and dimension. *)
Theorem reloaded_node_answers_alike use_wand n ib n0 binset fs metric bm :
  index_ n = Some ib -> (8 <= index_version_ n)%Z -> index_version_ n0 = index_version_ n ->
  fits (PA:=f32_pod) (PQ:=pod ib) (impl ib) -> metric_type (impl ib) = metric ->
  (fun p => (k1 p, b p)) <$> bm = (fun p => (k1 p, b p)) <$> bm25_params (impl ib) ->
  CreateIndex use_wand fs = Ret (of_value (with_impl ib (new_index metric bm))) ->
  exists bs file, Serialize use_wand n binset = Ret (bs, success) /\ BinarySet.GetByName bs (Type_ use_wand) = Some file /\
    ((Z.of_nat (length file) < 2 ^ 64)%Z -> exists n', Deserialize use_wand n0 bs fs = Ret (n', success) /\
       Count n' = Count n /\ Dim n' = Dim n /\
       forall ds cfg bitset, Search n' ds cfg bitset = Search n ds cfg bitset /\ AnnIterator n' ds cfg bitset = AnnIterator n ds cfg bitset /\
         node_range_search n' ds cfg bitset = node_range_search n ds cfg bitset).
Proof.
  intros Hn Hv Hv0 Hf Hm Hkb Hcreate.
  assert (is_bm25 (impl ib) = true -> is_Some bm) as Hbm.
  { intros Hb. destruct (ft_sums _ Hf Hb) as (p & Hp & _). rewrite Hp in Hkb. by destruct bm. }
  destruct (file_roundtrip (PA:=f32_pod) (PQ:=pod ib) (impl ib) metric bm Hf Hbm) as (w & Hw & Hread).
  assert (version_use_raw_data n = false /\ forall i, version_use_raw_data (set_index n0 i) = false) as [Ev Ev0]
    by (unfold version_use_raw_data; cbn [set_index index_version_]; rewrite Hv0; split; [|intros i]; by apply Z.ltb_ge).
  exists (BinarySet.Append binset (Type_ use_wand) (Some (written w))), (written w). split_and!.
  - unfold Serialize. rewrite Hn, Ev, Hw. cbn [bind]. rewrite bool_decide_false by (intros H; by apply H). reflexivity.
  - unfold BinarySet.GetByName, BinarySet.Append, BinarySet.Contains. rewrite lookup_insert_eq. by rewrite bool_decide_true.
  - intros Hlen. destruct (Hread Hlen) as (ix' & Hd & Hsp). exists (set_index n0 (Some (with_impl ib ix'))).
    assert (same_answers ib (with_impl ib ix')) as Hsame.
    { apply view_answers. eapply (reload_view (Quant0:=quant ib)); [exact Hm| |exact Hkb|exact Hsp].
      intros Hb. destruct (ft_sums _ Hf Hb) as (p & Hp & Hl & _). exists p. exact (conj Hp Hl). }
    pose proof (fun ds cfg bitset => same_answers_node n (set_index n0 (Some (with_impl ib ix'))) ib _ ds cfg bitset Hn eq_refl Hsame) as Hall.
    split; [|destruct (Hall (mkDataSet [] 0) ∅ no_filter) as (_ & _ & _ & H1 & H2); split; [exact H1|split; [exact H2|]];
      intros ds cfg bitset; destruct (Hall ds cfg bitset) as (H3 & H4 & H5 & _); exact (conj H3 (conj H4 H5))].
    unfold Deserialize. unfold BinarySet.GetByName, BinarySet.Append, BinarySet.Contains. rewrite lookup_insert_eq, bool_decide_true by done.
    cbn [default id]. rewrite Hcreate. cbn [bind exp_val of_value]. rewrite Ev0. cbn [with_impl pod impl QType]. rewrite Hd. reflexivity.
Qed.

(** *** Building *)

Lemma created_index use_wand fs ib : CreateIndex use_wand fs = Ret (of_value ib) -> holds ib [] /\ max_dim (impl ib) = 0%Z.
Proof.
  unfold CreateIndex. destruct (opt_value _) as [metric| |]; cbn [bind]; [|done..].
  assert (forall (x : M (option InvertedIndexAlgo)) (f : InvertedIndexAlgo -> BaseInvertedIndex) m,
    (let* a := x in Ret (match a with Some a => of_value (f a) | None => Err invalid_args m end)) = Ret (of_value ib) -> exists a, ib = f a) as Hx.
  { intros [[a|]| |] f m; cbn [bind]; intros E; try discriminate E. injection E as <-. by exists a. }
  destruct (IsMetricType metric "BM25").
  - destruct (member_float fs (base "bm25_k1")), (member_float fs (base "bm25_b")), (member_float fs (base "bm25_avgdl")); try discriminate.
    cbv zeta. intros E. apply Hx in E as [a ->]. split; [|reflexivity]. apply represents_new. intros _. by eexists.
  - intros E. apply Hx in E as [a ->]. split; [|reflexivity]. by apply represents_new.
Qed.

Lemma node_Add n ib rows ds : index_ n = Some ib -> holds ib rows -> Forall row_ok (tensor ds) ->
  exists ix, Add n ds = Ret (set_index n (Some (with_impl ib ix)), success) /\ holds (with_impl ib ix) (rows ++ tensor ds) /\
    metric_type ix = metric_type (impl ib) /\ max_dim ix = Z.max (max_dim (impl ib)) (ds_dim ds).
Proof.
  intros Hn Hh Hok. destruct (wp_elim _ _ (Add_spec (Quant0:=quant ib) (algo ib) (impl ib) rows (tensor ds) (ds_dim ds) Hh Hok)) as (ix & E & Hrep & Hm & Hd).
  exists ix. unfold Add. rewrite Hn, E. by split_and!.
Qed.

(** The rows of some requests. *)
Definition rows_of (log : list (DataSet * Fields)) : list (SparseRow spec_float) := concat (map (fun r => tensor (fst r)) log).
Definition is_ip (fs : Fields) : Prop := exists metric, member_string fs (base "metric_type") = Some metric /\ IsMetricType metric "IP" = true.

Lemma run_adds_spec log d ib rows : index_ (cc_node d) = Some ib -> holds ib rows -> raw_data_ d = rows ->
  Forall (fun r => Forall row_ok (tensor (fst r)) /\ is_ip (snd r)) log ->
  exists d' ib', run_adds d log = Ret (d', replicate (length log) success) /\ index_ (cc_node d') = Some ib' /\ algo ib' = algo ib /\
    holds ib' (rows ++ rows_of log) /\ raw_data_ d' = rows ++ rows_of log.
Proof.
  intros Hn Hh Hraw Hlog. unfold run_adds. set (F := fun (st : NodeData * list Status) (r : DataSet * Fields) => _).
  assert (forall ss, exists d' ib', foldM F (d, ss) log = Ret (d', ss ++ replicate (length log) success) /\ index_ (cc_node d') = Some ib' /\
    algo ib' = algo ib /\ holds ib' (rows ++ rows_of log) /\ raw_data_ d' = rows ++ rows_of log) as H; [|exact (H [])].
  revert d ib rows Hn Hh Hraw. induction Hlog as [|[ds fs] log [Hok (metric & Hm & Hip)] _ IH]; intros d ib rows Hn Hh Hraw ss.
  - exists d, ib. unfold rows_of. cbn [foldM map concat length replicate]. rewrite !app_nil_r. by split_and!.
  - cbn [fst snd] in *. destruct (node_Add _ ib rows ds Hn Hh Hok) as (ix1 & E & Hh1 & _). set (ib1 := with_impl ib ix1) in *. cbn [foldM].
    change (F (d, ss) (ds, fs)) with (let* (d, s) := cc_Add d ds fs in Ret (d, ss ++ [s])).
    assert (cc_Add d ds fs = Ret (mkData (set_index (cc_node d) (Some ib1)) (raw_data_ d ++ tensor ds), success)) as ->
      by (unfold cc_Add; rewrite E; cbn [bind]; rewrite Hm; cbn [opt_value bind]; by rewrite Hip).
    cbn [bind].
    destruct (IH (mkData (set_index (cc_node d) (Some ib1)) (raw_data_ d ++ tensor ds)) ib1 (rows ++ tensor ds) eq_refl Hh1) with (ss := ss ++ [success])
      as (d' & ib' & E' & Hn' & Ha' & Hh' & Hraw'); [cbn [raw_data_]; by rewrite Hraw|].
    exists d', ib'. unfold rows_of in *. cbn [map concat length replicate fst]. rewrite <- !app_assoc in *. cbn [app] in *. split_and!; [exact E'|exact Hn'|exact Ha'|exact Hh'|exact Hraw'].
Qed.

Lemma get_vectors d ids : raw_data_ d <> [] -> Forall (fun id => 0 <= id < Z.of_nat (length (raw_data_ d)))%Z ids ->
  cc_GetVectorByIds d ids = Ret (of_value (mkDataSet (map (fun id => raw_data_ d !!! Z.to_nat id) ids)
    (foldl (fun m id => Z.max m (row_dim (raw_data_ d !!! Z.to_nat id))) 0%Z ids))).
Proof.
  intros Hne Hids. unfold cc_GetVectorByIds. destruct (raw_data_ d) as [|r0 raw] eqn:E; [done|]. rewrite <- E in *. clear E Hne.
  set (R := raw_data_ d) in *. set (F := fun (st : list (SparseRow spec_float) * Z) id => _).
  assert (forall st, foldM F st ids = Ret (fst st ++ map (fun id => R !!! Z.to_nat id) ids, foldl (fun m id => Z.max m (row_dim (R !!! Z.to_nat id))) (snd st) ids)) as H.
  { induction Hids as [|id ids Hid _ IH]; intros st; cbn [foldM map foldl]; [rewrite app_nil_r; by destruct st|].
    destruct (lookup_lt_is_Some_2 R (Z.to_nat id)) as [row Hrow]; [lia|].
    assert (F st id = Ret (fst st ++ [row], Z.max (snd st) (row_dim row))) as ->.
    { unfold F. replace (vgetz R id) with (vget R (Z.to_nat id)) by (rewrite <- vgetz_of_nat; by rewrite Z2Nat.id by lia).
      by rewrite (proj2 (vget_Ret _ _ _) Hrow). }
    cbn [bind]. rewrite IH, (list_lookup_total_correct _ _ _ Hrow). cbn [fst snd]. by rewrite <- app_assoc. }
  rewrite H. reflexivity.
Qed.

(** C14: a concurrent node with metric IP shows every reader exactly the rows that
    were added before it.  In every reachable state of the ticket protocol,
    while ticket [r] reads, the [Add]s that have run, applied to a node that was
    trained and empty, all succeed; the index then holds the rows of the [Add]
    calls with smaller tickets, in their order, the row count is theirs, and
    [GetVectorByIds] returns for every id in range the row of that number. *)
Theorem reader_sees_earlier_rows (nested : bool) (s : NodeCC (DataSet * Fields)) r d ib :
  SparseNode.reachable nested s -> SparseNode.reading s r = true -> index_ (cc_node d) = Some ib -> holds ib [] -> raw_data_ d = [] ->
  Forall (fun q => Forall row_ok (tensor (fst (snd q))) /\ is_ip (snd (snd q))) (requested s) ->
  let earlier := filter (fun q => q.1 < r) (requested s) in
  let rows := rows_of (map snd earlier) in
  exists d' ib', run_adds d (map snd (added s)) = Ret (d', replicate (length earlier) success) /\
    index_ (cc_node d') = Some ib' /\ holds ib' rows /\ Count (cc_node d') = length rows /\
    forall ids, rows <> [] -> Forall (fun id => 0 <= id < Z.of_nat (length rows))%Z ids ->
      cc_GetVectorByIds d' ids = Ret (of_value (mkDataSet (map (fun id => rows !!! Z.to_nat id) ids)
        (foldl (fun m id => Z.max m (row_dim (rows !!! Z.to_nat id))) 0%Z ids))).
Proof.
  intros Hs Hr Hn Hh Hraw Hreq earlier rows. rewrite (reader_added s r (proj1 (tickets_inv nested s Hs)) Hr). fold earlier.
  assert (Forall (fun r => Forall row_ok (tensor (fst r)) /\ is_ip (snd r)) (map snd earlier)) as Hlog.
  { apply Forall_map. unfold earlier. apply Forall_forall. intros x [_ Hx]%list_elem_of_filter. rewrite Forall_forall in Hreq. by apply Hreq. }
  destruct (run_adds_spec _ d ib [] Hn Hh Hraw Hlog) as (d' & ib' & E & Hn' & _ & Hh' & Hraw'). cbn [app] in *. rewrite length_map in E.
  exists d', ib'. fold rows in Hh', Hraw'. split; [exact E|]. split; [exact Hn'|]. split; [exact Hh'|]. split.
  - unfold Count. rewrite Hn'. exact (re_rows _ _ _ Hh').
  - intros ids Hne Hids. rewrite <- Hraw' in *. by apply get_vectors.
Qed.

(** the raw rows are not cleared with the index.  Training a concurrent IP node
    again replaces its index by an empty one but keeps the raw rows of before;
    after the next [Add] the index numbers the new rows from 0, and
    [GetVectorByIds] still returns the old rows for those numbers. *)
Theorem retrain_keeps_raw_rows use_wand d fs ib ds : CreateIndex use_wand fs = Ret (of_value ib) -> is_ip fs -> Forall row_ok (tensor ds) ->
  exists n' d' ib', Train use_wand (cc_node d) ds fs = Ret (n', success) /\ cc_Add (mkData n' (raw_data_ d)) ds fs = Ret (d', success) /\
    index_ (cc_node d') = Some ib' /\ holds ib' (tensor ds) /\ raw_data_ d' = raw_data_ d ++ tensor ds /\
    forall id old, (0 <= id)%Z -> raw_data_ d !! Z.to_nat id = Some old ->
      cc_GetVectorByIds d' [id] = Ret (of_value (mkDataSet [old] (Z.max 0 (row_dim old)))).
Proof.
  intros Hc (metric & Hm & Hip) Hok. destruct (created_index use_wand fs ib Hc) as [Hh _].
  set (n' := set_index (cc_node d) (Some ib)). destruct (node_Add n' ib [] ds eq_refl Hh Hok) as (ix' & E & Hh' & _). set (ib' := with_impl ib ix') in *.
  exists n', (mkData (set_index n' (Some ib')) (raw_data_ d ++ tensor ds)), ib'. split_and!; [| |done|done|done|].
  - unfold Train. rewrite Hm. cbn [opt_value bind]. rewrite Hip. cbn [negb andb]. by rewrite Hc.
  - unfold cc_Add. cbn [cc_node raw_data_]. rewrite E. cbn [bind]. rewrite Hm. cbn [opt_value bind]. by rewrite Hip.
  - intros id old Hid Hold. pose proof (lookup_lt_Some _ _ _ Hold) as Hlt. rewrite get_vectors; cbn [raw_data_].
    + cbn [map foldl]. by rewrite (list_lookup_total_correct _ _ old) by (by apply lookup_app_l_Some).
    + intros H. apply (f_equal length) in H. rewrite length_app in H. cbn [length] in H. lia.
    + repeat constructor; rewrite ?length_app; lia.
Qed.

End node_props.

(** ** Examples *)

Definition node_ex_ds : DataSet := mkDataSet [[(1%Z, F32.of_Z 3)]; [(1%Z, F32.of_Z 1); (2%Z, F32.of_Z 4)]; [(2%Z, F32.of_Z 1)]] 3.
Definition node_ex_q : DataSet := mkDataSet [[(1%Z, F32.of_Z 1); (2%Z, F32.of_Z 1)]] 3.
Definition node_ex_cfg : Fields :=
  <[base "metric_type" := Some (VString "IP")]> (<[inverted_index_algo := Some (VString "TAAT_NAIVE")]>
  (<[base "radius" := Some (VFloat F32.zero)]> (<[base "range_filter" := Some (VFloat (F32.of_Z 4))]>
  (<[base "range_search_k" := Some (VInt (-1))]> (<[base "retain_iterator_order" := Some (VBool true)]>
  (<[base "range_search_level" := Some (VFloat F32.zero)]> ∅)))))).

Definition node_ex_ib : BaseInvertedIndex := mkBase spec_float quant_id f32_pod TAAT_NAIVE (new_index METRIC_IP None).
Definition node_ex_ix : InvertedIndex spec_float spec_float :=
  match SparseIndex.Add TAAT_NAIVE (new_index METRIC_IP None) (tensor node_ex_ds) 3 with Ret ix => ix | _ => new_index METRIC_IP None end.
Definition node_ex_full : BaseInvertedIndex := with_impl node_ex_ib node_ex_ix.
Definition node_ex : IndexNode := mkIndexNode (Some node_ex_full) 8.

Lemma node_ex_rows : Forall row_ok (tensor node_ex_ds).
Proof. repeat constructor; apply (bool_decide_unpack _); vm_compute; exact I. Qed.

Lemma node_ex_holds : holds node_ex_full (tensor node_ex_ds) /\ metric_type node_ex_ix = METRIC_IP.
Proof.
  assert (holds node_ex_ib []) as Hh by (by apply represents_new).
  destruct (wp_elim _ _ (Add_spec (Quant0:=quant_id) TAAT_NAIVE _ [] (tensor node_ex_ds) 3 Hh node_ex_rows)) as (ix & E & Hrep & Hm & _).
  assert (node_ex_ix = ix) as Eix.
  { change node_ex_ix with (match SparseIndex.Add (Quant0:=quant_id) TAAT_NAIVE (impl node_ex_ib) (tensor node_ex_ds) 3 with Ret ix => ix | _ => new_index METRIC_IP None end).
    by rewrite E. }
  unfold node_ex_full. rewrite Eix. split; [exact Hrep|exact Hm].
Qed.

Lemma level_zero_ok (p : RangeParams spec_float) : range_search_level p = F32.zero -> level_ok p.
Proof.
  intros E i. rewrite E. cbn [nmul nofZ F32_num nceil F32_ceil]. destruct (F32.of_Z (Z.of_nat i)) as [[]|[]| |[] m e]; vm_compute; discriminate.
Qed.

Definition node_ex_params : RangeParams spec_float := mkRangeParams (F32.of_Z 4) true F32.zero true (-1) true F32.zero.

Lemma sparse_range_search_exact_witness : exists outs r,
  Forall2 (fun q out => out ≡ₚ matches node_ex_full (tensor node_ex_ds) GetDocValueOriginalComputer no_filter q /\ closest_first true out) (tensor node_ex_q) outs /\
  node_range_search node_ex node_ex_q node_ex_cfg no_filter = Ret (inr r).
Proof.
  destruct (sparse_range_search_exact node_ex node_ex_full (tensor node_ex_ds) node_ex_q node_ex_cfg no_filter GetDocValueOriginalComputer node_ex_params)
    as (outs & r & Ho & E & _).
  - reflexivity.
  - exact (proj1 node_ex_holds).
  - vm_compute. reflexivity.
  - reflexivity.
  - reflexivity.
  - reflexivity.
  - exact no_filter_plain.
  - repeat constructor; vm_compute; reflexivity.
  - reflexivity.
  - apply level_zero_ok. reflexivity.
  - discriminate.
  - exists outs, r. exact (conj Ho E).
Defined.

Lemma node_ex_fits : fits (PA:=f32_pod) (PQ:=f32_pod) node_ex_ix.
Proof.
  destruct (dims_fit node_ex_ix) as (Hb & Hi & Hs); [by apply (bool_decide_unpack _); vm_compute..|].
  split.
  1-3: vm_compute; reflexivity.
  1-3: assumption.
  - apply (bool_decide_unpack _). vm_compute. exact I.
  - change (Forall (Forall (fun f => valid_binary 24 128 f = true)) (inverted_index_vals_spans node_ex_ix)).
    apply (bool_decide_unpack _). vm_compute. exact I.
  - vm_compute; reflexivity.
  - vm_compute; reflexivity.
  - vm_compute. split; [discriminate | reflexivity].
  - split; [|left; vm_compute; reflexivity]. vm_compute. constructor.
  - vm_compute. discriminate.
  - vm_compute; reflexivity.
  - vm_compute; reflexivity.
Qed.

Lemma reloaded_node_answers_alike_witness : exists bs file, Serialize false node_ex ∅ = Ret (bs, success) /\
  BinarySet.GetByName bs "SPARSE_INVERTED_INDEX" = Some file.
Proof.
  destruct (reloaded_node_answers_alike false node_ex node_ex_full (new_index_node 8) ∅ node_ex_cfg METRIC_IP None) as (bs & file & H1 & H2 & _).
  - reflexivity.
  - vm_compute. discriminate.
  - reflexivity.
  - exact node_ex_fits.
  - vm_compute. reflexivity.
  - vm_compute. reflexivity.
  - reflexivity.
  - exists bs, file. exact (conj H1 H2).
Defined.

(** Ticket 0 adds, ticket 1 reads. *)
Definition node_ex_protocol : NodeCC (DataSet * Fields) := ReadPermission (SparseNode.Add new_node (node_ex_ds, node_ex_cfg)) None.

Lemma node_ex_ip : is_ip node_ex_cfg.
Proof. exists "IP". split; vm_compute; reflexivity. Qed.

Lemma reader_sees_earlier_rows_witness : exists d' ib',
  run_adds (mkData (mkIndexNode (Some node_ex_ib) 8) []) [(node_ex_ds, node_ex_cfg)] = Ret (d', [success]) /\
  index_ (cc_node d') = Some ib' /\ holds ib' (tensor node_ex_ds) /\ Count (cc_node d') = 3.
Proof.
  destruct (reader_sees_earlier_rows true node_ex_protocol 1 (mkData (mkIndexNode (Some node_ex_ib) 8) []) node_ex_ib) as (d' & ib' & E & Hn & Hh & Hc & _).
  - eapply reach_step; [eapply reach_step; [apply reach_new|apply step_add]|]. apply step_read.
  - reflexivity.
  - reflexivity.
  - by apply represents_new.
  - reflexivity.
  - change (requested node_ex_protocol) with [(0, (node_ex_ds, node_ex_cfg))]. constructor; [exact (conj node_ex_rows node_ex_ip)|constructor].
  - exists d', ib'. exact (conj E (conj Hn (conj Hh Hc))).
Defined.

Lemma retrain_keeps_raw_rows_witness : let old := [(7%Z, F32.one)] in
  exists n' d', Train false (mkIndexNode None 8) node_ex_ds node_ex_cfg = Ret (n', success) /\
    cc_Add (mkData n' [old]) node_ex_ds node_ex_cfg = Ret (d', success) /\
    cc_GetVectorByIds d' [0%Z] = Ret (of_value (mkDataSet [old] 8)).
Proof.
  intros old. destruct (retrain_keeps_raw_rows false (mkData (mkIndexNode None 8) [old]) node_ex_cfg node_ex_ib node_ex_ds) as (n' & d' & ib' & H1 & H2 & _ & _ & _ & H3).
  - reflexivity.
  - exact node_ex_ip.
  - exact node_ex_rows.
  - exists n', d'. split; [exact H1|]. split; [exact H2|]. exact (H3 0%Z old ltac:(discriminate) eq_refl).
Defined.
