(* ===== verification/MinHash.v ===== *)
(** * MinHash search (src/index/minhash/minhash_util.h, minhash_util.cc)

    Signatures are cut into bands; two signatures hit when a band agrees.  The
    search either compares bands directly or looks the hashes of the bands up in
    sorted tables.  The hash function ([XXH3]) is a parameter.  Work handed to a
    pool is waited for at once and is written in line, batch by batch. *)

From S2P Require Import Prelude Float Num Expected Bitset MemoryIO Operands Distances DistanceProps.

(** ** Loops *)

(** [for (b = 0; b + 4 <= n; b += 4) { f(b) f(b+1) f(b+2) f(b+3) } for (; b < n; b++) f(b)]. *)
Definition by_four {T} (f : T -> nat -> M T) (s : T) (n : nat) : M T :=
  let* s := foldM (fun s k =>
      let* s := f s (4 * k) in let* s := f s (4 * k + 1) in let* s := f s (4 * k + 2) in f s (4 * k + 3))
    s (seq 0 (n / 4)) in
  foldM f s (seq (4 * (n / 4)) (n - 4 * (n / 4))).

(** The numbers below [total] in batches of [size]. *)
Definition batches (total size : nat) : list (list nat) :=
  map (fun r => seq (r * size) (Nat.min ((r + 1) * size) total - r * size)) (seq 0 ((total + size - 1) / size)).

Lemma by_four_spec {T} (f : T -> nat -> M T) s n : by_four f s n = foldM f s (seq 0 n).
Proof.
  unfold by_four. pose proof (Nat.div_mod_eq n 4) as Hn. set (q := n / 4) in *.
  assert (foldM (fun s k => let* s := f s (4 * k) in let* s := f s (4 * k + 1) in let* s := f s (4 * k + 2) in f s (4 * k + 3)) s (seq 0 q) =
    foldM f s (seq 0 (4 * q))) as ->.
  { clear Hn. induction q as [|q IH]; [done|]. rewrite seq_S, foldM_app, IH. replace (4 * S q) with (4 * q + 4) by lia.
    rewrite seq_app, foldM_app. cbn [seq foldM Nat.add]. destruct (foldM f s (seq 0 (4 * q))) as [t| |]; cbn [bind]; [|done..].
    rewrite !Nat.add_1_r. replace (4 * q + 2) with (S (S (4 * q))) by lia. replace (4 * q + 3) with (S (S (S (4 * q)))) by lia.
    destruct (f t (4 * q)) as [t1| |]; cbn [bind]; [|done..]. destruct (f t1 _) as [t2| |]; cbn [bind]; [|done..].
    destruct (f t2 _) as [t3| |]; cbn [bind]; [|done..]. by destruct (f t3 _). }
  rewrite <- foldM_app, <- seq_app. by replace (4 * q + (n - 4 * q)) with n by lia.
Qed.

Lemma batches_concat total size : 0 < size -> concat (batches total size) = seq 0 total.
Proof.
  intros Hs. unfold batches. set (k := (total + size - 1) / size).
  assert (total <= k * size) as Hk.
  { unfold k. pose proof (Nat.div_mod_eq (total + size - 1) size). pose proof (Nat.mod_upper_bound (total + size - 1) size). nia. }
  assert (forall n, concat (map (fun r => seq (r * size) (Nat.min ((r + 1) * size) total - r * size)) (seq 0 n)) = seq 0 (Nat.min (n * size) total)) as H.
  { intros n. induction n as [|n IH]; [done|]. rewrite seq_S, map_app, concat_app, IH. cbn [map concat Nat.add]. rewrite app_nil_r.
    destruct (Nat.le_gt_cases total (n * size)).
    - rewrite !Nat.min_r by nia. replace (total - n * size) with 0 by lia. cbn [seq]. by rewrite app_nil_r.
    - rewrite (Nat.min_l (n * size)) by lia. rewrite <- seq_app. f_equal. nia. }
  rewrite H. by rewrite Nat.min_r.
Qed.

(** ** Results *)

Definition kBatch : nat := 4096.
Definition kQueryBatch : nat := 64.

Record KVPair := mkKV { Key : Z; Value : Z }.

Module Handler.

Record t := mk { ids_list_ : list Z; dis_list_ : list spec_float; topk_ : nat; counter_ : nat }.
Implicit Types h : t.

Definition make (topk : nat) : t := mk (replicate topk (-1)%Z) (replicate topk F32.zero) topk 0.
Definition find h (id : Z) : bool := negb (id =? -1)%Z && bool_decide (id ∈ ids_list_ h).
Definition full h : bool := topk_ h =? counter_ h.
Definition count h : nat := counter_ h.

(** [0.000001f]. *)
Definition epsilon : spec_float := F32.div F32.one (F32.of_Z 1000000).

Definition push h (id : Z) (dis : spec_float) : M t :=
  if full h then Ret h
  else if (id =? -1)%Z || SFltb dis epsilon then Ret h
  else if (1 <? topk_ h) && find h id then Ret h
  else
    let* ids := vset (ids_list_ h) (counter_ h) id in
    let* dis := vset (dis_list_ h) (counter_ h) dis in
    Ret (mk ids dis (topk_ h) (counter_ h + 1)).

End Handler.

(** Band count and rows per band. *)
Definition OptimizeMinHashLSHParams (original_dim band : nat) : nat * nat :=
  if band =? 0 then (1, original_dim)
  else if original_dim <? band then (original_dim, 1)
  else let new_dim := original_dim / band * band in (band, new_dim / band).

(** [fun_type] as bits; [SEARCH] and [TRAIN] are bits 1 and 0. *)
Definition MinhashConfigCheck (dim : nat) (data_type : DataFormatEnum) (fun_type : Z) : Status :=
  if negb (dim mod 8 =? 0) then invalid_metric_type
  else match data_type with
  | bin1 => if negb (Z.land fun_type (2 ^ 32 - 1 - 3) =? 0)%Z then not_implemented else success
  | _ => invalid_metric_type
  end.

(** ** Bands compared directly *)

(** [base + size * i] for bytes. *)
Definition at_row (data : list Z) (size i : nat) : list Z := drop (size * i) data.

Fixpoint hit_loop (js : list nat) (x y : list Z) (size_in_bytes truncated_size mh_lsh_band : nat) (bitset : BitsetView.t)
    (res : Handler.t) : M Handler.t :=
  match js with
  | [] => Ret res
  | i :: js =>
      let* skip := (if BitsetView.empty bitset then Ret false else BitsetView.test bitset i) in
      if skip then hit_loop js x y size_in_bytes truncated_size mh_lsh_band bitset res
      else
        let* hit := minhash_lsh_hit_ref x (at_row y size_in_bytes i) truncated_size mh_lsh_band in
        let* res := Handler.push res (Z.of_nat i) (if hit then F32.one else F32.zero) in
        if Handler.full res then Ret res
        else hit_loop js x y size_in_bytes truncated_size mh_lsh_band bitset res
  end.

Definition MinHashLSHHitByNy (x y : list Z) (size_in_bytes element_size_in_bytes mh_lsh_band mh_lsh_r ny topk : nat)
    (bitset : BitsetView.t) : M Handler.t :=
  let truncated_size := mh_lsh_band * mh_lsh_r * element_size_in_bytes in
  hit_loop (seq 0 ny) x y size_in_bytes truncated_size mh_lsh_band bitset (Handler.make topk).

(** ** Bands looked up by their hash *)

Section hash.
Context {SS : StdSort} (calculate_hash : list Z -> Z).

Definition GetHashKey (data : list Z) (size band band_i : nat) : M Z :=
  if band =? 0 then Undef
  else
    let r := size / band in
    let band_i_data := drop (r * band_i) data in
    if r <=? length band_i_data then Ret (calculate_hash (take r band_i_data)) else Undef.

(** The pair of row [j] and band [b] goes to [place j b]. *)
Definition gen_kv (place : nat -> nat -> nat) (data : list Z) (rows data_size data_element_size band_num band_size : nat)
    : M (list KVPair) :=
  let truncated_data_size := band_num * band_size * data_element_size in
  foldM (fun kv batch =>
      foldM (fun kv j =>
          let data_j := at_row data data_size j in
          by_four (fun kv b =>
              let* k := GetHashKey data_j truncated_data_size band_num b in
              vset kv (place j b) (mkKV k (Z.of_nat j)))
            kv band_num)
        kv batch)
    (replicate (band_num * rows) (mkKV 0 0)) (batches rows kBatch).

Definition GenHashKV (data : list Z) (rows data_size data_element_size band_num band_size : nat) : M (list KVPair) :=
  gen_kv (fun j b => j * band_num + b) data rows data_size data_element_size band_num band_size.
Definition GenTransposedHashKV (data : list Z) (rows data_size data_element_size band_num band_size : nat) : M (list KVPair) :=
  gen_kv (fun j b => b * rows + j) data rows data_size data_element_size band_num band_size.

Definition SortHashKV (kv : list KVPair) (rows band : nat) : list KVPair :=
  foldl (fun kv i =>
      take (rows * i) kv ++ std_sort (fun a b => (Key a <? Key b)%Z) (slice (rows * i) (rows * (i + 1)) kv) ++ drop (rows * (i + 1)) kv)
    kv (seq 0 band).

(** The loop over further equal keys. *)
Fixpoint push_equal (fuel : nat) (base_k base_v : list Z) (band i hit_id : nat) (key : Z) (res : Handler.t) : M Handler.t :=
  if Handler.full res || (band <=? hit_id) then Ret res
  else
    let* k := vget base_k (i * band + hit_id) in
    if negb (k =? key)%Z then Ret res
    else match fuel with
    | 0 => Undef
    | S fuel =>
        let* v := vget base_v hit_id in
        let* res := Handler.push res v F32.one in
        push_equal fuel base_k base_v band i (hit_id + 1) key res
    end.

Fixpoint band_loop (js : list nat) (base_k base_v query_key : list Z) (ny band : nat) (res : Handler.t) : M Handler.t :=
  match js with
  | [] => Ret res
  | i :: js =>
      let* key := vget query_key i in
      let* hit_id := u64_binary_search_eq_ref (drop (i * ny) base_k) ny key in
      if negb (hit_id =? -1)%Z then
        let* v := vgetz base_v hit_id in
        let* res := Handler.push res v F32.one in
        let* res := push_equal (S band) base_k base_v band i (Z.to_nat hit_id) key res in
        if Handler.full res then Ret res else band_loop js base_k base_v query_key ny band res
      else band_loop js base_k base_v query_key ny band res
  end.

(** The handlers of the queries. *)
Definition minhash_lsh_hit_with_topk1_opt_search (x y : list Z)
    (size_in_bytes element_size_in_bytes mh_lsh_band mh_lsh_r nx ny topk : nat) : M (list Handler.t) :=
  let* base_kv := GenTransposedHashKV y ny size_in_bytes element_size_in_bytes mh_lsh_band mh_lsh_r in
  let base_kv := SortHashKV base_kv ny mh_lsh_band in
  let base_hash_k := map Key base_kv in
  let base_hash_v := map Value base_kv in
  let* query_kv := GenHashKV x nx size_in_bytes element_size_in_bytes mh_lsh_band mh_lsh_r in
  let query_hash_k := map Key query_kv in
  foldM (fun all_res batch =>
      foldM (fun all_res query_id =>
          let* res := vget all_res query_id in
          let* res := band_loop (seq 0 mh_lsh_band) base_hash_k base_hash_v (drop (mh_lsh_band * query_id) query_hash_k) ny mh_lsh_band res in
          vset all_res query_id res)
        all_res batch)
    (replicate nx (Handler.make topk)) (batches nx kQueryBatch).

End hash.

(** ** The rows that hit, in order *)

(** The handler after the rows of [l] were taken. *)
Definition took (topk : nat) (l : list nat) : Handler.t :=
  Handler.mk (map Z.of_nat l ++ replicate (topk - length l) (-1)%Z) (replicate (length l) F32.one ++ replicate (topk - length l) F32.zero)
    topk (length l).

Lemma push_took topk l i : length l < topk -> i ∉ l -> Handler.push (took topk l) (Z.of_nat i) F32.one = Ret (took topk (l ++ [i])).
Proof.
  intros Hl Hi. unfold Handler.push, Handler.full. cbn [took Handler.topk_ Handler.counter_ Handler.ids_list_ Handler.dis_list_].
  destruct (Nat.eqb_spec topk (length l)); [lia|]. destruct (Z.eqb_spec (Z.of_nat i) (-1)); [lia|]. cbn [orb].
  replace (SFltb F32.one Handler.epsilon) with false by (vm_compute; reflexivity).
  assert (Handler.find (took topk l) (Z.of_nat i) = false) as ->.
  { unfold Handler.find. destruct (Z.eqb_spec (Z.of_nat i) (-1)); [lia|]. cbn [negb andb took Handler.ids_list_]. apply bool_decide_eq_false.
    rewrite elem_of_app, list_elem_of_In, in_map_iff. intros [(j & Hj & Hin)|Hr%elem_of_replicate_inv]; [|lia].
    apply Nat2Z.inj in Hj as ->. apply Hi. by apply list_elem_of_In. }
  rewrite andb_false_r. destruct (topk - length l) as [|m] eqn:Em; [lia|]. cbn [replicate].
  unfold vset. rewrite !decide_True by (rewrite length_app, ?length_map, ?length_replicate; cbn [length]; lia). cbn [bind]. unfold took.
  rewrite !length_app. cbn [length]. rewrite map_app. cbn [map]. replace (topk - (length l + 1)) with m by lia.
  rewrite <- (length_map Z.of_nat l) at 1. rewrite insert_next. f_equal. f_equal.
  rewrite <- (length_replicate (length l) F32.one) at 1. rewrite insert_next. by rewrite <- replicate_S_end, Nat.add_1_r.
Qed.

Lemma push_zero topk l i : Handler.push (took topk l) i F32.zero = Ret (took topk l).
Proof.
  unfold Handler.push. destruct (Handler.full _); [done|]. replace (SFltb F32.zero Handler.epsilon) with true by (vm_compute; reflexivity). by rewrite orb_true_r.
Qed.

Lemma full_took topk l : Handler.full (took topk l) = (topk =? length l).
Proof. done. Qed.

(** Whether row [i] is allowed, and whether one of its bands is that of [x]. *)
Definition row_allowed (bitset : BitsetView.t) (i : nat) : bool :=
  BitsetView.empty bitset || negb ((BitsetView.num_bits bitset <=? i) || BitsetView.filtered bitset i).
Definition shares_band (x y : list Z) (truncated band : nat) : bool :=
  let r := truncated / band in
  existsb (fun i => bool_decide (slice (r * i) (r * i + r) x = slice (r * i) (r * i + r) y)) (seq 0 band).

Lemma lsh_hit_shares x y truncated band : readable truncated x -> readable truncated y -> band <> 0 ->
  minhash_lsh_hit_ref x y truncated band = Ret (shares_band x y truncated band).
Proof.
  intros Hx Hy Hb. destruct (minhash_hit_iff_band_equal x y truncated band Hx Hy Hb) as (hit & -> & Hiff). f_equal. unfold shares_band.
  apply eq_true_iff_eq. rewrite Hiff, existsb_exists. split.
  - intros (i & Hi & E). exists i. split; [apply in_seq; lia|by apply bool_decide_eq_true].
  - intros (i & Hi%in_seq & E%bool_decide_eq_true). exists i. split; [lia|done].
Qed.

Lemma allowed_test bitset i : BitsetView.plain bitset ->
  (if BitsetView.empty bitset then Ret false else BitsetView.test bitset i) = Ret (negb (row_allowed bitset i)).
Proof.
  intros Hb. unfold row_allowed. destruct (BitsetView.empty bitset); [done|]. cbn [orb]. rewrite negb_involutive.
  destruct (Nat.leb_spec (BitsetView.num_bits bitset) i) as [Hge|Hlt].
  - unfold BitsetView.test. rewrite (BitsetView.pl_ids _ Hb), (BitsetView.pl_off _ Hb). cbn [bind].
    by rewrite Nat.add_0_r, (proj2 (Nat.leb_le _ _)).
  - by destruct (BitsetView.filtered_bit bitset i Hb Hlt) as [_ ->].
Qed.

Section hits.
Context (x y : list Z) (size truncated band topk : nat) (bitset : BitsetView.t).
Context (Hb : BitsetView.plain bitset) (Hband : band <> 0) (Hx : readable truncated x).

Definition is_hit (i : nat) : bool := row_allowed bitset i && shares_band x (at_row y size i) truncated band.

Lemma hit_loop_spec js l : Forall (fun i => readable truncated (at_row y size i)) js -> NoDup (l ++ js) -> length l < topk ->
  hit_loop js x y size truncated band bitset (took topk l) = Ret (took topk (l ++ take (topk - length l) (List.filter is_hit js))).
Proof.
  intros Hy. revert l. induction Hy as [|i js Hi Hy IH]; intros l Hnd Hl; cbn [hit_loop List.filter].
  - by rewrite take_nil, app_nil_r.
  - rewrite allowed_test by done. cbn [bind]. change (is_hit i) with (row_allowed bitset i && shares_band x (at_row y size i) truncated band).
    assert (NoDup (l ++ js)) as Hnd'.
    { apply NoDup_app in Hnd as (H1 & H2 & [_ H3]%NoDup_cons). apply NoDup_app. split_and!; [done| |done]. intros z Hz Hz'. apply (H2 z Hz). by right. }
    destruct (row_allowed bitset i); cbn [negb andb]; [|by apply IH]. rewrite lsh_hit_shares by done. cbn [bind].
    destruct (shares_band x (at_row y size i) truncated band).
    + assert (i ∉ l) as Hni. { apply NoDup_app in Hnd as (_ & Hd & _). intros Hin. apply (Hd i Hin). by left. }
      rewrite push_took by done. cbn [bind]. rewrite full_took, length_app. cbn [length].
      destruct (topk - length l) as [|m] eqn:Em; [lia|]. cbn [take]. destruct (Nat.eqb_spec topk (length l + 1)).
      * replace m with 0 by lia. by rewrite take_0.
      * rewrite IH; [|by rewrite <- app_assoc|rewrite length_app; cbn [length]; lia]. rewrite length_app, <- app_assoc. cbn [length app].
        by replace (topk - (length l + 1)) with m by lia.
    + rewrite push_zero. cbn [bind]. rewrite full_took. destruct (Nat.eqb_spec topk (length l)); [lia|]. by apply IH.
Qed.

End hits.

Lemma hit_by_ny_spec x y size es band r ny topk bitset : let truncated := band * r * es in
  BitsetView.plain bitset -> band <> 0 -> 0 < topk -> readable truncated x ->
  (forall i, i < ny -> readable truncated (at_row y size i)) ->
  MinHashLSHHitByNy x y size es band r ny topk bitset =
    Ret (took topk (take topk (List.filter (is_hit x y size truncated band bitset) (seq 0 ny)))).
Proof.
  intros truncated Hb Hband Hk Hx Hy. unfold MinHashLSHHitByNy. fold truncated.
  assert (Handler.make topk = took topk []) as -> by (unfold Handler.make, took; cbn [length map app replicate]; by rewrite Nat.sub_0_r).
  rewrite (hit_loop_spec x y size truncated band topk bitset Hb Hband Hx (seq 0 ny) []);
    [|apply Forall_seq; intros i Hi; apply Hy; lia|apply NoDup_seq|exact Hk].
  cbn [length app]. by rewrite Nat.sub_0_r.
Qed.

(** C23: the direct MinHash search returns the first rows that hit.  For readable
    signatures, the result lists, in increasing order and with similarity 1, the
    first [topk] rows that the bitset allows and that share a whole band with
    the query; the remaining places hold -1 and 0, and nothing outside the
    signatures is read. *)
Theorem lsh_hits_in_order x y size es band r ny topk bitset : let truncated := band * r * es in
  BitsetView.plain bitset -> band <> 0 -> 0 < topk -> readable truncated x ->
  (forall i, i < ny -> readable truncated (at_row y size i)) ->
  MinHashLSHHitByNy x y size es band r ny topk bitset =
    Ret (took topk (take topk (List.filter (is_hit x y size truncated band bitset) (seq 0 ny)))).
Proof. apply hit_by_ny_spec. Qed.

(** ** Hash tables *)

Section tables.
Context {SS : StdSort} (calculate_hash : list Z -> Z).
Context (data : list Z) (rows data_size es band r : nat).
Context (Hband : band <> 0) (Hdata : forall j, j < rows -> band * r * es <= length (at_row data data_size j)).

(** The hash of band [b] of row [j]. *)
Definition band_bytes (j b : nat) : list Z := let w := band * r * es / band in take w (drop (w * b) (at_row data data_size j)).
Definition band_key (j b : nat) : Z := calculate_hash (band_bytes j b).

Lemma hash_key j b : j < rows -> b < band -> GetHashKey calculate_hash (at_row data data_size j) (band * r * es) band b = Ret (band_key j b).
Proof.
  intros Hj Hb. unfold GetHashKey. rewrite (proj2 (Nat.eqb_neq _ _) Hband). specialize (Hdata j Hj).
  set (w := band * r * es / band). assert (band * w <= band * r * es) as Hw by apply Nat.Div0.mul_div_le.
  destruct (Nat.leb_spec w (length (drop (w * b) (at_row data data_size j)))) as [_|Hlt]; [done|]. rewrite length_drop in Hlt. nia.
Qed.

(** Every pair goes to its place. *)
Lemma gen_kv_spec (place : nat -> nat -> nat) :
  (forall j b, j < rows -> b < band -> place j b < band * rows) ->
  (forall j b j' b', j < rows -> b < band -> j' < rows -> b' < band -> place j b = place j' b' -> j = j' /\ b = b') ->
  wp (gen_kv calculate_hash place data rows data_size es band r) (fun kv => length kv = band * rows /\
    forall j b, j < rows -> b < band -> kv !! place j b = Some (mkKV (band_key j b) (Z.of_nat j))).
Proof.
  intros Hlt Hinj. unfold gen_kv. set (F := fun kv j => by_four _ kv band).
  change (wp (foldM (foldM F) (replicate (band * rows) (mkKV 0 0)) (batches rows kBatch)) (fun kv => length kv = band * rows /\
    forall j b, j < rows -> b < band -> kv !! place j b = Some (mkKV (band_key j b) (Z.of_nat j)))).
  rewrite foldM_concat, batches_concat by (unfold kBatch; lia).
  apply (wp_for _ (fun m kv => length kv = band * rows /\ forall j b, j < m -> b < band -> kv !! place j b = Some (mkKV (band_key j b) (Z.of_nat j)))).
  - split; [by rewrite length_replicate|]. intros; lia.
  - intros j kv Hj [Hl Hkv]. unfold F. rewrite by_four_spec. rewrite Nat.add_0_l in Hj.
    apply (wp_for _ (fun m kv => length kv = band * rows /\ forall j' b, j' < rows -> b < band -> j' < j \/ (j' = j /\ b < m) ->
      kv !! place j' b = Some (mkKV (band_key j' b) (Z.of_nat j')))).
    + split; [done|]. intros j' b ? ? [?|[_ ?]]; [by apply Hkv|lia].
    + intros b kv' Hb [Hl' Hkv']. rewrite hash_key by lia. cbn [bind]. apply wp_vset; [rewrite Hl'; apply Hlt; lia|].
      rewrite length_insert. split; [done|]. intros j' b' Hj' Hb' Hor. destruct (decide (place j' b' = place j b)) as [E|Hne].
      * apply Hinj in E as [-> ->]; [|lia..]. rewrite list_lookup_insert_eq; [done|]. rewrite Hl'. by apply Hlt.
      * rewrite list_lookup_insert_ne by done. apply Hkv'; [done|done|]. destruct Hor as [?|[-> ?]]; [by left|right]. split; [done|].
        destruct (decide (b' = b)) as [->|]; [done|lia].
    + intros kv' [Hl' Hkv']. split; [done|]. intros j' b Hj' Hb. apply Hkv'; [lia|lia|]. destruct (decide (j' = j)) as [->|]; [right; lia|left; lia].
  - intros kv [Hl Hkv]. split; [done|]. intros j b Hj Hb. by apply Hkv.
Qed.

Lemma GenHashKV_spec : wp (GenHashKV calculate_hash data rows data_size es band r) (fun kv => length kv = band * rows /\
  forall j b, j < rows -> b < band -> kv !! (j * band + b) = Some (mkKV (band_key j b) (Z.of_nat j))).
Proof. apply (gen_kv_spec (fun j b => j * band + b)); [nia|]. intros j b j' b' Hj Hb Hj' Hb' E. destruct (lt_eq_lt_dec j j') as [[?| ->]|?]; nia. Qed.

Lemma GenTransposed_spec : wp (GenTransposedHashKV calculate_hash data rows data_size es band r) (fun kv => length kv = band * rows /\
  forall j b, j < rows -> b < band -> kv !! (b * rows + j) = Some (mkKV (band_key j b) (Z.of_nat j))).
Proof. apply (gen_kv_spec (fun j b => b * rows + j)); [nia|]. intros j b j' b' Hj Hb Hj' Hb' E. destruct (lt_eq_lt_dec b b') as [[?| ->]|?]; nia. Qed.

(** The pairs of band [b]. *)
Definition band_pairs (b : nat) : list KVPair := map (fun j => mkKV (band_key j b) (Z.of_nat j)) (seq 0 rows).

End tables.

Definition key_lt (a b : KVPair) : bool := (Key a <? Key b)%Z.

(** Each band of the table is sorted where it stands. *)
Lemma SortHashKV_spec {SS : StdSort} kv rows band : length kv = band * rows ->
  length (SortHashKV kv rows band) = band * rows /\
  forall b, b < band -> slice (rows * b) (rows * (b + 1)) (SortHashKV kv rows band) = std_sort key_lt (slice (rows * b) (rows * (b + 1)) kv).
Proof.
  intros Hl. unfold SortHashKV. change (fun a b : KVPair => (Key a <? Key b)%Z) with key_lt.
  enough (forall m, m <= band -> forall t, t = foldl (fun kv i =>
      take (rows * i) kv ++ std_sort key_lt (slice (rows * i) (rows * (i + 1)) kv) ++ drop (rows * (i + 1)) kv) kv (seq 0 m) ->
    length t = band * rows /\
    (forall b, b < m -> slice (rows * b) (rows * (b + 1)) t = std_sort key_lt (slice (rows * b) (rows * (b + 1)) kv)) /\
    (forall pos, rows * m <= pos -> t !! pos = kv !! pos)) as H.
  { destruct (H band (Nat.le_refl _) _ eq_refl) as (H1 & H2 & _). by split. }
  induction m as [|m IH]; intros Hm t ->; [split_and!; [done|lia|done]|].
  rewrite seq_S, foldl_app. cbn [foldl Nat.add]. set (u := foldl _ kv (seq 0 m)).
  destruct (IH ltac:(lia) u eq_refl) as (Hu & Hdone & Hrest).
  set (W := std_sort key_lt (slice (rows * m) (rows * (m + 1)) u)).
  assert (rows * (m + 1) <= length u) as Hle by (rewrite Hu; nia).
  assert (length W = rows * (m + 1) - rows * m) as HW.
  { unfold W. rewrite (Permutation_length (std_sort_perm _ _ _)). rewrite length_slice; lia. }
  assert (length (take (rows * m) u ++ W ++ drop (rows * (m + 1)) u) = length u) as Hlen.
  { rewrite !length_app, length_take, length_drop, HW. lia. }
  split_and!; [lia| |].
  - intros b Hb. destruct (decide (b = m)) as [->|Hne].
    + rewrite slice_splice by (done || nia). unfold W. f_equal. apply slice_ext; [lia|]. intros pos Hpos. apply Hrest. lia.
    + rewrite <- Hdone by lia. apply slice_ext; [done|]. intros pos Hpos. apply lookup_splice_out; [done|nia|]. left. nia.
  - intros pos Hpos. rewrite lookup_splice_out; [|done|nia|right; nia]. apply Hrest. nia.
Qed.

Lemma key_lt_swo l : swo_on l key_lt.
Proof.
  split; unfold key_lt.
  - intros x y _ _ ?%Z.ltb_lt. apply Z.ltb_ge. lia.
  - intros x y z _ _ _ ?%Z.ltb_ge ?%Z.ltb_ge. apply Z.ltb_ge. lia.
Qed.

Lemma strongly_sorted_keys l (i j : nat) a b : StronglySorted (fun x y => key_lt y x = false) l ->
  i <= j -> l !! i = Some a -> l !! j = Some b -> (Key a <= Key b)%Z.
Proof.
  intros Hs. revert i j. induction Hs as [|x l Hs IH Hx]; intros i j Hij Ha Hb; [done|]. destruct i as [|i], j as [|j]; cbn [lookup list_lookup] in Ha, Hb.
  - simplify_eq. lia.
  - simplify_eq. apply (proj1 (Forall_lookup _ _) Hx) in Hb. by apply Z.ltb_ge in Hb.
  - lia.
  - apply (IH i j); [lia|done..].
Qed.

(** How many keys are below [k], and how many are at most [k]. *)
Definition below (keys : list Z) (k : Z) : nat := length (filter (fun z => z < k)%Z keys).
Definition up_to (keys : list Z) (k : Z) : nat := length (filter (fun z => z <= k)%Z keys).

#[export] Instance below_perm : Proper ((≡ₚ) ==> (=) ==> (=)) below.
Proof. intros l l' Hl k _ <-. unfold below. by rewrite Hl. Qed.
#[export] Instance up_to_perm : Proper ((≡ₚ) ==> (=) ==> (=)) up_to.
Proof. intros l l' Hl k _ <-. unfold up_to. by rewrite Hl. Qed.

(** In ascending keys the position of a key is between these two numbers, and the
    first position of a key is the first of them. *)
Lemma position_rank (keys : list Z) p k : (forall i j a b, i <= j -> keys !! i = Some a -> keys !! j = Some b -> (a <= b)%Z) ->
  keys !! p = Some k ->
  below keys k <= p < up_to keys k /\ ((forall i, i < p -> keys !! i <> Some k) -> below keys k = p).
Proof.
  intros Hs Hp. pose proof (lookup_lt_Some _ _ _ Hp) as Hlt. unfold below, up_to.
  assert (forall P `{!forall z : Z, Decision (P z)}, length (filter P keys) = length (filter P (take p keys)) + length (filter P (drop p keys))) as Hsplit.
  { intros P HP. by rewrite <- length_app, <- filter_app, take_drop. }
  assert (filter (fun z => z < k)%Z (drop p keys) = []) as Hhi.
  { apply filter_none, Forall_forall, Forall_lookup. intros i z Hz. rewrite lookup_drop in Hz. pose proof (Hs p (p + i) k z ltac:(lia) Hp Hz). lia. }
  assert (Forall (fun z => z <= k)%Z (take (S p) keys)) as Hlo.
  { apply Forall_lookup. intros i z Hz. pose proof (lookup_lt_Some _ _ _ Hz) as Hi. rewrite length_take in Hi. rewrite lookup_take_lt in Hz by lia.
    apply (Hs i p z k); [lia|done|done]. }
  rewrite (Hsplit (fun z => z < k)%Z _), Hhi. cbn [length]. rewrite Nat.add_0_r. split; [split|].
  - etransitivity; [apply length_filter|]. rewrite length_take. lia.
  - rewrite <- (take_drop (S p) keys), filter_app, (filter_all _ (take (S p) keys)) by (by apply Forall_forall). rewrite length_app, length_take. lia.
  - intros Hfirst. rewrite filter_all; [rewrite length_take; lia|]. apply Forall_forall, Forall_lookup. intros i z Hz.
    pose proof (lookup_lt_Some _ _ _ Hz) as Hi. rewrite length_take in Hi. rewrite lookup_take_lt in Hz by lia.
    pose proof (Hs i p z k ltac:(lia) Hz Hp). assert (z <> k); [|lia]. intros ->. by apply (Hfirst i); [lia|].
Qed.

(** ** One query against the sorted tables, one result *)

Section lookup.
Context {SS : StdSort} (calculate_hash : list Z -> Z).
Context (data : list Z) (ny data_size es band r : nat).
Context (Hband : band <> 0) (Hny : (Z.of_nat ny < 2 ^ 31)%Z).
Context (Hdata : forall j, j < ny -> band * r * es <= length (at_row data data_size j)).
Abbreviation key_of := (band_key calculate_hash data data_size es band r).

(** The sorted table: band by band, the keys ascend and each row stands once. *)
Record table_ok (kv : list KVPair) : Prop := {
  tb_length : length kv = band * ny;
  tb_band : forall b, b < band -> slice (ny * b) (ny * (b + 1)) kv ≡ₚ band_pairs calculate_hash data ny data_size es band r b;
  tb_sorted : forall b i j x y, b < band -> i <= j < ny -> kv !! (b * ny + i) = Some x -> kv !! (b * ny + j) = Some y -> (Key x <= Key y)%Z
}.

Lemma band_slice_at b i (kv : list KVPair) : i < ny -> slice (ny * b) (ny * (b + 1)) kv !! i = kv !! (b * ny + i).
Proof. intros Hi. unfold slice. rewrite lookup_take_lt by nia. rewrite lookup_drop. f_equal. lia. Qed.

Lemma table_built kv : length kv = band * ny ->
  (forall j b, j < ny -> b < band -> kv !! (b * ny + j) = Some (mkKV (key_of j b) (Z.of_nat j))) ->
  table_ok (SortHashKV kv ny band).
Proof.
  intros Hl Hkv. destruct (SortHashKV_spec kv ny band Hl) as [Hl' Hs].
  assert (forall b, b < band -> slice (ny * b) (ny * (b + 1)) kv = band_pairs calculate_hash data ny data_size es band r b) as Hp.
  { intros b Hb. apply list_eq. intros i. destruct (decide (i < ny)).
    - rewrite band_slice_at, Hkv by done. unfold band_pairs. rewrite list_lookup_fmap, lookup_seq_lt by done. done.
    - unfold band_pairs. rewrite !lookup_ge_None_2; [done|rewrite length_map, length_seq; lia|]. rewrite length_slice; [lia|nia]. }
  split; [done| |].
  - intros b Hb. rewrite Hs, Hp by done. apply std_sort_perm.
  - intros b i j x y Hb Hij Hx Hy. rewrite <- band_slice_at, Hs in Hx, Hy by lia.
    apply (strongly_sorted_keys _ i j x y (std_sort_sorted _ _ _ (key_lt_swo _)) ltac:(lia) Hx Hy).
Qed.

Lemma entry_row kv b i : table_ok kv -> b < band -> i < ny ->
  exists j, j < ny /\ kv !! (b * ny + i) = Some (mkKV (key_of j b) (Z.of_nat j)).
Proof.
  intros Hkv Hb Hi. destruct (lookup_lt_is_Some_2 kv (b * ny + i)) as [e He]; [rewrite (tb_length _ Hkv); nia|].
  assert (e ∈ band_pairs calculate_hash data ny data_size es band r b) as Hin.
  { rewrite <- (tb_band _ Hkv b Hb). rewrite <- band_slice_at in He by done. by apply list_elem_of_lookup_2 in He. }
  unfold band_pairs in Hin. apply list_elem_of_fmap in Hin as (j & -> & Hj%elem_of_seq). exists j. split; [lia|done].
Qed.

Lemma row_entry kv b j : table_ok kv -> b < band -> j < ny ->
  exists i, i < ny /\ kv !! (b * ny + i) = Some (mkKV (key_of j b) (Z.of_nat j)).
Proof.
  intros Hkv Hb Hj.
  assert (mkKV (key_of j b) (Z.of_nat j) ∈ slice (ny * b) (ny * (b + 1)) kv) as Hin.
  { rewrite (tb_band _ Hkv b Hb). unfold band_pairs. apply list_elem_of_fmap. exists j. split; [done|]. apply elem_of_seq. lia. }
  apply list_elem_of_lookup_1 in Hin as [i Hi]. pose proof (lookup_lt_Some _ _ _ Hi) as Hlt.
  rewrite length_slice in Hlt; [|rewrite (tb_length _ Hkv); nia]. exists i. split; [lia|]. rewrite band_slice_at in Hi by lia. done.
Qed.

(** The keys of band [b] of all rows. *)
Definition band_keys (b : nat) : list Z := map (fun j => key_of j b) (seq 0 ny).

Lemma table_rank kv b i e : table_ok kv -> b < band -> i < ny -> kv !! (b * ny + i) = Some e ->
  below (band_keys b) (Key e) <= i < up_to (band_keys b) (Key e) /\
  ((forall i', i' < i -> forall e', kv !! (b * ny + i') = Some e' -> Key e' <> Key e) -> below (band_keys b) (Key e) = i).
Proof.
  intros Hkv Hb Hi He. set (keys := map Key (slice (ny * b) (ny * (b + 1)) kv)).
  assert (keys ≡ₚ band_keys b) as Hp.
  { unfold keys, band_keys. rewrite (tb_band _ Hkv b Hb). unfold band_pairs. by rewrite map_map. }
  rewrite <- Hp. assert (forall i' e', i' < ny -> kv !! (b * ny + i') = Some e' -> keys !! i' = Some (Key e')) as Hat.
  { intros i' e' Hi' He'. unfold keys. rewrite list_lookup_fmap, band_slice_at, He' by done. done. }
  assert (forall i' k, keys !! i' = Some k -> i' < ny /\ exists e', kv !! (b * ny + i') = Some e' /\ Key e' = k) as Hof.
  { intros i' k Hk. assert (i' < ny) as Hi'.
    { apply lookup_lt_Some in Hk. unfold keys in Hk. rewrite length_map, length_slice in Hk; [nia|]. rewrite (tb_length _ Hkv). nia. }
    split; [done|]. unfold keys in Hk. rewrite list_lookup_fmap, band_slice_at in Hk by done. destruct (kv !! (b * ny + i')) as [e'|]; [|done].
    injection Hk as <-. by exists e'. }
  destruct (position_rank keys i (Key e)) as [H1 H2]; [|by apply Hat|].
  - intros i1 i2 a c Hij (H1 & e1 & E1 & <-)%Hof (H2 & e2 & E2 & <-)%Hof. by apply (tb_sorted _ Hkv b i1 i2 e1 e2).
  - split; [done|]. intros Hf. apply H2. intros i' Hi' (_ & e' & E' & Hk)%Hof. by apply (Hf i' Hi' e').
Qed.

Lemma table_search kv b target : table_ok kv -> b < band ->
  exists h, u64_binary_search_eq_ref (drop (b * ny) (map Key kv)) ny target = Ret h /\
    ((h = (-1)%Z /\ forall j, j < ny -> key_of j b <> target) \/
     ((0 <= h < Z.of_nat ny)%Z /\ exists j, j < ny /\ key_of j b = target /\ kv !! (b * ny + Z.to_nat h) = Some (mkKV target (Z.of_nat j)) /\
       Z.to_nat h = below (band_keys b) target)).
Proof.
  intros Hkv Hb.
  assert (forall i e, kv !! (b * ny + i) = Some e -> drop (b * ny) (map Key kv) !!! i = Key e) as Hat.
  { intros i e He. apply list_lookup_total_correct. rewrite lookup_drop, list_lookup_fmap, He. done. }
  destruct (binary_searches_find_first (drop (b * ny) (map Key kv)) ny target) as [(h & Hh & Hf) _].
  - intros i j Hij. destruct (entry_row kv b i Hkv Hb ltac:(lia)) as (ji & _ & Ei). destruct (entry_row kv b j Hkv Hb ltac:(lia)) as (jj & _ & Ej).
    rewrite (Hat _ _ Ei), (Hat _ _ Ej). by apply (tb_sorted _ Hkv b i j).
  - rewrite length_drop, length_map, (tb_length _ Hkv). nia.
  - done.
  - exists h. split; [done|]. destruct Hf as [[-> Hno]|(Hr & Heq & Hbefore)]; [left|right].
    + split; [done|]. intros j Hj E. destruct (row_entry kv b j Hkv Hb Hj) as (i & Hi & Ei). apply (Hno i Hi). by rewrite (Hat _ _ Ei).
    + split; [done|]. destruct (entry_row kv b (Z.to_nat h) Hkv Hb ltac:(lia)) as (j & Hj & Ej). exists j. rewrite (Hat _ _ Ej) in Heq. cbn [Key] in Heq.
      rewrite Heq in Ej. split_and!; [done|done|done|]. destruct (table_rank kv b (Z.to_nat h) _ Hkv Hb ltac:(lia) Ej) as [_ H]. symmetry. apply H.
      intros i Hi e He. cbn [Key]. rewrite <- (Hat _ _ He). apply Hbefore. lia.
Qed.

(** What one query finds among the bands [js]: nothing, or in the first band [b]
    where a row has the key of the query the number of rows with a smaller key;
    the row returned is the one with this rank in the table of the first band. *)
Definition found (qk : nat -> Z) (js : list nat) (res : Handler.t) : Prop :=
  (res = took 1 [] /\ forall b j, b ∈ js -> j < ny -> key_of j b <> qk b) \/
  (exists j b, res = took 1 [j] /\ j < ny /\ b ∈ js /\ (exists j', j' < ny /\ key_of j' b = qk b) /\
    (forall b' j', b' ∈ js -> b' < b -> j' < ny -> key_of j' b' <> qk b') /\
    below (band_keys 0) (key_of j 0) <= below (band_keys b) (qk b) < up_to (band_keys 0) (key_of j 0) /\
    (b = 0 -> key_of j 0 = qk 0)).

Lemma band_loop_top1 kv qk q js : table_ok kv -> StronglySorted Nat.lt js -> Forall (fun b => b < band) js -> (forall b, b < band -> q !! b = Some (qk b)) ->
  wp (band_loop js (map Key kv) (map Value kv) q ny band (took 1 [])) (found qk js).
Proof.
  intros Hkv Hss Hjs Hq. induction js as [|b js IH]; cbn [band_loop]; [left; split; [done|intros ? ? []%elem_of_nil]|].
  apply Forall_cons_1 in Hjs as [Hb Hjs]. apply StronglySorted_inv in Hss as [Hss Hlt]. rewrite (proj2 (vget_Ret _ _ _) (Hq b Hb)). cbn [bind].
  destruct (table_search kv b (qk b) Hkv Hb) as (h & -> & [[-> Hno]|(Hh & jb & Hjb & Ejb & Hat & Hrank)]); cbn [bind].
  - cbn [negb Z.eqb Pos.eqb]. eapply wp_mono; [apply (IH Hss Hjs)|].
    intros res [[-> Hn]|(j & b' & -> & Hj & Hb' & Hex & Hbefore & Hr & H0)]; [left|right].
    + split; [done|]. intros b' j [->|Hin]%elem_of_cons Hj; [by apply Hno|by apply Hn].
    + exists j, b'. split_and!; [done|done|by right|done| |lia|lia|done]. intros b1 j1 [->|Hin]%elem_of_cons Hlt1 Hj1; [by apply Hno|by apply Hbefore].
  - destruct (Z.eqb_spec h (-1)); [lia|]. cbn [negb].
    destruct (entry_row kv 0 (Z.to_nat h) Hkv ltac:(lia) ltac:(lia)) as (j & Hj & Ej).
    destruct (table_rank kv 0 (Z.to_nat h) _ Hkv ltac:(lia) ltac:(lia) Ej) as [Hr _]. cbn [Nat.mul Nat.add Key] in Ej, Hr.
    unfold vgetz. destruct (Z.ltb_spec h 0); [lia|]. rewrite (proj2 (vget_Ret (map Value kv) (Z.to_nat h) (Z.of_nat j))) by (rewrite list_lookup_fmap, Ej; done).
    cbn [bind]. rewrite push_took; [|cbn [length]; lia|apply not_elem_of_nil]. cbn [bind app push_equal]. rewrite full_took. cbn [length Nat.eqb orb bind].
    rewrite full_took. cbn [length Nat.eqb wp]. right. exists j, b. rewrite Hrank in Hr. split_and!; [done|done|by left|by exists jb| |lia|lia|].
    + intros b' j' [->|Hin]%elem_of_cons Hb'; [lia|]. apply (proj1 (list.Forall_forall _ _) Hlt) in Hin. lia.
    + intros ->. cbn [Nat.mul Nat.add] in Hat. rewrite Ej in Hat. by injection Hat as -> _.
Qed.

End lookup.

Lemma seq_ascending b m : StronglySorted Nat.lt (seq b m).
Proof.
  revert b. induction m as [|m IH]; intros b; cbn [seq]; constructor; [apply IH|]. apply Forall_seq. intros j Hj. unfold Nat.lt. lia.
Qed.

(** the table search with one result, per query.  For readable signatures
    and fewer than 2^31 rows the search finishes inside its tables.  A query none
    of whose band hashes is that of a row gets the label -1 with similarity 0;
    otherwise it gets one row with similarity 1: in the first band where its hash
    is that of some row the search finds the rank of this hash among the rows,
    and it returns the row that has this rank by the hash of the first band.  So
    a hit in the first band returns a row with the hash of the query. *)
Theorem top1_search_by_bands {SS : StdSort} calculate_hash x y size es band r nx ny :
  band <> 0 -> (Z.of_nat ny < 2 ^ 31)%Z ->
  (forall j, j < nx -> band * r * es <= length (at_row x size j)) -> (forall j, j < ny -> band * r * es <= length (at_row y size j)) ->
  exists res, minhash_lsh_hit_with_topk1_opt_search calculate_hash x y size es band r nx ny 1 = Ret res /\ length res = nx /\
    forall q, q < nx -> exists h, res !! q = Some h /\
      found calculate_hash y ny size es band r (band_key calculate_hash x size es band r q) (seq 0 band) h.
Proof.
  intros Hband Hny Hx Hy. apply wp_elim. unfold minhash_lsh_hit_with_topk1_opt_search.
  apply wp_bind. eapply wp_mono; [apply (GenTransposed_spec _ _ _ _ _ _ _ Hband Hy)|]. intros kv [Hl Hkv].
  pose proof (table_built calculate_hash y ny size es band r Hband kv Hl Hkv) as Ht.
  apply wp_bind. eapply wp_mono; [apply (GenHashKV_spec _ _ _ _ _ _ _ Hband Hx)|]. intros qkv [Hlq Hq]. cbv zeta.
  match goal with |- wp (foldM (fun all_res batch => foldM ?G all_res batch) ?s ?l) ?Q => set (F := G); change (wp (foldM (foldM F) s l) Q) end.
  rewrite foldM_concat, batches_concat by (unfold kQueryBatch; lia).
  apply (wp_for _ (fun m res => length res = nx /\ (forall q, m <= q < nx -> res !! q = Some (took 1 [])) /\
    forall q, q < m -> exists h, res !! q = Some h /\
      found calculate_hash y ny size es band r (band_key calculate_hash x size es band r q) (seq 0 band) h)).
  - split_and!; [by rewrite length_replicate| |lia]. intros q Hlt. rewrite lookup_replicate_2 by lia. done.
  - intros q res Hlt (Hlen & Hrest & Hdone). unfold F. rewrite Nat.add_0_l in Hlt. rewrite (proj2 (vget_Ret _ _ _) (Hrest q ltac:(lia))). cbn [bind].
    apply wp_bind. eapply wp_mono; [apply (band_loop_top1 calculate_hash y ny size es band r Hband Hny _ (band_key calculate_hash x size es band r q) _ _ Ht)|].
    + apply seq_ascending.
    + apply Forall_seq. intros; lia.
    + intros b Hb. rewrite lookup_drop, list_lookup_fmap. replace (band * q + b) with (q * band + b) by lia. rewrite Hq by lia. done.
    + intros h Hh. apply wp_vset; [lia|]. rewrite length_insert. split_and!; [done| |].
      * intros q' Hq'. rewrite list_lookup_insert_ne by lia. apply Hrest. lia.
      * intros q' Hq'. destruct (decide (q' = q)) as [->|]; [exists h; split; [apply list_lookup_insert_eq; lia|done]|].
        rewrite list_lookup_insert_ne by done. apply Hdone. lia.
  - intros res (Hlen & _ & Hdone). split; [done|]. exact Hdone.
Qed.

(** ** A small collection: two bands of one byte *)

Definition small_rows : list Z := [9; 1; 5; 2; 7; 3]%Z.
(** A hash for the examples: the bytes as a number. *)
Definition byte_hash (bytes : list Z) : Z := foldl (fun h b => h * 256 + b)%Z 0%Z bytes.
Definition first_row_filtered : BitsetView.t := BitsetView.mkBitset [1%Z] 3 1 0 None 0 0.

Ltac bytes_ok := repeat first [apply Forall_cons_2; [unfold BitsetView.byte_ok; lia|]|apply Forall_nil_2].

Lemma first_row_filtered_plain : BitsetView.plain first_row_filtered.
Proof.
  split; [done|done|bytes_ok|vm_compute; lia|]. intros i Hi. change (BitsetView.byte_size first_row_filtered) with 1 in Hi.
  cbn [BitsetView.num_bits first_row_filtered] in Hi. do 8 (destruct i as [|i]; [lia || reflexivity|]). lia.
Qed.

Lemma small_readable i : i < 3 -> readable 2 (at_row small_rows 2 i).
Proof. intros Hi. destruct i as [|[|[|i]]]; [split; [bytes_ok|vm_compute; lia]..|lia]. Qed.

Lemma lsh_hits_in_order_witness :
  MinHashLSHHitByNy [5; 3]%Z small_rows 2 1 2 1 3 2 first_row_filtered = Ret (took 2 [1; 2]) /\
  MinHashLSHHitByNy [9; 3]%Z small_rows 2 1 2 1 3 2 first_row_filtered = Ret (took 2 [2]).
Proof.
  split; rewrite (lsh_hits_in_order _ small_rows 2 1 2 1 3 2 first_row_filtered first_row_filtered_plain ltac:(lia) ltac:(lia));
    [vm_compute; reflexivity|split; [bytes_ok|vm_compute; lia]|exact small_readable|
     vm_compute; reflexivity|split; [bytes_ok|vm_compute; lia]|exact small_readable].
Defined.

Lemma top1_search_by_bands_witness :
  exists res, minhash_lsh_hit_with_topk1_opt_search byte_hash [5; 8; 4; 4]%Z small_rows 2 1 2 1 2 3 1 = Ret res /\ length res = 2 /\
    forall q, q < 2 -> exists h, res !! q = Some h /\
      found byte_hash small_rows 3 2 1 2 1 (band_key byte_hash [5; 8; 4; 4]%Z 2 1 2 1 q) (seq 0 2) h.
Proof.
  apply (top1_search_by_bands byte_hash [5; 8; 4; 4]%Z small_rows 2 1 2 1 2 3); [lia|vm_compute; reflexivity| |].
  - intros j Hj. destruct j as [|[|j]]; [vm_compute; lia..|lia].
  - intros j Hj. destruct j as [|[|[|j]]]; [vm_compute; lia..|lia].
Defined.

(** ** Hits in a later band *)

Definition empty_bitset : BitsetView.t := BitsetView.mkBitset [] 0 0 0 None 0 0.

Lemma empty_bitset_plain : BitsetView.plain empty_bitset.
Proof. split; [done|done|constructor|vm_compute; lia|]. intros i Hi. exfalso. vm_compute in Hi. lia. Qed.

Lemma filter_one (f : nat -> bool) n s : s < n -> (forall i, i < n -> f i = (i =? s)) -> List.filter f (seq 0 n) = [s].
Proof.
  intros Hs Hf. replace n with (s + S (n - S s)) by lia. rewrite seq_app, List.filter_app. cbn [seq List.filter Nat.add].
  rewrite Hf, Nat.eqb_refl by lia.
  assert (forall a m, a + m <= n -> (s < a \/ a + m <= s) -> List.filter f (seq a m) = []) as Hnil.
  { intros a m Ham Hor. revert a Ham Hor. induction m as [|m IH]; intros a Ham Hor; [done|]. cbn [seq List.filter].
    rewrite Hf, (proj2 (Nat.eqb_neq a s)) by lia. apply IH; lia. }
  rewrite !Hnil by lia. done.
Qed.

(** Two rows share a band when the bytes of one of their bands agree. *)
Lemma shares_band_bytes x y size es band r q j :
  shares_band (at_row x size q) (at_row y size j) (band * r * es) band = true <->
  exists b, b < band /\ band_bytes y size es band r j b = band_bytes x size es band r q b.
Proof.
  unfold shares_band, band_bytes, slice. rewrite existsb_exists. split.
  - intros (b & Hb%in_seq & E%bool_decide_eq_true). exists b. split; [lia|].
    by replace (band * r * es / band * b + band * r * es / band - band * r * es / band * b) with (band * r * es / band) in E by lia.
  - intros (b & Hb & E). exists b. split; [apply in_seq; lia|]. apply bool_decide_eq_true.
    by replace (band * r * es / band * b + band * r * es / band - band * r * es / band * b) with (band * r * es / band) by lia.
Qed.

(** C39: a hit in a later band returns another row.  Let query [q] have the bytes
    of row [s] in band [b], not the first, and no band hash in common with any
    other row or band.  If row [s] does not have the same rank among the hashes of
    the first band as among those of band [b], then the direct search returns
    [s], but the table search, whatever the hash function, reads the label at the
    place of the hit from the table of the first band and returns, with
    similarity 1, a row that shares no band with the query. *)
Theorem later_band_hit_returns_other_row {SS : StdSort} calculate_hash x y size es band r nx ny q s b :
  let key data := band_key calculate_hash data size es band r in
  let keys := band_keys calculate_hash y ny size es band r in
  (Z.of_nat ny < 2 ^ 31)%Z -> (forall j, j < nx -> readable (band * r * es) (at_row x size j)) ->
  (forall j, j < ny -> readable (band * r * es) (at_row y size j)) ->
  q < nx -> s < ny -> 0 < b < band ->
  band_bytes y size es band r s b = band_bytes x size es band r q b ->
  (forall j b', j < ny -> b' < band -> key y j b' = key x q b' -> j = s /\ b' = b) ->
  ~ (below (keys 0) (key y s 0) <= below (keys b) (key y s b) < up_to (keys 0) (key y s 0)) ->
  MinHashLSHHitByNy (at_row x size q) y size es band r ny 1 empty_bitset = Ret (took 1 [s]) /\
  exists res j, minhash_lsh_hit_with_topk1_opt_search calculate_hash x y size es band r nx ny 1 = Ret res /\
    res !! q = Some (took 1 [j]) /\ j < ny /\ j <> s /\
    shares_band (at_row x size q) (at_row y size j) (band * r * es) band = false.
Proof.
  intros key keys Hny Hx Hy Hq Hs Hb Hbytes Honly Hrank.
  assert (forall j, j < ny -> shares_band (at_row x size q) (at_row y size j) (band * r * es) band = (j =? s)) as Hshare.
  { intros j Hj. apply eq_true_iff_eq. rewrite shares_band_bytes, Nat.eqb_eq. split; [|intros ->; exists b; split; [lia|done]].
    intros (b' & Hb' & E). apply (Honly j b' Hj Hb'). unfold key, band_key. by rewrite E. }
  split.
  - rewrite hit_by_ny_spec by (done || lia || by apply empty_bitset_plain || by apply Hx).
    rewrite (filter_one _ ny s); [done|done|]. intros i Hi. unfold is_hit, row_allowed. cbn [BitsetView.empty empty_bitset]. by rewrite Hshare.
  - destruct (top1_search_by_bands calculate_hash x y size es band r nx ny) as (res & Hres & _ & Hfound);
      [lia|done|by intros j Hj; apply Hx|by intros j Hj; apply Hy|].
    destruct (Hfound q Hq) as (h & Hh & [[_ Hno]|(j & b' & -> & Hj & Hb' & (j' & Hj' & E) & _ & Hr & _)]).
    { exfalso. apply (Hno b s); [apply elem_of_seq; lia|done|]. unfold band_key. by rewrite Hbytes. }
    apply elem_of_seq in Hb'. destruct (Honly j' b' Hj' ltac:(lia) E) as [-> ->].
    assert (j <> s) as Hne. { intros ->. apply Hrank. unfold key, keys. by rewrite E. }
    exists res, j. split_and!; [done|done|done|done|]. rewrite Hshare by done. by apply Nat.eqb_neq.
Qed.

(** The rows [9;1], [5;2], [7;3] and the query [8;1], which shares the second band of row 0. *)
Lemma later_band_hit_returns_other_row_witness :
  MinHashLSHHitByNy [8; 1]%Z small_rows 2 1 2 1 3 1 empty_bitset = Ret (took 1 [0]) /\
  exists res j, minhash_lsh_hit_with_topk1_opt_search byte_hash [8; 1]%Z small_rows 2 1 2 1 1 3 1 = Ret res /\
    res !! 0 = Some (took 1 [j]) /\ j < 3 /\ j <> 0 /\ shares_band [8; 1]%Z (at_row small_rows 2 j) 2 2 = false.
Proof.
  apply (later_band_hit_returns_other_row byte_hash [8; 1]%Z small_rows 2 1 2 1 1 3 0 0 1).
  - vm_compute. reflexivity.
  - intros j Hj. destruct j as [|j]; [split; [bytes_ok|vm_compute; lia]|lia].
  - exact small_readable.
  - lia.
  - lia.
  - lia.
  - reflexivity.
  - intros [|[|[|j]]] [|[|b']] Hj Hb' E; try lia; vm_compute in E; discriminate E.
  - vm_compute. lia.
Defined.
