(* ===== verification/BruteForce.v ===== *)
(** * Brute-force search (src/common/comp/brute_force.cc)

    Searches that compare the query with every row.  The sparse ones are
    complete here; the dense and binary ones hand the scan to faiss, whose
    kernels are parameters.  Work handed to the pool is waited for at once, writes
    to its own part of the results, and is written in line. *)

From S2P Require Import Prelude Float Num Expected Bitset MemoryIO Operands MinHash SparseUtils SparseIndex SparseIndexSpec SparseSearch SparseProps.
From S2P Require Import RangeUtil EmbList Config Configs LoadSpec Iterators IteratorProps SparseIndexNode.

(** ** Sparse rows *)

(** [base_dataset]: its rows and [GetTensorBeginId()], which is not negative. *)
Record BaseData := mkBaseData { bf_rows : list (SparseRow spec_float); xb_id_offset : nat }.
Implicit Types bd : BaseData.

Definition GetDocValueComputer (fs : Fields) : M (expected (DocValueComputer spec_float)) :=
  let* metric := opt_value (member_string fs (base "metric_type")) in
  if IsMetricType metric "IP" then Ret (of_value GetDocValueOriginalComputer)
  else if IsMetricType metric "BM25" then
    match member_float fs (base "bm25_k1"), member_float fs (base "bm25_b"), member_float fs (base "bm25_avgdl") with
    | Some k1, Some b, Some avgdl => Ret (of_value (GetDocValueBM25Computer k1 b (nmax avgdl F32.one)))
    | _, _, _ => Ret (Err invalid_args "bm25_k1, bm25_b, bm25_avgdl must be set when searching for bm25 metric")
    end
  else Ret (Err invalid_metric_type "metric type not supported for sparse vector").

(** The loop over [base[j]] under BM25; else 0. *)
Definition bf_row_sum (is_bm25 : bool) (row : SparseRow spec_float) : spec_float :=
  if is_bm25 then foldl (fun s e => F32.add s (snd e)) F32.zero row else F32.zero.

Definition bf_score (is_bm25 : bool) (computer : DocValueComputer spec_float) (q row : SparseRow spec_float) : spec_float :=
  dot q row computer (bf_row_sum is_bm25 row).

(** [!bitset.empty() && bitset.test(i)]. *)
Definition filtered_out (bitset : BitsetView.t) (i : nat) : M bool :=
  if BitsetView.empty bitset then Ret false else BitsetView.test bitset i.

Section search.
Context {Json : Type} `{JL : !JsonLib Json, FC : !FloatConv} {PS : StdPartialSort} (hardware_concurrency : Z).
Implicit Types (json : gmap string Json) (queries : list (SparseRow spec_float)).

Definition BruteForceConfig : Config := Configs.make (BaseConfig hardware_concurrency) no_check.

(** One query of [SearchSparseWithBuf], on its part of the filled arrays. *)
Definition sparse_query bd (bitset : BitsetView.t) (is_bm25 : bool) (computer : DocValueComputer spec_float) (topk : nat)
    (row : SparseRow spec_float) : M (list spec_float * list Z) :=
  let cur_distances := replicate topk S754_nan in
  let cur_labels := replicate topk (-1)%Z in
  match row with
  | [] => Ret (cur_distances, cur_labels)
  | _ =>
      let* heap := foldM (fun heap j =>
          let x_id := j + xb_id_offset bd in
          let* skip := filtered_out bitset x_id in
          if skip then Ret heap
          else
            let* base_j := vget (bf_rows bd) j in
            let dist := bf_score is_bm25 computer row base_j in
            if SFltb F32.zero dist then MaxMinHeap.push heap x_id dist else Ret heap)
        (MaxMinHeap.make topk) (seq 0 (length (bf_rows bd))) in
      collect_result heap cur_distances cur_labels
  end.

(** [memory for at least nq * topk results]; they are overwritten from the front. *)
Definition overwrite {B} (front buf : list B) : M (list B) :=
  if length front <=? length buf then Ret (front ++ drop (length front) buf) else Undef.

Definition SearchSparseWithBuf bd queries (labels : list Z) (distances : list spec_float) json (bitset : BitsetView.t)
    : M (Status * (list Z * list spec_float)) :=
  let* (fs, status) := Load BruteForceConfig json SEARCH in
  if bool_decide (status <> success) then Ret (status, (labels, distances))
  else
    let* metric_str := opt_value (member_string fs (base "metric_type")) in
    let is_bm25 := IsMetricType metric_str "BM25" in
    let* computer_or := GetDocValueComputer fs in
    match exp_val computer_or with
    | None => Ret (err computer_or, (labels, distances))
    | Some computer =>
        let* k := opt_value (member_int fs (base "k")) in
        let* rs := foldM (fun rs q => let* r := sparse_query bd bitset is_bm25 computer (Z.to_nat k) q in Ret (rs ++ [r])) [] queries in
        let* labels := overwrite (concat (map snd rs)) labels in
        let* distances := overwrite (concat (map fst rs)) distances in
        Ret (success, (labels, distances))
    end.

(** [make_unique<T[]>] value-initialises; the status of the search is not used. *)
Definition SearchSparse bd queries json (bitset : BitsetView.t) : M (expected KnnResult) :=
  let nq := length queries in
  let* (fs, status) := Load BruteForceConfig json SEARCH in
  if bool_decide (status <> success) then Ret (Err status "")
  else
    let* k := opt_value (member_int fs (base "k")) in
    let topk := Z.to_nat k in
    let* (_, (labels, distances)) :=
      SearchSparseWithBuf bd queries (replicate (nq * topk) 0%Z) (replicate (nq * topk) F32.zero) json bitset in
    Ret (of_value (mkKnn nq topk labels distances)).

(** [compute_dist_func] of the sparse iterator. *)
Definition sparse_distances bd (bitset : BitsetView.t) (is_bm25 : bool) (computer : DocValueComputer spec_float)
    (row : SparseRow spec_float) : M (list (dist_id spec_float)) :=
  match row with
  | [] => Ret []
  | _ =>
      foldM (fun distances_ids j =>
          let xb_id := j + xb_id_offset bd in
          let* skip := filtered_out bitset xb_id in
          if skip then Ret distances_ids
          else
            let* base_j := vget (bf_rows bd) j in
            let dist := bf_score is_bm25 computer row base_j in
            Ret (if SFltb F32.zero dist then distances_ids ++ [DistId.mk (Z.of_nat xb_id) dist] else distances_ids))
        [] (seq 0 (length (bf_rows bd)))
  end.

(** [AnnIterator<SparseRow<float>>]. *)
Definition SparseAnnIterator bd queries json (bitset : BitsetView.t) : M (expected (list (Precomputed.t spec_float))) :=
  let* (fs, status) := Load BruteForceConfig json ITERATOR in
  if bool_decide (status <> success) then Ret (Err status "Failed to brute force search sparse for iterator: failed to load config: ")
  else
    let* metric_str := opt_value (member_string fs (base "metric_type")) in
    let is_bm25 := IsMetricType metric_str "BM25" in
    let* computer_or := GetDocValueComputer fs in
    match exp_val computer_or with
    | None => Ret (Err (err computer_or) (msg computer_or))
    | Some computer => Ret (of_value (map (fun q => Precomputed.make (sparse_distances bd bitset is_bm25 computer q) true) queries))
    end.

(** [std::set<std::pair<float, int64_t>, std::greater<>>]: the pairs in order. *)
Definition pair_gt (a b : spec_float * Z) : bool :=
  SFltb (fst b) (fst a) || (negb (SFltb (fst a) (fst b)) && (snd b <? snd a)%Z).
Fixpoint set_insert (x : spec_float * Z) (l : list (spec_float * Z)) : list (spec_float * Z) :=
  match l with
  | [] => [x]
  | y :: l' => if pair_gt x y then x :: l else if pair_gt y x then y :: set_insert x l' else l
  end.

(** One sparse query of [RangeSearch]; the bitset has the id offset set. *)
Definition sparse_range_query bd (bitset : BitsetView.t) (is_bm25 : bool) (computer : DocValueComputer spec_float)
    (radius range_filter : spec_float) (cur_query : SparseRow spec_float) : M (list (spec_float * Z)) :=
  foldM (fun result j =>
      let xid := (Z.of_nat (xb_id_offset bd) + Z.of_nat j)%Z in
      let* skip := filtered_out bitset j in
      if skip then Ret result
      else
        let* base_j := vget (bf_rows bd) j in
        let dist := bf_score is_bm25 computer cur_query base_j in
        Ret (if SFltb radius dist && SFleb dist range_filter then set_insert (dist, xid) result else result))
    [] (seq 0 (length (bf_rows bd))).

(** [RangeSearch<SparseRow<float>>]. *)
Definition SparseRangeSearch bd queries json (bitset_ : BitsetView.t) : M (expected (RangeSearchResult spec_float)) :=
  let bitset := BitsetView.set_id_offset bitset_ (xb_id_offset bd) in
  let nq := length queries in
  let* (fs, status) := Load BruteForceConfig json RANGE_SEARCH in
  if bool_decide (status <> success) then Ret (Err status "")
  else
    let* metric_str := opt_value (member_string fs (base "metric_type")) in
    let is_bm25 := IsMetricType metric_str "BM25" in
    let* computer_or := GetDocValueComputer fs in
    match exp_val computer_or with
    | None => Ret (Err (err computer_or) (msg computer_or))
    | Some computer =>
        let* radius := opt_value (member_float fs (base "radius")) in
        let* range_filter := opt_value (member_float fs (base "range_filter")) in
        if String.eqb metric_str "MHJACCARD" then Ret (Err not_implemented "minhash not support range search.")
        else
          let* results := foldM (fun rs q => let* r := sparse_range_query bd bitset is_bm25 computer radius range_filter q in Ret (rs ++ [r])) [] queries in
          let* r := GetRangeSearchResult (map (map fst) results) (map (map snd) results) nq in
          Ret (of_value r)
    end.

End search.

(** ** Dense and binary vectors *)

Inductive MetricType :=
  | METRIC_L2 | METRIC_INNER_PRODUCT | METRIC_Hamming | METRIC_Jaccard | METRIC_Substructure | METRIC_Superstructure | METRIC_MinHash_Jaccard.

#[export] Instance metric_type_eq_dec : EqDecision MetricType.
Proof. solve_decision. Defined.

(** [toupper] in the C locale. *)
Definition toupper (c : Ascii.ascii) : Ascii.ascii :=
  let n := Ascii.nat_of_ascii c in if (97 <=? n) && (n <=? 122) then Ascii.ascii_of_nat (n - 32) else c.
Fixpoint str_to_upper (s : string) : string := match s with EmptyString => EmptyString | String c s => String (toupper c) (str_to_upper s) end.

Definition metric_map : gmap string MetricType := list_to_map
  [("L2", METRIC_L2); ("IP", METRIC_INNER_PRODUCT); ("COSINE", METRIC_INNER_PRODUCT); ("HAMMING", METRIC_Hamming); ("JACCARD", METRIC_Jaccard);
   ("SUBSTRUCTURE", METRIC_Substructure); ("SUPERSTRUCTURE", METRIC_Superstructure); ("MHJACCARD", METRIC_MinHash_Jaccard)].

Definition Str2FaissMetricType (metric : string) : expected MetricType :=
  match metric_map !! str_to_upper metric with
  | Some m => of_value m
  | None => Err invalid_metric_type ("unsupported metric type " +:+ str_to_upper metric)
  end.

(** The vectors as bytes; [dn_lims] is [EMB_LIST_OFFSET]. *)
Record DenseData := mkDense { dn_tensor : list Z; dn_rows : nat; dn_dim : nat; dn_begin : nat; dn_lims : option (list nat) }.
Implicit Types (xd qd : DenseData) (ty : DataFormatEnum).

Definition size_of ty : nat := match ty with fp32 => 4 | fp16 | bf16 => 2 | _ => 1 end.

(** The three measures, and the types that have kernels for them: [fp32], and the
    low-precision types with the [_typed] ones. *)
Inductive Measure := L2sqr | inner_product | cosine.
Definition vector_type ty : bool := match ty with fp32 | fp16 | bf16 | int8 => true | bin1 | sparse_u32_f32 => false end.

(** faiss: the kernels, on a query and [nb] vectors; [sel] is [id_selector].
    [norm_L2sqr] stands for the norm functions that the hook has installed. *)
Class Faiss := {
  norm_L2sqr : DataFormatEnum -> list Z -> nat -> M spec_float;
  knn (m : Measure) (ty : DataFormatEnum) (query base : list Z) (norms : option (list spec_float)) (dim nb topk : nat) (sel : option BitsetView.t)
    : M (list spec_float * list Z);
  binary_knn_hc_jaccard (query base : list Z) (nb code_size topk : nat) (sel : option BitsetView.t) : M (list spec_float * list Z);
  binary_knn_hc_hamming (query base : list Z) (nb code_size topk : nat) (sel : option BitsetView.t) : M (list Z * list Z);
  binary_knn_mc (m : MetricType) (query base : list Z) (nb topk code_size : nat) (sel : option BitsetView.t) : M (list spec_float * list Z);
  range_search (m : Measure) (ty : DataFormatEnum) (query base : list Z) (norms : option (list spec_float)) (dim nb : nat) (radius : spec_float)
    (sel : option BitsetView.t) : M (list spec_float * list Z);
  binary_range_jaccard (query base : list Z) (nb : nat) (radius : spec_float) (code_size : nat) (sel : option BitsetView.t) : M (list spec_float * list Z);
  binary_range_hamming (query base : list Z) (nb : nat) (radius : Z) (code_size : nat) (sel : option BitsetView.t) : M (list spec_float * list Z);
  all_vec (m : Measure) (ty : DataFormatEnum) (query base : list Z) (norms : option (list spec_float)) (dim nb : nat)
    (distances_ids : list (dist_id spec_float)) (sel : option BitsetView.t) : M (list (dist_id spec_float));
  all_measures (m : Measure) (ty : DataFormatEnum) (query base : list Z) (dim nq nb : nat) : M (list spec_float);
  all_hamming_distances (query base : list Z) (code_size nq nb : nat) (distances : list spec_float) (sel : option BitsetView.t) : M (list spec_float);
  all_jaccard_distances (query base : list Z) (code_size nq nb : nat) (distances : list spec_float) (sel : option BitsetView.t) : M (list spec_float)
}.

(** [std::sqrt] on floats. *)
Definition fsqrt : spec_float -> spec_float := SFsqrt 24 128.

Section dense.
Context {Json : Type} `{JL : !JsonLib Json, FC : !FloatConv} {PS : StdPartialSort} `{FK : !Faiss} (hardware_concurrency : Z).
Implicit Types json : gmap string Json.

(** [const float FloatAccuracy = 0.00001]. *)
Definition FloatAccuracy : spec_float := F64.to_f32 (F64.div (F64.of_Z 1) (F64.of_Z 100000)).

(** [NormalizeVec<fp32>] on a vector of [d] floats; the vector and its norm. *)
Definition NormalizeVec (x : list spec_float) (d : nat) : M (list spec_float * spec_float) :=
  let* norm_l2_sqr := norm_L2sqr fp32 (enc_all x) d in
  if SFltb F32.zero norm_l2_sqr && SFltb FloatAccuracy (SFabs (F32.sub F32.one norm_l2_sqr)) then
    let norm_l2 := fsqrt norm_l2_sqr in
    let* x := foldM (fun x i => let* v := vget x i in vset x i (F32.div v norm_l2)) x (seq 0 d) in
    Ret (x, norm_l2)
  else Ret (x, F32.one).

Definition NormalizeVecs (x : list spec_float) (rows dim : nat) : M (list spec_float * list spec_float) :=
  foldM (fun (st : list spec_float * list spec_float) i =>
      let '(x, norms) := st in
      let* (v, n) := NormalizeVec (slice (i * dim) (i * dim + dim) x) dim in
      Ret (take (i * dim) x ++ v ++ drop (i * dim + dim) x, norms ++ [n]))
    (x, []) (seq 0 rows).

(** On the bytes of [rows] vectors. *)
Definition CopyAndNormalizeVecs (x : list Z) (rows dim : nat) : M (list Z) :=
  if rows * dim * 4 <=? length x then
    let* (x, _) := NormalizeVecs (dec_n (T:=spec_float) (rows * dim) x) rows dim in Ret (enc_all x)
  else Undef.

(** [8192]. *)
Definition chunk_size : nat := 8 * 1024.

(** [None] is [nullptr]. *)
Definition GetVecNorms ty xd : M (option (list spec_float)) :=
  match ty with
  | fp32 | fp16 | bf16 =>
      let* norms := foldM (fun norms chunk => foldM (fun norms j =>
          let* n := norm_L2sqr ty (at_row (dn_tensor xd) (size_of ty * dn_dim xd) j) (dn_dim xd) in vset norms j (fsqrt n))
        norms chunk) (replicate (dn_rows xd) F32.zero) (batches (dn_rows xd) chunk_size) in
      Ret (Some norms)
  | _ => Ret None
  end.

(** The query that a vector kernel gets. *)
Definition kernel_query (m : Measure) ty (cur_query : list Z) (dim : nat) : M (list Z) :=
  match m, ty with cosine, fp32 => CopyAndNormalizeVecs cur_query 1 dim | _, _ => Ret cur_query end.

Definition measure_of (is_cosine : bool) (m : MetricType) : Measure :=
  match m with METRIC_L2 => L2sqr | _ => if is_cosine then cosine else inner_product end.

(** One query of the dense branch of [SearchWithBuf]. *)
Definition dense_query ty (metric : MetricType) (is_cosine : bool) (norms : option (list spec_float)) xd (xq : list Z) (dim topk : nat)
    (sel : option BitsetView.t) (index : nat) : M (Status + list spec_float * list Z) :=
  let xb := dn_tensor xd in
  let nb := dn_rows xd in
  let byte_query := at_row xq (dim / 8) index in
  match metric with
  | METRIC_L2 | METRIC_INNER_PRODUCT =>
      let m := measure_of is_cosine metric in
      if vector_type ty then
        let* q := kernel_query m ty (at_row xq (size_of ty * dim) index) dim in
        let* r := knn m ty q xb (match m with cosine => norms | _ => None end) dim nb topk sel in Ret (inr r)
      else Ret (inl faiss_inner_error)
  | METRIC_Jaccard => let* r := binary_knn_hc_jaccard byte_query xb nb (dim / 8) topk sel in Ret (inr r)
  | METRIC_Hamming => let* (ds, ls) := binary_knn_hc_hamming byte_query xb nb (dim / 8) topk sel in Ret (inr (map F32.of_Z ds, ls))
  | METRIC_Substructure | METRIC_Superstructure => let* r := binary_knn_mc metric byte_query xb nb topk (dim / 8) sel in Ret (inr r)
  | METRIC_MinHash_Jaccard => Ret (inl invalid_metric_type)
  end.

(** [WaitAllSuccess]: all tasks have run; the first failure, or the results. *)
Fixpoint wait_all {B} (rs : list (Status + B)) : Status + list B :=
  match rs with
  | [] => inr []
  | inl s :: _ => inl s
  | inr b :: rs => match wait_all rs with inl s => inl s | inr bs => inr (b :: bs) end
  end.
Definition run_all {B} (task : nat -> M (Status + B)) (n : nat) : M (Status + list B) :=
  let* rs := foldM (fun rs i => let* r := task i in Ret (rs ++ [r])) [] (seq 0 n) in Ret (wait_all rs).

(** [labels[i] == -1 ? -1 : labels[i] + xb_id_offset]. *)
Definition shift_label (offset : nat) (l : Z) : Z := if (l =? -1)%Z then (-1)%Z else (l + Z.of_nat offset)%Z.
Definition shift_labels (offset : nat) (labels : list Z) : list Z := if offset =? 0 then labels else map (shift_label offset) labels.

Definition selector (bitset : BitsetView.t) : option BitsetView.t := if BitsetView.empty bitset then None else Some bitset.

(** The last branch of [SearchWithBuf]: neither embedding lists nor MinHash. *)
Definition dense_search ty xd qd (metric_str : string) (topk : nat) (bitset_ : BitsetView.t) : M (Status + list spec_float * list Z) :=
  let bitset := BitsetView.set_id_offset bitset_ (dn_begin xd) in
  let result := Str2FaissMetricType metric_str in
  match exp_val result with
  | None => Ret (inl (err result))
  | Some metric =>
      let is_cosine := IsMetricType metric_str "COSINE" in
      let* norms := (if is_cosine then GetVecNorms ty xd else Ret None) in
      let* rs := run_all (dense_query ty metric is_cosine norms xd (dn_tensor qd) (dn_dim xd) topk (selector bitset)) (dn_rows qd) in
      Ret (match rs with
           | inl s => inl s
           | inr rs => inr (concat (map fst rs), shift_labels (dn_begin xd) (concat (map snd rs)))
           end)
  end.

(** One query of the dense branch of [RangeSearch]. *)
Definition dense_range_query ty (metric : MetricType) (is_cosine : bool) (norms : option (list spec_float)) xd (xq : list Z) (dim : nat)
    (radius range_filter : spec_float) (sel : option BitsetView.t) (index : nat) : M (Status + list spec_float * list Z) :=
  let xb := dn_tensor xd in
  let nb := dn_rows xd in
  let byte_query := at_row xq (dim / 8) index in
  let* res := match metric with
    | METRIC_L2 | METRIC_INNER_PRODUCT =>
        let m := measure_of is_cosine metric in
        if vector_type ty then
          let* q := kernel_query m ty (at_row xq (size_of ty * dim) index) dim in
          let* r := range_search m ty q xb (match m with cosine => norms | _ => None end) dim nb radius sel in Ret (inr r)
        else Ret (inl faiss_inner_error)
    | METRIC_Jaccard => let* r := binary_range_jaccard byte_query xb nb radius (dim / 8) sel in Ret (inr r)
    | METRIC_Hamming => let* radius := float_to_int radius in let* r := binary_range_hamming byte_query xb nb radius (dim / 8) sel in Ret (inr r)
    | _ => Ret (inl invalid_metric_type)
    end in
  match res with
  | inl s => Ret (inl s)
  | inr (ds, ls) =>
      let ls := map (fun l => l + Z.of_nat (dn_begin xd))%Z ls in
      if negb (SFeqb range_filter defaultRangeFilter) then
        let* r := FilterRangeSearchResultForOneNq ds ls (bool_decide (metric = METRIC_INNER_PRODUCT)) radius range_filter in Ret (inr r)
      else Ret (inr (ds, ls))
  end.

Definition RangeSearch ty xd qd json (bitset_ : BitsetView.t) : M (expected (RangeSearchResult spec_float)) :=
  let bitset := BitsetView.set_id_offset bitset_ (dn_begin xd) in
  let* (fs, status) := Load (BruteForceConfig hardware_concurrency) json RANGE_SEARCH in
  if bool_decide (status <> success) then Ret (Err status "")
  else
    let* metric_str := opt_value (member_string fs (base "metric_type")) in
    let result := Str2FaissMetricType metric_str in
    match exp_val result with
    | None => Ret (Err (err result) (msg result))
    | Some metric =>
        let is_cosine := IsMetricType metric_str "COSINE" in
        let* radius := opt_value (member_float fs (base "radius")) in
        let* range_filter := opt_value (member_float fs (base "range_filter")) in
        if String.eqb metric_str "MHJACCARD" then Ret (Err not_implemented "minhash not support range search.")
        else
          let* norms := (if is_cosine then GetVecNorms ty xd else Ret None) in
          let* rs := run_all (dense_range_query ty metric is_cosine norms xd (dn_tensor qd) (dn_dim xd) radius range_filter (selector bitset)) (dn_rows qd) in
          match rs with
          | inl s => Ret (Err s "failed to brute force search")
          | inr rs => let* r := GetRangeSearchResult (map fst rs) (map snd rs) (dn_rows qd) in Ret (of_value r)
          end
    end.

(** [std::numeric_limits<float>::lowest()] and [min()]. *)
Definition float_lowest : spec_float := SFopp float_max.
Definition float_min : spec_float := S754_finite false 8388608 (-149).

(** [compute_dist_func] of [AnnIterator]; a message is an exception. *)
Definition dense_distances ty (metric : MetricType) (is_cosine : bool) (norms : option (list spec_float)) xd (xq : list Z) (dim : nat)
    (bitset_ : BitsetView.t) (index : nat) : M (list (dist_id spec_float)) :=
  let bitset := BitsetView.set_id_offset bitset_ (dn_begin xd) in
  let sel := selector bitset in
  let larger_is_closer := bool_decide (metric = METRIC_INNER_PRODUCT) || is_cosine in
  let max_dis := if larger_is_closer then float_lowest else float_max in
  let nb := dn_rows xd in
  let xb := dn_tensor xd in
  let initial := replicate nb (DistId.mk (-1)%Z max_dis) in
  let code_size := match ty with bin1 => (dim + 7) / 8 | _ => dim end in
  let cur_query := at_row xq (size_of ty * code_size) index in
  let all_bytes (f : list spec_float -> M (list spec_float)) (err_msg : string) :=
    match ty with
    | bin1 =>
        let* distances := f (replicate nb max_dis) in
        foldM (fun ds j => let* d := vget distances j in vset ds j (DistId.mk (Z.of_nat j) d)) initial (seq 0 nb)
    | _ => Throw err_msg
    end in
  let* distances_ids := match metric with
    | METRIC_L2 | METRIC_INNER_PRODUCT =>
        let m := measure_of is_cosine metric in
        if vector_type ty then
          let* q := kernel_query m ty cur_query dim in
          all_vec m ty q xb (match m with cosine => norms | _ => None end) dim nb initial sel
        else Throw ("Metric " +:+ (match m with L2sqr => "L2" | inner_product => "IP" | cosine => "COSINE" end) +:+ " not supported for current vector type")
    | METRIC_Hamming => all_bytes (fun ds => all_hamming_distances cur_query xb code_size 1 nb ds sel) "Metric HAMMING not supported for current vector type"
    | METRIC_Jaccard => all_bytes (fun ds => all_jaccard_distances cur_query xb code_size 1 nb ds sel) "Metric JACCARD not supported for current vector type"
    | _ => Throw "Invalid metric type: "
    end in
  Ret (if dn_begin xd =? 0 then distances_ids else map (fun d => DistId.mk (shift_label (dn_begin xd) (did d)) (dval d)) distances_ids).

(** [AnnIterator]: nothing is computed before the first use. *)
Definition AnnIterator ty xd qd json (bitset_ : BitsetView.t) : M (expected (list (Precomputed.t spec_float))) :=
  let* (fs, status) := Load (BruteForceConfig hardware_concurrency) json ITERATOR in
  if bool_decide (status <> success) then Ret (Err status "")
  else
    let* metric_str := opt_value (member_string fs (base "metric_type")) in
    let result := Str2FaissMetricType metric_str in
    match exp_val result with
    | None => Ret (Err (err result) (msg result))
    | Some metric =>
        if String.eqb metric_str "MHJACCARD" then Ret (Err not_implemented "minhash does not support iterator.")
        else
          let is_cosine := IsMetricType metric_str "COSINE" in
          let larger_is_closer := bool_decide (metric = METRIC_INNER_PRODUCT) || is_cosine in
          let* norms := GetVecNorms ty xd in
          Ret (of_value (map (fun i => Precomputed.make (dense_distances ty metric is_cosine norms xd (dn_tensor qd) (dn_dim xd) bitset_ i) larger_is_closer)
            (seq 0 (dn_rows qd))))
    end.

(** *** Embedding lists *)

(** The distances of a query list to a base list, or the error. *)
Definition el_distances ty (sub_metric : string) (cur_query cur_base : list Z) (dim code_size nq nb : nat) : M (Status + list spec_float) :=
  let vectors m :=
    if vector_type ty then
      let* q := (match m, ty with cosine, fp32 => CopyAndNormalizeVecs cur_query nq dim | _, _ => Ret cur_query end) in
      let* ds := all_measures m ty q cur_base dim nq nb in Ret (inr ds)
    else Ret (inl faiss_inner_error) in
  let bytes (f : list spec_float -> M (list spec_float)) :=
    match ty with bin1 => let* ds := f (replicate (nq * nb) F32.zero) in Ret (inr ds) | _ => Ret (inl faiss_inner_error) end in
  if IsMetricType sub_metric "COSINE" then vectors cosine
  else if IsMetricType sub_metric "IP" then vectors inner_product
  else if IsMetricType sub_metric "L2" then vectors L2sqr
  else if IsMetricType sub_metric "JACCARD" then bytes (fun ds => all_jaccard_distances cur_query cur_base code_size nq nb ds None)
  else if IsMetricType sub_metric "HAMMING" then bytes (fun ds => all_hamming_distances cur_query cur_base code_size nq nb ds None)
  else Ret (inl invalid_metric_type).

(** The heap of the best lists: [minheap] or [maxheap]. *)
Definition heap_order (larger_is_closer : bool) : dist_id spec_float -> dist_id spec_float -> bool :=
  if larger_is_closer then DistId.gt else DistId.lt.

Definition keep_best (larger_is_closer : bool) (topk : nat) (heap : list (dist_id spec_float)) (d : dist_id spec_float) : M (list (dist_id spec_float)) :=
  let comp := heap_order larger_is_closer in
  if length heap <? topk then emplace comp heap d
  else
    let* t := top heap in
    if (if larger_is_closer then SFltb (dval t) (dval d) else SFltb (dval d) (dval t)) then
      let* heap := pop comp heap in emplace comp heap d
    else Ret heap.

(** The loop that empties the heap into the results from the back. *)
Definition drain_heap (larger_is_closer : bool) (topk : nat) (heap : list (dist_id spec_float)) : M (list spec_float * list Z) :=
  let real_el_k := length heap in
  let fill := if larger_is_closer then float_min else float_max in
  let* (_, ds, ls) := foldM (fun (st : list (dist_id spec_float) * list spec_float * list Z) j =>
      let '(heap, ds, ls) := st in
      let* a := top heap in
      let* ls := vset ls (real_el_k - j - 1) (did a) in
      let* ds := vset ds (real_el_k - j - 1) (dval a) in
      let* heap := pop (heap_order larger_is_closer) heap in
      Ret (heap, ds, ls))
    (heap, replicate topk fill, replicate topk (-1)%Z) (seq 0 real_el_k) in
  Ret (ds, ls).

(** The loop over the base lists, with the errors that end it. *)
Fixpoint el_loop (score : nat -> M (Status + spec_float)) (larger_is_closer : bool) (topk : nat) (bitset : BitsetView.t) (offset : nat)
    (js : list nat) (heap : list (dist_id spec_float)) : M (Status + list (dist_id spec_float)) :=
  match js with
  | [] => Ret (inr heap)
  | j :: js =>
      let* skip := filtered_out bitset j in
      if skip then el_loop score larger_is_closer topk bitset offset js heap
      else
        let* s := score j in
        match s with
        | inl e => Ret (inl e)
        | inr s =>
            let* heap := keep_best larger_is_closer topk heap (DistId.mk (Z.of_nat j + Z.of_nat offset)%Z s) in
            el_loop score larger_is_closer topk bitset offset js heap
        end
  end.

(** The score of base list [j] for query list [i]. *)
Definition el_score ty (sub_metric : string) (agg : agg_func (A:=spec_float)) (larger_is_closer : bool) (base_off query_off : EmbListOffset) xd qd (i j : nat)
    : M (Status + spec_float) :=
  let dim := dn_dim xd in
  let* b0 := vget (offset base_off) j in
  let* b1 := vget (offset base_off) (j + 1) in
  let* q0 := vget (offset query_off) i in
  let* q1 := vget (offset query_off) (i + 1) in
  let code_size := match ty with bin1 => (dim + 7) / 8 | _ => dim end in
  let cur_query := at_row (dn_tensor qd) (size_of ty * code_size) q0 in
  let cur_base := at_row (dn_tensor xd) (size_of ty * code_size) b0 in
  let* ds := el_distances ty sub_metric cur_query cur_base dim code_size (q1 - q0) (b1 - b0) in
  match ds with
  | inl e => Ret (inl e)
  | inr ds =>
      let* s := agg ds (q1 - q0) (b1 - b0) larger_is_closer in
      Ret (match s with Some s => inr s | None => inl brute_force_inner_error end)
  end.

Definition el_query (score : nat -> M (Status + spec_float)) (larger_is_closer : bool) (topk : nat) (bitset : BitsetView.t) (begin num_base_el : nat)
    : M (Status + list spec_float * list Z) :=
  let* heap := el_loop score larger_is_closer topk bitset begin (seq 0 num_base_el) [] in
  match heap with
  | inl e => Ret (inl e)
  | inr heap => let* r := drain_heap larger_is_closer topk heap in Ret (inr r)
  end.

(** The branch of [SearchWithBuf] for embedding lists. *)
Definition emb_list_search ty xd qd (metric_str : string) (topk : nat) (bitset_ : BitsetView.t) : M (Status + list spec_float * list Z) :=
  let bitset := BitsetView.set_id_offset bitset_ (dn_begin xd) in
  match get_el_metric_type metric_str with
  | None => Ret (inl invalid_metric_type)
  | Some el_metric_type =>
      match get_emb_list_agg_func float_lowest float_max el_metric_type, get_sub_metric_type metric_str with
      | None, _ | Some _, None => Ret (inl brute_force_inner_error)
      | Some agg, Some sub_metric =>
          let larger_is_closer := negb (String.eqb sub_metric "L2" || String.eqb sub_metric "HAMMING" || String.eqb sub_metric "JACCARD") in
          match dn_lims xd, dn_lims qd with
          | Some xl, Some ql =>
              let* base_off := emb_list_offset xl (dn_rows xd) in
              let* query_off := emb_list_offset ql (dn_rows qd) in
              let* rs := run_all (fun i => el_query (el_score ty sub_metric (call_agg agg) larger_is_closer base_off query_off xd qd i)
                  larger_is_closer topk bitset (dn_begin xd) (num_el base_off)) (num_el query_off) in
              Ret (match rs with inl s => inl s | inr rs => inr (concat (map fst rs), concat (map snd rs)) end)
          | _, _ => Ret (inl invalid_args)
          end
      end
  end.

End dense.

(** ** What the sparse searches return *)

Section candidates.
Context (bd : BaseData) (bitset : BitsetView.t) (is_bm25 : bool) (computer : DocValueComputer spec_float).
Context (q : SparseRow spec_float) (Hb : BitsetView.plain bitset).
Context (Hok : Forall (fun row => nok (bf_score is_bm25 computer q row)) (bf_rows bd)).
Abbreviation score := (bf_score is_bm25 computer q).

(** The rows with an allowed id whose score satisfies [P], as [mk id score]. *)
Definition scored {B} (P : spec_float -> bool) (mk : nat -> spec_float -> B) : list nat -> list B := omap (fun j =>
  match bf_rows bd !! j with
  | Some row => if allowed bitset (j + xb_id_offset bd) && P (score row) then Some (mk (j + xb_id_offset bd) (score row)) else None
  | None => None
  end).

Definition bf_candidates : list (idval spec_float) := scored (SFltb F32.zero) IdVal.mk (seq 0 (length (bf_rows bd))).

Lemma scored_step {B} P (mk : nat -> spec_float -> B) j row : bf_rows bd !! j = Some row ->
  scored P mk (seq 0 (j + 1)) = scored P mk (seq 0 j) ++
    (if allowed bitset (j + xb_id_offset bd) && P (score row) then [mk (j + xb_id_offset bd) (score row)] else []).
Proof.
  intros Hj. unfold scored. rewrite Nat.add_1_r, seq_S, omap_app. f_equal. cbn [omap list_omap Nat.add]. rewrite Hj.
  by destruct (allowed _ _ && _).
Qed.

Lemma filtered_out_allowed i : filtered_out bitset i = Ret (negb (allowed bitset i)).
Proof.
  unfold filtered_out, allowed. destruct (BitsetView.empty bitset); [done|]. rewrite (bitset_test _ _ Hb). cbn [orb]. by rewrite negb_involutive.
Qed.

Lemma scored_ok P l : Forall MaxMinHeap.ok (scored P IdVal.mk l).
Proof.
  apply Forall_forall. intros x Hx. apply list_elem_of_omap in Hx as (i & _ & Hx). destruct (bf_rows bd !! i) as [row|] eqn:Hrow; [|done].
  destruct (_ && _); [|done]. injection Hx as <-. unfold MaxMinHeap.ok. cbn [IdVal.val]. apply (Forall_lookup_1 _ _ _ _ Hok Hrow).
Qed.

Lemma dot_empty row dl : dot [] row computer dl = F32.zero.
Proof. unfold dot. by destruct (length (@nil (Z * spec_float)) + length row). Qed.

Lemma empty_query : q = [] -> bf_candidates = [].
Proof.
  intros Hq. assert (forall row, score row = F32.zero) as Hz by (intros row; unfold bf_score; rewrite Hq; apply dot_empty).
  unfold bf_candidates, scored. induction (seq 0 (length (bf_rows bd))) as [|j l IH]; [done|]. cbn [omap list_omap].
  destruct (bf_rows bd !! j) as [row|]; [|done]. rewrite Hz. change (SFltb F32.zero F32.zero) with false. by rewrite andb_false_r.
Qed.

Lemma sparse_query_spec topk : 0 < topk ->
  exists res out, sparse_query bd bitset is_bm25 computer topk q = Ret res /\ MaxMinHeap.top_of topk bf_candidates out /\
    descending out /\ results_written out (replicate topk S754_nan) (replicate topk (-1)%Z) res.
Proof.
  intros Hk. unfold sparse_query. destruct (decide (q = [])) as [Hq|Hq].
  - pose proof (empty_query Hq) as Hn. rewrite Hn. destruct q; [|done]. eexists _, []. split_and!; [done|apply MaxMinHeap.top_of_nil|constructor|done].
  - set (loop := foldM _ _ _).
    assert (exists h, loop = Ret h /\ MaxMinHeap.inv h /\ MaxMinHeap.capacity h = topk /\ MaxMinHeap.top_of topk bf_candidates (MaxMinHeap.contents h)) as (h & Hh & Hinv & Hc & Htop).
    { apply wp_elim. unfold loop.
      apply (wp_for _ (fun j h => MaxMinHeap.inv h /\ MaxMinHeap.capacity h = topk /\
        MaxMinHeap.top_of topk (scored (SFltb F32.zero) IdVal.mk (seq 0 j)) (MaxMinHeap.contents h))).
      - split_and!; [apply MaxMinHeap.make_inv|done|]. rewrite MaxMinHeap.make_contents. apply MaxMinHeap.top_of_nil.
      - intros j h Hj (Hinv & Hc & Htop). destruct (lookup_lt_is_Some_2 (bf_rows bd) j ltac:(lia)) as [row Hrow]. rewrite filtered_out_allowed. cbn [bind].
        rewrite (scored_step _ _ j row Hrow). destruct (allowed bitset (j + xb_id_offset bd)); cbn [negb andb]; [|cbn [wp]; by rewrite app_nil_r].
        rewrite (proj2 (vget_Ret _ _ _) Hrow). cbn [bind]. destruct (SFltb F32.zero (score row)); [|cbn [wp]; by rewrite app_nil_r].
        eapply wp_mono; [eapply (MaxMinHeap.push_top_of h (scored (SFltb F32.zero) IdVal.mk (seq 0 j)) _ _ Hinv);
          [lia|exact (Forall_lookup_1 _ _ _ _ Hok Hrow)|apply scored_ok|by rewrite Hc]|].
        rewrite Hc. intros h' (? & ? & ?). done.
      - done. }
    rewrite Hh. cbn [bind]. destruct (collect_top topk h _ Hinv Hc Htop) as (res & out & Hres & Ho & Hd & Hw).
    exists res, out. destruct q; [done|]. split_and!; [exact Hres|exact Ho|exact Hd|exact Hw].
Qed.

End candidates.

(** ** Two rankings of the same rows agree *)

Lemma perm_list_filter {B} (p : B -> bool) (l l' : list B) : l ≡ₚ l' -> List.filter p l ≡ₚ List.filter p l'.
Proof.
  induction 1 as [|x l l' _ IH|x y l|l1 l2 l3 _ IH1 _ IH2]; cbn [List.filter]; [done| | |by rewrite IH1]; repeat destruct (p _); try done; [by rewrite IH|apply perm_swap].
Qed.

Section ranking.
Context {A : Type} `{!Num A, !NumOrder A}.
Implicit Types l K D : list (idval A).

Definition above (v : A) (x : idval A) : bool := nltb v (ival x).

Lemma above_none v l : Forall (fun x => nle (ival x) v) l -> List.filter (above v) l = [].
Proof. induction 1 as [|x l Hx _ IH]; [done|]. cbn [List.filter]. unfold above at 1. by rewrite (nle_not_lt _ _ Hx). Qed.

Lemma above_all v l : Forall (fun x => nltb v (ival x) = true) l -> List.filter (above v) l = l.
Proof. induction 1 as [|x l Hx _ IH]; [done|]. cbn [List.filter]. unfold above at 1. by rewrite Hx, IH. Qed.

Lemma above_count v l l' : l ≡ₚ l' -> length (List.filter (above v) l) = length (List.filter (above v) l').
Proof. intros E. by rewrite (Permutation_length (perm_list_filter (above v) _ _ E)). Qed.

(** In the order of a ranking, an element is no larger than any before it. *)
Lemma descending_split K i b : descending K -> K !! i = Some b ->
  Forall (fun x => MaxMinHeap.le b x) (take i K) /\ Forall (fun x => MaxMinHeap.le x b) (drop (S i) K).
Proof.
  intros Hd Hi. rewrite <- (take_drop_middle _ _ _ Hi) in Hd. apply StronglySorted_app in Hd as (Hbefore & _ & Hafter).
  apply StronglySorted_inv in Hafter as [_ Hafter]. split; [|done]. apply Forall_forall. intros x Hx. apply Hbefore; [done|by left].
Qed.

Lemma ranking_not_above cap l K1 K2 i a b : Forall MaxMinHeap.ok l -> MaxMinHeap.top_of cap l K1 -> MaxMinHeap.top_of cap l K2 ->
  descending K1 -> descending K2 -> K1 !! i = Some a -> K2 !! i = Some b -> nltb (ival b) (ival a) = false.
Proof.
  intros Hok (D1 & E1 & _ & _ & _) (D2 & E2 & _ & _ & Hle2) Hd1 Hd2 Ha Hb. destruct (nltb (ival b) (ival a)) eqn:Hlt; [exfalso|done].
  assert (MaxMinHeap.ok b) as Hokb.
  { apply (proj1 (Forall_forall _ _) Hok). rewrite E2. apply elem_of_app. left. by eapply list_elem_of_lookup_2. }
  pose proof (descending_split K1 i a Hd1 Ha) as [Hbefore _]. pose proof (descending_split K2 i b Hd2 Hb) as [_ Hafter].
  pose proof (above_count (ival b) _ _ E1) as C1. pose proof (above_count (ival b) _ _ E2) as C2. rewrite C1 in C2. clear C1.
  rewrite !List.filter_app, !length_app in C2. rewrite (above_none (ival b) D2) in C2.
  2:{ apply Forall_forall. intros d Hd. apply (Hle2 b d); [by eapply list_elem_of_lookup_2|done]. }
  rewrite <- (take_drop_middle _ _ _ Ha) in C2 at 1. rewrite <- (take_drop_middle _ _ _ Hb) in C2 at 1. rewrite !List.filter_app, !length_app in C2.
  cbn [List.filter] in C2. assert (above (ival b) b = false) as Hbb by (by apply nle_not_lt, nle_refl).
  change (above (ival b) a = true) in Hlt. rewrite Hlt, Hbb in C2.
  rewrite (above_none (ival b) (drop (S i) K2) Hafter) in C2. rewrite (above_all (ival b) (take i K1)) in C2.
  2:{ eapply Forall_impl; [exact Hbefore|]. intros x Hx. by apply (nltb_nle_trans (ival b) (ival a)). }
  pose proof (List.filter_length_le (above (ival b)) (take i K2)) as Hf. rewrite length_take in C2, Hf. cbn [length] in C2.
  apply lookup_lt_Some in Ha, Hb. lia.
Qed.

Lemma ranking_length cap l K : MaxMinHeap.top_of cap l K -> length K = Nat.min cap (length l).
Proof. intros (D & -> & Hlen & [->|Hfull] & _); rewrite length_app; cbn [length]; lia. Qed.

Lemma rankings_agree cap l K1 K2 : Forall MaxMinHeap.ok l -> MaxMinHeap.top_of cap l K1 -> MaxMinHeap.top_of cap l K2 ->
  descending K1 -> descending K2 -> Forall2 (fun x y => neqb (ival x) (ival y) = true) K1 K2.
Proof.
  intros Hok H1 H2 Hd1 Hd2. apply Forall2_same_length_lookup. split; [by rewrite (ranking_length _ _ _ H1), (ranking_length _ _ _ H2)|].
  intros i a b Ha Hb. pose proof H1 as (D1 & E1 & _). pose proof H2 as (D2 & E2 & _).
  assert (forall x K D, l ≡ₚ K ++ D -> K !! i = Some x -> nok (ival x)) as Hin.
  { intros x K D E Hx. apply (proj1 (Forall_forall _ _) Hok). rewrite E. apply elem_of_app. left. by eapply list_elem_of_lookup_2. }
  apply neqb_total; [exact (Hin a K1 D1 E1 Ha)|exact (Hin b K2 D2 E2 Hb)|exact (ranking_not_above cap l K2 K1 i b a Hok H2 H1 Hd2 Hd1 Hb Ha)|
    exact (ranking_not_above cap l K1 K2 i a b Hok H1 H2 Hd1 Hd2 Ha Hb)].
Qed.

End ranking.

(** ** Sparse searches *)

(** The results of one query, padded to [topk]. *)
Definition padded_labels (topk : nat) (out : list (idval spec_float)) : list Z :=
  ((fun x => Z.of_nat (iid x)) <$> out) ++ replicate (topk - length out) (-1)%Z.
Definition padded_distances (topk : nat) (out : list (idval spec_float)) : list spec_float :=
  (ival <$> out) ++ replicate (topk - length out) S754_nan.

(** [rank topk cands out]: [out] holds the [topk] largest of [cands], largest first. *)
Definition rank (topk : nat) (cands out : list (idval spec_float)) : Prop := MaxMinHeap.top_of topk cands out /\ descending out.

Lemma written_padded topk cands out res : rank topk cands out ->
  results_written out (replicate topk S754_nan) (replicate topk (-1)%Z) res -> res = (padded_distances topk out, padded_labels topk out).
Proof. intros _ ->. unfold padded_distances, padded_labels. by rewrite !drop_replicate. Qed.

Lemma length_padded topk cands out : rank topk cands out -> length (padded_labels topk out) = topk /\ length (padded_distances topk out) = topk.
Proof.
  intros [(D & _ & Hlen & _) _]. unfold padded_labels, padded_distances. rewrite !length_app, !length_fmap, !length_replicate. lia.
Qed.

Section sparse_props.
Context {Json : Type} `{JL : !JsonLib Json, FC : !FloatConv} (hc : Z).
Implicit Types (json : gmap string Json) (queries : list (SparseRow spec_float)).

Lemma queries_spec bd bitset is_bm25 computer topk queries : BitsetView.plain bitset -> 0 < topk ->
  Forall (fun q => Forall (fun row => nok (bf_score is_bm25 computer q row)) (bf_rows bd)) queries ->
  exists outs, Forall2 (fun q out => rank topk (bf_candidates bd bitset is_bm25 computer q) out) queries outs /\
    foldM (fun rs q => let* r := sparse_query bd bitset is_bm25 computer topk q in Ret (rs ++ [r])) [] queries =
      Ret (map (fun out => (padded_distances topk out, padded_labels topk out)) outs).
Proof.
  intros Hb Hk Hok. enough (forall acc, exists outs, Forall2 (fun q out => rank topk (bf_candidates bd bitset is_bm25 computer q) out) queries outs /\
    foldM (fun rs q => let* r := sparse_query bd bitset is_bm25 computer topk q in Ret (rs ++ [r])) acc queries =
      Ret (acc ++ map (fun out => (padded_distances topk out, padded_labels topk out)) outs)) as H by exact (H []).
  induction Hok as [|q queries Hq _ IH]; intros acc; [exists []; split; [constructor|cbn [map foldM]; by rewrite app_nil_r]|].
  destruct (sparse_query_spec bd bitset is_bm25 computer q Hb Hq topk Hk) as (res & out & Hres & Htop & Hd & Hw).
  rewrite (written_padded topk _ out res (conj Htop Hd) Hw) in Hres. cbn [foldM]. rewrite Hres. cbn [bind].
  destruct (IH (acc ++ [(padded_distances topk out, padded_labels topk out)])) as (outs & Hf & ->). exists (out :: outs).
  split; [constructor; [exact (conj Htop Hd)|done]|]. cbn [map]. by rewrite <- app_assoc.
Qed.

Lemma padded_total topk queries outs (R : SparseRow spec_float -> list (idval spec_float) -> Prop) :
  (forall q out, R q out -> length (padded_labels topk out) = topk /\ length (padded_distances topk out) = topk) -> Forall2 R queries outs ->
  length (concat (map (padded_labels topk) outs)) = length queries * topk /\ length (concat (map (padded_distances topk) outs)) = length queries * topk.
Proof.
  intros Hlen Hf. induction Hf as [|q out queries outs Hr _ [IH1 IH2]]; [done|]. cbn [map concat length]. rewrite !length_app, IH1, IH2.
  destruct (Hlen _ _ Hr) as [-> ->]. lia.
Qed.

Lemma overwrite_all {B} (l buf : list B) : length l = length buf -> overwrite l buf = Ret l.
Proof. intros E. unfold overwrite. rewrite E, Nat.leb_refl, drop_ge by lia. by rewrite app_nil_r. Qed.

(** C19: the sparse brute-force search.  When the parameters load, name a sparse
    metric with what it needs, and no score is NaN, the search returns for every
    query the [k] largest (all, if fewer) positive scores among the rows whose
    id, counted from the first id of the data, the bitset allows, largest first
    with their ids; the other places hold -1 and NaN. *)
Theorem sparse_brute_force_topk bd queries json bitset fs metric topk computer :
  Load (BruteForceConfig hc) json SEARCH = Ret (fs, success) -> member_string fs (base "metric_type") = Some metric ->
  member_int fs (base "k") = Some (Z.of_nat topk) -> 0 < topk -> GetDocValueComputer fs = Ret (of_value computer) -> BitsetView.plain bitset ->
  let is_bm25 := IsMetricType metric "BM25" in
  Forall (fun q => Forall (fun row => nok (bf_score is_bm25 computer q row)) (bf_rows bd)) queries ->
  exists outs, SearchSparse hc bd queries json bitset =
      Ret (of_value (mkKnn (length queries) topk (concat (map (padded_labels topk) outs)) (concat (map (padded_distances topk) outs)))) /\
    Forall2 (fun q out => rank topk (bf_candidates bd bitset is_bm25 computer q) out) queries outs.
Proof.
  intros Hload Hm Hk Hpos Hc Hb is_bm25 Hok. destruct (queries_spec bd bitset is_bm25 computer topk queries Hb Hpos Hok) as (outs & Hf & Hq).
  exists outs. split; [|done]. destruct (padded_total topk queries outs _ (fun q => length_padded topk _) Hf) as [Hl Hd].
  unfold SearchSparse, SearchSparseWithBuf. rewrite Hload. cbn [bind]. rewrite !bool_decide_eq_false_2 by (by intros []). rewrite Hk, Hm. cbn [opt_value bind].
  rewrite Hc. cbn [bind exp_val of_value]. rewrite Nat2Z.id. fold is_bm25. rewrite Hq. cbn [bind]. rewrite !map_map. cbn [fst snd].
  change (map (fun x => padded_labels topk x) outs) with (map (padded_labels topk) outs).
  change (map (fun x => padded_distances topk x) outs) with (map (padded_distances topk) outs).
  by rewrite !overwrite_all by (by rewrite length_replicate).
Qed.

(** the status of a failed sparse search is lost.  With a metric that is
    neither IP nor BM25 the search on the caller's arrays reports the invalid
    metric and leaves the arrays alone, but [SearchSparse] returns a success: for
    every query [k] times row 0 at distance 0. *)
Theorem failed_sparse_search_reports_rows bd queries json bitset fs metric topk labels distances :
  Load (BruteForceConfig hc) json SEARCH = Ret (fs, success) -> member_string fs (base "metric_type") = Some metric ->
  member_int fs (base "k") = Some (Z.of_nat topk) -> IsMetricType metric "IP" = false -> IsMetricType metric "BM25" = false ->
  SearchSparseWithBuf hc bd queries labels distances json bitset = Ret (invalid_metric_type, (labels, distances)) /\
  SearchSparse hc bd queries json bitset =
    Ret (of_value (mkKnn (length queries) topk (replicate (length queries * topk) 0%Z) (replicate (length queries * topk) F32.zero))).
Proof.
  intros Hload Hm Hk Hip Hbm.
  assert (forall ls ds, SearchSparseWithBuf hc bd queries ls ds json bitset = Ret (invalid_metric_type, (ls, ds))) as Hbuf.
  { intros ls ds. unfold SearchSparseWithBuf. rewrite Hload. cbn [bind]. rewrite bool_decide_eq_false_2 by (by intros []). rewrite Hm. cbn [opt_value bind].
    unfold GetDocValueComputer. rewrite Hm. cbn [opt_value bind]. rewrite Hip, Hbm. reflexivity. }
  split; [apply Hbuf|]. unfold SearchSparse. rewrite Hload. cbn [bind]. rewrite bool_decide_eq_false_2 by (by intros []). rewrite Hk. cbn [opt_value bind].
  rewrite Hbuf. cbn [bind]. by rewrite Nat2Z.id.
Qed.

End sparse_props.

(** ** The inverted index against brute force *)

Lemma ref_score_dot {A} `{!Num A, !NumOrder A, !StdSort} (ix : InvertedIndex A A) computer q row : metric_type ix = METRIC_IP ->
  dims_sorted q -> dims_sorted row -> no_zeros row -> ref_score (ix:=ix) computer q row = dot q row computer nzero.
Proof. intros Hmt Hq Hs Hz. rewrite dot_spec by done. unfold ref_score, term, dlen, is_bm25. by rewrite Hmt. Qed.

Lemma candidates_brute_force {SS : StdSort} (ix : InvertedIndex spec_float spec_float) rows computer q bitset :
  (forall row, row ∈ rows -> ref_score (ix:=ix) computer q row = bf_score false computer q row) ->
  Forall (fun row => nok (bf_score false computer q row) /\ SFltb (bf_score false computer q row) F32.zero = false) rows ->
  candidates (ix:=ix) (rows:=rows) computer q (allowed bitset) (length rows) = bf_candidates (mkBaseData rows 0) bitset false computer q.
Proof.
  intros Hs Hpos. unfold candidates, bf_candidates, scored. cbn [bf_rows xb_id_offset]. apply omap_ext_in. intros i _.
  destruct (rows !! i) as [row|] eqn:Hrow; [|done]. cbv zeta. rewrite Nat.add_0_r. pose proof (list_elem_of_lookup_2 _ _ _ Hrow) as Hin. rewrite (Hs row Hin).
  apply (proj1 (list.Forall_forall _ _) Hpos) in Hin as [Hok Hge]. set (s := bf_score false computer q row) in *. cbn [nzero neqb F32_num].
  enough (negb (SFeqb s F32.zero) = SFltb F32.zero s) as -> by done. destruct (SFeqb s F32.zero) eqn:E; cbn [negb].
  - symmetry. apply (neqb_ge s F32.zero Hok nok_zero E).
  - symmetry. destruct (SFltb F32.zero s) eqn:E2; [done|]. pose proof (neqb_total s F32.zero Hok nok_zero Hge E2) as E3. cbn [neqb F32_num] in E3. by rewrite E3 in E.
Qed.

(** C9: the exhaustive index search and brute force agree.  For an inner-product
    index built from rows sorted by dimension and without zeros, a sorted query
    none of whose scores is negative or NaN, no dropped terms and no refinement,
    the index search and the brute-force search both finish, rank the same
    candidates, and return equal distances place by place, padded from the same
    place on. *)
Theorem index_search_matches_brute_force {SS : StdSort} rows dim q k bitset params : let computer := GetDocValueOriginalComputer in
  Forall (fun row => dims_sorted row /\ no_zeros row) rows -> dims_sorted q -> BitsetView.plain bitset -> 0 < k ->
  refine_factor params = 1 -> SFeqb (drop_ratio_search params) F32.zero = true ->
  Forall (fun row => nok (bf_score false computer q row) /\ SFltb (bf_score false computer q row) F32.zero = false) rows ->
  exists ix ires bres iout bout, SparseIndex.Add (Q:=spec_float) TAAT_NAIVE (new_index METRIC_IP None) rows dim = Ret ix /\
    SparseSearch.Search TAAT_NAIVE ix q k bitset computer params = Ret ires /\
    sparse_query (mkBaseData rows 0) bitset false computer k q = Ret bres /\
    ires = (padded_distances k iout, padded_labels k iout) /\ bres = (padded_distances k bout, padded_labels k bout) /\
    rank k (bf_candidates (mkBaseData rows 0) bitset false computer q) iout /\ rank k (bf_candidates (mkBaseData rows 0) bitset false computer q) bout /\
    Forall2 (fun x y => SFeqb (ival x) (ival y) = true) iout bout.
Proof.
  intros computer Hrows Hq Hb Hk Href Hdrop Hpos.
  assert (Forall row_ok rows) as Hrok by (eapply Forall_impl; [exact Hrows|]; intros row [Hs _]; by apply dims_sorted_ok).
  destruct (wp_elim _ _ (Add_spec TAAT_NAIVE (new_index METRIC_IP None : InvertedIndex spec_float spec_float) [] rows dim ltac:(by apply represents_new) Hrok))
    as (ix & Hix & Hrep & Hmt & _). cbn [app] in Hrep.
  assert (forall row, row ∈ rows -> ref_score (ix:=ix) computer q row = bf_score false computer q row) as Hs.
  { intros row Hin. apply (proj1 (list.Forall_forall _ _) Hrows) in Hin as [Hso Hz].
    exact (ref_score_dot ix computer q row Hmt Hq Hso Hz). }
  pose proof (candidates_brute_force ix rows computer q bitset Hs Hpos) as Hc.
  assert (Forall (fun row => nok (bf_score false computer q row)) rows) as Hok by (eapply Forall_impl; [exact Hpos|]; by intros row [? _]).
  destruct (taat_search_topk ix rows q k bitset computer params Hrep Hb Hk Href Hdrop) as (ires & iout & Hi & Hit & Hid & Hiw).
  { apply list.Forall_forall. intros row Hin. rewrite (Hs row Hin). by apply (proj1 (list.Forall_forall _ _) Hok). }
  change (fun i => BitsetView.empty bitset || negb ((BitsetView.num_bits bitset <=? i) || BitsetView.filtered bitset i)) with (allowed bitset) in Hit. rewrite Hc in Hit.
  destruct (sparse_query_spec (mkBaseData rows 0) bitset false computer q Hb Hok k Hk) as (bres & bout & Hbr & Hbt & Hbd & Hbw).
  exists ix, ires, bres, iout, bout. split_and!; [exact Hix|exact Hi|exact Hbr|exact (written_padded k _ iout ires (conj Hit Hid) Hiw)|
    exact (written_padded k _ bout bres (conj Hbt Hbd) Hbw)|exact (conj Hit Hid)|exact (conj Hbt Hbd)|].
  refine (rankings_agree (A:=spec_float) k _ iout bout _ Hit Hbt Hid Hbd). by apply scored_ok.
Qed.

(** ** Sparse iterators and range search *)

Section ordered_set.
Implicit Types (x y z : spec_float * Z) (l : list (spec_float * Z)).

Definition as_dist_id x : dist_id spec_float := DistId.mk (snd x) (fst x).
Definition okp x : Prop := nok (fst x).

Lemma pair_gt_lt x y : okp x -> okp y -> pair_gt x y = DistId.lt (as_dist_id y) (as_dist_id x).
Proof.
  intros Hx Hy. apply eq_true_iff_eq. rewrite (dist_lt_spec (as_dist_id y) (as_dist_id x) Hy Hx). unfold pair_gt.
  by rewrite orb_true_iff, andb_true_iff, negb_true_iff, Z.ltb_lt.
Qed.

(** No later pair is greater. *)
Definition set_sorted l : Prop := StronglySorted (fun x y => pair_gt y x = false) l.

Lemma pair_gt_total x y : okp x -> okp y -> snd x <> snd y -> pair_gt x y = false -> pair_gt y x = true.
Proof.
  intros Hx Hy Hne Hxy. rewrite pair_gt_lt in * by done. apply (dist_lt_spec (as_dist_id x) (as_dist_id y) Hx Hy).
  apply not_true_iff_false in Hxy. rewrite (dist_lt_spec (as_dist_id y) (as_dist_id x) Hy Hx) in Hxy. cbn [as_dist_id DistId.id DistId.val] in *.
  destruct (nltb (fst x) (fst y)) eqn:E; [by left|right]. destruct (nltb (fst y) (fst x)) eqn:E2; [destruct Hxy; by left|]. split; [done|].
  destruct (Z.lt_total (snd x) (snd y)) as [?|[?|?]]; [done|done|]. destruct Hxy. by right.
Qed.

Lemma pair_gt_asym x y : okp x -> okp y -> pair_gt x y = true -> pair_gt y x = false.
Proof. intros Hx Hy Hxy. rewrite pair_gt_lt in * by done. by apply dist_lt_asym. Qed.

Lemma pair_gt_negtrans x y z : okp x -> okp y -> okp z -> pair_gt x y = false -> pair_gt y z = false -> pair_gt x z = false.
Proof. intros Hx Hy Hz H1 H2. rewrite pair_gt_lt in * by done. exact (dist_lt_negtrans (as_dist_id z) (as_dist_id y) (as_dist_id x) Hz Hy Hx H2 H1). Qed.

Lemma set_insert_spec x l : okp x -> Forall okp l -> snd x ∉ map snd l -> set_sorted l -> set_insert x l ≡ₚ x :: l /\ set_sorted (set_insert x l).
Proof.
  intros Hx Hl Hf Hs. induction Hs as [|y l Hs IH Hy]; [split; [done|repeat constructor]|]. apply Forall_cons_1 in Hl as [Hoy Hl]. cbn [map] in Hf.
  apply not_elem_of_cons in Hf as [Hne Hf]. cbn [set_insert]. destruct (pair_gt x y) eqn:E.
  - split; [done|]. constructor; [by constructor|]. constructor; [by apply pair_gt_asym|]. apply list.Forall_forall. intros z Hz.
    pose proof (proj1 (list.Forall_forall _ _) Hl z Hz) as Hoz. pose proof (proj1 (list.Forall_forall _ _) Hy z Hz) as Hzy. cbn beta in Hzy.
    exact (pair_gt_negtrans z y x Hoz Hoy Hx Hzy (pair_gt_asym x y Hx Hoy E)).
  - rewrite (pair_gt_total x y Hx Hoy Hne E). destruct (IH Hl Hf) as [Hp Hsi]. split; [rewrite Hp; apply perm_swap|]. constructor; [done|].
    rewrite Hp. by constructor.
Qed.

End ordered_set.

Section sparse_results.
Context {PS : StdPartialSort} (bd : BaseData) (bitset : BitsetView.t) (is_bm25 : bool) (computer : DocValueComputer spec_float).
Context (q : SparseRow spec_float) (Hb : BitsetView.plain bitset).
Context (Hok : Forall (fun row => nok (bf_score is_bm25 computer q row)) (bf_rows bd)).
Abbreviation score := (bf_score is_bm25 computer q).
Abbreviation rows_with P mk := (scored bd bitset is_bm25 computer q P mk (seq 0 (length (bf_rows bd)))).

Definition to_dist (id : nat) (s : spec_float) : dist_id spec_float := DistId.mk (Z.of_nat id) s.
Definition to_pair (id : nat) (s : spec_float) : spec_float * Z := (s, Z.of_nat id).
Definition in_range (radius range_filter s : spec_float) : bool := SFltb radius s && SFleb s range_filter.

Lemma sparse_distances_spec : sparse_distances bd bitset is_bm25 computer q = Ret (rows_with (SFltb F32.zero) to_dist).
Proof.
  unfold sparse_distances. destruct (decide (q = [])) as [Hq|Hq].
  - assert (forall row, score row = F32.zero) as Hz by (intros row; unfold bf_score; rewrite Hq; apply dot_empty).
    destruct q; [|done]. f_equal. unfold scored. symmetry. induction (seq 0 (length (bf_rows bd))) as [|j l IH]; [done|]. cbn [omap list_omap].
    destruct (bf_rows bd !! j) as [row|]; [|done]. rewrite Hz. change (SFltb F32.zero F32.zero) with false. by rewrite andb_false_r.
  - set (loop := foldM _ _ _). enough (loop = Ret (rows_with (SFltb F32.zero) to_dist)) as E by (by destruct q). unfold loop.
    match goal with |- ?m = Ret ?r => enough (wp m (fun l => l = r)) as H by (by apply wp_elim in H as (? & -> & ->)) end.
    apply (wp_for _ (fun j l => l = scored bd bitset is_bm25 computer q (SFltb F32.zero) to_dist (seq 0 j))); [done| |done].
    intros j l Hj ->. destruct (lookup_lt_is_Some_2 (bf_rows bd) j ltac:(lia)) as [row Hrow]. rewrite (filtered_out_allowed bitset Hb). cbn [bind].
    rewrite (scored_step bd bitset is_bm25 computer q _ _ j row Hrow). destruct (allowed bitset (j + xb_id_offset bd)); cbn [negb andb]; [|cbn [wp]; by rewrite app_nil_r].
    rewrite (proj2 (vget_Ret _ _ _) Hrow). cbn [bind wp]. destruct (SFltb F32.zero (score row)); [done|by rewrite app_nil_r].
Qed.

Lemma shifted_test j : filtered_out (BitsetView.set_id_offset bitset (xb_id_offset bd)) j = Ret (negb (allowed bitset (j + xb_id_offset bd))).
Proof.
  rewrite <- (filtered_out_allowed bitset Hb). unfold filtered_out, BitsetView.test, BitsetView.empty. cbn [BitsetView.set_id_offset BitsetView.num_bits BitsetView.out_ids BitsetView.id_offset BitsetView.bits].
  by rewrite (BitsetView.pl_ids _ Hb), (BitsetView.pl_off _ Hb), Nat.add_0_r.
Qed.

(** The ids of the rows before [j] are smaller. *)
Lemma scored_ids P j (x : spec_float * Z) : x ∈ scored bd bitset is_bm25 computer q P to_pair (seq 0 j) ->
  okp x /\ (snd x < Z.of_nat (j + xb_id_offset bd))%Z.
Proof.
  intros Hx. apply list_elem_of_omap in Hx as (i & Hi%elem_of_seq & Hx). destruct (bf_rows bd !! i) as [row|] eqn:Hrow; [|done].
  destruct (_ && _); [|done]. injection Hx as <-. split; [exact (Forall_lookup_1 _ _ _ _ Hok Hrow)|cbn [snd to_pair]; lia].
Qed.

Lemma range_query_spec radius range_filter :
  exists l, sparse_range_query bd (BitsetView.set_id_offset bitset (xb_id_offset bd)) is_bm25 computer radius range_filter q = Ret l /\
    l ≡ₚ rows_with (in_range radius range_filter) to_pair /\ set_sorted l.
Proof.
  apply wp_elim. unfold sparse_range_query.
  apply (wp_for _ (fun j l => l ≡ₚ scored bd bitset is_bm25 computer q (in_range radius range_filter) to_pair (seq 0 j) /\ set_sorted l)); [split; [done|constructor]| |done].
  intros j l Hj [Hp Hs]. destruct (lookup_lt_is_Some_2 (bf_rows bd) j ltac:(lia)) as [row Hrow]. rewrite shifted_test. cbn [bind].
  rewrite (scored_step bd bitset is_bm25 computer q _ _ j row Hrow). destruct (allowed bitset (j + xb_id_offset bd)); cbn [negb andb]; [|cbn [wp]; by rewrite app_nil_r].
  rewrite (proj2 (vget_Ret _ _ _) Hrow). cbn [bind wp]. fold (in_range radius range_filter (score row)). destruct (in_range radius range_filter (score row)); [|by rewrite app_nil_r].
  destruct (set_insert_spec (to_pair (j + xb_id_offset bd) (score row)) l) as [Hpi Hsi]; [exact (Forall_lookup_1 _ _ _ _ Hok Hrow)| | |done|].
  - apply list.Forall_forall. intros x Hx. rewrite Hp in Hx. by apply scored_ids in Hx as [? _].
  - intros Hin. apply list_elem_of_fmap in Hin as (x & E & Hx). rewrite Hp in Hx. apply scored_ids in Hx as [_ Hlt]. rewrite <- E in Hlt. cbn [snd to_pair] in Hlt. lia.
  - replace (Z.of_nat (xb_id_offset bd) + Z.of_nat j)%Z with (Z.of_nat (j + xb_id_offset bd)) by lia. split; [|exact Hsi].
    change (set_insert (score row, Z.of_nat (j + xb_id_offset bd)) l) with (set_insert (to_pair (j + xb_id_offset bd) (score row)) l).
    rewrite Hpi, Hp. by rewrite Permutation_app_comm.
Qed.

Lemma scored_inj P l (x y : spec_float * Z) : x ∈ scored bd bitset is_bm25 computer q P to_pair l ->
  y ∈ scored bd bitset is_bm25 computer q P to_pair l -> snd x = snd y -> x = y.
Proof.
  intros (i & _ & Hi)%list_elem_of_omap (j & _ & Hj)%list_elem_of_omap E.
  destruct (bf_rows bd !! i) as [ri|] eqn:Hri; [|done]. destruct (bf_rows bd !! j) as [rj|] eqn:Hrj; [|done].
  destruct (allowed _ _ && _) in Hi; [|done]. destruct (allowed _ _ && _) in Hj; [|done]. injection Hi as <-. injection Hj as <-.
  cbn [snd to_pair] in E. assert (i = j) as -> by lia. rewrite Hri in Hrj. by injection Hrj as ->.
Qed.

Definition dist_pair (d : dist_id spec_float) : spec_float * Z := (dval d, did d).
Definition within_range (radius range_filter : spec_float) (out : list (dist_id spec_float)) : list (spec_float * Z) :=
  map dist_pair (List.filter (fun d => in_range radius range_filter (dval d)) out).

Lemma range_of_scored radius range_filter l : nok radius -> SFltb radius F32.zero = false ->
  within_range radius range_filter (scored bd bitset is_bm25 computer q (SFltb F32.zero) to_dist l) =
  scored bd bitset is_bm25 computer q (in_range radius range_filter) to_pair l.
Proof.
  intros Hr Hr0. unfold within_range, scored. induction l as [|j l IH]; [done|]. cbn [omap list_omap]. destruct (bf_rows bd !! j) as [row|] eqn:Hrow; [|exact IH].
  pose proof (Forall_lookup_1 _ _ _ _ Hok Hrow) as Hs. cbn beta in Hs. destruct (allowed bitset (j + xb_id_offset bd)); cbn [andb]; [|exact IH].
  destruct (SFltb F32.zero (score row)) eqn:E.
  - cbn [List.filter to_dist DistId.val]. destruct (in_range radius range_filter (score row)); [|exact IH]. cbn [map dist_pair to_dist DistId.val DistId.id]. f_equal. exact IH.
  - assert (in_range radius range_filter (score row) = false) as ->; [|exact IH]. unfold in_range. destruct (SFltb radius (score row)) eqn:E2; [|done]. exfalso.
    assert (nle F32.zero radius) as Hle by (split; [exact nok_zero|split; [exact Hr|exact Hr0]]).
    pose proof (nle_nltb_trans F32.zero radius (score row) Hle Hs E2) as H. cbn [nltb F32_num] in H. congruence.
Qed.

Lemma within_sorted radius range_filter out : Forall okd out -> closest_first true out -> set_sorted (within_range radius range_filter out).
Proof.
  intros Ho Hs. unfold closest_first in Hs. induction Hs as [|d out Hs IH Hd]; [constructor|]. apply Forall_cons_1 in Ho as [Hod Ho]. unfold within_range. cbn [List.filter].
  destruct (in_range _ _ _); [|by apply IH]. cbn [map]. constructor; [by apply IH|]. apply list.Forall_forall. intros x Hx.
  apply list_elem_of_fmap in Hx as (e & -> & He). apply list_elem_of_In, filter_In in He as [He _]. apply list_elem_of_In in He.
  pose proof (proj1 (list.Forall_forall _ _) Ho e He) as Hoe. pose proof (proj1 (list.Forall_forall _ _) Hd e He) as Hde. cbn beta in Hde.
  rewrite pair_gt_lt by done. unfold closer in Hde. rewrite (dist_gt_flip e d Hoe Hod) in Hde. by destruct d, e.
Qed.

(** the sparse brute-force range search and iterator agree.  For scores
    without NaN, the iterator of a query returns the allowed rows with a positive
    score once each, largest first; and for a radius that is not negative the
    range search of the same query returns exactly the iterator's results inside
    the range, with their ids and in the same order. *)
Theorem sparse_range_is_iterator_range radius range_filter : nok radius -> SFltb radius F32.zero = false ->
  exists out, out ≡ₚ rows_with (SFltb F32.zero) to_dist /\ closest_first true out /\
    yields (map as_pair out) (Precomputed.make (sparse_distances bd bitset is_bm25 computer q) true) /\
    sparse_range_query bd (BitsetView.set_id_offset bitset (xb_id_offset bd)) is_bm25 computer radius range_filter q =
      Ret (within_range radius range_filter out).
Proof.
  intros Hr Hr0. rewrite sparse_distances_spec. set (items := rows_with _ _).
  assert (Forall (fun d => okd d /\ did d <> (-1)%Z) items) as Hi.
  { apply list.Forall_forall. intros d (i & _ & Hd)%list_elem_of_omap. destruct (bf_rows bd !! i) as [row|] eqn:Hrow; [|done].
    destruct (_ && _); [|done]. injection Hd as <-. split; [exact (Forall_lookup_1 _ _ _ _ Hok Hrow)|cbn [to_dist DistId.id]; lia]. }
  destruct (precomputed_yields items true) as (out & Hp & Hs & Hy); [eapply Forall_impl; [exact Hi|]; by intros d [? ?]..|].
  exists out. split_and!; [done|done|done|]. destruct (range_query_spec radius range_filter) as (l & -> & Hl & Hsl). f_equal.
  assert (within_range radius range_filter out ≡ₚ rows_with (in_range radius range_filter) to_pair) as Hw.
  { rewrite <- (range_of_scored radius range_filter _ Hr Hr0). fold items. unfold within_range. by apply Permutation_map, perm_list_filter. }
  apply (StronglySorted_unique_strong (fun x y => pair_gt y x = false)); [|done| |by rewrite Hl, Hw].
  - intros x y Hx Hy' H1 H2. rewrite Hl in Hx. rewrite Hw in Hy'. destruct (decide (snd x = snd y)) as [E|Hne]; [by apply (scored_inj _ _ x y Hx Hy')|exfalso].
    apply scored_ids in Hx as [Hox _], Hy' as [Hoy _]. by rewrite (pair_gt_total x y Hox Hoy Hne H2) in H1.
  - apply within_sorted; [|done]. rewrite Hp. eapply Forall_impl; [exact Hi|]. by intros d [? _].
Qed.

End sparse_results.

(** ** Embedding lists: the best lists *)

#[export] Instance dist_lt_sw {A} `{!Num A, !NumOrder A} : StrictWeak (okd (A := A)) DistId.lt.
Proof. split; [intros x y; apply dist_lt_asym|intros x y z; apply dist_lt_negtrans]. Qed.

Section best.
Context (larger : bool).
Implicit Types (x y d : dist_id spec_float) (l q K D out : list (dist_id spec_float)).

#[local] Instance heap_order_sw : StrictWeak (okd (A:=spec_float)) (heap_order larger).
Proof. unfold heap_order. destruct larger; apply _. Qed.

(** [x] is no closer than [y]. *)
Definition no_closer x y : Prop := if larger then nle (dval x) (dval y) else nle (dval y) (dval x).

#[local] Instance no_closer_trans : Transitive no_closer.
Proof. intros x y z. unfold no_closer. destruct larger; [apply nle_trans|]. intros H1 H2. by apply (nle_trans (dval z) (dval y) (dval x)). Qed.

Lemma on_top_no_closer x y : on_top okd (heap_order larger) x y -> no_closer x y.
Proof.
  intros (Hx & Hy & Hc). unfold no_closer, heap_order in *. destruct larger.
  - rewrite (dist_gt_flip x y Hx Hy) in Hc. apply (dist_lt_false y x Hy Hx) in Hc as [Hc _]. split; [done|]. split; [done|exact Hc].
  - apply (dist_lt_false x y Hx Hy) in Hc as [Hc _]. split; [done|]. split; [done|exact Hc].
Qed.

(** [K] are [cap] of the closest of [l], all of them while they fit. *)
Definition best_of (cap : nat) l K : Prop :=
  exists D, l ≡ₚ K ++ D /\ length K <= cap /\ (D = [] \/ length K = cap) /\ forall k d, k ∈ K -> d ∈ D -> no_closer d k.

Lemma keep_best_spec cap l q d : 0 < cap -> queue okd (heap_order larger) q -> okd d -> best_of cap l q ->
  wp (keep_best larger cap q d) (fun q' => queue okd (heap_order larger) q' /\ best_of cap (l ++ [d]) q').
Proof.
  intros Hcap Hq Hd (D & HlD & Hlen & HD & Hle). unfold keep_best. destruct (Nat.ltb_spec (length q) cap) as [Hlt|Hge].
  - eapply wp_mono; [exact (queue_emplace okd (heap_order larger) q d Hq Hd)|]. intros q' [Hq' Hp]. split; [done|]. destruct HD as [->|HD]; [|lia]. exists [].
    split_and!; [rewrite Hp, HlD, !app_nil_r; by rewrite Permutation_app_comm|rewrite Hp; cbn [length]; lia|by left|by intros k e _ ?%elem_of_nil].
  - destruct q as [|t q]; [cbn [length] in *; lia|]. cbn [top vget lookup list_lookup]. change (top (t :: q)) with (Ret t). cbn [bind].
    pose proof (queue_top okd (heap_order larger) t q Hq) as Htop. apply Forall_cons_1 in Htop as [_ Htop]. pose proof Hq as [HP _]. apply Forall_cons_1 in HP as [Ht HP].
    assert (forall k, k ∈ q -> no_closer t k) as Htk by (intros k Hk; apply on_top_no_closer; by apply (proj1 (list.Forall_forall _ _) Htop)).
    assert (length (t :: q) = cap) as Hfull by lia.
    destruct (if larger then _ else _) eqn:Hc.
    + assert (no_closer t d) as Htd by (unfold no_closer; destruct larger; by apply nltb_nle).
      apply wp_bind. eapply wp_mono; [exact (queue_pop okd (heap_order larger) t q Hq)|]. intros q1 [Hq1 Hp1].
      eapply wp_mono; [exact (queue_emplace okd (heap_order larger) q1 d Hq1 Hd)|]. intros q2 [Hq2 Hp2]. split; [done|].
      exists (t :: D). split_and!.
      * rewrite Hp2, Hp1, HlD, Permutation_app_comm. cbn [app]. apply perm_skip. apply Permutation_middle.
      * rewrite Hp2, Hp1. cbn [length] in *. lia.
      * right. rewrite Hp2, Hp1. cbn [length] in *. lia.
      * intros k e Hk He. rewrite Hp2, Hp1 in Hk. assert (no_closer t k) as Hk' by (apply elem_of_cons in Hk as [->|Hk]; [done|by apply Htk]).
        apply elem_of_cons in He as [->|He]; [done|]. transitivity t; [|done]. apply Hle; [by left|done].
    + assert (no_closer d t) as Hdt by (unfold no_closer; destruct larger; split; [done|split; [done|exact Hc]..|done|split; [done|exact Hc]]).
      cbn [wp]. split; [done|]. exists (d :: D). split_and!; [by rewrite HlD, <- app_assoc, (Permutation_app_comm D [d])|done|by right|].
      intros k e Hk He. assert (no_closer d k) as Hdk by (apply elem_of_cons in Hk as [->|Hk]; [done|transitivity t; [done|by apply Htk]]).
      apply elem_of_cons in He as [->|He]; [done|by apply Hle].
Qed.

(** No later result is closer. *)
Definition best_first out : Prop := StronglySorted (fun x y => no_closer y x) out.

Lemma drain_heap_spec (m j0 : nat) q ds ls : queue okd (heap_order larger) q -> length q = m -> m <= length ds -> m <= length ls ->
  wp (foldM (fun (st : list (dist_id spec_float) * list spec_float * list Z) j =>
      let '(heap, ds, ls) := st in
      let* a := top heap in
      let* ls := vset ls (j0 + m - j - 1) (did a) in
      let* ds := vset ds (j0 + m - j - 1) (dval a) in
      let* heap := pop (heap_order larger) heap in
      Ret (heap, ds, ls))
    (q, ds, ls) (seq j0 m)) (fun '(_, ds', ls') => exists out, out ≡ₚ q /\ best_first out /\
      ds' = map dval out ++ drop m ds /\ ls' = map did out ++ drop m ls).
Proof.
  revert j0 q ds ls. induction m as [|m IH]; intros j0 q ds ls Hq Hm Hd Hl.
  - apply length_zero_iff_nil in Hm as ->. exists []. split_and!; [done|constructor|done|done].
  - destruct q as [|t q]; [done|]. cbn [seq foldM]. change (top (t :: q)) with (Ret t). cbn [bind]. replace (j0 + S m - j0 - 1) with m by lia.
    apply wp_bind, wp_bind, wp_vset; [lia|]. apply wp_bind, wp_vset; [lia|]. apply wp_bind. eapply wp_mono; [exact (queue_pop okd (heap_order larger) t q Hq)|]. intros q1 [Hq1 Hp1]. cbn [wp].
    assert (length q1 = m) as Hl1 by (rewrite Hp1; cbn [length] in Hm; lia).
    replace (j0 + S m) with (S j0 + m) by lia.
    eapply wp_mono; [apply (IH (S j0) q1); [done|done|rewrite length_insert; lia|rewrite length_insert; lia]|].
    intros [[h ds'] ls'] (out & Hp & Hs & -> & ->). exists (out ++ [t]).
    assert (length out = m) as Hlo by (by rewrite Hp). split_and!.
    + rewrite Hp, Hp1. by rewrite Permutation_app_comm.
    + apply StronglySorted_app. split_and!; [|done|by repeat constructor]. intros x y Hx ->%list_elem_of_singleton. apply on_top_no_closer.
      pose proof (queue_top okd (heap_order larger) t q Hq) as Htop. apply Forall_cons_1 in Htop as [_ Htop]. apply (proj1 (list.Forall_forall _ _) Htop). by rewrite <- Hp1, <- Hp.
    + rewrite map_app, drop_insert_here by lia. cbn [map]. by rewrite <- app_assoc, Nat.add_1_r.
    + rewrite map_app, drop_insert_here by lia. cbn [map]. by rewrite <- app_assoc, Nat.add_1_r.
Qed.

Section el_search.
Context (score : nat -> M (Status + spec_float)) (sc : nat -> spec_float) (topk begin n : nat) (bitset : BitsetView.t).
Context (Hb : BitsetView.plain bitset) (Hk : 0 < topk).
Context (Hscore : forall j, j < n -> allowed bitset (j + begin) = true -> score j = Ret (inr (sc j)) /\ nok (sc j)).

Definition el_items (js : list nat) : list (dist_id spec_float) :=
  omap (fun j => if allowed bitset (j + begin) then Some (DistId.mk (Z.of_nat j + Z.of_nat begin)%Z (sc j)) else None) js.

Lemma el_loop_spec js l q : Forall (fun j => j < n) js -> queue okd (heap_order larger) q -> best_of topk l q ->
  wp (el_loop score larger topk (BitsetView.set_id_offset bitset begin) begin js q)
    (fun r => exists q', r = inr q' /\ queue okd (heap_order larger) q' /\ best_of topk (l ++ el_items js) q').
Proof.
  intros Hjs. revert l q. induction Hjs as [|j js Hj _ IH]; intros l q Hq Hbest; cbn [el_loop].
  - exists q. unfold el_items. cbn [omap list_omap]. by rewrite app_nil_r.
  - pose proof (shifted_test (mkBaseData [] begin) bitset Hb j) as Et. cbn [xb_id_offset] in Et. rewrite Et. cbn [bind]. unfold el_items. cbn [omap list_omap].
    destruct (allowed bitset (j + begin)) eqn:Ha; cbn [negb]; [|by apply IH]. destruct (Hscore j Hj Ha) as [-> Hs]. cbn [bind]. apply wp_bind.
    set (d := DistId.mk _ _). eapply wp_mono; [exact (keep_best_spec topk l q d Hk Hq Hs Hbest)|]. intros q1 [Hq1 Hb1].
    eapply wp_mono; [exact (IH (l ++ [d]) q1 Hq1 Hb1)|]. intros r (q' & -> & Hq' & Hb'). exists q'. by rewrite <- app_assoc in Hb'.
Qed.

Lemma el_query_spec : let fill := if larger then float_min else float_max in
  exists out, el_query score larger topk (BitsetView.set_id_offset bitset begin) begin n =
      Ret (inr (map dval out ++ replicate (topk - length out) fill, map did out ++ replicate (topk - length out) (-1)%Z)) /\
    best_of topk (el_items (seq 0 n)) out /\ best_first out.
Proof.
  intros fill. unfold el_query.
  destruct (wp_elim _ _ (el_loop_spec (seq 0 n) [] [] ltac:(apply Forall_seq; intros; lia) (queue_nil okd (heap_order larger))
    ltac:(exists []; split_and!; [done|cbn [length]; lia|by left|by intros k d ?%elem_of_nil]))) as (r & -> & q & -> & Hq & Hbest).
  cbn [bind app] in *. unfold drain_heap. fold fill. pose proof Hbest as (D & HlD & Hlen & HD & Hle).
  pose proof (drain_heap_spec (length q) 0 q (replicate topk fill) (replicate topk (-1)%Z) Hq eq_refl
    ltac:(rewrite length_replicate; lia) ltac:(rewrite length_replicate; lia)) as Hdr. cbn [Nat.add] in Hdr.
  apply wp_elim in Hdr as ([[h ds] ls] & E & out & Hp & Hs & -> & ->). rewrite E. cbn [bind]. exists out. rewrite !drop_replicate, <- (Permutation_length Hp).
  split; [done|]. split; [|done]. exists D. rewrite Hp. split_and!; [done|done|done|]. intros k d Hin. apply Hle. by rewrite <- Hp.
Qed.

End el_search.

End best.

(** ** Dense searches *)

Section dense_props.
Context {Json : Type} `{JL : !JsonLib Json, FC : !FloatConv} {PS : StdPartialSort} `{FK : !Faiss}.

Lemma run_all_spec {B} (task : nat -> M (Status + B)) (P : nat -> B -> Prop) n :
  (forall i, i < n -> exists b, task i = Ret (inr b) /\ P i b) ->
  exists bs, run_all task n = Ret (inr bs) /\ Forall2 P (seq 0 n) bs.
Proof.
  intros H. unfold run_all. enough (exists bs, foldM (fun rs i => let* r := task i in Ret (rs ++ [r])) [] (seq 0 n) = Ret (map inr bs) /\ Forall2 P (seq 0 n) bs) as (bs & -> & Hf).
  { exists bs. split; [|done]. cbn [bind]. f_equal. clear. induction bs as [|b bs IH]; [done|]. cbn [map wait_all]. by rewrite IH. }
  induction n as [|n IH]; [by exists []|]. destruct IH as (bs & E & Hf); [intros i Hi; apply H; lia|]. destruct (H n ltac:(lia)) as (b & Eb & Hp).
  exists (bs ++ [b]). rewrite seq_S, foldM_app, E. cbn [bind foldM Nat.add]. rewrite Eb. cbn [bind]. rewrite map_app. split; [done|]. by apply Forall2_app; [|constructor].
Qed.

(** The results of one query list. *)
Definition el_distances_out (larger : bool) (topk : nat) (out : list (dist_id spec_float)) : list spec_float :=
  map dval out ++ replicate (topk - length out) (if larger then float_min else float_max).
Definition el_labels_out (topk : nat) (out : list (dist_id spec_float)) : list Z := map did out ++ replicate (topk - length out) (-1)%Z.

(** C20: the brute-force search over embedding lists.  When the metric names an
    aggregation and a measure, both data sets have their offsets, and every
    allowed pair of lists has a score that is not NaN, the search returns for
    every query list the [k] closest base lists (all, if fewer), closest first
    and with their ids counted from the first id of the data, among those the
    bitset allows; the remaining places hold -1. *)
Theorem emb_list_search_returns_best ty xd qd metric el sub agg topk bitset xl ql base_off query_off (sc : nat -> nat -> spec_float) :
  let larger := negb (String.eqb sub "L2" || String.eqb sub "HAMMING" || String.eqb sub "JACCARD") in
  get_el_metric_type metric = Some el -> get_emb_list_agg_func float_lowest float_max el = Some agg -> get_sub_metric_type metric = Some sub ->
  dn_lims xd = Some xl -> dn_lims qd = Some ql -> emb_list_offset xl (dn_rows xd) = Ret base_off -> emb_list_offset ql (dn_rows qd) = Ret query_off ->
  BitsetView.plain bitset -> 0 < topk ->
  (forall i j, i < num_el query_off -> j < num_el base_off -> allowed bitset (j + dn_begin xd) = true ->
    el_score ty sub (call_agg agg) larger base_off query_off xd qd i j = Ret (inr (sc i j)) /\ nok (sc i j)) ->
  exists outs, emb_list_search ty xd qd metric topk bitset =
      Ret (inr (concat (map (el_distances_out larger topk) outs), concat (map (el_labels_out topk) outs))) /\
    Forall2 (fun i out => best_of larger topk (el_items (sc i) (dn_begin xd) bitset (seq 0 (num_el base_off))) out /\ best_first larger out)
      (seq 0 (num_el query_off)) outs.
Proof.
  intros larger Hel Hagg Hsub Hxl Hql Hbo Hqo Hb Hk Hsc. unfold emb_list_search. rewrite Hel, Hagg, Hsub, Hxl, Hql, Hbo. cbn [bind]. rewrite Hqo. cbn [bind]. fold larger.
  destruct (run_all_spec (fun i => el_query (el_score ty sub (call_agg agg) larger base_off query_off xd qd i) larger topk
      (BitsetView.set_id_offset bitset (dn_begin xd)) (dn_begin xd) (num_el base_off))
    (fun i r => exists out, r = (el_distances_out larger topk out, el_labels_out topk out) /\
      best_of larger topk (el_items (sc i) (dn_begin xd) bitset (seq 0 (num_el base_off))) out /\ best_first larger out) (num_el query_off)) as (rs & -> & Hf).
  { intros i Hi. destruct (el_query_spec larger (el_score ty sub (call_agg agg) larger base_off query_off xd qd i) (sc i) topk (dn_begin xd) (num_el base_off) bitset Hb Hk
      (fun j Hj => Hsc i j Hi Hj)) as (out & E & Hbest & Hs). eexists. split; [exact E|]. by exists out. }
  cbn [bind]. induction Hf as [|i r js rs (out & -> & Hbest) _ (outs & E & Hfs)]; [by exists []|]. injection E as E1 E2. exists (out :: outs). cbn [map concat fst snd].
  split; [by rewrite E1, E2|]. by constructor.
Qed.

(** C40: the binary iterators return filtered rows.  When the kernel writes a
    distance for every row, as faiss's does, the Hamming and Jaccard iterators
    return every row of the data, also those that the bitset filters out, at the
    distance the kernel wrote for them. *)
Theorem binary_iterator_returns_filtered xd xq dim norms bitset index m (ds : list spec_float) :
  let code_size := (dim + 7) / 8 in
  let cur_query := at_row xq (1 * code_size) index in
  let sel := selector (BitsetView.set_id_offset bitset (dn_begin xd)) in
  m = METRIC_Hamming /\ all_hamming_distances cur_query (dn_tensor xd) code_size 1 (dn_rows xd) (replicate (dn_rows xd) float_max) sel = Ret ds \/
  m = METRIC_Jaccard /\ all_jaccard_distances cur_query (dn_tensor xd) code_size 1 (dn_rows xd) (replicate (dn_rows xd) float_max) sel = Ret ds ->
  length ds = dn_rows xd -> Forall nok ds ->
  exists out, out ≡ₚ map (fun j => DistId.mk (Z.of_nat j + Z.of_nat (dn_begin xd))%Z (nth j ds float_max)) (seq 0 (dn_rows xd)) /\ closest_first false out /\
    yields (map as_pair out) (Precomputed.make (dense_distances bin1 m false norms xd xq dim bitset index) false).
Proof.
  intros code_size cur_query sel Hm Hlen Hok. set (items := map _ (seq 0 (dn_rows xd))).
  assert (dense_distances bin1 m false norms xd xq dim bitset index = Ret items) as ->.
  { assert (foldM (fun l j => let* d := vget ds j in vset l j (DistId.mk (Z.of_nat j) d)) (replicate (dn_rows xd) (DistId.mk (-1)%Z float_max)) (seq 0 (dn_rows xd)) =
      Ret (map (fun j => DistId.mk (Z.of_nat j) (nth j ds float_max)) (seq 0 (dn_rows xd)))) as E.
    { match goal with |- ?c = Ret ?r => enough (wp c (fun l => l = r)) as H by (by apply wp_elim in H as (? & -> & ->)) end.
      apply (wp_for _ (fun j l => l = map (fun j => DistId.mk (Z.of_nat j) (nth j ds float_max)) (seq 0 j) ++ replicate (dn_rows xd - j) (DistId.mk (-1)%Z float_max))).
      - by rewrite Nat.sub_0_r.
      - intros j l Hj ->. destruct (lookup_lt_is_Some_2 ds j ltac:(lia)) as [d Hd]. rewrite (proj2 (vget_Ret _ _ _) Hd). cbn [bind].
        destruct (dn_rows xd - j) as [|k] eqn:Ek; [lia|]. cbn [replicate]. set (pre := map _ (seq 0 j)). assert (length pre = j) as Hp by (unfold pre; by rewrite length_map, length_seq).
        pose proof (vset_split pre (DistId.mk (-1)%Z float_max) (replicate k (DistId.mk (-1)%Z float_max)) (DistId.mk (Z.of_nat j) d)) as Ev. rewrite Hp in Ev. rewrite Ev. cbn [wp]. rewrite Nat.add_1_r, seq_S, map_app. fold pre. cbn [map Nat.add]. rewrite <- app_assoc. cbn [app].
        rewrite (nth_lookup_Some _ _ float_max _ Hd). by replace (dn_rows xd - S j) with k by lia.
      - intros l ->. rewrite Nat.add_0_l, Nat.sub_diag. cbn [replicate]. by rewrite app_nil_r. }
    unfold dense_distances. cbn [size_of orb]. rewrite (bool_decide_eq_false_2 (m = METRIC_INNER_PRODUCT)) by (by destruct Hm as [[-> _]|[-> _]]). cbn [orb].
    assert (map (fun d : dist_id spec_float => DistId.mk (shift_label (dn_begin xd) (did d)) (dval d)) (map (fun j => DistId.mk (Z.of_nat j) (nth j ds float_max)) (seq 0 (dn_rows xd))) = items) as Eshift.
    { rewrite map_map. apply map_ext. intros j. cbn [DistId.id DistId.val]. unfold shift_label. by rewrite (proj2 (Z.eqb_neq _ _)) by lia. }
    assert (forall l, l = map (fun j => DistId.mk (Z.of_nat j) (nth j ds float_max)) (seq 0 (dn_rows xd)) -> dn_begin xd = 0 -> l = items) as Ezero.
    { intros l -> E0. apply map_ext. intros j. f_equal. rewrite E0. lia. }
    destruct Hm as [[-> Hk]|[-> Hk]]; unfold cur_query, code_size, sel in Hk; rewrite Hk; cbn [bind]; rewrite E; cbn [bind]; f_equal;
      (destruct (Nat.eqb_spec (dn_begin xd) 0); [by apply Ezero|exact Eshift]). }
  apply precomputed_yields; apply list.Forall_forall; intros d Hd; apply list_elem_of_fmap in Hd as (j & -> & Hj%elem_of_seq).
  - destruct (lookup_lt_is_Some_2 ds j ltac:(lia)) as [d Hd]. unfold okd. cbn [DistId.val]. rewrite (nth_lookup_Some _ _ float_max _ Hd). exact (Forall_lookup_1 _ _ _ _ Hok Hd).
  - cbn [DistId.id]. lia.
Qed.

(** For a similarity, places that are left over outrank lists with a negative
    score: they hold the least positive float with the label -1, behind the lists. *)
Theorem padding_outranks_lists score (sc : nat -> spec_float) topk begin n bitset : BitsetView.plain bitset -> n < topk ->
  (forall j, j < n -> allowed bitset (j + begin) = true -> score j = Ret (inr (sc j)) /\ nok (sc j) /\ SFltb (sc j) float_min = true) ->
  exists ds ls m, el_query score true topk (BitsetView.set_id_offset bitset begin) begin n = Ret (inr (ds, ls)) /\ m <= n /\
    (forall i d, i < m -> ds !! i = Some d -> SFltb d float_min = true) /\
    (forall i, m <= i < topk -> ds !! i = Some float_min /\ ls !! i = Some (-1)%Z).
Proof.
  intros Hb Hn Hsc. destruct (el_query_spec true score sc topk begin n bitset Hb ltac:(lia)) as (out & E & (D & HlD & Hlen & _) & _).
  { intros j Hj Ha. destruct (Hsc j Hj Ha) as (? & ? & _). done. }
  assert (length (el_items sc begin bitset (seq 0 n)) <= n) as Hle.
  { unfold el_items. rewrite <- (length_seq n 0) at 2. generalize (seq 0 n). intros l. induction l as [|j l IH]; [done|]. cbn [omap list_omap length].
    destruct (allowed _ _); cbn [length]; lia. }
  rewrite HlD, length_app in Hle. eexists _, _, (length out). split; [exact E|]. split; [lia|]. split.
  - intros i d Hi Hd. rewrite lookup_app_l in Hd by (by rewrite length_map). rewrite list_lookup_fmap in Hd. apply fmap_Some in Hd as (x & Hx & ->).
    assert (x ∈ el_items sc begin bitset (seq 0 n)) as Hin by (rewrite HlD; apply elem_of_app; left; by eapply list_elem_of_lookup_2).
    apply list_elem_of_omap in Hin as (j & Hj%elem_of_seq & Hin). destruct (allowed bitset (j + begin)) eqn:Ha; [|done]. injection Hin as <-. cbn [DistId.val].
    by destruct (Hsc j ltac:(lia) Ha) as (_ & _ & ?).
  - intros i Hi. split; rewrite lookup_app_r by (rewrite length_map; lia); rewrite length_map; apply lookup_replicate_2; lia.
Qed.

(** What faiss's searches promise of their labels: -1, or a selected row. *)
Definition label_ok (nb : nat) (sel : option BitsetView.t) (l : Z) : Prop :=
  l = (-1)%Z \/ exists j, j < nb /\ l = Z.of_nat j /\ (forall b, sel = Some b -> BitsetView.is_member b j = Ret true).
Class FaissLaws := {
  knn_labels : forall m ty q xb norms dim nb topk sel ds ls, knn m ty q xb norms dim nb topk sel = Ret (ds, ls) -> Forall (label_ok nb sel) ls;
  jaccard_labels : forall q xb nb code topk sel ds ls, binary_knn_hc_jaccard q xb nb code topk sel = Ret (ds, ls) -> Forall (label_ok nb sel) ls;
  hamming_labels : forall q xb nb code topk sel ds ls, binary_knn_hc_hamming q xb nb code topk sel = Ret (ds, ls) -> Forall (label_ok nb sel) ls;
  match_labels : forall m q xb nb topk code sel ds ls, binary_knn_mc m q xb nb topk code sel = Ret (ds, ls) -> Forall (label_ok nb sel) ls
}.

Context `{FL : !FaissLaws}.

Lemma query_labels ty metric is_cosine norms xd xq dim topk sel index ds ls :
  dense_query ty metric is_cosine norms xd xq dim topk sel index = Ret (inr (ds, ls)) -> Forall (label_ok (dn_rows xd) sel) ls.
Proof.
  unfold dense_query. destruct metric; cbv zeta.
  - destruct (vector_type ty); [|done]. destruct (kernel_query _ _ _ _); cbn [bind]; [|done..]. destruct (knn _ _ _ _ _ _ _ _ _) as [[? ?]| |] eqn:E; [|done..].
    intros [= <- <-]. by eapply knn_labels.
  - destruct (vector_type ty); [|done]. destruct (kernel_query _ _ _ _); cbn [bind]; [|done..]. destruct (knn _ _ _ _ _ _ _ _ _) as [[? ?]| |] eqn:E; [|done..].
    intros [= <- <-]. by eapply knn_labels.
  - destruct (binary_knn_hc_hamming _ _ _ _ _ _) as [[? ?]| |] eqn:E; [|done..]. intros [= <- <-]. by eapply hamming_labels.
  - destruct (binary_knn_hc_jaccard _ _ _ _ _ _) as [[? ?]| |] eqn:E; [|done..]. intros [= <- <-]. by eapply jaccard_labels.
  - destruct (binary_knn_mc _ _ _ _ _ _ _) as [[? ?]| |] eqn:E; [|done..]. intros [= <- <-]. by eapply match_labels.
  - destruct (binary_knn_mc _ _ _ _ _ _ _) as [[? ?]| |] eqn:E; [|done..]. intros [= <- <-]. by eapply match_labels.
  - done.
Qed.

Lemma run_all_inv {B} (task : nat -> M (Status + B)) n bs : run_all task n = Ret (inr bs) -> forall b, b ∈ bs -> exists i, task i = Ret (inr b).
Proof.
  unfold run_all. intros H. enough (forall acc rs, foldM (fun rs i => let* r := task i in Ret (rs ++ [r])) acc (seq 0 n) = Ret rs ->
    forall r, r ∈ rs -> r ∈ acc \/ exists i, task i = Ret r) as G.
  { destruct (foldM _ [] (seq 0 n)) as [rs| |] eqn:E; [|done..]. cbn [bind] in H. injection H as H. intros b Hb.
    assert (inr b ∈ rs) as Hin. { clear -H Hb. revert bs H Hb. induction rs as [|[s|c] rs IH]; intros bs H Hb; cbn [wait_all] in H; [injection H as <-; by apply elem_of_nil in Hb|done|].
      destruct (wait_all rs) as [|cs] eqn:Ew; [done|]. injection H as <-. apply elem_of_cons in Hb as [->|Hb]; [by left|right]. by apply (IH cs). }
    destruct (G [] rs E _ Hin) as [?%elem_of_nil|Hi]; [done|exact Hi]. }
  clear H. generalize (seq 0 n). intros l. induction l as [|i l IH]; intros acc rs E r Hr; cbn [foldM] in E; [injection E as <-; by left|].
  destruct (task i) as [r0| |] eqn:Et; cbn [bind] in E; [|done..]. destruct (IH _ _ E r Hr) as [Hin|Hex]; [|by right].
  apply elem_of_app in Hin as [Hin|Hin]; [by left|right]. apply list_elem_of_singleton in Hin as ->. by exists i.
Qed.

(** dense searches filter and answer by real ids.  Given faiss's promise that
    a label is -1 or a selected row, every label that the dense search returns is
    -1 or the id, counted from the first id of the data, of a row of the data
    whose id the caller's bitset allows. *)
Theorem dense_labels_are_real_ids ty xd qd metric topk bitset ds ls : BitsetView.plain bitset ->
  dense_search ty xd qd metric topk bitset = Ret (inr (ds, ls)) ->
  Forall (fun l => l = (-1)%Z \/ exists j, j < dn_rows xd /\ l = Z.of_nat (j + dn_begin xd) /\ allowed bitset (j + dn_begin xd) = true) ls.
Proof.
  intros Hb. unfold dense_search. destruct (exp_val _) as [m|]; [|done]. cbv zeta. set (is_cosine := IsMetricType metric "COSINE").
  destruct (if is_cosine then _ else _) as [norms| |]; cbn [bind]; [|done..]. set (sel := selector _).
  destruct (run_all _ _) as [[s|rs]| |] eqn:E; cbn [bind]; [done| |done..]. intros [= <- <-].
  assert (Forall (label_ok (dn_rows xd) sel) (concat (map snd rs))) as Hl.
  { apply list.Forall_forall. intros l Hin. apply list_elem_of_In, in_concat in Hin as (x & Hx & Hin). apply in_map_iff in Hx as ([d0 l0] & <- & Hr).
    destruct (run_all_inv _ _ _ E (d0, l0)) as [i Hi]; [by apply list_elem_of_In|]. apply query_labels in Hi.
    apply (proj1 (list.Forall_forall _ _) Hi). by apply list_elem_of_In. }
  assert (forall j, (forall b, sel = Some b -> BitsetView.is_member b j = Ret true) -> allowed bitset (j + dn_begin xd) = true) as Hsel.
  { intros j Hj. pose proof (shifted_test (mkBaseData [] (dn_begin xd)) bitset Hb j) as Et. cbn [xb_id_offset] in Et. unfold filtered_out in Et.
    unfold sel, selector in Hj. destruct (BitsetView.empty _) eqn:Ee.
    - injection Et as Et. by destruct (allowed _ _).
    - specialize (Hj _ eq_refl). unfold BitsetView.is_member in Hj. rewrite Et in Hj. cbn [bind] in Hj. injection Hj as Hj. by rewrite negb_involutive in Hj. }
  unfold shift_labels. destruct (Nat.eqb_spec (dn_begin xd) 0) as [E0|E0].
  - eapply Forall_impl; [exact Hl|]. intros l [->|(j & Hj & -> & Hs)]; [by left|right]. exists j. split_and!; [done|lia|by apply Hsel].
  - apply Forall_map. eapply Forall_impl; [exact Hl|]. intros l [->|(j & Hj & -> & Hs)]; [by left|right]. exists j. unfold shift_label.
    rewrite (proj2 (Z.eqb_neq _ _)) by lia. split_and!; [done|lia|by apply Hsel].
Qed.

End dense_props.

(** ** Examples *)

(** The members that a load leaves behind. *)
Definition loaded (m : M (Fields * Status)) : Fields := match m with Ret (fs, _) => fs | _ => ∅ end.

Lemma loaded_ok m : match m with Ret (_, s) => s | _ => invalid_args end = success -> m = Ret (loaded m, success).
Proof. destruct m as [[fs s]| |]; [|done..]. by intros ->. Qed.

Definition small_data : BaseData := mkBaseData ex_rows 10.
Definition ip_json : gmap string json_value := <["metric_type" := JString "IP"]> {["k" := JInt 2]}.

(** Three rows with the ids 10 to 12, of which 10 is filtered out. *)
Definition ids_filtered : BitsetView.t := BitsetView.mkBitset [0; 4]%Z 13 1 0 None 0 0.

Lemma ids_filtered_plain : BitsetView.plain ids_filtered.
Proof.
  split; [done|done|bytes_ok|vm_compute; lia|]. intros i Hi. change (BitsetView.byte_size ids_filtered) with 2 in Hi.
  cbn [BitsetView.num_bits ids_filtered] in Hi. do 16 (destruct i as [|i]; [lia || reflexivity|]). lia.
Qed.

Lemma ex_scores_ok : Forall (fun row => nok (bf_score false GetDocValueOriginalComputer ex_query row) /\
  SFltb (bf_score false GetDocValueOriginalComputer ex_query row) F32.zero = false) ex_rows.
Proof. repeat (apply Forall_cons_2; [split; vm_compute; reflexivity|]). apply Forall_nil_2. Qed.

Lemma ex_scores_nok : Forall (fun row => nok (bf_score false GetDocValueOriginalComputer ex_query row)) ex_rows.
Proof. repeat (apply Forall_cons_2; [vm_compute; reflexivity|]). apply Forall_nil_2. Qed.

Lemma sparse_brute_force_topk_witness : exists outs,
  @SearchSparse json_value json_lib 8 small_data [ex_query] ip_json ids_filtered =
    Ret (of_value (mkKnn 1 2 (concat (map (padded_labels 2) outs)) (concat (map (padded_distances 2) outs)))) /\
  Forall2 (fun q out => rank 2 (bf_candidates small_data ids_filtered (IsMetricType "IP" "BM25") GetDocValueOriginalComputer q) out) [ex_query] outs.
Proof.
  apply (@sparse_brute_force_topk json_value json_lib 8 small_data [ex_query] ip_json ids_filtered
    (loaded (@Load json_value json_lib (BruteForceConfig 8) ip_json SEARCH)) "IP" 2 GetDocValueOriginalComputer);
    [apply loaded_ok; vm_compute; reflexivity|vm_compute; reflexivity|vm_compute; reflexivity|lia|vm_compute; reflexivity|exact ids_filtered_plain|].
  apply Forall_cons_2; [exact ex_scores_nok|apply Forall_nil_2].
Defined.

Lemma failed_sparse_search_reports_rows_witness :
  @SearchSparseWithBuf json_value json_lib 8 small_data [ex_query] [7; 7]%Z [F32.one; F32.one] {["k" := JInt 2]} ids_filtered =
    Ret (invalid_metric_type, ([7; 7]%Z, [F32.one; F32.one])) /\
  @SearchSparse json_value json_lib 8 small_data [ex_query] {["k" := JInt 2]} ids_filtered =
    Ret (of_value (mkKnn 1 2 [0; 0]%Z [F32.zero; F32.zero])).
Proof.
  apply (@failed_sparse_search_reports_rows json_value json_lib 8 small_data [ex_query] {["k" := JInt 2]} ids_filtered
    (loaded (@Load json_value json_lib (BruteForceConfig 8) {["k" := JInt 2]} SEARCH)) "L2" 2);
    [apply loaded_ok; vm_compute; reflexivity|vm_compute; reflexivity|vm_compute; reflexivity|reflexivity|reflexivity].
Defined.

Lemma index_search_matches_brute_force_witness : exists ix ires bres iout bout,
  SparseIndex.Add (Q:=spec_float) TAAT_NAIVE (new_index METRIC_IP None) ex_rows 8 = Ret ix /\
  SparseSearch.Search TAAT_NAIVE ix ex_query 2 first_row_filtered GetDocValueOriginalComputer (mkApprox 1 nzero F32.one) = Ret ires /\
  sparse_query (mkBaseData ex_rows 0) first_row_filtered false GetDocValueOriginalComputer 2 ex_query = Ret bres /\
  ires = (padded_distances 2 iout, padded_labels 2 iout) /\ bres = (padded_distances 2 bout, padded_labels 2 bout) /\
  rank 2 (bf_candidates (mkBaseData ex_rows 0) first_row_filtered false GetDocValueOriginalComputer ex_query) iout /\
  rank 2 (bf_candidates (mkBaseData ex_rows 0) first_row_filtered false GetDocValueOriginalComputer ex_query) bout /\
  Forall2 (fun x y => SFeqb (ival x) (ival y) = true) iout bout.
Proof.
  apply (index_search_matches_brute_force ex_rows 8 ex_query 2 first_row_filtered (mkApprox 1 nzero F32.one));
    [|repeat constructor|exact first_row_filtered_plain|lia|reflexivity|reflexivity|exact ex_scores_ok].
  repeat (apply Forall_cons_2; [split; repeat constructor|]). apply Forall_nil_2.
Defined.

Lemma sparse_range_is_iterator_range_witness : exists out,
  out ≡ₚ scored small_data ids_filtered false GetDocValueOriginalComputer ex_query (SFltb F32.zero) to_dist (seq 0 3) /\ closest_first true out /\
  yields (map as_pair out) (Precomputed.make (sparse_distances small_data ids_filtered false GetDocValueOriginalComputer ex_query) true) /\
  sparse_range_query small_data (BitsetView.set_id_offset ids_filtered 10) false GetDocValueOriginalComputer F32.one (F32.of_Z 100) ex_query =
    Ret (within_range F32.one (F32.of_Z 100) out).
Proof.
  apply (sparse_range_is_iterator_range small_data ids_filtered false GetDocValueOriginalComputer ex_query ids_filtered_plain ex_scores_nok F32.one (F32.of_Z 100));
    vm_compute; reflexivity.
Defined.

(** A small faiss: the first selected rows, and products of the first elements. *)
Definition pick (nb topk : nat) (sel : option BitsetView.t) : list Z :=
  take topk (omap (fun j => match sel with
    | None => Some (Z.of_nat j)
    | Some b => match BitsetView.is_member b j with Ret true => Some (Z.of_nat j) | _ => None end
    end) (seq 0 nb)).
Definition products (q xb : list Z) (nq nb : nat) : list spec_float :=
  concat (map (fun i => map (fun j => F32.of_Z (nth i q 0 * nth j xb 0)%Z) (seq 0 nb)) (seq 0 nq)).

#[local] Instance small_faiss : Faiss := {|
  norm_L2sqr ty x d := Ret F32.one;
  knn m ty q xb norms dim nb topk sel := Ret (map F32.of_Z (pick nb topk sel), pick nb topk sel);
  binary_knn_hc_jaccard q xb nb code topk sel := Ret (map F32.of_Z (pick nb topk sel), pick nb topk sel);
  binary_knn_hc_hamming q xb nb code topk sel := Ret (pick nb topk sel, pick nb topk sel);
  binary_knn_mc m q xb nb topk code sel := Ret (map F32.of_Z (pick nb topk sel), pick nb topk sel);
  range_search m ty q xb norms dim nb radius sel := Ret ([], []);
  binary_range_jaccard q xb nb radius code sel := Ret ([], []);
  binary_range_hamming q xb nb radius code sel := Ret ([], []);
  all_vec m ty q xb norms dim nb ds sel := Ret ds;
  all_measures m ty q xb dim nq nb := Ret (products q xb nq nb);
  all_hamming_distances q xb code nq nb ds sel := Ret (products q xb nq nb);
  all_jaccard_distances q xb code nq nb ds sel := Ret (products q xb nq nb)
|}.

Lemma pick_ok nb topk sel : Forall (label_ok nb sel) (pick nb topk sel).
Proof.
  apply Forall_take, list.Forall_forall. intros l (j & Hj%elem_of_seq & Hl)%list_elem_of_omap. right. exists j. split; [lia|].
  destruct sel as [b|]; [|injection Hl as <-; done]. destruct (BitsetView.is_member b j) as [[|]| |] eqn:E; [|done..]. injection Hl as <-. split; [done|].
  intros b' [= <-]. exact E.
Qed.

#[local] Instance small_faiss_laws : FaissLaws.
Proof. split; intros; simplify_eq/=; apply pick_ok. Qed.

(** Vectors 1 to 3 in the lists {1, 2} and {3}, with the ids 5 and 6. *)
Definition small_lists : DenseData := mkDense [1; 2; 3]%Z 3 1 5 (Some [0; 2; 3]).
Definition small_query : DenseData := mkDense [2]%Z 1 1 0 (Some [0; 1]).
Definition small_score (i j : nat) : spec_float :=
  match el_score int8 "IP" (get_sum_max_sim float_lowest float_max) true (mkOffset [0; 2; 3]) (mkOffset [0; 1]) small_lists small_query i j with
  | Ret (inr s) => s | _ => F32.zero
  end.

Lemma emb_list_search_returns_best_witness : exists outs,
  emb_list_search int8 small_lists small_query "MAX_SIM_IP" 3 no_filter =
    Ret (inr (concat (map (el_distances_out true 3) outs), concat (map (el_labels_out 3) outs))) /\
  Forall2 (fun i out => best_of true 3 (el_items (small_score i) 5 no_filter (seq 0 2)) out /\ best_first true out) (seq 0 1) outs.
Proof.
  apply (emb_list_search_returns_best int8 small_lists small_query "MAX_SIM_IP" "MAX_SIM" "IP" (Some (get_sum_max_sim float_lowest float_max)) 3 no_filter
    [0; 2; 3] [0; 1] (mkOffset [0; 2; 3]) (mkOffset [0; 1]) small_score);
    [vm_compute; reflexivity|reflexivity|vm_compute; reflexivity|reflexivity|reflexivity|vm_compute; reflexivity|vm_compute; reflexivity|exact no_filter_plain|lia|].
  intros i j Hi Hj _. change (num_el (mkOffset [0; 1])) with 1 in Hi. change (num_el (mkOffset [0; 2; 3])) with 2 in Hj.
  destruct i as [|i]; [|lia]. destruct j as [|[|j]]; [..|lia]; (split; vm_compute; reflexivity).
Defined.

Definition three_bytes : DenseData := mkDense [1; 2; 3]%Z 3 8 0 None.

Lemma binary_iterator_returns_filtered_witness : exists out,
  out ≡ₚ map (fun j => DistId.mk (Z.of_nat j + 0)%Z (nth j [F32.of_Z 1; F32.of_Z 2; F32.of_Z 3] float_max)) (seq 0 3) /\ closest_first false out /\
  yields (map as_pair out) (Precomputed.make (dense_distances bin1 METRIC_Hamming false None three_bytes [1]%Z 8 first_row_filtered 0) false) /\
  BitsetView.filtered first_row_filtered 0 = true.
Proof.
  destruct (binary_iterator_returns_filtered three_bytes [1]%Z 8 None first_row_filtered 0 METRIC_Hamming [F32.of_Z 1; F32.of_Z 2; F32.of_Z 3]) as (out & H1 & H2 & H3);
    [left; split; vm_compute; reflexivity|reflexivity|repeat (apply Forall_cons_2; [vm_compute; reflexivity|]); apply Forall_nil_2|].
  exists out. exact (conj H1 (conj H2 (conj H3 eq_refl))).
Defined.

Lemma dense_labels_are_real_ids_witness :
  dense_search int8 (mkDense [1; 2; 3]%Z 3 1 10 None) (mkDense [2]%Z 1 1 0 None) "IP" 3 ids_filtered = Ret (inr ([F32.of_Z 1; F32.of_Z 2], [11; 12]%Z)) /\
  Forall (fun l => l = (-1)%Z \/ exists j, j < 3 /\ l = Z.of_nat (j + 10) /\ allowed ids_filtered (j + 10) = true) [11; 12]%Z.
Proof.
  assert (dense_search int8 (mkDense [1; 2; 3]%Z 3 1 10 None) (mkDense [2]%Z 1 1 0 None) "IP" 3 ids_filtered = Ret (inr ([F32.of_Z 1; F32.of_Z 2], [11; 12]%Z))) as E
    by (vm_compute; reflexivity).
  split; [exact E|]. exact (dense_labels_are_real_ids int8 (mkDense [1; 2; 3]%Z 3 1 10 None) _ "IP" 3 ids_filtered _ _ ids_filtered_plain E).
Defined.
